(* ===== verification/_CoqProject ===== *)
-Q . S2P
Prelude.v
Serialize.v
HashStream.v
Sha256.v
Sha512.v
Ripemd160.v
Sha1.v
Hash.v
ArithUint256.v
Params.v
Chain.v
Pow.v
Script.v
Interpreter.v
Standard.v
Transaction.v
Sighash.v
Block.v
Merkle.v
MerkleBlock.v
MerkleTree.v
Compressor.v
Undo.v
Coins.v
TxDB.v
TxVerify.v
TxInputs.v
CheckQueue.v
Subsidy.v
Indexes.v
Disconnect.v
Connect.v
Reorg.v
BlockUndo.v
Payments.v
BlockCheck.v
BestChain.v
Activation.v
Invalidation.v
Kernel.v
StakeModifier.v
Acceptance.v
BlockFiles.v
Linking.v
NewBlocks.v
Mempool.v
MempoolGraph.v
MempoolInv.v
MempoolAdd.v
MempoolRemove.v
