(* ===== verification/Prelude.v ===== *)
(** * Verification of the Deviant (DEV) node: prelude

    Deviant is a proof-of-stake node of the PIVX family, in C++.  This library
    models its consensus core: from the bytes of a message to the set of
    unspent outputs of the best chain.  Paths are relative to src/src/.  This
    file, after the overview, holds what every other file uses: the outcomes of
    C++ code, machine integers, and lemmas and tactics on lists and maps.

    ** The program and its parts

    A node receives blocks and transactions as bytes.  [ProcessNewBlock]
    checks a block by itself, places it in the tree of all known blocks, writes
    it to a block file, and links it to its parent once its data and that of
    its ancestors are there.  [ActivateBestChain] then moves the tip of the
    active chain to the leaf with the most work, disconnecting blocks down to
    the fork and connecting blocks up to the candidate.  Connecting a block
    spends coins from, and adds coins to, a stack of caches above LevelDB; it
    runs the scripts of the inputs on a pool of threads, and writes the undo
    record from which the block can be disconnected.  A block is backed by work
    or by a stake: the kernel hash of the output it spends must be below a
    target that grows with its value, and, once the upgrade that asks for it is
    active, that output must be old enough.

    The files below follow these layers, each above those it calls.

    ** Bytes, hashes and numbers

    - Serialize: serialize.h, crypto/common.h, streams.h.  A stream is a list
      of bytes; [codec] is the interface of a serializable type (writer, reader,
      representable values) and [codec_ok] its law, which every wire type below
      discharges.
    - HashStream, Sha256, Sha512, Ripemd160, Sha1: crypto/*.cpp.  The
      buffering of the four [Write]/[Finalize] pairs over the interface
      [BlockHash], and the unrolled compression functions, proved equal to the
      loops of their standards.
    - Hash: hash.h, hash.cpp, crypto/hmac_*.  Double hashes, HMAC, MurmurHash3,
      SipHash.
    - ArithUint256: arith_uint256.h and .cpp, uint256.h.  Limb-by-limb
      arithmetic and the compact form of targets ([GetCompact_encodes]).

    ** Scripts and signatures

    - Script: script/script.h and .cpp.  Numbers, pushes, instructions,
      signature-operation counts.
    - Interpreter: script/interpreter.cpp.  [EvalScript] with every opcode and
      [VerifyScript]; [EvalScript_total]: it ends with an error or a stack
      within the limits on every input.
    - Standard: script/standard.cpp.  What it takes to spend a standard output
      ([EvalScript_cold_staking]).
    - Transaction: primitives/transaction.h and .cpp, sapling transactions,
      with round trips through the wire format.
    - Sighash: the signature hashes of script/interpreter.cpp; what a signature
      commits to ([SignatureHash_binds]).

    ** Blocks and their trees

    - Block: primitives/block.h and .cpp, [HashQuark].
    - Merkle, MerkleBlock: consensus/merkle.cpp, merkleblock.cpp.  Roots,
      branches and partial trees against the tree built level by level.
    - MerkleTree: sapling/incrementalmerkletree.h and .cpp, against the full
      tree over the list of leaves.
    - Params, Chain, Pow: consensus parameters and upgrades, chain.h and
      chain.cpp (index entries, skip list, [CChain]), pow.cpp.

    ** Coins

    - Compressor, Undo: compressor.*, coins.h, undo.h: the formats on disk.
    - Coins: coins.*.  [CCoinsView] is a class of operations and
      [CCoinsViewOk] its contract; [CCoinsViewCache] is an instance over any
      view, so the theorems hold for every depth of the stack.
    - TxDB: txdb.cpp, dbwrapper.h.  The database, the bottom instance, and the
      theorems on the whole stack: it is a set of unspent outputs
      ([cache_is_utxo_set]), and what a crash during a flush leaves
      ([interrupted_flush]).

    ** Checks

    - TxVerify, TxInputs: consensus/tx_verify.cpp, sapling and special
      transactions, [CheckTxInputs] and [CheckInputs] of validation.cpp.
    - CheckQueue: checkqueue.h, the threads that run scripts, as a transition
      system: the master returns, with the conjunction of the checks, under
      every interleaving.
    - Subsidy, Payments: the rewards (in IEEE doubles, as the source computes
      them) and masternode-payments.cpp.
    - BlockCheck: [CheckBlock], headers, checkpoints, blocksignature.cpp.
    - Kernel, StakeModifier: kernel.cpp, stakeinput.cpp,
      legacy/stakemodifier.cpp.

    ** The chain as it changes

    - Indexes, Disconnect, Connect: [UpdateCoins], [ConnectBlock],
      [DisconnectBlock] with the undo files and the indexes.
    - Reorg, BlockUndo: disconnecting undoes connecting, for the coins of a
      transaction and then of a block, through the files.
    - BestChain: the tree with its candidates and the operations that move the
      tip, over the interface [ChainState] of connecting and disconnecting.
    - Activation, Invalidation: its invariants; [ActivateBestChain] settles on
      the best candidate, and never on a block declared invalid.
    - Acceptance: [AcceptBlockHeader], [AcceptBlock], [FindBlockPos],
      [ProcessNewBlock].
    - BlockFiles, Linking, NewBlocks: blocks do not overlap on disk; arrived
      data is linked with the right counts; [ProcessNewBlock] keeps every
      invariant, and what it accepts is backed by work or stake.

    ** The memory pool

    - Mempool: txmempool.h and .cpp.  Entries with the counters of their
      ancestors and descendants, the links between them, the walks with their
      limits, adding, removing (for a block, a conflict, a reorganisation, an
      anchor, by age), prioritising, the transactions of disconnected blocks,
      the view of the coins with the outputs of the pool, and its indexes.
    - MempoolGraph: sums over sets of transactions, and the two walks against
      the transitive closure of the links.
    - MempoolInv: [pool_inv], the invariant: the links are those of the inputs,
      counters are sums over ancestors and descendants, every outpoint and
      nullifier is spent once, totals are right.  Removing a set that is closed
      under descendants, or one transaction with its descendants recounted,
      keeps it.
    - MempoolAdd, MempoolRemove: [CalculateMemPoolAncestors_iff] on the limits,
      [addUnchecked_keeps], and [removeForBlock_clears]: a connected block
      takes its transactions, what conflicts with them and what depends on that.

    ** How state and effects are modelled

    The state a function reads or writes is an argument and part of its
    result.  A function that can fail returns [outcome]: [Ok], [Err] with the
    error it records, [Throw] for an exception, [Abort] for a failed assertion
    or undefined behaviour; that [Abort] is not reached is a theorem wherever
    the code promises it.  Pointers into the block index are keys of a map, and
    a null or dangling one is [Abort] when it is followed.  Machine integers are
    [Z] with their conversions written out ([u32], [i64], ...); signed overflow
    is [Abort].  Interfaces are classes: [codec], [BlockHash],
    [BaseSignatureChecker], [CCoinsView], [ChainState]; clients are proved
    against the interface and instances discharge its laws.

    ** Fuel

    Loops whose recursion is not structural run on fuel, and each has a theorem
    that the fuel is enough: walks in the tree of blocks take the height (or
    the number of entries), which strictly decreases along [pprev]; the
    interpreter takes the bytes of the script left; Merkle computations the 32
    levels that a 32-bit count allows; [ActivateBestChain] the candidates and
    the steps to one, with [ActivateBestChain_settles] for the bound;
    [FindBlockPos] one more than the block files; the linking of waiting blocks
    the entries that wait; the walks in the pool the number of its
    transactions, since each enters the walked set once.  Running out is
    [Abort], so a theorem that the result is [Ok] also shows
    termination.

    ** What is outside

    Arguments of the model, with what the code relies on as hypotheses and
    concrete instances in the witnesses: libsecp256k1, libsodium and
    librustzcash (signatures, BLAKE2b, Pedersen hashes, proofs), the sphlib
    hash functions of [HashQuark], LevelDB (a map to which a batch is applied
    as one), the file system, the clock, the allocator.  Hash functions are
    never assumed injective: a theorem that needs it exhibits the collision.

    ** Not modelled

    - The network (net.cpp, net_processing.cpp), RPC, REST, the user
      interfaces, start-up (init.cpp) and utilities: input, output, threads and
      formatting around the operations above.
    - The wallet, keys and signing, block assembly: not consensus, and over
      BerkeleyDB and libsecp256k1.
    - The legacy zerocoin and the creation of Sapling proofs: big-number and
      elliptic-curve arithmetic of vendored libraries; consensus code calls them
      as arguments of the model.
    - Masternode lists, the budget and the sporks: their answers are
      arguments of the checks.
    - The loading and verification of the index at start-up, reindexing,
      pruning of indexes, cursors of the database: disk work.
    - Of the memory pool, the fee estimates, [TrimToSize] with the rolling
      minimum fee, and the priorities, which compute with doubles and time;
      [check], which only asserts; and [AcceptToMemoryPool].
    - Bloom filters, text encodings, the address manager: no consensus role.

    ** Findings

    Where code and comment, or code and intent, differ, a lemma shows the
    behaviour of the code and its comment says so: see for instance
    [VarInt_documented_encodings], [main_upgrades_out_of_order],
    [PrioritiseTransaction_stale] and [clear_keeps_nullifiers]. *)
From Stdlib Require Export ZArith Lia Bool.
From stdpp Require Export base tactics numbers list option strings gmap.
#[export] Set Default Goal Selector "!".
#[global] Open Scope Z_scope.

(** ** Outcomes of C++ code

    [Ok a]: the function returned [a]; [Err e]: it returned false (or an
    invalid state) after recording the error [e]; [Throw]: it left by a C++
    exception; [Abort]: an [assert] failed or the behaviour is undefined
    (an out-of-range read, a signed overflow, ...). *)
Inductive outcome (E A : Type) : Type :=
| Ok (a : A)
| Err (e : E)
| Throw
| Abort.
Arguments Ok {E A} a.
Arguments Err {E A} e.
Arguments Throw {E A}.
Arguments Abort {E A}.

#[export] Instance outcome_ret {E} : MRet (outcome E) := fun A a => Ok a.
#[export] Instance outcome_bind {E} : MBind (outcome E) := fun A B k m =>
  match m with
  | Ok a => k a
  | Err e => Err e
  | Throw => Throw
  | Abort => Abort
  end.

Definition is_ok {E A} (m : outcome E A) : bool :=
  match m with Ok _ => true | _ => false end.

(** An [assert]. *)
Definition cassert {E} (b : bool) : outcome E unit :=
  if b then Ok tt else Abort.

(** A read of element [i] of a buffer; out of range it is undefined. *)
Definition rd {E A} (l : list A) (i : Z) : outcome E A :=
  if bool_decide (0 <= i) then
    match l !! Z.to_nat i with Some x => Ok x | None => Abort end
  else Abort.

Notation zlen l := (Z.of_nat (length l)).
Lemma zlen_pos {A} (l : list A) : l <> [] -> 0 < zlen l.
Proof. destruct l; [done|]. cbn [length]. lia. Qed.

(** ** Machine integers

    A [w]-bit unsigned integer is a [Z] in [0, 2^w), a signed one a [Z] in
    [-2^(w-1), 2^(w-1)); [wrapu] and [wraps] are the conversions. *)
Definition wrapu (w x : Z) : Z := x mod 2 ^ w.
Definition wraps (w x : Z) : Z := (x + 2 ^ (w - 1)) mod 2 ^ w - 2 ^ (w - 1).
Notation u8 := (wrapu 8).
Notation u16 := (wrapu 16).
Notation u32 := (wrapu 32).
Notation u64 := (wrapu 64).
Notation i16 := (wraps 16).
Notation i32 := (wraps 32).
Notation i64 := (wraps 64).

Definition in_u (w x : Z) : Prop := 0 <= x < 2 ^ w.
Definition in_s (w x : Z) : Prop := - 2 ^ (w - 1) <= x < 2 ^ (w - 1).

#[export] Instance in_u_dec w x : Decision (in_u w x).
Proof. unfold in_u. apply _. Defined.
#[export] Instance in_s_dec w x : Decision (in_s w x).
Proof. unfold in_s. apply _. Defined.

Lemma wrapu_small w x : in_u w x -> wrapu w x = x.
Proof. intros H. apply Z.mod_small, H. Qed.

Lemma wrapu_range w x : 0 <= w -> in_u w (wrapu w x).
Proof. intros Hw. apply Z.mod_pos_bound. lia. Qed.

Lemma wraps_small w x : 1 <= w -> in_s w x -> wraps w x = x.
Proof.
  unfold in_s, wraps. intros Hw H.
  assert (2 ^ w = 2 * 2 ^ (w - 1)) as E.
  { rewrite <- Z.pow_succ_r by lia. f_equal. lia. }
  rewrite Z.mod_small; lia.
Qed.

Lemma wraps_range w x : 1 <= w -> in_s w (wraps w x).
Proof.
  unfold in_s, wraps. intros Hw.
  assert (2 ^ w = 2 * 2 ^ (w - 1)) as E.
  { rewrite <- Z.pow_succ_r by lia. f_equal. lia. }
  pose proof (Z.mod_pos_bound (x + 2 ^ (w - 1)) (2 ^ w) ltac:(lia)). lia.
Qed.

Lemma wraps_mod w x : 1 <= w -> wraps w x mod 2 ^ w = x mod 2 ^ w.
Proof.
  intros Hw. unfold wraps. rewrite Zminus_mod_idemp_l. f_equal. lia.
Qed.

(** ** Bytes *)
Definition byte_ok (b : Z) : Prop := 0 <= b < 256.
Definition bytes_ok (l : list Z) : Prop := Forall byte_ok l.

#[export] Instance byte_ok_dec b : Decision (byte_ok b).
Proof. unfold byte_ok. apply _. Defined.
#[export] Instance bytes_ok_dec l : Decision (bytes_ok l).
Proof. unfold bytes_ok. apply _. Defined.

Lemma bytes_ok_nil : bytes_ok [].
Proof. constructor. Qed.

Lemma bytes_ok_app l1 l2 : bytes_ok (l1 ++ l2) <-> bytes_ok l1 /\ bytes_ok l2.
Proof. apply Forall_app. Qed.

Lemma bytes_ok_take n l : bytes_ok l -> bytes_ok (take n l).
Proof. apply Forall_take. Qed.

Lemma bytes_ok_drop n l : bytes_ok l -> bytes_ok (drop n l).
Proof. apply Forall_drop. Qed.

Lemma bytes_ok_replicate n b : byte_ok b -> bytes_ok (replicate n b).
Proof. apply Forall_replicate. Qed.

Create HintDb bytes.
#[export] Hint Resolve bytes_ok_nil bytes_ok_take bytes_ok_drop bytes_ok_replicate : bytes.

(** [x] as [n] bytes, least significant first, and back. *)
Fixpoint le_bytes (n : nat) (x : Z) : list Z :=
  match n with
  | O => []
  | S n => x mod 256 :: le_bytes n (x / 256)
  end.

Fixpoint le_val (l : list Z) : Z :=
  match l with
  | [] => 0
  | b :: l => b + 256 * le_val l
  end.

Definition be_bytes (n : nat) (x : Z) : list Z := reverse (le_bytes n x).
Definition be_val (l : list Z) : Z := le_val (reverse l).

Lemma le_bytes_length n x : length (le_bytes n x) = n.
Proof. revert x; induction n; simpl; congruence. Qed.

Lemma be_bytes_length n x : length (be_bytes n x) = n.
Proof. unfold be_bytes. rewrite length_reverse. apply le_bytes_length. Qed.

Lemma le_bytes_ok n x : bytes_ok (le_bytes n x).
Proof.
  revert x; induction n as [|n IH]; intros x; simpl; constructor; [|apply IH].
  apply Z.mod_pos_bound; lia.
Qed.

Lemma be_bytes_ok n x : bytes_ok (be_bytes n x).
Proof. apply Forall_reverse, le_bytes_ok. Qed.

Lemma pow256_S n : 2 ^ (8 * Z.of_nat (S n)) = 256 * 2 ^ (8 * Z.of_nat n).
Proof.
  replace (8 * Z.of_nat (S n)) with (8 + 8 * Z.of_nat n) by lia.
  rewrite Z.pow_add_r by lia. reflexivity.
Qed.

Lemma le_val_range l : bytes_ok l -> 0 <= le_val l < 2 ^ (8 * zlen l).
Proof.
  induction l as [|b l IH]; intros H; [simpl; lia|].
  inversion H as [|? ? Hb Hl]; subst. specialize (IH Hl).
  change (length (b :: l)) with (S (length l)). rewrite pow256_S.
  unfold byte_ok in Hb. cbn [le_val]. lia.
Qed.

Lemma le_val_le_bytes n x : le_val (le_bytes n x) = x mod 2 ^ (8 * Z.of_nat n).
Proof.
  revert x; induction n as [|n IH]; intros x.
  - simpl. by rewrite Z.mod_1_r.
  - rewrite pow256_S. cbn [le_bytes le_val]. rewrite IH.
    rewrite Z.rem_mul_r by lia. lia.
Qed.

Lemma le_val_le_bytes_small n x :
  0 <= x < 2 ^ (8 * Z.of_nat n) -> le_val (le_bytes n x) = x.
Proof. intros H. rewrite le_val_le_bytes. by apply Z.mod_small. Qed.

Lemma le_bytes_le_val l : bytes_ok l -> le_bytes (length l) (le_val l) = l.
Proof.
  induction l as [|b l IH]; intros H; [done|].
  inversion H as [|? ? Hb Hl]; subst. unfold byte_ok in Hb. cbn [le_val length le_bytes].
  rewrite (Z.mul_comm 256), Z.mod_add, Z.div_add by lia.
  rewrite Z.mod_small, Z.div_small, Z.add_0_l by lia. by rewrite IH.
Qed.

Lemma le_val_app l1 l2 : le_val (l1 ++ l2) = le_val l1 + 2 ^ (8 * zlen l1) * le_val l2.
Proof.
  induction l1 as [|b l1 IH]; [cbn; lia|].
  change (length (b :: l1)) with (S (length l1)). rewrite pow256_S.
  cbn [app le_val]. rewrite IH. lia.
Qed.

Lemma be_val_be_bytes n x : be_val (be_bytes n x) = x mod 2 ^ (8 * Z.of_nat n).
Proof. unfold be_val, be_bytes. rewrite reverse_involutive. apply le_val_le_bytes. Qed.

Lemma be_val_range l : bytes_ok l -> 0 <= be_val l < 2 ^ (8 * zlen l).
Proof.
  intros H. unfold be_val. rewrite <- (length_reverse l).
  by apply le_val_range, Forall_reverse.
Qed.

(** Bits put above bits: [lo | hi << k]. *)
Lemma lor_shiftl_add lo hi k : 0 <= k -> 0 <= lo < 2 ^ k -> Z.lor lo (Z.shiftl hi k) = lo + hi * 2 ^ k.
Proof.
  intros Hk Hlo. rewrite <- Z.shiftl_mul_pow2 by done. symmetry. apply Z.add_nocarry_lor.
  apply Z.bits_inj'. intros i Hi. rewrite Z.land_spec, Z.bits_0.
  destruct (Z.lt_ge_cases i k).
  - by rewrite Z.shiftl_spec_low, andb_false_r by done.
  - destruct (decide (lo = 0)) as [->|]; [by rewrite Z.bits_0|].
    rewrite (Z.bits_above_log2 lo); [done|lia|].
    apply Z.log2_lt_pow2; [lia|]. eapply Z.lt_le_trans; [apply Hlo|].
    by apply Z.pow_le_mono_r; [lia|].
Qed.

Lemma land_le_r a b : 0 <= a -> 0 <= b -> Z.land a b <= b.
Proof.
  intros Ha Hb. rewrite Z.land_comm. rewrite <- (Z.lor_ldiff_and b a) at 2.
  rewrite <- Z.add_nocarry_lor.
  - pose proof (proj2 (Z.ldiff_nonneg b a) (or_introl Hb)). lia.
  - apply Z.bits_inj'. intros i Hi. rewrite !Z.land_spec, Z.ldiff_spec, Z.bits_0.
    by destruct (Z.testbit b i), (Z.testbit a i).
Qed.

Lemma land_le_l a b : 0 <= a -> 0 <= b -> Z.land a b <= a.
Proof. intros Ha Hb. rewrite Z.land_comm. by apply land_le_r. Qed.

(** ** Shared tactics *)

(** Splits every conjunction, equation and [Ok = Ok] of the context. *)
Ltac inv_ok :=
  repeat match goal with
  | H : Ok _ = Ok _ |- _ => injection H as H; subst
  | H : Err _ = Err _ |- _ => injection H as H; subst
  | H : Some _ = Some _ |- _ => injection H as H; subst
  | H : (_, _) = (_, _) |- _ => injection H as ?; subst
  | H : Ok _ = Err _ |- _ => discriminate H
  | H : Err _ = Ok _ |- _ => discriminate H
  | H : Throw = _ |- _ => discriminate H
  | H : Abort = _ |- _ => discriminate H
  | H : _ = Throw |- _ => discriminate H
  | H : _ = Abort |- _ => discriminate H
  | H : _ /\ _ |- _ => destruct H
  end.

(** Turns [bool_decide], [&&], [||] and Z comparisons of the context into
    propositions. *)
Ltac bool_to_prop :=
  repeat match goal with
  | H : (_ && _) = true |- _ => apply andb_true_iff in H; destruct H
  | H : (_ || _) = false |- _ => apply orb_false_iff in H; destruct H
  | H : (_ && _) = false |- _ => apply andb_false_iff in H
  | H : (_ || _) = true |- _ => apply orb_true_iff in H
  | H : negb _ = true |- _ => apply negb_true_iff in H
  | H : negb _ = false |- _ => apply negb_false_iff in H
  | H : (_ =? _) = true |- _ => apply Z.eqb_eq in H
  | H : (_ =? _) = false |- _ => apply Z.eqb_neq in H
  | H : (_ <=? _) = true |- _ => apply Z.leb_le in H
  | H : (_ <=? _) = false |- _ => apply Z.leb_gt in H
  | H : (_ <? _) = true |- _ => apply Z.ltb_lt in H
  | H : (_ <? _) = false |- _ => apply Z.ltb_ge in H
  | H : bool_decide _ = true |- _ => apply bool_decide_eq_true in H
  | H : bool_decide _ = false |- _ => apply bool_decide_eq_false in H
  end.

(** Closed range facts: [in_u 8 3], [wire uint8_c 3], [byte_ok 7]. *)
Ltac solve_range :=
  first [ assumption | lia | cbv; split; congruence | cbv; tauto ].

Lemma rd_ok {E A} (l : list A) i :
  0 <= i < zlen l -> exists x, @rd E A l i = Ok x /\ l !! Z.to_nat i = Some x.
Proof.
  intros H. unfold rd. rewrite bool_decide_eq_true_2 by lia.
  destruct (lookup_lt_is_Some_2 l (Z.to_nat i)) as [x Hx]; [lia|].
  exists x. by rewrite Hx.
Qed.
Lemma rd_lookup {E A} (l : list A) i x : 0 <= i -> l !! Z.to_nat i = Some x -> @rd E A l i = Ok x.
Proof. intros Hi Hl. unfold rd. by rewrite bool_decide_eq_true_2, Hl by done. Qed.
Lemma rd_lookup_nat {E A} (l : list A) (i : nat) x : l !! i = Some x -> @rd E A l (Z.of_nat i) = Ok x.
Proof. intros H. apply rd_lookup; [lia|]. by rewrite Nat2Z.id. Qed.

Lemma rd_Ok_inv {E A} (l : list A) i x :
  @rd E A l i = Ok x -> 0 <= i < zlen l /\ l !! Z.to_nat i = Some x.
Proof.
  unfold rd. case_bool_decide as Hi; [|discriminate].
  destruct (l !! Z.to_nat i) as [y|] eqn:Hl; intros ?; inv_ok.
  apply lookup_lt_Some in Hl as ?. split; [lia|done].
Qed.
