(* ===== verification/Serialize.v ===== *)
(** * Wire serialization (src/src/serialize.h, src/src/crypto/common.h)

    Bytes are [Z]s in [0, 256) ([bytes_ok]).  A stream being written is the
    list of the bytes written so far; a stream being read is the list of the
    bytes not read yet ([reader]).  Reading past the end of a [CDataStream]
    throws [std::ios_base::failure], the outcome [Throw].  Every serializable
    type is described by a [codec]: its writer, its reader and the values it
    can represent; [codec_ok] is the interface law (reading back what was
    written returns the value and the rest of the stream) that the instances
    discharge and the clients (transactions, coins, script hashes) use. *)
From S2P Require Import Prelude.

Definition reader (A : Type) : Type := list Z -> outcome unit (A * list Z).

#[export] Instance reader_ret : MRet reader := fun A a s => Ok (a, s).
#[export] Instance reader_bind : MBind reader := fun A B k m s =>
  match m s with
  | Ok (a, s') => k a s'
  | Err e => Err e
  | Throw => Throw
  | Abort => Abort
  end.

(** [throw std::ios_base::failure(...)] *)
Definition rthrow {A} : reader A := fun _ => Throw.

(** [CBaseDataStream::read]: [n] raw bytes, or an exception at the end of the
    data. *)
Definition read_raw (n : nat) : reader (list Z) := fun s =>
  if bool_decide (n <= length s)%nat then Ok (take n s, drop n s) else Throw.

Definition ReadLE16 (p : list Z) : Z := le_val (take 2 p).
Definition ReadLE32 (p : list Z) : Z := le_val (take 4 p).
Definition ReadLE64 (p : list Z) : Z := le_val (take 8 p).
Definition ReadBE32 (p : list Z) : Z := be_val (take 4 p).
Definition ReadBE64 (p : list Z) : Z := be_val (take 8 p).
Definition WriteLE16 (x : Z) : list Z := le_bytes 2 x.
Definition WriteLE32 (x : Z) : list Z := le_bytes 4 x.
Definition WriteLE64 (x : Z) : list Z := le_bytes 8 x.
Definition WriteBE32 (x : Z) : list Z := be_bytes 4 x.
Definition WriteBE64 (x : Z) : list Z := be_bytes 8 x.

(** The portable loop of [CountBits]; 64 steps clear any uint64_t. *)
Fixpoint count_bits_loop (fuel : nat) (x ret : Z) : Z :=
  match fuel with
  | O => ret
  | S fuel => if x =? 0 then ret else count_bits_loop fuel (Z.shiftr x 1) (ret + 1)
  end.
Definition CountBits (x : Z) : Z := count_bits_loop 64 x 0.

Definition ser_writedata8 (x : Z) : list Z := le_bytes 1 x.
Definition ser_writedata16 (x : Z) : list Z := le_bytes 2 x.
Definition ser_writedata32 (x : Z) : list Z := le_bytes 4 x.
Definition ser_writedata32be (x : Z) : list Z := be_bytes 4 x.
Definition ser_writedata64 (x : Z) : list Z := le_bytes 8 x.
Definition ser_readdata8 : reader Z := b ← read_raw 1; mret (le_val b).
Definition ser_readdata16 : reader Z := b ← read_raw 2; mret (le_val b).
Definition ser_readdata32 : reader Z := b ← read_raw 4; mret (le_val b).
Definition ser_readdata64 : reader Z := b ← read_raw 8; mret (le_val b).

Definition MAX_SIZE : Z := 0x02000000.

Definition GetSizeOfCompactSize (nSize : Z) : Z :=
  if nSize <? 253 then 1
  else if nSize <=? 0xffff then 3
  else if nSize <=? 0xffffffff then 5
  else 9.

Definition WriteCompactSize (nSize : Z) : list Z :=
  if nSize <? 253 then ser_writedata8 nSize
  else if nSize <=? 0xffff then ser_writedata8 253 ++ ser_writedata16 nSize
  else if nSize <=? 0xffffffff then ser_writedata8 254 ++ ser_writedata32 nSize
  else ser_writedata8 255 ++ ser_writedata64 nSize.

Definition ReadCompactSize : reader Z :=
  chSize ← ser_readdata8;
  nSizeRet ←
    (if chSize <? 253 then mret chSize
     else if chSize =? 253 then
       n ← ser_readdata16; if n <? 253 then rthrow else mret n
     else if chSize =? 254 then
       n ← ser_readdata32; if n <? 0x10000 then rthrow else mret n
     else
       n ← ser_readdata64; if n <? 0x100000000 then rthrow else mret n);
  if MAX_SIZE <? nSizeRet then rthrow else mret nSizeRet.

(** ** Variable-length integers, for an unsigned integer type of [w] bits *)

Fixpoint GetSizeOfVarInt_loop (fuel : nat) (n nRet : Z) : Z :=
  match fuel with
  | O => nRet
  | S fuel =>
      let nRet := nRet + 1 in
      if n <=? 0x7f then nRet else GetSizeOfVarInt_loop fuel (Z.shiftr n 7 - 1) nRet
  end.
Definition varint_bytes (w : Z) : nat := Z.to_nat ((w + 6) / 7).
Definition GetSizeOfVarInt (w n : Z) : Z := GetSizeOfVarInt_loop (varint_bytes w) n 0.

(** [tmp] holds the bytes produced so far, the last one first; the C array has
    [varint_bytes w] cells, so running out of [fuel] is a write past its end. *)
Fixpoint WriteVarInt_loop (fuel : nat) (n : Z) (tmp : list Z) : outcome unit (list Z) :=
  match fuel with
  | O => Abort
  | S fuel =>
      let b := Z.lor (Z.land n 0x7f) (if tmp is [] then 0x00 else 0x80) in
      if n <=? 0x7f then Ok (b :: tmp)
      else WriteVarInt_loop fuel (Z.shiftr n 7 - 1) (b :: tmp)
  end.
Definition WriteVarInt (w n : Z) : outcome unit (list Z) :=
  WriteVarInt_loop (varint_bytes w) n [].

(** Every iteration consumes a byte, so the number of bytes left is enough
    fuel: when it is used up the next read throws. *)
Fixpoint ReadVarInt_loop (w : Z) (fuel : nat) (n : Z) : reader Z :=
  match fuel with
  | O => rthrow
  | S fuel =>
      chData ← ser_readdata8;
      let n := wrapu w (Z.lor (Z.shiftl n 7) (Z.land chData 0x7f)) in
      if bool_decide (Z.land chData 0x80 ≠ 0)
      then ReadVarInt_loop w fuel (wrapu w (n + 1))
      else mret n
  end.
Definition ReadVarInt (w : Z) : reader Z := fun s => ReadVarInt_loop w (length s) 0 s.

(** ** Codecs *)

Record codec (A : Type) : Type := Codec {
  ser : A -> list Z;
  unser : reader A;
  wire : A -> Prop;
}.
Arguments Codec {A}.
Arguments ser {A}.
Arguments unser {A}.
Arguments wire {A}.

Definition codec_ok {A} (c : codec A) : Prop :=
  forall (x : A) (rest : list Z), wire c x -> unser c (ser c x ++ rest) = Ok (x, rest).

Definition uint8_c : codec Z := Codec ser_writedata8 ser_readdata8 (in_u 8).
Definition uint16_c : codec Z := Codec ser_writedata16 ser_readdata16 (in_u 16).
Definition uint32_c : codec Z := Codec ser_writedata32 ser_readdata32 (in_u 32).
Definition uint64_c : codec Z := Codec ser_writedata64 ser_readdata64 (in_u 64).
Definition int16_c : codec Z :=
  Codec ser_writedata16 (x ← ser_readdata16; mret (i16 x)) (in_s 16).
Definition int32_c : codec Z :=
  Codec ser_writedata32 (x ← ser_readdata32; mret (i32 x)) (in_s 32).
Definition int64_c : codec Z :=
  Codec ser_writedata64 (x ← ser_readdata64; mret (i64 x)) (in_s 64).

(** Fixed-size opaque data: [uint256], [std::array<unsigned char, N>]. *)
Definition blob_c (n : nat) : codec (list Z) :=
  Codec id (read_raw n) (fun l => length l = n).

(** Vectors of bytes ([std::vector<unsigned char>], [CScript]): read in blocks
    of at most 5000000 bytes. *)
Fixpoint read_blocks (fuel : nat) (left : Z) : reader (list Z) :=
  match fuel with
  | O => rthrow
  | S fuel =>
      if left <=? 0 then mret [] else
      let blk := Z.min left 5000000 in
      b ← read_raw (Z.to_nat blk);
      r ← read_blocks fuel (left - blk);
      mret (b ++ r)
  end.
Definition Unserialize_bytes : reader (list Z) :=
  nSize ← ReadCompactSize; read_blocks 8 nSize.
Definition bytes_c : codec (list Z) :=
  Codec (fun v => WriteCompactSize (zlen v) ++ v) Unserialize_bytes
    (fun v => zlen v <= MAX_SIZE).

(** Vectors of other elements. *)
Fixpoint read_items {A} (c : codec A) (n : nat) : reader (list A) :=
  match n with
  | O => mret []
  | S n => x ← unser c; l ← read_items c n; mret (x :: l)
  end.
Definition Unserialize_vector {A} (c : codec A) : reader (list A) :=
  nSize ← ReadCompactSize; read_items c (Z.to_nat nSize).
Definition vector_c {A} (c : codec A) : codec (list A) :=
  Codec (fun v => WriteCompactSize (zlen v) ++ concat (map (ser c) v))
    (Unserialize_vector c)
    (fun v => zlen v <= MAX_SIZE /\ Forall (wire c) v).

Definition optional_c {A} (c : codec A) : codec (option A) :=
  Codec
    (fun item => match item with Some x => ser_writedata8 1 ++ ser c x | None => ser_writedata8 0 end)
    (discriminant ← ser_readdata8;
     if discriminant =? 0 then mret None else (x ← unser c; mret (Some x)))
    (fun item => match item with Some x => wire c x | None => True end).

Definition pair_c {A B} (ca : codec A) (cb : codec B) : codec (A * B) :=
  Codec (fun p => ser ca p.1 ++ ser cb p.2)
    (a ← unser ca; b ← unser cb; mret (a, b))
    (fun p => wire ca p.1 /\ wire cb p.2).

(** ** Lemmas on readers *)

Lemma reader_bind_Ok {A B} (m : reader A) (k : A -> reader B) s a s' :
  m s = Ok (a, s') -> (m ≫= k) s = k a s'.
Proof. intros H. unfold mbind, reader_bind. by rewrite H. Qed.

Lemma read_raw_app n (l rest : list Z) :
  length l = n -> read_raw n (l ++ rest) = Ok (l, rest).
Proof.
  intros <-. unfold read_raw. rewrite bool_decide_eq_true_2.
  - by rewrite take_app_length, drop_app_length.
  - rewrite length_app. lia.
Qed.

Lemma read_raw_short n s : (length s < n)%nat -> read_raw n s = Throw.
Proof. intros H. unfold read_raw. rewrite bool_decide_eq_false_2; [done|lia]. Qed.

Lemma read_le_app n x rest :
  0 <= x < 2 ^ (8 * Z.of_nat n) ->
  (b ← read_raw n; mret (le_val b)) (le_bytes n x ++ rest) = Ok (x, rest).
Proof.
  intros H. erewrite reader_bind_Ok by (apply read_raw_app, le_bytes_length).
  by rewrite le_val_le_bytes_small.
Qed.

Lemma read_le_signed n x rest :
  (1 <= n)%nat -> in_s (8 * Z.of_nat n) x ->
  (y ← (b ← read_raw n; mret (le_val b)); mret (wraps (8 * Z.of_nat n) y))
    (le_bytes n x ++ rest) = Ok (x, rest).
Proof.
  intros Hn H. unfold mbind at 1, reader_bind at 1.
  erewrite reader_bind_Ok by (apply read_raw_app, le_bytes_length).
  cbn. rewrite le_val_le_bytes. unfold mret, reader_ret. do 2 f_equal.
  unfold wraps. rewrite Z.add_mod_idemp_l by lia.
  apply (wraps_small (8 * Z.of_nat n)); [lia|done].
Qed.

Lemma uint8_ok : codec_ok uint8_c.
Proof. intros x r H. apply (read_le_app 1), H. Qed.
Lemma uint16_ok : codec_ok uint16_c.
Proof. intros x r H. apply (read_le_app 2), H. Qed.
Lemma uint32_ok : codec_ok uint32_c.
Proof. intros x r H. apply (read_le_app 4), H. Qed.
Lemma uint64_ok : codec_ok uint64_c.
Proof. intros x r H. apply (read_le_app 8), H. Qed.
Lemma int16_ok : codec_ok int16_c.
Proof. intros x r H. apply (read_le_signed 2); [lia|apply H]. Qed.
Lemma int32_ok : codec_ok int32_c.
Proof. intros x r H. apply (read_le_signed 4); [lia|apply H]. Qed.
Lemma int64_ok : codec_ok int64_c.
Proof. intros x r H. apply (read_le_signed 8); [lia|apply H]. Qed.

Lemma blob_ok n : codec_ok (blob_c n).
Proof. intros x r H. by apply read_raw_app. Qed.

Create HintDb codec.
#[export] Hint Resolve uint8_ok uint16_ok uint32_ok uint64_ok int16_ok int32_ok
  int64_ok blob_ok : codec.

(** One reading step of a client: the codec at the head of the stream. *)
Lemma unser_step {A B} (c : codec A) (k : A -> reader B) x rest :
  codec_ok c -> wire c x -> (unser c ≫= k) (ser c x ++ rest) = k x rest.
Proof. intros Hc Hx. apply reader_bind_Ok, Hc, Hx. Qed.

Lemma codec_inj {A} (c : codec A) x y : codec_ok c -> wire c x -> wire c y -> ser c x = ser c y -> x = y.
Proof.
  intros Hc Hx Hy E. pose proof (Hc x [] Hx) as H1. rewrite E, (Hc y [] Hy) in H1. congruence.
Qed.

(** A field that is only there when [b] holds. *)
Lemma unser_step_if {A B} (c : codec A) (b : bool) (k : A -> reader B) d x rest :
  codec_ok c -> wire c x -> (b = false -> x = d) ->
  ((if b then unser c else mret d) ≫= k) ((if b then ser c x else []) ++ rest) = k x rest.
Proof. intros Hc Hx Hd. destruct b; [by apply unser_step|]. by rewrite (Hd eq_refl). Qed.

Lemma pair_ok {A B} (ca : codec A) (cb : codec B) :
  codec_ok ca -> codec_ok cb -> codec_ok (pair_c ca cb).
Proof.
  intros Ha Hb [x y] r [Hx Hy]. cbn [ser unser pair_c fst snd] in *.
  rewrite <- app_assoc, unser_step by done. by rewrite unser_step.
Qed.

Lemma optional_ok {A} (c : codec A) : codec_ok c -> codec_ok (optional_c c).
Proof.
  intros Hc [x|] r H; cbn [ser unser optional_c wire] in *.
  - rewrite <- app_assoc.
    erewrite reader_bind_Ok by (apply (uint8_ok 1); solve_range).
    cbn. by rewrite unser_step.
  - erewrite reader_bind_Ok by (apply (uint8_ok 0); solve_range). done.
Qed.

#[export] Hint Resolve pair_ok optional_ok : codec.

(** ** Compact sizes *)

Ltac compact_cases n :=
  unfold WriteCompactSize, GetSizeOfCompactSize;
  destruct (n <? 253) eqn:?; [|destruct (n <=? 0xffff) eqn:?; [|destruct (n <=? 0xffffffff) eqn:?]];
  bool_to_prop.

Lemma WriteCompactSize_length n : 0 <= n -> zlen (WriteCompactSize n) = GetSizeOfCompactSize n.
Proof.
  intros Hn. compact_cases n;
  rewrite ?length_app; unfold ser_writedata8, ser_writedata16, ser_writedata32, ser_writedata64;
  by rewrite ?le_bytes_length.
Qed.

Lemma ReadCompactSize_step (x : Z) (rest : list Z) (k : Z -> reader Z) :
  in_u 8 x -> (ser_readdata8 ≫= k) (ser_writedata8 x ++ rest) = k x rest.
Proof. intros H. apply (unser_step uint8_c); auto with codec. Qed.

(** The last test of [ReadCompactSize], once the size [n] has been read. *)
Lemma compact_final n (m : reader Z) s rest :
  n <= MAX_SIZE -> m s = Ok (n, rest) ->
  (m ≫= fun r => if MAX_SIZE <? r then rthrow else mret r) s = Ok (n, rest).
Proof.
  intros Hn Hm. erewrite reader_bind_Ok by apply Hm.
  destruct (MAX_SIZE <? n) eqn:?; bool_to_prop; [lia|done].
Qed.

Lemma ReadCompactSize_WriteCompactSize n rest :
  0 <= n <= MAX_SIZE -> ReadCompactSize (WriteCompactSize n ++ rest) = Ok (n, rest).
Proof.
  intros [Hn Hm]. pose proof Hm as Hm'. unfold MAX_SIZE in Hm'.
  unfold ReadCompactSize. compact_cases n; rewrite <- ?app_assoc.
  - rewrite ReadCompactSize_step by (unfold in_u; lia).
    apply compact_final; [done|]. by rewrite (proj2 (Z.ltb_lt n 253)).
  - rewrite ReadCompactSize_step by solve_range. apply compact_final; [done|]. cbn [Z.ltb Z.eqb].
    cbn -[ser_writedata16 ser_readdata16].
    rewrite (unser_step uint16_c) by (auto with codec; cbn; unfold in_u; lia).
    by rewrite (proj2 (Z.ltb_ge n 253)).
  - rewrite ReadCompactSize_step by solve_range. apply compact_final; [done|].
    cbn -[ser_writedata32 ser_readdata32].
    rewrite (unser_step uint32_c) by (auto with codec; cbn; unfold in_u; lia).
    rewrite (proj2 (Z.ltb_ge n 0x10000)) by lia. done.
  - lia.
Qed.

Lemma compact_step {B} (k : Z -> reader B) n rest :
  0 <= n <= MAX_SIZE -> (ReadCompactSize ≫= k) (WriteCompactSize n ++ rest) = k n rest.
Proof. intros H. by apply reader_bind_Ok, ReadCompactSize_WriteCompactSize. Qed.

Lemma read_blocks_app fuel (l rest : list Z) :
  (1 <= fuel)%nat -> zlen l <= (Z.of_nat fuel - 1) * 5000000 ->
  read_blocks fuel (zlen l) (l ++ rest) = Ok (l, rest).
Proof.
  revert l; induction fuel as [|fuel IH]; intros l Hf Hl; [lia|].
  cbn [read_blocks]. destruct (zlen l <=? 0) eqn:E; bool_to_prop.
  - destruct l; [done|simpl in E; lia].
  - set (blk := Z.min (zlen l) 5000000).
    assert (l ++ rest = take (Z.to_nat blk) l ++ drop (Z.to_nat blk) l ++ rest) as ->
      by by rewrite app_assoc, take_drop.
    erewrite reader_bind_Ok by (apply read_raw_app; rewrite length_take; lia).
    replace (zlen l - blk) with (zlen (drop (Z.to_nat blk) l)) by (rewrite length_drop; lia).
    erewrite reader_bind_Ok by (apply IH; rewrite ?length_drop; lia).
    unfold mret, reader_ret. by rewrite take_drop.
Qed.

Lemma bytes_c_ok : codec_ok bytes_c.
Proof.
  intros v rest Hv. cbn [ser unser bytes_c wire] in *. unfold Unserialize_bytes.
  rewrite <- app_assoc, compact_step by lia.
  apply read_blocks_app; unfold MAX_SIZE in Hv; lia.
Qed.

Lemma read_items_app {A} (c : codec A) (v : list A) rest :
  codec_ok c -> Forall (wire c) v ->
  read_items c (length v) (concat (map (ser c) v) ++ rest) = Ok (v, rest).
Proof.
  intros Hc. induction v as [|x v IH]; intros Hv; [done|].
  inversion Hv; subst. cbn [length read_items map concat].
  rewrite <- app_assoc, unser_step by done.
  by erewrite reader_bind_Ok by (by apply IH).
Qed.

Lemma vector_ok {A} (c : codec A) : codec_ok c -> codec_ok (vector_c c).
Proof.
  intros Hc v rest [Hl Hv]. cbn [ser unser vector_c]. unfold Unserialize_vector.
  rewrite <- app_assoc, compact_step by lia.
  rewrite Nat2Z.id. by apply read_items_app.
Qed.

#[export] Hint Resolve bytes_c_ok vector_ok : codec.

(** Reading a number that is in the stream determines the bytes read. *)
Lemma read_raw_inv n s l rest :
  read_raw n s = Ok (l, rest) -> s = l ++ rest /\ length l = n.
Proof.
  unfold read_raw. case_bool_decide; intros ?; inv_ok.
  rewrite take_drop, length_take. split; [done|lia].
Qed.

Lemma read_num_inv n s x rest :
  bytes_ok s -> (b ← read_raw n; mret (le_val b)) s = Ok (x, rest) ->
  s = le_bytes n x ++ rest /\ 0 <= x < 2 ^ (8 * Z.of_nat n).
Proof.
  intros Hs. unfold mbind, reader_bind.
  destruct (read_raw n s) as [[l r]| | |] eqn:E; try discriminate.
  intros [= <- <-]. apply read_raw_inv in E as [-> <-].
  apply bytes_ok_app in Hs as [Hl _].
  split; [by rewrite le_bytes_le_val|by apply le_val_range].
Qed.

Lemma reader_bind_inv {A B} (m : reader A) (k : A -> reader B) s b s' :
  (m ≫= k) s = Ok (b, s') -> exists a s1, m s = Ok (a, s1) /\ k a s1 = Ok (b, s').
Proof.
  unfold mbind, reader_bind. destruct (m s) as [[a s1]| | |]; try discriminate. eauto.
Qed.

(** The tail of a compact size: [k] more bytes that must not fit fewer. *)
Lemma compact_tail_inv k lo s n rest :
  bytes_ok s ->
  (x ← (b ← read_raw k; mret (le_val b)); if x <? lo then rthrow else mret x) s = Ok (n, rest) ->
  s = le_bytes k n ++ rest /\ lo <= n < 2 ^ (8 * Z.of_nat k).
Proof.
  intros Hs H. apply reader_bind_inv in H as (x & s1 & Hx & H).
  apply read_num_inv in Hx as [-> ?]; [|done].
  destruct (x <? lo) eqn:?; [discriminate|]. injection H as <- <-.
  bool_to_prop. split; [done|lia].
Qed.

Lemma ReadCompactSize_inv s n rest :
  bytes_ok s -> ReadCompactSize s = Ok (n, rest) ->
  s = WriteCompactSize n ++ rest /\ 0 <= n <= MAX_SIZE.
Proof.
  intros Hs H. unfold ReadCompactSize in H.
  apply reader_bind_inv in H as (ch & s1 & Hch & H).
  apply reader_bind_inv in H as (n' & s2 & Hn & H).
  destruct (MAX_SIZE <? n') eqn:Hmax; [discriminate|]. injection H as <- <-.
  apply (read_num_inv 1) in Hch as [-> Hch]; [|done].
  apply bytes_ok_app in Hs as [_ Hs1]. bool_to_prop. unfold MAX_SIZE in *.
  assert (forall k lo, (x ← (b ← read_raw k; mret (le_val b)); if x <? lo then rthrow else mret x) s1
            = Ok (n', s2) -> s1 = le_bytes k n' ++ s2 /\ lo <= n' < 2 ^ (8 * Z.of_nat k)) as Htail
    by (intros; by apply compact_tail_inv).
  destruct (ch <? 253) eqn:?; [|destruct (ch =? 253) eqn:?; [|destruct (ch =? 254) eqn:?]];
    bool_to_prop.
  - injection Hn as <- <-. compact_cases ch; try lia. by split; [|lia].
  - apply (Htail 2%nat) in Hn as [-> Hn]. cbn in Hn. subst ch.
    compact_cases n'; try lia. by split; [|lia].
  - apply (Htail 4%nat) in Hn as [-> Hn]. cbn in Hn. subst ch.
    compact_cases n'; try lia. by split; [|lia].
  - apply (Htail 8%nat) in Hn as [-> Hn]. cbn in Hn. lia.
Qed.

(** ** Variable-length integers *)

Lemma varint_step_bound k n :
  (1 <= k)%nat -> 0x7f < n < 2 ^ (7 * Z.of_nat (S k)) ->
  0 <= Z.shiftr n 7 - 1 < 2 ^ (7 * Z.of_nat k) /\ Z.shiftr n 7 < n.
Proof.
  intros Hk [Hlo Hhi]. rewrite Z.shiftr_div_pow2 by lia. change (2 ^ 7) with 128.
  replace (7 * Z.of_nat (S k)) with (7 + 7 * Z.of_nat k) in Hhi by lia.
  rewrite Z.pow_add_r in Hhi by lia. change (2 ^ 7) with 128 in Hhi.
  pose proof (Z.div_lt_upper_bound n 128 _ ltac:(lia) Hhi).
  pose proof (Z.div_le_lower_bound n 128 1 ltac:(lia) ltac:(lia)).
  pose proof (Z.div_lt n 128 ltac:(lia) ltac:(lia)). lia.
Qed.

Lemma WriteVarInt_loop_total fuel n tmp :
  (1 <= fuel)%nat -> 0 <= n < 2 ^ (7 * Z.of_nat fuel) ->
  exists out, WriteVarInt_loop fuel n tmp = Ok out.
Proof.
  revert n tmp; induction fuel as [|fuel IH]; intros n tmp Hf Hn; [lia|].
  cbn [WriteVarInt_loop]. destruct (n <=? 0x7f) eqn:E; [eauto|bool_to_prop].
  destruct fuel as [|fuel]; [cbn in Hn; lia|].
  apply IH; [lia|]. apply varint_step_bound; lia.
Qed.

Lemma varint_bytes_enough w : 0 <= w -> w <= 7 * Z.of_nat (varint_bytes w).
Proof.
  intros Hw. unfold varint_bytes. rewrite Z2Nat.id by (apply Z.div_pos; lia).
  pose proof (Z.div_mod (w + 6) 7 ltac:(lia)). pose proof (Z.mod_pos_bound (w + 6) 7 ltac:(lia)). lia.
Qed.

Lemma in_u_varint w n : 0 <= w -> in_u w n -> 0 <= n < 2 ^ (7 * Z.of_nat (varint_bytes w)).
Proof.
  intros Hw [? Hn]. split; [done|]. eapply Z.lt_le_trans; [apply Hn|].
  apply Z.pow_le_mono_r; [lia|]. by apply varint_bytes_enough.
Qed.

(** The digit written for [n] and what reading it does to the accumulator. *)
Definition varint_digit (n : Z) (cont : bool) : Z :=
  Z.lor (Z.land n 0x7f) (if cont then 0x80 else 0x00).

Definition varint_digit_spec (m d : Z) (cont : bool) : Prop :=
  Z.land d 0x7f = m /\ Z.land d 0x80 = (if cont then 0x80 else 0) /\ in_u 8 d.

#[export] Instance varint_digit_spec_dec m d cont : Decision (varint_digit_spec m d cont).
Proof. unfold varint_digit_spec. apply _. Defined.

Lemma varint_digit_low m cont :
  0 <= m < 128 -> varint_digit_spec m (varint_digit m cont) cont.
Proof.
  intros Hm. assert (Forall (fun m => Forall (fun cont =>
    varint_digit_spec m (varint_digit m cont) cont) [true; false]) (seqZ 0 128)) as H
    by (refine (bool_decide_unpack _ _); vm_compute; exact I).
  rewrite Forall_forall in H. specialize (H m). rewrite elem_of_seqZ in H.
  specialize (H ltac:(lia)). rewrite Forall_forall in H. apply H. destruct cont; set_solver.
Qed.

Lemma varint_digit_read n cont :
  0 <= n -> varint_digit_spec (n mod 128) (varint_digit n cont) cont.
Proof.
  intros Hn. assert (varint_digit n cont = varint_digit (n mod 128) cont) as ->.
  { unfold varint_digit. rewrite !(Z.land_ones _ 7) by lia.
    change (2 ^ 7) with 128. by rewrite Z.mod_mod by lia. }
  apply varint_digit_low, Z.mod_pos_bound. lia.
Qed.

Lemma varint_accumulate n : 0 <= n -> Z.lor (Z.shiftl (Z.shiftr n 7) 7) (n mod 128) = n.
Proof.
  intros Hn. change 128 with (2 ^ 7). rewrite <- Z.land_ones by lia.
  apply Z.bits_inj'. intros i Hi.
  rewrite Z.lor_spec, Z.shiftl_spec, Z.land_spec by lia.
  destruct (Z.lt_ge_cases i 7).
  - rewrite Z.ones_spec_low by lia.
    rewrite (Z.testbit_neg_r _ (i - 7)) by lia. by rewrite andb_true_r.
  - rewrite Z.shiftr_spec by lia. rewrite Z.ones_spec_high by lia.
    rewrite andb_false_r, orb_false_r. f_equal. lia.
Qed.

(** Reading one digit of [n] when the accumulator holds the digits before it. *)
Lemma ReadVarInt_digit w fuel n cont rest :
  in_u w n ->
  ReadVarInt_loop w (S fuel) (Z.shiftr n 7) (varint_digit n cont :: rest)
  = if cont : bool then ReadVarInt_loop w fuel (wrapu w (n + 1)) rest else Ok (n, rest).
Proof.
  intros Hn. destruct (varint_digit_read n cont ltac:(apply Hn)) as (E1 & E2 & E3).
  cbn [ReadVarInt_loop].
  assert (ser_readdata8 (varint_digit n cont :: rest) = Ok (varint_digit n cont, rest)) as E.
  { replace (varint_digit n cont :: rest) with (ser_writedata8 (varint_digit n cont) ++ rest).
    - by apply uint8_ok.
    - unfold ser_writedata8. cbn [le_bytes app]. by rewrite Z.mod_small by apply E3. }
  erewrite reader_bind_Ok by apply E.
  rewrite E1, E2, varint_accumulate by apply Hn. rewrite (wrapu_small w n) by done.
  by destruct cont.
Qed.

Lemma ReadVarInt_WriteVarInt_loop w fuel n tmp out rfuel rest :
  0 <= w -> in_u w n ->
  WriteVarInt_loop fuel n tmp = Ok out ->
  (length tmp <= length out)%nat /\
  ReadVarInt_loop w ((length out - length tmp) + rfuel) 0 (out ++ rest) =
    if tmp is [] then Ok (n, rest)
    else ReadVarInt_loop w rfuel (wrapu w (n + 1)) (tmp ++ rest).
Proof.
  intros Hw. revert n tmp rfuel; induction fuel as [|fuel IH]; intros n tmp rfuel Hn H; [done|].
  cbn [WriteVarInt_loop] in H.
  replace (Z.lor (Z.land n 0x7f) (if tmp is [] then 0x00 else 0x80))
    with (varint_digit n (if tmp is [] then false else true)) in H by by destruct tmp.
  destruct (n <=? 0x7f) eqn:E; bool_to_prop.
  - injection H as <-. cbn [length]. split; [lia|].
    replace (S (length tmp) - length tmp + rfuel)%nat with (S rfuel) by lia.
    assert (Z.shiftr n 7 = 0) as <-.
    { rewrite Z.shiftr_div_pow2 by lia. apply Z.div_small. split; [apply Hn|cbn; lia]. }
    rewrite <- app_comm_cons, ReadVarInt_digit by done. by destruct tmp.
  - assert (0 <= Z.shiftr n 7 - 1 /\ Z.shiftr n 7 < 2 ^ w) as Hs.
    { rewrite Z.shiftr_div_pow2 by lia. change (2 ^ 7) with 128.
      pose proof (Z.div_le_lower_bound n 128 1 ltac:(lia) ltac:(lia)).
      pose proof (Z.div_lt n 128 ltac:(lia) ltac:(lia)). unfold in_u in Hn. lia. }
    assert (in_u w (Z.shiftr n 7 - 1)) as Hi by (unfold in_u; lia).
    destruct (IH _ _ (S rfuel) Hi H) as [Hl IH']. cbn [length] in *.
    split; [lia|].
    replace (length out - length tmp + rfuel)%nat
      with (length out - S (length tmp) + S rfuel)%nat by lia.
    rewrite IH', Z.sub_add, wrapu_small by (unfold in_u; lia).
    rewrite <- app_comm_cons, ReadVarInt_digit by done. by destruct tmp.
Qed.

Lemma GetSizeOfVarInt_loop_length fuel n tmp out k :
  WriteVarInt_loop fuel n tmp = Ok out ->
  GetSizeOfVarInt_loop fuel n k = k + (zlen out - zlen tmp).
Proof.
  revert n tmp k; induction fuel as [|fuel IH]; intros n tmp k H; [done|].
  cbn [WriteVarInt_loop GetSizeOfVarInt_loop] in *.
  destruct (n <=? 0x7f).
  - injection H as <-. cbn [length]. lia.
  - erewrite IH by apply H. cbn [length]. lia.
Qed.

Lemma varint_bytes_pos w : 1 <= w -> (1 <= varint_bytes w)%nat.
Proof. intros Hw. pose proof (varint_bytes_enough w ltac:(lia)). lia. Qed.

Lemma count_bits_loop_spec fuel x ret :
  0 <= x < 2 ^ Z.of_nat fuel ->
  count_bits_loop fuel x ret = ret + (if x =? 0 then 0 else Z.log2 x + 1).
Proof.
  revert x ret; induction fuel as [|fuel IH]; intros x ret Hx.
  - assert (x = 0) as -> by (cbn in Hx; lia). cbn. lia.
  - cbn [count_bits_loop]. destruct (x =? 0) eqn:E; bool_to_prop; [lia|].
    rewrite Z.shiftr_div_pow2 by lia. change (2 ^ 1) with 2.
    rewrite Nat2Z.inj_succ, Z.pow_succ_r in Hx by lia.
    rewrite IH by (split; [apply Z.div_pos; lia|apply Z.div_lt_upper_bound; lia]).
    destruct (x / 2 =? 0) eqn:E2; bool_to_prop.
    + assert (x = 1) as -> by (apply Z.div_small_iff in E2; lia). cbn. lia.
    + pose proof (Z.div_pos x 2 ltac:(lia) ltac:(lia)).
      change (x / 2) with (x / 2 ^ 1). rewrite <- (Z.shiftr_div_pow2 x 1), Z.log2_shiftr by lia.
      assert (1 <= Z.log2 x); [|lia]. apply Z.log2_le_pow2; [lia|].
      destruct (decide (x = 1)) as [->|]; [by cbn in E2|cbn; lia].
Qed.

(** Compact sizes are canonical.  [ReadCompactSize] accepts a stream and
    returns [n] exactly when the stream starts with what [WriteCompactSize n]
    writes and [n] is at most [MAX_SIZE]; every other stream makes it throw. *)
Theorem CompactSize_canonical (s : list Z) (n : Z) (rest : list Z) :
  bytes_ok s ->
  (ReadCompactSize s = Ok (n, rest) <->
   0 <= n <= MAX_SIZE /\ s = WriteCompactSize n ++ rest).
Proof.
  intros Hs. split.
  - intros H. by apply ReadCompactSize_inv in H as [-> ?].
  - intros [Hn ->]. by apply ReadCompactSize_WriteCompactSize.
Qed.

Lemma CompactSize_canonical_witness :
  bytes_ok [253; 44; 1; 9] /\
  (ReadCompactSize [253; 44; 1; 9] = Ok (300, [9]) <->
   0 <= 300 <= MAX_SIZE /\ [253; 44; 1; 9] = WriteCompactSize 300 ++ [9]).
Proof.
  assert (bytes_ok [253; 44; 1; 9]) as H by (repeat constructor; cbv; congruence).
  split; [exact H|]. exact (CompactSize_canonical _ 300 [9] H).
Defined.

(** Variable-length integers.  For an unsigned type of [w] bits,
    [WriteVarInt] never writes past its [tmp] array, the number of bytes it
    writes is [GetSizeOfVarInt], and [ReadVarInt] reads the value back and
    leaves the rest of the stream. *)
Theorem VarInt_roundtrip (w n : Z) (rest : list Z) :
  1 <= w -> in_u w n ->
  exists out, WriteVarInt w n = Ok out /\
    zlen out = GetSizeOfVarInt w n /\
    ReadVarInt w (out ++ rest) = Ok (n, rest).
Proof.
  intros Hw Hn. pose proof (in_u_varint w n ltac:(lia) Hn) as Hb.
  destruct (WriteVarInt_loop_total (varint_bytes w) n [] (varint_bytes_pos w Hw) Hb) as [out Ho].
  exists out. split; [exact Ho|]. split.
  - unfold GetSizeOfVarInt. rewrite (GetSizeOfVarInt_loop_length _ _ _ _ _ Ho). cbn [length]. lia.
  - unfold ReadVarInt. rewrite length_app.
    destruct (ReadVarInt_WriteVarInt_loop w _ n [] out (length rest) rest ltac:(lia) Hn Ho) as [_ E].
    rewrite <- E. f_equal. cbn [length]. lia.
Qed.

Lemma VarInt_roundtrip_witness :
  1 <= 64 /\ in_u 64 300 /\
  exists out, WriteVarInt 64 300 = Ok out /\
    zlen out = GetSizeOfVarInt 64 300 /\
    ReadVarInt 64 (out ++ [5]) = Ok (300, [5]).
Proof.
  assert (in_u 64 300) as H by (split; [discriminate|reflexivity]).
  split; [discriminate|]. split; [exact H|]. apply (VarInt_roundtrip 64 300 [5]); [discriminate|exact H].
Defined.

(** The encodings named by the comment above [WriteVarInt] are not all
    those the code computes: 16511 is written [0xFF 0x7F] and 65535
    [0x82 0xFE 0x7F]; and the decoder accepts more than one encoding, since it
    does not check for overflow. *)
Theorem VarInt_documented_encodings :
  WriteVarInt 64 16511 = Ok [0xFF; 0x7F] /\
  WriteVarInt 64 65535 = Ok [0x82; 0xFE; 0x7F] /\
  ReadVarInt 32 [0x8E; 0xFE; 0xFE; 0xFF; 0x00] = Ok (0, []) /\
  WriteVarInt 32 0 = Ok [0x00].
Proof. by vm_compute. Qed.
