(* ===== verification/HashStream.v ===== *)
(** * Incremental block hashing

    CSHA1, CRIPEMD160, CSHA256 and CSHA512 (src/src/crypto) are four copies of
    one buffering scheme around their own [Transform].  [BlockHash] is the
    interface of that scheme: the block size, the initial state, the
    compression function, the padding and the encoding of the length.
    [Write] is the common body of the four [Write] methods, with the 64-byte
    (128-byte) [buf] array and the [memcpy]s into it.  The abstract contract is
    [digest_spec]: the Merkle-Damgard iteration over the padded message;
    [hashed] is the representation invariant, and [finalize_hashed] the
    refinement: whatever the sequence of [Write]s, [Finalize] returns the
    digest of the concatenation of what was written. *)
From S2P Require Import Prelude Serialize.

Class BlockHash (St : Type) := {
  hb_block : nat;
  hb_init : St;
  hb_transform : St -> list Z -> St;
  hb_sizedesc : Z -> list Z;
  hb_output : St -> list Z;
}.

Class BlockHashOk St (H : BlockHash St) (szlen : nat) := {
  hb_block_pos : (0 < hb_block)%nat;
  hb_block_small : Z.of_nat hb_block <= 2 ^ 63;
  hb_sizedesc_length : forall n, length (hb_sizedesc n) = szlen;
  hb_sizedesc_fits : (szlen < hb_block)%nat;
}.

Section stream.
Context {St : Type} `{BlockHash St}.

(** The members [s], [buf] and [bytes] of the hasher classes. *)
Record hasher := Hasher { h_s : St; h_buf : list Z; h_bytes : Z }.

Notation B := (Z.of_nat hb_block).

(** [memcpy(buf + off, data, n)] *)
Definition memcpy_at (buf : list Z) (off : nat) (data : list Z) : list Z :=
  take off buf ++ data ++ drop (off + length data) buf.

(** The constructor; the buffer is uninitialised memory, any contents [buf]. *)
Definition hash_new (buf : list Z) : hasher := Hasher hb_init buf 0.

(** [while (end >= data + 64) { Transform(s, data); bytes += 64; data += 64; }];
    the number of blocks is at most the number of bytes left. *)
Fixpoint write_blocks (fuel : nat) (s : St) (bytes : Z) (data : list Z) : St * Z * list Z :=
  match fuel with
  | O => (s, bytes, data)
  | S fuel =>
      if bool_decide (hb_block <= length data)%nat
      then write_blocks fuel (hb_transform s (take hb_block data)) (u64 (bytes + B))
             (drop hb_block data)
      else (s, bytes, data)
  end.

Definition hash_write (h : hasher) (data : list Z) : hasher :=
  let bufsize := h_bytes h mod B in
  let '(s, buf, bytes, data, bufsize) :=
    if bool_decide (bufsize ≠ 0) && (B <=? bufsize + zlen data) then
      let k := B - bufsize in
      let buf := memcpy_at (h_buf h) (Z.to_nat bufsize) (take (Z.to_nat k) data) in
      (hb_transform (h_s h) buf, buf, u64 (h_bytes h + k), drop (Z.to_nat k) data, 0)
    else (h_s h, h_buf h, h_bytes h, data, bufsize) in
  let '(s, bytes, data) := write_blocks (length data) s bytes data in
  if bool_decide (data ≠ [])
  then Hasher s (memcpy_at buf (Z.to_nat bufsize) data) (u64 (bytes + zlen data))
  else Hasher s buf bytes.

(** [pad] is 0x80 followed by zeros; the length that brings the message to
    [szlen] bytes short of a block. *)
Definition pad_length (szlen : nat) (bytes : Z) : Z :=
  1 + ((2 * B - 1 - Z.of_nat szlen - bytes mod B) mod B).
Definition pad (n : nat) : list Z := take n (0x80 :: replicate (hb_block - 1) 0).

(** The object after [Finalize], and the digest [Finalize] stores. *)
Definition hash_finalized (szlen : nat) (h : hasher) : hasher :=
  let sizedesc := hb_sizedesc (u64 (Z.shiftl (h_bytes h) 3)) in
  let h := hash_write h (pad (Z.to_nat (pad_length szlen (h_bytes h)))) in
  hash_write h sizedesc.
Definition hash_finalize (szlen : nat) (h : hasher) : list Z :=
  hb_output (h_s (hash_finalized szlen h)).

(** ** The contract *)

(** The state after compressing the blocks of [data], whose length is a
    multiple of the block size. *)
Fixpoint compress_blocks (n : nat) (s : St) (data : list Z) : St :=
  match n with
  | O => s
  | S n => compress_blocks n (hb_transform s (take hb_block data)) (drop hb_block data)
  end.

Definition pad_message (szlen : nat) (msg : list Z) : list Z :=
  msg ++ pad (Z.to_nat (pad_length szlen (zlen msg)))
      ++ hb_sizedesc (u64 (Z.shiftl (zlen msg) 3)).

Definition digest_spec (szlen : nat) (msg : list Z) : list Z :=
  let m := pad_message szlen msg in
  hb_output (compress_blocks (length m / hb_block) hb_init m).

(** [m] is [msg] padded: a 1 bit, the least number of zeros, the length in
    bits; the size [length m] is a multiple of the block size. *)
Definition padded (msg m : list Z) : Prop :=
  exists k : nat, (k < hb_block)%nat /\
    m = msg ++ 0x80 :: replicate k 0 ++ hb_sizedesc (8 * zlen msg) /\
    (length m mod hb_block = 0)%nat.

(** The Merkle-Damgard iteration over a padded message. *)
Definition merkle_damgard (m : list Z) : list Z :=
  hb_output (compress_blocks (length m / hb_block) hb_init m).

(** The hasher has absorbed exactly [msg]. *)
Record hashed (h : hasher) (msg : list Z) : Prop := {
  hashed_bytes : h_bytes h = zlen msg;
  hashed_u64 : zlen msg < 2 ^ 64;
  hashed_buf : length (h_buf h) = hb_block;
  hashed_state : h_s h = compress_blocks (length msg / hb_block) hb_init msg;
  hashed_tail :
    take (length msg mod hb_block) (h_buf h) = drop (length msg / hb_block * hb_block) msg;
}.

Context {szlen : nat} {Hok : BlockHashOk St _ szlen}.

Lemma div_mod_block n : n = (n / hb_block * hb_block + n mod hb_block)%nat.
Proof.
  pose proof hb_block_pos. rewrite Nat.mul_comm. apply Nat.div_mod. lia.
Qed.

Lemma mod_block_lt n : (n mod hb_block < hb_block)%nat.
Proof. pose proof hb_block_pos. apply Nat.mod_upper_bound. lia. Qed.

Lemma compress_blocks_app n m s l1 l2 :
  length l1 = (n * hb_block)%nat ->
  compress_blocks (n + m) s (l1 ++ l2) = compress_blocks m (compress_blocks n s l1) l2.
Proof.
  revert s l1; induction n as [|n IH]; intros s l1 Hl.
  - destruct l1; [done|simpl in Hl; lia].
  - cbn [compress_blocks Nat.add]. pose proof hb_block_pos.
    rewrite take_app_le, drop_app_le by lia. apply IH. rewrite length_drop. lia.
Qed.

(** Only the first [n] blocks matter. *)
Lemma compress_blocks_take n s l :
  compress_blocks n s (take (n * hb_block) l) = compress_blocks n s l.
Proof.
  revert s l; induction n as [|n IH]; intros s l; [done|].
  cbn [compress_blocks]. rewrite take_take, Nat.min_l by lia.
  rewrite skipn_firstn_comm. replace (S n * hb_block - hb_block)%nat with (n * hb_block)%nat by lia.
  apply IH.
Qed.

Lemma write_blocks_spec fuel s bytes data :
  (length data <= fuel)%nat -> 0 <= bytes -> bytes + zlen data < 2 ^ 64 ->
  let n := (length data / hb_block)%nat in
  write_blocks fuel s bytes data
  = (compress_blocks n s data, bytes + Z.of_nat (n * hb_block), drop (n * hb_block) data).
Proof.
  revert s bytes data; induction fuel as [|fuel IH]; intros s bytes data Hf Hb Hlen n.
  - destruct data; [|simpl in Hf; lia]. unfold n. pose proof hb_block_pos.
    cbn [length]. rewrite Nat.div_0_l by lia. cbn. by rewrite Z.add_0_r.
  - cbn [write_blocks]. pose proof hb_block_pos. case_bool_decide as Hd.
    + assert (u64 (bytes + B) = bytes + B) as ->.
      { apply wrapu_small. unfold in_u. lia. }
      rewrite IH by (rewrite ?length_drop; lia). rewrite length_drop.
      assert ((length data - hb_block) / hb_block = n - 1)%nat as ->.
      { unfold n. replace (length data) with ((length data - hb_block) + 1 * hb_block)%nat at 2 by lia.
        rewrite Nat.div_add by lia. lia. }
      assert (1 <= n)%nat by (unfold n; apply Nat.div_le_lower_bound; lia).
      destruct n as [|n']; [lia|]. rewrite Nat.sub_1_r; cbn [Nat.pred compress_blocks].
      rewrite drop_drop. replace (S n' * hb_block)%nat with (hb_block + n' * hb_block)%nat by lia.
      by rewrite Nat2Z.inj_add, Z.add_assoc.
    + assert (n = 0)%nat as -> by (unfold n; apply Nat.div_small; lia).
      cbn. by rewrite Z.add_0_r.
Qed.

Lemma memcpy_at_length buf off data :
  (off + length data <= length buf)%nat -> length (memcpy_at buf off data) = length buf.
Proof.
  intros Hl. unfold memcpy_at. rewrite !length_app, length_take, length_drop. lia.
Qed.

Lemma memcpy_at_take buf off data :
  (off <= length buf)%nat ->
  take (off + length data) (memcpy_at buf off data) = take off buf ++ data.
Proof.
  intros Hl. unfold memcpy_at. rewrite app_assoc.
  apply take_app_length'. rewrite length_app, length_take. lia.
Qed.

Lemma hashed_new buf : length buf = hb_block -> hashed (hash_new buf) [].
Proof.
  intros Hb. pose proof hb_block_pos. unfold hash_new.
  split; cbn [h_bytes h_s h_buf length]; try done.
  - by rewrite Nat.div_0_l by lia.
  - by rewrite Nat.Div0.mod_0_l, Nat.div_0_l by lia.
Qed.

(** A message extended by whole blocks and a remainder. *)
Lemma hashed_intro s buf bytes msg n :
  zlen msg < 2 ^ 64 -> bytes = zlen msg -> length buf = hb_block ->
  (n = length msg / hb_block)%nat ->
  s = compress_blocks n hb_init msg ->
  take (length msg mod hb_block) buf = drop (n * hb_block) msg ->
  hashed (Hasher s buf bytes) msg.
Proof. intros. subst. by split. Qed.

(** The full blocks of [pre ++ data] when [pre] is a whole number of blocks. *)
Lemma write_blocks_hashed s bytes pre data :
  (length pre mod hb_block = 0)%nat -> bytes = zlen pre ->
  zlen (pre ++ data) < 2 ^ 64 ->
  s = compress_blocks (length pre / hb_block) hb_init pre ->
  let n := (length (pre ++ data) / hb_block)%nat in
  write_blocks (length data) s bytes data
  = (compress_blocks n hb_init (pre ++ data), Z.of_nat (n * hb_block),
     drop (n * hb_block) (pre ++ data)) /\
  (length (pre ++ data) mod hb_block = length data mod hb_block)%nat.
Proof.
  intros Hm -> Hlen -> n. rewrite length_app in Hlen. pose proof hb_block_pos.
  rewrite write_blocks_spec by (try done; lia).
  pose proof (div_mod_block (length pre)) as Hp. rewrite Hm, Nat.add_0_r in Hp.
  set (p := (length pre / hb_block)%nat) in *. set (d := (length data / hb_block)%nat).
  assert (n = p + d)%nat as ->.
  { unfold n. rewrite length_app, Hp. by rewrite Nat.div_add_l by lia. }
  rewrite compress_blocks_app by done. rewrite drop_app_ge by lia. split.
  - repeat f_equal; lia.
  - rewrite length_app, Hp. rewrite Nat.add_comm. by rewrite Nat.Div0.mod_add.
Qed.

(** The last step of [Write]: store the remainder. *)
Lemma write_tail s bytes buf msg data off n :
  (n = length msg / hb_block)%nat -> zlen msg < 2 ^ 64 ->
  length buf = hb_block -> s = compress_blocks n hb_init msg ->
  (off + length data = length msg mod hb_block)%nat ->
  bytes + zlen data = zlen msg -> 0 <= bytes ->
  take off buf ++ data = drop (n * hb_block) msg ->
  hashed (if bool_decide (data ≠ [])
          then Hasher s (memcpy_at buf off data) (u64 (bytes + zlen data))
          else Hasher s buf bytes) msg.
Proof.
  intros Hn Hlen Hbuf Hs Hoff Hbytes Hpos Htail. pose proof (mod_block_lt (length msg)).
  case_bool_decide as Hd.
  - eapply hashed_intro; try done.
    + rewrite Hbytes. apply wrapu_small. unfold in_u. lia.
    + rewrite memcpy_at_length; lia.
    + rewrite <- Hoff, memcpy_at_take by lia. done.
  - destruct data; [|congruence]. simpl in *. rewrite app_nil_r in Htail.
    eapply hashed_intro; try done; [lia|]. by rewrite <- Hoff, Nat.add_0_r.
Qed.

Lemma mod_of_nat n : Z.of_nat n mod B = Z.of_nat (n mod hb_block).
Proof. by rewrite Nat2Z.inj_mod. Qed.

Lemma hash_write_hashed h msg data :
  hashed h msg -> zlen (msg ++ data) < 2 ^ 64 -> hashed (hash_write h data) (msg ++ data).
Proof.
  intros [Hbytes H64 Hbuf Hst Htail] Hlen. unfold hash_write.
  pose proof hb_block_pos. pose proof (mod_block_lt (length msg)) as Hm.
  pose proof (div_mod_block (length msg)) as Hdm. rewrite Hbytes, mod_of_nat.
  set (r := (length msg mod hb_block)%nat) in *. set (q := (length msg / hb_block)%nat) in *.
  pose proof Hlen as Hlen'. rewrite length_app in Hlen'.
  assert (length (drop (q * hb_block) msg) = r) as Hdl by (rewrite length_drop; lia).
  destruct (bool_decide (Z.of_nat r ≠ 0) && (B <=? Z.of_nat r + zlen data)) eqn:E.
  - (* the buffer is completed and compressed *)
    bool_to_prop. set (k := Z.to_nat (B - Z.of_nat r)).
    rewrite Nat2Z.id. assert (k = hb_block - r)%nat as Hk by lia.
    set (pre := msg ++ take k data).
    assert (length pre = (q + 1) * hb_block)%nat as Hpre.
    { unfold pre. rewrite length_app, length_take. lia. }
    assert (memcpy_at (h_buf h) r (take k data) = drop (q * hb_block) msg ++ take k data) as ->.
    { rewrite <- (firstn_all2 (memcpy_at _ _ _) (n := (r + length (take k data)))).
      - rewrite memcpy_at_take by lia. by rewrite Htail.
      - rewrite memcpy_at_length; rewrite length_take; lia. }
    assert (msg ++ data = pre ++ drop k data) as Hmd
      by (unfold pre; by rewrite <- app_assoc, take_drop).
    rewrite Hmd in *.
    destruct (write_blocks_hashed
      (hb_transform (h_s h) (drop (q * hb_block) msg ++ take k data))
      (u64 (zlen msg + (B - Z.of_nat r))) pre (drop k data)) as [-> Hmod]; try done.
    + rewrite Hpre. by rewrite Nat.Div0.mod_mul.
    + rewrite wrapu_small; unfold in_u; lia.
    + rewrite Hpre, Nat.div_mul by lia. rewrite Hst. unfold pre.
      rewrite <- (take_drop (q * hb_block) msg) at 3. rewrite <- app_assoc.
      rewrite compress_blocks_app by (rewrite length_take; lia).
      rewrite compress_blocks_take. cbn [compress_blocks].
      rewrite (take_ge (_ ++ _)); [done|]. rewrite length_app, Hdl, length_take. lia.
    + set (n := (length (pre ++ drop k data) / hb_block)%nat).
      pose proof (div_mod_block (length (pre ++ drop k data))) as Hn. fold n in Hn.
      eapply (write_tail _ _ _ _ _ 0 n); try done.
      * rewrite length_app, Hdl, length_take. lia.
      * rewrite length_drop. lia.
      * rewrite length_drop. lia.
      * lia.
  - (* the buffer is not completed *)
    rewrite Nat2Z.id. apply andb_false_iff in E as [E|E]; bool_to_prop.
    + assert (r = 0)%nat as Hr0 by (apply dec_stable in E; lia).
      destruct (write_blocks_hashed (h_s h) (zlen msg) msg data) as [-> Hmod]; try done.
      set (n := (length (msg ++ data) / hb_block)%nat).
      pose proof (div_mod_block (length (msg ++ data))) as Hn. fold n in Hn.
      rewrite Hr0. eapply (write_tail _ _ _ _ _ 0 n); try done; rewrite ?length_drop; lia.
    + assert (length (msg ++ data) / hb_block = q)%nat as Hq.
      { rewrite length_app, Hdm, <- Nat.add_assoc. rewrite Nat.div_add_l by lia.
        rewrite (Nat.div_small (r + length data)) by lia. lia. }
      assert (length data / hb_block = 0)%nat as Hd0 by (apply Nat.div_small; lia).
      rewrite write_blocks_spec by lia. rewrite Hd0. cbn [compress_blocks Nat.mul]. rewrite drop_0.
      rewrite Z.add_0_r.
      apply (write_tail _ _ _ _ _ _ q); try done.
      * rewrite Hst. rewrite <- (compress_blocks_take q _ (msg ++ data)).
        rewrite take_app_le by lia. by rewrite compress_blocks_take.
      * rewrite length_app, Hdm, <- Nat.add_assoc, (Nat.add_comm (q * hb_block)).
        rewrite Nat.Div0.mod_add. symmetry. apply Nat.mod_small. lia.
      * rewrite length_app. lia.
      * lia.
      * rewrite Htail, drop_app_le; [done|lia].
Qed.

Lemma pad_length_range n : 0 <= pad_length szlen n - 1 < B.
Proof.
  pose proof hb_block_pos. unfold pad_length. assert (0 < B) as HB by lia.
  pose proof (Z.mod_pos_bound (2 * B - 1 - Z.of_nat szlen - n mod B) _ HB). lia.
Qed.

Lemma pad_is_prefix n : (1 <= n <= hb_block)%nat -> length (pad n) = n.
Proof. intros Hn. unfold pad. rewrite length_take. cbn [length]. rewrite length_replicate. lia. Qed.

(** The padded message is a whole number of blocks. *)
Lemma pad_message_blocks msg : (length (pad_message szlen msg) mod hb_block = 0)%nat.
Proof.
  pose proof hb_block_pos. unfold pad_message.
  pose proof (pad_length_range (zlen msg)) as Hr.
  rewrite !length_app, hb_sizedesc_length, pad_is_prefix by lia.
  apply Nat2Z.inj. rewrite Nat2Z.inj_mod, !Nat2Z.inj_add, Z2Nat.id by lia.
  assert (B <> 0) as HB by lia. unfold pad_length. pose proof (Z.div_mod (zlen msg) _ HB) as E.
  set (r := zlen msg mod B) in *. set (q := zlen msg / B) in *. rewrite E.
  set (x := 2 * B - 1 - Z.of_nat szlen - r).
  replace (B * q + r + (1 + x mod B + Z.of_nat szlen))
    with (r + 1 + Z.of_nat szlen + x mod B + q * B) by lia.
  rewrite Z.mod_add by lia. rewrite Z.add_mod_idemp_r by lia.
  unfold x. replace (r + 1 + Z.of_nat szlen + (2 * B - 1 - Z.of_nat szlen - r)) with (0 + 2 * B) by lia.
  rewrite Z.mod_add by lia. apply Z.mod_0_l. lia.
Qed.

(** The refinement of [Finalize]: the digest of the message absorbed. *)
Lemma finalize_hashed h msg :
  hashed h msg -> zlen (pad_message szlen msg) < 2 ^ 64 ->
  hash_finalize szlen h = digest_spec szlen msg.
Proof.
  intros Hh Hlen. unfold hash_finalize, hash_finalized, digest_spec.
  rewrite (hashed_bytes _ _ Hh).
  pose proof Hlen as Hlen'. unfold pad_message in Hlen'. rewrite app_assoc in Hlen'.
  assert (zlen (msg ++ pad (Z.to_nat (pad_length szlen (zlen msg)))) < 2 ^ 64) as Hl1
    by (rewrite length_app in Hlen'; lia).
  pose proof (hash_write_hashed _ _ _ Hh Hl1) as H1.
  pose proof (hash_write_hashed _ _ _ H1 Hlen') as H2.
  rewrite (hashed_state _ _ H2). unfold pad_message. by rewrite app_assoc.
Qed.

Lemma fold_write_hashed (chunks : list (list Z)) h msg :
  hashed h msg -> zlen (msg ++ concat chunks) < 2 ^ 64 ->
  hashed (fold_left hash_write chunks h) (msg ++ concat chunks).
Proof.
  revert h msg; induction chunks as [|c chunks IH]; intros h msg Hh Hlen.
  - cbn. by rewrite app_nil_r.
  - cbn [fold_left concat] in *. rewrite app_assoc in *. apply IH; [|done].
    apply hash_write_hashed; [done|]. rewrite length_app in Hlen. lia.
Qed.

Lemma finalized_buf h msg :
  hashed h msg -> zlen (pad_message szlen msg) < 2 ^ 64 ->
  length (h_buf (hash_finalized szlen h)) = hb_block.
Proof.
  intros Hh Hlen. unfold hash_finalized. rewrite (hashed_bytes _ _ Hh).
  unfold pad_message in Hlen. rewrite app_assoc in Hlen.
  eapply hashed_buf, hash_write_hashed; [|exact Hlen].
  apply hash_write_hashed; [done|]. rewrite length_app in Hlen. lia.
Qed.

Lemma pad_message_length msg :
  zlen msg < 2 ^ 60 -> B < 2 ^ 60 -> zlen (pad_message szlen msg) < 2 ^ 64.
Proof.
  intros Hl HB. unfold pad_message.
  pose proof (pad_length_range (zlen msg)). pose proof hb_sizedesc_fits.
  rewrite !length_app, hb_sizedesc_length, pad_is_prefix by lia. lia.
Qed.

(** Any sequence of [Write]s followed by [Finalize] is the digest of the
    concatenation. *)
Lemma stream_digest buf (chunks : list (list Z)) :
  length buf = hb_block -> zlen (pad_message szlen (concat chunks)) < 2 ^ 64 ->
  hash_finalize szlen (fold_left hash_write chunks (hash_new buf))
  = digest_spec szlen (concat chunks).
Proof.
  intros Hb Hlen. apply finalize_hashed; [|done].
  apply (fold_write_hashed chunks _ []); [by apply hashed_new|].
  cbn. unfold pad_message in Hlen. rewrite length_app in Hlen. lia.
Qed.

Lemma pad_S n : (1 <= n <= hb_block)%nat -> pad n = 0x80 :: replicate (n - 1) 0.
Proof.
  intros Hn. unfold pad. destruct n as [|n]; [lia|]. cbn [take].
  rewrite take_replicate, Nat.min_l by lia. by rewrite Nat.sub_1_r.
Qed.

Lemma pad_message_padded msg : 8 * zlen msg < 2 ^ 64 -> padded msg (pad_message szlen msg).
Proof.
  intros Hl. pose proof (pad_length_range (zlen msg)) as Hr.
  exists (Z.to_nat (pad_length szlen (zlen msg)) - 1)%nat. split; [lia|].
  split; [|apply pad_message_blocks]. unfold pad_message. rewrite pad_S by lia.
  rewrite Z.shiftl_mul_pow2, Z.mul_comm by lia. change (2 ^ 3) with 8.
  by rewrite wrapu_small by (unfold in_u; lia).
Qed.

(** The digest of a stream is the Merkle-Damgard hash of a padding of it. *)
Lemma stream_merkle_damgard buf (chunks : list (list Z)) :
  length buf = hb_block -> zlen (concat chunks) < 2 ^ 60 -> B < 2 ^ 60 ->
  exists m, padded (concat chunks) m /\
    hash_finalize szlen (fold_left hash_write chunks (hash_new buf)) = merkle_damgard m.
Proof.
  intros Hb Hl HB. exists (pad_message szlen (concat chunks)). split; [apply pad_message_padded; lia|].
  apply stream_digest; [done|]. by apply pad_message_length.
Qed.
End stream.

(** The hashers of src/src/crypto keep their state in an array of integers. *)
Notation zhasher := (@hasher (list Z)).
