(* ===== verification/Sha256.v ===== *)
(** * SHA-256 (src/src/crypto/sha256.cpp)

    The compression function [Transform] is the unrolled code of the source:
    every [Round] updates two of the eight working variables in place, which
    is the pair it returns here.  [fips_transform] is the loop of FIPS 180-4,
    and [Transform_fips] proves that the unrolled code computes it. *)
From S2P Require Import Prelude Serialize HashStream.

Definition Ch (x y z : Z) : Z := Z.lxor z (Z.land x (Z.lxor y z)).
Definition Maj (x y z : Z) : Z := Z.lor (Z.land x y) (Z.land z (Z.lor x y)).

(** [x >> n | x << (32 - n)] on uint32_t *)
Definition rotr (n x : Z) : Z := Z.lor (Z.shiftr x n) (u32 (Z.shiftl x (32 - n))).

Definition Sigma0 (x : Z) : Z := Z.lxor (Z.lxor (rotr 2 x) (rotr 13 x)) (rotr 22 x).
Definition Sigma1 (x : Z) : Z := Z.lxor (Z.lxor (rotr 6 x) (rotr 11 x)) (rotr 25 x).
Definition sigma0 (x : Z) : Z := Z.lxor (Z.lxor (rotr 7 x) (rotr 18 x)) (Z.shiftr x 3).
Definition sigma1 (x : Z) : Z := Z.lxor (Z.lxor (rotr 17 x) (rotr 19 x)) (Z.shiftr x 10).

(** Updates [d] and [h]. *)
Definition Round (a b c d e f g h k w : Z) : Z * Z :=
  let t1 := u32 (h + Sigma1 e + Ch e f g + k + w) in
  let t2 := u32 (Sigma0 a + Maj a b c) in
  (u32 (d + t1), u32 (t1 + t2)).

Definition Initialize : list Z :=
  [0x6a09e667; 0xbb67ae85; 0x3c6ef372; 0xa54ff53a;
   0x510e527f; 0x9b05688c; 0x1f83d9ab; 0x5be0cd19].

Definition Transform (s : list Z) (chunk : list Z) : list Z :=
  match s with
  | [s0; s1; s2; s3; s4; s5; s6; s7] =>
      let a := s0 in let b := s1 in let c := s2 in let d := s3 in
      let e := s4 in let f := s5 in let g := s6 in let h := s7 in
      let w0 := ReadBE32 (drop 0 chunk) in let '(d, h) := Round a b c d e f g h 0x428a2f98 w0 in
      let w1 := ReadBE32 (drop 4 chunk) in let '(c, g) := Round h a b c d e f g 0x71374491 w1 in
      let w2 := ReadBE32 (drop 8 chunk) in let '(b, f) := Round g h a b c d e f 0xb5c0fbcf w2 in
      let w3 := ReadBE32 (drop 12 chunk) in let '(a, e) := Round f g h a b c d e 0xe9b5dba5 w3 in
      let w4 := ReadBE32 (drop 16 chunk) in let '(h, d) := Round e f g h a b c d 0x3956c25b w4 in
      let w5 := ReadBE32 (drop 20 chunk) in let '(g, c) := Round d e f g h a b c 0x59f111f1 w5 in
      let w6 := ReadBE32 (drop 24 chunk) in let '(f, b) := Round c d e f g h a b 0x923f82a4 w6 in
      let w7 := ReadBE32 (drop 28 chunk) in let '(e, a) := Round b c d e f g h a 0xab1c5ed5 w7 in
      let w8 := ReadBE32 (drop 32 chunk) in let '(d, h) := Round a b c d e f g h 0xd807aa98 w8 in
      let w9 := ReadBE32 (drop 36 chunk) in let '(c, g) := Round h a b c d e f g 0x12835b01 w9 in
      let w10 := ReadBE32 (drop 40 chunk) in let '(b, f) := Round g h a b c d e f 0x243185be w10 in
      let w11 := ReadBE32 (drop 44 chunk) in let '(a, e) := Round f g h a b c d e 0x550c7dc3 w11 in
      let w12 := ReadBE32 (drop 48 chunk) in let '(h, d) := Round e f g h a b c d 0x72be5d74 w12 in
      let w13 := ReadBE32 (drop 52 chunk) in let '(g, c) := Round d e f g h a b c 0x80deb1fe w13 in
      let w14 := ReadBE32 (drop 56 chunk) in let '(f, b) := Round c d e f g h a b 0x9bdc06a7 w14 in
      let w15 := ReadBE32 (drop 60 chunk) in let '(e, a) := Round b c d e f g h a 0xc19bf174 w15 in
      let w0 := u32 (w0 + (sigma1 w14 + w9 + sigma0 w1)) in
      let '(d, h) := Round a b c d e f g h 0xe49b69c1 w0 in
      let w1 := u32 (w1 + (sigma1 w15 + w10 + sigma0 w2)) in
      let '(c, g) := Round h a b c d e f g 0xefbe4786 w1 in
      let w2 := u32 (w2 + (sigma1 w0 + w11 + sigma0 w3)) in
      let '(b, f) := Round g h a b c d e f 0x0fc19dc6 w2 in
      let w3 := u32 (w3 + (sigma1 w1 + w12 + sigma0 w4)) in
      let '(a, e) := Round f g h a b c d e 0x240ca1cc w3 in
      let w4 := u32 (w4 + (sigma1 w2 + w13 + sigma0 w5)) in
      let '(h, d) := Round e f g h a b c d 0x2de92c6f w4 in
      let w5 := u32 (w5 + (sigma1 w3 + w14 + sigma0 w6)) in
      let '(g, c) := Round d e f g h a b c 0x4a7484aa w5 in
      let w6 := u32 (w6 + (sigma1 w4 + w15 + sigma0 w7)) in
      let '(f, b) := Round c d e f g h a b 0x5cb0a9dc w6 in
      let w7 := u32 (w7 + (sigma1 w5 + w0 + sigma0 w8)) in
      let '(e, a) := Round b c d e f g h a 0x76f988da w7 in
      let w8 := u32 (w8 + (sigma1 w6 + w1 + sigma0 w9)) in
      let '(d, h) := Round a b c d e f g h 0x983e5152 w8 in
      let w9 := u32 (w9 + (sigma1 w7 + w2 + sigma0 w10)) in
      let '(c, g) := Round h a b c d e f g 0xa831c66d w9 in
      let w10 := u32 (w10 + (sigma1 w8 + w3 + sigma0 w11)) in
      let '(b, f) := Round g h a b c d e f 0xb00327c8 w10 in
      let w11 := u32 (w11 + (sigma1 w9 + w4 + sigma0 w12)) in
      let '(a, e) := Round f g h a b c d e 0xbf597fc7 w11 in
      let w12 := u32 (w12 + (sigma1 w10 + w5 + sigma0 w13)) in
      let '(h, d) := Round e f g h a b c d 0xc6e00bf3 w12 in
      let w13 := u32 (w13 + (sigma1 w11 + w6 + sigma0 w14)) in
      let '(g, c) := Round d e f g h a b c 0xd5a79147 w13 in
      let w14 := u32 (w14 + (sigma1 w12 + w7 + sigma0 w15)) in
      let '(f, b) := Round c d e f g h a b 0x06ca6351 w14 in
      let w15 := u32 (w15 + (sigma1 w13 + w8 + sigma0 w0)) in
      let '(e, a) := Round b c d e f g h a 0x14292967 w15 in
      let w0 := u32 (w0 + (sigma1 w14 + w9 + sigma0 w1)) in
      let '(d, h) := Round a b c d e f g h 0x27b70a85 w0 in
      let w1 := u32 (w1 + (sigma1 w15 + w10 + sigma0 w2)) in
      let '(c, g) := Round h a b c d e f g 0x2e1b2138 w1 in
      let w2 := u32 (w2 + (sigma1 w0 + w11 + sigma0 w3)) in
      let '(b, f) := Round g h a b c d e f 0x4d2c6dfc w2 in
      let w3 := u32 (w3 + (sigma1 w1 + w12 + sigma0 w4)) in
      let '(a, e) := Round f g h a b c d e 0x53380d13 w3 in
      let w4 := u32 (w4 + (sigma1 w2 + w13 + sigma0 w5)) in
      let '(h, d) := Round e f g h a b c d 0x650a7354 w4 in
      let w5 := u32 (w5 + (sigma1 w3 + w14 + sigma0 w6)) in
      let '(g, c) := Round d e f g h a b c 0x766a0abb w5 in
      let w6 := u32 (w6 + (sigma1 w4 + w15 + sigma0 w7)) in
      let '(f, b) := Round c d e f g h a b 0x81c2c92e w6 in
      let w7 := u32 (w7 + (sigma1 w5 + w0 + sigma0 w8)) in
      let '(e, a) := Round b c d e f g h a 0x92722c85 w7 in
      let w8 := u32 (w8 + (sigma1 w6 + w1 + sigma0 w9)) in
      let '(d, h) := Round a b c d e f g h 0xa2bfe8a1 w8 in
      let w9 := u32 (w9 + (sigma1 w7 + w2 + sigma0 w10)) in
      let '(c, g) := Round h a b c d e f g 0xa81a664b w9 in
      let w10 := u32 (w10 + (sigma1 w8 + w3 + sigma0 w11)) in
      let '(b, f) := Round g h a b c d e f 0xc24b8b70 w10 in
      let w11 := u32 (w11 + (sigma1 w9 + w4 + sigma0 w12)) in
      let '(a, e) := Round f g h a b c d e 0xc76c51a3 w11 in
      let w12 := u32 (w12 + (sigma1 w10 + w5 + sigma0 w13)) in
      let '(h, d) := Round e f g h a b c d 0xd192e819 w12 in
      let w13 := u32 (w13 + (sigma1 w11 + w6 + sigma0 w14)) in
      let '(g, c) := Round d e f g h a b c 0xd6990624 w13 in
      let w14 := u32 (w14 + (sigma1 w12 + w7 + sigma0 w15)) in
      let '(f, b) := Round c d e f g h a b 0xf40e3585 w14 in
      let w15 := u32 (w15 + (sigma1 w13 + w8 + sigma0 w0)) in
      let '(e, a) := Round b c d e f g h a 0x106aa070 w15 in
      let w0 := u32 (w0 + (sigma1 w14 + w9 + sigma0 w1)) in
      let '(d, h) := Round a b c d e f g h 0x19a4c116 w0 in
      let w1 := u32 (w1 + (sigma1 w15 + w10 + sigma0 w2)) in
      let '(c, g) := Round h a b c d e f g 0x1e376c08 w1 in
      let w2 := u32 (w2 + (sigma1 w0 + w11 + sigma0 w3)) in
      let '(b, f) := Round g h a b c d e f 0x2748774c w2 in
      let w3 := u32 (w3 + (sigma1 w1 + w12 + sigma0 w4)) in
      let '(a, e) := Round f g h a b c d e 0x34b0bcb5 w3 in
      let w4 := u32 (w4 + (sigma1 w2 + w13 + sigma0 w5)) in
      let '(h, d) := Round e f g h a b c d 0x391c0cb3 w4 in
      let w5 := u32 (w5 + (sigma1 w3 + w14 + sigma0 w6)) in
      let '(g, c) := Round d e f g h a b c 0x4ed8aa4a w5 in
      let w6 := u32 (w6 + (sigma1 w4 + w15 + sigma0 w7)) in
      let '(f, b) := Round c d e f g h a b 0x5b9cca4f w6 in
      let w7 := u32 (w7 + (sigma1 w5 + w0 + sigma0 w8)) in
      let '(e, a) := Round b c d e f g h a 0x682e6ff3 w7 in
      let w8 := u32 (w8 + (sigma1 w6 + w1 + sigma0 w9)) in
      let '(d, h) := Round a b c d e f g h 0x748f82ee w8 in
      let w9 := u32 (w9 + (sigma1 w7 + w2 + sigma0 w10)) in
      let '(c, g) := Round h a b c d e f g 0x78a5636f w9 in
      let w10 := u32 (w10 + (sigma1 w8 + w3 + sigma0 w11)) in
      let '(b, f) := Round g h a b c d e f 0x84c87814 w10 in
      let w11 := u32 (w11 + (sigma1 w9 + w4 + sigma0 w12)) in
      let '(a, e) := Round f g h a b c d e 0x8cc70208 w11 in
      let w12 := u32 (w12 + (sigma1 w10 + w5 + sigma0 w13)) in
      let '(h, d) := Round e f g h a b c d 0x90befffa w12 in
      let w13 := u32 (w13 + (sigma1 w11 + w6 + sigma0 w14)) in
      let '(g, c) := Round d e f g h a b c 0xa4506ceb w13 in
      let '(f, b) := Round c d e f g h a b 0xbef9a3f7 (u32 (w14 + sigma1 w12 + w7 + sigma0 w15)) in
      let '(e, a) := Round b c d e f g h a 0xc67178f2 (u32 (w15 + sigma1 w13 + w8 + sigma0 w0)) in
      [u32 (s0 + a); u32 (s1 + b); u32 (s2 + c); u32 (s3 + d);
       u32 (s4 + e); u32 (s5 + f); u32 (s6 + g); u32 (s7 + h)]
  | _ => s
  end.

Definition OUTPUT_SIZE : nat := 32.

(** [FinalizeNoPadding(hash, false)] *)
Definition sha256_output (s : list Z) : list Z := concat (map WriteBE32 s).

#[export] Instance CSHA256 : BlockHash (list Z) := {
  hb_block := 64;
  hb_init := Initialize;
  hb_transform := Transform;
  hb_sizedesc := WriteBE64;
  hb_output := sha256_output;
}.

#[export] Instance CSHA256_ok : BlockHashOk (list Z) CSHA256 8.
Proof. split; [cbn; lia|done|intros; apply be_bytes_length|cbn; lia]. Qed.

Definition CSHA256_new (buf : list Z) : zhasher := @hash_new _ CSHA256 buf.
Definition CSHA256_Write (h : zhasher) (data : list Z) : zhasher := @hash_write _ CSHA256 h data.
Definition CSHA256_Finalize (h : zhasher) : list Z := @hash_finalize _ CSHA256 8 h.
Definition CSHA256_Reset (h : zhasher) : zhasher := Hasher Initialize (h_buf h) 0.
Definition CSHA256_FinalizeNoPadding (h : zhasher) (enforce_compression : bool)
    : outcome unit (list Z) :=
  if enforce_compression && negb (h_bytes h =? 64) then Throw
  else Ok (sha256_output (h_s h)).

(** [CSHA256().Write(data, len).Finalize(hash)] *)
Definition sha256 (data : list Z) : list Z :=
  CSHA256_Finalize (CSHA256_Write (CSHA256_new (replicate 64 0)) data).

(** FIPS 180-4, appendix B: SHA-256("abc"). *)
Example sha256_abc : be_val (sha256 [0x61; 0x62; 0x63])
  = 0xba7816bf8f01cfea414140de5dae2223b00361a396177a9cb410ff61f20015ad.
Proof. vm_compute. reflexivity. Qed.

(** ** The reference: FIPS 180-4, section 6.2.2 *)

Definition fips_ch (x y z : Z) : Z := Z.lxor (Z.land x y) (Z.land (Z.lnot x) z).
Definition fips_maj (x y z : Z) : Z :=
  Z.lxor (Z.lxor (Z.land x y) (Z.land x z)) (Z.land y z).

(** The largest [r] below [2 ^ n] with [r ^ 3 <= x], bit by bit. *)
Fixpoint cbrt_bits (n : nat) (x r : Z) : Z :=
  match n with
  | O => r
  | S n => let s := r + 2 ^ Z.of_nat n in cbrt_bits n x (if s ^ 3 <=? x then s else r)
  end.

Definition is_prime (p : Z) : bool :=
  forallb (fun d => negb (p mod Z.of_nat d =? 0)) (seq 2 (Z.to_nat p - 2)).

(** Section 4.2.2: the first 32 bits of the fractional parts of the cube roots of
    the first 64 prime numbers. *)
Definition fips_primes : list Z :=
  take 64 (filter (fun p => is_prime p = true) (map Z.of_nat (seq 2 310))).
Definition fips_K : list Z := map (fun p => u32 (cbrt_bits 36 (p * 2 ^ 96) 0)) fips_primes.

Definition working : Type := Z * Z * Z * Z * Z * Z * Z * Z.

Definition fips_round (st : working) (k w : Z) : working :=
  let '(a, b, c, d, e, f, g, h) := st in
  let t1 := u32 (h + Sigma1 e + fips_ch e f g + k + w) in
  let t2 := u32 (Sigma0 a + fips_maj a b c) in
  (u32 (t1 + t2), a, b, c, u32 (d + t1), e, f, g).

(** The next word of the message schedule, from the last sixteen. *)
Definition fips_word (w : list Z) : Z :=
  match w with
  | [w0; w1; w2; w3; w4; w5; w6; w7; w8; w9; w10; w11; w12; w13; w14; w15] =>
      u32 (sigma1 w14 + w9 + sigma0 w1 + w0)
  | _ => 0
  end.

Fixpoint fips_rounds (ks w : list Z) (st : working) : working :=
  match ks, w with
  | k :: ks, w0 :: tl => fips_rounds ks (tl ++ [fips_word w]) (fips_round st k w0)
  | _, _ => st
  end.

(** The sixteen big-endian words of the block. *)
Definition block_words (chunk : list Z) : list Z :=
  map (fun i => ReadBE32 (drop (4 * i) chunk)) (seq 0 16).

Definition fips_add (s : working) (st : working) : list Z :=
  let '(s0, s1, s2, s3, s4, s5, s6, s7) := s in
  let '(a, b, c, d, e, f, g, h) := st in
  [u32 (s0 + a); u32 (s1 + b); u32 (s2 + c); u32 (s3 + d);
   u32 (s4 + e); u32 (s5 + f); u32 (s6 + g); u32 (s7 + h)].

Definition fips_transform (s chunk : list Z) : list Z :=
  match s with
  | [s0; s1; s2; s3; s4; s5; s6; s7] =>
      fips_add (s0, s1, s2, s3, s4, s5, s6, s7)
        (fips_rounds fips_K (block_words chunk) (s0, s1, s2, s3, s4, s5, s6, s7))
  | _ => s
  end.

(** SHA-256 of the standard: its padding and its compression function. *)
Definition FIPS_SHA256 : BlockHash (list Z) := {|
  hb_block := 64;
  hb_init := Initialize;
  hb_transform := fips_transform;
  hb_sizedesc := be_bytes 8;
  hb_output := fun H => concat (map (be_bytes 4) H);
|}.

Lemma fips_K_values : fips_K = ltac:(let k := eval vm_compute in fips_K in exact k).
Proof. vm_compute. reflexivity. Qed.

#[local] Strategy 1000 [fips_K cbrt_bits fips_primes].

Lemma Ch_fips x y z : Ch x y z = fips_ch x y z.
Proof.
  apply Z.bits_inj'. intros i Hi. unfold Ch, fips_ch.
  rewrite !Z.lxor_spec, !Z.land_spec, Z.lxor_spec, Z.lnot_spec by done.
  by destruct (Z.testbit x i), (Z.testbit y i), (Z.testbit z i).
Qed.

Lemma Maj_fips x y z : Maj x y z = fips_maj x y z.
Proof.
  apply Z.bits_inj'. intros i Hi. unfold Maj, fips_maj.
  rewrite Z.lor_spec, !Z.lxor_spec, !Z.land_spec, Z.lor_spec.
  by destruct (Z.testbit x i), (Z.testbit y i), (Z.testbit z i).
Qed.

(** One in-place round of the unrolled code, followed by [F], is one step of
    the reference on the rotated registers. *)
Lemma run_round {R} (finish : working -> R) (F : Z -> Z -> R) ks k
    w0 w1 w2 w3 w4 w5 w6 w7 w8 w9 w10 w11 w12 w13 w14 w15 a b c d e f g h :
  (forall d' h', F d' h' = finish (fips_rounds ks
     [w1; w2; w3; w4; w5; w6; w7; w8; w9; w10; w11; w12; w13; w14; w15;
      u32 (w0 + (sigma1 w14 + w9 + sigma0 w1))] (h', a, b, c, d', e, f, g))) ->
  (let '(d', h') := Round a b c d e f g h k w0 in F d' h')
  = finish (fips_rounds (k :: ks)
     [w0; w1; w2; w3; w4; w5; w6; w7; w8; w9; w10; w11; w12; w13; w14; w15]
     (a, b, c, d, e, f, g, h)).
Proof.
  intros HF. cbn [fips_rounds app fips_word].
  replace (sigma1 w14 + w9 + sigma0 w1 + w0) with (w0 + (sigma1 w14 + w9 + sigma0 w1)) by lia.
  unfold fips_round. rewrite <- Ch_fips, <- Maj_fips. apply HF.
Qed.

(** Substitutes the value of a [let] of the unrolled code. *)
Ltac zeta_let :=
  lazymatch goal with
  | |- (let x := ?e in @?body x) = ?rhs =>
      let b := eval cbv beta in (body e) in change_no_check (b = rhs)
  end.

(** Abstracts the value of a [let] of the unrolled code, on both sides. *)
Ltac abstract_let :=
  lazymatch goal with
  | |- (let x := ?e in @?F x) = ?rhs =>
      let g := eval pattern e in rhs in
      lazymatch g with
      | ?G _ => let H := fresh in
          enough (forall x, F x = G x) as H by exact_no_check (H e); intros ?; cbv beta
      end
  end.

(** Runs one line of the unrolled code against one step of the reference; the
    conversions are left to the kernel, which does not expand the [let]s. *)
Ltac step_round :=
  try abstract_let;
  lazymatch goal with
  | |- (match Round ?a ?b ?c ?d ?e ?f ?g ?h ?k ?w0 with pair x y => @?F x y end)
       = ?fin (fips_rounds (_ :: ?ks) [_; ?w1; ?w2; ?w3; ?w4; ?w5; ?w6; ?w7; ?w8; ?w9;
                ?w10; ?w11; ?w12; ?w13; ?w14; ?w15] _) =>
      let H := fresh in
      enough (forall d' h', F d' h' = fin (fips_rounds ks
        [w1; w2; w3; w4; w5; w6; w7; w8; w9; w10; w11; w12; w13; w14; w15;
         u32 (w0 + (sigma1 w14 + w9 + sigma0 w1))] (h', a, b, c, d', e, f, g))) as H
        by exact_no_check (run_round fin F ks k w0 w1 w2 w3 w4 w5 w6 w7 w8 w9 w10 w11
                             w12 w13 w14 w15 a b c d e f g h H);
      intros ? ?; cbv beta
  end.

(** The reference extends the schedule past its last word; that word is not
    used. *)
Ltac forget_word :=
  lazymatch goal with
  | |- _ = _ (fips_rounds _ [_; _; _; _; _; _; _; _; _; _; _; _; _; _; _; ?w] _) =>
      generalize w; intros ?
  end.

(** The last two rounds add the schedule word without storing it. *)
Lemma word_assoc a b c d :
  u32 (a + sigma1 b + c + sigma0 d) = u32 (a + (sigma1 b + c + sigma0 d)).
Proof. f_equal. lia. Qed.

Lemma block_words_eq chunk :
  block_words chunk =
  [ReadBE32 (drop 0 chunk); ReadBE32 (drop 4 chunk); ReadBE32 (drop 8 chunk);
   ReadBE32 (drop 12 chunk); ReadBE32 (drop 16 chunk); ReadBE32 (drop 20 chunk);
   ReadBE32 (drop 24 chunk); ReadBE32 (drop 28 chunk); ReadBE32 (drop 32 chunk);
   ReadBE32 (drop 36 chunk); ReadBE32 (drop 40 chunk); ReadBE32 (drop 44 chunk);
   ReadBE32 (drop 48 chunk); ReadBE32 (drop 52 chunk); ReadBE32 (drop 56 chunk);
   ReadBE32 (drop 60 chunk)].
Proof. reflexivity. Qed.

Lemma Transform_fips_eq s chunk : Transform s chunk = fips_transform s chunk.
Proof.
  destruct s as [|s0 [|s1 [|s2 [|s3 [|s4 [|s5 [|s6 [|s7 [|? ?]]]]]]]]]; try reflexivity.
  cbv beta iota delta [Transform fips_transform]. rewrite fips_K_values. rewrite block_words_eq.
  do 8 zeta_let. do 48 step_round. do 14 (step_round; forget_word).
  rewrite word_assoc. step_round. forget_word.
  rewrite word_assoc. step_round. reflexivity.
Qed.

Lemma compress_blocks_fips n s data :
  @compress_blocks _ CSHA256 n s data = @compress_blocks _ FIPS_SHA256 n s data.
Proof.
  revert s data; induction n as [|n IH]; intros s data; [done|].
  cbn [compress_blocks]. rewrite IH. unfold hb_transform, hb_block; cbn [CSHA256 FIPS_SHA256].
  by rewrite Transform_fips_eq.
Qed.

(** SHA-256.  However a message is cut into [CSHA256::Write] calls and
    whatever the uninitialised buffer holds, [CSHA256::Finalize] returns the
    FIPS 180-4 hash of the message: the unrolled [Transform] is the standard's
    compression function and the buffering and padding are the standard's. *)
Theorem CSHA256_is_FIPS_180_4 (buf : list Z) (chunks : list (list Z)) :
  length buf = 64%nat -> zlen (concat chunks) < 2 ^ 60 ->
  exists m, @padded _ FIPS_SHA256 (concat chunks) m /\
    CSHA256_Finalize (fold_left CSHA256_Write chunks (CSHA256_new buf))
    = @merkle_damgard _ FIPS_SHA256 m.
Proof.
  intros Hb Hl. destruct (stream_merkle_damgard (H := CSHA256) buf chunks) as (m & Hm & E);
    [done|done|reflexivity|].
  exists m. split; [exact Hm|].
  transitivity (@merkle_damgard _ CSHA256 m); [exact E|].
  unfold merkle_damgard. rewrite compress_blocks_fips. exact eq_refl.
Qed.

Lemma CSHA256_is_FIPS_180_4_witness :
  length (replicate 64 7) = 64%nat /\
  exists m, @padded _ FIPS_SHA256 [1; 2; 3] m /\
    CSHA256_Finalize (fold_left CSHA256_Write [[1; 2]; []; [3]] (CSHA256_new (replicate 64 7)))
    = @merkle_damgard _ FIPS_SHA256 m.
Proof.
  split; [reflexivity|].
  apply (CSHA256_is_FIPS_180_4 (replicate 64 7) [[1; 2]; []; [3]]); [reflexivity|reflexivity].
Defined.
