(* ===== verification/Sha512.v ===== *)
(** * SHA-512 (src/src/crypto/sha512.cpp), with the unrolled [Transform] *)
From S2P Require Import Prelude Serialize HashStream.

Definition Ch (x y z : Z) : Z := Z.lxor z (Z.land x (Z.lxor y z)).
Definition Maj (x y z : Z) : Z := Z.lor (Z.land x y) (Z.land z (Z.lor x y)).

(** [x >> n | x << (64 - n)] on uint64_t *)
Definition rotr (n x : Z) : Z := Z.lor (Z.shiftr x n) (u64 (Z.shiftl x (64 - n))).

Definition Sigma0 (x : Z) : Z := Z.lxor (Z.lxor (rotr 28 x) (rotr 34 x)) (rotr 39 x).
Definition Sigma1 (x : Z) : Z := Z.lxor (Z.lxor (rotr 14 x) (rotr 18 x)) (rotr 41 x).
Definition sigma0 (x : Z) : Z := Z.lxor (Z.lxor (rotr 1 x) (rotr 8 x)) (Z.shiftr x 7).
Definition sigma1 (x : Z) : Z := Z.lxor (Z.lxor (rotr 19 x) (rotr 61 x)) (Z.shiftr x 6).

(** Updates [d] and [h]. *)
Definition Round (a b c d e f g h k w : Z) : Z * Z :=
  let t1 := u64 (h + Sigma1 e + Ch e f g + k + w) in
  let t2 := u64 (Sigma0 a + Maj a b c) in
  (u64 (d + t1), u64 (t1 + t2)).

Definition Initialize : list Z :=
  [0x6a09e667f3bcc908; 0xbb67ae8584caa73b; 0x3c6ef372fe94f82b; 0xa54ff53a5f1d36f1;
   0x510e527fade682d1; 0x9b05688c2b3e6c1f; 0x1f83d9abfb41bd6b; 0x5be0cd19137e2179].

Definition Transform (s : list Z) (chunk : list Z) : list Z :=
  match s with
  | [s0; s1; s2; s3; s4; s5; s6; s7] =>
      let a := s0 in let b := s1 in let c := s2 in let d := s3 in
      let e := s4 in let f := s5 in let g := s6 in let h := s7 in
      let w0 := ReadBE64 (drop 0 chunk) in
      let '(d, h) := Round a b c d e f g h 0x428a2f98d728ae22 w0 in
      let w1 := ReadBE64 (drop 8 chunk) in
      let '(c, g) := Round h a b c d e f g 0x7137449123ef65cd w1 in
      let w2 := ReadBE64 (drop 16 chunk) in
      let '(b, f) := Round g h a b c d e f 0xb5c0fbcfec4d3b2f w2 in
      let w3 := ReadBE64 (drop 24 chunk) in
      let '(a, e) := Round f g h a b c d e 0xe9b5dba58189dbbc w3 in
      let w4 := ReadBE64 (drop 32 chunk) in
      let '(h, d) := Round e f g h a b c d 0x3956c25bf348b538 w4 in
      let w5 := ReadBE64 (drop 40 chunk) in
      let '(g, c) := Round d e f g h a b c 0x59f111f1b605d019 w5 in
      let w6 := ReadBE64 (drop 48 chunk) in
      let '(f, b) := Round c d e f g h a b 0x923f82a4af194f9b w6 in
      let w7 := ReadBE64 (drop 56 chunk) in
      let '(e, a) := Round b c d e f g h a 0xab1c5ed5da6d8118 w7 in
      let w8 := ReadBE64 (drop 64 chunk) in
      let '(d, h) := Round a b c d e f g h 0xd807aa98a3030242 w8 in
      let w9 := ReadBE64 (drop 72 chunk) in
      let '(c, g) := Round h a b c d e f g 0x12835b0145706fbe w9 in
      let w10 := ReadBE64 (drop 80 chunk) in
      let '(b, f) := Round g h a b c d e f 0x243185be4ee4b28c w10 in
      let w11 := ReadBE64 (drop 88 chunk) in
      let '(a, e) := Round f g h a b c d e 0x550c7dc3d5ffb4e2 w11 in
      let w12 := ReadBE64 (drop 96 chunk) in
      let '(h, d) := Round e f g h a b c d 0x72be5d74f27b896f w12 in
      let w13 := ReadBE64 (drop 104 chunk) in
      let '(g, c) := Round d e f g h a b c 0x80deb1fe3b1696b1 w13 in
      let w14 := ReadBE64 (drop 112 chunk) in
      let '(f, b) := Round c d e f g h a b 0x9bdc06a725c71235 w14 in
      let w15 := ReadBE64 (drop 120 chunk) in
      let '(e, a) := Round b c d e f g h a 0xc19bf174cf692694 w15 in
      let w0 := u64 (w0 + (sigma1 w14 + w9 + sigma0 w1)) in
      let '(d, h) := Round a b c d e f g h 0xe49b69c19ef14ad2 w0 in
      let w1 := u64 (w1 + (sigma1 w15 + w10 + sigma0 w2)) in
      let '(c, g) := Round h a b c d e f g 0xefbe4786384f25e3 w1 in
      let w2 := u64 (w2 + (sigma1 w0 + w11 + sigma0 w3)) in
      let '(b, f) := Round g h a b c d e f 0x0fc19dc68b8cd5b5 w2 in
      let w3 := u64 (w3 + (sigma1 w1 + w12 + sigma0 w4)) in
      let '(a, e) := Round f g h a b c d e 0x240ca1cc77ac9c65 w3 in
      let w4 := u64 (w4 + (sigma1 w2 + w13 + sigma0 w5)) in
      let '(h, d) := Round e f g h a b c d 0x2de92c6f592b0275 w4 in
      let w5 := u64 (w5 + (sigma1 w3 + w14 + sigma0 w6)) in
      let '(g, c) := Round d e f g h a b c 0x4a7484aa6ea6e483 w5 in
      let w6 := u64 (w6 + (sigma1 w4 + w15 + sigma0 w7)) in
      let '(f, b) := Round c d e f g h a b 0x5cb0a9dcbd41fbd4 w6 in
      let w7 := u64 (w7 + (sigma1 w5 + w0 + sigma0 w8)) in
      let '(e, a) := Round b c d e f g h a 0x76f988da831153b5 w7 in
      let w8 := u64 (w8 + (sigma1 w6 + w1 + sigma0 w9)) in
      let '(d, h) := Round a b c d e f g h 0x983e5152ee66dfab w8 in
      let w9 := u64 (w9 + (sigma1 w7 + w2 + sigma0 w10)) in
      let '(c, g) := Round h a b c d e f g 0xa831c66d2db43210 w9 in
      let w10 := u64 (w10 + (sigma1 w8 + w3 + sigma0 w11)) in
      let '(b, f) := Round g h a b c d e f 0xb00327c898fb213f w10 in
      let w11 := u64 (w11 + (sigma1 w9 + w4 + sigma0 w12)) in
      let '(a, e) := Round f g h a b c d e 0xbf597fc7beef0ee4 w11 in
      let w12 := u64 (w12 + (sigma1 w10 + w5 + sigma0 w13)) in
      let '(h, d) := Round e f g h a b c d 0xc6e00bf33da88fc2 w12 in
      let w13 := u64 (w13 + (sigma1 w11 + w6 + sigma0 w14)) in
      let '(g, c) := Round d e f g h a b c 0xd5a79147930aa725 w13 in
      let w14 := u64 (w14 + (sigma1 w12 + w7 + sigma0 w15)) in
      let '(f, b) := Round c d e f g h a b 0x06ca6351e003826f w14 in
      let w15 := u64 (w15 + (sigma1 w13 + w8 + sigma0 w0)) in
      let '(e, a) := Round b c d e f g h a 0x142929670a0e6e70 w15 in
      let w0 := u64 (w0 + (sigma1 w14 + w9 + sigma0 w1)) in
      let '(d, h) := Round a b c d e f g h 0x27b70a8546d22ffc w0 in
      let w1 := u64 (w1 + (sigma1 w15 + w10 + sigma0 w2)) in
      let '(c, g) := Round h a b c d e f g 0x2e1b21385c26c926 w1 in
      let w2 := u64 (w2 + (sigma1 w0 + w11 + sigma0 w3)) in
      let '(b, f) := Round g h a b c d e f 0x4d2c6dfc5ac42aed w2 in
      let w3 := u64 (w3 + (sigma1 w1 + w12 + sigma0 w4)) in
      let '(a, e) := Round f g h a b c d e 0x53380d139d95b3df w3 in
      let w4 := u64 (w4 + (sigma1 w2 + w13 + sigma0 w5)) in
      let '(h, d) := Round e f g h a b c d 0x650a73548baf63de w4 in
      let w5 := u64 (w5 + (sigma1 w3 + w14 + sigma0 w6)) in
      let '(g, c) := Round d e f g h a b c 0x766a0abb3c77b2a8 w5 in
      let w6 := u64 (w6 + (sigma1 w4 + w15 + sigma0 w7)) in
      let '(f, b) := Round c d e f g h a b 0x81c2c92e47edaee6 w6 in
      let w7 := u64 (w7 + (sigma1 w5 + w0 + sigma0 w8)) in
      let '(e, a) := Round b c d e f g h a 0x92722c851482353b w7 in
      let w8 := u64 (w8 + (sigma1 w6 + w1 + sigma0 w9)) in
      let '(d, h) := Round a b c d e f g h 0xa2bfe8a14cf10364 w8 in
      let w9 := u64 (w9 + (sigma1 w7 + w2 + sigma0 w10)) in
      let '(c, g) := Round h a b c d e f g 0xa81a664bbc423001 w9 in
      let w10 := u64 (w10 + (sigma1 w8 + w3 + sigma0 w11)) in
      let '(b, f) := Round g h a b c d e f 0xc24b8b70d0f89791 w10 in
      let w11 := u64 (w11 + (sigma1 w9 + w4 + sigma0 w12)) in
      let '(a, e) := Round f g h a b c d e 0xc76c51a30654be30 w11 in
      let w12 := u64 (w12 + (sigma1 w10 + w5 + sigma0 w13)) in
      let '(h, d) := Round e f g h a b c d 0xd192e819d6ef5218 w12 in
      let w13 := u64 (w13 + (sigma1 w11 + w6 + sigma0 w14)) in
      let '(g, c) := Round d e f g h a b c 0xd69906245565a910 w13 in
      let w14 := u64 (w14 + (sigma1 w12 + w7 + sigma0 w15)) in
      let '(f, b) := Round c d e f g h a b 0xf40e35855771202a w14 in
      let w15 := u64 (w15 + (sigma1 w13 + w8 + sigma0 w0)) in
      let '(e, a) := Round b c d e f g h a 0x106aa07032bbd1b8 w15 in
      let w0 := u64 (w0 + (sigma1 w14 + w9 + sigma0 w1)) in
      let '(d, h) := Round a b c d e f g h 0x19a4c116b8d2d0c8 w0 in
      let w1 := u64 (w1 + (sigma1 w15 + w10 + sigma0 w2)) in
      let '(c, g) := Round h a b c d e f g 0x1e376c085141ab53 w1 in
      let w2 := u64 (w2 + (sigma1 w0 + w11 + sigma0 w3)) in
      let '(b, f) := Round g h a b c d e f 0x2748774cdf8eeb99 w2 in
      let w3 := u64 (w3 + (sigma1 w1 + w12 + sigma0 w4)) in
      let '(a, e) := Round f g h a b c d e 0x34b0bcb5e19b48a8 w3 in
      let w4 := u64 (w4 + (sigma1 w2 + w13 + sigma0 w5)) in
      let '(h, d) := Round e f g h a b c d 0x391c0cb3c5c95a63 w4 in
      let w5 := u64 (w5 + (sigma1 w3 + w14 + sigma0 w6)) in
      let '(g, c) := Round d e f g h a b c 0x4ed8aa4ae3418acb w5 in
      let w6 := u64 (w6 + (sigma1 w4 + w15 + sigma0 w7)) in
      let '(f, b) := Round c d e f g h a b 0x5b9cca4f7763e373 w6 in
      let w7 := u64 (w7 + (sigma1 w5 + w0 + sigma0 w8)) in
      let '(e, a) := Round b c d e f g h a 0x682e6ff3d6b2b8a3 w7 in
      let w8 := u64 (w8 + (sigma1 w6 + w1 + sigma0 w9)) in
      let '(d, h) := Round a b c d e f g h 0x748f82ee5defb2fc w8 in
      let w9 := u64 (w9 + (sigma1 w7 + w2 + sigma0 w10)) in
      let '(c, g) := Round h a b c d e f g 0x78a5636f43172f60 w9 in
      let w10 := u64 (w10 + (sigma1 w8 + w3 + sigma0 w11)) in
      let '(b, f) := Round g h a b c d e f 0x84c87814a1f0ab72 w10 in
      let w11 := u64 (w11 + (sigma1 w9 + w4 + sigma0 w12)) in
      let '(a, e) := Round f g h a b c d e 0x8cc702081a6439ec w11 in
      let w12 := u64 (w12 + (sigma1 w10 + w5 + sigma0 w13)) in
      let '(h, d) := Round e f g h a b c d 0x90befffa23631e28 w12 in
      let w13 := u64 (w13 + (sigma1 w11 + w6 + sigma0 w14)) in
      let '(g, c) := Round d e f g h a b c 0xa4506cebde82bde9 w13 in
      let w14 := u64 (w14 + (sigma1 w12 + w7 + sigma0 w15)) in
      let '(f, b) := Round c d e f g h a b 0xbef9a3f7b2c67915 w14 in
      let w15 := u64 (w15 + (sigma1 w13 + w8 + sigma0 w0)) in
      let '(e, a) := Round b c d e f g h a 0xc67178f2e372532b w15 in
      let w0 := u64 (w0 + (sigma1 w14 + w9 + sigma0 w1)) in
      let '(d, h) := Round a b c d e f g h 0xca273eceea26619c w0 in
      let w1 := u64 (w1 + (sigma1 w15 + w10 + sigma0 w2)) in
      let '(c, g) := Round h a b c d e f g 0xd186b8c721c0c207 w1 in
      let w2 := u64 (w2 + (sigma1 w0 + w11 + sigma0 w3)) in
      let '(b, f) := Round g h a b c d e f 0xeada7dd6cde0eb1e w2 in
      let w3 := u64 (w3 + (sigma1 w1 + w12 + sigma0 w4)) in
      let '(a, e) := Round f g h a b c d e 0xf57d4f7fee6ed178 w3 in
      let w4 := u64 (w4 + (sigma1 w2 + w13 + sigma0 w5)) in
      let '(h, d) := Round e f g h a b c d 0x06f067aa72176fba w4 in
      let w5 := u64 (w5 + (sigma1 w3 + w14 + sigma0 w6)) in
      let '(g, c) := Round d e f g h a b c 0x0a637dc5a2c898a6 w5 in
      let w6 := u64 (w6 + (sigma1 w4 + w15 + sigma0 w7)) in
      let '(f, b) := Round c d e f g h a b 0x113f9804bef90dae w6 in
      let w7 := u64 (w7 + (sigma1 w5 + w0 + sigma0 w8)) in
      let '(e, a) := Round b c d e f g h a 0x1b710b35131c471b w7 in
      let w8 := u64 (w8 + (sigma1 w6 + w1 + sigma0 w9)) in
      let '(d, h) := Round a b c d e f g h 0x28db77f523047d84 w8 in
      let w9 := u64 (w9 + (sigma1 w7 + w2 + sigma0 w10)) in
      let '(c, g) := Round h a b c d e f g 0x32caab7b40c72493 w9 in
      let w10 := u64 (w10 + (sigma1 w8 + w3 + sigma0 w11)) in
      let '(b, f) := Round g h a b c d e f 0x3c9ebe0a15c9bebc w10 in
      let w11 := u64 (w11 + (sigma1 w9 + w4 + sigma0 w12)) in
      let '(a, e) := Round f g h a b c d e 0x431d67c49c100d4c w11 in
      let w12 := u64 (w12 + (sigma1 w10 + w5 + sigma0 w13)) in
      let '(h, d) := Round e f g h a b c d 0x4cc5d4becb3e42b6 w12 in
      let w13 := u64 (w13 + (sigma1 w11 + w6 + sigma0 w14)) in
      let '(g, c) := Round d e f g h a b c 0x597f299cfc657e2a w13 in
      let '(f, b) := Round c d e f g h a b 0x5fcb6fab3ad6faec (u64 (w14 + sigma1 w12 + w7 + sigma0 w15)) in
      let '(e, a) := Round b c d e f g h a 0x6c44198c4a475817 (u64 (w15 + sigma1 w13 + w8 + sigma0 w0)) in
      [u64 (s0 + a); u64 (s1 + b); u64 (s2 + c); u64 (s3 + d);
       u64 (s4 + e); u64 (s5 + f); u64 (s6 + g); u64 (s7 + h)]
  | _ => s
  end.

Definition OUTPUT_SIZE : nat := 64.

Definition sha512_output (s : list Z) : list Z := concat (map WriteBE64 s).

#[export] Instance CSHA512 : BlockHash (list Z) := {
  hb_block := 128;
  hb_init := Initialize;
  hb_transform := Transform;
  hb_sizedesc := fun n => replicate 8 0 ++ WriteBE64 n;
  hb_output := sha512_output;
}.

#[export] Instance CSHA512_ok : BlockHashOk (list Z) CSHA512 16.
Proof.
  split; [cbn; lia|done| |cbn; lia].
  intros n. unfold hb_sizedesc; cbn [CSHA512].
  rewrite length_app, length_replicate. unfold WriteBE64. by rewrite be_bytes_length.
Qed.

Definition CSHA512_new (buf : list Z) : zhasher := @hash_new _ CSHA512 buf.
Definition CSHA512_Write (h : zhasher) (data : list Z) : zhasher := @hash_write _ CSHA512 h data.
Definition CSHA512_Finalize (h : zhasher) : list Z := @hash_finalize _ CSHA512 16 h.
Definition CSHA512_Reset (h : zhasher) : zhasher := Hasher Initialize (h_buf h) 0.

(** [CSHA512().Write(data, len).Finalize(hash)] *)
Definition sha512 (data : list Z) : list Z :=
  CSHA512_Finalize (CSHA512_Write (CSHA512_new (replicate 128 0)) data).

(** FIPS 180-4: SHA-512("abc"). *)
Example sha512_abc : be_val (sha512 [0x61; 0x62; 0x63])
  = 0xddaf35a193617abacc417349ae20413112e6fa4e89a97ea20a9eeee64b55d39a2192992a274fc1a836ba3c23a3feebbd454d4423643ce80e2a9ac94fa54ca49f.
Proof. vm_compute. reflexivity. Qed.
