(* ===== verification/Sha1.v ===== *)
(** * SHA-1 (src/src/crypto/sha1.cpp) *)
From S2P Require Import Prelude Serialize HashStream.

(** Updates [b] and [e]. *)
Definition Round (a b c d e f k w : Z) : Z * Z :=
  (Z.lor (u32 (Z.shiftl b 30)) (Z.shiftr b 2),
   u32 (e + u32 (Z.lor (u32 (Z.shiftl a 5)) (Z.shiftr a 27) + f + k + w))).

Definition f1 (b c d : Z) : Z := Z.lxor d (Z.land b (Z.lxor c d)).
Definition f2 (b c d : Z) : Z := Z.lxor (Z.lxor b c) d.
Definition f3 (b c d : Z) : Z := Z.lor (Z.land b c) (Z.land d (Z.lor b c)).

(** The inline function [left] of the source. *)
Definition sha1_left (x : Z) : Z := Z.lor (u32 (Z.shiftl x 1)) (Z.shiftr x 31).

Definition Initialize : list Z :=
  [0x67452301; 0xEFCDAB89; 0x98BADCFE; 0x10325476; 0xC3D2E1F0].

Definition k1 : Z := 0x5A827999.
Definition k2 : Z := 0x6ED9EBA1.
Definition k3 : Z := 0x8F1BBCDC.
Definition k4 : Z := 0xCA62C1D6.

Definition Transform (s : list Z) (chunk : list Z) : list Z :=
  match s with
  | [s0; s1; s2; s3; s4] =>
      let a := s0 in let b := s1 in let c := s2 in let d := s3 in let e := s4 in
      let w0 := ReadBE32 (drop 0 chunk) in let '(b, e) := Round a b c d e (f1 b c d) k1 w0 in
      let w1 := ReadBE32 (drop 4 chunk) in let '(a, d) := Round e a b c d (f1 a b c) k1 w1 in
      let w2 := ReadBE32 (drop 8 chunk) in let '(e, c) := Round d e a b c (f1 e a b) k1 w2 in
      let w3 := ReadBE32 (drop 12 chunk) in let '(d, b) := Round c d e a b (f1 d e a) k1 w3 in
      let w4 := ReadBE32 (drop 16 chunk) in let '(c, a) := Round b c d e a (f1 c d e) k1 w4 in
      let w5 := ReadBE32 (drop 20 chunk) in let '(b, e) := Round a b c d e (f1 b c d) k1 w5 in
      let w6 := ReadBE32 (drop 24 chunk) in let '(a, d) := Round e a b c d (f1 a b c) k1 w6 in
      let w7 := ReadBE32 (drop 28 chunk) in let '(e, c) := Round d e a b c (f1 e a b) k1 w7 in
      let w8 := ReadBE32 (drop 32 chunk) in let '(d, b) := Round c d e a b (f1 d e a) k1 w8 in
      let w9 := ReadBE32 (drop 36 chunk) in let '(c, a) := Round b c d e a (f1 c d e) k1 w9 in
      let w10 := ReadBE32 (drop 40 chunk) in let '(b, e) := Round a b c d e (f1 b c d) k1 w10 in
      let w11 := ReadBE32 (drop 44 chunk) in let '(a, d) := Round e a b c d (f1 a b c) k1 w11 in
      let w12 := ReadBE32 (drop 48 chunk) in let '(e, c) := Round d e a b c (f1 e a b) k1 w12 in
      let w13 := ReadBE32 (drop 52 chunk) in let '(d, b) := Round c d e a b (f1 d e a) k1 w13 in
      let w14 := ReadBE32 (drop 56 chunk) in let '(c, a) := Round b c d e a (f1 c d e) k1 w14 in
      let w15 := ReadBE32 (drop 60 chunk) in let '(b, e) := Round a b c d e (f1 b c d) k1 w15 in
      let w0 := sha1_left (Z.lxor (Z.lxor (Z.lxor w0 w13) w8) w2) in
      let '(a, d) := Round e a b c d (f1 a b c) k1 w0 in
      let w1 := sha1_left (Z.lxor (Z.lxor (Z.lxor w1 w14) w9) w3) in
      let '(e, c) := Round d e a b c (f1 e a b) k1 w1 in
      let w2 := sha1_left (Z.lxor (Z.lxor (Z.lxor w2 w15) w10) w4) in
      let '(d, b) := Round c d e a b (f1 d e a) k1 w2 in
      let w3 := sha1_left (Z.lxor (Z.lxor (Z.lxor w3 w0) w11) w5) in
      let '(c, a) := Round b c d e a (f1 c d e) k1 w3 in
      let w4 := sha1_left (Z.lxor (Z.lxor (Z.lxor w4 w1) w12) w6) in
      let '(b, e) := Round a b c d e (f2 b c d) k2 w4 in
      let w5 := sha1_left (Z.lxor (Z.lxor (Z.lxor w5 w2) w13) w7) in
      let '(a, d) := Round e a b c d (f2 a b c) k2 w5 in
      let w6 := sha1_left (Z.lxor (Z.lxor (Z.lxor w6 w3) w14) w8) in
      let '(e, c) := Round d e a b c (f2 e a b) k2 w6 in
      let w7 := sha1_left (Z.lxor (Z.lxor (Z.lxor w7 w4) w15) w9) in
      let '(d, b) := Round c d e a b (f2 d e a) k2 w7 in
      let w8 := sha1_left (Z.lxor (Z.lxor (Z.lxor w8 w5) w0) w10) in
      let '(c, a) := Round b c d e a (f2 c d e) k2 w8 in
      let w9 := sha1_left (Z.lxor (Z.lxor (Z.lxor w9 w6) w1) w11) in
      let '(b, e) := Round a b c d e (f2 b c d) k2 w9 in
      let w10 := sha1_left (Z.lxor (Z.lxor (Z.lxor w10 w7) w2) w12) in
      let '(a, d) := Round e a b c d (f2 a b c) k2 w10 in
      let w11 := sha1_left (Z.lxor (Z.lxor (Z.lxor w11 w8) w3) w13) in
      let '(e, c) := Round d e a b c (f2 e a b) k2 w11 in
      let w12 := sha1_left (Z.lxor (Z.lxor (Z.lxor w12 w9) w4) w14) in
      let '(d, b) := Round c d e a b (f2 d e a) k2 w12 in
      let w13 := sha1_left (Z.lxor (Z.lxor (Z.lxor w13 w10) w5) w15) in
      let '(c, a) := Round b c d e a (f2 c d e) k2 w13 in
      let w14 := sha1_left (Z.lxor (Z.lxor (Z.lxor w14 w11) w6) w0) in
      let '(b, e) := Round a b c d e (f2 b c d) k2 w14 in
      let w15 := sha1_left (Z.lxor (Z.lxor (Z.lxor w15 w12) w7) w1) in
      let '(a, d) := Round e a b c d (f2 a b c) k2 w15 in
      let w0 := sha1_left (Z.lxor (Z.lxor (Z.lxor w0 w13) w8) w2) in
      let '(e, c) := Round d e a b c (f2 e a b) k2 w0 in
      let w1 := sha1_left (Z.lxor (Z.lxor (Z.lxor w1 w14) w9) w3) in
      let '(d, b) := Round c d e a b (f2 d e a) k2 w1 in
      let w2 := sha1_left (Z.lxor (Z.lxor (Z.lxor w2 w15) w10) w4) in
      let '(c, a) := Round b c d e a (f2 c d e) k2 w2 in
      let w3 := sha1_left (Z.lxor (Z.lxor (Z.lxor w3 w0) w11) w5) in
      let '(b, e) := Round a b c d e (f2 b c d) k2 w3 in
      let w4 := sha1_left (Z.lxor (Z.lxor (Z.lxor w4 w1) w12) w6) in
      let '(a, d) := Round e a b c d (f2 a b c) k2 w4 in
      let w5 := sha1_left (Z.lxor (Z.lxor (Z.lxor w5 w2) w13) w7) in
      let '(e, c) := Round d e a b c (f2 e a b) k2 w5 in
      let w6 := sha1_left (Z.lxor (Z.lxor (Z.lxor w6 w3) w14) w8) in
      let '(d, b) := Round c d e a b (f2 d e a) k2 w6 in
      let w7 := sha1_left (Z.lxor (Z.lxor (Z.lxor w7 w4) w15) w9) in
      let '(c, a) := Round b c d e a (f2 c d e) k2 w7 in
      let w8 := sha1_left (Z.lxor (Z.lxor (Z.lxor w8 w5) w0) w10) in
      let '(b, e) := Round a b c d e (f3 b c d) k3 w8 in
      let w9 := sha1_left (Z.lxor (Z.lxor (Z.lxor w9 w6) w1) w11) in
      let '(a, d) := Round e a b c d (f3 a b c) k3 w9 in
      let w10 := sha1_left (Z.lxor (Z.lxor (Z.lxor w10 w7) w2) w12) in
      let '(e, c) := Round d e a b c (f3 e a b) k3 w10 in
      let w11 := sha1_left (Z.lxor (Z.lxor (Z.lxor w11 w8) w3) w13) in
      let '(d, b) := Round c d e a b (f3 d e a) k3 w11 in
      let w12 := sha1_left (Z.lxor (Z.lxor (Z.lxor w12 w9) w4) w14) in
      let '(c, a) := Round b c d e a (f3 c d e) k3 w12 in
      let w13 := sha1_left (Z.lxor (Z.lxor (Z.lxor w13 w10) w5) w15) in
      let '(b, e) := Round a b c d e (f3 b c d) k3 w13 in
      let w14 := sha1_left (Z.lxor (Z.lxor (Z.lxor w14 w11) w6) w0) in
      let '(a, d) := Round e a b c d (f3 a b c) k3 w14 in
      let w15 := sha1_left (Z.lxor (Z.lxor (Z.lxor w15 w12) w7) w1) in
      let '(e, c) := Round d e a b c (f3 e a b) k3 w15 in
      let w0 := sha1_left (Z.lxor (Z.lxor (Z.lxor w0 w13) w8) w2) in
      let '(d, b) := Round c d e a b (f3 d e a) k3 w0 in
      let w1 := sha1_left (Z.lxor (Z.lxor (Z.lxor w1 w14) w9) w3) in
      let '(c, a) := Round b c d e a (f3 c d e) k3 w1 in
      let w2 := sha1_left (Z.lxor (Z.lxor (Z.lxor w2 w15) w10) w4) in
      let '(b, e) := Round a b c d e (f3 b c d) k3 w2 in
      let w3 := sha1_left (Z.lxor (Z.lxor (Z.lxor w3 w0) w11) w5) in
      let '(a, d) := Round e a b c d (f3 a b c) k3 w3 in
      let w4 := sha1_left (Z.lxor (Z.lxor (Z.lxor w4 w1) w12) w6) in
      let '(e, c) := Round d e a b c (f3 e a b) k3 w4 in
      let w5 := sha1_left (Z.lxor (Z.lxor (Z.lxor w5 w2) w13) w7) in
      let '(d, b) := Round c d e a b (f3 d e a) k3 w5 in
      let w6 := sha1_left (Z.lxor (Z.lxor (Z.lxor w6 w3) w14) w8) in
      let '(c, a) := Round b c d e a (f3 c d e) k3 w6 in
      let w7 := sha1_left (Z.lxor (Z.lxor (Z.lxor w7 w4) w15) w9) in
      let '(b, e) := Round a b c d e (f3 b c d) k3 w7 in
      let w8 := sha1_left (Z.lxor (Z.lxor (Z.lxor w8 w5) w0) w10) in
      let '(a, d) := Round e a b c d (f3 a b c) k3 w8 in
      let w9 := sha1_left (Z.lxor (Z.lxor (Z.lxor w9 w6) w1) w11) in
      let '(e, c) := Round d e a b c (f3 e a b) k3 w9 in
      let w10 := sha1_left (Z.lxor (Z.lxor (Z.lxor w10 w7) w2) w12) in
      let '(d, b) := Round c d e a b (f3 d e a) k3 w10 in
      let w11 := sha1_left (Z.lxor (Z.lxor (Z.lxor w11 w8) w3) w13) in
      let '(c, a) := Round b c d e a (f3 c d e) k3 w11 in
      let w12 := sha1_left (Z.lxor (Z.lxor (Z.lxor w12 w9) w4) w14) in
      let '(b, e) := Round a b c d e (f2 b c d) k4 w12 in
      let w13 := sha1_left (Z.lxor (Z.lxor (Z.lxor w13 w10) w5) w15) in
      let '(a, d) := Round e a b c d (f2 a b c) k4 w13 in
      let w14 := sha1_left (Z.lxor (Z.lxor (Z.lxor w14 w11) w6) w0) in
      let '(e, c) := Round d e a b c (f2 e a b) k4 w14 in
      let w15 := sha1_left (Z.lxor (Z.lxor (Z.lxor w15 w12) w7) w1) in
      let '(d, b) := Round c d e a b (f2 d e a) k4 w15 in
      let w0 := sha1_left (Z.lxor (Z.lxor (Z.lxor w0 w13) w8) w2) in
      let '(c, a) := Round b c d e a (f2 c d e) k4 w0 in
      let w1 := sha1_left (Z.lxor (Z.lxor (Z.lxor w1 w14) w9) w3) in
      let '(b, e) := Round a b c d e (f2 b c d) k4 w1 in
      let w2 := sha1_left (Z.lxor (Z.lxor (Z.lxor w2 w15) w10) w4) in
      let '(a, d) := Round e a b c d (f2 a b c) k4 w2 in
      let w3 := sha1_left (Z.lxor (Z.lxor (Z.lxor w3 w0) w11) w5) in
      let '(e, c) := Round d e a b c (f2 e a b) k4 w3 in
      let w4 := sha1_left (Z.lxor (Z.lxor (Z.lxor w4 w1) w12) w6) in
      let '(d, b) := Round c d e a b (f2 d e a) k4 w4 in
      let w5 := sha1_left (Z.lxor (Z.lxor (Z.lxor w5 w2) w13) w7) in
      let '(c, a) := Round b c d e a (f2 c d e) k4 w5 in
      let w6 := sha1_left (Z.lxor (Z.lxor (Z.lxor w6 w3) w14) w8) in
      let '(b, e) := Round a b c d e (f2 b c d) k4 w6 in
      let w7 := sha1_left (Z.lxor (Z.lxor (Z.lxor w7 w4) w15) w9) in
      let '(a, d) := Round e a b c d (f2 a b c) k4 w7 in
      let w8 := sha1_left (Z.lxor (Z.lxor (Z.lxor w8 w5) w0) w10) in
      let '(e, c) := Round d e a b c (f2 e a b) k4 w8 in
      let w9 := sha1_left (Z.lxor (Z.lxor (Z.lxor w9 w6) w1) w11) in
      let '(d, b) := Round c d e a b (f2 d e a) k4 w9 in
      let w10 := sha1_left (Z.lxor (Z.lxor (Z.lxor w10 w7) w2) w12) in
      let '(c, a) := Round b c d e a (f2 c d e) k4 w10 in
      let w11 := sha1_left (Z.lxor (Z.lxor (Z.lxor w11 w8) w3) w13) in
      let '(b, e) := Round a b c d e (f2 b c d) k4 w11 in
      let w12 := sha1_left (Z.lxor (Z.lxor (Z.lxor w12 w9) w4) w14) in
      let '(a, d) := Round e a b c d (f2 a b c) k4 w12 in
      let '(e, c) := Round d e a b c (f2 e a b) k4 (sha1_left (Z.lxor (Z.lxor (Z.lxor w13 w10) w5) w15)) in
      let '(d, b) := Round c d e a b (f2 d e a) k4 (sha1_left (Z.lxor (Z.lxor (Z.lxor w14 w11) w6) w0)) in
      let '(c, a) := Round b c d e a (f2 c d e) k4 (sha1_left (Z.lxor (Z.lxor (Z.lxor w15 w12) w7) w1)) in
      [u32 (s0 + a); u32 (s1 + b); u32 (s2 + c); u32 (s3 + d); u32 (s4 + e)]
  | _ => s
  end.

Definition OUTPUT_SIZE : nat := 20.

Definition sha1_output (s : list Z) : list Z := concat (map WriteBE32 s).

#[export] Instance CSHA1 : BlockHash (list Z) := {
  hb_block := 64;
  hb_init := Initialize;
  hb_transform := Transform;
  hb_sizedesc := WriteBE64;
  hb_output := sha1_output;
}.

#[export] Instance CSHA1_ok : BlockHashOk (list Z) CSHA1 8.
Proof. split; [cbn; lia|done|intros; apply be_bytes_length|cbn; lia]. Qed.

Definition CSHA1_new (buf : list Z) : zhasher := @hash_new _ CSHA1 buf.
Definition CSHA1_Write (h : zhasher) (data : list Z) : zhasher := @hash_write _ CSHA1 h data.
Definition CSHA1_Finalize (h : zhasher) : list Z := @hash_finalize _ CSHA1 8 h.
Definition CSHA1_Reset (h : zhasher) : zhasher := Hasher Initialize (h_buf h) 0.

(** [CSHA1().Write(data, len).Finalize(hash)] *)
Definition sha1 (data : list Z) : list Z :=
  CSHA1_Finalize (CSHA1_Write (CSHA1_new (replicate 64 0)) data).

(** FIPS 180-4, appendix A: SHA-1("abc"). *)
Example sha1_abc : be_val (sha1 [0x61; 0x62; 0x63])
  = 0xa9993e364706816aba3e25717850c26c9cd0d89d.
Proof. vm_compute. reflexivity. Qed.
