(* ===== verification/Hash.v ===== *)
(** * Hash functions of the node (src/src/hash.h, src/src/hash.cpp,
    src/src/crypto/hmac_sha256.cpp, src/src/crypto/hmac_sha512.cpp)

    [CHash256], [CHash512] and [CHash160] wrap one streaming hasher;
    [hmac] is the common code of the two HMAC classes, over the interface
    [BlockHash]; [CSipHasher] keeps its four words, the pending bytes and the
    byte count; [SipHashUint256] is its unrolled copy for 32-byte values. *)
From S2P Require Import Prelude Serialize HashStream Sha256 Sha512 Sha1 Ripemd160.

(** ** Double hashes *)

Section twice.
Context {St : Type} `{BlockHash St}.

(** [sha.Finalize(buf); sha.Reset().Write(buf, n).Finalize(hash);] *)
Definition finalize_twice (szlen : nat) (sha : hasher) : list Z :=
  let buf := hash_finalize szlen sha in
  let sha := hash_finalized szlen sha in
  hash_finalize szlen (hash_write (hash_new (h_buf sha)) buf).

(** The digest of one string in one [Write]. *)
Definition one_shot (szlen : nat) (data : list Z) : list Z :=
  hash_finalize szlen (hash_write (hash_new (replicate hb_block 0)) data).
End twice.

Definition CHash256_new (buf : list Z) : zhasher := CSHA256_new buf.
Definition CHash256_Write (h : zhasher) (data : list Z) : zhasher := CSHA256_Write h data.
Definition CHash256_Reset (h : zhasher) : zhasher := CSHA256_Reset h.
Definition CHash256_Finalize (h : zhasher) : list Z :=
  @finalize_twice _ CSHA256 8 h.

Definition CHash512_new (buf : list Z) : zhasher := CSHA512_new buf.
Definition CHash512_Write (h : zhasher) (data : list Z) : zhasher := CSHA512_Write h data.
Definition CHash512_Reset (h : zhasher) : zhasher := CSHA512_Reset h.
Definition CHash512_Finalize (h : zhasher) : list Z :=
  @finalize_twice _ CSHA512 16 h.

Definition CHash160_new (buf : list Z) : zhasher := CSHA256_new buf.
Definition CHash160_Write (h : zhasher) (data : list Z) : zhasher := CSHA256_Write h data.
Definition CHash160_Finalize (h : zhasher) : list Z :=
  let buf := CSHA256_Finalize h in
  CRIPEMD160_Finalize (CRIPEMD160_Write (CRIPEMD160_new (replicate 64 0)) buf).

(** [Hash(p1begin, p1end, ..., pnbegin, pnend)], for 1 to 6 ranges. *)
Definition Hash (ranges : list (list Z)) : list Z :=
  CHash256_Finalize (fold_left CHash256_Write ranges (CHash256_new (replicate 64 0))).
(** Among the inputs listed, each a list of ranges, two different ones with the
    same value of the node's hash.  (Over all inputs there always are such two;
    the theorems name the inputs a computation has hashed.) *)
Definition hash_collision (inputs : list (list (list Z))) : Prop :=
  exists r1 r2, r1 ∈ inputs /\ r2 ∈ inputs /\ concat r1 <> concat r2 /\ Hash r1 = Hash r2.
Lemma hash_collision_mono s1 s2 : s1 ⊆ s2 -> hash_collision s1 -> hash_collision s2.
Proof. intros H (a & b & Ha & Hb & E). exists a, b. split_and!; auto; apply E. Qed.
Lemma hash_collision_in s r1 r2 : r1 ∈ s -> r2 ∈ s -> hash_collision [r1; r2] -> hash_collision s.
Proof. intros H1 H2. apply hash_collision_mono. intros r. rewrite !elem_of_cons, elem_of_nil. by intros [->|[->|[]]]. Qed.
Lemma hash_collision_pair r1 r2 : Hash r1 = Hash r2 -> concat r1 = concat r2 \/ hash_collision [r1; r2].
Proof.
  intros E. destruct (decide (concat r1 = concat r2)); [by left|]. right. exists r1, r2.
  split_and!; first [apply list_elem_of_here|apply list_elem_of_further, list_elem_of_here|done].
Qed.
(** [Hash512], for 1 and 2 ranges. *)
Definition Hash512 (ranges : list (list Z)) : list Z :=
  CHash512_Finalize (fold_left CHash512_Write ranges (CHash512_new (replicate 128 0))).
(** [Hash160(pbegin, pend)] *)
Definition Hash160 (data : list Z) : list Z :=
  CHash160_Finalize (CHash160_Write (CHash160_new (replicate 64 0)) data).

(** ** HMAC *)

Section hmac.
Context {St : Type} `{BlockHash St} (szlen : nat).

Record hmac := Hmac { hm_outer : @hasher St; hm_inner : @hasher St }.

(** [rkey]: the key, or its hash when it is longer than a block, and zeros. *)
Definition hmac_rkey (key : list Z) : list Z :=
  let k := if bool_decide (length key <= hb_block)%nat then key else one_shot szlen key in
  k ++ replicate (hb_block - length k) 0.

Definition hmac_new (obuf ibuf key : list Z) : hmac :=
  let rkey := hmac_rkey key in
  let rkey := map (Z.lxor 0x5c) rkey in
  let outer := hash_write (hash_new obuf) rkey in
  let rkey := map (Z.lxor (Z.lxor 0x5c 0x36)) rkey in
  let inner := hash_write (hash_new ibuf) rkey in
  Hmac outer inner.

Definition hmac_write (h : hmac) (data : list Z) : hmac :=
  Hmac (hm_outer h) (hash_write (hm_inner h) data).

Definition hmac_finalize (h : hmac) : list Z :=
  let temp := hash_finalize szlen (hm_inner h) in
  hash_finalize szlen (hash_write (hm_outer h) temp).

(** RFC 2104. *)
Definition rfc2104 (key msg : list Z) : list Z :=
  let k := hmac_rkey key in
  digest_spec szlen (map (Z.lxor 0x5c) k ++
    digest_spec szlen (map (Z.lxor 0x36) k ++ msg)).
End hmac.
Notation zhmac := (@hmac (list Z)).

Definition CHMAC_SHA256_new (obuf ibuf key : list Z) : zhmac := @hmac_new _ CSHA256 8 obuf ibuf key.
Definition CHMAC_SHA256_Write (h : zhmac) (data : list Z) : zhmac := @hmac_write _ CSHA256 h data.
Definition CHMAC_SHA256_Finalize (h : zhmac) : list Z := @hmac_finalize _ CSHA256 8 h.
Definition CHMAC_SHA512_new (obuf ibuf key : list Z) : zhmac := @hmac_new _ CSHA512 16 obuf ibuf key.
Definition CHMAC_SHA512_Write (h : zhmac) (data : list Z) : zhmac := @hmac_write _ CSHA512 h data.
Definition CHMAC_SHA512_Finalize (h : zhmac) : list Z := @hmac_finalize _ CSHA512 16 h.

(** [BIP32Hash]: the 64 bytes of [output]. *)
Definition BIP32Hash (chainCode : list Z) (nChild header : Z) (data : list Z) : list Z :=
  let num := [Z.land (Z.shiftr nChild 24) 0xFF; Z.land (Z.shiftr nChild 16) 0xFF;
              Z.land (Z.shiftr nChild 8) 0xFF; Z.land nChild 0xFF] in
  CHMAC_SHA512_Finalize
    (fold_left CHMAC_SHA512_Write [[header]; take 32 data; num]
       (CHMAC_SHA512_new (replicate 128 0) (replicate 128 0) chainCode)).

(** ** MurmurHash3 *)

Definition ROTL32 (x r : Z) : Z := Z.lor (u32 (Z.shiftl x r)) (Z.shiftr x (32 - r)).

Definition murmur_k1 (k1 : Z) : Z :=
  u32 (ROTL32 (u32 (k1 * 0xcc9e2d51)) 15 * 0x1b873593).

Fixpoint murmur_body (nblocks : nat) (blocks : list Z) (h1 : Z) : Z * list Z :=
  match nblocks with
  | O => (h1, blocks)
  | S n =>
      let h1 := Z.lxor h1 (murmur_k1 (ReadLE32 blocks)) in
      murmur_body n (drop 4 blocks) (u32 (ROTL32 h1 13 * 5 + 0xe6546b64))
  end.

Definition murmur_tail (h1 : Z) (tail : list Z) : Z :=
  match tail with
  | [t0; t1; t2] =>
      Z.lxor h1 (murmur_k1 (Z.lxor (Z.lxor (Z.shiftl t2 16) (Z.shiftl t1 8)) t0))
  | [t0; t1] => Z.lxor h1 (murmur_k1 (Z.lxor (Z.shiftl t1 8) t0))
  | [t0] => Z.lxor h1 (murmur_k1 t0)
  | _ => h1
  end.

Definition MurmurHash3 (nHashSeed : Z) (vDataToHash : list Z) : Z :=
  let h1 := nHashSeed in
  let '(h1, tail) := murmur_body (length vDataToHash / 4) vDataToHash h1 in
  let h1 := murmur_tail h1 tail in
  let h1 := Z.lxor h1 (u32 (zlen vDataToHash)) in
  let h1 := Z.lxor h1 (Z.shiftr h1 16) in
  let h1 := u32 (h1 * 0x85ebca6b) in
  let h1 := Z.lxor h1 (Z.shiftr h1 13) in
  let h1 := u32 (h1 * 0xc2b2ae35) in
  Z.lxor h1 (Z.shiftr h1 16).

(** ** SipHash-2-4 *)

Definition ROTL (x b : Z) : Z := Z.lor (u64 (Z.shiftl x b)) (Z.shiftr x (64 - b)).

Definition sip_words : Type := Z * Z * Z * Z.

Definition SIPROUND (v : sip_words) : sip_words :=
  let '(v0, v1, v2, v3) := v in
  let v0 := u64 (v0 + v1) in let v1 := ROTL v1 13 in let v1 := Z.lxor v1 v0 in
  let v0 := ROTL v0 32 in
  let v2 := u64 (v2 + v3) in let v3 := ROTL v3 16 in let v3 := Z.lxor v3 v2 in
  let v0 := u64 (v0 + v3) in let v3 := ROTL v3 21 in let v3 := Z.lxor v3 v0 in
  let v2 := u64 (v2 + v1) in let v1 := ROTL v1 17 in let v1 := Z.lxor v1 v2 in
  let v2 := ROTL v2 32 in
  (v0, v1, v2, v3).

Definition xor0 (v : sip_words) (d : Z) : sip_words :=
  let '(v0, v1, v2, v3) := v in (Z.lxor v0 d, v1, v2, v3).
Definition xor2 (v : sip_words) (d : Z) : sip_words :=
  let '(v0, v1, v2, v3) := v in (v0, v1, Z.lxor v2 d, v3).
Definition xor3 (v : sip_words) (d : Z) : sip_words :=
  let '(v0, v1, v2, v3) := v in (v0, v1, v2, Z.lxor v3 d).
Definition xor_all (v : sip_words) : Z :=
  let '(v0, v1, v2, v3) := v in Z.lxor (Z.lxor (Z.lxor v0 v1) v2) v3.

Record CSipHasher := SipHasher { sip_v : sip_words; sip_tmp : Z; sip_count : Z }.

Definition CSipHasher_new (k0 k1 : Z) : CSipHasher :=
  SipHasher (Z.lxor 0x736f6d6570736575 k0, Z.lxor 0x646f72616e646f6d k1,
             Z.lxor 0x6c7967656e657261 k0, Z.lxor 0x7465646279746573 k1) 0 0.

(** [v3 ^= d; SIPROUND; SIPROUND; v0 ^= d;] *)
Definition sip_absorb (v : sip_words) (d : Z) : sip_words :=
  xor0 (SIPROUND (SIPROUND (xor3 v d))) d.

(** [count] is an [int]: its overflow is undefined. *)
Definition sip_count_add (count n : Z) : outcome unit Z :=
  if count + n <? 2 ^ 31 then Ok (count + n) else Abort.

Definition CSipHasher_Write64 (h : CSipHasher) (data : Z) : outcome unit CSipHasher :=
  _ ← cassert (Z.rem (sip_count h) 8 =? 0);
  count ← sip_count_add (sip_count h) 8;
  Ok (SipHasher (sip_absorb (sip_v h) data) (sip_tmp h) count).

Definition sip_byte (h : CSipHasher) (b : Z) : outcome unit CSipHasher :=
  let t := Z.lor (sip_tmp h) (u64 (Z.shiftl b (8 * Z.rem (sip_count h) 8))) in
  c ← sip_count_add (sip_count h) 1;
  if Z.land c 7 =? 0 then Ok (SipHasher (sip_absorb (sip_v h) t) 0 c)
  else Ok (SipHasher (sip_v h) t c).

Fixpoint CSipHasher_Write (h : CSipHasher) (data : list Z) : outcome unit CSipHasher :=
  match data with
  | [] => Ok h
  | b :: data => h ← sip_byte h b; CSipHasher_Write h data
  end.

Definition CSipHasher_Finalize (h : CSipHasher) : Z :=
  let t := Z.lor (sip_tmp h) (u64 (Z.shiftl (u64 (sip_count h)) 56)) in
  let v := sip_absorb (sip_v h) t in
  let v := xor2 v 0xFF in
  xor_all (SIPROUND (SIPROUND (SIPROUND (SIPROUND v)))).

(** [uint256::GetUint64(pos)] *)
Definition GetUint64 (val : list Z) (pos : nat) : Z :=
  match take 8 (drop (pos * 8) val) with
  | [p0; p1; p2; p3; p4; p5; p6; p7] =>
      Z.lor (Z.lor (Z.lor (Z.lor (Z.lor (Z.lor (Z.lor p0 (Z.shiftl p1 8)) (Z.shiftl p2 16))
        (Z.shiftl p3 24)) (Z.shiftl p4 32)) (Z.shiftl p5 40)) (Z.shiftl p6 48)) (Z.shiftl p7 56)
  | _ => 0
  end.

Definition SipHashUint256 (k0 k1 : Z) (val : list Z) : Z :=
  let d := GetUint64 val 0 in
  let v0 := Z.lxor 0x736f6d6570736575 k0 in
  let v1 := Z.lxor 0x646f72616e646f6d k1 in
  let v2 := Z.lxor 0x6c7967656e657261 k0 in
  let v3 := Z.lxor (Z.lxor 0x7465646279746573 k1) d in
  let v := SIPROUND (SIPROUND (v0, v1, v2, v3)) in
  let v := xor0 v d in
  let d := GetUint64 val 1 in
  let v := xor0 (SIPROUND (SIPROUND (xor3 v d))) d in
  let d := GetUint64 val 2 in
  let v := xor0 (SIPROUND (SIPROUND (xor3 v d))) d in
  let d := GetUint64 val 3 in
  let v := xor0 (SIPROUND (SIPROUND (xor3 v d))) d in
  let v := xor3 v (u64 (Z.shiftl 4 59)) in
  let v := SIPROUND (SIPROUND v) in
  let v := xor0 v (u64 (Z.shiftl 4 59)) in
  let v := xor2 v 0xFF in
  xor_all (SIPROUND (SIPROUND (SIPROUND (SIPROUND v)))).

Definition SipHashUint256Extra (k0 k1 : Z) (val : list Z) (extra : Z) : Z :=
  let d := GetUint64 val 0 in
  let v0 := Z.lxor 0x736f6d6570736575 k0 in
  let v1 := Z.lxor 0x646f72616e646f6d k1 in
  let v2 := Z.lxor 0x6c7967656e657261 k0 in
  let v3 := Z.lxor (Z.lxor 0x7465646279746573 k1) d in
  let v := SIPROUND (SIPROUND (v0, v1, v2, v3)) in
  let v := xor0 v d in
  let d := GetUint64 val 1 in
  let v := xor0 (SIPROUND (SIPROUND (xor3 v d))) d in
  let d := GetUint64 val 2 in
  let v := xor0 (SIPROUND (SIPROUND (xor3 v d))) d in
  let d := GetUint64 val 3 in
  let v := xor0 (SIPROUND (SIPROUND (xor3 v d))) d in
  let d := Z.lor (u64 (Z.shiftl 36 56)) extra in
  let v := xor0 (SIPROUND (SIPROUND (xor3 v d))) d in
  let v := xor2 v 0xFF in
  xor_all (SIPROUND (SIPROUND (SIPROUND (SIPROUND v)))).

(** Test vectors of src/src/test/hash_tests.cpp. *)
Example murmur_tests :
  MurmurHash3 0xFBA4C795 [] = 0x6a396f08 /\
  MurmurHash3 0 [0x00; 0x11] = 0x16c6b7ab /\
  MurmurHash3 0 [0x00; 0x11; 0x22; 0x33; 0x44; 0x55; 0x66] = 0xb074502c.
Proof. by vm_compute. Qed.

(** The wrappers are to be unfolded before the streaming code. *)
#[local] Strategy 100 [hash_write hash_finalize hash_finalized SIPROUND].

(** ** Double hashes and HMAC *)

Section twice_facts.
Context {St : Type} {H : BlockHash St} {szlen : nat} {Hok : BlockHashOk St H szlen}.
Hypothesis block_small : Z.of_nat hb_block < 2 ^ 60.

Lemma finalize_stream h msg :
  hashed h msg -> zlen msg < 2 ^ 60 -> hash_finalize szlen h = digest_spec szlen msg.
Proof. intros Hh Hl. apply finalize_hashed; [done|]. by apply pad_message_length. Qed.

Lemma write_stream h msg data :
  hashed h msg -> zlen (msg ++ data) < 2 ^ 60 -> hashed (hash_write h data) (msg ++ data).
Proof. intros Hh Hl. apply hash_write_hashed; [done|lia]. Qed.

Lemma new_write_stream buf data :
  length buf = hb_block -> zlen data < 2 ^ 60 -> hashed (hash_write (hash_new buf) data) data.
Proof. intros Hb Hl. apply (write_stream _ []); [by apply hashed_new|done]. Qed.

Lemma one_shot_digest data : zlen data < 2 ^ 60 -> one_shot szlen data = digest_spec szlen data.
Proof.
  intros Hl. apply finalize_stream; [|done].
  apply new_write_stream; [apply length_replicate|done].
Qed.

Lemma chunks_stream buf (chunks : list (list Z)) :
  length buf = hb_block -> zlen (concat chunks) < 2 ^ 60 ->
  hashed (fold_left hash_write chunks (hash_new buf)) (concat chunks).
Proof.
  intros Hb Hl. apply (fold_write_hashed chunks _ []); [by apply hashed_new|]. cbn; lia.
Qed.

Lemma finalize_twice_stream h msg :
  hashed h msg -> zlen msg < 2 ^ 60 -> zlen (digest_spec szlen msg) < 2 ^ 60 ->
  finalize_twice szlen h = one_shot szlen (one_shot szlen msg).
Proof.
  intros Hh Hl Hd. unfold finalize_twice.
  rewrite (finalize_stream h msg), (one_shot_digest msg) by done.
  rewrite one_shot_digest by done. apply finalize_stream; [|done].
  apply new_write_stream; [|done]. apply (finalized_buf h msg); [done|]. by apply pad_message_length.
Qed.

(** A key block followed by a message, through a hasher. *)
Lemma keyed_stream buf k msg :
  length buf = hb_block -> zlen k < 2 ^ 59 -> zlen msg < 2 ^ 59 ->
  hash_finalize szlen (hash_write (hash_write (hash_new buf) k) msg) = digest_spec szlen (k ++ msg).
Proof.
  intros Hb Hk Hl. apply finalize_stream; [|rewrite length_app; lia].
  apply write_stream; [|rewrite length_app; lia]. apply new_write_stream; [done|lia].
Qed.

Lemma lxor_map_map a b l : map (Z.lxor a) (map (Z.lxor b) l) = map (Z.lxor (Z.lxor a b)) l.
Proof. rewrite map_map. apply map_ext. intros x. by rewrite Z.lxor_assoc. Qed.

(** The object after the constructor and some writes. *)
Lemma hmac_fold obuf ibuf key chunks :
  fold_left hmac_write chunks (hmac_new szlen obuf ibuf key)
  = Hmac (hm_outer (hmac_new szlen obuf ibuf key))
      (fold_left hash_write chunks (hm_inner (hmac_new szlen obuf ibuf key))).
Proof.
  generalize (hmac_new szlen obuf ibuf key); induction chunks as [|c chunks IH]; intros [o i]; [done|].
  cbn [fold_left]. by rewrite IH.
Qed.

Lemma hmac_rfc2104 obuf ibuf key chunks :
  length obuf = hb_block -> length ibuf = hb_block ->
  zlen (hmac_rkey szlen key) < 2 ^ 59 -> zlen (concat chunks) < 2 ^ 59 ->
  (forall msg, zlen (digest_spec szlen msg) < 2 ^ 59) ->
  hmac_finalize szlen (fold_left hmac_write chunks (hmac_new szlen obuf ibuf key))
  = rfc2104 szlen key (concat chunks).
Proof.
  intros Ho Hi Hk Hl Hd. rewrite hmac_fold. unfold hmac_finalize, rfc2104.
  cbn [hm_outer hm_inner hmac_new]. rewrite lxor_map_map.
  change (Z.lxor (Z.lxor 0x5c 0x36) 0x5c) with 0x36.
  set (k := hmac_rkey szlen key) in *.
  assert (hashed (hash_write (hash_new ibuf) (map (Z.lxor 0x36) k)) (map (Z.lxor 0x36) k)) as Hik
    by (apply new_write_stream; [done|rewrite length_map; lia]).
  assert (zlen (map (Z.lxor 0x36) k ++ concat chunks) < 2 ^ 60) as Hlen
    by (rewrite length_app, length_map; lia).
  rewrite (finalize_stream (fold_left _ _ _) (map (Z.lxor 0x36) k ++ concat chunks)); [|
    apply fold_write_hashed; [exact Hik|lia]|done].
  apply keyed_stream; [done|by rewrite length_map|apply Hd].
Qed.
End twice_facts.

(** ** Sizes of the digests *)

Section digest_size.
Context {H : BlockHash (list Z)} {szlen : nat} (n : nat).
Hypothesis transform_length : forall s c, length s = n -> length (hb_transform s c) = n.

Lemma compress_blocks_length k s data :
  length s = n -> length (compress_blocks k s data) = n.
Proof.
  revert s data; induction k as [|k IH]; intros s data Hs; [done|].
  cbn [compress_blocks]. by apply IH, transform_length.
Qed.
End digest_size.

Lemma concat_map_length {A} (f : A -> list Z) (l : list A) k :
  (forall x, length (f x) = k) -> length (concat (map f l)) = (length l * k)%nat.
Proof.
  intros Hf. induction l as [|x l IH]; [done|]. cbn [map concat length].
  rewrite length_app, IH, Hf. lia.
Qed.

Lemma sha256_transform_length s c : length s = 8%nat -> length (hb_transform (BlockHash := CSHA256) s c) = 8%nat.
Proof.
  intros Hs. cbn [hb_transform CSHA256]. rewrite Transform_fips_eq.
  do 8 (destruct s as [|? s]; [done|]). destruct s; [|done]. cbn [fips_transform].
  by destruct (fips_rounds _ _ _) as [[[[[[[? ?] ?] ?] ?] ?] ?] ?].
Qed.

Lemma sha256_digest_length msg : length (@digest_spec _ CSHA256 8 msg) = 32%nat.
Proof.
  unfold digest_spec. cbn [hb_output CSHA256]. unfold sha256_output.
  rewrite (concat_map_length _ _ 4) by (intros; apply be_bytes_length).
  rewrite (compress_blocks_length 8); [done|apply sha256_transform_length|done].
Qed.

Lemma sha512_digest_length msg : length (@digest_spec _ CSHA512 16 msg) = 64%nat.
Proof.
  unfold digest_spec. cbn [hb_output CSHA512]. unfold sha512_output.
  rewrite (concat_map_length _ _ 8) by (intros; apply be_bytes_length).
  rewrite (compress_blocks_length 8); [done| |done].
  intros s c Hs. cbn [hb_transform CSHA512].
  do 8 (destruct s as [|? s]; [done|]). destruct s; [|done]. reflexivity.
Qed.

Lemma sha256_one_shot msg : zlen msg < 2 ^ 60 -> sha256 msg = @digest_spec _ CSHA256 8 msg.
Proof. apply (one_shot_digest (H := CSHA256)). reflexivity. Qed.

Lemma sha256_length msg : zlen msg < 2 ^ 60 -> length (sha256 msg) = 32%nat.
Proof. intros Hl. rewrite sha256_one_shot by exact Hl. apply sha256_digest_length. Qed.

(** A hasher keeps the eight words of its state, whatever it is given. *)
Lemma sha256_write_state (h : @hasher (list Z)) data :
  length (h_s h) = 8%nat -> length (h_s (hash_write (H := CSHA256) h data)) = 8%nat.
Proof.
  intros Hh. unfold hash_write.
  assert (forall fuel s bytes d, length s = 8%nat ->
    length (write_blocks (H := CSHA256) fuel s bytes d).1.1 = 8%nat) as Hw.
  { induction fuel as [|fuel IH]; intros s bytes d Hs; [done|]. cbn [write_blocks].
    case_bool_decide; [|done]. by apply IH, sha256_transform_length. }
  destruct (_ && _).
  - destruct (write_blocks _ _ _ _) as [[s b] d] eqn:E. 
    match type of E with write_blocks ?f ?s0 ?b0 ?d0 = _ => pose proof (Hw f s0 b0 d0 (sha256_transform_length _ _ Hh)) as Hl end.
    rewrite E in Hl. by case_bool_decide.
  - destruct (write_blocks _ _ _ _) as [[s b] d] eqn:E.
    match type of E with write_blocks ?f ?s0 ?b0 ?d0 = _ => pose proof (Hw f s0 b0 d0 Hh) as Hl end.
    rewrite E in Hl. by case_bool_decide.
Qed.

Lemma sha256_finalize_length (h : @hasher (list Z)) :
  length (h_s h) = 8%nat -> length (hash_finalize (H := CSHA256) 8 h) = 32%nat.
Proof.
  intros Hh. unfold hash_finalize, hash_finalized. cbn [hb_output CSHA256]. unfold sha256_output.
  rewrite (concat_map_length _ _ 4) by (intros; apply be_bytes_length).
  by rewrite sha256_write_state by by apply sha256_write_state.
Qed.

(** Every double hash is 32 bytes. *)
Lemma Hash_length ranges : length (Hash ranges) = 32%nat.
Proof. unfold Hash, CHash256_Finalize, finalize_twice. apply sha256_finalize_length, sha256_write_state. reflexivity. Qed.

Lemma Hash_bytes ranges : bytes_ok (Hash ranges).
Proof.
  unfold Hash, CHash256_Finalize, finalize_twice. unfold hash_finalize at 1, hash_finalized. cbn [hb_output CSHA256]. unfold sha256_output.
  apply Forall_concat, Forall_forall. intros l. rewrite list_elem_of_fmap. intros (x & -> & _). apply be_bytes_ok.
Qed.

(** The key block of HMAC is one block long. *)
Lemma hmac_rkey_length {St} {H : BlockHash St} {szlen} {Hok : BlockHashOk St H szlen} key :
  Z.of_nat hb_block < 2 ^ 59 -> zlen key < 2 ^ 60 ->
  (forall msg, (length (digest_spec szlen msg) <= hb_block)%nat) ->
  length (hmac_rkey szlen key) = hb_block.
Proof.
  intros HB Hk Hd. unfold hmac_rkey. rewrite length_app, length_replicate. case_bool_decide; [lia|].
  rewrite one_shot_digest by (try lia; done). specialize (Hd key). lia.
Qed.

Lemma sha256_chunks (ranges : list (list Z)) buf :
  length buf = 64%nat -> zlen (concat ranges) < 2 ^ 60 ->
  hashed (H := CSHA256) (fold_left CSHA256_Write ranges (CSHA256_new buf)) (concat ranges).
Proof. intros. by apply (chunks_stream (H := CSHA256) (szlen := 8)). Qed.

Lemma Hash_twice (ranges : list (list Z)) :
  zlen (concat ranges) < 2 ^ 60 -> Hash ranges = sha256 (sha256 (concat ranges)).
Proof.
  intros Hl. apply (finalize_twice_stream (H := CSHA256) (szlen := 8)); try done.
  - by apply sha256_chunks.
  - by rewrite sha256_digest_length.
Qed.

(** *** Sizes of the digests *)

Lemma concat_map_bytes {A} (f : A -> list Z) (l : list A) :
  (forall x, bytes_ok (f x)) -> bytes_ok (concat (map f l)).
Proof. intros Hf. induction l as [|x l IH]; [constructor|]. apply bytes_ok_app. by split. Qed.

(** [d] is [n] bytes. *)
Definition sized (n : nat) (d : list Z) : Prop := length d = n /\ bytes_ok d.

Lemma sha256_sized msg : zlen msg < 2 ^ 60 -> sized 32 (sha256 msg).
Proof.
  intros Hl. split; [by apply sha256_length|]. rewrite sha256_one_shot by exact Hl.
  apply concat_map_bytes. intros; apply be_bytes_ok.
Qed.

Lemma ripemd160_sized msg : zlen msg < 2 ^ 60 -> sized 20 (ripemd160 msg).
Proof.
  intros Hl. assert (ripemd160 msg = @digest_spec _ CRIPEMD160 8 msg) as ->.
  { apply (one_shot_digest (H := CRIPEMD160)); [reflexivity|exact Hl]. }
  split; [|apply concat_map_bytes; intros; apply le_bytes_ok].
  unfold digest_spec. cbn [hb_output CRIPEMD160]. unfold ripemd160_output.
  rewrite (concat_map_length _ _ 4) by (intros; apply le_bytes_length).
  rewrite (compress_blocks_length 5); [done| |done].
  intros s c Hs. cbn [hb_transform CRIPEMD160]. unfold Ripemd160.Transform.
  do 5 (destruct s as [|? s]; [done|]). destruct s; [|done].
  repeat lazymatch goal with
  | |- length (let x := ?e in @?b x) = _ => let y := eval cbv beta in (b e) in change_no_check (length y = 5%nat)
  | |- length (let '(x, y) := ?e in _) = _ => destruct e as [? ?]
  end; reflexivity.
Qed.

Lemma sha1_sized msg : zlen msg < 2 ^ 60 -> sized 20 (sha1 msg).
Proof.
  intros Hl. assert (sha1 msg = @digest_spec _ CSHA1 8 msg) as ->.
  { apply (one_shot_digest (H := CSHA1)); [reflexivity|exact Hl]. }
  split; [|apply concat_map_bytes; intros; apply be_bytes_ok].
  unfold digest_spec. cbn [hb_output CSHA1]. unfold sha1_output.
  rewrite (concat_map_length _ _ 4) by (intros; apply be_bytes_length).
  rewrite (compress_blocks_length 5); [done| |done].
  intros s c Hs. cbn [hb_transform CSHA1].
  do 5 (destruct s as [|? s]; [done|]). destruct s; [|done]. reflexivity.
Qed.

Lemma Hash160_sized msg : zlen msg < 2 ^ 60 -> sized 20 (Hash160 msg).
Proof. intros Hl. apply (ripemd160_sized (sha256 msg)). by rewrite sha256_length. Qed.

Lemma Hash_sized msg : zlen msg < 2 ^ 60 -> sized 32 (Hash [msg]).
Proof.
  intros Hl. rewrite Hash_twice by (cbn; rewrite app_nil_r; done).
  cbn [concat]. rewrite app_nil_r. apply sha256_sized. by rewrite sha256_length.
Qed.

(** [Hash], over one to six ranges, is SHA-256 twice over their
    concatenation, 32 bytes; [CHash160] is RIPEMD-160 of SHA-256, however the
    message is cut into [Write]s. *)
Theorem Hash_is_double_sha256 (ranges : list (list Z)) (buf : list Z) :
  length buf = 64%nat -> zlen (concat ranges) < 2 ^ 60 ->
  Hash ranges = sha256 (sha256 (concat ranges)) /\
  length (Hash ranges) = 32%nat /\
  CHash160_Finalize (fold_left CHash160_Write ranges (CHash160_new buf))
  = ripemd160 (sha256 (concat ranges)).
Proof.
  intros Hb Hl.
  pose proof (Hash_twice ranges Hl) as E.
  split; [exact E|]. split.
  - rewrite E. apply sha256_length. by rewrite sha256_length.
  - assert (CSHA256_Finalize (fold_left CHash160_Write ranges (CHash160_new buf))
      = sha256 (concat ranges)) as E160.
    { rewrite sha256_one_shot by exact Hl.
      exact (finalize_stream (H := CSHA256) (szlen := 8) eq_refl _ _ (sha256_chunks ranges buf Hb Hl) Hl). }
    unfold CHash160_Finalize. rewrite E160. reflexivity.
Qed.

Lemma Hash_is_double_sha256_witness :
  Hash [[1; 2]; [3]] = sha256 (sha256 [1; 2; 3]) /\
  length (Hash [[1; 2]; [3]]) = 32%nat /\
  CHash160_Finalize (fold_left CHash160_Write [[1; 2]; [3]] (CHash160_new (replicate 64 9)))
  = ripemd160 (sha256 [1; 2; 3]).
Proof. apply (Hash_is_double_sha256 [[1; 2]; [3]] (replicate 64 9)); reflexivity. Defined.

(** The two HMAC classes compute the HMAC of RFC 2104 over SHA-256 and
    SHA-512, however the message is cut into [Write]s and for keys both
    shorter and longer than a block, whose derived key is one block. *)
Theorem HMAC_is_RFC2104 (key : list Z) (chunks : list (list Z)) (o i o' i' : list Z) :
  length o = 64%nat -> length i = 64%nat -> length o' = 128%nat -> length i' = 128%nat ->
  zlen key < 2 ^ 59 -> zlen (concat chunks) < 2 ^ 59 ->
  CHMAC_SHA256_Finalize (fold_left CHMAC_SHA256_Write chunks (CHMAC_SHA256_new o i key))
    = @rfc2104 _ CSHA256 8 key (concat chunks) /\
  CHMAC_SHA512_Finalize (fold_left CHMAC_SHA512_Write chunks (CHMAC_SHA512_new o' i' key))
    = @rfc2104 _ CSHA512 16 key (concat chunks) /\
  length (@hmac_rkey _ CSHA256 8 key) = 64%nat /\
  length (@hmac_rkey _ CSHA512 16 key) = 128%nat.
Proof.
  intros Ho Hi Ho' Hi' Hk Hl.
  assert (length (@hmac_rkey _ CSHA256 8 key) = 64%nat) as H1.
  { apply (hmac_rkey_length (H := CSHA256)); [done|lia|].
    intros msg. rewrite sha256_digest_length. cbn; lia. }
  assert (length (@hmac_rkey _ CSHA512 16 key) = 128%nat) as H2.
  { apply (hmac_rkey_length (H := CSHA512)); [done|lia|].
    intros msg. rewrite sha512_digest_length. cbn; lia. }
  split; [|split; [|done]].
  - apply (hmac_rfc2104 (H := CSHA256)); try done.
    + by rewrite H1.
    + intros msg. by rewrite sha256_digest_length.
  - apply (hmac_rfc2104 (H := CSHA512)); try done.
    + by rewrite H2.
    + intros msg. by rewrite sha512_digest_length.
Qed.

Lemma HMAC_is_RFC2104_witness :
  CHMAC_SHA256_Finalize (fold_left CHMAC_SHA256_Write [[1]; [2]]
      (CHMAC_SHA256_new (replicate 64 3) (replicate 64 4) [7]))
    = @rfc2104 _ CSHA256 8 [7] [1; 2] /\
  CHMAC_SHA512_Finalize (fold_left CHMAC_SHA512_Write [[1]; [2]]
      (CHMAC_SHA512_new (replicate 128 3) (replicate 128 4) [7]))
    = @rfc2104 _ CSHA512 16 [7] [1; 2] /\
  length (@hmac_rkey _ CSHA256 8 [7]) = 64%nat /\
  length (@hmac_rkey _ CSHA512 16 [7]) = 128%nat.
Proof. apply (HMAC_is_RFC2104 [7] [[1]; [2]]); reflexivity. Defined.

(** ** SipHash *)

Lemma sip_count_ok c n : c + n < 2 ^ 31 -> sip_count_add c n = Ok (c + n).
Proof. intros H. unfold sip_count_add. by rewrite (proj2 (Z.ltb_lt _ _) H). Qed.

Lemma sip_byte_value t b j :
  0 <= j < 8 -> 0 <= t < 2 ^ (8 * j) -> byte_ok b ->
  Z.lor t (u64 (Z.shiftl b (8 * j))) = t + b * 2 ^ (8 * j).
Proof.
  intros Hj Ht Hb. unfold byte_ok in Hb. rewrite wrapu_small.
  - apply lor_shiftl_add; lia.
  - rewrite Z.shiftl_mul_pow2 by lia. unfold in_u.
    pose proof (Z.pow_pos_nonneg 2 (8 * j) ltac:(lia) ltac:(lia)).
    assert (2 ^ (8 * j) <= 2 ^ 56) by (apply Z.pow_le_mono_r; lia).
    change (2 ^ 64) with (256 * 2 ^ 56). nia.
Qed.

(** The bytes of an incomplete word. *)
Lemma sip_write_partial v t m j data rest :
  bytes_ok data -> 0 <= m -> 0 <= j -> j + zlen data < 8 -> 0 <= t < 2 ^ (8 * j) ->
  8 * m + j + zlen data < 2 ^ 31 ->
  CSipHasher_Write (SipHasher v t (8 * m + j)) (data ++ rest)
  = CSipHasher_Write
      (SipHasher v (t + 2 ^ (8 * j) * le_val data) (8 * m + (j + zlen data))) rest.
Proof.
  intros Hd Hm. revert t j; induction Hd as [|b data Hb Hd IH]; intros t j Hj Hl Ht Hc.
  - cbn. do 2 f_equal; lia.
  - cbn [app CSipHasher_Write length] in *. unfold sip_byte. cbn [sip_count sip_tmp sip_v].
    assert (Z.rem (8 * m + j) 8 = j) as E.
    { rewrite Z.rem_mod_nonneg by lia.
      rewrite Z.add_comm, Z.mul_comm, Z.mod_add, Z.mod_small by lia. done. }
    rewrite E, sip_byte_value by (done || lia). rewrite sip_count_ok by lia. cbn [mbind outcome_bind].
    replace (8 * m + j + 1) with (8 * m + (j + 1)) by lia.
    assert (Z.land (8 * m + (j + 1)) 7 = j + 1) as ->.
    { change 7 with (Z.ones 3). rewrite Z.land_ones by lia. change (2 ^ 3) with 8.
      rewrite Z.add_comm, Z.mul_comm, Z.mod_add, Z.mod_small by lia. done. }
    rewrite (proj2 (Z.eqb_neq (j + 1) 0)) by lia. cbn [mbind outcome_bind].
    assert (2 ^ (8 * (j + 1)) = 2 ^ (8 * j) * 256) as Ep
      by (rewrite Z.mul_add_distr_l, Z.pow_add_r by lia; done).
    unfold byte_ok in Hb. rewrite IH by (rewrite ?Ep; nia).
    f_equal. rewrite Ep. cbn [le_val]. f_equal; lia.
Qed.

(** Eight bytes are one word. *)
Lemma sip_write_word v m data rest :
  bytes_ok data -> length data = 8%nat -> 0 <= m -> 8 * m + 8 < 2 ^ 31 ->
  CSipHasher_Write (SipHasher v 0 (8 * m)) (data ++ rest)
  = CSipHasher_Write (SipHasher (sip_absorb v (le_val data)) 0 (8 * m + 8)) rest.
Proof.
  intros Hd Hl Hm Hc.
  destruct (exists_last (l := data)) as (l & b & ->); [by intros ->|].
  rewrite length_app in Hl. cbn [length] in Hl. apply bytes_ok_app in Hd as [Hd Hb].
  inversion Hb as [|? ? Hb' _]; subst. rewrite <- app_assoc.
  replace (8 * m) with (8 * m + 0) at 1 by lia.
  rewrite sip_write_partial by (done || lia || (cbn; lia)).
  assert (zlen l = 7) as Ez by lia. rewrite Ez.
  cbn [app CSipHasher_Write]. unfold sip_byte. cbn [sip_count sip_tmp sip_v].
  assert (Z.rem (8 * m + (0 + 7)) 8 = 7) as ->.
  { rewrite Z.rem_mod_nonneg by lia. rewrite Z.add_comm, Z.mul_comm, Z.mod_add by lia. done. }
  pose proof (le_val_range l Hd) as Hr. rewrite Ez in Hr.
  change (2 ^ (8 * 0)) with 1. rewrite (Z.mul_1_l (le_val l)), (Z.add_0_l (le_val l)).
  rewrite sip_byte_value by (done || lia). rewrite sip_count_ok by lia. cbn [mbind outcome_bind].
  replace (8 * m + (0 + 7) + 1) with (8 * (m + 1)) by lia.
  assert (Z.land (8 * (m + 1)) 7 = 0) as ->.
  { change 7 with (Z.ones 3). rewrite Z.land_ones, Z.mul_comm by lia. by apply Z.mod_mul. }
  cbn [Z.eqb mbind outcome_bind CSipHasher_Write]. f_equal. f_equal; [|lia]. f_equal.
  rewrite le_val_app, Ez. cbn [le_val]. lia.
Qed.

Lemma GetUint64_le val pos :
  bytes_ok val -> (pos * 8 + 8 <= length val)%nat ->
  GetUint64 val pos = le_val (take 8 (drop (pos * 8) val)).
Proof.
  intros Hv Hl. unfold GetUint64.
  assert (bytes_ok (take 8 (drop (pos * 8) val))) as Hb by auto with bytes.
  assert (length (take 8 (drop (pos * 8) val)) = 8%nat) as H8
    by (rewrite length_take, length_drop; lia).
  remember (take 8 (drop (pos * 8) val)) as w eqn:Ew. clear Ew.
  do 8 (destruct w as [|? w]; [done|]). destruct w; [|done].
  assert (forall (l : list Z) b k, bytes_ok l -> k = 8 * zlen l ->
    Z.lor (le_val l) (Z.shiftl b k) = le_val (l ++ [b])) as Hlor.
  { intros l b k Hlb ->. rewrite lor_shiftl_add by (try apply le_val_range; lia || done).
    rewrite le_val_app. cbn [le_val]. lia. }
  assert (z = le_val [z]) as Ez by (cbn; lia). rewrite Ez at 1.
  unfold bytes_ok in Hb. rewrite !Forall_cons in Hb. destruct_and! Hb.
  repeat (rewrite Hlor; [cbn [app]|
    unfold bytes_ok; auto 10 using Forall_cons_2, Forall_nil_2|reflexivity]).
  reflexivity.
Qed.

(** The unrolled functions on a value: absorb its four words, then finish. *)
Lemma sip_uint256_unfold k0 k1 val :
  SipHashUint256 k0 k1 val =
  CSipHasher_Finalize (SipHasher
    (fold_left (fun v i => sip_absorb v (GetUint64 val i)) [0; 1; 2; 3]%nat
       (sip_v (CSipHasher_new k0 k1))) 0 32).
Proof.
  cbv beta iota zeta delta [SipHashUint256 CSipHasher_Finalize fold_left sip_v sip_tmp
    sip_count CSipHasher_new sip_absorb].
  reflexivity.
Qed.

Lemma sip_uint256_extra_unfold k0 k1 val extra :
  SipHashUint256Extra k0 k1 val extra =
  CSipHasher_Finalize (SipHasher
    (fold_left (fun v i => sip_absorb v (GetUint64 val i)) [0; 1; 2; 3]%nat
       (sip_v (CSipHasher_new k0 k1))) extra 36).
Proof.
  unfold CSipHasher_Finalize. cbn [sip_tmp sip_count]. rewrite (Z.lor_comm extra).
  cbv beta iota zeta delta [SipHashUint256Extra fold_left sip_v CSipHasher_new sip_absorb].
  reflexivity.
Qed.

(** Four words of a 32-byte string. *)
Lemma sip_write_val v val rest :
  bytes_ok val -> length val = 32%nat ->
  CSipHasher_Write (SipHasher v 0 0) (val ++ rest) =
  CSipHasher_Write (SipHasher
    (fold_left (fun v i => sip_absorb v (GetUint64 val i)) [0; 1; 2; 3]%nat v) 0 32) rest.
Proof.
  intros Hv Hl. rewrite <- (take_drop 8 val) at 1. rewrite <- app_assoc.
  assert (forall i, (i <= 3)%nat -> length (take 8 (drop (i * 8) val)) = 8%nat) as H8
    by (intros; rewrite length_take, length_drop; lia).
  pose proof (fun w m i r Hi => sip_write_word w m (take 8 (drop (i * 8) val)) r
    ltac:(auto with bytes) (H8 i Hi)) as Hw.
  rewrite (Hw v 0 0%nat) by (cbn; lia).
  cbn [drop Nat.mul Nat.add]. rewrite <- (take_drop 8 (drop 8 val)), <- app_assoc, drop_drop.
  rewrite (Hw _ 1 1%nat) by (cbn; lia).
  cbn [Nat.mul Nat.add]. rewrite <- (take_drop 8 (drop 16 val)), <- app_assoc, drop_drop.
  rewrite (Hw _ 2 2%nat) by (cbn; lia).
  cbn [Nat.mul Nat.add]. rewrite <- (take_drop 8 (drop 24 val)), <- app_assoc, drop_drop.
  rewrite (Hw _ 3 3%nat) by (cbn; lia).
  rewrite (drop_ge val (24 + 8)) by lia. cbn [app fold_left].
  rewrite !GetUint64_le by (done || lia). reflexivity.
Qed.

(** The optimised SipHash functions for 32-byte values are the general
    hasher: [SipHashUint256] hashes the bytes of the value, which is also what
    writing its four 64-bit words does, and [SipHashUint256Extra] the bytes of
    the value followed by the four of [extra]. *)
Theorem SipHashUint256_is_SipHash (k0 k1 : Z) (val : list Z) (extra : Z) :
  bytes_ok val -> length val = 32%nat -> in_u 32 extra ->
  (h ← CSipHasher_Write (CSipHasher_new k0 k1) val; Ok (CSipHasher_Finalize h))
    = Ok (SipHashUint256 k0 k1 val) /\
  (h ← CSipHasher_Write64 (CSipHasher_new k0 k1) (GetUint64 val 0);
   h ← CSipHasher_Write64 h (GetUint64 val 1);
   h ← CSipHasher_Write64 h (GetUint64 val 2);
   h ← CSipHasher_Write64 h (GetUint64 val 3);
   Ok (CSipHasher_Finalize h)) = Ok (SipHashUint256 k0 k1 val) /\
  (h ← CSipHasher_Write (CSipHasher_new k0 k1) (val ++ le_bytes 4 extra);
   Ok (CSipHasher_Finalize h)) = Ok (SipHashUint256Extra k0 k1 val extra).
Proof.
  intros Hv Hl He. split; [|split].
  - rewrite <- (app_nil_r val) at 1. unfold CSipHasher_new at 1.
    rewrite sip_write_val by done. by rewrite sip_uint256_unfold.
  - by rewrite sip_uint256_unfold.
  - unfold CSipHasher_new at 1. rewrite sip_write_val by done.
    rewrite <- (app_nil_r (le_bytes 4 extra)). change 32 with (8 * 4 + 0).
    rewrite sip_write_partial by (try apply le_bytes_ok; rewrite ?le_bytes_length; cbn; lia).
    rewrite le_bytes_length, le_val_le_bytes_small by apply He.
    rewrite sip_uint256_extra_unfold. cbn [CSipHasher_Write mbind outcome_bind].
    change (2 ^ (8 * 0)) with 1. rewrite Z.mul_1_l, Z.add_0_l. reflexivity.
Qed.

Lemma SipHashUint256_is_SipHash_witness :
  (h ← CSipHasher_Write (CSipHasher_new 5 6) (replicate 32 200); Ok (CSipHasher_Finalize h))
    = Ok (SipHashUint256 5 6 (replicate 32 200)).
Proof.
  apply (SipHashUint256_is_SipHash 5 6 (replicate 32 200) 77).
  - apply bytes_ok_replicate. cbv; split; congruence.
  - reflexivity.
  - cbv; split; congruence.
Defined.
