(* ===== verification/ArithUint256.v ===== *)
(** * Fixed-width big integers (src/src/arith_uint256.h, arith_uint256.cpp,
    uint256.h)

    A [base_uint<BITS>] is the list of its [WIDTH = BITS/32] limbs [pn], the
    least significant first; [bu_val] is the number it stands for and
    [limbs_ok] its invariant.  Every operation is written limb by limb with the
    carries of the code; the theorems state it on the numbers, modulo
    [2 ^ BITS]. *)
From S2P Require Import Prelude.

Notation bu := (list Z).

Fixpoint bu_val (pn : bu) : Z :=
  match pn with
  | [] => 0
  | x :: pn => x + 2 ^ 32 * bu_val pn
  end.

Definition limbs_ok (W : nat) (pn : bu) : Prop := length pn = W /\ Forall (in_u 32) pn.

(** [BITS] *)
Notation bits_of W := (32 * Z.of_nat W).

(** [pn[i]], for [i] in range. *)
Definition limb (pn : bu) (i : nat) : Z := nth i pn 0.

Definition bu_zero (W : nat) : bu := replicate W 0.

(** [operator=(uint64_t)] and the constructor from uint64_t *)
Definition bu_of_uint64 (W : nat) (b : Z) : bu :=
  u32 b :: u32 (Z.shiftr b 32) :: replicate (W - 2) 0.

(** [operator!] and [IsNull] *)
Definition bu_is_zero (pn : bu) : bool := forallb (fun x => x =? 0) pn.

(** [operator~] *)
Definition bu_not (pn : bu) : bu := map (fun x => 0xffffffff - x) pn.

(** [operator++]: stops at the first limb that does not wrap around. *)
Fixpoint bu_inc (pn : bu) : bu :=
  match pn with
  | [] => []
  | x :: pn => let x := u32 (x + 1) in if x =? 0 then x :: bu_inc pn else x :: pn
  end.

(** [operator--] *)
Fixpoint bu_dec (pn : bu) : bu :=
  match pn with
  | [] => []
  | x :: pn => let x := u32 (x - 1) in if x =? 0xffffffff then x :: bu_dec pn else x :: pn
  end.

(** [operator-()] *)
Definition bu_neg (pn : bu) : bu := bu_inc (bu_not pn).

(** The loop of [operator+=]; [n] is a uint64_t. *)
Fixpoint add_loop (carry : Z) (a b : bu) : bu :=
  match a, b with
  | x :: a, y :: b =>
      let n := u64 (carry + x + y) in
      Z.land n 0xffffffff :: add_loop (Z.shiftr n 32) a b
  | _, _ => []
  end.
Definition bu_add (a b : bu) : bu := add_loop 0 a b.

(** [operator-=] *)
Definition bu_sub (a b : bu) : bu := bu_add a (bu_neg b).

(** [operator*=(uint32_t)] *)
Fixpoint mul32_loop (carry b32 : Z) (pn : bu) : bu :=
  match pn with
  | [] => []
  | x :: pn =>
      let n := u64 (carry + b32 * x) in
      Z.land n 0xffffffff :: mul32_loop (Z.shiftr n 32) b32 pn
  end.
Definition bu_mul32 (pn : bu) (b32 : Z) : bu := mul32_loop 0 b32 pn.

(** The inner loop of [operator*=], on the limbs [pn + j]: it ends with them. *)
Fixpoint mul_row (carry aj : Z) (b pn : bu) : bu :=
  match b, pn with
  | y :: b, p :: pn =>
      let n := u64 (carry + p + aj * y) in
      Z.land n 0xffffffff :: mul_row (Z.shiftr n 32) aj b pn
  | _, _ => pn
  end.
Definition mul_step (a b pn : bu) (j : nat) : bu :=
  take j pn ++ mul_row 0 (limb a j) b (drop j pn).
Definition bu_mul (a b : bu) : bu :=
  fold_left (mul_step a b) (seq 0 (length a)) (bu_zero (length a)).

(** [pn[i] |= v] *)
Definition or_at (pn : bu) (i : Z) (v : Z) : bu := alter (fun p => Z.lor p v) (Z.to_nat i) pn.

(** [operator<<=] *)
Definition shl_step (W : nat) (k shift : Z) (a pn : bu) (i : nat) : bu :=
  let i' := Z.of_nat i in
  let pn :=
    if (i' + k + 1 <? Z.of_nat W) && negb (shift =? 0)
    then or_at pn (i' + k + 1) (Z.shiftr (limb a i) (32 - shift)) else pn in
  if i' + k <? Z.of_nat W
  then or_at pn (i' + k) (u32 (Z.shiftl (limb a i) shift)) else pn.
Definition bu_shl (a : bu) (shift : Z) : bu :=
  let W := length a in
  fold_left (shl_step W (shift / 32) (shift mod 32) a) (seq 0 W) (bu_zero W).

(** [operator>>=] *)
Definition shr_step (k shift : Z) (a pn : bu) (i : nat) : bu :=
  let i' := Z.of_nat i in
  let pn :=
    if (0 <=? i' - k - 1) && negb (shift =? 0)
    then or_at pn (i' - k - 1) (u32 (Z.shiftl (limb a i) (32 - shift))) else pn in
  if 0 <=? i' - k
  then or_at pn (i' - k) (Z.shiftr (limb a i) shift) else pn.
Definition bu_shr (a : bu) (shift : Z) : bu :=
  let W := length a in
  fold_left (shr_step (shift / 32) (shift mod 32) a) (seq 0 W) (bu_zero W).

(** [CompareTo]: the limbs [i - 1], ..., [0]. *)
Fixpoint compare_loop (i : nat) (a b : bu) : Z :=
  match i with
  | O => 0
  | S i =>
      if limb a i <? limb b i then -1
      else if limb b i <? limb a i then 1
      else compare_loop i a b
  end.
Definition CompareTo (a b : bu) : Z := compare_loop (length a) a b.

(** [EqualTo(uint64_t)] *)
Definition EqualTo (a : bu) (b : Z) : bool :=
  forallb (fun x => x =? 0) (drop 2 a)
  && (limb a 1 =? Z.shiftr b 32) && (limb a 0 =? Z.land b 0xffffffff).

(** [bits()]: the loop on the bits of a nonzero limb, then on the limbs. *)
Fixpoint limb_bits (bits : nat) (x : Z) : Z :=
  match bits with
  | O => 1
  | S b => if Z.testbit x (Z.of_nat bits) then Z.of_nat bits + 1 else limb_bits b x
  end.
Fixpoint bits_loop (pos : nat) (pn : bu) : Z :=
  match pos with
  | O => 0
  | S pos =>
      if limb pn pos =? 0 then bits_loop pos pn
      else 32 * Z.of_nat pos + limb_bits 31 (limb pn pos)
  end.
Definition bits (pn : bu) : Z := bits_loop (length pn) pn.

Definition GetLow64 (pn : bu) : Z := Z.lor (limb pn 0) (Z.shiftl (limb pn 1) 32).

(** The loop of [operator/=], from [shift] down to 0. *)
Fixpoint div_loop (n : nat) (quo num div : bu) : bu * bu :=
  match n with
  | O => (quo, num)
  | S s =>
      let shift := Z.of_nat s in
      let '(num, quo) :=
        if 0 <=? CompareTo num div
        then (bu_sub num div, or_at quo (shift / 32) (u32 (Z.shiftl 1 (Z.land shift 31))))
        else (num, quo) in
      div_loop s quo num (bu_shr div 1)
  end.
Definition bu_div (a b : bu) : outcome unit bu :=
  let num_bits := bits a in
  let div_bits := bits b in
  if div_bits =? 0 then Throw
  else if num_bits <? div_bits then Ok (bu_zero (length a))
  else
    let shift := num_bits - div_bits in
    Ok (div_loop (Z.to_nat (shift + 1)) (bu_zero (length a)) a (bu_shl b shift)).1.

(** [arith_uint256::SetCompact]: the number, [*pfNegative] and [*pfOverflow]. *)
Definition SetCompact (nCompact : Z) : bu * bool * bool :=
  let nSize := Z.shiftr nCompact 24 in
  let nWord := Z.land nCompact 0x007fffff in
  let '(nWord, n) :=
    if nSize <=? 3 then
      let nWord := Z.shiftr nWord (8 * (3 - nSize)) in (nWord, bu_of_uint64 8 nWord)
    else (nWord, bu_shl (bu_of_uint64 8 nWord) (8 * (nSize - 3))) in
  let fNegative := negb (nWord =? 0) && negb (Z.land nCompact 0x00800000 =? 0) in
  let fOverflow := negb (nWord =? 0) &&
    ((34 <? nSize) || ((0xff <? nWord) && (33 <? nSize)) || ((0xffff <? nWord) && (32 <? nSize))) in
  (n, fNegative, fOverflow).

Definition GetCompact (pn : bu) (fNegative : bool) : outcome unit Z :=
  let nSize := (bits pn + 7) / 8 in
  let nCompact :=
    if nSize <=? 3 then u32 (u64 (Z.shiftl (GetLow64 pn) (8 * (3 - nSize))))
    else u32 (GetLow64 (bu_shr pn (8 * (nSize - 3)))) in
  let '(nCompact, nSize) :=
    if negb (Z.land nCompact 0x00800000 =? 0) then (Z.shiftr nCompact 8, nSize + 1)
    else (nCompact, nSize) in
  _ ← cassert (Z.land nCompact 0xff800000 =? 0);
  _ ← cassert (nSize <? 256);
  let nCompact := Z.lor nCompact (u32 (Z.shiftl nSize 24)) in
  Ok (Z.lor nCompact
        (if fNegative && negb (Z.land nCompact 0x007fffff =? 0) then 0x00800000 else 0)).

(** ** Limbs and numbers *)

Lemma bu_val_range pn : Forall (in_u 32) pn -> 0 <= bu_val pn < 2 ^ bits_of (length pn).
Proof.
  induction 1 as [|x pn Hx Hpn IH]; [cbn; lia|]. unfold in_u in Hx.
  replace (bits_of (length (x :: pn))) with (32 + bits_of (length pn)) by (cbn [length]; lia).
  rewrite Z.pow_add_r by lia. cbn [bu_val]. nia.
Qed.

Lemma limb_ok pn i : Forall (in_u 32) pn -> in_u 32 (limb pn i).
Proof.
  intros H. unfold limb. destruct (nth_in_or_default i pn 0) as [Hi| ->]; [|unfold in_u; lia].
  rewrite Forall_forall in H. apply H. by apply list_elem_of_In.
Qed.

Lemma pow_W_S W : 2 ^ bits_of (S W) = 2 ^ 32 * 2 ^ bits_of W.
Proof. rewrite <- Z.pow_add_r by lia. f_equal. lia. Qed.

(** A limb with carry: the low half stays, the high half is carried. *)
Lemma limb_split n : in_u 64 n ->
  Z.land n 0xffffffff = n mod 2 ^ 32 /\ Z.shiftr n 32 = n / 2 ^ 32 /\
  in_u 32 (Z.land n 0xffffffff) /\ 0 <= Z.shiftr n 32 < 2 ^ 32.
Proof.
  intros Hn. change 0xffffffff with (Z.ones 32). rewrite (Z.land_ones n 32), Z.shiftr_div_pow2 by lia. unfold in_u in *.
  change (2 ^ 64) with (2 ^ 32 * 2 ^ 32) in Hn.
  pose proof (Z.mod_pos_bound n (2 ^ 32) ltac:(lia)).
  repeat split; try lia; [by apply Z.div_pos; lia|apply Z.div_lt_upper_bound; lia].
Qed.

Lemma carry_mod n v M : 0 < M ->
  (n + 2 ^ 32 * v) mod (2 ^ 32 * M) = n mod 2 ^ 32 + 2 ^ 32 * ((n / 2 ^ 32 + v) mod M).
Proof.
  intros HM. rewrite Z.rem_mul_r by lia.
  by rewrite (Z.mul_comm (2 ^ 32) v), Z.mod_add, Z.div_add by lia.
Qed.

(** What an operation on [W] limbs returns: [W] limbs that stand for [v]
    modulo [2 ^ BITS]. *)
Definition represents (W : nat) (pn : bu) (v : Z) : Prop :=
  limbs_ok W pn /\ bu_val pn = v mod 2 ^ bits_of W.

(** One limb of a carry chain. *)
Lemma represents_cons W n pn v :
  in_u 64 n -> represents W pn (Z.shiftr n 32 + v) ->
  represents (S W) (Z.land n 0xffffffff :: pn) (n + 2 ^ 32 * v).
Proof.
  intros Hn [[Hl Hf] Hv]. destruct (limb_split n Hn) as (E1 & E2 & H1 & _). split.
  - split; [cbn; lia|by constructor].
  - rewrite pow_W_S, carry_mod by lia. cbn [bu_val]. by rewrite Hv, E1, E2.
Qed.

Lemma represents_nil v : represents 0 [] v.
Proof. split; [by split|]. cbn. by rewrite Z.mod_1_r. Qed.

Lemma represents_small W pn v : represents W pn v -> 0 <= v < 2 ^ bits_of W -> bu_val pn = v.
Proof. intros [_ ->] Hv. by apply Z.mod_small. Qed.

Lemma represents_eq W pn v v' : v mod 2 ^ bits_of W = v' mod 2 ^ bits_of W ->
  represents W pn v -> represents W pn v'.
Proof. intros E [H1 H2]. split; [done|congruence]. Qed.

Lemma represents_self W pn : limbs_ok W pn -> represents W pn (bu_val pn).
Proof.
  intros [Hl Hf]. split; [done|]. rewrite Z.mod_small; [done|].
  rewrite <- Hl. by apply bu_val_range.
Qed.

Lemma Forall_cons_inv {A} (P : A -> Prop) x l : Forall P (x :: l) -> P x /\ Forall P l.
Proof. intros H. by inversion H. Qed.

Ltac limbs H := apply Forall_cons_inv in H as [? H].

Lemma add_loop_spec W c a b :
  limbs_ok W a -> limbs_ok W b -> 0 <= c < 2 ^ 32 ->
  represents W (add_loop c a b) (c + bu_val a + bu_val b).
Proof.
  revert c a b; induction W as [|W IH]; intros c a b [Hla Ha] [Hlb Hb] Hc.
  - destruct a; [|done]. apply represents_nil.
  - destruct a as [|x a]; [done|]. destruct b as [|y b]; [done|]. limbs Ha. limbs Hb.
    unfold in_u in *. cbn [add_loop bu_val]. rewrite (wrapu_small 64) by (unfold in_u; lia).
    replace (c + (x + 2 ^ 32 * bu_val a) + (y + 2 ^ 32 * bu_val b))
      with (c + x + y + 2 ^ 32 * (bu_val a + bu_val b)) by lia.
    apply represents_cons; [unfold in_u; lia|]. rewrite Z.add_assoc.
    injection Hla as Hla. injection Hlb as Hlb.
    apply IH; [done|done|]. apply limb_split. unfold in_u; lia.
Qed.

Lemma bu_add_spec W a b :
  limbs_ok W a -> limbs_ok W b -> represents W (bu_add a b) (bu_val a + bu_val b).
Proof. intros Ha Hb. by apply add_loop_spec. Qed.

Lemma bu_zero_ok W : limbs_ok W (bu_zero W).
Proof. split; [apply length_replicate|apply Forall_replicate; unfold in_u; lia]. Qed.

Lemma bu_zero_val W : bu_val (bu_zero W) = 0.
Proof. unfold bu_zero. induction W as [|W IH]; [done|]. cbn [replicate bu_val]. rewrite IH. lia. Qed.

Lemma bu_not_spec W a : limbs_ok W a ->
  limbs_ok W (bu_not a) /\ bu_val (bu_not a) = 2 ^ bits_of W - 1 - bu_val a.
Proof.
  revert a; induction W as [|W IH]; intros a [Hl Ha].
  - by destruct a.
  - destruct a as [|x a]; [done|]. limbs Ha. injection Hl as Hl.
    destruct (IH a (conj Hl Ha)) as [[IHl IHf] IHv]. unfold in_u in *. split.
    + split; [cbn; f_equal; exact IHl|]. constructor; [unfold in_u; lia|done].
    + cbn [bu_not map bu_val]. fold (bu_not a). rewrite IHv, pow_W_S. lia.
Qed.

Lemma bu_inc_spec W a : limbs_ok W a -> represents W (bu_inc a) (bu_val a + 1).
Proof.
  revert a; induction W as [|W IH]; intros a [Hl Ha].
  - destruct a; [|done]. apply represents_nil.
  - destruct a as [|x a]; [done|]. limbs Ha. injection Hl as Hl. unfold in_u in *.
    cbn [bu_inc]. destruct (Z.eq_dec x (2 ^ 32 - 1)) as [->|Hx].
    + change (u32 (2 ^ 32 - 1 + 1)) with 0. cbn [Z.eqb].
      destruct (IH a (conj Hl Ha)) as [[IHl IHf] IHv]. split.
      * split; [cbn; lia|]. constructor; [unfold in_u; lia|done].
      * cbn [bu_val]. replace (2 ^ 32 - 1 + 2 ^ 32 * bu_val a + 1) with (0 + 2 ^ 32 * (bu_val a + 1)) by lia.
        rewrite pow_W_S, carry_mod by lia. rewrite IHv. reflexivity.
    + rewrite wrapu_small by (unfold in_u; lia). rewrite (proj2 (Z.eqb_neq (x + 1) 0)) by lia.
      replace (bu_val (x :: a) + 1) with (bu_val (x + 1 :: a)) by (cbn [bu_val]; lia).
      apply represents_self. split; [cbn; lia|]. constructor; [unfold in_u; lia|done].
Qed.

Lemma bu_dec_spec W a : limbs_ok W a -> represents W (bu_dec a) (bu_val a - 1).
Proof.
  revert a; induction W as [|W IH]; intros a [Hl Ha].
  - destruct a; [|done]. apply represents_nil.
  - destruct a as [|x a]; [done|]. limbs Ha. injection Hl as Hl. unfold in_u in *.
    cbn [bu_dec]. destruct (Z.eq_dec x 0) as [->|Hx].
    + change (u32 (0 - 1)) with 0xffffffff. rewrite Z.eqb_refl.
      destruct (IH a (conj Hl Ha)) as [[IHl IHf] IHv]. split.
      * split; [cbn; lia|]. constructor; [unfold in_u; lia|done].
      * cbn [bu_val].
        replace (0 + 2 ^ 32 * bu_val a - 1) with (0xffffffff + 2 ^ 32 * (bu_val a - 1)) by lia.
        rewrite pow_W_S, carry_mod by lia. rewrite IHv. reflexivity.
    + rewrite wrapu_small by (unfold in_u; lia). rewrite (proj2 (Z.eqb_neq (x - 1) 0xffffffff)) by lia.
      replace (bu_val (x :: a) - 1) with (bu_val (x - 1 :: a)) by (cbn [bu_val]; lia).
      apply represents_self. split; [cbn; lia|]. constructor; [unfold in_u; lia|done].
Qed.

Lemma bu_neg_spec W a : limbs_ok W a -> represents W (bu_neg a) (- bu_val a).
Proof.
  intros Ha. destruct (bu_not_spec W a Ha) as [Hn Ev]. unfold bu_neg.
  eapply represents_eq; [|apply bu_inc_spec, Hn]. rewrite Ev.
  replace (2 ^ bits_of W - 1 - bu_val a + 1) with (- bu_val a + 1 * 2 ^ bits_of W) by lia.
  apply Z.mod_add. lia.
Qed.

Lemma bu_sub_spec W a b :
  limbs_ok W a -> limbs_ok W b -> represents W (bu_sub a b) (bu_val a - bu_val b).
Proof.
  intros Ha Hb. destruct (bu_neg_spec W b Hb) as [Hn Ev].
  eapply represents_eq; [|apply bu_add_spec; [exact Ha|exact Hn]].
  rewrite Ev. rewrite Z.add_mod_idemp_r by lia. reflexivity.
Qed.

Lemma mul32_loop_spec W c b a :
  limbs_ok W a -> 0 <= c < 2 ^ 32 -> in_u 32 b ->
  represents W (mul32_loop c b a) (c + b * bu_val a).
Proof.
  revert c a; induction W as [|W IH]; intros c a [Hl Ha] Hc Hb.
  - destruct a; [|done]. apply represents_nil.
  - destruct a as [|x a]; [done|]. limbs Ha. injection Hl as Hl. unfold in_u in *.
    assert (in_u 64 (c + b * x)) as Hn by (unfold in_u; change (2 ^ 64) with (2 ^ 32 * 2 ^ 32); nia).
    cbn [mul32_loop bu_val]. rewrite (wrapu_small 64) by done.
    replace (c + b * (x + 2 ^ 32 * bu_val a)) with (c + b * x + 2 ^ 32 * (b * bu_val a)) by lia.
    apply represents_cons; [done|]. apply IH; [done|apply limb_split, Hn|done].
Qed.

(** The row that adds [aj * b] to the limbs [pn]. *)
Lemma mul_row_spec W W' c aj b pn :
  limbs_ok W pn -> limbs_ok W' b -> (W <= W')%nat -> 0 <= c < 2 ^ 32 -> in_u 32 aj ->
  represents W (mul_row c aj b pn) (c + bu_val pn + aj * bu_val b).
Proof.
  revert W' c b pn; induction W as [|W IH]; intros W' c b pn [Hl Hp] [Hlb Hb] HW Hc Haj.
  - destruct pn; [|done]. destruct b; apply represents_nil.
  - destruct pn as [|p pn]; [done|]. limbs Hp. injection Hl as Hl.
    destruct b as [|y b]; [cbn in Hlb; lia|]. limbs Hb. cbn in Hlb. unfold in_u in *.
    assert (in_u 64 (c + p + aj * y)) as Hn
      by (unfold in_u; change (2 ^ 64) with (2 ^ 32 * 2 ^ 32); nia).
    cbn [mul_row bu_val]. rewrite (wrapu_small 64) by done.
    replace (c + (p + 2 ^ 32 * bu_val pn) + aj * (y + 2 ^ 32 * bu_val b))
      with (c + p + aj * y + 2 ^ 32 * (bu_val pn + aj * bu_val b)) by lia.
    apply represents_cons; [done|]. rewrite Z.add_assoc.
    apply (IH (pred W')); [done|split; [lia|done]|lia|apply limb_split, Hn|done].
Qed.

Lemma limbs_ok_take W pn j : limbs_ok W pn -> (j <= W)%nat -> limbs_ok j (take j pn).
Proof. intros [Hl Hf] Hj. split; [rewrite length_take; lia|by apply Forall_take]. Qed.

Lemma limbs_ok_drop W pn j : limbs_ok W pn -> limbs_ok (W - j) (drop j pn).
Proof. intros [Hl Hf]. split; [rewrite length_drop; lia|by apply Forall_drop]. Qed.

Lemma bu_val_app l1 l2 : bu_val (l1 ++ l2) = bu_val l1 + 2 ^ bits_of (length l1) * bu_val l2.
Proof.
  induction l1 as [|x l1 IH]; [cbn; lia|].
  cbn [length app bu_val]. rewrite pow_W_S, IH. lia.
Qed.

(** Replacing the limbs from [j] on. *)
Lemma represents_app W j lo hi v :
  (j <= W)%nat -> limbs_ok j lo -> represents (W - j) hi v ->
  represents W (lo ++ hi) (bu_val lo + 2 ^ bits_of j * v).
Proof.
  intros Hj [Hl Hlo] [[Hlh Hhi] Hv]. split.
  - split; [rewrite length_app; lia|by apply Forall_app].
  - rewrite bu_val_app, Hl, Hv. pose proof (bu_val_range lo Hlo) as Hr. rewrite Hl in Hr.
    replace (2 ^ bits_of W) with (2 ^ bits_of j * 2 ^ bits_of (W - j))
      by (replace (bits_of W) with (bits_of j + bits_of (W - j)) by lia; symmetry; apply Z.pow_add_r; lia).
    assert (2 ^ bits_of j <> 0) by lia.
    rewrite Z.rem_mul_r by lia. rewrite (Z.mul_comm (2 ^ bits_of j) v).
    rewrite Z.mod_add, Z.div_add by done. rewrite (Z.mod_small (bu_val lo)), (Z.div_small (bu_val lo)) by done.
    by rewrite Z.add_0_l.
Qed.

Lemma mul_step_spec W a b pn j :
  limbs_ok W a -> limbs_ok W b -> limbs_ok W pn -> (j < W)%nat ->
  represents W (mul_step a b pn j) (bu_val pn + 2 ^ bits_of j * (limb a j * bu_val b)).
Proof.
  intros [Hla Ha] Hb Hp Hj. unfold mul_step.
  assert (bu_val pn = bu_val (take j pn) + 2 ^ bits_of j * bu_val (drop j pn)) as Ep.
  { rewrite <- (take_drop j pn) at 1. rewrite bu_val_app, length_take.
    destruct Hp as [-> _]. by rewrite Nat.min_l by lia. }
  replace (bu_val pn + 2 ^ bits_of j * (limb a j * bu_val b))
    with (bu_val (take j pn) + 2 ^ bits_of j * (bu_val (drop j pn) + limb a j * bu_val b)) by lia.
  apply represents_app; [lia|by apply (limbs_ok_take W); [|lia]|].
  apply (mul_row_spec _ W); [by apply limbs_ok_drop|done|lia|lia|by apply limb_ok].
Qed.

Lemma bu_val_take_S pn j : (j < length pn)%nat ->
  bu_val (take (S j) pn) = bu_val (take j pn) + 2 ^ bits_of j * limb pn j.
Proof.
  revert j; induction pn as [|x pn IH]; intros j Hj; [cbn in Hj; lia|].
  destruct j as [|j].
  { rewrite !firstn_cons, !take_0. change (2 ^ bits_of 0) with 1. unfold limb. cbn [nth bu_val]. lia. }
  rewrite !firstn_cons. cbn [bu_val].
  rewrite IH by (cbn in Hj; lia). rewrite pow_W_S. unfold limb. cbn [nth]. lia.
Qed.

Lemma bu_mul_spec W a b :
  limbs_ok W a -> limbs_ok W b -> represents W (bu_mul a b) (bu_val a * bu_val b).
Proof.
  intros Ha Hb. unfold bu_mul. pose proof Ha as [Hl _]. rewrite Hl.
  assert (forall n, (n <= W)%nat ->
    represents W (fold_left (mul_step a b) (seq 0 n) (bu_zero W)) (bu_val (take n a) * bu_val b)) as H.
  { induction n as [|n IH]; intros Hn.
    - rewrite take_0. apply (represents_eq _ _ (bu_val (bu_zero W))); [by rewrite bu_zero_val|].
      apply represents_self, bu_zero_ok.
    - rewrite seq_S, fold_left_app. cbn [fold_left].
      destruct (IH ltac:(lia)) as [Hok Hv].
      eapply represents_eq; [|apply mul_step_spec; (done || lia)].
      rewrite Hv, bu_val_take_S by lia. rewrite Z.add_mod_idemp_l by lia. f_equal. cbn [Nat.add]. lia. }
  specialize (H W ltac:(lia)). rewrite take_ge in H by lia. done.
Qed.

(** ** Bits *)

Lemma bu_bit pn i j :
  Forall (in_u 32) pn -> 0 <= j < 32 ->
  Z.testbit (bu_val pn) (32 * Z.of_nat i + j) = Z.testbit (limb pn i) j.
Proof.
  intros Hp Hj. revert i; induction Hp as [|x pn Hx Hp IH]; intros i.
  - unfold limb. rewrite nth_overflow by (cbn; lia). by rewrite !Z.bits_0.
  - cbn [bu_val]. rewrite Z.mul_comm, <- lor_shiftl_add by (done || lia).
    rewrite Z.lor_spec. destruct i as [|i].
    + cbn [limb nth Z.of_nat]. rewrite Z.mul_0_r, Z.add_0_l.
      by rewrite Z.shiftl_spec_low, orb_false_r by lia.
    + rewrite (Z.shiftl_spec _ _ (_ + j)) by lia.
      replace (32 * Z.of_nat (S i) + j - 32) with (32 * Z.of_nat i + j) by lia. rewrite IH.
      cut (Z.testbit x (32 * Z.of_nat (S i) + j) = false); [by intros ->|].
      destruct (decide (x = 0)) as [->|]; [apply Z.bits_0|].
      unfold in_u in Hx. apply Z.bits_above_log2; [lia|].
      assert (Z.log2 x < 32) by (apply Z.log2_lt_pow2; lia). lia.
Qed.

(** Two numbers below [2 ^ BITS] are equal when the bits of every limb are. *)
Lemma bits_ext W v v' :
  0 <= v < 2 ^ bits_of W -> 0 <= v' < 2 ^ bits_of W ->
  (forall i j, (i < W)%nat -> 0 <= j < 32 ->
     Z.testbit v (32 * Z.of_nat i + j) = Z.testbit v' (32 * Z.of_nat i + j)) -> v = v'.
Proof.
  intros Hv Hv' H. apply Z.bits_inj'. intros n Hn.
  destruct (Z.lt_ge_cases n (bits_of W)) as [Hlt|Hge].
  - pose proof (Z.div_mod n 32 ltac:(lia)) as E. pose proof (Z.mod_pos_bound n 32 ltac:(lia)).
    pose proof (Z.div_pos n 32 Hn ltac:(lia)).
    rewrite E. rewrite <- (Z2Nat.id (n / 32)) by done. apply H; [|done].
    apply Nat2Z.inj_lt. rewrite Z2Nat.id by done. lia.
  - assert (forall u, 0 <= u < 2 ^ bits_of W -> Z.testbit u n = false) as Hz; [|by rewrite !Hz].
    intros u Hu. destruct (decide (u = 0)) as [->|]; [apply Z.bits_0|].
    apply Z.bits_above_log2; [lia|]. assert (Z.log2 u < bits_of W) by (apply Z.log2_lt_pow2; lia). lia.
Qed.

Lemma represents_bits W pn v :
  limbs_ok W pn ->
  (forall m j, (m < W)%nat -> 0 <= j < 32 ->
     Z.testbit (limb pn m) j = Z.testbit v (32 * Z.of_nat m + j)) ->
  represents W pn v.
Proof.
  intros Hok H. split; [done|]. destruct Hok as [Hl Hf].
  apply (bits_ext W); [rewrite <- Hl; by apply bu_val_range|apply Z.mod_pos_bound; lia|].
  intros m j Hm Hj. rewrite bu_bit, Z.mod_pow2_bits_low by (done || lia). by apply H.
Qed.

Lemma or_at_length pn i v : length (or_at pn i v) = length pn.
Proof. apply length_alter. Qed.

Lemma limb_or_at pn i v m :
  limb (or_at pn i v) m =
  if bool_decide (m = Z.to_nat i /\ (m < length pn)%nat) then Z.lor (limb pn m) v else limb pn m.
Proof.
  unfold limb, or_at. rewrite !nth_lookup. case_bool_decide as H.
  - destruct H as [-> H]. rewrite list_lookup_alter_eq.
    by destruct (lookup_lt_is_Some_2 pn (Z.to_nat i) H) as [x ->].
  - destruct (decide (m = Z.to_nat i)) as [->|].
    + rewrite list_lookup_alter_eq. rewrite lookup_ge_None_2 by lia. done.
    + by rewrite list_lookup_alter_ne by congruence.
Qed.

Lemma lor_in_u w x y : 0 <= w -> in_u w x -> in_u w y -> in_u w (Z.lor x y).
Proof.
  unfold in_u. intros Hw Hx Hy. split; [apply Z.lor_nonneg; lia|].
  destruct (decide (x = 0)) as [->|]; [rewrite Z.lor_0_l; lia|].
  destruct (decide (y = 0)) as [->|]; [rewrite Z.lor_0_r; lia|].
  assert (0 <= Z.lor x y) by (apply Z.lor_nonneg; lia).
  destruct (decide (Z.lor x y = 0)) as [->|]; [lia|].
  apply Z.log2_lt_pow2; [lia|]. rewrite Z.log2_lor by lia.
  apply Z.max_lub_lt; apply Z.log2_lt_pow2; lia.
Qed.

Lemma or_at_ok W pn i v : limbs_ok W pn -> in_u 32 v -> limbs_ok W (or_at pn i v).
Proof.
  intros [Hl Hf] Hv. split; [by rewrite or_at_length|].
  apply Forall_lookup. intros k x Hk. unfold or_at in Hk.
  destruct (decide (k = Z.to_nat i)) as [->|].
  - rewrite list_lookup_alter_eq in Hk. destruct (pn !! Z.to_nat i) as [y|] eqn:E; [|done].
    injection Hk as <-. apply lor_in_u; [lia| |done]. eapply Forall_lookup; eauto.
  - rewrite list_lookup_alter_ne in Hk by congruence. eapply Forall_lookup; eauto.
Qed.

(** A loop that ors contributions into the limbs: the bits of limb [m] are
    those some iteration [i] contributes, given by [c]. *)
Lemma or_loop W (step : bu -> nat -> bu) (c : nat -> nat -> Z -> bool) l init :
  (forall pn i, limbs_ok W pn -> limbs_ok W (step pn i) /\
     forall m j, (m < W)%nat -> 0 <= j < 32 ->
       Z.testbit (limb (step pn i) m) j = Z.testbit (limb pn m) j || c i m j) ->
  limbs_ok W init ->
  limbs_ok W (fold_left step l init) /\
  forall m j, (m < W)%nat -> 0 <= j < 32 ->
    Z.testbit (limb (fold_left step l init) m) j
    = Z.testbit (limb init m) j || existsb (fun i => c i m j) l.
Proof.
  intros Hstep. revert init; induction l as [|i l IH]; intros init Hi; cbn [fold_left existsb].
  - split; [done|]. intros. by rewrite orb_false_r.
  - destruct (Hstep init i Hi) as [Hok Hb]. destruct (IH _ Hok) as [Hok' Hb'].
    split; [done|]. intros m j Hm Hj. rewrite Hb', Hb by done. by rewrite orb_assoc.
Qed.

Lemma limb_zero W m : limb (bu_zero W) m = 0.
Proof.
  unfold limb, bu_zero. rewrite nth_lookup. destruct (replicate W 0 !! m) as [x|] eqn:E; [|done].
  by apply lookup_replicate in E as [-> _].
Qed.

(** An optional contribution to one limb. *)
Lemma or_at_bit pn i v (b : bool) m j :
  (b = true -> 0 <= i) -> (m < length pn)%nat ->
  Z.testbit (limb (if b then or_at pn i v else pn) m) j
  = Z.testbit (limb pn m) j || (b && (i =? Z.of_nat m) && Z.testbit v j).
Proof.
  intros Hi Hm. destruct b; [|by rewrite orb_false_r]. specialize (Hi eq_refl). rewrite limb_or_at. cbn [andb].
  destruct (i =? Z.of_nat m) eqn:E; bool_to_prop.
  - rewrite bool_decide_eq_true_2 by (split; [lia|done]). by rewrite Z.lor_spec.
  - rewrite bool_decide_eq_false_2 by (intros [? _]; lia). by rewrite orb_false_r.
Qed.

(** ** Shifts *)

Lemma shiftr_in_u w x s : 0 <= w -> 0 <= s -> in_u w x -> in_u w (Z.shiftr x s).
Proof.
  unfold in_u. intros Hw Hs Hx. rewrite Z.shiftr_div_pow2 by done.
  pose proof (Z.pow_pos_nonneg 2 s ltac:(lia) Hs).
  split; [apply Z.div_pos; lia|]. apply (Z.le_lt_trans _ x); [|lia].
  apply Z.div_le_upper_bound; nia.
Qed.

Lemma testbit_u32 x j : 0 <= j < 32 -> Z.testbit (u32 x) j = Z.testbit x j.
Proof. intros Hj. unfold wrapu. apply Z.mod_pow2_bits_low; lia. Qed.

Lemma testbit_high w x j : 0 <= w <= j -> in_u w x -> Z.testbit x j = false.
Proof.
  unfold in_u. intros Hw Hx. destruct (decide (x = 0)) as [->|]; [apply Z.bits_0|].
  apply Z.bits_above_log2; [lia|]. assert (Z.log2 x < w) by (apply Z.log2_lt_pow2; lia). lia.
Qed.

(** What iteration [i] of the left shift contributes to bit [j] of limb [m]. *)
Definition shl_bit (a : bu) (k s : Z) (i m : nat) (j : Z) : bool :=
  (negb (s =? 0) && (Z.of_nat i + k + 1 =? Z.of_nat m) && Z.testbit (limb a i) (j + (32 - s)))
  || ((Z.of_nat i + k =? Z.of_nat m) && (s <=? j) && Z.testbit (limb a i) (j - s)).

Lemma shl_step_bits W a k s pn i :
  0 <= k -> 0 <= s < 32 -> limbs_ok W a -> limbs_ok W pn ->
  limbs_ok W (shl_step W k s a pn i) /\
  forall m j, (m < W)%nat -> 0 <= j < 32 ->
    Z.testbit (limb (shl_step W k s a pn i) m) j = Z.testbit (limb pn m) j || shl_bit a k s i m j.
Proof.
  intros Hk Hs [Hla Ha] Hp. pose proof (limb_ok a i Ha) as Hi. unfold shl_step.
  set (b1 := (Z.of_nat i + k + 1 <? Z.of_nat W) && negb (s =? 0)).
  set (b2 := Z.of_nat i + k <? Z.of_nat W).
  set (pn1 := if b1 then or_at pn (Z.of_nat i + k + 1) (limb a i ≫ (32 - s)) else pn).
  assert (limbs_ok W pn1) as H1.
  { unfold pn1. destruct b1; [|done]. apply or_at_ok; [done|]. apply shiftr_in_u; lia || done. }
  split.
  { destruct b2; [|done]. apply or_at_ok; [done|]. by apply wrapu_range. }
  intros m j Hm Hj. rewrite or_at_bit by (try (destruct H1 as [-> _]); done || lia).
  unfold pn1. rewrite or_at_bit by (try (destruct Hp as [-> _]); done || lia).
  rewrite <- orb_assoc. f_equal. unfold shl_bit. rewrite testbit_u32, Z.shiftr_spec by lia. f_equal.
  - unfold b1. destruct (s =? 0), (Z.of_nat i + k + 1 =? Z.of_nat m) eqn:E; bool_to_prop;
      rewrite ?andb_false_r, ?andb_true_r; try done.
    by rewrite (proj2 (Z.ltb_lt _ _)) by lia.
  - unfold b2. destruct (Z.of_nat i + k =? Z.of_nat m) eqn:E; bool_to_prop;
      rewrite ?andb_false_r; [|done].
    rewrite (proj2 (Z.ltb_lt (Z.of_nat i + k) _)) by lia. cbn [andb].
    destruct (s <=? j) eqn:E2; bool_to_prop; [by rewrite Z.shiftl_spec by lia|].
    by rewrite Z.shiftl_spec_low by lia.
Qed.

Lemma bu_shl_spec W a shift :
  limbs_ok W a -> 0 <= shift -> represents W (bu_shl a shift) (bu_val a * 2 ^ shift).
Proof.
  intros Ha Hs. pose proof Ha as [Hl Hf]. unfold bu_shl. rewrite Hl.
  pose proof (Z.div_mod shift 32 ltac:(lia)) as E. pose proof (Z.mod_pos_bound shift 32 ltac:(lia)) as Hm.
  pose proof (Z.div_pos shift 32 Hs ltac:(lia)) as Hk.
  set (k := shift / 32) in *. set (s := shift mod 32) in *.
  destruct (or_loop W (shl_step W k s a) (shl_bit a k s) (seq 0 W) (bu_zero W)
    (fun pn i Hp => shl_step_bits W a k s pn i Hk Hm Ha Hp) (bu_zero_ok W)) as [Hok Hbits].
  apply represents_bits; [done|]. intros m j Hmw Hj. rewrite Hbits by done.
  rewrite limb_zero, Z.bits_0. cbn [orb]. rewrite <- Z.shiftl_mul_pow2 by done.
  rewrite Z.shiftl_spec by lia. apply eq_true_iff_eq. rewrite existsb_exists. unfold shl_bit.
  setoid_rewrite in_seq. split.
  - intros (i & Hi & H). apply orb_true_iff in H as [H|H].
    + apply andb_true_iff in H as [H Hb]. bool_to_prop.
      rewrite <- bu_bit in Hb by (done || (destruct (Z.lt_ge_cases (j + (32 - s)) 32); [lia|
        rewrite (testbit_high 32) in Hb by (lia || by apply limb_ok); done])).
      rewrite <- Hb. f_equal. lia.
    + apply andb_true_iff in H as [H Hb]. bool_to_prop.
      rewrite <- bu_bit in Hb by (done || lia). rewrite <- Hb. f_equal. lia.
  - intros Hb. set (n := 32 * Z.of_nat m + j - shift) in *.
    assert (0 <= n) as Hn by (apply Z.le_ngt; intros ?; by rewrite Z.testbit_neg_r in Hb by done).
    destruct (Z.le_gt_cases s j).
    + exists (Z.to_nat (Z.of_nat m - k)). split; [lia|]. apply orb_true_iff. right.
      rewrite Z2Nat.id by lia. rewrite (proj2 (Z.eqb_eq _ _)), (proj2 (Z.leb_le s j)) by lia.
      cbn [andb]. rewrite <- bu_bit by (done || lia). rewrite <- Hb. f_equal. lia.
    + exists (Z.to_nat (Z.of_nat m - k - 1)). split; [lia|]. apply orb_true_iff. left.
      rewrite Z2Nat.id by lia. rewrite (proj2 (Z.eqb_neq s 0)), (proj2 (Z.eqb_eq _ _)) by lia.
      cbn [andb negb]. rewrite <- bu_bit by (done || lia). rewrite <- Hb. f_equal. lia.
Qed.

(** What iteration [i] of the right shift contributes to bit [j] of limb [m]. *)
Definition shr_bit (a : bu) (k s : Z) (i m : nat) (j : Z) : bool :=
  (negb (s =? 0) && (Z.of_nat i - k - 1 =? Z.of_nat m) && (32 - s <=? j)
     && Z.testbit (limb a i) (j - (32 - s)))
  || ((Z.of_nat i - k =? Z.of_nat m) && Z.testbit (limb a i) (j + s)).

Lemma shr_step_bits W a k s pn i :
  0 <= k -> 0 <= s < 32 -> limbs_ok W a -> limbs_ok W pn ->
  limbs_ok W (shr_step k s a pn i) /\
  forall m j, (m < W)%nat -> 0 <= j < 32 ->
    Z.testbit (limb (shr_step k s a pn i) m) j = Z.testbit (limb pn m) j || shr_bit a k s i m j.
Proof.
  intros Hk Hs [Hla Ha] Hp. pose proof (limb_ok a i Ha) as Hi. unfold shr_step.
  set (b1 := (0 <=? Z.of_nat i - k - 1) && negb (s =? 0)).
  set (b2 := 0 <=? Z.of_nat i - k).
  set (pn1 := if b1 then or_at pn (Z.of_nat i - k - 1) (u32 (limb a i ≪ (32 - s))) else pn).
  assert (limbs_ok W pn1) as H1.
  { unfold pn1. destruct b1; [|done]. apply or_at_ok; [done|]. by apply wrapu_range. }
  split.
  { destruct b2; [|done]. apply or_at_ok; [done|]. apply shiftr_in_u; lia || done. }
  assert (b1 = true -> 0 <= Z.of_nat i - k - 1) as Hb1 by (unfold b1; intros ?; bool_to_prop; lia).
  assert (b2 = true -> 0 <= Z.of_nat i - k) as Hb2 by (unfold b2; intros ?; bool_to_prop; lia).
  intros m j Hm Hj. rewrite or_at_bit by (try (destruct H1 as [-> _]); done).
  unfold pn1. rewrite or_at_bit by (try (destruct Hp as [-> _]); done).
  rewrite <- orb_assoc. f_equal. unfold shr_bit. rewrite testbit_u32, Z.shiftr_spec by lia. f_equal.
  - unfold b1. destruct (s =? 0), (Z.of_nat i - k - 1 =? Z.of_nat m) eqn:E; bool_to_prop;
      rewrite ?andb_false_r, ?andb_true_r; try done.
    rewrite (proj2 (Z.leb_le _ _)) by lia. cbn [andb negb].
    destruct (32 - s <=? j) eqn:E2; bool_to_prop; [by rewrite Z.shiftl_spec by lia|].
    by rewrite Z.shiftl_spec_low by lia.
  - unfold b2. destruct (Z.of_nat i - k =? Z.of_nat m) eqn:E; bool_to_prop;
      rewrite ?andb_false_r; [|done].
    by rewrite (proj2 (Z.leb_le _ _)) by lia.
Qed.

Lemma bu_shr_spec W a shift :
  limbs_ok W a -> 0 <= shift -> represents W (bu_shr a shift) (bu_val a / 2 ^ shift).
Proof.
  intros Ha Hs. pose proof Ha as [Hl Hf]. unfold bu_shr. rewrite Hl.
  pose proof (Z.div_mod shift 32 ltac:(lia)) as E. pose proof (Z.mod_pos_bound shift 32 ltac:(lia)) as Hm.
  pose proof (Z.div_pos shift 32 Hs ltac:(lia)) as Hk.
  set (k := shift / 32) in *. set (s := shift mod 32) in *.
  destruct (or_loop W (shr_step k s a) (shr_bit a k s) (seq 0 W) (bu_zero W)
    (fun pn i Hp => shr_step_bits W a k s pn i Hk Hm Ha Hp) (bu_zero_ok W)) as [Hok Hbits].
  apply represents_bits; [done|]. intros m j Hmw Hj. rewrite Hbits by done.
  rewrite limb_zero, Z.bits_0. cbn [orb]. rewrite <- Z.shiftr_div_pow2 by done.
  rewrite Z.shiftr_spec by lia. apply eq_true_iff_eq. rewrite existsb_exists. unfold shr_bit.
  setoid_rewrite in_seq. split.
  - intros (i & Hi & H). apply orb_true_iff in H as [H|H].
    + apply andb_true_iff in H as [H Hb]. bool_to_prop.
      rewrite <- bu_bit in Hb by (done || lia). rewrite <- Hb. f_equal. lia.
    + apply andb_true_iff in H as [H Hb]. bool_to_prop.
      rewrite <- bu_bit in Hb by (done || (destruct (Z.lt_ge_cases (j + s) 32); [lia|
        rewrite (testbit_high 32) in Hb by (lia || by apply limb_ok); done])).
      rewrite <- Hb. f_equal. lia.
  - intros Hb. set (n := 32 * Z.of_nat m + j + shift) in *.
    assert (n < bits_of W) as Hn.
    { apply Z.nle_gt. intros ?. rewrite (testbit_high (bits_of W)) in Hb; [done|lia|].
      rewrite <- Hl. by apply bu_val_range. }
    destruct (Z.lt_ge_cases (j + s) 32).
    + exists (Z.to_nat (Z.of_nat m + k)). split; [lia|]. apply orb_true_iff. right.
      rewrite Z2Nat.id by lia. rewrite (proj2 (Z.eqb_eq _ _)) by lia.
      cbn [andb]. rewrite <- bu_bit by (done || lia). rewrite <- Hb. f_equal. lia.
    + exists (Z.to_nat (Z.of_nat m + k + 1)). split; [lia|]. apply orb_true_iff. left.
      rewrite Z2Nat.id by lia. rewrite (proj2 (Z.eqb_neq s 0)), (proj2 (Z.eqb_eq _ _)) by lia.
      rewrite (proj2 (Z.leb_le (32 - s) j)) by lia.
      cbn [andb negb]. rewrite <- bu_bit by (done || lia). rewrite <- Hb. f_equal. lia.
Qed.

(** ** Comparisons and sizes *)

Lemma compare_loop_spec i a b :
  Forall (in_u 32) a -> Forall (in_u 32) b -> (i <= length a)%nat -> (i <= length b)%nat ->
  compare_loop i a b = Z.sgn (bu_val (take i a) - bu_val (take i b)).
Proof.
  intros Ha Hb. induction i as [|i IH]; intros Hla Hlb; [done|].
  cbn [compare_loop]. rewrite !bu_val_take_S by lia.
  pose proof (bu_val_range _ (Forall_take _ i _ Ha)) as Ra.
  pose proof (bu_val_range _ (Forall_take _ i _ Hb)) as Rb.
  rewrite length_take, Nat.min_l in Ra, Rb by lia.
  destruct (limb a i <? limb b i) eqn:E1; [|destruct (limb b i <? limb a i) eqn:E2]; bool_to_prop.
  - symmetry. apply Z.sgn_neg. nia.
  - symmetry. apply Z.sgn_pos. nia.
  - rewrite IH by lia. assert (limb a i = limb b i) as -> by lia. f_equal. lia.
Qed.

Lemma CompareTo_sgn W a b :
  limbs_ok W a -> limbs_ok W b -> CompareTo a b = Z.sgn (bu_val a - bu_val b).
Proof.
  intros [Hla Ha] [Hlb Hb]. unfold CompareTo.
  rewrite compare_loop_spec by (done || lia). by rewrite !take_ge by lia.
Qed.

Lemma limb_bits_spec n x :
  0 < x < 2 ^ (Z.of_nat n + 1) -> limb_bits n x = Z.log2 x + 1.
Proof.
  induction n as [|n IH]; intros Hx.
  - assert (x = 1) as -> by (change (2 ^ (Z.of_nat 0 + 1)) with 2 in Hx; lia). done.
  - cbn [limb_bits]. destruct (Z.testbit x (Z.of_nat (S n))) eqn:E.
    + apply Z.le_antisymm.
      * assert (Z.of_nat (S n) <= Z.log2 x); [|lia]. apply Z.nlt_ge. intros H.
        by rewrite Z.bits_above_log2 in E by lia.
      * assert (Z.log2 x < Z.of_nat (S n) + 1) by (apply Z.log2_lt_pow2; lia). lia.
    + apply IH. split; [lia|]. destruct (Z.lt_ge_cases x (2 ^ (Z.of_nat n + 1))) as [|H]; [done|].
      exfalso. assert (Z.log2 x = Z.of_nat (S n)) as El.
      { apply Z.log2_unique; [lia|]. replace (Z.of_nat (S n)) with (Z.of_nat n + 1) in * by lia.
        rewrite Z.add_1_r in *. rewrite <- Z.add_1_r. lia. }
      rewrite <- El, Z.bit_log2 in E by lia. done.
Qed.

Lemma bits_loop_spec pos pn :
  Forall (in_u 32) pn -> (pos <= length pn)%nat ->
  let v := bu_val (take pos pn) in
  bits_loop pos pn = if v =? 0 then 0 else Z.log2 v + 1.
Proof.
  intros Hp. induction pos as [|pos IH]; intros Hl v; [done|]. unfold v. clear v.
  rewrite bu_val_take_S by lia. cbn [bits_loop].
  pose proof (bu_val_range _ (Forall_take _ pos _ Hp)) as R. rewrite length_take, Nat.min_l in R by lia.
  pose proof (limb_ok pn pos Hp) as Hx. unfold in_u in Hx.
  destruct (limb pn pos =? 0) eqn:E; bool_to_prop.
  - rewrite IH by lia. by rewrite E, Z.mul_0_r, Z.add_0_r.
  - rewrite limb_bits_spec by (change (2 ^ (Z.of_nat 31 + 1)) with (2 ^ 32); lia).
    set (x := limb pn pos) in *. set (lo := bu_val (take pos pn)) in *.
    rewrite (proj2 (Z.eqb_neq (lo + _) 0)) by nia.
    assert (Z.log2 (lo + 2 ^ bits_of pos * x) = bits_of pos + Z.log2 x); [|lia].
    pose proof (Z.log2_spec x ltac:(lia)) as [Hlo Hhi].
    apply Z.log2_unique; [pose proof (Z.log2_nonneg x); lia|].
    rewrite Z.pow_succ_r in * by (pose proof (Z.log2_nonneg x); lia).
    rewrite Z.pow_add_r by (pose proof (Z.log2_nonneg x); lia). nia.
Qed.

Lemma bits_log2 W pn : limbs_ok W pn ->
  bits pn = if bu_val pn =? 0 then 0 else Z.log2 (bu_val pn) + 1.
Proof.
  intros [Hl Hf]. unfold bits. rewrite bits_loop_spec by done. by rewrite take_ge by lia.
Qed.

Lemma bits_pos W pn : limbs_ok W pn -> 0 < bu_val pn ->
  2 ^ (bits pn - 1) <= bu_val pn < 2 ^ bits pn /\ 0 < bits pn.
Proof.
  intros Hok Hp. rewrite (bits_log2 W) by done. rewrite (proj2 (Z.eqb_neq _ 0)) by lia.
  pose proof (Z.log2_spec _ Hp) as H. pose proof (Z.log2_nonneg (bu_val pn)).
  rewrite Z.add_simpl_r, Z.add_1_r. lia.
Qed.

(** ** Division *)

(** [pn[shift / 32] |= 1 << (shift & 31)] sets bit [shift]. *)
Lemma or_at_pow W pn s :
  limbs_ok W pn -> 0 <= s < bits_of W -> Z.testbit (bu_val pn) s = false ->
  limbs_ok W (or_at pn (s / 32) (u32 (Z.shiftl 1 (Z.land s 31)))) /\
  bu_val (or_at pn (s / 32) (u32 (Z.shiftl 1 (Z.land s 31)))) = bu_val pn + 2 ^ s.
Proof.
  intros Hok Hs Hb. change 31 with (Z.ones 5). rewrite Z.land_ones by lia. change (2 ^ 5) with 32.
  pose proof (Z.div_mod s 32 ltac:(lia)) as E. pose proof (Z.mod_pos_bound s 32 ltac:(lia)) as Hm.
  pose proof (Z.div_pos s 32 ltac:(lia) ltac:(lia)) as Hk.
  assert (limbs_ok W (or_at pn (s / 32) (u32 (1 ≪ (s mod 32))))) as Hok'
    by (apply or_at_ok; [done|by apply wrapu_range]).
  split; [done|].
  assert (Z.land (bu_val pn) (2 ^ s) = 0) as Hand.
  { apply Z.bits_inj'. intros n Hn. rewrite Z.land_spec, Z.bits_0, Z.pow2_bits_eqb by lia.
    destruct (s =? n) eqn:En; bool_to_prop; [subst; by rewrite Hb|by rewrite andb_false_r]. }
  rewrite Z.add_nocarry_lor by done.
  apply (represents_small W); [|].
  - apply represents_bits; [done|]. intros m j Hmw Hj. destruct Hok as [Hl Hf].
    pose proof (or_at_bit pn (s / 32) (u32 (1 ≪ (s mod 32))) true m j ltac:(lia) ltac:(lia)) as Eb.
    cbn [andb] in Eb. rewrite Eb, Z.lor_spec, bu_bit by done. f_equal.
    rewrite testbit_u32, Z.shiftl_1_l by done. rewrite !Z.pow2_bits_eqb by lia.
    destruct (s / 32 =? Z.of_nat m) eqn:E1, (s mod 32 =? j) eqn:E2, (s =? 32 * Z.of_nat m + j) eqn:E3;
      bool_to_prop; try done; lia.
  - split; [apply Z.lor_nonneg; pose proof (bu_val_range pn (proj2 Hok)); lia|].
    apply (lor_in_u (bits_of W)); [lia| |].
    + unfold in_u. destruct Hok as [<- Hf]. by apply bu_val_range.
    + unfold in_u. split; [lia|]. apply Z.pow_lt_mono_r; lia.
Qed.

Lemma div_loop_spec W D N n quo num div :
  0 < D -> 0 <= N < 2 ^ bits_of W -> (Z.of_nat n <= bits_of W) ->
  limbs_ok W quo -> limbs_ok W num -> limbs_ok W div ->
  (n = O \/ bu_val div = D * 2 ^ (Z.of_nat n - 1)) ->
  bu_val num < D * 2 ^ Z.of_nat n ->
  bu_val quo mod 2 ^ Z.of_nat n = 0 ->
  bu_val quo * D + bu_val num = N ->
  let '(q, r) := div_loop n quo num div in
  limbs_ok W q /\ limbs_ok W r /\ bu_val q = N / D /\ bu_val r = N mod D.
Proof.
  intros HD HN. revert quo num div; induction n as [|s IH]; intros quo num div Hn Hq Hr Hd Ed Hlt Hm HE.
  - cbn [div_loop]. change (2 ^ Z.of_nat 0) with 1 in Hlt. rewrite Z.mul_1_r in Hlt.
    pose proof (bu_val_range num (proj2 Hr)). split; [done|]. split; [done|].
    split; [apply (Z.div_unique N D _ (bu_val num)); lia|apply (Z.mod_unique N D (bu_val quo)); lia].
  - cbn [div_loop]. destruct Ed as [|Ed]; [done|].
    replace (Z.of_nat (S s) - 1) with (Z.of_nat s) in Ed by lia.
    rewrite Nat2Z.inj_succ, Z.pow_succ_r in Hlt by lia.
    assert (limbs_ok W (bu_shr div 1) /\ bu_val (bu_shr div 1) = bu_val div / 2) as [Hd' Ed'].
    { pose proof (bu_shr_spec W div 1 Hd ltac:(lia)) as R. split; [apply R|].
      apply (represents_small W _ _ R). pose proof (bu_val_range div (proj2 Hd)) as Rd.
      rewrite (proj1 Hd) in Rd. split; [apply Z.div_pos; lia|].
      apply Z.div_lt_upper_bound; lia. }
    assert (s = O \/ bu_val (bu_shr div 1) = D * 2 ^ (Z.of_nat s - 1)) as Ed2.
    { destruct s as [|s]; [by left|right]. rewrite Ed', Ed.
      replace (Z.of_nat (S s)) with (Z.of_nat s + 1) by lia.
      rewrite Z.add_simpl_r, Z.pow_add_r, Z.mul_assoc by lia. by rewrite Z.div_mul. }
    assert (bu_val quo mod 2 ^ Z.of_nat s = 0) as Hm0.
    { rewrite Nat2Z.inj_succ, Z.pow_succ_r in Hm by lia.
      apply Z.mod_divide in Hm as [z Hz]; [|lia]. apply Z.mod_divide; [lia|]. exists (z * 2). lia. }
    rewrite (CompareTo_sgn W) by done.
    pose proof (bu_val_range num (proj2 Hr)) as Rn. rewrite (proj1 Hr) in Rn.
    pose proof (bu_val_range div (proj2 Hd)) as Rd. rewrite (proj1 Hd) in Rd.
    destruct (0 <=? Z.sgn (bu_val num - bu_val div)) eqn:Ec; bool_to_prop.
    + assert (bu_val div <= bu_val num) as Hge by (apply Z.sgn_nonneg in Ec; lia).
      destruct (bu_sub_spec W num div Hr Hd) as [Hs Es]. rewrite Z.mod_small in Es by lia.
      destruct (or_at_pow W quo (Z.of_nat s) Hq ltac:(lia)) as [Hq' Eq'].
      { rewrite <- (Z.mod_pow2_bits_low _ (Z.of_nat (S s))) by lia. by rewrite Hm, Z.bits_0. }
      apply IH; [lia|done|done|done|done| | |].
      * rewrite Es. lia.
      * rewrite Eq', Z.add_mod, Hm0, Z.mod_same by lia. done.
      * rewrite Eq', Es, Ed. lia.
    + assert (bu_val num < bu_val div) as Hgt
        by (apply Z.nle_gt; intros ?; assert (0 <= Z.sgn (bu_val num - bu_val div)) by
              (apply Z.sgn_nonneg; lia); lia).
      apply IH; [lia|done..|lia|done|done].
Qed.

Lemma bu_div_spec W a b :
  limbs_ok W a -> limbs_ok W b -> bu_val b <> 0 ->
  exists q, bu_div a b = Ok q /\ limbs_ok W q /\ bu_val q = bu_val a / bu_val b.
Proof.
  intros Ha Hb Hnz. pose proof (bu_val_range a (proj2 Ha)) as Ra. rewrite (proj1 Ha) in Ra.
  pose proof (bu_val_range b (proj2 Hb)) as Rb. rewrite (proj1 Hb) in Rb.
  destruct (bits_pos W b Hb ltac:(lia)) as [[Hb1 Hb2] Hb3].
  unfold bu_div. rewrite (proj2 (Z.eqb_neq _ 0)) by lia. rewrite (proj1 Ha).
  destruct (bits a <? bits b) eqn:E; bool_to_prop.
  - exists (bu_zero W). split; [done|]. split; [apply bu_zero_ok|]. rewrite bu_zero_val.
    symmetry. apply Z.div_small. split; [lia|].
    destruct (Z.eq_dec (bu_val a) 0) as [->|Hz]; [lia|].
    destruct (bits_pos W a Ha ltac:(lia)) as [[_ Ha2] _].
    apply (Z.lt_le_trans _ _ _ Ha2). etransitivity; [|apply Hb1]. apply Z.pow_le_mono_r; lia.
  - assert (bu_val a <> 0) as Hz.
    { intros Hz. rewrite (bits_log2 W a Ha), Hz in E. cbn in E. lia. }
    destruct (bits_pos W a Ha ltac:(lia)) as [[Ha1 Ha2] _].
    set (sh := bits a - bits b) in *.
    assert (bits a <= bits_of W) as Hbits.
    { assert (bits a - 1 < bits_of W); [|lia]. apply (Z.pow_lt_mono_r_iff 2); lia. }
    destruct (bu_shl_spec W b sh Hb ltac:(lia)) as [Hd Ed].
    assert (bu_val b * 2 ^ sh < 2 ^ bits a) as Hlt.
    { replace (bits a) with (bits b + sh) by lia. rewrite Z.pow_add_r by lia. nia. }
    assert (2 ^ bits a <= 2 ^ bits_of W) by (apply Z.pow_le_mono_r; lia).
    rewrite Z.mod_small in Ed by lia.
    pose proof (div_loop_spec W (bu_val b) (bu_val a) (Z.to_nat (sh + 1)) (bu_zero W) a (bu_shl b sh)) as Hdl.
    rewrite Z2Nat.id in Hdl by lia. replace (sh + 1 - 1) with sh in Hdl by lia.
    destruct (div_loop _ _ _ _) as [q r]. exists q. split; [done|].
    destruct Hdl as (Hq & _ & Eq & _); try done; try lia.
    + apply bu_zero_ok.
    + replace (bits a) with (bits b - 1 + (sh + 1)) in Ha2 by lia. rewrite Z.pow_add_r in Ha2 by lia. nia.
    + by rewrite bu_zero_val, Z.mod_0_l by lia.
    + rewrite bu_zero_val. lia.
Qed.

(** ** The compact format *)

Lemma bu_of_uint64_spec W b : (2 <= W)%nat -> in_u 64 b ->
  limbs_ok W (bu_of_uint64 W b) /\ bu_val (bu_of_uint64 W b) = b.
Proof.
  intros HW Hb. unfold bu_of_uint64. destruct (limb_split b Hb) as (_ & E & _ & Hhi).
  split.
  - split; [cbn [length]; rewrite length_replicate; lia|].
    repeat constructor; try by apply wrapu_range. apply Forall_replicate. unfold in_u; lia.
  - cbn [bu_val]. fold (bu_zero (W - 2)). rewrite bu_zero_val.
    rewrite (wrapu_small 32 (b ≫ 32)) by (unfold in_u; lia). unfold wrapu.
    pose proof (Z.div_mod b (2 ^ 32) ltac:(lia)). lia.
Qed.

Lemma GetLow64_val W pn : (2 <= W)%nat -> limbs_ok W pn -> GetLow64 pn = bu_val pn mod 2 ^ 64.
Proof.
  intros HW [Hl Hf]. destruct pn as [|x [|y pn]]; [cbn in Hl; lia|cbn in Hl; lia|].
  limbs Hf. limbs Hf. unfold in_u in *. unfold GetLow64, limb. cbn [nth bu_val].
  rewrite lor_shiftl_add by lia.
  replace (x + 2 ^ 32 * (y + 2 ^ 32 * bu_val pn)) with (x + y * 2 ^ 32 + bu_val pn * 2 ^ 64) by lia.
  rewrite Z.mod_add by lia. symmetry. apply Z.mod_small. lia.
Qed.

Lemma land_pow2 x n : 0 <= n -> Z.land x (2 ^ n) = Z.b2z (Z.testbit x n) * 2 ^ n.
Proof.
  intros Hn. apply Z.bits_inj'. intros i Hi. rewrite Z.land_spec, Z.pow2_bits_eqb by done.
  destruct (Z.testbit x n) eqn:E; cbn [Z.b2z].
  - rewrite Z.mul_1_l, Z.pow2_bits_eqb by done.
    destruct (n =? i) eqn:Ei; bool_to_prop; [by subst; rewrite E|by rewrite andb_false_r].
  - rewrite Z.mul_0_l, Z.bits_0. destruct (n =? i) eqn:Ei; bool_to_prop; [by subst; rewrite E|].
    by rewrite andb_false_r.
Qed.

Lemma land_bit23 x : (Z.land x 0x00800000 =? 0) = ((x / 2 ^ 23) mod 2 =? 0).
Proof.
  change 0x00800000 with (2 ^ 23). rewrite land_pow2 by lia. rewrite <- Z.testbit_spec' by lia.
  by destruct (Z.testbit x 23).
Qed.

(** The number that a compact encoding denotes: mantissa * 256^(exponent-3). *)
Definition compact_value (nCompact : Z) : Z :=
  (nCompact mod 2 ^ 23) * 256 ^ (nCompact / 2 ^ 24) / 256 ^ 3.

Lemma compact_overflow m e : 0 <= m < 2 ^ 23 -> 3 < e ->
  negb (m =? 0) && ((34 <? e) || ((0xff <? m) && (33 <? e)) || ((0xffff <? m) && (32 <? e)))
  = (2 ^ 256 <=? m * 256 ^ (e - 3)).
Proof.
  intros Hm He. change (2 ^ 256) with (256 ^ 32). apply eq_true_iff_eq.
  rewrite !andb_true_iff, !orb_true_iff, !andb_true_iff, negb_true_iff, Z.eqb_neq, !Z.ltb_lt, Z.leb_le.
  assert (forall k, 0 <= k -> 3 + k <= e -> 256 ^ (e - 3) = 256 ^ k * 256 ^ (e - 3 - k)) as Hsplit.
  { intros k Hk Hke. rewrite <- Z.pow_add_r by lia. f_equal. lia. }
  assert (forall k, 0 <= k -> 0 < 256 ^ k) as Hpos by (intros; lia).
  split.
  - intros [Hnz [[H|[H1 H2]]|[H1 H2]]].
    + rewrite (Hsplit 32) by lia. pose proof (Hpos (e - 3 - 32) ltac:(lia)). nia.
    + rewrite (Hsplit 31) by lia. pose proof (Hpos (e - 3 - 31) ltac:(lia)).
      change (256 ^ 32) with (256 * 256 ^ 31). nia.
    + rewrite (Hsplit 30) by lia. pose proof (Hpos (e - 3 - 30) ltac:(lia)).
      change (256 ^ 32) with (65536 * 256 ^ 30). nia.
  - intros H. split; [intros ->; cbn in H; lia|].
    destruct (Z.lt_ge_cases 34 e); [tauto|].
    assert (e = 34 \/ e = 33 \/ e <= 32) as [->|[->|Hle]] by lia.
    + left. right. split; [|done]. change (256 ^ 32) with (256 * 256 ^ 31) in H.
      change (34 - 3) with 31 in H. nia.
    + right. split; [|done]. change (256 ^ 32) with (65536 * 256 ^ 30) in H.
      change (33 - 3) with 30 in H. nia.
    + exfalso. assert (256 ^ (e - 3) <= 256 ^ 29) by (apply Z.pow_le_mono_r; lia).
      change (256 ^ 32) with (2 ^ 24 * 256 ^ 29) in H. nia.
Qed.

Lemma compact_value_small m e : 0 <= m -> 0 <= e <= 3 ->
  m * 256 ^ e / 256 ^ 3 = Z.shiftr m (8 * (3 - e)).
Proof.
  intros Hm He. rewrite Z.shiftr_div_pow2 by lia.
  replace (256 ^ 3) with (2 ^ (8 * (3 - e)) * 256 ^ e).
  - apply Z.div_mul_cancel_r; lia.
  - rewrite (Z.pow_mul_r 2 8) by lia. change (2 ^ 8) with 256.
    rewrite <- Z.pow_add_r by lia. f_equal. lia.
Qed.

Lemma compact_value_large m e : 3 < e -> m * 256 ^ e / 256 ^ 3 = m * 256 ^ (e - 3).
Proof.
  intros He. replace (256 ^ e) with (256 ^ (e - 3) * 256 ^ 3)
    by (rewrite <- Z.pow_add_r by lia; f_equal; lia).
  by rewrite Z.mul_assoc, Z.div_mul by lia.
Qed.

Lemma SetCompact_value c : in_u 32 c ->
  let '(n, fNegative, fOverflow) := SetCompact c in
  limbs_ok 8 n /\ bu_val n = compact_value c mod 2 ^ 256 /\
  fOverflow = (2 ^ 256 <=? compact_value c) /\
  fNegative = negb (compact_value c =? 0) && Z.testbit c 23.
Proof.
  intros Hc. unfold SetCompact, compact_value.
  change 0x007fffff with (Z.ones 23). rewrite Z.land_ones, (Z.shiftr_div_pow2 _ 24) by lia.
  change 0x00800000 with (2 ^ 23). rewrite land_pow2 by lia.
  set (m := c mod 2 ^ 23). set (e := c / 2 ^ 24).
  assert (0 <= m < 2 ^ 23) as Hm by (apply Z.mod_pos_bound; lia).
  assert (0 <= e) as He by (apply Z.div_pos; unfold in_u in Hc; lia).
  assert (forall b, negb (Z.b2z b * 2 ^ 23 =? 0) = b) as Hb by (by intros []).
  rewrite Hb. destruct (e <=? 3) eqn:E; bool_to_prop.
  - rewrite compact_value_small by lia. set (v := Z.shiftr m (8 * (3 - e))).
    assert (in_u 23 v) as Hv by (apply shiftr_in_u; unfold in_u; lia).
    unfold in_u in Hv.
    destruct (bu_of_uint64_spec 8 v) as [H1 H2]; [lia|unfold in_u; lia|].
    split; [done|]. rewrite H2, Z.mod_small by lia. split; [done|].
    rewrite (proj2 (Z.ltb_ge 34 e)), (proj2 (Z.ltb_ge 33 e)), (proj2 (Z.ltb_ge 32 e)) by lia.
    rewrite (proj2 (Z.leb_gt (2 ^ 256) v)) by lia. rewrite !andb_false_r. done.
  - rewrite compact_value_large by lia.
    destruct (bu_of_uint64_spec 8 m) as [H1 H2]; [lia|unfold in_u; lia|].
    destruct (bu_shl_spec 8 _ (8 * (e - 3)) H1 ltac:(lia)) as [H3 H4].
    split; [done|]. split.
    + rewrite H4, H2. by rewrite (Z.pow_mul_r 2 8) by lia.
    + split; [by apply compact_overflow|]. f_equal. f_equal.
      pose proof (Z.pow_pos_nonneg 256 (e - 3) ltac:(lia) ltac:(lia)).
      destruct (m =? 0) eqn:Em, (m * 256 ^ (e - 3) =? 0) eqn:Ep; bool_to_prop; try done; nia.
Qed.

(** [m] and [e] are the mantissa and the exponent of the encoding of [v]. *)
Definition compact_normal (v m e : Z) : Prop :=
  2 ^ 15 <= m < 2 ^ 23 /\ 1 <= e <= 33 /\ m * 256 ^ e <= v * 256 ^ 3 < (m + 1) * 256 ^ e.

Lemma compact_normal_unique v m e m' e' :
  compact_normal v m e -> compact_normal v m' e' -> m = m' /\ e = e'.
Proof.
  assert (forall v m e m' e', compact_normal v m e -> compact_normal v m' e' -> e <= e') as Hle.
  { clear. intros v m e m' e' (Hm & He & Hv) (Hm' & He' & Hv'). apply Z.nlt_ge. intros Hlt.
    assert (256 * 256 ^ e' <= 256 ^ e).
    { rewrite <- Z.pow_succ_r by lia. apply Z.pow_le_mono_r; lia. }
    assert (0 < 256 ^ e') by lia.
    assert (2 ^ 15 * 256 ^ e <= m * 256 ^ e) by nia.
    assert ((m' + 1) * 256 ^ e' <= 2 ^ 23 * 256 ^ e') by nia. lia. }
  intros H H'. assert (e = e') as <- by (apply Z.le_antisymm; eauto).
  split; [|done]. destruct H as (_ & He & Hv), H' as (_ & _ & Hv').
  assert (0 < 256 ^ e) by lia. nia.
Qed.

Lemma compact_encode_ok m e (f : bool) : 0 <= m < 2 ^ 23 -> 0 <= e < 256 ->
  (_ ← cassert (Z.land m 0xff800000 =? 0);
   _ ← cassert (e <? 256);
   let c := Z.lor m (u32 (Z.shiftl e 24)) in
   Ok (Z.lor c (if f && negb (Z.land c 0x007fffff =? 0) then 0x00800000 else 0)))
  = Ok (E := unit) (m + 2 ^ 24 * e + (if f && negb (m =? 0) then 2 ^ 23 else 0)).
Proof.
  intros Hm He.
  assert (Z.land m 0xff800000 = 0) as ->.
  { change 0xff800000 with (Z.shiftl 0x1ff 23). apply Z.bits_inj'. intros i Hi.
    rewrite Z.land_spec, Z.bits_0. destruct (Z.lt_ge_cases i 23).
    - by rewrite Z.shiftl_spec_low, andb_false_r by lia.
    - by rewrite (testbit_high 23) by (unfold in_u; lia). }
  cbn [cassert Z.eqb mbind outcome_bind]. rewrite (proj2 (Z.ltb_lt e 256)) by lia.
  cbn [cassert mbind outcome_bind]. cbv zeta.
  rewrite wrapu_small by (rewrite Z.shiftl_mul_pow2 by lia; unfold in_u; lia).
  rewrite lor_shiftl_add by lia.
  change 0x007fffff with (Z.ones 23). rewrite Z.land_ones by lia.
  replace ((m + e * 2 ^ 24) mod 2 ^ 23) with m.
  2: { replace (m + e * 2 ^ 24) with (m + (2 * e) * 2 ^ 23) by lia.
       rewrite Z.mod_add by lia. symmetry. apply Z.mod_small. lia. }
  f_equal. destruct (f && negb (m =? 0)).
  - change 0x00800000 with (2 ^ 23). rewrite <- Z.add_nocarry_lor; [lia|].
    rewrite land_pow2 by lia.
    assert (Z.testbit (m + e * 2 ^ 24) 23 = false) as ->; [|done].
    apply Z.b2z_inj. rewrite Z.testbit_spec' by lia.
    replace (m + e * 2 ^ 24) with (m + (2 * e) * 2 ^ 23) by lia.
    rewrite Z.div_add, Z.div_small by lia. rewrite Z.add_0_l, Z.mul_comm. by apply Z.mod_mul.
  - rewrite Z.lor_0_r. lia.
Qed.

(** The 24 top bits of a nonzero number of [s] bytes. *)
Lemma compact_mantissa v s : 0 < s -> 2 ^ (8 * s - 8) <= v < 2 ^ (8 * s) ->
  2 ^ 16 <= v * 256 ^ 3 / 256 ^ s < 2 ^ 24.
Proof.
  intros Hs Hv. change 256 with (2 ^ 8). rewrite <- !Z.pow_mul_r by lia.
  split.
  - apply Z.div_le_lower_bound; [lia|]. rewrite <- Z.pow_add_r by lia.
    replace (8 * s + 16) with (8 * s - 8 + 8 * 3) by lia. rewrite Z.pow_add_r by lia. nia.
  - apply Z.div_lt_upper_bound; [lia|]. change (8 * 3) with 24. nia.
Qed.

Lemma GetCompact_nonzero a f : limbs_ok 8 a -> 0 < bu_val a ->
  exists m e, compact_normal (bu_val a) m e /\
    GetCompact a f = Ok (m + 2 ^ 24 * e + (if f then 2 ^ 23 else 0)).
Proof.
  intros Ha Hp. pose proof (bu_val_range a (proj2 Ha)) as Ra. rewrite (proj1 Ha) in Ra.
  change (bits_of 8) with 256 in Ra.
  destruct (bits_pos 8 a Ha Hp) as [[Hlo Hhi] Hb]. set (v := bu_val a) in *.
  unfold GetCompact. set (s := (bits a + 7) / 8).
  assert (bits a <= 256) as Hb256.
  { assert (bits a - 1 < 256); [|lia]. apply (Z.pow_lt_mono_r_iff 2); lia. }
  assert (8 * s - 8 <= bits a - 1 /\ bits a <= 8 * s) as [Hs1 Hs2].
  { unfold s. pose proof (Z.div_mod (bits a + 7) 8 ltac:(lia)).
    pose proof (Z.mod_pos_bound (bits a + 7) 8 ltac:(lia)). lia. }
  assert (0 < s <= 32) as Hs by lia.
  assert (2 ^ (8 * s - 8) <= v < 2 ^ (8 * s)) as Hv.
  { split; [etransitivity; [|apply Hlo]|eapply Z.lt_le_trans; [apply Hhi|]]; apply Z.pow_le_mono_r; lia. }
  set (m0 := v * 256 ^ 3 / 256 ^ s).
  pose proof (compact_mantissa v s ltac:(lia) Hv) as Hm0. fold m0 in Hm0.
  assert ((if s <=? 3 then u32 (u64 (GetLow64 a ≪ (8 * (3 - s))))
           else u32 (GetLow64 (bu_shr a (8 * (s - 3))))) = m0) as ->.
  { unfold m0 in *. destruct (s <=? 3) eqn:E; bool_to_prop.
    - assert (v < 2 ^ 24) by (eapply Z.lt_le_trans; [apply Hv|]; apply Z.pow_le_mono_r; lia).
      rewrite (GetLow64_val 8), Z.mod_small by (done || lia). fold v.
      assert (v * 256 ^ 3 / 256 ^ s = v * 256 ^ (3 - s)) as Em.
      { replace (256 ^ 3) with (256 ^ (3 - s) * 256 ^ s) by (rewrite <- Z.pow_add_r by lia; f_equal; lia).
        rewrite Z.mul_assoc. apply Z.div_mul. lia. }
      rewrite Em in *. rewrite Z.shiftl_mul_pow2, (Z.pow_mul_r 2 8) by lia. change (2 ^ 8) with 256.
      by rewrite (wrapu_small 64), (wrapu_small 32) by (unfold in_u; lia).
    - destruct (bu_shr_spec 8 a (8 * (s - 3)) Ha ltac:(lia)) as [Hr Er]. fold v in Er.
      assert (v * 256 ^ 3 / 256 ^ s = v / 2 ^ (8 * (s - 3))) as Em.
      { rewrite (Z.pow_mul_r 2 8) by lia. change (2 ^ 8) with 256.
        replace (256 ^ s) with (256 ^ (s - 3) * 256 ^ 3) by (rewrite <- Z.pow_add_r by lia; f_equal; lia).
        apply Z.div_mul_cancel_r; lia. }
      rewrite Em in *. change (bits_of 8) with 256 in Er. rewrite Z.mod_small in Er by lia.
      rewrite (GetLow64_val 8), Er by (done || lia).
      rewrite Z.mod_small by lia. rewrite wrapu_small; [done|unfold in_u; lia]. }
  rewrite land_bit23.
  assert (0 < 256 ^ s) as Hps by lia.
  pose proof (Z.div_mod (v * 256 ^ 3) (256 ^ s) ltac:(lia)) as Ed.
  pose proof (Z.mod_pos_bound (v * 256 ^ 3) (256 ^ s) Hps) as Emod. fold m0 in Ed.
  destruct (Z.lt_ge_cases m0 (2 ^ 23)) as [Hlt|Hge].
  - rewrite (Z.div_small m0) by lia. rewrite Z.mod_0_l by lia. cbn [Z.eqb negb].
    exists m0, s. split; [split; [lia|split; [lia|nia]]|].
    etransitivity; [apply (compact_encode_ok m0 s f); lia|].
    rewrite (proj2 (Z.eqb_neq m0 0)) by lia. by rewrite andb_true_r.
  - assert (m0 / 2 ^ 23 = 1) as ->.
    { symmetry. apply (Z.div_unique _ _ _ (m0 - 2 ^ 23)); lia. }
    change (1 mod 2 =? 0) with false. cbn [negb]. rewrite Z.shiftr_div_pow2 by lia. change (2 ^ 8) with 256.
    pose proof (Z.div_mod m0 256 ltac:(lia)). pose proof (Z.mod_pos_bound m0 256 ltac:(lia)).
    set (m := m0 / 256) in *. exists m, (s + 1). split.
    + split; [lia|]. split; [lia|]. rewrite Z.pow_add_r by lia. change (256 ^ 1) with 256. nia.
    + etransitivity; [apply (compact_encode_ok m (s + 1) f); lia|].
      rewrite (proj2 (Z.eqb_neq m 0)) by lia. by rewrite andb_true_r.
Qed.

(** The number denoted by the encoding of [v]. *)
Lemma compact_decode v m e (f : bool) : 0 <= v -> compact_normal v m e ->
  let c := m + 2 ^ 24 * e + (if f then 2 ^ 23 else 0) in
  in_u 32 c /\ compact_value c = m * 256 ^ e / 256 ^ 3 /\ Z.testbit c 23 = f /\
  compact_value c <= v /\ (v - compact_value c) * 2 ^ 15 <= compact_value c /\
  0 < compact_value c /\ compact_normal (compact_value c) m e.
Proof.
  intros Hv (Hm & He & Hn) c.
  assert (c = (if f then 1 else 0) * 2 ^ 23 + m + e * 2 ^ 24) as Ec by (unfold c; destruct f; lia).
  assert (c mod 2 ^ 23 = m) as E1.
  { rewrite Ec. replace ((if f then 1 else 0) * 2 ^ 23 + m + e * 2 ^ 24)
      with (m + ((if f then 1 else 0) + 2 * e) * 2 ^ 23) by lia.
    rewrite Z.mod_add by lia. apply Z.mod_small. lia. }
  assert (c / 2 ^ 24 = e) as E2.
  { rewrite Ec, Z.div_add by lia. rewrite Z.div_small by (destruct f; lia). lia. }
  assert (compact_value c = m * 256 ^ e / 256 ^ 3) as E3 by (unfold compact_value; by rewrite E1, E2).
  split; [unfold in_u; destruct f; lia|]. split; [done|]. split.
  { apply Z.b2z_inj. rewrite Z.testbit_spec' by lia. rewrite Ec.
    replace ((if f then 1 else 0) * 2 ^ 23 + m + e * 2 ^ 24)
      with (m + ((if f then 1 else 0) + 2 * e) * 2 ^ 23) by lia.
    rewrite Z.div_add, Z.div_small, Z.add_0_l by lia.
    rewrite (Z.mul_comm 2), Z.mod_add by lia. by destruct f. }
  rewrite E3. set (n := m * 256 ^ e / 256 ^ 3).
  assert (0 < 256 ^ e) by lia.
  assert ((n = v /\ e <= 3) \/ n * 256 ^ 3 = m * 256 ^ e) as [[Heq H3]|Heq].
  { destruct (Z.le_gt_cases e 3).
    - left. split; [|done].
      assert (256 ^ 3 = 256 ^ (3 - e) * 256 ^ e) as E
        by (rewrite <- Z.pow_add_r by lia; f_equal; lia).
      assert (m = v * 256 ^ (3 - e)) as Em by (rewrite E in Hn; nia).
      unfold n. rewrite Em, <- Z.mul_assoc, <- E. apply Z.div_mul. lia.
    - right. unfold n. rewrite compact_value_large by lia.
      rewrite <- Z.mul_assoc, <- Z.pow_add_r by lia. do 2 f_equal. lia. }
  - rewrite Heq. assert (0 < v) by nia. split; [lia|]. split; [lia|]. split; [done|].
    split; [done|]. split; done.
  - assert (0 < n) by nia. split; [nia|]. split; [nia|]. split; [done|].
    split; [done|]. split; [done|]. rewrite Heq. nia.
Qed.

Lemma GetCompact_zero a f : limbs_ok 8 a -> bu_val a = 0 -> GetCompact a f = Ok 0.
Proof.
  intros Ha Hz. unfold GetCompact. rewrite (bits_log2 8), Hz by done.
  change ((0 + 7) / 8 <=? 3) with true. cbv iota.
  rewrite (GetLow64_val 8), Hz by (done || lia). by destruct f.
Qed.

Lemma EqualTo_spec W a b : (2 <= W)%nat -> limbs_ok W a -> in_u 64 b ->
  EqualTo a b = (bu_val a =? b).
Proof.
  intros HW [Hl Hf] Hb. destruct a as [|x [|y a]]; [cbn in Hl; lia|cbn in Hl; lia|].
  limbs Hf. limbs Hf. destruct (limb_split b Hb) as (E1 & E2 & _).
  unfold EqualTo, limb. rewrite !skipn_cons, drop_0. cbn [nth bu_val]. rewrite E1, E2.
  assert (forallb (fun x => x =? 0) a = (bu_val a =? 0)) as ->.
  { clear -Hf. induction Hf as [|z a Hz Hf IH]; [done|]. cbn [forallb bu_val]. rewrite IH.
    pose proof (bu_val_range a Hf). unfold in_u in Hz.
    destruct (z =? 0) eqn:?, (bu_val a =? 0) eqn:?, (z + 2 ^ 32 * bu_val a =? 0) eqn:?;
      bool_to_prop; try done; lia. }
  pose proof (bu_val_range a Hf). unfold in_u in *.
  pose proof (Z.div_mod b (2 ^ 32) ltac:(lia)). pose proof (Z.mod_pos_bound b (2 ^ 32) ltac:(lia)).
  assert (b / 2 ^ 32 < 2 ^ 32) by (apply Z.div_lt_upper_bound; lia).
  destruct (bu_val a =? 0) eqn:?, (y =? b / 2 ^ 32) eqn:?, (x =? b mod 2 ^ 32) eqn:?,
    (x + 2 ^ 32 * (y + 2 ^ 32 * bu_val a) =? b) eqn:?; bool_to_prop; try done; lia.
Qed.

(** The ring operations of [base_uint] are those of the integers modulo
    [2 ^ BITS], for every width: addition, subtraction, negation, complement,
    increment, decrement, multiplication by a word and by a number; each
    returns well-formed limbs. *)
Theorem base_uint_ring (W : nat) (a b : bu) (c : Z) :
  limbs_ok W a -> limbs_ok W b -> in_u 32 c ->
  represents W (bu_add a b) (bu_val a + bu_val b) /\
  represents W (bu_sub a b) (bu_val a - bu_val b) /\
  represents W (bu_neg a) (- bu_val a) /\
  represents W (bu_not a) (- bu_val a - 1) /\
  represents W (bu_inc a) (bu_val a + 1) /\
  represents W (bu_dec a) (bu_val a - 1) /\
  represents W (bu_mul32 a c) (bu_val a * c) /\
  represents W (bu_mul a b) (bu_val a * bu_val b).
Proof.
  intros Ha Hb Hc. repeat split_and;
    [by apply bu_add_spec|by apply bu_sub_spec|by apply bu_neg_spec| |by apply bu_inc_spec|
     by apply bu_dec_spec| |by apply bu_mul_spec].
  - destruct (bu_not_spec W a Ha) as [H1 H2].
    eapply represents_eq; [|apply represents_self, H1]. rewrite H2.
    replace (2 ^ bits_of W - 1 - bu_val a) with (- bu_val a - 1 + 1 * 2 ^ bits_of W) by lia.
    apply Z.mod_add. lia.
  - rewrite Z.mul_comm. by apply (mul32_loop_spec W 0).
Qed.

Lemma base_uint_ring_witness :
  limbs_ok 2 [0xffffffff; 0xffffffff] /\
  represents 2 (bu_mul [0xffffffff; 0xffffffff] [3; 0]) ((2 ^ 64 - 1) * 3).
Proof.
  assert (limbs_ok 2 [0xffffffff; 0xffffffff]) as Ha
    by (split; [reflexivity|repeat constructor; cbv; congruence]).
  assert (limbs_ok 2 [3; 0]) as Hb by (split; [reflexivity|repeat constructor; cbv; congruence]).
  split; [exact Ha|].
  apply (base_uint_ring 2 [0xffffffff; 0xffffffff] [3; 0] 7 Ha Hb). cbv; split; congruence.
Defined.

(** The shifts multiply by and divide by a power of two, for every shift
    count, the ones that are not smaller than the width included. *)
Theorem base_uint_shifts (W : nat) (a : bu) (shift : Z) :
  limbs_ok W a -> 0 <= shift ->
  represents W (bu_shl a shift) (bu_val a * 2 ^ shift) /\
  limbs_ok W (bu_shr a shift) /\ bu_val (bu_shr a shift) = bu_val a / 2 ^ shift.
Proof.
  intros Ha Hs. split; [by apply bu_shl_spec|].
  pose proof (bu_shr_spec W a shift Ha Hs) as R. split; [apply R|].
  apply (represents_small _ _ _ R). pose proof (bu_val_range a (proj2 Ha)) as Ra.
  rewrite (proj1 Ha) in Ra. split; [apply Z.div_pos; lia|].
  apply (Z.le_lt_trans _ (bu_val a)); [|lia]. apply Z.div_le_upper_bound; nia.
Qed.

Lemma base_uint_shifts_witness :
  limbs_ok 2 [5; 1] /\ 0 <= 33 /\
  represents 2 (bu_shl [5; 1] 33) ((5 + 2 ^ 32) * 2 ^ 33) /\
  limbs_ok 2 (bu_shr [5; 1] 33) /\ bu_val (bu_shr [5; 1] 33) = bu_val [5; 1] / 2 ^ 33.
Proof.
  assert (limbs_ok 2 [5; 1]) as Ha by (split; [reflexivity|repeat constructor; cbv; congruence]).
  split; [exact Ha|]. split; [lia|]. apply (base_uint_shifts 2 [5; 1] 33 Ha). lia.
Defined.

(** Comparison and size: [CompareTo] is the sign of the difference,
    [EqualTo] compares with a 64-bit number, and [bits] is the position of the
    highest bit plus one, zero for zero. *)
Theorem base_uint_compare (W : nat) (a b : bu) (c : Z) :
  (2 <= W)%nat -> limbs_ok W a -> limbs_ok W b -> in_u 64 c ->
  CompareTo a b = Z.sgn (bu_val a - bu_val b) /\
  EqualTo a c = (bu_val a =? c) /\
  bits a = (if bu_val a =? 0 then 0 else Z.log2 (bu_val a) + 1).
Proof.
  intros HW Ha Hb Hc. split; [by apply (CompareTo_sgn W)|].
  split; [by apply (EqualTo_spec W)|by apply (bits_log2 W)].
Qed.

Lemma base_uint_compare_witness :
  limbs_ok 2 [5; 1] /\ CompareTo [5; 1] [7; 0] = Z.sgn (bu_val [5; 1] - bu_val [7; 0]).
Proof.
  assert (limbs_ok 2 [5; 1]) as Ha by (split; [reflexivity|repeat constructor; cbv; congruence]).
  assert (limbs_ok 2 [7; 0]) as Hb by (split; [reflexivity|repeat constructor; cbv; congruence]).
  split; [exact Ha|].
  apply (base_uint_compare 2 [5; 1] [7; 0] 9 ltac:(lia) Ha Hb). cbv; split; congruence.
Defined.

(** The shift-and-subtract loop of [operator/=] is integer division; it
    throws exactly when the divisor is zero. *)
Theorem base_uint_division (W : nat) (a b : bu) :
  limbs_ok W a -> limbs_ok W b ->
  (bu_div a b = Throw <-> bu_val b = 0) /\
  (bu_val b <> 0 -> exists q, bu_div a b = Ok q /\ limbs_ok W q /\ bu_val q = bu_val a / bu_val b).
Proof.
  intros Ha Hb. split; [|intros Hnz; by apply (bu_div_spec W)]. split.
  - intros E. destruct (Z.eq_dec (bu_val b) 0) as [|Hnz]; [done|].
    destruct (bu_div_spec W a b Ha Hb Hnz) as (q & Eq & _). congruence.
  - intros Hz. unfold bu_div. by rewrite (bits_log2 W b Hb), Hz.
Qed.

Lemma base_uint_division_witness :
  limbs_ok 2 [5; 1] /\
  exists q, bu_div [5; 1] [7; 0] = Ok q /\ limbs_ok 2 q /\ bu_val q = bu_val [5; 1] / bu_val [7; 0].
Proof.
  assert (limbs_ok 2 [5; 1]) as Ha by (split; [reflexivity|repeat constructor; cbv; congruence]).
  assert (limbs_ok 2 [7; 0]) as Hb by (split; [reflexivity|repeat constructor; cbv; congruence]).
  split; [exact Ha|]. apply (base_uint_division 2 [5; 1] [7; 0] Ha Hb). cbn. lia.
Defined.

(** [SetCompact] decodes a compact target: the number is mantissa *
    256^(exponent - 3) modulo 2^256, [*pfOverflow] tells exactly when that
    does not fit 256 bits, and [*pfNegative] is the sign bit of a nonzero
    number. *)
Theorem SetCompact_decodes (nCompact : Z) :
  in_u 32 nCompact ->
  let '(n, fNegative, fOverflow) := SetCompact nCompact in
  limbs_ok 8 n /\ bu_val n = compact_value nCompact mod 2 ^ 256 /\
  fOverflow = (2 ^ 256 <=? compact_value nCompact) /\
  fNegative = negb (compact_value nCompact =? 0) && Z.testbit nCompact 23.
Proof. apply SetCompact_value. Qed.

Lemma SetCompact_decodes_witness :
  in_u 32 0x1d00ffff /\
  let '(n, fNegative, fOverflow) := SetCompact 0x1d00ffff in
  limbs_ok 8 n /\ bu_val n = compact_value 0x1d00ffff mod 2 ^ 256 /\
  fOverflow = (2 ^ 256 <=? compact_value 0x1d00ffff) /\
  fNegative = negb (compact_value 0x1d00ffff =? 0) && Z.testbit 0x1d00ffff 23.
Proof.
  assert (in_u 32 0x1d00ffff) as H by (cbv; split; congruence).
  split; [exact H|]. exact (SetCompact_decodes _ H).
Defined.

(** C39: [GetCompact] never fails its assertions; what it returns decodes,
    without overflow, to a number that is at most the original, with a relative
    error below 2^-15, and negative only if asked for a nonzero number; encoding
    the decoded number again gives the same compact form. *)
Theorem GetCompact_encodes (a : bu) (fNegative : bool) :
  limbs_ok 8 a ->
  exists c n, GetCompact a fNegative = Ok c /\ in_u 32 c /\
    SetCompact c = (n, fNegative && negb (bu_val a =? 0), false) /\
    bu_val n <= bu_val a /\ (bu_val a - bu_val n) * 2 ^ 15 <= bu_val n /\
    GetCompact n fNegative = Ok c.
Proof.
  intros Ha. pose proof (bu_val_range a (proj2 Ha)) as Ra. rewrite (proj1 Ha) in Ra.
  change (bits_of 8) with 256 in Ra.
  destruct (Z.eq_dec (bu_val a) 0) as [Hz|Hnz].
  - exists 0, (bu_zero 8). rewrite (GetCompact_zero a), Hz by done.
    rewrite (GetCompact_zero (bu_zero 8)) by (try apply bu_zero_ok; apply bu_zero_val).
    rewrite bu_zero_val. repeat split_and; try done. by rewrite andb_false_r.
  - destruct (GetCompact_nonzero a fNegative Ha ltac:(lia)) as (m & e & Hn & E).
    destruct (compact_decode _ m e fNegative (proj1 Ra) Hn) as (Hc & _ & Hb & Hle & Herr & Hpos & Hn').
    set (c := m + 2 ^ 24 * e + (if fNegative then 2 ^ 23 else 0)) in *.
    pose proof (SetCompact_value c Hc) as S. destruct (SetCompact c) as [[n neg] ovf] eqn:Es.
    destruct S as (Hok & Ev & -> & ->). rewrite Z.mod_small in Ev by lia.
    exists c, n. rewrite Ev. split; [done|]. split; [done|]. split.
    + rewrite Es, Hb, andb_comm. rewrite (proj2 (Z.leb_gt (2 ^ 256) _)) by lia.
      rewrite (proj2 (Z.eqb_neq (compact_value c) 0)), (proj2 (Z.eqb_neq (bu_val a) 0)) by lia. done.
    + split; [done|]. split; [done|].
      destruct (GetCompact_nonzero n fNegative Hok ltac:(lia)) as (m' & e' & Hm' & E').
      rewrite Ev in Hm'. by destruct (compact_normal_unique _ _ _ _ _ Hn' Hm') as [<- <-].
Qed.

Lemma GetCompact_encodes_witness :
  limbs_ok 8 [0x12345678; 0x9abcdef0; 0; 0; 0; 0; 0; 0] /\
  exists c n, GetCompact [0x12345678; 0x9abcdef0; 0; 0; 0; 0; 0; 0] true = Ok c /\ in_u 32 c /\
    SetCompact c = (n, true && negb (bu_val [0x12345678; 0x9abcdef0; 0; 0; 0; 0; 0; 0] =? 0), false) /\
    bu_val n <= bu_val [0x12345678; 0x9abcdef0; 0; 0; 0; 0; 0; 0] /\
    (bu_val [0x12345678; 0x9abcdef0; 0; 0; 0; 0; 0; 0] - bu_val n) * 2 ^ 15 <= bu_val n /\
    GetCompact n true = Ok c.
Proof.
  assert (limbs_ok 8 [0x12345678; 0x9abcdef0; 0; 0; 0; 0; 0; 0]) as Ha
    by (split; [reflexivity|repeat constructor; cbv; congruence]).
  split; [exact Ha|]. exact (GetCompact_encodes _ true Ha).
Defined.
