(* ===== verification/Params.v ===== *)
(** * Consensus parameters and network upgrades (src/src/consensus/params.h,
    consensus/params.cpp, consensus/upgrades.cpp, chainparams.cpp)

    [Params] has the fields of [Consensus::Params] that the modelled code
    reads; [mainParams] and [testParams] are the values of the two public
    networks.  An upgrade is DISABLED, PENDING or ACTIVE at a height. *)
From Stdlib Require Import Sorted.
From S2P Require Import Prelude ArithUint256.

Inductive UpgradeIndex : Type :=
| BASE_NETWORK
| UPGRADE_POS
| UPGRADE_POS_V2
| UPGRADE_ZC
| UPGRADE_ZC_V2
| UPGRADE_BIP65
| UPGRADE_ZC_PUBLIC
| UPGRADE_V3_4
| UPGRADE_V4_0
| UPGRADE_V5_0
| UPGRADE_TESTDUMMY.

#[export] Instance UpgradeIndex_eq_dec : EqDecision UpgradeIndex.
Proof. solve_decision. Defined.

(** The indices [0 .. MAX_NETWORK_UPGRADES - 1] in order. *)
Definition upgrades : list UpgradeIndex :=
  [BASE_NETWORK; UPGRADE_POS; UPGRADE_POS_V2; UPGRADE_ZC; UPGRADE_ZC_V2; UPGRADE_BIP65;
   UPGRADE_ZC_PUBLIC; UPGRADE_V3_4; UPGRADE_V4_0; UPGRADE_V5_0; UPGRADE_TESTDUMMY].

(** The value of the enumerator. *)
Definition upgrade_index (idx : UpgradeIndex) : Z :=
  match idx with
  | BASE_NETWORK => 0 | UPGRADE_POS => 1 | UPGRADE_POS_V2 => 2 | UPGRADE_ZC => 3
  | UPGRADE_ZC_V2 => 4 | UPGRADE_BIP65 => 5 | UPGRADE_ZC_PUBLIC => 6 | UPGRADE_V3_4 => 7
  | UPGRADE_V4_0 => 8 | UPGRADE_V5_0 => 9 | UPGRADE_TESTDUMMY => 10
  end.

Definition ALWAYS_ACTIVE : Z := 0.
Definition NO_ACTIVATION_HEIGHT : Z := -1.
Definition INT_MAX : Z := 2 ^ 31 - 1.
Definition COIN : Z := 100000000.
Definition CENT : Z := 1000000.

Record Params := {
  hashGenesisBlock : list Z;
  powLimit : bu;
  posLimitV1 : bu;
  posLimitV2 : bu;
  nBudgetCycleBlocks : Z;
  nBudgetFeeConfirmations : Z;
  nCoinbaseMaturity : Z;
  nFutureTimeDriftPoW : Z;
  nFutureTimeDriftPoS : Z;
  nMasternodeCountDrift : Z;
  nMaxMoneyOut : Z;
  nProposalEstablishmentTime : Z;
  nStakeMinAge : Z;
  nStakeMinDepth : Z;
  nTargetTimespan : Z;
  nTargetTimespanV2 : Z;
  nTargetSpacing : Z;
  nTimeSlotLength : Z;
  nMaxProposalPayments : Z;
  height_last_invalid_UTXO : Z;
  height_last_ZC_AccumCheckpoint : Z;
  ZC_MaxPublicSpendsPerTx : Z;
  ZC_MaxSpendsPerTx : Z;
  height_last_ZC_WrappedSerials : Z;
  nDeviantBadBlockTime : option Z;   (* not set on every network *)
  ZC_TimeStart : Z;
  vUpgrades : UpgradeIndex -> Z;   (* nActivationHeight *)
}.

(** ** Upgrades *)

Inductive UpgradeState : Type := UPGRADE_DISABLED | UPGRADE_PENDING | UPGRADE_ACTIVE.

#[export] Instance UpgradeState_eq_dec : EqDecision UpgradeState.
Proof. solve_decision. Defined.

(** [NetworkUpgradeState] after its assertions. *)
Definition upgrade_state (nHeight : Z) (params : Params) (idx : UpgradeIndex) : UpgradeState :=
  let nActivationHeight := vUpgrades params idx in
  if nActivationHeight =? NO_ACTIVATION_HEIGHT then UPGRADE_DISABLED
  else if nActivationHeight <=? nHeight then UPGRADE_ACTIVE
  else UPGRADE_PENDING.

Definition NetworkUpgradeState (nHeight : Z) (params : Params) (idx : UpgradeIndex)
    : outcome unit UpgradeState :=
  _ ← cassert (0 <=? nHeight);
  Ok (upgrade_state nHeight params idx).

(** [NetworkUpgradeActive] of upgrades.cpp *)
Definition upgrade_active (nHeight : Z) (params : Params) (idx : UpgradeIndex) : outcome unit bool :=
  st ← NetworkUpgradeState nHeight params idx;
  Ok (bool_decide (st = UPGRADE_ACTIVE)).

(** [Params::NetworkUpgradeActive]: false at negative heights. *)
Definition NetworkUpgradeActive (params : Params) (nHeight : Z) (idx : UpgradeIndex) : bool :=
  if nHeight <? 0 then false
  else bool_decide (upgrade_state nHeight params idx = UPGRADE_ACTIVE).

(** The loop of [CurrentEpoch], downwards. *)
Fixpoint epoch_loop (nHeight : Z) (params : Params) (l : list UpgradeIndex)
    : outcome unit UpgradeIndex :=
  match l with
  | [] => Ok BASE_NETWORK
  | idx :: l =>
      b ← upgrade_active nHeight params idx;
      if b : bool then Ok idx else epoch_loop nHeight params l
  end.
Definition CurrentEpoch (nHeight : Z) (params : Params) : outcome unit UpgradeIndex :=
  epoch_loop nHeight params (reverse (drop 1 upgrades)).

Definition IsActivationHeight (nHeight : Z) (params : Params) (idx : UpgradeIndex) : bool :=
  if bool_decide (idx = BASE_NETWORK) then false
  else (0 <=? nHeight) && (nHeight =? vUpgrades params idx).

Definition IsActivationHeightForAnyUpgrade (nHeight : Z) (params : Params) : bool :=
  if nHeight <? 0 then false
  else existsb (fun idx => nHeight =? vUpgrades params idx) (drop 1 upgrades).

Definition NextEpoch (nHeight : Z) (params : Params) : option UpgradeIndex :=
  if nHeight <? 0 then None
  else find (fun idx => bool_decide (upgrade_state nHeight params idx = UPGRADE_PENDING))
         (drop 1 upgrades).

Definition NextActivationHeight (nHeight : Z) (params : Params) : option Z :=
  match NextEpoch nHeight params with
  | Some idx => Some (vUpgrades params idx)
  | None => None
  end.

(** ** Methods of [Consensus::Params] *)

Definition TargetTimespan (p : Params) (fV2 : bool) : Z :=
  if fV2 then nTargetTimespanV2 p else nTargetTimespan p.
Definition ProofOfStakeLimit (p : Params) (fV2 : bool) : bu :=
  if fV2 then posLimitV2 p else posLimitV1 p.
Definition MoneyRange (p : Params) (nValue : Z) : bool :=
  (0 <=? nValue) && (nValue <=? nMaxMoneyOut p).
Definition IsTimeProtocolV2 (p : Params) (nHeight : Z) : bool :=
  NetworkUpgradeActive p nHeight UPGRADE_V4_0.
Definition FutureBlockTimeDrift (p : Params) (nHeight : Z) : Z :=
  if IsTimeProtocolV2 p nHeight then nTimeSlotLength p - 1
  else if NetworkUpgradeActive p nHeight UPGRADE_POS then nFutureTimeDriftPoS p
  else nFutureTimeDriftPoW p.
Definition IsValidBlockTimeStamp (p : Params) (nTime nHeight : Z) : bool :=
  if negb (IsTimeProtocolV2 p nHeight) then true
  else Z.rem nTime (nTimeSlotLength p) =? 0.
(** [utxoFromBlockTime + nStakeMinAge] is computed in uint32_t. *)
Definition HasStakeMinAgeOrDepth (p : Params)
    (contextHeight contextTime utxoFromBlockHeight utxoFromBlockTime : Z) : bool :=
  if negb (NetworkUpgradeActive p contextHeight UPGRADE_V3_4)
  then u32 (utxoFromBlockTime + nStakeMinAge p) <=? contextTime
  else nStakeMinDepth p <=? contextHeight - utxoFromBlockHeight.

(** ** The networks *)

Definition mainUpgrades (idx : UpgradeIndex) : Z :=
  match idx with
  | BASE_NETWORK => ALWAYS_ACTIVE
  | UPGRADE_TESTDUMMY => NO_ACTIVATION_HEIGHT
  | UPGRADE_POS => 501
  | UPGRADE_POS_V2 => 1774000
  | UPGRADE_ZC => 1
  | UPGRADE_ZC_V2 => INT_MAX
  | UPGRADE_BIP65 => INT_MAX
  | UPGRADE_ZC_PUBLIC => INT_MAX
  | UPGRADE_V3_4 => INT_MAX
  | UPGRADE_V4_0 => INT_MAX
  | UPGRADE_V5_0 => 1780000
  end.

Definition mainParams : Params := {|
  hashGenesisBlock := le_bytes 32 0x00000e697a1e963f6ae8288419ffb0d59de9d232bac8efda8c6491d1c31e3139;
  powLimit := bu_shr (bu_not (bu_zero 8)) 20;
  posLimitV1 := bu_shr (bu_not (bu_zero 8)) 24;
  posLimitV2 := bu_shr (bu_not (bu_zero 8)) 20;
  nBudgetCycleBlocks := 43200;
  nBudgetFeeConfirmations := 6;
  nCoinbaseMaturity := 10;
  nFutureTimeDriftPoW := 7200;
  nFutureTimeDriftPoS := 180;
  nMasternodeCountDrift := 20;
  nMaxMoneyOut := 100000000 * COIN;
  nProposalEstablishmentTime := 60 * 60 * 24;
  nStakeMinAge := 60 * 60;
  nStakeMinDepth := 100;
  nTargetTimespan := 40 * 60;
  nTargetTimespanV2 := 30 * 60;
  nTargetSpacing := 1 * 60;
  nTimeSlotLength := 15;
  nMaxProposalPayments := 6;
  height_last_invalid_UTXO := INT_MAX;
  height_last_ZC_AccumCheckpoint := INT_MAX;
  ZC_MaxPublicSpendsPerTx := 637;
  ZC_MaxSpendsPerTx := 7;
  height_last_ZC_WrappedSerials := INT_MAX;
  nDeviantBadBlockTime := Some 1593294062;
  ZC_TimeStart := 1529589600;
  vUpgrades := mainUpgrades;
|}.

Definition testUpgrades (idx : UpgradeIndex) : Z :=
  match idx with
  | BASE_NETWORK => ALWAYS_ACTIVE
  | UPGRADE_TESTDUMMY => NO_ACTIVATION_HEIGHT
  | _ => 201
  end.

Definition testParams : Params := {|
  hashGenesisBlock := le_bytes 32 0x0000041e482b9b9691d98eefb48473405c0b8ec31b76df3797c74a78680ef818;
  powLimit := bu_shr (bu_not (bu_zero 8)) 20;
  posLimitV1 := bu_shr (bu_not (bu_zero 8)) 24;
  posLimitV2 := bu_shr (bu_not (bu_zero 8)) 20;
  nBudgetCycleBlocks := 144;
  nBudgetFeeConfirmations := 3;
  nCoinbaseMaturity := 15;
  nFutureTimeDriftPoW := 7200;
  nFutureTimeDriftPoS := 180;
  nMasternodeCountDrift := 20;
  nMaxMoneyOut := 21000000 * COIN;
  nProposalEstablishmentTime := 60 * 5;
  nStakeMinAge := 60 * 60;
  nStakeMinDepth := 100;
  nTargetTimespan := 40 * 60;
  nTargetTimespanV2 := 30 * 60;
  nTargetSpacing := 1 * 60;
  nTimeSlotLength := 15;
  nMaxProposalPayments := 20;
  height_last_invalid_UTXO := -1;
  height_last_ZC_AccumCheckpoint := -1;
  ZC_MaxPublicSpendsPerTx := 637;
  ZC_MaxSpendsPerTx := 7;
  height_last_ZC_WrappedSerials := -1;
  nDeviantBadBlockTime := None;
  ZC_TimeStart := 1508214600;
  vUpgrades := testUpgrades;
|}.

(** The part of [CChainParams] that the modelled code reads. *)
Record CChainParams := { strNetworkID : string; consensus : Params }.
Definition IsRegTestNet (p : CChainParams) : bool := String.eqb (strNetworkID p) "regtest".
Definition mainChainParams : CChainParams := {| strNetworkID := "main"; consensus := mainParams |}.

(** ** Properties *)

Lemma NetworkUpgradeState_ok nHeight p idx :
  0 <= nHeight -> NetworkUpgradeState nHeight p idx = Ok (upgrade_state nHeight p idx).
Proof.
  intros H. unfold NetworkUpgradeState. by rewrite (proj2 (Z.leb_le 0 nHeight)).
Qed.

Lemma upgrade_active_ok nHeight p idx :
  0 <= nHeight -> upgrade_active nHeight p idx = Ok (NetworkUpgradeActive p nHeight idx).
Proof.
  intros H. unfold upgrade_active. rewrite NetworkUpgradeState_ok by done.
  unfold NetworkUpgradeActive. by rewrite (proj2 (Z.ltb_ge nHeight 0)) by lia.
Qed.

Lemma upgrade_active_iff nHeight p idx : 0 <= nHeight ->
  NetworkUpgradeActive p nHeight idx = true <->
  vUpgrades p idx <> NO_ACTIVATION_HEIGHT /\ vUpgrades p idx <= nHeight.
Proof.
  intros H. unfold NetworkUpgradeActive, upgrade_state.
  rewrite (proj2 (Z.ltb_ge nHeight 0)) by lia. rewrite bool_decide_eq_true.
  destruct (vUpgrades p idx =? NO_ACTIVATION_HEIGHT) eqn:E1; bool_to_prop;
    [split; [done|tauto]|].
  destruct (vUpgrades p idx <=? nHeight) eqn:E2; bool_to_prop; split; try done; lia.
Qed.

Lemma epoch_loop_spec nHeight p l : 0 <= nHeight ->
  epoch_loop nHeight p l =
  Ok (default BASE_NETWORK (find (NetworkUpgradeActive p nHeight) l)).
Proof.
  intros H. induction l as [|idx l IH]; [done|]. cbn [epoch_loop find].
  rewrite upgrade_active_ok by done. cbn [mbind outcome_bind].
  by destruct (NetworkUpgradeActive p nHeight idx).
Qed.

Lemma upgrades_complete idx : idx <> BASE_NETWORK -> In idx (drop 1 upgrades).
Proof. destruct idx; cbn; tauto. Qed.

Lemma upgrade_index_inj i j : upgrade_index i = upgrade_index j -> i = j.
Proof. by destruct i, j. Qed.

(** The first element found of a list sorted by a key has the least key. *)
Lemma find_first {A} (f : A -> bool) (R : A -> A -> Prop) l x :
  StronglySorted R l -> find f l = Some x ->
  f x = true /\ forall y, In y l -> f y = true -> y = x \/ R x y.
Proof.
  induction 1 as [|a l Hl IH Ha]; [done|]. cbn [find].
  destruct (f a) eqn:E.
  - intros [= <-]. split; [done|]. intros y [->|Hy] _; [by left|right].
    rewrite Forall_forall in Ha. apply Ha. by apply list_elem_of_In.
  - intros Hf. destruct (IH Hf) as [Hx Hy]. split; [done|]. intros y [<-|Hin] Hfy; [congruence|auto].
Qed.

Lemma find_none_forall {A} (f : A -> bool) l y : find f l = None -> In y l -> f y = false.
Proof. intros H. apply find_none. done. Qed.

(** [CurrentEpoch] does not fail at non-negative heights and returns the
    last active upgrade: it is active (or the base network), and every active
    upgrade other than the base network has an index at most its index. *)
Theorem CurrentEpoch_is_last_active (nHeight : Z) (p : Params) :
  0 <= nHeight ->
  exists e, CurrentEpoch nHeight p = Ok e /\
    (e = BASE_NETWORK \/ NetworkUpgradeActive p nHeight e = true) /\
    forall idx, NetworkUpgradeActive p nHeight idx = true -> upgrade_index idx <= upgrade_index e.
Proof.
  intros H. unfold CurrentEpoch. rewrite epoch_loop_spec by done.
  set (l := reverse (drop 1 upgrades)).
  assert (StronglySorted (fun i j => upgrade_index j <= upgrade_index i) l) as Hs
    by (repeat constructor; cbn; lia).
  assert (forall idx, idx <> BASE_NETWORK -> In idx l) as Hin
    by (intros idx Hi; apply list_elem_of_In, elem_of_reverse, list_elem_of_In, upgrades_complete, Hi).
  eexists. split; [done|].
  assert (forall idx, 0 <= upgrade_index idx) as Hpos by (intros []; cbn; lia).
  destruct (find _ l) as [e|] eqn:E; cbn [default from_option id].
  - destruct (find_first _ _ _ _ Hs E) as [He Hy]. split; [by right|].
    intros idx Hidx. destruct (decide (idx = BASE_NETWORK)) as [->|Hne]; [apply Hpos|].
    destruct (Hy idx (Hin _ Hne) Hidx) as [->|]; lia.
  - split; [by left|]. intros idx Hidx.
    destruct (decide (idx = BASE_NETWORK)) as [->|Hne]; [done|].
    rewrite (find_none_forall _ _ idx E (Hin _ Hne)) in Hidx. done.
Qed.

Lemma CurrentEpoch_is_last_active_witness :
  exists e, CurrentEpoch 1774000 mainParams = Ok e /\
    (e = BASE_NETWORK \/ NetworkUpgradeActive mainParams 1774000 e = true) /\
    forall idx, NetworkUpgradeActive mainParams 1774000 idx = true ->
      upgrade_index idx <= upgrade_index e.
Proof. apply (CurrentEpoch_is_last_active 1774000 mainParams). lia. Defined.

(** [IsActivationHeight] holds exactly at the first height, after height
    zero, at which an upgrade is active. *)
Theorem IsActivationHeight_first_active (nHeight : Z) (p : Params) (idx : UpgradeIndex) :
  1 <= nHeight -> idx <> BASE_NETWORK ->
  IsActivationHeight nHeight p idx =
  NetworkUpgradeActive p nHeight idx && negb (NetworkUpgradeActive p (nHeight - 1) idx).
Proof.
  intros H Hne. unfold IsActivationHeight. rewrite bool_decide_eq_false_2 by done.
  apply eq_true_iff_eq. rewrite !andb_true_iff, negb_true_iff, upgrade_active_iff by lia.
  rewrite <- not_true_iff_false, upgrade_active_iff by lia.
  rewrite Z.leb_le, Z.eqb_eq. unfold NO_ACTIVATION_HEIGHT. lia.
Qed.

Lemma IsActivationHeight_first_active_witness :
  IsActivationHeight 501 mainParams UPGRADE_POS =
  NetworkUpgradeActive mainParams 501 UPGRADE_POS
    && negb (NetworkUpgradeActive mainParams (501 - 1) UPGRADE_POS).
Proof. apply (IsActivationHeight_first_active 501 mainParams UPGRADE_POS); [lia|discriminate]. Defined.

(** On the main network the upgrades are not activated in the order of
    their indices, which the comment of [UpgradeIndex] requires: at the genesis
    block [NextActivationHeight] announces height 501, although the ZC upgrade
    activates at height 1, and from height 1780000 the current epoch is V5_0
    while five earlier upgrades are still pending. *)
Theorem main_upgrades_out_of_order :
  NextEpoch 0 mainParams = Some UPGRADE_POS /\
  NextActivationHeight 0 mainParams = Some 501 /\
  IsActivationHeight 1 mainParams UPGRADE_ZC = true /\
  CurrentEpoch 1780000 mainParams = Ok UPGRADE_V5_0 /\
  Forall (fun idx => upgrade_state 1780000 mainParams idx = UPGRADE_PENDING)
    [UPGRADE_ZC_V2; UPGRADE_BIP65; UPGRADE_ZC_PUBLIC; UPGRADE_V3_4; UPGRADE_V4_0].
Proof. repeat split_and; try reflexivity. repeat constructor. Qed.
