(* ===== verification/Chain.v ===== *)
(** * The block tree and the active chain (src/src/chain.h, chain.cpp)

    Block index entries live in a store indexed by pointers; [pprev] and
    [pskip] are pointers into it and dereferencing a null or dangling pointer
    is undefined ([Abort]).  [tree_ok] is the invariant of the store: heights
    count the [pprev] steps to a genesis block and [pskip] points to the
    ancestor at [GetSkipHeight].  The specification of every navigation is
    [iter_prev], the plain walk along [pprev]. *)
From stdpp Require Import sorting.
From S2P Require Import Prelude Serialize ArithUint256 Params Hash.

Notation ptr := (option positive).

(** [CBlockIndex]; [blockHash] is [*phashBlock]. *)
Record CBlockIndex := BlockIndex {
  blockHash : list Z;
  pprev : ptr;
  pskip : ptr;
  nHeight : Z;
  nFile : Z;
  nDataPos : Z;
  nUndoPos : Z;
  nStatus : Z;
  nFlags : Z;
  vStakeModifier : list Z;
  nSaplingValue : Z;
  nChainSaplingValue : option Z;
  nVersion : Z;
  nTime : Z;
  nBits : Z;
  nChainWork : bu;
  nTx : Z;
  nChainTx : Z;
  hashMerkleRoot : list Z;
  hashFinalSaplingRoot : list Z;
  nNonce : Z;
  nAccumulatorCheckpoint : list Z;
  nSequenceId : Z;
}.

Notation store := (gmap positive CBlockIndex).

Definition deref (st : store) (p : ptr) : outcome unit CBlockIndex :=
  match p with
  | Some id => match st !! id with Some b => Ok b | None => Abort end
  | None => Abort
  end.

Definition set_pskip (b : CBlockIndex) (p : ptr) : CBlockIndex :=
  BlockIndex (blockHash b) (pprev b) p (nHeight b) (nFile b) (nDataPos b) (nUndoPos b) (nStatus b)
    (nFlags b) (vStakeModifier b) (nSaplingValue b) (nChainSaplingValue b) (nVersion b) (nTime b) (nBits b)
    (nChainWork b) (nTx b) (nChainTx b) (hashMerkleRoot b) (hashFinalSaplingRoot b)
    (nNonce b) (nAccumulatorCheckpoint b) (nSequenceId b).
Definition set_nStatus (b : CBlockIndex) (x : Z) : CBlockIndex :=
  BlockIndex (blockHash b) (pprev b) (pskip b) (nHeight b) (nFile b) (nDataPos b) (nUndoPos b) x
    (nFlags b) (vStakeModifier b) (nSaplingValue b) (nChainSaplingValue b) (nVersion b) (nTime b) (nBits b)
    (nChainWork b) (nTx b) (nChainTx b) (hashMerkleRoot b) (hashFinalSaplingRoot b)
    (nNonce b) (nAccumulatorCheckpoint b) (nSequenceId b).
Definition set_stake (b : CBlockIndex) (flags : Z) (m : list Z) : CBlockIndex :=
  BlockIndex (blockHash b) (pprev b) (pskip b) (nHeight b) (nFile b) (nDataPos b) (nUndoPos b) (nStatus b)
    flags m (nSaplingValue b) (nChainSaplingValue b) (nVersion b) (nTime b) (nBits b)
    (nChainWork b) (nTx b) (nChainTx b) (hashMerkleRoot b) (hashFinalSaplingRoot b)
    (nNonce b) (nAccumulatorCheckpoint b) (nSequenceId b).
Definition set_chainSapling (b : CBlockIndex) (v : option Z) : CBlockIndex :=
  BlockIndex (blockHash b) (pprev b) (pskip b) (nHeight b) (nFile b) (nDataPos b) (nUndoPos b) (nStatus b)
    (nFlags b) (vStakeModifier b) (nSaplingValue b) v (nVersion b) (nTime b) (nBits b)
    (nChainWork b) (nTx b) (nChainTx b) (hashMerkleRoot b) (hashFinalSaplingRoot b)
    (nNonce b) (nAccumulatorCheckpoint b) (nSequenceId b).

(** ** Status and flags *)

Definition BLOCK_VALID_HEADER : Z := 1.
Definition BLOCK_VALID_TREE : Z := 2.
Definition BLOCK_VALID_TRANSACTIONS : Z := 3.
Definition BLOCK_VALID_CHAIN : Z := 4.
Definition BLOCK_VALID_SCRIPTS : Z := 5.
Definition BLOCK_VALID_MASK : Z :=
  Z.lor (Z.lor (Z.lor (Z.lor BLOCK_VALID_HEADER BLOCK_VALID_TREE) BLOCK_VALID_TRANSACTIONS)
    BLOCK_VALID_CHAIN) BLOCK_VALID_SCRIPTS.
Definition BLOCK_HAVE_DATA : Z := 8.
Definition BLOCK_HAVE_UNDO : Z := 16.
Definition BLOCK_FAILED_VALID : Z := 32.
Definition BLOCK_FAILED_CHILD : Z := 64.
Definition BLOCK_FAILED_MASK : Z := Z.lor BLOCK_FAILED_VALID BLOCK_FAILED_CHILD.
Definition BLOCK_PROOF_OF_STAKE : Z := 1.
Definition BLOCK_STAKE_ENTROPY : Z := 2.
Definition BLOCK_STAKE_MODIFIER : Z := 4.

Definition IsProofOfStake (b : CBlockIndex) : bool := negb (Z.land (nFlags b) BLOCK_PROOF_OF_STAKE =? 0).
Definition GeneratedStakeModifier (b : CBlockIndex) : bool :=
  negb (Z.land (nFlags b) BLOCK_STAKE_MODIFIER =? 0).

(** [CDiskBlockPos]: (nFile, nPos); the null position is (-1, 0). *)
Definition GetBlockPos (b : CBlockIndex) : Z * Z :=
  if negb (Z.land (nStatus b) BLOCK_HAVE_DATA =? 0) then (nFile b, nDataPos b) else (-1, 0).
Definition GetUndoPos (b : CBlockIndex) : Z * Z :=
  if negb (Z.land (nStatus b) BLOCK_HAVE_UNDO =? 0) then (nFile b, nUndoPos b) else (-1, 0).

(** [~x] on an int *)
Definition IsValid (b : CBlockIndex) (nUpTo : Z) : outcome unit bool :=
  _ ← cassert (Z.land nUpTo (Z.lnot BLOCK_VALID_MASK) =? 0);
  if negb (Z.land (nStatus b) BLOCK_FAILED_MASK =? 0) then Ok false
  else Ok (nUpTo <=? Z.land (nStatus b) BLOCK_VALID_MASK).

(** The updated entry and whether the validity was changed. *)
Definition RaiseValidity (b : CBlockIndex) (nUpTo : Z) : outcome unit (CBlockIndex * bool) :=
  _ ← cassert (Z.land nUpTo (Z.lnot BLOCK_VALID_MASK) =? 0);
  if negb (Z.land (nStatus b) BLOCK_FAILED_MASK =? 0) then Ok (b, false)
  else if Z.land (nStatus b) BLOCK_VALID_MASK <? nUpTo
  then Ok (set_nStatus b (Z.lor (Z.land (nStatus b) (Z.lnot BLOCK_VALID_MASK)) nUpTo), true)
  else Ok (b, false).

Definition SetChainSaplingValue (st : store) (b : CBlockIndex) : outcome unit CBlockIndex :=
  match pprev b with
  | Some _ =>
      prev ← deref st (pprev b);
      match nChainSaplingValue prev with
      | Some v =>
          if bool_decide (in_s 64 (v + nSaplingValue b))
          then Ok (set_chainSapling b (Some (v + nSaplingValue b))) else Abort
      | None => Ok (set_chainSapling b None)
      end
  | None => Ok (set_chainSapling b (Some (nSaplingValue b)))
  end.

(** ** Stake modifiers *)

(** [GetBlockHash().GetCheapHash() & 1] *)
Definition GetStakeEntropyBit (b : CBlockIndex) : Z := Z.land (ReadLE64 (blockHash b)) 1.
Definition SetStakeEntropyBit (b : CBlockIndex) (nEntropyBit : Z) : CBlockIndex * bool :=
  if 1 <? nEntropyBit then (b, false)
  else (set_stake b (Z.lor (nFlags b) (if nEntropyBit =? 0 then 0 else BLOCK_STAKE_ENTROPY))
          (vStakeModifier b), true).
Definition SetStakeModifierV1 (b : CBlockIndex) (nStakeModifier : Z) (fGenerated : bool) : CBlockIndex :=
  set_stake b (if fGenerated then Z.lor (nFlags b) BLOCK_STAKE_MODIFIER else nFlags b)
    (WriteLE64 nStakeModifier).
Definition SetStakeModifierV2 (b : CBlockIndex) (nStakeModifier : list Z) : CBlockIndex :=
  set_stake b (nFlags b) nStakeModifier.
(** The [memcpy]s write [vStakeModifier.size()] bytes into the result: more
    than it holds is undefined, and the bytes a short modifier leaves are
    uninitialised for the 64-bit result and zero for the uint256. *)
Definition GetStakeModifierV1 (p : Params) (b : CBlockIndex) : outcome unit Z :=
  if bool_decide (vStakeModifier b = []) || NetworkUpgradeActive p (nHeight b) UPGRADE_V3_4 then Ok 0
  else if bool_decide (length (vStakeModifier b) = 8%nat) then Ok (ReadLE64 (vStakeModifier b))
  else Abort.
Definition GetStakeModifierV2 (p : Params) (b : CBlockIndex) : outcome unit (list Z) :=
  if bool_decide (vStakeModifier b = []) || negb (NetworkUpgradeActive p (nHeight b) UPGRADE_V3_4)
  then Ok (replicate 32 0)
  else if bool_decide (length (vStakeModifier b) <= 32)%nat
  then Ok (vStakeModifier b ++ replicate (32 - length (vStakeModifier b)) 0)
  else Abort.
(** [SetNewStakeModifier(prevoutId)] *)
Definition SetNewStakeModifierV2 (p : Params) (st : store) (b : CBlockIndex) (prevoutId : list Z)
    : outcome unit CBlockIndex :=
  if negb (NetworkUpgradeActive p (nHeight b) UPGRADE_V3_4) then Ok b
  else match pprev b with
  | None => Throw
  | Some _ =>
      prev ← deref st (pprev b);
      m ← GetStakeModifierV2 p prev;
      Ok (SetStakeModifierV2 b (Hash [prevoutId; m]))
  end.

(** ** Times *)

Definition nMedianTimeSpan : nat := 11.

(** The times of at most [n] entries, from [pindex] backwards. *)
Fixpoint median_times (st : store) (n : nat) (pindex : ptr) : outcome unit (list Z) :=
  match n, pindex with
  | S n, Some _ =>
      b ← deref st pindex;
      l ← median_times st n (pprev b);
      Ok (nTime b :: l)
  | _, _ => Ok []
  end.
Definition GetMedianTimePast (st : store) (this : positive) : outcome unit Z :=
  l ← median_times st nMedianTimeSpan (Some this);
  let sorted := merge_sort Z.le (reverse l) in
  rd sorted (zlen l / 2).

Definition MaxFutureBlockTime (p : Params) (adjustedTime : Z) (b : CBlockIndex) : Z :=
  adjustedTime + FutureBlockTimeDrift p (nHeight b + 1).
Definition MinPastBlockTime (p : Params) (st : store) (this : positive) : outcome unit Z :=
  b ← deref st (Some this);
  if negb (IsTimeProtocolV2 p (nHeight b + 1)) then GetMedianTimePast st this
  else if nHeight b + 1 =? vUpgrades p UPGRADE_V4_0
  then Ok (nTime b - FutureBlockTimeDrift p (nHeight b) + FutureBlockTimeDrift p (nHeight b + 1))
  else Ok (nTime b).

(** ** The skip list *)

Definition InvertLowestOne (n : Z) : Z := Z.land n (n - 1).

Definition GetSkipHeight (height : Z) : Z :=
  if height <? 2 then 0
  else if negb (Z.land height 1 =? 0)
  then InvertLowestOne (InvertLowestOne (height - 1)) + 1
  else InvertLowestOne height.

(** Every step lowers [heightWalk], so [heightWalk - height] is enough fuel. *)
Fixpoint ancestor_walk (st : store) (height : Z) (fuel : nat) (pindexWalk : ptr) (heightWalk : Z)
    : outcome unit ptr :=
  if heightWalk <=? height then Ok pindexWalk
  else match fuel with
  | O => Abort
  | S fuel =>
      let heightSkip := GetSkipHeight heightWalk in
      let heightSkipPrev := GetSkipHeight (heightWalk - 1) in
      b ← deref st pindexWalk;
      if (heightSkip =? height)
         || ((height <? heightSkip)
             && negb ((heightSkipPrev <? heightSkip - 2) && (height <=? heightSkipPrev)))
      then ancestor_walk st height fuel (pskip b) heightSkip
      else ancestor_walk st height fuel (pprev b) (heightWalk - 1)
  end.

Definition GetAncestor (st : store) (this : positive) (height : Z) : outcome unit ptr :=
  b ← deref st (Some this);
  if (nHeight b <? height) || (height <? 0) then Ok None
  else ancestor_walk st height (Z.to_nat (nHeight b - height)) (Some this) (nHeight b).

Definition BuildSkip (st : store) (this : positive) : outcome unit store :=
  b ← deref st (Some this);
  match pprev b with
  | None => Ok st
  | Some prev =>
      s ← GetAncestor st prev (GetSkipHeight (nHeight b));
      Ok (<[this := set_pskip b s]> st)
  end.

(** The loop of [LastCommonAncestor]; both pointers go back one step. *)
Fixpoint common_loop (st : store) (fuel : nat) (pa pb : ptr) : outcome unit ptr :=
  match pa, pb with
  | Some _, Some _ =>
      if bool_decide (pa = pb) then Ok pa
      else match fuel with
      | O => Abort
      | S fuel =>
          a ← deref st pa;
          b ← deref st pb;
          common_loop st fuel (pprev a) (pprev b)
      end
  | _, _ => _ ← cassert (bool_decide (pa = pb)); Ok pa
  end.

Definition LastCommonAncestor (st : store) (pa pb : positive) : outcome unit ptr :=
  a ← deref st (Some pa);
  b ← deref st (Some pb);
  p ←
    (if nHeight b <? nHeight a then
       pa' ← GetAncestor st pa (nHeight b); Ok (pa', Some pb)
     else if nHeight a <? nHeight b then
       pb' ← GetAncestor st pb (nHeight a); Ok (Some pa, pb')
     else Ok (Some pa, Some pb));
  common_loop st (Z.to_nat (nHeight a) + 1) p.1 p.2.

(** ** The active chain *)

(** [CChain::vChain] *)
Notation CChain := (list ptr).

Definition Height (c : CChain) : Z := zlen c - 1.
Definition Genesis (c : CChain) : ptr := default None (head c).
Definition chain_at (c : CChain) (h : Z) : ptr :=
  if (h <? 0) || (zlen c <=? h) then None else default None (c !! Z.to_nat h).

(** [Tip(fProofOfStake)]; the walk back stops at the genesis block. *)
Fixpoint tip_pos (st : store) (fuel : nat) (pindex : ptr) : outcome unit ptr :=
  match pindex with
  | None => Ok None
  | Some _ =>
      b ← deref st pindex;
      if bool_decide (pprev b = None) || IsProofOfStake b then Ok pindex
      else match fuel with
      | O => Abort
      | S fuel => tip_pos st fuel (pprev b)
      end
  end.
Definition Tip (st : store) (c : CChain) (fProofOfStake : bool) : outcome unit ptr :=
  match last c with
  | None => Ok None
  | Some pindex => if fProofOfStake then tip_pos st (length c) pindex else Ok pindex
  end.

Definition Contains (st : store) (c : CChain) (pindex : ptr) : outcome unit bool :=
  b ← deref st pindex;
  Ok (bool_decide (chain_at c (nHeight b) = pindex)).
Definition Next (st : store) (c : CChain) (pindex : ptr) : outcome unit ptr :=
  b ← deref st pindex;
  i ← Contains st c pindex;
  if i : bool then Ok (chain_at c (nHeight b + 1)) else Ok None.

(** [operator==]: it reads the last elements even when both are empty. *)
Definition chain_eq (a b : CChain) : outcome unit bool :=
  if bool_decide (length a = length b) then
    x ← rd a (zlen a - 1);
    y ← rd b (zlen b - 1);
    Ok (bool_decide (x = y))
  else Ok false.

(** [vChain.resize(n)] *)
Definition resize (n : nat) (c : CChain) : CChain := take n c ++ replicate (n - length c) None.

Fixpoint settip_loop (st : store) (fuel : nat) (c : CChain) (pindex : ptr) : outcome unit CChain :=
  match pindex with
  | None => Ok c
  | Some _ =>
      b ← deref st pindex;
      q ← rd c (nHeight b);
      if bool_decide (q = pindex) then Ok c
      else match fuel with
      | O => Abort
      | S fuel => settip_loop st fuel (<[Z.to_nat (nHeight b) := pindex]> c) (pprev b)
      end
  end.
Definition SetTip (st : store) (c : CChain) (pindex : ptr) : outcome unit CChain :=
  match pindex with
  | None => Ok []
  | Some _ =>
      b ← deref st pindex;
      let n := Z.to_nat (nHeight b + 1) in
      settip_loop st n (resize n c) pindex
  end.

Fixpoint fork_loop (st : store) (c : CChain) (fuel : nat) (pindex : ptr) : outcome unit ptr :=
  match pindex with
  | None => Ok None
  | Some _ =>
      i ← Contains st c pindex;
      if i : bool then Ok pindex
      else match fuel with
      | O => Abort
      | S fuel => b ← deref st pindex; fork_loop st c fuel (pprev b)
      end
  end.
Definition FindFork (st : store) (c : CChain) (pindex : ptr) : outcome unit ptr :=
  match pindex with
  | None => Ok None
  | Some id =>
      b ← deref st pindex;
      p ← (if Height c <? nHeight b then GetAncestor st id (Height c) else Ok pindex);
      fork_loop st c (length c) p
  end.

(** [GetLocator]; [nStep] is an int, its overflow is undefined. *)
Fixpoint locator_loop (st : store) (c : CChain) (fuel : nat) (pindex : ptr) (nStep : Z)
    (vHave : list (list Z)) : outcome unit (list (list Z)) :=
  match pindex with
  | None => Ok vHave
  | Some id =>
      b ← deref st pindex;
      let vHave := vHave ++ [blockHash b] in
      if nHeight b =? 0 then Ok vHave
      else match fuel with
      | O => Abort
      | S fuel =>
          let h := Z.max (nHeight b - nStep) 0 in
          i ← Contains st c pindex;
          next ← (if i : bool then Ok (chain_at c h) else GetAncestor st id h);
          if bool_decide (10 < length vHave)%nat then
            if nStep * 2 <? 2 ^ 31 then locator_loop st c fuel next (nStep * 2) vHave else Abort
          else locator_loop st c fuel next nStep vHave
      end
  end.
Definition GetLocator (st : store) (c : CChain) (pindex : ptr) : outcome unit (list (list Z)) :=
  p ← (match pindex with None => Tip st c false | Some _ => Ok pindex end);
  match p with
  | None => Ok []
  | Some _ => b ← deref st p; locator_loop st c (Z.to_nat (nHeight b)) p 1 []
  end.

(** ** Block file statistics *)

Record CBlockFileInfo := BlockFileInfo {
  nBlocks : Z; nHeightFirst : Z; nHeightLast : Z; nTimeFirst : Z; nTimeLast : Z }.

Definition BlockFileInfo_null : CBlockFileInfo := BlockFileInfo 0 0 0 0 0.

Definition AddBlock (f : CBlockFileInfo) (nHeightIn nTimeIn : Z) : CBlockFileInfo :=
  BlockFileInfo
    (u32 (nBlocks f + 1))
    (if (nBlocks f =? 0) || (nHeightIn <? nHeightFirst f) then nHeightIn else nHeightFirst f)
    (if nHeightLast f <? nHeightIn then nHeightIn else nHeightLast f)
    (if (nBlocks f =? 0) || (nTimeIn <? nTimeFirst f) then nTimeIn else nTimeFirst f)
    (if nTimeLast f <? nTimeIn then nTimeIn else nTimeLast f).

(** ** The specification: walking along [pprev] *)

Fixpoint iter_prev (st : store) (n : nat) (p : ptr) : ptr :=
  match n with
  | O => p
  | S n =>
      match p with
      | Some id => match st !! id with Some b => iter_prev st n (pprev b) | None => None end
      | None => None
      end
  end.

(** Heights and predecessors are consistent. *)
Record tree_base (st : store) : Prop := {
  tree_height : forall id b, st !! id = Some b -> 0 <= nHeight b < 2 ^ 31;
  tree_prev : forall id b, st !! id = Some b ->
    match pprev b with
    | None => nHeight b = 0
    | Some p => exists b', st !! p = Some b' /\ nHeight b = nHeight b' + 1
    end;
}.

(** The skip pointer of an entry is the ancestor at [GetSkipHeight]. *)
Definition skip_ok (st : store) (id : positive) : Prop :=
  forall b, st !! id = Some b -> pprev b <> None ->
    pskip b = iter_prev st (Z.to_nat (nHeight b - GetSkipHeight (nHeight b))) (Some id).

Definition tree_ok (st : store) : Prop := tree_base st /\ forall id, skip_ok st id.

(** [q] is [p] or one of its predecessors. *)
Definition is_ancestor (st : store) (q p : positive) : Prop :=
  exists n, iter_prev st n (Some p) = Some q.

Lemma InvertLowestOne_bounds n : 0 <= n -> 0 <= InvertLowestOne n <= n /\ (1 <= n -> InvertLowestOne n < n).
Proof.
  intros Hn. unfold InvertLowestOne. split.
  - split; [apply Z.land_nonneg; lia|].
    destruct (decide (n = 0)) as [->|]; [done|].
    apply land_le_l; lia.
  - intros H1. pose proof (land_le_r n (n - 1) ltac:(lia) ltac:(lia)). lia.
Qed.

Lemma GetSkipHeight_bounds h : 1 <= h -> 0 <= GetSkipHeight h < h.
Proof.
  intros Hh. unfold GetSkipHeight. destruct (h <? 2) eqn:E; bool_to_prop; [lia|].
  destruct (negb (Z.land h 1 =? 0)).
  - destruct (InvertLowestOne_bounds (h - 1) ltac:(lia)) as [H1 H2].
    destruct (InvertLowestOne_bounds (InvertLowestOne (h - 1)) ltac:(lia)) as [H3 _]. lia.
  - destruct (InvertLowestOne_bounds h ltac:(lia)) as [H1 H2]. lia.
Qed.

Lemma iter_prev_None st n : iter_prev st n None = None.
Proof. by destruct n. Qed.

Lemma iter_prev_add st n m p : iter_prev st (n + m) p = iter_prev st m (iter_prev st n p).
Proof.
  revert p; induction n as [|n IH]; intros p; [done|]. cbn [Nat.add iter_prev].
  destruct p as [id|]; [|by rewrite iter_prev_None].
  destruct (st !! id); [apply IH|by rewrite iter_prev_None].
Qed.

Section tree.
Context (st : store) (Hbase : tree_base st).

Lemma iter_prev_height n id b :
  st !! id = Some b -> Z.of_nat n <= nHeight b ->
  exists id' b', iter_prev st n (Some id) = Some id' /\ st !! id' = Some b' /\
    nHeight b' = nHeight b - Z.of_nat n.
Proof.
  revert id b; induction n as [|n IH]; intros id b Hid Hn.
  - exists id, b. repeat split; [done|lia].
  - cbn [iter_prev]. rewrite Hid. pose proof (tree_prev st Hbase id b Hid) as Hp.
    destruct (pprev b) as [p|]; [|lia]. destruct Hp as (b' & Hb' & Hh).
    destruct (IH p b' Hb' ltac:(lia)) as (id' & b'' & E1 & E2 & E3). exists id', b''.
    repeat split; [done|done|lia].
Qed.

(** The walk ends after the genesis block. *)
Lemma iter_prev_end id b : st !! id = Some b ->
  iter_prev st (S (Z.to_nat (nHeight b))) (Some id) = None.
Proof.
  intros Hid. pose proof (tree_height st Hbase id b Hid) as Hr.
  rewrite <- Nat.add_1_r, iter_prev_add.
  destruct (iter_prev_height (Z.to_nat (nHeight b)) id b Hid ltac:(lia)) as (g & bg & -> & Hg & Hh).
  cbn [iter_prev]. rewrite Hg. pose proof (tree_prev st Hbase g bg Hg) as Hp.
  destruct (pprev bg); [|done]. destruct Hp as (b' & Hb' & E).
  pose proof (tree_height st Hbase _ _ Hb'). lia.
Qed.

Lemma ancestor_walk_spec height fuel id b :
  st !! id = Some b -> 0 <= height <= nHeight b -> nHeight b - height <= Z.of_nat fuel ->
  (forall id' b', st !! id' = Some b' -> nHeight b' <= nHeight b -> skip_ok st id') ->
  ancestor_walk st height fuel (Some id) (nHeight b)
  = Ok (iter_prev st (Z.to_nat (nHeight b - height)) (Some id)).
Proof.
  revert id b; induction fuel as [|fuel IH]; intros id b Hid Hh Hf Hskip; cbn [ancestor_walk].
  - rewrite (proj2 (Z.leb_le _ _)) by lia. by replace (nHeight b - height) with 0 by lia.
  - destruct (nHeight b <=? height) eqn:E; bool_to_prop.
    { by replace (nHeight b - height) with 0 by lia. }
    cbn [deref]. rewrite Hid. cbn [mbind outcome_bind].
    pose proof (GetSkipHeight_bounds (nHeight b) ltac:(lia)) as Hs.
    set (s := GetSkipHeight (nHeight b)) in *.
    pose proof (tree_prev st Hbase id b Hid) as Hp.
    destruct (pprev b) as [p|] eqn:Ep; [|lia]. destruct Hp as (bp & Hbp & Hhp).
    match goal with |- context [if ?c then _ else _] => destruct c eqn:Ec end.
    + assert (height <= s) as Hle.
      { apply orb_true_iff in Ec as [Ec|Ec]; bool_to_prop; lia. }
      rewrite (Hskip id b Hid ltac:(lia) b Hid) by congruence. fold s.
      destruct (iter_prev_height (Z.to_nat (nHeight b - s)) id b Hid ltac:(lia)) as (id' & b' & E1 & E2 & E3).
      rewrite E1. replace s with (nHeight b') at 1 by lia.
      rewrite IH; [|done|lia|lia|].
      * rewrite <- E1, <- iter_prev_add. do 2 f_equal. lia.
      * intros i bi Hi Hbi. apply (Hskip i bi Hi). lia.
    + replace (nHeight b - 1) with (nHeight bp) by lia.
      rewrite IH; [|done|lia|lia|].
      * replace (Z.to_nat (nHeight b - height)) with (S (Z.to_nat (nHeight bp - height))) by lia.
        cbn [iter_prev]. by rewrite Hid, Ep.
      * intros i bi Hi Hbi. apply (Hskip i bi Hi). lia.
Qed.

Lemma GetAncestor_spec id b height :
  st !! id = Some b ->
  (forall id' b', st !! id' = Some b' -> nHeight b' <= nHeight b -> skip_ok st id') ->
  GetAncestor st id height =
  Ok (if (nHeight b <? height) || (height <? 0) then None
      else iter_prev st (Z.to_nat (nHeight b - height)) (Some id)).
Proof.
  intros Hid Hskip. unfold GetAncestor. cbn [deref]. rewrite Hid. cbn [mbind outcome_bind].
  destruct ((nHeight b <? height) || (height <? 0)) eqn:E; [done|]. bool_to_prop.
  apply ancestor_walk_spec; [done|lia|lia|done].
Qed.

(** An ancestor is in the store, at a height that counts the steps. *)
Lemma iter_prev_inv n id b q : st !! id = Some b -> iter_prev st n (Some id) = Some q ->
  Z.of_nat n <= nHeight b /\ exists b', st !! q = Some b' /\ nHeight b' = nHeight b - Z.of_nat n.
Proof.
  intros Hid Hq. pose proof (tree_height st Hbase id b Hid) as Hr.
  destruct (Z.le_gt_cases (Z.of_nat n) (nHeight b)) as [Hle|Hgt].
  - split; [done|]. destruct (iter_prev_height n id b Hid Hle) as (id' & b' & E1 & E2 & E3).
    rewrite E1 in Hq. injection Hq as <-. eauto.
  - exfalso. replace n with (S (Z.to_nat (nHeight b)) + (n - S (Z.to_nat (nHeight b))))%nat in Hq by lia.
    rewrite iter_prev_add, (iter_prev_end id b Hid), iter_prev_None in Hq. done.
Qed.

(** The loop of [LastCommonAncestor] stops at the first step that meets. *)
Lemma common_loop_spec fuel x y bx by' :
  st !! x = Some bx -> st !! y = Some by' -> nHeight bx = nHeight by' ->
  nHeight bx < Z.of_nat fuel ->
  exists k, common_loop st fuel (Some x) (Some y) = Ok (iter_prev st k (Some x)) /\
    iter_prev st k (Some x) = iter_prev st k (Some y) /\
    forall j, (j < k)%nat -> iter_prev st j (Some x) <> iter_prev st j (Some y).
Proof.
  revert x y bx by'; induction fuel as [|fuel IH]; intros x y bx by' Hx Hy Hh Hf.
  { pose proof (tree_height st Hbase x bx Hx). lia. }
  cbn [common_loop]. case_bool_decide as Exy.
  { injection Exy as <-. exists O. split; [done|]. split; [done|]. lia. }
  cbn [deref]. rewrite Hx, Hy. cbn [mbind outcome_bind].
  pose proof (tree_prev st Hbase x bx Hx) as Px. pose proof (tree_prev st Hbase y by' Hy) as Py.
  pose proof (tree_height st Hbase x bx Hx).
  destruct (pprev bx) as [x'|] eqn:Epx.
  - destruct Px as (bx' & Hx' & Ehx). destruct (pprev by') as [y'|] eqn:Epy.
    2: { pose proof (tree_height st Hbase _ _ Hx'). lia. }
    destruct Py as (by2 & Hy' & Ehy).
    destruct (IH x' y' bx' by2 Hx' Hy' ltac:(lia) ltac:(lia)) as (k & E1 & E2 & E3).
    exists (S k). cbn [iter_prev]. rewrite Hx, Hy, Epx, Epy. split; [done|]. split; [done|].
    intros [|j] Hj; [cbn; congruence|]. cbn [iter_prev]. rewrite Hx, Hy, Epx, Epy. apply E3. lia.
  - destruct (pprev by') as [y'|] eqn:Epy.
    { destruct Py as (by2 & Hy' & Ehy). pose proof (tree_height st Hbase _ _ Hy'). lia. }
    exists 1%nat. cbn [iter_prev]. rewrite Hx, Hy, Epx, Epy.
    assert (common_loop st fuel None None = Ok None) as -> by by destruct fuel.
    split; [done|]. split; [done|]. intros [|j] Hj; [cbn; congruence|lia].
Qed.

(** A meeting point of two entries reached from [pa] and [pb]. *)
Lemma common_is_last pa pb ba bb i j x y k :
  st !! pa = Some ba -> st !! pb = Some bb ->
  iter_prev st i (Some pa) = Some x -> iter_prev st j (Some pb) = Some y ->
  nHeight ba - Z.of_nat i = nHeight bb - Z.of_nat j -> (i = O \/ j = O) ->
  iter_prev st k (Some x) = iter_prev st k (Some y) ->
  (forall n, (n < k)%nat -> iter_prev st n (Some x) <> iter_prev st n (Some y)) ->
  forall q, is_ancestor st q pa -> is_ancestor st q pb ->
    exists n, iter_prev st n (iter_prev st k (Some x)) = Some q.
Proof.
  intros Ha Hb Hx Hy Hh Hij Hk Hmin q [n Hn] [m Hm].
  destruct (iter_prev_inv n pa ba q Ha Hn) as (Hna & bq & Hq & Eq1).
  destruct (iter_prev_inv m pb bb q Hb Hm) as (Hmb & bq' & Hq' & Eq2).
  rewrite Hq in Hq'. injection Hq' as <-.
  assert (i <= n)%nat as Hin by lia. assert (m - j = n - i)%nat as Et by lia.
  replace n with (i + (n - i))%nat in Hn by lia. rewrite iter_prev_add, Hx in Hn.
  replace m with (j + (m - j))%nat in Hm by lia. rewrite iter_prev_add, Hy, Et in Hm.
  set (t := (n - i)%nat) in *.
  destruct (Nat.lt_ge_cases t k) as [Hlt|Hge]; [exfalso; apply (Hmin t Hlt); congruence|].
  exists (t - k)%nat. rewrite <- iter_prev_add. by replace (k + (t - k))%nat with t by lia.
Qed.
End tree.

(** Only [pprev] matters to the walk. *)
Lemma iter_prev_ext st st' n p :
  (forall id, pprev <$> (st !! id) = pprev <$> (st' !! id)) -> iter_prev st n p = iter_prev st' n p.
Proof.
  intros H. revert p; induction n as [|n IH]; intros p; [done|]. cbn [iter_prev].
  destruct p as [id|]; [|done]. specialize (H id).
  destruct (st !! id) as [b|], (st' !! id) as [b'|]; cbn in H; try done.
  injection H as ->. apply IH.
Qed.

(** The invariant as a check of every entry. *)
Definition entry_ok (st : store) (id : positive) (b : CBlockIndex) : bool :=
  bool_decide (0 <= nHeight b < 2 ^ 31) &&
  match pprev b with
  | None => nHeight b =? 0
  | Some p =>
      match st !! p with Some b' => nHeight b =? nHeight b' + 1 | None => false end &&
      bool_decide (pskip b =
        iter_prev st (Z.to_nat (nHeight b - GetSkipHeight (nHeight b))) (Some id))
  end.

Lemma tree_ok_check st : map_Forall (fun id b => entry_ok st id b = true) st -> tree_ok st.
Proof.
  intros H. assert (forall id b, st !! id = Some b -> entry_ok st id b = true) as He by done.
  split; [split|]; intros id b Hb; pose proof (He id b Hb) as Hc; unfold entry_ok in Hc;
    apply andb_true_iff in Hc as [Hh Hc]; bool_to_prop; [done| |].
  - destruct (pprev b) as [p|]; bool_to_prop; [|done].
    destruct (st !! p) as [b'|]; [|done]. bool_to_prop. eauto.
  - intros Hne. destruct (pprev b) as [p|]; [|done]. bool_to_prop. done.
Qed.

(** A tree of two branches: 1 - 2 - 3 - 4 and 1 - 2 - 5. *)
Definition example_entry (prev skip : ptr) (h t : Z) : CBlockIndex :=
  BlockIndex (le_bytes 32 h) prev skip h 0 0 0 0 0 [] 0 None 1 t 0x1e0ffff0
    (bu_of_uint64 8 0) 0 0 [] [] 0 [] 0.
Definition example_store : store := list_to_map
  [(1%positive, example_entry None None 0 100);
   (2%positive, example_entry (Some 1%positive) (Some 1%positive) 1 160);
   (3%positive, example_entry (Some 2%positive) (Some 1%positive) 2 220);
   (4%positive, example_entry (Some 3%positive) (Some 2%positive) 3 280);
   (5%positive, example_entry (Some 2%positive) (Some 1%positive) 2 230)].

Lemma example_store_ok : tree_ok example_store.
Proof. apply tree_ok_check. refine (bool_decide_unpack _ _). vm_compute. exact I. Qed.

(** C37: the skip list.  In a well-formed tree [GetAncestor] never follows a
    null or dangling pointer, terminates, and returns the entry that walking
    along [pprev] reaches at the requested height, or null when the height is
    out of range. *)
Theorem GetAncestor_is_pprev_walk (st : store) (id : positive) (b : CBlockIndex) (height : Z) :
  tree_ok st -> st !! id = Some b ->
  if decide (0 <= height <= nHeight b) then
    exists id' b', GetAncestor st id height = Ok (Some id') /\ st !! id' = Some b' /\
      nHeight b' = height /\
      iter_prev st (Z.to_nat (nHeight b - height)) (Some id) = Some id'
  else GetAncestor st id height = Ok None.
Proof.
  intros [Hbase Hskip] Hid. rewrite (GetAncestor_spec st Hbase id b) by done.
  destruct (decide (0 <= height <= nHeight b)) as [H|H].
  - rewrite (proj2 (Z.ltb_ge _ _)), (proj2 (Z.ltb_ge height 0)) by lia. cbn [orb].
    destruct (iter_prev_height st Hbase (Z.to_nat (nHeight b - height)) id b Hid ltac:(lia))
      as (id' & b' & E1 & E2 & E3).
    exists id', b'. rewrite E1. repeat split_and; try done. lia.
  - destruct (nHeight b <? height) eqn:E1, (height <? 0) eqn:E2; bool_to_prop; try done; lia.
Qed.

Lemma GetAncestor_is_pprev_walk_witness :
  exists b, example_store !! 4%positive = Some b /\
  if decide (0 <= 1 <= nHeight b) then
    exists id' b', GetAncestor example_store 4 1 = Ok (Some id') /\ example_store !! id' = Some b' /\
      nHeight b' = 1 /\
      iter_prev example_store (Z.to_nat (nHeight b - 1)) (Some 4%positive) = Some id'
  else GetAncestor example_store 4 1 = Ok None.
Proof.
  eexists. split; [reflexivity|].
  apply (GetAncestor_is_pprev_walk example_store 4 _ 1 example_store_ok). reflexivity.
Defined.

(** [BuildSkip] on an entry added to a well-formed tree terminates without
    undefined behaviour and restores the skip-list invariant; it changes no
    predecessor. *)
Theorem BuildSkip_restores_tree (st : store) (this : positive) (b : CBlockIndex) :
  tree_base st -> (forall id, id <> this -> skip_ok st id) -> st !! this = Some b ->
  exists st', BuildSkip st this = Ok st' /\ tree_ok st' /\
    forall n p, iter_prev st' n p = iter_prev st n p.
Proof.
  intros Hbase Hskip Hb. unfold BuildSkip. cbn [deref]. rewrite Hb. cbn [mbind outcome_bind].
  pose proof (tree_prev st Hbase this b Hb) as Hp. pose proof (tree_height st Hbase this b Hb) as Hr.
  destruct (pprev b) as [p|] eqn:Ep.
  2: { exists st. split; [done|]. split; [|done]. split; [done|]. intros id.
       destruct (decide (id = this)) as [->|]; [|by apply Hskip].
       intros b' Hb' Hne. congruence. }
  destruct Hp as (bp & Hbp & Eh). pose proof (tree_height st Hbase p bp Hbp) as Hrp.
  pose proof (GetSkipHeight_bounds (nHeight b) ltac:(lia)) as Hs.
  rewrite (GetAncestor_spec st Hbase p bp) by
    (try done; intros id' b' Hid' Hle; apply Hskip; intros ->; rewrite Hb in Hid'; injection Hid' as <-; lia).
  rewrite (proj2 (Z.ltb_ge _ _)), (proj2 (Z.ltb_ge (GetSkipHeight _) 0)) by lia.
  cbn [orb mbind outcome_bind]. set (s := iter_prev st _ _). set (st' := <[this := set_pskip b s]> st).
  assert (forall n q, iter_prev st' n q = iter_prev st n q) as Hext.
  { intros n q. apply iter_prev_ext. intros id. unfold st'.
    destruct (decide (id = this)) as [->|]; [by rewrite lookup_insert_eq, Hb|].
    by rewrite lookup_insert_ne by done. }
  exists st'. split; [done|]. split; [|done].
  assert (forall id b', st' !! id = Some b' ->
    exists b0, st !! id = Some b0 /\ pprev b0 = pprev b' /\ nHeight b0 = nHeight b') as Hold.
  { intros id b' Hl. unfold st' in Hl. destruct (decide (id = this)) as [->|].
    - rewrite lookup_insert_eq in Hl. injection Hl as <-. by exists b.
    - rewrite lookup_insert_ne in Hl by done. by exists b'. }
  assert (forall id b0, st !! id = Some b0 -> exists b', st' !! id = Some b' /\ nHeight b' = nHeight b0) as Hnew.
  { intros id b0 Hl. unfold st'. destruct (decide (id = this)) as [->|].
    - rewrite lookup_insert_eq. eexists. split; [done|]. cbn. congruence.
    - rewrite lookup_insert_ne by done. eauto. }
  split; [split|].
  - intros id b' Hl. destruct (Hold id b' Hl) as (b0 & Hl0 & _ & <-). by apply (tree_height st Hbase id).
  - intros id b' Hl. destruct (Hold id b' Hl) as (b0 & Hl0 & Epp & Ehh).
    pose proof (tree_prev st Hbase id b0 Hl0) as Hpv. rewrite Epp in Hpv.
    destruct (pprev b'); [|lia]. destruct Hpv as (bq & Hq & Ehq).
    destruct (Hnew _ _ Hq) as (bq' & Hq' & Ehq'). exists bq'. split; [done|lia].
  - intros id b' Hl Hne. rewrite Hext. destruct (decide (id = this)) as [->|Hid].
    + unfold st' in Hl. rewrite lookup_insert_eq in Hl. injection Hl as <-.
      cbn [pskip nHeight set_pskip]. unfold s.
      replace (Z.to_nat (nHeight b - GetSkipHeight (nHeight b)))
        with (S (Z.to_nat (nHeight bp - GetSkipHeight (nHeight b)))) by lia.
      cbn [iter_prev]. by rewrite Hb, Ep.
    + unfold st' in Hl. rewrite lookup_insert_ne in Hl by done. by apply Hskip.
Qed.

Lemma BuildSkip_restores_tree_witness :
  exists st', BuildSkip example_store 4 = Ok st' /\ tree_ok st' /\
    forall n p, iter_prev st' n p = iter_prev example_store n p.
Proof.
  apply (BuildSkip_restores_tree example_store 4
    (example_entry (Some 3%positive) (Some 2%positive) 3 280)).
  - apply example_store_ok.
  - intros id _. apply example_store_ok.
  - reflexivity.
Defined.

(** [LastCommonAncestor] of two entries terminates, never fails its
    assertion and returns their last common ancestor: an ancestor of both such
    that every common ancestor is an ancestor of it; null when they have
    none. *)
Theorem LastCommonAncestor_is_last (st : store) (pa pb : positive) :
  tree_ok st -> is_Some (st !! pa) -> is_Some (st !! pb) ->
  exists r, LastCommonAncestor st pa pb = Ok r /\
    match r with
    | Some q => is_ancestor st q pa /\ is_ancestor st q pb /\
        forall q', is_ancestor st q' pa -> is_ancestor st q' pb -> is_ancestor st q' q
    | None => forall q', is_ancestor st q' pa -> ~ is_ancestor st q' pb
    end.
Proof.
  intros [Hbase Hskip] [ba Ha] [bb Hb].
  pose proof (tree_height st Hbase _ _ Ha). pose proof (tree_height st Hbase _ _ Hb).
  assert (exists i j x y bx by', iter_prev st i (Some pa) = Some x /\ iter_prev st j (Some pb) = Some y /\
    st !! x = Some bx /\ st !! y = Some by' /\ nHeight bx = nHeight by' /\ nHeight bx <= nHeight ba /\
    nHeight ba - Z.of_nat i = nHeight bb - Z.of_nat j /\ (i = O \/ j = O) /\
    LastCommonAncestor st pa pb = common_loop st (Z.to_nat (nHeight ba) + 1) (Some x) (Some y))
    as (i & j & x & y & bx & by' & Hi & Hj & Hx & Hy & Hxy & Hle & Hij & Hz & ->).
  { unfold LastCommonAncestor. cbn [deref]. rewrite Ha, Hb. cbn [mbind outcome_bind].
    destruct (nHeight bb <? nHeight ba) eqn:E1; bool_to_prop.
    - rewrite (GetAncestor_spec st Hbase pa ba) by done.
      rewrite (proj2 (Z.ltb_ge _ _)), (proj2 (Z.ltb_ge (nHeight bb) 0)) by lia. cbn [orb].
      destruct (iter_prev_height st Hbase (Z.to_nat (nHeight ba - nHeight bb)) pa ba Ha ltac:(lia))
        as (x & bx & E & Hx & Hh).
      exists (Z.to_nat (nHeight ba - nHeight bb)), O, x, pb, bx, bb. rewrite E.
      repeat split_and; try done; try lia.
    - destruct (nHeight ba <? nHeight bb) eqn:E2; bool_to_prop.
      + rewrite (GetAncestor_spec st Hbase pb bb) by done.
        rewrite (proj2 (Z.ltb_ge _ _)), (proj2 (Z.ltb_ge (nHeight ba) 0)) by lia. cbn [orb].
        destruct (iter_prev_height st Hbase (Z.to_nat (nHeight bb - nHeight ba)) pb bb Hb ltac:(lia))
          as (y & by' & E & Hy & Hh).
        exists O, (Z.to_nat (nHeight bb - nHeight ba)), pa, y, ba, by'. rewrite E.
        repeat split_and; try done; try lia.
      + exists O, O, pa, pb, ba, bb. repeat split_and; try done; try lia. }
  destruct (common_loop_spec st Hbase (Z.to_nat (nHeight ba) + 1) x y bx by' Hx Hy Hxy ltac:(lia))
    as (k & -> & Ek & Hmin).
  pose proof (common_is_last st Hbase pa pb ba bb i j x y k Ha Hb Hi Hj Hij Hz Ek Hmin) as Hlast.
  exists (iter_prev st k (Some x)). split; [done|].
  destruct (iter_prev st k (Some x)) as [q|] eqn:Eq.
  - split; [exists (i + k)%nat; by rewrite iter_prev_add, Hi|].
    split; [exists (j + k)%nat; by rewrite iter_prev_add, Hj|]. exact Hlast.
  - intros q' H1 H2. destruct (Hlast q' H1 H2) as [n Hn]. by rewrite iter_prev_None in Hn.
Qed.

Lemma LastCommonAncestor_is_last_witness :
  exists r, LastCommonAncestor example_store 4 5 = Ok r /\
    match r with
    | Some q => is_ancestor example_store q 4 /\ is_ancestor example_store q 5 /\
        forall q', is_ancestor example_store q' 4 -> is_ancestor example_store q' 5 ->
          is_ancestor example_store q' q
    | None => forall q', is_ancestor example_store q' 4 -> ~ is_ancestor example_store q' 5
    end.
Proof.
  apply (LastCommonAncestor_is_last example_store 4 5 example_store_ok);
    [exists (example_entry (Some 3%positive) (Some 2%positive) 3 280)|
     exists (example_entry (Some 2%positive) (Some 1%positive) 2 230)]; reflexivity.
Defined.

(** ** The active chain *)

(** The branch that ends with [id], by height. *)
Definition branch (st : store) (id : positive) (n : nat) : CChain :=
  (fun k => iter_prev st (n - k) (Some id)) <$> seq 0 (S n).

(** The chain is empty or the branch of some entry. *)
Definition chain_ok (st : store) (c : CChain) : Prop :=
  c = [] \/ exists id b, st !! id = Some b /\ c = branch st id (Z.to_nat (nHeight b)).

Lemma branch_length st id n : length (branch st id n) = S n.
Proof. unfold branch. by rewrite length_fmap, length_seq. Qed.

Lemma branch_lookup st id n k : (k <= n)%nat ->
  branch st id n !! k = Some (iter_prev st (n - k) (Some id)).
Proof. intros Hk. unfold branch. rewrite list_lookup_fmap, lookup_seq_lt by lia. done. Qed.

(** Below a filled entry the chain is its branch. *)
Definition closed_below (st : store) (c : CChain) (h : nat) : Prop :=
  forall k x, (k <= h)%nat -> c !! k = Some (Some x) ->
    forall k', (k' <= k)%nat -> c !! k' = Some (iter_prev st (k - k') (Some x)).

Lemma branch_closed st id n h : closed_below st (branch st id n) h.
Proof.
  intros k x _ Hk k' Hk'. assert (k < S n)%nat as Hlt
    by (rewrite <- (branch_length st id n); by eapply lookup_lt_Some).
  rewrite branch_lookup in Hk by lia. injection Hk as Hk. rewrite branch_lookup by lia.
  rewrite <- Hk, <- iter_prev_add. do 2 f_equal. lia.
Qed.

Lemma resize_closed st n c h : chain_ok st c -> closed_below st (resize n c) h.
Proof.
  intros Hc k x Hk Hl k' Hk'. unfold resize in *.
  assert (k < length (take n c))%nat as Hlt.
  { apply Nat.nle_gt. intros Hge. rewrite lookup_app_r in Hl by done.
    apply lookup_replicate in Hl as [Hl _]. done. }
  rewrite lookup_app_l in Hl |- * by lia. rewrite length_take in Hlt.
  rewrite lookup_take_lt in Hl |- * by lia.
  destruct Hc as [->|(id & b & Hb & ->)]; [done|].
  by apply (branch_closed st id _ k k x).
Qed.

Lemma resize_length n c : length (resize n c) = n.
Proof. unfold resize. rewrite length_app, length_take, length_replicate. lia. Qed.

Section active_chain.
Context (st : store) (Hbase : tree_base st).

Lemma settip_loop_spec id b fuel j c p :
  st !! id = Some b -> let n := Z.to_nat (nHeight b) in
  length c = S n -> (j <= n)%nat -> (n - j < fuel)%nat ->
  iter_prev st j (Some id) = Some p ->
  (forall k, (n - j < k <= n)%nat -> c !! k = Some (iter_prev st (n - k) (Some id))) ->
  closed_below st c (n - j) ->
  settip_loop st fuel c (Some p) = Ok (branch st id n).
Proof.
  intros Hid n. revert j c p; induction fuel as [|fuel IH]; intros j c p Hl Hj Hf Hp Hup Hlow; [lia|].
  pose proof (tree_height st Hbase id b Hid) as Hr.
  destruct (iter_prev_inv st Hbase j id b p Hid Hp) as (_ & bp & Hbp & Eh).
  assert (Z.to_nat (nHeight bp) = (n - j)%nat) as En by lia.
  cbn [settip_loop deref]. rewrite Hbp. cbn [mbind outcome_bind].
  destruct (lookup_lt_is_Some_2 c (n - j)) as [q Hq]; [lia|].
  rewrite (rd_lookup c (nHeight bp) q) by (lia || by rewrite En). cbn [mbind outcome_bind].
  case_bool_decide as Eq.
  - subst q. f_equal. apply list_eq. intros k.
    destruct (Nat.le_gt_cases k n) as [Hk|Hk].
    + rewrite branch_lookup by done. destruct (Nat.lt_ge_cases (n - j) k) as [Hk'|Hk']; [by apply Hup|].
      rewrite (Hlow (n - j)%nat p ltac:(lia) Hq k Hk'). f_equal.
      rewrite <- Hp, <- iter_prev_add. f_equal. lia.
    + rewrite !lookup_ge_None_2; [done|rewrite branch_length; lia|lia].
  - rewrite En. set (c' := <[(n - j)%nat := Some p]> c).
    assert (c' !! (n - j)%nat = Some (Some p)) as Hc'.
    { apply list_lookup_insert_eq. lia. }
    assert (forall k, (k <= n)%nat -> (n - j <= k)%nat -> c' !! k = Some (iter_prev st (n - k) (Some id))) as Hup'.
    { intros k Hk1 Hk2. destruct (decide (k = n - j)%nat) as [->|].
      - rewrite Hc'. f_equal. rewrite <- Hp. f_equal. lia.
      - unfold c'. rewrite list_lookup_insert_ne by lia. apply Hup. lia. }
    pose proof (tree_prev st Hbase p bp Hbp) as Hpv.
    destruct (pprev bp) as [p'|] eqn:Epp.
    + destruct Hpv as (bp' & Hbp' & Eh'). pose proof (tree_height st Hbase _ _ Hbp').
      apply (IH (S j)).
      * unfold c'. by rewrite length_insert.
      * lia.
      * lia.
      * rewrite <- Nat.add_1_r, iter_prev_add, Hp. cbn [iter_prev]. by rewrite Hbp.
      * intros k Hk. apply Hup'; lia.
      * intros k x Hk Hx k' Hk'. unfold c' in *.
        rewrite list_lookup_insert_ne in Hx |- * by lia. by apply (Hlow k x ltac:(lia)).
    + assert (n - j = 0)%nat as E0 by lia.
      assert (settip_loop st fuel c' None = Ok c') as -> by by destruct fuel.
      f_equal. apply list_eq. intros k. destruct (Nat.le_gt_cases k n) as [Hk|Hk].
      * rewrite branch_lookup by done. apply Hup'; lia.
      * rewrite !lookup_ge_None_2; [done|rewrite branch_length; lia|unfold c'; rewrite length_insert; lia].
Qed.

(** [Contains] on a branch. *)
Lemma chain_at_branch id b h : st !! id = Some b -> 0 <= h <= nHeight b ->
  chain_at (branch st id (Z.to_nat (nHeight b))) h = iter_prev st (Z.to_nat (nHeight b - h)) (Some id).
Proof.
  intros Hid Hh. unfold chain_at. rewrite branch_length.
  rewrite (proj2 (Z.ltb_ge h 0)), (proj2 (Z.leb_gt _ h)) by lia. cbn [orb].
  rewrite branch_lookup by lia. cbn. f_equal. lia.
Qed.

Lemma chain_at_out c h : h < 0 \/ zlen c <= h -> chain_at c h = None.
Proof.
  intros H. unfold chain_at. destruct (h <? 0) eqn:E1, (zlen c <=? h) eqn:E2; bool_to_prop; try done; lia.
Qed.

Lemma Contains_branch tip bt p bp : st !! tip = Some bt -> st !! p = Some bp ->
  exists i, Contains st (branch st tip (Z.to_nat (nHeight bt))) (Some p) = Ok i /\
    (i = true <-> is_ancestor st p tip).
Proof.
  intros Ht Hp. unfold Contains. cbn [deref]. rewrite Hp. cbn [mbind outcome_bind].
  eexists. split; [done|]. rewrite bool_decide_eq_true. pose proof (tree_height st Hbase p bp Hp) as Hr.
  pose proof (tree_height st Hbase tip bt Ht) as Hrt. split.
  - intros E. destruct (Z.le_gt_cases (nHeight bp) (nHeight bt)).
    + rewrite chain_at_branch in E by (done || lia). by eexists.
    + rewrite chain_at_out in E by (rewrite branch_length; lia). done.
  - intros [n Hn]. destruct (iter_prev_inv st Hbase n tip bt p Ht Hn) as (Hle & b' & Hb' & Eh).
    rewrite Hp in Hb'. injection Hb' as <-. rewrite chain_at_branch by (done || lia).
    rewrite <- Hn. f_equal. lia.
Qed.

Lemma fork_loop_spec tip bt fuel p bp : st !! tip = Some bt -> st !! p = Some bp ->
  nHeight bp < Z.of_nat fuel ->
  exists r, fork_loop st (branch st tip (Z.to_nat (nHeight bt))) fuel (Some p) = Ok r /\
    match r with
    | Some q => is_ancestor st q p /\ is_ancestor st q tip /\
        forall q', is_ancestor st q' p -> is_ancestor st q' tip -> is_ancestor st q' q
    | None => forall q', is_ancestor st q' p -> ~ is_ancestor st q' tip
    end.
Proof.
  intros Ht. revert p bp; induction fuel as [|fuel IH]; intros p bp Hp Hf.
  { pose proof (tree_height st Hbase p bp Hp). lia. }
  cbn [fork_loop]. destruct (Contains_branch tip bt p bp Ht Hp) as (i & -> & Hi).
  cbn [mbind outcome_bind]. destruct i.
  { assert (is_ancestor st p tip) as Hanc by by apply Hi. exists (Some p). split; [done|]. split; [by exists O|]. split; [done|]. done. }
  cbn [deref]. rewrite Hp. cbn [mbind outcome_bind].
  assert (forall q', is_ancestor st q' p -> is_ancestor st q' tip ->
    exists n, iter_prev st n (pprev bp) = Some q') as Hstep.
  { intros q' [[|n] Hn] Hq'; [cbn in Hn; injection Hn as <-; by apply Hi in Hq'|].
    cbn [iter_prev] in Hn. rewrite Hp in Hn. by exists n. }
  pose proof (tree_prev st Hbase p bp Hp) as Hpv. destruct (pprev bp) as [p'|] eqn:Epp.
  - destruct Hpv as (bp' & Hp' & Eh). destruct (IH p' bp' Hp' ltac:(lia)) as (r & -> & Hr).
    exists r. split; [done|]. destruct r as [q|].
    + destruct Hr as ([n Hn] & Hq & Hlast). split.
      * exists (S n). cbn [iter_prev]. by rewrite Hp, Epp.
      * split; [done|]. intros q' H1 H2. apply Hlast; [|done]. by apply Hstep.
    + intros q' H1 H2. apply (Hr q'); [|done]. by apply Hstep.
  - exists None. assert (forall c, fork_loop st c fuel None = Ok None) as -> by by destruct fuel.
    split; [done|]. intros q' H1 H2. destruct (Hstep q' H1 H2) as [n Hn]. by rewrite iter_prev_None in Hn.
Qed.
End active_chain.

Lemma SetTip_branch (st : store) (c : CChain) (tip : positive) (b : CBlockIndex) :
  tree_base st -> chain_ok st c -> st !! tip = Some b -> SetTip st c (Some tip) = Ok (branch st tip (Z.to_nat (nHeight b))).
Proof.
  intros Hbase Hc Hb. pose proof (tree_height st Hbase tip b Hb) as Hr.
  unfold SetTip. cbn [deref]. rewrite Hb. cbn [mbind outcome_bind].
  replace (Z.to_nat (nHeight b + 1)) with (S (Z.to_nat (nHeight b))) by lia.
  apply (settip_loop_spec st Hbase tip b _ O); [done|apply resize_length|lia|lia|done|lia|].
  by apply resize_closed.
Qed.

(** [SetTip] replaces the active chain by the branch of the new tip,
    whatever branch it held before: it terminates without undefined behaviour,
    and entry [h] becomes the ancestor of the tip at height [h], although the
    loop stops at the first entry that is already there. *)
Theorem SetTip_is_branch (st : store) (c : CChain) (tip : positive) (b : CBlockIndex) :
  tree_base st -> chain_ok st c -> st !! tip = Some b ->
  exists c', SetTip st c (Some tip) = Ok c' /\ zlen c' = nHeight b + 1 /\
    (forall h, (h <= Z.to_nat (nHeight b))%nat ->
       c' !! h = Some (iter_prev st (Z.to_nat (nHeight b) - h) (Some tip))) /\
    last c' = Some (Some tip) /\ chain_ok st c'.
Proof.
  intros Hbase Hc Hb. pose proof (tree_height st Hbase tip b Hb) as Hr.
  exists (branch st tip (Z.to_nat (nHeight b))). split; [by apply SetTip_branch|].
  rewrite branch_length. split; [lia|]. split; [intros h Hh; by apply branch_lookup|]. split.
    + rewrite last_lookup, branch_length. cbn [Nat.pred]. rewrite branch_lookup by done.
      by rewrite Nat.sub_diag.
    + right. eauto.
Qed.

Lemma SetTip_is_branch_witness :
  chain_ok example_store (branch example_store 4 3) /\
  exists c', SetTip example_store (branch example_store 4 3) (Some 5%positive) = Ok c' /\
    zlen c' = 3 /\
    (forall h, (h <= 2)%nat -> c' !! h = Some (iter_prev example_store (2 - h) (Some 5%positive))) /\
    last c' = Some (Some 5%positive) /\ chain_ok example_store c'.
Proof.
  assert (chain_ok example_store (branch example_store 4 3)) as Hc.
  { right. exists 4%positive, (example_entry (Some 3%positive) (Some 2%positive) 3 280).
    split; reflexivity. }
  split; [exact Hc|].
  apply (SetTip_is_branch example_store _ 5
    (example_entry (Some 2%positive) (Some 1%positive) 2 230) (proj1 example_store_ok) Hc).
  reflexivity.
Defined.

(** [FindFork] returns the last common block of the active chain and a
    block: it is in the chain, it is an ancestor of the block, and every
    ancestor of the block in the chain is an ancestor of it. *)
Theorem FindFork_is_last_common (st : store) (tip p : positive) (bt bp : CBlockIndex) :
  tree_ok st -> st !! tip = Some bt -> st !! p = Some bp ->
  exists r, FindFork st (branch st tip (Z.to_nat (nHeight bt))) (Some p) = Ok r /\
    match r with
    | Some q => is_ancestor st q p /\ is_ancestor st q tip /\
        forall q', is_ancestor st q' p -> is_ancestor st q' tip -> is_ancestor st q' q
    | None => forall q', is_ancestor st q' p -> ~ is_ancestor st q' tip
    end.
Proof.
  intros [Hbase Hskip] Ht Hp. unfold FindFork. cbn [deref]. rewrite Hp. cbn [mbind outcome_bind].
  pose proof (tree_height st Hbase tip bt Ht) as Hrt. pose proof (tree_height st Hbase p bp Hp) as Hrp.
  unfold Height. rewrite branch_length.
  replace (Z.of_nat (S (Z.to_nat (nHeight bt))) - 1) with (nHeight bt) by lia.
  destruct (nHeight bt <? nHeight bp) eqn:E; bool_to_prop.
  - rewrite (GetAncestor_spec st Hbase p bp) by done.
    rewrite (proj2 (Z.ltb_ge _ _)), (proj2 (Z.ltb_ge (nHeight bt) 0)) by lia. cbn [orb mbind outcome_bind].
    destruct (iter_prev_height st Hbase (Z.to_nat (nHeight bp - nHeight bt)) p bp Hp ltac:(lia))
      as (x & bx & Ex & Hx & Hh). rewrite Ex.
    destruct (fork_loop_spec st Hbase tip bt (S (Z.to_nat (nHeight bt))) x bx Ht Hx ltac:(lia)) as (r & -> & Hr).
    exists r. split; [done|].
    (* a common ancestor is not higher than the chain, so it is an ancestor of x *)
    assert (forall q', is_ancestor st q' p -> is_ancestor st q' tip -> is_ancestor st q' x) as Hlow.
    { intros q' [n Hn] [m Hm].
      destruct (iter_prev_inv st Hbase n p bp q' Hp Hn) as (_ & b1 & Hb1 & E1).
      destruct (iter_prev_inv st Hbase m tip bt q' Ht Hm) as (_ & b2 & Hb2 & E2).
      rewrite Hb1 in Hb2. injection Hb2 as <-.
      exists (n - Z.to_nat (nHeight bp - nHeight bt))%nat. rewrite <- Ex, <- iter_prev_add, <- Hn.
      f_equal. lia. }
    destruct r as [q|].
    + destruct Hr as ([n Hn] & Hq & Hlast). split; [|split; [done|]].
      * exists (Z.to_nat (nHeight bp - nHeight bt) + n)%nat. by rewrite iter_prev_add, Ex.
      * intros q' H1 H2. apply Hlast; [|done]. by apply Hlow.
    + intros q' H1 H2. apply (Hr q'); [|done]. by apply Hlow.
  - cbn [mbind outcome_bind]. apply (fork_loop_spec st Hbase tip bt _ p bp Ht Hp). lia.
Qed.

Lemma FindFork_is_last_common_witness :
  exists r, FindFork example_store (branch example_store 5 2) (Some 4%positive) = Ok r /\
    match r with
    | Some q => is_ancestor example_store q 4 /\ is_ancestor example_store q 5 /\
        forall q', is_ancestor example_store q' 4 -> is_ancestor example_store q' 5 ->
          is_ancestor example_store q' q
    | None => forall q', is_ancestor example_store q' 4 -> ~ is_ancestor example_store q' 5
    end.
Proof.
  apply (FindFork_is_last_common example_store 5 4
    (example_entry (Some 2%positive) (Some 1%positive) 2 230)
    (example_entry (Some 3%positive) (Some 2%positive) 3 280) example_store_ok); reflexivity.
Defined.

(** ** Median time *)

Lemma median_times_ok st n id b : tree_base st -> st !! id = Some b ->
  exists l, median_times st n (Some id) = Ok l /\
    length l = Nat.min n (S (Z.to_nat (nHeight b))).
Proof.
  intros Hbase. revert id b; induction n as [|n IH]; intros id b Hid; [by exists []|].
  cbn [median_times deref]. rewrite Hid. cbn [mbind outcome_bind].
  pose proof (tree_prev st Hbase id b Hid) as Hp. destruct (pprev b) as [p|].
  - destruct Hp as (b' & Hb' & Eh). destruct (IH p b' Hb') as (l & -> & Hl).
    pose proof (tree_height st Hbase _ _ Hb').
    exists (nTime b :: l). split; [done|]. cbn [length]. lia.
  - exists [nTime b]. assert (median_times st n None = Ok []) as -> by by destruct n.
    split; [done|]. cbn [length]. lia.
Qed.

Lemma sorted_lookup (l : list Z) i j x y :
  StronglySorted Z.le l -> l !! i = Some x -> l !! j = Some y -> (i <= j)%nat -> x <= y.
Proof.
  intros Hs. revert i j; induction Hs as [|a l Hs IH Ha]; intros i j Hx Hy Hij; [done|].
  destruct i as [|i], j as [|j]; cbn in Hx, Hy.
  - simplify_eq. lia.
  - simplify_eq. rewrite Forall_lookup in Ha. by apply (Ha j).
  - lia.
  - apply (IH i j); [done|done|lia].
Qed.

(** Counting around the entry [k] of a sorted list. *)
Lemma sorted_counts (l : list Z) k x :
  StronglySorted Z.le l -> l !! k = Some x ->
  (length (filter (fun t : Z => (t < x)%Z) l) <= k)%nat /\
  (length (filter (fun t : Z => (x < t)%Z) l) <= length l - 1 - k)%nat.
Proof.
  intros Hs Hk. pose proof (lookup_lt_Some _ _ _ Hk) as Hlt.
  assert (forall P : Z -> Prop, forall HP : (forall t, Decision (P t)), forall l0 : list Z,
    (forall i t, l0 !! i = Some t -> ~ P t) -> filter P l0 = []) as Hnone.
  { intros P HP l0 H.
    induction l0 as [|t l0 IH]; [done|]. rewrite filter_cons_False by (by apply (H O)).
    apply IH. intros i t' Hi. by apply (H (S i)). }
  split.
  - rewrite <- (take_drop k l). rewrite filter_app, length_app.
    rewrite (Hnone _ _ (drop k l)).
    + pose proof (length_filter (fun t : Z => (t < x)%Z) (take k l)). rewrite length_take in *. cbn. lia.
    + intros i t Ht Hlt'. rewrite lookup_drop in Ht.
      pose proof (sorted_lookup l k (k + i) x t Hs Hk Ht ltac:(lia)). lia.
  - rewrite <- (take_drop (S k) l) at 1. rewrite filter_app, length_app.
    rewrite (Hnone _ _ (take (S k) l)).
    + pose proof (length_filter (fun t : Z => (x < t)%Z) (drop (S k) l)). rewrite length_drop in *. cbn. lia.
    + intros i t Ht Hlt'. apply lookup_take_Some in Ht as [Ht Hi].
      pose proof (sorted_lookup l i k t x Hs Ht Hk ltac:(lia)). lia.
Qed.

(** [GetMedianTimePast] in a well-formed tree returns the median of the
    times of the block and of at most ten blocks before it: it is one of those
    [n] times, at most [n / 2] of them are smaller and at most [(n - 1) / 2]
    are greater. *)
Theorem GetMedianTimePast_is_median (st : store) (id : positive) (b : CBlockIndex) :
  tree_base st -> st !! id = Some b ->
  exists l m, median_times st nMedianTimeSpan (Some id) = Ok l /\
    GetMedianTimePast st id = Ok m /\ In m l /\
    (1 <= length l <= 11)%nat /\
    (length (filter (fun t : Z => (t < m)%Z) l) <= length l / 2)%nat /\
    (length (filter (fun t : Z => (m < t)%Z) l) <= (length l - 1) / 2)%nat.
Proof.
  intros Hbase Hid. destruct (median_times_ok st nMedianTimeSpan id b Hbase Hid) as (l & El & Hl).
  unfold nMedianTimeSpan in Hl. set (s := merge_sort Z.le (reverse l)).
  assert (s ≡ₚ l) as Hperm by (unfold s; by rewrite merge_sort_Permutation, reverse_Permutation).
  assert (StronglySorted Z.le s) as Hsorted.
  { apply Sorted_StronglySorted; [intros ? ? ? ? ?; lia|]. apply (Sorted_merge_sort _). }
  pose proof (Permutation_length Hperm) as Hlen. pose proof (tree_height st Hbase id b Hid).
  assert (1 <= length l <= 11)%nat as Hb by lia.
  destruct (lookup_lt_is_Some_2 s (length l / 2)) as [m Hm].
  { rewrite Hlen. apply Nat.div_lt; lia. }
  exists l, m. split; [done|]. split.
  { unfold GetMedianTimePast. rewrite El. cbn [mbind outcome_bind]. fold s.
    apply rd_lookup; [apply Z.div_pos; lia|]. change 2 with (Z.of_nat 2). rewrite <- Nat2Z.inj_div, Nat2Z.id. done. }
  destruct (sorted_counts s _ m Hsorted Hm) as [H1 H2].
  rewrite Hperm in H1, H2. split.
  { apply list_elem_of_In. rewrite <- Hperm. by eapply list_elem_of_lookup_2. }
  split; [done|]. split; [done|]. etransitivity; [exact H2|].
  pose proof (Nat.div_mod (length l) 2 ltac:(lia)). pose proof (Nat.div_mod (length l - 1) 2 ltac:(lia)).
  pose proof (Nat.mod_upper_bound (length l) 2 ltac:(lia)).
  pose proof (Nat.mod_upper_bound (length l - 1) 2 ltac:(lia)). lia.
Qed.

Lemma GetMedianTimePast_is_median_witness :
  exists l m, median_times example_store nMedianTimeSpan (Some 4%positive) = Ok l /\
    GetMedianTimePast example_store 4 = Ok m /\ In m l /\
    (1 <= length l <= 11)%nat /\
    (length (filter (fun t : Z => (t < m)%Z) l) <= length l / 2)%nat /\
    (length (filter (fun t : Z => (m < t)%Z) l) <= (length l - 1) / 2)%nat.
Proof.
  apply (GetMedianTimePast_is_median example_store 4
    (example_entry (Some 3%positive) (Some 2%positive) 3 280) (proj1 example_store_ok)). reflexivity.
Defined.
