(* ===== verification/Pow.v ===== *)
(** * Difficulty and proof of work (src/src/pow.cpp)

    [GetNextWorkRequired] walks the block tree of Chain.v and computes with the
    256-bit integers of ArithUint256.v, with the implicit conversions of the
    code: multiplying by an int64_t selects [operator*=(uint32_t)], dividing by
    one goes through the constructor from uint64_t.  Signed overflow is
    undefined ([chk64]). *)
From S2P Require Import Prelude ArithUint256 Params Chain.

(** The result of an int64_t operation. *)
Definition chk64 (x : Z) : outcome unit Z :=
  if bool_decide (in_s 64 x) then Ok x else Abort.

(** [uint256(b)] for an integer [b] *)
Definition uint256_of (b : Z) : bu := bu_of_uint64 8 (u64 b).

Definition compact_target (nBits : Z) : bu := let '(n, _, _) := SetCompact nBits in n.

(** int64_t division, undefined for a zero divisor *)
Definition div64 (x y : Z) : outcome unit Z :=
  if y =? 0 then Abort else chk64 (Z.quot x y).

(** The retarget of proof-of-stake blocks. *)
Definition pos_retarget (p : Params) (nTargetTimespan nActualSpacing : Z) (bnTargetLimit bnNew : bu)
    : outcome unit bu :=
  nInterval ← div64 nTargetTimespan (nTargetSpacing p);
  mult ← chk64 ((nInterval - 1) * nTargetSpacing p + nActualSpacing + nActualSpacing);
  let bnNew := bu_mul32 bnNew (u32 mult) in
  den ← chk64 ((nInterval + 1) * nTargetSpacing p);
  bnNew ← bu_div bnNew (uint256_of den);
  Ok (if (CompareTo bnNew (uint256_of 0) <=? 0) || (0 <? CompareTo bnNew bnTargetLimit)
      then bnTargetLimit else bnNew).

Definition pos_spacing (p : Params) (fTimeV2 : bool) (nActualSpacing : Z) : Z :=
  let nActualSpacing := if nActualSpacing <? 0 then 1 else nActualSpacing in
  if fTimeV2 && (nTargetSpacing p * 10 <? nActualSpacing) then nTargetSpacing p * 10
  else nActualSpacing.

Definition next_work_pos (cp : CChainParams) (st : store) (b : CBlockIndex) : outcome unit Z :=
  let p := consensus cp in
  let fTimeV2 := negb (IsRegTestNet cp) && IsTimeProtocolV2 p (nHeight b + 1) in
  let bnTargetLimit := ProofOfStakeLimit p fTimeV2 in
  spacing ←
    (if nHeight b =? 0 then Ok 0
     else prev ← deref st (pprev b); Ok (nTime b - nTime prev));
  let nActualSpacing := pos_spacing p fTimeV2 spacing in
  let bnNew := compact_target (nBits b) in
  let bnNew := if fTimeV2 && negb (IsTimeProtocolV2 p (nHeight b)) then bu_shl bnNew 4 else bnNew in
  bnNew ← pos_retarget p (TargetTimespan p fTimeV2) nActualSpacing bnTargetLimit bnNew;
  GetCompact bnNew false.

Definition PastBlocksMin : Z := 24.
Definition PastBlocksMax : Z := 24.

(** The loop of Dark Gravity Wave: [CountBlocks], [LastBlockTime],
    [nActualTimespan] and [PastDifficultyAverage]; it reads at most
    [PastBlocksMax] blocks. *)
Record dgw := Dgw { dgw_count : Z; dgw_last : Z; dgw_span : Z; dgw_avg : bu }.

Definition dgw_step (b : CBlockIndex) (s : dgw) : outcome unit dgw :=
  let count := dgw_count s + 1 in
  avg ←
    (if count <=? PastBlocksMin then
       if count =? 1 then Ok (compact_target (nBits b))
       else bu_div (bu_add (bu_mul32 (dgw_avg s) (u32 count)) (compact_target (nBits b)))
              (uint256_of (count + 1))
     else Ok (dgw_avg s));
  span ← (if 0 <? dgw_last s then chk64 (dgw_span s + (dgw_last s - nTime b)) else Ok (dgw_span s));
  Ok (Dgw count (nTime b) span avg).

Fixpoint dgw_loop (st : store) (fuel : nat) (BlockReading : ptr) (s : dgw) : outcome unit dgw :=
  match BlockReading, fuel with
  | Some _, S fuel =>
      b ← deref st BlockReading;
      if nHeight b <=? 0 then Ok s
      else
        s ← dgw_step b s;
        dgw_loop st fuel (pprev b) s
  | _, _ => Ok s
  end.

Definition clamp_span (nActualTimespan target : Z) : Z :=
  let t := if nActualTimespan <? Z.quot target 3 then Z.quot target 3 else nActualTimespan in
  if target * 3 <? t then target * 3 else t.

Definition next_work_pow (cp : CChainParams) (st : store) (pindexLast : positive) : outcome unit Z :=
  let p := consensus cp in
  s ← dgw_loop st (Z.to_nat PastBlocksMax) (Some pindexLast) (Dgw 0 0 0 (bu_zero 8));
  target ← chk64 (dgw_count s * nTargetSpacing p);
  _ ← chk64 (target * 3);
  let span := clamp_span (dgw_span s) target in
  bnNew ← bu_div (bu_mul32 (dgw_avg s) (u32 span)) (uint256_of target);
  let bnNew := if 0 <? CompareTo bnNew (powLimit p) then powLimit p else bnNew in
  GetCompact bnNew false.

Definition GetNextWorkRequired (cp : CChainParams) (st : store) (pindexLast : ptr) : outcome unit Z :=
  if IsRegTestNet cp then b ← deref st pindexLast; Ok (nBits b)
  else match pindexLast with
  | None => GetCompact (powLimit (consensus cp)) false
  | Some id =>
      b ← deref st pindexLast;
      if (nHeight b =? 0) || (nHeight b <? PastBlocksMin)
      then GetCompact (powLimit (consensus cp)) false
      else if NetworkUpgradeActive (consensus cp) (nHeight b + 1) UPGRADE_POS
      then next_work_pos cp st b
      else next_work_pow cp st id
  end.

Definition CheckProofOfWork (cp : CChainParams) (hash : bu) (nBits : Z) : bool :=
  if IsRegTestNet cp then true
  else
    let '(bnTarget, fNegative, fOverflow) := SetCompact nBits in
    if fNegative || bu_is_zero bnTarget || fOverflow
       || (0 <? CompareTo bnTarget (powLimit (consensus cp))) then false
    else if 0 <? CompareTo hash bnTarget then false
    else true.

(** The proof of the block whose target is [nBits]. *)
Definition GetBlockProof (nBits : Z) : outcome unit bu :=
  let '(bnTarget, fNegative, fOverflow) := SetCompact nBits in
  if fNegative || fOverflow || bu_is_zero bnTarget then Ok (bu_zero 8)
  else
    q ← bu_div (bu_not bnTarget) (bu_add bnTarget (uint256_of 1));
    Ok (bu_add q (uint256_of 1)).

(** ** Properties *)

Lemma bu_is_zero_spec W a : limbs_ok W a -> bu_is_zero a = (bu_val a =? 0).
Proof.
  intros [_ Hf]. induction Hf as [|x a Hx Hf IH]; [done|].
  cbn [bu_is_zero forallb bu_val]. fold (bu_is_zero a). rewrite IH.
  pose proof (bu_val_range a Hf). unfold in_u in Hx.
  destruct (x =? 0) eqn:?, (bu_val a =? 0) eqn:?, (x + 2 ^ 32 * bu_val a =? 0) eqn:?;
    bool_to_prop; try done; lia.
Qed.

Lemma uint256_of_spec b : in_u 64 b -> limbs_ok 8 (uint256_of b) /\ bu_val (uint256_of b) = b.
Proof.
  intros Hb. unfold uint256_of. rewrite (wrapu_small 64) by done.
  by apply (bu_of_uint64_spec 8); [lia|].
Qed.

Lemma bu_range W a : limbs_ok W a -> 0 <= bu_val a < 2 ^ (32 * Z.of_nat W).
Proof. intros [<- Hf]. by apply bu_val_range. Qed.

Lemma bu_gt W a b : limbs_ok W a -> limbs_ok W b -> (0 <? CompareTo a b) = (bu_val b <? bu_val a).
Proof.
  intros Ha Hb. rewrite (CompareTo_sgn W) by done. apply eq_true_iff_eq.
  rewrite !Z.ltb_lt. lia.
Qed.

Lemma bu_le W a b : limbs_ok W a -> limbs_ok W b -> (CompareTo a b <=? 0) = (bu_val a <=? bu_val b).
Proof.
  intros Ha Hb. rewrite (CompareTo_sgn W) by done. apply eq_true_iff_eq.
  rewrite !Z.leb_le. lia.
Qed.

Lemma compact_target_ok c : in_u 32 c ->
  limbs_ok 8 (compact_target c) /\ bu_val (compact_target c) = compact_value c mod 2 ^ 256.
Proof.
  intros Hc. pose proof (SetCompact_value c Hc) as H. unfold compact_target.
  destruct (SetCompact c) as [[n neg] ovf]. tauto.
Qed.

(** A number encoded by [GetCompact] decodes to a number that is not greater. *)
Lemma GetCompact_le a : limbs_ok 8 a ->
  exists c n, GetCompact a false = Ok c /\ in_u 32 c /\ SetCompact c = (n, false, false) /\
    bu_val n <= bu_val a.
Proof.
  intros Ha. pose proof (bu_range 8 a Ha) as Ra. change (32 * Z.of_nat 8) with 256 in Ra.
  destruct (Z.eq_dec (bu_val a) 0) as [Hz|Hnz].
  - exists 0, (bu_zero 8). rewrite (GetCompact_zero a) by done. rewrite Hz, bu_zero_val.
    repeat split_and; try done.
  - destruct (GetCompact_nonzero a false Ha ltac:(lia)) as (m & e & Hn & E).
    destruct (compact_decode _ m e false (proj1 Ra) Hn) as (Hc & _ & Hb & Hle & _ & Hpos & _).
    set (c := m + 2 ^ 24 * e + 0) in *.
    pose proof (SetCompact_value c Hc) as S. destruct (SetCompact c) as [[n neg] ovf] eqn:Es.
    destruct S as (Hok & Ev & -> & ->). rewrite Z.mod_small in Ev by lia.
    exists c, n. rewrite Ev. split; [done|]. split; [done|]. split; [|done].
    rewrite Es, Hb, andb_false_r. by rewrite (proj2 (Z.leb_gt (2 ^ 256) _)) by lia.
Qed.

(** Parameters small enough for the int64_t arithmetic. *)
Record params_ok (p : Params) : Prop := {
  pow_ok : limbs_ok 8 (powLimit p);
  pos1_ok : limbs_ok 8 (posLimitV1 p);
  pos2_ok : limbs_ok 8 (posLimitV2 p);
  spacing_ok : 1 <= nTargetSpacing p < 2 ^ 24;
  timespan_ok : 0 <= nTargetTimespan p < 2 ^ 31;
  timespan2_ok : 0 <= nTargetTimespanV2 p < 2 ^ 31;
}.

(** The header fields are unsigned ints. *)
Definition header_ok (st : store) : Prop :=
  forall id b, st !! id = Some b -> in_u 32 (nTime b) /\ in_u 32 (nBits b).

Lemma pos_limit_ok p v : params_ok p -> limbs_ok 8 (ProofOfStakeLimit p v).
Proof. intros H. unfold ProofOfStakeLimit. destruct v; apply H. Qed.

Lemma chk64_ok x : in_s 64 x -> chk64 x = Ok x.
Proof. intros H. unfold chk64. by rewrite bool_decide_eq_true_2. Qed.

(** The target of the proof-of-stake retarget, on numbers. *)
Definition pos_target (p : Params) (timespan spacing limit old : Z) : Z :=
  let nInterval := timespan / nTargetSpacing p in
  let mult := (nInterval - 1) * nTargetSpacing p + 2 * spacing in
  let v := (old * (mult mod 2 ^ 32)) mod 2 ^ 256 / ((nInterval + 1) * nTargetSpacing p) in
  if (v =? 0) || (limit <? v) then limit else v.

Lemma pos_retarget_spec p timespan spacing limit old :
  params_ok p -> 0 <= timespan < 2 ^ 31 -> 0 <= spacing < 2 ^ 33 ->
  limbs_ok 8 limit -> limbs_ok 8 old ->
  exists n, pos_retarget p timespan spacing limit old = Ok n /\ limbs_ok 8 n /\
    bu_val n = pos_target p timespan spacing (bu_val limit) (bu_val old) /\
    bu_val n <= bu_val limit.
Proof.
  intros Hp Ht Hs Hl Ho. pose proof (spacing_ok p Hp) as Hsp. unfold pos_retarget, div64, pos_target.
  rewrite (proj2 (Z.eqb_neq (nTargetSpacing p) 0)) by lia.
  rewrite Z.quot_div_nonneg by lia. set (i := timespan / nTargetSpacing p).
  assert (0 <= i <= timespan) as Hi.
  { split; [apply Z.div_pos; lia|]. apply Z.div_le_upper_bound; nia. }
  rewrite (chk64_ok i) by (unfold in_s; lia). cbn [mbind outcome_bind].
  replace (2 * spacing) with (spacing + spacing) by lia. rewrite Z.add_assoc.
  assert (i * nTargetSpacing p < 2 ^ 55) as Hprod by nia.
  rewrite chk64_ok by (unfold in_s; nia). cbn [mbind outcome_bind].
  rewrite chk64_ok by (unfold in_s; nia). cbn [mbind outcome_bind].
  set (mult := (i - 1) * nTargetSpacing p + spacing + spacing).
  set (den := (i + 1) * nTargetSpacing p).
  assert (1 <= den < 2 ^ 56) as Hden by (unfold den; nia).
  destruct (mul32_loop_spec 8 0 (u32 mult) old Ho ltac:(lia) (wrapu_range 32 mult ltac:(lia))) as [Hm Em].
  fold (bu_mul32 old (u32 mult)) in Hm, Em. rewrite Z.add_0_l, Z.mul_comm in Em.
  change (32 * Z.of_nat 8) with 256 in Em. unfold wrapu at 2 in Em.
  destruct (uint256_of_spec den) as [Hd Ed]; [unfold in_u; lia|].
  destruct (bu_div_spec 8 _ _ Hm Hd ltac:(lia)) as (q & -> & Hq & Eq).
  cbn [mbind outcome_bind]. rewrite Ed, Em in Eq.
  destruct (uint256_of_spec 0) as [H0 E0]; [unfold in_u; lia|].
  rewrite (bu_le 8) by done. rewrite (bu_gt 8) by done. rewrite E0, <- Eq.
  pose proof (bu_range 8 q Hq) as Rq.
  assert ((bu_val q <=? 0) = (bu_val q =? 0)) as ->
    by (apply eq_true_iff_eq; rewrite Z.leb_le, Z.eqb_eq; lia).
  eexists. split; [done|].
  destruct ((bu_val q =? 0) || (bu_val limit <? bu_val q)) eqn:E; [done|].
  bool_to_prop. split; [done|]. split; [done|lia].
Qed.

Lemma pos_spacing_range p v d : params_ok p -> - 2 ^ 32 < d < 2 ^ 32 ->
  0 <= pos_spacing p v d < 2 ^ 33.
Proof.
  intros Hp Hd. pose proof (spacing_ok p Hp). unfold pos_spacing.
  destruct (d <? 0) eqn:E; bool_to_prop; cbn [andb];
    destruct (v && _); lia.
Qed.

Lemma timespan_range p v : params_ok p -> 0 <= TargetTimespan p v < 2 ^ 31.
Proof. intros [? ? ? ? ? ?]. by destruct v. Qed.

(** The target that the retarget starts from: on the first block with time
    protocol V2 the difficulty is divided by 16. *)
Definition pos_start (p : Params) (fTimeV2 : bool) (h : Z) (nBits : Z) : bu :=
  let bnNew := compact_target nBits in
  if fTimeV2 && negb (IsTimeProtocolV2 p h) then bu_shl bnNew 4 else bnNew.

Lemma next_work_pos_spec cp st id b prev :
  let p := consensus cp in
  let v2 := negb (IsRegTestNet cp) && IsTimeProtocolV2 p (nHeight b + 1) in
  params_ok p -> header_ok st -> st !! id = Some b -> 1 <= nHeight b ->
  pprev b = Some prev -> forall b', st !! prev = Some b' ->
  exists n, next_work_pos cp st b = GetCompact n false /\ limbs_ok 8 n /\
    bu_val n = pos_target p (TargetTimespan p v2) (pos_spacing p v2 (nTime b - nTime b'))
      (bu_val (ProofOfStakeLimit p v2)) (bu_val (pos_start p v2 (nHeight b) (nBits b))) /\
    bu_val n <= bu_val (ProofOfStakeLimit p v2).
Proof.
  intros p v2 Hp Hh Hb H1 Ep b' Hb'. destruct (Hh _ _ Hb) as [Ht Hn]. destruct (Hh _ _ Hb') as [Ht' _].
  unfold in_u in Ht, Ht'. unfold next_work_pos. fold p. fold v2.
  rewrite (proj2 (Z.eqb_neq (nHeight b) 0)) by lia. cbn [deref]. rewrite Ep. cbn [deref]. rewrite Hb'.
  cbn [mbind outcome_bind].
  destruct (compact_target_ok (nBits b) Hn) as [Hc _].
  assert (limbs_ok 8 (pos_start p v2 (nHeight b) (nBits b))) as Hs.
  { unfold pos_start. destruct (v2 && _); [|done]. by apply (bu_shl_spec 8). }
  assert (- 2 ^ 32 < nTime b - nTime b' < 2 ^ 32) as Hd by lia.
  destruct (pos_retarget_spec p (TargetTimespan p v2) (pos_spacing p v2 (nTime b - nTime b'))
    (ProofOfStakeLimit p v2) _ Hp (timespan_range p v2 Hp) (pos_spacing_range p v2 _ Hp Hd)
    (pos_limit_ok p v2 Hp) Hs) as (n & E & Hok & Ev & Hle).
  exists n. unfold pos_start in E. cbv zeta in E |- *. rewrite E. done.
Qed.

(** Dark Gravity Wave reads at most 24 blocks, at least one. *)
Record dgw_ok (s : dgw) : Prop := {
  dgw_count_ok : 0 <= dgw_count s <= 24;
  dgw_last_ok : in_u 32 (dgw_last s);
  dgw_span_ok : - 2 ^ 32 * dgw_count s <= dgw_span s <= 2 ^ 32 * dgw_count s;
  dgw_avg_ok : limbs_ok 8 (dgw_avg s);
}.

Lemma dgw_step_ok b s :
  dgw_ok s -> dgw_count s < 24 -> in_u 32 (nTime b) -> in_u 32 (nBits b) ->
  exists s', dgw_step b s = Ok s' /\ dgw_ok s' /\ dgw_count s' = dgw_count s + 1.
Proof.
  intros [Hc Hl Hs Ha] Hlt Ht Hn. unfold dgw_step, PastBlocksMin.
  rewrite (proj2 (Z.leb_le (dgw_count s + 1) 24)) by lia.
  destruct (compact_target_ok (nBits b) Hn) as [Hct _].
  assert (exists avg, (if dgw_count s + 1 =? 1 then Ok (compact_target (nBits b))
     else bu_div (bu_add (bu_mul32 (dgw_avg s) (u32 (dgw_count s + 1))) (compact_target (nBits b)))
            (uint256_of (dgw_count s + 1 + 1))) = Ok avg /\ limbs_ok 8 avg) as (avg & -> & Havg).
  { destruct (dgw_count s + 1 =? 1); [by eexists|].
    destruct (mul32_loop_spec 8 0 (u32 (dgw_count s + 1)) (dgw_avg s) Ha ltac:(lia)
      (wrapu_range 32 _ ltac:(lia))) as [Hm _].
    destruct (bu_add_spec 8 _ _ Hm Hct) as [Hadd _].
    destruct (uint256_of_spec (dgw_count s + 1 + 1)) as [Hd Ed]; [unfold in_u; lia|].
    destruct (bu_div_spec 8 _ _ Hadd Hd ltac:(lia)) as (q & E & Hq & _). by exists q. }
  cbn [mbind outcome_bind]. unfold in_u in *.
  assert (exists sp, (if 0 <? dgw_last s then chk64 (dgw_span s + (dgw_last s - nTime b))
     else Ok (dgw_span s)) = Ok sp /\
     - 2 ^ 32 * (dgw_count s + 1) <= sp <= 2 ^ 32 * (dgw_count s + 1)) as (sp & -> & Hsp).
  { destruct (0 <? dgw_last s); [|eexists; split; [done|lia]].
    rewrite chk64_ok by (unfold in_s; lia). eexists; split; [done|lia]. }
  cbn [mbind outcome_bind]. eexists. split; [done|]. split; [|done]. by split; cbn; try lia.
Qed.

Lemma dgw_loop_ok st fuel p s :
  tree_base st -> header_ok st -> dgw_ok s -> dgw_count s + Z.of_nat fuel <= 24 ->
  match p with Some id => is_Some (st !! id) | None => True end ->
  exists s', dgw_loop st fuel p s = Ok s' /\ dgw_ok s' /\ dgw_count s <= dgw_count s' /\
    (forall id b, p = Some id -> st !! id = Some b -> 1 <= nHeight b -> (1 <= fuel)%nat ->
       dgw_count s < dgw_count s').
Proof.
  intros Hbase Hh. revert p s; induction fuel as [|fuel IH]; intros p s Hs Hc Hp.
  { exists s. assert (dgw_loop st 0 p s = Ok s) as -> by by destruct p.
    split; [done|]. split; [done|]. split; [lia|]. intros. lia. }
  destruct p as [id|]; [|by exists s]. destruct Hp as [b Hb].
  cbn [dgw_loop deref]. rewrite Hb. cbn [mbind outcome_bind].
  destruct (nHeight b <=? 0) eqn:E; bool_to_prop.
  { exists s. split; [done|]. split; [done|]. split; [lia|]. intros id' b' [= <-] Hb' H1.
    rewrite Hb in Hb'. injection Hb' as <-. lia. }
  destruct (Hh _ _ Hb) as [Ht Hn].
  destruct (dgw_step_ok b s Hs ltac:(lia) Ht Hn) as (s1 & -> & Hs1 & Ec). cbn [mbind outcome_bind].
  destruct (IH (pprev b) s1 Hs1 ltac:(lia)) as (s2 & -> & Hs2 & Hle & _).
  { pose proof (tree_prev st Hbase id b Hb) as Hpv. destruct (pprev b); [|done].
    destruct Hpv as (b' & ? & _). by exists b'. }
  exists s2. split; [done|]. split; [done|]. split; [lia|]. intros. lia.
Qed.

Lemma clamp_span_range sp t : 1 <= t < 2 ^ 29 -> 0 <= clamp_span sp t < 2 ^ 32.
Proof.
  intros Ht. unfold clamp_span. rewrite Z.quot_div_nonneg by lia.
  assert (0 <= t / 3 <= t) by (split; [apply Z.div_pos; lia|apply Z.div_le_upper_bound; lia]).
  destruct (sp <? t / 3) eqn:E1; bool_to_prop;
    match goal with |- context [t * 3 <? ?x] => destruct (t * 3 <? x) eqn:E2 end; bool_to_prop; lia.
Qed.

Lemma next_work_pow_ok cp st id b :
  params_ok (consensus cp) -> tree_base st -> header_ok st -> st !! id = Some b -> 1 <= nHeight b ->
  exists n, next_work_pow cp st id = GetCompact n false /\ limbs_ok 8 n /\
    bu_val n <= bu_val (powLimit (consensus cp)).
Proof.
  intros Hp Hbase Hh Hb H1. unfold next_work_pow. pose proof (spacing_ok _ Hp) as Hsp.
  assert (dgw_ok (Dgw 0 0 0 (bu_zero 8))) as H0
    by (split; cbn; try (unfold in_u; lia); apply bu_zero_ok).
  change (Z.to_nat PastBlocksMax) with 24%nat.
  destruct (dgw_loop_ok st 24 (Some id) _ Hbase Hh H0) as (s & -> & Hs & _ & Hpos);
    [done|by exists b|].
  specialize (Hpos id b eq_refl Hb H1 ltac:(lia)). cbn in Hpos.
  cbn [mbind outcome_bind]. pose proof (dgw_count_ok s Hs) as Hc.
  set (target := dgw_count s * nTargetSpacing (consensus cp)).
  assert (1 <= target < 2 ^ 29) as Ht by (unfold target; nia).
  rewrite chk64_ok by (unfold in_s; lia). cbn [mbind outcome_bind].
  rewrite chk64_ok by (unfold in_s; lia). cbn [mbind outcome_bind].
  destruct (mul32_loop_spec 8 0 (u32 (clamp_span (dgw_span s) target)) (dgw_avg s) (dgw_avg_ok s Hs)
    ltac:(lia) (wrapu_range 32 _ ltac:(lia))) as [Hm _].
  destruct (uint256_of_spec target) as [Hd Ed]; [unfold in_u; lia|].
  destruct (bu_div_spec 8 _ _ Hm Hd ltac:(lia)) as (q & E & Hq & _).
  unfold bu_mul32. rewrite E. cbn [mbind outcome_bind]. rewrite (bu_gt 8) by (done || apply Hp).
  eexists. split; [done|].
  destruct (bu_val (powLimit (consensus cp)) <? bu_val q) eqn:Eq; bool_to_prop; [|done].
  split; [apply Hp|done].
Qed.

(** The easiest target that the next block may have. *)
Definition target_limit (cp : CChainParams) (st : store) (pindexLast : positive) (h : Z) : bu :=
  let p := consensus cp in
  if (24 <=? h) && NetworkUpgradeActive p (h + 1) UPGRADE_POS
  then ProofOfStakeLimit p (IsTimeProtocolV2 p (h + 1)) else powLimit p.

(** The difficulty of the next block.  On a well-formed block tree
    [GetNextWorkRequired] terminates without undefined behaviour, division by
    zero or failed assertion; the bits it returns decode without sign and
    overflow to a target that is not above the limit of the rules in force: the
    proof-of-stake limit of the time protocol when proof of stake is active,
    the proof-of-work limit otherwise. *)
Theorem GetNextWorkRequired_within_limit (cp : CChainParams) (st : store) (id : positive) (b : CBlockIndex) :
  params_ok (consensus cp) -> tree_ok st -> header_ok st -> st !! id = Some b ->
  IsRegTestNet cp = false ->
  exists c n, GetNextWorkRequired cp st (Some id) = Ok c /\ in_u 32 c /\
    SetCompact c = (n, false, false) /\
    bu_val n <= bu_val (target_limit cp st id (nHeight b)).
Proof.
  intros Hp [Hbase _] Hh Hb Hreg. unfold GetNextWorkRequired, target_limit.
  rewrite Hreg. cbn [deref]. rewrite Hb. cbn [mbind outcome_bind].
  assert (exists a, (if (nHeight b =? 0) || (nHeight b <? PastBlocksMin)
       then GetCompact (powLimit (consensus cp)) false
       else if NetworkUpgradeActive (consensus cp) (nHeight b + 1) UPGRADE_POS
            then next_work_pos cp st b else next_work_pow cp st id) = GetCompact a false /\ limbs_ok 8 a /\
     bu_val a <= bu_val (if (24 <=? nHeight b) && NetworkUpgradeActive (consensus cp) (nHeight b + 1) UPGRADE_POS
       then ProofOfStakeLimit (consensus cp) (IsTimeProtocolV2 (consensus cp) (nHeight b + 1))
       else powLimit (consensus cp))) as (a & -> & Ha & Hle).
  { unfold PastBlocksMin. destruct (nHeight b <? 24) eqn:E; bool_to_prop.
    - rewrite orb_true_r, (proj2 (Z.leb_gt 24 (nHeight b))) by lia. cbn [andb].
      eexists. split; [done|]. split; [apply Hp|done].
    - rewrite (proj2 (Z.eqb_neq _ 0)), (proj2 (Z.leb_le 24 (nHeight b))) by lia. cbn [orb andb].
      pose proof (tree_prev st Hbase id b Hb) as Hpv.
      destruct (NetworkUpgradeActive (consensus cp) (nHeight b + 1) UPGRADE_POS).
      + destruct (pprev b) as [prev|] eqn:Epp; [|lia]. destruct Hpv as (b' & Hb' & _).
        destruct (next_work_pos_spec cp st id b prev Hp Hh Hb ltac:(lia) Epp b' Hb') as (n & E1 & Hok & _ & Hl).
        exists n. rewrite Hreg in Hl. cbn [negb andb] in Hl. done.
      + apply (next_work_pow_ok cp st id b); done || lia. }
  destruct (GetCompact_le a Ha) as (c & n & Ec & Hc & Hn & Hna).
  exists c, n. split; [done|]. split; [done|]. split; [done|lia].
Qed.

Lemma mainParams_ok : params_ok mainParams.
Proof.
  split; try (cbn; lia); refine (bool_decide_unpack _ _); vm_compute; exact I.
Qed.

Lemma example_header_ok : header_ok example_store.
Proof.
  assert (map_Forall (fun _ b => in_u 32 (nTime b) /\ in_u 32 (nBits b)) example_store) as H
    by (refine (bool_decide_unpack _ _); vm_compute; exact I).
  exact H.
Qed.

Lemma GetNextWorkRequired_within_limit_witness :
  exists c n, GetNextWorkRequired mainChainParams example_store (Some 4%positive) = Ok c /\ in_u 32 c /\
    SetCompact c = (n, false, false) /\
    bu_val n <= bu_val (target_limit mainChainParams example_store 4 3).
Proof.
  apply (GetNextWorkRequired_within_limit mainChainParams example_store 4
    (example_entry (Some 3%positive) (Some 2%positive) 3 280)).
  - exact mainParams_ok.
  - exact example_store_ok.
  - exact example_header_ok.
  - reflexivity.
  - reflexivity.
Defined.

(** The proof-of-stake retarget.  From height 24 on, when proof of stake
    is active for the next block, the required bits encode the target
    [pos_target]: the previous target times (interval - 1) * spacing + twice
    the clamped time since the previous block, divided by (interval + 1) *
    spacing, in the arithmetic modulo 2^32 and 2^256 of the code, and replaced
    by the limit when it is zero or above it. *)
Theorem GetNextWorkRequired_pos (cp : CChainParams) (st : store) (id prev : positive) (b b' : CBlockIndex) :
  let p := consensus cp in
  let v2 := IsTimeProtocolV2 p (nHeight b + 1) in
  params_ok p -> header_ok st -> IsRegTestNet cp = false ->
  st !! id = Some b -> 24 <= nHeight b -> NetworkUpgradeActive p (nHeight b + 1) UPGRADE_POS = true ->
  pprev b = Some prev -> st !! prev = Some b' ->
  exists n, GetNextWorkRequired cp st (Some id) = GetCompact n false /\ limbs_ok 8 n /\
    bu_val n = pos_target p (TargetTimespan p v2) (pos_spacing p v2 (nTime b - nTime b'))
      (bu_val (ProofOfStakeLimit p v2)) (bu_val (pos_start p v2 (nHeight b) (nBits b))).
Proof.
  intros p v2 Hp Hh Hreg Hb H24 Hpos Epp Hb'.
  destruct (next_work_pos_spec cp st id b prev Hp Hh Hb ltac:(lia) Epp b' Hb') as (n & E & Hok & Ev & _).
  fold p in Ev. rewrite Hreg in Ev. cbn [negb andb] in Ev. fold v2 in Ev.
  exists n. split; [|done]. rewrite <- E. unfold GetNextWorkRequired, PastBlocksMin.
  rewrite Hreg. cbn [deref]. rewrite Hb. cbn [mbind outcome_bind]. fold p.
  rewrite (proj2 (Z.eqb_neq _ 0)), (proj2 (Z.ltb_ge _ 24)) by lia. cbn [orb]. by rewrite Hpos.
Qed.

(** Two blocks after the activation of proof of stake on the main network. *)
Definition pos_store : store := list_to_map
  [(1%positive, example_entry None None 600 1000000);
   (2%positive, example_entry (Some 1%positive) None 601 1000090)].

Lemma GetNextWorkRequired_pos_witness :
  exists n, GetNextWorkRequired mainChainParams pos_store (Some 2%positive) = GetCompact n false /\
    limbs_ok 8 n /\
    bu_val n = pos_target mainParams (TargetTimespan mainParams false) (pos_spacing mainParams false 90)
      (bu_val (ProofOfStakeLimit mainParams false)) (bu_val (pos_start mainParams false 601 0x1e0ffff0)).
Proof.
  apply (GetNextWorkRequired_pos mainChainParams pos_store 2 1
    (example_entry (Some 1%positive) None 601 1000090) (example_entry None None 600 1000000)).
  - exact mainParams_ok.
  - assert (map_Forall (fun _ b => in_u 32 (nTime b) /\ in_u 32 (nBits b)) pos_store) as H
      by (refine (bool_decide_unpack _ _); vm_compute; exact I).
    exact H.
  - reflexivity.
  - reflexivity.
  - cbn. lia.
  - reflexivity.
  - reflexivity.
  - reflexivity.
Defined.

(** [CheckProofOfWork] accepts exactly the hashes that are at most the
    target the bits denote, when that target is positive, not marked negative
    and not above the proof-of-work limit. *)
Theorem CheckProofOfWork_iff (cp : CChainParams) (hash : bu) (nBits : Z) :
  IsRegTestNet cp = false -> limbs_ok 8 (powLimit (consensus cp)) -> limbs_ok 8 hash -> in_u 32 nBits ->
  CheckProofOfWork cp hash nBits = true <->
  0 < compact_value nBits <= bu_val (powLimit (consensus cp)) /\ Z.testbit nBits 23 = false /\
  bu_val hash <= compact_value nBits.
Proof.
  intros Hreg Hlim Hh Hn. unfold CheckProofOfWork. rewrite Hreg.
  pose proof (SetCompact_value nBits Hn) as S. destruct (SetCompact nBits) as [[t neg] ovf].
  destruct S as (Hok & Ev & -> & ->). rewrite (bu_is_zero_spec 8), !(bu_gt 8) by done.
  pose proof (bu_range 8 _ Hlim) as Rl. change (32 * Z.of_nat 8) with 256 in Rl.
  set (v := compact_value nBits) in *.
  assert (0 <= v) as Hv.
  { unfold v, compact_value. unfold in_u in Hn. apply Z.div_pos; [|lia].
    apply Z.mul_nonneg_nonneg; [apply Z.mod_pos_bound; lia|lia]. }
  destruct (2 ^ 256 <=? v) eqn:Eo; bool_to_prop.
  - rewrite !orb_true_r. split; [done|lia].
  - rewrite Z.mod_small in Ev by lia. rewrite Ev.
    destruct (v =? 0) eqn:Ez, (Z.testbit nBits 23) eqn:Eb, (bu_val (powLimit (consensus cp)) <? v) eqn:El,
      (v <? bu_val hash) eqn:Eh; bool_to_prop; cbn [negb andb orb]; (split; [intros ?; try done|]);
      try (intros (? & ? & ?); done || lia); repeat split_and; try done; lia.
Qed.

Lemma CheckProofOfWork_iff_witness :
  CheckProofOfWork mainChainParams (uint256_of 5) 0x1e0ffff0 = true <->
  0 < compact_value 0x1e0ffff0 <= bu_val (powLimit mainParams) /\ Z.testbit 0x1e0ffff0 23 = false /\
  bu_val (uint256_of 5) <= compact_value 0x1e0ffff0.
Proof.
  apply (CheckProofOfWork_iff mainChainParams).
  - reflexivity.
  - exact (pow_ok _ mainParams_ok).
  - apply uint256_of_spec. split; [discriminate|reflexivity].
  - split; [discriminate|reflexivity].
Defined.

Lemma compact_value_not_max c : compact_value c <> 2 ^ 256 - 1.
Proof.
  unfold compact_value. set (m := c mod 2 ^ 23). set (e := c / 2 ^ 24).
  assert (0 <= m < 2 ^ 23) as Hm by (apply Z.mod_pos_bound; lia).
  destruct (Z.lt_ge_cases e 0) as [Hneg|Hpos].
  { rewrite Z.pow_neg_r, Z.mul_0_r by lia. done. }
  destruct (Z.le_gt_cases e 3).
  - rewrite compact_value_small by lia.
    assert (in_u 23 (m ≫ (8 * (3 - e)))) as Hv by (apply shiftr_in_u; unfold in_u; lia).
    unfold in_u in Hv. lia.
  - rewrite compact_value_large by lia. intros E.
    replace (256 ^ (e - 3)) with (256 * 256 ^ (e - 4)) in E
      by (rewrite <- Z.pow_succ_r by lia; f_equal; lia).
    assert ((m * (256 * 256 ^ (e - 4))) mod 256 = 0) as E0.
    { replace (m * (256 * 256 ^ (e - 4))) with (m * 256 ^ (e - 4) * 256) by lia. by apply Z.mod_mul. }
    rewrite E in E0. done.
Qed.

(** [GetBlockProof] is the expected number of hashes, 2^256 divided by the
    target plus one, although no intermediate value exceeds 256 bits; it is
    zero for bits that denote no positive 256-bit target. *)
Theorem GetBlockProof_is_work (nBits : Z) :
  in_u 32 nBits ->
  exists n, GetBlockProof nBits = Ok n /\ limbs_ok 8 n /\
    bu_val n =
      if (0 <? compact_value nBits) && (compact_value nBits <? 2 ^ 256) && negb (Z.testbit nBits 23)
      then 2 ^ 256 / (compact_value nBits + 1) else 0.
Proof.
  intros Hn. unfold GetBlockProof.
  pose proof (SetCompact_value nBits Hn) as S. destruct (SetCompact nBits) as [[t neg] ovf].
  destruct S as (Hok & Ev & -> & ->). rewrite (bu_is_zero_spec 8) by done.
  pose proof (compact_value_not_max nBits) as Hmax. set (v := compact_value nBits) in *.
  assert (0 <= v) as Hv.
  { unfold v, compact_value. unfold in_u in Hn. apply Z.div_pos; [|lia].
    apply Z.mul_nonneg_nonneg; [apply Z.mod_pos_bound; lia|lia]. }
  destruct (2 ^ 256 <=? v) eqn:Eo; bool_to_prop.
  { exists (bu_zero 8). rewrite orb_true_r. cbn [orb]. split; [done|]. split; [apply bu_zero_ok|].
    rewrite bu_zero_val, (proj2 (Z.ltb_ge v (2 ^ 256))) by lia. by rewrite andb_false_r. }
  rewrite Z.mod_small in Ev by lia. rewrite Ev, (proj2 (Z.ltb_lt v (2 ^ 256))), andb_true_r by lia.
  destruct (v =? 0) eqn:Ez; bool_to_prop.
  { exists (bu_zero 8). rewrite orb_true_r. split; [done|]. split; [apply bu_zero_ok|].
    rewrite bu_zero_val, Ez. done. }
  rewrite (proj2 (Z.ltb_lt 0 v)) by lia. cbn [negb andb orb].
  destruct (Z.testbit nBits 23); cbn [negb orb].
  { exists (bu_zero 8). split; [done|]. split; [apply bu_zero_ok|]. by rewrite bu_zero_val. }
  destruct (uint256_of_spec 1) as [H1 E1]; [unfold in_u; lia|].
  destruct (bu_not_spec 8 t Hok) as [Hnot Enot]. change (32 * Z.of_nat 8) with 256 in Enot.
  destruct (bu_add_spec 8 _ _ Hok H1) as [Hadd Eadd]. change (32 * Z.of_nat 8) with 256 in Eadd.
  rewrite E1, Ev, Z.mod_small in Eadd by lia.
  destruct (bu_div_spec 8 _ _ Hnot Hadd ltac:(lia)) as (q & -> & Hq & Eq). cbn [mbind outcome_bind].
  destruct (bu_add_spec 8 _ _ Hq H1) as [Hr Er]. change (32 * Z.of_nat 8) with 256 in Er.
  exists (bu_add q (uint256_of 1)). split; [done|]. split; [done|].
  assert (bu_val q + 1 = 2 ^ 256 / (v + 1)) as E.
  { rewrite Eq, Enot, Eadd, Ev. rewrite <- (Z.div_add _ 1) by lia. f_equal. lia. }
  rewrite Er, E1, E. apply Z.mod_small. split; [apply Z.div_pos; lia|].
  apply Z.div_lt_upper_bound; nia.
Qed.

Lemma GetBlockProof_is_work_witness :
  exists n, GetBlockProof 0x1e0ffff0 = Ok n /\ limbs_ok 8 n /\
    bu_val n =
      if (0 <? compact_value 0x1e0ffff0) && (compact_value 0x1e0ffff0 <? 2 ^ 256)
         && negb (Z.testbit 0x1e0ffff0 23)
      then 2 ^ 256 / (compact_value 0x1e0ffff0 + 1) else 0.
Proof. apply (GetBlockProof_is_work 0x1e0ffff0). split; [discriminate|reflexivity]. Defined.
