(* ===== verification/Script.v ===== *)
(** * Scripts: script/script.h and script/script.cpp

    The opcodes, [CScriptNum], and [CScript]: writing pushes, reading
    instructions, counting signature operations and recognising the standard
    forms.  A script is the list of its bytes, and an iterator into a script is
    the list of the bytes from it to the end. *)
From S2P Require Import Prelude Serialize.

Notation valtype := (list Z) (only parsing).
Notation CScript := (list Z) (only parsing).

Definition MAX_SCRIPT_ELEMENT_SIZE : Z := 520.
Definition MAX_SCRIPT_SIZE : Z := 10000.
Definition LOCKTIME_THRESHOLD : Z := 500000000.

(** ** opcodetype

    The enumerators are the named values; every byte is a value of the type. *)

(* push value *)
Definition OP_0 : Z := 0x00.
Definition OP_FALSE : Z := OP_0.
Definition OP_PUSHDATA1 : Z := 0x4c.
Definition OP_PUSHDATA2 : Z := 0x4d.
Definition OP_PUSHDATA4 : Z := 0x4e.
Definition OP_1NEGATE : Z := 0x4f.
Definition OP_RESERVED : Z := 0x50.
Definition OP_1 : Z := 0x51.
Definition OP_TRUE : Z := OP_1.
Definition OP_2 : Z := 0x52.
Definition OP_3 : Z := 0x53.
Definition OP_4 : Z := 0x54.
Definition OP_5 : Z := 0x55.
Definition OP_6 : Z := 0x56.
Definition OP_7 : Z := 0x57.
Definition OP_8 : Z := 0x58.
Definition OP_9 : Z := 0x59.
Definition OP_10 : Z := 0x5a.
Definition OP_11 : Z := 0x5b.
Definition OP_12 : Z := 0x5c.
Definition OP_13 : Z := 0x5d.
Definition OP_14 : Z := 0x5e.
Definition OP_15 : Z := 0x5f.
Definition OP_16 : Z := 0x60.

(* control *)
Definition OP_NOP : Z := 0x61.
Definition OP_VER : Z := 0x62.
Definition OP_IF : Z := 0x63.
Definition OP_NOTIF : Z := 0x64.
Definition OP_VERIF : Z := 0x65.
Definition OP_VERNOTIF : Z := 0x66.
Definition OP_ELSE : Z := 0x67.
Definition OP_ENDIF : Z := 0x68.
Definition OP_VERIFY : Z := 0x69.
Definition OP_RETURN : Z := 0x6a.

(* stack ops *)
Definition OP_TOALTSTACK : Z := 0x6b.
Definition OP_FROMALTSTACK : Z := 0x6c.
Definition OP_2DROP : Z := 0x6d.
Definition OP_2DUP : Z := 0x6e.
Definition OP_3DUP : Z := 0x6f.
Definition OP_2OVER : Z := 0x70.
Definition OP_2ROT : Z := 0x71.
Definition OP_2SWAP : Z := 0x72.
Definition OP_IFDUP : Z := 0x73.
Definition OP_DEPTH : Z := 0x74.
Definition OP_DROP : Z := 0x75.
Definition OP_DUP : Z := 0x76.
Definition OP_NIP : Z := 0x77.
Definition OP_OVER : Z := 0x78.
Definition OP_PICK : Z := 0x79.
Definition OP_ROLL : Z := 0x7a.
Definition OP_ROT : Z := 0x7b.
Definition OP_SWAP : Z := 0x7c.
Definition OP_TUCK : Z := 0x7d.

(* splice ops *)
Definition OP_CAT : Z := 0x7e.
Definition OP_SUBSTR : Z := 0x7f.
Definition OP_LEFT : Z := 0x80.
Definition OP_RIGHT : Z := 0x81.
Definition OP_SIZE : Z := 0x82.

(* bit logic *)
Definition OP_INVERT : Z := 0x83.
Definition OP_AND : Z := 0x84.
Definition OP_OR : Z := 0x85.
Definition OP_XOR : Z := 0x86.
Definition OP_EQUAL : Z := 0x87.
Definition OP_EQUALVERIFY : Z := 0x88.
Definition OP_RESERVED1 : Z := 0x89.
Definition OP_RESERVED2 : Z := 0x8a.

(* numeric *)
Definition OP_1ADD : Z := 0x8b.
Definition OP_1SUB : Z := 0x8c.
Definition OP_2MUL : Z := 0x8d.
Definition OP_2DIV : Z := 0x8e.
Definition OP_NEGATE : Z := 0x8f.
Definition OP_ABS : Z := 0x90.
Definition OP_NOT : Z := 0x91.
Definition OP_0NOTEQUAL : Z := 0x92.
Definition OP_ADD : Z := 0x93.
Definition OP_SUB : Z := 0x94.
Definition OP_MUL : Z := 0x95.
Definition OP_DIV : Z := 0x96.
Definition OP_MOD : Z := 0x97.
Definition OP_LSHIFT : Z := 0x98.
Definition OP_RSHIFT : Z := 0x99.
Definition OP_BOOLAND : Z := 0x9a.
Definition OP_BOOLOR : Z := 0x9b.
Definition OP_NUMEQUAL : Z := 0x9c.
Definition OP_NUMEQUALVERIFY : Z := 0x9d.
Definition OP_NUMNOTEQUAL : Z := 0x9e.
Definition OP_LESSTHAN : Z := 0x9f.
Definition OP_GREATERTHAN : Z := 0xa0.
Definition OP_LESSTHANOREQUAL : Z := 0xa1.
Definition OP_GREATERTHANOREQUAL : Z := 0xa2.
Definition OP_MIN : Z := 0xa3.
Definition OP_MAX : Z := 0xa4.
Definition OP_WITHIN : Z := 0xa5.

(* crypto *)
Definition OP_RIPEMD160 : Z := 0xa6.
Definition OP_SHA1 : Z := 0xa7.
Definition OP_SHA256 : Z := 0xa8.
Definition OP_HASH160 : Z := 0xa9.
Definition OP_HASH256 : Z := 0xaa.
Definition OP_CODESEPARATOR : Z := 0xab.
Definition OP_CHECKSIG : Z := 0xac.
Definition OP_CHECKSIGVERIFY : Z := 0xad.
Definition OP_CHECKMULTISIG : Z := 0xae.
Definition OP_CHECKMULTISIGVERIFY : Z := 0xaf.

(* expansion *)
Definition OP_NOP1 : Z := 0xb0.
Definition OP_NOP2 : Z := 0xb1.
Definition OP_CHECKLOCKTIMEVERIFY : Z := OP_NOP2.
Definition OP_NOP3 : Z := 0xb2.
Definition OP_NOP4 : Z := 0xb3.
Definition OP_NOP5 : Z := 0xb4.
Definition OP_NOP6 : Z := 0xb5.
Definition OP_NOP7 : Z := 0xb6.
Definition OP_NOP8 : Z := 0xb7.
Definition OP_NOP9 : Z := 0xb8.
Definition OP_NOP10 : Z := 0xb9.

(* zerocoin *)
Definition OP_ZEROCOINMINT : Z := 0xc1.
Definition OP_ZEROCOINSPEND : Z := 0xc2.
Definition OP_ZEROCOINPUBLICSPEND : Z := 0xc3.

(* cold staking *)
Definition OP_CHECKCOLDSTAKEVERIFY : Z := 0xd1.
Definition OP_INVALIDOPCODE : Z := 0xff.
(** ** CScriptNum: an int64_t *)
Notation CScriptNum := Z (only parsing).

Definition nDefaultMaxNumSize : Z := 4.
Definition INT64_MAX : Z := 2 ^ 63 - 1.
Definition INT64_MIN : Z := - 2 ^ 63.

(** The result of a signed 64-bit operation; an overflow is undefined. *)
Definition int64_result {E} (x : Z) : outcome E Z :=
  if decide (in_s 64 x) then Ok x else Abort.

Fixpoint set_vch_loop {E} (i : nat) (vch : valtype) (result : Z) : outcome E Z :=
  match vch with
  | [] => Ok result
  | b :: vch =>
      if 64 <=? 8 * Z.of_nat i then Abort else
      x ← int64_result (Z.shiftl b (8 * Z.of_nat i));
      set_vch_loop (S i) vch (Z.lor result x)
  end.

Definition set_vch {E} (vch : valtype) : outcome E Z :=
  match last vch with
  | None => Ok 0
  | Some msb =>
      result ← set_vch_loop 0 vch 0;
      if negb (Z.land msb 0x80 =? 0) then
        int64_result (- i64 (Z.ldiff (u64 result) (Z.shiftl 0x80 (8 * (zlen vch - 1)))))
      else Ok result
  end.

(** Whether the constructor rejects [vch] as not minimally encoded. *)
Definition non_minimal (vch : valtype) : bool :=
  match reverse vch with
  | [] => false
  | msb :: tl =>
      (Z.land msb 0x7f =? 0)
      && match tl with [] => true | second :: _ => Z.land second 0x80 =? 0 end
  end.

(** The constructor from bytes. *)
Definition ScriptNum {E} (vch : valtype) (fRequireMinimal : bool) (nMaxNumSize : Z)
  : outcome E CScriptNum :=
  if nMaxNumSize <? zlen vch then Throw
  else if fRequireMinimal && non_minimal vch then Throw
  else set_vch vch.

Definition num_add {E} (m_value rhs : CScriptNum) : outcome E CScriptNum := int64_result (m_value + rhs).
Definition num_sub {E} (m_value rhs : CScriptNum) : outcome E CScriptNum := int64_result (m_value - rhs).
Definition num_neg {E} (m_value : CScriptNum) : outcome E CScriptNum :=
  cassert (negb (m_value =? INT64_MIN));;
  int64_result (- m_value).
Definition num_add_assign {E} (m_value rhs : CScriptNum) : outcome E CScriptNum :=
  cassert ((rhs =? 0) || (0 <? rhs) && (m_value <=? INT64_MAX - rhs)
           || (rhs <? 0) && (INT64_MIN - rhs <=? m_value));;
  int64_result (m_value + rhs).
Definition num_sub_assign {E} (m_value rhs : CScriptNum) : outcome E CScriptNum :=
  cassert ((rhs =? 0) || (0 <? rhs) && (INT64_MIN + rhs <=? m_value)
           || (rhs <? 0) && (m_value <=? INT64_MAX + rhs));;
  int64_result (m_value - rhs).

Definition getint (m_value : CScriptNum) : Z :=
  if 2 ^ 31 - 1 <? m_value then 2 ^ 31 - 1
  else if m_value <? - 2 ^ 31 then - 2 ^ 31
  else m_value.

(** The bytes of a 64-bit number without leading zeros. *)
Fixpoint abs_bytes (fuel : nat) (absvalue : Z) : valtype :=
  match fuel with
  | O => []
  | S fuel =>
      if absvalue =? 0 then []
      else Z.land absvalue 0xff :: abs_bytes fuel (Z.shiftr absvalue 8)
  end.

Definition serialize (value : Z) : valtype :=
  if value =? 0 then [] else
  let neg := value <? 0 in
  let absvalue := if neg then u64 (u64 (Z.lnot (u64 value)) + 1) else u64 value in
  let result := abs_bytes 8 absvalue in
  match last result with
  | None => result
  | Some back =>
      if negb (Z.land back 0x80 =? 0) then result ++ [if neg then 0x80 else 0]
      else if neg then removelast result ++ [Z.lor back 0x80]
      else result
  end.
Definition getvch (m_value : CScriptNum) : valtype := serialize m_value.

(** ** Writing scripts *)

Definition push_opcode {E} (s : CScript) (opcode : Z) : outcome E CScript :=
  if (opcode <? 0) || (0xff <? opcode) then Throw else Ok (s ++ [opcode]).

Definition push_data (s : CScript) (b : valtype) : CScript :=
  s ++ (if zlen b <? OP_PUSHDATA1 then [u8 (zlen b)]
        else if zlen b <=? 0xff then [OP_PUSHDATA1; u8 (zlen b)]
        else if zlen b <=? 0xffff then OP_PUSHDATA2 :: WriteLE16 (u16 (zlen b))
        else OP_PUSHDATA4 :: WriteLE32 (u32 (zlen b))) ++ b.

Definition push_int64 (s : CScript) (n : Z) : CScript :=
  if (n =? -1) || (1 <=? n) && (n <=? 16) then s ++ [u8 (n + (OP_1 - 1))]
  else if n =? 0 then s ++ [OP_0]
  else push_data s (serialize n).

Definition DecodeOP_N {E} (opcode : Z) : outcome E Z :=
  if opcode =? OP_0 then Ok 0 else
  cassert ((OP_1 <=? opcode) && (opcode <=? OP_16));;
  Ok (opcode - (OP_1 - 1)).

Definition EncodeOP_N {E} (n : Z) : outcome E Z :=
  cassert ((0 <=? n) && (n <=? 16));;
  if n =? 0 then Ok OP_0 else Ok (OP_1 + n - 1).

(** ** Reading scripts *)

(** What [GetOp2] returns and leaves in its reference arguments: the iterator
    can have moved when it returns false. *)
Record getop := GetOpResult { ret : bool; opcodeRet : Z; vchRet : valtype; pcRet : CScript }.

Definition getop_fail (pc : CScript) : getop := GetOpResult false OP_INVALIDOPCODE [] pc.

Definition getop_data (opcode nSize : Z) (pc : CScript) : getop :=
  if zlen pc <? nSize then getop_fail pc
  else GetOpResult true opcode (take (Z.to_nat nSize) pc) (drop (Z.to_nat nSize) pc).

Definition GetOp (pc : CScript) : getop :=
  match pc with
  | [] => getop_fail pc
  | opcode :: pc =>
      if opcode <=? OP_PUSHDATA4 then
        if opcode <? OP_PUSHDATA1 then getop_data opcode opcode pc
        else if opcode =? OP_PUSHDATA1 then
          match pc with
          | [] => getop_fail pc
          | nSize :: pc => getop_data opcode nSize pc
          end
        else if opcode =? OP_PUSHDATA2 then
          if zlen pc <? 2 then getop_fail pc else getop_data opcode (ReadLE16 pc) (drop 2 pc)
        else
          if zlen pc <? 4 then getop_fail pc else getop_data opcode (ReadLE32 pc) (drop 4 pc)
      else GetOpResult true opcode [] pc
  end.

(** The bytes between two iterators, the second not before the first. *)
Definition range (pc pc' : CScript) : CScript := take (length pc - length pc') pc.

Definition is_prefix (b pc : CScript) : bool :=
  (zlen b <=? zlen pc) && bool_decide (take (length b) pc = b).

(** The inner loop of [FindAndDelete]; [b] is not empty. *)
Fixpoint skip_matches (fuel : nat) (b pc : CScript) (nFound : Z) : CScript * Z :=
  match fuel with
  | O => (pc, nFound)
  | S fuel =>
      if is_prefix b pc then skip_matches fuel b (drop (length b) pc) (nFound + 1)
      else (pc, nFound)
  end.

Fixpoint find_and_delete_loop (fuel : nat) (b : CScript) (result pc2 pc : CScript) (nFound : Z)
  : CScript * CScript * Z :=
  let result := result ++ range pc2 pc in
  let '(pc, nFound) := skip_matches (length pc) b pc nFound in
  match fuel with
  | O => (result, pc, nFound)
  | S fuel =>
      let g := GetOp pc in
      if ret g then find_and_delete_loop fuel b result pc (pcRet g) nFound
      else (result, pc, nFound)
  end.

(** [FindAndDelete]: the script it leaves and the number it returns. *)
Definition FindAndDelete (s b : CScript) : CScript * Z :=
  match b with
  | [] => (s, 0)
  | _ =>
      let '(result, pc2, nFound) := find_and_delete_loop (length s) b [] s s 0 in
      if 0 <? nFound then (result ++ pc2, nFound) else (s, nFound)
  end.

Fixpoint find_loop (fuel : nat) (op : Z) (pc : CScript) (nFound : Z) : Z :=
  match fuel with
  | O => nFound
  | S fuel =>
      let g := GetOp pc in
      if ret g then find_loop fuel op (pcRet g) (if opcodeRet g =? op then nFound + 1 else nFound)
      else nFound
  end.
Definition Find (s : CScript) (op : Z) : Z := find_loop (length s) op s 0.

Fixpoint sigop_loop {E} (fuel : nat) (fAccurate : bool) (pc : CScript) (lastOpcode n : Z)
  : outcome E Z :=
  match fuel with
  | O => Ok n
  | S fuel =>
      let g := GetOp pc in
      if ret g then
        let opcode := opcodeRet g in
        n ← (if (opcode =? OP_CHECKSIG) || (opcode =? OP_CHECKSIGVERIFY) then Ok (u32 (n + 1))
             else if (opcode =? OP_CHECKMULTISIG) || (opcode =? OP_CHECKMULTISIGVERIFY) then
               if fAccurate && (OP_1 <=? lastOpcode) && (lastOpcode <=? OP_16)
               then k ← DecodeOP_N lastOpcode; Ok (u32 (n + k))
               else Ok (u32 (n + 20))
             else Ok n);
        sigop_loop fuel fAccurate (pcRet g) opcode n
      else Ok n
  end.
Definition GetSigOpCount {E} (s : CScript) (fAccurate : bool) : outcome E Z :=
  sigop_loop (length s) fAccurate s OP_INVALIDOPCODE 0.

(** ** The standard forms *)

Definition byte_is (s : CScript) (i : nat) (b : Z) : bool :=
  match s !! i with Some x => x =? b | None => false end.

Definition IsPayToPublicKeyHash (s : CScript) : bool :=
  (zlen s =? 25) && byte_is s 0 OP_DUP && byte_is s 1 OP_HASH160 && byte_is s 2 0x14
  && byte_is s 23 OP_EQUALVERIFY && byte_is s 24 OP_CHECKSIG.
Definition IsPayToWitnessPubkeyHash (s : CScript) : bool :=
  (zlen s =? 22) && byte_is s 0 OP_0 && byte_is s 1 0x14.
Definition IsPayToScriptHash (s : CScript) : bool :=
  (zlen s =? 23) && byte_is s 0 OP_HASH160 && byte_is s 1 0x14 && byte_is s 22 OP_EQUAL.
Definition IsPayToColdStaking (g_IsV6Active : bool) (s : CScript) : bool :=
  (zlen s =? 51)
  && (negb g_IsV6Active || byte_is s 0 OP_DUP)
  && (negb g_IsV6Active || byte_is s 1 OP_HASH160)
  && byte_is s 2 OP_ROT
  && (negb g_IsV6Active || byte_is s 3 OP_IF)
  && byte_is s 4 OP_CHECKCOLDSTAKEVERIFY
  && byte_is s 5 0x14
  && (negb g_IsV6Active || byte_is s 26 OP_ELSE)
  && byte_is s 27 0x14
  && (negb g_IsV6Active || byte_is s 48 OP_ENDIF)
  && byte_is s 49 OP_EQUALVERIFY
  && byte_is s 50 OP_CHECKSIG.

Definition StartsWithOpcode (s : CScript) (opcode : Z) : bool := byte_is s 0 opcode.
Definition IsZerocoinMint (s : CScript) : bool := StartsWithOpcode s OP_ZEROCOINMINT.
Definition IsZerocoinSpend (s : CScript) : bool := StartsWithOpcode s OP_ZEROCOINSPEND.
Definition IsZerocoinPublicSpend (s : CScript) : bool := StartsWithOpcode s OP_ZEROCOINPUBLICSPEND.
Definition IsUnspendable (s : CScript) : bool :=
  byte_is s 0 OP_RETURN || (MAX_SCRIPT_SIZE <? zlen s).

(** [IsPushOnly] from the iterator [pc]; [fuel] instructions at most. *)
Fixpoint push_only_loop (fuel : nat) (pc : CScript) : bool :=
  match pc, fuel with
  | [], _ => true
  | _, O => false
  | _, S fuel =>
      let g := GetOp pc in
      ret g && (opcodeRet g <=? OP_16) && push_only_loop fuel (pcRet g)
  end.
Definition IsPushOnly (pc : CScript) : bool := push_only_loop (length pc) pc.

(** The second [GetSigOpCount]: of a pay-to-script-hash output, with the script
    that spends it. *)
Fixpoint last_push_loop (fuel : nat) (pc : CScript) (data : valtype) : option valtype :=
  match pc, fuel with
  | [], _ => Some data
  | _, O => None
  | _, S fuel =>
      let g := GetOp pc in
      if negb (ret g) then None
      else if OP_16 <? opcodeRet g then None
      else last_push_loop fuel (pcRet g) (vchRet g)
  end.
Definition GetSigOpCountP2SH {E} (s scriptSig : CScript) : outcome E Z :=
  if negb (IsPayToScriptHash s) then GetSigOpCount s true else
  match last_push_loop (length scriptSig) scriptSig [] with
  | None => Ok 0
  | Some data => GetSigOpCount data true
  end.

(** ** CScriptNum: facts *)

(** The number a byte string denotes: sign and magnitude, little-endian. *)
Definition num_value (vch : valtype) : Z :=
  match last vch with
  | None => 0
  | Some msb =>
      if 128 <=? msb then - (le_val vch - 2 ^ (8 * zlen vch - 1)) else le_val vch
  end.

(** A boolean fact about every byte, checked on the 256 of them. *)
Lemma byte_check (f : Z -> bool) b :
  forallb f (map Z.of_nat (seq 0 256)) = true -> byte_ok b -> f b = true.
Proof.
  intros H Hb. unfold byte_ok in Hb. eapply forallb_forall in H; [exact H|].
  apply in_map_iff. exists (Z.to_nat b). split; [lia|]. apply in_seq. lia.
Qed.

Lemma sign_bit b : byte_ok b -> (Z.land b 0x80 =? 0) = (b <? 128).
Proof. intros H. apply eqb_prop. exact (byte_check (fun b => eqb (Z.land b 0x80 =? 0) (b <? 128)) b eq_refl H). Qed.
Lemma magnitude_bits b : byte_ok b -> Z.land b 0x7f = if b <? 128 then b else b - 128.
Proof.
  intros H. apply Z.eqb_eq.
  exact (byte_check (fun b => Z.land b 0x7f =? if b <? 128 then b else b - 128) b eq_refl H).
 Qed.
Lemma set_sign_bit b : byte_ok b -> Z.lor b 0x80 = if b <? 128 then b + 128 else b.
Proof.
  intros H. apply Z.eqb_eq.
  exact (byte_check (fun b => Z.lor b 0x80 =? if b <? 128 then b + 128 else b) b eq_refl H).
 Qed.

Lemma int64_result_ok {E} x : in_s 64 x -> int64_result (E := E) x = Ok x.
Proof. intros H. unfold int64_result. by rewrite decide_True. Qed.

Lemma pow_byte i n : 0 <= i -> 0 <= n -> 2 ^ (8 * (i + n)) = 2 ^ (8 * i) * 2 ^ (8 * n).
Proof. intros. rewrite <- Z.pow_add_r by lia. f_equal. lia. Qed.

Lemma set_vch_loop_spec {E} vch : forall i result,
  bytes_ok vch -> (i + length vch <= 7)%nat -> 0 <= result < 2 ^ (8 * Z.of_nat i) ->
  set_vch_loop (E := E) i vch result = Ok (result + le_val vch * 2 ^ (8 * Z.of_nat i)).
Proof.
  induction vch as [|b vch IH]; intros i result Hb Hi Hr.
  { cbn. f_equal. lia. }
  inversion Hb as [|? ? Hb0 Hbs]; subst. cbn [length] in Hi. cbn [set_vch_loop le_val].
  assert (64 <=? 8 * Z.of_nat i = false) as -> by (apply Z.leb_gt; lia).
  unfold byte_ok in Hb0.
  assert (2 ^ (8 * Z.of_nat i) <= 2 ^ 48) by (apply Z.pow_le_mono_r; lia).
  rewrite int64_result_ok.
  2:{ rewrite Z.shiftl_mul_pow2 by lia. unfold in_s. change (2 ^ 48) with 281474976710656 in *.
      change (2 ^ (64 - 1)) with 9223372036854775808. nia. }
  cbn [mbind outcome_bind].
  rewrite lor_shiftl_add by lia. rewrite IH; [|done|lia|].
  - f_equal. replace (Z.of_nat (S i)) with (Z.of_nat i + 1) by lia.
    rewrite pow_byte by lia. change (2 ^ (8 * 1)) with 256. lia.
  - replace (Z.of_nat (S i)) with (Z.of_nat i + 1) by lia.
    rewrite pow_byte by lia. change (2 ^ (8 * 1)) with 256. nia.
Qed.

Lemma le_val_snoc lo b : le_val (lo ++ [b]) = le_val lo + 2 ^ (8 * zlen lo) * b.
Proof. rewrite le_val_app. cbn [le_val]. lia. Qed.

Lemma zlen_snoc {A} (l : list A) x : zlen (l ++ [x]) = zlen l + 1.
Proof. rewrite length_app. cbn. lia. Qed.

Lemma pow_sign n : 0 <= n -> 2 ^ (8 * (n + 1) - 1) = 128 * 2 ^ (8 * n).
Proof.
  intros. replace (8 * (n + 1) - 1) with (7 + 8 * n) by lia. by rewrite Z.pow_add_r by lia.
Qed.

Lemma num_value_snoc lo b :
  num_value (lo ++ [b]) =
  if 128 <=? b then - (le_val lo + 2 ^ (8 * zlen lo) * (b - 128))
  else le_val lo + 2 ^ (8 * zlen lo) * b.
Proof.
  unfold num_value. rewrite last_snoc, le_val_snoc, zlen_snoc, pow_sign by lia.
  destruct (128 <=? b); lia.
Qed.

(** Clearing the sign bit of a magnitude. *)
Lemma ldiff_sign lo b n :
  0 <= n -> 0 <= lo < 2 ^ (8 * n) -> 128 <= b < 256 ->
  Z.ldiff (lo + 2 ^ (8 * n) * b) (Z.shiftl 0x80 (8 * n)) = lo + 2 ^ (8 * n) * (b - 128).
Proof.
  intros Hn Hlo Hb.
  rewrite (Z.mul_comm _ b), (Z.mul_comm _ (b - 128)), <- !lor_shiftl_add by lia.
  apply Z.bits_inj'. intros i Hi. rewrite Z.ldiff_spec, !Z.lor_spec, !Z.shiftl_spec by done.
  assert (Z.testbit (b - 128) (i - 8 * n) = Z.testbit b (i - 8 * n) && negb (Z.testbit 128 (i - 8 * n))) as ->.
  { rewrite <- Z.ldiff_spec. f_equal.
    enough ((b <? 128) || (Z.ldiff b 128 =? b - 128) = true) as H.
    { apply orb_true_iff in H as [?%Z.ltb_lt|?%Z.eqb_eq]; lia. }
    apply (byte_check (fun b => (b <? 128) || (Z.ldiff b 128 =? b - 128)) b); [reflexivity|].
    unfold byte_ok. lia. }
  destruct (Z.lt_ge_cases i (8 * n)) as [Hc|Hc].
  - rewrite (Z.testbit_neg_r b), (Z.testbit_neg_r 128) by lia. by destruct (Z.testbit lo i).
  - assert (Z.testbit lo i = false) as ->; [|by rewrite !orb_false_l].
    destruct (decide (lo = 0)) as [->|]; [apply Z.bits_0|].
    apply Z.bits_above_log2; [lia|]. apply Z.log2_lt_pow2; [lia|].
    eapply Z.lt_le_trans; [apply Hlo|]. apply Z.pow_le_mono_r; lia.
Qed.

Lemma num_value_bound vch : bytes_ok vch -> - 2 ^ (8 * zlen vch - 1) < num_value vch < 2 ^ (8 * zlen vch - 1) \/ vch = [].
Proof.
  intros Hb. destruct vch as [|b lo _] using rev_ind; [by right|]. left.
  apply bytes_ok_app in Hb as [Hlo Hb]. inversion Hb as [|? ? Hb0 _]; subst. unfold byte_ok in Hb0.
  pose proof (le_val_range _ Hlo). rewrite num_value_snoc, zlen_snoc, pow_sign by lia.
  destruct (Z.leb_spec 128 b); nia.
Qed.

Lemma set_vch_value {E} vch :
  bytes_ok vch -> (length vch <= 7)%nat -> set_vch (E := E) vch = Ok (num_value vch).
Proof.
  intros Hb Hl. destruct vch as [|b lo _] using rev_ind; [done|].
  pose proof Hb as Hb'. apply bytes_ok_app in Hb' as [Hlo Hb0]. inversion Hb0 as [|? ? Hb1 _]; subst.
  pose proof (le_val_range _ Hlo) as Rlo.
  unfold set_vch. rewrite last_snoc, set_vch_loop_spec; [|done|lia|cbn; lia].
  cbn [mbind outcome_bind]. rewrite Z.add_0_l, Z.mul_1_r. rewrite sign_bit by done.
  rewrite num_value_snoc, le_val_snoc. unfold byte_ok in Hb1.
  destruct (Z.leb_spec 128 b), (Z.ltb_spec b 128); try lia; cbn [negb]; [|done].
  rewrite length_app in Hl. cbn [length] in Hl.
  assert (2 ^ (8 * zlen lo) <= 2 ^ 48) by (apply Z.pow_le_mono_r; lia).
  change (2 ^ 48) with 281474976710656 in *.
  rewrite zlen_snoc, Z.add_simpl_r, wrapu_small by (unfold in_u; change (2 ^ 64) with 18446744073709551616; nia).
  rewrite ldiff_sign by lia.
  assert (in_s 64 (le_val lo + 2 ^ (8 * zlen lo) * (b - 128)) /\
          in_s 64 (- (le_val lo + 2 ^ (8 * zlen lo) * (b - 128)))) as [].
  { unfold in_s. change (2 ^ (64 - 1)) with 9223372036854775808. nia. }
  rewrite wraps_small by first [assumption|lia]. by rewrite int64_result_ok.
Qed.

(** *** Magnitudes: byte strings without a final zero *)

Definition magnitude (l : valtype) : Prop := bytes_ok l /\ last l <> Some 0.

Lemma magnitude_snoc lo b : magnitude (lo ++ [b]) <-> bytes_ok lo /\ byte_ok b /\ b <> 0.
Proof.
  unfold magnitude. rewrite last_snoc, bytes_ok_app. split.
  - intros [[? Hb] ?]. inversion Hb; subst. split_and!; [done|done|congruence].
  - intros (? & ? & ?). split; [split; [done|by apply Forall_singleton]|congruence].
Qed.

Lemma magnitude_cons b l : magnitude (b :: l) -> byte_ok b /\ magnitude l /\ (l = [] -> b <> 0).
Proof.
  intros [Hb Hl]. inversion Hb; subst. split; [done|]. split.
  - split; [done|]. destruct l; [done|exact Hl].
  - intros ->. cbn in Hl. congruence.
Qed.

Lemma magnitude_pos l : magnitude l -> l <> [] -> 0 < le_val l.
Proof.
  destruct l as [|b lo _] using rev_ind; [done|]. intros (Hlo & Hb & Hn)%magnitude_snoc _.
  pose proof (le_val_range _ Hlo). rewrite le_val_snoc. unfold byte_ok in Hb.
  pose proof (Z.pow_pos_nonneg 2 (8 * zlen lo)). nia.
Qed.

Lemma abs_bytes_le_val l : forall fuel,
  magnitude l -> (length l <= fuel)%nat -> abs_bytes fuel (le_val l) = l.
Proof.
  induction l as [|b l IH]; intros fuel Hm Hl; [by destruct fuel|].
  destruct fuel as [|fuel]; [cbn in Hl; lia|]. cbn [length] in Hl.
  pose proof (magnitude_pos _ Hm ltac:(done)) as Hp.
  apply magnitude_cons in Hm as (Hb & Hm & _). unfold byte_ok in Hb.
  cbn [abs_bytes]. destruct (Z.eqb_spec (le_val (b :: l)) 0); [lia|].
  cbn [le_val]. change 0xff with (Z.ones 8). rewrite Z.land_ones, Z.shiftr_div_pow2 by lia.
  change (2 ^ 8) with 256. rewrite (Z.mul_comm 256), Z.mod_add, Z.div_add by lia.
  rewrite Z.mod_small, Z.div_small, Z.add_0_l by lia. f_equal. apply IH; [done|lia].
Qed.

Lemma magnitude_exists k : forall a, 0 <= a < 2 ^ (8 * Z.of_nat k) ->
  exists l, magnitude l /\ (length l <= k)%nat /\ le_val l = a.
Proof.
  induction k as [|k IH]; intros a Ha.
  { exists []. split; [split; [constructor|done]|]. split; [done|]. cbn in *. lia. }
  destruct (decide (a = 0)) as [->|].
  { exists []. split; [split; [constructor|done]|]. split; [cbn; lia|done]. }
  rewrite pow256_S in Ha. destruct (IH (a / 256)) as (l & [Hb Hl] & Hlen & Hv).
  { split; [apply Z.div_pos; lia|]. apply Z.div_lt_upper_bound; lia. }
  assert (byte_ok (a mod 256)) by (apply Z.mod_pos_bound; lia).
  exists (a mod 256 :: l). split; [split; [by constructor|]|].
  - destruct l as [|c l]; [|exact Hl]. cbn. cbn in Hv. intros [= H0].
    pose proof (Z.div_mod a 256). lia.
  - split; [cbn; lia|]. cbn [le_val]. rewrite Hv. pose proof (Z.div_mod a 256). lia.
Qed.

(** The encoding of a sign and a magnitude. *)
Definition with_sign (neg : bool) (l : valtype) : valtype :=
  match last l with
  | None => l
  | Some b =>
      if 128 <=? b then l ++ [if neg then 0x80 else 0]
      else if neg then removelast l ++ [b + 128] else l
  end.

Definition signed (neg : bool) (a : Z) : Z := if neg then - a else a.

Lemma two_complement v : 0 < v < 2 ^ 64 -> u64 (u64 (Z.lnot (u64 (- v))) + 1) = v.
Proof.
  intros Hv. unfold wrapu, Z.lnot.
  assert ((- v) mod 2 ^ 64 = 2 ^ 64 - v) as ->.
  { rewrite Z_mod_nz_opp_full; rewrite Z.mod_small; lia. }
  replace (Z.pred (- (2 ^ 64 - v))) with (v - 1 + (-1) * 2 ^ 64) by lia.
  rewrite Z.mod_add, (Z.mod_small (v - 1)), Z.sub_add by lia. apply Z.mod_small. lia.
Qed.

Lemma serialize_signed neg l :
  magnitude l -> l <> [] -> (length l <= 7)%nat -> serialize (signed neg (le_val l)) = with_sign neg l.
Proof.
  intros Hm Hne Hl. pose proof (magnitude_pos _ Hm Hne) as Hp.
  pose proof (le_val_range _ (proj1 Hm)) as Hr.
  assert (2 ^ (8 * zlen l) <= 2 ^ 56) by (apply Z.pow_le_mono_r; lia).
  change (2 ^ 56) with 72057594037927936 in *.
  unfold serialize. assert (signed neg (le_val l) =? 0 = false) as -> by (destruct neg; cbn; lia).
  assert ((signed neg (le_val l) <? 0) = neg) as -> by (destruct neg; cbn; lia).
  assert ((if neg then u64 (u64 (Z.lnot (u64 (signed neg (le_val l)))) + 1)
           else u64 (signed neg (le_val l))) = le_val l) as ->.
  { destruct neg; cbn [signed].
    - apply two_complement. lia.
    - apply wrapu_small. unfold in_u. change (2 ^ 64) with 18446744073709551616. lia. }
  rewrite abs_bytes_le_val by (done || lia). unfold with_sign.
  destruct l as [|b lo _] using rev_ind; [done|]. rewrite last_snoc.
  apply magnitude_snoc in Hm as (_ & Hb & _). rewrite sign_bit, set_sign_bit by done.
  destruct (Z.leb_spec 128 b), (Z.ltb_spec b 128); try lia; done.
Qed.

Lemma with_sign_ok neg l :
  magnitude l -> l <> [] ->
  bytes_ok (with_sign neg l) /\ non_minimal (with_sign neg l) = false /\
  num_value (with_sign neg l) = signed neg (le_val l) /\
  (length (with_sign neg l) <= S (length l))%nat.
Proof.
  intros Hm Hne. destruct l as [|b lo _] using rev_ind; [done|].
  apply magnitude_snoc in Hm as (Hlo & Hb & Hn). unfold with_sign. rewrite last_snoc, removelast_last.
  pose proof Hb as Hb'. unfold byte_ok in Hb'.
  assert (bytes_ok (lo ++ [b])) by (apply bytes_ok_app; split; [done|by apply Forall_singleton]).
  destruct (Z.leb_spec 128 b) as [Hc|Hc].
  - assert (byte_ok (if neg then 128 else 0)) as Hs by (destruct neg; unfold byte_ok; lia).
    split; [apply bytes_ok_app; split; [done|by apply Forall_singleton]|]. split.
    { unfold non_minimal. rewrite !reverse_snoc, sign_bit by done.
      destruct (Z.ltb_spec b 128); [lia|]. by rewrite andb_false_r. }
    rewrite num_value_snoc, !length_app. cbn [length]. split; [destruct neg; cbn; lia|lia].
  - assert (byte_ok (b + 128)) as Hs by (unfold byte_ok; lia).
    destruct neg; cbn [signed].
    + split; [apply bytes_ok_app; split; [done|by apply Forall_singleton]|]. split.
      { unfold non_minimal. rewrite reverse_snoc, magnitude_bits by done.
        destruct (Z.ltb_spec (b + 128) 128); [lia|].
        destruct (Z.eqb_spec (b + 128 - 128) 0); [lia|done]. }
      rewrite num_value_snoc, le_val_snoc, !length_app. cbn [length].
      destruct (Z.leb_spec 128 (b + 128)); [|lia].
      replace (b + 128 - 128) with b by lia. split; [done|lia].
    + split; [done|]. split.
      { unfold non_minimal. rewrite reverse_snoc, magnitude_bits by done.
        destruct (Z.ltb_spec b 128); [|lia]. destruct (Z.eqb_spec b 0); [lia|done]. }
      rewrite num_value_snoc, le_val_snoc. destruct (Z.leb_spec 128 b); [lia|]. split; [done|lia].
Qed.

(** A minimal encoding is the encoding of a sign and a magnitude. *)
Lemma minimal_with_sign vch :
  bytes_ok vch -> non_minimal vch = false -> vch <> [] ->
  exists neg l, magnitude l /\ l <> [] /\ vch = with_sign neg l /\ (length l <= length vch)%nat.
Proof.
  intros Hb Hm Hne. destruct vch as [|b lo _] using rev_ind; [done|].
  apply bytes_ok_app in Hb as [Hlo Hb]. inversion Hb as [|? ? Hb0 _]; subst.
  unfold non_minimal in Hm. rewrite reverse_snoc, magnitude_bits in Hm by done.
  destruct (decide (b = 0 \/ b = 128)) as [Hz|Hz].
  - destruct lo as [|c lo' _] using rev_ind; [destruct Hz; subst; discriminate Hm|].
    apply bytes_ok_app in Hlo as [Hlo' Hc]. inversion Hc as [|? ? Hc0 _]; subst.
    rewrite reverse_snoc, sign_bit in Hm by done. unfold byte_ok in Hc0.
    assert (128 <= c) as Hc128.
    { destruct Hz as [->| ->]; cbn in Hm; destruct (Z.ltb_spec c 128); (done || lia). }
    exists (128 <=? b), (lo' ++ [c]). split; [apply magnitude_snoc; split_and!; [done|done|lia]|].
    split; [by destruct lo'|]. split; [|rewrite !length_app; cbn; lia].
    unfold with_sign. rewrite last_snoc. destruct (Z.leb_spec 128 c); [|lia].
    by destruct Hz as [->| ->].
  - unfold byte_ok in Hb0. exists (128 <=? b), (lo ++ [if 128 <=? b then b - 128 else b]).
    split. { apply magnitude_snoc. unfold byte_ok. destruct (Z.leb_spec 128 b); split_and!; (done || lia). }
    split; [by destruct lo|]. split; [|rewrite !length_app; cbn; lia].
    unfold with_sign. rewrite last_snoc, removelast_last.
    destruct (Z.leb_spec 128 b).
    + destruct (Z.leb_spec 128 (b - 128)); [lia|]. do 2 f_equal. lia.
    + destruct (Z.leb_spec 128 b); [lia|done].
Qed.

Lemma num_magnitude n k :
  1 <= k <= 7 -> Z.abs n < 2 ^ (8 * k - 1) -> n <> 0 ->
  exists neg l, magnitude l /\ l <> [] /\ (length l <= Z.to_nat k)%nat /\ n = signed neg (le_val l).
Proof.
  intros Hk Hn Hz. destruct (magnitude_exists (Z.to_nat k) (Z.abs n)) as (l & Hm & Hl & Hv).
  { rewrite Z2Nat.id by lia. split; [lia|]. eapply Z.lt_le_trans; [exact Hn|].
    apply Z.pow_le_mono_r; lia. }
  exists (n <? 0), l. split; [done|]. split; [intros ->; cbn in Hv; lia|]. split; [done|].
  rewrite Hv. destruct (Z.ltb_spec n 0); cbn; lia.
Qed.

Lemma getvch_range n k :
  1 <= k <= 7 -> Z.abs n < 2 ^ (8 * k - 1) ->
  bytes_ok (getvch n) /\ zlen (getvch n) <= k /\ non_minimal (getvch n) = false /\
  num_value (getvch n) = n.
Proof.
  intros Hk Hn. destruct (decide (n = 0)) as [->|Hz].
  { split; [constructor|]. split; [cbn; lia|done]. }
  destruct (num_magnitude n k) as (neg & l & Hm & Hne & Hl & ->); [done..|].
  unfold getvch. rewrite serialize_signed by (done || lia).
  destruct (with_sign_ok neg l) as (H1 & H2 & H3 & _); [done..|].
  split; [done|]. split; [|done].
  assert (le_val l < 2 ^ (8 * k - 1)) as Hv.
  { pose proof (magnitude_pos l Hm Hne). destruct neg; cbn [signed] in Hn; lia. }
  clear - Hm Hne Hl Hk Hv. destruct l as [|b lo _] using rev_ind; [done|].
  apply magnitude_snoc in Hm as (Hlo & Hb & _). pose proof (le_val_range _ Hlo).
  rewrite length_app in Hl. cbn [length] in Hl. rewrite le_val_snoc in Hv.
  unfold with_sign. rewrite last_snoc. destruct (Z.leb_spec 128 b).
  - rewrite !zlen_snoc. destruct (decide (zlen lo + 1 = k)) as [E|]; [exfalso|lia].
    rewrite <- E, pow_sign in Hv by lia. nia.
  - destruct neg; rewrite ?removelast_last, zlen_snoc; lia.
Qed.

Lemma ScriptNum_value {E} vch f k :
  bytes_ok vch -> k <= 7 ->
  ScriptNum (E := E) vch f k =
  if (k <? zlen vch) || f && non_minimal vch then Throw else Ok (num_value vch).
Proof.
  intros Hb Hk. unfold ScriptNum. destruct (Z.ltb_spec k (zlen vch)); [done|].
  destruct (f && non_minimal vch); [done|]. apply set_vch_value; [done|lia].
Qed.

Lemma num_value_abs vch k :
  bytes_ok vch -> zlen vch <= k -> 1 <= k -> Z.abs (num_value vch) < 2 ^ (8 * k - 1).
Proof.
  intros Hb Hl Hk. destruct (num_value_bound vch Hb) as [H| ->].
  - assert (2 ^ (8 * zlen vch - 1) <= 2 ^ (8 * k - 1)) by (apply Z.pow_le_mono_r; lia). lia.
  - cbn. apply Z.pow_pos_nonneg; lia.
Qed.

Lemma getvch_num_value vch :
  bytes_ok vch -> zlen vch <= 7 -> non_minimal vch = false -> getvch (num_value vch) = vch.
Proof.
  intros Hb Hl Hm. destruct (decide (vch = [])) as [->|Hne]; [done|].
  destruct (minimal_with_sign vch) as (neg & l & Hl1 & Hl2 & -> & Hl3); [done..|].
  destruct (with_sign_ok neg l) as (_ & _ & -> & _); [done..|].
  apply serialize_signed; (done || lia).
Qed.

(** The number encoding of scripts, for every size limit of up to seven
    bytes (the code uses four and five).  [getvch] of a number that fits the
    limit fits the limit, and the constructor reads the number back, whether or
    not minimal encodings are required.  The constructor never fails an
    assertion or overflows; it throws exactly on strings above the limit and,
    when minimal encodings are required, on the strings that are not what
    [getvch] writes for their value. *)
Theorem CScriptNum_codec (k : Z) :
  1 <= k <= 7 ->
  (forall n, Z.abs n < 2 ^ (8 * k - 1) ->
     bytes_ok (getvch n) /\ zlen (getvch n) <= k /\
     forall fRequireMinimal, ScriptNum (E := unit) (getvch n) fRequireMinimal k = Ok n) /\
  (forall vch fRequireMinimal, bytes_ok vch ->
     match ScriptNum (E := unit) vch fRequireMinimal k with
     | Ok n => zlen vch <= k /\ Z.abs n < 2 ^ (8 * k - 1) /\
               (fRequireMinimal = true -> getvch n = vch)
     | Throw => k < zlen vch \/ fRequireMinimal = true /\ forall n, Z.abs n < 2 ^ (8 * k - 1) -> getvch n <> vch
     | _ => False
     end).
Proof.
  intros Hk. split.
  - intros n Hn. destruct (getvch_range n k) as (H1 & H2 & H3 & H4); [done..|].
    split; [done|]. split; [done|]. intros f. rewrite ScriptNum_value, H3, H4, andb_false_r by (done || lia).
    by destruct (Z.ltb_spec k (zlen (getvch n))); [lia|].
  - intros vch f Hb. rewrite ScriptNum_value by (done || lia).
    destruct (Z.ltb_spec k (zlen vch)) as [|Hl]; cbn [orb]; [by left|].
    destruct f, (non_minimal vch) eqn:Hm; cbn [andb].
    + right. split; [done|]. intros n Hn <-. destruct (getvch_range n k) as (_ & _ & H & _); [done..|].
      congruence.
    + split; [done|]. split; [apply num_value_abs; (done || lia)|]. intros _. apply getvch_num_value; (done || lia).
    + split; [done|]. split; [apply num_value_abs; (done || lia)|done].
    + split; [done|]. split; [apply num_value_abs; (done || lia)|done].
Qed.

Lemma CScriptNum_codec_witness :
  getvch (-255) = [0xff; 0x80] /\ ScriptNum (E := unit) [0xff; 0x80] true 4 = Ok (-255) /\
  ScriptNum (E := unit) [0x05; 0x00] true 4 = Throw /\
  (forall n, Z.abs n < 2 ^ 31 -> ScriptNum (E := unit) (getvch n) true 4 = Ok n).
Proof.
  split; [reflexivity|]. split; [reflexivity|]. split; [reflexivity|].
  intros n Hn. apply (CScriptNum_codec 4); [lia|exact Hn].
Defined.

(** ** Reading instructions: facts *)

Lemma getop_data_suffix opcode nSize pc :
  0 <= nSize ->
  let g := getop_data opcode nSize pc in
  exists used, pc = used ++ pcRet g /\ (ret g = true -> opcodeRet g = opcode) /\
    (forall x, x ∈ vchRet g -> x ∈ pc).
Proof.
  intros Hn. unfold getop_data. destruct (Z.ltb_spec (zlen pc) nSize).
  - exists []. split; [done|]. split; [done|]. intros x Hx. by apply not_elem_of_nil in Hx.
  - exists (take (Z.to_nat nSize) pc). cbn. split; [by rewrite take_drop|]. split; [done|].
    intros x Hx. rewrite <- (take_drop (Z.to_nat nSize) pc). apply elem_of_app. by left.
Qed.

(** [GetOp] leaves the iterator inside the script, moves it when it succeeds,
    and returns bytes of the script. *)
Lemma GetOp_suffix pc :
  bytes_ok pc ->
  exists used, pc = used ++ pcRet (GetOp pc) /\
    (ret (GetOp pc) = true -> used <> [] /\ hd_error pc = Some (opcodeRet (GetOp pc))) /\
    (forall x, x ∈ vchRet (GetOp pc) -> x ∈ pc).
Proof.
  intros Hb. destruct pc as [|op pc].
  { exists []. split; [done|]. split; [done|]. intros x Hx. by apply not_elem_of_nil in Hx. }
  inversion Hb as [|? ? Hop Hpc]; subst. unfold byte_ok in Hop.
  assert (forall pre rest n, pc = pre ++ rest -> 0 <= n ->
    exists used, op :: pc = used ++ pcRet (getop_data op n rest) /\
      (ret (getop_data op n rest) = true -> used <> [] /\ Some op = Some (opcodeRet (getop_data op n rest))) /\
      (forall x, x ∈ vchRet (getop_data op n rest) -> x ∈ op :: pc)) as Hd.
  { intros pre rest n -> Hn. destruct (getop_data_suffix op n rest Hn) as (u & Hu & Ho & Hx).
    exists (op :: pre ++ u). split; [by rewrite Hu at 1; cbn; rewrite <- app_assoc|]. split.
    - intros Hr. by rewrite Ho.
    - intros x H%Hx. right. apply elem_of_app. by right. }
  assert (forall rest, (exists pre, pc = pre ++ rest) ->
    exists used, op :: pc = used ++ rest /\ (false = true -> used <> [] /\ Some op = Some OP_INVALIDOPCODE) /\
      (forall x : Z, x ∈ [] -> x ∈ op :: pc)) as Hf.
  { intros rest [pre ->]. exists (op :: pre). split; [done|]. split; [done|].
    intros x Hx. by apply not_elem_of_nil in Hx. }
  cbn [GetOp hd_error]. destruct (op <=? OP_PUSHDATA4); [|].
  2:{ exists [op]. split; [done|]. split; [done|]. intros x Hx. by apply not_elem_of_nil in Hx. }
  destruct (op <? OP_PUSHDATA1); [by apply (Hd []); [|lia]|].
  destruct (op =? OP_PUSHDATA1).
  { destruct pc as [|n pc]; [by apply Hf; exists []|]. inversion Hpc; subst.
    apply (Hd [n]); [done|]. unfold byte_ok in *. lia. }
  destruct (op =? OP_PUSHDATA2).
  - destruct (zlen pc <? 2); [by apply Hf; exists []|].
    apply (Hd (take 2 pc)); [by rewrite take_drop|]. unfold ReadLE16.
    apply (le_val_range (take 2 pc)). by apply bytes_ok_take.
  - destruct (zlen pc <? 4); [by apply Hf; exists []|].
    apply (Hd (take 4 pc)); [by rewrite take_drop|]. unfold ReadLE32.
    apply (le_val_range (take 4 pc)). by apply bytes_ok_take.
Qed.

Lemma GetOp_bytes pc :
  bytes_ok pc ->
  bytes_ok (pcRet (GetOp pc)) /\ bytes_ok (vchRet (GetOp pc)) /\
  (length (pcRet (GetOp pc)) <= length pc)%nat /\
  (ret (GetOp pc) = true -> (length (pcRet (GetOp pc)) < length pc)%nat /\ byte_ok (opcodeRet (GetOp pc))).
Proof.
  intros Hb. destruct (GetOp_suffix pc Hb) as (used & Hpc & Hr & Hv).
  split. { rewrite Hpc in Hb. by apply bytes_ok_app in Hb as [_ ?]. }
  split. { apply Forall_forall. intros x Hx. eapply Forall_forall in Hb; [exact Hb|].
           by apply Hv. }
  split. { rewrite Hpc at 2. rewrite length_app. lia. }
  intros H%Hr. destruct H as [Hu Ho]. split.
  - rewrite Hpc at 2. rewrite length_app. destruct used; [done|cbn; lia].
  - revert Ho. generalize (opcodeRet (GetOp pc)). intros o Ho.
    destruct pc as [|b pc]; [done|]. injection Ho as <-. by inversion Hb.
Qed.

Lemma GetOp_nil pc : pc = [] -> ret (GetOp pc) = false.
Proof. by intros ->. Qed.

Lemma getop_data_app opcode b rest :
  getop_data opcode (zlen b) (b ++ rest) = GetOpResult true opcode b rest.
Proof.
  unfold getop_data. rewrite length_app. destruct (Z.ltb_spec (Z.of_nat (length b + length rest)) (zlen b)); [lia|].
  by rewrite Nat2Z.id, take_app_length, drop_app_length.
Qed.

(** The opcode that [push_data] writes. *)
Definition push_op (b : valtype) : Z :=
  if zlen b <? OP_PUSHDATA1 then zlen b
  else if zlen b <=? 0xff then OP_PUSHDATA1
  else if zlen b <=? 0xffff then OP_PUSHDATA2 else OP_PUSHDATA4.

Lemma push_data_app s b : push_data s b = s ++ push_data [] b.
Proof. reflexivity. Qed.

Lemma GetOp_push_data b rest :
  zlen b < 2 ^ 32 ->
  GetOp (push_data [] b ++ rest) = GetOpResult true (push_op b) b rest.
Proof.
  intros Hb. unfold push_data, push_op. rewrite app_nil_l, <- app_assoc.
  destruct (Z.ltb_spec (zlen b) OP_PUSHDATA1) as [H1|H1].
  { rewrite wrapu_small by (unfold in_u, OP_PUSHDATA1 in *; lia). cbn [app GetOp].
    unfold OP_PUSHDATA1, OP_PUSHDATA4 in *.
    destruct (Z.leb_spec (zlen b) 0x4e); [|lia]. destruct (Z.ltb_spec (zlen b) 0x4c); [|lia].
    apply getop_data_app. }
  destruct (Z.leb_spec (zlen b) 0xff).
  { rewrite wrapu_small by (unfold in_u; lia). exact (getop_data_app OP_PUSHDATA1 b rest). }
  destruct (Z.leb_spec (zlen b) 0xffff).
  - rewrite wrapu_small by (unfold in_u; lia). set (w := WriteLE16 (zlen b)).
    assert (length w = 2%nat) as Hw by apply le_bytes_length.
    change (GetOp ((OP_PUSHDATA2 :: w) ++ b ++ rest)) with
      (if zlen (w ++ b ++ rest) <? 2 then getop_fail (w ++ b ++ rest)
       else getop_data OP_PUSHDATA2 (ReadLE16 (w ++ b ++ rest)) (drop 2 (w ++ b ++ rest))).
    rewrite !length_app, Hw. destruct (Z.ltb_spec (Z.of_nat (2 + (length b + length rest))) 2); [lia|].
    rewrite drop_app_length' by done. unfold ReadLE16. rewrite take_app_length' by done.
    unfold w, WriteLE16. rewrite le_val_le_bytes_small by (cbn; lia). apply getop_data_app.
  - rewrite wrapu_small by (unfold in_u; lia). set (w := WriteLE32 (zlen b)).
    assert (length w = 4%nat) as Hw by apply le_bytes_length.
    change (GetOp ((OP_PUSHDATA4 :: w) ++ b ++ rest)) with
      (if zlen (w ++ b ++ rest) <? 4 then getop_fail (w ++ b ++ rest)
       else getop_data OP_PUSHDATA4 (ReadLE32 (w ++ b ++ rest)) (drop 4 (w ++ b ++ rest))).
    rewrite !length_app, Hw. destruct (Z.ltb_spec (Z.of_nat (4 + (length b + length rest))) 4); [lia|].
    rewrite drop_app_length' by done. unfold ReadLE32. rewrite take_app_length' by done.
    unfold w, WriteLE32. rewrite le_val_le_bytes_small by (cbn; lia). apply getop_data_app.
Qed.

Lemma push_op_range b : 0 <= push_op b <= OP_PUSHDATA4.
Proof.
  unfold push_op, OP_PUSHDATA1, OP_PUSHDATA2, OP_PUSHDATA4.
  repeat case_match; bool_to_prop; lia.
Qed.

(** What [operator<<] writes, [GetOp] reads: at the place of the push it
    returns a push opcode and the data, and leaves the iterator at the bytes
    that follow, for all four forms of pushes. *)
Theorem GetOp_reads_push (s : CScript) (b : valtype) (rest : CScript) :
  zlen b < 2 ^ 32 ->
  exists pc op, push_data s b ++ rest = s ++ pc /\ 0 <= op <= OP_PUSHDATA4 /\
    GetOp pc = GetOpResult true op b rest.
Proof.
  intros Hb. exists (push_data [] b ++ rest), (push_op b).
  split; [by rewrite push_data_app, <- app_assoc|].
  split; [apply push_op_range|by apply GetOp_push_data].
Qed.

Lemma GetOp_reads_push_witness :
  push_data [OP_DUP] (replicate 80 7) = [OP_DUP; OP_PUSHDATA1; 80] ++ replicate 80 7 /\
  exists pc op, push_data [OP_DUP] (replicate 80 7) ++ [OP_EQUAL] = [OP_DUP] ++ pc /\ 0 <= op <= OP_PUSHDATA4 /\
    GetOp pc = GetOpResult true op (replicate 80 7) [OP_EQUAL].
Proof. split; [reflexivity|]. apply (GetOp_reads_push [OP_DUP] (replicate 80 7) [OP_EQUAL]). reflexivity. Defined.

(** ** Counting signature operations: facts *)

Lemma DecodeOP_N_small {E} op :
  OP_1 <= op <= OP_16 -> exists k, DecodeOP_N (E := E) op = Ok k /\ 1 <= k <= 16.
Proof.
  intros H. unfold DecodeOP_N. unfold OP_0, OP_1, OP_16 in *.
  destruct (Z.eqb_spec op 0); [lia|].
  destruct (Z.leb_spec 0x51 op), (Z.leb_spec op 0x60); try lia.
  exists (op - 0x50). split; [reflexivity|lia].
Qed.

Lemma sigop_loop_fuel {E} f fuel : forall pc last n fuel',
  bytes_ok pc -> (length pc <= fuel)%nat -> (length pc <= fuel')%nat ->
  sigop_loop (E := E) fuel f pc last n = sigop_loop fuel' f pc last n.
Proof.
  induction fuel as [|fuel IH]; intros pc last n fuel' Hb H1 H2.
  { destruct pc; [|cbn in H1; lia]. by destruct fuel'. }
  destruct fuel' as [|fuel']; [destruct pc; [done|cbn in H2; lia]|].
  cbn [sigop_loop]. destruct (GetOp_bytes pc Hb) as (Hp & _ & _ & Hr).
  destruct (ret (GetOp pc)); [|done]. destruct (Hr eq_refl) as [Hl _].
  match goal with |- ?m ≫= _ = _ => destruct m end; [|done..].
  cbn [mbind outcome_bind]. apply IH; [done|lia|lia].
Qed.

Lemma sigop_loop_bounds {E} fuel : forall pc last a b,
  bytes_ok pc -> 0 <= a <= b -> b + 20 * Z.of_nat fuel < 2 ^ 32 ->
  exists a' b', sigop_loop (E := E) fuel true pc last a = Ok a' /\
    sigop_loop (E := E) fuel false pc last b = Ok b' /\ 0 <= a' <= b' /\ b' <= b + 20 * Z.of_nat fuel.
Proof.
  induction fuel as [|fuel IH]; intros pc last a b Hb Hab Hf.
  { exists a, b. split; [done|]. split; [done|]. lia. }
  cbn [sigop_loop]. destruct (GetOp_bytes pc Hb) as (Hp & _ & _ & _).
  destruct (ret (GetOp pc)).
  2:{ exists a, b. split; [done|]. split; [done|]. lia. }
  assert (forall i j, 0 <= i <= j -> j <= 20 ->
    exists a' b', sigop_loop (E := E) fuel true (pcRet (GetOp pc)) (opcodeRet (GetOp pc)) (u32 (a + i)) = Ok a' /\
      sigop_loop (E := E) fuel false (pcRet (GetOp pc)) (opcodeRet (GetOp pc)) (u32 (b + j)) = Ok b' /\
      0 <= a' <= b' /\ b' <= b + 20 * Z.of_nat (S fuel)) as Hgo.
  { intros i j Hi Hj. rewrite !wrapu_small by (unfold in_u; lia).
    destruct (IH (pcRet (GetOp pc)) (opcodeRet (GetOp pc)) (a + i) (b + j)) as (a' & b' & H1 & H2 & H3 & H4);
      [done|lia|lia|]. exists a', b'. split_and!; [done|done|lia|lia|lia]. }
  destruct ((opcodeRet (GetOp pc) =? OP_CHECKSIG) || _); [apply (Hgo 1 1); lia|].
  destruct ((opcodeRet (GetOp pc) =? OP_CHECKMULTISIG) || _).
  - cbn [andb]. destruct ((OP_1 <=? last) && (last <=? OP_16)) eqn:Hl; [|apply (Hgo 20 20); lia].
    apply andb_true_iff in Hl as [?%Z.leb_le ?%Z.leb_le].
    destruct (DecodeOP_N_small (E := E) last) as (k & -> & Hk); [lia|].
    apply (Hgo k 20); lia.
  - destruct (IH (pcRet (GetOp pc)) (opcodeRet (GetOp pc)) a b) as (a' & b' & H1 & H2 & H3 & H4);
      [done|lia|lia|]. exists a', b'. split_and!; [done|done|lia|lia|lia].
Qed.

(** [GetSigOpCount] ends, never fails the assertion of [DecodeOP_N], and
    counts at most twenty operations per byte; the accurate count never exceeds
    the legacy count, so a block that respects the limit with the legacy count
    respects it with the accurate one. *)
Theorem GetSigOpCount_bounds (s : CScript) :
  bytes_ok s -> 20 * zlen s < 2 ^ 32 ->
  exists a b, GetSigOpCount (E := unit) s true = Ok a /\ GetSigOpCount (E := unit) s false = Ok b /\
    0 <= a <= b /\ b <= 20 * zlen s /\
    forall fuel f, (length s <= fuel)%nat ->
      sigop_loop (E := unit) fuel f s OP_INVALIDOPCODE 0 = GetSigOpCount s f.
Proof.
  intros Hb Hs. destruct (sigop_loop_bounds (E := unit) (length s) s OP_INVALIDOPCODE 0 0)
    as (a & b & H1 & H2 & H3 & H4); [done|lia|lia|].
  exists a, b. split; [done|]. split; [done|]. split; [done|]. split; [lia|].
  intros fuel f Hf. by apply sigop_loop_fuel.
Qed.

Lemma GetSigOpCount_bounds_witness :
  GetSigOpCount (E := unit) [OP_2; OP_CHECKMULTISIG; OP_CHECKSIG] true = Ok 3 /\
  GetSigOpCount (E := unit) [OP_2; OP_CHECKMULTISIG; OP_CHECKSIG] false = Ok 21 /\
  exists a b, GetSigOpCount (E := unit) [OP_2; OP_CHECKMULTISIG; OP_CHECKSIG] true = Ok a /\
    GetSigOpCount (E := unit) [OP_2; OP_CHECKMULTISIG; OP_CHECKSIG] false = Ok b /\ a <= b.
Proof.
  split; [reflexivity|]. split; [reflexivity|].
  destruct (GetSigOpCount_bounds [OP_2; OP_CHECKMULTISIG; OP_CHECKSIG]) as (a & b & H1 & H2 & H3 & _).
  - refine (bool_decide_eq_true_1 (bytes_ok _) _). reflexivity.
  - reflexivity.
  - exists a, b. split; [exact H1|]. split; [exact H2|]. apply H3.
Defined.

(** ** FindAndDelete: facts *)

(** [deleted b s s' n]: [s'] is [s] without the [n] copies of [b] that start at
    the start, after an instruction, or after another deleted copy; from the
    first place where no instruction can be read the script is kept. *)
Inductive deleted (b : CScript) : CScript -> CScript -> Z -> Prop :=
| deleted_match s s' n :
    is_prefix b s = true -> deleted b (drop (length b) s) s' n -> deleted b s s' (n + 1)
| deleted_op s s' n :
    is_prefix b s = false -> ret (GetOp s) = true ->
    deleted b (pcRet (GetOp s)) s' n -> deleted b s (range s (pcRet (GetOp s)) ++ s') n
| deleted_end s :
    is_prefix b s = false -> ret (GetOp s) = false -> deleted b s s 0.

Lemma is_prefix_length b s : is_prefix b s = true -> (length b <= length s)%nat.
Proof. unfold is_prefix. intros [H%Z.leb_le _]%andb_true_iff. lia. Qed.

Lemma skip_matches_spec b : b <> [] -> forall fuel s nFound s' k,
  (length s <= fuel)%nat -> skip_matches fuel b s nFound = (s', k) ->
  is_prefix b s' = false /\ (length s' <= length s)%nat /\ nFound <= k /\
  (bytes_ok s -> bytes_ok s') /\
  forall t n, deleted b s' t n -> deleted b s t (n + (k - nFound)).
Proof.
  intros Hb. induction fuel as [|fuel IH]; intros s nFound s' k Hl Hs.
  - assert (s = []) as -> by (destruct s; [done|cbn in Hl; lia]). cbn in Hs. injection Hs as <- <-.
    split. { destruct b; [done|reflexivity]. } split; [done|]. split; [done|]. split; [done|].
    intros t n. by rewrite Z.sub_diag, Z.add_0_r.
  - cbn [skip_matches] in Hs. destruct (is_prefix b s) eqn:Hp.
    + pose proof (is_prefix_length _ _ Hp). assert (length b <> 0%nat) by (by destruct b).
      apply IH in Hs as (H1 & H2 & H3 & H4 & H5); [|rewrite length_drop; lia].
      rewrite length_drop in H2. split; [done|]. split; [lia|]. split; [lia|].
      split; [intros ?; by apply H4, bytes_ok_drop|].
      intros t n Ht. replace (n + (k - nFound)) with (n + (k - (nFound + 1)) + 1) by lia.
      apply deleted_match; [done|]. by apply H5.
    + injection Hs as <- <-. split; [done|]. split; [done|]. split; [done|]. split; [done|].
      intros t n. by rewrite Z.sub_diag, Z.add_0_r.
Qed.

Lemma range_self s : range s s = [].
Proof. unfold range. by rewrite Nat.sub_diag. Qed.

Lemma range_app used q : range (used ++ q) q = used.
Proof. unfold range. rewrite length_app, Nat.add_sub. by apply take_app_length. Qed.

(** The loop of [FindAndDelete] from the iterator [pc], with nothing to copy
    before it. *)
Lemma find_and_delete_loop_spec b : b <> [] -> forall fuel result pc2 pc nFound,
  bytes_ok pc -> (length pc <= fuel)%nat -> 0 <= nFound ->
  exists t n pc', deleted b pc (t ++ pc') n /\
    find_and_delete_loop fuel b result pc2 pc nFound = (result ++ range pc2 pc ++ t, pc', nFound + n).
Proof.
  intros Hb. induction fuel as [|fuel IH]; intros result pc2 pc nFound Hpc Hl Hn.
  - assert (pc = []) as -> by (destruct pc; [done|cbn in Hl; lia]).
    exists [], 0, []. split.
    { apply deleted_end; [by destruct b|done]. }
    cbn. by rewrite app_nil_r, Z.add_0_r.
  - cbn [find_and_delete_loop]. destruct (skip_matches (length pc) b pc nFound) as [pc' k] eqn:Hs.
    apply skip_matches_spec in Hs as (H1 & H2 & H3 & H4 & H5); [|done|done].
    specialize (H4 Hpc). destruct (GetOp_bytes pc' H4) as (Hp & _ & _ & Hr).
    destruct (ret (GetOp pc')) eqn:Hret.
    + destruct (Hr eq_refl) as [Hlt _].
      destruct (IH (result ++ range pc2 pc) pc' (pcRet (GetOp pc')) k) as (t & n & q & Hd & ->);
        [done|lia|lia|].
      exists (range pc' (pcRet (GetOp pc')) ++ t), (n + (k - nFound)), q. split.
      * apply H5. rewrite <- app_assoc. by apply deleted_op.
      * rewrite <- !app_assoc. f_equal. lia.
    + exists [], (k - nFound), pc'. split.
      * cbn [app]. replace (k - nFound) with (0 + (k - nFound)) by lia. apply H5. by apply deleted_end.
      * rewrite app_nil_r. f_equal. lia.
Qed.

Lemma deleted_nonneg b s s' n : deleted b s s' n -> 0 <= n.
Proof. induction 1; lia. Qed.

Lemma deleted_length b s s' n :
  bytes_ok s -> deleted b s s' n -> zlen s = zlen s' + n * zlen b /\ (n = 0 -> s' = s).
Proof.
  intros Hs Hd. induction Hd as [s s' n Hp Hd IH|s s' n Hp Hr Hd IH|s].
  - specialize (IH (bytes_ok_drop _ _ Hs)) as [IH _]. pose proof (is_prefix_length _ _ Hp).
    rewrite length_drop in IH. split; [lia|]. apply deleted_nonneg in Hd; lia.
  - destruct (GetOp_suffix s Hs) as (used & Hu & _ & _).
    assert (range s (pcRet (GetOp s)) = used) as Hra.
    { rewrite Hu at 1. apply range_app. }
    assert (bytes_ok (pcRet (GetOp s))) as Hb by (rewrite Hu in Hs; by apply bytes_ok_app in Hs as [_ ?]).
    destruct (IH Hb) as [IH1 IH2]. rewrite Hra, length_app. split.
    + rewrite Hu at 1. rewrite length_app. lia.
    + intros H0. rewrite (IH2 H0). by symmetry.
  - split; [lia|done].
Qed.

Lemma FindAndDelete_spec (s b : CScript) :
  bytes_ok s -> b <> [] -> deleted b s (FindAndDelete s b).1 (FindAndDelete s b).2.
Proof.
  intros Hs Hb. unfold FindAndDelete.
  destruct (find_and_delete_loop_spec b Hb (length s) [] s s 0) as (t & n & q & Hd & E); [done|done|done|].
  rewrite E. destruct (deleted_length _ _ _ _ Hs Hd) as [H1 H2]. pose proof (deleted_nonneg _ _ _ _ Hd).
  destruct b as [|b0 b]; [done|]. rewrite range_self. cbn [app]. rewrite Z.add_0_l.
  destruct (Z.ltb_spec 0 n); [done|]. assert (n = 0) as -> by lia. by rewrite (H2 eq_refl) in Hd.
Qed.

(** [FindAndDelete] ends and deletes exactly the copies of a script that
    start where the loop stands: at the start, after an instruction, or after
    another deleted copy, and none in the part that follows an unreadable
    instruction.  It returns their number; without any it leaves the script as
    it was. *)
Theorem FindAndDelete_deletes (s b : CScript) :
  bytes_ok s -> b <> [] ->
  let '(s', nFound) := FindAndDelete s b in
  deleted b s s' nFound /\ zlen s' = zlen s - nFound * zlen b /\ (nFound = 0 -> s' = s).
Proof.
  intros Hs Hb. pose proof (FindAndDelete_spec s b Hs Hb) as Hd.
  destruct (FindAndDelete s b) as [s' n]. cbn [fst snd] in Hd. destruct (deleted_length _ _ _ _ Hs Hd) as [H1 H2].
  split; [done|]. split; [lia|done].
Qed.

Lemma FindAndDelete_deletes_witness :
  FindAndDelete [OP_DUP; 2; OP_DUP; 1; OP_DUP; OP_DUP; 9] [OP_DUP] = ([2; OP_DUP; 1; 9], 3) /\
  deleted [OP_DUP] [OP_DUP; 2; OP_DUP; 1; OP_DUP; OP_DUP; 9] [2; OP_DUP; 1; 9] 3.
Proof.
  split; [reflexivity|].
  apply (FindAndDelete_deletes [OP_DUP; 2; OP_DUP; 1; OP_DUP; OP_DUP; 9] [OP_DUP]); [|discriminate].
  refine (bool_decide_eq_true_1 (bytes_ok _) _). reflexivity.
Defined.
