(* ===== verification/Interpreter.v ===== *)
(** * The script interpreter: script/interpreter.cpp

    Signature and public-key encodings, [EvalScript] and [VerifyScript].  The
    virtual class [BaseSignatureChecker] is an interface; [CPubKey::CheckLowS],
    which calls secp256k1, and the global [g_IsV6Active] are parameters.  A
    stack is a list whose head is the top, the back of the vector; a bytes
    iterator is the rest of the script, as in [Script]. *)
From S2P Require Import Prelude Serialize HashStream Sha256 Ripemd160 Sha1 Hash Script.

(** ** Errors and flags *)

Inductive ScriptError : Type :=
| SCRIPT_ERR_OK | SCRIPT_ERR_UNKNOWN_ERROR | SCRIPT_ERR_EVAL_FALSE | SCRIPT_ERR_OP_RETURN
| SCRIPT_ERR_SCRIPT_SIZE | SCRIPT_ERR_PUSH_SIZE | SCRIPT_ERR_OP_COUNT | SCRIPT_ERR_STACK_SIZE
| SCRIPT_ERR_SIG_COUNT | SCRIPT_ERR_PUBKEY_COUNT
| SCRIPT_ERR_VERIFY | SCRIPT_ERR_EQUALVERIFY | SCRIPT_ERR_CHECKCOLDSTAKEVERIFY
| SCRIPT_ERR_CHECKMULTISIGVERIFY | SCRIPT_ERR_CHECKSIGVERIFY | SCRIPT_ERR_NUMEQUALVERIFY
| SCRIPT_ERR_BAD_OPCODE | SCRIPT_ERR_DISABLED_OPCODE | SCRIPT_ERR_INVALID_STACK_OPERATION
| SCRIPT_ERR_INVALID_ALTSTACK_OPERATION | SCRIPT_ERR_UNBALANCED_CONDITIONAL
| SCRIPT_ERR_NEGATIVE_LOCKTIME | SCRIPT_ERR_UNSATISFIED_LOCKTIME
| SCRIPT_ERR_SIG_HASHTYPE | SCRIPT_ERR_SIG_DER | SCRIPT_ERR_MINIMALDATA | SCRIPT_ERR_SIG_PUSHONLY
| SCRIPT_ERR_SIG_HIGH_S | SCRIPT_ERR_SIG_NULLDUMMY | SCRIPT_ERR_PUBKEYTYPE
| SCRIPT_ERR_DISCOURAGE_UPGRADABLE_NOPS.

Inductive SigVersion : Type := SIGVERSION_BASE | SIGVERSION_SAPLING.

Definition SIGHASH_ALL : Z := 1.
Definition SIGHASH_NONE : Z := 2.
Definition SIGHASH_SINGLE : Z := 3.
Definition SIGHASH_ANYONECANPAY : Z := 0x80.

Definition SCRIPT_VERIFY_P2SH : Z := Z.shiftl 1 0.
Definition SCRIPT_VERIFY_STRICTENC : Z := Z.shiftl 1 1.
Definition SCRIPT_VERIFY_DERSIG : Z := Z.shiftl 1 2.
Definition SCRIPT_VERIFY_LOW_S : Z := Z.shiftl 1 3.
Definition SCRIPT_VERIFY_NULLDUMMY : Z := Z.shiftl 1 4.
Definition SCRIPT_VERIFY_SIGPUSHONLY : Z := Z.shiftl 1 5.
Definition SCRIPT_VERIFY_MINIMALDATA : Z := Z.shiftl 1 6.
Definition SCRIPT_VERIFY_DISCOURAGE_UPGRADABLE_NOPS : Z := Z.shiftl 1 7.
Definition SCRIPT_VERIFY_CHECKLOCKTIMEVERIFY : Z := Z.shiftl 1 9.

Notation sc := (outcome ScriptError).

(** Whether [flags] has one of the bits of [f]. *)
Definition flag (flags f : Z) : bool := negb (Z.land flags f =? 0).

(** [if (!b) return set_error(serror, e);] *)
Definition require (b : bool) (e : ScriptError) : sc unit := if b then Ok tt else Err e.

(** The checks that need the spending transaction. *)
Class BaseSignatureChecker := {
  CheckSig : valtype -> valtype -> CScript -> SigVersion -> sc bool;
  CheckLockTime : CScriptNum -> sc bool;
  CheckColdStake : CScript -> sc bool;
}.

(** The base class: every check fails. *)
Definition base_checker : BaseSignatureChecker := {|
  CheckSig _ _ _ _ := Ok false;
  CheckLockTime _ := Ok false;
  CheckColdStake _ := Ok false;
|}.

(** ** Values *)

Fixpoint CastToBool (vch : valtype) : bool :=
  match vch with
  | [] => false
  | b :: vch =>
      if negb (b =? 0) then
        (* can be negative zero *)
        match vch with [] => negb (b =? 0x80) | _ => true end
      else CastToBool vch
  end.

Definition vchFalse : valtype := [].
Definition vchTrue : valtype := [1].
Definition bool_vch (b : bool) : valtype := if b then vchTrue else vchFalse.

(** ** Encodings of keys and signatures *)

Definition PUBLIC_KEY_SIZE : Z := 65.
Definition COMPRESSED_PUBLIC_KEY_SIZE : Z := 33.

Definition IsCompressedOrUncompressedPubKey (vchPubKey : valtype) : sc bool :=
  if zlen vchPubKey <? COMPRESSED_PUBLIC_KEY_SIZE then Ok false else
  b0 ← rd vchPubKey 0;
  if b0 =? 0x04 then Ok (zlen vchPubKey =? PUBLIC_KEY_SIZE)
  else if (b0 =? 0x02) || (b0 =? 0x03) then Ok (zlen vchPubKey =? COMPRESSED_PUBLIC_KEY_SIZE)
  else Ok false.

(** A null byte [b] at the start of a number of [len] bytes, before the byte at
    [i], that is not needed. *)
Definition leading_null (sig : valtype) (len b i : Z) : sc bool :=
  if (1 <? len) && (b =? 0) then b' ← rd sig i; Ok (Z.land b' 0x80 =? 0) else Ok false.

Definition IsValidSignatureEncoding (sig : valtype) : sc bool :=
  if zlen sig <? 9 then Ok false else
  if 73 <? zlen sig then Ok false else
  b0 ← rd sig 0; if negb (b0 =? 0x30) then Ok false else
  b1 ← rd sig 1; if negb (b1 =? zlen sig - 3) then Ok false else
  lenR ← rd sig 3;
  if zlen sig <=? 5 + lenR then Ok false else
  lenS ← rd sig (5 + lenR);
  if negb (lenR + lenS + 7 =? zlen sig) then Ok false else
  b2 ← rd sig 2; if negb (b2 =? 0x02) then Ok false else
  if lenR =? 0 then Ok false else
  b4 ← rd sig 4; if negb (Z.land b4 0x80 =? 0) then Ok false else
  nullR ← leading_null sig lenR b4 5;
  if (nullR : bool) then Ok false else
  t ← rd sig (lenR + 4); if negb (t =? 0x02) then Ok false else
  if lenS =? 0 then Ok false else
  s0 ← rd sig (lenR + 6); if negb (Z.land s0 0x80 =? 0) then Ok false else
  nullS ← leading_null sig lenS s0 (lenR + 7);
  if (nullS : bool) then Ok false else
  Ok true.

Definition IsDefinedHashtypeSignature (vchSig : valtype) : bool :=
  match last vchSig with
  | None => false
  | Some b =>
      let nHashType := Z.ldiff b SIGHASH_ANYONECANPAY in
      negb ((nHashType <? SIGHASH_ALL) || (SIGHASH_SINGLE <? nHashType))
  end.

Definition CheckMinimalPush (data : valtype) (opcode : Z) : bool :=
  match data with
  | [] => opcode =? OP_0
  | d0 :: tl =>
      if bool_decide (tl = []) && (1 <=? d0) && (d0 <=? 16) then opcode =? OP_1 + (d0 - 1)
      else if bool_decide (tl = []) && (d0 =? 0x81) then opcode =? OP_1NEGATE
      else if zlen data <=? 75 then opcode =? zlen data
      else if zlen data <=? 255 then opcode =? OP_PUSHDATA1
      else if zlen data <=? 65535 then opcode =? OP_PUSHDATA2
      else true
  end.

Section Interpreter.
Context (CheckLowS : valtype -> bool) (g_IsV6Active : bool).
Context {checker : BaseSignatureChecker}.

Definition IsLowDERSignature (vchSig : valtype) : sc unit :=
  valid ← IsValidSignatureEncoding vchSig;
  require valid SCRIPT_ERR_SIG_DER;;
  require (CheckLowS (removelast vchSig)) SCRIPT_ERR_SIG_HIGH_S.

(** [CheckSignatureEncoding]: returning false after setting [*serror] is an
    error. *)
Definition CheckSignatureEncoding (vchSig : valtype) (flags : Z) : sc unit :=
  if bool_decide (vchSig = []) then Ok tt else
  der ← (if flag flags (Z.lor (Z.lor SCRIPT_VERIFY_DERSIG SCRIPT_VERIFY_LOW_S) SCRIPT_VERIFY_STRICTENC)
         then IsValidSignatureEncoding vchSig else Ok true);
  require der SCRIPT_ERR_SIG_DER;;
  (if flag flags SCRIPT_VERIFY_LOW_S then IsLowDERSignature vchSig else Ok tt);;
  require (negb (flag flags SCRIPT_VERIFY_STRICTENC) || IsDefinedHashtypeSignature vchSig)
    SCRIPT_ERR_SIG_HASHTYPE.

Definition CheckPubKeyEncoding (vchPubKey : valtype) (flags : Z) : sc unit :=
  ok ← (if flag flags SCRIPT_VERIFY_STRICTENC then IsCompressedOrUncompressedPubKey vchPubKey else Ok true);
  require ok SCRIPT_ERR_PUBKEYTYPE.

(** ** The machine *)

(** The local variables of [EvalScript] that its loop changes, [pc] excepted. *)
Record machine := Machine {
  stack : list valtype;
  altstack : list valtype;
  vfExec : list bool;  (* the innermost condition first *)
  nOpCount : Z;
  pbegincodehash : CScript;
}.

Definition set_stack (m : machine) (s : list valtype) : machine :=
  Machine s (altstack m) (vfExec m) (nOpCount m) (pbegincodehash m).
Definition set_vfExec (m : machine) (v : list bool) : machine :=
  Machine (stack m) (altstack m) v (nOpCount m) (pbegincodehash m).
Definition set_nOpCount (m : machine) (n : Z) : machine :=
  Machine (stack m) (altstack m) (vfExec m) n (pbegincodehash m).

(** [stacktop(i)], [i < 0]: [stack.at(stack.size() + i)] throws out of range. *)
Definition stacktop (s : list valtype) (i : Z) : sc valtype :=
  match s !! Z.to_nat (- i - 1) with Some v => Ok v | None => Throw end.

Definition popstack (s : list valtype) : sc (list valtype) :=
  match s with [] => Throw | _ :: s => Ok s end.

Fixpoint popstack_n (n : nat) (s : list valtype) : sc (list valtype) :=
  match n with O => Ok s | S n => s ← popstack s; popstack_n n s end.

(** [stack.erase(stack.end() - i, stack.end() - j)], [j <= i]. *)
Definition erase (s : list valtype) (i j : nat) : sc (list valtype) :=
  if Nat.ltb (length s) i then Abort else Ok (take j s ++ drop i s).

(** [stack.insert(stack.end() - i, v)]. *)
Definition insert_at (s : list valtype) (i : nat) (v : valtype) : sc (list valtype) :=
  if Nat.ltb (length s) i then Abort else Ok (take i s ++ v :: drop i s).

(** [swap(stacktop(i), stacktop(j))]. *)
Definition swap (s : list valtype) (i j : Z) : sc (list valtype) :=
  vi ← stacktop s i; vj ← stacktop s j;
  Ok (<[Z.to_nat (- j - 1) := vi]> (<[Z.to_nat (- i - 1) := vj]> s)).

(** [if (stack.size() < n) return set_error(serror, ...);] *)
Definition need (s : list valtype) (n : Z) : sc unit :=
  require (negb (zlen s <? n)) SCRIPT_ERR_INVALID_STACK_OPERATION.

Section Ops.
Context (flags : Z) (script : CScript) (sigversion : SigVersion).

Definition fRequireMinimal : bool := flag flags SCRIPT_VERIFY_MINIMALDATA.

(** [CScriptNum(stacktop(i), fRequireMinimal)]. *)
Definition num_at (s : list valtype) (i : Z) : sc CScriptNum :=
  v ← stacktop s i; ScriptNum v fRequireMinimal nDefaultMaxNumSize.

(** *** The cases of the switch: control *)

Definition op_value (opcode : Z) (s : list valtype) : sc (list valtype) :=
  Ok (getvch (opcode - (OP_1 - 1)) :: s).

Definition op_checklocktimeverify (s : list valtype) : sc (list valtype) :=
  if negb (flag flags SCRIPT_VERIFY_CHECKLOCKTIMEVERIFY) then
    require (negb (flag flags SCRIPT_VERIFY_DISCOURAGE_UPGRADABLE_NOPS)) SCRIPT_ERR_DISCOURAGE_UPGRADABLE_NOPS;;
    Ok s
  else
    need s 1;;
    v ← stacktop s (-1);
    nLockTime ← ScriptNum v fRequireMinimal 5;
    require (negb (nLockTime <? 0)) SCRIPT_ERR_NEGATIVE_LOCKTIME;;
    ok ← CheckLockTime nLockTime;
    require ok SCRIPT_ERR_UNSATISFIED_LOCKTIME;;
    Ok s.

Definition op_nop (s : list valtype) : sc (list valtype) :=
  require (negb (flag flags SCRIPT_VERIFY_DISCOURAGE_UPGRADABLE_NOPS)) SCRIPT_ERR_DISCOURAGE_UPGRADABLE_NOPS;;
  Ok s.

Definition op_if (opcode : Z) (fExec : bool) (m : machine) : sc machine :=
  if fExec then
    require (negb (zlen (stack m) <? 1)) SCRIPT_ERR_UNBALANCED_CONDITIONAL;;
    vch ← stacktop (stack m) (-1);
    let fValue := CastToBool vch in
    let fValue := if opcode =? OP_NOTIF then negb fValue else fValue in
    s ← popstack (stack m);
    Ok (set_vfExec (set_stack m s) (fValue :: vfExec m))
  else Ok (set_vfExec m (false :: vfExec m)).

Definition op_else (m : machine) : sc machine :=
  match vfExec m with
  | [] => Err SCRIPT_ERR_UNBALANCED_CONDITIONAL
  | b :: v => Ok (set_vfExec m (negb b :: v))
  end.

Definition op_endif (m : machine) : sc machine :=
  match vfExec m with
  | [] => Err SCRIPT_ERR_UNBALANCED_CONDITIONAL
  | _ :: v => Ok (set_vfExec m v)
  end.

Definition op_verify (s : list valtype) : sc (list valtype) :=
  need s 1;;
  v ← stacktop s (-1);
  if CastToBool v then popstack s else Err SCRIPT_ERR_VERIFY.

(** *** Stack operations *)

Definition op_toaltstack (m : machine) : sc machine :=
  need (stack m) 1;;
  v ← stacktop (stack m) (-1);
  s ← popstack (stack m);
  Ok (Machine s (v :: altstack m) (vfExec m) (nOpCount m) (pbegincodehash m)).

Definition op_fromaltstack (m : machine) : sc machine :=
  require (negb (zlen (altstack m) <? 1)) SCRIPT_ERR_INVALID_ALTSTACK_OPERATION;;
  v ← stacktop (altstack m) (-1);
  a ← popstack (altstack m);
  Ok (Machine (v :: stack m) a (vfExec m) (nOpCount m) (pbegincodehash m)).

Definition op_2drop (s : list valtype) : sc (list valtype) :=
  need s 2;; s ← popstack s; popstack s.

Definition op_2dup (s : list valtype) : sc (list valtype) :=
  need s 2;;
  vch1 ← stacktop s (-2); vch2 ← stacktop s (-1);
  Ok (vch2 :: vch1 :: s).

Definition op_3dup (s : list valtype) : sc (list valtype) :=
  need s 3;;
  vch1 ← stacktop s (-3); vch2 ← stacktop s (-2); vch3 ← stacktop s (-1);
  Ok (vch3 :: vch2 :: vch1 :: s).

Definition op_2over (s : list valtype) : sc (list valtype) :=
  need s 4;;
  vch1 ← stacktop s (-4); vch2 ← stacktop s (-3);
  Ok (vch2 :: vch1 :: s).

Definition op_2rot (s : list valtype) : sc (list valtype) :=
  need s 6;;
  vch1 ← stacktop s (-6); vch2 ← stacktop s (-5);
  s ← erase s 6 4;
  Ok (vch2 :: vch1 :: s).

Definition op_2swap (s : list valtype) : sc (list valtype) :=
  need s 4;; s ← swap s (-4) (-2); swap s (-3) (-1).

Definition op_ifdup (s : list valtype) : sc (list valtype) :=
  need s 1;;
  vch ← stacktop s (-1);
  Ok (if CastToBool vch then vch :: s else s).

Definition op_depth (s : list valtype) : sc (list valtype) := Ok (getvch (zlen s) :: s).

Definition op_drop (s : list valtype) : sc (list valtype) := need s 1;; popstack s.

Definition op_dup (s : list valtype) : sc (list valtype) :=
  need s 1;; vch ← stacktop s (-1); Ok (vch :: s).

Definition op_nip (s : list valtype) : sc (list valtype) := need s 2;; erase s 2 1.

Definition op_over (s : list valtype) : sc (list valtype) :=
  need s 2;; vch ← stacktop s (-2); Ok (vch :: s).

Definition op_pick_roll (opcode : Z) (s : list valtype) : sc (list valtype) :=
  need s 2;;
  bn ← num_at s (-1);
  let n := getint bn in
  s ← popstack s;
  require (negb ((n <? 0) || (zlen s <=? n))) SCRIPT_ERR_INVALID_STACK_OPERATION;;
  vch ← stacktop s (- n - 1);
  s ← (if opcode =? OP_ROLL then erase s (Z.to_nat (n + 1)) (Z.to_nat n) else Ok s);
  Ok (vch :: s).

Definition op_rot (s : list valtype) : sc (list valtype) :=
  need s 3;; s ← swap s (-3) (-2); swap s (-2) (-1).

Definition op_swap (s : list valtype) : sc (list valtype) := need s 2;; swap s (-2) (-1).

Definition op_tuck (s : list valtype) : sc (list valtype) :=
  need s 2;; vch ← stacktop s (-1); insert_at s 2 vch.

Definition op_size (s : list valtype) : sc (list valtype) :=
  need s 1;; v ← stacktop s (-1); Ok (getvch (zlen v) :: s).

(** *** Comparison and arithmetic *)

Definition op_equal (opcode : Z) (s : list valtype) : sc (list valtype) :=
  need s 2;;
  vch1 ← stacktop s (-2); vch2 ← stacktop s (-1);
  let fEqual := bool_decide (vch1 = vch2) in
  s ← popstack s; s ← popstack s;
  let s := bool_vch fEqual :: s in
  if opcode =? OP_EQUALVERIFY then
    if fEqual then popstack s else Err SCRIPT_ERR_EQUALVERIFY
  else Ok s.

Definition bool_num (b : bool) : CScriptNum := if b then 1 else 0.

Definition unary_num (opcode : Z) (bn : CScriptNum) : sc CScriptNum :=
  if opcode =? OP_1ADD then num_add_assign bn 1
  else if opcode =? OP_1SUB then num_sub_assign bn 1
  else if opcode =? OP_NEGATE then num_neg bn
  else if opcode =? OP_ABS then if bn <? 0 then num_neg bn else Ok bn
  else if opcode =? OP_NOT then Ok (bool_num (bn =? 0))
  else if opcode =? OP_0NOTEQUAL then Ok (bool_num (negb (bn =? 0)))
  else Abort.

Definition op_unary (opcode : Z) (s : list valtype) : sc (list valtype) :=
  need s 1;;
  bn ← num_at s (-1);
  bn ← unary_num opcode bn;
  s ← popstack s;
  Ok (getvch bn :: s).

Definition binary_num (opcode : Z) (bn1 bn2 : CScriptNum) : sc CScriptNum :=
  if opcode =? OP_ADD then num_add bn1 bn2
  else if opcode =? OP_SUB then num_sub bn1 bn2
  else if opcode =? OP_BOOLAND then Ok (bool_num (negb (bn1 =? 0) && negb (bn2 =? 0)))
  else if opcode =? OP_BOOLOR then Ok (bool_num (negb (bn1 =? 0) || negb (bn2 =? 0)))
  else if opcode =? OP_NUMEQUAL then Ok (bool_num (bn1 =? bn2))
  else if opcode =? OP_NUMEQUALVERIFY then Ok (bool_num (bn1 =? bn2))
  else if opcode =? OP_NUMNOTEQUAL then Ok (bool_num (negb (bn1 =? bn2)))
  else if opcode =? OP_LESSTHAN then Ok (bool_num (bn1 <? bn2))
  else if opcode =? OP_GREATERTHAN then Ok (bool_num (bn2 <? bn1))
  else if opcode =? OP_LESSTHANOREQUAL then Ok (bool_num (bn1 <=? bn2))
  else if opcode =? OP_GREATERTHANOREQUAL then Ok (bool_num (bn2 <=? bn1))
  else if opcode =? OP_MIN then Ok (if bn1 <? bn2 then bn1 else bn2)
  else if opcode =? OP_MAX then Ok (if bn2 <? bn1 then bn1 else bn2)
  else Abort.

Definition op_binary (opcode : Z) (s : list valtype) : sc (list valtype) :=
  need s 2;;
  bn1 ← num_at s (-2); bn2 ← num_at s (-1);
  bn ← binary_num opcode bn1 bn2;
  s ← popstack s; s ← popstack s;
  let s := getvch bn :: s in
  if opcode =? OP_NUMEQUALVERIFY then
    v ← stacktop s (-1);
    if CastToBool v then popstack s else Err SCRIPT_ERR_NUMEQUALVERIFY
  else Ok s.

Definition op_within (s : list valtype) : sc (list valtype) :=
  need s 3;;
  bn1 ← num_at s (-3); bn2 ← num_at s (-2); bn3 ← num_at s (-1);
  let fValue := (bn2 <=? bn1) && (bn1 <? bn3) in
  s ← popstack s; s ← popstack s; s ← popstack s;
  Ok (bool_vch fValue :: s).

(** *** Cryptography *)

Definition hash_of (opcode : Z) (vch : valtype) : valtype :=
  if opcode =? OP_RIPEMD160 then ripemd160 vch
  else if opcode =? OP_SHA1 then sha1 vch
  else if opcode =? OP_SHA256 then sha256 vch
  else if opcode =? OP_HASH160 then Hash160 vch
  else Hash [vch].

Definition op_hash (opcode : Z) (s : list valtype) : sc (list valtype) :=
  need s 1;;
  vch ← stacktop s (-1);
  let vchHash := hash_of opcode vch in
  s ← popstack s;
  Ok (vchHash :: s).

Definition op_checksig (opcode : Z) (pbegincodehash : CScript) (s : list valtype) : sc (list valtype) :=
  need s 2;;
  vchSig ← stacktop s (-2); vchPubKey ← stacktop s (-1);
  let scriptCode := (FindAndDelete pbegincodehash (push_data [] vchSig)).1 in
  CheckSignatureEncoding vchSig flags;;
  CheckPubKeyEncoding vchPubKey flags;;
  fSuccess ← CheckSig vchSig vchPubKey scriptCode sigversion;
  s ← popstack s; s ← popstack s;
  let s := bool_vch fSuccess :: s in
  if opcode =? OP_CHECKSIGVERIFY then
    if (fSuccess : bool) then popstack s else Err SCRIPT_ERR_CHECKSIGVERIFY
  else Ok s.

(** Drops the signatures [stacktop(-isig - k)], [k < n], from [scriptCode]. *)
Fixpoint drop_signatures (n : nat) (isig : Z) (s : list valtype) (scriptCode : CScript) : sc CScript :=
  match n with
  | O => Ok scriptCode
  | S n =>
      vchSig ← stacktop s (- isig);
      drop_signatures n (isig + 1) s (FindAndDelete scriptCode (push_data [] vchSig)).1
  end.

(** The loop over signatures and keys; every turn uses up a key. *)
Fixpoint multisig_loop (fuel : nat) (s : list valtype) (scriptCode : CScript)
    (isig nSigsCount ikey nKeysCount : Z) : sc bool :=
  if nSigsCount <=? 0 then Ok true else
  match fuel with
  | O => Abort
  | S fuel =>
      vchSig ← stacktop s (- isig); vchPubKey ← stacktop s (- ikey);
      CheckSignatureEncoding vchSig flags;;
      CheckPubKeyEncoding vchPubKey flags;;
      fOk ← CheckSig vchSig vchPubKey scriptCode sigversion;
      let isig := if fOk : bool then isig + 1 else isig in
      let nSigsCount := if fOk : bool then nSigsCount - 1 else nSigsCount in
      let nKeysCount := nKeysCount - 1 in
      if nKeysCount <? nSigsCount then Ok false
      else multisig_loop fuel s scriptCode isig nSigsCount (ikey + 1) nKeysCount
  end.

Definition op_checkmultisig (opcode : Z) (m : machine) : sc machine :=
  let s := stack m in
  need s 1;;
  keys ← num_at s (-1);
  let nKeysCount := getint keys in
  require (negb ((nKeysCount <? 0) || (20 <? nKeysCount))) SCRIPT_ERR_PUBKEY_COUNT;;
  let nOpCount := nOpCount m + nKeysCount in
  require (negb (201 <? nOpCount)) SCRIPT_ERR_OP_COUNT;;
  let ikey := 2 in
  let i := ikey + nKeysCount in
  need s i;;
  sigs ← num_at s (- i);
  let nSigsCount := getint sigs in
  require (negb ((nSigsCount <? 0) || (nKeysCount <? nSigsCount))) SCRIPT_ERR_SIG_COUNT;;
  let isig := i + 1 in
  let i := isig + nSigsCount in
  need s i;;
  scriptCode ← drop_signatures (Z.to_nat nSigsCount) isig s (pbegincodehash m);
  fSuccess ← multisig_loop (Z.to_nat nKeysCount) s scriptCode isig nSigsCount ikey nKeysCount;
  s ← popstack_n (Z.to_nat (i - 1)) s;
  need s 1;;
  dummy ← stacktop s (-1);
  require (negb (flag flags SCRIPT_VERIFY_NULLDUMMY && negb (bool_decide (dummy = [])))) SCRIPT_ERR_SIG_NULLDUMMY;;
  s ← popstack s;
  let s := bool_vch fSuccess :: s in
  s ← (if opcode =? OP_CHECKMULTISIGVERIFY then
         if (fSuccess : bool) then popstack s else Err SCRIPT_ERR_CHECKMULTISIGVERIFY
       else Ok s);
  Ok (set_nOpCount (set_stack m s) nOpCount).

Definition op_checkcoldstakeverify (s : list valtype) : sc (list valtype) :=
  (if g_IsV6Active then
     require (zlen s =? 3) SCRIPT_ERR_INVALID_STACK_OPERATION;;
     vchSig ← stacktop s (-3); vchPubKey ← stacktop s (-2);
     CheckSignatureEncoding vchSig flags;;
     CheckPubKeyEncoding vchPubKey flags;;
     vchPubKeyHash ← stacktop s (-1);
     require (zlen vchPubKeyHash =? 20) SCRIPT_ERR_SCRIPT_SIZE
   else Ok tt);;
  ok ← CheckColdStake script;
  require ok SCRIPT_ERR_CHECKCOLDSTAKEVERIFY;;
  Ok s.

(** *** The loop *)

Definition one_of (opcode : Z) (l : list Z) : bool := existsb (Z.eqb opcode) l.

Definition is_disabled (opcode : Z) : bool :=
  one_of opcode [OP_CAT; OP_SUBSTR; OP_LEFT; OP_RIGHT; OP_INVERT; OP_AND; OP_OR; OP_XOR;
                 OP_2MUL; OP_2DIV; OP_MUL; OP_DIV; OP_MOD; OP_LSHIFT; OP_RSHIFT].

(** The cases that change the stack only. *)
Definition stack_op (opcode : Z) : option (list valtype -> sc (list valtype)) :=
  if (opcode =? OP_1NEGATE) || (OP_1 <=? opcode) && (opcode <=? OP_16) then Some (op_value opcode)
  else if opcode =? OP_NOP then Some (fun s => Ok s)
  else if opcode =? OP_CHECKLOCKTIMEVERIFY then Some op_checklocktimeverify
  else if one_of opcode [OP_NOP1; OP_NOP3; OP_NOP4; OP_NOP5; OP_NOP6; OP_NOP7; OP_NOP8; OP_NOP9; OP_NOP10]
  then Some op_nop
  else if opcode =? OP_VERIFY then Some op_verify
  else if opcode =? OP_RETURN then Some (fun _ => Err SCRIPT_ERR_OP_RETURN)
  else if opcode =? OP_2DROP then Some op_2drop
  else if opcode =? OP_2DUP then Some op_2dup
  else if opcode =? OP_3DUP then Some op_3dup
  else if opcode =? OP_2OVER then Some op_2over
  else if opcode =? OP_2ROT then Some op_2rot
  else if opcode =? OP_2SWAP then Some op_2swap
  else if opcode =? OP_IFDUP then Some op_ifdup
  else if opcode =? OP_DEPTH then Some op_depth
  else if opcode =? OP_DROP then Some op_drop
  else if opcode =? OP_DUP then Some op_dup
  else if opcode =? OP_NIP then Some op_nip
  else if opcode =? OP_OVER then Some op_over
  else if (opcode =? OP_PICK) || (opcode =? OP_ROLL) then Some (op_pick_roll opcode)
  else if opcode =? OP_ROT then Some op_rot
  else if opcode =? OP_SWAP then Some op_swap
  else if opcode =? OP_TUCK then Some op_tuck
  else if opcode =? OP_SIZE then Some op_size
  else if (opcode =? OP_EQUAL) || (opcode =? OP_EQUALVERIFY) then Some (op_equal opcode)
  else if one_of opcode [OP_1ADD; OP_1SUB; OP_NEGATE; OP_ABS; OP_NOT; OP_0NOTEQUAL] then Some (op_unary opcode)
  else if one_of opcode [OP_ADD; OP_SUB; OP_BOOLAND; OP_BOOLOR; OP_NUMEQUAL; OP_NUMEQUALVERIFY;
                         OP_NUMNOTEQUAL; OP_LESSTHAN; OP_GREATERTHAN; OP_LESSTHANOREQUAL;
                         OP_GREATERTHANOREQUAL; OP_MIN; OP_MAX] then Some (op_binary opcode)
  else if opcode =? OP_WITHIN then Some op_within
  else if one_of opcode [OP_RIPEMD160; OP_SHA1; OP_SHA256; OP_HASH160; OP_HASH256] then Some (op_hash opcode)
  else if opcode =? OP_CHECKCOLDSTAKEVERIFY then Some op_checkcoldstakeverify
  else None.

(** The switch; [pc] is the iterator after the instruction. *)
Definition exec_op (opcode : Z) (fExec : bool) (pc : CScript) (m : machine) : sc machine :=
  if (opcode =? OP_IF) || (opcode =? OP_NOTIF) then op_if opcode fExec m
  else if opcode =? OP_ELSE then op_else m
  else if opcode =? OP_ENDIF then op_endif m
  else if opcode =? OP_TOALTSTACK then op_toaltstack m
  else if opcode =? OP_FROMALTSTACK then op_fromaltstack m
  else if opcode =? OP_CODESEPARATOR then
    Ok (Machine (stack m) (altstack m) (vfExec m) (nOpCount m) pc)
  else if (opcode =? OP_CHECKSIG) || (opcode =? OP_CHECKSIGVERIFY) then
    s ← op_checksig opcode (pbegincodehash m) (stack m); Ok (set_stack m s)
  else if (opcode =? OP_CHECKMULTISIG) || (opcode =? OP_CHECKMULTISIGVERIFY) then op_checkmultisig opcode m
  else
    match stack_op opcode with
    | Some f => s ← f (stack m); Ok (set_stack m s)
    | None => Err SCRIPT_ERR_BAD_OPCODE
    end.

(** The body of the loop. *)
Definition eval_step (pc : CScript) (m : machine) : sc (CScript * machine) :=
  let fExec := forallb id (vfExec m) in
  let g := GetOp pc in
  require (ret g) SCRIPT_ERR_BAD_OPCODE;;
  let opcode := opcodeRet g in
  require (negb (MAX_SCRIPT_ELEMENT_SIZE <? zlen (vchRet g))) SCRIPT_ERR_PUSH_SIZE;;
  let m := if OP_16 <? opcode then set_nOpCount m (nOpCount m + 1) else m in
  require (negb ((OP_16 <? opcode) && (201 <? nOpCount m))) SCRIPT_ERR_OP_COUNT;;
  require (negb (is_disabled opcode)) SCRIPT_ERR_DISABLED_OPCODE;;
  m ← (if fExec && (0 <=? opcode) && (opcode <=? OP_PUSHDATA4) then
         require (negb (fRequireMinimal && negb (CheckMinimalPush (vchRet g) opcode))) SCRIPT_ERR_MINIMALDATA;;
         Ok (set_stack m (vchRet g :: stack m))
       else if fExec || (OP_IF <=? opcode) && (opcode <=? OP_ENDIF) then exec_op opcode fExec (pcRet g) m
       else Ok m);
  require (negb (1000 <? zlen (stack m) + zlen (altstack m))) SCRIPT_ERR_STACK_SIZE;;
  Ok (pcRet g, m).

(** The loop: [fuel] turns are enough when the script has at most that many
    bytes. *)
Fixpoint eval_loop (fuel : nat) (pc : CScript) (m : machine) : sc machine :=
  match pc with
  | [] => Ok m
  | _ =>
      match fuel with
      | O => Abort
      | S fuel => '(pc, m) ← eval_step pc m; eval_loop fuel pc m
      end
  end.

End Ops.

(** [EvalScript]: the final stack, or the error. *)
Definition EvalScript (s : list valtype) (script : CScript) (flags : Z) (sigversion : SigVersion)
  : sc (list valtype) :=
  if MAX_SCRIPT_SIZE <? zlen script then Err SCRIPT_ERR_SCRIPT_SIZE else
  match eval_loop flags script sigversion (length script) script (Machine s [] [] 0 script) with
  | Ok m => if bool_decide (vfExec m = []) then Ok (stack m) else Err SCRIPT_ERR_UNBALANCED_CONDITIONAL
  | Err e => Err e
  | Throw => Err SCRIPT_ERR_UNKNOWN_ERROR  (* catch (...) *)
  | Abort => Abort
  end.

(** [if (stack.empty() || !CastToBool(stack.back())) return set_error(EVAL_FALSE);] *)
Definition require_true (s : list valtype) : sc unit :=
  match s with
  | [] => Err SCRIPT_ERR_EVAL_FALSE
  | v :: _ => require (CastToBool v) SCRIPT_ERR_EVAL_FALSE
  end.

Definition VerifyScript (scriptSig scriptPubKey : CScript) (flags : Z) (sigversion : SigVersion) : sc unit :=
  require (negb (flag flags SCRIPT_VERIFY_SIGPUSHONLY && negb (IsPushOnly scriptSig))) SCRIPT_ERR_SIG_PUSHONLY;;
  s ← EvalScript [] scriptSig flags sigversion;
  let stackCopy := if flag flags SCRIPT_VERIFY_P2SH then s else [] in
  s ← EvalScript s scriptPubKey flags sigversion;
  require_true s;;
  if flag flags SCRIPT_VERIFY_P2SH && IsPayToScriptHash scriptPubKey then
    require (IsPushOnly scriptSig) SCRIPT_ERR_SIG_PUSHONLY;;
    cassert (negb (bool_decide (stackCopy = [])));;
    let pubKey2 := default [] (head stackCopy) in
    stackCopy ← popstack stackCopy;
    stackCopy ← EvalScript stackCopy pubKey2 flags sigversion;
    require_true stackCopy
  else Ok tt.

End Interpreter.

(** ** Results without undefined behaviour *)

(** [o] is not an abort, and satisfies [P] when it returns. *)
Definition safe {A} (P : A -> Prop) (o : sc A) : Prop :=
  match o with Ok a => P a | Abort => False | _ => True end.

Lemma safe_bind {A B} (Q : A -> Prop) (P : B -> Prop) (m : sc A) (k : A -> sc B) :
  safe Q m -> (forall a, Q a -> safe P (k a)) -> safe P (m ≫= k).
Proof. destruct m; cbn; auto. Qed.

Lemma safe_weaken {A} (Q P : A -> Prop) (m : sc A) :
  safe Q m -> (forall a, Q a -> P a) -> safe P m.
Proof. destruct m; cbn; auto. Qed.

Lemma safe_require b e : safe (fun _ => b = true) (require b e).
Proof. by destruct b. Qed.

Lemma safe_require_bind {A} (P : A -> Prop) b e (k : unit -> sc A) :
  (b = true -> safe P (k tt)) -> safe P (require b e ≫= k).
Proof. destruct b; cbn; auto. Qed.

Lemma safe_rd {A} (l : list A) i : 0 <= i < zlen l -> safe (fun x => l !! Z.to_nat i = Some x) (rd l i).
Proof. intros H. destruct (rd_ok (E := ScriptError) l i H) as (x & -> & Hx). exact Hx. Qed.

(** A stack element: at most 520 bytes. *)
Definition elem (v : valtype) : Prop := bytes_ok v /\ zlen v <= MAX_SCRIPT_ELEMENT_SIZE.
Notation elems := (Forall elem).

Lemma safe_stacktop s i : elems s -> safe elem (stacktop s i).
Proof.
  intros Hs. unfold stacktop. destruct (s !! Z.to_nat (- i - 1)) eqn:E; [|done].
  by apply (Forall_lookup_1 _ _ _ _ Hs E).
Qed.

Lemma safe_popstack s : elems s -> safe (fun s' => elems s' /\ length s = S (length s')) (popstack s).
Proof. destruct s; [done|]. inversion 1; subst. by split. Qed.

Lemma safe_popstack_n n : forall s, elems s -> safe elems (popstack_n n s).
Proof.
  induction n as [|n IH]; intros s Hs; [done|]. cbn [popstack_n].
  eapply safe_bind; [by apply safe_popstack|]. intros s' [H _]. by apply IH.
Qed.

Lemma safe_need s n : safe (fun _ => n <= zlen s) (need s n).
Proof.
  eapply safe_weaken; [apply safe_require|]. intros [] H. apply negb_true_iff, Z.ltb_ge in H. lia.
Qed.

Lemma safe_erase s i j : elems s -> (i <= length s)%nat -> safe elems (erase s i j).
Proof.
  intros Hs Hi. unfold erase. destruct (Nat.ltb_spec (length s) i); [lia|].
  apply Forall_app. split; [by apply Forall_take|by apply Forall_drop].
Qed.

Lemma safe_insert_at s i v : elems s -> elem v -> (i <= length s)%nat -> safe elems (insert_at s i v).
Proof.
  intros Hs Hv Hi. unfold insert_at. destruct (Nat.ltb_spec (length s) i); [lia|].
  apply Forall_app. split; [by apply Forall_take|constructor; [done|by apply Forall_drop]].
Qed.

Lemma safe_swap s i j : elems s -> safe elems (swap s i j).
Proof.
  intros Hs. unfold swap. eapply safe_bind; [by apply safe_stacktop|]. intros vi Hi.
  eapply safe_bind; [by apply safe_stacktop|]. intros vj Hj. cbn.
  by apply Forall_insert, Hi; apply Forall_insert.
Qed.

(** A number read from four bytes. *)
Definition small (k : Z) (n : CScriptNum) : Prop := Z.abs n < 2 ^ (8 * k - 1).

Lemma safe_ScriptNum v f k : bytes_ok v -> 1 <= k <= 7 -> safe (small k) (ScriptNum v f k).
Proof.
  intros Hv Hk. rewrite ScriptNum_value by (done || lia).
  destruct (Z.ltb_spec k (zlen v)); [done|]. cbn [orb]. destruct (f && non_minimal v); [done|].
  by apply num_value_abs; [|lia|lia].
Qed.

Lemma safe_num_at flags s i : elems s -> safe (small 4) (num_at flags s i).
Proof.
  intros Hs. eapply safe_bind; [by apply safe_stacktop|]. intros v [Hv _].
  apply safe_ScriptNum; [done|unfold nDefaultMaxNumSize; lia].
Qed.

Lemma elem_getvch n : Z.abs n < 2 ^ 55 -> elem (getvch n).
Proof.
  intros Hn. destruct (getvch_range n 7) as (H1 & H2 & _); [lia|done|].
  split; [done|]. unfold MAX_SCRIPT_ELEMENT_SIZE. lia.
Qed.

Lemma elem_bool_vch b : elem (bool_vch b).
Proof. destruct b; (split; [|unfold MAX_SCRIPT_ELEMENT_SIZE; cbn; lia]); repeat constructor; lia. Qed.

Lemma elem_short v : elem v -> zlen v < 2 ^ 60.
Proof. intros [_ H]. unfold MAX_SCRIPT_ELEMENT_SIZE in H. lia. Qed.

Lemma elem_sized n v : sized n v -> (Z.of_nat n <=? MAX_SCRIPT_ELEMENT_SIZE) = true -> elem v.
Proof. intros [H1 H2] Hn%Z.leb_le. split; [done|]. by rewrite H1. Qed.

Lemma elem_hash_of opcode v : elem v -> elem (hash_of opcode v).
Proof.
  intros Hv%elem_short. unfold hash_of.
  destruct (opcode =? OP_RIPEMD160); [exact (elem_sized 20 _ (ripemd160_sized v Hv) eq_refl)|].
  destruct (opcode =? OP_SHA1); [exact (elem_sized 20 _ (sha1_sized v Hv) eq_refl)|].
  destruct (opcode =? OP_SHA256); [exact (elem_sized 32 _ (sha256_sized v Hv) eq_refl)|].
  destruct (opcode =? OP_HASH160); [exact (elem_sized 20 _ (Hash160_sized v Hv) eq_refl)|].
  exact (elem_sized 32 _ (Hash_sized v Hv) eq_refl).
Qed.

Lemma safe_int64 k x : Z.abs x < 2 ^ (8 * k - 1) -> 1 <= k <= 7 -> safe (small k) (int64_result x).
Proof.
  intros Hx Hk. assert (2 ^ (8 * k - 1) <= 2 ^ 55) by (apply Z.pow_le_mono_r; lia).
  rewrite int64_result_ok; [done|]. unfold in_s.
  change (2 ^ 55) with 36028797018963968 in *. change (2 ^ (64 - 1)) with 9223372036854775808. lia.
Qed.

Lemma safe_cassert b : b = true -> safe (fun _ => True) (cassert (E := ScriptError) b).
Proof. by intros ->. Qed.

Lemma small_bool b : small 5 (bool_num b).
Proof. by destruct b. Qed.

(** Four-byte operands: no arithmetic assertion fails and nothing overflows. *)
Lemma safe_unary_num opcode n :
  one_of opcode [OP_1ADD; OP_1SUB; OP_NEGATE; OP_ABS; OP_NOT; OP_0NOTEQUAL] = true ->
  small 4 n -> safe (small 5) (unary_num opcode n).
Proof.
  unfold small at 1. change (2 ^ (8 * 4 - 1)) with 2147483648. intros Ho Hn.
  assert (forall x, Z.abs x <= 2147483648 -> safe (small 5) (int64_result x)) as Hi.
  { intros x Hx. apply safe_int64; [|lia]. change (2 ^ (8 * 5 - 1)) with 549755813888. lia. }
  assert (safe (small 5) (num_neg n)) as Hneg.
  { unfold num_neg. eapply safe_bind; [apply safe_cassert|].
    - apply negb_true_iff, Z.eqb_neq. unfold INT64_MIN. lia.
    - intros _ _. apply Hi. lia. }
  unfold unary_num, num_add_assign, num_sub_assign, INT64_MAX, INT64_MIN.
  repeat case_match; bool_to_prop; subst; try discriminate Ho; try exact Hneg;
    try (eapply safe_bind; [apply safe_cassert|intros _ _; apply Hi; lia]).
  - apply orb_true_iff. left. apply orb_true_iff. right. apply andb_true_iff. split; [done|]. apply Z.leb_le. lia.
  - apply orb_true_iff. left. apply orb_true_iff. right. apply andb_true_iff. split; [done|]. apply Z.leb_le. lia.
  - unfold safe, small. change (2 ^ (8 * 5 - 1)) with 549755813888. lia.
  - apply small_bool.
  - apply small_bool.
  - cbn in Ho. repeat match goal with H : ?o <> _ |- _ => apply Z.eqb_neq in H; rewrite H in Ho; clear H end.
    discriminate Ho.
Qed.

Lemma safe_binary_num opcode n1 n2 :
  one_of opcode [OP_ADD; OP_SUB; OP_BOOLAND; OP_BOOLOR; OP_NUMEQUAL; OP_NUMEQUALVERIFY;
                 OP_NUMNOTEQUAL; OP_LESSTHAN; OP_GREATERTHAN; OP_LESSTHANOREQUAL;
                 OP_GREATERTHANOREQUAL; OP_MIN; OP_MAX] = true ->
  small 4 n1 -> small 4 n2 -> safe (small 5) (binary_num opcode n1 n2).
Proof.
  unfold small at 1 2. change (2 ^ (8 * 4 - 1)) with 2147483648. intros Ho H1 H2.
  assert (forall x, Z.abs x < 2 ^ 39 -> safe (small 5) (int64_result x)) as Hi
    by (intros x Hx; by apply safe_int64; [|lia]).
  assert (small 5 n1 /\ small 5 n2) as []
    by (unfold small; change (2 ^ (8 * 5 - 1)) with 549755813888; lia).
  unfold binary_num, num_add, num_sub.
  repeat first [ case_match; [first [apply Hi; change (2 ^ 39) with 549755813888; lia
                                   | apply small_bool | cbn; by case_match ]|] ].
  cbn in Ho. repeat match goal with H : (_ =? _) = false |- _ => rewrite H in Ho; clear H end.
  discriminate Ho.
Qed.

(** ** Signature encodings: facts *)

(** A positive DER integer of minimal length. *)
Definition der_int (l : valtype) : Prop :=
  exists b tl, l = b :: tl /\ b < 128 /\ (b = 0 -> forall c tl', tl = c :: tl' -> 128 <= c).

(** A strict DER signature followed by a hash type. *)
Definition strict_der (sig : valtype) : Prop :=
  exists R S hashtype,
    sig = 0x30 :: (4 + zlen R + zlen S) :: 0x02 :: zlen R :: R ++ 0x02 :: zlen S :: S ++ [hashtype] /\
    der_int R /\ der_int S /\ zlen sig <= 73.

Lemma rd_val {A} (l : list A) i x : 0 <= i -> l !! Z.to_nat i = Some x -> rd (E := ScriptError) l i = Ok x.
Proof. intros Hi Hx. unfold rd. by rewrite bool_decide_eq_true_2, Hx. Qed.

Lemma byte_at (l : list Z) i b : bytes_ok l -> l !! i = Some b -> 0 <= b < 256.
Proof. intros Hl Hb. exact (Forall_lookup_1 _ _ _ _ Hl Hb). Qed.

Lemma leading_null_ok sig len b i :
  (1 < len -> 0 <= i < zlen sig) -> exists n, leading_null sig len b i = Ok n.
Proof.
  intros Hi. unfold leading_null. destruct ((1 <? len) && (b =? 0)) eqn:E; [|by eexists].
  bool_to_prop. destruct (rd_ok (E := ScriptError) sig i) as (x & -> & _); [auto|]. by eexists.
Qed.

(** Runs [IsValidSignatureEncoding]: every index it reads is in range. *)
Ltac sig_run Hs :=
  match goal with
  | |- exists b, Ok ?c = Ok b => by exists c
  | |- exists b, (if ?c then _ else _) = Ok b => let E := fresh "E" in destruct c eqn:E; bool_to_prop
  | |- exists b, (rd ?l ?i ≫= _) = Ok b =>
      let x := fresh "x" in let Hx := fresh "Hx" in
      destruct (rd_ok (E := ScriptError) l i) as (x & -> & Hx); [lia|];
      apply (byte_at _ _ _ Hs) in Hx as ?; cbn [mbind outcome_bind]
  | |- exists b, (leading_null ?l ?n ?b ?i ≫= _) = Ok b =>
      let x := fresh "x" in
      destruct (leading_null_ok l n b i) as (x & ->); [lia|]; cbn [mbind outcome_bind]
  end.

Lemma safe_sig_encoding sig :
  bytes_ok sig -> exists b, IsValidSignatureEncoding sig = Ok b.
Proof. intros Hs. unfold IsValidSignatureEncoding. repeat sig_run Hs. Qed.

(** Takes apart a run of [IsValidSignatureEncoding] that returned true. *)
Ltac sig_inv H :=
  match type of H with
  | (if ?c then Ok false else _) = Ok true => let E := fresh "E" in destruct c eqn:E; [discriminate H|]
  | (rd ?l ?i ≫= _) = Ok true =>
      let x := fresh "x" in let Hx := fresh "Hx" in
      destruct (rd l i) as [x| | |] eqn:Hx; try discriminate H; apply rd_Ok_inv in Hx as [_ Hx];
      cbn [mbind outcome_bind] in H
  | (leading_null ?l ?n ?b ?i ≫= _) = Ok true =>
      let x := fresh "null" in let Hx := fresh "Hnull" in
      destruct (leading_null l n b i) as [x| | |] eqn:Hx; try discriminate H;
      cbn [mbind outcome_bind] in H
  end.

Lemma leading_null_false (sig : valtype) len b i :
  leading_null sig len b i = Ok false ->
  1 < len -> b = 0 -> exists c, sig !! Z.to_nat i = Some c /\ Z.land c 0x80 <> 0.
Proof.
  unfold leading_null. intros H Hl ->. destruct (Z.ltb_spec 1 len); [|lia]. cbn [andb Z.eqb] in H.
  destruct (rd sig i) as [x| | |] eqn:E; try discriminate H. apply rd_Ok_inv in E as [_ E].
  injection H as H%Z.eqb_neq. by exists x.
Qed.

(** [l] from index [i], of length [n]. *)
Lemma der_int_intro l b :
  l !! 0%nat = Some b -> b < 128 -> (b = 0 -> forall c, l !! 1%nat = Some c -> 128 <= c) -> der_int l.
Proof.
  destruct l as [|b' tl]; intros Hb H1 H2; [done|]. injection Hb as ->.
  exists b, tl. split; [done|]. split; [done|]. intros E c tl' ->. by apply H2.
Qed.

Lemma sig_split sig n b0 b1 b2 lenR :
  sig !! 0%nat = Some b0 -> sig !! 1%nat = Some b1 -> sig !! 2%nat = Some b2 -> sig !! 3%nat = Some lenR ->
  n = Z.to_nat lenR -> (n + 7 <= length sig)%nat ->
  exists R t lenS rest, sig = b0 :: b1 :: b2 :: lenR :: R ++ t :: lenS :: rest /\ length R = n.
Proof.
  intros H0 H1 H2 H3 Hn Hl.
  destruct sig as [|? [|? [|? [|? tl]]]]; try discriminate.
  injection H0 as ->. injection H1 as ->. injection H2 as ->. injection H3 as ->. cbn [length] in Hl.
  assert (length (drop n tl) = length tl - n)%nat as Hd by apply length_drop.
  destruct (drop n tl) as [|t [|lenS rest]] eqn:E; cbn [length] in Hd; try lia.
  exists (take n tl), t, lenS, rest. split; [|rewrite length_take; lia].
  by rewrite <- E, take_drop.
Qed.

(** Where the parts of such a signature are. *)
Lemma sig_lookups (b0 b1 b2 lenR t lenS : Z) (R rest : list Z) :
  let sig := b0 :: b1 :: b2 :: lenR :: R ++ t :: lenS :: rest in
  sig !! (length R + 4)%nat = Some t /\ sig !! (length R + 5)%nat = Some lenS /\
  (forall i, sig !! (length R + 6 + i)%nat = rest !! i) /\
  (forall i x, R !! i = Some x -> sig !! (4 + i)%nat = Some x).
Proof.
  assert (forall i, (b0 :: b1 :: b2 :: lenR :: R ++ t :: lenS :: rest) !! (4 + i)%nat
                    = (R ++ t :: lenS :: rest) !! i) as H4 by reflexivity.
  assert (forall i, (R ++ t :: lenS :: rest) !! (length R + i)%nat = (t :: lenS :: rest) !! i) as HR.
  { intros i. rewrite lookup_app_r by lia. f_equal. lia. }
  cbn zeta. split; [|split; [|split]].
  - replace (length R + 4)%nat with (4 + (length R + 0))%nat by lia. by rewrite H4, HR.
  - replace (length R + 5)%nat with (4 + (length R + 1))%nat by lia. by rewrite H4, HR.
  - intros i. replace (length R + 6 + i)%nat with (4 + (length R + (2 + i)))%nat by lia. by rewrite H4, HR.
  - intros i x Hx. rewrite H4, lookup_app_l; [done|]. by apply lookup_lt_Some in Hx.
Qed.

(** The integer at [i], of [n] bytes, satisfies the tests on its first bytes. *)
Lemma der_int_tests (sig l : valtype) i n b0 :
  bytes_ok sig -> (forall k x, l !! k = Some x -> sig !! (i + k)%nat = Some x) -> zlen l = n -> n <> 0 ->
  sig !! i = Some b0 -> Z.land b0 0x80 = 0 ->
  (1 < n -> b0 = 0 -> exists b1, sig !! (i + 1)%nat = Some b1 /\ Z.land b1 0x80 <> 0) -> der_int l.
Proof.
  intros Hs Hl Hn Hz H0 Hb0 Hb1. destruct l as [|b tl]; [cbn in Hn; lia|].
  pose proof (Hl 0%nat b eq_refl) as Hb. rewrite Nat.add_0_r, H0 in Hb. injection Hb as ->.
  apply (der_int_intro _ b); [done| |].
  - pose proof (byte_at _ _ _ Hs H0) as Hok. pose proof (sign_bit b Hok) as Hsb.
    rewrite Hb0 in Hsb. symmetry in Hsb. by apply Z.ltb_lt in Hsb.
  - intros -> c Hc. apply Hl in Hc as Hc'. apply lookup_lt_Some in Hc.
    destruct Hb1 as (b1 & E & Hb1); [lia|done|]. rewrite Hc' in E. injection E as <-.
    pose proof (sign_bit c (byte_at _ _ _ Hs Hc')) as Hsb.
    destruct (Z.eqb_spec (Z.land c 128) 0); [done|]. symmetry in Hsb. by apply Z.ltb_ge in Hsb.
Qed.

Lemma sig_encoding_sound sig :
  bytes_ok sig -> IsValidSignatureEncoding sig = Ok true -> strict_der sig.
Proof.
  intros Hs H. unfold IsValidSignatureEncoding in H. repeat sig_inv H.
  bool_to_prop. subst.
  pose proof (byte_at _ _ _ Hs Hx1). pose proof (byte_at _ _ _ Hs Hx2).
  destruct (sig_split sig (Z.to_nat x1) _ _ _ _ Hx Hx0 Hx3 Hx1 eq_refl) as (R & t & lenS & rest & Es & HR); [lia|].
  destruct (sig_lookups 48 (zlen sig - 3) 2 x1 t lenS R rest) as (L1 & L2 & L3 & L4).
  rewrite <- Es in L1, L2, L3, L4.
  replace (Z.to_nat (x1 + 4)) with (length R + 4)%nat in Hx5 by lia.
  replace (Z.to_nat (5 + x1)) with (length R + 5)%nat in Hx2 by lia.
  replace (Z.to_nat (x1 + 6)) with (length R + 6 + 0)%nat in Hx6 by lia.
  rewrite Hx5 in L1. rewrite Hx2 in L2. injection L1 as <-. injection L2 as <-.
  assert (length sig = length R + 6 + length rest)%nat as Hlen
    by (rewrite Es at 1; cbn; rewrite length_app; cbn; lia).
  destruct rest as [|ht S _] using rev_ind; [cbn in Hlen; lia|].
  rewrite length_app in Hlen. cbn [length] in Hlen.
  exists R, S, ht. split_and!.
  - rewrite Es at 1. replace (4 + zlen R + zlen S) with (zlen sig - 3) by lia.
    replace (zlen R) with x1 by lia. by replace (zlen S) with x2 by lia.
  - eapply (der_int_tests sig R 4 x1 x4); [done|exact L4|lia|done|exact Hx4|done|].
    intros G1 G2. exact (leading_null_false _ _ _ _ Hnull G1 G2).
  - eapply (der_int_tests sig S (length R + 6) x2 x6); [done| |lia|done|by rewrite Nat.add_0_r in Hx6|done|].
    + intros k c Hc. rewrite L3, lookup_app_l; [done|]. by apply lookup_lt_Some in Hc.
    + intros G1 G2. replace (length R + 6 + 1)%nat with (Z.to_nat (x1 + 7)) by lia.
      exact (leading_null_false _ _ _ _ Hnull0 G1 G2).
  - done.
Qed.

Lemma der_int_first l : der_int l -> bytes_ok l ->
  exists b tl, l = b :: tl /\ Z.land b 0x80 = 0 /\
    (1 < zlen l -> b = 0 -> exists c, l !! 1%nat = Some c /\ (Z.land c 0x80 =? 0) = false).
Proof.
  intros (b & tl & -> & Hb & H) Hl. exists b, tl. split; [done|].
  inversion Hl as [|? ? Hb0 Htl]; subst. split.
  - apply Z.eqb_eq. rewrite sign_bit by done. by apply Z.ltb_lt.
  - intros Hlen H0. destruct tl as [|c tl]; [cbn in Hlen; lia|]. exists c. split; [done|].
    apply Forall_cons in Htl as [Hc _]. rewrite sign_bit by done. apply Z.ltb_ge. by apply (H H0 c tl).
Qed.

Lemma leading_null_intro (sig l : valtype) b i :
  0 <= i -> (1 < zlen l -> b = 0 -> exists c, sig !! Z.to_nat i = Some c /\ (Z.land c 0x80 =? 0) = false) ->
  leading_null sig (zlen l) b i = Ok false.
Proof.
  intros Hi H. unfold leading_null. destruct (Z.ltb_spec 1 (zlen l)) as [H1|]; [|done].
  destruct (Z.eqb_spec b 0) as [H2|]; [|done]. cbn [andb].
  destruct (H H1 H2) as (c & Hc & E). rewrite (rd_val _ _ c) by done. cbn. by rewrite E.
Qed.

Lemma sig_encoding_complete sig :
  bytes_ok sig -> strict_der sig -> IsValidSignatureEncoding sig = Ok true.
Proof.
  intros Hs (R & S & ht & Es & HR & HS & Hmax).
  destruct (sig_lookups 48 (4 + zlen R + zlen S) 2 (zlen R) 2 (zlen S) R (S ++ [ht])) as (L1 & L2 & L3 & L4).
  rewrite <- Es in L1, L2, L3, L4.
  assert (zlen sig = zlen R + zlen S + 7) as Hlen
    by (rewrite Es; cbn; rewrite length_app; cbn; rewrite length_app; cbn; lia).
  assert (bytes_ok R /\ bytes_ok S) as [HbR HbS].
  { rewrite Es in Hs. do 4 (apply Forall_cons in Hs as [_ Hs]). apply bytes_ok_app in Hs as [? Hs].
    do 2 (apply Forall_cons in Hs as [_ Hs]). by apply bytes_ok_app in Hs as [? _]. }
  destruct (der_int_first R HR HbR) as (r0 & Rtl & ER & Hr0 & Hr1).
  destruct (der_int_first S HS HbS) as (s0 & Stl & ES & Hs0 & Hs1).
  assert (1 <= zlen R /\ 1 <= zlen S) as [] by (rewrite ER, ES; cbn; lia).
  assert (sig !! Z.to_nat 4 = Some r0) as Lr0 by (apply (L4 0%nat); by rewrite ER).
  assert (forall k x, S !! k = Some x -> sig !! (length R + 6 + k)%nat = Some x) as LS.
  { intros k x Hx. rewrite L3, lookup_app_l; [done|]. by apply lookup_lt_Some in Hx. }
  unfold IsValidSignatureEncoding.
  destruct (Z.ltb_spec (zlen sig) 9); [lia|]. destruct (Z.ltb_spec 73 (zlen sig)); [lia|].
  rewrite (rd_val sig 0 48); [|done|by rewrite Es]. cbn [mbind outcome_bind Z.eqb Pos.eqb negb].
  rewrite (rd_val sig 1 (zlen sig - 3)); [|done|].
  2:{ replace (zlen sig - 3) with (4 + zlen R + zlen S) by lia. by rewrite Es. }
  cbn [mbind outcome_bind]. rewrite Z.eqb_refl. cbn [negb].
  rewrite (rd_val sig 3 (zlen R)); [|done|by rewrite Es]. cbn [mbind outcome_bind].
  destruct (Z.leb_spec (zlen sig) (5 + zlen R)); [lia|].
  rewrite (rd_val sig (5 + zlen R) (zlen S)); [|lia|by replace (Z.to_nat (5 + zlen R)) with (length R + 5)%nat by lia].
  cbn [mbind outcome_bind].
  destruct (Z.eqb_spec (zlen R + zlen S + 7) (zlen sig)); [|lia]. cbn [negb].
  rewrite (rd_val sig 2 2); [|done|by rewrite Es]. cbn [mbind outcome_bind Z.eqb Pos.eqb negb].
  destruct (Z.eqb_spec (zlen R) 0); [lia|].
  rewrite (rd_val sig 4 r0) by done. cbn [mbind outcome_bind]. rewrite Hr0. cbn [Z.eqb negb].
  rewrite leading_null_intro; [|done|].
  2:{ intros G1 G2. destruct (Hr1 G1 G2) as (c & Hc & E). exists c. split; [by apply (L4 1%nat)|done]. }
  cbn [mbind outcome_bind].
  rewrite (rd_val sig (zlen R + 4) 2); [|lia|by replace (Z.to_nat (zlen R + 4)) with (length R + 4)%nat by lia].
  cbn [mbind outcome_bind Z.eqb Pos.eqb negb].
  destruct (Z.eqb_spec (zlen S) 0); [lia|].
  rewrite (rd_val sig (zlen R + 6) s0); [|lia|].
  2:{ replace (Z.to_nat (zlen R + 6)) with (length R + 6 + 0)%nat by lia. apply LS. by rewrite ES. }
  cbn [mbind outcome_bind]. rewrite Hs0. cbn [Z.eqb negb].
  rewrite leading_null_intro; [done|lia|].
  intros G1 G2. destruct (Hs1 G1 G2) as (c & Hc & E). exists c. split; [|done].
  replace (Z.to_nat (zlen R + 7)) with (length R + 6 + 1)%nat by lia. by apply LS.
Qed.

(** [IsValidSignatureEncoding] reads no byte outside the signature, and
    accepts exactly the strict DER signatures of at most 73 bytes with their
    hash type: two positive integers of minimal length. *)
Theorem IsValidSignatureEncoding_strict_der (sig : valtype) :
  bytes_ok sig ->
  exists b, IsValidSignatureEncoding sig = Ok b /\ (b = true <-> strict_der sig).
Proof.
  intros Hs. destruct (safe_sig_encoding sig Hs) as [b E]. exists b. split; [done|]. split.
  - intros ->. by apply sig_encoding_sound.
  - intros H%sig_encoding_complete; [|done]. congruence.
Qed.

Lemma IsValidSignatureEncoding_strict_der_witness :
  let sig := [0x30; 8; 2; 2; 0; 0x80; 2; 2; 0x7f; 1; SIGHASH_ALL] in
  IsValidSignatureEncoding sig = Ok true /\
  exists b, IsValidSignatureEncoding sig = Ok b /\ (b = true <-> strict_der sig).
Proof.
  split; [reflexivity|]. apply IsValidSignatureEncoding_strict_der.
  refine (bool_decide_eq_true_1 (bytes_ok _) _). reflexivity.
Defined.

(** ** The machine: every operation is safe *)
Section Safety.
Context (CheckLowS : valtype -> bool) (g_IsV6Active : bool) {checker : BaseSignatureChecker}.
Context (flags : Z) (script : CScript) (sigversion : SigVersion).

(** The checks of the spending transaction have defined behaviour. *)
Definition checker_safe : Prop :=
  (forall sig key code v, safe (fun _ => True) (CheckSig sig key code v)) /\
  (forall n, safe (fun _ => True) (CheckLockTime n)) /\
  (forall s, safe (fun _ => True) (CheckColdStake s)).
Hypothesis Hchecker : checker_safe.

Lemma safe_checksig sig key code : safe (fun _ => True) (CheckSig sig key code sigversion).
Proof. apply Hchecker. Qed.
Lemma safe_checklocktime n : safe (fun _ => True) (CheckLockTime n).
Proof. apply Hchecker. Qed.
Lemma safe_checkcoldstake s : safe (fun _ => True) (CheckColdStake s).
Proof. apply Hchecker. Qed.

Lemma safe_valid_encoding sig : bytes_ok sig -> safe (fun _ => True) (IsValidSignatureEncoding sig).
Proof. intros Hs. by destruct (safe_sig_encoding sig Hs) as [b ->]. Qed.

Lemma safe_any {A} (P : A -> Prop) (m : sc A) : safe P m -> safe (fun _ => True) m.
Proof. by destruct m. Qed.

Lemma safe_CheckSignatureEncoding sig :
  elem sig -> safe (fun _ => True) (CheckSignatureEncoding CheckLowS sig flags).
Proof.
  intros [Hs _]. unfold CheckSignatureEncoding. case_bool_decide; [done|].
  eapply safe_bind; [case_match; [by apply safe_valid_encoding|done]|]. intros der _.
  apply safe_require_bind; intros _.
  eapply (safe_bind (fun _ => True)).
  - case_match; [|done]. eapply safe_bind; [by apply safe_valid_encoding|]. intros ? _.
    apply safe_require_bind; intros _. eapply safe_any, safe_require.
  - intros _ _. eapply safe_any, safe_require.
Qed.

Lemma safe_CheckPubKeyEncoding key : elem key -> safe (fun _ => True) (CheckPubKeyEncoding key flags).
Proof.
  intros [Hk _]. unfold CheckPubKeyEncoding. eapply (safe_bind (fun _ => True)).
  - case_match; [|done]. unfold IsCompressedOrUncompressedPubKey, COMPRESSED_PUBLIC_KEY_SIZE.
    destruct (Z.ltb_spec (zlen key) 33); [done|].
    eapply safe_bind; [apply safe_rd; lia|]. intros b0 _. by repeat case_match.
  - intros ok _. eapply safe_any, safe_require.
Qed.

(** Runs a handler: each call it makes is safe. *)
Ltac safe_run :=
  match goal with
  | |- safe _ (Ok _) => cbn [safe]
  | |- safe _ (Err _) => exact I
  | |- safe _ (need _ _ ≫= _) => eapply safe_bind; [apply safe_need|intros ? ?; cbv beta in *]
  | |- safe _ (require _ _ ≫= _) => eapply safe_bind; [apply safe_require|intros ? ?; cbv beta in *]
  | |- safe _ (stacktop _ _ ≫= _) => eapply safe_bind; [by apply safe_stacktop|intros ? ?]
  | |- safe _ (popstack _ ≫= _) => eapply safe_bind; [by apply safe_popstack|intros ? [? ?]]
  | |- safe _ (popstack_n _ _ ≫= _) => eapply safe_bind; [by apply safe_popstack_n|intros ? ?]
  | |- safe _ (popstack _) => eapply safe_weaken; [apply safe_popstack|by intros ? [? ?]]
  | |- safe _ (num_at _ _ _ ≫= _) => eapply safe_bind; [by apply safe_num_at|intros ? ?]
  | |- safe _ (swap _ _ _ ≫= _) => eapply safe_bind; [by apply safe_swap|intros ? ?]
  | |- safe _ (swap _ _ _) => by apply safe_swap
  | |- safe _ (erase _ _ _ ≫= _) => eapply safe_bind; [apply safe_erase; [done|lia]|intros ? ?]
  | |- safe _ (erase _ _ _) => apply safe_erase; [done|lia]
  | |- safe _ (insert_at _ _ _) => apply safe_insert_at; [done|done|lia]
  | |- safe _ (CheckSignatureEncoding _ _ _ ≫= _) =>
      eapply safe_bind; [by apply safe_CheckSignatureEncoding|intros ? _]
  | |- safe _ (CheckPubKeyEncoding _ _ ≫= _) =>
      eapply safe_bind; [by apply safe_CheckPubKeyEncoding|intros ? _]
  | |- safe _ (CheckSig _ _ _ _ ≫= _) => eapply safe_bind; [apply safe_checksig|intros ? _]
  | |- safe _ (CheckLockTime _ ≫= _) => eapply safe_bind; [apply safe_checklocktime|intros ? _]
  | |- safe _ (CheckColdStake _ ≫= _) => eapply safe_bind; [apply safe_checkcoldstake|intros ? _]
  | |- safe _ (if ?c then _ else _) => destruct c eqn:?
  | |- safe _ (let x := _ in _) => cbv zeta
  | |- Forall elem (_ :: _) => constructor
  | |- Forall elem (if ?c then _ else _) => destruct c
  | |- elem (bool_vch _) => apply elem_bool_vch
  | |- elem (hash_of _ _) => by apply elem_hash_of
  | |- elem (getvch _) => apply elem_getvch
  | H : small _ _ |- Z.abs _ < _ => eapply Z.lt_le_trans; [exact H|cbv; discriminate]
  | |- Forall elem _ => assumption
  | |- elem _ => assumption
  end.

Notation elems := (Forall elem).

Lemma safe_op_value opcode s :
  (opcode =? OP_1NEGATE) || (OP_1 <=? opcode) && (opcode <=? OP_16) = true -> elems s ->
  safe elems (op_value opcode s).
Proof.
  intros Ho Hs. assert (0 <= opcode < 256) by (unfold OP_1NEGATE, OP_1, OP_16 in *; lia).
  constructor; [|done]. apply elem_getvch. unfold OP_1. change (2 ^ 55) with 36028797018963968. lia.
Qed.

Lemma safe_op_checklocktimeverify s : elems s -> safe elems (op_checklocktimeverify flags s).
Proof.
  intros Hs. unfold op_checklocktimeverify. repeat safe_run.
  match goal with H : elem _ |- _ => destruct H as [Hb _] end.
  eapply safe_bind; [apply (safe_ScriptNum _ _ 5); [exact Hb|lia]|intros ? _]. by repeat safe_run.
Qed.

Lemma safe_op_size s : elems s -> safe elems (op_size s).
Proof.
  intros Hs. unfold op_size. repeat safe_run.
  match goal with H : elem _ |- _ => destruct H as [_ H'] end. unfold MAX_SCRIPT_ELEMENT_SIZE in *.
  change (2 ^ 55) with 36028797018963968. lia.
Qed.

Lemma safe_op_depth s : elems s -> zlen s <= 1000 -> safe elems (op_depth s).
Proof.
  intros Hs Hn. unfold op_depth. repeat safe_run. change (2 ^ 55) with 36028797018963968. lia.
Qed.

Lemma getint_small n : small 4 n -> getint n = n.
Proof.
  unfold small, getint. change (2 ^ (8 * 4 - 1)) with 2147483648.
  change (2 ^ 31) with 2147483648. intros H. repeat case_match; bool_to_prop; lia.
Qed.

Lemma safe_op_pick_roll opcode s : elems s -> safe elems (op_pick_roll flags opcode s).
Proof.
  intros Hs. unfold op_pick_roll. repeat safe_run. rewrite getint_small in * by done.
  bool_to_prop. eapply (safe_bind elems).
  - case_match; [apply safe_erase; [done|lia]|done].
  - intros s' Hs'. by repeat safe_run.
Qed.

Lemma safe_op_unary opcode s :
  one_of opcode [OP_1ADD; OP_1SUB; OP_NEGATE; OP_ABS; OP_NOT; OP_0NOTEQUAL] = true ->
  elems s -> safe elems (op_unary flags opcode s).
Proof.
  intros Ho Hs. unfold op_unary. repeat safe_run.
  eapply safe_bind; [by apply safe_unary_num|intros ? ?]. by repeat safe_run.
Qed.

Lemma safe_op_binary opcode s :
  one_of opcode [OP_ADD; OP_SUB; OP_BOOLAND; OP_BOOLOR; OP_NUMEQUAL; OP_NUMEQUALVERIFY;
                 OP_NUMNOTEQUAL; OP_LESSTHAN; OP_GREATERTHAN; OP_LESSTHANOREQUAL;
                 OP_GREATERTHANOREQUAL; OP_MIN; OP_MAX] = true ->
  elems s -> safe elems (op_binary flags opcode s).
Proof.
  intros Ho Hs. unfold op_binary. repeat safe_run.
  eapply safe_bind; [by apply safe_binary_num|intros n Hn]. repeat safe_run.
  assert (elem (getvch n)) by (apply elem_getvch; eapply Z.lt_le_trans; [exact Hn|cbv; discriminate]).
  assert (elems (getvch n :: a3)) by by constructor.
  by repeat safe_run.
Qed.

Lemma safe_op_checkcoldstakeverify s :
  elems s -> safe elems (op_checkcoldstakeverify CheckLowS g_IsV6Active flags script s).
Proof.
  intros Hs. unfold op_checkcoldstakeverify. eapply (safe_bind (fun _ => True)).
  - repeat safe_run; [|done]. eapply safe_any, safe_require.
  - intros _ _. by repeat safe_run.
Qed.

Lemma safe_stack_op opcode f s :
  stack_op CheckLowS g_IsV6Active flags script opcode = Some f ->
  elems s -> zlen s <= 1000 -> safe elems (f s).
Proof.
  intros Hf Hs Hn. unfold stack_op in Hf.
  repeat (match type of Hf with (if ?c then _ else _) = Some f =>
            let Hc := fresh "Hc" in destruct c eqn:Hc; [|clear Hc]
          end; [injection Hf as <-; cbv beta;
    lazymatch goal with
    | |- safe _ (Ok _) => exact Hs
    | |- safe _ (Err _) => exact I
    | |- safe _ (op_value _ _) => apply safe_op_value; assumption
    | |- safe _ (op_checklocktimeverify _ _) => apply safe_op_checklocktimeverify; assumption
    | |- safe _ (op_pick_roll _ _ _) => apply safe_op_pick_roll; assumption
    | |- safe _ (op_depth _) => apply safe_op_depth; assumption
    | |- safe _ (op_size _) => apply safe_op_size; assumption
    | |- safe _ (op_unary _ _ _) => apply safe_op_unary; assumption
    | |- safe _ (op_binary _ _ _) => apply safe_op_binary; assumption
    | |- safe _ (op_checkcoldstakeverify _ _ _ _ _) => apply safe_op_checkcoldstakeverify; assumption
    | |- safe _ (?f ?o ?s) => unfold f; repeat safe_run
    | |- safe _ (?f ?s) => unfold f; repeat safe_run
    end|]).
  discriminate Hf.
Qed.
Lemma safe_op_checksig opcode code s :
  elems s -> safe elems (op_checksig CheckLowS flags sigversion opcode code s).
Proof. intros Hs. unfold op_checksig. repeat safe_run. Qed.

Lemma safe_drop_signatures n : forall isig s code,
  elems s -> safe (fun _ => True) (drop_signatures n isig s code).
Proof.
  induction n as [|n IH]; intros isig s code Hs; [done|]. cbn [drop_signatures].
  repeat safe_run. by apply IH.
Qed.

(** The loop of CHECKMULTISIG ends before the keys are used up. *)
Lemma safe_multisig_loop fuel : forall s code isig nSigs ikey nKeys,
  elems s -> nSigs <= nKeys -> nKeys <= Z.of_nat fuel ->
  safe (fun _ => True) (multisig_loop CheckLowS flags sigversion fuel s code isig nSigs ikey nKeys).
Proof.
  induction fuel as [|fuel IH]; intros s code isig nSigs ikey nKeys Hs Hn Hf; cbn [multisig_loop];
    destruct (Z.leb_spec nSigs 0); [done|lia|done|].
  repeat safe_run; try done; bool_to_prop; by apply IH; [|lia|lia].
Qed.

(** What every operation keeps; the number of elements is checked after it. *)
Record machine_pre (m : machine) : Prop := {
  pre_stack : elems (stack m);
  pre_altstack : elems (altstack m);
  pre_count : 0 <= nOpCount m <= 201;
}.

(** What holds between two instructions. *)
Record machine_ok (m : machine) : Prop := {
  ok_pre : machine_pre m;
  ok_size : zlen (stack m) + zlen (altstack m) <= 1000;
}.

Lemma pre_set_stack m s : machine_pre m -> elems s -> machine_pre (set_stack m s).
Proof. intros [] Hs. by split. Qed.

Lemma safe_op_checkmultisig opcode m :
  machine_pre m -> safe machine_pre (op_checkmultisig CheckLowS flags sigversion opcode m).
Proof.
  intros [Hs Ha Hc]. unfold op_checkmultisig. cbv zeta. repeat safe_run. rewrite !getint_small in * by done.
  bool_to_prop. eapply safe_bind; [by apply safe_drop_signatures|intros code _].
  eapply safe_bind; [apply safe_multisig_loop; [done|lia|lia]|intros fSuccess _].
  repeat safe_run. eapply (safe_bind elems).
  - match goal with |- safe _ (if ?c then _ else _) => destruct c end; [|by repeat safe_run].
    destruct fSuccess; repeat safe_run.
  - intros s' Hs'. cbn. split; cbn; [done|done|lia].
Qed.

Lemma safe_exec_op opcode fExec pc m :
  machine_pre m -> zlen (stack m) <= 1000 ->
  safe machine_pre (exec_op CheckLowS g_IsV6Active flags script sigversion opcode fExec pc m).
Proof.
  intros Hm Hn. pose proof Hm as [Hs Ha Hc]. unfold exec_op.
  destruct ((opcode =? OP_IF) || (opcode =? OP_NOTIF)).
  { unfold op_if. destruct fExec; [|by split]. repeat safe_run. by split. }
  destruct (opcode =? OP_ELSE). { unfold op_else. destruct (vfExec m); [done|by split]. }
  destruct (opcode =? OP_ENDIF). { unfold op_endif. destruct (vfExec m); [done|by split]. }
  destruct (opcode =? OP_TOALTSTACK).
  { unfold op_toaltstack. repeat safe_run. split; [done|by constructor|done]. }
  destruct (opcode =? OP_FROMALTSTACK).
  { unfold op_fromaltstack. repeat safe_run. split; [by constructor|done|done]. }
  destruct (opcode =? OP_CODESEPARATOR); [by split|].
  destruct ((opcode =? OP_CHECKSIG) || _).
  { eapply safe_bind; [by apply safe_op_checksig|]. intros s Hs'. by apply pre_set_stack. }
  destruct ((opcode =? OP_CHECKMULTISIG) || _); [by apply safe_op_checkmultisig|].
  destruct (stack_op _ _ _ _ opcode) as [f|] eqn:E; [|done].
  eapply safe_bind; [by apply (safe_stack_op opcode f)|]. intros s Hs'. by apply pre_set_stack.
Qed.

Lemma safe_eval_step pc m :
  bytes_ok pc -> machine_ok m ->
  safe (fun '(pc', m') => bytes_ok pc' /\ (length pc' < length pc)%nat /\ machine_ok m')
    (eval_step CheckLowS g_IsV6Active flags script sigversion pc m).
Proof.
  intros Hpc [Hm Hsz]. destruct (GetOp_bytes pc Hpc) as (H1 & H2 & _ & H3).
  unfold eval_step. cbv zeta. apply safe_require_bind; intros Hr. destruct (H3 Hr) as [H4 _].
  apply safe_require_bind; intros Hpush.
  apply safe_require_bind; intros Hcount.
  apply safe_require_bind; intros _.
  set (m1 := if OP_16 <? opcodeRet (GetOp pc) then set_nOpCount m (nOpCount m + 1) else m) in *.
  assert (machine_pre m1 /\ zlen (stack m1) <= 1000) as [Hm1 Hn1].
  { subst m1. destruct Hm as [Hs Ha Hc]. destruct (OP_16 <? opcodeRet (GetOp pc)); [|split; [done|lia]].
    cbn [andb nOpCount set_nOpCount] in Hcount. bool_to_prop. split; [|cbn; lia]. split; [done|done|cbn; lia]. }
  eapply (safe_bind machine_pre).
  - destruct (_ && _ && (opcodeRet (GetOp pc) <=? OP_PUSHDATA4)).
    + apply safe_require_bind; intros _. apply pre_set_stack; [done|].
      constructor; [|apply Hm1]. bool_to_prop. by split.
    + match goal with |- safe _ (if ?c then _ else _) => destruct c end; [by apply safe_exec_op|done].
  - intros m2 Hm2. apply safe_require_bind; intros Hsize. bool_to_prop.
    split; [done|]. split; [done|]. split; [done|lia].
Qed.

Lemma safe_eval_loop fuel : forall pc m,
  bytes_ok pc -> machine_ok m -> (length pc <= fuel)%nat ->
  safe machine_ok (eval_loop CheckLowS g_IsV6Active flags script sigversion fuel pc m).
Proof.
  induction fuel as [|fuel IH]; intros pc m Hpc Hm Hl.
  { destruct pc; [done|cbn in Hl; lia]. }
  destruct pc as [|b pc]; [done|]. cbn [eval_loop].
  eapply safe_bind; [by apply safe_eval_step|]. intros [pc' m'] (H1 & H2 & H3). apply IH; [done|done|lia].
Qed.
End Safety.

Lemma EvalScript_returns CheckLowS g_IsV6Active (checker : BaseSignatureChecker) s script flags sigversion :
  checker_safe -> bytes_ok script -> Forall elem s -> zlen s <= 1000 ->
  match EvalScript CheckLowS g_IsV6Active s script flags sigversion with
  | Ok s' => Forall elem s' /\ zlen s' <= 1000
  | Err _ => True
  | _ => False
  end.
Proof.
  intros Hc Hb Hs Hn. unfold EvalScript. destruct (MAX_SCRIPT_SIZE <? zlen script); [done|].
  assert (machine_ok (Machine s [] [] 0 script)) as Hm.
  { split; [|cbn; lia]. split; [done|by constructor|cbn; lia]. }
  pose proof (safe_eval_loop CheckLowS g_IsV6Active flags script sigversion Hc (length script) script _ Hb Hm
    (le_n _)) as H.
  destruct (eval_loop _ _ _ _ _ _ _ _) as [m| | |]; try done.
  case_bool_decide; [|done]. destruct H as [[Hst _ _] Hsz]. split; [done|]. cbn in Hsz. lia.
Qed.

(** C11: the evaluation of a script ends and has defined behaviour, whatever
    the script, the stack, the flags and the answers of the checker: no
    assertion fails, no integer overflows, no exception escapes and no read
    leaves a buffer, and one turn of the loop per byte is enough.  What it
    returns is an error or a stack of at most 1000 elements of at most 520
    bytes, when it starts from one. *)
Theorem EvalScript_total (CheckLowS : valtype -> bool) (g_IsV6Active : bool) (checker : BaseSignatureChecker)
    (s : list valtype) (script : CScript) (flags : Z) (sigversion : SigVersion) :
  checker_safe -> bytes_ok script -> Forall elem s -> zlen s <= 1000 ->
  match EvalScript CheckLowS g_IsV6Active s script flags sigversion with
  | Ok s' => Forall elem s' /\ zlen s' <= 1000
  | Err _ => True
  | _ => False
  end.
Proof. intros. by apply EvalScript_returns. Qed.

Lemma base_checker_safe : @checker_safe base_checker.
Proof. split_and!; done. Qed.

Lemma EvalScript_total_witness :
  let script := [OP_3; OP_5; OP_ADD; OP_8; OP_EQUAL] in
  let r := @EvalScript (fun _ => true) true base_checker [] script 0 SIGVERSION_BASE in
  r = Ok [[1]] /\ match r with Ok s' => Forall elem s' /\ zlen s' <= 1000 | Err _ => True | _ => False end.
Proof.
  split; [reflexivity|].
  apply (EvalScript_total (fun _ => true) true base_checker [] _ 0 SIGVERSION_BASE).
  - exact base_checker_safe.
  - refine (bool_decide_eq_true_1 (bytes_ok _) _). reflexivity.
  - constructor.
  - cbn. lia.
Defined.

(** ** Running known scripts *)
Lemma push_op_enabled b : is_disabled (push_op b) = false.
Proof.
  pose proof (push_op_range b) as Hop.
  unfold is_disabled, one_of, OP_PUSHDATA4 in *. apply not_true_is_false. intros H.
  apply existsb_exists in H as (x & Hx & He%Z.eqb_eq).
  repeat (destruct Hx as [<-|Hx]; [revert He; match goal with |- _ = ?o -> _ => unfold o end; lia|]). done.
Qed.

Lemma push_data_nonempty b pc : push_data [] b ++ pc <> [].
Proof. unfold push_data. by repeat case_match. Qed.

Lemma bind_require {A B} b e (x : A) (k : A -> sc B) :
  ((require b e;; Ok x) ≫= k) = (require b e;; k x).
Proof. by destruct b. Qed.

Section Run.
Context (CheckLowS : valtype -> bool) (g_IsV6Active : bool) {checker : BaseSignatureChecker}.
Context (flags : Z) (script : CScript) (sigversion : SigVersion).

Notation step := (eval_step CheckLowS g_IsV6Active flags script sigversion).
Notation loop := (eval_loop CheckLowS g_IsV6Active flags script sigversion).
Notation exec := (exec_op CheckLowS g_IsV6Active flags script sigversion).

Lemma eval_step_pc pc m pc' m' : step pc m = Ok (pc', m') -> pc' = pcRet (GetOp pc) /\ ret (GetOp pc) = true.
Proof.
  unfold eval_step. cbv zeta. intros H. destruct (ret (GetOp pc)); [|discriminate H].
  repeat match type of H with (?o ≫= _) = _ => destruct o; try discriminate H; cbn [mbind outcome_bind] in H end.
  injection H as <- _. done.
Qed.

Lemma eval_loop_fuel fuel : forall pc m fuel',
  bytes_ok pc -> (length pc <= fuel)%nat -> (length pc <= fuel')%nat -> loop fuel pc m = loop fuel' pc m.
Proof.
  induction fuel as [|fuel IH]; intros pc m fuel' Hb H1 H2.
  { destruct pc; [|cbn in H1; lia]. by destruct fuel'. }
  destruct pc as [|b pc]; [by destruct fuel'|]. destruct fuel' as [|fuel']; [cbn in H2; lia|].
  cbn [eval_loop]. destruct (step (b :: pc) m) as [[pc' m']| | |] eqn:E; [|done..].
  cbn [mbind outcome_bind]. apply eval_step_pc in E as [-> Hr].
  destruct (GetOp_bytes _ Hb) as (Hb' & _ & _ & Hl). destruct (Hl Hr) as [Hlt _].
  apply IH; [done|lia|lia].
Qed.

Definition run (pc : CScript) (m : machine) : sc machine := loop (length pc) pc m.

(** The check after every instruction. *)
Definition size_check (m : machine) : sc unit :=
  require (negb (1000 <? zlen (stack m) + zlen (altstack m))) SCRIPT_ERR_STACK_SIZE.

Lemma run_step pc m :
  bytes_ok pc -> pc <> [] -> run pc m = ('(pc', m') ← step pc m; run pc' m').
Proof.
  intros Hb Hne. unfold run. destruct pc as [|b pc]; [done|]. cbn [length eval_loop].
  destruct (step (b :: pc) m) as [[pc' m']| | |] eqn:E; [|done..].
  cbn [mbind outcome_bind]. apply eval_step_pc in E as [-> Hr].
  destruct (GetOp_bytes _ Hb) as (Hb' & _ & _ & Hl). destruct (Hl Hr) as [Hlt _]. cbn [length] in Hlt.
  apply eval_loop_fuel; [done|lia|lia].
Qed.

Lemma run_nil m : run [] m = Ok m.
Proof. done. Qed.

(** An instruction that is not a push; [fExec] or a branch instruction. *)
Lemma run_op op pc m :
  bytes_ok (op :: pc) -> OP_16 < op -> is_disabled op = false -> nOpCount m < 201 ->
  forallb id (vfExec m) || (OP_IF <=? op) && (op <=? OP_ENDIF) = true ->
  run (op :: pc) m =
  (m' ← exec op (forallb id (vfExec m)) pc (set_nOpCount m (nOpCount m + 1)); size_check m';; run pc m').
Proof.
  intros Hb Hop Hd Hc Hx. rewrite run_step by done.
  assert (GetOp (op :: pc) = GetOpResult true op [] pc) as E.
  { cbn. unfold OP_16, OP_PUSHDATA4 in *. destruct (Z.leb_spec op 0x4e); [lia|done]. }
  unfold eval_step. rewrite E. cbn [ret opcodeRet vchRet pcRet require mbind outcome_bind length].
  destruct (Z.ltb_spec OP_16 op); [|lia]. change (MAX_SCRIPT_ELEMENT_SIZE <? Z.of_nat 0) with false. cbn [andb negb].
  cbn [nOpCount set_nOpCount]. destruct (Z.ltb_spec 201 (nOpCount m + 1)); [lia|]. rewrite Hd.
  cbn [negb require mbind outcome_bind].
  assert (op <=? OP_PUSHDATA4 = false) as -> by (unfold OP_16, OP_PUSHDATA4 in *; lia).
  rewrite andb_false_r, Hx.
  match goal with |- ((?o ≫= _) ≫= _) = _ => destruct o as [m'| | |]; [|done..] end.
  cbn [mbind outcome_bind]. exact (bind_require _ _ (pc, m') _).
Qed.

(** An instruction that is not executed. *)
Lemma run_op_skipped op pc m :
  bytes_ok (op :: pc) -> OP_16 < op -> is_disabled op = false -> nOpCount m < 201 ->
  forallb id (vfExec m) = false -> (OP_IF <=? op) && (op <=? OP_ENDIF) = false ->
  zlen (stack m) + zlen (altstack m) <= 1000 ->
  run (op :: pc) m = run pc (set_nOpCount m (nOpCount m + 1)).
Proof.
  intros Hb Hop Hd Hc Hx Ho Hsz. rewrite run_step by done.
  assert (GetOp (op :: pc) = GetOpResult true op [] pc) as E.
  { cbn. unfold OP_16, OP_PUSHDATA4 in *. destruct (Z.leb_spec op 0x4e); [lia|done]. }
  unfold eval_step. rewrite E. cbn [ret opcodeRet vchRet pcRet require mbind outcome_bind length].
  destruct (Z.ltb_spec OP_16 op); [|lia]. change (MAX_SCRIPT_ELEMENT_SIZE <? Z.of_nat 0) with false. cbn [andb negb].
  cbn [nOpCount set_nOpCount vfExec]. destruct (Z.ltb_spec 201 (nOpCount m + 1)); [lia|]. rewrite Hd, Hx, Ho.
  cbn [negb require mbind outcome_bind andb orb stack altstack set_nOpCount].
  destruct (Z.ltb_spec 1000 (zlen (stack m) + zlen (altstack m))); [lia|]. reflexivity.
Qed.

(** A push that is executed, and one that is not. *)
Lemma run_push b pc m :
  bytes_ok (push_data [] b ++ pc) -> zlen b <= MAX_SCRIPT_ELEMENT_SIZE ->
  forallb id (vfExec m) = true -> CheckMinimalPush b (push_op b) = true ->
  run (push_data [] b ++ pc) m =
  (size_check (set_stack m (b :: stack m));; run pc (set_stack m (b :: stack m))).
Proof.
  intros Hb Hl Hx Hmin. pose proof (push_op_range b) as Hop. unfold MAX_SCRIPT_ELEMENT_SIZE in Hl.
  rewrite run_step by (done || apply push_data_nonempty).
  unfold eval_step. rewrite GetOp_push_data by lia.
  cbn [ret opcodeRet vchRet pcRet require mbind outcome_bind].
  unfold MAX_SCRIPT_ELEMENT_SIZE. destruct (Z.ltb_spec 520 (zlen b)); [lia|].
  assert (OP_16 <? push_op b = false) as -> by (unfold OP_16, OP_PUSHDATA4 in *; lia).
  rewrite push_op_enabled.
  cbn [andb negb require mbind outcome_bind]. rewrite Hx, Hmin.
  destruct (Z.leb_spec 0 (push_op b)); [|lia]. destruct (Z.leb_spec (push_op b) OP_PUSHDATA4); [|lia].
  cbn [andb negb]. rewrite andb_false_r. cbn [negb require mbind outcome_bind].
  exact (bind_require _ _ (pc, set_stack m (b :: stack m)) _).
Qed.

Lemma run_push_skipped b pc m :
  bytes_ok (push_data [] b ++ pc) -> zlen b <= MAX_SCRIPT_ELEMENT_SIZE ->
  forallb id (vfExec m) = false -> zlen (stack m) + zlen (altstack m) <= 1000 ->
  run (push_data [] b ++ pc) m = run pc m.
Proof.
  intros Hb Hl Hx Hsz. pose proof (push_op_range b) as Hop. unfold MAX_SCRIPT_ELEMENT_SIZE in Hl.
  rewrite run_step by (done || apply push_data_nonempty).
  unfold eval_step. rewrite GetOp_push_data by lia.
  cbn [ret opcodeRet vchRet pcRet require mbind outcome_bind].
  unfold MAX_SCRIPT_ELEMENT_SIZE. destruct (Z.ltb_spec 520 (zlen b)); [lia|].
  assert (OP_16 <? push_op b = false) as -> by (unfold OP_16, OP_PUSHDATA4 in *; lia).
  rewrite push_op_enabled.
  cbn [andb negb require mbind outcome_bind]. rewrite Hx.
  assert (OP_IF <=? push_op b = false) as -> by (unfold OP_IF, OP_PUSHDATA4 in *; lia).
  cbn [andb orb mbind outcome_bind].
  destruct (Z.ltb_spec 1000 (zlen (stack m) + zlen (altstack m))); [lia|]. reflexivity.
Qed.
End Run.

(** ** VerifyScript *)

Lemma IsPayToScriptHash_form s :
  IsPayToScriptHash s = true -> exists tl, s = OP_HASH160 :: tl /\ length tl = 22%nat.
Proof.
  unfold IsPayToScriptHash. intros H. bool_to_prop.
  destruct s as [|b tl]; [discriminate|]. cbn [length] in *. exists tl. split; [|lia].
  match goal with H : byte_is (b :: tl) 0 _ = true |- _ => apply Z.eqb_eq in H end. by subst.
Qed.

(** A pay-to-script-hash output fails on the empty stack. *)
Lemma p2sh_needs_argument CheckLowS v6 (checker : BaseSignatureChecker) s flags sigversion :
  bytes_ok s -> IsPayToScriptHash s = true ->
  EvalScript CheckLowS v6 [] s flags sigversion = Err SCRIPT_ERR_INVALID_STACK_OPERATION.
Proof.
  intros Hb (tl & -> & Hl)%IsPayToScriptHash_form. unfold EvalScript.
  assert (MAX_SCRIPT_SIZE <? zlen (OP_HASH160 :: tl) = false) as ->
    by (apply Z.ltb_ge; cbn [length]; rewrite Hl; done).
  fold (run CheckLowS v6 flags (OP_HASH160 :: tl) sigversion (OP_HASH160 :: tl) (Machine [] [] [] 0 (OP_HASH160 :: tl))).
  rewrite run_op; [reflexivity|done|reflexivity|reflexivity|reflexivity|reflexivity].
Qed.

Lemma VerifyScript_returns (CheckLowS : valtype -> bool) (g_IsV6Active : bool) (checker : BaseSignatureChecker)
    (scriptSig scriptPubKey : CScript) (flags : Z) (sigversion : SigVersion) :
  checker_safe -> bytes_ok scriptSig -> bytes_ok scriptPubKey ->
  VerifyScript CheckLowS g_IsV6Active scriptSig scriptPubKey flags sigversion = Ok tt \/
  exists e, VerifyScript CheckLowS g_IsV6Active scriptSig scriptPubKey flags sigversion = Err e.
Proof.
  intros Hc Hsig Hpub.
  assert (forall s, require_true s = Ok tt \/ exists e, require_true s = Err e) as Hrt.
  { intros [|v s]; [by right; eexists|]. cbn. destruct (CastToBool v); [by left|by right; eexists]. }
  unfold VerifyScript. destruct (flag flags SCRIPT_VERIFY_SIGPUSHONLY && _); [by right; eexists|].
  cbn [negb require mbind outcome_bind].
  pose proof (EvalScript_returns CheckLowS g_IsV6Active checker [] scriptSig flags sigversion Hc Hsig
    ltac:(constructor) ltac:(cbn; lia)) as H1.
  destruct (EvalScript CheckLowS g_IsV6Active [] scriptSig flags sigversion) as [s1|e| |] eqn:E1; try done;
    [|by right; exists e].
  destruct H1 as [H1 H1']. cbn [mbind outcome_bind].
  pose proof (EvalScript_returns CheckLowS g_IsV6Active checker s1 scriptPubKey flags sigversion Hc Hpub H1 H1') as H2.
  destruct (EvalScript CheckLowS g_IsV6Active s1 scriptPubKey flags sigversion) as [s2|e| |] eqn:E2; try done;
    [|by right; exists e].
  cbn [mbind outcome_bind]. destruct (Hrt s2) as [->|[e ->]]; [|by right; exists e].
  cbn [mbind outcome_bind]. destruct (flag flags SCRIPT_VERIFY_P2SH); [|by left]. cbn [andb].
  destruct (IsPayToScriptHash scriptPubKey) eqn:Ep; [|by left].
  destruct (IsPushOnly scriptSig); [|by right; eexists]. cbn [require mbind outcome_bind].
  destruct s1 as [|v s1].
  { rewrite p2sh_needs_argument in E2 by done. discriminate E2. }
  apply Forall_cons in H1 as [[Hv _] H1]. rewrite (bool_decide_eq_false_2 (v :: s1 = [])) by discriminate.
  cbn [negb cassert mbind outcome_bind head default popstack].
  pose proof (EvalScript_returns CheckLowS g_IsV6Active checker s1 v flags sigversion Hc Hv H1
    ltac:(cbn [length] in H1'; lia)) as H3.
  change (id v) with v.
  destruct (EvalScript CheckLowS g_IsV6Active s1 v flags sigversion) as [s3|e| |]; try done; [|by right; exists e].
  apply Hrt.
Qed.

(** The verification of a spend ends and has defined behaviour, whatever
    the two scripts, the flags and the answers of the checker: it accepts or
    reports an error.  In particular the assertion that the copy of the stack
    is not empty holds whenever a pay-to-script-hash output gets that far. *)
Theorem VerifyScript_total (CheckLowS : valtype -> bool) (g_IsV6Active : bool) (checker : BaseSignatureChecker)
    (scriptSig scriptPubKey : CScript) (flags : Z) (sigversion : SigVersion) :
  checker_safe -> bytes_ok scriptSig -> bytes_ok scriptPubKey ->
  VerifyScript CheckLowS g_IsV6Active scriptSig scriptPubKey flags sigversion = Ok tt \/
  exists e, VerifyScript CheckLowS g_IsV6Active scriptSig scriptPubKey flags sigversion = Err e.
Proof. intros. by apply VerifyScript_returns. Qed.

Lemma VerifyScript_total_witness :
  let sig := push_data [] [OP_1] in
  let pub := OP_HASH160 :: push_data [] (Hash160 [OP_1]) ++ [OP_EQUAL] in
  @VerifyScript (fun _ => true) true base_checker sig pub SCRIPT_VERIFY_P2SH SIGVERSION_BASE = Ok tt /\
  (@VerifyScript (fun _ => true) true base_checker sig pub SCRIPT_VERIFY_P2SH SIGVERSION_BASE = Ok tt \/
   exists e, @VerifyScript (fun _ => true) true base_checker sig pub SCRIPT_VERIFY_P2SH SIGVERSION_BASE = Err e).
Proof.
  split; [vm_compute; reflexivity|].
  apply (VerifyScript_total (fun _ => true) true base_checker).
  - exact base_checker_safe.
  - refine (bool_decide_eq_true_1 (bytes_ok _) _). vm_compute. reflexivity.
  - refine (bool_decide_eq_true_1 (bytes_ok _) _). vm_compute. reflexivity.
Defined.
