(* ===== verification/Standard.v ===== *)
(** * Standard scripts: script/standard.cpp

    The recognition of the standard output scripts ([Solver]), the scripts for
    destinations, and what it takes to spend them: the theorems on
    pay-to-public-key-hash and cold-staking outputs run the interpreter of
    [Interpreter].  A [CPubKey] is the bytes it holds, none when it is invalid;
    a [CKeyID] or [CScriptID] is its 20 bytes. *)
From S2P Require Import Prelude Serialize HashStream Sha256 Ripemd160 Sha1 Hash Script Interpreter.

Inductive txnouttype : Type :=
| TX_NONSTANDARD | TX_PUBKEY | TX_PUBKEYHASH | TX_SCRIPTHASH | TX_MULTISIG | TX_NULL_DATA | TX_COLDSTAKE.

Inductive CTxDestination : Type :=
| CNoDestination
| CKeyID (hash : list Z)
| CScriptID (hash : list Z).

Definition IsValidDestination (dest : CTxDestination) : bool :=
  match dest with CNoDestination => false | _ => true end.

(** ** CPubKey *)

Definition GetLen (chHeader : Z) : Z :=
  if (chHeader =? 2) || (chHeader =? 3) then COMPRESSED_PUBLIC_KEY_SIZE
  else if (chHeader =? 4) || (chHeader =? 6) || (chHeader =? 7) then PUBLIC_KEY_SIZE
  else 0.

Definition ValidSize (vch : valtype) : bool :=
  match vch with [] => false | h :: _ => GetLen h =? zlen vch end.

(** The constructor: the bytes of the key, none when it is invalid. *)
Definition CPubKey (vch : valtype) : valtype := if ValidSize vch then vch else [].
Definition PubKey_IsValid (key : valtype) : bool := negb (bool_decide (key = [])).
Definition GetID (key : valtype) : list Z := Hash160 key.

(** ** Matching *)

Definition MatchPayToPubkey (script : CScript) : option valtype :=
  if (zlen script =? PUBLIC_KEY_SIZE + 2) && byte_is script 0 PUBLIC_KEY_SIZE
     && bool_decide (last script = Some OP_CHECKSIG) then
    let pubkey := take 65 (drop 1 script) in
    if ValidSize pubkey then Some pubkey else None
  else if (zlen script =? COMPRESSED_PUBLIC_KEY_SIZE + 2) && byte_is script 0 COMPRESSED_PUBLIC_KEY_SIZE
     && bool_decide (last script = Some OP_CHECKSIG) then
    let pubkey := take 33 (drop 1 script) in
    if ValidSize pubkey then Some pubkey else None
  else None.

Definition MatchPayToPubkeyHash (script : CScript) : option valtype :=
  if (zlen script =? 25) && byte_is script 0 OP_DUP && byte_is script 1 OP_HASH160 && byte_is script 2 20
     && byte_is script 23 OP_EQUALVERIFY && byte_is script 24 OP_CHECKSIG
  then Some (take 20 (drop 3 script)) else None.

Definition MatchPayToColdStaking (g_IsV6Active : bool) (script : CScript) : option (valtype * valtype) :=
  if IsPayToColdStaking g_IsV6Active script
  then Some (take 20 (drop 6 script), take 20 (drop 28 script)) else None.

Definition IsSmallInteger (opcode : Z) : bool := (OP_1 <=? opcode) && (opcode <=? OP_16).

(** The loop over the keys: the opcode after them, the keys, and the iterator. *)
Fixpoint multisig_keys (fuel : nat) (it : CScript) (pubkeys : list valtype) : Z * list valtype * CScript :=
  let g := GetOp it in
  if ret g && ValidSize (vchRet g) then
    match fuel with
    | O => (opcodeRet g, pubkeys, pcRet g)
    | S fuel => multisig_keys fuel (pcRet g) (pubkeys ++ [vchRet g])
    end
  else (opcodeRet g, pubkeys, pcRet g).

Definition MatchMultisig {E} (script : CScript) : outcome E (option (Z * list valtype)) :=
  if (zlen script <? 1) || negb (bool_decide (last script = Some OP_CHECKMULTISIG)) then Ok None else
  let g := GetOp script in
  if negb (ret g) || negb (IsSmallInteger (opcodeRet g)) then Ok None else
  required ← DecodeOP_N (opcodeRet g);
  let '(opcode, pubkeys, it) := multisig_keys (length script) (pcRet g) [] in
  if negb (IsSmallInteger opcode) then Ok None else
  keys ← DecodeOP_N opcode;
  if negb (zlen pubkeys =? keys) || (keys <? required) then Ok None else
  Ok (if zlen it =? 1 then Some (required, pubkeys) else None).

(** [Solver]: what it returns and leaves in [typeRet] and [vSolutionsRet]. *)
Definition Solver {E} (g_IsV6Active : bool) (scriptPubKey : CScript) (typeRet : txnouttype)
    (vSolutionsRet : list valtype) : outcome E (bool * txnouttype * list valtype) :=
  if bool_decide (scriptPubKey = []) then Ok (false, typeRet, vSolutionsRet)
  else if IsPayToScriptHash scriptPubKey then Ok (true, TX_SCRIPTHASH, [take 20 (drop 2 scriptPubKey)])
  else if byte_is scriptPubKey 0 OP_RETURN && IsPushOnly (drop 1 scriptPubKey)
  then Ok (true, TX_NULL_DATA, [])
  else match MatchPayToPubkey scriptPubKey with
  | Some data => Ok (true, TX_PUBKEY, [data])
  | None =>
  match MatchPayToPubkeyHash scriptPubKey with
  | Some data => Ok (true, TX_PUBKEYHASH, [data])
  | None =>
  match MatchPayToColdStaking g_IsV6Active scriptPubKey with
  | Some (data, data1) => Ok (true, TX_COLDSTAKE, [data; data1])
  | None =>
      m ← MatchMultisig scriptPubKey;
      match m with
      | Some (required, keys) => Ok (true, TX_MULTISIG, [u8 required] :: keys ++ [[u8 (zlen keys)]])
      | None => Ok (false, TX_NONSTANDARD, [])
      end
  end end end.

Definition ScriptSigArgsExpected (t : txnouttype) (vSolutions : list valtype) : Z :=
  match t with
  | TX_NONSTANDARD | TX_NULL_DATA => -1
  | TX_PUBKEY => 1
  | TX_PUBKEYHASH => 2
  | TX_COLDSTAKE => 3
  | TX_MULTISIG => match vSolutions with (n :: _) :: _ => n + 1 | _ => -1 end
  | TX_SCRIPTHASH => 1
  end.

(** [uint160(vch)] asserts the size; [vSolutions[i]] out of range is undefined. *)
Definition solution160 {E} (vSolutions : list valtype) (i : Z) : outcome E (list Z) :=
  v ← rd vSolutions i; cassert (zlen v =? 20);; Ok v.

Definition ExtractDestination {E} (g_IsV6Active : bool) (scriptPubKey : CScript) (fColdStake : bool)
  : outcome E (option CTxDestination) :=
  r ← Solver g_IsV6Active scriptPubKey TX_NONSTANDARD [];
  let '(ok, whichType, vSolutions) := r in
  if negb ok then Ok None else
  match whichType with
  | TX_PUBKEY =>
      v ← rd vSolutions 0;
      let pubKey := CPubKey v in
      Ok (if PubKey_IsValid pubKey then Some (CKeyID (GetID pubKey)) else None)
  | TX_PUBKEYHASH => h ← solution160 vSolutions 0; Ok (Some (CKeyID h))
  | TX_SCRIPTHASH => h ← solution160 vSolutions 0; Ok (Some (CScriptID h))
  | TX_COLDSTAKE => h ← solution160 vSolutions (if fColdStake then 0 else 1); Ok (Some (CKeyID h))
  | _ => Ok None
  end.

(** The addresses of the valid keys of a multisig output. *)
Definition key_destinations (keys : list valtype) : list CTxDestination :=
  omap (fun v => if PubKey_IsValid (CPubKey v) then Some (CKeyID (GetID (CPubKey v))) else None) keys.

(** [ExtractDestinations]: the type, the addresses and the number of signatures
    when it returns true. *)
Definition ExtractDestinations {E} (g_IsV6Active : bool) (scriptPubKey : CScript)
  : outcome E (option (txnouttype * list CTxDestination * Z)) :=
  r ← Solver g_IsV6Active scriptPubKey TX_NONSTANDARD [];
  let '(ok, typeRet, vSolutions) := r in
  if negb ok then Ok None else
  match typeRet with
  | TX_NULL_DATA => Ok None
  | TX_MULTISIG =>
      front ← rd vSolutions 0;
      nRequiredRet ← rd front 0;
      let addressRet := key_destinations (take (length vSolutions - 2) (drop 1 vSolutions)) in
      Ok (if bool_decide (addressRet = []) then None else Some (TX_MULTISIG, addressRet, nRequiredRet))
  | TX_COLDSTAKE =>
      if zlen vSolutions <? 2 then Ok None else
      h0 ← solution160 vSolutions 0; h1 ← solution160 vSolutions 1;
      Ok (Some (TX_COLDSTAKE, [CKeyID h0; CKeyID h1], 2))
  | _ =>
      address ← ExtractDestination g_IsV6Active scriptPubKey false;
      match address with
      | None => Ok None
      | Some address => Ok (Some (typeRet, [address], 1))
      end
  end.

(** ** Building *)

(** [script << opcode] for one of the opcodes. *)
Definition add_op (s : CScript) (opcode : Z) : CScript := s ++ [opcode].

Definition GetScriptForDestination (dest : CTxDestination) : CScript :=
  match dest with
  | CNoDestination => []
  | CKeyID keyID =>
      add_op (add_op (push_data (add_op (add_op [] OP_DUP) OP_HASH160) keyID) OP_EQUALVERIFY) OP_CHECKSIG
  | CScriptID scriptID => add_op (push_data (add_op [] OP_HASH160) scriptID) OP_EQUAL
  end.

Definition GetScriptForRawPubKey (pubKey : valtype) : CScript := add_op (push_data [] pubKey) OP_CHECKSIG.

Definition GetScriptForStakeDelegation (stakingKey spendingKey : list Z) : CScript :=
  let script := add_op (add_op (add_op [] OP_DUP) OP_HASH160) OP_ROT in
  let script := push_data (add_op (add_op script OP_IF) OP_CHECKCOLDSTAKEVERIFY) stakingKey in
  let script := add_op (push_data (add_op script OP_ELSE) spendingKey) OP_ENDIF in
  add_op (add_op script OP_EQUALVERIFY) OP_CHECKSIG.

Definition GetScriptForMultisig {E} (nRequired : Z) (keys : list valtype) : outcome E CScript :=
  n ← EncodeOP_N nRequired;
  let script := fold_left push_data keys (add_op [] n) in
  k ← EncodeOP_N (zlen keys);
  Ok (add_op (add_op script k) OP_CHECKMULTISIG).

Definition GetScriptForOpReturn (message : list Z) : CScript := push_data (add_op [] OP_RETURN) message.

(** ** Recognising what was built: facts *)

Lemma push_short b : zlen b < OP_PUSHDATA1 -> push_data [] b = zlen b :: b.
Proof.
  intros Hb. unfold push_data. destruct (Z.ltb_spec (zlen b) OP_PUSHDATA1); [|lia].
  rewrite wrapu_small; [done|]. unfold in_u, OP_PUSHDATA1 in *. lia.
Qed.

Lemma push_20 h : length h = 20%nat -> push_data [] h = 20 :: h.
Proof. intros E. rewrite push_short; by rewrite E. Qed.

Lemma p2pkh_bytes h :
  length h = 20%nat ->
  GetScriptForDestination (CKeyID h) = OP_DUP :: OP_HASH160 :: 20 :: h ++ [OP_EQUALVERIFY; OP_CHECKSIG].
Proof.
  intros E. unfold GetScriptForDestination, add_op. rewrite push_data_app, push_20 by done.
  rewrite <- !app_assoc. reflexivity.
Qed.

Lemma p2sh_bytes h :
  length h = 20%nat -> GetScriptForDestination (CScriptID h) = OP_HASH160 :: 20 :: h ++ [OP_EQUAL].
Proof.
  intros E. unfold GetScriptForDestination, add_op. rewrite push_data_app, push_20 by done.
  rewrite <- !app_assoc. reflexivity.
Qed.

Lemma p2cs_bytes a b :
  length a = 20%nat -> length b = 20%nat ->
  GetScriptForStakeDelegation a b =
  OP_DUP :: OP_HASH160 :: OP_ROT :: OP_IF :: OP_CHECKCOLDSTAKEVERIFY :: 20 :: a ++
  OP_ELSE :: 20 :: b ++ [OP_ENDIF; OP_EQUALVERIFY; OP_CHECKSIG].
Proof.
  intros Ea Eb. unfold GetScriptForStakeDelegation, add_op.
  rewrite (push_data_app _ b), (push_data_app _ a), !push_20 by done.
  rewrite <- !app_assoc. reflexivity.
Qed.

(** Names the bytes of a list of known length. *)
Ltac spell l H :=
  repeat (destruct l as [|? l]; [discriminate H|]); (destruct l; [clear H|discriminate H]).

Ltac spell20 l H :=
  do 20 (destruct l as [|? l]; [discriminate H|]); (destruct l; [clear H|discriminate H]).

Lemma Solver_p2pkh {E} v6 h t sol :
  length h = 20%nat ->
  Solver (E := E) v6 (GetScriptForDestination (CKeyID h)) t sol = Ok (true, TX_PUBKEYHASH, [h]).
Proof. intros H. rewrite p2pkh_bytes by done. spell20 h H. reflexivity. Qed.

Lemma Solver_p2sh {E} v6 h t sol :
  length h = 20%nat ->
  Solver (E := E) v6 (GetScriptForDestination (CScriptID h)) t sol = Ok (true, TX_SCRIPTHASH, [h]).
Proof. intros H. rewrite p2sh_bytes by done. spell20 h H. reflexivity. Qed.

Lemma Solver_p2cs {E} v6 a b t sol :
  length a = 20%nat -> length b = 20%nat ->
  Solver (E := E) v6 (GetScriptForStakeDelegation a b) t sol = Ok (true, TX_COLDSTAKE, [a; b]).
Proof. intros Ha Hb. rewrite p2cs_bytes by done. spell20 a Ha. spell20 b Hb. by destruct v6. Qed.

Lemma ValidSize_length key : ValidSize key = true -> length key = 33%nat \/ length key = 65%nat.
Proof.
  unfold ValidSize, GetLen, COMPRESSED_PUBLIC_KEY_SIZE, PUBLIC_KEY_SIZE.
  destruct key as [|h tl]; [done|]. repeat case_match; intros ?%Z.eqb_eq; cbn [length] in *; lia.
Qed.

Lemma byte_is_lookup s i b c : s !! i = Some c -> b <> c -> byte_is s i b = false.
Proof. intros H Hb. unfold byte_is. rewrite H. apply Z.eqb_neq. congruence. Qed.

Lemma Solver_pubkey {E} v6 key t sol :
  ValidSize key = true ->
  Solver (E := E) v6 (GetScriptForRawPubKey key) t sol = Ok (true, TX_PUBKEY, [key]).
Proof.
  intros Hv. unfold GetScriptForRawPubKey, add_op.
  assert (zlen key = 33 \/ zlen key = 65) as Hl by (destruct (ValidSize_length key Hv); lia).
  rewrite push_short by (unfold OP_PUSHDATA1; lia). cbn [app].
  assert (zlen (zlen key :: key ++ [OP_CHECKSIG]) = zlen key + 2) as Hlen
    by (cbn [length]; rewrite length_app; cbn; lia).
  assert (last (zlen key :: key ++ [OP_CHECKSIG]) = Some OP_CHECKSIG) as Hlast
    by (rewrite app_comm_cons; apply last_snoc).
  unfold Solver. rewrite bool_decide_eq_false_2 by done.
  assert (IsPayToScriptHash (zlen key :: key ++ [OP_CHECKSIG]) = false) as ->.
  { unfold IsPayToScriptHash. rewrite Hlen. destruct (Z.eqb_spec (zlen key + 2) 23); [lia|done]. }
  rewrite (byte_is_lookup _ 0 OP_RETURN (zlen key)) by (done || unfold OP_RETURN; lia). cbn [andb].
  unfold MatchPayToPubkey. rewrite Hlen, Hlast, bool_decide_eq_true_2 by done.
  unfold byte_is, PUBLIC_KEY_SIZE, COMPRESSED_PUBLIC_KEY_SIZE. cbn [lookup list_lookup].
  change (drop 1 (zlen key :: key ++ [OP_CHECKSIG])) with (key ++ [OP_CHECKSIG]).
  destruct Hl as [E1|E1]; rewrite E1; cbn [Z.add Z.eqb Pos.eqb Pos.add andb Pos.succ].
  - replace 33%nat with (length key) by lia. rewrite take_app_length, Hv. done.
  - replace 65%nat with (length key) by lia. rewrite take_app_length, Hv. done.
Qed.

(** *** Multisig *)

Definition push_all (keys : list valtype) : CScript := concat (map (push_data []) keys).

Lemma fold_push keys : forall s, fold_left push_data keys s = s ++ push_all keys.
Proof.
  induction keys as [|k keys IH]; intros s; [by rewrite app_nil_r|].
  cbn [fold_left]. rewrite IH, push_data_app. unfold push_all. cbn [map concat]. by rewrite app_assoc.
Qed.

Lemma small_integer_op n pc : OP_1 <= n <= OP_16 -> GetOp (n :: pc) = GetOpResult true n [] pc.
Proof.
  unfold OP_1, OP_16. intros Hn. cbn [GetOp]. unfold OP_PUSHDATA4.
  by destruct (Z.leb_spec n 0x4e); [lia|].
Qed.

Lemma multisig_keys_all keys : forall fuel n rest acc,
  Forall (fun k => ValidSize k = true) keys -> (length keys <= fuel)%nat -> OP_1 <= n <= OP_16 ->
  multisig_keys fuel (push_all keys ++ n :: rest) acc = (n, acc ++ keys, rest).
Proof.
  induction keys as [|k keys IH]; intros fuel n rest acc Hk Hf Hn.
  - cbn [push_all map concat app]. unfold push_all. cbn [map concat app].
    destruct fuel; cbn [multisig_keys]; rewrite small_integer_op by done;
      cbn [ret vchRet ValidSize andb opcodeRet pcRet]; by rewrite app_nil_r.
  - apply Forall_cons in Hk as [Hk0 Hk]. destruct fuel as [|fuel]; [cbn in Hf; lia|].
    unfold push_all. cbn [map concat]. rewrite <- app_assoc. cbn [multisig_keys].
    rewrite GetOp_push_data by (destruct (ValidSize_length k Hk0); lia).
    cbn [ret vchRet pcRet]. rewrite Hk0. cbn [andb]. fold (push_all keys).
    rewrite IH by first [done | cbn in Hf; lia]. by rewrite <- app_assoc.
Qed.

Lemma push_all_length keys : Forall (fun k => ValidSize k = true) keys -> (34 * length keys <= length (push_all keys))%nat.
Proof.
  induction 1 as [|k keys Hk _ IH]; [done|]. unfold push_all. cbn [map concat length].
  rewrite length_app. fold (push_all keys). pose proof (ValidSize_length k Hk).
  rewrite push_short by (unfold OP_PUSHDATA1; lia). cbn [length]. lia.
Qed.

(** The script of [n] of [keys]. *)
Definition multisig_script (n : Z) (keys : list valtype) : CScript :=
  OP_1 + n - 1 :: push_all keys ++ OP_1 + zlen keys - 1 :: [OP_CHECKMULTISIG].

Lemma EncodeOP_N_small {E} n : 1 <= n <= 16 -> EncodeOP_N (E := E) n = Ok (OP_1 + n - 1).
Proof.
  intros Hn. unfold EncodeOP_N. destruct (Z.leb_spec 0 n), (Z.leb_spec n 16); try lia.
  cbn [andb cassert mbind outcome_bind]. by destruct (Z.eqb_spec n 0); [lia|].
Qed.

Lemma DecodeOP_N_encoded {E} n : 1 <= n <= 16 -> DecodeOP_N (E := E) (OP_1 + n - 1) = Ok n.
Proof.
  intros Hn. unfold DecodeOP_N, OP_1, OP_0, OP_16.
  destruct (Z.eqb_spec (0x51 + n - 1) 0); [lia|].
  destruct (Z.leb_spec 0x51 (0x51 + n - 1)), (Z.leb_spec (0x51 + n - 1) 0x60); try lia.
  cbn [andb cassert mbind outcome_bind]. f_equal. lia.
Qed.

Lemma GetScriptForMultisig_bytes {E} n keys :
  1 <= n <= 16 -> 1 <= zlen keys <= 16 ->
  GetScriptForMultisig (E := E) n keys = Ok (multisig_script n keys).
Proof.
  intros Hn Hk. unfold GetScriptForMultisig. rewrite !EncodeOP_N_small by done.
  cbn [mbind outcome_bind]. rewrite fold_push. unfold add_op, multisig_script. cbn [app].
  by rewrite <- app_assoc.
Qed.

Lemma Solver_multisig {E} v6 n keys t sol :
  1 <= n <= zlen keys -> zlen keys <= 16 -> Forall (fun k => ValidSize k = true) keys ->
  Solver (E := E) v6 (multisig_script n keys) t sol = Ok (true, TX_MULTISIG, [n] :: keys ++ [[zlen keys]]).
Proof.
  intros Hn Hk Hv. set (s := multisig_script n keys).
  assert (s !! 0%nat = Some (OP_1 + n - 1)) as H0 by done.
  assert (last s = Some OP_CHECKMULTISIG) as Hlast.
  { unfold s, multisig_script.
    change (push_all keys ++ OP_1 + zlen keys - 1 :: [OP_CHECKMULTISIG])
      with (push_all keys ++ [OP_1 + zlen keys - 1] ++ [OP_CHECKMULTISIG]).
    rewrite app_assoc, app_comm_cons. apply last_snoc. }
  assert (zlen s >= 37 /\ s <> []) as [Hlen Hne].
  { split; [|done]. pose proof (push_all_length keys Hv). unfold s, multisig_script.
    cbn [length]. rewrite length_app. cbn. lia. }
  assert (forall op, op < OP_1 \/ OP_16 < op -> byte_is s 0 op = false) as Hfirst.
  { intros op Hop. apply (byte_is_lookup _ _ _ _ H0). unfold OP_1, OP_16 in *. lia. }
  assert (forall i op, zlen s = Z.of_nat (S i) -> op <> OP_CHECKMULTISIG -> byte_is s i op = false) as Hend.
  { intros i op Hi Hop. rewrite last_lookup in Hlast. replace (pred (length s)) with i in Hlast by lia.
    by apply (byte_is_lookup _ _ _ _ Hlast). }
  unfold Solver. rewrite bool_decide_eq_false_2 by done.
  assert (IsPayToScriptHash s = false) as ->.
  { unfold IsPayToScriptHash. destruct (Z.eqb_spec (zlen s) 23); [lia|done]. }
  rewrite Hfirst by (unfold OP_RETURN, OP_16; lia). cbn [andb].
  assert (MatchPayToPubkey s = None) as ->.
  { unfold MatchPayToPubkey. rewrite Hlast, bool_decide_eq_false_2 by done. by rewrite !andb_false_r. }
  assert (MatchPayToPubkeyHash s = None) as ->.
  { unfold MatchPayToPubkeyHash. destruct (Z.eqb_spec (zlen s) 25); [lia|done]. }
  assert (MatchPayToColdStaking v6 s = None) as ->.
  { unfold MatchPayToColdStaking, IsPayToColdStaking. destruct (Z.eqb_spec (zlen s) 51) as [E51|]; [|done].
    rewrite (Hend 50%nat) by done. by rewrite !andb_false_r. }
  unfold MatchMultisig. rewrite Hlast, bool_decide_eq_true_2 by done.
  destruct (Z.ltb_spec (zlen s) 1); [lia|]. cbn [negb orb].
  assert (GetOp s = GetOpResult true (OP_1 + n - 1) [] (push_all keys ++ OP_1 + zlen keys - 1 :: [OP_CHECKMULTISIG]))
    as -> by (apply small_integer_op; unfold OP_1, OP_16; lia).
  cbn [ret opcodeRet pcRet negb orb].
  assert (forall k, 1 <= k <= 16 -> IsSmallInteger (OP_1 + k - 1) = true) as Hsmall.
  { intros k Hk'. unfold IsSmallInteger, OP_1, OP_16. apply andb_true_iff. split; apply Z.leb_le; lia. }
  rewrite Hsmall by lia. cbn [negb]. rewrite DecodeOP_N_encoded by lia. cbn [mbind outcome_bind].
  rewrite multisig_keys_all; [|done|pose proof (push_all_length keys Hv); unfold s, multisig_script; cbn [length]; rewrite length_app; lia|unfold OP_1, OP_16; lia].
  rewrite Hsmall by lia. cbn [negb app]. rewrite DecodeOP_N_encoded by lia. cbn [mbind outcome_bind].
  rewrite Z.eqb_refl. destruct (Z.ltb_spec (zlen keys) n); [lia|]. cbn [negb orb].
  change (zlen [OP_CHECKMULTISIG] =? 1) with true. cbn [mbind outcome_bind].
  rewrite !wrapu_small by (unfold in_u; lia). done.
Qed.

Lemma solution160_get {E} sols i v :
  0 <= i -> sols !! Z.to_nat i = Some v -> length v = 20%nat -> solution160 (E := E) sols i = Ok v.
Proof.
  intros Hi Hv Hl. unfold solution160, rd. rewrite bool_decide_eq_true_2, Hv by done.
  cbn [mbind outcome_bind]. by rewrite Hl.
Qed.

(** What the node builds for a destination, [Solver] recognises, before and
    after the V6 rules: [ExtractDestination] gives a destination back, for both
    kinds of addresses, and the keys of a stake delegation, the staker's or the
    owner's; the key of a raw-key output and the threshold and keys of a
    multisig output are the solutions. *)
Theorem Solver_recognises_built_scripts (v6 : bool) (h a b key : list Z) (keys : list valtype) (n : Z) :
  length h = 20%nat -> length a = 20%nat -> length b = 20%nat -> ValidSize key = true ->
  1 <= n <= zlen keys -> zlen keys <= 16 -> Forall (fun k => ValidSize k = true) keys ->
  (forall f, ExtractDestination (E := unit) v6 (GetScriptForDestination (CKeyID h)) f = Ok (Some (CKeyID h))) /\
  (forall f, ExtractDestination (E := unit) v6 (GetScriptForDestination (CScriptID h)) f = Ok (Some (CScriptID h))) /\
  (forall f, ExtractDestination (E := unit) v6 (GetScriptForStakeDelegation a b) f
             = Ok (Some (CKeyID (if f then a else b)))) /\
  ExtractDestination (E := unit) v6 (GetScriptForRawPubKey key) false = Ok (Some (CKeyID (Hash160 key))) /\
  (exists s, GetScriptForMultisig (E := unit) n keys = Ok s /\
     Solver (E := unit) v6 s TX_NONSTANDARD [] = Ok (true, TX_MULTISIG, [n] :: keys ++ [[zlen keys]])).
Proof.
  intros Hh Ha Hb Hkey Hn Hk Hv.
  split; [|split; [|split; [|split]]].
  - intros f. unfold ExtractDestination. rewrite Solver_p2pkh by done. cbn [negb mbind outcome_bind].
    by rewrite (solution160_get _ _ h).
  - intros f. unfold ExtractDestination. rewrite Solver_p2sh by done. cbn [negb mbind outcome_bind].
    by rewrite (solution160_get _ _ h).
  - intros f. unfold ExtractDestination. rewrite Solver_p2cs by done. cbn [negb mbind outcome_bind].
    destruct f; [by rewrite (solution160_get _ _ a)|by rewrite (solution160_get _ _ b)].
  - unfold ExtractDestination. rewrite Solver_pubkey by done. cbn [negb mbind outcome_bind].
    assert (CPubKey key = key) as Hc by (unfold CPubKey; by rewrite Hkey).
    change (rd [key] 0) with (Ok (E := unit) key). cbn [mbind outcome_bind]. rewrite Hc.
    by destruct key.
  - exists (multisig_script n keys). split; [apply GetScriptForMultisig_bytes; lia|by apply Solver_multisig].
Qed.

Lemma Solver_recognises_built_scripts_witness :
  let key := 2 :: replicate 32 7 in
  ExtractDestination (E := unit) true (GetScriptForDestination (CKeyID (replicate 20 9))) false
  = Ok (Some (CKeyID (replicate 20 9))) /\
  ExtractDestination (E := unit) false (GetScriptForStakeDelegation (replicate 20 1) (replicate 20 2)) true
  = Ok (Some (CKeyID (replicate 20 1))) /\
  exists s, GetScriptForMultisig (E := unit) 1 [key; key] = Ok s /\
    Solver (E := unit) true s TX_NONSTANDARD [] = Ok (true, TX_MULTISIG, [[1]; key; key; [2]]).
Proof.
  split; [|split].
  - apply (Solver_recognises_built_scripts true (replicate 20 9) (replicate 20 1) (replicate 20 2)
      (2 :: replicate 32 7) [2 :: replicate 32 7] 1); try reflexivity; [cbn; lia|cbn; lia|repeat constructor].
  - apply (Solver_recognises_built_scripts false (replicate 20 9) (replicate 20 1) (replicate 20 2)
      (2 :: replicate 32 7) [2 :: replicate 32 7] 1); try reflexivity; [cbn; lia|cbn; lia|repeat constructor].
  - apply (Solver_recognises_built_scripts true (replicate 20 9) (replicate 20 1) (replicate 20 2)
      (2 :: replicate 32 7) [2 :: replicate 32 7; 2 :: replicate 32 7] 1); try reflexivity;
      [cbn; lia|cbn; lia|repeat constructor].
Defined.

(** ** Spending: facts *)

Lemma need_ok s n : n <= zlen s -> need s n = Ok tt.
Proof. intros H. unfold need. by destruct (Z.ltb_spec (zlen s) n); [lia|]. Qed.

Lemma need_fails s n : zlen s < n -> need s n = Err SCRIPT_ERR_INVALID_STACK_OPERATION.
Proof. intros H. unfold need. by destruct (Z.ltb_spec (zlen s) n); [|lia]. Qed.

Ltac run_need := rewrite need_ok by (cbn [length]; lia); cbn [mbind outcome_bind].

Lemma op_dup_cons v s : op_dup (v :: s) = Ok (v :: v :: s).
Proof. unfold op_dup. by run_need. Qed.

Lemma op_hash160_cons v s : op_hash OP_HASH160 (v :: s) = Ok (Hash160 v :: s).
Proof. unfold op_hash. run_need. reflexivity. Qed.

Lemma op_rot_cons a b c s : op_rot (a :: b :: c :: s) = Ok (c :: a :: b :: s).
Proof. unfold op_rot. by run_need. Qed.

Lemma op_rot_short s : zlen s < 3 -> op_rot s = Err SCRIPT_ERR_INVALID_STACK_OPERATION.
Proof. intros H. unfold op_rot. by rewrite need_fails. Qed.

Lemma op_equalverify_cons a b s :
  op_equal OP_EQUALVERIFY (a :: b :: s) = if bool_decide (b = a) then Ok s else Err SCRIPT_ERR_EQUALVERIFY.
Proof.
  unfold op_equal. run_need. change (stacktop (a :: b :: s) (-2)) with (Ok (E := ScriptError) b).
  change (stacktop (a :: b :: s) (-1)) with (Ok (E := ScriptError) a).
  cbn [mbind outcome_bind popstack]. change (OP_EQUALVERIFY =? OP_EQUALVERIFY) with true. cbn match.
  by case_bool_decide.
Qed.

Lemma minimal_push b : 2 <= zlen b -> CheckMinimalPush b (push_op b) = true.
Proof.
  intros Hb. destruct b as [|b0 [|b1 b]]; [done|cbn in Hb; lia|]. set (l := b0 :: b1 :: b) in *.
  unfold CheckMinimalPush, push_op, OP_PUSHDATA1. subst l. cbn [bool_decide decide_rel]. cbn [andb].
  rewrite bool_decide_eq_false_2 by done. cbn [andb]. set (z := zlen (b0 :: b1 :: b)) in *.
  destruct (Z.leb_spec z 75), (Z.ltb_spec z 76); try lia.
  destruct (Z.leb_spec z 255); [done|]. by destruct (Z.leb_spec z 65535).
Qed.

(** [catch (...)] in [EvalScript]. *)
Definition caught {A} (o : sc A) : sc A :=
  match o with Throw => Err SCRIPT_ERR_UNKNOWN_ERROR | _ => o end.

(** [EvalScript] from the interpreter's [run]. *)
Lemma EvalScript_run CheckLowS v6 (checker : BaseSignatureChecker) s script flags sigversion :
  zlen script <= MAX_SCRIPT_SIZE ->
  EvalScript CheckLowS v6 s script flags sigversion =
  caught (m ← run CheckLowS v6 flags script sigversion script (Machine s [] [] 0 script);
          require (bool_decide (vfExec m = [])) SCRIPT_ERR_UNBALANCED_CONDITIONAL;; Ok (stack m)).
Proof.
  intros H. unfold EvalScript, run. destruct (Z.ltb_spec MAX_SCRIPT_SIZE (zlen script)); [lia|].
  destruct (eval_loop _ _ _ _ _ _ _ _) as [m| | |]; try done. cbn [mbind outcome_bind]. by case_bool_decide.
Qed.

Lemma caught_bind {A B} (o : sc A) (k : A -> sc B) : caught (o ≫= k) = caught (caught o ≫= (fun a => caught (k a))).
Proof. destruct o as [a| | |]; try done. cbn. by destruct (k a). Qed.

Section Spend.
Context (CheckLowS : valtype -> bool) (v6 : bool) {checker : BaseSignatureChecker}.
Context (flags : Z) (script : CScript) (sigversion : SigVersion).

Notation run := (run CheckLowS v6 flags script sigversion).
Notation exec := (exec_op CheckLowS v6 flags script sigversion).

(** Within the limit on the sizes of the stacks. *)
Definition fits (s : list valtype) : sc unit :=
  require (negb (1000 <? zlen s + zlen (@nil valtype))) SCRIPT_ERR_STACK_SIZE.

Lemma fits_ok s : zlen s <= 1000 -> fits s = Ok tt.
Proof.
  intros H. unfold fits. cbn [length]. by destruct (Z.ltb_spec 1000 (zlen s + Z.of_nat 0)); [lia|].
Qed.

Lemma size_ok m : zlen (stack m) + zlen (altstack m) <= 1000 -> size_check m = Ok tt.
Proof.
  intros H. unfold size_check. by destruct (Z.ltb_spec 1000 (zlen (stack m) + zlen (altstack m))); [lia|].
Qed.

(** An instruction that changes the stack only. *)
Lemma run_stack_op f op pc st vf n code :
  bytes_ok (op :: pc) -> OP_16 < op -> is_disabled op = false -> n < 201 -> forallb id vf = true ->
  (forall m, exec op true pc m = (s ← f (stack m); Ok (set_stack m s))) ->
  run (op :: pc) (Machine st [] vf n code) =
  (s ← f st; fits s;; run pc (Machine s [] vf (n + 1) code)).
Proof.
  intros Hb Hop Hd Hn Hx Hf. rewrite run_op; [|done|done|done|done|cbn [vfExec]; by rewrite Hx].
  cbn [vfExec]. rewrite Hx, Hf. cbn [stack set_nOpCount]. by destruct (f st).
Qed.

(** [IF], [ELSE] and [ENDIF]. *)
Lemma run_if v pc st n code :
  bytes_ok (OP_IF :: pc) -> n < 201 -> zlen st <= 1000 ->
  run (OP_IF :: pc) (Machine (v :: st) [] [] n code) =
  run pc (Machine st [] [CastToBool v] (n + 1) code).
Proof.
  intros Hb Hn Hst. rewrite run_op; [|done|reflexivity|reflexivity|done|done].
  match goal with |- context [exec OP_IF ?f pc ?m] => change (exec OP_IF f pc m) with (op_if OP_IF f m) end.
  unfold op_if. cbn [stack vfExec set_nOpCount forallb].
  destruct (Z.ltb_spec (zlen (v :: st)) 1); [cbn [length] in *; lia|].
  cbn [negb require mbind outcome_bind]. change (stacktop (v :: st) (-1)) with (Ok (E := ScriptError) v).
  cbn [mbind outcome_bind popstack set_stack set_vfExec stack altstack vfExec nOpCount pbegincodehash].
  change (OP_IF =? OP_NOTIF) with false. rewrite size_ok; [done|cbn; lia].
Qed.

Lemma run_else b pc st n code :
  bytes_ok (OP_ELSE :: pc) -> n < 201 -> zlen st <= 1000 ->
  run (OP_ELSE :: pc) (Machine st [] [b] n code) = run pc (Machine st [] [negb b] (n + 1) code).
Proof.
  intros Hb Hn Hst.
  rewrite run_op; [|done|reflexivity|reflexivity|done|cbn [vfExec]; by rewrite orb_true_r].
  match goal with |- context [exec OP_ELSE ?f pc ?m] => change (exec OP_ELSE f pc m) with (op_else m) end. unfold op_else.
  cbn [vfExec set_nOpCount mbind outcome_bind].
  rewrite size_ok; [done|cbn; lia].
Qed.

Lemma run_endif b pc st n code :
  bytes_ok (OP_ENDIF :: pc) -> n < 201 -> zlen st <= 1000 ->
  run (OP_ENDIF :: pc) (Machine st [] [b] n code) = run pc (Machine st [] [] (n + 1) code).
Proof.
  intros Hb Hn Hst.
  rewrite run_op; [|done|reflexivity|reflexivity|done|cbn [vfExec]; by rewrite orb_true_r].
  match goal with |- context [exec OP_ENDIF ?f pc ?m] => change (exec OP_ENDIF f pc m) with (op_endif m) end. unfold op_endif.
  cbn [vfExec set_nOpCount mbind outcome_bind].
  rewrite size_ok; [done|cbn; lia].
Qed.

(** A push of at least two bytes. *)
Lemma run_push_long b pc st n code :
  bytes_ok (push_data [] b ++ pc) -> 2 <= zlen b <= MAX_SCRIPT_ELEMENT_SIZE -> zlen st < 1000 ->
  forall vf, forallb id vf = true ->
  run (push_data [] b ++ pc) (Machine st [] vf n code) = run pc (Machine (b :: st) [] vf n code).
Proof.
  intros Hb Hl Hst vf Hx. rewrite run_push by first [done | apply minimal_push, Hl | apply Hl].
  rewrite size_ok; [done|cbn; lia].
Qed.

(** What [OP_CHECKSIG] does with a signature and a key. *)
Definition checksig (code : CScript) (sig pk : valtype) : sc bool :=
  CheckSignatureEncoding CheckLowS sig flags;; CheckPubKeyEncoding pk flags;;
  CheckSig sig pk (FindAndDelete code (push_data [] sig)).1 sigversion.

Lemma op_checksig_cons code sig pk s :
  op_checksig CheckLowS flags sigversion OP_CHECKSIG code (pk :: sig :: s)
  = (ok ← checksig code sig pk; Ok (bool_vch ok :: s)).
Proof.
  unfold op_checksig, checksig. run_need.
  change (stacktop (pk :: sig :: s) (-2)) with (Ok (E := ScriptError) sig).
  change (stacktop (pk :: sig :: s) (-1)) with (Ok (E := ScriptError) pk). cbn [mbind outcome_bind].
  destruct (CheckSignatureEncoding CheckLowS sig flags); try done. cbn [mbind outcome_bind].
  by destruct (CheckPubKeyEncoding pk flags).
Qed.

Lemma op_checksig_short code pk :
  op_checksig CheckLowS flags sigversion OP_CHECKSIG code [pk] = Err SCRIPT_ERR_INVALID_STACK_OPERATION.
Proof. reflexivity. Qed.

(** The rest of the checks, with what is left under the two hashes and the key. *)
Definition spend_tail (h h' pk : valtype) (s : list valtype) : sc (list valtype) :=
  require (bool_decide (h' = h)) SCRIPT_ERR_EQUALVERIFY;;
  match s with
  | sig :: s => ok ← checksig script sig pk; Ok (bool_vch ok :: s)
  | [] => Err SCRIPT_ERR_INVALID_STACK_OPERATION
  end.

(** The beginning of the two scripts, [DUP HASH160], and their end,
    [EQUALVERIFY CHECKSIG]. *)
Lemma run_head pc pk s n code :
  bytes_ok pc -> n < 200 -> zlen s <= 998 ->
  run (OP_DUP :: OP_HASH160 :: pc) (Machine (pk :: s) [] [] n code) =
  run pc (Machine (Hash160 pk :: pk :: s) [] [] (n + 1 + 1) code).
Proof.
  intros Hb Hn Hs. assert (byte_ok OP_DUP /\ byte_ok OP_HASH160) as [H1 H2] by done.
  rewrite (run_stack_op op_dup); [|by repeat constructor|reflexivity|reflexivity|lia|reflexivity|reflexivity].
  rewrite op_dup_cons. cbn [mbind outcome_bind]. rewrite fits_ok by (cbn [length]; lia). cbn [mbind outcome_bind].
  rewrite (run_stack_op (op_hash OP_HASH160));
    [|by repeat constructor|reflexivity|reflexivity|lia|reflexivity|reflexivity].
  rewrite op_hash160_cons. cbn [mbind outcome_bind]. by rewrite fits_ok by (cbn [length]; lia).
Qed.

Lemma run_tail h h' pk s n :
  n < 200 -> zlen s <= 998 ->
  run [OP_EQUALVERIFY; OP_CHECKSIG] (Machine (h :: h' :: pk :: s) [] [] n script) =
  (st ← spend_tail h h' pk s; Ok (Machine st [] [] (n + 1 + 1) script)).
Proof.
  intros Hn Hs. unfold spend_tail. rewrite (run_stack_op (op_equal OP_EQUALVERIFY));
    [|refine (bool_decide_eq_true_1 (bytes_ok _) _); reflexivity|reflexivity|reflexivity|lia|reflexivity|reflexivity].
  rewrite op_equalverify_cons. case_bool_decide; [|done]. cbn [mbind outcome_bind require].
  rewrite fits_ok by (cbn [length]; lia). cbn [mbind outcome_bind].
  rewrite run_op;
    [|refine (bool_decide_eq_true_1 (bytes_ok _) _); reflexivity|reflexivity|reflexivity|cbn; lia|reflexivity].
  match goal with |- context [exec OP_CHECKSIG ?f ?pc ?m] =>
    change (exec OP_CHECKSIG f pc m) with
      (s' ← op_checksig CheckLowS flags sigversion OP_CHECKSIG (pbegincodehash m) (stack m); Ok (set_stack m s'))
  end.
  cbn [stack pbegincodehash set_nOpCount]. destruct s as [|sig s]; [by rewrite op_checksig_short|].
  rewrite op_checksig_cons. destruct (checksig script sig pk) as [ok| | |]; try done. cbn [mbind outcome_bind].
  by rewrite size_ok by (cbn in *; lia).
Qed.
End Spend.

Lemma push_data_bytes b : bytes_ok b -> bytes_ok (push_data [] b).
Proof.
  intros Hb. unfold push_data. cbn [app]. apply bytes_ok_app. split; [|done].
  repeat case_match; repeat (apply Forall_cons; split); auto using bytes_ok_nil, le_bytes_ok, wrapu_range with lia.
  all: try (refine (bool_decide_eq_true_1 (byte_ok _) _); reflexivity).
  all: apply (wrapu_range 8); lia.
Qed.

(** A script of given bytes is well formed. *)
Ltac script_bytes :=
  repeat first [ assumption | apply bytes_ok_nil | apply push_data_bytes | apply bytes_ok_app; split
               | apply Forall_cons; split; [refine (bool_decide_eq_true_1 (byte_ok _) _); reflexivity|] ].

(** ** Pay to public key hash *)

Lemma p2pkh_form h :
  length h = 20%nat ->
  GetScriptForDestination (CKeyID h) = OP_DUP :: OP_HASH160 :: push_data [] h ++ [OP_EQUALVERIFY; OP_CHECKSIG].
Proof. intros Hh. by rewrite p2pkh_bytes, push_20. Qed.

Lemma GetScript_length h b : length h = 20%nat -> length b = 20%nat ->
  zlen (GetScriptForDestination (CKeyID h)) = 25 /\ zlen (GetScriptForStakeDelegation h b) = 51.
Proof.
  intros H Hb. rewrite p2pkh_bytes, p2cs_bytes by done. cbn [length].
  repeat (rewrite length_app; cbn [length]). by rewrite H, Hb.
Qed.

(** Two pushes leave their data on the stack. *)
Lemma EvalScript_two_pushes CheckLowS v6 (checker : BaseSignatureChecker) sig pk flags sigversion :
  elem sig -> elem pk -> 2 <= zlen sig -> 2 <= zlen pk ->
  EvalScript CheckLowS v6 [] (push_data (push_data [] sig) pk) flags sigversion = Ok [pk; sig].
Proof.
  intros [Hsb Hsl] [Hpb Hpl] Hs Hp. unfold MAX_SCRIPT_ELEMENT_SIZE in Hsl, Hpl. rewrite push_data_app.
  assert (forall b : valtype, zlen b <= 520 -> zlen (push_data [] b) <= 525) as Hpush.
  { intros b Hb. unfold push_data. cbn [app]. rewrite length_app.
    unfold WriteLE16, WriteLE32. repeat case_match; cbn [length]; rewrite ?le_bytes_length; lia. }
  rewrite EvalScript_run
    by (pose proof (Hpush sig Hsl); pose proof (Hpush pk Hpl); unfold MAX_SCRIPT_SIZE; rewrite length_app; lia).
  rewrite run_push_long; [|script_bytes|unfold MAX_SCRIPT_ELEMENT_SIZE; lia|done|done].
  rewrite <- (app_nil_r (push_data [] pk)) at 2.
  rewrite run_push_long; [done|script_bytes|unfold MAX_SCRIPT_ELEMENT_SIZE; lia|done|done].
Qed.

Lemma push_only_push fuel b pc :
  zlen b < 2 ^ 32 -> push_only_loop (S fuel) (push_data [] b ++ pc) = push_only_loop fuel pc.
Proof.
  intros Hb. pose proof (push_op_range b) as Hop. pose proof (push_data_nonempty b pc) as Hne.
  cbn [push_only_loop]. destruct (push_data [] b ++ pc) eqn:E; [done|]. rewrite <- E.
  rewrite GetOp_push_data by done. cbn [ret opcodeRet pcRet].
  assert (push_op b <=? OP_16 = true) as -> by (unfold OP_16, OP_PUSHDATA4 in *; lia). done.
Qed.

Lemma push_data_length b : (0 < length (push_data [] b))%nat.
Proof. unfold push_data. cbn [app]. rewrite length_app. repeat case_match; cbn [length]; lia. Qed.

Lemma push_only_two b1 b2 : zlen b1 < 2 ^ 32 -> zlen b2 < 2 ^ 32 -> IsPushOnly (push_data (push_data [] b1) b2) = true.
Proof.
  intros H1 H2. rewrite push_data_app. rewrite <- (app_nil_r (push_data [] b2)). unfold IsPushOnly.
  pose proof (push_data_length b1). pose proof (push_data_length b2).
  assert (exists f, length (push_data [] b1 ++ push_data [] b2 ++ []) = S (S f)) as [f ->]
    by (exists (length (push_data [] b1 ++ push_data [] b2) - 2)%nat; rewrite app_nil_r, length_app; lia).
  rewrite !push_only_push by done. by destruct f.
Qed.

(** Spending a pay-to-public-key-hash output by pushing a signature and a
    key succeeds exactly when the key has the hash of the output, both have the
    encodings the flags ask for, and the checker accepts the signature for the
    key and the output script without the pushes of the signature; otherwise
    the error is that of the first of these that fails, in this order. *)
Theorem VerifyScript_p2pkh (CheckLowS : valtype -> bool) (v6 : bool) (checker : BaseSignatureChecker)
    (sig pk h : valtype) (flags : Z) (sigversion : SigVersion) :
  elem sig -> elem pk -> 2 <= zlen sig -> 2 <= zlen pk -> bytes_ok h -> length h = 20%nat ->
  let script := GetScriptForDestination (CKeyID h) in
  VerifyScript CheckLowS v6 (push_data (push_data [] sig) pk) script flags sigversion =
  caught (require (bool_decide (Hash160 pk = h)) SCRIPT_ERR_EQUALVERIFY;;
          CheckSignatureEncoding CheckLowS sig flags;;
          CheckPubKeyEncoding pk flags;;
          ok ← CheckSig sig pk (FindAndDelete script (push_data [] sig)).1 sigversion;
          require ok SCRIPT_ERR_EVAL_FALSE).
Proof.
  intros Hsig Hpk Hs Hp Hb Hh script. subst script. pose proof Hsig as [_ Hsl]. pose proof Hpk as [_ Hpl].
  unfold MAX_SCRIPT_ELEMENT_SIZE in Hsl, Hpl. unfold VerifyScript.
  rewrite push_only_two by lia. rewrite andb_false_r, EvalScript_two_pushes by done.
  cbn [negb require mbind outcome_bind].
  assert (IsPayToScriptHash (GetScriptForDestination (CKeyID h)) = false) as ->
    by (unfold IsPayToScriptHash; by rewrite (proj1 (GetScript_length h h Hh Hh))).
  rewrite andb_false_r, EvalScript_run by (by rewrite (proj1 (GetScript_length h h Hh Hh))).
  set (script := GetScriptForDestination (CKeyID h)).
  replace (run CheckLowS v6 flags script sigversion script)
    with (run CheckLowS v6 flags script sigversion
            (OP_DUP :: OP_HASH160 :: push_data [] h ++ [OP_EQUALVERIFY; OP_CHECKSIG])) by (by rewrite <- p2pkh_form).
  rewrite run_head; [|script_bytes|done|done].
  rewrite run_push_long; [|script_bytes|rewrite Hh; done|done|done].
  rewrite run_tail by done. unfold spend_tail, checksig.
  case_bool_decide; [|done]. cbn [require mbind outcome_bind].
  destruct (CheckSignatureEncoding CheckLowS sig flags) as [[]| | |]; try done. cbn [mbind outcome_bind].
  destruct (CheckPubKeyEncoding pk flags) as [[]| | |]; try done. cbn [mbind outcome_bind].
  by destruct (CheckSig _ _ _ _) as [[]| | |].
Qed.

Definition sample_checker : BaseSignatureChecker := {|
  CheckSig vchSig _ _ _ := Ok (bool_decide (last vchSig = Some 1));
  CheckLockTime _ := Ok false;
  CheckColdStake _ := Ok true;
|}.

Lemma VerifyScript_p2pkh_witness :
  let pk := 2 :: replicate 32 7 in
  let sig := [48; 6; 2; 1; 1; 2; 1; 1; 1] in
  let script := GetScriptForDestination (CKeyID (Hash160 pk)) in
  @VerifyScript (fun _ => true) true sample_checker (push_data (push_data [] sig) pk) script 0 SIGVERSION_BASE
  = Ok tt.
Proof.
  intros pk sig script.
  transitivity (caught (A := unit) (Ok tt)); [|reflexivity].
  refine (eq_trans (VerifyScript_p2pkh (fun _ => true) true sample_checker sig pk (Hash160 pk) 0 SIGVERSION_BASE
    _ _ _ _ _ _) _).
  - split; [refine (bool_decide_eq_true_1 (bytes_ok _) _); reflexivity|done].
  - split; [refine (bool_decide_eq_true_1 (bytes_ok _) _); reflexivity|done].
  - done.
  - done.
  - refine (bool_decide_eq_true_1 (bytes_ok _) _). vm_compute. reflexivity.
  - vm_compute. reflexivity.
  - vm_compute. reflexivity.
Defined.

(** ** Pay to cold staking *)

Lemma p2cs_form a b :
  length a = 20%nat -> length b = 20%nat ->
  GetScriptForStakeDelegation a b =
  OP_DUP :: OP_HASH160 :: OP_ROT :: OP_IF :: OP_CHECKCOLDSTAKEVERIFY :: push_data [] a ++
  OP_ELSE :: push_data [] b ++ OP_ENDIF :: [OP_EQUALVERIFY; OP_CHECKSIG].
Proof. intros Ha Hb. by rewrite p2cs_bytes, !push_20. Qed.

Section ColdStaking.
Context (CheckLowS : valtype -> bool) (v6 : bool) {checker : BaseSignatureChecker}.
Context (flags : Z) (script : CScript) (sigversion : SigVersion).

Notation run := (run CheckLowS v6 flags script sigversion).
Notation exec := (exec_op CheckLowS v6 flags script sigversion).

(** What [OP_CHECKCOLDSTAKEVERIFY] asks for, with the key and what is under it. *)
Definition cold_stake_checks (pk : valtype) (s : list valtype) : sc unit :=
  (if v6 then
     require (zlen s =? 1) SCRIPT_ERR_INVALID_STACK_OPERATION;;
     CheckSignatureEncoding CheckLowS (default [] (head s)) flags;;
     CheckPubKeyEncoding pk flags
   else Ok tt);;
  ok ← CheckColdStake script;
  require ok SCRIPT_ERR_CHECKCOLDSTAKEVERIFY.

Lemma op_checkcoldstakeverify_cons h pk s :
  zlen h = 20 ->
  op_checkcoldstakeverify CheckLowS v6 flags script (h :: pk :: s) =
  (cold_stake_checks pk s;; Ok (h :: pk :: s)).
Proof.
  intros Hh. unfold op_checkcoldstakeverify, cold_stake_checks. destruct v6; [|by destruct (CheckColdStake script) as [[]| | |]].
  assert (zlen (h :: pk :: s) =? 3 = (zlen s =? 1)) as ->.
  { cbn [length]. destruct (Z.eqb_spec (Z.of_nat (S (S (length s)))) 3), (Z.eqb_spec (zlen s) 1); lia || done. }
  destruct (Z.eqb_spec (zlen s) 1); [|done]. destruct s as [|sig s]; [done|].
  cbn [negb require mbind outcome_bind head default].
  change (stacktop (h :: pk :: sig :: s) (-3)) with (Ok (E := ScriptError) sig).
  change (stacktop (h :: pk :: sig :: s) (-2)) with (Ok (E := ScriptError) pk).
  change (stacktop (h :: pk :: sig :: s) (-1)) with (Ok (E := ScriptError) h).
  cbn [mbind outcome_bind]. rewrite Hh. change (id sig) with sig.
  destruct (CheckSignatureEncoding CheckLowS sig flags) as [[]| | |]; try done. cbn [mbind outcome_bind].
  destruct (CheckPubKeyEncoding pk flags) as [[]| | |]; try done. cbn.
  by destruct (CheckColdStake script) as [[]| | |].
Qed.

(** The branch of the staker. *)
Lemma run_staker a b pk s n h pc :
  bytes_ok a -> bytes_ok b -> length a = 20%nat -> length b = 20%nat -> zlen h = 20 -> bytes_ok pc ->
  n < 190 -> zlen s <= 997 ->
  run (OP_CHECKCOLDSTAKEVERIFY :: push_data [] a ++ OP_ELSE :: push_data [] b ++ OP_ENDIF :: pc)
    (Machine (h :: pk :: s) [] [true] n script) =
  (cold_stake_checks pk s;; run pc (Machine (a :: h :: pk :: s) [] [] (n + 3) script)).
Proof.
  intros Ha Hb La Lb Hh Hpc Hn Hs. assert (byte_ok OP_ELSE /\ byte_ok OP_ENDIF) as [? ?] by done.
  rewrite (run_stack_op _ _ _ _ _ (op_checkcoldstakeverify CheckLowS v6 flags script));
    [|script_bytes|reflexivity|reflexivity|lia|reflexivity|reflexivity].
  rewrite op_checkcoldstakeverify_cons by done.
  destruct (cold_stake_checks pk s) as [[]| | |]; try done. cbn [mbind outcome_bind].
  rewrite fits_ok by (cbn [length]; lia). cbn [mbind outcome_bind].
  rewrite run_push_long; [|script_bytes|rewrite La; done|cbn [length]; lia|done].
  rewrite run_else; [|script_bytes|lia|cbn [length]; lia]. cbn [negb].
  rewrite run_push_skipped; [|script_bytes|rewrite Lb; done|done|cbn [length stack altstack]; lia].
  rewrite run_endif; [|script_bytes|lia|cbn [length]; lia]. do 2 f_equal. lia.
Qed.

(** The branch of the owner. *)
Lemma run_owner a b pk s n h pc :
  bytes_ok a -> bytes_ok b -> length a = 20%nat -> length b = 20%nat -> bytes_ok pc ->
  n < 190 -> zlen s <= 997 ->
  run (OP_CHECKCOLDSTAKEVERIFY :: push_data [] a ++ OP_ELSE :: push_data [] b ++ OP_ENDIF :: pc)
    (Machine (h :: pk :: s) [] [false] n script) =
  run pc (Machine (b :: h :: pk :: s) [] [] (n + 3) script).
Proof.
  intros Ha Hb La Lb Hpc Hn Hs. assert (byte_ok OP_ELSE /\ byte_ok OP_ENDIF) as [? ?] by done.
  rewrite run_op_skipped;
    [|script_bytes|reflexivity|reflexivity|cbn; lia|reflexivity|reflexivity|cbn [length stack altstack]; lia].
  rewrite run_push_skipped; [|script_bytes|rewrite La; done|done|cbn [length stack altstack set_nOpCount]; lia].
  unfold set_nOpCount. cbn [stack altstack vfExec nOpCount pbegincodehash].
  rewrite run_else; [|script_bytes|lia|cbn [length]; lia]. cbn [negb].
  rewrite run_push_long; [|script_bytes|rewrite Lb; done|cbn [length]; lia|done].
  rewrite run_endif; [|script_bytes|lia|cbn [length]; lia]. do 2 f_equal. lia.
Qed.

(** What the checks leave of the stack. *)
Definition delegation_spend (a b : list Z) (s : list valtype) : sc (list valtype) :=
  match s with
  | pk :: selector :: rest =>
      (if CastToBool selector then cold_stake_checks pk rest else Ok tt);;
      spend_tail CheckLowS flags script sigversion (if CastToBool selector then a else b) (Hash160 pk) pk rest
  | _ => Err SCRIPT_ERR_INVALID_STACK_OPERATION
  end.

Lemma run_delegation a b s :
  bytes_ok a -> bytes_ok b -> length a = 20%nat -> length b = 20%nat -> Forall elem s -> zlen s <= 999 ->
  exists n,
  run (OP_DUP :: OP_HASH160 :: OP_ROT :: OP_IF :: OP_CHECKCOLDSTAKEVERIFY :: push_data [] a ++
       OP_ELSE :: push_data [] b ++ OP_ENDIF :: [OP_EQUALVERIFY; OP_CHECKSIG]) (Machine s [] [] 0 script)
  = (st ← delegation_spend a b s; Ok (Machine st [] [] n script)).
Proof.
  intros Ha Hb La Lb Hs Hn. destruct s as [|pk s].
  { exists 0. rewrite (run_stack_op _ _ _ _ _ op_dup);
      [done|script_bytes|reflexivity|reflexivity|lia|reflexivity|reflexivity]. }
  cbn [length] in Hn. rewrite run_head; [|script_bytes|done|lia].
  rewrite (run_stack_op _ _ _ _ _ op_rot); [|script_bytes|reflexivity|reflexivity|lia|reflexivity|reflexivity].
  destruct s as [|selector s]; [exists 0; by rewrite op_rot_short|].
  cbn [length] in Hn. rewrite op_rot_cons. cbn [mbind outcome_bind].
  rewrite fits_ok by (cbn [length]; lia). cbn [mbind outcome_bind].
  rewrite run_if; [|script_bytes|lia|cbn [length]; lia].
  apply Forall_cons in Hs as [Hpk _]. pose proof (Hash160_sized pk (elem_short pk Hpk)) as [Hh _].
  unfold delegation_spend. destruct (CastToBool selector).
  - rewrite run_staker; [|script_bytes|script_bytes|done|done|lia|script_bytes|lia|lia]. eexists.
    destruct (cold_stake_checks pk s) as [[]| | |]; [|reflexivity..]. cbn [mbind outcome_bind].
    apply run_tail; lia.
  - rewrite run_owner; [|script_bytes|script_bytes|done|done|script_bytes|lia|lia]. eexists.
    cbn [mbind outcome_bind]. apply run_tail; lia.
Qed.

(** The end of the evaluation, after the last instruction. *)
Lemma caught_tail (o : sc (list valtype)) n :
  caught ((st ← o; Ok (Machine st [] [] n script)) ≫= (fun m =>
    require (bool_decide (vfExec m = [])) SCRIPT_ERR_UNBALANCED_CONDITIONAL;; Ok (stack m))) = caught o.
Proof. by destruct o. Qed.
End ColdStaking.

(** C28: the outcome of a cold-staking output on every stack.  The key must have
    the hash of the staker when the selector under it is true, and then the
    transaction must be a coinstake the checker accepts; it must have the hash
    of the owner when the selector is false, and then no such check is made.
    In both cases the signature must be the key's.  Under the V6 rules the
    staker's branch takes exactly a signature, a selector and a key, with their
    encodings checked before the coinstake is. *)
Theorem EvalScript_cold_staking (CheckLowS : valtype -> bool) (v6 : bool) (checker : BaseSignatureChecker)
    (staker owner : list Z) (s : list valtype) (flags : Z) (sigversion : SigVersion) :
  bytes_ok staker -> bytes_ok owner -> length staker = 20%nat -> length owner = 20%nat ->
  Forall elem s -> zlen s <= 999 ->
  let script := GetScriptForStakeDelegation staker owner in
  EvalScript CheckLowS v6 s script flags sigversion =
  match s with
  | pk :: selector :: rest =>
      caught ((if CastToBool selector then cold_stake_checks CheckLowS v6 flags script pk rest else Ok tt);;
              require (bool_decide (Hash160 pk = if CastToBool selector then staker else owner)) SCRIPT_ERR_EQUALVERIFY;;
              match rest with
              | sig :: rest => ok ← checksig CheckLowS flags sigversion script sig pk; Ok (bool_vch ok :: rest)
              | [] => Err SCRIPT_ERR_INVALID_STACK_OPERATION
              end)
  | _ => Err SCRIPT_ERR_INVALID_STACK_OPERATION
  end.
Proof.
  intros Ha Hb La Lb Hs Hn script. subst script.
  destruct (run_delegation CheckLowS v6 flags (GetScriptForStakeDelegation staker owner) sigversion
    staker owner s Ha Hb La Lb Hs Hn) as [n Hrun].
  rewrite <- (p2cs_form staker owner La Lb) in Hrun.
  rewrite EvalScript_run, Hrun by (by rewrite (proj2 (GetScript_length staker owner La Lb))).
  rewrite caught_tail. by destruct s as [|pk [|selector s]].
Qed.

Lemma EvalScript_cold_staking_witness :
  let staker := 2 :: replicate 32 7 in
  let owner := 3 :: replicate 32 9 in
  let sig := [48; 6; 2; 1; 1; 2; 1; 1; 1] in
  let script := GetScriptForStakeDelegation (Hash160 staker) (Hash160 owner) in
  @EvalScript (fun _ => true) true sample_checker [staker; [1]; sig] script 0 SIGVERSION_BASE = Ok [[1]] /\
  @EvalScript (fun _ => true) true sample_checker [owner; [1]; sig] script 0 SIGVERSION_BASE
  = Err SCRIPT_ERR_EQUALVERIFY.
Proof.
  intros staker owner sig script.
  assert (bytes_ok (Hash160 staker) /\ bytes_ok (Hash160 owner)) as [H1 H2]
    by (split; refine (bool_decide_eq_true_1 (bytes_ok _) _); vm_compute; reflexivity).
  assert (length (Hash160 staker) = 20%nat /\ length (Hash160 owner) = 20%nat) as [H3 H4]
    by (split; vm_compute; reflexivity).
  assert (Forall elem [staker; [1]; sig] /\ Forall elem [owner; [1]; sig]) as [H5 H6].
  { split; repeat (apply Forall_cons; split);
      try (split; [refine (bool_decide_eq_true_1 (bytes_ok _) _); reflexivity|done]); constructor. }
  split.
  - etransitivity; [apply (EvalScript_cold_staking (fun _ => true) true sample_checker (Hash160 staker) (Hash160 owner)
      [staker; [1]; sig] 0 SIGVERSION_BASE H1 H2 H3 H4 H5); cbn; lia|]. vm_compute. reflexivity.
  - etransitivity; [apply (EvalScript_cold_staking (fun _ => true) true sample_checker (Hash160 staker) (Hash160 owner)
      [owner; [1]; sig] 0 SIGVERSION_BASE H1 H2 H3 H4 H6); cbn; lia|]. vm_compute. reflexivity.
Defined.
