(* ===== verification/Transaction.v ===== *)
(** * Transactions: primitives/transaction.h and .cpp, sapling/sapling_transaction.h

    Outpoints, inputs, outputs, the shielded part and the whole transaction as
    records, each with its [codec] (the fields its [SerializationOp] lists, in
    that order), [SerializeTransaction], [UnserializeTransaction], the
    transaction hash and the methods of [CTransaction].  A [CAmount] is a [Z] in
    the range of int64_t; a sum of amounts that leaves it has no defined result.
    [isTransparent] of an outpoint is true in every [COutPoint] and is left
    out. *)
From S2P Require Import Prelude Serialize HashStream Sha256 Hash Script Interpreter Standard.

Definition COIN : Z := 100000000.
Notation CAmount := Z (only parsing).
Notation uint256 := (list Z) (only parsing).

Definition UINT256_ZERO : uint256 := replicate 32 0.
Definition UINT256_ONE : uint256 := 1 :: replicate 31 0.

(** [::SerializeHash(obj)]: the double SHA-256 of what [obj] writes. *)
Definition SerializeHash {A} (c : codec A) (obj : A) : uint256 := Hash [ser c obj].

(** Hashes of serializations bind what can be read back. *)
Lemma SerializeHash_inj {A} (c : codec A) x y :
  codec_ok c -> wire c x -> wire c y -> SerializeHash c x = SerializeHash c y ->
  x = y \/ hash_collision [[ser c x]; [ser c y]].
Proof.
  unfold SerializeHash. intros Hc Hx Hy He.
  apply hash_collision_pair in He as [E|]; [left|by right].
  cbn [concat] in E. rewrite !app_nil_r in E. exact (codec_inj c x y Hc Hx Hy E).
Qed.

(** ** Data *)

Record COutPoint := OutPoint { out_hash : uint256; out_n : Z }.

Record CTxIn := TxIn { prevout : COutPoint; scriptSig : CScript; nSequence : Z }.

Record CTxOut := TxOut { nValue : CAmount; scriptPubKey : CScript; nRounds : Z }.

Record SpendDescription := SpendDesc {
  cv : uint256; anchor : uint256; nullifier : uint256; rk : uint256;
  zkproof : list Z; spendAuthSig : list Z;
}.

Record OutputDescription := OutputDesc {
  out_cv : uint256; cmu : uint256; ephemeralKey : uint256;
  encCiphertext : list Z; outCiphertext : list Z; out_zkproof : list Z;
}.

Record SaplingTxData := SapData {
  valueBalance : CAmount;
  vShieldedSpend : list SpendDescription;
  vShieldedOutput : list OutputDescription;
  bindingSig : list Z;
}.

Record CTransaction := Transaction {
  nVersion : Z;
  nType : Z;
  vin : list CTxIn;
  vout : list CTxOut;
  nLockTime : Z;
  sapData : option SaplingTxData;
  extraPayload : option (list Z);
}.

#[export] Instance COutPoint_eq_dec : EqDecision COutPoint.
Proof. solve_decision. Defined.
#[export] Instance CTxIn_eq_dec : EqDecision CTxIn.
Proof. solve_decision. Defined.
#[export] Instance CTxOut_eq_dec : EqDecision CTxOut.
Proof. solve_decision. Defined.
#[export] Instance SpendDescription_eq_dec : EqDecision SpendDescription.
Proof. solve_decision. Defined.
#[export] Instance OutputDescription_eq_dec : EqDecision OutputDescription.
Proof. solve_decision. Defined.
#[export] Instance SaplingTxData_eq_dec : EqDecision SaplingTxData.
Proof. solve_decision. Defined.
#[export] Instance CTransaction_eq_dec : EqDecision CTransaction.
Proof. solve_decision. Defined.

#[export] Instance COutPoint_countable : Countable COutPoint.
Proof. apply (inj_countable' (fun o => (out_hash o, out_n o)) (fun p => OutPoint p.1 p.2)). by intros []. Defined.

(** ** Outpoints *)

Definition UINT32_MAX : Z := 0xffffffff.

Definition uint256_IsNull (h : uint256) : bool := forallb (Z.eqb 0) h.

Definition COutPoint_new : COutPoint := OutPoint UINT256_ZERO UINT32_MAX.
Definition COutPoint_IsNull (o : COutPoint) : bool := uint256_IsNull (out_hash o) && (out_n o =? UINT32_MAX).

(** [base_blob::operator<] compares the bytes from the first one. *)
Fixpoint blob_lt (a b : list Z) : bool :=
  match a, b with
  | x :: a, y :: b => (x <? y) || (x =? y) && blob_lt a b
  | _, _ => false
  end.

(** ** Serialization *)

Definition COutPoint_c : codec COutPoint :=
  Codec (fun o => ser (blob_c 32) (out_hash o) ++ ser uint32_c (out_n o))
    (h ← unser (blob_c 32); i ← unser uint32_c; mret (OutPoint h i))
    (fun o => wire (blob_c 32) (out_hash o) /\ wire uint32_c (out_n o)).

Definition CTxIn_c : codec CTxIn :=
  Codec (fun i => ser COutPoint_c (prevout i) ++ ser bytes_c (scriptSig i) ++ ser uint32_c (nSequence i))
    (p ← unser COutPoint_c; s ← unser bytes_c; q ← unser uint32_c; mret (TxIn p s q))
    (fun i => wire COutPoint_c (prevout i) /\ wire bytes_c (scriptSig i) /\ wire uint32_c (nSequence i)).

(** What [CTxOut()] leaves in [nRounds]. *)
Definition NULL_ROUNDS : Z := -10.

Definition CTxOut_new : CTxOut := TxOut (-1) [] NULL_ROUNDS.

(** [nRounds] is not on the wire: an output that was read has the initial value. *)
Definition CTxOut_c : codec CTxOut :=
  Codec (fun o => ser int64_c (nValue o) ++ ser bytes_c (scriptPubKey o))
    (v ← unser int64_c; s ← unser bytes_c; mret (TxOut v s NULL_ROUNDS))
    (fun o => wire int64_c (nValue o) /\ wire bytes_c (scriptPubKey o) /\ nRounds o = NULL_ROUNDS).

Definition GROTH_PROOF_SIZE : nat := 48 + 96 + 48.
Definition SAPLING_ENCCIPHERTEXT_SIZE : nat := 1 + 11 + 8 + 32 + 512 + 16.
Definition SAPLING_OUTCIPHERTEXT_SIZE : nat := 32 + 32 + 16.
Definition SPEND_AUTH_SIG_SIZE : nat := 64.
Definition BINDINGSIG_SIZE : nat := 64.

Definition SpendDescription_c : codec SpendDescription :=
  Codec (fun d => ser (blob_c 32) (cv d) ++ ser (blob_c 32) (anchor d) ++ ser (blob_c 32) (nullifier d) ++
                  ser (blob_c 32) (rk d) ++ ser (blob_c GROTH_PROOF_SIZE) (zkproof d) ++
                  ser (blob_c SPEND_AUTH_SIG_SIZE) (spendAuthSig d))
    (a ← unser (blob_c 32); b ← unser (blob_c 32); c ← unser (blob_c 32); d ← unser (blob_c 32);
     e ← unser (blob_c GROTH_PROOF_SIZE); f ← unser (blob_c SPEND_AUTH_SIG_SIZE);
     mret (SpendDesc a b c d e f))
    (fun d => wire (blob_c 32) (cv d) /\ wire (blob_c 32) (anchor d) /\ wire (blob_c 32) (nullifier d) /\
              wire (blob_c 32) (rk d) /\ wire (blob_c GROTH_PROOF_SIZE) (zkproof d) /\
              wire (blob_c SPEND_AUTH_SIG_SIZE) (spendAuthSig d)).

Definition OutputDescription_c : codec OutputDescription :=
  Codec (fun d => ser (blob_c 32) (out_cv d) ++ ser (blob_c 32) (cmu d) ++ ser (blob_c 32) (ephemeralKey d) ++
                  ser (blob_c SAPLING_ENCCIPHERTEXT_SIZE) (encCiphertext d) ++
                  ser (blob_c SAPLING_OUTCIPHERTEXT_SIZE) (outCiphertext d) ++
                  ser (blob_c GROTH_PROOF_SIZE) (out_zkproof d))
    (a ← unser (blob_c 32); b ← unser (blob_c 32); c ← unser (blob_c 32);
     d ← unser (blob_c SAPLING_ENCCIPHERTEXT_SIZE); e ← unser (blob_c SAPLING_OUTCIPHERTEXT_SIZE);
     f ← unser (blob_c GROTH_PROOF_SIZE);
     mret (OutputDesc a b c d e f))
    (fun d => wire (blob_c 32) (out_cv d) /\ wire (blob_c 32) (cmu d) /\ wire (blob_c 32) (ephemeralKey d) /\
              wire (blob_c SAPLING_ENCCIPHERTEXT_SIZE) (encCiphertext d) /\
              wire (blob_c SAPLING_OUTCIPHERTEXT_SIZE) (outCiphertext d) /\
              wire (blob_c GROTH_PROOF_SIZE) (out_zkproof d)).

Definition SaplingTxData_c : codec SaplingTxData :=
  Codec (fun d => ser int64_c (valueBalance d) ++ ser (vector_c SpendDescription_c) (vShieldedSpend d) ++
                  ser (vector_c OutputDescription_c) (vShieldedOutput d) ++
                  ser (blob_c BINDINGSIG_SIZE) (bindingSig d))
    (a ← unser int64_c; b ← unser (vector_c SpendDescription_c);
     c ← unser (vector_c OutputDescription_c); d ← unser (blob_c BINDINGSIG_SIZE);
     mret (SapData a b c d))
    (fun d => wire int64_c (valueBalance d) /\ wire (vector_c SpendDescription_c) (vShieldedSpend d) /\
              wire (vector_c OutputDescription_c) (vShieldedOutput d) /\
              wire (blob_c BINDINGSIG_SIZE) (bindingSig d)).

Definition LEGACY : Z := 1.
Definition SAPLING : Z := 3.
Definition NORMAL : Z := 0.
Definition CURRENT_VERSION : Z := LEGACY.

Definition SaplingTxData_new : SaplingTxData := SapData 0 [] [] (replicate BINDINGSIG_SIZE 0).

(** [CMutableTransaction()] *)
Definition CMutableTransaction_new : CTransaction :=
  Transaction CURRENT_VERSION NORMAL [] [] 0 (Some SaplingTxData_new) None.

Definition isSaplingVersion (tx : CTransaction) : bool := SAPLING <=? nVersion tx.
Definition IsNormalType (tx : CTransaction) : bool := nType tx =? NORMAL.

Definition SerializeTransaction (tx : CTransaction) : list Z :=
  ser int16_c (nVersion tx) ++ ser int16_c (nType tx) ++ ser (vector_c CTxIn_c) (vin tx) ++
  ser (vector_c CTxOut_c) (vout tx) ++ ser uint32_c (nLockTime tx) ++
  (if isSaplingVersion tx then
     ser (optional_c SaplingTxData_c) (sapData tx) ++
     (if negb (IsNormalType tx) then ser (optional_c bytes_c) (extraPayload tx) else [])
   else []).

(** Reading into the object [tx]: what the stream does not hold keeps its
    former value. *)
Definition UnserializeTransaction (tx : CTransaction) : reader CTransaction :=
  v ← unser int16_c; t ← unser int16_c;
  i ← unser (vector_c CTxIn_c); o ← unser (vector_c CTxOut_c); l ← unser uint32_c;
  let tx := Transaction v t i o l (sapData tx) (extraPayload tx) in
  if isSaplingVersion tx then
    sap ← unser (optional_c SaplingTxData_c);
    let tx := Transaction v t i o l sap (extraPayload tx) in
    if negb (IsNormalType tx) then
      payload ← unser (optional_c bytes_c); mret (Transaction v t i o l sap payload)
    else mret tx
  else mret tx.

(** ** Methods *)

Definition IsFinal (i : CTxIn) : bool := nSequence i =? UINT32_MAX.
Definition CTxIn_IsNull (i : CTxIn) : bool :=
  COutPoint_IsNull (prevout i) && bool_decide (scriptSig i = []) && IsFinal i.
Definition CTxIn_IsZerocoinSpend (i : CTxIn) : bool :=
  uint256_IsNull (out_hash (prevout i)) && IsZerocoinSpend (scriptSig i).
Definition CTxIn_IsZerocoinPublicSpend (i : CTxIn) : bool := IsZerocoinPublicSpend (scriptSig i).

Definition CTxOut_IsNull (o : CTxOut) : bool := nValue o =? -1.
Definition IsEmpty (o : CTxOut) : bool := (nValue o =? 0) && bool_decide (scriptPubKey o = []).
Definition CTxOut_GetHash (o : CTxOut) : uint256 := SerializeHash CTxOut_c o.
Definition CTxOut_IsZerocoinMint (o : CTxOut) : bool := IsZerocoinMint (scriptPubKey o).

Definition GetKeyIDFromUTXO {E} (g_IsV6Active : bool) (o : CTxOut) : outcome E (option (list Z)) :=
  if bool_decide (scriptPubKey o = []) then Ok None else
  r ← Solver g_IsV6Active (scriptPubKey o) TX_NONSTANDARD [];
  let '(ok, whichType, vSolutions) := r in
  if negb ok then Ok None else
  match whichType with
  | TX_PUBKEY => v ← rd vSolutions 0; Ok (Some (GetID (CPubKey v)))
  | TX_PUBKEYHASH | TX_COLDSTAKE => h ← solution160 vSolutions 0; Ok (Some h)
  | _ => Ok None
  end.

(** The codec of a fresh [CMutableTransaction], and so of a [CTransaction].  A
    transaction that is not of the Sapling format carries neither shielded data
    nor a payload: on the wire it stands for the initial values. *)
Definition transaction_c : codec CTransaction :=
  Codec SerializeTransaction (UnserializeTransaction CMutableTransaction_new)
    (fun tx => wire int16_c (nVersion tx) /\ wire int16_c (nType tx) /\ wire (vector_c CTxIn_c) (vin tx) /\
       wire (vector_c CTxOut_c) (vout tx) /\ wire uint32_c (nLockTime tx) /\
       wire (optional_c SaplingTxData_c) (sapData tx) /\ wire (optional_c bytes_c) (extraPayload tx) /\
       (isSaplingVersion tx = false -> sapData tx = Some SaplingTxData_new) /\
       (isSaplingVersion tx && negb (IsNormalType tx) = false -> extraPayload tx = None)).

(** [CTransaction::ComputeHash], the value [GetHash] returns. *)
Definition GetHash (tx : CTransaction) : uint256 := SerializeHash transaction_c tx.
Definition GetTotalSize (tx : CTransaction) : Z := u32 (zlen (SerializeTransaction tx)).

Definition CTransaction_IsNull (tx : CTransaction) : bool :=
  bool_decide (vin tx = []) && bool_decide (vout tx = []).

Definition hasBindingSig (d : SaplingTxData) : bool := existsb (fun c => negb (c =? 0)) (bindingSig d).

Definition hasSaplingData (tx : CTransaction) : bool :=
  match sapData tx with
  | None => false
  | Some d => negb (bool_decide (vShieldedOutput d = [])) || negb (bool_decide (vShieldedSpend d = []))
              || negb (valueBalance d =? 0) || hasBindingSig d
  end.

Definition IsShieldedTx (tx : CTransaction) : bool := isSaplingVersion tx && hasSaplingData tx.
Definition hasExtraPayload (tx : CTransaction) : bool :=
  match extraPayload tx with None => false | Some p => negb (bool_decide (p = [])) end.
Definition IsSpecialTx (tx : CTransaction) : bool :=
  isSaplingVersion tx && negb (nType tx =? NORMAL) && hasExtraPayload tx.
Definition GetRequiredSigVersion (tx : CTransaction) : SigVersion :=
  if isSaplingVersion tx then SIGVERSION_SAPLING else SIGVERSION_BASE.

Definition HasZerocoinSpendInputs (tx : CTransaction) : bool :=
  existsb (fun txin => CTxIn_IsZerocoinSpend txin || CTxIn_IsZerocoinPublicSpend txin) (vin tx).
Definition HasZerocoinMintOutputs (tx : CTransaction) : bool := existsb CTxOut_IsZerocoinMint (vout tx).
Definition HasZerocoinPublicSpendInputs (tx : CTransaction) : bool :=
  existsb CTxIn_IsZerocoinPublicSpend (vin tx).
Definition ContainsZerocoins (tx : CTransaction) : bool :=
  HasZerocoinSpendInputs tx || HasZerocoinMintOutputs tx.

Definition IsCoinBase (tx : CTransaction) : bool :=
  match vin tx with
  | [i] => COutPoint_IsNull (prevout i) && negb (ContainsZerocoins tx)
  | _ => false
  end.

Definition IsCoinStake (tx : CTransaction) : bool :=
  match vin tx with
  | [] => false
  | i :: _ =>
      let fAllowNull := CTxIn_IsZerocoinSpend i in
      if COutPoint_IsNull (prevout i) && negb fAllowNull then false
      else match vout tx with o0 :: _ :: _ => IsEmpty o0 | _ => false end
  end.

Definition HasP2CSOutputs (g_IsV6Active : bool) (tx : CTransaction) : bool :=
  existsb (fun o => IsPayToColdStaking g_IsV6Active (scriptPubKey o)) (vout tx).

(** The loop of [GetValueOut]: [nValueOut + it->nValue] is a signed sum. *)
Fixpoint value_out_loop {E} (outs : list CTxOut) (nValueOut : CAmount) : outcome E CAmount :=
  match outs with
  | [] => Ok nValueOut
  | o :: outs =>
      if nValue o <? 0 then Throw else
      sum ← int64_result (nValueOut + nValue o);
      if sum <? nValueOut then Throw else
      nValueOut ← int64_result (nValueOut + nValue o);
      value_out_loop outs nValueOut
  end.

Definition GetValueOut {E} (tx : CTransaction) : outcome E CAmount :=
  nValueOut ← value_out_loop (vout tx) 0;
  match sapData tx with
  | Some d =>
      if hasSaplingData tx && (valueBalance d <? 0) then
        minus ← int64_result (- valueBalance d);
        nValueOut ← int64_result (nValueOut + minus);
        if negb (isSaplingVersion tx) then Throw else Ok nValueOut
      else Ok nValueOut
  | None => Ok nValueOut
  end.

Definition GetShieldedValueIn {E} (tx : CTransaction) : outcome E CAmount :=
  match sapData tx with
  | Some d =>
      if hasSaplingData tx && (0 <? valueBalance d) then
        if negb (isSaplingVersion tx) then Throw else Ok (0 + valueBalance d)
      else Ok 0
  | None => Ok 0
  end.

Fixpoint zerocoin_spent_loop {E} (ins : list CTxIn) (nValueOut : CAmount) : outcome E CAmount :=
  match ins with
  | [] => Ok nValueOut
  | txin :: ins =>
      if negb (CTxIn_IsZerocoinSpend txin) then zerocoin_spent_loop ins nValueOut else
      v ← int64_result (nSequence txin * COIN);
      nValueOut ← int64_result (nValueOut + v);
      zerocoin_spent_loop ins nValueOut
  end.
Definition GetZerocoinSpent {E} (tx : CTransaction) : outcome E CAmount := zerocoin_spent_loop (vin tx) 0.

(** [nTxSize] is an unsigned int; 0 asks for the size of the transaction. *)
Definition CalculateModifiedSize (tx : CTransaction) (nTxSize : Z) : Z :=
  let nTxSize := if nTxSize =? 0 then GetTotalSize tx else nTxSize in
  fold_left (fun nTxSize i =>
    let offset := 41 + Z.min 110 (u32 (zlen (scriptSig i))) in
    if offset <? nTxSize then nTxSize - offset else nTxSize) (vin tx) nTxSize.

(** ** Round trips *)

(** A codec [c] whose writer and reader go through the same fields in order. *)
Ltac fields_ok c :=
  intros x r H; destruct x;
  cbn [wire c out_hash out_n prevout scriptSig nSequence nValue scriptPubKey nRounds cv anchor nullifier rk
       zkproof spendAuthSig out_cv cmu ephemeralKey encCiphertext outCiphertext out_zkproof valueBalance
       vShieldedSpend vShieldedOutput bindingSig] in H;
  decompose [and] H; subst;
  cbn [ser unser c out_hash out_n prevout scriptSig nSequence nValue scriptPubKey nRounds cv anchor nullifier rk
       zkproof spendAuthSig out_cv cmu ephemeralKey encCiphertext outCiphertext out_zkproof valueBalance
       vShieldedSpend vShieldedOutput bindingSig];
  rewrite <- ?app_assoc; rewrite !unser_step by first [solve [auto with codec] | done]; reflexivity.

Lemma COutPoint_ok : codec_ok COutPoint_c.
Proof. fields_ok COutPoint_c. Qed.
#[export] Hint Resolve COutPoint_ok : codec.
Lemma CTxIn_ok : codec_ok CTxIn_c.
Proof. fields_ok CTxIn_c. Qed.
Lemma CTxOut_ok : codec_ok CTxOut_c.
Proof. fields_ok CTxOut_c. Qed.
Lemma SpendDescription_ok : codec_ok SpendDescription_c.
Proof. fields_ok SpendDescription_c. Qed.
Lemma OutputDescription_ok : codec_ok OutputDescription_c.
Proof. fields_ok OutputDescription_c. Qed.
#[export] Hint Resolve CTxIn_ok CTxOut_ok SpendDescription_ok OutputDescription_ok : codec.
Lemma SaplingTxData_ok : codec_ok SaplingTxData_c.
Proof. fields_ok SaplingTxData_c. Qed.
#[export] Hint Resolve SaplingTxData_ok : codec.

(** What reading the bytes of [tx] leaves in an object that held [tx0]. *)
Definition received (tx0 tx : CTransaction) : CTransaction :=
  Transaction (nVersion tx) (nType tx) (vin tx) (vout tx) (nLockTime tx)
    (if isSaplingVersion tx then sapData tx else sapData tx0)
    (if isSaplingVersion tx && negb (IsNormalType tx) then extraPayload tx else extraPayload tx0).

(** The fields of [tx] that are written can be. *)
Definition fields_wire (tx : CTransaction) : Prop :=
  wire int16_c (nVersion tx) /\ wire int16_c (nType tx) /\ wire (vector_c CTxIn_c) (vin tx) /\
  wire (vector_c CTxOut_c) (vout tx) /\ wire uint32_c (nLockTime tx) /\
  wire (optional_c SaplingTxData_c) (sapData tx) /\ wire (optional_c bytes_c) (extraPayload tx).

Lemma Unserialize_received tx0 tx rest :
  fields_wire tx -> UnserializeTransaction tx0 (SerializeTransaction tx ++ rest) = Ok (received tx0 tx, rest).
Proof.
  intros (Hv & Ht & Hi & Ho & Hl & Hs & Hp). destruct tx as [v t i o l sap pay].
  unfold UnserializeTransaction, SerializeTransaction, received, isSaplingVersion, IsNormalType.
  cbn [nVersion nType vin vout nLockTime sapData extraPayload] in *. rewrite <- !app_assoc.
  rewrite !unser_step by first [solve [auto with codec] | done].
  destruct (SAPLING <=? v); [|reflexivity]. rewrite <- !app_assoc.
  rewrite unser_step by first [solve [auto with codec] | done].
  destruct (negb (t =? NORMAL)); [|reflexivity].
  by rewrite unser_step by first [solve [auto with codec] | done].
Qed.

Lemma transaction_ok : codec_ok transaction_c.
Proof.
  intros tx rest (Hv & Ht & Hi & Ho & Hl & Hs & Hp & Hsap & Hpay). cbn [ser unser transaction_c].
  rewrite Unserialize_received by done. f_equal. f_equal.
  destruct tx as [v t i o l sap pay]. unfold received.
  cbn [nVersion nType vin vout nLockTime sapData extraPayload] in *.
  f_equal; [destruct (isSaplingVersion _); [done|by rewrite Hsap]|].
  destruct (isSaplingVersion _ && _); [done|by rewrite Hpay].
Qed.
#[export] Hint Resolve transaction_ok : codec.

(** C31: a transaction read from the bytes of another one has all its fields,
    and the reader stops where they end, for shielded and special transactions
    as for the others.  What is not on the wire is left as it was in the object:
    a fresh object gets the transaction itself, but one that is used again keeps
    the shielded data and the payload of the former transaction when the new
    one is of the old format. *)
Theorem transaction_roundtrip (tx0 tx : CTransaction) (rest : list Z) :
  fields_wire tx ->
  UnserializeTransaction tx0 (SerializeTransaction tx ++ rest) = Ok (received tx0 tx, rest) /\
  (wire transaction_c tx -> received CMutableTransaction_new tx = tx) /\
  (isSaplingVersion tx = false -> sapData (received tx0 tx) = sapData tx0).
Proof.
  intros Hf. split; [by apply Unserialize_received|split].
  - intros Hw. pose proof (transaction_ok tx [] Hw) as H.
    change (unser transaction_c) with (UnserializeTransaction CMutableTransaction_new) in H.
    cbn [ser transaction_c] in H. rewrite Unserialize_received in H by done. congruence.
  - unfold received. cbn [sapData]. by intros ->.
Qed.

(** A shielded transaction with a payload, for the examples. *)
Definition sample_tx : CTransaction :=
  Transaction 3 1 [TxIn (OutPoint (replicate 32 7) 1) [OP_1] 5] [TxOut 10 [OP_DUP] NULL_ROUNDS] 99
    (Some (SapData (-3) [] [] (replicate 64 1))) (Some [1; 2; 3]).

Lemma transaction_roundtrip_witness :
  UnserializeTransaction CMutableTransaction_new (SerializeTransaction sample_tx ++ [42]) = Ok (sample_tx, [42]).
Proof.
  assert (fields_wire sample_tx /\ wire transaction_c sample_tx) as [H1 H2].
  { unfold fields_wire, MAX_SIZE; cbn; unfold in_s, in_u, MAX_SIZE.
    split_and!; repeat (constructor || lia); cbn; unfold MAX_SIZE; intros; try done; lia. }
  destruct (transaction_roundtrip CMutableTransaction_new sample_tx [42] H1) as (H & H3 & _).
  by rewrite H, H3.
Defined.

(** ** The value of the outputs *)

Definition sum_values (outs : list CTxOut) : Z := fold_right (fun o s => nValue o + s) 0 outs.

(** What the shielded part takes from the transparent pool. *)
Definition shielded_out (tx : CTransaction) : Z :=
  match sapData tx with
  | Some d => if hasSaplingData tx && (valueBalance d <? 0) then - valueBalance d else 0
  | None => 0
  end.

Lemma int64_result_Ok {E} x y : int64_result (E := E) x = Ok y <-> x = y /\ in_s 64 x.
Proof. unfold int64_result. destruct (decide (in_s 64 x)); split; intros; inv_ok; try split; congruence || done. Qed.

Lemma int64_nonneg {E} x : 0 <= x -> int64_result (E := E) x = if x <=? INT64_MAX then Ok x else Abort.
Proof.
  intros Hx. unfold int64_result, in_s, INT64_MAX. change (2 ^ (64 - 1)) with (2 ^ 63).
  destruct (decide _), (Z.leb_spec x (2 ^ 63 - 1)); try done; lia.
Qed.

Lemma sum_values_nonneg outs : Forall (fun o => 0 <= nValue o) outs -> 0 <= sum_values outs.
Proof. unfold sum_values. induction 1; cbn [fold_right]; lia. Qed.

(** The loop on outputs none of which is negative. *)
Lemma value_out_nonneg {E} outs : forall acc,
  Forall (fun o => 0 <= nValue o) outs -> 0 <= acc <= INT64_MAX ->
  value_out_loop (E := E) outs acc
  = if acc + sum_values outs <=? INT64_MAX then Ok (acc + sum_values outs) else Abort.
Proof.
  induction outs as [|o outs IH]; intros acc Hnn Hacc.
  { cbn. rewrite Z.add_0_r. by destruct (Z.leb_spec acc INT64_MAX); [|lia]. }
  apply Forall_cons in Hnn as [Ho Hnn]. cbn [value_out_loop sum_values fold_right]. fold (sum_values outs).
  destruct (Z.ltb_spec (nValue o) 0); [lia|]. rewrite int64_nonneg by lia.
  pose proof (sum_values_nonneg _ Hnn).
  destruct (Z.leb_spec (acc + nValue o) INT64_MAX).
  - cbn [mbind outcome_bind]. destruct (Z.ltb_spec (acc + nValue o) acc); [lia|].
    rewrite IH by (done || lia). by rewrite Z.add_assoc.
  - cbn [mbind outcome_bind]. by destruct (Z.leb_spec (acc + (nValue o + sum_values outs)) INT64_MAX); [lia|].
Qed.

(** It never returns past a negative output. *)
Lemma value_out_negative {E} outs : forall acc v, value_out_loop (E := E) outs acc = Ok v -> Forall (fun o => 0 <= nValue o) outs.
Proof.
  induction outs as [|o outs IH]; intros acc v H; [constructor|]. cbn [value_out_loop] in H.
  destruct (Z.ltb_spec (nValue o) 0); [discriminate|].
  destruct (int64_result (acc + nValue o)) as [s| | |]; try discriminate. cbn [mbind outcome_bind] in H.
  destruct (s <? acc); [discriminate|]. constructor; [done|by eapply IH].
Qed.

Lemma shielded_out_nonneg tx : 0 <= shielded_out tx.
Proof.
  unfold shielded_out. destruct (sapData tx) as [d|]; [|lia].
  destruct (hasSaplingData tx); [|cbn; lia]. cbn [andb]. destruct (Z.ltb_spec (valueBalance d) 0); lia.
Qed.

Lemma GetValueOut_nonneg {E} tx v :
  Forall (fun o => 0 <= nValue o) (vout tx) ->
  GetValueOut (E := E) tx = Ok v <->
  v = sum_values (vout tx) + shielded_out tx /\ v <= INT64_MAX /\ (0 < shielded_out tx -> isSaplingVersion tx = true).
Proof.
  intros Hnn. pose proof (sum_values_nonneg _ Hnn). assert (INT64_MAX = 2 ^ 63 - 1) as HM by done.
  pose proof (shielded_out_nonneg tx) as Hsh. unfold GetValueOut, shielded_out in *.
  rewrite value_out_nonneg by (done || lia). rewrite Z.add_0_l.
  destruct (Z.leb_spec (sum_values (vout tx)) INT64_MAX); cbn [mbind outcome_bind]; [|split; [discriminate|lia]].
  assert (Ok (E := E) (sum_values (vout tx)) = Ok v <-> v = sum_values (vout tx) + 0 /\ v <= INT64_MAX /\
    (0 < 0 -> isSaplingVersion tx = true)) as Hplain
    by (split; [intros [= <-]; split_and!; lia|intros (-> & _); f_equal; lia]).
  destruct (sapData tx) as [d|]; [|done].
  destruct (hasSaplingData tx && (valueBalance d <? 0)) eqn:Ec; [|done].
  bool_to_prop. rewrite int64_nonneg by lia.
  destruct (Z.leb_spec (- valueBalance d) INT64_MAX); cbn [mbind outcome_bind]; [|split; [discriminate|lia]].
  rewrite int64_nonneg by lia.
  destruct (Z.leb_spec (sum_values (vout tx) + - valueBalance d) INT64_MAX); cbn [mbind outcome_bind];
    [|split; [discriminate|lia]].
  destruct (isSaplingVersion tx); cbn [negb]; [split; [by intros [= <-]|by intros (-> & _)]|].
  split; [discriminate|]. intros (_ & _ & Hf). discriminate (Hf ltac:(lia)).
Qed.

(** [GetValueOut] returns exactly when no output is negative, the sum of
    the outputs and of what goes to the shielded pool fits int64_t, and a
    transaction that feeds the pool is of the Sapling format; it returns that
    sum.  When the outputs are not negative but their sum is too large the
    behaviour is undefined: the test that should throw then compares a sum that
    has overflowed. *)
Theorem GetValueOut_sum (tx : CTransaction) (v : CAmount) :
  (GetValueOut (E := unit) tx = Ok v <->
   Forall (fun o => 0 <= nValue o) (vout tx) /\ v = sum_values (vout tx) + shielded_out tx /\ v <= INT64_MAX /\
   (0 < shielded_out tx -> isSaplingVersion tx = true)) /\
  (Forall (fun o => 0 <= nValue o) (vout tx) -> INT64_MAX < sum_values (vout tx) ->
   GetValueOut (E := unit) tx = Abort).
Proof.
  split; [split|].
  - intros H. assert (Forall (fun o => 0 <= nValue o) (vout tx)) as Hnn.
    { unfold GetValueOut in H. destruct (value_out_loop (vout tx) 0) as [s| | |] eqn:E; try discriminate.
      by eapply value_out_negative. }
    split; [done|by apply (GetValueOut_nonneg (E := unit))].
  - intros (Hnn & Hrest). by apply (GetValueOut_nonneg (E := unit)).
  - intros Hnn Hbig. unfold GetValueOut. rewrite value_out_nonneg by (done || (unfold INT64_MAX; lia)).
    rewrite Z.add_0_l. by destruct (Z.leb_spec (sum_values (vout tx)) INT64_MAX); [lia|].
Qed.

Lemma GetValueOut_sum_witness :
  GetValueOut (E := unit) sample_tx = Ok 13 /\
  GetValueOut (E := unit) (Transaction 1 0 [] [TxOut (2 ^ 62) [] NULL_ROUNDS; TxOut (2 ^ 62) [] NULL_ROUNDS] 0 None None)
  = Abort.
Proof.
  split.
  - apply (GetValueOut_sum sample_tx).
    split; [repeat constructor; cbn; lia|]. split; [reflexivity|]. split; [vm_compute; discriminate|reflexivity].
  - apply (GetValueOut_sum (Transaction 1 0 [] [TxOut (2 ^ 62) [] NULL_ROUNDS; TxOut (2 ^ 62) [] NULL_ROUNDS] 0 None None) 0);
      [repeat constructor; cbn; lia|reflexivity].
Defined.
