(* ===== verification/Sighash.v ===== *)
(** * Signature hashes: script/interpreter.cpp

    What a signature signs: [CTransactionSignatureSerializer], the hashes of the
    parts of a Sapling transaction, [SignatureHash], and
    [TransactionSignatureChecker], the checker [EvalScript] runs with.
    [generichash personal data] is BLAKE2b-256 with a personalization
    (libsodium), [Verify] the verification of a signature (libsecp256k1).

    [SignatureHash] copies 12 bytes of the literal "DEVSigHash", which has 11
    with its final zero: [stray] is the byte that happens to follow it. *)
From S2P Require Import Prelude Serialize HashStream Sha256 Hash Script Interpreter Standard Transaction.

Definition NOT_AN_INPUT : Z := 0xffffffff.

Definition chars (s : string) : list Z := map (fun c => Z.of_nat (Ascii.nat_of_ascii c)) (String.list_ascii_of_string s).

(** An array of 16 bytes with the given first ones. *)
Definition personal (s : string) : list Z := take 16 (chars s ++ replicate 16 0).

Definition DEV_PREVOUTS_HASH_PERSONALIZATION : list Z := personal "PIVXPrevoutHash".
Definition DEV_SEQUENCE_HASH_PERSONALIZATION : list Z := personal "PIVXSequencHash".
Definition DEV_OUTPUTS_HASH_PERSONALIZATION : list Z := personal "PIVXOutputsHash".
Definition DEV_SHIELDED_SPENDS_HASH_PERSONALIZATION : list Z := personal "PIVXSSpendsHash".
Definition DEV_SHIELDED_OUTPUTS_HASH_PERSONALIZATION : list Z := personal "PIVXSOutputHash".

(** ** The serialization of the transaction being signed *)

(** The first loop of [SerializeScriptCode]: the number of separators. *)
Fixpoint count_separators (fuel : nat) (it : CScript) (nCodeSeparators : Z) : Z :=
  match fuel with
  | O => nCodeSeparators
  | S fuel =>
      let g := GetOp it in
      if ret g then
        count_separators fuel (pcRet g)
          (if opcodeRet g =? OP_CODESEPARATOR then nCodeSeparators + 1 else nCodeSeparators)
      else nCodeSeparators
  end.

(** The second loop and the last write: what is written. *)
Fixpoint write_parts (fuel : nat) (it itBegin : CScript) : list Z :=
  match fuel with
  | O => []
  | S fuel =>
      let g := GetOp it in
      let it := pcRet g in
      if ret g then
        if opcodeRet g =? OP_CODESEPARATOR
        then take (length itBegin - length it - 1) itBegin ++ write_parts fuel it it
        else write_parts fuel it itBegin
      else if bool_decide (itBegin = []) then [] else take (length itBegin - length it) itBegin
  end.

Definition SerializeScriptCode (scriptCode : CScript) : list Z :=
  let nCodeSeparators := count_separators (length scriptCode) scriptCode 0 in
  WriteCompactSize (zlen scriptCode - nCodeSeparators) ++ write_parts (S (length scriptCode)) scriptCode scriptCode.

Section Serializer.
Context (txTo : CTransaction) (scriptCode : CScript) (nIn nHashType : Z).

Definition fAnyoneCanPay : bool := flag nHashType SIGHASH_ANYONECANPAY.
Definition fHashSingle : bool := Z.land nHashType 0x1f =? SIGHASH_SINGLE.
Definition fHashNone : bool := Z.land nHashType 0x1f =? SIGHASH_NONE.

Definition SerializeInput {E} (nInput : Z) : outcome E (list Z) :=
  let nInput := if fAnyoneCanPay then nIn else nInput in
  txin ← rd (vin txTo) nInput;
  cassert (negb (nInput =? NOT_AN_INPUT));;
  Ok (ser COutPoint_c (prevout txin) ++
      (if negb (nInput =? nIn) then ser bytes_c [] else SerializeScriptCode scriptCode) ++
      (if negb (nInput =? nIn) && (fHashSingle || fHashNone) then ser int32_c 0
       else ser uint32_c (nSequence txin))).

Definition SerializeOutput {E} (nOutput : Z) : outcome E (list Z) :=
  if fHashSingle && negb (nOutput =? nIn) then Ok (ser CTxOut_c CTxOut_new)
  else txout ← rd (vout txTo) nOutput; Ok (ser CTxOut_c txout).

(** [for (unsigned int k = 0; k < count; k++) write(k)], from [k]. *)
Fixpoint write_each {E} (write : Z -> outcome E (list Z)) (count : nat) (k : Z) : outcome E (list Z) :=
  match count with
  | O => Ok []
  | S count => a ← write k; b ← write_each write count (k + 1); Ok (a ++ b)
  end.

Definition SignatureSerialize {E} : outcome E (list Z) :=
  let nInputs := if fAnyoneCanPay then 1 else u32 (zlen (vin txTo)) in
  ins ← write_each SerializeInput (Z.to_nat nInputs) 0;
  let nOutputs := if fHashNone then 0 else if fHashSingle then u32 (nIn + 1) else u32 (zlen (vout txTo)) in
  outs ← write_each SerializeOutput (Z.to_nat nOutputs) 0;
  Ok (ser int16_c (nVersion txTo) ++ ser int16_c (nType txTo) ++ WriteCompactSize nInputs ++ ins ++
      WriteCompactSize nOutputs ++ outs ++ ser uint32_c (nLockTime txTo)).
End Serializer.

Record PrecomputedTransactionData := Precomputed {
  hashPrevouts : uint256; hashSequence : uint256; hashOutputs : uint256;
  hashShieldedSpends : uint256; hashShieldedOutputs : uint256;
}.

Section Hashes.
Context (generichash : list Z -> list Z -> uint256) (stray : Z).

Definition GetPrevoutHash (txTo : CTransaction) : uint256 :=
  generichash DEV_PREVOUTS_HASH_PERSONALIZATION (concat (map (fun i => ser COutPoint_c (prevout i)) (vin txTo))).
Definition GetSequenceHash (txTo : CTransaction) : uint256 :=
  generichash DEV_SEQUENCE_HASH_PERSONALIZATION (concat (map (fun i => ser uint32_c (nSequence i)) (vin txTo))).
Definition GetOutputsHash (txTo : CTransaction) : uint256 :=
  generichash DEV_OUTPUTS_HASH_PERSONALIZATION (concat (map (ser CTxOut_c) (vout txTo))).

(** A spend description without its signature. *)
Definition signed_spend (d : SpendDescription) : list Z :=
  ser (blob_c 32) (cv d) ++ ser (blob_c 32) (anchor d) ++ ser (blob_c 32) (nullifier d) ++
  ser (blob_c 32) (rk d) ++ ser (blob_c GROTH_PROOF_SIZE) (zkproof d).

Definition GetShieldedSpendsHash {E} (txTo : CTransaction) : outcome E uint256 :=
  match sapData txTo with
  | None => Abort
  | Some d => Ok (generichash DEV_SHIELDED_SPENDS_HASH_PERSONALIZATION (concat (map signed_spend (vShieldedSpend d))))
  end.
Definition GetShieldedOutputsHash {E} (txTo : CTransaction) : outcome E uint256 :=
  match sapData txTo with
  | None => Abort
  | Some d => Ok (generichash DEV_SHIELDED_OUTPUTS_HASH_PERSONALIZATION
                    (concat (map (ser OutputDescription_c) (vShieldedOutput d))))
  end.

Definition PrecomputedTransactionData_new {E} (txTo : CTransaction) : outcome E PrecomputedTransactionData :=
  match sapData txTo with
  | Some _ =>
      s ← GetShieldedSpendsHash txTo; o ← GetShieldedOutputsHash txTo;
      Ok (Precomputed (GetPrevoutHash txTo) (GetSequenceHash txTo) (GetOutputsHash txTo) s o)
  | None =>
      Ok (Precomputed (GetPrevoutHash txTo) (GetSequenceHash txTo) (GetOutputsHash txTo) UINT256_ZERO UINT256_ZERO)
  end.

(** [cache ? cache->field : compute] *)
Definition cached {A} (cache : option PrecomputedTransactionData) (field : PrecomputedTransactionData -> A) (compute : A) : A :=
  match cache with Some c => field c | None => compute end.

Definition sighash_personalization : list Z := chars "DEVSigHash" ++ [0; stray] ++ ser uint32_c 0.

(** What is hashed for the Sapling format. *)
Definition sapling_preimage {E} (scriptCode : CScript) (txTo : CTransaction) (nIn nHashType : Z) (amount : CAmount)
    (cache : option PrecomputedTransactionData) : outcome E (list Z) :=
  let anyone := fAnyoneCanPay nHashType in
  let single := fHashSingle nHashType in
  let none := fHashNone nHashType in
  let prevouts := if negb anyone then cached cache hashPrevouts (GetPrevoutHash txTo) else UINT256_ZERO in
  let sequence := if negb anyone && negb single && negb none
                  then cached cache hashSequence (GetSequenceHash txTo) else UINT256_ZERO in
  outputs ← (if negb single && negb none then Ok (cached cache hashOutputs (GetOutputsHash txTo))
             else if single && (nIn <? zlen (vout txTo)) then
               o ← rd (vout txTo) nIn; Ok (generichash DEV_OUTPUTS_HASH_PERSONALIZATION (ser CTxOut_c o))
             else Ok UINT256_ZERO);
  spends ← (match sapData txTo with
            | Some d => if negb (bool_decide (vShieldedSpend d = []))
                        then cached cache (fun c => Ok (hashShieldedSpends c)) (GetShieldedSpendsHash txTo)
                        else Ok UINT256_ZERO
            | None => Ok UINT256_ZERO
            end);
  outs ← (match sapData txTo with
          | Some d => if negb (bool_decide (vShieldedOutput d = []))
                      then cached cache (fun c => Ok (hashShieldedOutputs c)) (GetShieldedOutputsHash txTo)
                      else Ok UINT256_ZERO
          | None => Ok UINT256_ZERO
          end);
  let sap := match sapData txTo with
             | Some d => if negb (bool_decide (vShieldedSpend d = [])) || negb (bool_decide (vShieldedOutput d = []))
                         then spends ++ outs ++ ser int64_c (valueBalance d) else []
             | None => []
             end in
  input ← (if negb (nIn =? NOT_AN_INPUT) then
             i ← rd (vin txTo) nIn;
             Ok (ser COutPoint_c (prevout i) ++ ser bytes_c scriptCode ++ ser int64_c amount ++ ser uint32_c (nSequence i))
           else Ok []);
  let payload := match extraPayload txTo with
                 | Some p => if IsSpecialTx txTo then ser bytes_c p else []
                 | None => []
                 end in
  Ok (ser int16_c (nVersion txTo) ++ ser int16_c (nType txTo) ++ prevouts ++ sequence ++ outputs ++ sap ++
      input ++ payload ++ ser uint32_c (nLockTime txTo) ++ ser int32_c nHashType).

Definition SignatureHash {E} (scriptCode : CScript) (txTo : CTransaction) (nIn nHashType : Z) (amount : CAmount)
    (sigversion : SigVersion) (cache : option PrecomputedTransactionData) : outcome E uint256 :=
  if (zlen (vin txTo) <=? nIn) && negb (nIn =? NOT_AN_INPUT) then Ok UINT256_ONE else
  match sigversion with
  | SIGVERSION_SAPLING =>
      data ← sapling_preimage scriptCode txTo nIn nHashType amount cache;
      Ok (generichash sighash_personalization data)
  | SIGVERSION_BASE =>
      if isSaplingVersion txTo then Throw else
      if fHashSingle nHashType && (zlen (vout txTo) <=? nIn) then Ok UINT256_ONE else
      data ← SignatureSerialize txTo scriptCode nIn nHashType;
      Ok (Hash [data; ser int32_c nHashType])
  end.

(** ** TransactionSignatureChecker *)

Context (Verify : valtype -> uint256 -> valtype -> bool).
Context (txTo : CTransaction) (nIn : Z) (amount : CAmount) (precomTxData : option PrecomputedTransactionData).

Definition VerifySignature (vchSig : valtype) (pubkey : valtype) (sighash : uint256) : bool :=
  Verify pubkey sighash vchSig.

Definition tx_CheckSig (vchSigIn vchPubKey : valtype) (scriptCode : CScript) (sigversion : SigVersion) : sc bool :=
  let pubkey := CPubKey vchPubKey in
  if negb (PubKey_IsValid pubkey) then Ok false else
  match last vchSigIn with
  | None => Ok false
  | Some nHashType =>
      let vchSig := removelast vchSigIn in
      sighash ← SignatureHash scriptCode txTo nIn nHashType amount sigversion precomTxData;
      Ok (VerifySignature vchSig pubkey sighash)
  end.

Definition tx_CheckLockTime (lock : CScriptNum) : sc bool :=
  if negb ((nLockTime txTo <? LOCKTIME_THRESHOLD) && (lock <? LOCKTIME_THRESHOLD) ||
           (LOCKTIME_THRESHOLD <=? nLockTime txTo) && (LOCKTIME_THRESHOLD <=? lock)) then Ok false
  else if nLockTime txTo <? lock then Ok false
  else i ← rd (vin txTo) nIn; Ok (negb (IsFinal i)).

(** The loop over the outputs from the second one, number [i]; [outs] is the
    number of outputs. *)
Fixpoint cold_stake_loop (prevoutScript : CScript) (outs i : Z) (l : list CTxOut) (outValue : CAmount) : sc (option CAmount) :=
  match l with
  | [] => Ok (Some outValue)
  | o :: l =>
      if negb (bool_decide (scriptPubKey o = prevoutScript)) then
        if negb (i =? outs - 1) || (outs <? 3) then Ok None
        else cold_stake_loop prevoutScript outs (i + 1) l outValue
      else
        outValue ← int64_result (outValue + nValue o);
        cold_stake_loop prevoutScript outs (i + 1) l outValue
  end.

Definition tx_CheckColdStake (prevoutScript : CScript) : sc bool :=
  if negb (IsCoinStake txTo) then Ok false else
  if negb (zlen (vin txTo) =? 1) then Ok false else
  let outs := zlen (vout txTo) in
  cassert (2 <=? outs);;
  r ← cold_stake_loop prevoutScript outs 1 (drop 1 (vout txTo)) 0;
  match r with
  | None => Ok false
  | Some outValue => Ok (amount <? outValue)
  end.

Definition TransactionSignatureChecker : BaseSignatureChecker := {|
  CheckSig := tx_CheckSig;
  CheckLockTime := tx_CheckLockTime;
  CheckColdStake := tx_CheckColdStake;
|}.
End Hashes.

(** ** Scripts as sequences of instructions *)

(** [s] is the instructions [l], and all of it can be read. *)
Inductive parsed : CScript -> list CScript -> Prop :=
| parsed_nil : parsed [] []
| parsed_cons ins rest l :
    ret (GetOp (ins ++ rest)) = true -> pcRet (GetOp (ins ++ rest)) = rest -> parsed rest l ->
    parsed (ins ++ rest) (ins :: l).

Definition is_separator (ins : CScript) : Prop := ins = [OP_CODESEPARATOR].
#[export] Instance is_separator_dec ins : Decision (is_separator ins).
Proof. unfold is_separator. apply _. Defined.

Definition without_separators (l : list CScript) : CScript := concat (filter (fun ins => ~ is_separator ins) l).

Lemma GetOp_op op rest : OP_PUSHDATA4 < op -> GetOp (op :: rest) = GetOpResult true op [] rest.
Proof. intros H. cbn. by destruct (Z.leb_spec op OP_PUSHDATA4); [lia|]. Qed.

(** The first instruction: a separator is one byte, and the opcode tells. *)
Lemma first_instruction ins rest :
  bytes_ok (ins ++ rest) -> ret (GetOp (ins ++ rest)) = true -> pcRet (GetOp (ins ++ rest)) = rest ->
  (1 <= length ins)%nat /\ (opcodeRet (GetOp (ins ++ rest)) = OP_CODESEPARATOR <-> is_separator ins) /\
  is_prefix [OP_CODESEPARATOR] (ins ++ rest) = bool_decide (is_separator ins).
Proof.
  intros Hb Hr Hpc. destruct (GetOp_suffix _ Hb) as (used & Hu & Hop & _).
  rewrite Hpc in Hu. apply app_inv_tail in Hu as <-. destruct (Hop Hr) as [Hne Hhd].
  destruct ins as [|op ins]; [done|]. split; [cbn; lia|]. change (hd_error ((op :: ins) ++ rest)) with (Some op) in Hhd.
  apply (inj Some) in Hhd.
  assert (op = OP_CODESEPARATOR -> ins = []) as Hsep.
  { intros ->. cbn [app] in Hpc. rewrite GetOp_op in Hpc by done. cbn [pcRet] in Hpc.
    apply (f_equal length) in Hpc. rewrite length_app in Hpc. apply nil_length_inv. lia. }
  rewrite <- Hhd. unfold is_separator. split.
  - split; [by intros E; rewrite E, (Hsep E)|by intros [= ->]].
  - unfold is_prefix. cbn [app length take]. rewrite take_0.
    destruct (Z.leb_spec (Z.of_nat 1) (Z.of_nat (S (length (ins ++ rest))))); [|lia]. cbn [andb].
    apply bool_decide_ext. split; intros E.
    + assert (op = OP_CODESEPARATOR) as E' by congruence. by rewrite E', (Hsep E').
    + congruence.
Qed.
Lemma parsed_concat s l : parsed s l -> s = concat l.
Proof. induction 1; cbn; congruence. Qed.

Lemma without_separators_cons ins l :
  without_separators (ins :: l) = (if bool_decide (is_separator ins) then [] else ins) ++ without_separators l.
Proof.
  unfold without_separators. rewrite filter_cons.
  destruct (decide (~ is_separator ins)) as [H|H].
  - by rewrite bool_decide_eq_false_2.
  - rewrite bool_decide_eq_true_2; [done|]. by apply dec_stable.
Qed.

(** [FindAndDelete] of the separator takes out the separators. *)
Lemma deleted_parsed s l t k :
  bytes_ok s -> parsed s l -> deleted [OP_CODESEPARATOR] s t k -> t = without_separators l.
Proof.
  intros Hb Hp. revert t k Hb. induction Hp as [|ins rest l Hr Hpc Hp IH]; intros t k Hb Hd.
  - inversion Hd as [? ? ? H|? ? ? ? H|]; [discriminate H|discriminate H|done].
  - destruct (first_instruction ins rest Hb Hr Hpc) as (Hlen & _ & Hpre).
    pose proof Hb as [_ Hb']%bytes_ok_app. rewrite without_separators_cons.
    inversion Hd as [? s' ? H1 H2|? s' ? H1 H2 H3|? H1 H2]; subst.
    + rewrite Hpre in H1. rewrite H1. apply bool_decide_eq_true in H1. rewrite H1 in H2. cbn [app length drop] in H2.
      by eapply (IH t _ Hb').
    + rewrite Hpre in H1. rewrite H1, Hpc, range_app. rewrite Hpc in H3. f_equal. by eapply (IH s' _ Hb').
    + congruence.
Qed.

Lemma count_separators_parsed s l : bytes_ok s -> parsed s l -> forall fuel k,
  (length s <= fuel)%nat -> count_separators fuel s k = k + zlen s - zlen (without_separators l).
Proof.
  intros Hb Hp. induction Hp as [|ins rest l Hr Hpc Hp IH]; intros fuel k Hf.
  - destruct fuel; cbn; lia.
  - destruct (first_instruction ins rest Hb Hr Hpc) as (Hlen & Hsep & _).
    pose proof Hb as [_ Hb']%bytes_ok_app. rewrite length_app in *. destruct fuel as [|fuel]; [lia|].
    cbn [count_separators]. rewrite Hr, Hpc, IH by (done || lia).
    rewrite without_separators_cons, length_app.
    destruct (Z.eqb_spec (opcodeRet (GetOp (ins ++ rest))) OP_CODESEPARATOR) as [E|E].
    + apply Hsep in E as E'. rewrite bool_decide_eq_true_2, E' by done. cbn [length]. lia.
    + rewrite bool_decide_eq_false_2 by (by rewrite <- Hsep). lia.
Qed.

Lemma write_parts_parsed s l : bytes_ok s -> parsed s l -> forall fuel pre,
  (length s < fuel)%nat -> write_parts fuel s (pre ++ s) = pre ++ without_separators l.
Proof.
  intros Hb Hp. induction Hp as [|ins rest l Hr Hpc Hp IH]; intros fuel pre Hf; (destruct fuel as [|fuel]; [cbn in Hf; lia|]).
  - cbn [write_parts GetOp ret getop_fail pcRet]. unfold without_separators. cbn [filter list_filter concat].
    rewrite !app_nil_r. case_bool_decide; [by subst|]. cbn [length]. by rewrite Nat.sub_0_r, firstn_all.
  - destruct (first_instruction ins rest Hb Hr Hpc) as (Hlen & Hsep & _).
    pose proof Hb as [_ Hb']%bytes_ok_app. rewrite length_app in Hf.
    cbn [write_parts]. rewrite Hr, Hpc, without_separators_cons.
    destruct (Z.eqb_spec (opcodeRet (GetOp (ins ++ rest))) OP_CODESEPARATOR) as [E|E].
    + apply Hsep in E as E'. rewrite bool_decide_eq_true_2 by done. rewrite E'. cbn [app].
      pose proof (IH Hb' fuel [] ltac:(lia)) as IH0. cbn [app] in IH0. rewrite IH0. f_equal.
      rewrite !length_app. cbn [length].
      replace (length pre + S (length rest) - length rest - 1)%nat with (length pre) by lia. by apply take_app_length.
    + rewrite bool_decide_eq_false_2 by (by rewrite <- Hsep). rewrite app_assoc.
      rewrite (IH Hb' fuel (pre ++ ins)) by lia. by rewrite <- app_assoc.
Qed.

Lemma SerializeScriptCode_parsed s l :
  bytes_ok s -> parsed s l -> SerializeScriptCode s = ser bytes_c (FindAndDelete s [OP_CODESEPARATOR]).1.
Proof.
  intros Hb Hp. pose proof (FindAndDelete_spec s [OP_CODESEPARATOR] Hb ltac:(discriminate)) as Hd.
  rewrite (deleted_parsed _ _ _ _ Hb Hp Hd). unfold SerializeScriptCode.
  rewrite (count_separators_parsed _ _ Hb Hp) by lia.
  pose proof (write_parts_parsed _ _ Hb Hp (S (length s)) [] ltac:(lia)) as Hw. cbn [app] in Hw. rewrite Hw.
  cbn [ser bytes_c]. do 2 f_equal. lia.
Qed.

(** ** The transaction that is signed *)

(** What the signature of input [nIn] covers, as a transaction: the scripts of
    the other inputs are blank, and the hash type drops inputs, outputs and
    sequence numbers. *)
Section Signed.
Context (tx : CTransaction) (code : CScript) (nIn nHashType : Z).

Definition signed_input (k : nat) (i : CTxIn) : CTxIn :=
  if decide (Z.of_nat k = nIn) then TxIn (prevout i) code (nSequence i)
  else TxIn (prevout i) [] (if fHashSingle nHashType || fHashNone nHashType then 0 else nSequence i).

Definition signed_vin : list CTxIn :=
  if fAnyoneCanPay nHashType then
    match vin tx !! Z.to_nat nIn with Some i => [TxIn (prevout i) code (nSequence i)] | None => [] end
  else imap signed_input (vin tx).

Definition signed_vout : list CTxOut :=
  if fHashNone nHashType then []
  else if fHashSingle nHashType then
    match vout tx !! Z.to_nat nIn with Some o => replicate (Z.to_nat nIn) CTxOut_new ++ [o] | None => [] end
  else vout tx.

Definition signed_transaction : CTransaction :=
  Transaction (nVersion tx) (nType tx) signed_vin signed_vout (nLockTime tx) (sapData tx) (extraPayload tx).
End Signed.

Lemma concat_map_imap {A B C} (g : B -> list C) (f : nat -> A -> B) l :
  concat (map g (imap f l)) = concat (imap (fun k x => g (f k x)) l).
Proof. revert f. induction l as [|x l IH]; intros f; [done|]. cbn [imap map concat]. by rewrite IH. Qed.

Lemma imap_plain {A B} (f : A -> B) l : imap (fun _ x => f x) l = map f l.
Proof. induction l as [|x l IH]; [done|]. cbn [imap map]. f_equal. exact IH. Qed.

Lemma write_each_list {E A} (write : Z -> outcome E (list Z)) (l : list A) : forall (f : nat -> A -> list Z) k,
  (forall j x, l !! j = Some x -> write (k + Z.of_nat j) = Ok (f j x)) ->
  write_each write (length l) k = Ok (concat (imap f l)).
Proof.
  induction l as [|x l IH]; intros f k Hw; [done|]. cbn [length write_each imap concat].
  pose proof (Hw 0%nat x eq_refl) as H0. cbn in H0. rewrite Z.add_0_r in H0. rewrite H0. cbn [mbind outcome_bind].
  rewrite (IH (f ∘ S)); [done|]. intros j y Hy. etransitivity; [|exact (Hw (S j) y Hy)]. f_equal. lia.
Qed.

Section Legacy.
Context (tx : CTransaction) (scriptCode : CScript) (nIn nHashType : Z) (instrs : list CScript).
Hypothesis Hb : bytes_ok scriptCode.
Hypothesis Hparsed : parsed scriptCode instrs.
Hypothesis HnIn : 0 <= nIn < zlen (vin tx).
Hypothesis Hvin : zlen (vin tx) < 2 ^ 32.
Hypothesis Hvout : zlen (vout tx) < 2 ^ 32.

Notation code := (FindAndDelete scriptCode [OP_CODESEPARATOR]).1.

Lemma ser_signed_input k i :
  ser CTxIn_c (signed_input code nIn nHashType k i) =
  ser COutPoint_c (prevout i) ++
  (if negb (Z.of_nat k =? nIn) then ser bytes_c [] else SerializeScriptCode scriptCode) ++
  (if negb (Z.of_nat k =? nIn) && (fHashSingle nHashType || fHashNone nHashType) then ser int32_c 0
   else ser uint32_c (nSequence i)).
Proof.
  unfold signed_input. destruct (decide (Z.of_nat k = nIn)) as [<-|Hk].
  - rewrite Z.eqb_refl. cbn [negb andb]. by rewrite (SerializeScriptCode_parsed _ _ Hb Hparsed).
  - destruct (Z.eqb_spec (Z.of_nat k) nIn); [done|]. cbn [negb andb].
    by destruct (fHashSingle nHashType || fHashNone nHashType).
Qed.

Lemma SerializeInput_signed {E} k i :
  fAnyoneCanPay nHashType = false -> vin tx !! k = Some i ->
  SerializeInput (E := E) tx scriptCode nIn nHashType (Z.of_nat k)
  = Ok (ser CTxIn_c (signed_input code nIn nHashType k i)).
Proof.
  intros Ha Hk. pose proof (lookup_lt_Some _ _ _ Hk) as Hlt. unfold SerializeInput. rewrite Ha.
  rewrite (rd_lookup_nat _ _ _ Hk). cbn [mbind outcome_bind]. unfold NOT_AN_INPUT.
  destruct (Z.eqb_spec (Z.of_nat k) 0xffffffff); [lia|]. cbn [negb cassert mbind outcome_bind].
  by rewrite ser_signed_input.
Qed.

(** The inputs. *)
Lemma write_inputs {E} :
  let nInputs := if fAnyoneCanPay nHashType then 1 else u32 (zlen (vin tx)) in
  exists ins, write_each (E := E) (SerializeInput tx scriptCode nIn nHashType) (Z.to_nat nInputs) 0 = Ok ins /\
    WriteCompactSize nInputs ++ ins = ser (vector_c CTxIn_c) (signed_vin tx code nIn nHashType).
Proof.
  unfold signed_vin. destruct (fAnyoneCanPay nHashType) eqn:Ha; cbn zeta.
  - destruct (lookup_lt_is_Some_2 (vin tx) (Z.to_nat nIn)) as [i Hi]; [lia|]. rewrite Hi.
    change (Z.to_nat 1) with 1%nat. cbn [write_each]. unfold SerializeInput. rewrite Ha, Z.eqb_refl.
    rewrite <- (Z2Nat.id nIn), (rd_lookup_nat _ _ _ Hi) by lia. rewrite Z2Nat.id by lia.
    cbn [mbind outcome_bind]. unfold NOT_AN_INPUT.
    destruct (Z.eqb_spec nIn 0xffffffff); [lia|]. cbn [negb cassert mbind outcome_bind andb].
    eexists. split; [reflexivity|]. rewrite (SerializeScriptCode_parsed _ _ Hb Hparsed).
    cbn [ser vector_c map concat length CTxIn_c prevout scriptSig nSequence]. by rewrite !app_nil_r.
  - rewrite wrapu_small by (unfold in_u; lia). rewrite Nat2Z.id.
    eexists. split; [apply (write_each_list _ (vin tx) (fun k i => ser CTxIn_c (signed_input code nIn nHashType k i)))|].
    + intros j x Hx. by apply SerializeInput_signed.
    + cbn [ser vector_c]. by rewrite length_imap, concat_map_imap.
Qed.

(** The outputs. *)
Lemma write_outputs {E} :
  (fHashSingle nHashType = true -> nIn < zlen (vout tx)) ->
  let nOutputs := if fHashNone nHashType then 0 else if fHashSingle nHashType then u32 (nIn + 1)
                  else u32 (zlen (vout tx)) in
  exists outs, write_each (E := E) (SerializeOutput tx nIn nHashType) (Z.to_nat nOutputs) 0 = Ok outs /\
    WriteCompactSize nOutputs ++ outs = ser (vector_c CTxOut_c) (signed_vout tx nIn nHashType).
Proof.
  intros Hs. unfold signed_vout. destruct (fHashNone nHashType); cbn zeta.
  { eexists. split; [reflexivity|]. reflexivity. }
  destruct (fHashSingle nHashType) eqn:Es.
  - specialize (Hs eq_refl). destruct (lookup_lt_is_Some_2 (vout tx) (Z.to_nat nIn)) as [o Ho]; [lia|]. rewrite Ho.
    rewrite wrapu_small by (unfold in_u; lia). set (l := replicate (Z.to_nat nIn) CTxOut_new ++ [o]).
    assert (length l = Z.to_nat (nIn + 1)) as Hl by (unfold l; rewrite length_app, length_replicate; cbn; lia).
    rewrite <- Hl. eexists. split; [apply (write_each_list _ l (fun _ x => ser CTxOut_c x))|].
    + intros j x Hx. rewrite Z.add_0_l. unfold SerializeOutput. rewrite Es. cbn [andb].
      unfold l in Hx. apply lookup_app_Some in Hx as [Hx|[Hj Hx]].
      * apply lookup_replicate in Hx as [-> Hj]. destruct (Z.eqb_spec (Z.of_nat j) nIn); [lia|]. done.
      * rewrite length_replicate in *. apply list_lookup_singleton_Some in Hx as [Hj0 <-].
        assert (j = Z.to_nat nIn) as -> by lia. rewrite (rd_lookup_nat _ _ _ Ho).
        by destruct (Z.eqb_spec (Z.of_nat (Z.to_nat nIn)) nIn); [|lia].
    + cbn [ser vector_c]. rewrite Hl, Z2Nat.id by lia. by rewrite imap_plain.
  - rewrite wrapu_small by (unfold in_u; lia). rewrite Nat2Z.id.
    eexists. split; [apply (write_each_list _ (vout tx) (fun _ x => ser CTxOut_c x))|].
    + intros j x Hx. rewrite Z.add_0_l. unfold SerializeOutput. rewrite Es. cbn [andb].
      by rewrite (rd_lookup_nat _ _ _ Hx).
    + cbn [ser vector_c]. by rewrite imap_plain.
Qed.
End Legacy.

Lemma SignatureSerialize_signed {E} tx code instrs nIn nHashType :
  bytes_ok code -> parsed code instrs -> 0 <= nIn < zlen (vin tx) ->
  zlen (vin tx) < 2 ^ 32 -> zlen (vout tx) < 2 ^ 32 -> isSaplingVersion tx = false ->
  (fHashSingle nHashType = true -> nIn < zlen (vout tx)) ->
  SignatureSerialize (E := E) tx code nIn nHashType
  = Ok (SerializeTransaction (signed_transaction tx (FindAndDelete code [OP_CODESEPARATOR]).1 nIn nHashType)).
Proof.
  intros Hb Hp Hn Hi Ho Hsap Hs. unfold SignatureSerialize.
  destruct (write_inputs (E := E) tx code nIn nHashType instrs Hb Hp Hn Hi) as (ins & -> & Hins).
  destruct (write_outputs (E := E) tx nIn nHashType Hn Hi Ho Hs) as (outs & Houts & Hser).
  cbn [mbind outcome_bind]. rewrite Houts. cbn [mbind outcome_bind].
  unfold SerializeTransaction, signed_transaction, isSaplingVersion in *.
  cbn [nVersion nType vin vout nLockTime]. rewrite Hsap, <- Hins, <- Hser, <- !app_assoc. by rewrite app_nil_r.
Qed.

Lemma SignatureHash_base {E} gh stray tx code instrs nIn nHashType amount cache :
  bytes_ok code -> parsed code instrs -> 0 <= nIn < zlen (vin tx) ->
  zlen (vin tx) < 2 ^ 32 -> zlen (vout tx) < 2 ^ 32 -> isSaplingVersion tx = false ->
  SignatureHash (E := E) gh stray code tx nIn nHashType amount SIGVERSION_BASE cache =
  Ok (if fHashSingle nHashType && (zlen (vout tx) <=? nIn) then UINT256_ONE
      else Hash [SerializeTransaction (signed_transaction tx (FindAndDelete code [OP_CODESEPARATOR]).1 nIn nHashType);
                 ser int32_c nHashType]).
Proof.
  intros Hb Hp Hn Hi Ho Hsap. unfold SignatureHash.
  destruct (Z.leb_spec (zlen (vin tx)) nIn); [lia|]. cbn [andb]. rewrite Hsap.
  destruct (fHashSingle nHashType && (zlen (vout tx) <=? nIn)) eqn:Es; [done|].
  rewrite (SignatureSerialize_signed tx code instrs); [done|done|done|done|done|done|done|].
  intros Hs. rewrite Hs in Es. bool_to_prop. destruct Es; [done|lia].
Qed.

(** C25: for a transaction of the old format, what a signature signs is the
    double SHA-256 of the hash type after the serialization of a transaction:
    the one being signed, with the script code (without its separators) as the
    script of the signed input, the other scripts blank, and the inputs, outputs
    and sequence numbers the hash type leaves out dropped.  It is 1 for an input
    that is not there and for SIGHASH_SINGLE without its output; the separators
    are those [FindAndDelete] finds; a Sapling transaction is refused. *)
Theorem SignatureHash_signs_transaction (generichash : list Z -> list Z -> uint256) (stray : Z)
    (tx : CTransaction) (code : CScript) (instrs : list CScript) (nIn nHashType amount : Z)
    (cache : option PrecomputedTransactionData) :
  bytes_ok code -> parsed code instrs -> 0 <= nIn < NOT_AN_INPUT ->
  zlen (vin tx) < 2 ^ 32 -> zlen (vout tx) < 2 ^ 32 ->
  SignatureHash (E := unit) generichash stray code tx nIn nHashType amount SIGVERSION_BASE cache =
  if zlen (vin tx) <=? nIn then Ok UINT256_ONE
  else if isSaplingVersion tx then Throw
  else if fHashSingle nHashType && (zlen (vout tx) <=? nIn) then Ok UINT256_ONE
  else Ok (Hash [SerializeTransaction (signed_transaction tx (FindAndDelete code [OP_CODESEPARATOR]).1 nIn nHashType);
                 ser int32_c nHashType]).
Proof.
  intros Hb Hp Hn Hi Ho. destruct (Z.leb_spec (zlen (vin tx)) nIn) as [Hout|Hin].
  { unfold SignatureHash, NOT_AN_INPUT in *. destruct (Z.leb_spec (zlen (vin tx)) nIn); [|lia].
    by destruct (Z.eqb_spec nIn 0xffffffff); [lia|]. }
  destruct (isSaplingVersion tx) eqn:Es.
  { unfold SignatureHash. rewrite Es. by destruct (Z.leb_spec (zlen (vin tx)) nIn); [lia|]. }
  rewrite (SignatureHash_base _ _ tx code instrs) by (done || lia). by destruct (fHashSingle _ && _).
Qed.

Definition legacy_tx : CTransaction :=
  Transaction 1 0 [TxIn (OutPoint (replicate 32 7) 1) [OP_1] 5; TxIn (OutPoint (replicate 32 8) 0) [OP_2] 6]
    [TxOut 10 [OP_DUP] NULL_ROUNDS] 99 (Some SaplingTxData_new) None.

Lemma parsed_sample : parsed [OP_DUP; OP_CODESEPARATOR; OP_CHECKSIG] [[OP_DUP]; [OP_CODESEPARATOR]; [OP_CHECKSIG]].
Proof.
  apply (parsed_cons [OP_DUP] [OP_CODESEPARATOR; OP_CHECKSIG]); [reflexivity|reflexivity|].
  apply (parsed_cons [OP_CODESEPARATOR] [OP_CHECKSIG]); [reflexivity|reflexivity|].
  apply (parsed_cons [OP_CHECKSIG] []); [reflexivity|reflexivity|constructor].
Qed.

Lemma SignatureHash_signs_transaction_witness :
  let code := [OP_DUP; OP_CODESEPARATOR; OP_CHECKSIG] in
  (FindAndDelete code [OP_CODESEPARATOR]).1 = [OP_DUP; OP_CHECKSIG] /\
  SignatureHash (E := unit) (fun _ d => d) 0 code legacy_tx 1 SIGHASH_ALL 0 SIGVERSION_BASE None =
  Ok (Hash [SerializeTransaction (Transaction 1 0
              [TxIn (OutPoint (replicate 32 7) 1) [] 5; TxIn (OutPoint (replicate 32 8) 0) [OP_DUP; OP_CHECKSIG] 6]
              [TxOut 10 [OP_DUP] NULL_ROUNDS] 99 (Some SaplingTxData_new) None); [1; 0; 0; 0]]).
Proof.
  split; [reflexivity|]. refine (eq_trans (SignatureHash_signs_transaction (fun _ d => d) 0 legacy_tx
    [OP_DUP; OP_CODESEPARATOR; OP_CHECKSIG] _ 1 SIGHASH_ALL 0 None _ parsed_sample _ _ _) _).
  - refine (bool_decide_eq_true_1 (bytes_ok _) _). reflexivity.
  - done.
  - done.
  - done.
  - reflexivity.
Defined.

(** ** A signature of everything *)

Definition signs_all (nHashType : Z) : Prop :=
  fAnyoneCanPay nHashType = false /\ fHashSingle nHashType = false /\ fHashNone nHashType = false.

Lemma signed_transaction_wire tx code nIn nHashType :
  fields_wire tx -> zlen code <= MAX_SIZE -> signs_all nHashType ->
  fields_wire (signed_transaction tx code nIn nHashType).
Proof.
  intros (Hv & Ht & [Hil Hi] & Ho & Hrest) Hc (Ha & Hs & Hn). unfold fields_wire, signed_transaction, signed_vin, signed_vout.
  cbn [nVersion nType vin vout nLockTime sapData extraPayload]. rewrite Ha, Hn, Hs.
  split; [done|]. split; [done|]. split; [|done]. split; [by rewrite length_imap|].
  apply Forall_lookup. intros k i' Hk. rewrite list_lookup_imap in Hk.
  apply fmap_Some in Hk as (i & Hki & ->). rewrite Forall_lookup in Hi. specialize (Hi _ _ Hki) as (H1 & H2 & H3).
  unfold signed_input. rewrite Hs, Hn. case_decide; cbn [orb]; (split; [done|]); (split; [|done]); [done|].
  cbn. unfold MAX_SIZE. lia.
Qed.

Lemma imap_fields {A} (f : CTxIn -> A) code nIn nHashType l :
  signs_all nHashType -> (forall i s, f (TxIn (prevout i) s (nSequence i)) = f i) ->
  map f (imap (signed_input code nIn nHashType) l) = map f l.
Proof.
  intros (_ & Hs & Hn) Hf. unfold signed_input. rewrite Hs, Hn. cbn [orb].
  apply list_eq. intros k. change (map f) with (fmap (M := list) f). rewrite !list_lookup_fmap, list_lookup_imap.
  destruct (l !! k) as [i|]; [|done]. cbn [fmap option_fmap option_map]. f_equal. by case_decide.
Qed.

Lemma Ok_inj {E A} (a b : A) : Ok (E := E) a = Ok b -> a = b.
Proof. congruence. Qed.

(** The bytes of two signed transactions and hash types determine both. *)
Lemma signed_bytes_inj tx1 tx2 h1 h2 :
  fields_wire tx1 -> fields_wire tx2 -> in_s 32 h1 -> in_s 32 h2 ->
  SerializeTransaction tx1 ++ ser int32_c h1 = SerializeTransaction tx2 ++ ser int32_c h2 ->
  received CMutableTransaction_new tx1 = received CMutableTransaction_new tx2 /\ h1 = h2.
Proof.
  intros Hw1 Hw2 Hh1 Hh2 E. pose proof (Unserialize_received CMutableTransaction_new tx1 (ser int32_c h1) Hw1) as R1.
  rewrite E, Unserialize_received in R1 by done. 
  assert (received CMutableTransaction_new tx1 = received CMutableTransaction_new tx2 /\ ser int32_c h1 = ser int32_c h2)
    as [R Rh] by (split; congruence). split; [exact R|].
  pose proof (int32_ok h1 [] Hh1) as U1. pose proof (int32_ok h2 [] Hh2) as U2.
  rewrite app_nil_r in U1, U2. cbn [ser int32_c] in *. rewrite Rh in U1. congruence.
Qed.

Lemma SignatureHash_all gh stray tx code instrs nIn nHashType amount cache sighash :
  bytes_ok code -> parsed code instrs -> 0 <= nIn < zlen (vin tx) -> isSaplingVersion tx = false -> fields_wire tx ->
  signs_all nHashType ->
  SignatureHash (E := unit) gh stray code tx nIn nHashType amount SIGVERSION_BASE cache = Ok sighash ->
  Hash [SerializeTransaction (signed_transaction tx (FindAndDelete code [OP_CODESEPARATOR]).1 nIn nHashType);
        ser int32_c nHashType] = sighash.
Proof.
  intros Hb Hp Hn Hs (_ & _ & [Hi _] & [Ho _] & _) (_ & Hsg & _) E. unfold MAX_SIZE in *.
  rewrite (SignatureHash_base _ _ tx code instrs), Hsg, andb_false_l in E by (done || lia). exact (Ok_inj _ _ E).
Qed.

(** What the signature hash is the hash of. *)
Definition signature_input (code : CScript) (tx : CTransaction) (nIn nHashType : Z) : list (list Z) :=
  [SerializeTransaction (signed_transaction tx (FindAndDelete code [OP_CODESEPARATOR]).1 nIn nHashType);
   ser int32_c nHashType].

(** What two signed transactions with the same bytes have in common. *)
Lemma signed_same_fields tx1 tx2 code1 code2 n1 n2 h1 h2 :
  signs_all h1 -> signs_all h2 ->
  received CMutableTransaction_new (signed_transaction tx1 code1 n1 h1) =
  received CMutableTransaction_new (signed_transaction tx2 code2 n2 h2) ->
  nVersion tx1 = nVersion tx2 /\ nType tx1 = nType tx2 /\ nLockTime tx1 = nLockTime tx2 /\
  map prevout (vin tx1) = map prevout (vin tx2) /\ map nSequence (vin tx1) = map nSequence (vin tx2) /\
  vout tx1 = vout tx2.
Proof.
  intros Ha1 Ha2 Hr. unfold received, signed_transaction in Hr.
  cbn [nVersion nType vin vout nLockTime] in Hr. injection Hr as Hv Ht Hi Ho Hl _ _.
  unfold signed_vin, signed_vout in *. pose proof Ha1 as (Hy1 & Hg1 & Ho1). pose proof Ha2 as (Hy2 & Hg2 & Ho2).
  rewrite Hy1, Hy2 in Hi. rewrite Ho1, Ho2, Hg1, Hg2 in Ho. split_and!; try done.
  - apply (f_equal (map prevout)) in Hi. by rewrite !imap_fields in Hi.
  - apply (f_equal (map nSequence)) in Hi. by rewrite !imap_fields in Hi.
Qed.

(** C8: a signature of everything (SIGHASH_ALL) of a transaction of the old
    format commits to it: whoever finds another transaction, input, script code
    or hash type with the same signature hash, but with another version, type,
    lock time, hash type, list of spent outpoints, of sequence numbers, or of
    outputs, has found a collision between what the two signatures hash. *)
Theorem SignatureHash_binds (gh : list Z -> list Z -> uint256) (stray : Z) (tx1 tx2 : CTransaction)
    (code1 code2 : CScript) (l1 l2 : list CScript) (n1 n2 h1 h2 a1 a2 : Z)
    (c1 c2 : option PrecomputedTransactionData) (sighash : uint256) :
  (bytes_ok code1 /\ parsed code1 l1 /\ zlen (FindAndDelete code1 [OP_CODESEPARATOR]).1 <= MAX_SIZE /\
   0 <= n1 < zlen (vin tx1) /\ isSaplingVersion tx1 = false /\ fields_wire tx1 /\ in_s 32 h1 /\ signs_all h1) ->
  (bytes_ok code2 /\ parsed code2 l2 /\ zlen (FindAndDelete code2 [OP_CODESEPARATOR]).1 <= MAX_SIZE /\
   0 <= n2 < zlen (vin tx2) /\ isSaplingVersion tx2 = false /\ fields_wire tx2 /\ in_s 32 h2 /\ signs_all h2) ->
  SignatureHash (E := unit) gh stray code1 tx1 n1 h1 a1 SIGVERSION_BASE c1 = Ok sighash ->
  SignatureHash (E := unit) gh stray code2 tx2 n2 h2 a2 SIGVERSION_BASE c2 = Ok sighash ->
  hash_collision [signature_input code1 tx1 n1 h1; signature_input code2 tx2 n2 h2] \/
  (nVersion tx1 = nVersion tx2 /\ nType tx1 = nType tx2 /\ nLockTime tx1 = nLockTime tx2 /\ h1 = h2 /\
   map prevout (vin tx1) = map prevout (vin tx2) /\ map nSequence (vin tx1) = map nSequence (vin tx2) /\
   vout tx1 = vout tx2).
Proof.
  intros (Hb1 & Hp1 & Hc1 & Hn1 & Hs1 & Hw1 & Hh1 & Ha1) (Hb2 & Hp2 & Hc2 & Hn2 & Hs2 & Hw2 & Hh2 & Ha2) E1 E2.
  apply (SignatureHash_all _ _ _ _ l1) in E1; [|done..]. apply (SignatureHash_all _ _ _ _ l2) in E2; [|done..].
  rewrite <- E2 in E1. clear E2.
  pose proof (signed_transaction_wire _ _ n1 _ Hw1 Hc1 Ha1) as W1.
  pose proof (signed_transaction_wire _ _ n2 _ Hw2 Hc2 Ha2) as W2.
  unfold signature_input. set (t1 := signed_transaction tx1 _ n1 h1) in *. set (t2 := signed_transaction tx2 _ n2 h2) in *.
  apply hash_collision_pair in E1 as [E|]; [right|by left]. cbn [concat] in E. rewrite !app_nil_r in E.
  destruct (signed_bytes_inj t1 t2 h1 h2 W1 W2 Hh1 Hh2 E) as [Hr Hh].
  destruct (signed_same_fields _ _ _ _ _ _ _ _ Ha1 Ha2 Hr) as (? & ? & ? & ? & ? & ?). by split_and!.
Qed.

Lemma SignatureHash_binds_witness :
  let code := [OP_DUP; OP_CODESEPARATOR; OP_CHECKSIG] in
  exists sighash,
    SignatureHash (E := unit) (fun _ d => d) 0 code legacy_tx 1 SIGHASH_ALL 7 SIGVERSION_BASE None = Ok sighash /\
    (hash_collision [signature_input code legacy_tx 1 SIGHASH_ALL; signature_input code legacy_tx 1 SIGHASH_ALL] \/
     (1 = 1 /\ 0 = 0 /\ 99 = 99 /\ SIGHASH_ALL = SIGHASH_ALL /\
      map prevout (vin legacy_tx) = map prevout (vin legacy_tx) /\
      map nSequence (vin legacy_tx) = map nSequence (vin legacy_tx) /\ vout legacy_tx = vout legacy_tx)).
Proof.
  intros code. assert (bytes_ok code /\ parsed code [[OP_DUP]; [OP_CODESEPARATOR]; [OP_CHECKSIG]] /\
    zlen (FindAndDelete code [OP_CODESEPARATOR]).1 <= MAX_SIZE /\ 0 <= 1 < zlen (vin legacy_tx) /\
    isSaplingVersion legacy_tx = false /\ fields_wire legacy_tx /\ in_s 32 SIGHASH_ALL /\ signs_all SIGHASH_ALL) as H.
  { split; [refine (bool_decide_eq_true_1 (bytes_ok _) _); reflexivity|]. split; [exact parsed_sample|].
    split; [vm_compute; discriminate|]. split; [cbn; lia|]. split; [reflexivity|].
    split; [|split; [split; [vm_compute; discriminate|reflexivity]|repeat split]].
    unfold fields_wire, MAX_SIZE; cbn; unfold in_s, in_u, MAX_SIZE.
    split_and!; repeat (constructor || lia); cbn; unfold MAX_SIZE; intros; try done; lia. }
  eexists. split; [vm_compute; reflexivity|].
  eapply (SignatureHash_binds (fun _ d => d) 0 legacy_tx legacy_tx code code _ _ 1 1 SIGHASH_ALL SIGHASH_ALL 7 7 None None);
    [exact H|exact H|vm_compute; reflexivity|vm_compute; reflexivity].
Defined.

(** ** The checker of a transaction *)

Section Checker.
Context (gh : list Z -> list Z -> uint256) (stray : Z) (Verify : valtype -> uint256 -> valtype -> bool).
Context (tx : CTransaction) (nIn : Z) (amount : CAmount) (cache : option PrecomputedTransactionData).
Hypothesis HnIn : 0 <= nIn < zlen (vin tx).
Hypothesis Hvin : zlen (vin tx) < 2 ^ 32.
Hypothesis Hvout : zlen (vout tx) < 2 ^ 32.
Notation anything := (fun _ => True).

Lemma safe_rd_any {A} (l : list A) i : 0 <= i < zlen l -> safe anything (rd l i).
Proof. intros H. exact (safe_weaken _ _ _ (safe_rd l i H) (fun _ _ => I)). Qed.

Lemma safe_write_each (write : Z -> sc (list Z)) count : forall k,
  (forall j, k <= j < k + Z.of_nat count -> safe anything (write j)) -> safe anything (write_each write count k).
Proof.
  induction count as [|count IH]; intros k Hw; [done|]. cbn [write_each].
  eapply safe_bind; [apply Hw; lia|]. intros a _. eapply safe_bind; [apply IH|done].
  intros j Hj. apply Hw. lia.
Qed.

Lemma safe_SerializeInput code h k : 0 <= k < zlen (vin tx) -> safe anything (SerializeInput tx code nIn h k).
Proof.
  intros Hk. unfold SerializeInput, NOT_AN_INPUT.
  assert (0 <= (if fAnyoneCanPay h then nIn else k) < zlen (vin tx)) as H by (destruct (fAnyoneCanPay h); lia).
  set (i := if fAnyoneCanPay h then nIn else k) in *. eapply safe_bind; [by apply safe_rd_any|]. intros x _.
  by destruct (Z.eqb_spec i 0xffffffff); [lia|].
Qed.

Lemma safe_SerializeOutput h k : 0 <= k < zlen (vout tx) -> safe anything (SerializeOutput tx nIn h k).
Proof.
  intros Hk. unfold SerializeOutput. destruct (_ && _); [done|].
  eapply safe_bind; [by apply safe_rd_any|done].
Qed.

Lemma safe_SignatureSerialize code h :
  (fHashSingle h = true -> nIn < zlen (vout tx)) -> safe anything (SignatureSerialize tx code nIn h).
Proof.
  intros Hs. unfold SignatureSerialize. eapply safe_bind.
  { apply safe_write_each. intros j Hj. apply safe_SerializeInput.
    destruct (fAnyoneCanPay h); [lia|]. rewrite wrapu_small in Hj by (unfold in_u; lia). lia. }
  intros ins _. eapply safe_bind; [|done]. apply safe_write_each. intros j Hj. apply safe_SerializeOutput.
  destruct (fHashNone h); [lia|]. destruct (fHashSingle h).
  - specialize (Hs eq_refl). rewrite wrapu_small in Hj by (unfold in_u; lia). lia.
  - rewrite wrapu_small in Hj by (unfold in_u; lia). lia.
Qed.

Lemma safe_sapling_preimage code h : safe anything (sapling_preimage gh code tx nIn h amount cache).
Proof.
  unfold sapling_preimage. eapply (safe_bind anything).
  { destruct (negb (fHashSingle h) && _); [done|].
    destruct (fHashSingle h && (nIn <? zlen (vout tx))) eqn:E; [|done]. bool_to_prop.
    eapply safe_bind; [apply safe_rd_any; lia|done]. }
  intros outputs _. eapply (safe_bind anything).
  { destruct (sapData tx) as [d|] eqn:E; [|done]. destruct (negb _); [|done].
    destruct cache; [done|]. cbn [cached]. unfold GetShieldedSpendsHash. by rewrite E. }
  intros spends _. eapply (safe_bind anything).
  { destruct (sapData tx) as [d|] eqn:E; [|done]. destruct (negb _); [|done].
    destruct cache; [done|]. cbn [cached]. unfold GetShieldedOutputsHash. by rewrite E. }
  intros outs _. eapply (safe_bind anything); [|done].
  destruct (negb _); [|done]. eapply safe_bind; [by apply safe_rd_any|done].
Qed.

Lemma safe_SignatureHash code h v : safe anything (SignatureHash gh stray code tx nIn h amount v cache).
Proof.
  unfold SignatureHash. destruct (_ && _); [done|]. destruct v.
  - destruct (isSaplingVersion tx); [done|].
    destruct (fHashSingle h && (zlen (vout tx) <=? nIn)) eqn:E; [done|].
    eapply safe_bind; [apply safe_SignatureSerialize|done]. intros Hs. rewrite Hs in E. bool_to_prop.
    destruct E; [done|lia].
  - eapply safe_bind; [apply safe_sapling_preimage|done].
Qed.

End Checker.

(** *** Cold stakes *)

Section ColdStake.
Context (tx : CTransaction) (amount : CAmount).
Hypothesis Hvalues : Forall (fun o => 0 <= nValue o) (vout tx).
Hypothesis Hsum : sum_values (vout tx) <= INT64_MAX.

Definition pays (script : CScript) (o : CTxOut) : bool := bool_decide (scriptPubKey o = script).

(** The value of the outputs that pay to [script]. *)
Definition paid (script : CScript) (l : list CTxOut) : Z := sum_values (filter (fun o => scriptPubKey o = script) l).

Lemma paid_cons script o l : paid script (o :: l) = (if pays script o then nValue o else 0) + paid script l.
Proof. unfold paid, pays. rewrite filter_cons, <- decide_bool_decide. by destruct (decide _). Qed.

Lemma paid_bounds script l : Forall (fun o => 0 <= nValue o) l -> 0 <= paid script l <= sum_values l.
Proof.
  induction 1 as [|o l Ho _ IH]; [done|]. rewrite paid_cons. cbn [sum_values fold_right].
  fold (sum_values l). destruct (pays script o); lia.
Qed.

(** The outputs that must pay to the script: all, or all but the last. *)
Definition bound_outputs (outs : Z) (l : list CTxOut) : list CTxOut := if outs <? 3 then l else removelast l.

Lemma cold_stake_loop_spec script outs l : forall i acc,
  i + zlen l = outs -> 0 <= acc -> Forall (fun o => 0 <= nValue o) l -> acc + sum_values l <= INT64_MAX ->
  cold_stake_loop script outs i l acc =
  Ok (if forallb (pays script) (bound_outputs outs l) then Some (acc + paid script l) else None).
Proof.
  induction l as [|o l IH]; intros i acc Hi Hacc Hnn Hmax.
  { cbn [cold_stake_loop]. unfold bound_outputs. destruct (outs <? 3); cbn; by rewrite Z.add_0_r. }
  apply Forall_cons in Hnn as [Ho Hnn]. cbn [sum_values fold_right] in Hmax. fold (sum_values l) in Hmax.
  pose proof (sum_values_nonneg _ Hnn) as Hl. cbn [length] in Hi. cbn [cold_stake_loop].
  change (bool_decide (scriptPubKey o = script)) with (pays script o). rewrite paid_cons.
  assert (forallb (pays script) (bound_outputs outs (o :: l)) =
    (pays script o || ((i =? outs - 1) && (3 <=? outs))) && forallb (pays script) (bound_outputs outs l)) as ->.
  { unfold bound_outputs. destruct (Z.ltb_spec outs 3), (Z.leb_spec 3 outs); try lia.
    - rewrite andb_false_r, orb_false_r. done.
    - destruct l as [|o' l].
      + cbn [length] in Hi. destruct (Z.eqb_spec i (outs - 1)); [|lia]. cbn. by rewrite orb_true_r.
      + cbn [length] in Hi. destruct (Z.eqb_spec i (outs - 1)); [lia|]. cbn [andb]. by rewrite orb_false_r. }
  destruct (pays script o) eqn:Ep; cbn [negb orb andb].
  - rewrite int64_nonneg by lia. destruct (Z.leb_spec (acc + nValue o) INT64_MAX); [|lia].
    cbn [mbind outcome_bind]. rewrite IH by (done || lia). by rewrite Z.add_assoc.
  - destruct (Z.eqb_spec i (outs - 1)), (Z.ltb_spec outs 3), (Z.leb_spec 3 outs); try lia; cbn [negb orb andb]; try done.
    rewrite IH by (done || lia). by rewrite Z.add_0_l.
Qed.

Lemma tx_CheckColdStake_spec script :
  tx_CheckColdStake tx amount script =
  Ok (IsCoinStake tx && (zlen (vin tx) =? 1) &&
      forallb (pays script) (bound_outputs (zlen (vout tx)) (drop 1 (vout tx))) &&
      (amount <? paid script (drop 1 (vout tx)))).
Proof.
  unfold tx_CheckColdStake. destruct (IsCoinStake tx) eqn:Ec; [|done]. cbn [negb andb].
  destruct (zlen (vin tx) =? 1); [|done]. cbn [negb andb].
  assert (exists o0 o1 l, vout tx = o0 :: o1 :: l) as (o0 & o1 & l & Hl).
  { unfold IsCoinStake in Ec. destruct (vin tx) as [|i ins]; [done|]. destruct (_ && _); [done|].
    destruct (vout tx) as [|o0 [|o1 l]]; try done. eauto. }
  rewrite Hl in *. destruct (Z.leb_spec 2 (zlen (o0 :: o1 :: l))); [|cbn [length] in *; lia].
  cbn [cassert mbind outcome_bind drop]. apply Forall_cons in Hvalues as [H0 Hv].
  cbn [sum_values fold_right] in Hsum. fold (sum_values l) in Hsum.
  rewrite cold_stake_loop_spec; [|cbn [length]; lia|done|done|cbn [sum_values fold_right]; fold (sum_values l); lia].
  rewrite Z.add_0_l. by destruct (forallb _ _).
Qed.
End ColdStake.

Lemma transaction_checker_safe gh stray Verify tx nIn amount cache :
  0 <= nIn < zlen (vin tx) -> zlen (vin tx) < 2 ^ 32 -> zlen (vout tx) < 2 ^ 32 ->
  Forall (fun o => 0 <= nValue o) (vout tx) -> sum_values (vout tx) <= INT64_MAX ->
  @checker_safe (TransactionSignatureChecker gh stray Verify tx nIn amount cache).
Proof.
  intros Hn Hi Ho Hnn Hs. split; [|split].
  - intros sig key code v. cbn. unfold tx_CheckSig. destruct (negb _); [done|]. destruct (last sig); [|done].
    eapply safe_bind; [by apply safe_SignatureHash|done].
  - intros k. cbn. unfold tx_CheckLockTime. destruct (negb _); [done|]. destruct (_ <? _); [done|].
    eapply safe_bind; [by apply safe_rd_any|done].
  - intros s. cbn. by rewrite tx_CheckColdStake_spec.
Qed.

(** C12: verifying the input of a transaction ends with an answer, whatever its
    scripts, flags and signatures, and whatever the hash function, the signature
    scheme and the cache do: no read leaves the transaction, no assertion fails
    and no sum overflows, as long as the outputs are in the range of money and
    the input exists.  The exception [SignatureHash] throws at a Sapling
    transaction of the wrong version does not escape. *)
Theorem VerifyScript_of_transaction (gh : list Z -> list Z -> uint256) (stray : Z)
    (Verify : valtype -> uint256 -> valtype -> bool) (CheckLowS : valtype -> bool) (v6 : bool)
    (tx : CTransaction) (nIn : Z) (amount : CAmount) (cache : option PrecomputedTransactionData)
    (scriptPubKey : CScript) (flags : Z) (sigversion : SigVersion) :
  0 <= nIn < zlen (vin tx) -> zlen (vin tx) < 2 ^ 32 -> zlen (vout tx) < 2 ^ 32 ->
  Forall (fun o => 0 <= nValue o) (vout tx) -> sum_values (vout tx) <= INT64_MAX ->
  Forall (fun i => bytes_ok (scriptSig i)) (vin tx) -> bytes_ok scriptPubKey ->
  exists i, vin tx !! Z.to_nat nIn = Some i /\
  let checker := TransactionSignatureChecker gh stray Verify tx nIn amount cache in
  let r := @VerifyScript CheckLowS v6 checker (scriptSig i) scriptPubKey flags sigversion in
  r = Ok tt \/ exists e, r = Err e.
Proof.
  intros Hn Hi Ho Hnn Hs Hsig Hpub.
  destruct (lookup_lt_is_Some_2 (vin tx) (Z.to_nat nIn)) as [i Hl]; [lia|]. exists i. split; [done|].
  apply VerifyScript_returns; [by apply transaction_checker_safe| |done].
  rewrite Forall_lookup in Hsig. by eapply Hsig.
Qed.

Lemma VerifyScript_of_transaction_witness :
  exists i, vin legacy_tx !! 0%nat = Some i /\
  let checker := TransactionSignatureChecker (fun _ d => d) 0 (fun _ _ _ => true) legacy_tx 0 50 None in
  let r := @VerifyScript (fun _ => true) true checker (scriptSig i) [OP_1; OP_EQUAL] 0 SIGVERSION_BASE in
  r = Ok tt \/ exists e, r = Err e.
Proof.
  apply (VerifyScript_of_transaction (fun _ d => d) 0 (fun _ _ _ => true) (fun _ => true) true legacy_tx 0 50 None).
  - cbn. lia.
  - reflexivity.
  - reflexivity.
  - repeat constructor. cbn. lia.
  - vm_compute. discriminate.
  - refine (bool_decide_eq_true_1 (Forall (fun i => bytes_ok (scriptSig i)) (vin legacy_tx)) _). reflexivity.
  - refine (bool_decide_eq_true_1 (bytes_ok _) _). reflexivity.
Defined.

(** The cold-staking check of a transaction holds exactly for a coinstake
    with a single input all of whose outputs but the empty first one pay to the
    script that is spent, where the last one is free when there are at least
    three, and that pays more to that script than the input was worth: a staker
    cannot send the owner's coins elsewhere. *)
Theorem CheckColdStake_keeps_coins (tx : CTransaction) (amount : CAmount) (script : CScript) :
  Forall (fun o => 0 <= nValue o) (vout tx) -> sum_values (vout tx) <= INT64_MAX ->
  (tx_CheckColdStake tx amount script = Ok true <->
   IsCoinStake tx = true /\ zlen (vin tx) = 1 /\
   Forall (fun o => scriptPubKey o = script) (bound_outputs (zlen (vout tx)) (drop 1 (vout tx))) /\
   amount < paid script (drop 1 (vout tx))) /\
  (tx_CheckColdStake tx amount script = Ok true \/ tx_CheckColdStake tx amount script = Ok false).
Proof.
  intros Hnn Hs. rewrite tx_CheckColdStake_spec by done. split; [|by destruct (_ && _); [left|right]].
  assert (forall l, forallb (pays script) l = true <-> Forall (fun o => scriptPubKey o = script) l) as Hall.
  { intros l. rewrite forallb_forall, List.Forall_forall. unfold pays.
    split; intros H x Hx; [exact (bool_decide_eq_true_1 _ (H x Hx))|exact (bool_decide_eq_true_2 _ (H x Hx))]. }
  rewrite <- Hall. split.
  - intros [= H]. bool_to_prop. split_and!; done || lia.
  - intros (-> & Hv & -> & Hp). rewrite Hv. cbn [andb Z.eqb Pos.eqb]. f_equal. by apply Z.ltb_lt.
Qed.

(** A cold stake that pays [value] back and leaves the last output to someone else. *)
Definition sample_coldstake (value : Z) : CTransaction :=
  Transaction 1 0 [TxIn (OutPoint (replicate 32 7) 1) [OP_1] 5]
    [TxOut 0 [] NULL_ROUNDS; TxOut value [OP_DUP] NULL_ROUNDS; TxOut 3 [OP_1] NULL_ROUNDS] 0 None None.

Lemma CheckColdStake_keeps_coins_witness :
  tx_CheckColdStake (sample_coldstake 11) 10 [OP_DUP] = Ok true /\
  ~ tx_CheckColdStake (sample_coldstake 10) 10 [OP_DUP] = Ok true.
Proof.
  split.
  - apply (CheckColdStake_keeps_coins (sample_coldstake 11) 10 [OP_DUP]);
      [repeat constructor; cbn; lia|vm_compute; discriminate|].
    split; [reflexivity|]. split; [reflexivity|]. split; [repeat constructor|reflexivity].
  - intros H. apply (CheckColdStake_keeps_coins (sample_coldstake 10) 10 [OP_DUP]) in H;
      [|repeat constructor; cbn; lia|vm_compute; discriminate].
    destruct H as (_ & _ & _ & H). vm_compute in H. discriminate H.
Defined.
