(* ===== verification/Block.v ===== *)
(** * Blocks: primitives/block.h and .cpp, and HashQuark of hash.h

    The block header with its version-dependent codec, its hash, and the block.
    The eight rounds of [HashQuark] call the 512-bit hash functions of the
    vendored sphlib (crypto/blake.c, bmw.c, groestl.c, jh.c, keccak.c,
    skein.c), which are parameters here, from the bytes hashed to the 64 bytes
    of the digest.  [ToString] and the in-memory flag [fChecked] are left out. *)
From S2P Require Import Prelude Serialize HashStream Sha256 Hash Script Interpreter Standard Transaction.

(** consensus/consensus.h *)
Definition MAX_BLOCK_SIZE_CURRENT : Z := 2500000.

(** ** Headers *)

Record CBlockHeader := BlockHeader {
  hd_nVersion : Z;
  hashPrevBlock : uint256;
  hashMerkleRoot : uint256;
  hd_nTime : Z;
  hd_nBits : Z;
  nNonce : Z;
  nAccumulatorCheckpoint : uint256;
  hashFinalSaplingRoot : uint256;
}.

#[export] Instance CBlockHeader_eq_dec : EqDecision CBlockHeader.
Proof. solve_decision. Defined.

Definition BLOCK_CURRENT_VERSION : Z := 9.
(** [SetNull] *)
Definition CBlockHeader_new : CBlockHeader :=
  BlockHeader BLOCK_CURRENT_VERSION UINT256_ZERO UINT256_ZERO 0 0 0 UINT256_ZERO UINT256_ZERO.
Definition CBlockHeader_IsNull (h : CBlockHeader) : bool := hd_nBits h =? 0.
Definition hd_GetBlockTime (h : CBlockHeader) : Z := hd_nTime h.

Definition has_checkpoint (nVersion : Z) : bool := (3 <? nVersion) && (nVersion <? 7).
Definition has_sapling_root (nVersion : Z) : bool := 8 <=? nVersion.

Definition SerializeHeader (h : CBlockHeader) : list Z :=
  ser int32_c (hd_nVersion h) ++ ser (blob_c 32) (hashPrevBlock h) ++ ser (blob_c 32) (hashMerkleRoot h) ++
  ser uint32_c (hd_nTime h) ++ ser uint32_c (hd_nBits h) ++ ser uint32_c (nNonce h) ++
  (if has_checkpoint (hd_nVersion h) then ser (blob_c 32) (nAccumulatorCheckpoint h) else []) ++
  (if has_sapling_root (hd_nVersion h) then ser (blob_c 32) (hashFinalSaplingRoot h) else []).

(** Reading into the object [h0]. *)
Definition UnserializeHeader (h0 : CBlockHeader) : reader CBlockHeader :=
  v ← unser int32_c; p ← unser (blob_c 32); m ← unser (blob_c 32);
  t ← unser uint32_c; b ← unser uint32_c; n ← unser uint32_c;
  acc ← (if has_checkpoint v then unser (blob_c 32) else mret (nAccumulatorCheckpoint h0));
  sap ← (if has_sapling_root v then unser (blob_c 32) else mret (hashFinalSaplingRoot h0));
  mret (BlockHeader v p m t b n acc sap).

(** A header whose absent fields are null, as a fresh object has them. *)
Definition header_c : codec CBlockHeader :=
  Codec SerializeHeader (UnserializeHeader CBlockHeader_new)
    (fun h => wire int32_c (hd_nVersion h) /\ wire (blob_c 32) (hashPrevBlock h) /\
       wire (blob_c 32) (hashMerkleRoot h) /\ wire uint32_c (hd_nTime h) /\ wire uint32_c (hd_nBits h) /\
       wire uint32_c (nNonce h) /\ wire (blob_c 32) (nAccumulatorCheckpoint h) /\
       wire (blob_c 32) (hashFinalSaplingRoot h) /\
       (has_checkpoint (hd_nVersion h) = false -> nAccumulatorCheckpoint h = UINT256_ZERO) /\
       (has_sapling_root (hd_nVersion h) = false -> hashFinalSaplingRoot h = UINT256_ZERO)).

Section Quark.
Context (sph_blake512 sph_bmw512 sph_groestl512 sph_jh512 sph_keccak512 sph_skein512 : list Z -> list Z).

(** [(hash & mask) != 0] with the mask 8, on a uint512 as its 64 bytes. *)
Definition quark_bit (hash : list Z) : bool := Z.testbit (le_val hash) 3.

Definition HashQuark (data : list Z) : uint256 :=
  let hash0 := sph_blake512 data in
  let hash1 := sph_bmw512 hash0 in
  let hash2 := if quark_bit hash1 then sph_groestl512 hash1 else sph_skein512 hash1 in
  let hash3 := sph_groestl512 hash2 in
  let hash4 := sph_jh512 hash3 in
  let hash5 := if quark_bit hash4 then sph_blake512 hash4 else sph_bmw512 hash4 in
  let hash6 := sph_keccak512 hash5 in
  let hash7 := sph_skein512 hash6 in
  let hash8 := if quark_bit hash7 then sph_keccak512 hash7 else sph_jh512 hash7 in
  take 32 hash8.

(** The 80 bytes from [nVersion] to [nNonce]. *)
Definition header_80 (h : CBlockHeader) : list Z :=
  WriteLE32 (hd_nVersion h) ++ hashPrevBlock h ++ hashMerkleRoot h ++
  WriteLE32 (hd_nTime h) ++ WriteLE32 (hd_nBits h) ++ WriteLE32 (nNonce h).

Definition header_GetHash (h : CBlockHeader) : uint256 :=
  if hd_nVersion h <? 4 then HashQuark (header_80 h) else SerializeHash header_c h.
End Quark.

(** ** Blocks *)

Record CBlock := Block {
  header : CBlockHeader;
  vtx : list CTransaction;
  vchBlockSig : list Z;
}.

Definition CBlock_new : CBlock := Block CBlockHeader_new [] [].

Definition IsProofOfStake (b : CBlock) : bool :=
  (1 <? zlen (vtx b)) && match vtx b !! 1%nat with Some tx => IsCoinStake tx | None => false end.
Definition IsProofOfWork (b : CBlock) : bool := negb (IsProofOfStake b).

Definition GetBlockHeader (b : CBlock) : CBlockHeader :=
  let h := header b in
  BlockHeader (hd_nVersion h) (hashPrevBlock h) (hashMerkleRoot h) (hd_nTime h) (hd_nBits h) (nNonce h)
    (if has_checkpoint (hd_nVersion h) then nAccumulatorCheckpoint h else UINT256_ZERO)
    (if has_sapling_root (hd_nVersion h) then hashFinalSaplingRoot h else UINT256_ZERO).

Definition SerializeBlock (b : CBlock) : list Z :=
  ser header_c (header b) ++ ser (vector_c transaction_c) (vtx b) ++
  (if IsProofOfStake b then ser bytes_c (vchBlockSig b) else []).

Definition UnserializeBlock (b0 : CBlock) : reader CBlock :=
  h ← UnserializeHeader (header b0);
  txs ← unser (vector_c transaction_c);
  sig ← (if IsProofOfStake (Block h txs []) then unser bytes_c else mret (vchBlockSig b0));
  mret (Block h txs sig).

Definition block_c : codec CBlock :=
  Codec SerializeBlock (UnserializeBlock CBlock_new)
    (fun b => wire header_c (header b) /\ wire (vector_c transaction_c) (vtx b) /\ wire bytes_c (vchBlockSig b) /\
       (IsProofOfStake b = false -> vchBlockSig b = [])).

(** [CBlockLocator]: on the wire with the version of the stream in front. *)
Record CBlockLocator := BlockLocator { vHave : list uint256 }.
Definition locator_c (streamVersion : Z) : codec CBlockLocator :=
  Codec (fun l => ser int32_c streamVersion ++ ser (vector_c (blob_c 32)) (vHave l))
    (_ ← unser int32_c; v ← unser (vector_c (blob_c 32)); mret (BlockLocator v))
    (fun l => wire (vector_c (blob_c 32)) (vHave l)).
Definition CBlockLocator_IsNull (l : CBlockLocator) : bool := bool_decide (vHave l = []).

(** ** Round trips *)

Lemma header_ok : codec_ok header_c.
Proof.
  intros h rest (Hv & Hp & Hm & Ht & Hb & Hn & Ha & Hs & Hna & Hns). cbn [ser unser header_c].
  destruct h as [v p m t b n acc sap]. unfold SerializeHeader, UnserializeHeader.
  cbn [hd_nVersion hashPrevBlock hashMerkleRoot hd_nTime hd_nBits nNonce nAccumulatorCheckpoint hashFinalSaplingRoot] in *.
  rewrite <- !app_assoc. rewrite !unser_step by first [solve [auto with codec] | done].
  by rewrite !unser_step_if by first [solve [auto with codec] | done].
Qed.
#[export] Hint Resolve header_ok : codec.

(** What reading the bytes of [b] leaves in an object that held [b0]. *)
Definition block_received (b0 b : CBlock) : CBlock :=
  Block (header b) (vtx b) (if IsProofOfStake b then vchBlockSig b else vchBlockSig b0).

Definition block_wire (b : CBlock) : Prop :=
  wire header_c (header b) /\ wire (vector_c transaction_c) (vtx b) /\ wire bytes_c (vchBlockSig b).

Lemma Unserialize_block_received b0 b rest :
  header b0 = CBlockHeader_new -> block_wire b ->
  UnserializeBlock b0 (SerializeBlock b ++ rest) = Ok (block_received b0 b, rest).
Proof.
  intros H0 (Hh & Ht & Hs). unfold SerializeBlock, UnserializeBlock, block_received. rewrite H0.
  change (UnserializeHeader CBlockHeader_new) with (unser header_c).
  rewrite <- !app_assoc. rewrite !unser_step by first [solve [auto with codec] | done].
  change (IsProofOfStake (Block (header b) (vtx b) [])) with (IsProofOfStake b).
  destruct (IsProofOfStake b); [by rewrite unser_step by first [solve [auto with codec] | done]|done].
Qed.

Lemma block_codec_ok : codec_ok block_c.
Proof.
  intros b rest (Hh & Ht & Hs & Hsig). cbn [ser unser block_c].
  rewrite Unserialize_block_received by done. f_equal. f_equal. destruct b as [h txs sig]. unfold block_received.
  cbn [header vtx vchBlockSig] in *. destruct (IsProofOfStake _); [done|]. by rewrite Hsig.
Qed.
#[export] Hint Resolve block_codec_ok : codec.

(** A block read back from its bytes is the block: header fields that the
    version has, transactions, and the signature of a proof-of-stake block; what
    an object that is used again held in its signature stays there when the new
    block is not proof of stake. *)
Theorem block_roundtrip (b0 b : CBlock) (rest : list Z) :
  header b0 = CBlockHeader_new -> block_wire b ->
  UnserializeBlock b0 (SerializeBlock b ++ rest) = Ok (block_received b0 b, rest) /\
  (IsProofOfStake b = true -> block_received b0 b = b) /\
  (IsProofOfStake b = false -> vchBlockSig (block_received b0 b) = vchBlockSig b0).
Proof.
  intros H0 Hw. split; [by apply Unserialize_block_received|].
  unfold block_received. by destruct b as [h txs sig], (IsProofOfStake _).
Qed.

(** The hash of a header of version 4 or later is the hash of its
    serialization and commits to every field the version has: two different
    such headers with the same hash have serializations that collide, and
    [GetBlockHeader] of a block has the same hash as the block. *)
Theorem header_GetHash_binds (blake bmw groestl jh keccak skein : list Z -> list Z) (h1 h2 : CBlockHeader) :
  wire header_c h1 -> wire header_c h2 -> 4 <= hd_nVersion h1 -> 4 <= hd_nVersion h2 ->
  let GetHash := header_GetHash blake bmw groestl jh keccak skein in
  (GetHash h1 = GetHash h2 -> h1 = h2 \/ hash_collision [[ser header_c h1]; [ser header_c h2]]) /\
  (forall txs sig, GetHash (GetBlockHeader (Block h1 txs sig)) = GetHash h1).
Proof.
  intros W1 W2 V1 V2 GetHash. subst GetHash. split.
  - unfold header_GetHash. destruct (Z.ltb_spec (hd_nVersion h1) 4); [lia|]. destruct (Z.ltb_spec (hd_nVersion h2) 4); [lia|].
    by apply SerializeHash_inj; [auto with codec| |].
  - intros txs sig. f_equal. destruct W1 as (_ & _ & _ & _ & _ & _ & _ & _ & Hna & Hns).
    destruct h1. unfold GetBlockHeader. cbn in *.
    destruct (has_checkpoint _), (has_sapling_root _); f_equal; rewrite ?Hna, ?Hns; done.
Qed.

(** ** Examples *)

Definition sample_header : CBlockHeader :=
  BlockHeader 9 (replicate 32 1) (replicate 32 2) 1600000000 0x1e0ffff0 7 UINT256_ZERO (replicate 32 3).
Definition sample_stake_tx : CTransaction :=
  Transaction 1 0 [TxIn (OutPoint (replicate 32 7) 1) [OP_1] 5]
    [TxOut 0 [] NULL_ROUNDS; TxOut 10 [OP_DUP] NULL_ROUNDS] 99 (Some SaplingTxData_new) None.
Definition sample_block : CBlock := Block sample_header [sample_stake_tx; sample_stake_tx] [1; 2; 3].

Lemma block_roundtrip_witness :
  UnserializeBlock (Block CBlockHeader_new [] [9]) (SerializeBlock sample_block ++ [42]) = Ok (sample_block, [42]) /\
  (IsProofOfStake sample_block = true ->
   block_received (Block CBlockHeader_new [] [9]) sample_block = sample_block) /\
  (IsProofOfStake sample_block = false -> vchBlockSig (block_received (Block CBlockHeader_new [] [9]) sample_block) = [9]).
Proof.
  apply (block_roundtrip (Block CBlockHeader_new [] [9]) sample_block [42]); [reflexivity|].
  unfold block_wire; cbn; unfold in_s, in_u, MAX_SIZE; cbn.
  split_and!; repeat (constructor || lia || done); cbn; unfold MAX_SIZE; intros; try done; lia.
Defined.

Lemma header_GetHash_binds_witness :
  let GetHash := header_GetHash id id id id id id in
  GetHash sample_header = GetHash sample_header /\ (sample_header = sample_header \/
     hash_collision [[ser header_c sample_header]; [ser header_c sample_header]]).
Proof.
  assert (wire header_c sample_header) as W.
  { cbn; unfold in_s, in_u; cbn. split_and!; try done; lia. }
  assert (4 <= hd_nVersion sample_header) as V by (cbn; lia).
  split; [done|]. by apply (header_GetHash_binds id id id id id id sample_header sample_header W W V V).
Defined.
