(* ===== verification/Merkle.v ===== *)
(** * Merkle roots and branches: consensus/merkle.cpp

    [MerkleComputation] as the code has it: one pass over the leaves with the
    array [inner] of finished subtrees, then the sweep that duplicates odd
    nodes.  A shift by 32 or more is undefined, hence [Abort]; the loops over
    levels have the levels left as fuel.  The reference definition is the tree
    built level by level ([level]), and the theorems say that the root, the
    branch and the mutation flag are those of that tree. *)
From S2P Require Import Prelude Serialize HashStream Sha256 Hash Script Interpreter Standard Transaction Block.

(** ** The computation *)

(** What one step adds to [pbranch] (a null pointer is [None]), with the new
    [matchh]: [x] is the left node, [h] the right one. *)
Definition note_branch (pbranch : option (list uint256)) (matchh here : bool) (x h : uint256)
  : option (list uint256) * bool :=
  match pbranch with
  | None => (None, matchh)
  | Some b => if matchh then (Some (b ++ [x]), true)
              else if here then (Some (b ++ [h]), true) else (Some b, false)
  end.

(** The loop over the zero bits of [count] from [level] on, where [h] is the
    node reached.  The sweep at the end runs the same steps and drops
    [mutated]. *)
Fixpoint combine_loop (fuel : nat) (inner : list uint256) (count matchlevel : Z) (level : nat) (h : uint256)
    (matchh : bool) (pbranch : option (list uint256)) (mutated : bool)
  : outcome unit (nat * uint256 * bool * option (list uint256) * bool) :=
  match fuel with
  | O => Abort
  | S fuel =>
      if Z.testbit count (Z.of_nat level) then Ok (level, h, matchh, pbranch, mutated) else
      x ← rd inner (Z.of_nat level);
      let '(pbranch, matchh) := note_branch pbranch matchh (matchlevel =? Z.of_nat level) x h in
      combine_loop fuel inner count matchlevel (S level) (Hash [x; h]) matchh pbranch
        (mutated || bool_decide (x = h))
  end.

(** The loop over the leaves from number [count] on. *)
Fixpoint leaves_loop (leaves : list uint256) (branchpos count : Z) (inner : list uint256) (matchlevel : Z)
    (pbranch : option (list uint256)) (mutated : bool)
  : outcome unit (Z * list uint256 * Z * option (list uint256) * bool) :=
  match leaves with
  | [] => Ok (count, inner, matchlevel, pbranch, mutated)
  | h :: leaves =>
      let matchh := count =? branchpos in
      let count := u32 (count + 1) in
      r ← combine_loop 32 inner count matchlevel 0 h matchh pbranch mutated;
      let '(level, h, matchh, pbranch, mutated) := r in
      leaves_loop leaves branchpos count (<[level := h]> inner)
        (if (matchh : bool) then Z.of_nat level else matchlevel) pbranch mutated
  end.

Fixpoint first_bit (fuel : nat) (count : Z) (level : nat) : outcome unit nat :=
  match fuel with
  | O => Abort
  | S fuel => if Z.testbit count (Z.of_nat level) then Ok level else first_bit fuel count (S level)
  end.

Fixpoint sweep_loop (fuel : nat) (inner : list uint256) (count matchlevel : Z) (level : nat) (h : uint256)
    (matchh : bool) (pbranch : option (list uint256)) : outcome unit (uint256 * option (list uint256)) :=
  match fuel with
  | O => Abort
  | S fuel =>
      if count =? 2 ^ Z.of_nat level then Ok (h, pbranch) else
      let pbranch := if matchh then option_map (fun b => b ++ [h]) pbranch else pbranch in
      let h := Hash [h; h] in
      let count := u32 (count + 2 ^ Z.of_nat level) in
      let level := S level in
      r ← combine_loop (32 - level) inner count matchlevel level h matchh pbranch false;
      let '(level, h, matchh, pbranch, _) := r in
      sweep_loop fuel inner count matchlevel level h matchh pbranch
  end.

(** The root, [mutated], and the branch when [pbranch] is not null. *)
Definition MerkleComputation (leaves : list uint256) (branchpos : Z) (want_branch : bool)
  : outcome unit (uint256 * bool * option (list uint256)) :=
  let pbranch := if want_branch then Some [] else None in
  if bool_decide (leaves = []) then Ok (UINT256_ZERO, false, pbranch) else
  r ← leaves_loop leaves branchpos 0 (replicate 32 UINT256_ZERO) (-1) pbranch false;
  let '(count, inner, matchlevel, pbranch, mutated) := r in
  level ← first_bit 32 count 0;
  h ← rd inner (Z.of_nat level);
  r ← sweep_loop 33 inner count matchlevel level h (matchlevel =? Z.of_nat level) pbranch;
  let '(h, pbranch) := r in
  Ok (h, mutated, pbranch).

Definition ComputeMerkleRoot (leaves : list uint256) : outcome unit (uint256 * bool) :=
  r ← MerkleComputation leaves (u32 (-1)) false; Ok (r.1.1, r.1.2).

Definition ComputeMerkleBranch (leaves : list uint256) (position : Z) : outcome unit (list uint256) :=
  r ← MerkleComputation leaves position true; Ok (default [] r.2).

Fixpoint ComputeMerkleRootFromBranch (hash : uint256) (vMerkleBranch : list uint256) (nIndex : Z)
  {struct vMerkleBranch} : uint256 :=
  match vMerkleBranch with
  | [] => hash
  | it :: vMerkleBranch =>
      ComputeMerkleRootFromBranch (if Z.testbit nIndex 0 then Hash [it; hash] else Hash [hash; it])
        vMerkleBranch (Z.shiftr nIndex 1)
  end.

Definition BlockMerkleRoot (block : CBlock) : outcome unit (uint256 * bool) :=
  ComputeMerkleRoot (map GetHash (vtx block)).
Definition BlockMerkleBranch (block : CBlock) (position : Z) : outcome unit (list uint256) :=
  ComputeMerkleBranch (map GetHash (vtx block)) position.

(** ** The tree, level by level *)

(** The pairs of a level, an odd last node with itself, and their hashes: the
    level above. *)
Fixpoint pairs_of (l : list uint256) : list (list uint256) :=
  match l with
  | x :: y :: l => [x; y] :: pairs_of l
  | [x] => [[x; x]]
  | [] => []
  end.
Definition parents_of (l : list uint256) : list uint256 := map Hash (pairs_of l).

(** Level [k]; level 0 are the leaves. *)
Fixpoint level (k : nat) (leaves : list uint256) : list uint256 :=
  match k with O => leaves | S k => parents_of (level k leaves) end.

(** The height of the tree over [n] leaves, and its root. *)
Definition height (n : nat) : nat := Z.to_nat (Z.log2_up (Z.of_nat n)).
Definition tree_root (leaves : list uint256) : uint256 :=
  default UINT256_ZERO (level (height (length leaves)) leaves !! 0%nat).

(** The pairs hashed to build the tree. *)
Definition tree_inputs (leaves : list uint256) : list (list uint256) :=
  concat (map (fun k => pairs_of (level k leaves)) (seq 0 (height (length leaves)))).

(** The pairs hashed to climb a branch. *)
Fixpoint branch_inputs (hash : uint256) (vMerkleBranch : list uint256) (nIndex : Z)
  {struct vMerkleBranch} : list (list uint256) :=
  match vMerkleBranch with
  | [] => []
  | it :: rest =>
      let pair := if Z.testbit nIndex 0 then [it; hash] else [hash; it] in
      pair :: branch_inputs (Hash pair) rest (Z.shiftr nIndex 1)
  end.

#[local] Opaque Hash.

(** *** Lookups in a level *)

Lemma pairs_lookup l : forall j,
  pairs_of l !! j = x ← l !! (2 * j)%nat; Some [x; default x (l !! (2 * j + 1)%nat)].
Proof.
  induction l as [l IH] using (induction_ltof1 _ (@length uint256)). unfold ltof in IH. intros j.
  destruct l as [|x [|y l]]; [done| |].
  - destruct j as [|j]; [done|]. replace (2 * S j)%nat with (S (S (2 * j))) by lia. done.
  - destruct j as [|j]; [done|]. cbn [pairs_of]. rewrite lookup_cons.
    rewrite (IH l) by (cbn; lia).
    replace (2 * S j)%nat with (S (S (2 * j))) by lia. replace (S (S (2 * j)) + 1)%nat with (S (S (2 * j + 1))) by lia.
    reflexivity.
Qed.
Lemma parents_lookup l j :
  parents_of l !! j = x ← l !! (2 * j)%nat; Some (Hash [x; default x (l !! (2 * j + 1)%nat)]).
Proof.
  unfold parents_of. change (map Hash) with (fmap (M := list) Hash). rewrite list_lookup_fmap, pairs_lookup.
  by destruct (l !! (2 * j)%nat).
Qed.

Section Tree.
Context (leaves : list uint256).
Notation n := (zlen leaves).

(** Node [q] of level [k]. *)
Definition node (k : nat) (q : Z) : uint256 := default [] (level k leaves !! Z.to_nat q).

Lemma node_some k q : 0 <= q -> q * 2 ^ Z.of_nat k < n -> level k leaves !! Z.to_nat q = Some (node k q).
Proof.
  intros Hq Hn. unfold node. enough (is_Some (level k leaves !! Z.to_nat q)) as [x ->] by done.
  revert q Hq Hn. induction k as [|k IH]; intros q Hq Hn.
  - cbn [level]. apply lookup_lt_is_Some_2. rewrite Z.mul_1_r in Hn. lia.
  - cbn [level]. rewrite parents_lookup. replace (2 * Z.to_nat q)%nat with (Z.to_nat (2 * q)) by lia.
    destruct (IH (2 * q)) as [x ->]; [lia| |by eexists].
    rewrite Nat2Z.inj_succ, Z.pow_succ_r in Hn by lia. lia.
Qed.

Lemma node_none k q : 0 <= q -> n <= q * 2 ^ Z.of_nat k -> level k leaves !! Z.to_nat q = None.
Proof.
  revert q. induction k as [|k IH]; intros q Hq Hn; cbn [level].
  - apply lookup_ge_None_2. rewrite Z.mul_1_r in Hn. lia.
  - rewrite parents_lookup. replace (2 * Z.to_nat q)%nat with (Z.to_nat (2 * q)) by lia.
    rewrite IH; [done|lia|]. rewrite Nat2Z.inj_succ, Z.pow_succ_r in Hn by lia. lia.
Qed.

Lemma node_pair k q : 0 <= q -> (2 * q + 1) * 2 ^ Z.of_nat k < n ->
  node (S k) q = Hash [node k (2 * q); node k (2 * q + 1)].
Proof.
  intros Hq Hn. unfold node at 1. cbn [level]. rewrite parents_lookup.
  replace (2 * Z.to_nat q)%nat with (Z.to_nat (2 * q)) by lia.
  replace (Z.to_nat (2 * q) + 1)%nat with (Z.to_nat (2 * q + 1)) by lia.
  rewrite (node_some k (2 * q)) by nia. rewrite (node_some k (2 * q + 1)) by lia. done.
Qed.

Lemma node_dup k q : 0 <= q -> 2 * q * 2 ^ Z.of_nat k < n <= (2 * q + 1) * 2 ^ Z.of_nat k ->
  node (S k) q = Hash [node k (2 * q); node k (2 * q)].
Proof.
  intros Hq Hn. unfold node at 1. cbn [level]. rewrite parents_lookup.
  replace (2 * Z.to_nat q)%nat with (Z.to_nat (2 * q)) by lia.
  replace (Z.to_nat (2 * q) + 1)%nat with (Z.to_nat (2 * q + 1)) by lia.
  rewrite (node_some k (2 * q)) by lia. by rewrite (node_none k (2 * q + 1)) by lia.
Qed.

(** *** One step of the climb *)

Context (p : Z).

(** The sibling of leaf [p]'s ancestor at level [k], and the branch below [m]. *)
Definition sibling (k : nat) : uint256 :=
  let q := p / 2 ^ Z.of_nat k in
  if Z.odd q then node k (q - 1)
  else if (q + 1) * 2 ^ Z.of_nat k <? n then node k (q + 1) else node k q.
Definition branch_upto (m : nat) : list uint256 := map sibling (seq 0 m).

(** Where the matching leaf is when the climb is at node [q] of level [k]: below
    it, below a node of [inner], or still to come. *)
Definition matched (ml : Z) (k : nat) (q : Z) (matchh : bool) (b : list uint256) : Prop :=
  (matchh = true /\ p / 2 ^ Z.of_nat k = q /\ b = branch_upto k) \/
  (matchh = false /\ exists m, (k <= m)%nat /\ ml = Z.of_nat m /\ Z.odd (q / 2 ^ Z.of_nat (m - k)) = true /\
     p / 2 ^ Z.of_nat m = q / 2 ^ Z.of_nat (m - k) - 1 /\ b = branch_upto m) \/
  (matchh = false /\ ml = -1 /\ (q + 1) * 2 ^ Z.of_nat k <= p /\ b = []).
Definition pb_ok ml k q matchh (pb : option (list uint256)) : Prop :=
  match pb with None => True | Some b => matched ml k q matchh b end.

(** [inner] holds the left sibling of every ancestor of node [q] that has one. *)
Definition inner_at (inner : list uint256) (k : nat) (q : Z) : Prop :=
  forall i, (k <= i < 32)%nat -> Z.odd (q / 2 ^ Z.of_nat (i - k)) = true ->
  inner !! i = Some (node i (q / 2 ^ Z.of_nat (i - k) - 1)).

Lemma div_up q k i : (S k <= i)%nat -> q / 2 ^ Z.of_nat (i - k) = q / 2 / 2 ^ Z.of_nat (i - S k).
Proof.
  intros H. replace (i - k)%nat with (S (i - S k)) by lia.
  by rewrite Nat2Z.inj_succ, Z.pow_succ_r, Z.div_div by lia.
Qed.

Lemma inner_at_S inner k q : inner_at inner k q -> inner_at inner (S k) (q / 2).
Proof. intros H i Hi. rewrite <- div_up by lia. apply H. lia. Qed.

Lemma pow2_step k : 2 ^ Z.of_nat (S k) = 2 * 2 ^ Z.of_nat k.
Proof. by rewrite Nat2Z.inj_succ, Z.pow_succ_r by lia. Qed.

Lemma odd_half q : Z.odd q = true -> q = 2 * (q / 2) + 1.
Proof. intros H. pose proof (Z.div2_odd q) as E. rewrite H, Z.div2_div in E. done. Qed.
Lemma even_half q : Z.odd q = false -> q = 2 * (q / 2).
Proof. intros H. pose proof (Z.div2_odd q) as E. rewrite H, Z.div2_div in E. cbn [Z.b2z] in E. lia. Qed.

Lemma div_pow_S x k : x / 2 ^ Z.of_nat (S k) = x / 2 ^ Z.of_nat k / 2.
Proof. rewrite pow2_step, Z.mul_comm, Z.div_div by lia. done. Qed.

Lemma branch_snoc k : branch_upto (S k) = branch_upto k ++ [sibling k].
Proof. unfold branch_upto. rewrite seq_S, map_app. done. Qed.

(** The bit of the counter that the loop looks at. *)
Lemma counter_bit q k : Z.testbit ((q + 1) * 2 ^ Z.of_nat k) (Z.of_nat k) = negb (Z.odd q).
Proof.
  rewrite Z.mul_pow2_bits by lia. rewrite Z.sub_diag, Z.bit0_odd, Z.odd_add. by destruct (Z.odd q).
Qed.

(** Climbing from a right child keeps track of the matching leaf. *)
Lemma note_branch_ok ml k q matchh pb :
  0 <= q -> q * 2 ^ Z.of_nat k < n -> Z.odd q = true -> pb_ok ml k q matchh pb ->
  let '(pb', matchh') := note_branch pb matchh (ml =? Z.of_nat k) (node k (q - 1)) (node k q) in
  pb_ok ml (S k) (q / 2) matchh' pb'.
Proof.
  intros Hq Hn Ho Hp. destruct pb as [b|]; [|done]. cbn [pb_ok] in Hp. unfold note_branch.
  destruct Hp as [(-> & Hpq & ->)|[(-> & m & Hkm & -> & Hodd & Hpm & ->)|(-> & -> & Hlt & ->)]]; cbn [pb_ok].
  - left. rewrite div_pow_S, Hpq. split_and!; [done..|]. rewrite branch_snoc. f_equal. unfold sibling.
    by rewrite Hpq, Ho.
  - destruct (Z.eqb_spec (Z.of_nat m) (Z.of_nat k)) as [E|Hne].
    + apply Nat2Z.inj in E as ->. rewrite Nat.sub_diag, Z.div_1_r in *.
      left. rewrite div_pow_S, Hpm. split_and!; [done| |].
      * pose proof (odd_half q Ho). replace (q - 1) with (q / 2 * 2) by lia. by apply Z.div_mul.
      * rewrite branch_snoc. f_equal. unfold sibling. rewrite Hpm, Z.odd_sub, Ho. cbn [xorb Z.odd].
        replace (q - 1 + 1) with q by lia. by destruct (Z.ltb_spec (q * 2 ^ Z.of_nat k) n); [|lia].
    + right. left. split; [done|]. exists m. split; [lia|]. split; [done|].
      by rewrite <- div_up by lia.
  - destruct (Z.eqb_spec (-1) (Z.of_nat k)); [lia|]. right. right. split_and!; [done..| |done].
    pose proof (odd_half q Ho). rewrite pow2_step. nia.
Qed.

(** *** The loops *)

(** Two equal nodes hashed together at level [i] or above, when the counter is [C]. *)
Definition equal_pair (k : nat) (C : Z) : Prop :=
  exists i r, (k <= i)%nat /\ 0 <= r /\ (2 * r + 2) * 2 ^ Z.of_nat i = C /\ node i (2 * r) = node i (2 * r + 1).

Lemma equal_pair_S k q :
  0 <= q -> Z.odd q = true ->
  equal_pair k ((q + 1) * 2 ^ Z.of_nat k) <->
  node k (q - 1) = node k q \/ equal_pair (S k) ((q + 1) * 2 ^ Z.of_nat k).
Proof.
  intros Hq Ho. pose proof (odd_half q Ho) as Hh. split.
  - intros (i & r & Hi & Hr & HC & E). destruct (decide (i = k)) as [->|]; [left|right; exists i, r; split_and!; [lia|done..]].
    apply Z.mul_reg_r in HC; [|lia]. replace (q - 1) with (2 * r) by lia. by replace q with (2 * r + 1) by lia.
  - intros [E|(i & r & Hi & Hrest)]; [|exists i, r; split; [lia|done]].
    exists k, (q / 2). split; [lia|]. split; [lia|]. split; [f_equal; lia|].
    by rewrite <- Hh, <- E; f_equal; lia.
Qed.

Lemma combine_spec fuel : forall k q C inner ml matchh pb mut,
  (k + fuel = 32)%nat -> 0 <= q -> q * 2 ^ Z.of_nat k < n -> C = (q + 1) * 2 ^ Z.of_nat k -> C < 2 ^ 32 ->
  inner_at inner k q -> pb_ok ml k q matchh pb -> 2 ^ Z.of_nat k < 2 * n ->
  exists k' q' matchh' pb' mut',
    combine_loop fuel inner C ml k (node k q) matchh pb mut = Ok (k', node k' q', matchh', pb', mut') /\
    (k <= k' < 32)%nat /\ 0 <= q' /\ Z.odd q' = false /\ C = (q' + 1) * 2 ^ Z.of_nat k' /\
    q' * 2 ^ Z.of_nat k' < n /\ 2 ^ Z.of_nat k' < 2 * n /\
    q' = q / 2 ^ Z.of_nat (k' - k) /\
    inner_at inner k' q' /\ pb_ok ml k' q' matchh' pb' /\ (pb' = None <-> pb = None) /\
    (mut' = true <-> mut = true \/ equal_pair k C).
Proof.
  induction fuel as [|fuel IH]; intros k q C inner ml matchh pb mut Hf Hq Hn HC HC32 Hin Hpb Hk.
  { exfalso. assert (2 ^ Z.of_nat k = 2 ^ 32) as E by (f_equal; lia). nia. }
  subst C. cbn [combine_loop]. rewrite counter_bit. destruct (Z.odd q) eqn:Ho; cbn [negb].
  - pose proof (odd_half q Ho) as Hh.
    assert ((q + 1) * 2 ^ Z.of_nat k = (q / 2 + 1) * 2 ^ Z.of_nat (S k)) as HCS
      by (rewrite pow2_step; replace (q + 1) with (2 * (q / 2 + 1)) by lia; ring).
    assert (q / 2 * 2 ^ Z.of_nat (S k) <= q * 2 ^ Z.of_nat k) as HqS
      by (rewrite pow2_step; replace q with (2 * (q / 2) + 1) at 2 by lia; lia).
    rewrite (rd_lookup_nat _ k (node k (q - 1))).
    2:{ specialize (Hin k ltac:(lia)). rewrite Nat.sub_diag, Z.div_1_r in Hin. by apply Hin. }
    cbn [mbind outcome_bind]. pose proof (note_branch_ok ml k q matchh pb Hq Hn Ho Hpb) as Hnb.
    destruct (note_branch pb matchh (ml =? Z.of_nat k) (node k (q - 1)) (node k q)) as [pb1 matchh1] eqn:En.
    assert (Hash [node k (q - 1); node k q] = node (S k) (q / 2)) as ->.
    { rewrite node_pair by lia. f_equal. f_equal; [|do 2 f_equal; lia]. f_equal. lia. }
    destruct (IH (S k) (q / 2) ((q + 1) * 2 ^ Z.of_nat k) inner ml matchh1 pb1
                (mut || bool_decide (node k (q - 1) = node k q)))
      as (k' & q' & m' & pb' & mut' & E & H1 & H2 & H3 & H4 & H5 & H6 & H7 & H8 & H9 & H10 & H11);
      try first [lia | by apply inner_at_S | done | rewrite pow2_step; nia].
    exists k', q', m', pb', mut'. split; [exact E|]. split_and!; try done; try lia.
    + by rewrite H7, (div_up q k k') by lia.
    + rewrite H10. unfold note_branch in En. destruct pb as [b|]; [|by injection En as <- <-].
      destruct matchh; [|destruct (ml =? Z.of_nat k)]; by injection En as <- <-.
    + rewrite H11, equal_pair_S by done. rewrite orb_true_iff, bool_decide_eq_true. tauto.
  - exists k, q, matchh, pb, mut. split; [done|]. rewrite Nat.sub_diag, Z.div_1_r.
    split_and!; try done; try lia. split; [by left|]. intros [|(i & r & Hi & Hr & HCi & _)]; [done|exfalso].
    pose proof (even_half q Ho) as Hh.
    replace (Z.of_nat i) with (Z.of_nat k + Z.of_nat (i - k)) in HCi by lia. rewrite Z.pow_add_r in HCi by lia.
    assert (2 * ((r + 1) * 2 ^ Z.of_nat (i - k)) = q + 1) by nia. lia.
Qed.

(** The state of the loop over the leaves after [c] of them. *)
Definition inner_ok (inner : list uint256) (c : Z) : Prop :=
  length inner = 32%nat /\
  forall i, (i < 32)%nat -> Z.odd (c / 2 ^ Z.of_nat i) = true ->
  inner !! i = Some (node i (c / 2 ^ Z.of_nat i - 1)).
Definition past (ml c : Z) (b : list uint256) : Prop :=
  (c <= p /\ ml = -1 /\ b = []) \/
  (exists m, ml = Z.of_nat m /\ Z.odd (c / 2 ^ Z.of_nat m) = true /\
     p / 2 ^ Z.of_nat m = c / 2 ^ Z.of_nat m - 1 /\ b = branch_upto m).
Definition past_pb ml c (pb : option (list uint256)) : Prop :=
  match pb with None => True | Some b => past ml c b end.

(** Two equal nodes whose subtrees are full and end before leaf [c]. *)
Definition pair_below (c : Z) : Prop :=
  exists i r, 0 <= r /\ (2 * r + 2) * 2 ^ Z.of_nat i <= c /\ node i (2 * r) = node i (2 * r + 1).

Lemma counter_div q k i : 0 <= q -> Z.odd q = false -> (k < i)%nat ->
  (q + 1) * 2 ^ Z.of_nat k / 2 ^ Z.of_nat i = q / 2 ^ Z.of_nat (i - k).
Proof.
  intros Hq Ho Hi. replace (2 ^ Z.of_nat i) with (2 ^ Z.of_nat (i - k) * 2 ^ Z.of_nat k)
    by (rewrite <- Z.pow_add_r by lia; f_equal; lia).
  rewrite Z.div_mul_cancel_r by lia. rewrite (div_up (q + 1) k i), (div_up q k i) by lia. f_equal.
  replace (q + 1) with (q / 2 * 2 + 1) by (pose proof (even_half q Ho); lia).
  rewrite Z.div_add_l by lia. change (1 / 2) with 0. lia.
Qed.

Lemma counter_low x k i : (i < k)%nat -> Z.odd (x * 2 ^ Z.of_nat k / 2 ^ Z.of_nat i) = false.
Proof.
  intros Hi. replace (x * 2 ^ Z.of_nat k) with (x * 2 ^ Z.of_nat (k - i - 1) * 2 * 2 ^ Z.of_nat i).
  - rewrite Z.div_mul by lia. by rewrite Z.odd_mul, andb_false_r.
  - rewrite <- !Z.mul_assoc. f_equal. rewrite <- (Z.pow_succ_r 2 (Z.of_nat i)) by lia. rewrite <- Z.pow_add_r by lia. f_equal. lia.
Qed.

Lemma counter_at q k : (q + 1) * 2 ^ Z.of_nat k / 2 ^ Z.of_nat k - 1 = q.
Proof. rewrite Z.div_mul by lia. lia. Qed.

Lemma past_matched ml c pb : 0 <= c -> past_pb ml c pb -> pb_ok ml 0 c (c =? p) pb.
Proof.
  intros Hc. destruct pb as [b|]; [|done]. cbn [past_pb pb_ok]. unfold matched. rewrite Z.mul_1_r, Z.div_1_r.
  intros [(Hp & -> & ->)|(m & -> & Ho & Hp & ->)].
  - destruct (Z.eqb_spec c p); [left|right; right]; split_and!; try done; lia.
  - right. left. destruct (Z.eqb_spec c p) as [->|]; [lia|]. split; [done|]. exists m.
    rewrite Nat.sub_0_r. split_and!; try done. lia.
Qed.

Lemma matched_past ml k q matchh pb :
  0 <= q -> Z.odd q = false -> pb_ok ml k q matchh pb ->
  past_pb (if matchh then Z.of_nat k else ml) ((q + 1) * 2 ^ Z.of_nat k) pb.
Proof.
  intros Hq Ho. destruct pb as [b|]; [|done]. cbn [past_pb pb_ok].
  intros [(-> & Hp & ->)|[(-> & m & Hm & -> & Hodd & Hp & ->)|(-> & -> & Hp & ->)]].
  - right. exists k. rewrite counter_at, Z.div_mul by lia. split_and!; try done.
    by rewrite Z.odd_add, Ho.
  - right. exists m. destruct (decide (m = k)) as [->|].
    { rewrite Nat.sub_diag, Z.div_1_r in Hodd. congruence. }
    by rewrite counter_div by (done || lia).
  - left. done.
Qed.

Lemma inner_ok_store inner k q :
  (k < 32)%nat -> 0 <= q -> Z.odd q = false -> length inner = 32%nat -> inner_at inner k q ->
  inner_ok (<[k := node k q]> inner) ((q + 1) * 2 ^ Z.of_nat k).
Proof.
  intros Hk Hq Ho Hl Hin. split; [by rewrite length_insert|]. intros i Hi Hodd.
  destruct (Nat.lt_trichotomy i k) as [Hlt|[->|Hgt]].
  - by rewrite counter_low in Hodd.
  - rewrite counter_at. apply list_lookup_insert_eq. lia.
  - rewrite list_lookup_insert_ne by lia. rewrite counter_div in * by (done || lia). apply Hin; [lia|done].
Qed.

Lemma inner_ok_at inner k q :
  0 <= q -> Z.odd q = false -> inner_ok inner ((q + 1) * 2 ^ Z.of_nat k) -> inner_at inner k q.
Proof.
  intros Hq Ho [Hl Hin] i Hi Hodd. destruct (decide (i = k)) as [->|].
  { rewrite Nat.sub_diag, Z.div_1_r in Hodd. congruence. }
  rewrite <- (counter_div q k i) in * by (done || lia). apply Hin; [lia|done].
Qed.

Lemma pair_below_S c : 0 <= c -> pair_below (c + 1) <-> pair_below c \/ equal_pair 0 (c + 1).
Proof.
  intros Hc. split.
  - intros (i & r & Hr & Hle & E). destruct (decide ((2 * r + 2) * 2 ^ Z.of_nat i <= c)).
    + left. by exists i, r.
    + right. exists i, r. split_and!; [lia|done|lia|done].
  - intros [(i & r & Hr & Hle & E)|(i & r & _ & Hr & Hle & E)]; exists i, r; split_and!; (done || lia).
Qed.

Hypothesis Hn : n <= 2 ^ 31.

Lemma leaves_loop_spec rest : forall c inner ml pb mut,
  drop (Z.to_nat c) leaves = rest -> 0 <= c -> c + zlen rest = n ->
  inner_ok inner c -> past_pb ml c pb -> (mut = true <-> pair_below c) ->
  exists inner' ml' pb' mut',
    leaves_loop rest p c inner ml pb mut = Ok (n, inner', ml', pb', mut') /\
    inner_ok inner' n /\ past_pb ml' n pb' /\ (pb' = None <-> pb = None) /\ (mut' = true <-> pair_below n).
Proof.
  induction rest as [|h rest IH]; intros c inner ml pb mut Hd Hc Hl Hin Hpb Hmut.
  { cbn in Hl. assert (c = n) as -> by lia. exists inner, ml, pb, mut. done. }
  cbn [leaves_loop length] in *.
  assert (leaves !! Z.to_nat c = Some h) as Hh by (by rewrite <- (Nat.add_0_r (Z.to_nat c)), <- lookup_drop, Hd).
  assert (h = node 0 c) as -> by (unfold node; cbn [level]; by rewrite Hh).
  rewrite wrapu_small by (unfold in_u; lia). pose proof Hin as [Hlen Hin0].
  destruct (combine_spec 32 0 c (c + 1) inner ml (c =? p) pb mut)
    as (k & q & mh & pb' & mut' & E & Hk & Hq & Ho & HC & Hqn & _ & _ & Hat & Hpb' & Hnone & Hm');
    try first [done | lia | by apply past_matched].
  { intros i Hi Hodd. rewrite Nat.sub_0_r in *. apply Hin0; [lia|done]. }
  rewrite E. cbn [mbind outcome_bind]. setoid_rewrite <- Hnone.
  apply IH; try lia.
  - rewrite Z2Nat.inj_add by lia. by rewrite <- drop_drop, Hd.
  - rewrite HC. by apply inner_ok_store; first [lia|done].
  - rewrite HC. by apply matched_past.
  - rewrite Hm', Hmut, pair_below_S by done. done.
Qed.

Lemma first_bit_spec fuel : forall k q, (k + fuel = 32)%nat -> 0 <= q -> (q + 1) * 2 ^ Z.of_nat k < 2 ^ 32 ->
  exists k' q', first_bit fuel ((q + 1) * 2 ^ Z.of_nat k) k = Ok k' /\ (k' < 32)%nat /\ 0 <= q' /\
    Z.odd q' = false /\ (q + 1) * 2 ^ Z.of_nat k = (q' + 1) * 2 ^ Z.of_nat k'.
Proof.
  induction fuel as [|fuel IH]; intros k q Hf Hq HC.
  { exfalso. assert (2 ^ Z.of_nat k = 2 ^ 32) as E by (f_equal; lia). nia. }
  cbn [first_bit]. rewrite counter_bit. destruct (Z.odd q) eqn:Ho; cbn [negb].
  - pose proof (odd_half q Ho) as Hh.
    assert ((q + 1) * 2 ^ Z.of_nat k = (q / 2 + 1) * 2 ^ Z.of_nat (S k)) as HCS
      by (rewrite pow2_step; replace (q + 1) with (2 * (q / 2 + 1)) by lia; ring).
    rewrite HCS in *. apply IH; lia.
  - exists k, q. split_and!; first [done|lia].
Qed.

(** The node is hashed with itself: the sibling of the matching leaf is its own
    ancestor. *)
Lemma dup_branch_ok ml k q matchh pb :
  (pb <> None -> p < n) -> 0 <= q -> Z.odd q = false -> n <= (q + 1) * 2 ^ Z.of_nat k ->
  pb_ok ml k q matchh pb ->
  pb_ok ml (S k) (q / 2) matchh (if matchh then option_map (fun b => b ++ [node k q]) pb else pb).
Proof.
  intros Hp Hq Ho HC. destruct pb as [b|]; [|by destruct matchh]. specialize (Hp ltac:(done)). cbn [pb_ok option_map].
  intros [(-> & Hpq & ->)|[(-> & m & Hm & -> & Hodd & Hpm & ->)|(-> & -> & Hlt & ->)]]; [| |lia].
  - left. rewrite div_pow_S, Hpq. split_and!; [done..|]. rewrite branch_snoc. do 2 f_equal. unfold sibling.
    rewrite Hpq, Ho. by destruct (Z.ltb_spec ((q + 1) * 2 ^ Z.of_nat k) n); [lia|].
  - right. left. split; [done|]. exists m. destruct (decide (m = k)) as [->|].
    { rewrite Nat.sub_diag, Z.div_1_r in Hodd. congruence. }
    rewrite <- (div_up q k m) by lia. split_and!; first [done|lia].
Qed.

Lemma sweep_spec fuel : forall k q inner ml matchh pb,
  (33 <= k + fuel)%nat -> (k < 32)%nat -> 0 <= q -> Z.odd q = false -> q * 2 ^ Z.of_nat k < n <= (q + 1) * 2 ^ Z.of_nat k ->
  2 ^ Z.of_nat k < 2 * n -> inner_at inner k q -> (pb <> None -> p < n) -> pb_ok ml k q matchh pb ->
  exists pb', sweep_loop fuel inner ((q + 1) * 2 ^ Z.of_nat k) ml k (node k q) matchh pb
              = Ok (node (height (length leaves)) 0, pb') /\
    (pb' = None <-> pb = None) /\ (forall b, pb' = Some b -> b = branch_upto (height (length leaves))).
Proof.
  induction fuel as [|fuel IH]; intros k q inner ml matchh pb Hf Hk Hq Ho Hqn Hk2 Hin Hp Hpb; [lia|].
  cbn [sweep_loop]. destruct (Z.eqb_spec ((q + 1) * 2 ^ Z.of_nat k) (2 ^ Z.of_nat k)) as [E|Hne].
  - assert (q = 0) as -> by nia. rewrite Z.add_0_l, Z.mul_1_l in *.
    assert (height (length leaves) = k) as ->.
    { unfold height. destruct k as [|k].
      - change (2 ^ Z.of_nat 0) with 1 in *. assert (n = 1) as -> by lia. done.
      - rewrite (Z.log2_up_unique _ (Z.of_nat (S k))); [lia..|]. rewrite Nat2Z.inj_succ, Z.pred_succ.
        pose proof (pow2_step k). lia. }
    exists pb. split_and!; [done..|]. intros b ->. cbn [pb_ok] in Hpb. specialize (Hp ltac:(done)).
    destruct Hpb as [(_ & _ & ->)|[(_ & m & _ & _ & Hodd & _)|(_ & _ & Hlt & _)]]; [done| |lia].
    rewrite Zdiv_0_l in Hodd. done.
  - pose proof (even_half q Ho) as Hh. assert (2 <= q) as Hq2 by nia.
    assert ((q + 1) * 2 ^ Z.of_nat k + 2 ^ Z.of_nat k = (q / 2 + 1) * 2 ^ Z.of_nat (S k)) as HCS
      by (rewrite pow2_step, Hh at 1; ring).
    assert (2 ^ Z.of_nat (S k) <= q * 2 ^ Z.of_nat k) as Hbig by (rewrite pow2_step; nia).
    assert (q * 2 ^ Z.of_nat k = q / 2 * 2 ^ Z.of_nat (S k)) as HqS by (rewrite pow2_step, Hh at 1; ring).
    assert (Hash [node k q; node k q] = node (S k) (q / 2)) as ->.
    { rewrite node_dup, <- Hh; [done|lia|]. rewrite <- Hh. lia. }
    rewrite wrapu_small by (unfold in_u; lia). rewrite HCS.
    destruct (combine_spec (32 - S k) (S k) (q / 2) ((q / 2 + 1) * 2 ^ Z.of_nat (S k)) inner ml matchh
      (if matchh then option_map (fun b => b ++ [node k q]) pb else pb) false)
      as (k' & q' & mh & pb' & mut' & E & Hk' & Hq' & Ho' & HC & Hqn' & Hk2' & _ & Hat & Hpb' & Hnone & _);
      try first [lia | done | by apply inner_at_S | by apply dup_branch_ok; first [lia|done]].
    rewrite E. cbn [mbind outcome_bind]. rewrite HC.
    assert (pb' = None <-> pb = None) as Hnn.
    { rewrite Hnone. destruct matchh, pb; cbn; split; done. }
    setoid_rewrite <- Hnn. apply IH; try first [lia | done].
    intros Hpn. apply Hp. by rewrite <- Hnn.
Qed.

Lemma inner_ok_0 : inner_ok (replicate 32 UINT256_ZERO) 0.
Proof. split; [done|]. intros i _ H. by rewrite Zdiv_0_l in H. Qed.

Lemma height_bounds : 0 < n -> n <= 2 ^ Z.of_nat (height (length leaves)).
Proof.
  intros H. unfold height. rewrite Z2Nat.id by apply Z.log2_up_nonneg. by apply Z.log2_log2_up_spec.
Qed.

Lemma tree_root_node : 0 < n -> tree_root leaves = node (height (length leaves)) 0.
Proof.
  intros H. unfold tree_root. pose proof (node_some (height (length leaves)) 0) as E.
  change (Z.to_nat 0) with 0%nat in E. by rewrite E by lia.
Qed.

Lemma computation_spec want :
  0 < n -> (want = true -> 0 <= p < n) ->
  exists mut, MerkleComputation leaves p want
    = Ok (tree_root leaves, mut, if want then Some (branch_upto (height (length leaves))) else None) /\
    (mut = true <-> pair_below n).
Proof.
  intros Hn0 Hw. unfold MerkleComputation. rewrite bool_decide_eq_false_2 by (intros ->; done).
  destruct (leaves_loop_spec leaves 0 (replicate 32 UINT256_ZERO) (-1) (if want then Some [] else None) false)
    as (inner & ml & pb & mut & E & Hin & Hpb & Hnone & Hmut); first [apply inner_ok_0|try done].
  { destruct want; [|done]. left. split; [lia|done]. }
  { split; [done|]. intros (i & r & Hr & Hle & _). nia. }
  rewrite E. cbn [mbind outcome_bind].
  destruct (first_bit_spec 32 0 (n - 1)) as (k & q & E2 & Hk & Hq & Ho & HC); try first [done|lia].
  replace (n - 1 + 1) with n in * by lia. rewrite Z.mul_1_r in *. rewrite E2. cbn [mbind outcome_bind].
  rewrite HC in Hin. pose proof Hin as [Hlen Hin0].
  assert (inner !! k = Some (node k q)) as Hk0.
  { rewrite (Hin0 k Hk), counter_at; [done|]. by rewrite Z.div_mul, Z.odd_add, Ho by lia. }
  rewrite (rd_lookup_nat _ _ _ Hk0). cbn [mbind outcome_bind]. rewrite HC.
  assert (n = q * 2 ^ Z.of_nat k + 2 ^ Z.of_nat k) as HC' by lia.
  assert (0 <= q * 2 ^ Z.of_nat k) as Hqk by (apply Z.mul_nonneg_nonneg; lia).
  destruct (sweep_spec 33 k q inner ml (ml =? Z.of_nat k) pb) as (pb' & E3 & Hnone' & Hb);
    try first [done | lia | by apply inner_ok_at].
  { intros Hpb0. destruct want; [by apply Hw|]. destruct Hpb0. by apply Hnone. }
  { destruct pb as [b|]; [|done]. cbn [past_pb pb_ok] in *. destruct Hpb as [(Hp & -> & ->)|(m & -> & Hodd & Hp & ->)].
    - destruct want; [specialize (Hw eq_refl); lia|]. discriminate (proj2 Hnone eq_refl).
    - rewrite HC in Hodd, Hp. destruct (Z.eqb_spec (Z.of_nat m) (Z.of_nat k)) as [Em|Em].
      + apply Nat2Z.inj in Em as ->. left. rewrite counter_at in Hp. done.
      + destruct (decide (m < k)%nat); [by rewrite counter_low in Hodd|]. right. left. split; [done|]. exists m.
        rewrite counter_div in * by (done || lia). split_and!; first [done|lia]. }
  rewrite E3. cbn [mbind outcome_bind]. exists mut. split; [|by rewrite <- HC].
  rewrite tree_root_node by done. do 2 f_equal.
  destruct want, pb' as [b|]; try done.
  - f_equal. by apply Hb.
  - discriminate (proj1 Hnone (proj1 Hnone' eq_refl)).
  - discriminate (proj2 Hnone' (proj2 Hnone eq_refl)).
Qed.

(** *** Checking a branch *)

Lemma from_branch_up d : forall k, 0 <= p < n ->
  ComputeMerkleRootFromBranch (node k (p / 2 ^ Z.of_nat k)) (map sibling (seq k d)) (p / 2 ^ Z.of_nat k)
  = node (k + d) (p / 2 ^ Z.of_nat (k + d)).
Proof.
  induction d as [|d IH]; intros k Hp; [by rewrite Nat.add_0_r|].
  cbn [seq map ComputeMerkleRootFromBranch]. rewrite Z.bit0_odd, Z.shiftr_div_pow2, <- div_pow_S by lia.
  set (q := p / 2 ^ Z.of_nat k).
  assert (0 <= q) by (apply Z.div_pos; lia).
  assert (q * 2 ^ Z.of_nat k < n) by (pose proof (Z.mul_div_le p (2 ^ Z.of_nat k)); lia).
  assert ((if Z.odd q then Hash [sibling k; node k q] else Hash [node k q; sibling k]) = node (S k) (q / 2)) as ->.
  { unfold sibling. fold q. destruct (Z.odd q) eqn:Ho.
    - pose proof (odd_half q Ho) as Hh. rewrite node_pair by lia. rewrite <- Hh.
      by replace (2 * (q / 2)) with (q - 1) by lia.
    - pose proof (even_half q Ho) as Hh. destruct (Z.ltb_spec ((q + 1) * 2 ^ Z.of_nat k) n).
      + by rewrite node_pair, <- Hh by lia.
      + by rewrite node_dup, <- Hh by lia. }
  unfold q. rewrite <- div_pow_S, IH by done. by rewrite Nat.add_succ_r.
Qed.

(** *** Equal nodes *)

Definition hash32 (h : uint256) : Prop := length h = 32%nat.
Hypothesis Hleaves : Forall hash32 leaves.

Lemma node_hash32 k q : 0 <= q -> q * 2 ^ Z.of_nat k < n -> hash32 (node k q).
Proof.
  intros Hq Hlt. destruct k as [|k].
  - pose proof (node_some 0 q Hq Hlt) as E. cbn [level] in E. by eapply Forall_lookup_1.
  - rewrite pow2_step in Hlt. destruct (decide ((2 * q + 1) * 2 ^ Z.of_nat k < n)).
    + rewrite node_pair by lia. apply Hash_length.
    + rewrite node_dup by lia. apply Hash_length.
Qed.

Lemma Hash_pair_inj a b c d :
  hash32 a -> hash32 c -> Hash [a; b] = Hash [c; d] -> (a = c /\ b = d) \/ hash_collision [[a; b]; [c; d]].
Proof.
  intros Ha Hc E. apply hash_collision_pair in E as [Eq|]; [left|by right].
  cbn [concat] in Eq. rewrite !app_nil_r in Eq. apply app_inj_1 in Eq; [done|]. unfold hash32 in *. congruence.
Qed.

Lemma below_height k q : 1 <= q -> q * 2 ^ Z.of_nat k <= n -> (k <= height (length leaves))%nat.
Proof.
  clear Hn. intros Hq Hle. assert (0 < 2 ^ Z.of_nat k) by (apply Z.pow_pos_nonneg; lia). assert (2 ^ Z.of_nat k <= 2 ^ Z.of_nat (height (length leaves))) as H1.
  { pose proof (height_bounds ltac:(nia)). nia. }
  apply Z.pow_le_mono_r_iff in H1; lia.
Qed.

Lemma level_input k q r : (k < height (length leaves))%nat -> pairs_of (level k leaves) !! q = Some r ->
  r ∈ tree_inputs leaves.
Proof.
  clear Hn. intros Hk Hr. unfold tree_inputs. rewrite <- flat_map_concat_map. apply list_elem_of_In, in_flat_map.
  exists k. rewrite in_seq. split; [lia|]. apply list_elem_of_In. by eapply list_elem_of_lookup_2.
Qed.

Lemma pair_input k q : 0 <= q -> (2 * q + 1) * 2 ^ Z.of_nat k < n ->
  [node k (2 * q); node k (2 * q + 1)] ∈ tree_inputs leaves.
Proof.
  clear Hn. intros Hq Hlt. apply (level_input k (Z.to_nat q)).
  - destruct (Nat.lt_ge_cases k (height (length leaves))) as [|Hge]; [done|]. exfalso.
    assert (0 < 2 ^ Z.of_nat k) by (apply Z.pow_pos_nonneg; lia). pose proof (height_bounds ltac:(nia)).
    pose proof (Z.pow_le_mono_r 2 (Z.of_nat (height (length leaves))) (Z.of_nat k) ltac:(lia) ltac:(lia)). nia.
  - rewrite pairs_lookup. replace (2 * Z.to_nat q)%nat with (Z.to_nat (2 * q)) by lia.
    replace (Z.to_nat (2 * q) + 1)%nat with (Z.to_nat (2 * q + 1)) by lia.
    rewrite (node_some k (2 * q)) by nia. by rewrite (node_some k (2 * q + 1)) by lia.
Qed.

Lemma dup_input k q : 0 <= q -> (k < height (length leaves))%nat ->
  2 * q * 2 ^ Z.of_nat k < n <= (2 * q + 1) * 2 ^ Z.of_nat k ->
  [node k (2 * q); node k (2 * q)] ∈ tree_inputs leaves.
Proof.
  clear Hn. intros Hq Hk Hle. apply (level_input k (Z.to_nat q)); [done|].
  rewrite pairs_lookup. replace (2 * Z.to_nat q)%nat with (Z.to_nat (2 * q)) by lia.
  replace (Z.to_nat (2 * q) + 1)%nat with (Z.to_nat (2 * q + 1)) by lia.
  rewrite (node_some k (2 * q)) by lia. by rewrite (node_none k (2 * q + 1)) by lia.
Qed.

(** A full node and the unfinished last node of its level are equal only when
    two full neighbours are, or by a collision. *)
Lemma twin_below k : forall i j,
  0 <= i -> 0 <= j -> (i + 1) * 2 ^ Z.of_nat k <= n -> j * 2 ^ Z.of_nat k < n < (j + 1) * 2 ^ Z.of_nat k ->
  node k i = node k j -> pair_below n \/ hash_collision (tree_inputs leaves).
Proof.
  clear Hn. induction k as [|k IH]; intros i j Hi Hj Hin Hjn E; [rewrite !Z.mul_1_r in *; lia|].
  pose proof (below_height (S k) (i + 1) ltac:(lia) Hin) as Hk.
  rewrite pow2_step in *. rewrite (node_pair k i) in E by lia. pose proof (pair_input k i Hi ltac:(lia)) as Ii.
  destruct (decide ((2 * j + 1) * 2 ^ Z.of_nat k < n)).
  - rewrite node_pair in E by lia. pose proof (pair_input k j Hj ltac:(lia)) as Ij.
    apply Hash_pair_inj in E as [[_ E]|C]; [|right; exact (hash_collision_in _ _ _ Ii Ij C)|apply node_hash32; lia..].
    apply (IH (2 * i + 1) (2 * j + 1)); first [done|lia].
  - rewrite node_dup in E by lia. pose proof (dup_input k j Hj ltac:(lia) ltac:(lia)) as Ij.
    apply Hash_pair_inj in E as [[E1 E2]|C]; [|right; exact (hash_collision_in _ _ _ Ii Ij C)|apply node_hash32; lia..].
    left. exists k, i. split_and!; [done|lia|congruence].
Qed.

Lemma sibling_hash32 k : 0 <= p < n -> hash32 (sibling k).
Proof.
  intros Hp. unfold sibling. set (q := p / 2 ^ Z.of_nat k).
  assert (0 <= q) by (apply Z.div_pos; lia).
  assert (q * 2 ^ Z.of_nat k < n) by (pose proof (Z.mul_div_le p (2 ^ Z.of_nat k)); lia).
  destruct (Z.odd q) eqn:Ho; [pose proof (odd_half q Ho); apply node_hash32; lia|].
  destruct (Z.ltb_spec ((q + 1) * 2 ^ Z.of_nat k) n); apply node_hash32; lia.
Qed.

End Tree.

Lemma from_branch_inj b : forall x y b' i,
  hash32 x -> hash32 y -> Forall hash32 b -> Forall hash32 b' -> length b' = length b ->
  ComputeMerkleRootFromBranch x b i = ComputeMerkleRootFromBranch y b' i ->
  x = y \/ hash_collision (branch_inputs x b i ++ branch_inputs y b' i).
Proof.
  induction b as [|s b IH]; intros x y [|s' b'] i Hx Hy Hb Hb' Hl E; try discriminate Hl; [by left|].
  apply Forall_cons in Hb as [Hs Hb], Hb' as [Hs' Hb']. injection Hl as Hl. cbn [ComputeMerkleRootFromBranch] in E.
  cbn [branch_inputs]. set (px := if Z.testbit i 0 then [s; x] else [x; s]).
  set (py := if Z.testbit i 0 then [s'; y] else [y; s']).
  replace (if Z.testbit i 0 then Hash [s; x] else Hash [x; s]) with (Hash px) in E by (unfold px; by case_match).
  replace (if Z.testbit i 0 then Hash [s'; y] else Hash [y; s']) with (Hash py) in E by (unfold py; by case_match).
  apply IH in E as [E|C]; [| |apply Hash_length..|done|done|done].
  - enough (x = y \/ hash_collision [px; py]) as [|C]; [by left| |].
    + right. revert C. apply hash_collision_in; set_solver.
    + subst px py. destruct (Z.testbit i 0); apply Hash_pair_inj in E as [[]|]; auto.
  - right. revert C. apply hash_collision_mono. set_solver.
Qed.

(** *** Two trees with the same root *)

Lemma level_lookup_node leaves k j :
  level k leaves !! j = if decide (Z.of_nat j * 2 ^ Z.of_nat k < zlen leaves) then Some (node leaves k (Z.of_nat j)) else None.
Proof.
  rewrite <- (Nat2Z.id j) at 1. case_decide; [apply node_some; lia|]. apply node_none; lia.
Qed.

Lemma parents_hash32 l : Forall hash32 (parents_of l).
Proof.
  apply Forall_map, Forall_forall. intros r _. apply Hash_length.
Qed.
Lemma level_hash32 k l : Forall hash32 l -> Forall hash32 (level k l).
Proof. intros H. destruct k; [done|]. apply parents_hash32. Qed.

(** The last two nodes are equal. *)
Definition ends_in_twins (l : list uint256) : Prop :=
  exists r x, l !! (2 * r)%nat = Some x /\ l !! (2 * r + 1)%nat = Some x.

Lemma twins_cons x y l : ends_in_twins l -> ends_in_twins (x :: y :: l).
Proof.
  intros (r & z & H1 & H2). exists (S r), z. replace (2 * S r)%nat with (S (S (2 * r))) by lia.
  by replace (S (S (2 * r)) + 1)%nat with (S (S (2 * r + 1))) by lia.
Qed.

Lemma cons_inj {A} (x y : A) l k : x :: l = y :: k -> x = y /\ l = k.
Proof. by injection 1. Qed.

Lemma parents_inj a : forall b, Forall hash32 a -> Forall hash32 b -> parents_of a = parents_of b ->
  a = b \/ hash_collision (pairs_of a ++ pairs_of b) \/ ends_in_twins a \/ ends_in_twins b.
Proof.
  induction a as [a IH] using (induction_ltof1 _ (@length uint256)). unfold ltof in IH. intros b Ha Hb E.
  destruct a as [|x [|y a]], b as [|u [|v b]]; cbn in E; try discriminate; [by left| | | |].
  all: apply cons_inj in E as [E Er]; apply Forall_cons in Ha as [Hx Ha], Hb as [Hu Hb];
    apply Hash_pair_inj in E as [[-> E]|C];
    [|right; left; revert C; apply hash_collision_in; cbn [pairs_of]; set_solver|done|done].
  - by left.
  - right. right. right. exists 0%nat, u. split; [done|]. by rewrite E.
  - right. right. left. exists 0%nat, u. split; [done|]. by rewrite <- E.
  - rewrite E. apply Forall_cons in Ha as [_ Ha], Hb as [_ Hb].
    destruct (IH a ltac:(cbn; lia) b Ha Hb Er) as [->|[C|[|]]]; auto using twins_cons.
    right. left. revert C. apply hash_collision_mono. cbn [pairs_of]. set_solver.
Qed.

(** Twins anywhere show two full nodes that are equal. *)
Lemma twins_mutated l k : Forall hash32 l -> ends_in_twins (level k l) ->
  pair_below l (zlen l) \/ hash_collision (tree_inputs l).
Proof.
  intros Hl (r & x & H1 & H2).
  assert (Z.of_nat (2 * r + 1) * 2 ^ Z.of_nat k < zlen l) as Hlt.
  { apply Z.nle_gt. intros Hle. apply node_none in Hle; [|lia]. rewrite Nat2Z.id in Hle. congruence. }
  replace (Z.of_nat (2 * r + 1)) with (2 * Z.of_nat r + 1) in Hlt by lia.
  assert (node l k (2 * Z.of_nat r) = node l k (2 * Z.of_nat r + 1)) as E.
  { unfold node. replace (Z.to_nat (2 * Z.of_nat r)) with (2 * r)%nat by lia.
    replace (Z.to_nat (2 * Z.of_nat r + 1)) with (2 * r + 1)%nat by lia. by rewrite H1, H2. }
  destruct (decide ((2 * Z.of_nat r + 2) * 2 ^ Z.of_nat k <= zlen l)).
  - left. exists k, (Z.of_nat r). split_and!; [lia|done..].
  - apply (twin_below l Hl k (2 * Z.of_nat r) (2 * Z.of_nat r + 1)); first [done|lia].
Qed.

Lemma pairs_inputs k l : (k < height (length l))%nat -> pairs_of (level k l) ⊆ tree_inputs l.
Proof. intros Hk r [q Hq]%list_elem_of_lookup_1. by eapply level_input. Qed.

Lemma levels_same k l1 l2 : Forall hash32 l1 -> Forall hash32 l2 ->
  (k <= height (length l1))%nat -> (k <= height (length l2))%nat -> level k l1 = level k l2 ->
  l1 = l2 \/ hash_collision (tree_inputs l1 ++ tree_inputs l2) \/ pair_below l1 (zlen l1) \/ pair_below l2 (zlen l2).
Proof.
  intros H1 H2. induction k as [|k IH]; [by left|]. intros K1 K2. cbn [level]. intros E.
  pose proof (pairs_inputs k l1 ltac:(lia)). pose proof (pairs_inputs k l2 ltac:(lia)).
  destruct (parents_inj _ _ (level_hash32 k l1 H1) (level_hash32 k l2 H2) E) as [|[C|[T|T]]]; [auto with lia|..].
  - right. left. revert C. apply hash_collision_mono. set_solver.
  - destruct (twins_mutated l1 k H1 T) as [|C]; [by auto|]. right. left. revert C. apply hash_collision_mono. set_solver.
  - destruct (twins_mutated l2 k H2 T) as [|C]; [by auto|]. right. left. revert C. apply hash_collision_mono. set_solver.
Qed.

(** The top level has one node. *)
Lemma level_top l : l <> [] -> level (height (length l)) l = [tree_root l].
Proof.
  intros Hl. pose proof (zlen_pos l Hl) as H0.
  pose proof (height_bounds l H0) as Hh. set (h := height (length l)) in *. apply list_eq. intros [|j].
  - pose proof (node_some l h 0) as E. change (Z.to_nat 0) with 0%nat in E. rewrite E by lia.
    by rewrite tree_root_node.
  - pose proof (node_none l h (Z.of_nat (S j))) as E. rewrite Nat2Z.id in E. rewrite E; [done|lia|nia].
Qed.

(** ** The theorems *)

(** C36: [ComputeMerkleRoot] is the root of the tree built level by level, with
    the last node of an odd level hashed with itself, for up to 2^31 leaves; it
    reports a mutation exactly when two neighbours with full subtrees, hashed
    together somewhere in the tree, are equal. *)
Theorem ComputeMerkleRoot_is_tree_root (leaves : list uint256) :
  zlen leaves <= 2 ^ 31 ->
  exists mutated, ComputeMerkleRoot leaves = Ok (tree_root leaves, mutated) /\
    (mutated = true <->
     exists k r x, level k leaves !! (2 * r)%nat = Some x /\ level k leaves !! (2 * r + 1)%nat = Some x /\
       (Z.of_nat (2 * r + 2)) * 2 ^ Z.of_nat k <= zlen leaves).
Proof.
  intros Hn. destruct (decide (leaves = [])) as [->|Hne].
  { exists false. split; [done|]. split; [done|]. intros (k & r & x & H & _ & Hle). cbn in Hle. nia. }
  pose proof (zlen_pos leaves Hne) as H0.
  destruct (computation_spec leaves (u32 (-1)) Hn false H0) as (mut & E & Hm); [done|].
  exists mut. unfold ComputeMerkleRoot. rewrite E. split; [done|]. rewrite Hm. split.
  - intros (k & r & Hr & Hle & Eq). exists k, (Z.to_nat r), (node leaves k (2 * r)).
    rewrite !level_lookup_node.
    replace (Z.of_nat (2 * Z.to_nat r)) with (2 * r) by lia. replace (Z.of_nat (2 * Z.to_nat r + 1)) with (2 * r + 1) by lia.
    rewrite !decide_True by lia. split_and!; [done|by rewrite Eq|lia].
  - intros (k & r & x & H1 & H2 & Hle). exists k, (Z.of_nat r).
    rewrite level_lookup_node, decide_True in H1 by lia. rewrite level_lookup_node, decide_True in H2 by lia.
    apply (inj Some) in H1, H2. split_and!; [lia..|].
    replace (2 * Z.of_nat r) with (Z.of_nat (2 * r)) by lia.
    replace (Z.of_nat (2 * r) + 1) with (Z.of_nat (2 * r + 1)) by lia. by rewrite H1, H2.
Qed.

(** [ComputeMerkleBranch] gives, for every leaf, a branch of the height of
    the tree that [ComputeMerkleRootFromBranch] takes from that leaf to the root;
    and nothing else of that height can be proved to be at that position: a
    branch from any other leaf to the same root gives a collision between the
    pairs hashed on the two ways up. *)
Theorem ComputeMerkleBranch_proves (leaves : list uint256) (p : Z) :
  zlen leaves <= 2 ^ 31 -> Forall hash32 leaves -> 0 <= p < zlen leaves ->
  exists b, ComputeMerkleBranch leaves p = Ok b /\ length b = height (length leaves) /\
    ComputeMerkleRootFromBranch (node leaves 0 p) b p = tree_root leaves /\
    (forall leaf b', hash32 leaf -> Forall hash32 b' -> length b' = length b ->
     ComputeMerkleRootFromBranch leaf b' p = tree_root leaves ->
     leaf = node leaves 0 p \/ hash_collision (branch_inputs leaf b' p ++ branch_inputs (node leaves 0 p) b p)).
Proof.
  intros Hn Hl Hp. destruct (computation_spec leaves p Hn true) as (mut & E & _); [lia|done|].
  exists (branch_upto leaves p (height (length leaves))). unfold ComputeMerkleBranch. rewrite E.
  assert (ComputeMerkleRootFromBranch (node leaves 0 p) (branch_upto leaves p (height (length leaves))) p = tree_root leaves) as Hroot.
  { pose proof (from_branch_up leaves p (height (length leaves)) 0 Hp) as H. rewrite Z.div_1_r in H.
    unfold branch_upto. rewrite H, tree_root_node by lia. f_equal. apply Z.div_small.
    pose proof (height_bounds leaves ltac:(lia)). cbn [Nat.add]. lia. }
  split; [done|]. split; [by unfold branch_upto; rewrite length_map, length_seq|]. split; [done|].
  intros leaf b' Hleaf Hb' Hlen Er. rewrite <- Hroot in Er.
  apply (from_branch_inj b' leaf (node leaves 0 p) (branch_upto leaves p (height (length leaves))) p); try done.
  - apply node_hash32; first [done|lia].
  - apply Forall_map, Forall_forall. intros k _. by apply sibling_hash32.
Qed.

(** Lists of as many levels with the same root, both free of repeated pairs. *)
Lemma same_root_same_leaves (leaves1 leaves2 : list uint256) (root : uint256) :
  zlen leaves1 <= 2 ^ 31 -> zlen leaves2 <= 2 ^ 31 -> Forall hash32 leaves1 -> Forall hash32 leaves2 ->
  leaves1 <> [] -> leaves2 <> [] -> height (length leaves1) = height (length leaves2) ->
  ComputeMerkleRoot leaves1 = Ok (root, false) -> ComputeMerkleRoot leaves2 = Ok (root, false) ->
  leaves1 = leaves2 \/ hash_collision (tree_inputs leaves1 ++ tree_inputs leaves2).
Proof.
  intros Hn1 Hn2 Hl1 Hl2 Hne1 Hne2 Hh E1 E2. unfold ComputeMerkleRoot in E1, E2.
  destruct (computation_spec leaves1 (u32 (-1)) Hn1 false) as (m1 & C1 & M1); [by apply zlen_pos|done|].
  destruct (computation_spec leaves2 (u32 (-1)) Hn2 false) as (m2 & C2 & M2); [by apply zlen_pos|done|].
  rewrite C1 in E1. rewrite C2 in E2. cbn [mbind outcome_bind fst snd] in E1, E2. injection E1 as R1 ->. injection E2 as R2 ->.
  pose proof (level_top leaves1 Hne1) as T1. pose proof (level_top leaves2 Hne2) as T2.
  rewrite <- Hh, R2, <- R1, <- T1 in T2. symmetry in T2.
  destruct (levels_same _ _ _ Hl1 Hl2 (Nat.le_refl _) (Nat.eq_le_incl _ _ Hh) T2) as [|[|[B|B]]]; auto; [apply M1 in B|apply M2 in B]; discriminate B.
Qed.

(** C21: blocks cannot be changed under their Merkle root, except by the known
    duplication: two lists of as many levels with the same root, in neither of
    which a mutation was reported, are the same list, or two of the pairs hashed
    for them collide (CVE-2012-2459). *)
Theorem unmutated_root_binds (leaves1 leaves2 : list uint256) (root : uint256) :
  zlen leaves1 <= 2 ^ 31 -> zlen leaves2 <= 2 ^ 31 -> Forall hash32 leaves1 -> Forall hash32 leaves2 ->
  leaves1 <> [] -> leaves2 <> [] -> height (length leaves1) = height (length leaves2) ->
  ComputeMerkleRoot leaves1 = Ok (root, false) -> ComputeMerkleRoot leaves2 = Ok (root, false) ->
  leaves1 = leaves2 \/ hash_collision (tree_inputs leaves1 ++ tree_inputs leaves2).
Proof. exact (same_root_same_leaves leaves1 leaves2 root). Qed.

(** ** Examples *)

Definition sample_leaves (n : nat) : list uint256 := map (fun i => replicate 32 (Z.of_nat i)) (seq 0 n).

Lemma sample_leaves_ok n : Forall hash32 (sample_leaves n).
Proof. apply Forall_map, Forall_forall. intros i _. by unfold hash32. Qed.

Lemma ComputeMerkleRoot_is_tree_root_witness :
  zlen (sample_leaves 3) <= 2 ^ 31 /\
  exists mutated, ComputeMerkleRoot (sample_leaves 3) = Ok (tree_root (sample_leaves 3), mutated) /\
    (mutated = true <->
     exists k r x, level k (sample_leaves 3) !! (2 * r)%nat = Some x /\
       level k (sample_leaves 3) !! (2 * r + 1)%nat = Some x /\ (Z.of_nat (2 * r + 2)) * 2 ^ Z.of_nat k <= 3).
Proof.
  assert (zlen (sample_leaves 3) <= 2 ^ 31) as H by (cbn; lia).
  split; [exact H|]. exact (ComputeMerkleRoot_is_tree_root (sample_leaves 3) H).
Defined.

Lemma ComputeMerkleBranch_proves_witness :
  exists b, ComputeMerkleBranch (sample_leaves 3) 2 = Ok b /\ length b = 2%nat /\
    ComputeMerkleRootFromBranch (replicate 32 2) b 2 = tree_root (sample_leaves 3).
Proof.
  destruct (ComputeMerkleBranch_proves (sample_leaves 3) 2) as (b & E & Hl & Hr & _);
    [cbn; lia|apply sample_leaves_ok|cbn; lia|].
  exists b. split; [exact E|]. split; [exact Hl|exact Hr].
Defined.

Lemma unmutated_root_binds_witness :
  exists root, ComputeMerkleRoot (sample_leaves 2) = Ok (root, false) /\
    (sample_leaves 2 = sample_leaves 2 \/
     hash_collision (tree_inputs (sample_leaves 2) ++ tree_inputs (sample_leaves 2))).
Proof.
  assert (exists root, ComputeMerkleRoot (sample_leaves 2) = Ok (root, false)) as [root E]
    by (eexists; vm_compute; reflexivity).
  exists root. split; [exact E|].
  apply (unmutated_root_binds (sample_leaves 2) (sample_leaves 2) root);
    [cbn; lia|cbn; lia|apply sample_leaves_ok|apply sample_leaves_ok|done|done|reflexivity|exact E|exact E].
Defined.
