(* ===== verification/MerkleBlock.v ===== *)
(** * Partial merkle trees: merkleblock.cpp and merkleblock.h

    A [CPartialMerkleTree] proves to a light client that some transactions are
    in a block: the bits and hashes of a depth-first walk.  [TraverseAndBuild]
    and [TraverseAndExtract] recurse on the height, as the code does; positions
    and counts are unsigned 32-bit numbers.  The tree is the one of [Merkle]. *)
From S2P Require Import Prelude Serialize HashStream Sha256 Hash Script Interpreter Standard Transaction Block Merkle.

Record CPartialMerkleTree := PartialMerkleTree {
  nTransactions : Z;
  vBits : list bool;
  vHash : list uint256;
  fBad : bool;
}.

Definition CPartialMerkleTree_new : CPartialMerkleTree := PartialMerkleTree 0 [] [] true.

Section Walk.
Context (nTransactions : Z).

Definition CalcTreeWidth (height : nat) : Z :=
  Z.shiftr (u32 (nTransactions + 2 ^ Z.of_nat height - 1)) (Z.of_nat height).

(** [while (CalcTreeWidth(nHeight) > 1) nHeight++]; the shift is undefined from
    31 on. *)
Fixpoint height_loop (fuel nHeight : nat) : outcome unit nat :=
  match fuel with
  | O => Abort
  | S fuel => if 1 <? CalcTreeWidth nHeight then height_loop fuel (S nHeight) else Ok nHeight
  end.

Fixpoint CalcHash (height : nat) (pos : Z) (vTxid : list uint256) : outcome unit uint256 :=
  match height with
  | O => rd vTxid pos
  | S height =>
      hl ← CalcHash height (u32 (pos * 2)) vTxid;
      hr ← (if u32 (pos * 2 + 1) <? CalcTreeWidth height
            then CalcHash height (u32 (pos * 2 + 1)) vTxid else Ok hl);
      Ok (Hash [hl; hr])
  end.

(** [fParentOfMatch |= vMatch[p]] for [count] positions from [p]. *)
Fixpoint parent_loop (count : nat) (p : Z) (vMatch : list bool) (fParentOfMatch : bool) : outcome unit bool :=
  match count with
  | O => Ok fParentOfMatch
  | S count => m ← rd vMatch p; parent_loop count (p + 1) vMatch (fParentOfMatch || m)
  end.

Definition IsParentOfMatch (height : nat) (pos : Z) (vMatch : list bool) : outcome unit bool :=
  let p := u32 (Z.shiftl pos (Z.of_nat height)) in
  let stop := Z.min (u32 (Z.shiftl (pos + 1) (Z.of_nat height))) nTransactions in
  parent_loop (Z.to_nat (stop - p)) p vMatch false.

(** The bits and hashes that are appended. *)
Fixpoint TraverseAndBuild (height : nat) (pos : Z) (vTxid : list uint256) (vMatch : list bool)
  : outcome unit (list bool * list uint256) :=
  fParentOfMatch ← IsParentOfMatch height pos vMatch;
  match height with
  | O => h ← CalcHash 0 pos vTxid; Ok ([fParentOfMatch], [h])
  | S height' =>
      if negb fParentOfMatch then h ← CalcHash height pos vTxid; Ok ([fParentOfMatch], [h]) else
      l ← TraverseAndBuild height' (u32 (pos * 2)) vTxid vMatch;
      r ← (if u32 (pos * 2 + 1) <? CalcTreeWidth height'
           then TraverseAndBuild height' (u32 (pos * 2 + 1)) vTxid vMatch else Ok ([], []));
      Ok (fParentOfMatch :: l.1 ++ r.1, l.2 ++ r.2)
  end.

(** The counters, the matches and the flag while a tree is read. *)
Record extraction := Extraction {
  nBitsUsed : Z; nHashUsed : Z; vMatched : list uint256; bad : bool;
}.

Fixpoint TraverseAndExtract (height : nat) (pos : Z) (vBits : list bool) (vHash : list uint256) (s : extraction)
  : outcome unit (uint256 * extraction) :=
  if zlen vBits <=? nBitsUsed s
  then Ok (UINT256_ZERO, Extraction (nBitsUsed s) (nHashUsed s) (vMatched s) true) else
  fParentOfMatch ← rd vBits (nBitsUsed s);
  let s := Extraction (nBitsUsed s + 1) (nHashUsed s) (vMatched s) (bad s) in
  let leaf (height0 : bool) :=
    if zlen vHash <=? nHashUsed s
    then Ok (UINT256_ZERO, Extraction (nBitsUsed s) (nHashUsed s) (vMatched s) true) else
    hash ← rd vHash (nHashUsed s);
    Ok (hash, Extraction (nBitsUsed s) (nHashUsed s + 1)
                (if height0 && fParentOfMatch then vMatched s ++ [hash] else vMatched s) (bad s)) in
  match height with
  | O => leaf true
  | S height =>
      if negb fParentOfMatch then leaf false else
      l ← TraverseAndExtract height (u32 (pos * 2)) vBits vHash s;
      let '(hl, s) := l in
      r ← (if u32 (pos * 2 + 1) <? CalcTreeWidth height
           then TraverseAndExtract height (u32 (pos * 2 + 1)) vBits vHash s else Ok (hl, s));
      let '(hr, s) := r in
      Ok (Hash [hl; hr], s)
  end.
End Walk.

Definition CPartialMerkleTree_of (vTxid : list uint256) (vMatch : list bool) : outcome unit CPartialMerkleTree :=
  let n := u32 (zlen vTxid) in
  nHeight ← height_loop n 31 0;
  r ← TraverseAndBuild n nHeight 0 vTxid vMatch;
  Ok (PartialMerkleTree n r.1 r.2 false).

(** [ExtractMatches]: the root, null on failure, and the matches. *)
Definition ExtractMatches (t : CPartialMerkleTree) : outcome unit (uint256 * list uint256) :=
  let n := nTransactions t in
  if n =? 0 then Ok (UINT256_ZERO, []) else
  if MAX_BLOCK_SIZE_CURRENT / 60 <? n then Ok (UINT256_ZERO, []) else
  if n <? zlen (vHash t) then Ok (UINT256_ZERO, []) else
  if zlen (vBits t) <? zlen (vHash t) then Ok (UINT256_ZERO, []) else
  nHeight ← height_loop n 31 0;
  r ← TraverseAndExtract n nHeight 0 (vBits t) (vHash t) (Extraction 0 0 [] (fBad t));
  let '(hashMerkleRoot, s) := r in
  if bad s then Ok (UINT256_ZERO, vMatched s) else
  if negb ((nBitsUsed s + 7) / 8 =? (zlen (vBits t) + 7) / 8) then Ok (UINT256_ZERO, vMatched s) else
  if negb (nHashUsed s =? zlen (vHash t)) then Ok (UINT256_ZERO, vMatched s) else
  Ok (hashMerkleRoot, vMatched s).

(** ** The wire format: bits packed into bytes, the least significant first *)

Definition bit_value (b : bool) : Z := if b then 1 else 0.
(** [vBytes[p / 8] |= vBits[p] << (p % 8)] for the bits of one byte, and the
    test of bit [p] of a byte. *)
Definition pack_byte (bits : list bool) : Z :=
  fold_right (fun b acc => Z.lor (bit_value b) (Z.shiftl acc 1)) 0 bits.
Definition pack_bits (bits : list bool) : list Z :=
  map (fun i => pack_byte (take 8 (drop (8 * i) bits))) (seq 0 ((length bits + 7) / 8)).
Definition unpack_byte (b : Z) : list bool := map (fun p => negb (Z.land b (2 ^ Z.of_nat p) =? 0)) (seq 0 8).
Definition unpack_bits (bytes : list Z) : list bool := concat (map unpack_byte bytes).

Definition SerializePMT (t : CPartialMerkleTree) : list Z :=
  ser uint32_c (nTransactions t) ++ ser (vector_c (blob_c 32)) (vHash t) ++ ser bytes_c (pack_bits (vBits t)).
Definition UnserializePMT : reader CPartialMerkleTree :=
  n ← unser uint32_c; h ← unser (vector_c (blob_c 32)); b ← unser bytes_c;
  mret (PartialMerkleTree n (unpack_bits b) h false).

#[local] Opaque Hash.

(** ** The walk over a given list of transactions *)

(** The transactions whose flag is set. *)
Fixpoint picked (txs : list uint256) (flags : list bool) : list uint256 :=
  match txs, flags with
  | t :: txs, b :: flags => if b then t :: picked txs flags else picked txs flags
  | _, _ => []
  end.

Lemma picked_app a b c d : length a = length c -> picked (a ++ b) (c ++ d) = picked a c ++ picked b d.
Proof.
  revert c. induction a as [|x a IH]; intros [|y c] H; try discriminate H; [done|].
  injection H as H. cbn. rewrite IH by done. by destruct y.
Qed.

Lemma picked_none a c : existsb id c = false -> picked a c = [].
Proof.
  revert c. induction a as [|x a IH]; intros [|y c] H; try done. cbn in *. destruct y; [done|]. by apply IH.
Qed.

(** The part of a list under node [pos] of level [k]. *)
Definition slice {A} (k : nat) (pos : Z) (l : list A) : list A := take (2 ^ k) (drop (Z.to_nat pos * 2 ^ k) l).

Lemma slice_S {A} k pos (l : list A) : 0 <= pos -> slice (S k) pos l = slice k (2 * pos) l ++ slice k (2 * pos + 1) l.
Proof.
  intros Hp. unfold slice. rewrite Nat.pow_succ_r'. set (P := (2 ^ k)%nat).
  replace (Z.to_nat (2 * pos) * P)%nat with (Z.to_nat pos * (2 * P))%nat by lia.
  replace (Z.to_nat (2 * pos + 1) * P)%nat with (Z.to_nat pos * (2 * P) + P)%nat by lia.
  rewrite <- drop_drop. set (d := drop _ l). replace (2 * P)%nat with (P + P)%nat by lia. by rewrite take_take_drop.
Qed.

Lemma slice_length {A} k pos (l : list A) : length (slice k pos l) = (2 ^ k `min` (length l - Z.to_nat pos * 2 ^ k))%nat.
Proof. unfold slice. by rewrite length_take, length_drop. Qed.

Lemma pow2_nat k : Z.of_nat (2 ^ k) = 2 ^ Z.of_nat k.
Proof. by rewrite Nat2Z.inj_pow. Qed.

Lemma slice_nil {A} k pos (l : list A) : 0 <= pos -> zlen l <= pos * 2 ^ Z.of_nat k -> slice k pos l = [].
Proof.
  intros Hp Hl. apply length_zero_iff_nil. rewrite slice_length. pose proof (pow2_nat k). nia.
Qed.

Lemma slice_pos {A} k pos (l : list A) : 0 <= pos -> pos * 2 ^ Z.of_nat k < zlen l -> (1 <= length (slice k pos l))%nat.
Proof. intros Hp Hl. rewrite slice_length. pose proof (pow2_nat k). nia. Qed.

Lemma slice_0 {A} pos (l : list A) x : l !! Z.to_nat pos = Some x -> slice 0 pos l = [x].
Proof.
  intros H. unfold slice. rewrite Nat.mul_1_r. by rewrite (drop_S l x).
Qed.

Lemma slice_all {A} k (l : list A) : zlen l <= 2 ^ Z.of_nat k -> slice k 0 l = l.
Proof. intros H. unfold slice. rewrite drop_0. apply take_ge. pose proof (pow2_nat k). lia. Qed.

(** The pairs hashed while a tree is read. *)
Fixpoint extract_inputs (nTx : Z) (height : nat) (pos : Z) (vBits : list bool) (vHash : list uint256) (s : extraction)
  {struct height} : list (list uint256) :=
  match height, vBits !! Z.to_nat (nBitsUsed s) with
  | S height, Some true =>
      let s := Extraction (nBitsUsed s + 1) (nHashUsed s) (vMatched s) (bad s) in
      match TraverseAndExtract nTx height (u32 (pos * 2)) vBits vHash s with
      | Ok (hl, s1) =>
          extract_inputs nTx height (u32 (pos * 2)) vBits vHash s ++
          (if u32 (pos * 2 + 1) <? CalcTreeWidth nTx height then
             match TraverseAndExtract nTx height (u32 (pos * 2 + 1)) vBits vHash s1 with
             | Ok (hr, _) => extract_inputs nTx height (u32 (pos * 2 + 1)) vBits vHash s1 ++ [[hl; hr]]
             | _ => []
             end
           else [[hl; hl]])
      | _ => []
      end
  | _, _ => []
  end.

Section Given.
Context (leaves : list uint256).
Notation n := (zlen leaves).
Hypothesis Hn : 0 < n <= 41666.

Definition valid (k : nat) (pos : Z) : Prop := (k <= 16)%nat /\ 0 <= pos /\ pos * 2 ^ Z.of_nat k < n.

Lemma pow2_16 k : (k <= 16)%nat -> 1 <= 2 ^ Z.of_nat k <= 65536.
Proof.
  intros Hk. split; [lia|]. change 65536 with (2 ^ 16). apply Z.pow_le_mono_r; lia.
Qed.

Lemma width_lt k pos : (k <= 16)%nat -> 0 <= pos -> pos < CalcTreeWidth n k <-> pos * 2 ^ Z.of_nat k < n.
Proof.
  intros Hk Hp. pose proof (pow2_16 k Hk). unfold CalcTreeWidth.
  rewrite wrapu_small by (unfold in_u; lia). rewrite Z.shiftr_div_pow2 by lia. split; intros H1.
  - pose proof (Z.mul_div_le (n + 2 ^ Z.of_nat k - 1) (2 ^ Z.of_nat k)). nia.
  - apply Z.lt_le_trans with (pos + 1); [lia|]. apply Z.div_le_lower_bound; lia.
Qed.

Lemma valid_children k pos : valid (S k) pos -> valid k (2 * pos) /\ u32 (pos * 2) = 2 * pos /\ u32 (pos * 2 + 1) = 2 * pos + 1.
Proof.
  unfold valid. rewrite pow2_step. intros (Hk & Hp & Hlt). pose proof (pow2_16 k ltac:(lia)).
  split_and!; try lia; rewrite wrapu_small; unfold in_u; nia.
Qed.

Lemma right_child k pos : valid (S k) pos ->
  (2 * pos + 1 <? CalcTreeWidth n k) = ((2 * pos + 1) * 2 ^ Z.of_nat k <? n).
Proof.
  intros (Hk & Hp & _). apply eq_true_iff_eq. rewrite !Z.ltb_lt. apply width_lt; lia.
Qed.

Lemma height_le_16 : (height (length leaves) <= 16)%nat.
Proof.
  unfold height. apply (Z2Nat.inj_le _ 16); [apply Z.log2_up_nonneg|lia|]. apply Z.log2_up_le_pow2; lia.
Qed.

Lemma height_loop_spec fuel k :
  (k <= height (length leaves) < k + fuel)%nat -> height_loop n fuel k = Ok (height (length leaves)).
Proof.
  pose proof height_le_16 as H16. pose proof (height_bounds leaves ltac:(lia)) as Hb.
  revert k. induction fuel as [|fuel IH]; intros k Hk; [lia|]. cbn [height_loop].
  destruct (Z.ltb_spec 1 (CalcTreeWidth n k)) as [H1|H1].
  - apply width_lt in H1; [|lia..]. rewrite Z.mul_1_l in H1. apply IH. split; [|lia].
    apply Nat.le_succ_l. destruct (Nat.lt_ge_cases k (height (length leaves))); [done|].
    assert (k = height (length leaves)) by lia. subst k. lia.
  - f_equal. destruct (decide (k = height (length leaves))) as [|Hne]; [done|]. exfalso.
    assert (2 ^ Z.of_nat k < n) as Hlt.
    { apply Z.nle_gt. intros Hle. apply Z.log2_up_le_pow2 in Hle; [|lia]. unfold height in *. lia. }
    apply Z.nlt_ge in H1. apply H1. apply width_lt; lia.
Qed.

Lemma CalcHash_spec k : forall pos, valid k pos -> CalcHash n k pos leaves = Ok (node leaves k pos).
Proof.
  induction k as [|k IH]; intros pos Hv; cbn [CalcHash].
  - destruct Hv as (_ & Hp & Hlt). rewrite Z.mul_1_r in Hlt. apply rd_lookup; [done|].
    apply (node_some leaves 0); lia.
  - destruct (valid_children k pos Hv) as (Hl & -> & ->). rewrite (IH (2 * pos)) by done. cbn [mbind outcome_bind].
    rewrite right_child by done. destruct Hv as (Hk & Hp & Hlt). rewrite pow2_step in Hlt.
    destruct (Z.ltb_spec ((2 * pos + 1) * 2 ^ Z.of_nat k) n).
    + rewrite IH by (unfold valid; lia). cbn [mbind outcome_bind]. by rewrite node_pair by lia.
    + cbn [mbind outcome_bind]. by rewrite node_dup by lia.
Qed.

Lemma parent_loop_spec vMatch count : forall p acc,
  0 <= p -> p + Z.of_nat count <= zlen vMatch ->
  parent_loop count p vMatch acc = Ok (acc || existsb id (take count (drop (Z.to_nat p) vMatch))).
Proof.
  induction count as [|count IH]; intros p acc Hp Hle; cbn [parent_loop].
  { by rewrite take_0, orb_false_r. }
  destruct (rd_ok (E := unit) vMatch p) as (m & -> & Hm); [lia|]. cbn [mbind outcome_bind].
  rewrite IH by lia. rewrite (drop_S vMatch m (Z.to_nat p)) by done. cbn [take existsb].
  replace (Z.to_nat (p + 1)) with (S (Z.to_nat p)) by lia. by rewrite orb_assoc.
Qed.

Lemma IsParentOfMatch_spec vMatch k pos : length vMatch = length leaves -> valid k pos ->
  IsParentOfMatch n k pos vMatch = Ok (existsb id (slice k pos vMatch)).
Proof.
  intros Hl (Hk & Hp & Hlt). pose proof (pow2_16 k Hk) as H16. pose proof (pow2_nat k) as Hpn.
  unfold IsParentOfMatch. rewrite !Z.shiftl_mul_pow2 by lia.
  rewrite !wrapu_small by (unfold in_u; nia).
  rewrite parent_loop_spec by nia. cbn [orb]. do 2 f_equal. unfold slice.
  replace (Z.to_nat (pos * 2 ^ Z.of_nat k)) with (Z.to_nat pos * 2 ^ k)%nat by nia.
  destruct (Z.le_ge_cases ((pos + 1) * 2 ^ Z.of_nat k) n).
  - f_equal. nia.
  - rewrite !take_ge; [done|..]; rewrite length_drop; nia.
Qed.
(** *** Building, and reading back what was built *)

Lemma hd_slice {A} pos (l : list A) : zlen l = n -> 0 <= pos < n -> exists x, l !! Z.to_nat pos = Some x /\ slice 0 pos l = [x].
Proof.
  intros Hl Hp. destruct (lookup_lt_is_Some_2 l (Z.to_nat pos)) as [x Hx]; [lia|]. exists x. split; [done|]. by apply slice_0.
Qed.

Section Build.
Context (vMatch : list bool).
Hypothesis Hlen : length vMatch = length leaves.

(** The bits and hashes of a subtree, whatever surrounds them, are read as the
    node's hash and the matches below it. *)
Definition reads_back (k : nat) (pos : Z) (bits : list bool) (hs : list uint256) : Prop :=
  forall preB postB preH postH ms b,
  TraverseAndExtract n k pos (preB ++ bits ++ postB) (preH ++ hs ++ postH) (Extraction (zlen preB) (zlen preH) ms b)
  = Ok (node leaves k pos, Extraction (zlen (preB ++ bits)) (zlen (preH ++ hs))
          (ms ++ picked (slice k pos leaves) (slice k pos vMatch)) b).

Lemma rd_middle {A} (pre : list A) x post : rd (E := unit) (pre ++ x :: post) (zlen pre) = Ok x.
Proof. apply rd_lookup_nat. by rewrite lookup_app_r, Nat.sub_diag by lia. Qed.

Lemma leb_middle {A} (pre : list A) x post : (zlen (pre ++ x :: post) <=? zlen pre) = false.
Proof. apply Z.leb_gt. rewrite length_app. cbn [length]. lia. Qed.

Lemma zlen_snoc' {A} (l : list A) x : zlen (l ++ [x]) = zlen l + 1.
Proof. rewrite length_app. cbn [length]. lia. Qed.

(** A node that is not descended into. *)
Lemma reads_back_leaf k pos :
  valid k pos -> (k = 0%nat \/ existsb id (slice k pos vMatch) = false) ->
  reads_back k pos [existsb id (slice k pos vMatch)] [node leaves k pos].
Proof.
  intros Hv Hc preB postB preH postH ms b. cbn [app].
  assert ((if (match k with O => true | S _ => false end) && existsb id (slice k pos vMatch)
           then ms ++ [node leaves k pos] else ms) = ms ++ picked (slice k pos leaves) (slice k pos vMatch)) as Hms.
  { destruct Hc as [->|Hc].
    - destruct Hv as (_ & Hp & Hlt). rewrite Z.mul_1_r in Hlt.
      destruct (hd_slice pos vMatch) as (m & _ & ->); [by rewrite Hlen|lia|].
      destruct (hd_slice pos leaves) as (t & Ht & ->); [done|lia|].
      cbn. rewrite orb_false_r. unfold node. cbn [level]. rewrite Ht. destruct m; cbn; [done|by rewrite app_nil_r].
    - rewrite Hc, andb_false_r, picked_none by done. by rewrite app_nil_r. }
  destruct k as [|k]; cbn [TraverseAndExtract nBitsUsed nHashUsed vMatched bad];
    rewrite leb_middle, rd_middle; cbn [mbind outcome_bind].
  - rewrite leb_middle, rd_middle. cbn [mbind outcome_bind]. rewrite !zlen_snoc', <- Hms. done.
  - destruct Hc as [|Hc]; [done|]. rewrite Hc in *. cbn [negb]. rewrite leb_middle, rd_middle. cbn [mbind outcome_bind].
    rewrite !zlen_snoc', <- Hms. done.
Qed.

Lemma build_spec k : forall pos, valid k pos ->
  exists bits hs, TraverseAndBuild n k pos leaves vMatch = Ok (bits, hs) /\ reads_back k pos bits hs /\
    (1 <= length hs <= length bits)%nat /\ (length hs <= length (slice k pos leaves))%nat /\
    (length bits <= (k + 1) * length (slice k pos leaves))%nat /\
    (Forall hash32 leaves -> Forall hash32 hs).
Proof.
  induction k as [|k IH]; intros pos Hv.
  { exists [existsb id (slice 0 pos vMatch)], [node leaves 0 pos]. cbn [TraverseAndBuild].
    rewrite IsParentOfMatch_spec by done. cbn [mbind outcome_bind]. rewrite CalcHash_spec by done.
    split; [done|]. split; [apply reads_back_leaf; auto|]. destruct Hv as (_ & Hp & Hlt).
    pose proof (slice_pos 0 pos leaves Hp Hlt). cbn [length].
    split_and!; try lia. intros Hf. by repeat constructor; apply node_hash32. }
  cbn [TraverseAndBuild]. rewrite IsParentOfMatch_spec by done. cbn [mbind outcome_bind].
  pose proof Hv as (Hk & Hp & Hlt). pose proof (slice_pos _ pos leaves Hp Hlt) as Hpos.
  destruct (existsb id (slice (S k) pos vMatch)) eqn:Em; cbn [negb].
  2:{ exists [false], [node leaves (S k) pos]. rewrite CalcHash_spec by done. split; [done|]. split.
      - rewrite <- Em. apply reads_back_leaf; auto.
      - cbn [length]. split_and!; try lia. intros Hf. by repeat constructor; apply node_hash32. }
  destruct (valid_children k pos Hv) as (Hl & -> & ->).
  destruct (IH (2 * pos) Hl) as (bl & hl & -> & Rl & L1 & L2 & L3 & L4). cbn [mbind outcome_bind fst snd].
  rewrite right_child by done. rewrite pow2_step in Hlt.
  destruct (Z.ltb_spec ((2 * pos + 1) * 2 ^ Z.of_nat k) n) as [Hr|Hr].
  - assert (valid k (2 * pos + 1)) as Hv2 by (unfold valid; lia).
    destruct (IH (2 * pos + 1) Hv2) as (br & hr & -> & Rr & R1 & R2 & R3 & R4). cbn [mbind outcome_bind fst snd].
    exists (true :: bl ++ br), (hl ++ hr). split; [done|]. rewrite slice_S, length_app by done. split.
    + intros preB postB preH postH ms b. cbn [TraverseAndExtract nBitsUsed nHashUsed vMatched bad app].
      rewrite leb_middle, rd_middle. cbn [mbind outcome_bind negb].
      destruct (valid_children k pos Hv) as (_ & -> & ->). rewrite right_child by done.
      rewrite <- zlen_snoc' with (x := true). rewrite cons_middle, <- !app_assoc, (app_assoc preB).
      rewrite Rl. cbn [mbind outcome_bind].
      destruct (Z.ltb_spec ((2 * pos + 1) * 2 ^ Z.of_nat k) n); [|lia].
      rewrite (app_assoc (preB ++ [true])), (app_assoc preH). rewrite Rr. cbn [mbind outcome_bind].
      rewrite node_pair by lia. rewrite !slice_S, picked_app by (rewrite ?slice_length; lia).
      by rewrite <- !app_assoc.
    + cbn [length]. rewrite !length_app. split_and!; try lia. intros Hf. apply Forall_app. auto.
  - cbn [mbind outcome_bind fst snd]. exists (true :: bl ++ []), (hl ++ []). rewrite !app_nil_r.
    split; [done|]. rewrite slice_S, (slice_nil k (2 * pos + 1)), app_nil_r by lia. split.
    + intros preB postB preH postH ms b. cbn [TraverseAndExtract nBitsUsed nHashUsed vMatched bad app].
      rewrite leb_middle, rd_middle. cbn [mbind outcome_bind negb].
      destruct (valid_children k pos Hv) as (_ & -> & ->). rewrite right_child by done.
      rewrite <- zlen_snoc' with (x := true). rewrite cons_middle, (app_assoc preB).
      rewrite Rl. cbn [mbind outcome_bind].
      destruct (Z.ltb_spec ((2 * pos + 1) * 2 ^ Z.of_nat k) n); [lia|]. cbn [mbind outcome_bind].
      rewrite node_dup by lia. rewrite !slice_S, !(slice_nil k (2 * pos + 1)), !app_nil_r by lia.
      by rewrite <- !app_assoc.
    + cbn [length]. split_and!; try lia. done.
Qed.
End Build.

(** *** Reading any tree *)

Section Extract.
Context (B : list bool) (H : list uint256).

Definition counters_ok (s : extraction) : Prop := 0 <= nBitsUsed s /\ 0 <= nHashUsed s.

(** Reading a node adds matches; when no flag was raised and the hash is the one
    of the node, they are transactions below it, in their order. *)
Definition read_ok (ins : list (list uint256)) (k : nat) (pos : Z) (s : extraction) (r : outcome unit (uint256 * extraction)) : Prop :=
  exists h s', r = Ok (h, s') /\ counters_ok s' /\ (bad s' = false -> bad s = false) /\
    (Forall hash32 H -> hash32 h) /\
    exists l, vMatched s' = vMatched s ++ l /\
      (bad s' = false -> Forall hash32 H -> Forall hash32 leaves -> h = node leaves k pos ->
       l `sublist_of` slice k pos leaves \/ hash_collision (ins ++ tree_inputs leaves)).

Lemma read_ok_bad ins k pos s : counters_ok s ->
  read_ok ins k pos s (Ok (UINT256_ZERO, Extraction (nBitsUsed s) (nHashUsed s) (vMatched s) true)).
Proof.
  intros Hs. eexists _, _. split; [reflexivity|]. split_and!; try done. exists []. cbn [vMatched bad]. by rewrite app_nil_r.
Qed.

Lemma read_ok_leaf ins (bd : bool) s k pos : counters_ok s -> valid k pos -> (bd = true -> k = 0%nat) ->
  read_ok ins k pos s (if zlen H <=? nHashUsed s
    then Ok (UINT256_ZERO, Extraction (nBitsUsed s) (nHashUsed s) (vMatched s) true) else
    hash ← rd H (nHashUsed s);
    Ok (hash, Extraction (nBitsUsed s) (nHashUsed s + 1)
              (if bd then vMatched s ++ [hash] else vMatched s) (bad s))).
Proof.
  intros Hs (_ & Hp & Hlt) Hk. destruct (Z.leb_spec (zlen H) (nHashUsed s)); [by apply read_ok_bad|].
  destruct Hs as [Hs1 Hs2]. destruct (rd_ok (E := unit) H (nHashUsed s)) as (h & -> & Hh); [lia|]. cbn [mbind outcome_bind].
  eexists _, _. split; [reflexivity|]. split; [unfold counters_ok; cbn; lia|]. split; [done|].
  split; [intros HH; by eapply Forall_lookup_1|]. cbn [vMatched bad].
  destruct bd; [|exists []; rewrite app_nil_r; split; [done|]; left; apply sublist_nil_l].
  exists [h]. split; [done|]. intros _ _ _ ->. left. rewrite (Hk eq_refl) in *. rewrite Z.mul_1_r in Hlt.
  destruct (hd_slice pos leaves) as (t & Ht & ->); [done|lia|]. unfold node. cbn [level]. by rewrite Ht.
Qed.

(** What was read before, under another flag or counter of bits, is the same
    start. *)
Lemma read_ok_start ins k pos s s0 r :
  vMatched s0 = vMatched s -> bad s0 = bad s -> read_ok ins k pos s0 r -> read_ok ins k pos s r.
Proof.
  intros E1 E2 (h & s' & Hr & Hc & Hb & Hh & l & Hl & Hs). exists h, s'. rewrite <- E1, <- E2. split_and!; try done.
  by exists l.
Qed.

Lemma read_ok_pair i1 i2 k pos s h1 s1 h2 s2 l1 l2 :
  valid (S k) pos -> (2 * pos + 1) * 2 ^ Z.of_nat k < n -> counters_ok s2 -> (bad s1 = false -> bad s = false) ->
  (bad s2 = false -> bad s1 = false) -> (Forall hash32 H -> hash32 h1) ->
  vMatched s1 = vMatched s ++ l1 -> vMatched s2 = vMatched s1 ++ l2 ->
  (bad s1 = false -> Forall hash32 H -> Forall hash32 leaves -> h1 = node leaves k (2 * pos) ->
   l1 `sublist_of` slice k (2 * pos) leaves \/ hash_collision (i1 ++ tree_inputs leaves)) ->
  (bad s2 = false -> Forall hash32 H -> Forall hash32 leaves -> h2 = node leaves k (2 * pos + 1) ->
   l2 `sublist_of` slice k (2 * pos + 1) leaves \/ hash_collision (i2 ++ tree_inputs leaves)) ->
  read_ok (i1 ++ i2 ++ [[h1; h2]]) (S k) pos s (Ok (Hash [h1; h2], s2)).
Proof.
  intros (Hk & Hp & _) Hlt Hc2 Hb1 Hb2 H1 E1 E2 S1 S2. eexists _, _. split; [reflexivity|]. split; [done|]. split; [auto|].
  split; [intros _; apply Hash_length|]. exists (l1 ++ l2). split; [by rewrite E2, E1, app_assoc|].
  intros Hb HH Hl Ee. rewrite node_pair in Ee by lia. rewrite slice_S by done.
  pose proof (pair_input leaves k pos Hp ltac:(lia)) as Hin.
  apply Hash_pair_inj in Ee as [[-> ->]|C]; [| |by apply H1|apply node_hash32; first [done|lia]].
  - destruct (S1 ltac:(auto) HH Hl eq_refl) as [S1'|C]; [|right; revert C; apply hash_collision_mono; set_solver +].
    destruct (S2 Hb HH Hl eq_refl) as [S2'|C]; [|right; revert C; apply hash_collision_mono; set_solver +].
    left. by apply sublist_app.
  - right. revert C. apply hash_collision_in; set_solver + Hin.
Qed.

Lemma extract_spec k : forall pos s, valid k pos -> (k <= height (length leaves))%nat -> counters_ok s ->
  read_ok (extract_inputs n k pos B H s) k pos s (TraverseAndExtract n k pos B H s).
Proof.
  induction k as [|k IH]; intros pos s Hv Hkh Hs; cbn [TraverseAndExtract extract_inputs];
    (destruct (Z.leb_spec (zlen B) (nBitsUsed s)) as [Hb|Hb]; [by apply read_ok_bad|]); pose proof Hs as [Hs1 Hs2];
    destruct (rd_ok (E := unit) B (nBitsUsed s)) as (b & -> & Hbit); try lia; rewrite ?Hbit; cbn [mbind outcome_bind andb].
  all: set (s0 := Extraction (nBitsUsed s + 1) (nHashUsed s) (vMatched s) (bad s));
    assert (counters_ok s0) as Hs0 by (unfold counters_ok; cbn; lia); apply (read_ok_start _ _ _ s s0); [done|done|].
  { by apply (read_ok_leaf _ b s0). }
  destruct b; cbn [negb]; [|by apply (read_ok_leaf _ false s0)].
  destruct (valid_children k pos Hv) as (Hl & -> & ->). rewrite right_child by done.
  destruct (IH (2 * pos) s0 Hl ltac:(lia) Hs0) as (h1 & s1 & -> & Hc1 & Hb1 & Hh1 & l1 & E1 & S1). cbn [mbind outcome_bind].
  pose proof Hv as (Hk & Hp & Hlt). rewrite pow2_step in Hlt.
  destruct (Z.ltb_spec ((2 * pos + 1) * 2 ^ Z.of_nat k) n) as [Hr|Hr].
  - destruct (IH (2 * pos + 1) s1) as (h2 & s2 & -> & Hc2 & Hb2 & Hh2 & l2 & E2 & S2); [unfold valid; lia|lia|done|].
    cbn [mbind outcome_bind]. by apply (read_ok_pair _ _ k pos s0 h1 s1 h2 s2 l1 l2).
  - cbn [mbind outcome_bind]. eexists _, _. split; [reflexivity|]. split; [done|]. split; [done|].
    split; [intros _; apply Hash_length|]. exists l1. split; [done|]. intros Hb' HH Hll Ee.
    rewrite node_dup in Ee by lia. rewrite slice_S, (slice_nil k (2 * pos + 1)), app_nil_r by lia.
    pose proof (dup_input leaves k pos Hp ltac:(lia) ltac:(lia)) as Hin.
    apply Hash_pair_inj in Ee as [[-> _]|C]; [| |by apply Hh1|apply node_hash32; first [done|lia]].
    + destruct (S1 Hb' HH Hll eq_refl) as [|C]; [by left|right; revert C; apply hash_collision_mono; set_solver +].
    + right. revert C. apply hash_collision_in; set_solver + Hin.
Qed.
End Extract.
End Given.

(** ** Packed bits *)

Lemma unpack_pack_byte (c : list bool) : (length c <= 8)%nat ->
  unpack_byte (pack_byte c) = c ++ replicate (8 - length c) false.
Proof.
  intros H. do 8 (destruct c as [|[] c]; [reflexivity| |]); cbn in H; destruct c; try reflexivity; cbn in H; lia.
Qed.

Lemma unpack_pack_rec m : forall bits, (length bits <= 8 * m)%nat -> (8 * m < length bits + 8)%nat ->
  concat (map unpack_byte (map (fun i => pack_byte (take 8 (drop (8 * i) bits))) (seq 0 m)))
  = bits ++ replicate (8 * m - length bits) false.
Proof.
  induction m as [|m IH]; intros bits H1 H2.
  { destruct bits; [done|cbn in H1; lia]. }
  cbn [seq map concat]. rewrite <- seq_shift, (map_map S). change (8 * 0)%nat with 0%nat. rewrite drop_0.
  assert (map (fun i => pack_byte (take 8 (drop (8 * S i) bits))) (seq 0 m)
          = map (fun i => pack_byte (take 8 (drop (8 * i) (drop 8 bits)))) (seq 0 m)) as ->.
  { apply map_ext. intros i. do 2 f_equal. rewrite drop_drop. f_equal. lia. }
  rewrite unpack_pack_byte by (rewrite length_take; lia).
  destruct m as [|m].
  - cbn [seq map concat]. rewrite app_nil_r, take_ge by lia. done.
  - rewrite IH by (rewrite length_drop; lia). rewrite length_take, length_drop.
    replace (8 - 8 `min` length bits)%nat with 0%nat by lia. cbn [replicate]. rewrite app_nil_r, app_assoc, take_drop.
    do 2 f_equal. lia.
Qed.

Definition padding (n : nat) : nat := (8 * ((n + 7) / 8) - n)%nat.

Lemma unpack_pack (bits : list bool) :
  unpack_bits (pack_bits bits) = bits ++ replicate (padding (length bits)) false.
Proof.
  apply unpack_pack_rec; pose proof (Nat.div_mod_eq (length bits + 7) 8); pose proof (Nat.mod_upper_bound (length bits + 7) 8); lia.
Qed.

Lemma padding_same (m : nat) : (Z.of_nat m + 7) / 8 = (Z.of_nat (m + padding m) + 7) / 8.
Proof.
  unfold padding. pose proof (Nat.div_mod_eq (m + 7) 8). pose proof (Nat.mod_upper_bound (m + 7) 8).
  replace (m + (8 * ((m + 7) / 8) - m))%nat with (8 * ((m + 7) / 8))%nat by lia.
  set (d := ((m + 7) / 8)%nat) in *.
  transitivity (Z.of_nat d); [symmetry; apply (Z.div_unique _ 8 _ (Z.of_nat (m + 7) - 8 * Z.of_nat d)); lia|].
  apply (Z.div_unique _ 8 _ 7); lia.
Qed.

Lemma UnserializePMT_ok (t : CPartialMerkleTree) rest :
  in_u 32 (nTransactions t) -> zlen (vHash t) <= MAX_SIZE -> Forall hash32 (vHash t) ->
  zlen (vBits t) <= MAX_SIZE ->
  UnserializePMT (SerializePMT t ++ rest)
  = Ok (PartialMerkleTree (nTransactions t) (vBits t ++ replicate (padding (length (vBits t))) false) (vHash t) false, rest).
Proof.
  intros Hn Hh Hf Hb. unfold UnserializePMT, SerializePMT. rewrite <- !app_assoc.
  rewrite (unser_step uint32_c) by (auto with codec). rewrite (unser_step (vector_c (blob_c 32))); [|auto with codec|by split].
  rewrite (unser_step bytes_c); [|auto with codec|].
  - by rewrite unpack_pack.
  - cbn [wire bytes_c]. unfold pack_bits. rewrite length_map, length_seq.
    pose proof (Nat.div_mod_eq (length (vBits t) + 7) 8). unfold MAX_SIZE in *. lia.
Qed.

(** ** The theorems *)

(** Extracting the matches of a tree whose bits and hashes read back, with some
    padding of the last byte of bits. *)
Lemma extract_built (vTxid : list uint256) vMatch bits hs pad :
  0 < zlen vTxid <= 41666 ->
  reads_back vTxid vMatch (height (length vTxid)) 0 bits hs ->
  (length hs <= length bits)%nat -> (length hs <= length vTxid)%nat ->
  (zlen bits + 7) / 8 = (zlen (bits ++ pad) + 7) / 8 -> length vMatch = length vTxid ->
  ExtractMatches (PartialMerkleTree (zlen vTxid) (bits ++ pad) hs false) = Ok (tree_root vTxid, picked vTxid vMatch).
Proof.
  intros Hn Hr Hb1 Hb2 Hpad Hl. unfold ExtractMatches. cbn [nTransactions vBits vHash fBad].
  change (MAX_BLOCK_SIZE_CURRENT / 60) with 41666.
  destruct (Z.eqb_spec (zlen vTxid) 0); [lia|]. destruct (Z.ltb_spec 41666 (zlen vTxid)); [lia|].
  destruct (Z.ltb_spec (zlen vTxid) (zlen hs)); [lia|].
  destruct (Z.ltb_spec (zlen (bits ++ pad)) (zlen hs)); [rewrite length_app in *; lia|].
  pose proof (height_le_16 vTxid Hn). rewrite (height_loop_spec vTxid Hn) by lia. cbn [mbind outcome_bind].
  specialize (Hr [] pad [] [] [] false). cbn [app] in Hr. rewrite app_nil_r in Hr.
  change (zlen []) with 0 in Hr. rewrite Hr. cbn [mbind outcome_bind bad nBitsUsed nHashUsed vMatched].
  rewrite Hpad, !Z.eqb_refl. cbn [negb]. pose proof (height_bounds vTxid ltac:(lia)).
  rewrite !slice_all by (rewrite ?Hl; done). by rewrite tree_root_node by lia.
Qed.

(** C35: a partial tree built from the ids of a block and a flag for each gives
    back, when its matches are extracted, the Merkle root of the block and the
    flagged ids in their order, also after a trip over the wire, which pads the
    bits to whole bytes.  The bound is the one [ExtractMatches] sets: a block
    has at most 41666 transactions. *)
Theorem partial_tree_roundtrip (vTxid : list uint256) (vMatch : list bool) (rest : list Z) :
  0 < zlen vTxid <= MAX_BLOCK_SIZE_CURRENT / 60 -> length vMatch = length vTxid -> Forall hash32 vTxid ->
  exists t t' mutated root,
    CPartialMerkleTree_of vTxid vMatch = Ok t /\
    UnserializePMT (SerializePMT t ++ rest) = Ok (t', rest) /\
    ComputeMerkleRoot vTxid = Ok (root, mutated) /\
    ExtractMatches t = Ok (root, picked vTxid vMatch) /\
    ExtractMatches t' = Ok (root, picked vTxid vMatch).
Proof.
  change (MAX_BLOCK_SIZE_CURRENT / 60) with 41666. intros Hn Hl Hh.
  destruct (computation_spec vTxid (u32 (-1)) ltac:(lia) false) as (mut & Hroot & _); [lia|done|].
  pose proof (height_le_16 vTxid Hn) as H16.
  destruct (build_spec vTxid Hn vMatch Hl (height (length vTxid)) 0) as (bits & hs & E & Hr & L1 & L2 & L3 & L4);
    [unfold valid; lia|].
  rewrite slice_length in L2, L3.
  exists (PartialMerkleTree (zlen vTxid) bits hs false),
    (PartialMerkleTree (zlen vTxid) (bits ++ replicate (padding (length bits)) false) hs false), mut, (tree_root vTxid).
  split_and!.
  - unfold CPartialMerkleTree_of. rewrite wrapu_small by (unfold in_u; lia).
    rewrite (height_loop_spec vTxid Hn) by lia. cbn [mbind outcome_bind]. by rewrite E.
  - apply UnserializePMT_ok; cbn [nTransactions vBits vHash]; [unfold in_u; lia|unfold MAX_SIZE; lia|auto|unfold MAX_SIZE; nia].
  - unfold ComputeMerkleRoot. by rewrite Hroot.
  - rewrite <- (app_nil_r bits) at 1. apply extract_built; try done; [lia|lia|by rewrite app_nil_r].
  - apply extract_built; try done; [lia|lia|]. rewrite length_app, length_replicate. apply padding_same.
Qed.

(** C34: a partial tree proves what it says.  Whatever the bits and hashes of a
    tree are, extracting its matches reads no hash or bit that is not there; and
    if the root it gives is the root of a list of as many transaction ids, then
    the matches are ids of that list, in its order, or two pairs collide among
    those hashed while reading the tree and those of the full tree. *)
Theorem partial_tree_sound (t : CPartialMerkleTree) (vTxid : list uint256) :
  0 <= nTransactions t ->
  (exists r, ExtractMatches t = Ok r) /\
  (forall root matches, ExtractMatches t = Ok (root, matches) ->
   nTransactions t = zlen vTxid -> Forall hash32 vTxid -> Forall hash32 (vHash t) ->
   root = tree_root vTxid -> root <> UINT256_ZERO ->
   matches `sublist_of` vTxid \/
   hash_collision (extract_inputs (nTransactions t) (height (length vTxid)) 0 (vBits t) (vHash t)
                     (Extraction 0 0 [] (fBad t)) ++ tree_inputs vTxid)).
Proof.
  intros H0. unfold ExtractMatches. change (MAX_BLOCK_SIZE_CURRENT / 60) with 41666.
  destruct (Z.eqb_spec (nTransactions t) 0); [split; [by eexists|intros ? ? [= <- <-]; done]|].
  destruct (Z.ltb_spec 41666 (nTransactions t)); [split; [by eexists|intros ? ? [= <- <-]; done]|].
  destruct (Z.ltb_spec (nTransactions t) (zlen (vHash t))); [split; [by eexists|intros ? ? [= <- <-]; done]|].
  destruct (Z.ltb_spec (zlen (vBits t)) (zlen (vHash t))); [split; [by eexists|intros ? ? [= <- <-]; done]|].
  assert (forall l, zlen l = nTransactions t -> exists h s,
    height_loop (nTransactions t) 31 0 = Ok (height (length l)) /\
    TraverseAndExtract (nTransactions t) (height (length l)) 0 (vBits t) (vHash t) (Extraction 0 0 [] (fBad t)) = Ok (h, s) /\
    (bad s = false -> Forall hash32 (vHash t) -> Forall hash32 l -> h = tree_root l ->
     vMatched s `sublist_of` l \/
     hash_collision (extract_inputs (nTransactions t) (height (length l)) 0 (vBits t) (vHash t)
                       (Extraction 0 0 [] (fBad t)) ++ tree_inputs l))) as Hread.
  { intros l Hl. rewrite <- Hl in *. assert (0 < zlen l <= 41666) as Hn by lia. pose proof (height_le_16 l Hn).
    rewrite (height_loop_spec l Hn) by lia.
    destruct (extract_spec l Hn (vBits t) (vHash t) (height (length l)) 0 (Extraction 0 0 [] (fBad t)))
      as (h & s & E & _ & _ & _ & ms & Hms & Hsub); [unfold valid; lia|lia|unfold counters_ok; cbn; lia|].
    exists h, s. rewrite E. split_and!; [done..|]. intros Hb HH Hf Hh. cbn [vMatched app] in Hms. rewrite Hms.
    pose proof (height_bounds l ltac:(lia)). rewrite slice_all in Hsub by done. apply Hsub; try done.
    rewrite Hh. apply tree_root_node. lia. }
  split.
  - destruct (Hread (replicate (Z.to_nat (nTransactions t)) [])) as (h & s & Eh & E & _);
      [rewrite length_replicate; lia|].
    rewrite Eh. cbn [mbind outcome_bind]. rewrite E. cbn [mbind outcome_bind].
    destruct (bad s); [by eexists|]. repeat case_match; by eexists.
  - intros root ms E Hl Hf HH Hroot Hne. destruct (Hread vTxid (eq_sym Hl)) as (h & s & Eh & Et & Hs).
    rewrite Eh in E. cbn [mbind outcome_bind] in E. rewrite Et in E. cbn [mbind outcome_bind] in E.
    destruct (bad s); [injection E as <- <-; done|].
    repeat case_match; injection E as <- <-; try done. by apply Hs.
Qed.

(** ** Examples *)

Lemma partial_tree_roundtrip_witness :
  exists t t' mutated root,
    CPartialMerkleTree_of (sample_leaves 3) [true; false; true] = Ok t /\
    UnserializePMT (SerializePMT t ++ [42]) = Ok (t', [42]) /\
    ComputeMerkleRoot (sample_leaves 3) = Ok (root, mutated) /\
    ExtractMatches t = Ok (root, [replicate 32 0; replicate 32 2]) /\
    ExtractMatches t' = Ok (root, [replicate 32 0; replicate 32 2]).
Proof.
  apply (partial_tree_roundtrip (sample_leaves 3) [true; false; true] [42]);
    [split; [reflexivity|discriminate]|reflexivity|apply sample_leaves_ok].
Defined.

Lemma partial_tree_sound_witness :
  let t := PartialMerkleTree 1 [true] [replicate 32 5] false in
  ExtractMatches t = Ok (replicate 32 5, [replicate 32 5]) /\
  ([replicate 32 5] `sublist_of` [replicate 32 5] \/ hash_collision []).
Proof.
  intros t. split; [reflexivity|].
  apply (proj2 (partial_tree_sound t [replicate 32 5] ltac:(cbn; lia)) (replicate 32 5) [replicate 32 5]);
    try reflexivity; try (repeat constructor); discriminate.
Defined.
