(* ===== verification/MerkleTree.v ===== *)
(** * The tree of note commitments: sapling/incrementalmerkletree.h and .cpp

    [IncrementalMerkleTree] keeps a Merkle tree of fixed depth that only grows
    to the right by its frontier: the last one or two leaves and the roots of the
    complete subtrees on their left.  [IncrementalWitness] follows one leaf while
    others are appended.  The abstract specification is [merkle d l], the root of
    the full tree of depth [d] over the list of leaves [l], padded with
    uncommitted leaves.

    [combine] is the hash of two children ([librustzcash_merkle_hash], outside
    the repository) and [EmptyRoot] the table [pedersen_empty_roots], of which
    the proofs use that each entry is the hash of two of the one before. *)
From S2P Require Import Prelude Serialize HashStream Sha256 Hash Script Interpreter Standard Transaction.

(** ** Merkle paths *)

(** [convertBytesVectorToVector]: the bits of each byte, the highest first. *)
Definition byte_bits (c : Z) : list bool :=
  map (fun j => Z.testbit c (7 - Z.of_nat j)) (seq 0 8).
Definition convertBytesVectorToVector (bytes : list Z) : list bool := concat (map byte_bits bytes).

Record MerklePath := Path { authentication_path : list (list bool); index : list bool }.

Section MerkleTree.
Context (combine : uint256 -> uint256 -> nat -> uint256) (EmptyRoot : nat -> uint256).
Context (Depth : nat).

(** ** The tree *)

Record IncrementalMerkleTree := Tree {
  left : option uint256;
  right : option uint256;
  parents : list (option uint256);
}.

Definition tree_new : IncrementalMerkleTree := Tree None None [].
Definition empty_root : uint256 := EmptyRoot Depth.

Definition is_some {A} (o : option A) : bool := match o with Some _ => true | None => false end.

(** [wfcheck] throws when this is false. *)
Definition wfcheck (t : IncrementalMerkleTree) : bool :=
  negb (Depth <=? length (parents t))%nat &&
  negb (negb (bool_decide (parents t = [])) && negb (is_some (default None (last (parents t))))) &&
  negb (negb (is_some (left t)) && is_some (right t)) &&
  negb (negb (is_some (left t)) && negb (bool_decide (parents t = []))).

Definition tree_last (t : IncrementalMerkleTree) : outcome unit uint256 :=
  match right t, left t with
  | Some r, _ => Ok r
  | None, Some l => Ok l
  | None, None => Throw
  end.

(** [ret += (1 << (i+1))]: the shift is of an int. *)
Fixpoint size_parents (ps : list (option uint256)) (i : Z) (ret : Z) : Z :=
  match ps with
  | [] => ret
  | p :: ps => size_parents ps (i + 1) (if is_some p then u64 (ret + u64 (i32 (2 ^ (i + 1)))) else ret)
  end.
Definition tree_size (t : IncrementalMerkleTree) : Z :=
  size_parents (parents t) 0 ((if is_some (left t) then 1 else 0) + (if is_some (right t) then 1 else 0)).

Definition is_complete (depth : nat) (t : IncrementalMerkleTree) : bool :=
  if negb (is_some (left t)) || negb (is_some (right t)) then false
  else if negb (length (parents t) + 1 =? depth)%nat then false
  else forallb is_some (parents t).

(** The loop over [parents] from index [i]; [fuel] is [Depth - i]. *)
Fixpoint append_loop (fuel : nat) (ps : list (option uint256)) (combined : uint256) (i : nat)
  : list (option uint256) :=
  match fuel with
  | O => ps
  | S fuel =>
      match ps with
      | Some p :: ps => None :: append_loop fuel ps (combine p combined (i + 1)) (i + 1)
      | None :: ps => Some combined :: ps
      | [] => [Some combined]
      end
  end.

Definition append (obj : uint256) (t : IncrementalMerkleTree) : outcome unit IncrementalMerkleTree :=
  if is_complete Depth t then Throw else
  match left t, right t with
  | None, r => Ok (Tree (Some obj) r (parents t))
  | Some l, None => Ok (Tree (Some l) (Some obj) (parents t))
  | Some l, Some r => Ok (Tree (Some obj) None (append_loop Depth (parents t) (combine l r 0) 0))
  end.

Fixpoint next_depth_loop (ps : list (option uint256)) (d skip : nat) : nat :=
  match ps with
  | [] => d + skip
  | None :: ps => match skip with O => d | S skip => next_depth_loop ps (d + 1) skip end
  | Some _ :: ps => next_depth_loop ps (d + 1) skip
  end.
Definition next_depth (skip : nat) (t : IncrementalMerkleTree) : nat :=
  match left t, right t, skip with
  | None, _, O => O
  | None, None, S O => O
  | None, None, S (S skip) => next_depth_loop (parents t) 1 skip
  | None, Some _, S skip => next_depth_loop (parents t) 1 skip
  | Some _, None, O => O
  | Some _, None, S skip => next_depth_loop (parents t) 1 skip
  | Some _, Some _, skip => next_depth_loop (parents t) 1 skip
  end.

(** [PathFiller] *)
Definition next (queue : list uint256) (depth : nat) : uint256 * list uint256 :=
  match queue with h :: queue => (h, queue) | [] => (EmptyRoot depth, []) end.
Definition or_next (o : option uint256) (queue : list uint256) (depth : nat) : uint256 * list uint256 :=
  match o with Some h => (h, queue) | None => next queue depth end.

Fixpoint root_parents (ps : list (option uint256)) (root : uint256) (d : nat) (q : list uint256)
  : uint256 * nat * list uint256 :=
  match ps with
  | [] => (root, d, q)
  | Some p :: ps => root_parents ps (combine p root d) (d + 1) q
  | None :: ps => let '(h, q) := next q d in root_parents ps (combine root h d) (d + 1) q
  end.
(** [while (d < depth)]; [fuel] is [depth - d]. *)
Fixpoint root_rest (fuel : nat) (root : uint256) (d : nat) (q : list uint256) : uint256 :=
  match fuel with
  | O => root
  | S fuel => let '(h, q) := next q d in root_rest fuel (combine root h d) (d + 1) q
  end.
Definition root_with (depth : nat) (filler_hashes : list uint256) (t : IncrementalMerkleTree) : uint256 :=
  let '(combine_left, q) := or_next (left t) filler_hashes 0 in
  let '(combine_right, q) := or_next (right t) q 0 in
  let '(root, d, q) := root_parents (parents t) (combine combine_left combine_right 0) 1 q in
  root_rest (depth - d) root d q.
Definition root (t : IncrementalMerkleTree) : uint256 := root_with Depth [] t.

(** The hashes of the path and its directions, from the leaf up. *)
Fixpoint path_parents (ps : list (option uint256)) (d : nat) (q : list uint256)
  : list (uint256 * bool) * nat * list uint256 :=
  match ps with
  | [] => ([], d, q)
  | Some p :: ps => let '(l, d', q) := path_parents ps (d + 1) q in ((p, true) :: l, d', q)
  | None :: ps => let '(h, q) := next q d in let '(l, d', q) := path_parents ps (d + 1) q in ((h, false) :: l, d', q)
  end.
Fixpoint path_rest (fuel : nat) (d : nat) (q : list uint256) : list (uint256 * bool) :=
  match fuel with
  | O => []
  | S fuel => let '(h, q) := next q d in (h, false) :: path_rest fuel (d + 1) q
  end.
Definition path_up (filler_hashes : list uint256) (t : IncrementalMerkleTree) : outcome unit (list (uint256 * bool)) :=
  match left t with
  | None => Throw
  | Some l =>
      let '(first, q) := match right t with
                         | Some _ => ((l, true), filler_hashes)
                         | None => let '(h, q) := next filler_hashes 0 in ((h, false), q)
                         end in
      let '(mid, d, q) := path_parents (parents t) 1 q in
      Ok (first :: mid ++ path_rest (Depth - d) d q)
  end.
Definition path (filler_hashes : list uint256) (t : IncrementalMerkleTree) : outcome unit MerklePath :=
  p ← path_up filler_hashes t;
  Ok (Path (reverse (map (fun x => convertBytesVectorToVector x.1) p)) (reverse (map snd p))).

(** ** The witness of a leaf *)

Record IncrementalWitness := Witness {
  wtree : IncrementalMerkleTree;
  filled : list uint256;
  cursor : option IncrementalMerkleTree;
  cursor_depth : nat;
}.

Definition witness (t : IncrementalMerkleTree) : IncrementalWitness := Witness t [] None 0.

Definition partial_path (w : IncrementalWitness) : list uint256 :=
  match cursor w with
  | Some c => filled w ++ [root_with (cursor_depth w) [] c]
  | None => filled w
  end.
Definition witness_path (w : IncrementalWitness) : outcome unit MerklePath := path (partial_path w) (wtree w).
Definition witness_element (w : IncrementalWitness) : outcome unit uint256 := tree_last (wtree w).
Definition witness_position (w : IncrementalWitness) : Z := u64 (tree_size (wtree w) - 1).
Definition witness_root (w : IncrementalWitness) : uint256 := root_with Depth (partial_path w) (wtree w).

Definition witness_append (obj : uint256) (w : IncrementalWitness) : outcome unit IncrementalWitness :=
  match cursor w with
  | Some c =>
      c ← append obj c;
      if is_complete (cursor_depth w) c
      then Ok (Witness (wtree w) (filled w ++ [root_with (cursor_depth w) [] c]) None (cursor_depth w))
      else Ok (Witness (wtree w) (filled w) (Some c) (cursor_depth w))
  | None =>
      let d := next_depth (length (filled w)) (wtree w) in
      if (Depth <=? d)%nat then Throw
      else if (d =? 0)%nat then Ok (Witness (wtree w) (filled w ++ [obj]) None d)
      else (c ← append obj tree_new; Ok (Witness (wtree w) (filled w) (Some c) d))
  end.

(** ** Serialization *)

Definition hash_opt_c : codec (option uint256) := optional_c (blob_c 32).
Definition tree_c : codec IncrementalMerkleTree :=
  Codec (fun t => ser hash_opt_c (left t) ++ ser hash_opt_c (right t) ++ ser (vector_c hash_opt_c) (parents t))
    (l ← unser hash_opt_c; r ← unser hash_opt_c; ps ← unser (vector_c hash_opt_c);
     let t := Tree l r ps in if wfcheck t then mret t else rthrow)
    (fun t => wire hash_opt_c (left t) /\ wire hash_opt_c (right t) /\ wire (vector_c hash_opt_c) (parents t) /\
              wfcheck t = true).

(** The cursor's depth is not written: reading works it out again. *)
Definition witness_c : codec IncrementalWitness :=
  Codec (fun w => ser tree_c (wtree w) ++ ser (vector_c (blob_c 32)) (filled w) ++ ser (optional_c tree_c) (cursor w))
    (t ← unser tree_c; f ← unser (vector_c (blob_c 32)); c ← unser (optional_c tree_c);
     mret (Witness t f c (next_depth (length f) t)))
    (fun w => wire tree_c (wtree w) /\ wire (vector_c (blob_c 32)) (filled w) /\ wire (optional_c tree_c) (cursor w) /\
              cursor_depth w = next_depth (length (filled w)) (wtree w)).

(** ** The specification *)

(** Appending a list of leaves. *)
Fixpoint append_all (l : list uint256) (t : IncrementalMerkleTree) : outcome unit IncrementalMerkleTree :=
  match l with [] => Ok t | x :: l => t ← append x t; append_all l t end.
Fixpoint witness_append_all (l : list uint256) (w : IncrementalWitness) : outcome unit IncrementalWitness :=
  match l with [] => Ok w | x :: l => w ← witness_append x w; witness_append_all l w end.

(** The root of the full tree of depth [d] over the leaves [l]. *)
Fixpoint merkle (d : nat) (l : list uint256) : uint256 :=
  match d with
  | O => default (EmptyRoot 0) (head l)
  | S d => combine (merkle d (take (2 ^ d) l)) (merkle d (drop (2 ^ d) l)) d
  end.

(** ** The frontier stands for a list of leaves *)

Hypothesis EmptyRoot_combine : forall d, EmptyRoot (S d) = combine (EmptyRoot d) (EmptyRoot d) d.

Lemma merkle_nil d : merkle d [] = EmptyRoot d.
Proof. induction d as [|d IH]; [done|]. cbn [merkle]. by rewrite take_nil, drop_nil, IH. Qed.

(** Two subtrees side by side: the left one is full unless the right one is empty. *)
Lemma merkle_S d l r :
  (length l <= 2 ^ d)%nat -> (r ≠ [] -> length l = (2 ^ d)%nat) ->
  merkle (S d) (l ++ r) = combine (merkle d l) (merkle d r) d.
Proof.
  intros Hl Hr. cbn [merkle]. destruct (decide (r = [])) as [->|Hne].
  - rewrite app_nil_r, take_ge, drop_ge by done. done.
  - rewrite <- (Hr Hne), take_app_length, drop_app_length. done.
Qed.

Lemma pow2_S d : (2 ^ S d = 2 ^ d + 2 ^ d)%nat.
Proof. cbn. lia. Qed.
Lemma pow2_pos d : (1 <= 2 ^ d)%nat.
Proof. induction d; [cbn; lia|rewrite pow2_S; lia]. Qed.

Fixpoint reprP (i : nat) (ps : list (option uint256)) (l : list uint256) : Prop :=
  match ps with
  | [] => l = []
  | None :: ps => reprP (S i) ps l
  | Some h :: ps => exists l1 l2, l = l1 ++ l2 /\ length l2 = (2 ^ i)%nat /\ h = merkle i l2 /\ reprP (S i) ps l1
  end.

Definition leaves (t : IncrementalMerkleTree) (tl : list uint256) : Prop :=
  match left t, right t with
  | None, None => tl = [] /\ parents t = []
  | Some a, None => tl = [a]
  | Some a, Some b => tl = [a; b]
  | None, Some _ => False
  end.

Definition repr (t : IncrementalMerkleTree) (l : list uint256) : Prop :=
  exists l1 tl, l = l1 ++ tl /\ reprP 1 (parents t) l1 /\ leaves t tl /\
    (length (parents t) < Depth)%nat /\ last (parents t) ≠ Some None.

Lemma reprP_upper ps : forall i l, reprP i ps l ->
  (length l + 2 ^ i <= 2 ^ (i + length ps))%nat /\
  (forallb is_some ps = true <-> length l + 2 ^ i = 2 ^ (i + length ps))%nat.
Proof.
  induction ps as [|[h|] ps IH]; intros i l Hr; cbn [reprP length forallb is_some andb] in *.
  - subst. rewrite Nat.add_0_r. cbn. split; [lia|tauto].
  - destruct Hr as (l1 & l2 & -> & Hl & _ & Hr). destruct (IH _ _ Hr) as [Hu He]. rewrite length_app, Hl.
    replace (i + S (length ps))%nat with (S i + length ps)%nat by lia. rewrite pow2_S in *. split; [lia|].
    rewrite He. lia.
  - destruct (IH _ _ Hr) as [Hu He]. replace (i + S (length ps))%nat with (S i + length ps)%nat by lia.
    rewrite pow2_S in *. pose proof (pow2_pos i). split; [lia|]. split; [done|lia].
Qed.

Lemma reprP_lower ps : forall i l, reprP i ps l -> ps ≠ [] -> last ps ≠ Some None ->
  (2 ^ (i + length ps) <= 2 * length l)%nat.
Proof.
  induction ps as [|p ps IH]; intros i l Hr Hne Hlast; [done|].
  destruct (decide (ps = [])) as [->|Hps].
  - destruct p as [h|]; [|by exfalso; apply Hlast]. destruct Hr as (l1 & l2 & -> & Hl & _ & _).
    rewrite length_app, Hl. cbn [length]. replace (i + 1)%nat with (S i) by lia. rewrite pow2_S. lia.
  - assert (last ps ≠ Some None) as Hl' by (destruct ps; [done|exact Hlast]).
    cbn [length]. replace (i + S (length ps))%nat with (S i + length ps)%nat by lia. cbn [reprP] in Hr.
    destruct p as [h|]; [|by apply IH].
    destruct Hr as (l1 & l2 & -> & _ & _ & Hr). specialize (IH _ _ Hr Hps Hl'). rewrite length_app. lia.
Qed.

Lemma repr_new : (0 < Depth)%nat -> repr tree_new [].
Proof. intros HD. exists [], []. by repeat split. Qed.

(** The number of parents follows from the number of leaves. *)
Lemma repr_parents t l d : repr t l -> (length l <= 2 ^ d)%nat -> (length (parents t) < S d)%nat /\ (0 < d -> length (parents t) < d)%nat.
Proof.
  intros (l1 & tl & -> & Hr & Hlv & HD & Hlast) Hl. rewrite length_app in Hl.
  destruct (decide (parents t = [])) as [Hp|Hp]; [rewrite Hp; cbn; lia|].
  pose proof (reprP_lower _ _ _ Hr Hp Hlast) as Hlow. cbn [Nat.add] in Hlow. rewrite pow2_S in Hlow.
  assert (1 <= length tl)%nat as Htl.
  { unfold leaves in Hlv. destruct (left t), (right t); subst; cbn; try lia; by destruct Hlv. }
  assert (2 ^ length (parents t) < 2 ^ d)%nat as Hlt by lia. apply Nat.pow_lt_mono_r_iff in Hlt; lia.
Qed.

Lemma is_complete_iff t l d : repr t l -> (0 < d)%nat -> is_complete d t = true <-> length l = (2 ^ d)%nat.
Proof.
  intros Hrep Hd. pose proof Hrep as (l1 & tl & -> & Hr & Hlv & HD & Hlast).
  pose proof (reprP_upper _ _ _ Hr) as [Hu He]. rewrite length_app. cbn [Nat.add] in *.
  change (2 ^ 1)%nat with 2%nat in *. destruct d as [|d]; [lia|].
  assert (length (l1 ++ tl) = 2 ^ S d -> length l1 + 2 <= 2 ^ S d /\ length (parents t) <= d)%nat as Hlen.
  { intros Hl. destruct (repr_parents t _ (S d) Hrep) as [_ H1]; [lia|].
    assert (2 ^ S (length (parents t)) <= 2 ^ S d)%nat by (apply Nat.pow_le_mono_r; lia). lia. }
  rewrite length_app in Hlen. unfold is_complete, leaves in *.
  destruct (left t) as [a|], (right t) as [b|]; cbn [is_some negb orb] in *; subst; cbn [length] in *; [| |done|].
  - destruct (Nat.eqb_spec (length (parents t) + 1) (S d)) as [Hp|Hp]; cbn [negb].
    + rewrite He. replace (length (parents t)) with d by lia. lia.
    + split; [done|]. intros Hl. exfalso. apply Hp. destruct (Hlen Hl) as [_ Hle].
      assert (2 ^ S d <= 2 ^ S (length (parents t)))%nat as Hge by lia. apply Nat.pow_le_mono_r_iff in Hge; lia.
  - split; [done|]. intros Hl. destruct (Hlen Hl). lia.
  - destruct Hlv as [-> Hp]. rewrite Hp in Hr. cbn in Hr. subst. cbn [length]. split; [done|]. pose proof (pow2_pos (S d)). lia.
Qed.

(** ** The empty slots and what fills them *)

(** The depths of the empty subtrees on the right of the frontier. *)
Fixpoint slots_parents (ps : list (option uint256)) (d : nat) : list nat :=
  match ps with
  | [] => []
  | None :: ps => d :: slots_parents ps (S d)
  | Some _ :: ps => slots_parents ps (S d)
  end.
Definition slots (depth : nat) (t : IncrementalMerkleTree) : list nat :=
  (if is_some (left t) then [] else [0%nat]) ++ (if is_some (right t) then [] else [0%nat]) ++
  slots_parents (parents t) 1 ++ seq (S (length (parents t))) (depth - S (length (parents t))).

(** The queue [q] gives each slot the root of the leaves [r] that belong there. *)
Fixpoint fillers_ok (q : list uint256) (ds : list nat) (r : list uint256) : Prop :=
  match ds with
  | [] => r = []
  | d :: ds => (next q d).1 = merkle d (take (2 ^ d) r) /\ fillers_ok (next q d).2 ds (drop (2 ^ d) r)
  end.

Lemma fillers_nil ds : fillers_ok [] ds [].
Proof. induction ds as [|d ds IH]; [done|]. cbn. rewrite take_nil, drop_nil, merkle_nil. done. Qed.

(** The leaves so far of a subtree of depth [d], and the ones still to come. *)
Definition pending (d : nat) (cur r : list uint256) : Prop :=
  (length cur <= 2 ^ d)%nat /\ (r ≠ [] -> length cur = (2 ^ d)%nat).

Lemma pending_right d cur r : pending d cur r -> pending (S d) (cur ++ take (2 ^ d) r) (drop (2 ^ d) r).
Proof.
  intros [Hl Hr]. unfold pending. rewrite length_app, length_take, pow2_S. split; [lia|]. intros Hd.
  assert (r ≠ []) as Hne by (intros ->; by rewrite drop_nil in Hd). rewrite (Hr Hne).
  assert (2 ^ d < length r)%nat; [|lia]. apply Nat.nle_gt. intros Hle. by rewrite drop_ge in Hd.
Qed.
Lemma pending_left d l2 cur r : pending d cur r -> length l2 = (2 ^ d)%nat -> pending (S d) (l2 ++ cur) r.
Proof. intros [Hl Hr] Hl2. unfold pending. rewrite length_app, pow2_S, Hl2. split; [lia|]. intros Hne. rewrite Hr by done. lia. Qed.
Lemma pending_root d cur r :
  pending d cur r -> combine (merkle d cur) (merkle d (take (2 ^ d) r)) d = merkle (S d) (cur ++ take (2 ^ d) r).
Proof.
  intros [Hl Hr]. rewrite merkle_S; [done|done|]. intros Hne. apply Hr. intros ->. by rewrite take_nil in Hne.
Qed.

Lemma root_rest_merkle n : forall d q cur r,
  pending d cur r -> fillers_ok q (seq d n) r ->
  root_rest n (merkle d cur) d q = merkle (d + n) (cur ++ r).
Proof.
  induction n as [|n IH]; intros d q cur r Hp Hf; cbn [root_rest seq fillers_ok] in *.
  - rewrite Hf, app_nil_r, Nat.add_0_r. done.
  - destruct (next q d) as [h q']. destruct Hf as [Hh Hf]. cbn [fst snd] in *. rewrite Hh, pending_root by done.
    replace (d + 1)%nat with (S d) by lia. rewrite (IH _ _ _ (drop (2 ^ d) r)) by (done || by apply pending_right).
    rewrite <- app_assoc, take_drop. f_equal. lia.
Qed.

Lemma root_parents_merkle ps : forall d q cur l r n,
  reprP d ps l -> pending d cur r -> fillers_ok q (slots_parents ps d ++ seq (d + length ps) n) r ->
  let '(rt, d', q') := root_parents ps (merkle d cur) d q in
  d' = (d + length ps)%nat /\ root_rest n rt d' q' = merkle (d + length ps + n) (l ++ cur ++ r).
Proof.
  induction ps as [|[h|] ps IH]; intros d q cur l r n Hr Hp Hf; cbn [root_parents reprP slots_parents length] in *.
  - subst. rewrite Nat.add_0_r in *. split; [done|]. cbn [app] in *. by apply root_rest_merkle.
  - destruct Hr as (l1 & l2 & -> & Hl2 & -> & Hr). destruct Hp as [Hp1 Hp2].
    replace (combine (merkle d l2) (merkle d cur) d) with (merkle (S d) (l2 ++ cur)) by (apply merkle_S; [lia|done]).
    replace (d + 1)%nat with (S d) by lia. replace (d + S (length ps))%nat with (S d + length ps)%nat in * by lia.
    specialize (IH (S d) q (l2 ++ cur) l1 r n Hr (pending_left _ _ _ _ (conj Hp1 Hp2) Hl2) Hf).
    destruct (root_parents _ _ _ _) as [[rt d'] q']. by rewrite <- !app_assoc in *.
  - replace (d + 1)%nat with (S d) by lia. replace (d + S (length ps))%nat with (S d + length ps)%nat in * by lia.
    cbn [app fillers_ok] in Hf. destruct (next q d) as [h q1]. cbn [fst snd] in Hf. destruct Hf as [-> Hf].
    rewrite pending_root by done.
    specialize (IH (S d) q1 (cur ++ take (2 ^ d) r) l (drop (2 ^ d) r) n Hr (pending_right _ _ _ Hp) Hf).
    destruct (root_parents _ _ _ _) as [[rt d'] q']. by rewrite <- app_assoc, take_drop in IH.
Qed.

Lemma merkle_0 (l : list uint256) : merkle 0 l = default (EmptyRoot 0) (head l).
Proof. done. Qed.

(** The root with the slots filled is the root over all the leaves. *)
Lemma root_with_merkle depth t l q r :
  repr t l -> (S (length (parents t)) <= depth)%nat -> fillers_ok q (slots depth t) r ->
  root_with depth q t = merkle depth (l ++ r).
Proof.
  intros (l1 & tl & -> & Hr & Hlv & _ & _) Hd Hf. unfold root_with, slots in *.
  assert (exists cur q1 r1, pending 1 cur r1 /\ cur ++ r1 = tl ++ r /\
    fillers_ok q1 (slots_parents (parents t) 1 ++ seq (S (length (parents t))) (depth - S (length (parents t)))) r1 /\
    forall A (k : uint256 -> list uint256 -> A),
      (let '(cl, q) := or_next (left t) q 0 in let '(cr, q) := or_next (right t) q 0 in k (combine cl cr 0) q)
      = k (merkle 1 cur) q1) as (cur & q1 & r1 & Hp & Happ & Hf1 & Hk).
  { unfold leaves in Hlv. destruct (left t) as [a|], (right t) as [b|]; cbn [is_some app or_next fillers_ok] in *; [..|done|].
    - subst. exists [a; b], q, r. split_and!; try done; split; cbn; lia.
    - subst. destruct (next q 0) as [h q1]. cbn [fst snd] in *. destruct Hf as [-> Hf].
      exists ([a] ++ take 1 r), q1, (drop 1 r). split_and!; [|by rewrite <- app_assoc, take_drop|done|].
      + apply (pending_right 0). split; cbn; lia.
      + done.
    - destruct Hlv as [-> _]. destruct (next q 0) as [h q1]. cbn [fst snd] in Hf. destruct Hf as [-> Hf].
      destruct (next q1 0) as [h' q2]. cbn [fst snd] in Hf. destruct Hf as [-> Hf].
      change (2 ^ 0)%nat with 1%nat in *.
      assert (pending 0 (take 1 r) (drop 1 r)) as Hp0.
      { split; rewrite length_take; change (2 ^ 0)%nat with 1%nat; [lia|]. intros Hne. destruct r; [done|cbn [length]; lia]. }
      exists (take 1 r ++ take 1 (drop 1 r)), q2, (drop 1 (drop 1 r)). split_and!; [|by rewrite <- app_assoc, !take_drop|done|].
      + by apply (pending_right 0).
      + intros A k. f_equal. by apply (pending_root 0 (take 1 r)). }
  rewrite (Hk _ (fun rt q => let '(root, d, q) := root_parents (parents t) rt 1 q in root_rest (depth - d) root d q)).
  pose proof (root_parents_merkle (parents t) 1 q1 cur l1 r1 (depth - S (length (parents t))) Hr Hp Hf1) as Hroot.
  destruct (root_parents _ _ _ _) as [[rt d'] q']. destruct Hroot as [-> Hroot].
  cbn [Nat.add] in *. rewrite Hroot, Happ, <- app_assoc. f_equal. lia.
Qed.

(** ** Appending *)

Lemma last_cons_ne {A} (x : A) l : l ≠ [] -> last (x :: l) = last l.
Proof. by destruct l. Qed.

Lemma append_loop_repr fuel : forall ps combined i l1 c,
  reprP (S i) ps l1 -> length c = (2 ^ S i)%nat -> combined = merkle (S i) c -> (length ps < fuel)%nat ->
  last ps ≠ Some None ->
  let ps' := append_loop fuel ps combined i in
  reprP (S i) ps' (l1 ++ c) /\ ps' ≠ [] /\ last ps' ≠ Some None /\
  (length ps' <= if forallb is_some ps then S (length ps) else length ps)%nat.
Proof.
  induction fuel as [|fuel IH]; intros ps combined i l1 c Hr Hc -> Hlen Hlast; [lia|].
  cbn [append_loop]. destruct ps as [|[p|] ps]; cbn [reprP forallb is_some andb length] in *.
  - subst. split_and!; [|done|done|done]. by exists [], c.
  - destruct Hr as (la & l2 & -> & Hl2 & -> & Hr).
    assert (combine (merkle (S i) l2) (merkle (S i) c) (i + 1) = merkle (S (S i)) (l2 ++ c)) as ->.
    { rewrite merkle_S by (lia || done). f_equal. lia. }
    replace (i + 1)%nat with (S i) by lia.
    destruct (IH ps (merkle (S (S i)) (l2 ++ c)) (S i) la (l2 ++ c) Hr) as (H1 & H2 & H3 & H4);
      [rewrite length_app, Hl2, Hc, (pow2_S (S i)); lia|done|lia|by destruct ps|].
    split_and!; [by rewrite <- app_assoc|done|by rewrite last_cons_ne|].
    destruct (forallb is_some ps); cbn [length]; lia.
  - split_and!; [by exists l1, c|done| |done]. destruct ps; [done|exact Hlast].
Qed.

Lemma append_repr t l x :
  repr t l -> (0 < Depth)%nat ->
  if decide (length l = (2 ^ Depth)%nat) then append x t = Throw
  else exists t', append x t = Ok t' /\ repr t' (l ++ [x]).
Proof.
  intros Hrep HD. pose proof (is_complete_iff t l Depth Hrep HD) as Hcomp. unfold append.
  destruct (decide _) as [Hl|Hl]; [by rewrite (proj2 Hcomp Hl)|].
  destruct (is_complete Depth t) eqn:Hc; [by exfalso; apply Hl, Hcomp|].
  destruct Hrep as (l1 & tl & -> & Hr & Hlv & Hlen & Hlast). unfold leaves in Hlv.
  destruct (left t) as [a|] eqn:Ea, (right t) as [b|] eqn:Eb; [| |done|].
  - subst. eexists. split; [reflexivity|].
    destruct (append_loop_repr Depth (parents t) (combine a b 0) 0 l1 [a; b] Hr) as (H1 & H2 & H3 & H4); try done.
    exists (l1 ++ [a; b]), [x]. split_and!; try done. cbn [parents].
    destruct (forallb is_some (parents t)) eqn:Hf; [|lia].
    enough (length (parents t) + 1 ≠ Depth)%nat by lia. intros Heq.
    unfold is_complete in Hc. rewrite Ea, Eb in Hc. cbn [is_some negb orb] in Hc.
    rewrite Heq, Nat.eqb_refl in Hc. cbn [negb] in Hc. congruence.
  - subst. eexists. split; [reflexivity|]. exists l1, [a; x]. by rewrite <- app_assoc.
  - destruct Hlv as [-> Hp]. eexists. split; [reflexivity|]. rewrite app_nil_r. by exists l1, [x].
Qed.

(** ** The next slot *)

Lemma next_depth_loop_slots ps : forall d k n,
  (slots_parents ps d ++ seq (d + length ps) n) !! k
  = let x := next_depth_loop ps d k in if (x <? d + length ps + n)%nat then Some x else None.
Proof.
  induction ps as [|[h|] ps IH]; intros d k n; cbn [slots_parents next_depth_loop length app].
  - rewrite Nat.add_0_r. destruct (Nat.ltb_spec (d + k) (d + n)).
    + apply lookup_seq. lia.
    + apply lookup_ge_None. rewrite length_seq. lia.
  - replace (d + S (length ps))%nat with (S d + length ps)%nat by lia. replace (d + 1)%nat with (S d) by lia. apply IH.
  - replace (d + S (length ps))%nat with (S d + length ps)%nat by lia. replace (d + 1)%nat with (S d) by lia.
    destruct k as [|k]; cbn [lookup list_lookup]; [|apply IH].
    destruct (Nat.ltb_spec d (S d + length ps + n)); [done|lia].
Qed.

Lemma next_depth_slots t l k :
  repr t l -> slots Depth t !! k = if (next_depth k t <? Depth)%nat then Some (next_depth k t) else None.
Proof.
  intros (l1 & tl & -> & Hr & Hlv & Hlen & Hlast). unfold slots, next_depth, leaves in *.
  assert (forall k, (slots_parents (parents t) 1 ++ seq (S (length (parents t))) (Depth - S (length (parents t)))) !! k
    = if (next_depth_loop (parents t) 1 k <? Depth)%nat then Some (next_depth_loop (parents t) 1 k) else None) as Hloop.
  { intros k'. change (S (length (parents t))) with (1 + length (parents t))%nat at 1. rewrite next_depth_loop_slots.
    replace (1 + length (parents t) + (Depth - S (length (parents t))))%nat with Depth by lia. done. }
  assert (0 <? Depth = true)%nat as H0 by (apply Nat.ltb_lt; lia).
  destruct (left t) as [a|], (right t) as [b|]; cbn [is_some app]; [apply Hloop| |done|].
  - destruct k as [|k]; cbn [lookup list_lookup]; [by rewrite H0|apply Hloop].
  - destruct k as [|[|k]]; cbn [lookup list_lookup]; [by rewrite H0|by rewrite H0|apply Hloop].
Qed.

(** ** Counting *)

Definition room (ds : list nat) : nat := sum_list_with (fun d => 2 ^ d)%nat ds.

Lemma room_seq n : forall d, (room (seq d n) + 2 ^ d = 2 ^ (d + n))%nat.
Proof.
  induction n as [|n IH]; intros d; cbn [seq room sum_list_with]; [by rewrite Nat.add_0_r|].
  specialize (IH (S d)). unfold room in IH. rewrite pow2_S in IH. replace (d + S n)%nat with (S d + n)%nat by lia. lia.
Qed.

Lemma room_parents ps : forall d l, reprP d ps l ->
  (length l + room (slots_parents ps d) + 2 ^ d = 2 ^ (d + length ps))%nat.
Proof.
  induction ps as [|[h|] ps IH]; intros d l Hr; cbn [reprP slots_parents length] in *.
  - subst. replace (d + 0)%nat with d by lia. reflexivity.
  - destruct Hr as (l1 & l2 & -> & Hl2 & _ & Hr). specialize (IH _ _ Hr). rewrite pow2_S in IH.
    rewrite length_app. replace (d + S (length ps))%nat with (S d + length ps)%nat by lia. lia.
  - specialize (IH _ _ Hr). rewrite pow2_S in IH. unfold room in *. cbn [sum_list_with].
    replace (d + S (length ps))%nat with (S d + length ps)%nat by lia. lia.
Qed.

Lemma room_slots t l : repr t l -> (length l + room (slots Depth t) = 2 ^ Depth)%nat.
Proof.
  intros (l1 & tl & -> & Hr & Hlv & Hlen & _). pose proof (room_parents _ _ _ Hr) as H1.
  pose proof (room_seq (Depth - S (length (parents t))) (S (length (parents t)))) as H2.
  replace (S (length (parents t)) + (Depth - S (length (parents t))))%nat with Depth in H2 by lia.
  cbn [Nat.add] in H1. change (2 ^ 1)%nat with 2%nat in H1.
  unfold slots, room, leaves in *. rewrite length_app.
  destruct (left t), (right t); cbn [is_some]; rewrite ?sum_list_with_app; cbn [sum_list_with];
    [..|done|destruct Hlv as [-> _]]; subst; cbn [length]; change (2 ^ 0)%nat with 1%nat; lia.
Qed.

(** ** Witnesses *)

(** [q] holds the roots of the first leaves of [r], slot by slot; [r2] is left. *)
Fixpoint filled_ok (q : list uint256) (ds : list nat) (r r2 : list uint256) : Prop :=
  match q, ds with
  | [], _ => r = r2
  | h :: q, d :: ds => exists c r', r = c ++ r' /\ length c = (2 ^ d)%nat /\ h = merkle d c /\ filled_ok q ds r' r2
  | _ :: _, [] => False
  end.

Lemma filled_fillers q q' : forall ds r r2,
  filled_ok q ds r r2 -> fillers_ok q' (drop (length q) ds) r2 -> fillers_ok (q ++ q') ds r.
Proof.
  induction q as [|h q IH]; intros ds r r2 Hf Hq.
  { cbn in Hf. subst. by rewrite drop_0 in Hq. }
  destruct ds as [|d ds]; [done|]. destruct Hf as (c & r' & -> & Hc & -> & Hf). cbn [app fillers_ok next fst snd].
  rewrite <- Hc, take_app_length, drop_app_length. split; [done|]. by eapply IH.
Qed.

Lemma filled_more q : forall ds r r2 y, filled_ok q ds r r2 -> filled_ok q ds (r ++ y) (r2 ++ y).
Proof.
  induction q as [|h q IH]; intros ds r r2 y Hf; [cbn in *; by subst|]. destruct ds as [|d ds]; [done|].
  destruct Hf as (c & r' & -> & ? & ? & Hf). exists c, (r' ++ y). rewrite <- app_assoc. by split_and!; [..|apply IH].
Qed.

Lemma filled_snoc q : forall ds r c d,
  filled_ok q ds r c -> ds !! length q = Some d -> length c = (2 ^ d)%nat -> filled_ok (q ++ [merkle d c]) ds r [].
Proof.
  induction q as [|h q IH]; intros [|d' ds] r c d Hf Hd Hc; cbn [filled_ok length lookup list_lookup app] in *; try done.
  - simplify_eq. exists c, []. by rewrite app_nil_r.
  - destruct Hf as (c' & r' & -> & ? & ? & Hf). exists c', r'. split_and!; try done. by apply IH.
Qed.

Lemma filled_room q : forall ds r r2, filled_ok q ds r r2 ->
  (length q <= length ds)%nat /\ (length r + room (drop (length q) ds) = room ds + length r2)%nat.
Proof.
  induction q as [|h q IH]; intros ds r r2 Hf.
  - cbn in Hf. subst. cbn [length]. rewrite drop_0. lia.
  - destruct ds as [|d ds]; [done|]. cbn [length]. destruct Hf as (c & r' & -> & Hc & _ & Hf). destruct (IH _ _ _ Hf) as [H1 H2].
    change (drop (S (length q)) (d :: ds)) with (drop (length q) ds). rewrite length_app.
    unfold room in *. cbn [sum_list_with]. lia.
Qed.

(** The witness of the last leaf of [l] after [r] was appended. *)
Definition wrepr (w : IncrementalWitness) (l r : list uint256) : Prop :=
  repr (wtree w) l /\ exists r2, filled_ok (filled w) (slots Depth (wtree w)) r r2 /\
    match cursor w with
    | None => r2 = []
    | Some c => slots Depth (wtree w) !! length (filled w) = Some (cursor_depth w) /\ repr c r2 /\
                (0 < length r2 < 2 ^ cursor_depth w)%nat
    end.

Lemma slot_bound t l k d : repr t l -> slots Depth t !! k = Some d -> (d < Depth)%nat /\ next_depth k t = d.
Proof.
  intros Hrep Hd. rewrite (next_depth_slots t l k Hrep) in Hd. destruct (Nat.ltb_spec (next_depth k t) Depth); by simplify_eq.
Qed.

Lemma root_cursor c r2 d : repr c r2 -> (0 < d)%nat -> (length r2 <= 2 ^ d)%nat -> root_with d [] c = merkle d r2.
Proof.
  intros Hc Hd Hl. rewrite (root_with_merkle d c r2 [] []); [by rewrite app_nil_r|done| |apply fillers_nil].
  destruct (repr_parents c r2 d Hc Hl) as [_ H]. specialize (H Hd). lia.
Qed.

Lemma wrepr_fillers w l r : wrepr w l r -> fillers_ok (partial_path w) (slots Depth (wtree w)) r.
Proof.
  intros (Hrep & r2 & Hf & Hc). unfold partial_path. destruct (cursor w) as [c|].
  - destruct Hc as (Hd & Hcr & Hlen). eapply filled_fillers; [exact Hf|].
    assert (0 < cursor_depth w)%nat as Hd0 by (destruct (cursor_depth w); [cbn in Hlen; lia|lia]).
    rewrite (root_cursor c r2) by (done || lia). rewrite (drop_S _ _ _ Hd). cbn [fillers_ok next fst snd].
    rewrite take_ge, (drop_ge r2) by lia. split; [done|]. apply fillers_nil.
  - subst. rewrite <- (app_nil_r (filled w)). eapply filled_fillers; [exact Hf|]. apply fillers_nil.
Qed.

Lemma witness_root_merkle w l r : wrepr w l r -> witness_root w = merkle Depth (l ++ r).
Proof.
  intros Hw. pose proof (wrepr_fillers w l r Hw) as Hf. destruct Hw as (Hrep & _).
  unfold witness_root. apply root_with_merkle; [done| |done]. destruct Hrep as (? & ? & _ & _ & _ & Hlen & _). lia.
Qed.

Lemma witness_append_repr w l r x :
  wrepr w l r ->
  if decide (length (l ++ r) = (2 ^ Depth)%nat) then witness_append x w = Throw
  else exists w', witness_append x w = Ok w' /\ wrepr w' l (r ++ [x]) /\ wtree w' = wtree w.
Proof.
  intros (Hrep & r2 & Hf & Hc). pose proof (room_slots _ _ Hrep) as Hroom.
  destruct (filled_room _ _ _ _ Hf) as [Hle Hsum]. rewrite length_app. unfold witness_append.
  assert (0 < Depth)%nat as HD by (destruct Hrep as (? & ? & _ & _ & _ & Hlen & _); lia).
  assert (forall d, slots Depth (wtree w) !! length (filled w) = Some d ->
    (2 ^ d <= room (drop (length (filled w)) (slots Depth (wtree w))))%nat) as Hslot.
  { intros d Hd. rewrite (drop_S _ _ _ Hd). unfold room. cbn [sum_list_with]. lia. }
  destruct (cursor w) as [c|] eqn:Ecur.
  - destruct Hc as (Hd & Hcr & Hlen). destruct (slot_bound _ _ _ _ Hrep Hd) as [HdD _]. pose proof (Hslot _ Hd).
    rewrite decide_False by lia. pose proof (append_repr c r2 x Hcr HD) as Happ.
    assert (2 ^ cursor_depth w <= 2 ^ Depth)%nat by (apply Nat.pow_le_mono_r; lia).
    rewrite decide_False in Happ by lia. destruct Happ as (c' & -> & Hc'). cbn [mbind outcome_bind].
    assert (0 < cursor_depth w)%nat as Hd0 by (destruct (cursor_depth w); [cbn in Hlen; lia|lia]).
    pose proof (is_complete_iff c' _ (cursor_depth w) Hc' Hd0) as Hcomp. rewrite length_app in Hcomp. cbn [length] in Hcomp.
    destruct (is_complete (cursor_depth w) c') eqn:E.
    + eexists. split; [reflexivity|]. split; [|done]. split; [done|]. exists []. cbn [filled wtree cursor]. split; [|done].
      assert (length (r2 ++ [x]) = (2 ^ cursor_depth w)%nat) as Hfull by (rewrite length_app; by apply Hcomp).
      rewrite (root_cursor c' (r2 ++ [x])) by (done || lia). apply filled_snoc; [by apply filled_more|done|done].
    + eexists. split; [reflexivity|]. split; [|done]. split; [done|]. exists (r2 ++ [x]). cbn [filled wtree cursor cursor_depth].
      split; [by apply filled_more|]. split_and!; try done; rewrite length_app; cbn [length]; [lia|].
      assert (length r2 + 1 ≠ 2 ^ cursor_depth w)%nat by (intros Heq; apply Hcomp in Heq; congruence). lia.
  - subst r2. pose proof (next_depth_slots _ _ (length (filled w)) Hrep) as Hnext.
    destruct (Nat.leb_spec Depth (next_depth (length (filled w)) (wtree w))) as [Hge|Hlt].
    + destruct (Nat.ltb_spec (next_depth (length (filled w)) (wtree w)) Depth); [lia|].
      apply lookup_ge_None in Hnext. rewrite drop_ge in Hsum by done. cbn in Hsum. by rewrite decide_True by lia.
    + destruct (Nat.ltb_spec (next_depth (length (filled w)) (wtree w)) Depth); [|lia].
      pose proof (Hslot _ Hnext) as H2. pose proof (pow2_pos (next_depth (length (filled w)) (wtree w))).
      cbn [length] in Hsum. rewrite decide_False by lia.
      pose proof (filled_more _ _ _ _ [x] Hf) as Hf'. cbn [app] in Hf'.
      destruct (Nat.eqb_spec (next_depth (length (filled w)) (wtree w)) 0) as [E0|E0].
      * eexists. split; [reflexivity|]. split; [|done]. split; [done|]. exists []. cbn [filled wtree cursor]. split; [|done].
        change x with (merkle 0 [x]). rewrite E0 in Hnext. by apply filled_snoc.
      * pose proof (append_repr tree_new [] x (repr_new HD) HD) as Happ. cbn [length] in Happ.
        rewrite decide_False in Happ by (pose proof (pow2_pos Depth); lia). destruct Happ as (c & -> & Hc). cbn [mbind outcome_bind].
        eexists. split; [reflexivity|]. split; [|done]. split; [done|]. exists [x]. cbn [filled wtree cursor cursor_depth].
        split; [done|].
        assert (2 ^ 1 <= 2 ^ next_depth (length (filled w)) (wtree w))%nat as H2d by (apply Nat.pow_le_mono_r; lia).
        change (2 ^ 1)%nat with 2%nat in H2d. split_and!; [done|done|cbn [length]; lia..].
Qed.

(** ** Paths *)

(** The root computed from a leaf and its path; [true]: the path is on the left. *)
Fixpoint climb (d : nat) (acc : uint256) (p : list (uint256 * bool)) : uint256 :=
  match p with
  | [] => acc
  | (h, dir) :: p => climb (S d) (if dir then combine h acc d else combine acc h d) p
  end.

(** The number whose binary digits are the directions of a path. *)
Fixpoint dirs_value (p : list (uint256 * bool)) : nat :=
  match p with [] => 0 | (_, dir) :: p => (if dir : bool then 1 else 0) + 2 * dirs_value p end.

Lemma climb_rest n : forall d acc q,
  climb d acc (path_rest n d q) = root_rest n acc d q /\ length (path_rest n d q) = n /\ dirs_value (path_rest n d q) = 0%nat.
Proof.
  induction n as [|n IH]; intros d acc q; [done|]. cbn [path_rest root_rest].
  destruct (next q d) as [h q']. cbn [climb length dirs_value]. replace (d + 1)%nat with (S d) by lia.
  destruct (IH (S d) (combine acc h d) q') as (-> & -> & ->). done.
Qed.

Lemma climb_parents ps : forall d acc q,
  let '(l, d', q') := path_parents ps d q in
  let '(rt, d2, q2) := root_parents ps acc d q in
  d' = d2 /\ q' = q2 /\ d2 = (d + length ps)%nat /\ length l = length ps /\ forall p, climb d acc (l ++ p) = climb d2 rt p.
Proof.
  induction ps as [|[h|] ps IH]; intros d acc q; cbn [path_parents root_parents length].
  - split_and!; try done; lia.
  - replace (d + 1)%nat with (S d) by lia. specialize (IH (S d) (combine h acc d) q).
    destruct (path_parents ps (S d) q) as [[l d'] q'], (root_parents ps (combine h acc d) (S d) q) as [[rt d2] q2].
    destruct IH as (-> & -> & -> & Hl & Hc). split_and!; try done; cbn [length]; lia.
  - destruct (next q d) as [h q1]. replace (d + 1)%nat with (S d) by lia. specialize (IH (S d) (combine acc h d) q1).
    destruct (path_parents ps (S d) q1) as [[l d'] q'], (root_parents ps (combine acc h d) (S d) q1) as [[rt d2] q2].
    destruct IH as (-> & -> & -> & Hl & Hc). split_and!; try done; cbn [length]; lia.
Qed.

Lemma dirs_parents ps : forall d q l p, reprP d ps l -> dirs_value p = 0%nat ->
  let '(pp, _, _) := path_parents ps d q in (2 ^ d * dirs_value (pp ++ p) = length l)%nat.
Proof.
  induction ps as [|[h|] ps IH]; intros d q l p Hr Hp; cbn [path_parents reprP] in *.
  - subst. cbn [app length]. lia.
  - destruct Hr as (l1 & l2 & -> & Hl2 & _ & Hr). replace (d + 1)%nat with (S d) by lia.
    specialize (IH (S d) q l1 p Hr Hp). destruct (path_parents ps (S d) q) as [[pp ?] ?].
    cbn [app dirs_value]. rewrite length_app, Hl2. rewrite pow2_S in IH. lia.
  - destruct (next q d) as [h q1]. replace (d + 1)%nat with (S d) by lia.
    specialize (IH (S d) q1 l p Hr Hp). destruct (path_parents ps (S d) q1) as [[pp ?] ?].
    cbn [app dirs_value]. rewrite pow2_S in IH. lia.
Qed.

(** The path of a tree leads from its last leaf to its root, whatever fills the
    empty slots, and its directions are the position of the leaf. *)
Lemma path_up_climb t l x q :
  repr t (l ++ [x]) -> exists p, path_up q t = Ok p /\ tree_last t = Ok x /\ climb 0 x p = root_with Depth q t /\
    length p = Depth /\ dirs_value p = length l.
Proof.
  intros (l1 & tl & Hl & Hr & Hlv & Hlen & _). unfold path_up, root_with, tree_last, leaves in *.
  destruct (left t) as [a|] eqn:Ea, (right t) as [b|] eqn:Eb; [| |done|].
  3:{ destruct Hlv as [-> Hp]. rewrite Hp in Hr. cbn in Hr. subst. apply (f_equal length) in Hl. rewrite length_app in Hl. cbn in Hl. lia. }
  - subst tl. assert (l = l1 ++ [a] /\ x = b) as [-> ->].
    { replace (l1 ++ [a; b]) with ((l1 ++ [a]) ++ [b]) in Hl by by rewrite <- app_assoc. by apply app_inj_tail in Hl. }
    cbn [or_next]. pose proof (climb_parents (parents t) 1 (combine a b 0) q) as Hcl.
    pose proof (fun p => dirs_parents (parents t) 1 q l1 p Hr) as Hdv.
    destruct (path_parents (parents t) 1 q) as [[mid d] q1], (root_parents (parents t) (combine a b 0) 1 q) as [[rt d2] q2].
    destruct Hcl as (-> & -> & -> & Hml & Hcl). eexists. split; [reflexivity|]. split; [done|].
    destruct (climb_rest (Depth - (1 + length (parents t))) (1 + length (parents t)) rt q2) as (Hr1 & Hr2 & Hr3).
    cbn [climb]. rewrite Hcl, Hr1. split; [done|]. cbn [length dirs_value]. rewrite length_app, Hr2.
    specialize (Hdv _ Hr3). rewrite length_app. change (2 ^ 1)%nat with 2%nat in Hdv. cbn [length]. lia.
  - subst tl. apply app_inj_tail in Hl as [-> ->]. cbn [or_next].
    destruct (next q 0) as [h q0]. pose proof (climb_parents (parents t) 1 (combine a h 0) q0) as Hcl.
    pose proof (fun p => dirs_parents (parents t) 1 q0 l1 p Hr) as Hdv.
    destruct (path_parents (parents t) 1 q0) as [[mid d] q1], (root_parents (parents t) (combine a h 0) 1 q0) as [[rt d2] q2].
    destruct Hcl as (-> & -> & -> & Hml & Hcl). eexists. split; [reflexivity|]. split; [done|].
    destruct (climb_rest (Depth - (1 + length (parents t))) (1 + length (parents t)) rt q2) as (Hr1 & Hr2 & Hr3).
    cbn [climb]. rewrite Hcl, Hr1. split; [done|]. cbn [length dirs_value]. rewrite length_app, Hr2.
    specialize (Hdv _ Hr3). change (2 ^ 1)%nat with 2%nat in Hdv. lia.
Qed.

(** ** The size *)

Lemma size_parents_repr ps : forall i l ret,
  reprP (S i) ps l -> Z.of_nat i + zlen ps <= 30 -> 0 <= ret -> ret + zlen l < 2 ^ 63 ->
  size_parents ps (Z.of_nat i) ret = ret + zlen l.
Proof.
  induction ps as [|p ps IH]; intros i l ret Hr Hi Hret Hb; cbn [size_parents reprP length] in *.
  - subst. cbn. lia.
  - replace (Z.of_nat i + 1) with (Z.of_nat (S i)) by lia. destruct p as [h|]; cbn [is_some].
    + destruct Hr as (l1 & l2 & -> & Hl2 & _ & Hr). rewrite length_app in *.
      assert (2 ^ Z.of_nat (S i) = zlen l2) as Hp by (rewrite Hl2, Nat2Z.inj_pow; done).
      assert (2 ^ Z.of_nat (S i) <= 2 ^ 30) as Hp30 by (apply Z.pow_le_mono_r; lia).
      rewrite wraps_small by (unfold in_s; lia). rewrite (wrapu_small 64 (2 ^ _)) by (unfold in_u; lia).
      rewrite wrapu_small by (unfold in_u; lia). rewrite IH with (l := l1); try done; lia.
    + apply IH; done || lia.
Qed.

Lemma tree_size_repr t l : repr t l -> zlen l <= 2 ^ 31 -> tree_size t = zlen l.
Proof.
  intros Hrep Hl. pose proof Hrep as (l1 & tl & -> & Hr & Hlv & _ & _).
  assert (length (parents t) <= 30)%nat as Hp.
  { destruct (repr_parents t _ 31 Hrep) as [_ H]; [|lia].
    apply Nat2Z.inj_le. rewrite Nat2Z.inj_pow. exact Hl. }
  unfold tree_size. rewrite length_app in *. change 0 with (Z.of_nat 0) at 1.
  rewrite size_parents_repr with (l := l1); try done.
  - unfold leaves in Hlv. destruct (left t), (right t); cbn [is_some]; subst; cbn [length] in *; try lia. destruct Hlv; subst; cbn; lia.
  - lia.
  - destruct (is_some _), (is_some _); lia.
  - destruct (is_some _), (is_some _); lia.
Qed.

(** ** Serialization *)

Lemma hash_opt_ok : codec_ok hash_opt_c.
Proof. unfold hash_opt_c. auto with codec. Qed.
#[local] Hint Resolve hash_opt_ok : codec.

Lemma tree_c_ok : codec_ok tree_c.
Proof.
  intros t rest (Hl & Hr & Hp & Hwf). cbn [ser unser tree_c]. rewrite <- !app_assoc.
  rewrite !unser_step by first [solve [auto with codec] | done]. destruct t. cbn [left right parents] in *. by rewrite Hwf.
Qed.
#[local] Hint Resolve tree_c_ok : codec.

Lemma witness_c_ok : codec_ok witness_c.
Proof.
  intros w rest (Ht & Hf & Hc & Hd). cbn [ser unser witness_c]. rewrite <- !app_assoc.
  rewrite !unser_step by first [solve [auto with codec] | done]. destruct w. cbn in *. by rewrite Hd.
Qed.

Lemma repr_wf t l : repr t l -> wfcheck t = true.
Proof.
  intros (l1 & tl & _ & _ & Hlv & Hlen & Hlast). unfold wfcheck, leaves in *.
  destruct (Nat.leb_spec Depth (length (parents t))); [lia|]. cbn [negb andb].
  assert (negb (bool_decide (parents t = [])) && negb (is_some (default None (last (parents t)))) = false) as ->.
  { destruct (parents t) as [|p ps]; [done|]. destruct (last (p :: ps)) as [[h|]|] eqn:E; [done|by exfalso|].
    by apply last_None in E. }
  destruct (left t), (right t); cbn [is_some negb andb]; try done. destruct Hlv as [_ ->]. done.
Qed.

(** ** The theorems *)

Lemma append_all_repr l : forall t l0, (0 < Depth)%nat -> repr t l0 -> (length (l0 ++ l) <= 2 ^ Depth)%nat ->
  exists t', append_all l t = Ok t' /\ repr t' (l0 ++ l).
Proof.
  induction l as [|x l IH]; intros t l0 HD Hr Hl; [exists t; by rewrite app_nil_r|].
  cbn [append_all]. pose proof (append_repr t l0 x Hr HD) as Happ. rewrite length_app in Hl. cbn [length] in Hl.
  rewrite decide_False in Happ by lia. destruct Happ as (t1 & -> & Hr1). cbn [mbind outcome_bind].
  destruct (IH t1 (l0 ++ [x]) HD Hr1) as (t2 & H1 & H2); [rewrite <- app_assoc, length_app; cbn [length app]; lia|].
  exists t2. split; [done|]. by rewrite <- app_assoc in H2.
Qed.

Lemma root_merkle t l : repr t l -> root t = merkle Depth l.
Proof.
  intros Hr. unfold root. rewrite (root_with_merkle Depth t l [] []); [by rewrite app_nil_r|done| |apply fillers_nil].
  destruct Hr as (? & ? & _ & _ & _ & Hlen & _). lia.
Qed.

(** The last leaf is under the cursor. *)
Lemma tree_last_repr t l : repr t l -> tree_last t = match last l with Some x => Ok x | None => Throw end.
Proof.
  intros (l1 & tl & -> & Hr & Hlv & _). unfold tree_last, leaves in *. destruct (left t) as [a|], (right t) as [b|]; [subst tl|subst tl|done|].
  - change (l1 ++ [a; b]) with (l1 ++ [a] ++ [b]). by rewrite app_assoc, last_snoc.
  - by rewrite last_snoc.
  - destruct Hlv as [-> Hp]. rewrite Hp in Hr. cbn in Hr. by subst l1.
Qed.

(** C29: the tree is the full Merkle tree.  Appending any list of leaves that
    fits to the empty tree succeeds and gives a well-formed tree whose root is
    the root of the full tree over these leaves and whose last leaf is the last of
    them, with an exception when there is none; up to 2^31 leaves its size is
    their number; a full tree refuses one more. *)
Theorem tree_is_full_tree (l : list uint256) :
  (0 < Depth)%nat -> (length l <= 2 ^ Depth)%nat ->
  exists t, append_all l tree_new = Ok t /\ root t = merkle Depth l /\ wfcheck t = true /\
    tree_last t = match last l with Some x => Ok x | None => Throw end /\
    (zlen l <= 2 ^ 31 -> tree_size t = zlen l) /\
    (length l = (2 ^ Depth)%nat -> forall x, append x t = Throw).
Proof.
  intros HD Hl. destruct (append_all_repr l tree_new [] HD (repr_new HD) Hl) as (t & Ht & Hr).
  exists t. split_and!; [done|by apply root_merkle|by eapply repr_wf|by apply tree_last_repr|by apply tree_size_repr|].
  intros Hfull x. pose proof (append_repr t l x Hr HD) as Happ. by rewrite decide_True in Happ by done.
Qed.

Lemma witness_append_all_repr r' : forall w l r, wrepr w l r -> (length (l ++ r ++ r') <= 2 ^ Depth)%nat ->
  exists w', witness_append_all r' w = Ok w' /\ wrepr w' l (r ++ r') /\ wtree w' = wtree w.
Proof.
  induction r' as [|x r' IH]; intros w l r Hw Hl; [exists w; by rewrite app_nil_r|].
  cbn [witness_append_all]. pose proof (witness_append_repr w l r x Hw) as Happ.
  rewrite !length_app in *. cbn [length] in Hl. rewrite decide_False in Happ by lia.
  destruct Happ as (w1 & -> & Hw1 & Ht1). cbn [mbind outcome_bind].
  destruct (IH w1 l (r ++ [x]) Hw1) as (w2 & H1 & H2 & H3); [rewrite !length_app; cbn [length]; lia|].
  exists w2. rewrite <- app_assoc in H2. split_and!; [done|done|congruence].
Qed.

(** C30: a witness keeps up with the tree.  The witness of the leaf [x] taken
    when it was the last one, after any leaves [r] were appended, has the root
    of the whole tree; its path leads from [x] to that root, has one hash per
    level, and its directions spell the position of [x]. *)
Theorem witness_follows (l r : list uint256) (x : uint256) :
  (0 < Depth)%nat -> (length (l ++ x :: r) <= 2 ^ Depth)%nat ->
  exists t w p, append_all (l ++ [x]) tree_new = Ok t /\ witness_append_all r (witness t) = Ok w /\
    witness_element w = Ok x /\ witness_root w = merkle Depth (l ++ x :: r) /\
    path_up (partial_path w) (wtree w) = Ok p /\ climb 0 x p = witness_root w /\
    length p = Depth /\ dirs_value p = length l.
Proof.
  intros HD Hl. rewrite length_app in Hl. cbn [length] in Hl.
  destruct (append_all_repr (l ++ [x]) tree_new [] HD (repr_new HD)) as (t & Ht & Hr);
    [cbn [app]; rewrite length_app; cbn [length]; lia|].
  assert (wrepr (witness t) (l ++ [x]) []) as Hw by (split; [exact Hr|]; by exists []).
  destruct (witness_append_all_repr r (witness t) (l ++ [x]) [] Hw) as (w & Ha & Hw' & Hwt);
    [cbn [app]; rewrite !length_app; cbn [length]; lia|]. cbn [wtree witness app] in *.
  destruct (path_up_climb (wtree w) l x (partial_path w)) as (p & Hp & Hx & Hc & Hlen & Hdv);
    [rewrite Hwt; exact Hr|].
  pose proof (witness_root_merkle _ _ _ Hw') as Hroot. rewrite <- app_assoc in Hroot. cbn [app] in Hroot.
  by exists t, w, p.
Qed.
End MerkleTree.

(** A hash for the examples: byte by byte, with the level mixed in. *)
Definition sample_combine (a b : uint256) (d : nat) : uint256 :=
  zip_with (fun x y => (3 * x + 5 * y + Z.of_nat d + 1) mod 256) a b.
Fixpoint sample_empty (d : nat) : uint256 :=
  match d with O => UINT256_ONE | S d => sample_combine (sample_empty d) (sample_empty d) d end.

Definition leaf (n : Z) : uint256 := replicate 32 n.

Lemma tree_is_full_tree_witness :
  exists t, append_all sample_combine 4 (map leaf [1; 2; 3; 4; 5]) tree_new = Ok t /\
    root sample_combine sample_empty 4 t = merkle sample_combine sample_empty 4 (map leaf [1; 2; 3; 4; 5]) /\ tree_last t = Ok (leaf 5).
Proof.
  destruct (tree_is_full_tree sample_combine sample_empty 4 (fun _ => eq_refl) (map leaf [1; 2; 3; 4; 5])) as (t & H1 & H2 & _ & H3 & _);
    [lia|cbn; lia|]. by exists t.
Defined.

Lemma witness_follows_witness :
  exists t w p, append_all sample_combine 4 (map leaf [1; 2; 3]) tree_new = Ok t /\
    witness_append_all sample_combine sample_empty 4 (map leaf [4; 5; 6; 7]) (witness t) = Ok w /\
    path_up sample_empty 4 (partial_path sample_combine sample_empty w) (wtree w) = Ok p /\
    climb sample_combine 0 (leaf 3) p = merkle sample_combine sample_empty 4 (map leaf [1; 2; 3; 4; 5; 6; 7]).
Proof.
  destruct (witness_follows sample_combine sample_empty 4 (fun _ => eq_refl) (map leaf [1; 2]) (map leaf [4; 5; 6; 7]) (leaf 3))
    as (t & w & p & H1 & H2 & _ & H3 & H4 & H5 & _); [lia|cbn; lia|].
  exists t, w, p. split_and!; [done|done|done|]. rewrite H5, H3. done.
Defined.
