(* ===== verification/Compressor.v ===== *)
(** * The compressed form of outputs: compressor.h and compressor.cpp

    [CompressAmount] and [DecompressAmount] on 64-bit unsigned integers,
    [CScriptCompressor] and [CTxOutCompressor], the forms in which the coin
    database and the undo files keep outputs.  The parser and the writer of
    points of secp256k1 are one parameter [uncompressed]: what
    [secp256k1_ec_pubkey_parse] followed by the uncompressed
    [secp256k1_ec_pubkey_serialize] make of a key, if it is a point. *)
From S2P Require Import Prelude Serialize HashStream Sha256 Hash Script Interpreter Standard Transaction.

(** ** Variable-length integers as a codec *)

(** What a writer leaves in the stream; it is used where it cannot fail. *)
Definition written (m : outcome unit (list Z)) : list Z := match m with Ok l => l | _ => [] end.

(** A computation that leaves the stream alone. *)
Definition lift {A} (m : outcome unit A) : reader A := fun s => a ← m; Ok (a, s).

(** [VARINT(n)] for an unsigned type of [w] bits. *)
Definition varint_c (w : Z) : codec Z := Codec (fun n => written (WriteVarInt w n)) (ReadVarInt w) (in_u w).

Lemma varint_ok w : 1 <= w -> codec_ok (varint_c w).
Proof.
  intros Hw n rest Hn. cbn [ser unser wire varint_c] in *.
  pose proof (in_u_varint w n ltac:(lia) Hn) as Hb.
  destruct (WriteVarInt_loop_total (varint_bytes w) n [] (varint_bytes_pos w Hw) Hb) as [out Ho].
  unfold WriteVarInt, ReadVarInt. rewrite Ho. cbn [written]. rewrite length_app.
  destruct (ReadVarInt_WriteVarInt_loop w _ n [] out (length rest) rest ltac:(lia) Hn Ho) as [_ E].
  rewrite <- E. f_equal. cbn [length]. lia.
Qed.
Lemma varint32_ok : codec_ok (varint_c 32).
Proof. by apply varint_ok. Qed.
Lemma varint64_ok : codec_ok (varint_c 64).
Proof. by apply varint_ok. Qed.
#[export] Hint Resolve varint32_ok varint64_ok : codec.

(** ** Amounts *)

(** [while (((n % 10) == 0) && e < 9)]: at most nine turns. *)
Fixpoint strip_loop (fuel : nat) (n e : Z) : Z * Z :=
  match fuel with
  | O => (n, e)
  | S fuel => if (n mod 10 =? 0) && (e <? 9) then strip_loop fuel (n / 10) (e + 1) else (n, e)
  end.

Definition CompressAmount (n : Z) : outcome unit Z :=
  if n =? 0 then Ok 0 else
  let '(n, e) := strip_loop 10 n 0 in
  if e <? 9 then
    let d := n mod 10 in
    cassert ((1 <=? d) && (d <=? 9));;
    let n := n / 10 in
    Ok (u64 (1 + (n * 9 + d - 1) * 10 + e))
  else Ok (u64 (1 + (n - 1) * 10 + 9)).

(** [while (e) n *= 10, e--]. *)
Fixpoint scale_loop (e : nat) (n : Z) : Z :=
  match e with
  | O => n
  | S e => scale_loop e (u64 (n * 10))
  end.

Definition DecompressAmount (x : Z) : Z :=
  if x =? 0 then 0 else
  let x := x - 1 in
  let e := x mod 10 in
  let x := x / 10 in
  let n := if e <? 9 then (let d := x mod 9 + 1 in let x := x / 9 in u64 (x * 10 + d)) else u64 (x + 1) in
  scale_loop (Z.to_nat e) n.

(** ** Scripts *)

Definition nSpecialScripts : Z := 6.

Definition IsToKeyID (script : CScript) : option (list Z) :=
  if (zlen script =? 25) && byte_is script 0 OP_DUP && byte_is script 1 OP_HASH160 && byte_is script 2 20
     && byte_is script 23 OP_EQUALVERIFY && byte_is script 24 OP_CHECKSIG
  then Some (take 20 (drop 3 script)) else None.

Definition IsToScriptID (script : CScript) : option (list Z) :=
  if (zlen script =? 23) && byte_is script 0 OP_HASH160 && byte_is script 1 20 && byte_is script 22 OP_EQUAL
  then Some (take 20 (drop 2 script)) else None.

Lemma byte_is_inv s i b : byte_is s i b = true -> s !! i = Some b.
Proof. unfold byte_is. destruct (s !! i); [|done]. intros. bool_to_prop. congruence. Qed.

Lemma land_1 x : Z.land x 1 = 0 \/ Z.land x 1 = 1.
Proof.
  pose proof (Z.land_ones x 1 ltac:(lia)) as E. change (Z.ones 1) with 1 in E. change (2 ^ 1) with 2 in E.
  rewrite E. pose proof (Z.mod_pos_bound x 2 ltac:(lia)). lia.
Qed.

(** The side conditions of reading back a number. *)
Ltac codec_side := first [solve [auto with codec] | cbn; unfold in_u; lia].

Section Compressor.
Context (uncompressed : valtype -> option valtype).

Definition IsFullyValid (pubkey : valtype) : bool :=
  if negb (PubKey_IsValid pubkey) then false
  else match uncompressed pubkey with Some _ => true | None => false end.

(** [CPubKey::Decompress]: the new key, or [None] when it returns false. *)
Definition PubKey_Decompress (pubkey : valtype) : option valtype :=
  if negb (PubKey_IsValid pubkey) then None
  else match uncompressed pubkey with Some pub => Some (CPubKey pub) | None => None end.

Definition IsToPubKey (script : CScript) : option valtype :=
  if (zlen script =? 35) && byte_is script 0 33 && byte_is script 34 OP_CHECKSIG
     && (byte_is script 1 0x02 || byte_is script 1 0x03)
  then Some (CPubKey (take 33 (drop 1 script)))
  else if (zlen script =? 67) && byte_is script 0 65 && byte_is script 66 OP_CHECKSIG && byte_is script 1 0x04
  then (let pubkey := CPubKey (take 65 (drop 1 script)) in if IsFullyValid pubkey then Some pubkey else None)
  else None.

Definition Compress (script : CScript) : option (list Z) :=
  match IsToKeyID script with
  | Some keyID => Some (0x00 :: keyID)
  | None =>
  match IsToScriptID script with
  | Some scriptID => Some (0x01 :: scriptID)
  | None =>
  match IsToPubKey script with
  | Some pubkey =>
      let h := default 0xFF (pubkey !! 0%nat) in
      let body := take 32 (drop 1 pubkey) in
      if (h =? 0x02) || (h =? 0x03) then Some (h :: body)
      else if h =? 0x04 then Some (Z.lor 0x04 (Z.land (default 0 (pubkey !! 64%nat)) 0x01) :: body)
      else None
  | None => None
  end end end.

Definition GetSpecialSize (nSize : Z) : nat :=
  if (nSize =? 0) || (nSize =? 1) then 20
  else if (nSize =? 2) || (nSize =? 3) || (nSize =? 4) || (nSize =? 5) then 32 else 0.

(** The new script when it returns true. *)
Definition Decompress (nSize : Z) (inb : list Z) : outcome unit (option CScript) :=
  if nSize =? 0x00 then Ok (Some ([OP_DUP; OP_HASH160; 20] ++ inb ++ [OP_EQUALVERIFY; OP_CHECKSIG]))
  else if nSize =? 0x01 then Ok (Some ([OP_HASH160; 20] ++ inb ++ [OP_EQUAL]))
  else if (nSize =? 0x02) || (nSize =? 0x03) then Ok (Some ([33; nSize] ++ inb ++ [OP_CHECKSIG]))
  else if (nSize =? 0x04) || (nSize =? 0x05) then
    match PubKey_Decompress (CPubKey ((nSize - 2) :: inb)) with
    | None => Ok None
    | Some pubkey => cassert (zlen pubkey =? 65);; Ok (Some (65 :: pubkey ++ [OP_CHECKSIG]))
    end
  else Ok None.

Definition SerializeScript (script : CScript) : list Z :=
  match Compress script with
  | Some compr => compr
  | None => ser (varint_c 32) (u32 (zlen script + nSpecialScripts)) ++ script
  end.

(** Reading over [script0]: it stays when a special form is not a key, and a
    script that is too long appends [OP_RETURN] to it. *)
Definition UnserializeScript (script0 : CScript) : reader CScript :=
  nSize ← unser (varint_c 32);
  if nSize <? nSpecialScripts then
    vch ← read_raw (GetSpecialSize nSize);
    r ← lift (Decompress nSize vch);
    mret (default script0 r)
  else
    let nSize := nSize - nSpecialScripts in
    if MAX_SCRIPT_SIZE <? nSize then _ ← read_raw (Z.to_nat nSize); mret (script0 ++ [OP_RETURN])
    else read_raw (Z.to_nat nSize).

Definition script_compressor_c : codec CScript :=
  Codec SerializeScript (UnserializeScript []) (fun script => zlen script <= MAX_SCRIPT_SIZE).

(** The largest amount whose compressed form is computed without wrapping. *)
Definition MAX_COMPRESSIBLE : Z := (2 ^ 64 - 1) / 9.

(** [CTxOutCompressor], reading over [txout0]. *)
Definition SerializeTxOut (txout : CTxOut) : list Z :=
  ser (varint_c 64) (default 0 (match CompressAmount (u64 (nValue txout)) with Ok v => Some v | _ => None end)) ++
  SerializeScript (scriptPubKey txout).
Definition UnserializeTxOut (txout0 : CTxOut) : reader CTxOut :=
  nVal ← unser (varint_c 64);
  s ← UnserializeScript (scriptPubKey txout0);
  mret (TxOut (i64 (DecompressAmount nVal)) s (nRounds txout0)).

Definition txout_compressor_c : codec CTxOut :=
  Codec SerializeTxOut (UnserializeTxOut CTxOut_new)
    (fun o => 0 <= nValue o <= MAX_COMPRESSIBLE /\ wire script_compressor_c (scriptPubKey o) /\ nRounds o = NULL_ROUNDS).

(** ** Round trip of scripts *)

(** Keys in the uncompressed form are the points their compressed form names. *)
Definition compressed (pubkey : valtype) : valtype :=
  (2 + Z.land (default 0 (pubkey !! 64%nat)) 1) :: take 32 (drop 1 pubkey).
Definition compression_ok : Prop :=
  forall pubkey, length pubkey = 65%nat -> pubkey !! 0%nat = Some 4 -> IsFullyValid pubkey = true ->
  uncompressed (compressed pubkey) = Some pubkey.

Lemma IsToKeyID_inv script h :
  IsToKeyID script = Some h -> script = [OP_DUP; OP_HASH160; 20] ++ h ++ [OP_EQUALVERIFY; OP_CHECKSIG] /\ length h = 20%nat.
Proof.
  unfold IsToKeyID. destruct (_ && _) eqn:E; [intros [= <-]|done].
  bool_to_prop. destruct script as [|a [|b [|c l]]]; try done.
  repeat match goal with H : byte_is _ _ _ = true |- _ => apply byte_is_inv in H; cbn in H end. simplify_eq.
  cbn [length drop] in *. rewrite ?drop_0 in *. assert (length l = 22%nat) as Hl by lia. split; [|rewrite length_take; lia].
  rewrite <- (take_drop 20 l) at 1. by erewrite !drop_S, (drop_ge l) by (done || lia).
Qed.

Lemma IsToScriptID_inv script h :
  IsToScriptID script = Some h -> script = [OP_HASH160; 20] ++ h ++ [OP_EQUAL] /\ length h = 20%nat.
Proof.
  unfold IsToScriptID. destruct (_ && _) eqn:E; [intros [= <-]|done].
  bool_to_prop. destruct script as [|a [|b l]]; try done.
  repeat match goal with H : byte_is _ _ _ = true |- _ => apply byte_is_inv in H; cbn in H end. simplify_eq.
  cbn [length drop] in *. rewrite ?drop_0 in *. assert (length l = 21%nat) as Hl by lia. split; [|rewrite length_take; lia].
  rewrite <- (take_drop 20 l) at 1. by erewrite !drop_S, (drop_ge l) by (done || lia).
Qed.

Lemma IsToPubKey_inv script pubkey :
  IsToPubKey script = Some pubkey ->
  (exists p x, (p = 2 \/ p = 3) /\ length x = 32%nat /\ pubkey = p :: x /\ script = [33; p] ++ x ++ [OP_CHECKSIG]) \/
  (exists x, length x = 64%nat /\ pubkey = 4 :: x /\ script = [65; 4] ++ x ++ [OP_CHECKSIG] /\ IsFullyValid pubkey = true).
Proof.
  unfold IsToPubKey. destruct (_ && (byte_is script 1 2 || _)) eqn:E; [|clear E; destruct (_ && byte_is script 1 4) eqn:E; [|done]].
  - intros [= <-]. left. bool_to_prop. destruct script as [|a [|p l]]; try done.
    repeat match goal with H : byte_is _ _ _ = true |- _ => apply byte_is_inv in H; cbn in H end. simplify_eq.
    cbn [length drop] in *. rewrite ?drop_0 in *. assert (length l = 33%nat) as Hl by lia.
    assert (p = 2 \/ p = 3) as Hp.
    { match goal with H : _ \/ _ |- _ => destruct H as [H|H]; apply byte_is_inv in H; cbn in H; simplify_eq; auto end. }
    exists p, (take 32 l). assert (length (take 32 l) = 32%nat) as Ht by (rewrite length_take; lia).
    split_and!; [done|done| |].
    + cbn [take firstn]. fold (take 32 l). unfold CPubKey, ValidSize. cbn [length]. rewrite Ht.
      by destruct Hp as [-> | ->].
    + f_equal. f_equal. rewrite <- (take_drop 32 l) at 1. by erewrite !drop_S, (drop_ge l) by (done || lia).
  - right. bool_to_prop. destruct script as [|a [|p l]]; try done.
    repeat match goal with H : byte_is _ _ _ = true |- _ => apply byte_is_inv in H; cbn in H end. simplify_eq.
    cbn [length drop] in *. rewrite ?drop_0 in *. assert (length l = 65%nat) as Hl by lia.
    exists (take 64 l). assert (length (take 64 l) = 64%nat) as Ht by (rewrite length_take; lia).
    assert (CPubKey (take 65 (4 :: l)) = 4 :: take 64 l) as Hk.
    { cbn [take firstn]. fold (take 64 l). unfold CPubKey, ValidSize. cbn [length]. by rewrite Ht. }
    rewrite Hk in *. destruct (IsFullyValid (4 :: take 64 l)) eqn:Hv; [|done]. simplify_eq.
    split_and!; [done|done| |done].
    f_equal. f_equal. rewrite <- (take_drop 64 l) at 1. by erewrite !drop_S, (drop_ge l) by (done || lia).
Qed.

(** Reading a special form: one byte that names it, then the data. *)
Lemma UnserializeScript_special script0 code data script rest :
  0 <= code < 6 -> length data = GetSpecialSize code -> Decompress code data = Ok (Some script) ->
  UnserializeScript script0 ((code :: data) ++ rest) = Ok (script, rest).
Proof.
  intros Hc Hl Hd. unfold UnserializeScript.
  replace ((code :: data) ++ rest) with (ser (varint_c 32) code ++ data ++ rest).
  - rewrite unser_step by codec_side.
    unfold nSpecialScripts. destruct (Z.ltb_spec code 6); [|lia].
    rewrite <- Hl. erewrite reader_bind_Ok by by apply read_raw_app. unfold lift, mbind, reader_bind. by rewrite Hd.
  - assert (code = 0 \/ code = 1 \/ code = 2 \/ code = 3 \/ code = 4 \/ code = 5) as Hx by lia.
    destruct_or! Hx; by subst.
Qed.

Lemma Compress_Decompress script out :
  compression_ok -> Compress script = Some out ->
  exists code data, out = code :: data /\ 0 <= code < 6 /\ length data = GetSpecialSize code /\
    Decompress code data = Ok (Some script).
Proof.
  intros Hok H. unfold Compress in H.
  destruct (IsToKeyID script) as [h|] eqn:E1.
  { apply IsToKeyID_inv in E1 as [-> Hl]. simplify_eq. exists 0, h. by split_and!. }
  destruct (IsToScriptID script) as [h|] eqn:E2.
  { apply IsToScriptID_inv in E2 as [-> Hl]. simplify_eq. exists 1, h. by split_and!. }
  destruct (IsToPubKey script) as [pk|] eqn:E3; [|done].
  apply IsToPubKey_inv in E3 as [(p & x & Hp & Hl & -> & ->)|(x & Hl & Hpk & -> & Hv)].
  - replace (take 32 (drop 1 (p :: x))) with x in H by (change (drop 1 (p :: x)) with x; by rewrite take_ge by lia).
    exists p, x. by destruct Hp as [-> | ->]; cbn in H; simplify_eq; split_and!.
  - rewrite Hpk in H. change (default 255 ((4 :: x) !! 0%nat)) with 4 in H. cbn [Z.eqb Pos.eqb orb] in H.
    rewrite <- Hpk in H. set (b := Z.land (default 0 (pk !! 64%nat)) 1) in H.
    assert (b = 0 \/ b = 1) as Hb.
    { apply land_1. }
    assert (Z.lor 4 b = 4 + b) as Hlor by (by destruct Hb as [-> | ->]).
    rewrite Hlor in H. simplify_eq. exists (4 + b), (take 32 (drop 1 (4 :: x))).
    assert (length (take 32 (drop 1 (4 :: x))) = 32%nat) as Ht by (change (drop 1 (4 :: x)) with x; rewrite length_take; lia).
    split_and!; [done|lia|lia| |].
    { rewrite Ht. by destruct Hb as [-> | ->]. }
    pose proof (Hok (4 :: x) ltac:(cbn; lia) eq_refl Hv) as Hun. unfold compressed in Hun. fold b in Hun.
    unfold Decompress. replace (4 + b - 2) with (2 + b) by lia.
    assert (CPubKey ((2 + b) :: take 32 (drop 1 (4 :: x))) = (2 + b) :: take 32 (drop 1 (4 :: x))) as Hck.
    { unfold CPubKey, ValidSize. cbn [length]. rewrite Ht. by destruct Hb as [-> | ->]. }
    rewrite Hck. unfold PubKey_Decompress. rewrite Hun.
    assert (CPubKey (4 :: x) = 4 :: x) as Hck2 by (unfold CPubKey, ValidSize; cbn [length]; by rewrite Hl).
    rewrite Hck2.
    change (negb (PubKey_IsValid (2 + b :: take 32 (drop 1 (4 :: x))))) with false. cbv iota beta.
    assert (zlen (4 :: x) =? 65 = true) as -> by (apply Z.eqb_eq; cbn [length]; lia).
    by destruct Hb as [-> | ->].
Qed.

Lemma UnserializeScript_ok script0 script rest :
  compression_ok -> zlen script <= MAX_SCRIPT_SIZE ->
  UnserializeScript script0 (SerializeScript script ++ rest) = Ok (script, rest).
Proof.
  intros Hok Hl. unfold SerializeScript. destruct (Compress script) as [out|] eqn:Hc.
  - destruct (Compress_Decompress _ _ Hok Hc) as (code & data & -> & ? & ? & ?). by apply UnserializeScript_special.
  - unfold UnserializeScript, MAX_SCRIPT_SIZE, nSpecialScripts in *. rewrite <- app_assoc.
    rewrite wrapu_small by (unfold in_u; lia). 
    rewrite unser_step by codec_side.
    destruct (Z.ltb_spec (zlen script + 6) 6); [lia|].
    destruct (Z.ltb_spec 10000 (zlen script + 6 - 6)); [lia|].
    apply read_raw_app. lia.
Qed.

Lemma script_compressor_ok : compression_ok -> codec_ok script_compressor_c.
Proof. intros Hok script rest Hw. by apply UnserializeScript_ok. Qed.
End Compressor.

(** ** Round trip of amounts *)

Ltac dlia := Z.to_euclidean_division_equations; lia.

Lemma strip_loop_spec fuel n e :
  0 < n -> 0 <= e <= 9 -> 9 - e < Z.of_nat fuel ->
  exists m k, strip_loop fuel n e = (m, e + k) /\ 0 <= k /\ 0 < m /\ n = m * 10 ^ k /\ e + k <= 9 /\
    (e + k < 9 -> m mod 10 ≠ 0).
Proof.
  revert n e; induction fuel as [|fuel IH]; intros n e Hn He Hf; [lia|]. cbn [strip_loop].
  destruct (Z.eqb_spec (n mod 10) 0) as [H0|H0], (Z.ltb_spec e 9); cbn [andb];
    try by (exists n, 0; rewrite Z.add_0_r, Z.pow_0_r; split_and!; lia || done).
  destruct (IH (n / 10) (e + 1)) as (m & k & -> & ? & ? & Hm & ? & ?); [dlia..|].
  exists m, (k + 1). rewrite Z.pow_add_r by lia. change (10 ^ 1) with 10.
  split_and!; [f_equal; lia|lia|done|rewrite Z.mul_assoc, <- Hm; dlia|lia|]. intros. auto with lia.
Qed.

Lemma strip_loop_scaled m k : forall fuel e,
  0 < m -> 0 <= e -> e + Z.of_nat k <= 9 -> (e + Z.of_nat k < 9 -> m mod 10 ≠ 0) -> (k < fuel)%nat ->
  strip_loop fuel (m * 10 ^ Z.of_nat k) e = (m, e + Z.of_nat k).
Proof.
  induction k as [|k IH]; intros [|fuel] e Hm He Hk Hd Hf; try lia; cbn [strip_loop].
  - rewrite Z.pow_0_r, Z.mul_1_r, Z.add_0_r. 
    destruct (Z.eqb_spec (m mod 10) 0), (Z.ltb_spec e 9); try done. exfalso. apply Hd; lia.
  - rewrite Nat2Z.inj_succ, Z.pow_succ_r by lia.
    replace (m * (10 * 10 ^ Z.of_nat k)) with (m * 10 ^ Z.of_nat k * 10) by lia.
    rewrite Z.mod_mul, Z.div_mul by lia. destruct (Z.ltb_spec e 9); [|lia]. cbn [Z.eqb andb].
    rewrite IH by (lia || (intros; apply Hd; lia)). f_equal. lia.
Qed.

Lemma scale_loop_pow e : forall n, 0 <= n -> n * 10 ^ Z.of_nat e < 2 ^ 64 -> scale_loop e n = n * 10 ^ Z.of_nat e.
Proof.
  induction e as [|e IH]; intros n Hn Hb; cbn [scale_loop]; [by rewrite Z.pow_0_r, Z.mul_1_r|].
  rewrite Nat2Z.inj_succ, Z.pow_succ_r in * by lia.
  assert (0 < 10 ^ Z.of_nat e) by (apply Z.pow_pos_nonneg; lia).
  rewrite wrapu_small by (unfold in_u; nia). rewrite IH by nia. lia.
Qed.

(** What [x] stands for: a digit that counts zeros, then the rest. *)
Definition expand (x : Z) : Z :=
  if x =? 0 then 0 else
  let e := (x - 1) mod 10 in let y := (x - 1) / 10 in
  (if e <? 9 then y / 9 * 10 + (y mod 9 + 1) else y + 1) * 10 ^ e.

Lemma DecompressAmount_expand x : in_u 64 x -> expand x < 2 ^ 64 -> DecompressAmount x = expand x.
Proof.
  unfold in_u, DecompressAmount, expand. intros Hx Hb. destruct (Z.eqb_spec x 0); [done|].
  set (e := (x - 1) mod 10) in *. set (y := (x - 1) / 10) in *.
  assert (0 <= e < 10) by (apply Z.mod_pos_bound; lia). assert (0 <= y) by (apply Z.div_pos; lia).
  set (m := if e <? 9 then y / 9 * 10 + (y mod 9 + 1) else y + 1) in *.
  assert (0 <= m) by (unfold m; pose proof (Z.mod_pos_bound y 9); pose proof (Z.div_pos y 9); destruct (e <? 9); lia).
  assert (0 < 10 ^ e) by (apply Z.pow_pos_nonneg; lia).
  replace (if e <? 9 then u64 (y / 9 * 10 + (y mod 9 + 1)) else u64 (y + 1)) with m.
  - rewrite scale_loop_pow by (rewrite ?Z2Nat.id by lia; lia). by rewrite Z2Nat.id by lia.
  - unfold m in *. destruct (e <? 9); (rewrite wrapu_small; [done|unfold in_u; nia]).
Qed.

Lemma low_digit k y : 0 <= k < 10 -> (k + y * 10) mod 10 = k.
Proof. intros. rewrite Z.mod_add by lia. by apply Z.mod_small. Qed.
Lemma high_digits k y : 0 <= k < 10 -> (k + y * 10) / 10 = y.
Proof. intros. rewrite Z.div_add, Z.div_small by lia. lia. Qed.

(** [expand] undoes the arithmetic of [CompressAmount]. *)
Lemma CompressAmount_expand n :
  0 <= n < 2 ^ 64 -> exists x, CompressAmount n = Ok (u64 x) /\ 0 <= x <= 9 * n /\ expand x = n.
Proof.
  intros Hn. unfold CompressAmount. destruct (Z.eqb_spec n 0) as [->|]; [exists 0; by split_and!|].
  destruct (strip_loop_spec 10 n 0) as (m & k & -> & Hk & Hm & En & Hk9 & Hd); [lia..|].
  rewrite Z.add_0_l in *. assert (m <= n) by (assert (0 < 10 ^ k) by (apply Z.pow_pos_nonneg; lia); nia).
  destruct (Z.ltb_spec k 9).
  - pose proof (Hd ltac:(lia)). pose proof (Z.mod_pos_bound m 10 ltac:(lia)).
    assert ((1 <=? m mod 10) && (m mod 10 <=? 9) = true) as -> by (apply andb_true_iff; lia).
    cbn [cassert mbind outcome_bind]. pose proof (Z.div_mod m 10 ltac:(lia)).
    eexists; split; [reflexivity|]. split.
    { split; [pose proof (Z.div_pos m 10); lia|]. 
      destruct (decide (k = 0)) as [->|]; [lia|].
      assert (10 <= 10 ^ k) by (rewrite <- (Z.pow_1_r 10) at 1; apply Z.pow_le_mono_r; lia). nia. }
    unfold expand. set (y := m / 10 * 9 + m mod 10 - 1) in *.
    assert (0 <= y) by (pose proof (Z.div_pos m 10); lia).
    replace (1 + y * 10 + k - 1) with (k + y * 10) by lia. destruct (Z.eqb_spec (1 + y * 10 + k) 0); [lia|].
    rewrite low_digit, high_digits by lia. destruct (Z.ltb_spec k 9); [|lia].
    assert (y / 9 = m / 10) as -> by (symmetry; apply (Z.div_unique y 9 (m / 10) (m mod 10 - 1)); lia).
    assert (y mod 9 = m mod 10 - 1) as -> by (symmetry; apply (Z.mod_unique y 9 (m / 10) (m mod 10 - 1)); lia).
    rewrite En. f_equal. lia.
  - assert (k = 9) as -> by lia. change (10 ^ 9) with 1000000000 in *.
    eexists; split; [reflexivity|]. split; [lia|]. unfold expand.
    destruct (Z.eqb_spec (1 + (m - 1) * 10 + 9) 0); [lia|].
    replace (1 + (m - 1) * 10 + 9 - 1) with (9 + (m - 1) * 10) by lia.
    rewrite low_digit, high_digits by lia. cbn [Z.ltb Z.compare Pos.compare Pos.compare_cont].
    change (10 ^ 9) with 1000000000. lia.
Qed.

Lemma CompressAmount_of_expand x : in_u 64 x -> CompressAmount (expand x) = Ok x.
Proof.
  unfold in_u, expand. intros Hx. destruct (Z.eqb_spec x 0) as [->|]; [done|].
  set (e := (x - 1) mod 10). set (y := (x - 1) / 10).
  assert (0 <= e < 10 /\ 0 <= y /\ x = 1 + y * 10 + e) as (He & Hy & Ex) by (unfold e, y; clear e y; split_and!; dlia).
  clearbody e y. set (m := if e <? 9 then y / 9 * 10 + (y mod 9 + 1) else y + 1).
  pose proof (Z.mod_pos_bound y 9 ltac:(lia)). pose proof (Z.div_pos y 9 ltac:(lia) ltac:(lia)).
  assert (0 < m) by (unfold m; destruct (e <? 9); lia).
  assert (0 < 10 ^ e) by (apply Z.pow_pos_nonneg; lia).
  assert (e < 9 -> m = (y mod 9 + 1) + y / 9 * 10) as Hm by (unfold m; intros; destruct (Z.ltb_spec e 9); lia).
  unfold CompressAmount. destruct (Z.eqb_spec (m * 10 ^ e) 0); [nia|].
  pose proof (strip_loop_scaled m (Z.to_nat e) 10 0) as Hstrip. rewrite Z2Nat.id in Hstrip by lia.
  rewrite Hstrip; [|lia..|intros; rewrite Hm, low_digit by lia; lia|lia].
  rewrite Z.add_0_l. destruct (Z.ltb_spec e 9).
  - rewrite Hm, low_digit, high_digits by lia.
    assert ((1 <=? y mod 9 + 1) && (y mod 9 + 1 <=? 9) = true) as -> by (apply andb_true_iff; lia).
    cbn [cassert mbind outcome_bind]. f_equal. pose proof (Z.div_mod y 9 ltac:(lia)).
    rewrite wrapu_small by (unfold in_u; lia). lia.
  - f_equal. unfold m. destruct (Z.ltb_spec e 9); [lia|]. rewrite wrapu_small by (unfold in_u; lia). lia.
Qed.

(** The compressed form of amounts.  The assertion of [CompressAmount]
    holds for every 64-bit amount; up to [MAX_COMPRESSIBLE] (more than 20 thousand
    million coins) nothing wraps, the form is at most nine times the
    amount, and [DecompressAmount] gives the amount back; and a compressed value
    whose amount fits 64 bits is the only one for that amount. *)
Theorem CompressAmount_bijective :
  (forall n, in_u 64 n -> exists x, CompressAmount n = Ok x) /\
  (forall n, 0 <= n <= MAX_COMPRESSIBLE ->
     exists x, CompressAmount n = Ok x /\ 0 <= x <= 9 * n /\ DecompressAmount x = n) /\
  (forall x, in_u 64 x -> expand x < 2 ^ 64 -> CompressAmount (DecompressAmount x) = Ok x).
Proof.
  split_and!.
  - intros n Hn. destruct (CompressAmount_expand n Hn) as (x & -> & _). eauto.
  - intros n Hn. assert (9 * n < 2 ^ 64) by (unfold MAX_COMPRESSIBLE in Hn; dlia).
    destruct (CompressAmount_expand n ltac:(lia)) as (x & -> & Hx & He).
    exists x. rewrite wrapu_small by (unfold in_u; lia). split_and!; [done|lia|lia|].
    rewrite DecompressAmount_expand; [done|unfold in_u; lia|lia].
  - intros x Hx He. rewrite DecompressAmount_expand by done. by apply CompressAmount_of_expand.
Qed.

Section TxOut.
Context (uncompressed : valtype -> option valtype).

Lemma txout_compressor_ok : compression_ok uncompressed -> codec_ok (txout_compressor_c uncompressed).
Proof.
  intros Hok o rest (Hv & Hs & Hr). cbn [ser unser txout_compressor_c].
  unfold SerializeTxOut, UnserializeTxOut. rewrite <- app_assoc.
  assert (9 * nValue o < 2 ^ 64) by (unfold MAX_COMPRESSIBLE in Hv; dlia).
  rewrite (wrapu_small 64 (nValue o)) by (unfold in_u; lia).
  destruct (CompressAmount_expand (nValue o) ltac:(lia)) as (x & -> & Hx & He).
  cbn [default from_option id]. rewrite (wrapu_small 64 x) by (unfold in_u; lia).
  rewrite unser_step by (auto with codec || (cbn; unfold in_u; lia)).
  erewrite reader_bind_Ok by by apply UnserializeScript_ok.
  rewrite DecompressAmount_expand, He by (unfold in_u; lia). 
  rewrite wraps_small by (unfold in_s; lia). unfold mret, reader_ret. destruct o; cbn in *; by subst.
Qed.
End TxOut.
