(* ===== verification/Undo.v ===== *)
(** * Coins and how they are stored: coins.h (Coin), undo.h

    [Coin] with its serialization for the coin database, [TxInUndoSerializer]
    and [TxInUndoDeserializer], [CTxUndo] and [CBlockUndo] for the undo files.
    A coin that is read is read into a fresh one. *)
From S2P Require Import Prelude Serialize HashStream Sha256 Hash Script Interpreter Standard Transaction Block Compressor.

(** ** Coins *)

Record Coin := MkCoin { fCoinBase : bool; fCoinStake : bool; out : CTxOut; nHeight : Z }.

#[export] Instance Coin_eq_dec : EqDecision Coin.
Proof. solve_decision. Defined.

Definition Coin_new : Coin := MkCoin false false CTxOut_new 0.

(** [Coin::Clear]: [SetNull] resets every field of the output. *)
Definition Clear (c : Coin) : Coin := MkCoin false false CTxOut_new 0.
Definition IsSpent (c : Coin) : bool := CTxOut_IsNull (out c).

(** [nHeight * 4 + (fCoinBase ? 2 : 0) + (fCoinStake ? 1 : 0)], unsigned. *)
Definition coin_code (c : Coin) : Z :=
  u32 (nHeight c * 4 + (if fCoinBase c then 2 else 0) + (if fCoinStake c then 1 else 0)).
Definition code_coin (code : Z) (o : CTxOut) : Coin :=
  MkCoin (negb (Z.land code 2 =? 0)) (negb (Z.land code 1 =? 0)) o (Z.shiftr code 2).

Definition CTxIn_new : CTxIn := TxIn COutPoint_new [] UINT32_MAX.
Definition MAX_INPUTS_PER_BLOCK : Z := MAX_BLOCK_SIZE_CURRENT / zlen (ser CTxIn_c CTxIn_new).

Section Undo.
Context (uncompressed : valtype -> option valtype).

(** A coin that both forms can hold. *)
Definition coin_wire (c : Coin) : Prop :=
  0 <= nHeight c < 2 ^ 30 /\ wire (txout_compressor_c uncompressed) (out c).

(** [Coin::Serialize] asserts that the coin is unspent. *)
Definition SerializeCoin (c : Coin) : outcome unit (list Z) :=
  cassert (negb (IsSpent c));;
  Ok (ser (varint_c 32) (coin_code c) ++ SerializeTxOut uncompressed (out c)).
Definition UnserializeCoin : reader Coin :=
  code ← unser (varint_c 32);
  o ← UnserializeTxOut uncompressed CTxOut_new;
  mret (code_coin code o).
Definition Coin_c : codec Coin := Codec (fun c => written (SerializeCoin c)) UnserializeCoin coin_wire.

(** ** Undo data *)

Definition TxInUndo_ser (c : Coin) : list Z :=
  ser (varint_c 32) (coin_code c) ++
  (if 0 <? nHeight c then ser uint8_c 0 else []) ++
  SerializeTxOut uncompressed (out c).
(** The dummy version is read as a signed int; its value is dropped. *)
Definition TxInUndo_unser : reader Coin :=
  nCode ← unser (varint_c 32);
  _ ← (if 0 <? Z.shiftr nCode 2 then unser (varint_c 32) else mret 0);
  o ← UnserializeTxOut uncompressed CTxOut_new;
  mret (code_coin nCode o).
Definition TxInUndo_c : codec Coin := Codec TxInUndo_ser TxInUndo_unser coin_wire.

(** [CTxUndo]: the coins a transaction spends. *)
Definition CTxUndo_ser (vprevout : list Coin) : list Z :=
  WriteCompactSize (zlen vprevout) ++ concat (map TxInUndo_ser vprevout).
Definition CTxUndo_unser : reader (list Coin) :=
  count ← ReadCompactSize;
  if MAX_INPUTS_PER_BLOCK <? count then rthrow else read_items TxInUndo_c (Z.to_nat count).
Definition CTxUndo_c : codec (list Coin) :=
  Codec CTxUndo_ser CTxUndo_unser (fun v => zlen v <= MAX_INPUTS_PER_BLOCK /\ Forall coin_wire v).

(** [CBlockUndo]: the undo data of all the transactions but the coinbase. *)
Definition CBlockUndo_c : codec (list (list Coin)) := vector_c CTxUndo_c.

(** ** Round trips *)

Lemma coin_wire_unspent c : coin_wire c -> IsSpent c = false.
Proof. intros (_ & Hv & _). unfold IsSpent, CTxOut_IsNull. apply Z.eqb_neq. lia. Qed.

Lemma coin_code_range c :
  0 <= nHeight c < 2 ^ 30 ->
  coin_code c = nHeight c * 4 + (if fCoinBase c then 2 else 0) + (if fCoinStake c then 1 else 0) /\
  in_u 32 (coin_code c).
Proof.
  intros Hh. unfold coin_code. rewrite wrapu_small by (unfold in_u; destruct (fCoinBase c), (fCoinStake c); lia).
  split; [done|]. unfold in_u. destruct (fCoinBase c), (fCoinStake c); lia.
Qed.

(** The two flags are the low bits, the height is above them. *)
Lemma code_coin_code c : 0 <= nHeight c < 2 ^ 30 -> code_coin (coin_code c) (out c) = c.
Proof.
  intros Hh. destruct (coin_code_range c Hh) as [E _]. rewrite E. unfold code_coin.
  destruct c as [b s o h]. cbn [fCoinBase fCoinStake nHeight out] in *.
  set (f := (if b then 2 else 0) + (if s then 1 else 0)).
  replace (h * 4 + (if b then 2 else 0) + (if s then 1 else 0)) with (Z.lor f (Z.shiftl h 2))
    by (rewrite lor_shiftl_add by (unfold f; destruct b, s; lia); unfold f; lia).
  assert (forall m, 0 <= m < 4 -> Z.land (Z.lor f (Z.shiftl h 2)) m = Z.land f m) as Hland.
  { intros m Hm. rewrite Z.land_lor_distr_l. replace (Z.land (Z.shiftl h 2) m) with 0; [apply Z.lor_0_r|].
    symmetry. apply Z.bits_inj'. intros i Hi. rewrite Z.land_spec, Z.bits_0, Z.shiftl_spec by done.
    destruct (Z.lt_ge_cases i 2); [by rewrite Z.testbit_neg_r by lia|].
    destruct (decide (m = 0)) as [->|]; [by rewrite Z.bits_0, andb_false_r|].
    rewrite (Z.bits_above_log2 m), andb_false_r; [done|lia|].
    apply Z.log2_lt_pow2; [lia|]. apply Z.lt_le_trans with (2 ^ 2); [lia|]. apply Z.pow_le_mono_r; lia. }
  rewrite !Hland by lia. rewrite Z.shiftr_lor, Z.shiftr_shiftl_l, Z.shiftl_0_r by lia.
  by destruct b, s.
Qed.

Context (Hcompr : compression_ok uncompressed).

Lemma txout_step {B} (k : CTxOut -> reader B) o rest :
  wire (txout_compressor_c uncompressed) o ->
  (UnserializeTxOut uncompressed CTxOut_new ≫= k) (SerializeTxOut uncompressed o ++ rest) = k o rest.
Proof. intros Hw. apply reader_bind_Ok. by apply (txout_compressor_ok uncompressed Hcompr). Qed.

Lemma Coin_ok : codec_ok Coin_c.
Proof.
  intros c rest Hw. pose proof (coin_wire_unspent c Hw) as Hs. destruct Hw as [Hh Ho].
  destruct (coin_code_range c Hh) as [_ Hc].
  cbn [ser unser Coin_c]. unfold SerializeCoin. rewrite Hs. cbn [negb cassert mbind outcome_bind written].
  unfold UnserializeCoin. rewrite <- app_assoc, unser_step by (auto with codec).
  rewrite txout_step by done. unfold mret, reader_ret. by rewrite code_coin_code.
Qed.

Lemma TxInUndo_ok : codec_ok TxInUndo_c.
Proof.
  intros c rest [Hh Ho]. destruct (coin_code_range c Hh) as [Ec Hc].
  cbn [ser unser TxInUndo_c]. unfold TxInUndo_ser, TxInUndo_unser.
  rewrite <- !app_assoc, unser_step by (auto with codec).
  pose proof (code_coin_code c Hh) as Hcc.
  assert (Z.shiftr (coin_code c) 2 = nHeight c) as -> by by rewrite <- Hcc at 2.
  destruct (0 <? nHeight c).
  - replace (ser uint8_c 0) with (ser (varint_c 32) 0) by done.
    rewrite unser_step by (auto with codec || (cbn; unfold in_u; lia)).
    rewrite txout_step by done. unfold mret, reader_ret. by rewrite Hcc.
  - cbn [app]. rewrite (reader_bind_Ok _ _ _ 0 (SerializeTxOut uncompressed (out c) ++ rest)) by done.
    rewrite txout_step by done. unfold mret, reader_ret. by rewrite Hcc.
Qed.

(** A record of an old version, with the version of the transaction. *)
Lemma TxInUndo_old c version rest : coin_wire c -> 0 < nHeight c -> 0 <= version < 2 ^ 31 ->
  TxInUndo_unser (ser (varint_c 32) (coin_code c) ++ ser (varint_c 32) version ++ SerializeTxOut uncompressed (out c) ++ rest) = Ok (c, rest).
Proof.
  intros [Hh Ho] Hpos Hv. destruct (coin_code_range c Hh) as [Ec Hc]. unfold TxInUndo_unser. rewrite unser_step by (auto with codec).
  pose proof (code_coin_code c Hh) as Hcc. assert (Z.shiftr (coin_code c) 2 = nHeight c) as -> by by rewrite <- Hcc at 2.
  rewrite (proj2 (Z.ltb_lt 0 _)) by done. rewrite unser_step by (auto with codec || (cbn; unfold in_u; lia)).
  rewrite txout_step by done. unfold mret, reader_ret. by rewrite Hcc.
Qed.

Lemma CTxUndo_too_many count rest : MAX_INPUTS_PER_BLOCK < count <= MAX_SIZE -> CTxUndo_unser (WriteCompactSize count ++ rest) = Throw.
Proof.
  intros H. unfold CTxUndo_unser. rewrite compact_step by (change MAX_INPUTS_PER_BLOCK with 60975 in H; lia). by rewrite (proj2 (Z.ltb_lt _ _)) by lia.
Qed.

Lemma CTxUndo_ok : codec_ok CTxUndo_c.
Proof.
  intros v rest [Hl Hv]. cbn [ser unser CTxUndo_c]. unfold CTxUndo_ser, CTxUndo_unser. rewrite <- app_assoc.
  rewrite compact_step by (change MAX_INPUTS_PER_BLOCK with 60975 in Hl; unfold MAX_SIZE; lia).
  destruct (Z.ltb_spec MAX_INPUTS_PER_BLOCK (zlen v)); [lia|].
  rewrite Nat2Z.id. apply (read_items_app TxInUndo_c); [apply TxInUndo_ok|done].
Qed.
End Undo.

(** C32: coins and undo data survive the disk.  An unspent coin (below height
    2^30, its amount and script in the ranges of the compressed forms) is read
    back from what [Coin::Serialize] writes, which refuses a spent one; the undo
    data of a block, in its own format with a dummy version, is read back with
    every coin in place; a record whose dummy is another version, as old ones
    have it, is read as the same coin when its height is above 0; and a record that says it has more inputs
    than a block can hold is refused.  This holds for the special forms of scripts
    too, given that the compressed form of a public key names that key. *)
Theorem undo_roundtrip (uncompressed : valtype -> option valtype) :
  compression_ok uncompressed ->
  (forall c rest, coin_wire uncompressed c ->
     exists s, SerializeCoin uncompressed c = Ok s /\ UnserializeCoin uncompressed (s ++ rest) = Ok (c, rest)) /\
  (forall c, IsSpent c = true -> SerializeCoin uncompressed c = Abort) /\
  (forall b rest, wire (CBlockUndo_c uncompressed) b ->
     unser (CBlockUndo_c uncompressed) (ser (CBlockUndo_c uncompressed) b ++ rest) = Ok (b, rest)) /\
  (forall c version rest, coin_wire uncompressed c -> 0 < nHeight c -> 0 <= version < 2 ^ 31 ->
     TxInUndo_unser uncompressed (ser (varint_c 32) (coin_code c) ++ ser (varint_c 32) version ++ SerializeTxOut uncompressed (out c) ++ rest) = Ok (c, rest)) /\
  (forall count rest, MAX_INPUTS_PER_BLOCK < count <= MAX_SIZE -> CTxUndo_unser uncompressed (WriteCompactSize count ++ rest) = Throw).
Proof.
  intros Hok. split_and!.
  - intros c rest Hw. pose proof (Coin_ok uncompressed Hok c rest Hw) as H. cbn [ser unser Coin_c] in H.
    pose proof (coin_wire_unspent _ c Hw) as Hs. unfold SerializeCoin in *. rewrite Hs in *.
    eexists. split; [reflexivity|exact H].
  - intros c Hs. unfold SerializeCoin. by rewrite Hs.
  - apply vector_ok. by apply CTxUndo_ok.
  - intros c version rest. by apply TxInUndo_old.
  - apply CTxUndo_too_many.
Qed.

(** A curve with two points over each abscissa, for the examples. *)
Definition sample_curve (key : valtype) : option valtype :=
  match key with
  | h :: x =>
      if ((h =? 2) || (h =? 3)) && (length x =? 32)%nat then Some (4 :: x ++ replicate 31 0 ++ [Z.land h 1])
      else if (h =? 4) && (length x =? 64)%nat then
        (if bool_decide (drop 32 x = replicate 31 0 ++ [0]) || bool_decide (drop 32 x = replicate 31 0 ++ [1])
         then Some key else None)
      else None
  | [] => None
  end.

Lemma sample_curve_ok : compression_ok sample_curve.
Proof.
  intros key Hl Hh Hv. destruct key as [|h x]; [done|]. cbn in Hh. simplify_eq. cbn [length] in Hl.
  assert (length x = 64%nat) as Hx by lia. unfold IsFullyValid in Hv. cbn [PubKey_IsValid negb] in Hv.
  assert (exists b, (b = 0 \/ b = 1) /\ drop 32 x = replicate 31 0 ++ [b]) as (b & Hb & Hd).
  { unfold sample_curve in Hv. rewrite Hx in Hv. cbn [Z.eqb Pos.eqb Nat.eqb orb andb] in Hv.
    destruct (bool_decide (drop 32 x = replicate 31 0 ++ [0])) eqn:E0; bool_to_prop; [by exists 0; auto|].
    destruct (bool_decide (drop 32 x = replicate 31 0 ++ [1])) eqn:E1; bool_to_prop; [by exists 1; auto|].
    by destruct (negb _) in Hv. }
  assert (default 0 ((4 :: x) !! 64%nat) = b) as Hlast.
  { change ((4 :: x) !! 64%nat) with (x !! (32 + 31)%nat). rewrite <- lookup_drop, Hd. reflexivity. }
  unfold compressed. rewrite Hlast. change (drop 1 (4 :: x)) with x.
  unfold sample_curve. rewrite length_take, Hx.
  assert (x = take 32 x ++ replicate 31 0 ++ [b]) as Ex by by rewrite <- Hd, take_drop.
  transitivity (Some (4 :: take 32 x ++ replicate 31 0 ++ [b])); [by destruct Hb as [-> | ->]|by rewrite <- Ex].
Qed.

Definition sample_coin : Coin :=
  MkCoin true false (TxOut 150000000 ([65; 4] ++ replicate 63 0 ++ [1; OP_CHECKSIG]) NULL_ROUNDS) 1000.

Lemma sample_coin_wire : coin_wire sample_curve sample_coin.
Proof.
  split; [cbn; lia|]. split; [vm_compute; split; discriminate|split; [vm_compute; discriminate|reflexivity]].
Qed.

Lemma undo_roundtrip_witness :
  (exists s, SerializeCoin sample_curve sample_coin = Ok s /\ UnserializeCoin sample_curve (s ++ [9]) = Ok (sample_coin, [9])) /\
  unser (CBlockUndo_c sample_curve) (ser (CBlockUndo_c sample_curve) [[sample_coin]; []] ++ [9])
  = Ok ([[sample_coin]; []], [9]).
Proof.
  destruct (undo_roundtrip sample_curve sample_curve_ok) as (H1 & _ & H3 & _).
  pose proof sample_coin_wire as Hw.
  split; [by apply H1|]. apply H3. split; [vm_compute; discriminate|].
  apply Forall_cons_2; [split; [vm_compute; discriminate|apply Forall_cons_2; [exact Hw|constructor]]|].
  apply Forall_cons_2; [split; [vm_compute; discriminate|constructor]|constructor].
Defined.
