(* ===== verification/Coins.v ===== *)
(** * The set of unspent outputs: coins.h and coins.cpp

    [CCoinsView] is a type class: the operations of a view of the coins over a
    type of states.  The methods of a view are [const] but fill its cache, so
    every operation returns the new state.  [CCoinsViewCache] adds a layer of
    entries over any view and is a view itself, so that caches stack to any
    depth.  [CCoinsViewOk] states what a view promises (an invariant, the set of
    unspent outputs it stands for, and what a batch of changes does to it); the
    cache is proved to keep that promise whenever the view below it does.

    The memory accounting ([cachedCoinsUsage]) is not modelled.  [Tree] is the
    type of the Sapling commitment trees and [root] the root of one. *)
From stdpp Require Import functions.
From S2P Require Import Prelude Serialize HashStream Sha256 Hash Script Interpreter Standard Transaction Block Compressor Undo.

(** ** Entries *)

(** The [DIRTY] and [FRESH] bits of [flags]. *)
Record CCoinsCacheEntry := CacheEntry { coin : Coin; DIRTY : bool; FRESH : bool }.
Record CNullifiersCacheEntry := NullifierEntry { nf_entered : bool; nf_DIRTY : bool }.
Record CAnchorsSaplingCacheEntry {Tree : Type} := AnchorEntry { entered : bool; tree : Tree; an_DIRTY : bool }.
Arguments CAnchorsSaplingCacheEntry : clear implicits.
Arguments AnchorEntry {Tree}.

Notation CCoinsMap := (gmap COutPoint CCoinsCacheEntry).
Notation CNullifiersMap := (gmap (list Z) CNullifiersCacheEntry).
Notation CAnchorsSaplingMap Tree := (gmap (list Z) (CAnchorsSaplingCacheEntry Tree)).

(** What an operation on a view can be stopped by: [Throw] is a
    [std::logic_error], [Abort] a failed assertion. *)
Notation coins := (outcome unit).

Section Views.
Context {Tree : Type} (Tree_new : Tree) (root : Tree -> uint256).

(** ** The interface *)

(** The arguments of [BatchWrite]. *)
Record batch := Batch {
  mapCoins : CCoinsMap;
  b_hashBlock : uint256;
  b_hashSaplingAnchor : uint256;
  mapSaplingAnchors : CAnchorsSaplingMap Tree;
  mapSaplingNullifiers : CNullifiersMap;
}.

Class CCoinsView (V : Type) := {
  view_GetCoin : COutPoint -> V -> option Coin * V;
  view_HaveCoin : COutPoint -> V -> bool * V;
  view_GetBestBlock : V -> uint256 * V;
  view_BatchWrite : batch -> V -> coins (bool * V);
  view_GetSaplingAnchorAt : uint256 -> V -> option Tree * V;
  view_GetNullifier : uint256 -> V -> bool * V;
  view_GetBestAnchor : V -> uint256 * V;
}.

(** The base class: an empty view, nothing can be written to it. *)
Definition CCoinsView_base : CCoinsView unit := {|
  view_GetCoin _ s := (None, s);
  view_HaveCoin _ s := (false, s);
  view_GetBestBlock s := (UINT256_ZERO, s);
  view_BatchWrite _ s := Ok (false, s);
  view_GetSaplingAnchorAt _ s := (None, s);
  view_GetNullifier _ s := (false, s);
  view_GetBestAnchor s := (UINT256_ZERO, s);
|}.

(** ** The cache *)

Record CCoinsViewCache {V : Type} := Cache {
  base : V;
  hashBlock : uint256;
  cacheCoins : CCoinsMap;
  hashSaplingAnchor : uint256;
  cacheSaplingAnchors : CAnchorsSaplingMap Tree;
  cacheSaplingNullifiers : CNullifiersMap;
}.
Arguments CCoinsViewCache : clear implicits.

Section CacheOps.
Context {V : Type} {BaseView : CCoinsView V}.
Notation cache := (CCoinsViewCache V).

Definition CCoinsViewCache_new (baseIn : V) : cache := Cache V baseIn UINT256_ZERO ∅ UINT256_ZERO ∅ ∅.

Definition with_coins (c : cache) (m : CCoinsMap) : cache :=
  Cache V (base c) (hashBlock c) m (hashSaplingAnchor c) (cacheSaplingAnchors c) (cacheSaplingNullifiers c).
Definition with_base (c : cache) (s : V) : cache :=
  Cache V s (hashBlock c) (cacheCoins c) (hashSaplingAnchor c) (cacheSaplingAnchors c) (cacheSaplingNullifiers c).
Definition with_anchors (c : cache) (h : uint256) (m : CAnchorsSaplingMap Tree) : cache :=
  Cache V (base c) (hashBlock c) (cacheCoins c) h m (cacheSaplingNullifiers c).
Definition with_nullifiers (c : cache) (m : CNullifiersMap) : cache :=
  Cache V (base c) (hashBlock c) (cacheCoins c) (hashSaplingAnchor c) (cacheSaplingAnchors c) m.

(** [FetchCoin]: the entry, if there is one now. *)
Definition FetchCoin (outpoint : COutPoint) (c : cache) : option CCoinsCacheEntry * cache :=
  match cacheCoins c !! outpoint with
  | Some e => (Some e, c)
  | None =>
      let '(r, s) := view_GetCoin outpoint (base c) in
      let c := with_base c s in
      match r with
      | None => (None, c)
      | Some tmp =>
          let e := CacheEntry tmp false (IsSpent tmp) in
          (Some e, with_coins c (<[outpoint := e]> (cacheCoins c)))
      end
  end.

Definition GetCoin (outpoint : COutPoint) (c : cache) : option Coin * cache :=
  let '(it, c) := FetchCoin outpoint c in (coin <$> it, c).

Definition AddCoin (outpoint : COutPoint) (new : Coin) (possible_overwrite : bool) (c : cache) : coins cache :=
  cassert (negb (IsSpent new));;
  if IsUnspendable (scriptPubKey (out new)) then Ok c else
  if CTxOut_IsZerocoinMint (out new) then Ok c else
  let it := default (CacheEntry Coin_new false false) (cacheCoins c !! outpoint) in
  if negb possible_overwrite && negb (IsSpent (coin it)) then Throw else
  let fresh := negb possible_overwrite && negb (DIRTY it) in
  Ok (with_coins c (<[outpoint := CacheEntry new true (FRESH it || fresh)]> (cacheCoins c))).

(** [SpendCoin]: what it moves into [moveout], and the new state. *)
Definition SpendCoin (outpoint : COutPoint) (c : cache) : option Coin * cache :=
  let '(it, c) := FetchCoin outpoint c in
  match it with
  | None => (None, c)
  | Some e =>
      (Some (coin e),
       with_coins c (if FRESH e then delete outpoint (cacheCoins c)
                     else <[outpoint := CacheEntry (Clear (coin e)) true (FRESH e)]> (cacheCoins c)))
  end.

Definition AccessCoin (outpoint : COutPoint) (c : cache) : Coin * cache :=
  let '(it, c) := FetchCoin outpoint c in (default Coin_new (coin <$> it), c).

Definition HaveCoin (outpoint : COutPoint) (c : cache) : bool * cache :=
  let '(it, c) := FetchCoin outpoint c in
  (match it with Some e => negb (IsSpent (coin e)) | None => false end, c).

Definition HaveCoinInCache (outpoint : COutPoint) (c : cache) : bool :=
  match cacheCoins c !! outpoint with Some _ => true | None => false end.

Definition GetBestBlock (c : cache) : uint256 * cache :=
  if uint256_IsNull (hashBlock c) then
    let '(h, s) := view_GetBestBlock (base c) in
    (h, Cache V s h (cacheCoins c) (hashSaplingAnchor c) (cacheSaplingAnchors c) (cacheSaplingNullifiers c))
  else (hashBlock c, c).

Definition SetBestBlock (h : uint256) (c : cache) : cache :=
  Cache V (base c) h (cacheCoins c) (hashSaplingAnchor c) (cacheSaplingAnchors c) (cacheSaplingNullifiers c).

(** One turn of the loop of [BatchWrite], for an entry of the child. *)
Definition write_coin (us : CCoinsMap) (outpoint : COutPoint) (it : CCoinsCacheEntry) : coins CCoinsMap :=
  if negb (DIRTY it) then Ok us else
  match us !! outpoint with
  | None =>
      if FRESH it && IsSpent (coin it) then Ok us
      else Ok (<[outpoint := CacheEntry (coin it) true (FRESH it)]> us)
  | Some itUs =>
      if FRESH it && negb (IsSpent (coin itUs)) then Throw
      else if FRESH itUs && IsSpent (coin it) then Ok (delete outpoint us)
      else Ok (<[outpoint := CacheEntry (coin it) true (FRESH itUs)]> us)
  end.

(** The loop, in the order of iteration of the child's map. *)
Fixpoint write_coins (l : list (COutPoint * CCoinsCacheEntry)) (us : CCoinsMap) : coins CCoinsMap :=
  match l with
  | [] => Ok us
  | (outpoint, it) :: l => us ← write_coin us outpoint it; write_coins l us
  end.

Definition write_anchor (us : CAnchorsSaplingMap Tree) (rt : uint256) (child : CAnchorsSaplingCacheEntry Tree)
  : CAnchorsSaplingMap Tree :=
  if negb (an_DIRTY child) then us else
  match us !! rt with
  | None => <[rt := AnchorEntry (entered child) (tree child) true]> us
  | Some parent =>
      if bool_decide (entered parent = entered child) then us
      else <[rt := AnchorEntry (entered child) (tree parent) true]> us
  end.
Definition BatchWriteAnchors (l : list (uint256 * CAnchorsSaplingCacheEntry Tree)) (us : CAnchorsSaplingMap Tree)
  : CAnchorsSaplingMap Tree := fold_left (fun us p => write_anchor us p.1 p.2) l us.

Definition write_nullifier (us : CNullifiersMap) (nf : uint256) (child : CNullifiersCacheEntry) : CNullifiersMap :=
  if negb (nf_DIRTY child) then us else
  match us !! nf with
  | None => <[nf := NullifierEntry (nf_entered child) true]> us
  | Some parent =>
      if bool_decide (nf_entered parent = nf_entered child) then us
      else <[nf := NullifierEntry (nf_entered child) true]> us
  end.
Definition BatchWriteNullifiers (l : list (uint256 * CNullifiersCacheEntry)) (us : CNullifiersMap) : CNullifiersMap :=
  fold_left (fun us p => write_nullifier us p.1 p.2) l us.

Definition BatchWrite (b : batch) (c : cache) : coins (bool * cache) :=
  us ← write_coins (map_to_list (mapCoins b)) (cacheCoins c);
  Ok (true, Cache V (base c) (b_hashBlock b) us (b_hashSaplingAnchor b)
              (BatchWriteAnchors (map_to_list (mapSaplingAnchors b)) (cacheSaplingAnchors c))
              (BatchWriteNullifiers (map_to_list (mapSaplingNullifiers b)) (cacheSaplingNullifiers c))).

Definition Flush (c : cache) : coins (bool * cache) :=
  r ← view_BatchWrite (Batch (cacheCoins c) (hashBlock c) (hashSaplingAnchor c) (cacheSaplingAnchors c)
                         (cacheSaplingNullifiers c)) (base c);
  let '(fOk, s) := r in
  Ok (fOk, Cache V s (hashBlock c) ∅ (hashSaplingAnchor c) ∅ ∅).

Definition Uncache (outpoint : COutPoint) (c : cache) : cache :=
  match cacheCoins c !! outpoint with
  | Some e => if negb (DIRTY e) && negb (FRESH e) then with_coins c (delete outpoint (cacheCoins c)) else c
  | None => c
  end.

Definition GetCacheSize (c : cache) : Z := u32 (Z.of_nat (size (cacheCoins c))).

(** *** Anchors and nullifiers *)

Definition GetSaplingAnchorAt (rt : uint256) (c : cache) : option Tree * cache :=
  match cacheSaplingAnchors c !! rt with
  | Some e => (if entered e then Some (tree e) else None, c)
  | None =>
      let '(r, s) := view_GetSaplingAnchorAt rt (base c) in
      let c := with_base c s in
      match r with
      | None => (None, c)
      | Some t =>
          (Some t, with_anchors c (hashSaplingAnchor c) (<[rt := AnchorEntry true t false]> (cacheSaplingAnchors c)))
      end
  end.

Definition GetNullifier (nf : uint256) (c : cache) : bool * cache :=
  match cacheSaplingNullifiers c !! nf with
  | Some e => (nf_entered e, c)
  | None =>
      let '(tmp, s) := view_GetNullifier nf (base c) in
      let c := with_base c s in
      (tmp, with_nullifiers c (<[nf := NullifierEntry tmp false]> (cacheSaplingNullifiers c)))
  end.

Definition GetBestAnchor (c : cache) : uint256 * cache :=
  if uint256_IsNull (hashSaplingAnchor c) then
    let '(h, s) := view_GetBestAnchor (base c) in
    let c := with_base c s in (h, with_anchors c h (cacheSaplingAnchors c))
  else (hashSaplingAnchor c, c).

Definition SetNullifiers (tx : CTransaction) (spent : bool) (c : cache) : cache :=
  match sapData tx with
  | None => c
  | Some d =>
      with_nullifiers c (fold_left (fun m sd => <[nullifier sd := NullifierEntry spent true]> m)
        (vShieldedSpend d) (cacheSaplingNullifiers c))
  end.

(** [PushAnchor]: the entry may exist already, it is overwritten. *)
Definition PushAnchor (t : Tree) (c : cache) : cache :=
  let newrt := root t in
  let '(currentRoot, c) := GetBestAnchor c in
  if bool_decide (currentRoot = newrt) then c
  else with_anchors c newrt (<[newrt := AnchorEntry true t true]> (cacheSaplingAnchors c)).

Definition BringBestAnchorIntoCache (currentRoot : uint256) (c : cache) : coins cache :=
  let '(r, c) := GetSaplingAnchorAt currentRoot c in
  match r with Some _ => Ok c | None => Abort end.

Definition PopAnchor (newrt : uint256) (c : cache) : coins cache :=
  let '(currentRoot, c) := GetBestAnchor c in
  if bool_decide (currentRoot = newrt) then Ok c else
  c ← BringBestAnchorIntoCache currentRoot c;
  let e := default (AnchorEntry false Tree_new false) (cacheSaplingAnchors c !! currentRoot) in
  Ok (with_anchors c newrt (<[currentRoot := AnchorEntry false (tree e) true]> (cacheSaplingAnchors c))).

(** *** Transactions *)

Fixpoint have_all (ins : list CTxIn) (c : cache) : bool * cache :=
  match ins with
  | [] => (true, c)
  | i :: ins =>
      let '(b, c) := HaveCoin (prevout i) c in
      if negb b then (false, c) else have_all ins c
  end.
Definition HaveInputs (tx : CTransaction) (c : cache) : bool * cache :=
  if negb (IsCoinBase tx) && negb (HasZerocoinSpendInputs tx) then have_all (vin tx) c else (true, c).

Fixpoint value_in_loop (ins : list CTxIn) (nResult : CAmount) (c : cache) : coins (CAmount * cache) :=
  match ins with
  | [] => Ok (nResult, c)
  | i :: ins =>
      let '(co, c) := AccessCoin (prevout i) c in
      nResult ← int64_result (nResult + nValue (out co));
      value_in_loop ins nResult c
  end.
Definition GetValueIn (tx : CTransaction) (c : cache) : coins (CAmount * cache) :=
  if IsCoinBase tx then Ok (0, c) else
  if HasZerocoinSpendInputs tx then (v ← GetZerocoinSpent tx; Ok (v, c)) else
  r ← value_in_loop (vin tx) 0 c;
  let '(nResult, c) := r in
  sh ← GetShieldedValueIn tx;
  nResult ← int64_result (nResult + sh);
  Ok (nResult, c).

Fixpoint shielded_requirements (spends : list SpendDescription) (c : cache) : bool * cache :=
  match spends with
  | [] => (true, c)
  | sd :: spends =>
      let '(spent, c) := GetNullifier (nullifier sd) c in
      if spent then (false, c) else
      let '(r, c) := GetSaplingAnchorAt (anchor sd) c in
      match r with None => (false, c) | Some _ => shielded_requirements spends c end
  end.
Definition HaveShieldedRequirements (tx : CTransaction) (c : cache) : bool * cache :=
  if IsShieldedTx tx then
    match sapData tx with Some d => shielded_requirements (vShieldedSpend d) c | None => (true, c) end
  else (true, c).

Definition GetCoinDepthAtHeight (output : COutPoint) (height : Z) (c : cache) : Z * cache :=
  let '(co, c) := AccessCoin output c in
  (if negb (IsSpent co) then i32 (height - nHeight co + 1) else -1, c).

(** [AddCoins]; [setInvalidOutPoints] is the list of banned outputs. *)
Fixpoint add_coins_loop (setInvalidOutPoints : gset COutPoint) (txid : uint256) (fCoinbase fCoinstake : bool)
    (height : Z) (check fSkipInvalid : bool) (outs : list CTxOut) (i : Z) (c : cache) : coins cache :=
  match outs with
  | [] => Ok c
  | o :: outs =>
      let op := OutPoint txid (u32 i) in
      c ← (if fSkipInvalid && bool_decide (op ∈ setInvalidOutPoints) then Ok (SpendCoin op c).2
           else
             let '(overwrite, c) := if check then HaveCoin op c else (false, c) in
             AddCoin op (MkCoin fCoinbase fCoinstake o (u32 height)) overwrite c);
      add_coins_loop setInvalidOutPoints txid fCoinbase fCoinstake height check fSkipInvalid outs (i + 1) c
  end.
Definition AddCoins (setInvalidOutPoints : gset COutPoint) (c : cache) (tx : CTransaction) (height : Z)
    (check fSkipInvalid : bool) : coins cache :=
  add_coins_loop setInvalidOutPoints (GetHash tx) (IsCoinBase tx) (IsCoinStake tx) height check fSkipInvalid
    (vout tx) 0 c.

Fixpoint prune_loop (outs : list COutPoint) (c : cache) : cache :=
  match outs with
  | [] => c
  | o :: outs => let '(b, c) := HaveCoin o c in prune_loop outs (if b then (SpendCoin o c).2 else c)
  end.
Definition PruneInvalidEntries (setInvalidOutPoints : gset COutPoint) (c : cache) : coins (bool * cache) :=
  Flush (prune_loop (elements setInvalidOutPoints) c).

Definition MAX_OUTPUTS_PER_BLOCK : Z := MAX_BLOCK_SIZE_CURRENT / zlen (ser CTxOut_c CTxOut_new).
Fixpoint access_loop (fuel : nat) (iter : COutPoint) (c : cache) : Coin * cache :=
  match fuel with
  | O => (Coin_new, c)
  | S fuel =>
      let '(alternate, c) := AccessCoin iter c in
      if negb (IsSpent alternate) then (alternate, c)
      else access_loop fuel (OutPoint (out_hash iter) (out_n iter + 1)) c
  end.
Definition AccessByTxid (txid : uint256) (c : cache) : Coin * cache :=
  access_loop (Z.to_nat MAX_OUTPUTS_PER_BLOCK) (OutPoint txid 0) c.
End CacheOps.

#[export] Instance CCoinsViewCache_view {V} `{CCoinsView V} : CCoinsView (CCoinsViewCache V) := {|
  view_GetCoin := GetCoin;
  view_HaveCoin := HaveCoin;
  view_GetBestBlock := GetBestBlock;
  view_BatchWrite := BatchWrite;
  view_GetSaplingAnchorAt := GetSaplingAnchorAt;
  view_GetNullifier := GetNullifier;
  view_GetBestAnchor := GetBestAnchor;
|}.

(** ** What a view promises *)

(** The set of unspent outputs with what goes with it. *)
Record coin_set := CoinSet {
  utxo : COutPoint -> option Coin;
  best_block : uint256;
  anchor_known : uint256 -> bool;
  nullifier_spent : uint256 -> bool;
  best_anchor : uint256;
}.

#[export] Instance coin_set_equiv : Equiv coin_set := fun a b =>
  (forall o, utxo a o = utxo b o) /\ best_block a = best_block b /\
  (forall rt, anchor_known a rt = anchor_known b rt) /\
  (forall nf, nullifier_spent a nf = nullifier_spent b nf) /\ best_anchor a = best_anchor b.
#[export] Instance coin_set_equivalence : Equivalence (≡@{coin_set}).
Proof.
  split; [by intros []|intros ?? (?&?&?&?&?)|intros ??? (?&?&?&?&?) (?&?&?&?&?)]; split_and!; intros; congruence.
Qed.
#[export] Instance utxo_proper : Proper ((≡) ==> (=) ==> (=)) utxo.
Proof. intros ?? [H _] ? o ->. apply H. Qed.

Definition with_utxo (a : coin_set) (u : COutPoint -> option Coin) : coin_set :=
  CoinSet u (best_block a) (anchor_known a) (nullifier_spent a) (best_anchor a).

(** A spent coin is the same as no coin. *)
Definition unspent (r : option Coin) : option Coin :=
  match r with Some c => if IsSpent c then None else Some c | None => None end.

Definition outpoint_ok (o : COutPoint) : Prop := wire COutPoint_c o.
Definition hash_ok (h : uint256) : Prop := length h = 32%nat.
#[local] Instance hash_ok_dec h : Decision (hash_ok h) := decide_rel (=) _ _.

(** Which coins and trees the bottom of the stack can store, and the root of
    the empty tree, which is always known. *)
Context (storable : Coin -> Prop) (tree_ok : Tree -> Prop) (empty_root : uint256).

Definition coin_entry_ok (a : coin_set) (o : COutPoint) (e : CCoinsCacheEntry) : Prop :=
  outpoint_ok o /\
  (DIRTY e = true -> IsSpent (coin e) = false -> storable (coin e)) /\
  (FRESH e = true -> utxo a o = None).
Definition anchor_entry_ok (rt : uint256) (e : CAnchorsSaplingCacheEntry Tree) : Prop :=
  hash_ok rt /\ root (tree e) = rt /\ tree_ok (tree e) /\ (entered e = false -> rt ≠ empty_root).

(** The batches a view with the contents [a] may be given. *)
Definition batch_ok (b : batch) (a : coin_set) : Prop :=
  hash_ok (b_hashBlock b) /\ uint256_IsNull (b_hashBlock b) = false /\
  hash_ok (b_hashSaplingAnchor b) /\ uint256_IsNull (b_hashSaplingAnchor b) = false /\
  map_Forall (coin_entry_ok a) (mapCoins b) /\
  map_Forall anchor_entry_ok (mapSaplingAnchors b) /\
  map_Forall (fun nf _ => hash_ok nf) (mapSaplingNullifiers b).

(** What a batch makes of the contents [a]. *)
Definition apply_batch (b : batch) (a : coin_set) : coin_set := CoinSet
  (fun o => match mapCoins b !! o with
            | Some e => if DIRTY e then unspent (Some (coin e)) else utxo a o
            | None => utxo a o
            end)
  (b_hashBlock b)
  (fun rt => match mapSaplingAnchors b !! rt with
             | Some e => if an_DIRTY e then entered e else anchor_known a rt
             | None => anchor_known a rt
             end)
  (fun nf => match mapSaplingNullifiers b !! nf with
             | Some e => if nf_DIRTY e then nf_entered e else nullifier_spent a nf
             | None => nullifier_spent a nf
             end)
  (b_hashSaplingAnchor b).

(** The contents of a state, where its invariant holds. *)
Class CCoinsViewAbs (V : Type) := { inv : V -> Prop; abs : V -> coin_set }.

(** A step that fills a cache and changes nothing else. *)
Definition stays {V} `{CCoinsViewAbs V} (s s' : V) : Prop := inv s' /\ abs s' ≡ abs s.

Class CCoinsViewOk (V : Type) `{CCoinsView V} `{CCoinsViewAbs V} := {
  GetCoin_ok o s r s' : outpoint_ok o -> inv s -> view_GetCoin o s = (r, s') ->
    unspent r = utxo (abs s) o /\ stays s s';
  HaveCoin_ok o s r s' : outpoint_ok o -> inv s -> view_HaveCoin o s = (r, s') ->
    r = bool_decide (utxo (abs s) o ≠ None) /\ stays s s';
  GetBestBlock_ok s h s' : inv s -> view_GetBestBlock s = (h, s') -> h = best_block (abs s) /\ stays s s';
  GetSaplingAnchorAt_ok rt s r s' : hash_ok rt -> inv s -> view_GetSaplingAnchorAt rt s = (r, s') ->
    match r with
    | Some t => anchor_known (abs s) rt = true /\ root t = rt /\ tree_ok t
    | None => anchor_known (abs s) rt = false
    end /\ stays s s';
  GetNullifier_ok nf s r s' : hash_ok nf -> inv s -> view_GetNullifier nf s = (r, s') ->
    r = nullifier_spent (abs s) nf /\ stays s s';
  GetBestAnchor_ok s h s' : inv s -> view_GetBestAnchor s = (h, s') -> h = best_anchor (abs s) /\ stays s s';
  best_hashes_ok s : inv s -> hash_ok (best_block (abs s)) /\ hash_ok (best_anchor (abs s));
  empty_root_known s : inv s -> anchor_known (abs s) empty_root = true;
  BatchWrite_ok b s : inv s -> batch_ok b (abs s) ->
    exists s', view_BatchWrite b s = Ok (true, s') /\ inv s' /\ abs s' ≡ apply_batch b (abs s);
}.

(** ** The cache keeps the promise *)

Section CacheOk.
#[local] Arguments uint256_IsNull : simpl never.
Context {V : Type} `{CCoinsViewOk V}.
Notation cache := (CCoinsViewCache V).

(** An entry that is not dirty is the one below it. *)
Definition coin_cached (a : coin_set) (o : COutPoint) (e : CCoinsCacheEntry) : Prop :=
  coin_entry_ok a o e /\ (DIRTY e = false -> unspent (Some (coin e)) = utxo a o).
Definition anchor_cached (a : coin_set) (rt : uint256) (e : CAnchorsSaplingCacheEntry Tree) : Prop :=
  anchor_entry_ok rt e /\ (an_DIRTY e = false -> entered e = anchor_known a rt).
Definition nullifier_cached (a : coin_set) (nf : uint256) (e : CNullifiersCacheEntry) : Prop :=
  hash_ok nf /\ (nf_DIRTY e = false -> nf_entered e = nullifier_spent a nf).

Definition cache_inv (c : cache) : Prop :=
  inv (base c) /\ hash_ok (hashBlock c) /\ hash_ok (hashSaplingAnchor c) /\
  map_Forall (coin_cached (abs (base c))) (cacheCoins c) /\
  map_Forall (anchor_cached (abs (base c))) (cacheSaplingAnchors c) /\
  map_Forall (nullifier_cached (abs (base c))) (cacheSaplingNullifiers c).

Definition cache_abs (c : cache) : coin_set := CoinSet
  (fun o => match cacheCoins c !! o with Some e => unspent (Some (coin e)) | None => utxo (abs (base c)) o end)
  (if uint256_IsNull (hashBlock c) then best_block (abs (base c)) else hashBlock c)
  (fun rt => match cacheSaplingAnchors c !! rt with Some e => entered e | None => anchor_known (abs (base c)) rt end)
  (fun nf => match cacheSaplingNullifiers c !! nf with
             | Some e => nf_entered e | None => nullifier_spent (abs (base c)) nf end)
  (if uint256_IsNull (hashSaplingAnchor c) then best_anchor (abs (base c)) else hashSaplingAnchor c).

#[export] Instance CCoinsViewCache_abs : CCoinsViewAbs cache := { inv := cache_inv; abs := cache_abs }.

Lemma stays_refl (s : V) : inv s -> stays s s.
Proof. by split. Qed.

Lemma map_Forall_lookup_None {A} (P : uint256 -> A -> Prop) (m : gmap (list Z) A) i :
  m !! i = None -> map_Forall P (delete i m) <-> map_Forall P m.
Proof. intros Hi. by rewrite delete_id. Qed.

(** What is below may change as long as it holds the same set. *)
Lemma stays_with_base (c : cache) (s : V) : inv c -> stays (base c) s -> stays c (with_base c s).
Proof.
  intros (Hb & Hh & Ha & Hc & Ht & Hn) [Hs (Eu & Eb & Ek & En & Ea)]. split.
  - split_and!; try done; cbn [base cacheCoins cacheSaplingAnchors cacheSaplingNullifiers with_base].
    + intros o e Hl. destruct (Hc o e Hl) as ((?&?&?)&?). unfold coin_cached, coin_entry_ok. by rewrite Eu.
    + intros rt e Hl. destruct (Ht rt e Hl) as (?&?). split; [done|]. rewrite Ek. done.
    + intros nf e Hl. destruct (Hn nf e Hl) as (?&?). split; [done|]. rewrite En. done.
  - split_and!; cbn; intros; rewrite ?Eb, ?Ea; try done.
    + by destruct (cacheCoins c !! o).
    + by destruct (cacheSaplingAnchors c !! rt).
    + by destruct (cacheSaplingNullifiers c !! nf).
Qed.

(** Putting an entry, or dropping one that is spent and was not below. *)
Lemma insert_coin (c : cache) o e :
  inv c -> coin_cached (abs (base c)) o e ->
  inv (with_coins c (<[o := e]> (cacheCoins c))) /\
  abs (with_coins c (<[o := e]> (cacheCoins c))) ≡ with_utxo (abs c) (<[o := unspent (Some (coin e))]> (utxo (abs c))).
Proof.
  intros (Hb & Hh & Ha & Hc & Ht & Hn) He. split.
  - split_and!; try done. cbn [base cacheCoins with_coins]. by apply map_Forall_insert_2.
  - split_and!; try done. intros o'. cbn. unfold insert at 2, fn_insert.
    destruct (decide (o = o')) as [<-|]; [by rewrite lookup_insert_eq|by rewrite lookup_insert_ne].
Qed.

Lemma delete_coin (c : cache) o e :
  inv c -> cacheCoins c !! o = Some e -> FRESH e = true ->
  inv (with_coins c (delete o (cacheCoins c))) /\
  abs (with_coins c (delete o (cacheCoins c))) ≡ with_utxo (abs c) (<[o := None]> (utxo (abs c))).
Proof.
  intros (Hb & Hh & Ha & Hc & Ht & Hn) Hl Hf. destruct (Hc o e Hl) as ((_ & _ & Hfresh) & _). split.
  - split_and!; try done. cbn [base cacheCoins with_coins]. by apply map_Forall_delete.
  - split_and!; try done. intros o'. cbn. unfold insert, fn_insert.
    destruct (decide (o = o')) as [<-|]; [rewrite lookup_delete_eq; auto|by rewrite lookup_delete_ne].
Qed.

Lemma FetchCoin_ok o (c : cache) it c' :
  outpoint_ok o -> inv c -> FetchCoin o c = (it, c') ->
  stays c c' /\ cacheCoins c' !! o = it /\ unspent (coin <$> it) = utxo (abs c) o.
Proof.
  intros Ho Hi. pose proof Hi as (Hb & _ & _ & Hc & _). unfold FetchCoin.
  destruct (cacheCoins c !! o) as [e|] eqn:Hl.
  { intros [= <- <-]. split; [by split|]. split; [done|]. cbn. by rewrite Hl. }
  destruct (view_GetCoin o (base c)) as [r s] eqn:Hr.
  destruct (GetCoin_ok o (base c) r s Ho Hb Hr) as [Hu Hs].
  destruct (stays_with_base c s Hi Hs) as [Hi' Ea]. cbn [utxo abs CCoinsViewCache_abs cache_abs].
  destruct r as [tmp|]; intros [= <- <-].
  2:{ split; [done|]. split; [done|]. by rewrite Hl. }
  set (e := CacheEntry tmp false (IsSpent tmp)).
  assert (coin_cached (abs s) o e) as He.
  { destruct Hs as [_ (Eu & _)]. unfold coin_cached, coin_entry_ok. split_and!; [done|done| |]; cbn [FRESH DIRTY coin e].
    - intros Hf. rewrite Eu, <- Hu. cbn in *. by rewrite Hf.
    - intros _. by rewrite Eu, <- Hu. }
  destruct (insert_coin (with_base c s) o e Hi' He) as [Hi2 Ea2].
  split; [split; [done|]|split].
  - rewrite Ea2. etransitivity; [|exact Ea]. split_and!; try done. intros o'. cbn [utxo with_utxo].
    unfold insert, fn_insert. destruct (decide (o = o')) as [<-|]; [|done].
    cbn [coin e]. rewrite Hu. cbn. rewrite Hl. symmetry. apply Hs.
  - cbn. by rewrite lookup_insert_eq.
  - cbn. rewrite Hl. by rewrite <- Hu.
Qed.

(** *** Reading *)

Lemma cache_GetCoin_ok o (c : cache) r c' :
  outpoint_ok o -> inv c -> GetCoin o c = (r, c') -> unspent r = utxo (abs c) o /\ stays c c'.
Proof.
  intros Ho Hi. unfold GetCoin. destruct (FetchCoin o c) as [it c1] eqn:E. intros [= <- <-].
  by destruct (FetchCoin_ok o c it c1 Ho Hi E) as (? & ? & ?).
Qed.

Lemma unspent_None co : unspent (Some co) = None <-> IsSpent co = true.
Proof. cbn. by destruct (IsSpent co). Qed.
Lemma unspent_default r : unspent (Some (default Coin_new r)) = unspent r.
Proof. by destruct r. Qed.

Lemma AccessCoin_ok o (c : cache) co c' :
  outpoint_ok o -> inv c -> AccessCoin o c = (co, c') -> unspent (Some co) = utxo (abs c) o /\ stays c c'.
Proof.
  intros Ho Hi. unfold AccessCoin. destruct (FetchCoin o c) as [it c1] eqn:E. intros [= <- <-].
  destruct (FetchCoin_ok o c it c1 Ho Hi E) as (? & ? & ?). by rewrite unspent_default.
Qed.

Lemma cache_HaveCoin_ok o (c : cache) r c' :
  outpoint_ok o -> inv c -> HaveCoin o c = (r, c') -> r = bool_decide (utxo (abs c) o ≠ None) /\ stays c c'.
Proof.
  intros Ho Hi. unfold HaveCoin. destruct (FetchCoin o c) as [it c1] eqn:E. intros [= <- <-].
  destruct (FetchCoin_ok o c it c1 Ho Hi E) as (? & _ & <-). split; [|done].
  destruct it as [e|]; [|done]. cbn. by destruct (IsSpent (coin e)).
Qed.

Lemma cache_GetBestBlock_ok (c : cache) h c' :
  inv c -> GetBestBlock c = (h, c') -> h = best_block (abs c) /\ stays c c'.
Proof.
  intros Hi. pose proof Hi as (Hb & _). unfold GetBestBlock. destruct (uint256_IsNull (hashBlock c)) eqn:E.
  - destruct (view_GetBestBlock (base c)) as [h' s] eqn:Hv. destruct (GetBestBlock_ok _ _ _ Hb Hv) as [-> Hs].
    destruct (stays_with_base c s Hi Hs) as [(Hi1 & Hi2 & Hi3 & Hi4 & Hi5 & Hi6) (E1 & E2 & E3 & E4 & E5)].
    intros [= <- <-]. split; [cbn; by rewrite E|]. split.
    + split_and!; try done. by apply best_hashes_ok.
    + split_and!; try done. cbn in *. rewrite E in *. rewrite E2.
      by destruct (uint256_IsNull (best_block _)).
  - intros [= <- <-]. split; [cbn; by rewrite E|by split].
Qed.

Lemma cache_GetBestAnchor_ok (c : cache) h c' :
  inv c -> GetBestAnchor c = (h, c') ->
  h = best_anchor (abs c) /\ stays c c' /\ hash_ok h /\ cacheSaplingAnchors c' = cacheSaplingAnchors c.
Proof.
  intros Hi. pose proof Hi as (Hb & _ & Hha & _). unfold GetBestAnchor. destruct (uint256_IsNull (hashSaplingAnchor c)) eqn:E.
  - destruct (view_GetBestAnchor (base c)) as [h' s] eqn:Hv. destruct (GetBestAnchor_ok _ _ _ Hb Hv) as [-> Hs].
    destruct (stays_with_base c s Hi Hs) as [(Hi1 & Hi2 & Hi3 & Hi4 & Hi5 & Hi6) (E1 & E2 & E3 & E4 & E5)].
    destruct (best_hashes_ok _ Hb) as [_ Hok].
    intros [= <- <-]. split; [cbn; by rewrite E|]. split; [|done]. split.
    + by split_and!.
    + split_and!; try done. cbn in *. rewrite E in *. rewrite E5.
      by destruct (uint256_IsNull (best_anchor _)).
  - intros [= <- <-]. split; [cbn; by rewrite E|by split_and!].
Qed.

(** *** Anchors and nullifiers *)

Lemma insert_anchor (c : cache) h rt e :
  inv c -> anchor_cached (abs (base c)) rt e -> hash_ok h ->
  inv (with_anchors c h (<[rt := e]> (cacheSaplingAnchors c))) /\
  abs (with_anchors c h (<[rt := e]> (cacheSaplingAnchors c))) ≡
    CoinSet (utxo (abs c)) (best_block (abs c)) (<[rt := entered e]> (anchor_known (abs c)))
      (nullifier_spent (abs c)) (if uint256_IsNull h then best_anchor (abs (base c)) else h).
Proof.
  intros (Hb & Hh & Ha & Hc & Ht & Hn) He Hok. split.
  - split_and!; try done. cbn [base cacheSaplingAnchors with_anchors]. by apply map_Forall_insert_2.
  - split_and!; try done. intros rt'. cbn. unfold insert at 2, fn_insert.
    destruct (decide (rt = rt')) as [<-|]; [by rewrite lookup_insert_eq|by rewrite lookup_insert_ne].
Qed.

Lemma cache_GetSaplingAnchorAt_ok rt (c : cache) r c' :
  hash_ok rt -> inv c -> GetSaplingAnchorAt rt c = (r, c') ->
  match r with
  | Some t => anchor_known (abs c) rt = true /\ root t = rt /\ tree_ok t /\
              exists e, cacheSaplingAnchors c' !! rt = Some e /\ tree e = t
  | None => anchor_known (abs c) rt = false
  end /\ stays c c'.
Proof.
  intros Hrt Hi. pose proof Hi as (Hb & _ & Hha & _ & Ht & _). unfold GetSaplingAnchorAt.
  destruct (cacheSaplingAnchors c !! rt) as [e|] eqn:Hl.
  { destruct (Ht rt e Hl) as ((? & ? & ? & ?) & _). intros [= <- <-]. split; [|by split].
    cbn. rewrite Hl. destruct (entered e); [by split_and!; eauto|done]. }
  destruct (view_GetSaplingAnchorAt rt (base c)) as [r0 s] eqn:Hr.
  destruct (GetSaplingAnchorAt_ok rt (base c) r0 s Hrt Hb Hr) as [Hu Hs].
  destruct (stays_with_base c s Hi Hs) as [Hi' Ea].
  destruct r0 as [t|]; intros [= <- <-]; [|cbn; by rewrite Hl].
  destruct Hu as (Hk & Hroot & Htok).
  assert (anchor_cached (abs s) rt (AnchorEntry true t false)) as He.
  { split; [by split_and!|]. intros _. destruct Hs as [_ (_ & _ & Ek & _)]. by rewrite Ek, Hk. }
  destruct (insert_anchor (with_base c s) (hashSaplingAnchor c) rt _ Hi' He Hha) as [Hi2 Ea2].
  cbn [anchor_known abs CCoinsViewCache_abs cache_abs]. rewrite Hl. split.
  { split_and!; try done. exists (AnchorEntry true t false). cbn. by rewrite lookup_insert_eq. }
  split; [done|]. rewrite Ea2. etransitivity; [|exact Ea]. split_and!; try done.
  intros rt'. cbn. unfold insert, fn_insert. destruct (decide (rt = rt')) as [<-|]; [|done].
  rewrite Hl. destruct Hs as [_ (_ & _ & Ek & _)]. by rewrite Ek, Hk.
Qed.

Lemma insert_nullifier (c : cache) nf e :
  inv c -> nullifier_cached (abs (base c)) nf e ->
  inv (with_nullifiers c (<[nf := e]> (cacheSaplingNullifiers c))) /\
  abs (with_nullifiers c (<[nf := e]> (cacheSaplingNullifiers c))) ≡
    CoinSet (utxo (abs c)) (best_block (abs c)) (anchor_known (abs c))
      (<[nf := nf_entered e]> (nullifier_spent (abs c))) (best_anchor (abs c)).
Proof.
  intros (Hb & Hh & Ha & Hc & Ht & Hn) He. split.
  - split_and!; try done. cbn [base cacheSaplingNullifiers with_nullifiers]. by apply map_Forall_insert_2.
  - split_and!; try done. intros nf'. cbn. unfold insert at 2, fn_insert.
    destruct (decide (nf = nf')) as [<-|]; [by rewrite lookup_insert_eq|by rewrite lookup_insert_ne].
Qed.

Lemma cache_GetNullifier_ok nf (c : cache) r c' :
  hash_ok nf -> inv c -> GetNullifier nf c = (r, c') -> r = nullifier_spent (abs c) nf /\ stays c c'.
Proof.
  intros Hnf Hi. pose proof Hi as (Hb & _). unfold GetNullifier.
  destruct (cacheSaplingNullifiers c !! nf) as [e|] eqn:Hl.
  { intros [= <- <-]. split; [cbn; by rewrite Hl|by split]. }
  destruct (view_GetNullifier nf (base c)) as [tmp s] eqn:Hr.
  destruct (GetNullifier_ok nf (base c) tmp s Hnf Hb Hr) as [Hu Hs].
  destruct (stays_with_base c s Hi Hs) as [Hi' Ea]. intros [= <- <-].
  destruct Hs as [_ (_ & _ & _ & En & _)].
  assert (nullifier_cached (abs s) nf (NullifierEntry tmp false)) as He by (split; [done|]; intros _; by rewrite En, Hu).
  destruct (insert_nullifier (with_base c s) nf _ Hi' He) as [Hi2 Ea2].
  split; [cbn; by rewrite Hl|]. split; [done|]. rewrite Ea2. etransitivity; [|exact Ea]. split_and!; try done.
  intros nf'. cbn. unfold insert, fn_insert. destruct (decide (nf = nf')) as [<-|]; [|done].
  by rewrite Hl, En, Hu.
Qed.

(** *** Changing coins *)

Lemma AddCoin_ok o new po (c : cache) :
  outpoint_ok o -> inv c -> IsSpent new = false -> IsUnspendable (scriptPubKey (out new)) = false ->
  CTxOut_IsZerocoinMint (out new) = false -> storable new -> (po = false -> utxo (abs c) o = None) ->
  exists c', AddCoin o new po c = Ok c' /\ inv c' /\ abs c' ≡ with_utxo (abs c) (<[o := Some new]> (utxo (abs c))).
Proof.
  intros Ho Hi Hsp Hun Hz Hst Hpo. pose proof Hi as (_ & _ & _ & Hc & _). unfold AddCoin. rewrite Hsp, Hun, Hz.
  cbn [negb cassert mbind outcome_bind].
  set (it := default (CacheEntry Coin_new false false) (cacheCoins c !! o)).
  assert (po = false -> IsSpent (coin it) = true /\ (DIRTY it = false -> utxo (abs (base c)) o = None)) as Hit.
  { intros Hf. specialize (Hpo Hf). cbn in Hpo. unfold it. destruct (cacheCoins c !! o) as [e|] eqn:Hl; cbn; [|done].
    destruct (Hc o e Hl) as [_ Hclean]. change (unspent (Some (coin e)) = None) in Hpo.
    rewrite unspent_None in Hpo. split; [done|]. intros Hd. rewrite <- (Hclean Hd). by apply unspent_None. }
  replace (negb po && negb (IsSpent (coin it))) with false
    by (destruct po; [done|]; by destruct (Hit eq_refl) as [-> _]).
  set (e := CacheEntry new true (FRESH it || negb po && negb (DIRTY it))).
  assert (coin_cached (abs (base c)) o e) as He.
  { unfold coin_cached, coin_entry_ok. split_and!; [done|done| |done]. cbn [e FRESH]. intros Hf.
    apply orb_true_iff in Hf as [Hf|Hf].
    - unfold it in Hf. destruct (cacheCoins c !! o) as [e0|] eqn:Hl; [|done]. by destruct (Hc o e0 Hl) as ((_ & _ & ?) & _); auto.
    - apply andb_true_iff in Hf as [Hp Hd]. apply negb_true_iff in Hp, Hd. by destruct (Hit Hp) as [_ ?]; auto. }
  destruct (insert_coin c o e Hi He) as [Hi' Ea]. eexists. split; [reflexivity|]. split; [done|].
  rewrite Ea. cbn [coin e unspent]. by rewrite Hsp.
Qed.

Lemma SpendCoin_ok o (c : cache) r c' :
  outpoint_ok o -> inv c -> SpendCoin o c = (r, c') ->
  unspent r = utxo (abs c) o /\ inv c' /\ abs c' ≡ with_utxo (abs c) (<[o := None]> (utxo (abs c))).
Proof.
  intros Ho Hi. unfold SpendCoin. destruct (FetchCoin o c) as [it c1] eqn:E.
  destruct (FetchCoin_ok o c it c1 Ho Hi E) as ([Hi1 E1] & Hl & Hu).
  assert (forall x, with_utxo (abs c1) (<[o := x]> (utxo (abs c1))) ≡ with_utxo (abs c) (<[o := x]> (utxo (abs c)))) as Ex.
  { intros x. destruct E1 as (Eu & ?&?&?&?). split_and!; try done. intros o'. cbn [utxo with_utxo].
    unfold insert, fn_insert. by destruct (decide (o = o')). }
  destruct it as [e|]; intros [= <- <-].
  - split; [done|]. destruct (FRESH e) eqn:Hf.
    + destruct (delete_coin c1 o e Hi1 Hl Hf) as [? Ea]. split; [done|]. by rewrite Ea, Ex.
    + assert (coin_cached (abs (base c1)) o (CacheEntry (Clear (coin e)) true false)) as He
        by (unfold coin_cached, coin_entry_ok; split_and!; done).
      destruct (insert_coin c1 o _ Hi1 He) as [? Ea]. split; [done|]. by rewrite Ea, Ex.
  - split; [done|]. split; [done|]. rewrite E1. split_and!; try done. intros o'. cbn [utxo with_utxo].
    unfold insert, fn_insert. destruct (decide (o = o')) as [<-|]; [by rewrite <- Hu|done].
Qed.

Lemma Uncache_ok o (c : cache) : inv c -> stays c (Uncache o c).
Proof.
  intros Hi. pose proof Hi as (Hb & Hh & Ha & Hc & Ht & Hn). unfold Uncache.
  destruct (cacheCoins c !! o) as [e|] eqn:Hl; [|by split].
  destruct (negb (DIRTY e) && negb (FRESH e)) eqn:Hd; [|by split].
  apply andb_true_iff in Hd as [Hd _]. apply negb_true_iff in Hd. destruct (Hc o e Hl) as [_ Hclean]. split.
  - split_and!; try done. cbn [base cacheCoins with_coins]. by apply map_Forall_delete.
  - split_and!; try done. intros o'. cbn. destruct (decide (o = o')) as [<-|].
    + rewrite lookup_delete_eq, Hl. symmetry. by apply Hclean.
    + by rewrite lookup_delete_ne.
Qed.

(** *** Writing a batch *)

Definition layer (a : coin_set) (us : CCoinsMap) (o : COutPoint) : option Coin :=
  match us !! o with Some e => unspent (Some (coin e)) | None => utxo a o end.

Lemma write_coin_ok (a : coin_set) us o it :
  map_Forall (coin_cached a) us -> coin_entry_ok (with_utxo a (layer a us)) o it ->
  exists us', write_coin us o it = Ok us' /\ map_Forall (coin_cached a) us' /\
    layer a us' o = (if DIRTY it then unspent (Some (coin it)) else layer a us o) /\
    (forall o', o ≠ o' -> layer a us' o' = layer a us o').
Proof.
  intros Hc (Ho & Hst & Hf). unfold write_coin. destruct (DIRTY it) eqn:Hd; cbn [negb]; [|by exists us].
  specialize (Hst eq_refl). cbn [utxo with_utxo] in Hf.
  assert (forall f, (f = true -> utxo a o = None) ->
    exists us', Ok (E := unit) (<[o := CacheEntry (coin it) true f]> us) = Ok us' /\ map_Forall (coin_cached a) us' /\
      layer a us' o = unspent (Some (coin it)) /\ (forall o', o ≠ o' -> layer a us' o' = layer a us o')) as Hput.
  { intros f Hff. eexists. split; [reflexivity|]. split; [|split].
    - apply map_Forall_insert_2; [|done]. unfold coin_cached, coin_entry_ok. by split_and!.
    - unfold layer. by rewrite lookup_insert_eq.
    - intros o' Hne. unfold layer. by rewrite lookup_insert_ne. }
  destruct (us !! o) as [itUs|] eqn:Hl.
  - assert (layer a us o = unspent (Some (coin itUs))) as Hlay by (unfold layer; by rewrite Hl).
    rewrite Hlay in Hf. destruct (Hc o itUs Hl) as ((_ & _ & Hus) & _).
    replace (FRESH it && negb (IsSpent (coin itUs))) with false
      by (destruct (FRESH it); [|done]; by rewrite (proj1 (unspent_None _) (Hf eq_refl))).
    destruct (FRESH itUs && IsSpent (coin it)) eqn:Hdel; [|by apply Hput].
    apply andb_true_iff in Hdel as [Hfu Hsp]. eexists. split; [reflexivity|]. split; [by apply map_Forall_delete|split].
    + unfold layer. rewrite lookup_delete_eq, Hus by done. cbn. by rewrite Hsp.
    + intros o' Hne. unfold layer. by rewrite lookup_delete_ne.
  - assert (layer a us o = utxo a o) as Hlay by (unfold layer; by rewrite Hl). rewrite Hlay in Hf.
    destruct (FRESH it && IsSpent (coin it)) eqn:Hign; [|by apply Hput].
    apply andb_true_iff in Hign as [Hfi Hsp]. exists us. split_and!; try done.
    rewrite Hlay, Hf by done. cbn. by rewrite Hsp.
Qed.

(** The order of the entries does not matter: each key comes once. *)
Lemma write_coins_ok (a : coin_set) l : forall us,
  NoDup l.*1 -> map_Forall (coin_cached a) us -> Forall (uncurry (coin_entry_ok (with_utxo a (layer a us)))) l ->
  exists us', write_coins l us = Ok us' /\ map_Forall (coin_cached a) us' /\
    forall o, layer a us' o = match (list_to_map l : CCoinsMap) !! o with
                              | Some e => if DIRTY e then unspent (Some (coin e)) else layer a us o
                              | None => layer a us o
                              end.
Proof.
  induction l as [|[o it] l IH]; intros us Hnd Hc Hl; [exists us; by split_and!|].
  apply NoDup_cons in Hnd as [Hnin Hnd]. apply Forall_cons in Hl as [Hit Hl].
  destruct (write_coin_ok a us o it Hc Hit) as (us1 & Hw & Hc1 & Hlay & Hother).
  cbn [write_coins]. rewrite Hw. cbn [mbind outcome_bind].
  destruct (IH us1) as (us' & -> & Hc' & Hlay'); [done|done| |].
  { apply Forall_forall. intros [o' e] Hin. rewrite Forall_forall in Hl. destruct (Hl _ Hin) as (? & ? & Hf).
    assert (o ≠ o') as Hne by (intros ->; apply Hnin, list_elem_of_fmap; by exists (o', e)).
    split_and!; try done. intros Hfr. cbn in *. rewrite Hother by done. auto. }
  exists us'. split_and!; try done. intros o'. rewrite Hlay'. cbn [list_to_map foldr uncurry fst snd].
  destruct (decide (o = o')) as [<-|Hne].
  - rewrite lookup_insert_eq, (not_elem_of_list_to_map_1 l o) by done. exact Hlay.
  - rewrite lookup_insert_ne by done. by rewrite Hother.
Qed.

(** The maps of anchors and nullifiers are written by a fold of this kind. *)
Lemma fold_layer {E M} (P : M -> Prop) (Q : uint256 -> E -> Prop) (step : M -> uint256 -> E -> M)
    (get : M -> uint256 -> bool) (dirty new : E -> bool) :
  (forall m k e, P m -> Q k e -> P (step m k e) /\
     forall k', get (step m k e) k' = if dirty e && bool_decide (k = k') then new e else get m k') ->
  forall (l : list (uint256 * E)) m, NoDup l.*1 -> P m -> Forall (uncurry Q) l ->
  let m' := fold_left (fun m p => step m p.1 p.2) l m in
  P m' /\ forall k, get m' k = match (list_to_map l : gmap (list Z) E) !! k with
                              | Some e => if dirty e then new e else get m k
                              | None => get m k
                              end.
Proof.
  intros Hstep. induction l as [|[k e] l IH]; intros m Hnd HP Hl; [done|].
  apply NoDup_cons in Hnd as [Hnin Hnd]. apply Forall_cons in Hl as [HQ Hl].
  destruct (Hstep m k e HP HQ) as [HP1 Hget]. cbn [fold_left fst snd].
  destruct (IH (step m k e) Hnd HP1 Hl) as [HP' Hg]. split; [done|]. intros k'. rewrite Hg, Hget.
  cbn [list_to_map foldr uncurry fst snd]. destruct (decide (k = k')) as [<-|Hne].
  - rewrite lookup_insert_eq, (not_elem_of_list_to_map_1 l k) by done. rewrite bool_decide_eq_true_2 by done.
    by rewrite andb_true_r.
  - rewrite lookup_insert_ne by done. rewrite bool_decide_eq_false_2 by done. by rewrite andb_false_r.
Qed.

Lemma BatchWriteAnchors_ok (a : coin_set) (us m : CAnchorsSaplingMap Tree) :
  map_Forall (anchor_cached a) us -> map_Forall anchor_entry_ok m ->
  let us' := BatchWriteAnchors (map_to_list m) us in
  map_Forall (anchor_cached a) us' /\
  forall rt, match us' !! rt with Some e => entered e | None => anchor_known a rt end
    = match m !! rt with
      | Some e => if an_DIRTY e then entered e
                  else match us !! rt with Some e => entered e | None => anchor_known a rt end
      | None => match us !! rt with Some e => entered e | None => anchor_known a rt end
      end.
Proof.
  intros Hus Hm.
  assert (forall m k e, map_Forall (anchor_cached a) m -> anchor_entry_ok k e ->
    map_Forall (anchor_cached a) (write_anchor m k e) /\
    forall k', match write_anchor m k e !! k' with Some e => entered e | None => anchor_known a k' end
      = if an_DIRTY e && bool_decide (k = k') then entered e
        else match m !! k' with Some e => entered e | None => anchor_known a k' end) as Hstep.
  { clear. intros m k e Hm (Hk & Hroot & Hok & He). unfold write_anchor.
    destruct (an_DIRTY e); cbn [negb andb]; [|done].
    assert (forall t, root t = k -> tree_ok t ->
      map_Forall (anchor_cached a) (<[k := AnchorEntry (entered e) t true]> m) /\
      forall k', match <[k := AnchorEntry (entered e) t true]> m !! k' with
                 | Some e => entered e | None => anchor_known a k' end
        = if bool_decide (k = k') then entered e
          else match m !! k' with Some e => entered e | None => anchor_known a k' end) as Hput.
    { intros t Ht Htok. split; [apply map_Forall_insert_2; [|done]; unfold anchor_cached, anchor_entry_ok; by split_and!|].
      intros k'. case_bool_decide; [subst; by rewrite lookup_insert_eq|by rewrite lookup_insert_ne]. }
    destruct (m !! k) as [p|] eqn:Hl; [|by apply Hput].
    destruct (Hm k p Hl) as ((_ & Hrp & Hokp & _) & _).
    case_bool_decide as Heq; [|by apply Hput]. split; [done|]. intros k'. case_bool_decide; [subst|done].
    by rewrite Hl. }
  pose proof (fold_layer (map_Forall (anchor_cached a)) anchor_entry_ok write_anchor
    (fun m k => match m !! k with Some e => entered e | None => anchor_known a k end) an_DIRTY entered Hstep
    (map_to_list m) us (NoDup_fst_map_to_list m) Hus) as Hfold.
  rewrite list_to_map_to_list in Hfold. apply Hfold. by rewrite <- map_Forall_to_list.
Qed.

Lemma BatchWriteNullifiers_ok (a : coin_set) (us m : CNullifiersMap) :
  map_Forall (nullifier_cached a) us -> map_Forall (fun nf _ => hash_ok nf) m ->
  let us' := BatchWriteNullifiers (map_to_list m) us in
  map_Forall (nullifier_cached a) us' /\
  forall nf, match us' !! nf with Some e => nf_entered e | None => nullifier_spent a nf end
    = match m !! nf with
      | Some e => if nf_DIRTY e then nf_entered e
                  else match us !! nf with Some e => nf_entered e | None => nullifier_spent a nf end
      | None => match us !! nf with Some e => nf_entered e | None => nullifier_spent a nf end
      end.
Proof.
  intros Hus Hm.
  assert (forall m k e, map_Forall (nullifier_cached a) m -> hash_ok k ->
    map_Forall (nullifier_cached a) (write_nullifier m k e) /\
    forall k', match write_nullifier m k e !! k' with Some e => nf_entered e | None => nullifier_spent a k' end
      = if nf_DIRTY e && bool_decide (k = k') then nf_entered e
        else match m !! k' with Some e => nf_entered e | None => nullifier_spent a k' end) as Hstep.
  { clear. intros m k e Hm Hk. unfold write_nullifier. destruct (nf_DIRTY e); cbn [negb andb]; [|done].
    assert (map_Forall (nullifier_cached a) (<[k := NullifierEntry (nf_entered e) true]> m) /\
      forall k', match <[k := NullifierEntry (nf_entered e) true]> m !! k' with
                 | Some e => nf_entered e | None => nullifier_spent a k' end
        = if bool_decide (k = k') then nf_entered e
          else match m !! k' with Some e => nf_entered e | None => nullifier_spent a k' end) as Hput.
    { split; [by apply map_Forall_insert_2|].
      intros k'. case_bool_decide; [subst; by rewrite lookup_insert_eq|by rewrite lookup_insert_ne]. }
    destruct (m !! k) as [p|] eqn:Hl; [|by apply Hput].
    case_bool_decide as Heq; [|by apply Hput]. split; [done|]. intros k'. case_bool_decide; [subst|done].
    by rewrite Hl. }
  pose proof (fold_layer (map_Forall (nullifier_cached a)) (fun nf _ => hash_ok nf) write_nullifier
    (fun m k => match m !! k with Some e => nf_entered e | None => nullifier_spent a k end) nf_DIRTY nf_entered Hstep
    (map_to_list m) us (NoDup_fst_map_to_list m) Hus) as Hfold.
  rewrite list_to_map_to_list in Hfold. apply Hfold. by rewrite <- map_Forall_to_list.
Qed.

Lemma cache_BatchWrite_ok b (c : cache) :
  inv c -> batch_ok b (abs c) ->
  exists c', BatchWrite b c = Ok (true, c') /\ inv c' /\ abs c' ≡ apply_batch b (abs c).
Proof.
  intros (Hb & Hh & Ha & Hc & Ht & Hn) (Hbh & Hbn & Hah & Han & Hbc & Hbt & Hbnf). unfold BatchWrite.
  destruct (write_coins_ok (abs (base c)) (map_to_list (mapCoins b)) (cacheCoins c)) as (us & Hw & Hus & Hlay);
    [apply NoDup_fst_map_to_list|done|by apply map_Forall_to_list|].
  rewrite Hw. cbn [mbind outcome_bind]. rewrite list_to_map_to_list in Hlay.
  destruct (BatchWriteAnchors_ok (abs (base c)) (cacheSaplingAnchors c) (mapSaplingAnchors b) Ht Hbt) as [Ht' Hlt].
  destruct (BatchWriteNullifiers_ok (abs (base c)) (cacheSaplingNullifiers c) (mapSaplingNullifiers b) Hn Hbnf) as [Hn' Hln].
  eexists. split; [reflexivity|]. split; [by split_and!|].
  split_and!; [exact Hlay| |exact Hlt|exact Hln|]; cbn; by rewrite ?Hbn, ?Han.
Qed.

#[export] Instance CCoinsViewCache_ok : CCoinsViewOk cache.
Proof.
  split.
  - intros. by apply cache_GetCoin_ok.
  - intros. by apply cache_HaveCoin_ok.
  - intros. by apply cache_GetBestBlock_ok.
  - intros rt c r c' Hrt Hi Hr. destruct (cache_GetSaplingAnchorAt_ok rt c r c' Hrt Hi Hr) as [Hm Hs].
    split; [|done]. destruct r; [by destruct Hm as (? & ? & ? & _)|done].
  - intros. by apply cache_GetNullifier_ok.
  - intros c h c' Hi Hr. by destruct (cache_GetBestAnchor_ok c h c' Hi Hr) as (? & ? & _).
  - intros c (Hb & Hh & Ha & _). destruct (best_hashes_ok _ Hb). cbn.
    by destruct (uint256_IsNull (hashBlock c)), (uint256_IsNull (hashSaplingAnchor c)).
  - intros c (Hb & _ & _ & _ & Ht & _). cbn. destruct (cacheSaplingAnchors c !! empty_root) as [e|] eqn:Hl.
    + destruct (Ht _ e Hl) as ((_ & _ & _ & He) & _). destruct (entered e); [done|]. by exfalso; apply He.
    + by apply empty_root_known.
  - apply cache_BatchWrite_ok.
Qed.

(** *** Flushing *)

(** A cache over a view stands for its own entries written over the view. *)
Lemma cache_batch (c : cache) :
  inv c -> uint256_IsNull (hashBlock c) = false -> uint256_IsNull (hashSaplingAnchor c) = false ->
  let b := Batch (cacheCoins c) (hashBlock c) (hashSaplingAnchor c) (cacheSaplingAnchors c) (cacheSaplingNullifiers c) in
  batch_ok b (abs (base c)) /\ abs c ≡ apply_batch b (abs (base c)).
Proof.
  intros (Hb & Hh & Ha & Hc & Ht & Hn) Hnb Hna. cbn [mapCoins]. split.
  - split_and!; try done; cbn; eapply map_Forall_impl; eauto; by intros ? ? [? ?].
  - split_and!; cbn; rewrite ?Hnb, ?Hna; try done.
    + intros o. destruct (cacheCoins c !! o) as [e|] eqn:Hl; [|done].
      destruct (Hc o e Hl) as [_ Hd]. destruct (DIRTY e); [done|]. by apply Hd.
    + intros rt. destruct (cacheSaplingAnchors c !! rt) as [e|] eqn:Hl; [|done].
      destruct (Ht rt e Hl) as [_ Hd]. destruct (an_DIRTY e); [done|]. by apply Hd.
    + intros nf. destruct (cacheSaplingNullifiers c !! nf) as [e|] eqn:Hl; [|done].
      destruct (Hn nf e Hl) as [_ Hd]. destruct (nf_DIRTY e); [done|]. by apply Hd.
Qed.

Lemma Flush_ok (c : cache) :
  inv c -> uint256_IsNull (hashBlock c) = false -> uint256_IsNull (hashSaplingAnchor c) = false ->
  exists c', Flush c = Ok (true, c') /\ inv c' /\ cacheCoins c' = ∅ /\ abs c' ≡ abs c /\ abs (base c') ≡ abs c.
Proof.
  intros Hi Hnb Hna. destruct (cache_batch c Hi Hnb Hna) as [Hok Habs]. pose proof Hi as (Hb & Hh & Ha & _).
  destruct (BatchWrite_ok _ (base c) Hb Hok) as (s & Hw & Hs & Es). unfold Flush. rewrite Hw.
  cbn [mbind outcome_bind]. eexists. split; [reflexivity|]. split_and!; [|done| |by rewrite Es, Habs].
  - split_and!; try done; apply map_Forall_empty.
  - destruct Es as (E1 & E2 & E3 & E4 & E5), Habs as (A1 & A2 & A3 & A4 & A5).
    split_and!; [intros o; rewrite A1; apply E1|by cbn; rewrite Hnb| |intros nf; rewrite A4; apply E4|by cbn; rewrite Hna].
    intros rt; rewrite A3; apply E3.
Qed.

(** *** Anchors *)

Definition with_best_anchor (a : coin_set) (known : uint256 -> bool) (rt : uint256) : coin_set :=
  CoinSet (utxo a) (best_block a) known (nullifier_spent a) rt.

#[export] Instance with_best_anchor_proper a b rt : a ≡ b ->
  Proper (pointwise_relation _ (=) ==> (≡)) (fun k => with_best_anchor a k rt).
Proof. intros ?? ? Hk. by split_and!. Qed.

Lemma PushAnchor_ok (t : Tree) (c : cache) :
  inv c -> hash_ok (root t) -> tree_ok t -> uint256_IsNull (root t) = false ->
  anchor_known (abs c) (best_anchor (abs c)) = true ->
  inv (PushAnchor t c) /\
  abs (PushAnchor t c) ≡ with_best_anchor (abs c) (<[root t := true]> (anchor_known (abs c))) (root t).
Proof.
  intros Hi Hr Ht Hn Hk. unfold PushAnchor. destruct (GetBestAnchor c) as [h c1] eqn:E.
  destruct (cache_GetBestAnchor_ok c h c1 Hi E) as (-> & [Hi1 (E1 & E2 & E3 & E4 & E5)] & _ & _).
  case_bool_decide as Heq.
  - split; [done|]. split_and!; try done; [|exact (eq_trans E5 Heq)].
    intros rt. rewrite E3. cbn [anchor_known with_best_anchor]. unfold insert, fn_insert.
    destruct (decide (root t = rt)) as [<-|]; [by rewrite <- Heq|done].
  - assert (anchor_cached (abs (base c1)) (root t) (AnchorEntry true t true)) as He by (by split_and!).
    destruct (insert_anchor c1 (root t) (root t) _ Hi1 He Hr) as [Hi2 (A1 & A2 & A3 & A4 & A5)].
    split; [done|]. rewrite Hn in A5. split_and!.
    + intros o. exact (eq_trans (A1 o) (E1 o)).
    + exact (eq_trans A2 E2).
    + intros rt. rewrite A3. cbn. unfold insert, fn_insert. destruct (decide (root t = rt)); [done|apply E3].
    + intros nf. exact (eq_trans (A4 nf) (E4 nf)).
    + done.
Qed.

Lemma PopAnchor_ok (newrt : uint256) (c : cache) :
  inv c -> hash_ok newrt -> uint256_IsNull newrt = false ->
  let cur := best_anchor (abs c) in
  anchor_known (abs c) cur = true -> (cur ≠ newrt -> cur ≠ empty_root) ->
  exists c', PopAnchor newrt c = Ok c' /\ inv c' /\
    abs c' ≡ with_best_anchor (abs c)
               (if bool_decide (cur = newrt) then anchor_known (abs c) else <[cur := false]> (anchor_known (abs c))) newrt.
Proof.
  intros Hi Hr Hn cur Hk Hne. unfold PopAnchor. destruct (GetBestAnchor c) as [h c1] eqn:E.
  destruct (cache_GetBestAnchor_ok c h c1 Hi E) as (Eh & [Hi1 E1] & Hh & _). subst h. fold cur in Hh |- *.
  case_bool_decide as Heq.
  { exists c1. split; [done|]. split; [done|]. destruct E1 as (? & ? & ? & ? & E5). split_and!; try done.
    exact (eq_trans E5 Heq). }
  unfold BringBestAnchorIntoCache. destruct (GetSaplingAnchorAt cur c1) as [r c2] eqn:Eg.
  destruct (cache_GetSaplingAnchorAt_ok cur c1 r c2 Hh Hi1 Eg) as [Hm [Hi2 E2]].
  assert (abs c2 ≡ abs c) as (A1 & A2 & A3 & A4 & A5) by by rewrite E2.
  destruct r as [t|]; [|destruct E1 as (_ & _ & Ek & _); rewrite Ek, Hk in Hm; done].
  destruct Hm as (_ & Hroot & Htok & e & Hl & Het). cbn [mbind outcome_bind]. rewrite Hl. cbn [default from_option id].
  assert (anchor_cached (abs (base c2)) cur (AnchorEntry false (tree e) true)) as He
    by (split; [|done]; unfold anchor_entry_ok; cbn; rewrite Het; split_and!; auto).
  destruct (insert_anchor c2 newrt cur _ Hi2 He Hr) as [Hi3 (B1 & B2 & B3 & B4 & B5)].
  eexists. split; [reflexivity|]. split; [done|]. rewrite Hn in B5. split_and!.
  - intros o. exact (eq_trans (B1 o) (A1 o)).
  - exact (eq_trans B2 A2).
  - intros rt. rewrite B3. cbn [anchor_known with_best_anchor entered]. unfold insert, fn_insert.
    destruct (decide (cur = rt)); [done|apply A3].
  - intros nf. exact (eq_trans (B4 nf) (A4 nf)).
  - done.
Qed.

(** *** Nullifiers *)

Definition with_nullifier_spent (a : coin_set) (n : uint256 -> bool) : coin_set :=
  CoinSet (utxo a) (best_block a) (anchor_known a) n (best_anchor a).

Lemma set_nullifiers_ok spent sds : forall c : cache,
  inv c -> Forall (fun sd => hash_ok (nullifier sd)) sds ->
  let c' := with_nullifiers c (fold_left (fun m sd => <[nullifier sd := NullifierEntry spent true]> m) sds
              (cacheSaplingNullifiers c)) in
  inv c' /\ abs c' ≡ with_nullifier_spent (abs c)
    (fun nf => if bool_decide (nf ∈ map nullifier sds) then spent else nullifier_spent (abs c) nf).
Proof.
  induction sds as [|sd sds IH]; intros c Hi Hf.
  { cbn. destruct c. split; [exact Hi|]. by split_and!. }
  apply Forall_cons in Hf as [Hsd Hf].
  assert (nullifier_cached (abs (base c)) (nullifier sd) (NullifierEntry spent true)) as He by by split.
  destruct (insert_nullifier c (nullifier sd) _ Hi He) as [Hi1 (A1 & A2 & A3 & A4 & A5)].
  destruct (IH _ Hi1 Hf) as [Hi2 (B1 & B2 & B3 & B4 & B5)]. split; [done|]. split_and!; try done.
  intros nf. etransitivity; [apply B4|]. cbn [nullifier_spent with_nullifier_spent map].
  rewrite A4. unfold insert, fn_insert. cbn [nf_entered nullifier_spent].
  case_bool_decide as H1in; [rewrite bool_decide_eq_true_2; [done|by right]|].
  destruct (decide (nullifier sd = nf)) as [<-|Hn]; [by rewrite bool_decide_eq_true_2 by by left|].
  rewrite bool_decide_eq_false_2; [done|]. by intros [->|]%elem_of_cons.
Qed.

(** *** Transactions *)

Lemma stays_trans (c c1 c2 : cache) : stays c c1 -> stays c1 c2 -> stays c c2.
Proof. intros [_ E1] [Hi E2]. split; [done|]. by rewrite E2. Qed.

Definition spends_present (a : coin_set) (ins : list CTxIn) : Prop :=
  Forall (fun i => utxo a (prevout i) ≠ None) ins.
#[local] Instance spends_present_dec a ins : Decision (spends_present a ins).
Proof. unfold spends_present. apply _. Defined.

Lemma spends_present_proper a b ins : a ≡ b -> spends_present a ins <-> spends_present b ins.
Proof. intros (E & _). unfold spends_present. rewrite !Forall_forall. by setoid_rewrite E. Qed.

Lemma have_all_ok ins : forall (c : cache) r c',
  Forall (fun i => outpoint_ok (prevout i)) ins -> inv c -> have_all ins c = (r, c') ->
  r = bool_decide (spends_present (abs c) ins) /\ stays c c'.
Proof.
  induction ins as [|i ins IH]; intros c r c' Hok Hi.
  { intros [= <- <-]. split; [|by split]. symmetry. apply bool_decide_eq_true. constructor. }
  apply Forall_cons in Hok as [Ho Hok]. cbn [have_all].
  destruct (HaveCoin (prevout i) c) as [b c1] eqn:E.
  destruct (cache_HaveCoin_ok _ c b c1 Ho Hi E) as [-> Hs]. case_bool_decide as Hp; cbn [negb].
  - intros Hr. destruct (IH c1 r c' Hok (proj1 Hs) Hr) as [-> Hs']. split; [|by eapply stays_trans].
    apply bool_decide_ext. rewrite (spends_present_proper _ _ ins (proj2 Hs)).
    unfold spends_present. rewrite Forall_cons. tauto.
  - intros [= <- <-]. split; [|done]. symmetry. apply bool_decide_eq_false. intros Hf.
    by apply Forall_cons in Hf as [? _].
Qed.

Lemma HaveInputs_ok tx (c : cache) r c' :
  Forall (fun i => outpoint_ok (prevout i)) (vin tx) -> inv c -> HaveInputs tx c = (r, c') ->
  r = IsCoinBase tx || HasZerocoinSpendInputs tx || bool_decide (spends_present (abs c) (vin tx)) /\ stays c c'.
Proof.
  intros Hok Hi. unfold HaveInputs.
  destruct (IsCoinBase tx), (HasZerocoinSpendInputs tx); cbn [negb andb orb]; try by intros [= <- <-].
  by apply have_all_ok.
Qed.

(** What an input brings; a missing coin counts as the null output, -1. *)
Definition input_value (a : coin_set) (i : CTxIn) : Z :=
  match utxo a (prevout i) with Some co => nValue (out co) | None => -1 end.
Definition inputs_value (a : coin_set) (ins : list CTxIn) : Z := fold_right (fun i s => input_value a i + s) 0 ins.

Lemma inputs_value_proper a b ins : a ≡ b -> inputs_value a ins = inputs_value b ins.
Proof.
  intros (E & _). unfold inputs_value. induction ins as [|i ins IH]; [done|]. cbn [fold_right].
  rewrite IH. unfold input_value. by rewrite E.
Qed.

Lemma unspent_value co a o : unspent (Some co) = utxo a o -> nValue (out co) = match utxo a o with Some co => nValue (out co) | None => -1 end.
Proof.
  cbn. unfold IsSpent, CTxOut_IsNull. destruct (Z.eqb_spec (nValue (out co)) (-1)); by intros <-.
Qed.

Definition inputs_nonneg (a : coin_set) (ins : list CTxIn) : Prop := Forall (fun i => 0 <= input_value a i) ins.

Lemma value_in_ok ins : forall acc (c : cache),
  Forall (fun i => outpoint_ok (prevout i)) ins -> inv c -> inputs_nonneg (abs c) ins -> 0 <= acc <= INT64_MAX ->
  if acc + inputs_value (abs c) ins <=? INT64_MAX
  then exists c', value_in_loop ins acc c = Ok (acc + inputs_value (abs c) ins, c') /\ stays c c'
  else value_in_loop ins acc c = Abort.
Proof.
  induction ins as [|i ins IH]; intros acc c Hok Hi Hnn Hacc.
  { cbn. rewrite Z.add_0_r. destruct (Z.leb_spec acc INT64_MAX); [|lia]. exists c. by split. }
  apply Forall_cons in Hok as [Ho Hok]. apply Forall_cons in Hnn as [Hv Hnn].
  cbn [value_in_loop inputs_value fold_right]. fold (inputs_value (abs c) ins).
  destruct (AccessCoin (prevout i) c) as [co c1] eqn:E.
  destruct (AccessCoin_ok _ c co c1 Ho Hi E) as [Hu Hs]. apply unspent_value in Hu. fold (input_value (abs c) i) in Hu.
  rewrite Hu, int64_nonneg by lia.
  assert (0 <= inputs_value (abs c) ins) as Hpos
    by (clear -Hnn; unfold inputs_value; induction Hnn as [|j l Hj ? IHl]; cbn [fold_right]; cbn beta in *; lia).
  destruct (Z.leb_spec (acc + input_value (abs c) i) INT64_MAX); cbn [mbind outcome_bind].
  - assert (inputs_nonneg (abs c1) ins) as Hnn1.
    { eapply Forall_impl; [exact Hnn|]. intros j Hj. unfold input_value in *. destruct Hs as [_ (Eu & _)]. by rewrite Eu. }
    assert (0 <= acc + input_value (abs c) i <= INT64_MAX) as Hacc1 by lia.
    specialize (IH (acc + input_value (abs c) i) c1 Hok (proj1 Hs) Hnn1 Hacc1).
    rewrite (inputs_value_proper _ _ ins (proj2 Hs)), <- Z.add_assoc in IH.
    destruct (_ <=? INT64_MAX); [|done]. destruct IH as (c' & -> & Hs'). exists c'. split; [done|by eapply stays_trans].
  - by destruct (Z.leb_spec (acc + (input_value (abs c) i + inputs_value (abs c) ins)) INT64_MAX); [lia|].
Qed.

Definition spend_allowed (a : coin_set) (sd : SpendDescription) : Prop :=
  nullifier_spent a (nullifier sd) = false /\ anchor_known a (anchor sd) = true.
#[local] Instance spend_allowed_dec a sd : Decision (spend_allowed a sd).
Proof. unfold spend_allowed. apply _. Defined.

Lemma shielded_requirements_ok sds : forall (c : cache) r c',
  Forall (fun sd => hash_ok (nullifier sd) /\ hash_ok (anchor sd)) sds -> inv c ->
  shielded_requirements sds c = (r, c') ->
  r = bool_decide (Forall (spend_allowed (abs c)) sds) /\ stays c c'.
Proof.
  induction sds as [|sd sds IH]; intros c r c' Hok Hi.
  { intros [= <- <-]. split; [|by split]. symmetry. apply bool_decide_eq_true. constructor. }
  apply Forall_cons in Hok as [[Hn Ha] Hok]. cbn [shielded_requirements].
  destruct (GetNullifier (nullifier sd) c) as [b c1] eqn:E.
  destruct (cache_GetNullifier_ok _ c b c1 Hn Hi E) as [-> Hs].
  destruct (nullifier_spent (abs c) (nullifier sd)) eqn:Esp.
  { intros [= <- <-]. split; [|done]. symmetry. apply bool_decide_eq_false. intros Hf.
    apply Forall_cons in Hf as [[Hx _] _]. congruence. }
  destruct (GetSaplingAnchorAt (anchor sd) c1) as [t c2] eqn:E2.
  destruct (cache_GetSaplingAnchorAt_ok _ c1 t c2 Ha (proj1 Hs) E2) as [Hm Hs2].
  pose proof (stays_trans _ _ _ Hs Hs2) as Hs3. destruct Hs as [_ (_ & _ & Ek & _)].
  destruct t as [t|].
  - intros Hr. destruct (IH c2 r c' Hok (proj1 Hs3) Hr) as [-> Hs4]. split; [|by eapply stays_trans].
    apply bool_decide_ext. rewrite Forall_cons. destruct Hm as [Hm _]. rewrite Ek in Hm.
    destruct Hs3 as [_ (_ & _ & Ek3 & En3 & _)]. unfold spend_allowed. rewrite !Forall_forall.
    setoid_rewrite Ek3. setoid_rewrite En3. tauto.
  - intros [= <- <-]. split; [|done]. symmetry. apply bool_decide_eq_false. intros Hf.
    apply Forall_cons in Hf as [[_ Hx] _]. rewrite Ek in Hm. congruence.
Qed.

(** What [AddCoins] makes of the set of unspent outputs, output by output. *)
Definition never_added (o : CTxOut) : bool := IsUnspendable (scriptPubKey o) || CTxOut_IsZerocoinMint o.
Definition added (banned : COutPoint -> bool) (txid : uint256) (fCoinbase fCoinstake : bool) (height : Z)
    (outs : list CTxOut) (i : Z) (u : COutPoint -> option Coin) (op : COutPoint) : option Coin :=
  if bool_decide (out_hash op = txid /\ i <= out_n op) then
    match outs !! Z.to_nat (out_n op - i) with
    | Some o =>
        if banned op then None
        else if never_added o then u op else Some (MkCoin fCoinbase fCoinstake o (u32 height))
    | None => u op
    end
  else u op.

Lemma added_cons banned txid cb cs height o outs i u op :
  0 <= i ->
  added banned txid cb cs height (o :: outs) i u op
  = added banned txid cb cs height outs (i + 1)
      (if banned (OutPoint txid i) then <[OutPoint txid i := None]> u
       else if never_added o then u else <[OutPoint txid i := Some (MkCoin cb cs o (u32 height))]> u) op.
Proof.
  intros Hi. unfold added. destruct op as [h n]. cbn [out_hash out_n].
  destruct (decide (h = txid)) as [->|Hh].
  2:{ rewrite !bool_decide_eq_false_2 by tauto. unfold insert, fn_insert.
      destruct (banned _), (never_added o); try done; by rewrite decide_False by congruence. }
  destruct (decide (n = i)) as [->|Hn].
  - rewrite bool_decide_eq_true_2 by (split; [done|lia]). rewrite bool_decide_eq_false_2 by lia.
    replace (Z.to_nat (i - i)) with 0%nat by lia. cbn [lookup list_lookup]. unfold insert, fn_insert.
    destruct (banned _); [by rewrite decide_True|]. destruct (never_added o); [done|]. by rewrite decide_True.
  - assert (forall x, <[OutPoint txid i := x]> u (OutPoint txid n) = u (OutPoint txid n)) as Hu
      by (intros x; unfold insert, fn_insert; rewrite decide_False by congruence; done).
    destruct (decide (i <= n)).
    + rewrite !bool_decide_eq_true_2 by (split; [done|lia]).
      replace (Z.to_nat (n - i)) with (Datatypes.S (Z.to_nat (n - (i + 1)))) by lia. cbn [lookup list_lookup].
      destruct (outs !! _); [destruct (banned (OutPoint txid n)); [done|]|];
        destruct (banned (OutPoint txid i)), (never_added o); rewrite ?Hu; done.
    + rewrite !bool_decide_eq_false_2 by lia.
      by destruct (banned (OutPoint txid i)), (never_added o); rewrite ?Hu.
Qed.

Lemma added_proper banned txid cb cs height outs i u v :
  (forall o, u o = v o) -> forall op, added banned txid cb cs height outs i u op = added banned txid cb cs height outs i v op.
Proof. intros Huv op. unfold added. by rewrite (Huv op). Qed.

(** One output. *)
Lemma add_output_ok (banned : gset COutPoint) cb cs height check skip op o (c : cache) :
  outpoint_ok op -> inv c -> CTxOut_IsNull o = false ->
  (never_added o = false -> storable (MkCoin cb cs o (u32 height))) ->
  (check = false -> utxo (abs c) op = None) ->
  let ban := skip && bool_decide (op ∈ banned) in
  exists c',
    (if ban then Ok (SpendCoin op c).2
     else let '(overwrite, c) := if check : bool then HaveCoin op c else (false, c) in
          AddCoin op (MkCoin cb cs o (u32 height)) overwrite c) = Ok c' /\
    inv c' /\
    abs c' ≡ with_utxo (abs c)
      (if ban then <[op := None]> (utxo (abs c))
       else if never_added o then utxo (abs c) else <[op := Some (MkCoin cb cs o (u32 height))]> (utxo (abs c))).
Proof.
  intros Ho Hi Hnull Hst Hck ban. destruct ban.
  { destruct (SpendCoin op c) as [r c'] eqn:E. destruct (SpendCoin_ok op c r c' Ho Hi E) as (_ & ? & ?). by exists c'. }
  destruct (if check then HaveCoin op c else (false, c)) as [po c1] eqn:E.
  assert (stays c c1 /\ (po = false -> utxo (abs c) op = None)) as [Hs Hpo].
  { destruct check; [|injection E as <- <-; split; [by split|auto]].
    destruct (cache_HaveCoin_ok op c po c1 Ho Hi E) as [-> Hs]. split; [done|].
    intros Hf%bool_decide_eq_false. by destruct (utxo (abs c) op); [exfalso; apply Hf|]. }
  unfold never_added in *. destruct (IsUnspendable (scriptPubKey o)) eqn:Hun; cbn [orb] in *.
  { exists c1. unfold AddCoin, IsSpent. cbn [out]. rewrite Hnull, Hun. by destruct Hs. }
  destruct (CTxOut_IsZerocoinMint o) eqn:Hz.
  { exists c1. unfold AddCoin, IsSpent. cbn [out]. rewrite Hnull, Hun, Hz. by destruct Hs. }
  destruct Hs as [Hi1 Es]. pose proof Es as (Eu & _).
  destruct (AddCoin_ok op (MkCoin cb cs o (u32 height)) po c1) as (c' & Ha & Hi' & Ea); try done;
    [auto|intros Hf; rewrite Eu; auto|].
  exists c'. split; [done|]. split; [done|]. rewrite Ea. destruct Es as (?&?&?&?&?).
  split_and!; try done. intros op'. cbn [utxo with_utxo]. unfold insert, fn_insert. by destruct (decide (op = op')).
Qed.

Lemma add_coins_loop_ok (banned : gset COutPoint) txid cb cs height check skip outs : forall i (c : cache),
  hash_ok txid -> 0 <= i -> i + zlen outs <= 2 ^ 32 -> inv c ->
  Forall (fun o => CTxOut_IsNull o = false /\ (never_added o = false -> storable (MkCoin cb cs o (u32 height)))) outs ->
  (check = false -> forall j, i <= j < i + zlen outs -> utxo (abs c) (OutPoint txid j) = None) ->
  exists c', add_coins_loop banned txid cb cs height check skip outs i c = Ok c' /\ inv c' /\
    abs c' ≡ with_utxo (abs c)
      (added (fun op => skip && bool_decide (op ∈ banned)) txid cb cs height outs i (utxo (abs c))).
Proof.
  induction outs as [|o outs IH]; intros i c Ht Hi0 Hlen Hi Hf Hck.
  { exists c. split; [done|]. split; [done|]. split_and!; try done. intros op. cbn. unfold added.
    by destruct (bool_decide _). }
  apply Forall_cons in Hf as [[Hnull Hst] Hf]. cbn [length] in *. cbn [add_coins_loop].
  rewrite (wrapu_small 32 i) by (unfold in_u; lia).
  destruct (add_output_ok banned cb cs height check skip (OutPoint txid i) o c) as (c1 & Hr & Hi1 & E1); try done.
  { split; [exact Ht|]. cbn. unfold in_u. lia. }
  { intros Hc. apply Hck; [done|lia]. }
  rewrite Hr. cbn [mbind outcome_bind].
  destruct (IH (i + 1) c1) as (c2 & -> & Hi2 & E2); try done; [lia|lia| |].
  { intros Hc j Hj. destruct E1 as (Eu & _). rewrite Eu. cbn [utxo with_utxo].
    pose proof (Hck Hc j ltac:(lia)) as Hold. unfold insert, fn_insert.
    destruct (skip && _), (never_added o); try done; by rewrite decide_False by (intros [= ->]; lia). }
  exists c2. split; [done|]. split; [done|]. rewrite E2. destruct E1 as (Eu & ? & ? & ? & ?).
  split_and!; try done. intros op. cbn [utxo with_utxo].
  rewrite added_cons by done. by apply added_proper.
Qed.
End CacheOk.
End Views.
Arguments CCoinsViewCache : clear implicits.
