(* ===== verification/TxDB.v ===== *)
(** * The coin database: txdb.cpp, sapling/sapling_txdb.cpp, dbwrapper.h

    LevelDB is a map from keys to values, both bytes, to which a batch of puts
    and deletes is written as one; [CDBBatch] keeps the operations with the
    estimate of their size.  [CCoinsViewDB] is [GetCoin] and the other readers
    over such a map, with the keys and values serialized as the code does it,
    and [BatchWrite], which writes several batches when the size passes
    [-dbbatchsize].  It is an instance of [CCoinsViewOk]: the bottom of every
    stack of caches.  A read that fails in LevelDB itself is not modelled.

    The last section states what the whole stack promises, the theorems on
    [CCoinsViewCache]. *)
From stdpp Require Import functions.
From S2P Require Import Prelude Serialize HashStream Sha256 Hash Script Interpreter Standard Transaction MerkleTree Compressor Undo Coins.

(** ** LevelDB and its wrapper *)

Notation leveldb := (gmap (list Z) (list Z)).

Inductive db_op :=
| Put (k v : list Z)
| Delete (k : list Z).

Definition apply_op (db : leveldb) (op : db_op) : leveldb :=
  match op with Put k v => <[k := v]> db | Delete k => delete k db end.

Record CDBBatch := MkBatch { ops : list db_op; size_estimate : Z }.
Definition batch_empty : CDBBatch := MkBatch [] 0.

Definition over (n limit : Z) : Z := if limit <? n then 1 else 0.
Definition batch_Write (b : CDBBatch) (k v : list Z) : CDBBatch :=
  MkBatch (ops b ++ [Put k v])
    (u64 (size_estimate b + (3 + over (zlen k) 127 + zlen k + over (zlen v) 127 + zlen v))).
Definition batch_Erase (b : CDBBatch) (k : list Z) : CDBBatch :=
  MkBatch (ops b ++ [Delete k]) (u64 (size_estimate b + (2 + over (zlen k) 127 + zlen k))).

Definition WriteBatch (db : leveldb) (b : CDBBatch) : leveldb := fold_left apply_op (ops b) db.

(** [Read]: no value when the key is not there or the value does not parse. *)
Definition db_Read {A} (c : codec A) (k : list Z) (db : leveldb) : option A :=
  v ← db !! k;
  match unser c v with Ok (a, _) => Some a | _ => None end.
Definition db_Exists (k : list Z) (db : leveldb) : bool := bool_decide (is_Some (db !! k)).

(** ** Keys *)

Definition DB_COIN : Z := 67.
Definition DB_BEST_BLOCK : Z := 66.
Definition DB_HEAD_BLOCKS : Z := 72.
Definition DB_SAPLING_ANCHOR : Z := 90.
Definition DB_SAPLING_NULLIFIER : Z := 83.
Definition DB_BEST_SAPLING_ANCHOR : Z := 122.

Definition char_key (key : Z) : list Z := ser uint8_c key.
Definition hash_key (key : Z) (h : uint256) : list Z := ser uint8_c key ++ ser (blob_c 32) h.

(** [CoinEntry] *)
Definition coin_key (outpoint : COutPoint) : list Z :=
  ser uint8_c DB_COIN ++ ser (blob_c 32) (out_hash outpoint) ++ ser (varint_c 32) (out_n outpoint).

Definition hashes_c : codec (list (list Z)) := vector_c (blob_c 32).

(** ** Writing operations *)

Lemma db_Read_Some {A} (c : codec A) k x db :
  codec_ok c -> wire c x -> db !! k = Some (ser c x) -> db_Read c k db = Some x.
Proof.
  intros Hc Hx Hl. unfold db_Read. rewrite Hl. cbn. pose proof (Hc x [] Hx) as H1. rewrite app_nil_r in H1. by rewrite H1.
Qed.
Lemma db_Read_None {A} (c : codec A) k db : db !! k = None -> db_Read c k db = None.
Proof. intros Hl. unfold db_Read. by rewrite Hl. Qed.

Definition run_ops (os : list db_op) (db : leveldb) : leveldb := fold_left apply_op os db.
Definition op_key (op : db_op) : list Z := match op with Put k _ => k | Delete k => k end.

Lemma run_ops_app os1 os2 db : run_ops (os1 ++ os2) db = run_ops os2 (run_ops os1 db).
Proof. apply fold_left_app. Qed.

Lemma run_ops_other os : forall db k, Forall (fun op => op_key op ≠ k) os -> run_ops os db !! k = db !! k.
Proof.
  induction os as [|op os IH]; intros db k Hf; [done|]. apply Forall_cons in Hf as [Hop Hf].
  cbn [run_ops fold_left]. fold (run_ops os (apply_op db op)). rewrite IH by done.
  destruct op; cbn in *; [by rewrite lookup_insert_ne|by rewrite lookup_delete_ne].
Qed.

(** Operations decide the keys they name: doing them twice is doing them once. *)
Lemma run_ops_key os k :
  (forall d, run_ops os d !! k = d !! k) \/ (exists v, forall d, run_ops os d !! k = v).
Proof.
  induction os as [|op os IH] using rev_ind; [by left|].
  assert (forall d, run_ops (os ++ [op]) d = apply_op (run_ops os d) op) as E by (intros d; by rewrite run_ops_app).
  destruct (decide (op_key op = k)) as [<-|Hne].
  - right. destruct op as [k' v|k']; [exists (Some v)|exists None]; intros d; rewrite E; cbn;
      [apply lookup_insert_eq|apply lookup_delete_eq].
  - assert (forall d, run_ops (os ++ [op]) d !! k = run_ops os d !! k) as E'.
    { intros d. rewrite E. destruct op; cbn in *; [by rewrite lookup_insert_ne|by rewrite lookup_delete_ne]. }
    destruct IH as [IH|[v IH]]; [left|right; exists v]; intros d; by rewrite E', IH.
Qed.

Lemma run_ops_idem os d : run_ops os (run_ops os d) = run_ops os d.
Proof. apply map_eq. intros k. destruct (run_ops_key os k) as [H|[v H]]; by rewrite !H. Qed.

Lemma run_ops_prefix pre os d : pre `prefix_of` os -> run_ops os (run_ops pre d) = run_ops os d.
Proof. intros [rest ->]. by rewrite !run_ops_app, run_ops_idem. Qed.

(** What an entry of a map does to its key: nothing, delete it, put a value. *)
Inductive effect := Keep | Del | Set_ (v : list Z).
Definition effect_ops (k : list Z) (f : effect) : list db_op :=
  match f with Keep => [] | Del => [Delete k] | Set_ v => [Put k v] end.
Definition effect_on (f : effect) (old : option (list Z)) : option (list Z) :=
  match f with Keep => old | Del => None | Set_ v => Some v end.

Lemma run_effect k f db k' :
  run_ops (effect_ops k f) db !! k' = if bool_decide (k = k') then effect_on f (db !! k') else db !! k'.
Proof.
  case_bool_decide as Hk; [subst k'|]; destruct f as [| |v]; cbn [effect_ops effect_on run_ops fold_left apply_op]; try done.
  - apply lookup_delete_eq.
  - apply lookup_insert_eq.
  - by apply lookup_delete_ne.
  - by apply lookup_insert_ne.
Qed.

Definition map_ops {K E} (key : K -> list Z) (val : K -> E -> effect) (l : list (K * E)) : list db_op :=
  concat (map (fun p => effect_ops (key p.1) (val p.1 p.2)) l).

Lemma map_ops_key {K E} (key : K -> list Z) (val : K -> E -> effect) l (P : list Z -> Prop) :
  (forall k, P (key k)) -> Forall (fun op => P (op_key op)) (map_ops key val l).
Proof.
  intros HP. unfold map_ops. induction l as [|[k e] l IH]; [constructor|]. cbn [map concat fst snd].
  apply Forall_app_2; [|done]. destruct (val k e); repeat constructor; apply HP.
Qed.

(** The operations of a map with distinct keys, seen from one of them. *)
Lemma run_map_ops {K E} `{Countable K} (key : K -> list Z) (val : K -> E -> effect) (l : list (K * E)) x : forall db,
  NoDup l.*1 -> (forall y, y ∈ l.*1 -> key y = key x -> y = x) ->
  run_ops (map_ops key val l) db !! key x
  = match (list_to_map l : gmap K E) !! x with Some e => effect_on (val x e) (db !! key x) | None => db !! key x end.
Proof.
  induction l as [|[k e] l IH]; intros db Hnd Hinj; [done|].
  apply NoDup_cons in Hnd as [Hnin Hnd]. unfold map_ops in *. cbn [map concat fst snd].
  rewrite run_ops_app, IH by first [done|(intros; apply Hinj; [by right|done])].
  rewrite run_effect. cbn [list_to_map foldr uncurry fst snd].
  destruct (decide (k = x)) as [->|Hne].
  - rewrite lookup_insert_eq, (not_elem_of_list_to_map_1 l x) by done. by rewrite bool_decide_eq_true_2.
  - rewrite lookup_insert_ne by done. rewrite bool_decide_eq_false_2; [done|].
    intros Hk. by apply Hne, Hinj; [left|].
Qed.

Section CoinsDB.
Context (uncompressed : valtype -> option valtype) (Hcompr : compression_ok uncompressed).
Context {Tree : Type} (Tree_new : Tree) (Tree_c : codec Tree) (root : Tree -> uint256).
Context (tree_ok : Tree -> Prop) (empty_root : uint256).

(** [-dbbatchsize] *)
Context (batch_size : Z).

Record CCoinsViewDB := CoinsDB { db : leveldb }.

Definition db_GetCoin (outpoint : COutPoint) (s : CCoinsViewDB) : option Coin :=
  db_Read (Coin_c uncompressed) (coin_key outpoint) (db s).
Definition db_HaveCoin (outpoint : COutPoint) (s : CCoinsViewDB) : bool := db_Exists (coin_key outpoint) (db s).
Definition db_GetBestBlock (s : CCoinsViewDB) : uint256 :=
  default UINT256_ZERO (db_Read (blob_c 32) (char_key DB_BEST_BLOCK) (db s)).
Definition db_GetHeadBlocks (s : CCoinsViewDB) : list uint256 :=
  default [] (db_Read hashes_c (char_key DB_HEAD_BLOCKS) (db s)).

Definition db_GetSaplingAnchorAt (rt : uint256) (s : CCoinsViewDB) : option Tree :=
  if bool_decide (rt = empty_root) then Some Tree_new
  else db_Read Tree_c (hash_key DB_SAPLING_ANCHOR rt) (db s).
(** The flag itself is read and dropped: that it can be read is the answer. *)
Definition db_GetNullifier (nf : uint256) (s : CCoinsViewDB) : bool :=
  match db_Read uint8_c (hash_key DB_SAPLING_NULLIFIER nf) (db s) with Some _ => true | None => false end.
Definition db_GetBestAnchor (s : CCoinsViewDB) : uint256 :=
  default empty_root (db_Read (blob_c 32) (char_key DB_BEST_SAPLING_ANCHOR) (db s)).

Definition db_BatchWriteNullifiers (l : list (uint256 * CNullifiersCacheEntry)) (b : CDBBatch) : CDBBatch :=
  fold_left (fun b p =>
    if nf_DIRTY p.2 then
      if negb (nf_entered p.2) then batch_Erase b (hash_key DB_SAPLING_NULLIFIER p.1)
      else batch_Write b (hash_key DB_SAPLING_NULLIFIER p.1) (ser uint8_c 1)
    else b) l b.
Definition db_BatchWriteAnchors (l : list (uint256 * CAnchorsSaplingCacheEntry Tree)) (b : CDBBatch) : CDBBatch :=
  fold_left (fun b p =>
    if an_DIRTY p.2 then
      if negb (entered p.2) then batch_Erase b (hash_key DB_SAPLING_ANCHOR p.1)
      else if bool_decide (p.1 = empty_root) then b
      else batch_Write b (hash_key DB_SAPLING_ANCHOR p.1) (ser Tree_c (tree p.2))
    else b) l b.
Definition BatchWriteSapling (hashSaplingAnchor : uint256) (anchors : list (uint256 * CAnchorsSaplingCacheEntry Tree))
    (nullifiers : list (uint256 * CNullifiersCacheEntry)) (b : CDBBatch) : CDBBatch :=
  let b := db_BatchWriteAnchors anchors b in
  let b := db_BatchWriteNullifiers nullifiers b in
  if negb (uint256_IsNull hashSaplingAnchor) then batch_Write b (char_key DB_BEST_SAPLING_ANCHOR) (ser (blob_c 32) hashSaplingAnchor)
  else b.

Definition coin_op (o : COutPoint) (e : CCoinsCacheEntry) (b : CDBBatch) : outcome unit CDBBatch :=
  if DIRTY e then
    if IsSpent (coin e) then Ok (batch_Erase b (coin_key o))
    else (v ← SerializeCoin uncompressed (coin e); Ok (batch_Write b (coin_key o) v))
  else Ok b.

(** The loop over the coins: the partial batches that are written on the way,
    the last one first, and the batch that is left. *)
Fixpoint coins_loop (l : list (COutPoint * CCoinsCacheEntry)) (partial : list CDBBatch) (b : CDBBatch)
  : outcome unit (list CDBBatch * CDBBatch) :=
  match l with
  | [] => Ok (partial, b)
  | (o, e) :: l =>
      b ← coin_op o e b;
      if batch_size <? size_estimate b then coins_loop l (b :: partial) batch_empty
      else coins_loop l partial b
  end.

(** The batches [BatchWrite] writes, in order. *)
Definition db_batches (m : batch (Tree := Tree)) (s : CCoinsViewDB) : outcome unit (list CDBBatch) :=
  cassert (negb (uint256_IsNull (b_hashBlock m)));;
  let old_tip := db_GetBestBlock s in
  old_tip ← (if uint256_IsNull old_tip then
               match db_GetHeadBlocks s with
               | [h0; h1] => cassert (bool_decide (h0 = b_hashBlock m));; Ok h1
               | _ => Ok old_tip
               end
             else Ok old_tip);
  let b := batch_Erase batch_empty (char_key DB_BEST_BLOCK) in
  let b := batch_Write b (char_key DB_HEAD_BLOCKS) (ser hashes_c [b_hashBlock m; old_tip]) in
  r ← coins_loop (map_to_list (mapCoins m)) [] b;
  let '(partial, b) := r in
  let b := BatchWriteSapling (b_hashSaplingAnchor m) (map_to_list (mapSaplingAnchors m))
             (map_to_list (mapSaplingNullifiers m)) b in
  let b := batch_Erase b (char_key DB_HEAD_BLOCKS) in
  let b := batch_Write b (char_key DB_BEST_BLOCK) (ser (blob_c 32) (b_hashBlock m)) in
  Ok (reverse partial ++ [b]).

Definition db_BatchWrite (m : batch) (s : CCoinsViewDB) : outcome unit (bool * CCoinsViewDB) :=
  bs ← db_batches m s;
  Ok (true, CoinsDB (fold_left WriteBatch bs (db s))).

#[export] Instance CCoinsViewDB_view : CCoinsView (Tree := Tree) CCoinsViewDB := {|
  view_GetCoin o s := (db_GetCoin o s, s);
  view_HaveCoin o s := (db_HaveCoin o s, s);
  view_GetBestBlock s := (db_GetBestBlock s, s);
  view_BatchWrite := db_BatchWrite;
  view_GetSaplingAnchorAt rt s := (db_GetSaplingAnchorAt rt s, s);
  view_GetNullifier nf s := (db_GetNullifier nf s, s);
  view_GetBestAnchor s := (db_GetBestAnchor s, s);
|}.

(** ** The operations of a batch *)

Definition coin_effect (o : COutPoint) (e : CCoinsCacheEntry) : effect :=
  if DIRTY e then (if IsSpent (coin e) then Del else Set_ (ser (Coin_c uncompressed) (coin e))) else Keep.
Definition anchor_effect (rt : uint256) (e : CAnchorsSaplingCacheEntry Tree) : effect :=
  if an_DIRTY e then
    if negb (entered e) then Del else if bool_decide (rt = empty_root) then Keep else Set_ (ser Tree_c (tree e))
  else Keep.
Definition nullifier_effect (nf : uint256) (e : CNullifiersCacheEntry) : effect :=
  if nf_DIRTY e then (if negb (nf_entered e) then Del else Set_ (ser uint8_c 1)) else Keep.

Definition start_ops (m : batch (Tree := Tree)) (old_tip : uint256) : list db_op :=
  [Delete (char_key DB_BEST_BLOCK); Put (char_key DB_HEAD_BLOCKS) (ser hashes_c [b_hashBlock m; old_tip])].
Definition end_ops (m : batch (Tree := Tree)) : list db_op :=
  map_ops (hash_key DB_SAPLING_ANCHOR) anchor_effect (map_to_list (mapSaplingAnchors m)) ++
  map_ops (hash_key DB_SAPLING_NULLIFIER) nullifier_effect (map_to_list (mapSaplingNullifiers m)) ++
  (if negb (uint256_IsNull (b_hashSaplingAnchor m))
   then [Put (char_key DB_BEST_SAPLING_ANCHOR) (ser (blob_c 32) (b_hashSaplingAnchor m))] else []) ++
  [Delete (char_key DB_HEAD_BLOCKS); Put (char_key DB_BEST_BLOCK) (ser (blob_c 32) (b_hashBlock m))].

Lemma coin_op_ops o e b b' : coin_op o e b = Ok b' -> ops b' = ops b ++ effect_ops (coin_key o) (coin_effect o e).
Proof.
  unfold coin_op, coin_effect. destruct (DIRTY e); [|intros [= <-]; by rewrite app_nil_r].
  destruct (IsSpent (coin e)); [by intros [= <-]|].
  cbn [ser Coin_c]. destruct (SerializeCoin uncompressed (coin e)); try discriminate.
  cbn [mbind outcome_bind written]. by intros [= <-].
Qed.

Lemma coin_op_total o e b : exists b', coin_op o e b = Ok b'.
Proof.
  unfold coin_op. destruct (DIRTY e); [|eauto]. destruct (IsSpent (coin e)) eqn:Hs; [eauto|].
  unfold SerializeCoin. rewrite Hs. cbn. eauto.
Qed.

(** The batches, one after another, are the operations of all the entries, and
    every one that is written before the last holds a part of them. *)
Lemma coins_loop_ops l : forall partial b, exists partial' b',
  coins_loop l partial b = Ok (partial' ++ partial, b') /\
  concat (map ops (reverse partial')) ++ ops b' = ops b ++ map_ops coin_key coin_effect l.
Proof.
  induction l as [|[o e] l IH]; intros partial b.
  { exists [], b. split; [done|]. by rewrite app_nil_r. }
  cbn [coins_loop]. destruct (coin_op_total o e b) as [b1 Hb1]. rewrite Hb1. cbn [mbind outcome_bind].
  apply coin_op_ops in Hb1. unfold map_ops. cbn [map concat fst snd]. fold (map_ops coin_key coin_effect l).
  destruct (batch_size <? size_estimate b1).
  - destruct (IH (b1 :: partial) batch_empty) as (p & b' & -> & Ho). exists (p ++ [b1]), b'.
    rewrite <- app_assoc. split; [done|]. rewrite reverse_app. cbn [reverse rev_append app map concat].
    rewrite <- app_assoc, Ho, Hb1. by rewrite <- app_assoc.
  - destruct (IH partial b1) as (p & b' & -> & Ho). exists p, b'. split; [done|]. by rewrite Ho, Hb1, <- app_assoc.
Qed.

Lemma db_BatchWriteAnchors_ops l : forall b,
  ops (db_BatchWriteAnchors l b) = ops b ++ map_ops (hash_key DB_SAPLING_ANCHOR) anchor_effect l.
Proof.
  unfold db_BatchWriteAnchors, map_ops. induction l as [|[rt e] l IH]; intros b; cbn [fold_left map concat fst snd];
    [by rewrite app_nil_r|].
  rewrite IH. unfold anchor_effect. destruct (an_DIRTY e); [|done].
  destruct (negb (entered e)); [by cbn; rewrite <- app_assoc|]. destruct (bool_decide _); [done|].
  by cbn; rewrite <- app_assoc.
Qed.
Lemma db_BatchWriteNullifiers_ops l : forall b,
  ops (db_BatchWriteNullifiers l b) = ops b ++ map_ops (hash_key DB_SAPLING_NULLIFIER) nullifier_effect l.
Proof.
  unfold db_BatchWriteNullifiers, map_ops. induction l as [|[nf e] l IH]; intros b; cbn [fold_left map concat fst snd];
    [by rewrite app_nil_r|].
  rewrite IH. unfold nullifier_effect. destruct (nf_DIRTY e); [|done].
  by destruct (negb (nf_entered e)); cbn; rewrite <- app_assoc.
Qed.

Lemma db_batches_ops m s :
  uint256_IsNull (b_hashBlock m) = false -> db_GetHeadBlocks s = [] ->
  exists partial b,
    db_batches m s = Ok (partial ++ [b]) /\
    concat (map ops partial) ++ ops b
    = start_ops m (db_GetBestBlock s) ++ map_ops coin_key coin_effect (map_to_list (mapCoins m)) ++ end_ops m.
Proof.
  intros Hn Hh. unfold db_batches. rewrite Hn, Hh. cbn [negb cassert mbind outcome_bind].
  assert (forall x : list Z, (if uint256_IsNull x then Ok (E := unit) x else Ok x) = Ok x) as Hx
    by (intros x; by destruct (uint256_IsNull x)).
  rewrite Hx. cbn [mbind outcome_bind].
  set (b0 := batch_Write _ (char_key DB_HEAD_BLOCKS) _).
  destruct (coins_loop_ops (map_to_list (mapCoins m)) [] b0) as (p & b & -> & Ho). rewrite app_nil_r.
  cbn [mbind outcome_bind]. eexists (reverse p), _. split; [reflexivity|].
  assert (forall b, ops (batch_Write (batch_Erase (BatchWriteSapling (b_hashSaplingAnchor m)
      (map_to_list (mapSaplingAnchors m)) (map_to_list (mapSaplingNullifiers m)) b) (char_key DB_HEAD_BLOCKS))
      (char_key DB_BEST_BLOCK) (ser (blob_c 32) (b_hashBlock m))) = ops b ++ end_ops m) as Hend.
  { clear. intros b. unfold end_ops, BatchWriteSapling. cbn [ops batch_Write batch_Erase].
    destruct (uint256_IsNull (b_hashSaplingAnchor m)); cbn [negb ops batch_Write app];
      rewrite db_BatchWriteNullifiers_ops, db_BatchWriteAnchors_ops, <- !app_assoc; done. }
  change (start_ops m (db_GetBestBlock s)) with (ops b0).
  rewrite Hend, !app_assoc. by rewrite Ho.
Qed.

(** ** What the database holds after a batch *)

Lemma WriteBatch_all bs : forall d, fold_left WriteBatch bs d = run_ops (concat (map ops bs)) d.
Proof.
  induction bs as [|b bs IH]; intros d; [done|]. cbn [fold_left map concat]. by rewrite IH, run_ops_app.
Qed.

Lemma coin_key_inj o o' : outpoint_ok o -> outpoint_ok o' -> coin_key o = coin_key o' -> o = o'.
Proof.
  intros [H1 H2] [H3 H4] Hk. unfold coin_key in Hk. apply app_inv_head in Hk.
  apply (codec_inj (pair_c (blob_c 32) (varint_c 32)) (out_hash o, out_n o) (out_hash o', out_n o')) in Hk;
    [destruct o, o'; cbn in *; congruence|auto with codec|done|done].
Qed.
Lemma hash_key_inj t h h' : hash_key t h = hash_key t h' -> h = h'.
Proof. unfold hash_key. intros Hk. by apply app_inv_head in Hk. Qed.

(** Operations on other kinds of keys: the first byte tells them apart. *)
Ltac other_keys :=
  repeat first
    [ apply Forall_app_2
    | apply (map_ops_key _ _ _ (fun k' => k' ≠ _)); intros ?; discriminate
    | apply Forall_cons_2; [discriminate|]
    | apply Forall_nil_2
    | match goal with |- context [if ?b then _ else _] => destruct b end ].

Definition after (m : batch) (tip : uint256) (d : leveldb) : leveldb :=
  run_ops (start_ops m tip ++ map_ops coin_key coin_effect (map_to_list (mapCoins m)) ++ end_ops m) d.

Lemma after_coin m tip d o :
  map_Forall (fun o _ => outpoint_ok o) (mapCoins m) -> outpoint_ok o ->
  after m tip d !! coin_key o
  = match mapCoins m !! o with Some e => effect_on (coin_effect o e) (d !! coin_key o) | None => d !! coin_key o end.
Proof.
  intros Hm Ho. unfold after. rewrite !run_ops_app, (run_ops_other (end_ops m)) by (unfold end_ops; other_keys).
  rewrite run_map_ops; [|apply NoDup_fst_map_to_list|].
  - rewrite list_to_map_to_list. by rewrite (run_ops_other (start_ops m tip)) by (unfold start_ops; other_keys).
  - intros y Hy Hk. apply list_elem_of_fmap in Hy as ([y' e] & -> & Hin). apply elem_of_map_to_list in Hin.
    apply coin_key_inj; [by eapply Hm|done|done].
Qed.

Lemma after_anchor m tip d rt :
  after m tip d !! hash_key DB_SAPLING_ANCHOR rt
  = match mapSaplingAnchors m !! rt with
    | Some e => effect_on (anchor_effect rt e) (d !! hash_key DB_SAPLING_ANCHOR rt)
    | None => d !! hash_key DB_SAPLING_ANCHOR rt
    end.
Proof.
  unfold after, end_ops. rewrite !run_ops_app.
  rewrite (run_ops_other [_; _]), (run_ops_other (if negb _ then _ else _)),
    (run_ops_other (map_ops (hash_key DB_SAPLING_NULLIFIER) _ _)) by other_keys.
  rewrite run_map_ops; [|apply NoDup_fst_map_to_list|intros ? _; apply hash_key_inj].
  rewrite list_to_map_to_list. by rewrite !run_ops_other by (unfold start_ops; other_keys).
Qed.

Lemma after_nullifier m tip d nf :
  after m tip d !! hash_key DB_SAPLING_NULLIFIER nf
  = match mapSaplingNullifiers m !! nf with
    | Some e => effect_on (nullifier_effect nf e) (d !! hash_key DB_SAPLING_NULLIFIER nf)
    | None => d !! hash_key DB_SAPLING_NULLIFIER nf
    end.
Proof.
  unfold after, end_ops. rewrite !run_ops_app.
  rewrite (run_ops_other [_; _]), (run_ops_other (if negb _ then _ else _)) by other_keys.
  rewrite run_map_ops; [|apply NoDup_fst_map_to_list|intros ? _; apply hash_key_inj].
  rewrite list_to_map_to_list. by rewrite !run_ops_other by (unfold start_ops; other_keys).
Qed.

Lemma after_best m tip d :
  after m tip d !! char_key DB_BEST_BLOCK = Some (b_hashBlock m) /\
  after m tip d !! char_key DB_HEAD_BLOCKS = None /\
  (uint256_IsNull (b_hashSaplingAnchor m) = false ->
   after m tip d !! char_key DB_BEST_SAPLING_ANCHOR = Some (b_hashSaplingAnchor m)).
Proof.
  unfold after, end_ops. rewrite !run_ops_app. split_and!.
  - cbn. by rewrite lookup_insert_eq.
  - cbn. by rewrite lookup_insert_ne, lookup_delete_eq.
  - intros ->. cbn. rewrite lookup_insert_ne, lookup_delete_ne by done. by rewrite lookup_insert_eq.
Qed.

(** ** The database keeps the promise *)

#[local] Arguments after : simpl never.
#[local] Arguments coin_key : simpl never.
#[local] Arguments char_key : simpl never.
#[local] Arguments hash_key : simpl never.
#[local] Arguments coin_effect : simpl never.

Context (HTree : codec_ok Tree_c) (HTree_wire : forall t, tree_ok t -> wire Tree_c t).
Context (Hempty : hash_ok empty_root /\ root Tree_new = empty_root /\ tree_ok Tree_new).

Definition stored {A} (c : codec A) (P : A -> Prop) (v : option (list Z)) : Prop :=
  match v with None => True | Some v => exists x, P x /\ wire c x /\ v = ser c x end.

Definition db_inv (s : CCoinsViewDB) : Prop :=
  (forall o, outpoint_ok o -> stored (Coin_c uncompressed) (fun _ => True) (db s !! coin_key o)) /\
  (forall rt, hash_ok rt ->
     stored Tree_c (fun t => tree_ok t /\ root t = rt) (db s !! hash_key DB_SAPLING_ANCHOR rt)) /\
  (forall nf, stored uint8_c (fun _ => True) (db s !! hash_key DB_SAPLING_NULLIFIER nf)) /\
  stored (blob_c 32) (fun _ => True) (db s !! char_key DB_BEST_BLOCK) /\
  stored (blob_c 32) (fun _ => True) (db s !! char_key DB_BEST_SAPLING_ANCHOR) /\
  db s !! char_key DB_HEAD_BLOCKS = None.

#[export] Instance outpoint_ok_dec o : Decision (outpoint_ok o).
Proof. unfold outpoint_ok. cbn. unfold in_u. apply _. Defined.

Definition db_abs (s : CCoinsViewDB) : coin_set := CoinSet
  (fun o => if decide (outpoint_ok o) then db_GetCoin o s else None)
  (db_GetBestBlock s)
  (fun rt => bool_decide (rt = empty_root) || bool_decide (is_Some (db s !! hash_key DB_SAPLING_ANCHOR rt)))
  (fun nf => bool_decide (is_Some (db s !! hash_key DB_SAPLING_NULLIFIER nf)))
  (db_GetBestAnchor s).

#[export] Instance CCoinsViewDB_abs : CCoinsViewAbs CCoinsViewDB := { inv := db_inv; abs := db_abs }.

Lemma stored_read {A} (c : codec A) P k d :
  codec_ok c -> stored c P (d !! k) ->
  match db_Read c k d with
  | Some x => P x /\ wire c x /\ d !! k = Some (ser c x)
  | None => d !! k = None
  end.
Proof.
  intros Hc Hs. destruct (d !! k) as [v|] eqn:Hl; [|by rewrite db_Read_None].
  destruct Hs as (x & HP & Hw & ->). by rewrite (db_Read_Some c k x).
Qed.

Lemma db_stays (s : CCoinsViewDB) : inv s -> stays s s.
Proof. by split. Qed.

Lemma db_GetCoin_unspent o s : db_inv s -> outpoint_ok o -> unspent (db_GetCoin o s) = db_GetCoin o s.
Proof.
  intros (Hc & _) Ho. pose proof (stored_read _ _ _ _ (Coin_ok uncompressed Hcompr) (Hc o Ho)) as H.
  fold (db_GetCoin o s) in H. destruct (db_GetCoin o s) as [c|]; [|done]. destruct H as (_ & Hw & _).
  cbn. by rewrite (coin_wire_unspent uncompressed c Hw).
Qed.

(** Reading after an effect. *)
Lemma stored_effect {A} (c : codec A) P f v :
  stored c P v -> (forall w, f = Set_ w -> exists x, P x /\ wire c x /\ w = ser c x) -> stored c P (effect_on f v).
Proof. intros Hv Hf. destruct f as [| |w]; cbn; [done|done|by apply Hf]. Qed.

Lemma after_inv m tip d :
  batch_ok root (coin_wire uncompressed) tree_ok empty_root m (abs (CoinsDB d)) -> db_inv (CoinsDB d) ->
  db_inv (CoinsDB (after m tip d)).
Proof.
  intros (Hbh & Hbn & Hah & Han & Hmc & Hma & Hmn) (Hc & Ha & Hn & Hb & Hz & Hh).
  destruct (after_best m tip d) as (E1 & E2 & E3). split_and!; cbn [db].
  - intros o Ho. rewrite after_coin by (done || (intros o' e He; by destruct (Hmc o' e He))).
    destruct (mapCoins m !! o) as [e|] eqn:Hl; [|by apply Hc]. apply stored_effect; [by apply Hc|].
    unfold coin_effect. destruct (DIRTY e) eqn:Hd; [|discriminate]. destruct (IsSpent (coin e)) eqn:Hs; [discriminate|].
    intros w [= <-]. destruct (Hmc o e Hl) as (_ & Hst & _). exists (coin e). by split_and!; [|apply Hst|].
  - intros rt Hrt. rewrite after_anchor. destruct (mapSaplingAnchors m !! rt) as [e|] eqn:Hl; [|by apply Ha].
    apply stored_effect; [by apply Ha|]. destruct (Hma rt e Hl) as (_ & Hroot & Hok & _).
    unfold anchor_effect. destruct (an_DIRTY e); [|discriminate]. destruct (negb (entered e)); [discriminate|].
    case_bool_decide; [discriminate|]. intros w [= <-]. exists (tree e). split_and!; auto.
  - intros nf. rewrite after_nullifier. destruct (mapSaplingNullifiers m !! nf) as [e|] eqn:Hl; [|by apply Hn].
    apply stored_effect; [by apply Hn|]. unfold nullifier_effect. destruct (nf_DIRTY e); [|discriminate].
    destruct (negb (nf_entered e)); [discriminate|]. intros w [= <-]. exists 1. by split_and!.
  - rewrite E1. by exists (b_hashBlock m).
  - rewrite E3 by done. by exists (b_hashSaplingAnchor m).
  - done.
Qed.

Lemma after_abs m tip d :
  batch_ok root (coin_wire uncompressed) tree_ok empty_root m (abs (CoinsDB d)) -> db_inv (CoinsDB d) ->
  abs (CoinsDB (after m tip d)) ≡ apply_batch m (abs (CoinsDB d)).
Proof.
  intros (Hbh & Hbn & Hah & Han & Hmc & Hma & Hmn) (Hc & Ha & Hn & Hb & Hz & Hh).
  destruct (after_best m tip d) as (E1 & E2 & E3).
  assert (map_Forall (fun o _ => outpoint_ok o) (mapCoins m)) as Hkeys by (intros o' e He; by destruct (Hmc o' e He)).
  split_and!; cbn [utxo best_block anchor_known nullifier_spent best_anchor abs CCoinsViewDB_abs db_abs apply_batch].
  - intros o. destruct (mapCoins m !! o) as [e|] eqn:Hl.
    + destruct (Hmc o e Hl) as (Ho & Hst & _). rewrite decide_True by done. unfold db_GetCoin, db_Read.
      cbn [db]. rewrite after_coin, Hl by done. unfold coin_effect.
      rewrite ?decide_True by done. cbn [unspent]. destruct (DIRTY e); [|done]. destruct (IsSpent (coin e)) eqn:Hs; [done|]. cbn [effect_on mbind option_bind].
      pose proof (Coin_ok uncompressed Hcompr (coin e) [] (Hst eq_refl eq_refl)) as Hr. rewrite app_nil_r in Hr.
      by rewrite Hr.
    + destruct (decide (outpoint_ok o)) as [Ho|]; [|done]. unfold db_GetCoin, db_Read. cbn [db].
      by rewrite after_coin, Hl by done.
  - unfold db_GetBestBlock. rewrite (db_Read_Some (blob_c 32) _ (b_hashBlock m)); auto with codec.
  - intros rt. cbn [db]. rewrite after_anchor. destruct (mapSaplingAnchors m !! rt) as [e|] eqn:Hl; [|done].
    destruct (Hma rt e Hl) as (_ & _ & _ & He). unfold anchor_effect. destruct (an_DIRTY e); [|done].
    destruct (entered e); cbn [negb].
    + case_bool_decide; [done|]. cbn [effect_on orb]. apply bool_decide_eq_true. eauto.
    + rewrite bool_decide_eq_false_2 by auto. cbn [effect_on orb]. apply bool_decide_eq_false. by intros [? ?].
  - intros nf. cbn [db]. rewrite after_nullifier. destruct (mapSaplingNullifiers m !! nf) as [e|] eqn:Hl; [|done].
    unfold nullifier_effect. destruct (nf_DIRTY e); [|done]. destruct (nf_entered e); cbn [negb effect_on].
    + apply bool_decide_eq_true. eauto.
    + apply bool_decide_eq_false. by intros [? ?].
  - unfold db_GetBestAnchor. rewrite (db_Read_Some (blob_c 32) _ (b_hashSaplingAnchor m)); auto with codec.
Qed.

Lemma no_heads s : db_inv s -> db_GetHeadBlocks s = [].
Proof. intros (_ & _ & _ & _ & _ & Hh). unfold db_GetHeadBlocks. by rewrite db_Read_None. Qed.

Lemma db_BatchWrite_after m s :
  uint256_IsNull (b_hashBlock m) = false -> db_inv s ->
  db_BatchWrite m s = Ok (true, CoinsDB (after m (db_GetBestBlock s) (db s))).
Proof.
  intros Hn Hi. destruct (db_batches_ops m s Hn (no_heads s Hi)) as (p & b & Hb & Ho).
  unfold db_BatchWrite. rewrite Hb. cbn [mbind outcome_bind]. rewrite WriteBatch_all, map_app, concat_app.
  cbn [map concat]. rewrite app_nil_r. by rewrite Ho.
Qed.

#[export] Instance CCoinsViewDB_ok : CCoinsViewOk root (coin_wire uncompressed) tree_ok empty_root CCoinsViewDB.
Proof.
  split.
  - intros o s r s' Ho Hi [= <- <-]. split; [|by apply db_stays]. cbn. rewrite decide_True by done. by apply db_GetCoin_unspent.
  - intros o s r s' Ho Hi [= <- <-]. split; [|by apply db_stays]. cbn. rewrite decide_True by done.
    destruct Hi as (Hc & _). pose proof (stored_read _ _ _ _ (Coin_ok uncompressed Hcompr) (Hc o Ho)) as H.
    unfold db_HaveCoin, db_Exists, db_GetCoin. destruct (db_Read _ _ _) as [c|].
    + destruct H as (_ & _ & ->). by rewrite !bool_decide_eq_true_2 by eauto.
    + rewrite H. rewrite bool_decide_eq_false_2 by by intros [? ?].
      by rewrite bool_decide_eq_false_2 by (intros Hx; by apply Hx).
  - intros s h s' Hi [= <- <-]. split; [done|by apply db_stays].
  - intros rt s r s' Hrt Hi [= <- <-]. split; [|by apply db_stays]. destruct Hi as (_ & Ha & _).
    unfold db_GetSaplingAnchorAt. cbn. case_bool_decide as He; [subst; by destruct Hempty as (_ & ? & ?)|].
    pose proof (stored_read _ _ _ _ HTree (Ha rt Hrt)) as H. destruct (db_Read _ _ _) as [t|].
    + destruct H as ((Hok & Hr) & _ & ->). split_and!; [|done|done]. by apply bool_decide_eq_true.
    + rewrite H. apply bool_decide_eq_false. by intros [? ?].
  - intros nf s r s' Hnf Hi [= <- <-]. split; [|by apply db_stays]. destruct Hi as (_ & _ & Hn & _).
    pose proof (stored_read uint8_c _ _ _ uint8_ok (Hn nf)) as H. unfold db_GetNullifier. cbn.
    destruct (db_Read _ _ _).
    + destruct H as (_ & _ & ->). symmetry. by apply bool_decide_eq_true.
    + rewrite H. symmetry. apply bool_decide_eq_false. by intros [? ?].
  - intros s h s' Hi [= <- <-]. split; [done|by apply db_stays].
  - intros s (_ & _ & _ & Hb & Hz & _). cbn. unfold db_GetBestBlock, db_GetBestAnchor.
    pose proof (stored_read (blob_c 32) _ _ _ (blob_ok 32) Hb) as H1. pose proof (stored_read (blob_c 32) _ _ _ (blob_ok 32) Hz) as H2.
    split; [destruct (db_Read _ _ _); [by destruct H1 as (_ & ? & _)|done]|].
    destruct (db_Read _ (char_key DB_BEST_SAPLING_ANCHOR) _); [by destruct H2 as (_ & ? & _)|apply Hempty].
  - intros s Hi. cbn. by rewrite bool_decide_eq_true_2.
  - intros m s Hi Hok. exists (CoinsDB (after m (db_GetBestBlock s) (db s))). destruct s as [d]. split_and!.
    + apply db_BatchWrite_after; [by destruct Hok as (_ & ? & _)|done].
    + by apply after_inv.
    + by apply after_abs.
Qed.

(** ** Interrupted writes *)

(** The first batch that is written holds at least what was in [b]. *)
Lemma coins_loop_first l : forall partial b p b',
  coins_loop l partial b = Ok (p ++ partial, b') -> p ≠ [] -> exists p0 x, p = p0 ++ [x] /\ ops b `prefix_of` ops x.
Proof.
  induction l as [|[o e] l IH]; intros partial b p b' H Hne.
  { cbn in H. injection H as H _. exfalso. apply Hne. apply (f_equal length) in H. rewrite length_app in H.
    destruct p; [done|cbn in H; lia]. }
  cbn [coins_loop] in H. destruct (coin_op_total o e b) as [b1 Hb1]. rewrite Hb1 in H. cbn [mbind outcome_bind] in H.
  apply coin_op_ops in Hb1. destruct (batch_size <? size_estimate b1).
  - destruct (coins_loop_ops l (b1 :: partial) batch_empty) as (p' & b'' & E & _). rewrite E in H.
    injection H as H _. replace (p' ++ b1 :: partial) with ((p' ++ [b1]) ++ partial) in H by by rewrite <- app_assoc.
    apply app_inv_tail in H. exists p', b1. split; [done|]. rewrite Hb1. by eexists.
  - destruct (IH partial b1 p b' H Hne) as (p0 & x & -> & Hpre). exists p0, x. split; [done|].
    etransitivity; [|exact Hpre]. rewrite Hb1. by eexists.
Qed.

(** [BatchWrite] from where the database is, told the block it comes from. *)
Definition batches_from (m : batch (Tree := Tree)) (tip : uint256) : outcome unit (list CDBBatch) :=
  let b := batch_Write (batch_Erase batch_empty (char_key DB_BEST_BLOCK)) (char_key DB_HEAD_BLOCKS)
             (ser hashes_c [b_hashBlock m; tip]) in
  r ← coins_loop (map_to_list (mapCoins m)) [] b;
  let '(partial, b) := r in
  let b := BatchWriteSapling (b_hashSaplingAnchor m) (map_to_list (mapSaplingAnchors m))
             (map_to_list (mapSaplingNullifiers m)) b in
  let b := batch_Erase b (char_key DB_HEAD_BLOCKS) in
  Ok (reverse partial ++ [batch_Write b (char_key DB_BEST_BLOCK) (ser (blob_c 32) (b_hashBlock m))]).

Lemma db_batches_from m s :
  uint256_IsNull (b_hashBlock m) = false ->
  (db_GetHeadBlocks s = [] -> db_batches m s = batches_from m (db_GetBestBlock s)) /\
  (forall h tip, uint256_IsNull (db_GetBestBlock s) = true -> db_GetHeadBlocks s = [h; tip] ->
     db_batches m s = if bool_decide (h = b_hashBlock m) then batches_from m tip else Abort).
Proof.
  intros Hn. unfold db_batches. rewrite Hn. cbn [negb cassert mbind outcome_bind]. split.
  - intros ->. by destruct (uint256_IsNull (db_GetBestBlock s)).
  - intros h tip -> ->. by case_bool_decide.
Qed.

Lemma interrupted_store m s bs n :
  db_inv s -> uint256_IsNull (b_hashBlock m) = false -> db_batches m s = Ok bs -> (0 < n < length bs)%nat ->
  exists pre, fold_left WriteBatch (take n bs) (db s) = run_ops pre (db s) /\
    pre `prefix_of` start_ops m (db_GetBestBlock s) ++ map_ops coin_key coin_effect (map_to_list (mapCoins m)) /\
    start_ops m (db_GetBestBlock s) `prefix_of` pre.
Proof.
  intros Hi Hn Hb Hlen. pose proof (no_heads s Hi) as Hh.
  rewrite (proj1 (db_batches_from m s Hn) Hh) in Hb. unfold batches_from in Hb.
  set (b0 := batch_Write _ (char_key DB_HEAD_BLOCKS) _) in Hb.
  destruct (coins_loop_ops (map_to_list (mapCoins m)) [] b0) as (p & b & Hl & Ho). rewrite Hl in Hb.
  cbn [mbind outcome_bind] in Hb. injection Hb as <-. rewrite app_nil_r in *.
  rewrite length_app in Hlen. cbn [length] in Hlen. rewrite take_app_le by lia.
  rewrite WriteBatch_all. eexists. split; [reflexivity|]. split.
  - change (start_ops m (db_GetBestBlock s)) with (ops b0). rewrite <- Ho.
    rewrite <- (take_drop n (reverse p)) at 2. rewrite map_app, concat_app, <- app_assoc. by eexists.
  - destruct (coins_loop_first (map_to_list (mapCoins m)) [] b0 p b) as (p0 & x & -> & Hpre); [by rewrite app_nil_r| |].
    { intros ->. cbn in Hlen. lia. }
    rewrite reverse_app. cbn [reverse rev_append app]. destruct n as [|n]; [lia|]. cbn [take firstn map concat].
    etransitivity; [exact Hpre|]. by eexists.
Qed.

Lemma interrupted_heads m s pre :
  hash_ok (b_hashBlock m) -> hash_ok (db_GetBestBlock s) ->
  pre `prefix_of` start_ops m (db_GetBestBlock s) ++ map_ops coin_key coin_effect (map_to_list (mapCoins m)) ->
  start_ops m (db_GetBestBlock s) `prefix_of` pre ->
  let s' := CoinsDB (run_ops pre (db s)) in
  db_GetBestBlock s' = UINT256_ZERO /\ db_GetHeadBlocks s' = [b_hashBlock m; db_GetBestBlock s].
Proof.
  intros Hok1 Hok2 [rest Hpre] [cs ->] s'. rewrite <- app_assoc in Hpre. apply app_inv_head in Hpre.
  assert (forall k, (forall o, coin_key o ≠ k) -> Forall (fun op => op_key op ≠ k) cs) as Hcs.
  { intros k Hk. pose proof (map_ops_key coin_key coin_effect (map_to_list (mapCoins m)) (fun k' => k' ≠ k) Hk) as Hf.
    rewrite Hpre in Hf. by apply Forall_app in Hf as [? _]. }
  unfold s', db_GetBestBlock, db_GetHeadBlocks. cbn [db]. rewrite run_ops_app. split.
  - rewrite db_Read_None; [done|]. rewrite run_ops_other by (apply Hcs; discriminate).
    cbn. by rewrite lookup_insert_ne, lookup_delete_eq.
  - rewrite (db_Read_Some hashes_c _ [b_hashBlock m; db_GetBestBlock s]); [done|unfold hashes_c; auto with codec| |].
    + split; [cbn; unfold MAX_SIZE; lia|]. by repeat constructor.
    + rewrite run_ops_other by (apply Hcs; discriminate). cbn. by rewrite lookup_insert_eq.
Qed.
End CoinsDB.

(** ** What the stack of views promises *)

Section Promises.
Context {Tree : Type} (Tree_new : Tree) (root : Tree -> uint256).
Context (storable : Coin -> Prop) (tree_ok : Tree -> Prop) (empty_root : uint256).
Context {V : Type} `{CCoinsViewOk (Tree := Tree) root storable tree_ok empty_root V}.
Notation cache := (CCoinsViewCache Tree V).
#[local] Instance cache_contents : CCoinsViewAbs cache := CCoinsViewCache_abs root storable tree_ok empty_root.
#[local] Instance cache_ok : CCoinsViewOk root storable tree_ok empty_root cache :=
  CCoinsViewCache_ok root storable tree_ok empty_root.

(** C7: the cache is the set of unspent outputs, whatever view is below.
    [AddCoin] of an unspent coin that can be spent adds it, unless it would
    replace an unspent one the caller said could not be there; [SpendCoin]
    returns the coin and removes it; [AccessCoin] and [HaveCoin] tell what the
    set holds, and neither they nor [Uncache] change the set, although they fill
    or empty the cache. *)
Theorem cache_is_utxo_set (c : cache) (o : COutPoint) :
  inv c -> outpoint_ok o ->
  (forall new po, IsSpent new = false -> never_added (out new) = false -> storable new ->
     (po = false -> utxo (abs c) o = None) ->
     exists c', AddCoin o new po c = Ok c' /\ inv c' /\
       abs c' ≡ with_utxo (abs c) (<[o := Some new]> (utxo (abs c)))) /\
  (let '(r, c') := SpendCoin o c in
   unspent r = utxo (abs c) o /\ inv c' /\ abs c' ≡ with_utxo (abs c) (<[o := None]> (utxo (abs c)))) /\
  (let '(r, c') := AccessCoin o c in unspent (Some r) = utxo (abs c) o /\ inv c' /\ abs c' ≡ abs c) /\
  (let '(b, c') := HaveCoin o c in b = bool_decide (utxo (abs c) o ≠ None) /\ inv c' /\ abs c' ≡ abs c) /\
  inv (Uncache o c) /\ abs (Uncache o c) ≡ abs c.
Proof.
  intros Hi Ho. split_and!.
  - intros new po Hs Hn Hst Hpo. apply orb_false_iff in Hn as [Hu Hz]. by apply AddCoin_ok.
  - destruct (SpendCoin o c) as [r c'] eqn:E. by eapply SpendCoin_ok.
  - destruct (AccessCoin o c) as [r c'] eqn:E. by eapply AccessCoin_ok.
  - destruct (HaveCoin o c) as [r c'] eqn:E. by eapply cache_HaveCoin_ok.
  - by apply Uncache_ok.
  - by apply Uncache_ok.
Qed.

(** C24: [Flush] loses nothing.  When the best block and the best anchor are
    known, it succeeds, so a FRESH flag is never found misapplied, the set is
    the same as before, and the view below now holds it, with an empty cache
    above. *)
Theorem Flush_writes_through (c : cache) :
  inv c -> uint256_IsNull (hashBlock c) = false -> uint256_IsNull (hashSaplingAnchor c) = false ->
  exists c', Flush c = Ok (true, c') /\ inv c' /\ cacheCoins c' = ∅ /\ abs c' ≡ abs c /\ abs (base c') ≡ abs c.
Proof. exact (Flush_ok root storable tree_ok empty_root c). Qed.

(** What transactions ask of the set.  [HaveInputs] holds exactly when
    every input of a transaction that is neither a coinbase nor a zerocoin spend
    is unspent; [GetValueIn] of such a transaction is the sum of the coins it
    spends and of what comes from the shielded pool, and it is undefined when
    that sum overflows; [HaveShieldedRequirements] of a shielded transaction
    holds exactly when no nullifier is spent and every anchor is known.  None of
    them changes the set. *)
Theorem transaction_inputs (c : cache) (tx : CTransaction) :
  inv c -> Forall (fun i => outpoint_ok (prevout i)) (vin tx) ->
  (let '(b, c') := HaveInputs tx c in
   b = IsCoinBase tx || HasZerocoinSpendInputs tx || bool_decide (spends_present (abs c) (vin tx)) /\
   inv c' /\ abs c' ≡ abs c) /\
  (IsCoinBase tx = false -> HasZerocoinSpendInputs tx = false -> inputs_nonneg (abs c) (vin tx) ->
   forall sh, GetShieldedValueIn (E := unit) tx = Ok sh ->
   if inputs_value (abs c) (vin tx) + sh <=? INT64_MAX
   then exists c', GetValueIn tx c = Ok (inputs_value (abs c) (vin tx) + sh, c') /\ inv c' /\ abs c' ≡ abs c
   else GetValueIn tx c = Abort) /\
  (forall d, sapData tx = Some d -> IsShieldedTx tx = true ->
   Forall (fun sd => hash_ok (nullifier sd) /\ hash_ok (anchor sd)) (vShieldedSpend d) ->
   let '(b, c') := HaveShieldedRequirements tx c in
   b = bool_decide (Forall (spend_allowed (abs c)) (vShieldedSpend d)) /\ inv c' /\ abs c' ≡ abs c).
Proof.
  intros Hi Hok. split_and!.
  - destruct (HaveInputs tx c) as [b c'] eqn:E. by eapply HaveInputs_ok.
  - intros Hcb Hzc Hnn sh Hsh. unfold GetValueIn. rewrite Hcb, Hzc.
    pose proof (value_in_ok root storable tree_ok empty_root (vin tx) 0 c Hok Hi Hnn ltac:(unfold INT64_MAX; lia)) as Hv.
    change (0 + inputs_value (abs c) (vin tx)) with (inputs_value (abs c) (vin tx)) in Hv.
    assert (0 <= sh) as Hsh0.
    { unfold GetShieldedValueIn in Hsh. destruct (sapData tx) as [d|]; [|by injection Hsh as <-].
      destruct (hasSaplingData tx && (0 <? valueBalance d)) eqn:Eb; [|by injection Hsh as <-].
      destruct (negb (isSaplingVersion tx)); [discriminate|injection Hsh as <-]. bool_to_prop. lia. }
    assert (0 <= inputs_value (abs c) (vin tx)) as Hpos
      by (clear -Hnn; unfold inputs_value; induction Hnn; cbn [fold_right]; cbn beta in *; lia).
    destruct (Z.leb_spec (inputs_value (abs c) (vin tx)) INT64_MAX).
    + destruct Hv as (c' & Hv & Hs). rewrite Hv. cbn [mbind outcome_bind]. rewrite Hsh. cbn [mbind outcome_bind].
      rewrite int64_nonneg by lia. destruct (_ <=? INT64_MAX); [|done]. by exists c'.
    + rewrite Hv. cbn [mbind outcome_bind].
      by destruct (Z.leb_spec (inputs_value (abs c) (vin tx) + sh) INT64_MAX); [lia|].
  - intros d Hd Hs Hsp. unfold HaveShieldedRequirements. rewrite Hs, Hd.
    destruct (shielded_requirements (vShieldedSpend d) c) as [b c'] eqn:E. by eapply shielded_requirements_ok.
Qed.

(** [AddCoins] puts every output of a transaction into the set under its
    outpoint, except those that can never be spent, and takes out those on the
    banned list when it is told to look; nothing else changes, and no exception
    is thrown, either because the caller is right that there is nothing to
    overwrite or because it asked to check. *)
Theorem AddCoins_adds_outputs (c : cache) (banned : gset COutPoint) (tx : CTransaction) (height : Z) (check skip : bool) :
  inv c -> zlen (vout tx) <= 2 ^ 32 ->
  Forall (fun o => CTxOut_IsNull o = false /\
    (never_added o = false -> storable (MkCoin (IsCoinBase tx) (IsCoinStake tx) o (u32 height)))) (vout tx) ->
  (check = false -> forall j, 0 <= j < zlen (vout tx) -> utxo (abs c) (OutPoint (GetHash tx) j) = None) ->
  exists c', AddCoins banned c tx height check skip = Ok c' /\ inv c' /\
    abs c' ≡ with_utxo (abs c)
      (added (fun op => skip && bool_decide (op ∈ banned)) (GetHash tx) (IsCoinBase tx) (IsCoinStake tx) height
         (vout tx) 0 (utxo (abs c))).
Proof.
  intros Hi Hl Hf Hck. unfold AddCoins.
  apply (add_coins_loop_ok root storable tree_ok empty_root); auto; first [apply Hash_length|lia].
Qed.

(** [PushAnchor] and [PopAnchor] undo each other.  After the tree of a
    block is pushed its root is the best anchor and can be spent from; popping
    back to the anchor before restores the set, the pushed anchor being unknown
    again if it was new. *)
Theorem anchors_push_pop (c : cache) (t : Tree) :
  let cur := best_anchor (abs c) in
  inv c -> hash_ok (root t) -> tree_ok t -> uint256_IsNull (root t) = false -> uint256_IsNull cur = false ->
  anchor_known (abs c) cur = true -> root t ≠ empty_root ->
  (root t = cur \/ anchor_known (abs c) (root t) = false) ->
  let c1 := PushAnchor root t c in
  inv c1 /\ best_anchor (abs c1) = root t /\ anchor_known (abs c1) (root t) = true /\
  exists c2, PopAnchor Tree_new cur c1 = Ok c2 /\ inv c2 /\ abs c2 ≡ abs c.
Proof.
  intros cur Hi Hr Ht Hn Hcn Hk Hne Hnew c1.
  destruct (PushAnchor_ok root storable tree_ok empty_root t c Hi Hr Ht Hn Hk) as [Hi1 E1]. fold c1 in Hi1, E1.
  pose proof E1 as (U1 & B1 & K1 & N1 & A1). cbn [best_anchor anchor_known with_best_anchor] in A1, K1.
  assert (anchor_known (abs c1) (root t) = true) as Hk1 by (rewrite K1; apply fn_lookup_insert).
  split; [done|]. split; [done|]. split; [done|].
  assert (hash_ok cur) as Hcur by (destruct (best_hashes_ok root storable tree_ok empty_root c Hi); done).
  destruct (PopAnchor_ok Tree_new root storable tree_ok empty_root cur c1 Hi1 Hcur Hcn) as (c2 & Hp & Hi2 & E2).
  { by rewrite A1. }
  { by rewrite A1. }
  exists c2. split; [done|]. split; [done|]. rewrite E2.
  split_and!; [exact U1|exact B1| |exact N1|done].
  intros rt. cbn [anchor_known with_best_anchor]. rewrite A1.
  clear E2 Hp. destruct (bool_decide (root t = cur)) eqn:Heq; bool_to_prop.
  - rewrite K1, Heq. unfold insert, fn_insert. destruct (decide (cur = rt)) as [<-|]; done.
  - destruct Hnew as [|Hnew]; [done|]. unfold insert, fn_insert. destruct (decide (root t = rt)) as [<-|Hrt]; [done|].
    rewrite K1. by apply fn_lookup_insert_ne.
Qed.
End Promises.

(** C23: an interrupted write of the database shows and can be repeated.  When
    [BatchWrite] stops after some of its batches, the database names no best
    block, and its head blocks are the one it was moving to and the one it came
    from; writing the same changes again from there ends in exactly the database
    an uninterrupted write gives, and writing for another block aborts. *)
Theorem interrupted_flush (uncompressed : valtype -> option valtype) {Tree : Type} (Tree_c : codec Tree)
    (root : Tree -> uint256) (tree_ok : Tree -> Prop) (empty_root : uint256) (batch_size : Z)
    (m : batch (Tree := Tree)) (s : CCoinsViewDB) (bs : list CDBBatch) (n : nat) :
  db_inv uncompressed Tree_c root tree_ok s ->
  hash_ok (b_hashBlock m) -> uint256_IsNull (b_hashBlock m) = false ->
  db_batches uncompressed Tree_c empty_root batch_size m s = Ok bs -> (0 < n < length bs)%nat ->
  let s_n := CoinsDB (fold_left WriteBatch (take n bs) (db s)) in
  db_GetBestBlock s_n = UINT256_ZERO /\
  db_GetHeadBlocks s_n = [b_hashBlock m; db_GetBestBlock s] /\
  (exists s', db_BatchWrite uncompressed Tree_c empty_root batch_size m s = Ok (true, s') /\
              db_BatchWrite uncompressed Tree_c empty_root batch_size m s_n = Ok (true, s')) /\
  (forall m', uint256_IsNull (b_hashBlock m') = false -> b_hashBlock m' ≠ b_hashBlock m ->
   db_BatchWrite uncompressed Tree_c empty_root batch_size m' s_n = Abort).
Proof.
  intros Hi Hok Hn Hb Hlen s_n.
  destruct (interrupted_store uncompressed Tree_c root tree_ok empty_root batch_size m s bs n Hi Hn Hb Hlen)
    as (pre & Hs & Hpre & Hst).
  assert (hash_ok (db_GetBestBlock s)) as Hok2.
  { destruct Hi as (_ & _ & _ & Hbest & _). unfold db_GetBestBlock.
    pose proof (stored_read (blob_c 32) _ _ _ (blob_ok 32) Hbest) as H1.
    destruct (db_Read _ _ _); [by destruct H1 as (_ & ? & _)|done]. }
  destruct (interrupted_heads uncompressed m s pre Hok Hok2 Hpre Hst) as [H1 H2].
  assert (s_n = CoinsDB (run_ops pre (db s))) as Hsn by (unfold s_n; by rewrite Hs). rewrite <- Hsn in H1, H2.
  assert (uint256_IsNull (db_GetBestBlock s_n) = true) as Hnull by by rewrite H1.
  split; [done|]. split; [done|]. split.
  - pose proof (no_heads uncompressed Tree_c root tree_ok s Hi) as Hh.
    destruct (db_batches_ops uncompressed Tree_c empty_root batch_size m s Hn Hh) as (p & b & Hb' & Ho).
    eexists. unfold db_BatchWrite. rewrite (proj2 (db_batches_from _ _ _ _ m s_n Hn) _ _ Hnull H2).
    rewrite bool_decide_eq_true_2 by done. rewrite <- (proj1 (db_batches_from _ _ _ _ m s Hn) Hh), Hb'.
    cbn [mbind outcome_bind]. split; [reflexivity|]. rewrite Hsn. cbn [db]. rewrite !WriteBatch_all.
    rewrite run_ops_prefix; [done|]. rewrite map_app, concat_app. cbn [map concat]. rewrite app_nil_r, Ho, app_assoc.
    by apply prefix_app_r.
  - intros m' Hn' Hne. unfold db_BatchWrite. rewrite (proj2 (db_batches_from _ _ _ _ m' s_n Hn') _ _ Hnull H2).
    by rewrite bool_decide_eq_false_2 by congruence.
Qed.

(** ** Examples: a cache over an empty database *)

Section Examples.
Notation tree := IncrementalMerkleTree.
Definition sample_root : tree -> uint256 := root sample_combine sample_empty 4.
Definition sample_tree_ok (t : tree) : Prop := wire (tree_c 4) t /\ length (sample_root t) = 32%nat.

Lemma sample_tree_new : hash_ok (sample_empty 4) /\ sample_root tree_new = sample_empty 4 /\ sample_tree_ok tree_new.
Proof. unfold sample_tree_ok. cbn [wire tree_c]. split_and!; try done; vm_compute; discriminate. Qed.

#[local] Instance sample_view : CCoinsView (Tree := tree) CCoinsViewDB :=
  CCoinsViewDB_view sample_curve tree_new (tree_c 4) (sample_empty 4) 100.
#[local] Instance sample_abs : CCoinsViewAbs CCoinsViewDB :=
  CCoinsViewDB_abs sample_curve (tree_c 4) sample_root sample_tree_ok (sample_empty 4).
#[local] Instance sample_ok : CCoinsViewOk sample_root (coin_wire sample_curve) sample_tree_ok (sample_empty 4) CCoinsViewDB.
Proof.
  apply CCoinsViewDB_ok; [apply sample_curve_ok|apply tree_c_ok|by intros t [? _]|apply sample_tree_new].
Defined.
#[local] Instance sample_cache_abs : CCoinsViewAbs (CCoinsViewCache tree CCoinsViewDB) :=
  CCoinsViewCache_abs sample_root (coin_wire sample_curve) sample_tree_ok (sample_empty 4).

Definition sample_db : CCoinsViewDB := CoinsDB ∅.
Definition sample_cache : CCoinsViewCache tree CCoinsViewDB := CCoinsViewCache_new sample_db.
Definition sample_outpoint : COutPoint := OutPoint (replicate 32 7) 1.

Lemma sample_db_inv : db_inv sample_curve (tree_c 4) sample_root sample_tree_ok sample_db.
Proof. unfold db_inv, sample_db. cbn [db]. split_and!; intros; by rewrite lookup_empty. Qed.

Lemma sample_cache_inv : inv sample_cache.
Proof. split_and!; [apply sample_db_inv|done|done|..]; apply map_Forall_empty. Qed.

Lemma sample_outpoint_ok : outpoint_ok sample_outpoint.
Proof. split; [done|]. cbn. unfold in_u. lia. Qed.

Lemma sample_utxo_empty o : utxo (abs sample_cache) o = None.
Proof.
  cbn. unfold db_GetCoin, db_Read. cbn [db sample_db]. rewrite lookup_empty. by destruct (decide _).
Qed.

Lemma cache_is_utxo_set_witness :
  exists c', AddCoin sample_outpoint sample_coin false sample_cache = Ok c' /\
    utxo (abs c') sample_outpoint = Some sample_coin /\
    HaveCoin sample_outpoint sample_cache = (false, (HaveCoin sample_outpoint sample_cache).2).
Proof.
  destruct (cache_is_utxo_set sample_root (coin_wire sample_curve) sample_tree_ok (sample_empty 4) sample_cache
    sample_outpoint sample_cache_inv sample_outpoint_ok) as (Hadd & _ & _ & Hhave & _).
  destruct (Hadd sample_coin false eq_refl eq_refl sample_coin_wire (fun _ => sample_utxo_empty _)) as (c' & H1 & _ & H2 & _).
  exists c'. split; [exact H1|]. split.
  - rewrite H2. apply fn_lookup_insert.
  - destruct (HaveCoin sample_outpoint sample_cache) as [b c2]. destruct Hhave as [-> _].
    by rewrite bool_decide_eq_false_2 by (intros Hx; apply Hx, sample_utxo_empty).
Defined.

(** A cache with one new coin. *)
Definition full_cache : CCoinsViewCache tree CCoinsViewDB :=
  Cache CCoinsViewDB sample_db (leaf 1) {[sample_outpoint := CacheEntry sample_coin true true]} (leaf 2) ∅ ∅.

Lemma full_cache_inv : inv full_cache.
Proof.
  split_and!; [apply sample_db_inv|done|done| |apply map_Forall_empty|apply map_Forall_empty].
  cbn [cacheCoins full_cache]. apply map_Forall_singleton. unfold coin_cached, coin_entry_ok.
  split; [split; [exact sample_outpoint_ok|split]|].
  - intros _ _. exact sample_coin_wire.
  - intros _. exact (sample_utxo_empty _).
  - intros Hd. discriminate Hd.
Qed.

Lemma full_cache_utxo : utxo (abs full_cache) sample_outpoint = Some sample_coin.
Proof. reflexivity. Qed.

Lemma Flush_writes_through_witness :
  exists c', Flush full_cache = Ok (true, c') /\ utxo (abs (base c')) sample_outpoint = Some sample_coin.
Proof.
  destruct (Flush_writes_through sample_root (coin_wire sample_curve) sample_tree_ok (sample_empty 4) full_cache
    full_cache_inv eq_refl eq_refl) as (c' & H1 & _ & _ & _ & H2 & _).
  exists c'. split; [exact H1|]. rewrite H2. exact full_cache_utxo.
Defined.

(** A transaction that spends that coin. *)
Definition spend_tx : CTransaction :=
  Transaction 1 0 [TxIn sample_outpoint [] 0] [TxOut 7 [OP_1] NULL_ROUNDS] 0 None None.

Lemma transaction_inputs_witness :
  (HaveInputs spend_tx full_cache).1 = true /\
  exists c', GetValueIn spend_tx full_cache = Ok (150000000, c').
Proof.
  pose proof full_cache_utxo as Hu.
  destruct (transaction_inputs sample_root (coin_wire sample_curve) sample_tree_ok (sample_empty 4) full_cache spend_tx
    full_cache_inv) as (H1 & H2 & _); [constructor; [apply sample_outpoint_ok|constructor]|].
  split.
  - destruct (HaveInputs spend_tx full_cache) as [b c']. destruct H1 as (-> & _ & _). cbn [fst].
    change (IsCoinBase spend_tx) with false. change (HasZerocoinSpendInputs spend_tx) with false. cbn [orb].
    apply bool_decide_eq_true. constructor; [|constructor]. intros Hx.
    discriminate (eq_trans (eq_sym Hu) Hx).
  - assert (input_value (abs full_cache) (TxIn sample_outpoint [] 0) = 150000000) as Hv
      by (unfold input_value; cbn [prevout]; by rewrite Hu).
    specialize (H2 eq_refl eq_refl). cbn [vin spend_tx] in H2.
    assert (inputs_nonneg (abs full_cache) [TxIn sample_outpoint [] 0]) as Hnn by (constructor; [by rewrite Hv|constructor]).
    assert (inputs_value (abs full_cache) (vin spend_tx) = 150000000) as Hs
      by (unfold inputs_value; cbn [vin spend_tx fold_right]; by rewrite Hv).
    specialize (H2 Hnn 0 eq_refl).
    set (v := inputs_value _ _) in H2. assert (v = 150000000) as -> by exact Hs. destruct H2 as (c' & H3 & _). by exists c'.
Defined.

Lemma AddCoins_adds_outputs_witness :
  exists c', AddCoins ∅ sample_cache spend_tx 5 false true = Ok c' /\
    utxo (abs c') (OutPoint (GetHash spend_tx) 0) = Some (MkCoin false false (TxOut 7 [OP_1] NULL_ROUNDS) 5).
Proof.
  destruct (AddCoins_adds_outputs sample_root (coin_wire sample_curve) sample_tree_ok (sample_empty 4) sample_cache ∅
    spend_tx 5 false true sample_cache_inv) as (c' & H1 & _ & H2 & _).
  - cbn. lia.
  - constructor; [|constructor]. split; [done|]. intros _. split; [vm_compute; split; [discriminate|reflexivity]|].
    split; [vm_compute; split; discriminate|split; [vm_compute; discriminate|reflexivity]].
  - intros _ j _. apply sample_utxo_empty.
  - exists c'. split; [exact H1|]. rewrite H2. cbn [utxo with_utxo]. unfold added. cbn [out_hash out_n].
    rewrite bool_decide_eq_true_2 by (split; [done|lia]). reflexivity.
Defined.

Definition one_leaf : tree := Tree (Some (leaf 3)) None [].

Lemma anchors_push_pop_witness :
  let c := Cache CCoinsViewDB sample_db (leaf 1) ∅ (sample_empty 4) ∅ ∅ in
  best_anchor (abs (PushAnchor sample_root one_leaf c)) = sample_root one_leaf /\
  exists c2, PopAnchor tree_new (sample_empty 4) (PushAnchor sample_root one_leaf c) = Ok c2.
Proof.
  intros c. assert (inv c) as Hi by (split_and!; [apply sample_db_inv|done|done|..]; apply map_Forall_empty).
  destruct (anchors_push_pop tree_new sample_root (coin_wire sample_curve) sample_tree_ok (sample_empty 4) c one_leaf Hi)
    as (_ & H1 & _ & c2 & H2 & _).
  - reflexivity.
  - unfold sample_tree_ok. cbn [wire tree_c]. split; [|reflexivity]. split_and!; try done; vm_compute; discriminate.
  - reflexivity.
  - reflexivity.
  - reflexivity.
  - vm_compute. discriminate.
  - right. reflexivity.
  - split; [exact H1|]. by exists c2.
Defined.

(** Two coins are more than a batch of 100 bytes holds. *)
Definition sample_batch : batch (Tree := tree) :=
  Batch (<[OutPoint (replicate 32 8) 0 := CacheEntry sample_coin true true]> (cacheCoins full_cache))
    (leaf 1) (sample_empty 4) ∅ ∅.

Lemma interrupted_flush_witness :
  exists bs, db_batches sample_curve (tree_c 4) (sample_empty 4) 100 sample_batch sample_db = Ok bs /\
    db_GetHeadBlocks (CoinsDB (fold_left WriteBatch (take 1 bs) (db sample_db))) = [leaf 1; UINT256_ZERO].
Proof.
  destruct (db_batches sample_curve (tree_c 4) (sample_empty 4) 100 sample_batch sample_db) as [bs| | |] eqn:E;
    [|vm_compute in E; discriminate..].
  exists bs. split; [done|].
  destruct (interrupted_flush sample_curve (tree_c 4) sample_root sample_tree_ok (sample_empty 4) 100 sample_batch sample_db
    bs 1 sample_db_inv eq_refl eq_refl E) as (_ & H & _); [|exact H].
  assert (length (match db_batches sample_curve (tree_c 4) (sample_empty 4) 100 sample_batch sample_db with Ok bs => bs | _ => [] end) = 2%nat)
    as Hl by (vm_compute; reflexivity).
  rewrite E in Hl. lia.
Defined.
End Examples.
