(* ===== verification/TxVerify.v ===== *)
(** * Checking transactions: consensus/validation.h, consensus/tx_verify.cpp,
      sapling/sapling_validation.cpp, tiertwo/specialtx_validation.cpp, and
      [CheckTxInputs] and [CheckInputs] of validation.cpp

    [CValidationState] without the debug message, which is only logged.  A check
    that returns false is [Err st], with the state it leaves; one that returns
    true is [Ok].  The checks leave the state as it was unless they fail, except
    [CheckZerocoinSpend], a parameter: the legacy zerocoin proofs are not
    modelled.  The verification of Sapling proofs is that of librustzcash, a
    parameter with its context.  The signature cache of script/sigcache.cpp is
    left out: [Verify] is the answer of the cached checker. *)
From stdpp Require Import functions.
From S2P Require Import Prelude Serialize HashStream Sha256 Hash ArithUint256 Params Script Interpreter Standard.
From S2P Require Import Transaction Sighash Block Undo Coins.

(** ** The state of a validation *)

Definition REJECT_MALFORMED : Z := 0x01.
Definition REJECT_INVALID : Z := 0x10.
Definition REJECT_OBSOLETE : Z := 0x11.
Definition REJECT_DUPLICATE : Z := 0x12.
Definition REJECT_NONSTANDARD : Z := 0x40.
Definition REJECT_DUST : Z := 0x41.
Definition REJECT_INSUFFICIENTFEE : Z := 0x42.
Definition REJECT_CHECKPOINT : Z := 0x43.

Inductive mode_state : Type := MODE_VALID | MODE_INVALID | MODE_ERROR.
#[export] Instance mode_state_eq_dec : EqDecision mode_state.
Proof. solve_decision. Defined.

Record CValidationState := ValidationState {
  mode : mode_state;
  nDoS : Z;
  strRejectReason : string;
  chRejectCode : Z;
  corruptionPossible : bool;
}.

Definition CValidationState_new : CValidationState := ValidationState MODE_VALID 0 "" 0 false.

(** The state that [DoS], [Invalid] and [Error] leave. *)
Definition st_DoS (level code : Z) (reason : string) (corruption : bool) (st : CValidationState) : CValidationState :=
  if bool_decide (mode st = MODE_ERROR) then ValidationState MODE_ERROR (nDoS st) reason code corruption
  else ValidationState MODE_INVALID (nDoS st + level) reason code corruption.
Definition st_Invalid (code : Z) (reason : string) (st : CValidationState) : CValidationState :=
  st_DoS 0 code reason false st.
Definition st_Error (reason : string) (st : CValidationState) : CValidationState :=
  ValidationState MODE_ERROR (nDoS st) (if bool_decide (mode st = MODE_VALID) then reason else strRejectReason st)
    (chRejectCode st) (corruptionPossible st).

Definition IsValid (st : CValidationState) : bool := bool_decide (mode st = MODE_VALID).
Definition IsInvalid (st : CValidationState) : bool := bool_decide (mode st = MODE_INVALID).
Definition IsError (st : CValidationState) : bool := bool_decide (mode st = MODE_ERROR).

(** A check, and the two ways it refuses. *)
Notation chk := (outcome CValidationState).
Definition DoS {A} (st : CValidationState) (level code : Z) (reason : string) : chk A :=
  Err (st_DoS level code reason false st).
Definition Invalid {A} (st : CValidationState) (code : Z) (reason : string) : chk A :=
  Err (st_Invalid code reason st).

(** ** Constants *)

Definition MAX_TX_SIZE_AFTER_SAPLING : Z := 2000000.
Definition MAX_ZEROCOIN_TX_SIZE : Z := 1500000.
Definition MIN_COLDSTAKING_AMOUNT : Z := 1 * Transaction.COIN.
Definition MAX_SPECIALTX_EXTRAPAYLOAD : Z := 10000.
(** [CTransaction::TxVersion::TOOHIGH] *)
Definition TOOHIGH : Z := 4.

(** ** Final transactions and signature operations *)

Definition IsFinalTx (GetAdjustedTime : Z) (tx : CTransaction) (nBlockHeight nBlockTime : Z) : bool :=
  if nLockTime tx =? 0 then true else
  let nBlockTime := if nBlockTime =? 0 then GetAdjustedTime else nBlockTime in
  if nLockTime tx <? (if nLockTime tx <? LOCKTIME_THRESHOLD then nBlockHeight else nBlockTime) then true
  else forallb IsFinal (vin tx).

Fixpoint legacy_sigops {E} (scripts : list CScript) (nSigOps : Z) : outcome E Z :=
  match scripts with
  | [] => Ok nSigOps
  | s :: scripts => n ← GetSigOpCount s false; legacy_sigops scripts (u32 (nSigOps + n))
  end.
Definition GetLegacySigOpCount {E} (tx : CTransaction) : outcome E Z :=
  nSigOps ← legacy_sigops (map scriptSig (vin tx)) 0;
  legacy_sigops (map scriptPubKey (vout tx)) nSigOps.

(** ** Checks that need no coins *)

Section Checks.
Context (consensus : Params) (g_IsV6Active : bool).
Notation MoneyRange := (MoneyRange consensus).

(** tiertwo/specialtx_validation.cpp: no type of special transaction is known
    yet, the [switch] has no case. *)
Definition CheckSpecialTx (tx : CTransaction) (st : CValidationState) (fIsSaplingActive : bool) : chk unit :=
  if negb fIsSaplingActive then (if negb (hasExtraPayload tx) then Ok tt else Err st) else
  if negb (isSaplingVersion tx) && negb (nType tx =? NORMAL) then DoS st 100 REJECT_INVALID "bad-txns-type-version" else
  if nType tx =? NORMAL then
    if hasExtraPayload tx then DoS st 100 REJECT_INVALID "bad-txns-type-payload" else Ok tt
  else
  if negb (hasExtraPayload tx) then DoS st 100 REJECT_INVALID "bad-txns-payload-empty" else
  if MAX_SPECIALTX_EXTRAPAYLOAD <? zlen (default [] (extraPayload tx))
  then DoS st 100 REJECT_INVALID "bad-txns-payload-oversize" else
  DoS st 10 REJECT_INVALID "bad-tx-type".

(** The loop over the nullifiers: whether one comes twice. *)
Fixpoint repeated_nullifier (vSaplingNullifiers : gset (list Z)) (spends : list SpendDescription) : bool :=
  match spends with
  | [] => false
  | sd :: spends =>
      if bool_decide (nullifier sd ∈ vSaplingNullifiers) then true
      else repeated_nullifier ({[ nullifier sd ]} ∪ vSaplingNullifiers) spends
  end.

(** Returns the new [nValueOut]. *)
Definition CheckTransactionWithoutProofVerification (tx : CTransaction) (st : CValidationState) (nValueOut : CAmount)
  : chk CAmount :=
  cassert (isSaplingVersion tx);;
  match sapData tx with
  | None => Abort
  | Some d =>
      if bool_decide (vShieldedSpend d = []) && bool_decide (vShieldedOutput d = []) && negb (valueBalance d =? 0)
      then DoS st 100 REJECT_INVALID "bad-txns-valuebalance-nonzero" else
      if (nMaxMoneyOut consensus <? valueBalance d) || (valueBalance d <? - nMaxMoneyOut consensus)
      then DoS st 100 REJECT_INVALID "bad-txns-valuebalance-toolarge" else
      nValueOut ← (if valueBalance d <? 0 then
                     minus ← int64_result (- valueBalance d);
                     nValueOut ← int64_result (nValueOut + minus);
                     if negb (MoneyRange nValueOut) then DoS st 100 REJECT_INVALID "bad-txns-txouttotal-toolarge"
                     else Ok nValueOut
                   else Ok nValueOut);
      if (0 <? valueBalance d) && negb (MoneyRange (valueBalance d))
      then DoS st 100 REJECT_INVALID "bad-txns-txintotal-toolarge" else
      if repeated_nullifier ∅ (vShieldedSpend d)
      then DoS st 100 REJECT_INVALID "bad-spend-description-nullifiers-duplicate" else
      Ok nValueOut
  end.

(** [SaplingValidation::CheckTransaction] *)
Definition Sapling_CheckTransaction (tx : CTransaction) (st : CValidationState) (nValueOut : CAmount)
    (fIsSaplingActive : bool) : chk CAmount :=
  if negb (isSaplingVersion tx) && hasSaplingData tx then DoS st 100 REJECT_INVALID "bad-txns-form-not-sapling" else
  if negb (hasSaplingData tx) then Ok nValueOut else
  if IsCoinStake tx || IsCoinBase tx || HasZerocoinSpendInputs tx || HasZerocoinMintOutputs tx
  then DoS st 100 REJECT_INVALID "bad-txns-invalid-sapling" else
  if negb fIsSaplingActive then DoS st 100 REJECT_INVALID "bad-txns-invalid-sapling-act" else
  CheckTransactionWithoutProofVerification tx st nValueOut.

(** The loop over the outputs; it returns their sum on top of [nValueOut]. *)
Fixpoint check_outputs (tx : CTransaction) (fColdStakingActive : bool) (outs : list CTxOut) (st : CValidationState)
    (nValueOut : CAmount) : chk CAmount :=
  match outs with
  | [] => Ok nValueOut
  | txout :: outs =>
      if IsEmpty txout && negb (IsCoinBase tx) && negb (IsCoinStake tx)
      then DoS st 100 REJECT_INVALID "bad-txns-vout-empty" else
      if nValue txout <? 0 then DoS st 100 REJECT_INVALID "bad-txns-vout-negative" else
      if nMaxMoneyOut consensus <? nValue txout then DoS st 100 REJECT_INVALID "bad-txns-vout-toolarge" else
      nValueOut ← int64_result (nValueOut + nValue txout);
      if negb (MoneyRange nValueOut) then DoS st 100 REJECT_INVALID "bad-txns-txouttotal-toolarge" else
      (if IsPayToColdStaking g_IsV6Active (scriptPubKey txout) then
         if negb fColdStakingActive then DoS st 10 REJECT_INVALID "cold-stake-inactive" else
         if nValue txout <? MIN_COLDSTAKING_AMOUNT then DoS st 100 REJECT_INVALID "cold-stake-vout-toosmall"
         else Ok tt
       else Ok tt);;
      check_outputs tx fColdStakingActive outs st nValueOut
  end.

(** The loop over the inputs; it returns [nZCSpendCount]. *)
Fixpoint check_duplicates (vInOutPoints : gset COutPoint) (nZCSpendCount : Z) (ins : list CTxIn)
    (st : CValidationState) : chk Z :=
  match ins with
  | [] => Ok nZCSpendCount
  | txin :: ins =>
      if bool_decide (prevout txin ∈ vInOutPoints) then DoS st 100 REJECT_INVALID "bad-txns-inputs-duplicate" else
      if negb (CTxIn_IsZerocoinSpend txin) then check_duplicates ({[ prevout txin ]} ∪ vInOutPoints) nZCSpendCount ins st
      else check_duplicates vInOutPoints
             (if negb (CTxIn_IsZerocoinPublicSpend txin) then nZCSpendCount + 1 else nZCSpendCount) ins st
  end.

(** The node around the check: whether it is in the initial download, the time,
    and the time of the tip, if there is one. *)
Context (IsInitialBlockDownload : bool) (GetTime : Z) (tip_time : option Z).
Context (CheckZerocoinSpend : CTransaction -> bool -> CValidationState -> bool -> bool * CValidationState).

Definition CheckTransaction (tx : CTransaction) (fZerocoinActive : bool) (st : CValidationState)
    (fFakeSerialAttack fColdStakingActive fSaplingActive : bool) : chk CValidationState :=
  if bool_decide (vin tx = []) && match sapData tx with Some d => bool_decide (vShieldedSpend d = []) | None => false end
  then DoS st 10 REJECT_INVALID "bad-txns-vin-empty" else
  if bool_decide (vout tx = []) && match sapData tx with Some d => bool_decide (vShieldedOutput d = []) | None => false end
  then DoS st 10 REJECT_INVALID "bad-txns-vout-empty" else
  if fSaplingActive && ((nVersion tx <? 1) || (TOOHIGH <=? nVersion tx))
  then DoS st 10 REJECT_INVALID "bad-tx-version-too-high" else
  let nMaxSize := if IsShieldedTx tx then MAX_TX_SIZE_AFTER_SAPLING else MAX_ZEROCOIN_TX_SIZE in
  if nMaxSize <? GetTotalSize tx then DoS st 10 REJECT_INVALID "bad-txns-oversize" else
  nValueOut ← Sapling_CheckTransaction tx st 0 fSaplingActive;
  CheckSpecialTx tx st fSaplingActive;;
  check_outputs tx fColdStakingActive (vout tx) st nValueOut;;
  nZCSpendCount ← check_duplicates ∅ 0 (vin tx) st;
  st ← (if fZerocoinActive then
          if ZC_MaxSpendsPerTx consensus <? nZCSpendCount then DoS st 100 0 "" else
          if HasZerocoinSpendInputs tx then
            if existsb (fun txin => negb (CTxIn_IsZerocoinSpend txin) && negb (CTxIn_IsZerocoinPublicSpend txin)) (vin tx)
            then DoS st 100 0 "" else
            fVerifySignature ← (if IsInitialBlockDownload then Ok false else
                                match tip_time with
                                | None => Abort
                                | Some t => Ok (GetTime - t <? 60 * 60 * 24)
                                end);
            let '(ok, st) := CheckZerocoinSpend tx fVerifySignature st fFakeSerialAttack in
            if negb ok then DoS st 100 0 "" else Ok st
          else Ok st
        else Ok st);
  if IsCoinBase tx then
    i ← rd (vin tx) 0;
    if (zlen (scriptSig i) <? 2) || (150 <? zlen (scriptSig i)) then DoS st 100 REJECT_INVALID "bad-cb-length" else Ok st
  else if fZerocoinActive && HasZerocoinSpendInputs tx then
    if zlen (vin tx) <? 1 then DoS st 10 REJECT_INVALID "bad-zc-spend-min-inputs" else
    if HasZerocoinPublicSpendInputs tx then
      if ZC_MaxPublicSpendsPerTx consensus <? zlen (vin tx) then DoS st 10 REJECT_INVALID "bad-zc-spend-max-inputs"
      else Ok st
    else
      if ZC_MaxSpendsPerTx consensus <? zlen (vin tx) then DoS st 10 REJECT_INVALID "bad-zc-spend-max-inputs" else Ok st
  else
    if existsb (fun txin => COutPoint_IsNull (prevout txin) && (fZerocoinActive && negb (CTxIn_IsZerocoinSpend txin)))
         (vin tx)
    then DoS st 10 REJECT_INVALID "bad-txns-prevout-null" else Ok st.
End Checks.

(** ** Sapling proofs *)

Section Proofs.
Context {Ctx : Type} (verification_ctx_init : Ctx).
Context (check_spend : Ctx -> uint256 -> uint256 -> uint256 -> uint256 -> list Z -> list Z -> uint256 -> bool * Ctx).
Context (check_output : Ctx -> uint256 -> uint256 -> uint256 -> list Z -> bool * Ctx).
Context (final_check : Ctx -> CAmount -> list Z -> uint256 -> bool).
Context (generichash : list Z -> list Z -> uint256) (stray : Z).
Context (consensus : Params).

Fixpoint check_spends (spends : list SpendDescription) (dataToBeSigned : uint256) (ctx : Ctx) : option Ctx :=
  match spends with
  | [] => Some ctx
  | s :: spends =>
      let '(ok, ctx) := check_spend ctx (cv s) (anchor s) (nullifier s) (rk s) (zkproof s) (spendAuthSig s) dataToBeSigned in
      if negb ok then None else check_spends spends dataToBeSigned ctx
  end.
Fixpoint check_shielded_outputs (outs : list OutputDescription) (ctx : Ctx) : option Ctx :=
  match outs with
  | [] => Some ctx
  | o :: outs =>
      let '(ok, ctx) := check_output ctx (out_cv o) (cmu o) (ephemeralKey o) (out_zkproof o) in
      if negb ok then None else check_shielded_outputs outs ctx
  end.

(** [ContextualCheckTransaction]; a [std::logic_error] of [SignatureHash] is
    caught. *)
Definition ContextualCheckTransaction (tx : CTransaction) (st : CValidationState) (nHeight : Z)
    (isMined isInitBlockDownload : bool) : chk unit :=
  let dosLevelConstricting := if isMined then 100 else 10 in
  let dosLevelPotentiallyRelaxing := if isMined then 100 else if isInitBlockDownload then 0 else 10 in
  if negb (NetworkUpgradeActive consensus nHeight UPGRADE_V5_0) then Ok tt else
  if negb (isSaplingVersion tx) && hasSaplingData tx
  then DoS st dosLevelConstricting REJECT_INVALID "bad-tx-sapling-version-too-low" else
  if (IsCoinBase tx || IsCoinStake tx) && hasSaplingData tx
  then DoS st dosLevelPotentiallyRelaxing REJECT_INVALID "bad-cs-has-shielded-data" else
  match hasSaplingData tx, sapData tx with
  | true, Some d =>
      match SignatureHash (E := CValidationState) generichash stray [] tx NOT_AN_INPUT SIGHASH_ALL 0 SIGVERSION_SAPLING None with
      | Throw => DoS st 100 REJECT_INVALID "error-computing-signature-hash"
      | Abort => Abort
      | Err e => Err e
      | Ok dataToBeSigned =>
          match check_spends (vShieldedSpend d) dataToBeSigned verification_ctx_init with
          | None => DoS st dosLevelPotentiallyRelaxing REJECT_INVALID "bad-txns-sapling-spend-description-invalid"
          | Some ctx =>
              match check_shielded_outputs (vShieldedOutput d) ctx with
              | None => DoS st 100 REJECT_INVALID "bad-txns-sapling-output-description-invalid"
              | Some ctx =>
                  if negb (final_check ctx (valueBalance d) (bindingSig d) dataToBeSigned)
                  then DoS st dosLevelPotentiallyRelaxing REJECT_INVALID "bad-txns-sapling-binding-signature-invalid"
                  else Ok tt
              end
          end
      end
  | _, _ => Ok tt
  end.
End Proofs.

(** ** Checks and the rules they stand for *)

(** The check [m] passes exactly when the rule [Q] holds, and then its result
    has [P]; it never leaves by an exception or undefined behaviour. *)
Definition passes {E A} (m : outcome E A) (P : A -> Prop) (Q : Prop) : Prop :=
  match m with Ok a => P a /\ Q | Err _ => ~ Q | _ => False end.

Lemma passes_iff {E A} (m : outcome E A) P Q Q' : passes m P Q' -> (Q <-> Q') -> passes m P Q.
Proof. unfold passes. destruct m; tauto. Qed.
#[export] Instance passes_proper {E A} (m : outcome E A) P : Proper (iff ==> iff) (passes m P).
Proof. intros Q Q' HQ. unfold passes. destruct m; tauto. Qed.
Lemma passes_impl {E A} (m : outcome E A) (P P' : A -> Prop) Q : passes m P Q -> (forall a, P a -> P' a) -> passes m P' Q.
Proof. unfold passes. destruct m; try tauto. intros [H ?] HP. split; auto. Qed.
Lemma passes_ret {E A} (a : A) (P : A -> Prop) : P a -> passes (E := E) (Ok a) P True.
Proof. by split. Qed.
Lemma passes_dos {A} st l c s P : passes (DoS (A := A) st l c s) P False.
Proof. by intros []. Qed.
Lemma passes_bind {E A B} (m : outcome E A) (k : A -> outcome E B) P1 Q1 P2 Q2 :
  passes m P1 Q1 -> (forall a, P1 a -> passes (k a) P2 Q2) -> passes (a ← m; k a) P2 (Q1 /\ Q2).
Proof.
  unfold passes. destruct m; cbn [mbind outcome_bind]; try tauto.
  intros [H1 H2] Hk. specialize (Hk a H1). destruct (k a); tauto.
Qed.
Lemma passes_then {E A B} (m : outcome E A) (k : A -> outcome E B) P1 Q1 P2 Q2 :
  passes m P1 Q1 -> (forall a, P1 a -> Q1 -> passes (k a) P2 Q2) -> passes (a ← m; k a) P2 (Q1 /\ Q2).
Proof.
  unfold passes. destruct m; cbn [mbind outcome_bind]; try tauto.
  intros [H1 H2] Hk. specialize (Hk a H1 H2). destruct (k a); tauto.
Qed.
Lemma passes_refuse {E A} (b : bool) (e : E) (k : outcome E A) P Q :
  (b = false -> passes k P Q) -> passes (if b then Err e else k) P (b = false /\ Q).
Proof. destruct b; intros H; [intros []; done|]. unfold passes in *. specialize (H eq_refl). destruct k; tauto. Qed.
Lemma passes_if {E A} (b : bool) (m k : outcome E A) P Q1 Q2 :
  (b = true -> passes m P Q1) -> (b = false -> passes k P Q2) ->
  passes (if b then m else k) P ((b = true -> Q1) /\ (b = false -> Q2)).
Proof.
  destruct b; intros H1 H2; eapply passes_iff; [by apply H1|naive_solver|by apply H2|naive_solver].
Qed.
Lemma passes_int64 {E B} x (k : Z -> outcome E B) P Q :
  in_s 64 x -> passes (k x) P Q -> passes (v ← int64_result x; k v) P Q.
Proof. intros H Hk. rewrite int64_result_ok by done. exact Hk. Qed.

Lemma existsb_false {A} (f : A -> bool) l : existsb f l = false <-> Forall (fun x => f x = false) l.
Proof.
  induction l as [|x l IH]; cbn [existsb]; [split; [constructor|done]|].
  rewrite orb_false_iff, Forall_cons, IH. done.
Qed.
Lemma forallb_true {A} (f : A -> bool) l : forallb f l = true <-> Forall (fun x => f x = true) l.
Proof.
  induction l as [|x l IH]; cbn [forallb]; [split; [constructor|done]|].
  rewrite andb_true_iff, Forall_cons, IH. done.
Qed.

(** ** The rules of a transaction without zerocoin inputs *)

Section Rules.
Context (consensus : Params) (g_IsV6Active : bool).
Notation max := (nMaxMoneyOut consensus).
Hypothesis Hmax : 0 <= max < 2 ^ 62.
Hypothesis Hzc : 0 <= ZC_MaxSpendsPerTx consensus.

Definition payload_rule (tx : CTransaction) (fSaplingActive : bool) : Prop :=
  hasExtraPayload tx = false /\ (fSaplingActive = true -> nType tx = NORMAL).

Definition shielded_rule (tx : CTransaction) (fSaplingActive : bool) : Prop :=
  hasSaplingData tx = true ->
  isSaplingVersion tx = true /\ fSaplingActive = true /\
  IsCoinStake tx = false /\ IsCoinBase tx = false /\ HasZerocoinMintOutputs tx = false /\
  exists d, sapData tx = Some d /\ - max <= valueBalance d <= max /\
    (vShieldedSpend d = [] -> vShieldedOutput d = [] -> valueBalance d = 0) /\
    NoDup (map nullifier (vShieldedSpend d)).

Definition output_rule (tx : CTransaction) (fColdStakingActive : bool) (o : CTxOut) : Prop :=
  (IsEmpty o = true -> IsCoinBase tx = true \/ IsCoinStake tx = true) /\ 0 <= nValue o /\
  (IsPayToColdStaking g_IsV6Active (scriptPubKey o) = true -> fColdStakingActive = true /\ Transaction.COIN <= nValue o).

(** Neither inputs nor shielded spends; neither outputs nor shielded outputs. *)
Definition no_sources (tx : CTransaction) : Prop := vin tx = [] /\ exists d, sapData tx = Some d /\ vShieldedSpend d = [].
Definition no_sinks (tx : CTransaction) : Prop := vout tx = [] /\ exists d, sapData tx = Some d /\ vShieldedOutput d = [].

Definition input_rule (tx : CTransaction) (fZerocoinActive : bool) : Prop :=
  NoDup (map prevout (vin tx)) /\
  (if IsCoinBase tx then Forall (fun i => 2 <= zlen (scriptSig i) <= 150) (vin tx)
   else fZerocoinActive = true -> Forall (fun i => COutPoint_IsNull (prevout i) = false) (vin tx)).

Definition tx_rules (tx : CTransaction) (fZerocoinActive fColdStakingActive fSaplingActive : bool) : Prop :=
  ~ no_sources tx /\ ~ no_sinks tx /\
  (fSaplingActive = true -> 1 <= nVersion tx < TOOHIGH) /\
  GetTotalSize tx <= (if IsShieldedTx tx then MAX_TX_SIZE_AFTER_SAPLING else MAX_ZEROCOIN_TX_SIZE) /\
  shielded_rule tx fSaplingActive /\ payload_rule tx fSaplingActive /\
  Forall (output_rule tx fColdStakingActive) (vout tx) /\ sum_values (vout tx) + shielded_out tx <= max /\
  input_rule tx fZerocoinActive.

(** The ranges of the fields the checks compute with. *)
Definition values_wire (tx : CTransaction) : Prop :=
  Forall (fun o => in_s 64 (nValue o)) (vout tx) /\
  (forall d, sapData tx = Some d -> in_s 64 (valueBalance d)).

Lemma MoneyRange_iff v : MoneyRange consensus v = true <-> 0 <= v <= max.
Proof. unfold MoneyRange. rewrite andb_true_iff, !Z.leb_le. done. Qed.

Lemma CheckSpecialTx_passes tx st fSapling :
  passes (CheckSpecialTx tx st fSapling) (fun _ => True) (payload_rule tx fSapling).
Proof.
  unfold CheckSpecialTx, payload_rule, passes, DoS.
  destruct fSapling, (hasExtraPayload tx), (isSaplingVersion tx), (Z.eqb_spec (nType tx) NORMAL); cbn;
    try (destruct (_ <? _)); naive_solver.
Qed.

Lemma repeated_nullifier_false spends : forall seen,
  repeated_nullifier seen spends = false <->
  NoDup (map nullifier spends) /\ Forall (fun sd => nullifier sd ∉ seen) spends.
Proof.
  induction spends as [|sd spends IH]; intros seen; cbn [repeated_nullifier map].
  { split; [intros _; split; constructor|done]. }
  rewrite Forall_cons, NoDup_cons. case_bool_decide as Hin; [split; [done|tauto]|].
  rewrite IH, !Forall_forall. change (map nullifier) with (fmap (M := list) nullifier). rewrite list_elem_of_fmap.
  set_solver.
Qed.

Lemma WithoutProof_passes tx st d :
  sapData tx = Some d -> isSaplingVersion tx = true -> hasSaplingData tx = true -> in_s 64 (valueBalance d) ->
  passes (CheckTransactionWithoutProofVerification consensus tx st 0) (fun v => v = shielded_out tx /\ 0 <= v <= max)
    (- max <= valueBalance d <= max /\ (vShieldedSpend d = [] -> vShieldedOutput d = [] -> valueBalance d = 0) /\
     NoDup (map nullifier (vShieldedSpend d))).
Proof.
  intros Hd Hv Hs Hb. unfold CheckTransactionWithoutProofVerification. rewrite Hv, Hd. cbn [cassert mbind outcome_bind].
  eapply passes_iff.
  - apply passes_refuse. intros H1. apply passes_refuse. intros H2. apply orb_false_iff in H2 as [H2 H3].
    rewrite Z.ltb_ge in H2, H3. unfold in_s in Hb.
    eapply passes_bind with (P1 := fun v => v = shielded_out tx /\ 0 <= v <= max) (Q1 := True).
    + unfold shielded_out. rewrite Hd, Hs. destruct (Z.ltb_spec (valueBalance d) 0); cbn [andb].
      * apply passes_int64; [unfold in_s; lia|]. apply passes_int64; [unfold in_s; lia|].
        rewrite (proj2 (MoneyRange_iff (0 + - valueBalance d))) by lia. apply passes_ret. lia.
      * apply passes_ret. lia.
    + intros v Hvv. apply passes_refuse. intros _. apply passes_refuse. intros _. by apply passes_ret.
  - rewrite !andb_false_iff, orb_false_iff, !Z.ltb_ge, repeated_nullifier_false, !bool_decide_eq_false.
    rewrite !negb_false_iff, Z.eqb_eq, MoneyRange_iff, Forall_forall. split.
    + intros (Hr & He & Hn). split_and!; try tauto; try lia.
      * destruct (decide (vShieldedSpend d = [])), (decide (vShieldedOutput d = [])); auto.
      * set_solver.
    + intros (H1 & H2 & _ & _ & [Hn _] & _). split; [lia|]. split; [naive_solver|done].
Qed.

Lemma hasSaplingData_Some tx : hasSaplingData tx = true -> exists d, sapData tx = Some d.
Proof. unfold hasSaplingData. destruct (sapData tx); [by eexists|done]. Qed.

Lemma Sapling_passes tx st fSapling :
  values_wire tx -> HasZerocoinSpendInputs tx = false ->
  passes (Sapling_CheckTransaction consensus tx st 0 fSapling) (fun v => v = shielded_out tx /\ 0 <= v <= max)
    (shielded_rule tx fSapling).
Proof.
  intros [_ Hw] Hz. unfold Sapling_CheckTransaction, shielded_rule.
  destruct (hasSaplingData tx) eqn:Hs; cbn [negb]; rewrite ?andb_false_r, ?andb_true_r.
  2:{ eapply passes_iff; [apply passes_ret; unfold shielded_out; rewrite Hs; destruct (sapData tx); cbn; lia|].
      split; [done|by intros]. }
  destruct (hasSaplingData_Some tx Hs) as [d Hd]. rewrite Hz, orb_false_r. eapply passes_iff.
  - apply passes_refuse. intros H1%negb_false_iff. apply passes_refuse. intros H2. apply passes_refuse. intros H3.
    by apply WithoutProof_passes; [exact Hd| | |apply Hw].
  - rewrite !negb_false_iff, !orb_false_iff. split; [|naive_solver].
    intros H. destruct (H eq_refl) as (? & ? & ? & ? & ? & d' & Hd' & ?). replace d' with d in * by congruence. tauto.
Qed.

Lemma check_outputs_passes tx fCold st outs : forall acc,
  0 <= acc <= max -> Forall (fun o => in_s 64 (nValue o)) outs ->
  passes (check_outputs consensus g_IsV6Active tx fCold outs st acc) (fun v => v = acc + sum_values outs)
    (Forall (output_rule tx fCold) outs /\ acc + sum_values outs <= max).
Proof.
  induction outs as [|o outs IH]; intros acc Hacc Hw; cbn [check_outputs].
  { eapply passes_iff; [apply passes_ret; cbn; lia|]. split; [done|]. intros _. split; [constructor|cbn; lia]. }
  apply Forall_cons in Hw as [Ho Hw]. cbn [sum_values fold_right]. fold (sum_values outs).
  eapply passes_iff.
  - apply passes_refuse. intros H1. apply passes_refuse. intros H2. apply passes_refuse. intros H3.
    rewrite Z.ltb_ge in H2, H3. apply passes_int64; [unfold in_s; lia|].
    apply passes_refuse. intros H4. apply negb_false_iff, MoneyRange_iff in H4.
    eapply passes_bind with (P1 := fun _ => True).
    + apply passes_if; intros _; [|by apply passes_ret]. apply passes_refuse. intros H5.
      apply passes_refuse. intros H6. by apply passes_ret.
    + intros _ _. eapply passes_impl; [by apply IH|]. cbn beta. intros. lia.
  - rewrite Forall_cons. unfold output_rule at 1, MIN_COLDSTAKING_AMOUNT.
    rewrite !negb_false_iff, !andb_false_iff, !negb_false_iff, !Z.ltb_ge, MoneyRange_iff, Z.mul_1_l.
    destruct (IsEmpty o), (IsCoinBase tx), (IsCoinStake tx), (IsPayToColdStaking g_IsV6Active (scriptPubKey o)), fCold;
      (split; [intros (((He & Hn & Hc) & Hf) & Hs); assert (0 <= sum_values outs) by
          (apply sum_values_nonneg; eapply Forall_impl; [exact Hf|]; by intros ? (_ & ? & _))
        |intros (He & Hn & Hm & Hr & Hc & Hf & Hs)]); split_and!; try tauto; try lia; naive_solver lia.
Qed.

Lemma check_duplicates_passes ins st : forall seen k,
  Forall (fun i => CTxIn_IsZerocoinSpend i = false) ins ->
  passes (check_duplicates seen k ins st) (fun n => n = k)
    (NoDup (map prevout ins) /\ Forall (fun i => prevout i ∉ seen) ins).
Proof.
  induction ins as [|i ins IH]; intros seen k Hz; cbn [check_duplicates map].
  { eapply passes_iff; [by apply passes_ret|]. split; [done|]. intros _. split; constructor. }
  apply Forall_cons in Hz as [Hi Hz]. rewrite Hi. cbn [negb]. eapply passes_iff.
  - apply passes_refuse. intros _. by apply IH.
  - rewrite bool_decide_eq_false, NoDup_cons, !Forall_forall. change (map prevout) with (fmap (M := list) prevout).
    rewrite list_elem_of_fmap. set_solver.
Qed.

Lemma no_zerocoin_inputs tx : HasZerocoinSpendInputs tx = false ->
  Forall (fun i => CTxIn_IsZerocoinSpend i = false) (vin tx).
Proof.
  intros H. apply existsb_false in H. eapply Forall_impl; [exact H|]. cbn beta. intros i Hi.
  by apply orb_false_iff in Hi as [? _].
Qed.

Lemma IsCoinBase_one tx : IsCoinBase tx = true -> exists i, vin tx = [i].
Proof. unfold IsCoinBase. destruct (vin tx) as [|i [|]]; try done. intros _. by exists i. Qed.

Lemma shielded_sapling tx fSapling : shielded_rule tx fSapling -> 0 < shielded_out tx -> isSaplingVersion tx = true.
Proof.
  intros H. unfold shielded_out. destruct (sapData tx); [|lia]. destruct (hasSaplingData tx) eqn:E; cbn [andb]; [|lia].
  intros _. by apply H.
Qed.

Lemma values_range tx : Forall (fun o => 0 <= nValue o) (vout tx) ->
  sum_values (vout tx) + shielded_out tx <= max -> 0 <= sum_values (vout tx) + shielded_out tx.
Proof. intros H _. pose proof (sum_values_nonneg _ H). pose proof (shielded_out_nonneg tx). lia. Qed.

Context (IBD : bool) (now : Z) (tip : option Z).
Context (zspend : CTransaction -> bool -> CValidationState -> bool -> bool * CValidationState).
Notation CheckTx := (CheckTransaction consensus g_IsV6Active IBD now tip zspend).

Lemma sources_false {A B} tx (f : SaplingTxData -> list A) (l : list B) :
  bool_decide (l = []) && match sapData tx with Some d => bool_decide (f d = []) | None => false end = false <->
  ~ (l = [] /\ exists d, sapData tx = Some d /\ f d = []).
Proof.
  rewrite andb_false_iff, bool_decide_eq_false. destruct (sapData tx) as [d|]; [rewrite bool_decide_eq_false|naive_solver].
  split; [naive_solver|]. intros H. destruct l; [|by left]. right. intros Hf. apply H. naive_solver.
Qed.

Lemma prevouts_rule (fZerocoin : bool) ins : Forall (fun i => CTxIn_IsZerocoinSpend i = false) ins ->
  Forall (fun i => COutPoint_IsNull (prevout i) && (fZerocoin && negb (CTxIn_IsZerocoinSpend i)) = false) ins <->
  (fZerocoin = true -> Forall (fun i => COutPoint_IsNull (prevout i) = false) ins).
Proof.
  intros Hz. rewrite !Forall_forall in *. destruct fZerocoin; cbn [andb].
  - split; intros H; [intros _|]; intros i Hi; specialize (Hz i Hi); cbn beta in *.
    + specialize (H i Hi). rewrite Hz in H. by rewrite andb_true_r in H.
    + rewrite Hz, andb_true_r. by apply H.
  - split; [done|]. intros _ i _. apply andb_false_r.
Qed.

Lemma CheckTransaction_passes tx fZerocoin st fFake fCold fSapling :
  values_wire tx -> HasZerocoinSpendInputs tx = false ->
  passes (CheckTx tx fZerocoin st fFake fCold fSapling) (fun st' => st' = st)
    (tx_rules tx fZerocoin fCold fSapling).
Proof.
  intros Hw Hz. pose proof (no_zerocoin_inputs tx Hz) as Hzi. unfold CheckTransaction. rewrite Hz, andb_false_r. eapply passes_iff.
  - apply passes_refuse. intros _. apply passes_refuse. intros _. apply passes_refuse. intros _.
    apply passes_refuse. intros _. eapply passes_bind; [by apply Sapling_passes|]. intros v [-> Hv].
    eapply passes_bind; [apply CheckSpecialTx_passes|]. intros _ _.
    eapply passes_bind; [apply check_outputs_passes; [exact Hv|apply Hw]|]. intros _ _.
    eapply passes_bind; [by apply check_duplicates_passes|]. intros n ->.
    eapply passes_bind with (P1 := fun st' => st' = st) (Q1 := True).
    { destruct fZerocoin; [|by apply passes_ret]. destruct (Z.ltb_spec (ZC_MaxSpendsPerTx consensus) 0); [lia|].
      by apply passes_ret. }
    intros ? ->. apply passes_if with (Q1 := Forall (fun i => 2 <= zlen (scriptSig i) <= 150) (vin tx)); intros Hcb.
    + destruct (IsCoinBase_one tx Hcb) as [i Hi]. rewrite Hi. change (rd [i] 0) with (Ok (E := CValidationState) i).
      cbn [mbind outcome_bind]. eapply passes_iff; [apply passes_refuse; intros _; by apply passes_ret|].
      rewrite Forall_singleton, orb_false_iff, !Z.ltb_ge. tauto.
    + apply passes_refuse. intros _. by apply passes_ret.
  - unfold tx_rules, no_sources, no_sinks, input_rule.
    rewrite !sources_false, existsb_false, andb_false_iff, !orb_false_iff, !Z.ltb_ge, Z.leb_gt.
    rewrite (prevouts_rule fZerocoin (vin tx) Hzi). rewrite (Z.add_comm (shielded_out tx)).
    assert (Forall (fun i => prevout i ∉ (∅ : gset COutPoint)) (vin tx)) by (apply Forall_forall; set_solver).
    generalize (vin tx = [] /\ exists d, sapData tx = Some d /\ vShieldedSpend d = []).
    generalize (vout tx = [] /\ exists d, sapData tx = Some d /\ vShieldedOutput d = []). intros P1 P2.
    destruct fSapling, (IsCoinBase tx); naive_solver.
Qed.
End Rules.

(** ** Refusals *)

(** When [m] refuses, the state it leaves has [R]. *)
Definition refuses {A} (R : CValidationState -> Prop) (m : chk A) : Prop :=
  match m with Err e => R e | _ => True end.

Lemma refuses_bind {A B} R (m : chk A) (k : A -> chk B) :
  refuses R m -> (forall a, refuses R (k a)) -> refuses R (a ← m; k a).
Proof. destruct m; cbn; auto. Qed.
Lemma refuses_if {A} R (b : bool) (m k : chk A) : refuses R m -> refuses R k -> refuses R (if b then m else k).
Proof. by destruct b. Qed.
Lemma refuses_int64 R x : refuses R (int64_result (E := CValidationState) x).
Proof. unfold int64_result. by case_decide. Qed.
Lemma refuses_rd {A} R (l : list A) i : refuses R (rd (E := CValidationState) l i).
Proof. unfold rd. repeat case_match; done. Qed.

Lemma refuses_weaken {A} (R R' : CValidationState -> Prop) (m : chk A) :
  (forall e, R e -> R' e) -> refuses R m -> refuses R' m.
Proof. destruct m; cbn; auto. Qed.

Definition invalid_state (e : CValidationState) : Prop := IsValid e = false.
Lemma refuses_dos {A} st l c s : refuses invalid_state (DoS (A := A) st l c s).
Proof. unfold refuses, DoS, invalid_state, st_DoS. by case_bool_decide. Qed.
Lemma refuses_invalid {A} st c s : refuses invalid_state (Invalid (A := A) st c s).
Proof. apply refuses_dos. Qed.

Create HintDb checks discriminated.
#[export] Hint Resolve refuses_bind refuses_if refuses_int64 refuses_rd refuses_dos refuses_invalid : checks.
#[export] Hint Extern 1 (refuses _ (Ok _)) => exact I : checks.
#[export] Hint Extern 1 (refuses _ Abort) => exact I : checks.
#[export] Hint Extern 1 (refuses _ (cassert ?b)) => destruct b; exact I : checks.
#[export] Hint Extern 2 (refuses _ (match ?o with Some _ => _ | None => _ end)) => destruct o : checks.
#[export] Hint Extern 2 (refuses _ (let '(_, _) := ?p in _)) => destruct p : checks.

Section Refusals.
Context (consensus : Params) (g_IsV6Active : bool).

Lemma Sapling_refuses tx st v fSapling : refuses invalid_state (Sapling_CheckTransaction consensus tx st v fSapling).
Proof. unfold Sapling_CheckTransaction, CheckTransactionWithoutProofVerification. auto 20 with checks. Qed.

Lemma outputs_refuse tx fCold outs st : forall v,
  refuses invalid_state (check_outputs consensus g_IsV6Active tx fCold outs st v).
Proof. induction outs as [|o outs IH]; intros v; cbn [check_outputs]; auto 20 with checks. Qed.

Lemma duplicates_refuse ins st : forall seen k, refuses invalid_state (check_duplicates seen k ins st).
Proof. induction ins as [|i ins IH]; intros seen k; cbn [check_duplicates]; auto 20 with checks. Qed.

Lemma special_refuses tx st fSapling :
  refuses (fun e => IsValid e = false \/ fSapling = false /\ hasExtraPayload tx = true /\ e = st)
    (CheckSpecialTx tx st fSapling).
Proof.
  unfold CheckSpecialTx. destruct fSapling; cbn [negb].
  - apply (refuses_weaken invalid_state); [by left|]. auto 20 with checks.
  - destruct (hasExtraPayload tx); cbn; auto.
Qed.
End Refusals.

(** ** The theorems on transactions alone *)

(** C13: [CheckTransaction] of a transaction without zerocoin inputs accepts it
    exactly when it obeys the rules of format, size, shielded data, payload,
    output values, duplicate inputs and coinbase script, and then leaves the
    state alone; it never computes out of the range of int64_t.  What it accepts
    has a [GetValueOut] in the range of money. *)
Theorem CheckTransaction_iff (p : Params) (v6 ibd : bool) (now : Z) (tip : option Z)
    (zspend : CTransaction -> bool -> CValidationState -> bool -> bool * CValidationState)
    (tx : CTransaction) (fZerocoin fFake fCold fSapling : bool) (st : CValidationState) :
  0 <= nMaxMoneyOut p < 2 ^ 62 -> 0 <= ZC_MaxSpendsPerTx p -> values_wire tx -> HasZerocoinSpendInputs tx = false ->
  match CheckTransaction p v6 ibd now tip zspend tx fZerocoin st fFake fCold fSapling with
  | Ok st' => st' = st /\ tx_rules p v6 tx fZerocoin fCold fSapling /\
      exists v, GetValueOut (E := unit) tx = Ok v /\ MoneyRange p v = true
  | Err _ => ~ tx_rules p v6 tx fZerocoin fCold fSapling
  | _ => False
  end.
Proof.
  intros Hmax Hzc Hw Hz.
  pose proof (CheckTransaction_passes p v6 Hmax Hzc ibd now tip zspend tx fZerocoin st fFake fCold fSapling Hw Hz) as H.
  destruct (CheckTransaction _ _ _ _ _ _ _ _ _ _ _ _) as [st'|e| |]; try done. destruct H as [-> Hr].
  split; [done|]. split; [done|]. destruct Hr as (_ & _ & _ & _ & Hs & _ & Ho & Hsum & _).
  assert (Forall (fun o => 0 <= nValue o) (vout tx)) as Hnn by (eapply Forall_impl; [exact Ho|]; by intros ? (_ & ? & _)).
  exists (sum_values (vout tx) + shielded_out tx). split.
  - apply GetValueOut_nonneg; [done|]. split; [done|]. split; [unfold INT64_MAX; lia|]. by eapply shielded_sapling.
  - apply MoneyRange_iff. split; [by eapply values_range|done].
Qed.

(** Whatever the transaction, a refusal of [CheckTransaction] leaves a state
    that is not valid, so that it is reported and counted, with one exception:
    an extra payload before the Sapling upgrade is refused with the state
    untouched. *)
Theorem CheckTransaction_refusal (p : Params) (v6 ibd : bool) (now : Z) (tip : option Z)
    (zspend : CTransaction -> bool -> CValidationState -> bool -> bool * CValidationState)
    (tx : CTransaction) (fZerocoin fFake fCold fSapling : bool) (st e : CValidationState) :
  CheckTransaction p v6 ibd now tip zspend tx fZerocoin st fFake fCold fSapling = Err e ->
  IsValid e = false \/ (fSapling = false /\ hasExtraPayload tx = true /\ e = st).
Proof.
  intros He. set (R := fun e => IsValid e = false \/ fSapling = false /\ hasExtraPayload tx = true /\ e = st).
  assert (forall A (m : chk A), refuses invalid_state m -> refuses R m) as Hleft
    by (intros A m; apply refuses_weaken; by left).
  enough (refuses R (CheckTransaction p v6 ibd now tip zspend tx fZerocoin st fFake fCold fSapling)) as H
    by (rewrite He in H; exact H).
  pose proof (special_refuses tx st fSapling) as Hsp. unfold CheckTransaction.
  repeat (apply refuses_if; [apply Hleft, refuses_dos|]).
  apply refuses_bind; [apply Hleft, Sapling_refuses|]. intros v. apply refuses_bind; [exact Hsp|]. intros _. apply Hleft.
  apply refuses_bind; [apply outputs_refuse|]. intros _. apply refuses_bind; [apply duplicates_refuse|]. intros k.
  auto 20 with checks.
Qed.

(** ** Examples *)

Definition plain_tx : CTransaction :=
  Transaction 1 0 [TxIn (OutPoint (replicate 32 7) 1) [OP_1] 0xffffffff] [TxOut 5 [OP_1] NULL_ROUNDS] 0
    (Some SaplingTxData_new) None.
(** No inputs, and no shielded data at all rather than empty shielded data. *)
Definition sourceless_tx : CTransaction := Transaction 3 0 [] [TxOut 0 [OP_RETURN] NULL_ROUNDS] 0 None None.
(** An extra payload. *)
Definition payload_tx : CTransaction :=
  Transaction 3 1 [TxIn (OutPoint (replicate 32 7) 1) [] 0] [TxOut 5 [OP_1] NULL_ROUNDS] 0 None (Some [1]).
Definition no_zerocoins (tx : CTransaction) (fVerify : bool) (st : CValidationState) (fFake : bool)
  : bool * CValidationState := (true, st).
Notation check_on_main tx fSapling :=
  (CheckTransaction mainParams true true 0 None no_zerocoins tx true CValidationState_new false true fSapling).

Lemma CheckTransaction_iff_witness :
  check_on_main plain_tx true = Ok CValidationState_new /\ tx_rules mainParams true plain_tx true true true /\
  (exists v, GetValueOut (E := unit) plain_tx = Ok v /\ MoneyRange mainParams v = true) /\
  check_on_main sourceless_tx true = Ok CValidationState_new.
Proof.
  assert (check_on_main plain_tx true = Ok CValidationState_new) as E by (vm_compute; reflexivity).
  pose proof (CheckTransaction_iff mainParams true true 0 None no_zerocoins plain_tx true false true true CValidationState_new)
    as H. rewrite E in H. destruct H as (_ & Hr & Hv).
  - vm_compute. split; [discriminate|reflexivity].
  - vm_compute. discriminate.
  - split; [constructor; [vm_compute; split; [discriminate|reflexivity]|constructor]|].
    intros d [= <-]. vm_compute. split; [discriminate|reflexivity].
  - reflexivity.
  - split; [exact E|]. split; [exact Hr|]. split; [exact Hv|]. vm_compute. reflexivity.
Defined.

Lemma CheckTransaction_refusal_witness :
  check_on_main payload_tx false = Err CValidationState_new /\
  (IsValid CValidationState_new = false \/
   (false = false /\ hasExtraPayload payload_tx = true /\ CValidationState_new = CValidationState_new)).
Proof.
  assert (check_on_main payload_tx false = Err CValidationState_new) as E by (vm_compute; reflexivity).
  split; [exact E|]. exact (CheckTransaction_refusal mainParams true true 0 None no_zerocoins payload_tx true false true false
    CValidationState_new CValidationState_new E).
Defined.
