(* ===== verification/TxInputs.v ===== *)
(** * Checking the inputs of a transaction: consensus/tx_verify.cpp
      ([GetP2SHSigOpCount]) and validation.cpp ([CheckTxInputs], [CScriptCheck],
      [CheckInputs], [GetSpendHeight])

    The checks read coins through a cache, which fills as it is read: they
    return it.  When a check refuses, only the state is returned: the coins that
    were read into the cache do not change the set it stands for.  The
    verification of a signature is [Verify], with or without the signature
    cache. *)
From stdpp Require Import functions.
From S2P Require Import Prelude Serialize HashStream Sha256 Hash ArithUint256 Params Chain Script Interpreter Standard.
From S2P Require Import Transaction Sighash Block MerkleTree Undo Coins TxDB TxVerify.

(** script/script_error.cpp *)
Definition ScriptErrorString (serror : ScriptError) : string :=
  match serror with
  | SCRIPT_ERR_OK => "No error"
  | SCRIPT_ERR_EVAL_FALSE => "Script evaluated without error but finished with a false/empty top stack element"
  | SCRIPT_ERR_VERIFY => "Script failed an OP_VERIFY operation"
  | SCRIPT_ERR_EQUALVERIFY => "Script failed an OP_EQUALVERIFY operation"
  | SCRIPT_ERR_CHECKCOLDSTAKEVERIFY => "Script failed an OP_CHECKCOLDSTAKEVERIFY operation"
  | SCRIPT_ERR_CHECKMULTISIGVERIFY => "Script failed an OP_CHECKMULTISIGVERIFY operation"
  | SCRIPT_ERR_CHECKSIGVERIFY => "Script failed an OP_CHECKSIGVERIFY operation"
  | SCRIPT_ERR_NUMEQUALVERIFY => "Script failed an OP_NUMEQUALVERIFY operation"
  | SCRIPT_ERR_SCRIPT_SIZE => "Script is too big"
  | SCRIPT_ERR_PUSH_SIZE => "Push value size limit exceeded"
  | SCRIPT_ERR_OP_COUNT => "Operation limit exceeded"
  | SCRIPT_ERR_STACK_SIZE => "Stack size limit exceeded"
  | SCRIPT_ERR_SIG_COUNT => "Signature count negative or greater than pubkey count"
  | SCRIPT_ERR_PUBKEY_COUNT => "Pubkey count negative or limit exceeded"
  | SCRIPT_ERR_BAD_OPCODE => "Opcode missing or not understood"
  | SCRIPT_ERR_DISABLED_OPCODE => "Attempted to use a disabled opcode"
  | SCRIPT_ERR_INVALID_STACK_OPERATION => "Operation not valid with the current stack size"
  | SCRIPT_ERR_INVALID_ALTSTACK_OPERATION => "Operation not valid with the current altstack size"
  | SCRIPT_ERR_OP_RETURN => "OP_RETURN was encountered"
  | SCRIPT_ERR_UNBALANCED_CONDITIONAL => "Invalid OP_IF construction"
  | SCRIPT_ERR_NEGATIVE_LOCKTIME => "Negative locktime"
  | SCRIPT_ERR_UNSATISFIED_LOCKTIME => "Locktime requirement not satisfied"
  | SCRIPT_ERR_SIG_HASHTYPE => "Signature hash type missing or not understood"
  | SCRIPT_ERR_SIG_DER => "Non-canonical DER signature"
  | SCRIPT_ERR_MINIMALDATA => "Data push larger than necessary"
  | SCRIPT_ERR_SIG_PUSHONLY => "Only non-push operators allowed in signatures"
  | SCRIPT_ERR_SIG_HIGH_S => "Non-canonical signature: S value is unnecessarily high"
  | SCRIPT_ERR_SIG_NULLDUMMY => "Dummy CHECKMULTISIG argument must be zero"
  | SCRIPT_ERR_DISCOURAGE_UPGRADABLE_NOPS => "NOPx reserved for soft-fork upgrades"
  | SCRIPT_ERR_PUBKEYTYPE => "Public key is neither compressed or uncompressed"
  | SCRIPT_ERR_UNKNOWN_ERROR => "unknown error"
  end.

(** policy/policy.h *)
Definition MANDATORY_SCRIPT_VERIFY_FLAGS : Z := SCRIPT_VERIFY_P2SH.
Definition STANDARD_SCRIPT_VERIFY_FLAGS : Z :=
  fold_left Z.lor [SCRIPT_VERIFY_DERSIG; SCRIPT_VERIFY_STRICTENC; SCRIPT_VERIFY_MINIMALDATA; SCRIPT_VERIFY_NULLDUMMY;
    SCRIPT_VERIFY_DISCOURAGE_UPGRADABLE_NOPS; SCRIPT_VERIFY_LOW_S] MANDATORY_SCRIPT_VERIFY_FLAGS.
Definition STANDARD_NOT_MANDATORY_VERIFY_FLAGS : Z :=
  Z.ldiff STANDARD_SCRIPT_VERIFY_FLAGS MANDATORY_SCRIPT_VERIFY_FLAGS.

(** A step on a cache among checks: it cannot refuse. *)
Definition on_coins {A} (m : coins A) : chk A :=
  match m with Ok a => Ok a | Err _ => Abort | Throw => Throw | Abort => Abort end.

Section Inputs.
Context {Tree V : Type} {BaseView : @CCoinsView Tree V}.
Notation cache := (CCoinsViewCache Tree V).
Context (consensus : Params).

Fixpoint p2sh_sigops (ins : list CTxIn) (nSigOps : Z) (inputs : cache) : chk (Z * cache) :=
  match ins with
  | [] => Ok (nSigOps, inputs)
  | i :: ins =>
      let '(co, inputs) := AccessCoin (prevout i) inputs in
      let script := scriptPubKey (out co) in
      nSigOps ← (if IsPayToScriptHash script then
                   n ← GetSigOpCountP2SH script (scriptSig i); Ok (u32 (nSigOps + n))
                 else Ok nSigOps);
      p2sh_sigops ins nSigOps inputs
  end.
Definition GetP2SHSigOpCount (tx : CTransaction) (inputs : cache) : chk (Z * cache) :=
  if IsCoinBase tx || HasZerocoinSpendInputs tx then Ok (0, inputs) else p2sh_sigops (vin tx) 0 inputs.

(** [GetSpendHeight]; [mapBlockIndex] is the table of all blocks by hash. *)
Definition GetSpendHeight (mapBlockIndex : gmap (list Z) positive) (blocks : store) (inputs : cache) : chk (Z * cache) :=
  let '(h, inputs) := GetBestBlock inputs in
  match mapBlockIndex !! h with
  | None => Abort
  | Some id => match blocks !! id with Some b => Ok (Chain.nHeight b + 1, inputs) | None => Abort end
  end.

(** The loop over the inputs of [CheckTxInputs]. *)
Fixpoint check_input_values (ins : list CTxIn) (st : CValidationState) (nSpendHeight : Z) (nValueIn : CAmount)
    (inputs : cache) : chk (CAmount * cache) :=
  match ins with
  | [] => Ok (nValueIn, inputs)
  | i :: ins =>
      let '(co, inputs) := AccessCoin (prevout i) inputs in
      cassert (negb (IsSpent co));;
      if (fCoinBase co || fCoinStake co) && (nSpendHeight - Undo.nHeight co <? nCoinbaseMaturity consensus)
      then TxVerify.Invalid st REJECT_INVALID "bad-txns-premature-spend-of-coinbase-coinstake" else
      nValueIn ← int64_result (nValueIn + nValue (out co));
      if negb (MoneyRange consensus (nValue (out co))) || negb (MoneyRange consensus nValueIn)
      then DoS st 100 REJECT_INVALID "bad-txns-inputvalues-outofrange" else
      check_input_values ins st nSpendHeight nValueIn inputs
  end.

Definition CheckTxInputs (tx : CTransaction) (st : CValidationState) (inputs : cache) (nSpendHeight : Z) : chk cache :=
  let '(have, inputs) := HaveInputs tx inputs in
  if negb have then Invalid st 0 "" else
  let '(met, inputs) := HaveShieldedRequirements tx inputs in
  if negb met then Invalid st 0 "" else
  r ← check_input_values (vin tx) st nSpendHeight 0 inputs;
  let '(nValueIn, inputs) := r in
  sh ← GetShieldedValueIn tx;
  nValueIn ← int64_result (nValueIn + sh);
  if negb (IsCoinStake tx) then
    nValueOut ← GetValueOut tx;
    if nValueIn <? nValueOut then DoS st 100 REJECT_INVALID "bad-txns-in-belowout" else
    nTxFee ← int64_result (nValueIn - nValueOut);
    if nTxFee <? 0 then DoS st 100 REJECT_INVALID "bad-txns-fee-negative" else
    if negb (MoneyRange consensus (0 + nTxFee)) then DoS st 100 REJECT_INVALID "bad-txns-fee-outofrange" else
    Ok inputs
  else Ok inputs.

(** ** Script checks *)

Record CScriptCheck := ScriptCheck {
  check_scriptPubKey : CScript;
  check_amount : CAmount;
  check_nIn : Z;
  check_nFlags : Z;
  cacheStore : bool;
}.

Context (generichash : list Z -> list Z -> uint256) (stray : Z) (CheckLowS : valtype -> bool) (g_IsV6Active : bool).
(** [Verify cacheStore]: the answer of [CachingTransactionSignatureChecker]. *)
Context (Verify : bool -> valtype -> uint256 -> valtype -> bool).

(** [CScriptCheck::operator()], of a check that belongs to [tx]: whether it
    passes, and the error. *)
Definition run_check (tx : CTransaction) (precomTxData : option PrecomputedTransactionData) (k : CScriptCheck)
  : chk (bool * ScriptError) :=
  i ← rd (vin tx) (check_nIn k);
  let checker := TransactionSignatureChecker generichash stray (Verify (cacheStore k)) tx (check_nIn k) (check_amount k)
                   precomTxData in
  match @VerifyScript CheckLowS g_IsV6Active checker (scriptSig i) (check_scriptPubKey k) (check_nFlags k)
          (GetRequiredSigVersion tx) with
  | Ok _ => Ok (true, SCRIPT_ERR_OK)
  | Err e => Ok (false, e)
  | Throw => Throw
  | Abort => Abort
  end.

(** The loop of [CheckInputs] from input [i]; [pvChecks] are the checks put
    aside, if they are put aside. *)
Fixpoint check_scripts (tx : CTransaction) (precomTxData : option PrecomputedTransactionData) (st : CValidationState)
    (flags : Z) (store : bool) (ins : list CTxIn) (i : Z) (pvChecks : option (list CScriptCheck)) (inputs : cache)
  : chk (option (list CScriptCheck) * cache) :=
  match ins with
  | [] => Ok (pvChecks, inputs)
  | txin :: ins =>
      let '(co, inputs) := AccessCoin (prevout txin) inputs in
      cassert (negb (IsSpent co));;
      let check := ScriptCheck (scriptPubKey (out co)) (nValue (out co)) i flags store in
      match pvChecks with
      | Some l => check_scripts tx precomTxData st flags store ins (i + 1) (Some (l ++ [check])) inputs
      | None =>
          r ← run_check tx precomTxData check;
          if negb r.1 then
            (if negb (Z.land flags STANDARD_NOT_MANDATORY_VERIFY_FLAGS =? 0) then
               let check2 := ScriptCheck (scriptPubKey (out co)) (nValue (out co)) i
                               (Z.ldiff flags STANDARD_NOT_MANDATORY_VERIFY_FLAGS) store in
               r2 ← run_check tx precomTxData check2;
               if (r2 : bool * ScriptError).1 then TxVerify.Invalid (A := unit) st REJECT_NONSTANDARD
                 (String.append "non-mandatory-script-verify-flag (" (String.append (ScriptErrorString r.2) ")"))
               else Ok tt
             else (Ok tt : chk unit));;
            DoS st 100 REJECT_INVALID
              (String.append "mandatory-script-verify-flag-failed (" (String.append (ScriptErrorString r.2) ")"))
          else check_scripts tx precomTxData st flags store ins (i + 1) None inputs
      end
  end.

Definition CheckInputs (mapBlockIndex : gmap (list Z) positive) (blocks : store)
    (tx : CTransaction) (st : CValidationState) (inputs : cache) (fScriptChecks : bool) (flags : Z) (store : bool)
    (precomTxData : option PrecomputedTransactionData) (pvChecks : option (list CScriptCheck))
  : chk (option (list CScriptCheck) * cache) :=
  if negb (IsCoinBase tx) && negb (HasZerocoinSpendInputs tx) then
    r ← GetSpendHeight mapBlockIndex blocks inputs;
    let '(nSpendHeight, inputs) := r in
    inputs ← CheckTxInputs tx st inputs nSpendHeight;
    if fScriptChecks then check_scripts tx precomTxData st flags store (vin tx) 0 pvChecks inputs
    else Ok (pvChecks, inputs)
  else Ok (pvChecks, inputs).
End Inputs.

Lemma passes_reject {A} (b : bool) st c s (k : chk A) P Q :
  (b = false -> passes k P Q) -> passes (if b then TxVerify.Invalid st c s else k) P (b = false /\ Q).
Proof. apply passes_refuse. Qed.
Lemma passes_value {A B} (a : A) (k : A -> chk B) P Q : passes (k a) P Q -> passes (x ← Ok a; k x) P Q.
Proof. done. Qed.

(** ** The rules of the inputs *)

Section Rules.
Context {Tree : Type} (root : Tree -> uint256).
Context (storable : Coin -> Prop) (tree_ok : Tree -> Prop) (empty_root : uint256).
Context {V : Type} `{CCoinsViewOk (Tree := Tree) root storable tree_ok empty_root V}.
Notation cache := (CCoinsViewCache Tree V).
#[local] Instance contents : CCoinsViewAbs cache := CCoinsViewCache_abs root storable tree_ok empty_root.
Context (consensus : Params).
Notation max := (nMaxMoneyOut consensus).
Hypothesis Hmax : 0 <= max < 2 ^ 61.

Definition mature (nSpendHeight : Z) (co : Coin) : Prop :=
  fCoinBase co || fCoinStake co = true -> nCoinbaseMaturity consensus <= nSpendHeight - Undo.nHeight co.

(** An input spends a coin that is there and mature, of a value that is not
    negative. *)
Definition coin_rule (a : coin_set) (nSpendHeight : Z) (i : CTxIn) : Prop :=
  exists co, utxo a (prevout i) = Some co /\ mature nSpendHeight co /\ 0 <= nValue (out co).

Definition shielded_spends (tx : CTransaction) : list SpendDescription :=
  if IsShieldedTx tx then match sapData tx with Some d => vShieldedSpend d | None => [] end else [].

(** What the shielded part brings to the transparent pool, and what the
    transaction pays in all. *)
Definition shielded_in (tx : CTransaction) : Z :=
  match sapData tx with
  | Some d => if hasSaplingData tx && (0 <? valueBalance d) then valueBalance d else 0
  | None => 0
  end.
Definition paid_out (tx : CTransaction) : Z := sum_values (vout tx) + shielded_out tx.

Definition inputs_rules (a : coin_set) (tx : CTransaction) (nSpendHeight : Z) : Prop :=
  Forall (coin_rule a nSpendHeight) (vin tx) /\ Forall (spend_allowed a) (shielded_spends tx) /\
  inputs_value a (vin tx) <= max /\
  (IsCoinStake tx = false -> 0 <= inputs_value a (vin tx) + shielded_in tx - paid_out tx <= max).

Definition values_small (a : coin_set) : Prop := forall o co, utxo a o = Some co -> in_s 63 (nValue (out co)).

Lemma stays_values (c c' : cache) : stays c c' -> values_small (abs c) -> values_small (abs c').
Proof. intros [_ (Eu & _)] Hv o co Hc. apply (Hv o). by rewrite <- Eu. Qed.
Lemma keeps_trans (c c1 c2 : cache) : stays c c1 -> stays c1 c2 -> stays c c2.
Proof. apply stays_trans. Qed.
Lemma coin_rule_proper a b h i : a ≡ b -> coin_rule a h i <-> coin_rule b h i.
Proof. intros (Eu & _). unfold coin_rule. by setoid_rewrite Eu. Qed.

Lemma coin_rules_proper a b h ins : a ≡ b -> Forall (coin_rule a h) ins <-> Forall (coin_rule b h) ins.
Proof. intros E. rewrite !Forall_forall. by setoid_rewrite (fun i => coin_rule_proper a b h i E). Qed.

Lemma spends_allowed_proper a b sds : a ≡ b -> Forall (spend_allowed a) sds <-> Forall (spend_allowed b) sds.
Proof.
  intros (_ & _ & Ek & En & _). rewrite !Forall_forall. unfold spend_allowed.
  setoid_rewrite Ek. by setoid_rewrite En.
Qed.

Lemma inputs_rules_proper a b tx h : a ≡ b -> inputs_rules a tx h <-> inputs_rules b tx h.
Proof.
  intros E. unfold inputs_rules.
  by rewrite (coin_rules_proper _ _ _ _ E), (spends_allowed_proper _ _ _ E), (inputs_value_proper _ _ _ E).
Qed.

Lemma AccessCoin_there o (c : cache) co c' u :
  outpoint_ok o -> inv c -> AccessCoin o c = (co, c') -> utxo (abs c) o = Some u -> co = u /\ IsSpent co = false /\ stays c c'.
Proof.
  intros Ho Hi E Hu. destruct (AccessCoin_ok root storable tree_ok empty_root o c co c' Ho Hi E) as [Hc Hs].
  fold contents in Hc, Hs. rewrite Hu in Hc. unfold unspent in Hc. destruct (IsSpent co); [done|]. split; [congruence|done].
Qed.

Lemma present_coin a ins i : spends_present a (i :: ins) -> exists u, utxo a (prevout i) = Some u /\ spends_present a ins.
Proof.
  intros [Hp Hr]%Forall_cons. destruct (utxo a (prevout i)) as [u|] eqn:E; [by exists u|done].
Qed.

Lemma check_values_pass ins st h : forall acc (c : cache),
  Forall (fun i => outpoint_ok (prevout i)) ins -> inv c -> values_small (abs c) -> spends_present (abs c) ins ->
  0 <= acc <= max ->
  passes (check_input_values consensus ins st h acc c)
    (fun r => r.1 = acc + inputs_value (abs c) ins /\ stays c r.2 /\ 0 <= r.1)
    (Forall (coin_rule (abs c) h) ins /\ acc + inputs_value (abs c) ins <= max).
Proof.
  induction ins as [|i ins IH]; intros acc c Hok Hi Hv Hp Hacc; cbn [check_input_values].
  { eapply passes_iff; [apply passes_ret; cbn; split; [lia|split; [by split|lia]]|].
    split; [done|]. intros _. split; [constructor|cbn; lia]. }
  apply Forall_cons in Hok as [Ho Hok]. destruct (present_coin _ _ _ Hp) as (u & Hu & Hp').
  destruct (AccessCoin (prevout i) c) as [co c1] eqn:E.
  destruct (AccessCoin_there _ _ _ _ _ Ho Hi E Hu) as (-> & Hns & Hs). rewrite Hns. cbn [negb cassert mbind outcome_bind].
  assert (input_value (abs c) i = nValue (out u)) as Hiv by (unfold input_value; by rewrite Hu).
  cbn [inputs_value fold_right]. fold (inputs_value (abs c) ins). rewrite Hiv.
  pose proof (Hv _ _ Hu) as Hr. unfold in_s in Hr. change (2 ^ (63 - 1)) with 4611686018427387904 in Hr.
  eapply passes_iff.
  - apply passes_reject. intros _. apply passes_int64; [unfold in_s; lia|]. apply passes_refuse. intros H2.
    apply orb_false_iff in H2 as [H2 H3]. apply negb_false_iff, MoneyRange_iff in H2, H3.
    eapply passes_impl.
    + apply IH; [done|by apply Hs|by eapply stays_values| |done].
      by apply (spends_present_proper _ _ ins (proj2 Hs)).
    + cbn beta. rewrite (inputs_value_proper _ _ ins (proj2 Hs)). intros r (-> & Hs2 & Hr0).
      split; [lia|]. split; [by eapply stays_trans|done].
  - rewrite (inputs_value_proper _ _ ins (proj2 Hs)), Forall_cons.
    rewrite (coin_rules_proper _ _ h ins (proj2 Hs)).
    rewrite orb_false_iff, !negb_false_iff, !MoneyRange_iff.
    assert (coin_rule (abs c) h i <-> mature h u /\ 0 <= nValue (out u)) as ->.
    { unfold coin_rule. rewrite Hu. split; [intros (? & [= <-] & ?); done|]. intros ?. by exists u. }
    assert (Forall (coin_rule (abs c) h) ins -> 0 <= inputs_value (abs c) ins).
    { clear. unfold inputs_value. induction 1 as [|j l (co & Ej & _ & Hj) _ IHl]; cbn [fold_right]; [lia|].
      unfold input_value at 1. rewrite Ej. lia. }
    unfold mature. destruct (fCoinBase u || fCoinStake u); cbn [andb]; rewrite ?Z.ltb_ge;
      split; intros; split_and!; naive_solver lia.
Qed.

Lemma requirements_ok tx (c : cache) r c' :
  Forall (fun sd => hash_ok (nullifier sd) /\ hash_ok (anchor sd)) (shielded_spends tx) -> inv c ->
  HaveShieldedRequirements tx c = (r, c') ->
  (r = true <-> Forall (spend_allowed (abs c)) (shielded_spends tx)) /\ stays c c'.
Proof.
  unfold shielded_spends, HaveShieldedRequirements. intros Hh Hi.
  destruct (IsShieldedTx tx); [|intros [= <- <-]; split; [split; [constructor|done]|by split]].
  destruct (sapData tx) as [d|]; [|intros [= <- <-]; split; [split; [constructor|done]|by split]]. intros E.
  destruct (shielded_requirements_ok root storable tree_ok empty_root _ c r c' Hh Hi E) as [-> Hs].
  split; [apply bool_decide_eq_true|exact Hs].
Qed.

Section Accepted.
Context (tx : CTransaction) (v6 fZerocoin fCold fSapling : bool).
Hypothesis Hrules : tx_rules consensus v6 tx fZerocoin fCold fSapling.

Lemma accepted_values :
  Forall (fun o => 0 <= nValue o) (vout tx) /\ 0 <= paid_out tx <= max /\ 0 <= shielded_in tx <= max /\
  GetShieldedValueIn (E := CValidationState) tx = Ok (shielded_in tx) /\
  GetValueOut (E := CValidationState) tx = Ok (paid_out tx).
Proof.
  destruct Hrules as (_ & _ & _ & _ & Hsh & _ & Ho & Hsum & _).
  assert (Forall (fun o => 0 <= nValue o) (vout tx)) as Hnn by (eapply Forall_impl; [exact Ho|]; by intros ? (_ & ? & _)).
  pose proof (values_range consensus tx Hnn Hsum). unfold paid_out. split; [done|]. split; [lia|].
  assert (0 <= shielded_in tx <= max /\ GetShieldedValueIn (E := CValidationState) tx = Ok (shielded_in tx)) as [].
  { unfold shielded_in, GetShieldedValueIn. unfold shielded_rule in Hsh.
    destruct (sapData tx) as [d|] eqn:Ed; [|split; [lia|done]].
    destruct (hasSaplingData tx); cbn [andb]; [|split; [lia|done]].
    destruct (Hsh eq_refl) as (-> & _ & _ & _ & _ & d' & [= <-] & Hb & _).
    destruct (Z.ltb_spec 0 (valueBalance d)); split; try lia; done. }
  split; [done|]. split; [done|]. apply GetValueOut_nonneg; [done|]. split; [done|].
  split; [unfold INT64_MAX; lia|by eapply shielded_sapling].
Qed.

Hypothesis Hout : Forall (fun i => outpoint_ok (prevout i)) (vin tx).
Hypothesis Hhash : Forall (fun sd => hash_ok (nullifier sd) /\ hash_ok (anchor sd)) (shielded_spends tx).
Hypothesis Hplain : IsCoinBase tx = false /\ HasZerocoinSpendInputs tx = false.

Lemma coin_rules_present a h ins : Forall (coin_rule a h) ins -> spends_present a ins.
Proof. intros Hf. eapply Forall_impl; [exact Hf|]. intros i (co & E & _). by rewrite E. Qed.

Lemma CheckTxInputs_passes st (c : cache) h :
  inv c -> values_small (abs c) ->
  passes (CheckTxInputs consensus tx st c h) (fun c' => stays c c') (inputs_rules (abs c) tx h).
Proof.
  intros Hi Hv. destruct accepted_values as (_ & Hpo & Hsi & Esh & Eout). destruct Hplain as [Hcb Hz].
  unfold CheckTxInputs. destruct (HaveInputs tx c) as [have c1] eqn:E1.
  destruct (HaveInputs_ok root storable tree_ok empty_root tx c have c1 Hout Hi E1) as [Hhave Hs1].
  rewrite Hcb, Hz in Hhave. cbn [orb] in Hhave. fold contents in Hs1, Hhave.
  destruct (HaveShieldedRequirements tx c1) as [met c2] eqn:E2.
  destruct (requirements_ok tx c1 met c2 Hhash (proj1 Hs1) E2) as [Hmet Hs2].
  pose proof (keeps_trans _ _ _ Hs1 Hs2) as Hs12.
  eapply passes_iff.
  - apply passes_reject. intros Hp. apply negb_false_iff in Hp. rewrite Hhave in Hp. apply bool_decide_eq_true in Hp.
    apply passes_reject. intros Hq.
    eapply passes_then; [apply check_values_pass; [exact Hout|by apply Hs2|by eapply stays_values| |lia]|].
    { by apply (spends_present_proper _ _ (vin tx) (proj2 Hs12)). }
    rewrite (inputs_value_proper _ _ (vin tx) (proj2 Hs12)). intros [v c3]. cbn [fst snd].
    intros (-> & Hs3 & Hpos) [_ Hin]. pose proof (keeps_trans _ _ _ Hs12 Hs3) as Hs.
    rewrite Z.add_0_l in *. rewrite Esh. apply passes_value, passes_int64; [unfold in_s; lia|].
    apply passes_if; intros Hcs; [|by apply passes_ret]. rewrite Eout. apply passes_value, passes_refuse. intros _.
    apply passes_int64; [unfold in_s; lia|]. apply passes_refuse. intros _. apply passes_refuse. intros _.
    by apply passes_ret.
  - unfold inputs_rules. rewrite !negb_false_iff, Hmet, Hhave, bool_decide_eq_true, !Z.ltb_ge, MoneyRange_iff.
    rewrite (coin_rules_proper _ _ h _ (proj2 Hs12)), ?(inputs_value_proper _ _ _ (proj2 Hs12)), !Z.add_0_l.
    rewrite (spends_allowed_proper _ _ (shielded_spends tx) (proj2 Hs1)).
    pose proof (coin_rules_present (abs c) h (vin tx)). split.
    + intros (Hc & Hsp & Hm & Hf). split_and!; try tauto; intros Hcs%negb_true_iff; specialize (Hf Hcs); lia.
    + intros (_ & Hsp & [Hc Hm] & Hcs & _). split_and!; try tauto; intros Hf%negb_true_iff; specialize (Hcs Hf); lia.
Qed.

(** *** Scripts *)

Context (gh : list Z -> list Z -> uint256) (stray : Z) (CheckLowS : valtype -> bool).
Context (Verify : bool -> valtype -> uint256 -> valtype -> bool).
Context (pre : option PrecomputedTransactionData).
Notation run := (run_check gh stray CheckLowS v6 Verify tx pre).
Hypothesis Hvin : zlen (vin tx) < 2 ^ 32.
Hypothesis Hvout : zlen (vout tx) < 2 ^ 32.
Hypothesis Hsig : Forall (fun i => bytes_ok (scriptSig i)) (vin tx).

Lemma run_check_returns k :
  0 <= check_nIn k < zlen (vin tx) -> bytes_ok (check_scriptPubKey k) -> exists r, run k = Ok r.
Proof.
  intros Hk Hb. unfold run_check.
  destruct (rd_ok (E := CValidationState) (vin tx) (check_nIn k) Hk) as (i & -> & Hl). cbn [mbind outcome_bind].
  destruct accepted_values as (Hnn & Hpo & _ & _ & _). pose proof (shielded_out_nonneg tx).
  edestruct (VerifyScript_returns) as [->|[e ->]]; [| | |by eexists..];
    [apply transaction_checker_safe; try done; unfold paid_out, INT64_MAX in *; lia| |done].
  rewrite Forall_lookup in Hsig. by eapply Hsig.
Qed.

(** The checks of the inputs from number [i] on, in the set [a]. *)
Fixpoint script_checks (a : coin_set) (flags : Z) (store : bool) (ins : list CTxIn) (i : Z) : list CScriptCheck :=
  match ins with
  | [] => []
  | txin :: ins =>
      let co := default Coin_new (utxo a (prevout txin)) in
      ScriptCheck (scriptPubKey (out co)) (nValue (out co)) i flags store :: script_checks a flags store ins (i + 1)
  end.
Definition verified (k : CScriptCheck) : Prop := exists e, run k = Ok (true, e).

Lemma script_checks_proper a b flags store ins : forall i, a ≡ b ->
  script_checks a flags store ins i = script_checks b flags store ins i.
Proof. induction ins as [|x ins IH]; intros i E; cbn [script_checks]; [done|]. by rewrite (proj1 E (prevout x)), (IH _ E). Qed.

Definition scripts_wire (a : coin_set) : Prop := forall o co, utxo a o = Some co -> bytes_ok (scriptPubKey (out co)).
Lemma stays_scripts (c c' : cache) : stays c c' -> scripts_wire (abs c) -> scripts_wire (abs c').
Proof. intros [_ (Eu & _)] Hw o co Hc. apply (Hw o). by rewrite <- Eu. Qed.

Lemma stays_present (c c' : cache) ins : stays c c' -> spends_present (abs c) ins -> spends_present (abs c') ins.
Proof. intros [_ E] Hp. by apply (spends_present_proper _ _ ins E). Qed.

Lemma deferred_checks st flags store ins : forall i l (c : cache),
  Forall (fun i => outpoint_ok (prevout i)) ins -> inv c -> spends_present (abs c) ins ->
  exists c', check_scripts gh stray CheckLowS v6 Verify tx pre st flags store ins i (Some l) c =
    Ok (Some (l ++ script_checks (abs c) flags store ins i), c') /\ stays c c'.
Proof.
  induction ins as [|x ins IH]; intros i l c Hok Hi Hp; cbn [check_scripts script_checks].
  { exists c. rewrite app_nil_r. by split. }
  apply Forall_cons in Hok as [Ho Hok]. destruct (present_coin _ _ _ Hp) as (u & Hu & Hp').
  destruct (AccessCoin (prevout x) c) as [co c1] eqn:E.
  destruct (AccessCoin_there _ _ _ _ _ Ho Hi E Hu) as (-> & -> & Hs). cbn [negb cassert mbind outcome_bind].
  rewrite Hu. cbn [default]. set (k := ScriptCheck _ _ i flags store).
  destruct (IH (i + 1) (l ++ [k]) c1 Hok (proj1 Hs) (stays_present _ _ _ Hs Hp')) as (c' & E' & Hs').
  exists c'. rewrite E', (script_checks_proper _ _ flags store ins (i + 1) (proj2 Hs)), <- app_assoc.
  split; [done|by eapply keeps_trans].
Qed.

Lemma immediate_checks st flags store ins : forall i (c : cache),
  Forall (fun i => outpoint_ok (prevout i)) ins -> inv c -> spends_present (abs c) ins -> scripts_wire (abs c) ->
  0 <= i -> i + zlen ins <= zlen (vin tx) ->
  passes (check_scripts gh stray CheckLowS v6 Verify tx pre st flags store ins i None c)
    (fun r => r.1 = None /\ stays c r.2) (Forall verified (script_checks (abs c) flags store ins i)).
Proof.
  induction ins as [|x ins IH]; intros i c Hok Hi Hp Hw Hi0 Hlen; cbn [check_scripts script_checks].
  { eapply passes_iff; [apply passes_ret; split; [done|by split]|]. split; [done|constructor]. }
  apply Forall_cons in Hok as [Ho Hok]. destruct (present_coin _ _ _ Hp) as (u & Hu & Hp').
  destruct (AccessCoin (prevout x) c) as [co c1] eqn:E.
  destruct (AccessCoin_there _ _ _ _ _ Ho Hi E Hu) as (-> & -> & Hs). cbn [negb cassert mbind outcome_bind].
  cbn [length] in Hlen. rewrite Hu, Forall_cons. cbn [default]. set (k := ScriptCheck _ _ i flags store).
  destruct (run_check_returns k) as [[b e] Hr]; [cbn; lia|by apply (Hw _ _ Hu)|]. rewrite Hr. cbn [fst snd mbind outcome_bind].
  assert (verified k <-> b = true) as -> by (unfold verified; rewrite Hr; destruct b; naive_solver).
  destruct b; cbn [negb].
  - eapply passes_impl; [eapply passes_iff; [apply IH; try done|]|].
    + apply Hs.
    + by eapply stays_present.
    + by eapply stays_scripts.
    + lia.
    + lia.
    + rewrite (script_checks_proper _ _ flags store ins (i + 1) (proj2 Hs)). tauto.
    + intros r [? Hs']. split; [done|by eapply keeps_trans].
  - destruct (run_check_returns (ScriptCheck (scriptPubKey (out u)) (nValue (out u)) i
      (Z.ldiff flags STANDARD_NOT_MANDATORY_VERIFY_FLAGS) store)) as [[b2 e2] Hr2]; [cbn; lia|by apply (Hw _ _ Hu)|].
    destruct (negb _); [rewrite Hr2; cbn [fst mbind outcome_bind]; destruct b2|]; by intros [].
Qed.

Context (mapBlockIndex : gmap (list Z) positive) (blocks : store).
Notation CheckIns := (CheckInputs consensus gh stray CheckLowS v6 Verify mapBlockIndex blocks).

Lemma CheckInputs_then st flags store pv (c : cache) id b P Q :
  inv c -> values_small (abs c) -> mapBlockIndex !! best_block (abs c) = Some id -> blocks !! id = Some b ->
  (forall c2, stays c c2 -> spends_present (abs c2) (vin tx) ->
   passes (check_scripts gh stray CheckLowS v6 Verify tx pre st flags store (vin tx) 0 pv c2) P Q) ->
  passes (CheckIns tx st c true flags store pre pv) P (inputs_rules (abs c) tx (Chain.nHeight b + 1) /\ Q).
Proof.
  intros Hi Hv Hm Hb Hk. unfold CheckInputs, GetSpendHeight. destruct Hplain as [-> ->]. cbn [negb andb].
  destruct (GetBestBlock c) as [h c1] eqn:E.
  destruct (cache_GetBestBlock_ok root storable tree_ok empty_root c h c1 Hi E) as [-> Hs]. fold contents in Hs |- *.
  rewrite Hm, Hb. cbn [mbind outcome_bind]. rewrite <- (inputs_rules_proper _ _ tx _ (proj2 Hs)).
  eapply passes_then; [apply CheckTxInputs_passes; [by apply Hs|by eapply stays_values]|].
  intros c2 Hs2 Hr. pose proof (keeps_trans _ _ _ Hs Hs2) as Hs12. apply (Hk c2 Hs12).
  apply (stays_present _ _ _ Hs2). by eapply coin_rules_present, Hr.
Qed.

Lemma CheckInputs_deferred st flags store (c : cache) id b l :
  inv c -> values_small (abs c) -> mapBlockIndex !! best_block (abs c) = Some id -> blocks !! id = Some b ->
  passes (CheckIns tx st c true flags store pre (Some l))
    (fun r => r.1 = Some (l ++ script_checks (abs c) flags store (vin tx) 0) /\ stays c r.2)
    (inputs_rules (abs c) tx (Chain.nHeight b + 1)).
Proof.
  intros Hi Hv Hm Hb. eapply passes_iff with (Q' := inputs_rules (abs c) tx (Chain.nHeight b + 1) /\ True); [|tauto].
  apply (CheckInputs_then st flags store (Some l) c id b); try done.
  intros c2 Hs2 Hp. destruct (deferred_checks st flags store (vin tx) 0 l c2 Hout (proj1 Hs2) Hp) as (c3 & -> & Hs3).
  rewrite (script_checks_proper _ _ _ _ _ _ (proj2 Hs2)). apply passes_ret. split; [done|by eapply keeps_trans].
Qed.

Lemma CheckInputs_immediate st flags store (c : cache) id b :
  inv c -> values_small (abs c) -> scripts_wire (abs c) ->
  mapBlockIndex !! best_block (abs c) = Some id -> blocks !! id = Some b ->
  passes (CheckIns tx st c true flags store pre None) (fun r => r.1 = None /\ stays c r.2)
    (inputs_rules (abs c) tx (Chain.nHeight b + 1) /\ Forall verified (script_checks (abs c) flags store (vin tx) 0)).
Proof.
  intros Hi Hv Hw Hm Hb. eapply CheckInputs_then; try done. intros c2 Hs2 Hp.
  rewrite <- (script_checks_proper _ _ _ _ _ _ (proj2 Hs2)).
  eapply passes_impl; [apply immediate_checks; try done; [apply Hs2|by eapply stays_scripts]|].
  cbn beta. intros r [? ?]. split; [done|by eapply keeps_trans].
Qed.
End Accepted.

(** ** The theorems *)

Definition plain (tx : CTransaction) : Prop :=
  IsCoinBase tx = false /\ HasZerocoinSpendInputs tx = false /\
  Forall (fun i => outpoint_ok (prevout i)) (vin tx) /\
  Forall (fun sd => hash_ok (nullifier sd) /\ hash_ok (anchor sd)) (shielded_spends tx).

(** C9: [CheckTxInputs] of a transaction that [CheckTransaction] accepts, which
    is no coinbase and has no zerocoin inputs, passes exactly when every input
    spends a mature coin of the set, with a sum in the range of money, the
    shielded spends have known anchors and unspent nullifiers, and, unless it is a
    coinstake, what comes in, from coins and from the shielded pool, covers what
    goes out with a fee in the range of money; it leaves the set of coins as it
    was and never computes out of range. *)
Theorem CheckTxInputs_conserves (v6 fZerocoin fCold fSapling : bool) (tx : CTransaction) (st : CValidationState)
    (c : cache) (h : Z) :
  tx_rules consensus v6 tx fZerocoin fCold fSapling -> plain tx -> inv c -> values_small (abs c) ->
  match CheckTxInputs consensus tx st c h with
  | Ok c' => inv c' /\ abs c' ≡ abs c /\ inputs_rules (abs c) tx h
  | Err _ => ~ inputs_rules (abs c) tx h
  | _ => False
  end.
Proof.
  intros Hr (Hcb & Hz & Ho & Hh) Hi Hv.
  pose proof (CheckTxInputs_passes tx v6 fZerocoin fCold fSapling Hr Ho Hh (conj Hcb Hz) st c h Hi Hv) as H2.
  unfold passes in H2. destruct (CheckTxInputs consensus tx st c h); try done. destruct H2 as [[? ?] ?]. done.
Qed.

(** C33: putting the script checks of a transaction aside for the worker threads
    is the same as running them at once: [CheckInputs] without a list passes
    exactly when [CheckInputs] with a list passes and all the checks it adds
    succeed; with the list it adds one check per input, with the script and the
    amount of the coin the input spends. *)
Theorem CheckInputs_deferred_same (v6 fZerocoin fCold fSapling : bool) (tx : CTransaction) (st : CValidationState)
    (c : cache) (gh : list Z -> list Z -> uint256) (stray : Z) (CheckLowS : valtype -> bool)
    (Verify : bool -> valtype -> uint256 -> valtype -> bool) (pre : option PrecomputedTransactionData)
    (mapBlockIndex : gmap (list Z) positive) (blocks : store) (id : positive) (b : CBlockIndex)
    (flags : Z) (store : bool) (l : list CScriptCheck) :
  tx_rules consensus v6 tx fZerocoin fCold fSapling -> plain tx -> inv c ->
  values_small (abs c) -> scripts_wire (abs c) ->
  zlen (vin tx) < 2 ^ 32 -> zlen (vout tx) < 2 ^ 32 -> Forall (fun i => bytes_ok (scriptSig i)) (vin tx) ->
  mapBlockIndex !! best_block (abs c) = Some id -> blocks !! id = Some b ->
  let CheckIns := CheckInputs consensus gh stray CheckLowS v6 Verify mapBlockIndex blocks tx st c true flags store pre in
  let checks := script_checks (abs c) flags store (vin tx) 0 in
  match CheckIns (Some l) with
  | Ok (pv, c') => pv = Some (l ++ checks) /\ length checks = length (vin tx) /\ inv c' /\ abs c' ≡ abs c /\
      (is_ok (CheckIns None) = true <->
       Forall (fun k => exists e, run_check gh stray CheckLowS v6 Verify tx pre k = Ok (true, e)) checks)
  | Err _ => exists e, CheckIns None = Err e
  | _ => False
  end.
Proof.
  intros Hr (Hcb & Hz & Ho & Hh) Hi Hv Hw Hvi Hvo Hsig Hm Hb CheckIns checks.
  pose proof (CheckInputs_deferred tx v6 fZerocoin fCold fSapling Hr Ho Hh (conj Hcb Hz) gh stray CheckLowS Verify pre
    mapBlockIndex blocks st flags store c id b l Hi Hv Hm Hb) as Hd.
  pose proof (CheckInputs_immediate tx v6 fZerocoin fCold fSapling Hr Ho Hh (conj Hcb Hz) gh stray CheckLowS Verify pre
    Hvi Hvo Hsig mapBlockIndex blocks st flags store c id b Hi Hv Hw Hm Hb) as Hn.
  fold CheckIns checks in Hd, Hn. unfold passes, verified in Hd, Hn.
  destruct (CheckIns (Some l)) as [[pv c']|e| |]; try done.
  - cbn [fst snd] in Hd. destruct Hd as [[-> [? ?]] Hrules]. split; [done|]. split.
    { unfold checks. generalize 0. clear. induction (vin tx) as [|x ins IH]; intros i; cbn [script_checks length]; [done|].
      by rewrite IH. }
    split; [done|]. split; [done|]. destruct (CheckIns None); cbn [is_ok]; try done; naive_solver.
  - destruct (CheckIns None) as [|e2| |]; try done; [tauto|by exists e2].
Qed.
End Rules.

(** ** Examples *)

Section Examples.
#[local] Existing Instances sample_view sample_abs sample_ok sample_cache_abs.

Definition example_spend : CTransaction :=
  Transaction 1 0 [TxIn sample_outpoint [OP_1] 0xffffffff] [TxOut 149990000 [OP_1] NULL_ROUNDS] 0 (Some SaplingTxData_new) None.

Lemma example_spend_rules : tx_rules mainParams true example_spend true true true.
Proof.
  pose proof (CheckTransaction_passes mainParams true ltac:(vm_compute; split; [discriminate|reflexivity])
    ltac:(vm_compute; discriminate) true 0 None no_zerocoins example_spend true CValidationState_new false true true) as H.
  unfold passes in H. destruct (CheckTransaction _ _ _ _ _ _ _ _ _ _ _ _) eqn:E.
  - apply H; [|reflexivity]. split; [constructor; [vm_compute; split; [discriminate|reflexivity]|constructor]|].
    intros d [= <-]. vm_compute. split; [discriminate|reflexivity].
  - vm_compute in E. discriminate E.
  - vm_compute in E. discriminate E.
  - vm_compute in E. discriminate E.
Qed.

Lemma example_spend_plain : plain example_spend.
Proof. split; [reflexivity|]. split; [reflexivity|]. split; [constructor; [exact sample_outpoint_ok|constructor]|constructor]. Qed.

Lemma full_cache_only o co : utxo (abs full_cache) o = Some co -> co = sample_coin.
Proof.
  destruct (decide (o = sample_outpoint)) as [->|Hne]; [rewrite full_cache_utxo; congruence|].
  intros Hu. exfalso. cbn [utxo abs sample_cache_abs CCoinsViewCache_abs cache_abs cacheCoins full_cache] in Hu.
  rewrite lookup_singleton_ne in Hu by congruence. pose proof (sample_utxo_empty o) as He. 
  cbn [utxo abs sample_cache_abs CCoinsViewCache_abs cache_abs cacheCoins sample_cache CCoinsViewCache_new] in He.
  rewrite lookup_empty in He. cbn [base full_cache sample_cache CCoinsViewCache_new] in *. congruence.
Qed.

Lemma full_cache_values : values_small (abs full_cache).
Proof. intros o co ->%full_cache_only. vm_compute. split; [discriminate|reflexivity]. Qed.
Lemma full_cache_scripts : scripts_wire (abs full_cache).
Proof. intros o co ->%full_cache_only. refine (bool_decide_eq_true_1 (bytes_ok _) _). reflexivity. Qed.

Lemma CheckTxInputs_conserves_witness :
  exists c', CheckTxInputs mainParams example_spend CValidationState_new full_cache 2000 = Ok c' /\
    inv c' /\ abs c' ≡ abs full_cache /\ inputs_rules mainParams (abs full_cache) example_spend 2000.
Proof.
  assert (exists c', CheckTxInputs mainParams example_spend CValidationState_new full_cache 2000 = Ok c') as [c' E]
    by (eexists; vm_compute; reflexivity).
  exists c'. split; [exact E|].
  pose proof (CheckTxInputs_conserves sample_root (coin_wire sample_curve) sample_tree_ok (sample_empty 4) mainParams
    ltac:(vm_compute; split; [discriminate|reflexivity]) true true true true example_spend CValidationState_new full_cache
    2000 example_spend_rules example_spend_plain full_cache_inv full_cache_values) as H.
  rewrite E in H. exact H.
Defined.

(** The chain of one block, the best block of the cache. *)
Definition example_index : gmap (list Z) positive := {[ leaf 1 := 1%positive ]}.
Definition example_blocks : store :=
  {[ 1%positive := BlockIndex (leaf 1) None None 1999 0 0 0 0 0 [] 0 None 9 1600000000 0x1e0ffff0
    (ArithUint256.bu_of_uint64 8 0) 0 0 [] [] 0 [] 0 ]}.
Notation example_check pv :=
  (CheckInputs mainParams (fun _ d => d) 0 (fun _ => true) true (fun _ _ _ _ => true) example_index example_blocks
     example_spend CValidationState_new full_cache true SCRIPT_VERIFY_P2SH false None pv).

Lemma CheckInputs_deferred_same_witness :
  exists checks c', example_check (Some []) = Ok (Some checks, c') /\ length checks = 1%nat /\
    (is_ok (example_check None) = true <->
     Forall (fun k => exists e,
       run_check (fun _ d => d) 0 (fun _ => true) true (fun _ _ _ _ => true) example_spend None k = Ok (true, e)) checks).
Proof.
  assert (exists checks c', example_check (Some []) = Ok (Some checks, c')) as (checks & c' & E)
    by (do 2 eexists; vm_compute; reflexivity).
  exists checks, c'. split; [exact E|].
  pose proof (CheckInputs_deferred_same sample_root (coin_wire sample_curve) sample_tree_ok (sample_empty 4) mainParams
    ltac:(vm_compute; split; [discriminate|reflexivity]) true true true true example_spend CValidationState_new full_cache
    (fun _ d => d) 0 (fun _ => true) (fun _ _ _ _ => true) None example_index example_blocks 1%positive
    (BlockIndex (leaf 1) None None 1999 0 0 0 0 0 [] 0 None 9 1600000000 0x1e0ffff0
      (ArithUint256.bu_of_uint64 8 0) 0 0 [] [] 0 [] 0) SCRIPT_VERIFY_P2SH false []
    example_spend_rules example_spend_plain full_cache_inv full_cache_values full_cache_scripts) as H.
  specialize (H ltac:(reflexivity) ltac:(reflexivity)).
  assert (Forall (fun i => bytes_ok (scriptSig i)) (vin example_spend)) as Hb
    by (constructor; [refine (bool_decide_eq_true_1 (bytes_ok _) _); reflexivity|constructor]).
  specialize (H Hb ltac:(reflexivity) ltac:(reflexivity)). cbv zeta in H. rewrite E in H.
  destruct H as (Hl & Hlen & _ & _ & Hiff). apply (inj Some) in Hl. cbn [app] in Hl. rewrite <- Hl in *. 
  split; [exact Hlen|exact Hiff].
Defined.
End Examples.
