(* ===== verification/CheckQueue.v ===== *)
(** * The queue of script checks: checkqueue.h

    [CCheckQueue] with its mutex and two condition variables, as a transition
    system of one master thread and any number of workers.  A step is what a
    thread does between two releases of the mutex ([advance]), the execution of
    a batch of checks, or a call of the master; a thread that waits can be woken
    by a notification or spuriously.  [check] is the call operator of an
    element.  [vAdded], which the code does not have, records what was added in
    the current round, and only the theorems look at it. *)
From S2P Require Import Prelude.

Section Queue.
Context {T : Type} (check : T -> bool).

Record CCheckQueue := CheckQueue {
  queue : list T;
  nIdle : Z;
  nTotal : Z;
  fAllOk : bool;
  nTodo : Z;
  fQuit : bool;
  nBatchSize : Z;
}.

Definition CCheckQueue_new (nBatchSizeIn : Z) : CCheckQueue := CheckQueue [] 0 0 true 0 false nBatchSizeIn.

(** Where a thread is: not in [Loop]; about to take the mutex for the first time;
    waiting, and whether it was notified; executing a batch; about to take the
    mutex after a batch of [nNow]; returned. *)
Inductive phase :=
| Outside
| Entering
| Waiting (notified : bool)
| Working (vChecks : list T) (fOk : bool)
| Checked (nNow : Z) (fOk : bool)
| Returned (fRet : bool).

(** The clean-up of the previous run, first thing in the critical section. *)
Definition cleanup (nNow : Z) (fOk : bool) (q : CCheckQueue) : CCheckQueue :=
  if negb (nNow =? 0)
  then CheckQueue (queue q) (nIdle q) (nTotal q) (fAllOk q && fOk) (u32 (nTodo q - nNow)) (fQuit q) (nBatchSize q)
  else CheckQueue (queue q) (nIdle q) (nTotal q + 1) (fAllOk q) (nTodo q) (fQuit q) (nBatchSize q).

(** From the test of [while (queue.empty())] to the next release of the mutex. *)
Definition loop_while (fMaster : bool) (q : CCheckQueue) : CCheckQueue * phase :=
  match queue q with
  | [] =>
      if (fMaster || fQuit q) && (nTodo q =? 0)
      then (CheckQueue [] (nIdle q) (nTotal q - 1) (if fMaster then true else fAllOk q) (nTodo q) (fQuit q) (nBatchSize q),
            Returned (fAllOk q))
      else (CheckQueue [] (nIdle q + 1) (nTotal q) (fAllOk q) (nTodo q) (fQuit q) (nBatchSize q), Waiting false)
  | _ =>
      let nNow := Z.max 1 (Z.min (nBatchSize q) (u32 (zlen (queue q)) / (nTotal q + nIdle q + 1))) in
      let n := Z.to_nat nNow in
      let rest := take (length (queue q) - n) (queue q) in
      let vChecks := reverse (drop (length (queue q) - n) (queue q)) in
      (CheckQueue rest (nIdle q) (nTotal q) (fAllOk q) (nTodo q) (fQuit q) (nBatchSize q), Working vChecks (fAllOk q))
  end.

(** [for (T& check : vChecks) if (fOk) fOk = check();] *)
Definition execute (vChecks : list T) (fOk : bool) : bool :=
  fold_left (fun fOk k => if fOk : bool then check k else fOk) vChecks fOk.

(** One step of a thread in [Loop]: the queue and the phase after it, and whether
    the master was notified.  A waiting thread holds the mutex again when it
    goes on. *)
Definition advance (fMaster : bool) (q : CCheckQueue) (p : phase) : option (CCheckQueue * phase * bool) :=
  match p with
  | Entering => Some (loop_while fMaster (cleanup 0 true q), false)
  | Checked nNow fOk =>
      let q := cleanup nNow fOk q in
      Some (loop_while fMaster q, negb (nNow =? 0) && (nTodo q =? 0) && negb fMaster)
  | Waiting _ =>
      Some (loop_while fMaster
              (CheckQueue (queue q) (nIdle q - 1) (nTotal q) (fAllOk q) (nTodo q) (fQuit q) (nBatchSize q)), false)
  | Working vChecks fOk => Some (q, Checked (zlen vChecks) (execute vChecks fOk), false)
  | Outside | Returned _ => None
  end.

(** [Add]: [vChecks] at the end of the queue. *)
Definition Add (vChecks : list T) (q : CCheckQueue) : CCheckQueue :=
  CheckQueue (queue q ++ vChecks) (nIdle q) (nTotal q) (fAllOk q) (u32 (nTodo q + zlen vChecks)) (fQuit q) (nBatchSize q).

Definition IsIdle (q : CCheckQueue) : bool := (nTotal q =? nIdle q) && (nTodo q =? 0) && Bool.eqb (fAllOk q) true.

Definition notify (p : phase) : phase := match p with Waiting _ => Waiting true | p => p end.

(** [notify_one] on the workers that wait: one of them, if there is one. *)
Inductive notified_one : list phase -> list phase -> Prop :=
| notified_none ws : (forall i b, ws !! i <> Some (Waiting b)) -> notified_one ws ws
| notified_some ws i b : ws !! i = Some (Waiting b) -> notified_one ws (<[i := Waiting true]> ws).

Record system := System { q : CCheckQueue; master : phase; workers : list phase; vAdded : list T }.

(** A step of a thread that is not a spurious wake-up. *)
Definition ready (p : phase) : bool := match p with Waiting notified => notified | Outside | Returned _ => false | _ => true end.

Inductive thread_step : system -> system -> Prop :=
| master_step s q' p' b :
    ready (master s) = true -> advance true (q s) (master s) = Some (q', p', b) ->
    thread_step s (System q' p' (workers s) (vAdded s))
| worker_step s i p q' p' b :
    workers s !! i = Some p -> ready p = true -> advance false (q s) p = Some (q', p', b) ->
    thread_step s (System q' (if b then notify (master s) else master s) (<[i := p']> (workers s)) (vAdded s)).

(** What the threads do when nobody made them go on, and what the master does
    outside [Loop]: a new worker, [Add], [Wait], and a new round. *)
Inductive other_step : system -> system -> Prop :=
| spurious_master s q' p' b :
    master s = Waiting false -> advance true (q s) (master s) = Some (q', p', b) ->
    other_step s (System q' p' (workers s) (vAdded s))
| spurious_worker s i q' p' b :
    workers s !! i = Some (Waiting false) -> advance false (q s) (Waiting false) = Some (q', p', b) ->
    other_step s (System q' (if b then notify (master s) else master s) (<[i := p']> (workers s)) (vAdded s))
| new_worker s : other_step s (System (q s) (master s) (workers s ++ [Entering]) (vAdded s))
| master_Add s vChecks ws :
    master s = Outside -> nTodo (q s) + zlen vChecks < 2 ^ 32 ->
    (if zlen vChecks =? 1 then notified_one (workers s) ws
     else ws = if 1 <? zlen vChecks then map notify (workers s) else workers s) ->
    other_step s (System (Add vChecks (q s)) Outside ws (vAdded s ++ vChecks))
| master_Wait s : master s = Outside -> other_step s (System (q s) Entering (workers s) (vAdded s))
| master_round s fRet : master s = Returned fRet -> other_step s (System (q s) Outside (workers s) []).

Definition system_new (nBatchSizeIn : Z) : system := System (CCheckQueue_new nBatchSizeIn) Outside [] [].

Inductive reachable (nBatchSizeIn : Z) : system -> Prop :=
| reach_new : reachable nBatchSizeIn (system_new nBatchSizeIn)
| reach_step s s' : reachable nBatchSizeIn s -> thread_step s s' \/ other_step s s' -> reachable nBatchSizeIn s'.

(** ** What the threads hold

    Every invariant is a sum over the threads. *)

Fixpoint sum_over {A} (f : A -> Z) (l : list A) : Z := match l with [] => 0 | x :: l => f x + sum_over f l end.

Lemma sum_over_nonneg {A} (f : A -> Z) l : (forall x, 0 <= f x) -> 0 <= sum_over f l.
Proof. intros Hf. induction l as [|x l IH]; cbn; [done|]. specialize (Hf x). lia. Qed.

Lemma sum_over_app {A} (f : A -> Z) l1 l2 : sum_over f (l1 ++ l2) = sum_over f l1 + sum_over f l2.
Proof. induction l1 as [|x l1 IH]; cbn; [done|]. lia. Qed.

Lemma sum_over_insert {A} (f : A -> Z) l i x y :
  l !! i = Some x -> sum_over f (<[i := y]> l) = sum_over f l - f x + f y.
Proof.
  revert i. induction l as [|z l IH]; intros [|i] Hi; cbn in *; [done|done| |].
  - simplify_eq. lia.
  - change (f z + sum_over f (<[i := y]> l) = f z + sum_over f l - f x + f y). rewrite (IH _ Hi). lia.
Qed.

Lemma forallb_insert {A} (f : A -> bool) l i x y :
  l !! i = Some x -> f x = true -> forallb f (<[i := y]> l) = f y && forallb f l.
Proof.
  revert i. induction l as [|z l IH]; intros [|i] Hi Hx; cbn in *; [done|done| |].
  - simplify_eq. by rewrite Hx.
  - change (f z && forallb f (<[i := y]> l) = f y && (f z && forallb f l)). rewrite (IH _ Hi Hx). by destruct (f z), (f y).
Qed.

Lemma forallb_reverse {A} (f : A -> bool) l : forallb f (reverse l) = forallb f l.
Proof.
  induction l as [|x l IH]; [done|]. rewrite reverse_cons, forallb_app, IH. cbn. by destruct (f x), (forallb f l).
Qed.

Definition pending (p : phase) : Z :=
  match p with Working vChecks _ => zlen vChecks | Checked nNow _ => nNow | _ => 0 end.
Definition waiting (p : phase) : Z := match p with Waiting _ => 1 | _ => 0 end.
Definition active (p : phase) : Z := match p with Outside | Entering | Returned _ => 0 | _ => 1 end.
Definition verdict (p : phase) : bool :=
  match p with Working vChecks fOk => fOk && forallb check vChecks | Checked _ fOk => fOk | _ => true end.
Definition phase_ok (p : phase) : Prop :=
  match p with Working vChecks _ => vChecks <> [] | Checked nNow _ => 0 < nNow | _ => True end.

(** How far a thread is from waiting or from its return. *)
Definition weight (p : phase) : Z :=
  match p with Working _ _ => 4 | Checked _ _ => 3 | Entering => 2 | Waiting true => 1 | _ => 0 end.

Lemma execute_ok vChecks fOk : execute vChecks fOk = fOk && forallb check vChecks.
Proof.
  unfold execute. revert fOk. induction vChecks as [|k l IH]; intros fOk; cbn; [by rewrite andb_true_r|].
  rewrite IH. by destruct fOk.
Qed.

(** ** One critical section *)

(** The counters of the queue, given what the other threads hold. *)
Record counts (P I A : Z) (k : CCheckQueue) : Prop := {
  count_todo : nTodo k = zlen (queue k) + P;
  count_idle : nIdle k = I;
  count_total : nTotal k = A;
  count_quit : fQuit k = false;
  count_range : 0 <= P /\ 0 <= I /\ 0 <= A /\ nTodo k < 2 ^ 32 }.

(** What [p] is after a critical section that leaves the queue [k']: the counters
    with [p]'s share, and what is known about the verdict [V] of the others. *)
Definition settled (fMaster : bool) (P I A : Z) (V : bool) (k k' : CCheckQueue) (p : phase) : Prop :=
  counts (P + pending p) (I + waiting p) (A + active p) k' /\ phase_ok p /\ nTodo k' = nTodo k /\
  5 * zlen (queue k') + weight p <= 5 * zlen (queue k) /\ (queue k = [] -> queue k' = []) /\
  match p with
  | Returned fRet => fMaster = true /\ nTodo k' = 0 /\ fRet = fAllOk k /\ fAllOk k' = true /\ queue k = []
  | Outside | Entering | Checked _ _ => False
  | Waiting b => b = false /\ queue k' = [] /\ (fMaster = true -> nTodo k' <> 0) /\ fAllOk k' = fAllOk k
  | Working _ _ => queue k <> [] /\ fAllOk k' = fAllOk k
  end /\
  (if p is Returned _ then True
   else fAllOk k' && forallb check (queue k') && (verdict p && V) = fAllOk k && forallb check (queue k) && V).

Lemma batch_size k :
  queue k <> [] -> 0 <= nTotal k -> 0 <= nIdle k -> zlen (queue k) < 2 ^ 32 ->
  let nNow := Z.max 1 (Z.min (nBatchSize k) (u32 (zlen (queue k)) / (nTotal k + nIdle k + 1))) in
  1 <= nNow <= zlen (queue k).
Proof.
  intros Hq Ht Hi Hl nNow. pose proof (zlen_pos _ Hq). unfold nNow, u32. rewrite Z.mod_small by lia.
  assert (zlen (queue k) / (nTotal k + nIdle k + 1) <= zlen (queue k)).
  { apply Z.div_le_upper_bound; [lia|]. nia. }
  lia.
Qed.

Lemma loop_while_settled fMaster k P I A V k' p :
  counts P I (A + 1) k -> 0 <= A -> loop_while fMaster k = (k', p) -> settled fMaster P I A V k k' p.
Proof.
  intros [Ht Hi Ha Hf (HP & HI & _ & Hr)] HA. unfold loop_while. rewrite Hf, orb_false_r.
  destruct (queue k) as [|x l] eqn:Hq.
  - destruct (fMaster && (nTodo k =? 0)) eqn:Hm; intros [= <- <-].
    + apply andb_true_iff in Hm as [-> Hm]. unfold settled; cbn. rewrite Hq; cbn in *.
      repeat split; cbn; try lia; done.
    + unfold settled; cbn. rewrite Hq; cbn in *. repeat split; cbn; try lia; try done.
      intros ->. cbn in Hm. lia.
  - rewrite <- Hq in *. assert (Hne : queue k <> []) by (by rewrite Hq). clear Hq x l.
    pose proof (batch_size k Hne) as Hb. cbv zeta in Hb. revert Hb.
    set (n := Z.max 1 _). intros Hb. specialize (Hb ltac:(lia) ltac:(lia) ltac:(lia)).
    intros [= <- <-]. set (rest := take _ _). set (vs := drop _ _).
    assert (Hrest : zlen rest = zlen (queue k) - n) by (unfold rest; rewrite length_take; lia).
    assert (Hvs : zlen vs = n) by (unfold vs; rewrite length_drop; lia).
    assert (Hsplit : queue k = rest ++ vs) by (symmetry; apply take_drop).
    unfold settled; cbn. rewrite length_reverse. repeat split; cbn; try lia; try done.
    + intros E. rewrite <- (reverse_involutive vs), E in Hvs. cbn in Hvs. lia.
    + rewrite Hsplit. rewrite forallb_app, forallb_reverse.
      by destruct (fAllOk k), (forallb check rest), (forallb check vs).
Qed.

(** What a step of a thread keeps: [P], [I], [A] and [V] are the shares and the
    verdict of the other threads. *)
Definition kept (fMaster : bool) (P I A : Z) (V : bool) (k : CCheckQueue) (p : phase) (k' : CCheckQueue) (p' : phase) (b : bool) : Prop :=
  counts (P + pending p') (I + waiting p') (A + active p') k' /\ phase_ok p' /\ 0 <= nTodo k' <= nTodo k /\
  (5 * zlen (queue k') + weight p' + (if b then 1 else 0) < 5 * zlen (queue k) + weight p + (if ready p then 0 else 1)) /\
  (queue k = [] -> queue k' = []) /\
  (nTodo k' = 0 -> b = false -> fMaster = false -> nTodo k = 0) /\
  (nTodo k = 0 -> fAllOk k' = fAllOk k \/ fMaster = true) /\
  match p' with
  | Returned fRet => fMaster = true /\ nTodo k' = 0 /\ fAllOk k' = true /\
      fRet && V = fAllOk k && forallb check (queue k) && (verdict p && V)
  | Outside | Entering => False
  | _ => fAllOk k' && forallb check (queue k') && (verdict p' && V) = fAllOk k && forallb check (queue k) && (verdict p && V)
  end /\
  (if p' is Waiting b then b = false /\ queue k' = [] /\ (fMaster = true -> nTodo k' <> 0) else True).

Lemma settled_kept fMaster P I A V k p k1 k' p' (b : bool) :
  queue k1 = queue k -> nTodo k1 = nTodo k - pending p -> 0 <= nTodo k1 ->
  0 <= pending p -> fAllOk k1 = fAllOk k && verdict p ->
  (pending p = 0 -> verdict p = true /\ b = false) -> (b = true -> weight p = 3) ->
  (nTodo k1 = 0 -> b = false -> fMaster = false -> pending p = 0) ->
  (weight p + (if ready p then 0 else 1) <> 0) -> 0 <= weight p ->
  settled fMaster P I A V k1 k' p' -> kept fMaster P I A V k p k' p' b.
Proof.
  intros Hq Ht Hn Hp Ha Hv Hb Hl Hw Hw0 (Hc & Hok & Ht' & Hm & He & Hcase & Hver).
  unfold kept. rewrite <- Hq, Ht' in *. split_and!; try done; try lia.
  - revert Hw. destruct b; [specialize (Hb eq_refl)|]; destruct (ready p); lia.
  - intros H0 Hbf Hmf. specialize (Hl H0 Hbf Hmf). lia.
  - intros H0. destruct (Hv ltac:(lia)) as [Hvt _]. rewrite Hvt, andb_true_r in Ha. destruct fMaster; [by right|left].
    destruct p'; try done; [|..]; destruct_and?; congruence.
  - assert (E : fAllOk k && forallb check (queue k1) && (verdict p && V) = fAllOk k1 && forallb check (queue k1) && V)
      by (rewrite Ha; by destruct (fAllOk k), (verdict p), (forallb check (queue k1)), V).
    destruct p'; try done; rewrite E; [done|done|..].
    destruct Hcase as (-> & H0 & -> & -> & Hnil). split_and!; try done.
    by rewrite Hnil, andb_true_r.
  - destruct p'; try done. by destruct_and?.
Qed.

Lemma cleanup_batch nNow fOk k :
  0 < nNow <= nTodo k -> nTodo k < 2 ^ 32 ->
  cleanup nNow fOk k =
    CheckQueue (queue k) (nIdle k) (nTotal k) (fAllOk k && fOk) (nTodo k - nNow) (fQuit k) (nBatchSize k).
Proof.
  intros Hn Hr. unfold cleanup, u32. rewrite Z.mod_small by lia. by destruct (Z.eqb_spec nNow 0); [lia|].
Qed.

Lemma advance_kept fMaster k p P I A V k' p' b :
  counts (P + pending p) (I + waiting p) (A + active p) k -> phase_ok p -> 0 <= P -> 0 <= I -> 0 <= A ->
  advance fMaster k p = Some (k', p', b) -> kept fMaster P I A V k p k' p' b.
Proof.
  intros Hc Hp HP HI HA Hadv. pose proof Hc as [Ht Hi Ha Hf (_ & _ & _ & Hr)].
  destruct p as [| |b0|vs ok|nNow ok|r]; cbn in Ht, Hi, Ha, Hp, Hadv; try done.
  - injection Hadv as Hl <-. apply (settled_kept _ _ _ _ _ _ _ (cleanup 0 true k)); cbn; try lia; try done.
    + by rewrite andb_true_r.
    + apply loop_while_settled; [|done|done]. split; cbn; lia || done.
  - injection Hadv as Hl <-. eapply settled_kept; [..|eapply loop_while_settled, Hl]; cbn; try lia; try done.
    + by rewrite andb_true_r.
    + by destruct b0.
    + by destruct b0.
    + split; cbn; lia || done.
  - injection Hadv as <- <- <-. unfold kept; cbn. pose proof (zlen_pos vs Hp).
    rewrite execute_ok. repeat split; cbn; try lia; try done.
  - rewrite cleanup_batch in Hadv by lia. injection Hadv as Hl <-.
    eapply settled_kept; [..|eapply loop_while_settled, Hl]; cbn; try lia; try done.
    + intros H0 Hb ->. rewrite andb_true_r in Hb. destruct (Z.eqb_spec nNow 0), (Z.eqb_spec (nTodo k - nNow) 0); cbn in Hb; done || lia.
    + split; cbn; lia || done.
Qed.

(** ** The invariant of the system *)

Definition threads (s : system) : list phase := master s :: workers s.

(** A worker does not return, since nothing sets [fQuit]. *)
Definition worker_ok (p : phase) : Prop := match p with Outside | Returned _ => False | _ => True end.

Record system_inv (s : system) : Prop := {
  inv_counts : counts (sum_over pending (threads s)) (sum_over waiting (threads s)) (sum_over active (threads s)) (q s);
  inv_threads : Forall phase_ok (threads s);
  inv_workers : Forall worker_ok (workers s);
  inv_added : 0 <= nTodo (q s) <= zlen (vAdded s);
  inv_master : match master s with
    | Waiting b => queue (q s) = [] /\ (b = false -> nTodo (q s) <> 0)
    | Returned _ => nTodo (q s) = 0 /\ fAllOk (q s) = true
    | _ => True end;
  inv_verdict : forallb check (vAdded s) =
    match master s with
    | Returned fRet => fRet
    | _ => fAllOk (q s) && forallb check (queue (q s)) && forallb verdict (threads s)
    end }.

Lemma pending_nonneg p : phase_ok p -> 0 <= pending p.
Proof. destruct p; cbn; lia. Qed.
Lemma waiting_nonneg p : 0 <= waiting p.
Proof. by destruct p. Qed.
Lemma active_nonneg p : 0 <= active p.
Proof. by destruct p. Qed.
Lemma pending_sum_nonneg l : Forall phase_ok l -> 0 <= sum_over pending l.
Proof. induction 1 as [|p l Hp _ IH]; cbn; [done|]. pose proof (pending_nonneg p Hp). lia. Qed.

(** Nothing is pending when nothing is to do, so no thread holds a verdict. *)
Lemma pending_none l : Forall phase_ok l -> sum_over pending l = 0 -> forallb verdict l = true /\ Forall (fun p => pending p = 0) l.
Proof.
  induction 1 as [|p l Hp Hl IH]; cbn; [done|]. intros H0.
  pose proof (pending_nonneg p Hp). pose proof (pending_sum_nonneg l Hl). destruct IH as [-> IH]; [lia|].
  assert (Hp0 : pending p = 0) by lia. split; [|by constructor]. rewrite andb_true_r.
  destruct p as [| |?|[|]|?|?]; cbn in *; done || lia.
Qed.

Lemma notify_facts p :
  pending (notify p) = pending p /\ waiting (notify p) = waiting p /\ active (notify p) = active p /\
  verdict (notify p) = verdict p /\ (phase_ok p -> phase_ok (notify p)) /\ weight (notify p) <= weight p + 1.
Proof. destruct p as [| |[]|?|?|?]; cbn; split_and!; done || lia. Qed.


Lemma waiting_sum_nonneg l : 0 <= sum_over waiting l.
Proof. apply sum_over_nonneg, waiting_nonneg. Qed.
Lemma active_sum_nonneg l : 0 <= sum_over active l.
Proof. apply sum_over_nonneg, active_nonneg. Qed.
Hint Resolve pending_sum_nonneg waiting_sum_nonneg active_sum_nonneg : core.

Lemma master_advance_inv s k' p' b :
  system_inv s -> advance true (q s) (master s) = Some (k', p', b) ->
  system_inv (System k' p' (workers s) (vAdded s)) /\
  (if ready (master s)
   then 5 * zlen (queue k') + weight p' < 5 * zlen (queue (q s)) + weight (master s) else True).
Proof.
  destruct s as [k m ws added]. intros [Hc Ht Hw Ha Hm Hv] Hadv. cbn in *. apply Forall_cons in Ht as [Hp Ht].
  assert (Hk : kept true (sum_over pending ws) (sum_over waiting ws) (sum_over active ws)
                 (forallb verdict ws) k m k' p' b).
  { apply advance_kept; auto. destruct Hc as [? ? ? ? ?]; cbn in *. split; lia || done. }
  destruct Hk as (Hc' & Hp' & Ht' & Hmeas & _ & _ & _ & Hcase & Hwait).
  split; [|destruct (ready m); [destruct b; lia|done]].
  assert (Hv' : forallb check added =
                fAllOk k && forallb check (queue k) && (verdict m && forallb verdict ws))
    by (by destruct m).
  split; cbn; [|by constructor|done|lia|..].
  - destruct Hc' as [? ? ? ? ?]. split; cbn in *; lia || done.
  - destruct p'; destruct_and?; split_and?; try done. auto.
  - rewrite Hv'. destruct p'; try done. destruct Hcase as (_ & H0 & _ & <-).
    destruct Hc' as [Hct _ _ _ _]; cbn in *.
    destruct (pending_none ws) as [-> _]; [done| |by rewrite andb_true_r].
    pose proof (pending_sum_nonneg _ Ht). lia.
Qed.

Lemma andb_swap (x y z : bool) : x && (y && z) = y && (x && z).
Proof. by destruct x, y. Qed.

(** A worker among the others: [ws0] is the workers with a thread that holds nothing
    in its place. *)
Lemma worker_sums i p ws :
  let ws0 := <[i := Entering]> ws in
  (i < length ws)%nat ->
  sum_over pending (<[i := p]> ws) = sum_over pending ws0 + pending p /\
  sum_over waiting (<[i := p]> ws) = sum_over waiting ws0 + waiting p /\
  sum_over active (<[i := p]> ws) = sum_over active ws0 + active p /\
  sum_over weight (<[i := p]> ws) = sum_over weight ws0 + weight p - 2 /\
  forallb verdict (<[i := p]> ws) = verdict p && forallb verdict ws0.
Proof.
  intros ws0 Hi. assert (Hi0 : ws0 !! i = Some Entering).
  { by apply list_lookup_insert_eq. }
  assert (<[i := p]> ws = <[i := p]> ws0) as -> by (unfold ws0; by rewrite list_insert_insert_eq).
  rewrite !(sum_over_insert _ _ _ _ p Hi0), (forallb_insert _ _ _ _ p Hi0) by done. cbn. split_and!; lia || done.
Qed.

Lemma worker_advance_inv s i p k' p' (b : bool) :
  system_inv s -> workers s !! i = Some p -> advance false (q s) p = Some (k', p', b) ->
  let s' := System k' (if b then notify (master s) else master s) (<[i := p']> (workers s)) (vAdded s) in
  system_inv s' /\
  (if ready p
   then 5 * zlen (queue k') + sum_over weight (threads s') < 5 * zlen (queue (q s)) + sum_over weight (threads s) else True).
Proof.
  destruct s as [k m ws added]. intros [Hc Ht Hw Ha Hm Hv] Hi Hadv. cbn in *. 
  apply Forall_cons in Ht as [Hmok Ht].
  pose proof (lookup_lt_Some _ _ _ Hi) as Hlt.
  pose proof (worker_sums i p ws Hlt) as (Ep & Ew & Ea & Eg & Ev). rewrite list_insert_id in Ep, Ew, Ea, Eg, Ev by done.
  pose proof (worker_sums i p' ws Hlt) as (Ep' & Ew' & Ea' & Eg' & Ev').
  set (ws0 := <[i := Entering]> ws) in *.
  assert (Hok0 : Forall phase_ok ws0) by (apply Forall_insert; done).
  pose proof (notify_facts m) as (Np & Nw & Na & Nv & Nok & Ng).
  set (m' := if b then notify m else m).
  assert (Hm' : pending m' = pending m /\ waiting m' = waiting m /\ active m' = active m /\ verdict m' = verdict m /\ phase_ok m' /\ weight m' <= weight m + (if b then 1 else 0))
    by (unfold m'; destruct b; split_and!; auto; lia).
  destruct Hm' as (Np' & Nw' & Na' & Nv' & Nok' & Ng').
  assert (Hk : kept false (pending m + sum_over pending ws0) (waiting m + sum_over waiting ws0) (active m + sum_over active ws0)
                 (verdict m && forallb verdict ws0) k p k' p' b).
  { apply advance_kept; auto.
    - destruct Hc as [? ? ? ? ?]; cbn in *. split; lia || done.
    - by eapply Forall_lookup_1 in Hi.
    - pose proof (pending_nonneg m Hmok). pose proof (pending_sum_nonneg ws0 Hok0). lia.
    - pose proof (waiting_nonneg m). pose proof (waiting_sum_nonneg ws0). lia.
    - pose proof (active_nonneg m). pose proof (active_sum_nonneg ws0). lia. }
  destruct Hk as (Hc' & Hp' & Ht' & Hmeas & Hnil & Hlast & Hall & Hcase & Hwait).
  split; [|cbn; destruct (ready p); lia || done].
  split; cbn; [|by constructor; [|apply Forall_insert]|..|lia| |].
  - destruct Hc' as [? ? ? ? ?]. split; cbn in *; lia || done.
  - apply Forall_insert; [done|]. destruct p'; try done. by destruct Hcase.
  - unfold m'. destruct m as [| |b0|?|?|fRet], b; cbn; try done; destruct Hm as [Hq0 Hn0].
    + auto.
    + split; [auto|]. intros -> H0. by apply (Hn0 eq_refl), Hlast.
    + destruct (Hall Hq0) as [->|?]; split; done || lia.
    + destruct (Hall Hq0) as [->|?]; split; done || lia.
  - rewrite Ev', Nv', Hv, Ev, !(andb_swap (verdict m)).
    assert (Hcase' : fAllOk k' && forallb check (queue k') && (verdict p' && (verdict m && forallb verdict ws0)) =
                     fAllOk k && forallb check (queue k) && (verdict p && (verdict m && forallb verdict ws0)))
      by (destruct p'; try done; by destruct Hcase).
    rewrite Hcase'. unfold m'. by destruct m, b.
Qed.

Definition notified : list phase -> list phase -> Prop := Forall2 (fun p p' => p' = p \/ p' = notify p).

Lemma notified_refl ws : notified ws ws.
Proof. apply Reflexive_instance_0. by left. Qed.

Lemma notified_map ws : notified ws (map notify ws).
Proof. induction ws; constructor; auto. Qed.

Lemma notified_one_notified ws ws' : notified_one ws ws' -> notified ws ws'.
Proof.
  intros [?|l i b Hi]; [apply notified_refl|]. rewrite <- (list_insert_id l i (Waiting b)) at 1 by done.
  apply Forall2_insert; [apply notified_refl|by right].
Qed.

Lemma notified_sums ws ws' :
  notified ws ws' ->
  sum_over pending ws' = sum_over pending ws /\ sum_over waiting ws' = sum_over waiting ws /\
  sum_over active ws' = sum_over active ws /\ forallb verdict ws' = forallb verdict ws /\
  (Forall phase_ok ws -> Forall phase_ok ws') /\
  (Forall worker_ok ws -> Forall worker_ok ws').
Proof.
  induction 1 as [|p p' ws ws' Hp _ (E1 & E2 & E3 & E4 & IH1 & IH2)]; [done|]. cbn. rewrite E1, E2, E3, E4.
  pose proof (notify_facts p) as (Np & Nw & Na & Nv & Nok & _).
  split_and!; [destruct Hp; subst; congruence..| |]; intros [H1 H2]%Forall_cons; constructor; auto;
    destruct Hp; subst; auto; by destruct p.
Qed.

Lemma other_step_inv s s' : system_inv s -> other_step s s' -> system_inv s'.
Proof.
  intros Hs Hstep.
  destruct Hstep as [s k' p' b Hm Hadv|s i k' p' b Hi Hadv|s|s vs ws Hm Hr Hws|s Hm|s r Hm].
  - by apply (master_advance_inv s k' p' b Hs Hadv).
  - by apply (worker_advance_inv s i _ k' p' b Hs Hi Hadv).
  - destruct Hs as [[? ? ? ? ?] Ht Hw Ha Hm Hv]; cbn in *. apply Forall_cons in Ht as [? ?].
    split; cbn; [|constructor; [done|]; apply Forall_app_2; [done|by repeat constructor]|apply Forall_app_2; [done|by constructor]|done|done|].
    + split; cbn; rewrite ?sum_over_app; cbn; lia || done.
    + rewrite Hv, forallb_app. cbn. by rewrite !andb_true_r.
  - assert (Hn : notified (workers s) ws).
    { destruct (zlen vs =? 1); [by apply notified_one_notified|]. subst ws.
      destruct (1 <? zlen vs); auto using notified_refl, notified_map. }
    destruct s as [k m ws0 added]; cbn in *; subst m. destruct (notified_sums _ _ Hn) as (Ep & Ew & Ea & Ev & Hok & Hwok).
    destruct Hs as [[? ? ? ? ?] Ht Hw Ha _ Hv]; cbn in *. apply Forall_cons in Ht as [_ ?].
    assert (Hu : u32 (nTodo k + zlen vs) = nTodo k + zlen vs) by (unfold u32; apply Z.mod_small; lia).
    split; cbn; rewrite ?Hu, ?length_app, ?Ev; [|by constructor; auto|auto|lia|done|].
    + split; cbn; rewrite ?length_app; cbn; lia || done.
    + rewrite !forallb_app, Hv. by destruct (fAllOk k), (forallb check (queue k)), (forallb verdict ws0), (forallb check vs).
  - destruct s as [k m ws0 added]; cbn in *; subst m. destruct Hs as [[? ? ? ? ?] Ht Hw Ha _ Hv]; cbn in *.
    apply Forall_cons in Ht as [_ ?]. split; cbn; [by split|by constructor|done|done|done|done].
  - destruct s as [k m ws0 added]; cbn in *; subst m. destruct Hs as [[? ? ? ? ?] Ht Hw Ha [H0 Hok] Hv]; cbn in *.
    apply Forall_cons in Ht as [_ Ht]. cbn in Ht. pose proof (pending_sum_nonneg _ Ht).
    destruct (pending_none _ Ht) as [E _]; [lia|]. assert (Hq : queue k = []) by (apply nil_length_inv; lia).
    split; cbn; [by split| |done|lia|done|].
    + by constructor.
    + by rewrite Hok, Hq, E.
Qed.

Lemma system_new_inv n : system_inv (system_new n).
Proof. split; cbn; [|by repeat constructor..|lia|done|done]. split; cbn; lia || done. Qed.

Lemma reachable_inv n s : reachable n s -> system_inv s.
Proof.
  induction 1 as [|s s' _ IH [Hs|Hs]]; [apply system_new_inv| |by eapply other_step_inv].
  destruct Hs as [s k' p' b Hr Hadv|s i p k' p' b Hi Hr Hadv].
  - by apply (master_advance_inv s k' p' b IH Hadv).
  - by apply (worker_advance_inv s i p k' p' b IH Hi Hadv).
Qed.

(** ** What the master gets *)

Lemma nothing_todo s :
  system_inv s -> nTodo (q s) = 0 ->
  queue (q s) = [] /\ nTotal (q s) = nIdle (q s) /\ forallb verdict (threads s) = true /\
  Forall (fun p => pending p = 0) (threads s).
Proof.
  intros [[Ht Hi Ha _ _] Hok _ _ _ _] H0. pose proof (pending_sum_nonneg _ Hok).
  destruct (pending_none _ Hok) as [Hv Hp]; [lia|].
  assert (queue (q s) = []) by (apply nil_length_inv; lia).
  split_and!; [done| |done|done]. rewrite Hi, Ha. clear -Hok Hp.
  induction Hp as [|p l Hp _ IH]; cbn; [done|]. apply Forall_cons in Hok as [Hok Hl]. rewrite (IH Hl).
  destruct p as [| |?|[|]|?|?]; cbn in *; done || lia.
Qed.

Lemma IsIdle_iff k : IsIdle k = true <-> nTotal k = nIdle k /\ nTodo k = 0 /\ fAllOk k = true.
Proof. unfold IsIdle. rewrite !andb_true_iff, !Z.eqb_eq, Bool.eqb_true_iff. tauto. Qed.

(** C10: whatever the workers did in between and however the threads were
    interleaved and woken, the value that [Wait] returns is the conjunction of
    all the checks added in the round; the queue is then empty, and what is
    left is a queue that [IsIdle] accepts. *)
Theorem Wait_verdict nBatchSizeIn s fRet :
  reachable nBatchSizeIn s -> master s = Returned fRet ->
  fRet = forallb check (vAdded s) /\ queue (q s) = [] /\ IsIdle (q s) = true.
Proof.
  intros Hs%reachable_inv Hm. destruct (Hs) as [_ _ _ _ Hmaster Hv]. rewrite Hm in Hmaster, Hv.
  destruct Hmaster as [H0 Hok]. destruct (nothing_todo s Hs H0) as (Hq & Hn & _).
  split_and!; [done..|]. by apply IsIdle_iff.
Qed.

(** The assertion of [CCheckQueueControl]'s constructor holds: a master that
    is outside of [Loop] and has added nothing since the last round finds the
    queue idle, with whatever workers there are. *)
Theorem control_finds_idle nBatchSizeIn s :
  reachable nBatchSizeIn s -> master s = Outside -> vAdded s = [] -> IsIdle (q s) = true.
Proof.
  intros Hs%reachable_inv Hm Hadd. destruct (Hs) as [_ _ _ Ha _ Hv]. rewrite Hm, Hadd in *. cbn in Ha.
  assert (H0 : nTodo (q s) = 0) by lia. destruct (nothing_todo s Hs H0) as (Hq & Hn & Hver & _).
  apply IsIdle_iff. split_and!; [done..|]. rewrite Hq, Hver in Hv. cbn in Hv. by rewrite !andb_true_r in Hv.
Qed.

(** ** The master returns *)

(** All maximal runs of the threads from [s], none waking up by itself, reach [P]. *)
Inductive eventually (P : system -> Prop) (s : system) : Prop :=
| eventually_now : P s -> eventually P s
| eventually_later :
    (exists s', thread_step s s') -> (forall s', thread_step s s' -> eventually P s') -> eventually P s.

Definition measure (s : system) : Z := 5 * zlen (queue (q s)) + sum_over weight (threads s).

Lemma measure_nonneg s : 0 <= measure s.
Proof.
  unfold measure. pose proof (sum_over_nonneg weight (threads s)) as H.
  assert (forall p, 0 <= weight p) by (intros [| |[]|?|?|?]; cbn; lia). specialize (H H0). lia.
Qed.

Lemma advance_inside fMaster k p k' p' b : advance fMaster k p = Some (k', p', b) -> p' <> Outside.
Proof.
  intros Hadv ->. destruct p; cbn in Hadv; try done; injection Hadv as Hl ?; unfold loop_while in Hl;
    destruct (queue _); try done; by destruct (_ && _).
Qed.

Lemma thread_step_facts s s' :
  system_inv s -> thread_step s s' ->
  system_inv s' /\ measure s' < measure s /\ vAdded s' = vAdded s /\ (master s <> Outside -> master s' <> Outside).
Proof.
  intros Hs Hstep. destruct Hstep as [s0 k' p' b Hr Hadv|s0 i p k' p' b Hi Hr Hadv].
  - destruct (master_advance_inv _ _ _ _ Hs Hadv) as [Hs' Hm]. rewrite Hr in Hm. unfold measure, threads in *; cbn in *.
    split_and!; [done|lia|done|]. intros _. by eapply advance_inside.
  - destruct (worker_advance_inv _ _ _ _ _ _ Hs Hi Hadv) as [Hs' Hm]. rewrite Hr in Hm. unfold measure, threads in *; cbn in *.
    split_and!; [done|lia|done|]. destruct b; [|done]. by destruct (master s0).
Qed.

(** As long as the master has not returned, some thread can go on. *)
Lemma master_progress s :
  system_inv s -> master s <> Outside -> (forall fRet, master s <> Returned fRet) -> exists s', thread_step s s'.
Proof.
  intros Hs Hin Hret. destruct (ready (master s)) eqn:Hr.
  - destruct (advance true (q s) (master s)) as [[[k' p'] b]|] eqn:Hadv; [by eexists; econstructor|].
    by destruct (master s).
  - destruct (master s) as [| |[]|?|?|r] eqn:Hm; try done; [|by specialize (Hret r)].
    destruct Hs as [[Ht _ _ _ _] Hok _ _ Hw _]. rewrite Hm in Hw. destruct Hw as [Hq H0]. specialize (H0 eq_refl).
    rewrite Hq in Ht. unfold threads in *. rewrite Hm in *. cbn in Ht. apply Forall_cons in Hok as [_ Hok].
    assert (Hex : exists p, p ∈ workers s /\ pending p <> 0).
    { assert (Hsum : sum_over pending (workers s) <> 0) by lia. clear -Hsum.
      induction (workers s) as [|p l IH]; [done|]. cbn in Hsum. destruct (Z.eq_dec (pending p) 0) as [E|E].
      - destruct IH as (p0 & ? & ?); [lia|]. exists p0. split; [by right|done].
      - exists p. split; [by left|done]. }
    destruct Hex as (p & [i Hi]%list_elem_of_lookup & Hp).
    destruct (advance false (q s) p) as [[[k' p'] b]|] eqn:Hadv; [|by destruct p].
    eexists. eapply worker_step; [done| |done]. by destruct p.
Qed.

(** C16: [Wait] returns.  From any reachable state whose master is in [Loop], the
    threads, each taking its steps in any order, bring the master to a return
    with the conjunction of the checks added, without counting on spurious
    wake-ups: no notification is lost, and no order of steps goes on for ever. *)
Theorem Wait_returns nBatchSizeIn s :
  reachable nBatchSizeIn s -> master s <> Outside ->
  eventually (fun s' => master s' = Returned (forallb check (vAdded s))) s.
Proof.
  intros Hs%reachable_inv Hin. remember (measure s) as n eqn:Hn. revert s Hn Hs Hin. induction n as [n IH] using (well_founded_induction (Z.lt_wf 0)). intros s Hn Hs Hin.
  assert (Hret : (exists r, master s = Returned r) \/ forall r, master s <> Returned r)
    by (destruct (master s); [by right..|left; by eexists]).
  destruct Hret as [[r Hm]|Hret].
  - apply eventually_now. destruct Hs as [_ _ _ _ _ Hv]. by rewrite Hv, Hm.
  - apply eventually_later; [by apply master_progress|]. intros s' Hstep.
    destruct (thread_step_facts s s' Hs Hstep) as (Hs' & Hlt & <- & Hin').
    pose proof (measure_nonneg s'). apply (IH (measure s')); [lia|done|done|by apply Hin'].
Qed.
End Queue.

Arguments CCheckQueue : clear implicits.
Arguments phase : clear implicits.
Arguments system : clear implicits.

(** A run given by its schedule: [None] is the master, [Some i] a worker. *)
Section Schedule.
Context {T : Type} (check : T -> bool).

Definition run_thread (who : option nat) (s : system T) : option (system T) :=
  match who with
  | None =>
      if ready (master s) then
        '(q', p', _) ← advance check true (q s) (master s);
        Some (System q' p' (workers s) (vAdded s))
      else None
  | Some i =>
      p ← workers s !! i;
      if ready p then
        '(q', p', b) ← advance check false (q s) p;
        Some (System q' (if b : bool then notify (master s) else master s) (<[i := p']> (workers s)) (vAdded s))
      else None
  end.

Definition run (schedule : list (option nat)) (s : system T) : option (system T) :=
  foldl (fun s who => s ≫= run_thread who) (Some s) schedule.

Lemma run_thread_step who s s' : run_thread who s = Some s' -> thread_step check s s'.
Proof.
  destruct who as [i|]; cbn.
  - destruct (workers s !! i) as [p|] eqn:Hi; cbn; [|done]. destruct (ready p) eqn:Hr; [|done].
    destruct (advance check false (q s) p) as [[[q' p'] b]|] eqn:Ha; cbn; [|done]. intros [= <-]. by econstructor.
  - destruct (ready (master s)) eqn:Hr; [|done].
    destruct (advance check true (q s) (master s)) as [[[q' p'] b]|] eqn:Ha; cbn; [|done]. intros [= <-]. by econstructor.
Qed.

Lemma run_reachable n schedule s s' : reachable check n s -> run schedule s = Some s' -> reachable check n s'.
Proof.
  unfold run. revert s. induction schedule as [|who l IH]; intros s Hs; cbn; [by intros [= <-]|].
  destruct (run_thread who s) as [s1|] eqn:H1.
  - apply IH. eapply reach_step; [done|]. left. by eapply run_thread_step.
  - assert (foldl (fun s who => s ≫= run_thread who) None l = None) as -> by (clear; by induction l). done.
Qed.
End Schedule.

(** One worker, batches of one and the checks [true; false]: the worker and the
    master each execute one, and the worker's last step wakes the master. *)
Section Sample.
Definition sample_added : system bool :=
  System (Add [true; false] (CCheckQueue_new 1)) Outside [Entering] [true; false].
Definition sample_wait : system bool := System (q sample_added) Entering [Entering] [true; false].
Definition sample_schedule : list (option nat) :=
  [Some 0%nat; None; None; None; Some 0%nat; Some 0%nat; None].

Lemma sample_reachable : reachable id 1 sample_wait.
Proof.
  eapply (reach_step id 1 sample_added); [|right; by apply master_Wait].
  eapply (reach_step id 1 (System (CCheckQueue_new 1) Outside [Entering] [])).
  - eapply reach_step; [apply reach_new|]. right. apply (new_worker id (system_new 1)).
  - right. by apply (master_Add id (System (CCheckQueue_new 1) Outside [Entering] []) [true; false] [Entering]).
Qed.

Lemma Wait_verdict_witness :
  exists s, run id sample_schedule sample_wait = Some s /\ master s = Returned false /\
            (false = forallb id (vAdded s) /\ queue (q s) = [] /\ IsIdle (q s) = true).
Proof.
  eexists. split; [vm_compute; reflexivity|]. split; [reflexivity|].
  eapply (Wait_verdict id 1); [|reflexivity].
  eapply (run_reachable id 1 sample_schedule); [exact sample_reachable|vm_compute; reflexivity].
Defined.

Lemma control_finds_idle_witness :
  IsIdle (q (System (CCheckQueue_new 1) Outside [Entering] ([] : list bool))) = true.
Proof.
  apply (control_finds_idle id 1); [|reflexivity|reflexivity].
  eapply reach_step; [apply reach_new|]. right. apply (new_worker id (system_new 1)).
Defined.

Lemma Wait_returns_witness : eventually id (fun s' => master s' = Returned false) sample_wait.
Proof. apply (Wait_returns id 1 sample_wait); [exact sample_reachable|done]. Defined.
End Sample.

