(* ===== verification/Subsidy.v ===== *)
(** * Block rewards: validation.cpp

    The value of a block, the share of the masternodes and the reward of the
    developers.  The source writes most amounts as products of [double]s that are
    then truncated to satoshis, so the doubles are computed as IEEE 754 binary64
    numbers, rounded to nearest at each operation: a decimal literal is the
    double nearest to it, which is the correctly rounded quotient of two
    integers.  The cached supply, [MoneySupply], is an argument. *)
From Stdlib Require Import SpecFloat.
From S2P Require Import Prelude Params Script Transaction.

(** ** Doubles *)

Definition double := spec_float.
Definition double_of_Z (n : Z) : double := binary_normalize 53 1024 n 0 false.
Definition literal (n k : Z) : double := SFdiv 53 1024 (double_of_Z n) (double_of_Z (10 ^ k)).
Definition dmul : double -> double -> double := SFmul 53 1024.

(** The conversion to [int64_t]: towards zero, undefined out of range. *)
Definition to_int64 {E} (d : double) : outcome E Z :=
  match d with
  | S754_zero _ => Ok 0
  | S754_finite s m e =>
      let v := if 0 <=? e then Z.pos m * 2 ^ e else Z.pos m / 2 ^ (- e) in
      int64_result (if s then - v else v)
  | _ => Abort
  end.

(** ** The rewards *)

Definition block_subsidy {E} (nHeight : Z) : outcome E Z :=
  let coins (d : double) := to_int64 (dmul d (double_of_Z Params.COIN)) in
  let of20 n := dmul (double_of_Z 20) (literal n 4) in
  if (0 <? nHeight) && (nHeight <? 501) then int64_result (21400 * Params.COIN)
  else if (501 <=? nHeight) && (nHeight <? 225650) then int64_result (20 * Params.COIN)
  else if (nHeight <? 751300) && (225650 <=? nHeight) then coins (dmul (double_of_Z 20) (literal 82 2))
  else if (nHeight <? 1276950) && (751300 <=? nHeight) then coins (of20 6724)
  else if (nHeight <? 1802600) && (1276950 <=? nHeight) then coins (literal 11028 3)
  else if (nHeight <? 2328250) && (1802600 <=? nHeight) then coins (literal 9044 3)
  else if (nHeight <? 2853900) && (2328250 <=? nHeight) then coins (literal 608 2)
  else if (nHeight <? 3379550) && (2853900 <=? nHeight) then coins (of20 3040)
  else if (nHeight <? 3905200) && (3379550 <=? nHeight) then coins (of20 2493)
  else if (nHeight <? 4430850) && (3905200 <=? nHeight) then coins (of20 2045)
  else if (nHeight <? 4956500) && (4430850 <=? nHeight) then coins (of20 1677)
  else if (nHeight <? 5482150) && (4956500 <=? nHeight) then coins (of20 1375)
  else if (nHeight <? 6007800) && (5482150 <=? nHeight) then coins (of20 1127)
  else if (nHeight <? 6533450) && (6007800 <=? nHeight) then coins (of20 924)
  else if (nHeight <? 7378560) && (6533450 <=? nHeight) then int64_result (1 * Params.COIN)
  else if (nHeight <? 10013760) && (7378560 <=? nHeight) then coins (literal 9 1)
  else if (nHeight <? 12648960) && (10013760 <=? nHeight) then coins (literal 8 1)
  else if (nHeight <? 15284160) && (12648960 <=? nHeight) then coins (literal 7 1)
  else if (nHeight <? 17919360) && (15284160 <=? nHeight) then coins (literal 6 1)
  else if (nHeight <? 20554560) && (17919360 <=? nHeight) then coins (literal 5 1)
  else if (nHeight <? 23189760) && (20554560 <=? nHeight) then coins (literal 4 1)
  else if (nHeight <? 25824960) && (23189760 <=? nHeight) then coins (literal 3 1)
  else coins (literal 25 2).

Definition GetBlockValue {E} (p : Params) (nMoneySupply nHeight : Z) : outcome E Z :=
  nSubsidy ← block_subsidy nHeight;
  sum ← int64_result (nMoneySupply + nSubsidy);
  if nMaxMoneyOut p <=? sum then Ok 0 else Ok nSubsidy.

Definition GetMasternodePayment {E} (p : Params) (nMoneySupply nHeight : Z) : outcome E Z :=
  nSubsidy ← GetBlockValue p nMoneySupply nHeight;
  ret ← (if nHeight <? 200 then Ok 0
         else if (nHeight <? 100000) && (200 <=? nHeight) then
           times4 ← int64_result (nSubsidy * 4); Ok (Z.quot times4 5)
         else if 1774000 <? nHeight then to_int64 (dmul (double_of_Z nSubsidy) (literal 7 1))
         else to_int64 (dmul (double_of_Z nSubsidy) (literal 8 1)));
  sum ← int64_result (nMoneySupply + nSubsidy);
  if nMaxMoneyOut p <=? sum then Ok 0 else Ok ret.

Definition GetDevReward {E} (p : Params) (nMoneySupply nHeight : Z) : outcome E Z :=
  nSubsidy ← GetBlockValue p nMoneySupply nHeight;
  to_int64 (dmul (dmul (double_of_Z nSubsidy) (literal 1 1)) (double_of_Z Params.COIN)).

(** masternode-payments.cpp: what the masternode synchronisation, the sporks and
    the budget manager say are arguments. *)
Definition IsBlockValueValid {E} (p : Params) (fTestnet IsSynced fSuperblocks : bool) (GetTotalBudget : Z -> CAmount)
    (GetExpectedPayeeAmount : Z -> option CAmount) (nHeight : Z) (nExpectedValue nMinted : CAmount) : outcome E bool :=
  let final (nExpectedValue : CAmount) :=
    Ok (if (nHeight =? 609500) || (nHeight <=? 1780000) then true else nMinted <=? nExpectedValue) in
  if negb IsSynced then
    if Z.rem nHeight (nBudgetCycleBlocks p) <? 100 then
      if fTestnet then Ok true else
      n ← int64_result (nExpectedValue + GetTotalBudget nHeight); final n
    else final nExpectedValue
  else if fSuperblocks then
    match GetExpectedPayeeAmount nHeight with
    | Some expectedPayAmount => n ← int64_result (nExpectedValue + expectedPayAmount); final n
    | None => final nExpectedValue
    end
  else final nExpectedValue.

(** ** The schedule

    What the literals of the source say: from which height on, and how many
    ten-thousandths of a coin. *)
Definition eras : list (Z * Z) :=
  [(1, 21400 * 10000); (501, 20 * 10000); (225650, 20 * 8200); (751300, 20 * 6724); (1276950, 110280);
   (1802600, 90440); (2328250, 60800); (2853900, 20 * 3040); (3379550, 20 * 2493); (3905200, 20 * 2045);
   (4430850, 20 * 1677); (4956500, 20 * 1375); (5482150, 20 * 1127); (6007800, 20 * 924); (6533450, 10000);
   (7378560, 9000); (10013760, 8000); (12648960, 7000); (15284160, 6000); (17919360, 5000); (20554560, 4000);
   (23189760, 3000); (25824960, 2500)].

Definition scheduled (nHeight : Z) : Z :=
  fold_left (fun amount era => if fst era <=? nHeight then snd era else amount) eras 2500 * (Params.COIN / 10000).

(** The two eras whose product of doubles is just below the decimal. *)
Definition rounded_down (nHeight : Z) : bool :=
  (225650 <=? nHeight) && (nHeight <? 751300) || (4430850 <=? nHeight) && (nHeight <? 4956500).

Definition subsidy_at (nHeight : Z) : Z := scheduled nHeight - (if rounded_down nHeight then 1 else 0).

(** Inside an era every comparison of the height with a constant is decided. *)
Ltac decide_height :=
  repeat match goal with
  | |- context [?a <=? ?b] => first [rewrite (proj2 (Z.leb_le a b)) by lia | rewrite (proj2 (Z.leb_gt a b)) by lia]
  | |- context [?a <? ?b] => first [rewrite (proj2 (Z.ltb_lt a b)) by lia | rewrite (proj2 (Z.ltb_ge a b)) by lia]
  end.

Lemma era_of nHeight :
  Exists (fun '(first, next) => first <= nHeight < next) (zip (map fst eras) (tail (map fst eras))) \/
  nHeight < 1 \/ 25824960 <= nHeight.
Proof.
  cbn. rewrite !Exists_cons, Exists_nil. lia.
Qed.

Lemma block_subsidy_at {E} nHeight : block_subsidy (E := E) nHeight = Ok (subsidy_at nHeight).
Proof.
  destruct (era_of nHeight) as [H|H].
  - cbn in H. rewrite !Exists_cons, Exists_nil in H. unfold block_subsidy, subsidy_at, scheduled, rounded_down, eras. cbn [fold_left fst snd].
    destruct_or!; try done; decide_height; cbn [andb orb]; vm_compute; reflexivity.
  - unfold block_subsidy, subsidy_at, scheduled, rounded_down, eras. cbn [fold_left fst snd].
    destruct H; decide_height; cbn [andb orb]; vm_compute; reflexivity.
Qed.

Definition amounts : list Z :=
  [2000000000; 1639999999; 1344800000; 1102800000; 904400000; 608000000; 498600000; 409000000; 335399999;
   275000000; 225400000; 184800000; 100000000; 90000000; 80000000; 70000000; 60000000; 50000000; 40000000;
   30000000; 25000000].

Lemma subsidy_amounts nHeight :
  if (1 <=? nHeight) && (nHeight <? 501) then subsidy_at nHeight = 21400 * Params.COIN else In (subsidy_at nHeight) amounts.
Proof.
  destruct (era_of nHeight) as [H|H].
  - cbn in H. rewrite !Exists_cons, Exists_nil in H. unfold subsidy_at, scheduled, rounded_down, eras. cbn [fold_left fst snd].
    destruct_or!; try done; decide_height; cbn; tauto.
  - unfold subsidy_at, scheduled, rounded_down, eras. cbn [fold_left fst snd].
    destruct H; decide_height; cbn; tauto.
Qed.

Lemma all_amounts (P : Z -> Prop) nHeight : P (21400 * Params.COIN) -> Forall P amounts -> P (subsidy_at nHeight).
Proof.
  intros H1 H2. pose proof (subsidy_amounts nHeight) as H. destruct (_ && _); [by rewrite H|].
  rewrite List.Forall_forall in H2. auto.
Qed.

Ltac each_amount :=
  unfold amounts; repeat (apply Forall_cons; split); [..|by apply Forall_nil]; unfold Params.COIN; lia.

Lemma subsidy_range nHeight : 0 < subsidy_at nHeight <= 21400 * Params.COIN.
Proof. apply all_amounts; [done|each_amount]. Qed.

Section Rewards.
Context {E : Type} (p : Params) (nMoneySupply nHeight : Z).
Hypothesis Hsupply : in_s 64 (nMoneySupply + 21400 * Params.COIN) /\ 0 <= nMoneySupply.

(** The block value without the rounding of the code. *)
Definition block_value : Z := if nMaxMoneyOut p <=? nMoneySupply + subsidy_at nHeight then 0 else subsidy_at nHeight.

Lemma block_value_cases : block_value = 0 \/ block_value = subsidy_at nHeight.
Proof. unfold block_value. destruct (_ <=? _); auto. Qed.

Lemma supply_in_range v : 0 <= v <= 21400 * Params.COIN -> in_s 64 (nMoneySupply + v).
Proof. unfold in_s in *. lia. Qed.

Lemma GetBlockValue_ok : GetBlockValue (E := E) p nMoneySupply nHeight = Ok block_value.
Proof.
  unfold GetBlockValue, block_value. rewrite block_subsidy_at. cbn. pose proof (subsidy_range nHeight).
  rewrite int64_result_ok by (apply supply_in_range; lia). cbn. by destruct (_ <=? _).
Qed.

Lemma all_values (P : Z -> Prop) : P 0 -> P (21400 * Params.COIN) -> Forall P amounts -> P block_value.
Proof. intros H0 H1 H2. destruct block_value_cases as [->| ->]; [done|]. by apply all_amounts. Qed.

Lemma block_value_range : 0 <= block_value <= 21400 * Params.COIN.
Proof. apply all_values; [done..|each_amount]. Qed.

(** What [GetMasternodePayment] takes of a block value, before the cap. *)
Definition share (v : Z) : outcome E Z :=
  if nHeight <? 200 then Ok 0
  else if (nHeight <? 100000) && (200 <=? nHeight) then times4 ← int64_result (v * 4); Ok (Z.quot times4 5)
  else if 1774000 <? nHeight then to_int64 (dmul (double_of_Z v) (literal 7 1))
  else to_int64 (dmul (double_of_Z v) (literal 8 1)).

(** Eighty percent, exactly, or seventy, at most one satoshi short. *)
Definition percent (v m : Z) : Prop :=
  if nHeight <? 200 then m = 0
  else if 1774000 <? nHeight then v * 7 / 10 - 1 <= m <= v * 7 / 10
  else m = v * 8 / 10.
End Rewards.

Definition ok_with {E} (m : outcome E Z) (P : Z -> bool) : bool := match m with Ok x => P x | _ => false end.

Lemma ok_with_iff {E} (m : outcome E Z) P : ok_with m P = true -> exists x, m = Ok x /\ P x = true.
Proof. destruct m; try done. by eexists. Qed.

Lemma percents_of_amounts {E} v :
  v = 0 \/ v = 21400 * Params.COIN \/ In v amounts ->
  (exists m, to_int64 (E := E) (dmul (double_of_Z v) (literal 7 1)) = Ok m /\ 0 <= m /\ v * 7 / 10 - 1 <= m <= v * 7 / 10) /\
  (exists m, to_int64 (E := E) (dmul (double_of_Z v) (literal 8 1)) = Ok m /\ m = v * 8 / 10) /\
  Z.quot (v * 4) 5 = v * 8 / 10.
Proof.
  set (good := fun v => 
    ok_with (to_int64 (E := E) (dmul (double_of_Z v) (literal 7 1))) (fun m => (0 <=? m) && ((v * 7 / 10 - 1 <=? m) && (m <=? v * 7 / 10))) &&
    ok_with (to_int64 (E := E) (dmul (double_of_Z v) (literal 8 1))) (fun m => m =? v * 8 / 10) && (Z.quot (v * 4) 5 =? v * 8 / 10)).
  assert (Hall : forallb good (0 :: 21400 * Params.COIN :: amounts) = true) by (vm_compute; reflexivity).
  rewrite forallb_forall in Hall. intros Hv. specialize (Hall v). unfold good in Hall.
  assert (Hin : In v (0 :: 21400 * Params.COIN :: amounts)) by (destruct Hv as [->|[->|?]]; cbn [In]; auto).
  apply Hall in Hin. rewrite !andb_true_iff, Z.eqb_eq in Hin. destruct Hin as [[H7 H8] H4].
  apply ok_with_iff in H7 as (m7 & -> & H7), H8 as (m8 & -> & H8).
  rewrite !andb_true_iff, !Z.leb_le in H7. rewrite Z.eqb_eq in H8.
  split_and!; [by exists m7|by exists m8|done].
Qed.

Lemma block_value_amount p nMoneySupply nHeight :
  let v := block_value p nMoneySupply nHeight in v = 0 \/ v = 21400 * Params.COIN \/ In v amounts.
Proof.
  intros v. unfold v. apply all_values; [by left|by right; left|]. apply List.Forall_forall. auto.
Qed.

(** The block value is what the literals of the source say, less one satoshi
    in the two eras whose product of doubles falls below the decimal, and zero
    from the block that would reach the cap on. *)
Theorem GetBlockValue_schedule {E} p nMoneySupply nHeight :
  0 <= nMoneySupply -> in_s 64 (nMoneySupply + 21400 * Params.COIN) ->
  GetBlockValue (E := E) p nMoneySupply nHeight =
    let v := scheduled nHeight - (if rounded_down nHeight then 1 else 0) in
    Ok (if nMaxMoneyOut p <=? nMoneySupply + v then 0 else v).
Proof. intros H0 H1. by apply GetBlockValue_ok. Qed.

(** The masternode gets nothing before height 200, eighty percent of the
    block value, rounded down, until height 1774000, and from then on seventy
    percent, rounded down and at most one satoshi short: never more than the
    block value. *)
Theorem GetMasternodePayment_share {E} p nMoneySupply nHeight :
  0 <= nMoneySupply -> in_s 64 (nMoneySupply + 21400 * Params.COIN) ->
  exists v m, GetBlockValue (E := E) p nMoneySupply nHeight = Ok v /\
    GetMasternodePayment (E := E) p nMoneySupply nHeight = Ok m /\
    percent nHeight v m /\ 0 <= m <= v.
Proof.
  intros H0 H1. set (v := block_value p nMoneySupply nHeight). exists v.
  pose proof (GetBlockValue_ok (E := E) p nMoneySupply nHeight (conj H1 H0)) as Hv. fold v in Hv.
  pose proof (block_value_range p nMoneySupply nHeight) as Hr. fold v in Hr.
  destruct (percents_of_amounts (E := E) v) as ((m7 & E7 & H7) & (m8 & E8 & H8) & Hq);
    [apply block_value_amount|].
  assert (Hsum : in_s 64 (nMoneySupply + v)) by (apply supply_in_range; auto; lia).
  assert (Hcap : (nMaxMoneyOut p <=? nMoneySupply + v) = true -> v = 0).
  { unfold v, block_value. destruct (_ <=? nMoneySupply + subsidy_at nHeight) eqn:Ec; [done|]. by rewrite Ec. }
  assert (Hm : exists m, share nHeight v = @Ok E Z m /\ percent nHeight v m /\ 0 <= m <= v).
  { unfold share, percent. rewrite E7, E8.
    assert (0 <= v * 8 / 10 <= v) by (split; [apply Z.div_pos|apply Z.div_le_upper_bound]; lia).
    assert (0 <= v * 7 / 10 <= v) by (split; [apply Z.div_pos|apply Z.div_le_upper_bound]; lia).
    rewrite int64_result_ok by (unfold in_s, Params.COIN in *; lia). cbn. rewrite Hq.
    destruct (Z.ltb_spec nHeight 200), (Z.ltb_spec nHeight 100000), (Z.ltb_spec 1774000 nHeight), (Z.leb_spec 200 nHeight);
      cbn; try lia; eexists; (split; [reflexivity|lia]). }
  destruct Hm as (m & Hm & Hp & Hmr).
  unfold GetMasternodePayment. rewrite Hv. cbn. unfold share in Hm. rewrite Hm. cbn. rewrite int64_result_ok by done. cbn.
  destruct (nMaxMoneyOut p <=? nMoneySupply + v) eqn:Ec; [|by exists m].
  specialize (Hcap eq_refl). exists 0. split_and!; [done..| |done|lia]. rewrite Hcap. unfold percent.
  change (0 * 7 / 10) with 0. change (0 * 8 / 10) with 0.
  destruct (nHeight <? 200), (1774000 <? nHeight); lia.
Qed.

(** [GetDevReward] takes a tenth of the block value, an amount in satoshis,
    and multiplies it by [COIN] once more: a hundred million times the tenth of
    the block, and for the first five hundred blocks a conversion out of the
    range of int64_t. *)
Theorem GetDevReward_scale {E} p nMoneySupply nHeight :
  0 <= nMoneySupply -> in_s 64 (nMoneySupply + 21400 * Params.COIN) ->
  exists v, GetBlockValue (E := E) p nMoneySupply nHeight = Ok v /\
    GetDevReward (E := E) p nMoneySupply nHeight =
      if v =? 21400 * Params.COIN then Abort else Ok (v * (Params.COIN / 10)).
Proof.
  intros H0 H1. set (v := block_value p nMoneySupply nHeight). exists v.
  pose proof (GetBlockValue_ok (E := E) p nMoneySupply nHeight (conj H1 H0)) as Hv. fold v in Hv.
  split; [done|]. unfold GetDevReward. rewrite Hv. cbn [mbind outcome_bind].
  unfold v. apply (all_values p nMoneySupply nHeight (fun v => to_int64 (dmul (dmul (double_of_Z v) (literal 1 1)) (double_of_Z Params.COIN)) = if v =? 21400 * Params.COIN then Abort else Ok (v * (Params.COIN / 10)))).
  - by vm_compute.
  - by vm_compute.
  - unfold amounts; repeat (apply Forall_cons; split); [..|by apply Forall_nil]; by vm_compute.
Qed.

(** ** The supply *)

(** Blocks from [nHeight] on, each minting at most its value, of an up-to-date
    supply. *)
Inductive issued {E} (p : Params) : Z -> Z -> Z -> Z -> Prop :=
| issued_none nHeight nSupply : issued p nHeight nSupply nHeight nSupply
| issued_block h0 s0 nHeight nSupply v minted :
    issued p h0 s0 nHeight nSupply -> GetBlockValue (E := E) p nSupply nHeight = Ok v -> 0 <= minted <= v ->
    issued p h0 s0 (nHeight + 1) (nSupply + minted).

(** Minting at most the block value never reaches the cap on the supply. *)
Theorem issuance_capped {E} p h0 s0 nHeight nSupply :
  nMaxMoneyOut p <= 2 ^ 62 -> 0 <= s0 < nMaxMoneyOut p -> issued (E := E) p h0 s0 nHeight nSupply ->
  s0 <= nSupply < nMaxMoneyOut p.
Proof.
  intros Hmax Hs0. induction 1 as [|h0 s0 nHeight nSupply v minted _ IH Hv Hm]; [lia|]. specialize (IH Hs0).
  rewrite GetBlockValue_ok in Hv by (unfold in_s, Params.COIN; lia). injection Hv as <-.
  unfold block_value in Hm. destruct (Z.leb_spec (nMaxMoneyOut p) (nSupply + subsidy_at nHeight)); lia.
Qed.

(** ** Witnesses *)

Lemma GetBlockValue_schedule_witness :
  0 <= 0 /\ GetBlockValue (E := unit) mainParams 0 300000 = Ok 1639999999.
Proof.
  split; [done|]. rewrite (GetBlockValue_schedule mainParams 0 300000); [vm_compute; reflexivity|done|].
  vm_compute. split; congruence.
Defined.

Lemma GetMasternodePayment_share_witness :
  exists v m, GetBlockValue (E := unit) mainParams 0 1800000 = Ok v /\
    GetMasternodePayment (E := unit) mainParams 0 1800000 = Ok m /\ percent 1800000 v m /\ 0 <= m <= v.
Proof. apply (GetMasternodePayment_share mainParams 0 1800000); [done|]. vm_compute. split; congruence. Defined.

Lemma GetDevReward_scale_witness :
  exists v, GetBlockValue (E := unit) mainParams 0 100 = Ok v /\
    GetDevReward (E := unit) mainParams 0 100 = if v =? 21400 * Params.COIN then Abort else Ok (v * (Params.COIN / 10)).
Proof. apply (GetDevReward_scale mainParams 0 100); [done|]. vm_compute. split; congruence. Defined.

Lemma issuance_capped_witness :
  issued (E := unit) mainParams 1 0 2 (21400 * Params.COIN) /\ 0 <= 21400 * Params.COIN < nMaxMoneyOut mainParams.
Proof.
  assert (H : issued (E := unit) mainParams 1 0 2 (21400 * Params.COIN)).
  { eapply (issued_block _ 1 0 1 0 _ (21400 * Params.COIN)); [constructor|vm_compute; reflexivity|done]. }
  split; [exact H|]. by apply (issuance_capped (E := unit) mainParams 1 0 2 (21400 * Params.COIN)).
Defined.
