(* ===== verification/Indexes.v ===== *)
(** * The address and spent indexes: index/addressindex.h, index/spentindex.h, txdb.cpp

    The keys and values that ConnectBlock and DisconnectBlock write about the
    addresses that are paid and spent, their wire format, and the four tables of
    [CBlockTreeDB] as maps: a batch is applied in order. *)
From S2P Require Import Prelude Serialize Hash Script Transaction.

Record CAddressUnspentKey := AddressUnspentKey { unspent_type : Z; unspent_hashBytes : list Z; unspent_txhash : uint256; unspent_index : Z }.
Record CAddressUnspentValue := AddressUnspentValue { satoshis : CAmount; script : CScript; blockHeight : Z }.
Record CAddressIndexKey := AddressIndexKey {
  type : Z; hashBytes : list Z; key_blockHeight : Z; txindex : Z; txhash : uint256; index : Z; spending : bool }.
Record CSpentIndexKey := SpentIndexKey { spent_txid : uint256; outputIndex : Z }.
Record CSpentIndexValue := SpentIndexValue {
  by_txid : uint256; inputIndex : Z; by_blockHeight : Z; by_satoshis : CAmount; addressType : Z; addressHash : list Z }.

Definition UINT160_ZERO : list Z := replicate 20 0.
Definition CAddressUnspentValue_new : CAddressUnspentValue := AddressUnspentValue (-1) [] 0.
Definition CAddressUnspentValue_IsNull (v : CAddressUnspentValue) : bool := satoshis v =? -1.
Definition CSpentIndexValue_new : CSpentIndexValue := SpentIndexValue UINT256_ZERO 0 0 0 0 UINT160_ZERO.
Definition CSpentIndexValue_IsNull (v : CSpentIndexValue) : bool := uint256_IsNull (by_txid v).

#[export] Instance CAddressUnspentKey_eq_dec : EqDecision CAddressUnspentKey.
Proof. solve_decision. Defined.
#[export] Instance CAddressUnspentValue_eq_dec : EqDecision CAddressUnspentValue.
Proof. solve_decision. Defined.
#[export] Instance CAddressIndexKey_eq_dec : EqDecision CAddressIndexKey.
Proof. solve_decision. Defined.
#[export] Instance CSpentIndexKey_eq_dec : EqDecision CSpentIndexKey.
Proof. solve_decision. Defined.
#[export] Instance CAddressUnspentKey_countable : Countable CAddressUnspentKey.
Proof.
  apply (inj_countable' (fun k => (unspent_type k, unspent_hashBytes k, unspent_txhash k, unspent_index k))
    (fun '(t, h, x, i) => AddressUnspentKey t h x i)). by intros [].
Defined.
#[export] Instance CAddressIndexKey_countable : Countable CAddressIndexKey.
Proof.
  apply (inj_countable' (fun k => (type k, hashBytes k, key_blockHeight k, txindex k, txhash k, index k, spending k))
    (fun '(t, h, b, n, x, i, s) => AddressIndexKey t h b n x i s)). by intros [].
Defined.
#[export] Instance CSpentIndexKey_countable : Countable CSpentIndexKey.
Proof.
  apply (inj_countable' (fun k => (spent_txid k, outputIndex k)) (fun '(x, i) => SpentIndexKey x i)). by intros [].
Defined.

(** ** Wire format *)

Definition uint32be_c : codec Z := Codec ser_writedata32be (b ← read_raw 4; mret (be_val b)) (in_u 32).
Definition int32be_c : codec Z := Codec ser_writedata32be (b ← read_raw 4; mret (i32 (be_val b))) (in_s 32).

Definition CAddressUnspentKey_c : codec CAddressUnspentKey :=
  Codec (fun k => ser uint8_c (unspent_type k) ++ ser (blob_c 20) (unspent_hashBytes k) ++
                  ser (blob_c 32) (unspent_txhash k) ++ ser uint32_c (unspent_index k))
    (t ← unser uint8_c; h ← unser (blob_c 20); x ← unser (blob_c 32); i ← unser uint32_c;
     mret (AddressUnspentKey t h x i))
    (fun k => wire uint8_c (unspent_type k) /\ wire (blob_c 20) (unspent_hashBytes k) /\
              wire (blob_c 32) (unspent_txhash k) /\ wire uint32_c (unspent_index k)).

Definition CAddressUnspentValue_c : codec CAddressUnspentValue :=
  Codec (fun v => ser int64_c (satoshis v) ++ ser bytes_c (script v) ++ ser int32_c (blockHeight v))
    (a ← unser int64_c; s ← unser bytes_c; h ← unser int32_c; mret (AddressUnspentValue a s h))
    (fun v => wire int64_c (satoshis v) /\ wire bytes_c (script v) /\ wire int32_c (blockHeight v)).

Definition CAddressIndexKey_c : codec CAddressIndexKey :=
  Codec (fun k => ser uint8_c (type k) ++ ser (blob_c 20) (hashBytes k) ++ ser int32be_c (key_blockHeight k) ++
                  ser uint32be_c (txindex k) ++ ser (blob_c 32) (txhash k) ++ ser uint32_c (index k) ++
                  ser uint8_c (if spending k then 1 else 0))
    (t ← unser uint8_c; h ← unser (blob_c 20); b ← unser int32be_c; n ← unser uint32be_c; x ← unser (blob_c 32);
     i ← unser uint32_c; f ← unser uint8_c; mret (AddressIndexKey t h b n x i (negb (f =? 0))))
    (fun k => wire uint8_c (type k) /\ wire (blob_c 20) (hashBytes k) /\ wire int32be_c (key_blockHeight k) /\
              wire uint32be_c (txindex k) /\ wire (blob_c 32) (txhash k) /\ wire uint32_c (index k)).

Definition CSpentIndexKey_c : codec CSpentIndexKey :=
  Codec (fun k => ser (blob_c 32) (spent_txid k) ++ ser uint32_c (outputIndex k))
    (x ← unser (blob_c 32); i ← unser uint32_c; mret (SpentIndexKey x i))
    (fun k => wire (blob_c 32) (spent_txid k) /\ wire uint32_c (outputIndex k)).

Definition CSpentIndexValue_c : codec CSpentIndexValue :=
  Codec (fun v => ser (blob_c 32) (by_txid v) ++ ser uint32_c (inputIndex v) ++ ser int32_c (by_blockHeight v) ++
                  ser int64_c (by_satoshis v) ++ ser int32_c (addressType v) ++ ser (blob_c 20) (addressHash v))
    (x ← unser (blob_c 32); i ← unser uint32_c; h ← unser int32_c; a ← unser int64_c; t ← unser int32_c;
     r ← unser (blob_c 20); mret (SpentIndexValue x i h a t r))
    (fun v => wire (blob_c 32) (by_txid v) /\ wire uint32_c (inputIndex v) /\ wire int32_c (by_blockHeight v) /\
              wire int64_c (by_satoshis v) /\ wire int32_c (addressType v) /\ wire (blob_c 20) (addressHash v)).

(** ** The tables *)

(** Where a transaction is on disk: file, position of the block, and offset after
    its header. *)
Record CDiskTxPos := DiskTxPos { tx_nFile : Z; tx_nPos : Z; nTxOffset : Z }.

Record indexes := Indexes {
  addresses : gmap CAddressIndexKey CAmount;
  unspents : gmap CAddressUnspentKey CAddressUnspentValue;
  spents : gmap CSpentIndexKey CSpentIndexValue;
  txindex_db : gmap (list Z) CDiskTxPos;
  timestamps : gset (Z * list Z);
  timestamp_blocks : gmap (list Z) Z;
}.
Definition with_addresses (db : indexes) m := Indexes m (unspents db) (spents db) (txindex_db db) (timestamps db) (timestamp_blocks db).
Definition with_unspents (db : indexes) m := Indexes (addresses db) m (spents db) (txindex_db db) (timestamps db) (timestamp_blocks db).
Definition with_spents (db : indexes) m := Indexes (addresses db) (unspents db) m (txindex_db db) (timestamps db) (timestamp_blocks db).

Definition WriteAddressIndex (vect : list (CAddressIndexKey * CAmount)) (db : indexes) : indexes :=
  with_addresses db (fold_left (fun m it => <[fst it := snd it]> m) vect (addresses db)).
Definition EraseAddressIndex (vect : list (CAddressIndexKey * CAmount)) (db : indexes) : indexes :=
  with_addresses db (fold_left (fun m it => delete (fst it) m) vect (addresses db)).
Definition UpdateAddressUnspentIndex (vect : list (CAddressUnspentKey * CAddressUnspentValue)) (db : indexes) : indexes :=
  with_unspents db
    (fold_left (fun m it => if CAddressUnspentValue_IsNull (snd it) then delete (fst it) m else <[fst it := snd it]> m)
       vect (unspents db)).
Definition UpdateSpentIndex (vect : list (CSpentIndexKey * CSpentIndexValue)) (db : indexes) : indexes :=
  with_spents db
    (fold_left (fun m it => if CSpentIndexValue_IsNull (snd it) then delete (fst it) m else <[fst it := snd it]> m)
       vect (spents db)).
Definition WriteTxIndex (vect : list (uint256 * CDiskTxPos)) (db : indexes) : indexes :=
  Indexes (addresses db) (unspents db) (spents db) (fold_left (fun m it => <[fst it := snd it]> m) vect (txindex_db db))
    (timestamps db) (timestamp_blocks db).
(** [WriteTimestampIndex] and [WriteTimestampBlockIndex] *)
Definition WriteTimestamp (hash : uint256) (logicalTS : Z) (db : indexes) : indexes :=
  Indexes (addresses db) (unspents db) (spents db) (txindex_db db) ({[(logicalTS, hash)]} ∪ timestamps db)
    (<[hash := logicalTS]> (timestamp_blocks db)).

(** The address a script pays, as the indexes know it: 2 for a script hash, 1 for
    a key hash, plain or witness. *)
Definition indexed_address (s : CScript) : option (Z * list Z) :=
  if IsPayToScriptHash s then Some (2, take 20 (drop 2 s))
  else if IsPayToPublicKeyHash s then Some (1, take 20 (drop 3 s))
  else if IsPayToWitnessPubkeyHash s then Some (1, drop 2 s)
  else None.

(** ** Lemmas *)

Lemma uint32be_ok : codec_ok uint32be_c.
Proof.
  intros x rest Hx. cbn in *. rewrite (reader_bind_Ok _ _ _ _ _ (read_raw_app 4 _ rest (be_bytes_length 4 x))).
  rewrite be_val_be_bytes. unfold in_u in Hx. by rewrite Z.mod_small.
Qed.
Lemma int32be_ok : codec_ok int32be_c.
Proof.
  intros x rest Hx. cbn in *. rewrite (reader_bind_Ok _ _ _ _ _ (read_raw_app 4 _ rest (be_bytes_length 4 x))).
  rewrite be_val_be_bytes. change (8 * Z.of_nat 4) with 32. rewrite <- (wraps_small 32 x) at 2 by (done || lia).
  unfold wraps. by rewrite Zplus_mod_idemp_l.
Qed.
#[export] Hint Resolve uint32be_ok int32be_ok : codec.

Ltac index_fields c :=
  cbn [wire ser unser c unspent_type unspent_hashBytes unspent_txhash unspent_index satoshis script blockHeight type
       hashBytes key_blockHeight txindex txhash index spending spent_txid outputIndex by_txid inputIndex by_blockHeight
       by_satoshis addressType addressHash].
Ltac index_ok c :=
  let H := fresh in intros [] r H; revert H; index_fields c; intros H; decompose [and] H;
  rewrite <- ?app_assoc; rewrite !unser_step by first [solve [auto with codec] | done].

Lemma CAddressUnspentKey_ok : codec_ok CAddressUnspentKey_c.
Proof. by index_ok CAddressUnspentKey_c. Qed.
Lemma CAddressUnspentValue_ok : codec_ok CAddressUnspentValue_c.
Proof. by index_ok CAddressUnspentValue_c. Qed.
Lemma CSpentIndexKey_ok : codec_ok CSpentIndexKey_c.
Proof. by index_ok CSpentIndexKey_c. Qed.
Lemma CSpentIndexValue_ok : codec_ok CSpentIndexValue_c.
Proof. by index_ok CSpentIndexValue_c. Qed.
Lemma CAddressIndexKey_ok : codec_ok CAddressIndexKey_c.
Proof. index_ok CAddressIndexKey_c. all: by destruct spending0. Qed.
#[export] Hint Resolve CAddressUnspentKey_ok CAddressUnspentValue_ok CSpentIndexKey_ok CSpentIndexValue_ok CAddressIndexKey_ok : codec.
