(* ===== verification/Disconnect.v ===== *)
(** * Applying and undoing the coins of a block: validation.cpp

    [UpdateCoins], the undo record of a block on disk, [ApplyTxInUndo] and
    [DisconnectBlock].  The legacy zerocoin database and the budget manager are
    states [Z] and [B] with the operations the code calls; the undo files are a
    function from positions to the bytes found there.  [DISCONNECT_FAILED] is an
    [Err]: the code says that the view is then in an indeterminate state. *)
From S2P Require Import Prelude Serialize Hash Params Chain Script Transaction Block Undo Coins Indexes.

Inductive DisconnectResult := DISCONNECT_OK | DISCONNECT_UNCLEAN.

(** ** Undo records *)

Section UndoFiles.
Context (uncompressed : valtype -> option valtype).

(** What [UndoWriteToDisk] writes: the header with the size, then, from the
    position it records, the undo data and their checksum. *)
Definition UndoWriteToDisk (pchMessageStart : list Z) (blockundo : list (list Coin)) (hashBlock : uint256)
  : list Z * list Z :=
  let data := ser (CBlockUndo_c uncompressed) blockundo in
  (pchMessageStart ++ ser uint32_c (zlen data), data ++ Hash [hashBlock; data]).

(** [UndoReadFromDisk] of the bytes at the position: the checksum is over what
    was read. *)
Definition UndoReadFromDisk (filein : list Z) (hashBlock : uint256) : option (list (list Coin)) :=
  match unser (CBlockUndo_c uncompressed) filein with
  | Ok (blockundo, rest) =>
      match read_raw 32 rest with
      | Ok (hashChecksum, _) =>
          let read := take (length filein - length rest) filein in
          if bool_decide (hashChecksum = Hash [hashBlock; read]) then Some blockundo else None
      | _ => None
      end
  | _ => None
  end.
End UndoFiles.

Section Blocks.
Context {Tree V : Type} {BaseView : @CCoinsView Tree V} (Tree_new : Tree) (empty_root : uint256).
Notation cache := (CCoinsViewCache Tree V).
Context (chainparams : CChainParams) (setInvalidOutPoints : gset COutPoint).

(** ** Connecting *)

Definition SkipInvalidUTXOS (nHeight : Z) : bool :=
  String.eqb (strNetworkID chainparams) "main" &&
  Params.NetworkUpgradeActive (consensus chainparams) nHeight UPGRADE_ZC &&
  (nHeight <=? height_last_invalid_UTXO (consensus chainparams)).

Fixpoint spend_inputs (ins : list CTxIn) (inputs : cache) : list Coin * cache :=
  match ins with
  | [] => ([], inputs)
  | txin :: ins =>
      let '(moveout, inputs) := SpendCoin (prevout txin) inputs in
      let '(vprevout, inputs) := spend_inputs ins inputs in
      (default Coin_new moveout :: vprevout, inputs)
  end.

(** [UpdateCoins]: the undo data of the transaction and the new view. *)
Definition UpdateCoins (tx : CTransaction) (inputs : cache) (nHeight : Z) (fSkipInvalid : bool) : coins (list Coin * cache) :=
  let '(txundo, inputs) :=
    if negb (IsCoinBase tx) && negb (HasZerocoinSpendInputs tx) then spend_inputs (vin tx) inputs else ([], inputs) in
  let inputs := SetNullifiers tx true inputs in
  inputs ← AddCoins setInvalidOutPoints inputs tx nHeight false fSkipInvalid;
  Ok (txundo, inputs).

(** ** Disconnecting *)

(** [ApplyTxInUndo]: the result, [undo] as the caller sees it afterwards, and
    the view. *)
Definition ApplyTxInUndo (undo : Coin) (view : cache) (out : COutPoint) : coins (DisconnectResult * Coin * cache) :=
  let '(have, view) := HaveCoin out view in
  r ← (if Undo.nHeight undo =? 0 then
         let '(alternate, view) := AccessByTxid (out_hash out) view in
         if negb (IsSpent alternate)
         then Ok (MkCoin (fCoinBase alternate) (fCoinStake alternate) (Undo.out undo) (Undo.nHeight alternate), view)
         else Err tt
       else Ok (undo, view));
  let '(undo, view) := r in
  view ← AddCoin out undo have view;
  Ok (if have then DISCONNECT_UNCLEAN else DISCONNECT_OK, undo, view).

Context {ZDB BM : Type}.
Context (DisconnectZerocoinTx : CTransaction -> ZDB -> bool * ZDB) (DataBaseAccChecksum : CBlockIndex -> bool -> ZDB -> ZDB).
Context (RemoveByFeeTxId : uint256 -> BM -> BM).
Context (fAddressIndex fSpentIndex : bool).

(** What connecting and disconnecting change. *)
Record chainstate := ChainState { view : cache; zerocoinDB : ZDB; g_budgetman : BM; indexDB : indexes }.

(** The three vectors of index updates. *)
Record updates := Updates {
  addressIndex : list (CAddressIndexKey * CAmount);
  addressUnspentIndex : list (CAddressUnspentKey * CAddressUnspentValue);
  spentIndex : list (CSpentIndexKey * CSpentIndexValue);
}.
Definition updates_nil : updates := Updates [] [] [].
Definition updates_app (u v : updates) : updates :=
  Updates (addressIndex u ++ addressIndex v) (addressUnspentIndex u ++ addressUnspentIndex v) (spentIndex u ++ spentIndex v).

(** Undoing the receiving activity of outputs [k-1], ..., 0. *)
Definition undo_receiving (nHeight i : Z) (hash : uint256) (k : Z) (out : CTxOut) : updates :=
  match indexed_address (scriptPubKey out) with
  | None => updates_nil
  | Some (ty, h) => Updates [(AddressIndexKey ty h nHeight i hash k false, nValue out)]
                            [(AddressUnspentKey ty h hash k, CAddressUnspentValue_new)] []
  end.
Definition undo_receiving_all (nHeight i : Z) (hash : uint256) (outs : list CTxOut) : updates :=
  if fAddressIndex then
    foldr updates_app updates_nil (reverse (imap (fun k out => undo_receiving nHeight i hash (Z.of_nat k) out) outs))
  else updates_nil.

(** The outputs of the transaction are spent; whether they matched. *)
Fixpoint remove_outputs (hash : uint256) (outs : list CTxOut) (o : Z) (fClean : bool) (view : cache) : bool * cache :=
  match outs with
  | [] => (fClean, view)
  | out :: outs =>
      if negb (IsUnspendable (scriptPubKey out)) && negb (CTxOut_IsZerocoinMint out) then
        let '(coin, view) := SpendCoin (OutPoint hash o) view in
        let fClean := if bool_decide (out ≠ Undo.out (default Coin_new coin)) then false else fClean in
        remove_outputs hash outs (o + 1) fClean view
      else remove_outputs hash outs (o + 1) fClean view
  end.

(** One input: its coin is restored and its index entries undone. *)
Definition restore_input (nHeight i : Z) (hash : uint256) (j : Z) (txin : CTxIn) (undo : Coin) (fClean : bool) (view : cache)
  : coins (bool * updates * cache) :=
  let out := prevout txin in
  r ← ApplyTxInUndo undo view out;
  let '(res, undo, view) := r in
  let fClean := fClean && match res with DISCONNECT_UNCLEAN => false | DISCONNECT_OK => true end in
  let spent := if fSpentIndex
               then [(SpentIndexKey (out_hash out) (out_n out), CSpentIndexValue_new)] else [] in
  if fAddressIndex then
    let '(co, view) := AccessCoin out view in
    let prevout := Undo.out co in
    match indexed_address (scriptPubKey prevout) with
    | None => Ok (fClean, Updates [] [] spent, view)
    | Some (ty, h) =>
        minus ← int64_result (nValue prevout * -1);
        Ok (fClean,
            Updates [(AddressIndexKey ty h nHeight i hash j true, minus)]
              [(AddressUnspentKey ty h (out_hash out) (out_n out),
                AddressUnspentValue (nValue prevout) (scriptPubKey prevout) (Undo.nHeight undo))] spent,
            view)
    end
  else Ok (fClean, Updates [] [] spent, view).

(** [for (unsigned int j = tx.vin.size(); j-- > 0;)]; the list is reversed, with
    the indices. *)
Fixpoint restore_inputs (nHeight i : Z) (hash : uint256) (l : list (nat * (CTxIn * Coin))) (fClean : bool) (view : cache)
  : coins (bool * updates * cache) :=
  match l with
  | [] => Ok (fClean, updates_nil, view)
  | (j, (txin, undo)) :: l =>
      r ← restore_input nHeight i hash (Z.of_nat j) txin undo fClean view;
      let '(fClean, u, view) := r in
      r ← restore_inputs nHeight i hash l fClean view;
      let '(fClean, u', view) := r in
      Ok (fClean, updates_app u u', view)
  end.

(** The body of the loop over the transactions. *)
Definition disconnect_tx (nHeight i : Z) (tx : CTransaction) (vtxundo : list (list Coin)) (fClean : bool) (s : chainstate)
  : coins (bool * updates * chainstate) :=
  let '(ok, zdb) := DisconnectZerocoinTx tx (zerocoinDB s) in
  if negb ok then Err tt else
  let hash := GetHash tx in
  let budget := RemoveByFeeTxId hash (g_budgetman s) in
  let u := undo_receiving_all nHeight i hash (vout tx) in
  let '(fClean, v) := remove_outputs hash (vout tx) 0 fClean (view s) in
  if IsCoinBase tx || HasZerocoinSpendInputs tx then Ok (fClean, u, ChainState v zdb budget (indexDB s)) else
  let v := SetNullifiers tx false v in
  vprevout ← rd vtxundo (i - 1);
  if negb (zlen vprevout =? zlen (vin tx)) then Err tt else
  r ← restore_inputs nHeight i hash (reverse (imap pair (zip (vin tx) vprevout))) fClean v;
  let '(fClean, u', v) := r in
  Ok (fClean, updates_app u u', ChainState v zdb budget (indexDB s)).

(** [for (int i = block.vtx.size() - 1; i >= 0; i--)] *)
Fixpoint disconnect_txs (nHeight : Z) (l : list (nat * CTransaction)) (vtxundo : list (list Coin)) (fClean : bool) (s : chainstate)
  : coins (bool * updates * chainstate) :=
  match l with
  | [] => Ok (fClean, updates_nil, s)
  | (i, tx) :: l =>
      r ← disconnect_tx nHeight (Z.of_nat i) tx vtxundo fClean s;
      let '(fClean, u, s) := r in
      r ← disconnect_txs nHeight l vtxundo fClean s;
      let '(fClean, u', s) := r in
      Ok (fClean, updates_app u u', s)
  end.

Context (uncompressed : valtype -> option valtype).

Definition DisconnectBlock (undo_files : Z * Z -> option (list Z)) (blocks : store) (block : CBlock) (pindex : CBlockIndex)
    (s : chainstate) : coins (DisconnectResult * chainstate) :=
  let pos := GetUndoPos pindex in
  if pos.1 =? -1 then Err tt else
  pprev ← deref blocks (pprev pindex);
  match undo_files pos ≫= fun filein => UndoReadFromDisk uncompressed filein (blockHash pprev) with
  | None => Err tt
  | Some vtxundo =>
      if negb (zlen vtxundo + 1 =? zlen (vtx block)) then Err tt else
      r ← disconnect_txs (Chain.nHeight pindex) (reverse (imap pair (vtx block))) vtxundo true s;
      let '(fClean, u, s) := r in
      v ← PopAnchor Tree_new
            (if Params.NetworkUpgradeActive (consensus chainparams) (Chain.nHeight pprev) UPGRADE_V5_0
             then Chain.hashFinalSaplingRoot pprev else empty_root) (view s);
      let v := SetBestBlock (blockHash pprev) v in
      let db := if fAddressIndex
                then UpdateAddressUnspentIndex (addressUnspentIndex u) (EraseAddressIndex (addressIndex u) (indexDB s))
                else indexDB s in
      let zdb := if Params.NetworkUpgradeActive (consensus chainparams) (Chain.nHeight pindex) UPGRADE_ZC_V2 &&
                    (Chain.nHeight pindex <=? height_last_ZC_AccumCheckpoint (consensus chainparams))
                 then DataBaseAccChecksum pindex false (zerocoinDB s) else zerocoinDB s in
      Ok (if fClean : bool then DISCONNECT_OK else DISCONNECT_UNCLEAN, ChainState v zdb (g_budgetman s) db)
  end.
End Blocks.
Arguments chainstate : clear implicits.
