(* ===== verification/Connect.v ===== *)
(** * Connecting a block: [ConnectBlock] of validation.cpp

    What [ConnectBlock] asks of others is an argument: [CheckBlock], the
    legacy zerocoin checks and database, the sporks and the state of the
    synchronisation, the value rule of masternodes and budgets, and the number of
    signature checking threads.  The checks put aside for the threads are a list,
    and waiting for them is running them all ([CheckQueue] shows that the queue
    does that).  Logging and timing are left out; failing writes are not
    modelled. *)
From S2P Require Import Prelude Serialize Hash Params Chain Script Interpreter Transaction Sighash Block Undo Coins.
From S2P Require Import TxVerify TxInputs Subsidy Indexes Disconnect.

Definition MAX_BLOCK_SIGOPS_CURRENT : Z := MAX_BLOCK_SIZE_CURRENT / 50.

(** Files: the undo records by position, and the size of each undo file. *)
Record undo_store := UndoStore { records : gmap (Z * Z) (list Z); nUndoSize : Z -> Z }.

(** [FindUndoPos]: where the record goes and the new size; [CheckDiskSpace]
    answers whether a new chunk fits. *)
Definition UNDOFILE_CHUNK_SIZE : Z := 0x100000.
Definition FindUndoPos (CheckDiskSpace : Z -> bool) (files : undo_store) (st : CValidationState) (nFile nAddSize : Z)
  : chk (Z * undo_store) :=
  let pos := nUndoSize files nFile in
  let nNewSize := u32 (pos + nAddSize) in
  let nOldChunks := u32 (pos + UNDOFILE_CHUNK_SIZE - 1) / UNDOFILE_CHUNK_SIZE in
  let nNewChunks := u32 (nNewSize + UNDOFILE_CHUNK_SIZE - 1) / UNDOFILE_CHUNK_SIZE in
  if (nOldChunks <? nNewChunks) && negb (CheckDiskSpace (u32 (nNewChunks * UNDOFILE_CHUNK_SIZE - pos)))
  then Err (st_Error "out of disk space" st)
  else Ok (pos, UndoStore (records files) (<[nFile := nNewSize]> (nUndoSize files))).

Definition set_undo (b : CBlockIndex) (nUndoPos : Z) : CBlockIndex :=
  BlockIndex (blockHash b) (pprev b) (pskip b) (Chain.nHeight b) (nFile b) (nDataPos b) nUndoPos
    (Z.lor (nStatus b) BLOCK_HAVE_UNDO) (nFlags b) (vStakeModifier b) (nSaplingValue b) (nChainSaplingValue b)
    (Chain.nVersion b) (nTime b) (nBits b) (nChainWork b) (nTx b) (nChainTx b) (Chain.hashMerkleRoot b)
    (Chain.hashFinalSaplingRoot b) (Chain.nNonce b) (Chain.nAccumulatorCheckpoint b) (nSequenceId b).

Section Connect.
Context {Tree V : Type} {BaseView : @CCoinsView Tree V}.
Context (Tree_new : Tree) (root : Tree -> uint256) (append : Tree -> uint256 -> chk Tree).
Notation cache := (CCoinsViewCache Tree V).
Context (chainparams : CChainParams) (setInvalidOutPoints : gset COutPoint).
Notation consensus := (Params.consensus chainparams).
Context (uncompressed : valtype -> option valtype) (pchMessageStart : list Z).

(** The checks of scripts. *)
Context (generichash : list Z -> list Z -> uint256) (stray : Z) (CheckLowS : valtype -> bool) (g_IsV6Active : bool).
Context (Verify : bool -> valtype -> uint256 -> valtype -> bool).
Context (mapBlockIndex : gmap (list Z) positive) (blocks : store).

(** The node. *)
Context (CheckBlock : CBlock -> CValidationState -> bool -> bool -> bool -> chk CValidationState).
Context (GetBlockHash : CBlock -> uint256) (nTotalBlocksEstimate nScriptCheckThreads : Z).
Context (fInitialBlockDownload : bool) (nZerocoinMaintenance nSaplingMaintenance : Z) (nMoneySupply : CAmount).
Context (ValueValid : Z -> CAmount -> CAmount -> chk bool).
Context (fTxIndex fAddressIndex fSpentIndex fTimestampIndex : bool) (CheckDiskSpace : Z -> bool).

(** Zerocoin: the spends and mints of a transaction, and the database. *)
Context {ZDB BM Spend Mint : Type}.
Context (zerocoin_mints : CTransaction -> CValidationState -> chk (list Mint)).
Context (zerocoin_spends : CTransaction -> Z -> uint256 -> CValidationState -> chk (CAmount * list Spend)).
Context (IsTransactionInChain : uint256 -> option Z) (fVerifyingBlocks : bool).
Context (WriteCoinSpendBatch : list Spend -> ZDB -> ZDB) (WriteCoinMintBatch : list Mint -> ZDB -> ZDB).
Context (DataBaseAccChecksum : CBlockIndex -> bool -> ZDB -> ZDB) (WipeAccChecksums : ZDB -> ZDB).
Notation chainstate := (chainstate Tree V ZDB BM).

(** ** The loop over the transactions *)

(** A check put aside: the transaction, its cached hashes and the check. *)
Definition queued : Type := CTransaction * PrecomputedTransactionData * CScriptCheck.

Record connection := Connection {
  c_view : cache;
  sapling_tree : Tree;
  nSigOps : Z;
  nFees : CAmount;
  nValueIn : CAmount;
  nValueOut : CAmount;
  vtxundo : list (list Coin);
  control : list queued;
  vPos : list (uint256 * CDiskTxPos);
  nTxPos : Z;
  vSpends : list Spend;
  vMints : list Mint;
  index_updates : updates;
}.

(** Whether a transaction may be in the block at all: signature operations,
    maintenance, and the end of zerocoin. *)
Definition connect_allowed (block : CBlock) (pindex : CBlockIndex) (tx : CTransaction) (n : Z) (st : CValidationState) : chk Z :=
  ops ← GetLegacySigOpCount tx;
  let n := u32 (n + ops) in
  if MAX_BLOCK_SIGOPS_CURRENT <? n then DoS st 100 REJECT_INVALID "bad-blk-sigops" else
  let fZerocoinMaintenance := nZerocoinMaintenance <? hd_nTime (header block) in
  let fSaplingMaintenance := nSaplingMaintenance <? hd_nTime (header block) in
  if negb fInitialBlockDownload && fZerocoinMaintenance && ContainsZerocoins tx then DoS st 100 0 "" else
  if negb fInitialBlockDownload && fSaplingMaintenance && IsShieldedTx tx then DoS st 100 0 "" else
  if Params.NetworkUpgradeActive consensus (Chain.nHeight pindex) UPGRADE_V5_0 && ContainsZerocoins tx then DoS st 100 0 "" else
  Ok n.

(** The index entries of one input. *)
Definition spending_updates (nHeight i : Z) (txhash : uint256) (j : Z) (out : COutPoint) (prevout : CTxOut) : chk updates :=
  let addr := indexed_address (scriptPubKey prevout) in
  minus ← (match addr with Some _ => if fAddressIndex then int64_result (nValue prevout * -1) else Ok 0 | None => Ok 0 end);
  Ok (Updates
    (match addr with
     | Some (ty, h) => if fAddressIndex then [(AddressIndexKey ty h nHeight i txhash j true, minus)] else []
     | None => [] end)
    (match addr with
     | Some (ty, h) => if fAddressIndex then [(AddressUnspentKey ty h (out_hash out) (out_n out), CAddressUnspentValue_new)] else []
     | None => [] end)
    (if fSpentIndex
     then [(SpentIndexKey (out_hash out) (out_n out),
            SpentIndexValue txhash j nHeight (nValue prevout) (match addr with Some (ty, _) => ty | None => 0 end)
              (match addr with Some (_, h) => h | None => UINT160_ZERO end))]
     else [])).

Fixpoint spending_all (nHeight i : Z) (txhash : uint256) (ins : list CTxIn) (j : Z) (view : cache) : chk (updates * cache) :=
  match ins with
  | [] => Ok (updates_nil, view)
  | input :: ins =>
      let '(co, view) := AccessCoin (prevout input) view in
      u ← spending_updates nHeight i txhash j (prevout input) (out co);
      r ← spending_all nHeight i txhash ins (j + 1) view;
      let '(u', view) := r in
      Ok (updates_app u u', view)
  end.

(** The index entries of the outputs. *)
Definition receiving (nHeight i : Z) (txhash : uint256) (k : Z) (out : CTxOut) : updates :=
  match indexed_address (scriptPubKey out) with
  | None => updates_nil
  | Some (ty, h) => Updates [(AddressIndexKey ty h nHeight i txhash k false, nValue out)]
                      [(AddressUnspentKey ty h txhash k, AddressUnspentValue (nValue out) (scriptPubKey out) nHeight)] []
  end.
Definition receiving_all (nHeight i : Z) (txhash : uint256) (outs : list CTxOut) : updates :=
  if fAddressIndex then foldr updates_app updates_nil (imap (fun k out => receiving nHeight i txhash (Z.of_nat k) out) outs)
  else updates_nil.

(** Zerocoin transactions, and the inputs of the others but the coinbase. *)
Definition connect_inputs (block : CBlock) (pindex : CBlockIndex) (i : Z) (tx : CTransaction) (c : connection) (st : CValidationState)
  : chk (CAmount * list Spend * Z * updates * cache) :=
  let txhash := GetHash tx in
  if HasZerocoinSpendInputs tx then
    match IsTransactionInChain txhash with
    | Some nHeightTx =>
        if negb fVerifyingBlocks || (nHeightTx <? Chain.nHeight pindex)
        then DoS st 100 REJECT_INVALID "bad-txns-inputs-missingorspent" else Ok tt
    | None => Ok tt
    end;;
    r ← zerocoin_spends tx (Chain.nHeight pindex) (GetBlockHash block) st;
    let '(value, spends) := r in
    Ok (value, spends, nSigOps c, updates_nil, c_view c)
  else if negb (IsCoinBase tx) then
    let '(have, view) := HaveInputs tx (c_view c) in
    if negb have then DoS st 100 REJECT_INVALID "bad-txns-inputs-missingorspent" else
    let '(met, view) := HaveShieldedRequirements tx view in
    if negb met then DoS st 100 REJECT_INVALID "bad-txns-sapling-requirements-not-met" else
    r ← GetP2SHSigOpCount tx view;
    let '(ops, view) := r in
    let n := u32 (nSigOps c + ops) in
    if MAX_BLOCK_SIGOPS_CURRENT <? n then DoS st 100 REJECT_INVALID "bad-blk-sigops" else
    if fAddressIndex || fSpentIndex then
      r ← spending_all (Chain.nHeight pindex) i txhash (vin tx) 0 view;
      let '(u, view) := r in
      Ok (0, [], n, u, view)
    else Ok (0, [], n, updates_nil, view)
  else Ok (0, [], nSigOps c, updates_nil, c_view c).

(** Fees and values, and the script checks, run or put aside. *)
Definition connect_values (pindex : CBlockIndex) (fScriptChecks fCLTVIsActivated fJustCheck : bool) (tx : CTransaction)
    (precom : PrecomputedTransactionData) (fees valueIn : CAmount) (view : cache) (st : CValidationState)
  : chk (CAmount * CAmount * list queued * cache) :=
  if IsCoinBase tx then Ok (fees, valueIn, [], view) else
  r ← (if negb (IsCoinStake tx) then
         r ← on_coins (GetValueIn tx view);
         let '(v, view) := r in
         o ← GetValueOut tx;
         diff ← int64_result (v - o);
         fees ← int64_result (fees + diff);
         Ok (fees, view)
       else Ok (fees, view));
  let '(fees, view) := r in
  r ← on_coins (GetValueIn tx view);
  let '(v, view) := r in
  valueIn ← int64_result (valueIn + v);
  let flags := Z.lor (Z.lor SCRIPT_VERIFY_P2SH SCRIPT_VERIFY_DERSIG)
                 (if fCLTVIsActivated then SCRIPT_VERIFY_CHECKLOCKTIMEVERIFY else 0) in
  r ← CheckInputs consensus generichash stray CheckLowS g_IsV6Active Verify mapBlockIndex blocks tx st view fScriptChecks
        flags fJustCheck (Some precom) (if nScriptCheckThreads =? 0 then None else Some []);
  let '(vChecks, view) := r in
  Ok (fees, valueIn, map (pair (tx, precom)) (default [] vChecks), view).

Fixpoint append_all (outs : list OutputDescription) (t : Tree) : chk Tree :=
  match outs with
  | [] => Ok t
  | o :: outs => t ← append t (cmu o); append_all outs t
  end.

(** The body of the loop. *)
Definition connect_tx (block : CBlock) (pindex : CBlockIndex) (fScriptChecks fCLTVIsActivated fJustCheck : bool) (i : Z)
    (tx : CTransaction) (st : CValidationState) (c : connection) : chk connection :=
  n ← connect_allowed block pindex tx (nSigOps c) st;
  let c := Connection (c_view c) (sapling_tree c) n (nFees c) (nValueIn c) (nValueOut c) (vtxundo c) (control c) (vPos c)
             (nTxPos c) (vSpends c) (vMints c) (index_updates c) in
  mints ← (if HasZerocoinMintOutputs tx then
             if Params.NetworkUpgradeActive consensus (Chain.nHeight pindex) UPGRADE_ZC_PUBLIC then DoS st 100 0 ""
             else zerocoin_mints tx st
           else Ok []);
  r ← connect_inputs block pindex i tx c st;
  let '(zvalue, spends, n, u_in, view) := r in
  zvalueIn ← int64_result (nValueIn c + zvalue);
  precom ← PrecomputedTransactionData_new generichash tx;
  r ← connect_values pindex fScriptChecks fCLTVIsActivated fJustCheck tx precom (nFees c) zvalueIn view st;
  let '(fees, valueIn, checks, view) := r in
  o ← GetValueOut tx;
  valueOut ← int64_result (nValueOut c + o);
  r ← on_coins (UpdateCoins setInvalidOutPoints tx view (Chain.nHeight pindex) (SkipInvalidUTXOS chainparams (Chain.nHeight pindex)));
  let '(txundo, view) := r in
  tree ← (if IsShieldedTx tx
          then append_all (match sapData tx with Some d => vShieldedOutput d | None => [] end) (sapling_tree c)
          else Ok (sapling_tree c));
  let pos := GetBlockPos pindex in
  Ok (Connection view tree n fees valueIn valueOut (if 0 <? i then vtxundo c ++ [txundo] else vtxundo c)
        (control c ++ checks) (vPos c ++ [(GetHash tx, DiskTxPos pos.1 pos.2 (nTxPos c))])
        (u32 (nTxPos c + zlen (SerializeTransaction tx))) (vSpends c ++ spends) (vMints c ++ mints)
        (updates_app (index_updates c)
           (updates_app u_in (receiving_all (Chain.nHeight pindex) i (GetHash tx) (vout tx))))).

Fixpoint connect_txs (block : CBlock) (pindex : CBlockIndex) (fScriptChecks fCLTVIsActivated fJustCheck : bool) (i : Z)
    (txs : list CTransaction) (st : CValidationState) (c : connection) : chk connection :=
  match txs with
  | [] => Ok c
  | tx :: txs =>
      c ← connect_tx block pindex fScriptChecks fCLTVIsActivated fJustCheck i tx st c;
      connect_txs block pindex fScriptChecks fCLTVIsActivated fJustCheck (i + 1) txs st c
  end.

(** [control.Wait()]: every check that was put aside. *)
Fixpoint Wait (l : list queued) : chk bool :=
  match l with
  | [] => Ok true
  | (tx, precom, k) :: l =>
      r ← run_check generichash stray CheckLowS g_IsV6Active Verify tx (Some precom) k;
      ok ← Wait l;
      Ok ((r : bool * ScriptError).1 && ok)
  end.

(** ** After the transactions *)

Definition checked_value (block : CBlock) (pindex : CBlockIndex) (c : connection) (st : CValidationState) : chk unit :=
  diff ← int64_result (nValueOut c - nValueIn c);
  nMint ← int64_result (diff + nFees c);
  nExpectedMint ← GetBlockValue consensus nMoneySupply (Chain.nHeight pindex);
  nExpectedMint ← (if Block.IsProofOfWork block then int64_result (nExpectedMint + nFees c) else Ok nExpectedMint);
  ok ← ValueValid (Chain.nHeight pindex) nExpectedMint nMint;
  if negb ok then DoS st 100 REJECT_INVALID "bad-cb-amount" else Ok tt.

(** The undo record and the validity of the block. *)
Definition write_undo (pindex : CBlockIndex) (vtxundo : list (list Coin)) (files : undo_store) (st : CValidationState)
  : chk (CBlockIndex * undo_store) :=
  valid ← on_coins (Chain.IsValid pindex BLOCK_VALID_SCRIPTS);
  if ((GetUndoPos pindex).1 =? -1) || negb valid then
    r ← (if (GetUndoPos pindex).1 =? -1 then
           let data := ser (CBlockUndo_c uncompressed) vtxundo in
           r ← FindUndoPos CheckDiskSpace files st (nFile pindex) (u32 (zlen data + 40));
           let '(pos, files) := r in
           prev ← on_coins (deref blocks (pprev pindex));
           let '(index_header, record) := UndoWriteToDisk uncompressed pchMessageStart vtxundo (blockHash prev) in
           let pos := u32 (pos + zlen index_header) in
           Ok (set_undo pindex pos, UndoStore (<[(nFile pindex, pos) := record]> (records files)) (nUndoSize files))
         else Ok (pindex, files));
    let '(pindex, files) := r in
    p ← on_coins (RaiseValidity pindex BLOCK_VALID_SCRIPTS);
    Ok (fst p, files)
  else Ok (pindex, files).

Definition write_indexes (pindex : CBlockIndex) (c : connection) (db : indexes) : chk indexes :=
  let db := if fTxIndex then WriteTxIndex (vPos c) db else db in
  let db := if fAddressIndex
            then UpdateAddressUnspentIndex (addressUnspentIndex (index_updates c)) (WriteAddressIndex (addressIndex (index_updates c)) db)
            else db in
  let db := if fSpentIndex then UpdateSpentIndex (spentIndex (index_updates c)) db else db in
  if fTimestampIndex then
    prevLogicalTS ← (match pprev pindex with
                     | None => Ok 0
                     | Some _ => prev ← on_coins (deref blocks (pprev pindex));
                                 Ok (default 0 (timestamp_blocks db !! blockHash prev))
                     end);
    let logicalTS := if nTime pindex <=? prevLogicalTS then u32 (prevLogicalTS + 1) else nTime pindex in
    Ok (WriteTimestamp (blockHash pindex) logicalTS db)
  else Ok db.

Definition zerocoin_databases (pindex : CBlockIndex) (c : connection) (zdb : ZDB) : ZDB :=
  let zdb := if vSpends c is [] then zdb else WriteCoinSpendBatch (vSpends c) zdb in
  if vMints c is [] then zdb else WriteCoinMintBatch (vMints c) zdb.
Definition accumulator_checksums (pindex : CBlockIndex) (zdb : ZDB) : ZDB :=
  let last := height_last_ZC_AccumCheckpoint consensus in
  if Params.NetworkUpgradeActive consensus (Chain.nHeight pindex) UPGRADE_ZC_V2 && (Chain.nHeight pindex <? last)
  then DataBaseAccChecksum pindex true zdb
  else if Chain.nHeight pindex =? last then WipeAccChecksums zdb else zdb.

(** What [ConnectBlock] leaves: the state, the block index entry, the files, and
    the list of banned outputs, which is emptied in the end. *)
Record connected := Connected {
  k_state : chainstate; k_pindex : CBlockIndex; k_files : undo_store; k_invalid : gset COutPoint }.

(** From the checks before the loop to the end of the checks. *)
Definition connect_checked (block : CBlock) (st : CValidationState) (pindex : CBlockIndex) (v : cache) (fJustCheck : bool) : chk connection :=
  let isPoSActive := Params.NetworkUpgradeActive consensus (Chain.nHeight pindex) UPGRADE_POS in
  if negb isPoSActive && Block.IsProofOfStake block then DoS st 100 REJECT_INVALID "PoS-early" else
  if isPoSActive && Block.IsProofOfWork block then DoS st 100 REJECT_INVALID "PoW-ended" else
  if match nChainSaplingValue pindex with Some x => x <? 0 | None => false end
  then DoS st 100 REJECT_INVALID "turnstile-violation-sapling-shielded-pool" else
  let fScriptChecks := nTotalBlocksEstimate <=? Chain.nHeight pindex in
  fCLTVIsActivated ← (match pprev pindex with
                      | Some _ =>
                          if fScriptChecks then
                            prev ← on_coins (deref blocks (pprev pindex));
                            Ok (Params.NetworkUpgradeActive consensus (Chain.nHeight prev) UPGRADE_BIP65)
                          else Ok false
                      | None => Ok false
                      end);
  let '(best, v) := GetBestAnchor v in
  let '(t, v) := GetSaplingAnchorAt best v in
  match t with
  | None => Abort
  | Some t =>
      c ← connect_txs block pindex fScriptChecks fCLTVIsActivated fJustCheck 0 (vtx block) st
            (Connection v t 0 0 0 0 [] [] [] (GetSizeOfCompactSize (zlen (vtx block))) [] [] updates_nil);
      let c := Connection (PushAnchor root (sapling_tree c) (c_view c)) (sapling_tree c) (nSigOps c) (nFees c) (nValueIn c)
                 (nValueOut c) (vtxundo c) (control c) (vPos c) (nTxPos c) (vSpends c) (vMints c) (index_updates c) in
      if Params.NetworkUpgradeActive consensus (Chain.nHeight pindex) UPGRADE_V5_0 &&
         negb (bool_decide (Block.hashFinalSaplingRoot (header block) = root (sapling_tree c)))
      then DoS st 100 REJECT_INVALID "bad-sapling-root-in-block" else
      checked_value block pindex c st;;
      ok ← Wait (if fScriptChecks then control c else []);
      if negb ok then DoS st 100 REJECT_INVALID "block-validation-failed" else Ok c
  end.

Definition ConnectBlock (block : CBlock) (st : CValidationState) (pindex : CBlockIndex) (s : chainstate) (files : undo_store)
    (fJustCheck : bool) : chk connected :=
  st ← (match CheckBlock block st (negb fJustCheck) (negb fJustCheck) (negb fJustCheck) with
        | Err st => Err (if corruptionPossible st
                         then st_Error "Corrupt block found indicating potential hardware failure; shutting down" st else st)
        | r => r
        end);
  hashPrevBlock ← (match pprev pindex with
                   | None => Ok UINT256_ZERO
                   | Some _ => prev ← on_coins (deref blocks (pprev pindex)); Ok (blockHash prev)
                   end);
  let '(best, v) := GetBestBlock (view s) in
  cassert (bool_decide (hashPrevBlock = best));;
  if bool_decide (GetBlockHash block = hashGenesisBlock consensus) then
    Ok (Connected (ChainState (if negb fJustCheck then SetBestBlock (blockHash pindex) v else v) (zerocoinDB s) (g_budgetman s) (indexDB s))
          pindex files setInvalidOutPoints)
  else
  c ← connect_checked block st pindex v fJustCheck;
  if fJustCheck then Ok (Connected (ChainState (c_view c) (zerocoinDB s) (g_budgetman s) (indexDB s)) pindex files setInvalidOutPoints) else
  r ← write_undo pindex (vtxundo c) files st;
  let '(pindex, files) := r in
  let zdb := zerocoin_databases pindex c (zerocoinDB s) in
  db ← write_indexes pindex c (indexDB s);
  Ok (Connected (ChainState (SetBestBlock (blockHash pindex) (c_view c)) (accumulator_checksums pindex zdb) (g_budgetman s) db)
        pindex files
        (if Chain.nHeight pindex =? height_last_invalid_UTXO consensus + 100 then ∅ else setInvalidOutPoints)).
End Connect.
