(* ===== verification/Reorg.v ===== *)
(** * Disconnecting a block undoes connecting it

    The effect of a block on the set of coins, first for a transaction, then for
    a block and through the files: after [ConnectBlock], [DisconnectBlock] reads
    the undo record back and restores the set of coins. *)
From stdpp Require Import functions.
From S2P Require Import Prelude Serialize Hash Params Chain Script Interpreter Transaction Sighash Block Compressor Undo Coins.
From S2P Require Import TxVerify TxInputs Subsidy Indexes Disconnect Connect.

(** What is not coins in a set of coins. *)
Definition same_rest (a b : coin_set) : Prop :=
  best_block a = best_block b /\ (forall rt, anchor_known a rt = anchor_known b rt) /\
  (forall nf, nullifier_spent a nf = nullifier_spent b nf) /\ best_anchor a = best_anchor b.

Lemma with_utxo_iff (a b : coin_set) u : a ≡ with_utxo b u <-> (forall o, utxo a o = u o) /\ same_rest a b.
Proof. unfold same_rest. split; [intros (? & ? & ? & ? & ?)|intros (? & ? & ? & ? & ?)]; by split_and!. Qed.
Lemma equiv_iff (a b : coin_set) : a ≡ b <-> (forall o, utxo a o = utxo b o) /\ same_rest a b.
Proof. unfold same_rest. split; [intros (? & ? & ? & ? & ?)|intros (? & ? & ? & ? & ?)]; by split_and!. Qed.
#[export] Instance same_rest_equivalence : Equivalence same_rest.
Proof.
  unfold same_rest. split; [by intros []|intros ?? (?&?&?&?)|intros ??? (?&?&?&?) (?&?&?&?)]; split_and!; intros; congruence.
Qed.

(** ** The coins of a transaction *)

Definition no_ban : COutPoint -> bool := fun _ => false.
Definition created (tx : CTransaction) (h : Z) (u : COutPoint -> option Coin) : COutPoint -> option Coin :=
  added no_ban (GetHash tx) (IsCoinBase tx) (IsCoinStake tx) h (vout tx) 0 u.
Definition spent (ins : list CTxIn) (u : COutPoint -> option Coin) : COutPoint -> option Coin :=
  fun o => if bool_decide (o ∈ map prevout ins) then None else u o.
Definition plain_inputs (tx : CTransaction) : list CTxIn := if IsCoinBase tx then [] else vin tx.
Definition nullifiers_of (tx : CTransaction) : list uint256 :=
  match sapData tx with Some d => map nullifier (vShieldedSpend d) | None => [] end.

(** The set of coins after a transaction. *)
Definition coins_after (tx : CTransaction) (h : Z) (a : coin_set) : coin_set :=
  CoinSet (created tx h (spent (plain_inputs tx) (utxo a))) (best_block a) (anchor_known a)
    (fun nf => bool_decide (nf ∈ nullifiers_of tx) || nullifier_spent a nf) (best_anchor a).

(** An output that is in the set after its transaction, and only such ones. *)
Definition created_by (tx : CTransaction) (o : COutPoint) : Prop :=
  out_hash o = GetHash tx /\ 0 <= out_n o < zlen (vout tx).

Lemma created_other tx h u o : ~ created_by tx o -> created tx h u o = u o.
Proof.
  unfold created, created_by, added. intros Hn. case_bool_decide as Hc; [|done]. destruct Hc as [Hh H0].
  rewrite lookup_ge_None_2; [done|]. destruct (Z.lt_ge_cases (out_n o) (zlen (vout tx))); [exfalso; apply Hn; by split_and!|lia].
Qed.
Lemma created_at tx h u j out :
  vout tx !! j = Some out ->
  created tx h u (OutPoint (GetHash tx) (Z.of_nat j)) =
    if never_added out then u (OutPoint (GetHash tx) (Z.of_nat j))
    else Some (MkCoin (IsCoinBase tx) (IsCoinStake tx) out (u32 h)).
Proof.
  intros Hj. unfold created, added. cbn [out_hash out_n]. rewrite bool_decide_eq_true_2 by (split; [done|lia]).
  rewrite Z.sub_0_r, Nat2Z.id, Hj. done.
Qed.
Lemma created_cases tx h u o co :
  created tx h u o = Some co -> u o = Some co \/
  exists out, In out (vout tx) /\ never_added out = false /\ co = MkCoin (IsCoinBase tx) (IsCoinStake tx) out (u32 h).
Proof.
  unfold created, added. case_bool_decide; [|by left]. destruct (vout tx !! _) as [out|] eqn:Hl; [|by left].
  unfold no_ban. destruct (never_added out) eqn:Hn; [by left|]. intros [= <-]. right. exists out.
  split; [|done]. by apply list_elem_of_In, list_elem_of_lookup_2 with (Z.to_nat (out_n o - 0)).
Qed.

Lemma GetHash_ok tx : hash_ok (GetHash tx).
Proof. apply Hash_length. Qed.
#[local] Opaque GetHash Hash.

(** ** What holds of a result *)

Definition when_ok {E A} (m : outcome E A) (P : A -> Prop) : Prop := match m with Ok a => P a | _ => True end.

Lemma when_ok_bind {E A B} (m : outcome E A) (k : A -> outcome E B) (P : A -> Prop) (Q : B -> Prop) :
  when_ok m P -> (forall a, P a -> when_ok (k a) Q) -> when_ok (m ≫= k) Q.
Proof. destruct m; cbn; auto. Qed.
Lemma when_ok_any {E A B} (m : outcome E A) (k : A -> outcome E B) (Q : B -> Prop) :
  (forall a, when_ok (k a) Q) -> when_ok (m ≫= k) Q.
Proof. destruct m; cbn; auto. Qed.
Lemma when_ok_if {E A} (b : bool) (m m' : outcome E A) (P : A -> Prop) :
  (b = true -> when_ok m P) -> (b = false -> when_ok m' P) -> when_ok (if b then m else m') P.
Proof. destruct b; auto. Qed.
Lemma when_ok_refuse {A} st l c r (P : A -> Prop) : when_ok (DoS st l c r) P.
Proof. done. Qed.
Lemma when_ok_invalid {A} st c r (P : A -> Prop) : when_ok (TxVerify.Invalid st c r) P.
Proof. done. Qed.
Create HintDb when_ok.
#[export] Hint Resolve when_ok_any when_ok_if when_ok_refuse when_ok_invalid : when_ok.

(** ** The coins of a view *)

Section Coins.
Context {Tree : Type} (Tree_new : Tree) (root : Tree -> uint256) (tree_ok : Tree -> Prop) (empty_root : uint256).
Context (uncompressed : valtype -> option valtype).
Notation storable := (coin_wire uncompressed).
Context {V : Type} `{CCoinsViewOk (Tree := Tree) root storable tree_ok empty_root V}.
Notation cache := (CCoinsViewCache Tree V).
#[local] Instance contents : CCoinsViewAbs cache := CCoinsViewCache_abs root storable tree_ok empty_root.

(** [c'] holds the coins [u] and the rest of [c]. *)
Definition holds (c c' : cache) (u : COutPoint -> option Coin) : Prop :=
  inv c' /\ (forall o, utxo (abs c') o = u o) /\ same_rest (abs c') (abs c).

Lemma holds_iff c c' u : holds c c' u <-> inv c' /\ abs c' ≡ with_utxo (abs c) u.
Proof. unfold holds. by rewrite with_utxo_iff. Qed.
Lemma holds_refl (c : cache) : inv c -> holds c c (utxo (abs c)).
Proof. intros Hi. by split_and!. Qed.
Lemma holds_trans c c1 c2 u1 u2 : holds c c1 u1 -> holds c1 c2 u2 -> holds c c2 u2.
Proof. intros (_ & _ & R1) (? & ? & R2). split_and!; [done|done|]. by transitivity (abs c1). Qed.
Lemma holds_ext c c' u v : holds c c' u -> (forall o, u o = v o) -> holds c c' v.
Proof. intros (? & Hu & ?) E. split_and!; [done| |done]. intros o. by rewrite Hu. Qed.
Lemma stays_holds (c c' : cache) : stays c c' -> holds c c' (utxo (abs c)).
Proof. intros [? [? ?]%equiv_iff]. by split_and!. Qed.

Definition clear_at (o : COutPoint) (u : COutPoint -> option Coin) : COutPoint -> option Coin :=
  fun o' => if decide (o = o') then None else u o'.
Definition put_at (o : COutPoint) (co : Coin) (u : COutPoint -> option Coin) : COutPoint -> option Coin :=
  fun o' => if decide (o = o') then Some co else u o'.

Lemma SpendCoin_holds o (c : cache) :
  outpoint_ok o -> inv c ->
  exists r c', SpendCoin o c = (r, c') /\ unspent r = utxo (abs c) o /\ holds c c' (clear_at o (utxo (abs c))).
Proof.
  intros Ho Hi. destruct (SpendCoin o c) as [r c'] eqn:E. exists r, c'. split; [done|].
  destruct (SpendCoin_ok root storable tree_ok empty_root o c r c' Ho Hi E) as (Hu & Hi' & Ea). split; [done|].
  by apply holds_iff.
Qed.

Lemma unspent_Some r co : unspent r = Some co -> r = Some co /\ IsSpent co = false.
Proof. destruct r as [x|]; cbn; [|done]. destruct (IsSpent x) eqn:Es; [done|]. intros [= ->]. done. Qed.

(** The inputs of a transaction: all there and different. *)
Lemma spend_inputs_holds ins : forall c : cache,
  Forall (fun i => outpoint_ok (prevout i)) ins -> inv c -> spends_present (abs c) ins -> NoDup (map prevout ins) ->
  exists us c', spend_inputs ins c = (us, c') /\
    Forall2 (fun i u => utxo (abs c) (prevout i) = Some u) ins us /\ holds c c' (spent ins (utxo (abs c))).
Proof.
  induction ins as [|i ins IH]; intros c Ho Hi Hp Hd; cbn [spend_inputs].
  { exists [], c. split_and!; [done|constructor|]. by apply holds_refl. }
  apply Forall_cons in Ho as [Hoi Ho]. apply Forall_cons in Hp as [Hpi Hp]. cbn [map] in Hd. apply NoDup_cons in Hd as [Hni Hd].
  destruct (SpendCoin_holds (prevout i) c Hoi Hi) as (r & c1 & -> & Hr & Hh1).
  destruct (utxo (abs c) (prevout i)) as [co|] eqn:Hco; [|done]. apply unspent_Some in Hr as [-> _]. cbn [default from_option id].
  pose proof Hh1 as (Hi1 & Hu1 & _).
  assert (Hsame : forall j, In j ins -> utxo (abs c1) (prevout j) = utxo (abs c) (prevout j)).
  { intros j Hj. rewrite Hu1. unfold clear_at. rewrite decide_False; [done|]. intros E. apply Hni. rewrite E.
    by apply list_elem_of_In, in_map. }
  destruct (IH c1 Ho Hi1) as (us & c2 & -> & Hus & Hh2); [|done|].
  { unfold spends_present in *. rewrite List.Forall_forall in *. intros j Hj. rewrite Hsame by done. auto. }
  exists (co :: us), c2. split; [done|]. split.
  - constructor; [done|]. clear -Hus Hsame. induction Hus as [|j u ins us Hju _ IH]; constructor.
    + rewrite <- Hsame; [done|by left].
    + apply IH. intros k Hk. apply Hsame. by right.
  - eapply holds_ext; [by eapply holds_trans|]. intros o. unfold spent. cbn [map].
    case_bool_decide as Hin; [rewrite bool_decide_eq_true_2; [done|by right]|]. rewrite Hu1. unfold clear_at.
    destruct (decide (prevout i = o)) as [<-|Hne]; [by rewrite bool_decide_eq_true_2 by by left|].
    rewrite bool_decide_eq_false_2; [done|]. by intros [->|?]%elem_of_cons.
Qed.

(** What the checks of a transaction ensure, apart from the coins. *)
Record tx_fits (h : Z) (tx : CTransaction) : Prop := {
  fit_zerocoin : ContainsZerocoins tx = false;
  fit_prevouts : Forall (fun i => outpoint_ok (prevout i)) (vin tx);
  fit_different : NoDup (map prevout (vin tx));
  fit_count : zlen (vin tx) <= MAX_INPUTS_PER_BLOCK;
  fit_spends : match sapData tx with
    | Some d => Forall (fun sd => hash_ok (nullifier sd) /\ hash_ok (anchor sd)) (vShieldedSpend d)
    | None => True end;
  fit_shielded : IsShieldedTx tx = false -> nullifiers_of tx = [];
  fit_coinbase : IsCoinBase tx = true -> nullifiers_of tx = [];
  fit_vout : zlen (vout tx) <= 2 ^ 32;
  fit_outs : Forall (fun o => CTxOut_IsNull o = false /\
               (never_added o = false -> storable (MkCoin (IsCoinBase tx) (IsCoinStake tx) o (u32 h)))) (vout tx) }.

Definition fresh (a : coin_set) (tx : CTransaction) : Prop := forall j, utxo a (OutPoint (GetHash tx) j) = None.

(** A coin that can be restored. *)
Definition coin_fits (co : Coin) : Prop := never_added (out co) = false /\ Undo.nHeight co <> 0 /\ storable co.
Definition coins_fit (a : coin_set) : Prop := forall o co, utxo a o = Some co -> coin_fits co.

Lemma no_zerocoins tx : ContainsZerocoins tx = false -> HasZerocoinSpendInputs tx = false /\ HasZerocoinMintOutputs tx = false.
Proof. intros Hz. by apply orb_false_iff in Hz. Qed.

Lemma SetNullifiers_ok tx b h (c : cache) :
  tx_fits h tx -> inv c ->
  inv (SetNullifiers tx b c) /\
  abs (SetNullifiers tx b c) ≡
    with_nullifier_spent (abs c) (fun nf => if bool_decide (nf ∈ nullifiers_of tx) then b else nullifier_spent (abs c) nf).
Proof.
  intros Hf Hi. unfold SetNullifiers, nullifiers_of. pose proof (fit_spends _ _ Hf) as Hs.
  destruct (sapData tx) as [d|]; [|by split; [|split_and!]].
  apply (set_nullifiers_ok root storable tree_ok empty_root); [done|].
  eapply Forall_impl; [exact Hs|]. by intros sd [? _].
Qed.

(** None of the outputs is on the list of those that are left out. *)
Definition not_banned (banned : gset COutPoint) (tx : CTransaction) : Prop := forall j, OutPoint (GetHash tx) j ∉ banned.

Lemma added_not_banned (banned : gset COutPoint) skip tx h u o :
  (skip = true -> not_banned banned tx) ->
  added (fun op => skip && bool_decide (op ∈ banned)) (GetHash tx) (IsCoinBase tx) (IsCoinStake tx) h (vout tx) 0 u o = created tx h u o.
Proof.
  intros Hb. unfold created, added, no_ban. case_bool_decide as Ho; [|done]. destruct Ho as [Ho _].
  destruct (vout tx !! _); [|done]. destruct skip; [|done]. specialize (Hb eq_refl (out_n o)). rewrite <- Ho in Hb.
  by rewrite bool_decide_eq_false_2 by (by destruct o).
Qed.

(** A coinbase or an ordinary transaction, its outputs being new. *)
Lemma UpdateCoins_holds (banned : gset COutPoint) skip tx h (c : cache) :
  (skip = true -> not_banned banned tx) ->
  tx_fits h tx -> inv c -> spends_present (abs c) (plain_inputs tx) -> fresh (abs c) tx ->
  exists us c', UpdateCoins banned tx c h skip = Ok (us, c') /\
    Forall2 (fun i u => utxo (abs c) (prevout i) = Some u) (plain_inputs tx) us /\
    inv c' /\ abs c' ≡ coins_after tx h (abs c).
Proof.
  intros Hban Hf Hi Hp Hnew. destruct (no_zerocoins tx (fit_zerocoin _ _ Hf)) as [Hz _].
  assert (Hspend : exists us c1,
    (if negb (IsCoinBase tx) && negb (HasZerocoinSpendInputs tx) then spend_inputs (vin tx) c else ([], c)) = (us, c1) /\
    Forall2 (fun i u => utxo (abs c) (prevout i) = Some u) (plain_inputs tx) us /\
    holds c c1 (spent (plain_inputs tx) (utxo (abs c)))).
  { rewrite Hz. unfold plain_inputs in *. destruct (IsCoinBase tx); cbn [negb andb].
    - exists [], c. split_and!; [done|constructor|]. eapply holds_ext; [by apply holds_refl|]. done.
    - apply spend_inputs_holds; try done; apply Hf. }
  destruct Hspend as (us & c1 & E1 & Hus & Hi1 & Hu1 & Hr1). unfold UpdateCoins. rewrite E1.
  destruct (SetNullifiers_ok tx true h c1 Hf Hi1) as [Hi2 E2]. set (c2 := SetNullifiers tx true c1) in *.
  pose proof E2 as (Eu & Eb & Ek & En & Ea).
  destruct (add_coins_loop_ok root storable tree_ok empty_root banned (GetHash tx) (IsCoinBase tx) (IsCoinStake tx) h false skip
              (vout tx) 0 c2) as (c3 & E3 & Hi3 & Ea3); [apply GetHash_ok|lia|apply Hf|done|apply Hf| |].
  { intros _ j _. etransitivity; [apply Eu|]. etransitivity; [apply Hu1|]. unfold spent. case_bool_decide; [done|]. apply Hnew. }
  fold contents in Hi3, Ea3.
  unfold AddCoins. rewrite E3. exists us, c3. split_and!; [done|done|done|].
  rewrite Ea3. destruct Hr1 as (Rb & Rk & Rn & Ra). split_and!.
  - intros o. etransitivity; [by apply added_not_banned|]. apply (added_proper no_ban). intros o'. etransitivity; [apply Eu|apply Hu1].
  - exact (eq_trans Eb Rb).
  - intros rt. exact (eq_trans (Ek rt) (Rk rt)).
  - intros nf. etransitivity; [apply En|]. cbn [nullifier_spent with_nullifier_spent coins_after]. rewrite Rn.
    by destruct (bool_decide _).
  - exact (eq_trans Ea Ra).
Qed.

(** *** Removing outputs *)

Lemma clear_at_other o o' u : o ≠ o' -> clear_at o u o' = u o'.
Proof. intros Hn. unfold clear_at. by rewrite decide_False. Qed.

(** Outputs [o], [o + 1], ...: those that were added are removed, and they match. *)
Lemma remove_outputs_holds hash outs : forall o fClean (c : cache),
  hash_ok hash -> 0 <= o -> o + zlen outs <= 2 ^ 32 -> inv c ->
  (forall j out, outs !! j = Some out -> never_added out = false ->
     exists co, utxo (abs c) (OutPoint hash (o + Z.of_nat j)) = Some co /\ Undo.out co = out) ->
  exists c', remove_outputs hash outs o fClean c = (fClean, c') /\ inv c' /\ same_rest (abs c') (abs c) /\
    (forall op, ~ (out_hash op = hash /\ o <= out_n op < o + zlen outs) -> utxo (abs c') op = utxo (abs c) op) /\
    (forall j out, outs !! j = Some out ->
       utxo (abs c') (OutPoint hash (o + Z.of_nat j)) =
         if never_added out then utxo (abs c) (OutPoint hash (o + Z.of_nat j)) else None).
Proof.
  induction outs as [|out outs IH]; intros o fClean c Hh H0' Hlen Hi Hmatch; cbn [remove_outputs].
  { exists c. split_and!; done. }
  cbn [length] in Hlen. unfold never_added in *. rewrite <- negb_orb.
  assert (Hhead := Hmatch 0%nat out eq_refl). rewrite Z.add_0_r in Hhead.
  assert (Hstep : exists c1, (if negb (IsUnspendable (scriptPubKey out) || CTxOut_IsZerocoinMint out)
      then let '(coin, view) := SpendCoin (OutPoint hash o) c in
           remove_outputs hash outs (o + 1) (if bool_decide (out ≠ Undo.out (default Coin_new coin)) then false else fClean) view
      else remove_outputs hash outs (o + 1) fClean c) = remove_outputs hash outs (o + 1) fClean c1 /\
      inv c1 /\ same_rest (abs c1) (abs c) /\
      (forall op, op ≠ OutPoint hash o -> utxo (abs c1) op = utxo (abs c) op) /\
      utxo (abs c1) (OutPoint hash o) =
        if IsUnspendable (scriptPubKey out) || CTxOut_IsZerocoinMint out then utxo (abs c) (OutPoint hash o) else None).
  { destruct (IsUnspendable (scriptPubKey out) || CTxOut_IsZerocoinMint out) eqn:Hn; cbn [negb]; [by exists c|].
    destruct (Hhead eq_refl) as (co & Hco & Hout).
    destruct (SpendCoin_holds (OutPoint hash o) c) as (r & c1 & -> & Hr & Hi1 & Hu1 & Hr1); [split; [done|]; cbn; unfold in_u; lia|done|].
    rewrite Hco in Hr. apply unspent_Some in Hr as [-> _]. cbn [default from_option id]. rewrite Hout.
    rewrite bool_decide_eq_false_2 by (intros Hx; by apply Hx).
    exists c1. split_and!; [done|done|done| |].
    - intros op Hop. rewrite Hu1. by apply clear_at_other.
    - rewrite Hu1. unfold clear_at. by rewrite decide_True. }
  destruct Hstep as (c1 & -> & Hi1 & Hr1 & Hu1 & Hu1').
  destruct (IH (o + 1) fClean c1) as (c2 & -> & Hi2 & Hr2 & Hu2 & Hu2'); [done|lia|lia|done| |].
  { intros j out' Hj Hn. rewrite Hu1 by (intros [= E]; lia).
    replace (o + 1 + Z.of_nat j) with (o + Z.of_nat (S j)) by lia. by apply Hmatch. }
  exists c2. split_and!; [done|done|by transitivity (abs c1)| |].
  - intros op Hop. cbn [length] in Hop. rewrite Hu2, Hu1; [done| |].
    + intros ->. apply Hop. cbn. split; [done|]. lia.
    + intros [? ?]. apply Hop. split; [done|]. lia.
  - intros [|j] out' Hj; cbn in Hj.
    + injection Hj as <-. rewrite Z.add_0_r. rewrite Hu2 by (cbn; lia). exact Hu1'.
    + replace (o + Z.of_nat (S j)) with (o + 1 + Z.of_nat j) by lia. rewrite (Hu2' j out' Hj).
      by rewrite Hu1 by (intros [= E]; lia).
Qed.

(** *** Restoring inputs *)

Lemma ApplyTxInUndo_holds undo o (c : cache) :
  outpoint_ok o -> inv c -> utxo (abs c) o = None -> coin_fits undo ->
  exists c', ApplyTxInUndo undo c o = Ok (DISCONNECT_OK, undo, c') /\ holds c c' (put_at o undo (utxo (abs c))).
Proof.
  intros Ho Hi Hnone (Hnever & Hheight & Hst). unfold ApplyTxInUndo. destruct (HaveCoin o c) as [have c1] eqn:E1.
  destruct (cache_HaveCoin_ok root storable tree_ok empty_root o c have c1 Ho Hi E1) as [Ehave Hs].
  fold contents in Ehave, Hs. rewrite Hnone, bool_decide_eq_false_2 in Ehave by (intros Hx; by apply Hx). subst have.
  rewrite (proj2 (Z.eqb_neq _ _) Hheight). cbn [mbind outcome_bind]. pose proof (stays_holds c c1 Hs) as (Hi1 & Hu1 & Hr1).
  apply orb_false_iff in Hnever as [Hun Hz].
  destruct (AddCoin_ok root storable tree_ok empty_root o undo false c1) as (c2 & -> & Hi2 & Ea); try done.
  { by apply (coin_wire_unspent uncompressed). }
  { intros _. exact (eq_trans (Hu1 o) Hnone). }
  exists c2. cbn [mbind outcome_bind]. split; [done|].
  eapply holds_ext; [eapply holds_trans; [apply stays_holds, Hs|by apply holds_iff]|].
  intros o'. unfold put_at, insert, fn_insert. destruct (decide (o = o')); [done|apply Hu1].
Qed.

Lemma restore_input_holds fA fS nH i hash j txin undo fClean (c : cache) :
  outpoint_ok (prevout txin) -> inv c -> utxo (abs c) (prevout txin) = None -> coin_fits undo ->
  exists u c', restore_input fA fS nH i hash j txin undo fClean c = Ok (fClean, u, c') /\
    holds c c' (put_at (prevout txin) undo (utxo (abs c))).
Proof.
  intros Ho Hi Hnone Hfit. unfold restore_input.
  destruct (ApplyTxInUndo_holds undo (prevout txin) c Ho Hi Hnone Hfit) as (c1 & -> & Hh).
  cbn [mbind outcome_bind]. rewrite andb_true_r. destruct fA; [|by do 2 eexists].
  pose proof Hh as (Hi1 & Hu1 & _). destruct (AccessCoin (prevout txin) c1) as [co c2] eqn:E2.
  destruct (AccessCoin_ok root storable tree_ok empty_root _ c1 co c2 Ho Hi1 E2) as [Hco Hs].
  fold contents in Hco, Hs. rewrite Hu1 in Hco. unfold put_at in Hco. rewrite decide_True in Hco by done.
  apply unspent_Some in Hco as [[= ->] _].
  assert (Hh2 : holds c c2 (put_at (prevout txin) undo (utxo (abs c)))).
  { eapply holds_ext; [eapply holds_trans; [exact Hh|apply stays_holds, Hs]|exact Hu1]. }
  destruct (indexed_address _) as [[ty h]|]; [|by do 2 eexists].
  rewrite int64_result_ok; [by do 2 eexists|]. destruct Hfit as (_ & _ & _ & Hv & _).
  assert (MAX_COMPRESSIBLE < 2 ^ 62) by done. unfold in_s. lia.
Qed.

Definition prevouts_of (l : list (nat * (CTxIn * Coin))) : list COutPoint := map (fun x => prevout (fst (snd x))) l.

(** Every coin goes back to its place, where [f] has it. *)
Lemma restore_inputs_holds fA fS nH i hash (f : COutPoint -> option Coin) l : forall fClean (c : cache),
  inv c -> NoDup (prevouts_of l) ->
  Forall (fun x => let o := prevout (fst (snd x)) in
    outpoint_ok o /\ coin_fits (snd (snd x)) /\ f o = Some (snd (snd x)) /\ utxo (abs c) o = None) l ->
  exists u c', restore_inputs fA fS nH i hash l fClean c = Ok (fClean, u, c') /\
    holds c c' (fun o => if bool_decide (o ∈ prevouts_of l) then f o else utxo (abs c) o).
Proof.
  induction l as [|[j [txin undo]] l IH]; intros fClean c Hi Hd Hl; cbn [restore_inputs].
  { exists updates_nil, c. split; [done|]. by apply holds_refl. }
  cbn [prevouts_of map fst snd] in Hd. apply NoDup_cons in Hd as [Hni Hd]. apply Forall_cons in Hl as [(Ho & Hfit & Hf & Hnone) Hl].
  cbn [fst snd] in *.
  destruct (restore_input_holds fA fS nH i hash (Z.of_nat j) txin undo fClean c Ho Hi Hnone Hfit) as (u1 & c1 & -> & Hh1).
  cbn [mbind outcome_bind]. pose proof Hh1 as (Hi1 & Hu1 & _).
  destruct (IH fClean c1 Hi1 Hd) as (u2 & c2 & -> & Hh2).
  { rewrite List.Forall_forall in *. intros x Hx. destruct (Hl x Hx) as (? & ? & ? & Hx0). split_and!; try done.
    rewrite Hu1. unfold put_at. rewrite decide_False; [done|]. intros E. apply Hni. rewrite E.
    by apply list_elem_of_In, (in_map (fun x => prevout (fst (snd x)))). }
  exists (updates_app u1 u2), c2. split; [done|]. eapply holds_ext; [by eapply holds_trans|].
  intros o. cbn [prevouts_of map fst snd]. fold (prevouts_of l).
  case_bool_decide as Hin; [by rewrite bool_decide_eq_true_2 by by right|]. rewrite Hu1. unfold put_at.
  destruct (decide (prevout txin = o)) as [<-|Hne]; [by rewrite bool_decide_eq_true_2 by by left|].
  rewrite bool_decide_eq_false_2; [done|]. by intros [->|?]%elem_of_cons.
Qed.

(** The list the loop goes through, of inputs and coins that belong together. *)
Lemma input_list ins us (f : COutPoint -> option Coin) :
  Forall2 (fun i u => f (prevout i) = Some u) ins us ->
  let l := reverse (imap pair (zip ins us)) in
  prevouts_of l = reverse (map prevout ins) /\
  Forall (fun x => In (fst (snd x)) ins /\ f (prevout (fst (snd x))) = Some (snd (snd x))) l.
Proof.
  intros HF l. unfold l, prevouts_of. split.
  - etransitivity; [exact (fmap_reverse _ _)|]. f_equal. clear l.
    assert (Hg : forall k, map (fun x : nat * (CTxIn * Coin) => prevout (fst (snd x))) (imap (fun n x => (k + n, x))%nat (zip ins us)) = map prevout ins).
    { induction HF as [|i u ins us Hiu _ IH]; intros k; [done|]. cbn. f_equal. rewrite <- (IH (S k)). f_equal.
      apply imap_ext. intros n x _. cbn. by rewrite Nat.add_succ_r. }
    exact (Hg 0%nat).
  - apply Forall_reverse, List.Forall_forall. intros [j [i u]] Hin%list_elem_of_In. apply elem_of_lookup_imap in Hin as (n & y & E & Hy).
    injection E as -> <-. cbn [fst snd]. apply lookup_zip_Some in Hy as [Hi Hu].
    split; [by eapply list_elem_of_In, list_elem_of_lookup_2|]. by apply (Forall2_lookup_lr _ _ _ _ _ _ HF Hi Hu).
Qed.

(** *** A transaction, undone *)

(** The dynamic side: what connecting [tx] needs of the coins. *)
Record tx_connects (tx : CTransaction) (a : coin_set) : Prop := {
  con_present : spends_present a (plain_inputs tx);
  con_fresh : fresh a tx;
  con_nullifiers : Forall (fun nf => nullifier_spent a nf = false) (nullifiers_of tx) }.

(** After the outputs are removed, the coins are those of before without the
    inputs. *)
Lemma outputs_removed tx h a fClean (c : cache) :
  tx_fits h tx -> fresh a tx -> inv c -> abs c ≡ coins_after tx h a ->
  exists c', remove_outputs (GetHash tx) (vout tx) 0 fClean c = (fClean, c') /\ inv c' /\
    same_rest (abs c') (coins_after tx h a) /\
    (forall o, utxo (abs c') o = spent (plain_inputs tx) (utxo a) o).
Proof.
  intros Hf Hnew Hi Ea. pose proof Ea as [Eu Er]%equiv_iff. pose proof (fit_vout _ _ Hf).
  assert (Hspent : forall j, spent (plain_inputs tx) (utxo a) (OutPoint (GetHash tx) j) = None)
    by (intros j; unfold spent; case_bool_decide; [done|apply Hnew]).
  destruct (remove_outputs_holds (GetHash tx) (vout tx) 0 fClean c) as (c' & -> & Hi' & Hr & Hother & Hat);
    [apply GetHash_ok|lia|lia|done| |].
  { intros j out Hj Hn. rewrite Eu, Z.add_0_l. cbn [utxo coins_after]. rewrite (created_at _ _ _ _ _ Hj), Hn. by eexists. }
  exists c'. split_and!; [done|done|by transitivity (abs c)|]. intros o.
  destruct (decide (out_hash o = GetHash tx /\ 0 <= out_n o < zlen (vout tx))) as [[Hh Hn]|Hn].
  - destruct (lookup_lt_is_Some_2 (vout tx) (Z.to_nat (out_n o)) ltac:(lia)) as [out Hl].
    assert (Eo : o = OutPoint (GetHash tx) (0 + Z.of_nat (Z.to_nat (out_n o))))
      by (rewrite Z2Nat.id, Z.add_0_l by lia; destruct o; cbn in *; congruence).
    rewrite Eo, (Hat _ _ Hl), Hspent. destruct (never_added out) eqn:Hna; [|done].
    rewrite Eu, Z.add_0_l. cbn [utxo coins_after]. by rewrite (created_at _ _ _ _ _ Hl), Hna, Hspent.
  - rewrite Hother by (by rewrite Z.add_0_l). rewrite Eu. cbn [utxo coins_after]. by rewrite created_other.
Qed.

Section Undone.
Context {ZDB BM : Type} (DisconnectZerocoinTx : CTransaction -> ZDB -> bool * ZDB) (RemoveByFeeTxId : uint256 -> BM -> BM).
Context (fA fS : bool).
(** Nothing of a transaction without zerocoins is in the zerocoin database. *)
Hypothesis Hzdb : forall tx z, ContainsZerocoins tx = false -> DisconnectZerocoinTx tx z = (true, z).

Lemma disconnect_tx_holds nH (i : nat) h tx us vtxundo a fClean (s : chainstate Tree V ZDB BM) :
  tx_fits h tx -> tx_connects tx a -> coins_fit a ->
  IsCoinBase tx = (i =? 0)%nat -> (IsCoinBase tx = false -> vtxundo !! (i - 1)%nat = Some us) ->
  Forall2 (fun i u => utxo a (prevout i) = Some u) (plain_inputs tx) us ->
  inv (view s) -> abs (view s) ≡ coins_after tx h a ->
  exists u s', disconnect_tx DisconnectZerocoinTx RemoveByFeeTxId fA fS nH (Z.of_nat i) tx vtxundo fClean s = Ok (fClean, u, s') /\
    inv (view s') /\ abs (view s') ≡ a.
Proof.
  intros Hf Hc Hfit Hcb Hundo Hus Hi Ea. destruct (no_zerocoins tx (fit_zerocoin _ _ Hf)) as [Hz _].
  unfold disconnect_tx. rewrite (Hzdb _ _ (fit_zerocoin _ _ Hf)). cbn [negb].
  destruct (outputs_removed tx h a fClean (view s) Hf (con_fresh _ _ Hc) Hi Ea) as (c1 & -> & Hi1 & (Rb & Rk & Rn & Ra) & Hu1).
  rewrite Hz, orb_false_r. unfold plain_inputs in *. destruct (IsCoinBase tx) eqn:Ecb.
  { do 2 eexists. split; [reflexivity|]. cbn [view]. split; [done|]. split_and!; try done.
    intros nf. rewrite Rn. cbn. rewrite (fit_coinbase _ _ Hf Ecb). done. }
  destruct (SetNullifiers_ok tx false h c1 Hf Hi1) as [Hi2 (Eu & Eb & Ek & En & Ea2)].
  specialize (Hundo eq_refl). destruct i as [|i]; [done|].
  assert (Hrd : rd (E := unit) vtxundo (Z.of_nat (S i) - 1) = Ok us).
  { replace (Z.of_nat (S i) - 1) with (Z.of_nat i) by lia. apply rd_lookup_nat. by rewrite Nat.sub_succ, Nat.sub_0_r in Hundo. }
  rewrite Hrd. cbn [mbind outcome_bind]. rewrite (Forall2_length _ _ _ Hus), Z.eqb_refl. cbn [negb].
  destruct (input_list (vin tx) us (utxo a) Hus) as [Hpre Hall].
  destruct (restore_inputs_holds fA fS nH (Z.of_nat (S i)) (GetHash tx) (utxo a) (reverse (imap pair (zip (vin tx) us))) fClean
              (SetNullifiers tx false c1) Hi2) as (u & c3 & -> & Hi3 & Hu3 & (Rb3 & Rk3 & Rn3 & Ra3)).
  { rewrite Hpre. rewrite reverse_Permutation; apply Hf. }
  { eapply Forall_impl; [exact Hall|]. intros x [Hin Hx]. cbn zeta. split_and!.
    - pose proof (fit_prevouts _ _ Hf) as Hp. rewrite List.Forall_forall in Hp. by apply Hp.
    - by apply (Hfit _ _ Hx).
    - done.
    - etransitivity; [apply Eu|]. etransitivity; [apply Hu1|]. unfold spent. rewrite bool_decide_eq_true_2; [done|].
      by apply list_elem_of_In, in_map. }
  cbn [mbind outcome_bind]. do 2 eexists. split; [reflexivity|]. cbn [view]. split; [done|]. split_and!.
  - intros o. rewrite Hu3, Hpre. destruct (decide (o ∈ map prevout (vin tx))) as [Hin|Hin].
    + rewrite bool_decide_eq_true_2; [done|]. by apply elem_of_reverse.
    + rewrite bool_decide_eq_false_2 by (by rewrite elem_of_reverse). etransitivity; [apply Eu|]. etransitivity; [apply Hu1|].
      unfold spent. by rewrite bool_decide_eq_false_2.
  - exact (eq_trans Rb3 (eq_trans Eb Rb)).
  - intros rt. exact (eq_trans (Rk3 rt) (eq_trans (Ek rt) (Rk rt))).
  - intros nf. rewrite Rn3. etransitivity; [apply En|]. cbn [nullifier_spent with_nullifier_spent].
    case_bool_decide as Hin; [|by rewrite Rn; cbn; rewrite bool_decide_eq_false_2].
    pose proof (con_nullifiers _ _ Hc) as Hn. rewrite Forall_forall in Hn. by rewrite Hn.
  - exact (eq_trans Ra3 (eq_trans Ea2 Ra)).
Qed.
End Undone.

(** *** Checks leave the coins alone *)

Notation prevouts_ok ins := (Forall (fun i => outpoint_ok (prevout i)) ins).

Lemma AccessCoin_stays o (c : cache) co c' : outpoint_ok o -> inv c -> AccessCoin o c = (co, c') -> stays c c'.
Proof. intros Ho Hi E. by destruct (AccessCoin_ok root storable tree_ok empty_root o c co c' Ho Hi E). Qed.

Lemma p2sh_sigops_stays ins : forall n (c : cache),
  prevouts_ok ins -> inv c -> when_ok (p2sh_sigops ins n c) (fun r => stays c (snd r)).
Proof.
  induction ins as [|i ins IH]; intros n c Ho Hi; cbn [p2sh_sigops]; [by split|].
  apply Forall_cons in Ho as [Hoi Ho]. destruct (AccessCoin (prevout i) c) as [co c1] eqn:E.
  pose proof (AccessCoin_stays _ _ _ _ Hoi Hi E) as Hs. apply when_ok_any. intros n1.
  specialize (IH n1 c1 Ho (proj1 Hs)). destruct (p2sh_sigops ins n1 c1) as [[n2 c2]| | |]; try done.
  cbn in *. by eapply keeps_trans.
Qed.

Lemma GetP2SHSigOpCount_stays tx (c : cache) :
  prevouts_ok (vin tx) -> inv c -> when_ok (GetP2SHSigOpCount tx c) (fun r => stays c (snd r)).
Proof. intros Ho Hi. unfold GetP2SHSigOpCount. destruct (_ || _); [by split|by apply p2sh_sigops_stays]. Qed.

Lemma value_in_loop_stays ins : forall n (c : cache),
  prevouts_ok ins -> inv c -> when_ok (value_in_loop ins n c) (fun r => stays c (snd r)).
Proof.
  induction ins as [|i ins IH]; intros n c Ho Hi; cbn [value_in_loop]; [by split|].
  apply Forall_cons in Ho as [Hoi Ho]. destruct (AccessCoin (prevout i) c) as [co c1] eqn:E.
  pose proof (AccessCoin_stays _ _ _ _ Hoi Hi E) as Hs. apply when_ok_any. intros n1.
  specialize (IH n1 c1 Ho (proj1 Hs)). destruct (value_in_loop ins n1 c1) as [[n2 c2]| | |]; try done.
  cbn in *. by eapply keeps_trans.
Qed.

Lemma GetValueIn_stays tx (c : cache) :
  prevouts_ok (vin tx) -> inv c -> when_ok (GetValueIn tx c) (fun r => stays c (snd r)).
Proof.
  intros Ho Hi. unfold GetValueIn. destruct (IsCoinBase tx); [by split|]. destruct (HasZerocoinSpendInputs tx).
  { apply when_ok_any. by split. }
  eapply when_ok_bind; [by apply value_in_loop_stays|]. intros [n c1] Hs. do 2 (apply when_ok_any; intros ?). exact Hs.
Qed.

Lemma check_input_values_stays p ins : forall st h n (c : cache),
  prevouts_ok ins -> inv c -> when_ok (check_input_values p ins st h n c) (fun r => stays c (snd r)).
Proof.
  induction ins as [|i ins IH]; intros st h n c Ho Hi; cbn [check_input_values]; [by split|].
  apply Forall_cons in Ho as [Hoi Ho]. destruct (AccessCoin (prevout i) c) as [co c1] eqn:E.
  pose proof (AccessCoin_stays _ _ _ _ Hoi Hi E) as Hs. apply when_ok_any. intros _.
  apply when_ok_if; [done|]. intros _. apply when_ok_any. intros n1. apply when_ok_if; [done|]. intros _.
  specialize (IH st h n1 c1 Ho (proj1 Hs)). destruct (check_input_values _ _ _ _ _ _) as [[n2 c2]| | |]; try done.
  cbn in *. by eapply keeps_trans.
Qed.

Lemma HaveShieldedRequirements_met tx h (c : cache) b c' :
  tx_fits h tx -> inv c -> HaveShieldedRequirements tx c = (b, c') ->
  stays c c' /\ (b = true -> Forall (fun nf => nullifier_spent (abs c) nf = false) (nullifiers_of tx)).
Proof.
  intros Hf Hi. unfold HaveShieldedRequirements. destruct (IsShieldedTx tx) eqn:Esh.
  2:{ intros [= <- <-]. split; [by split|]. intros _. by rewrite (fit_shielded _ _ Hf Esh). }
  pose proof (fit_spends _ _ Hf) as Hs. unfold nullifiers_of. destruct (sapData tx) as [d|]; [|intros [= <- <-]; split; [by split|done]].
  intros E. destruct (shielded_requirements_ok root storable tree_ok empty_root _ c b c' Hs Hi E) as [-> Hst].
  split; [done|]. intros Hb%bool_decide_eq_true. clear -Hb. induction Hb as [|sd l [Hsd _] _ IH]; by constructor.
Qed.

Lemma HaveInputs_met tx h (c : cache) b c' :
  tx_fits h tx -> inv c -> HaveInputs tx c = (b, c') ->
  stays c c' /\ (b = true -> spends_present (abs c) (plain_inputs tx)).
Proof.
  intros Hf Hi E. destruct (no_zerocoins tx (fit_zerocoin _ _ Hf)) as [Hz _].
  destruct (HaveInputs_ok root storable tree_ok empty_root tx c b c' (fit_prevouts _ _ Hf) Hi E) as [-> Hs].
  split; [done|]. rewrite Hz, orb_false_r. unfold plain_inputs. destruct (IsCoinBase tx); cbn [orb]; [intros _; constructor|].
  by intros Hb%bool_decide_eq_true.
Qed.

Lemma CheckTxInputs_stays p tx h st (c : cache) nh :
  tx_fits h tx -> inv c -> when_ok (CheckTxInputs p tx st c nh) (fun c' => stays c c').
Proof.
  intros Hf Hi. unfold CheckTxInputs. destruct (HaveInputs tx c) as [b1 c1] eqn:E1.
  destruct (HaveInputs_met tx h c b1 c1 Hf Hi E1) as [Hs1 _]. apply when_ok_if; [done|]. intros _.
  destruct (HaveShieldedRequirements tx c1) as [b2 c2] eqn:E2.
  destruct (HaveShieldedRequirements_met tx h c1 b2 c2 Hf (proj1 Hs1) E2) as [Hs2 _]. apply when_ok_if; [done|]. intros _.
  pose proof (keeps_trans root storable tree_ok empty_root _ _ _ Hs1 Hs2) as Hs12.
  eapply when_ok_bind; [apply check_input_values_stays; [apply Hf|apply Hs12]|]. intros [n c3] Hs3.
  pose proof (keeps_trans root storable tree_ok empty_root _ _ _ Hs12 Hs3) as Hs123. cbn [snd] in Hs123.
  do 2 (apply when_ok_any; intros ?). apply when_ok_if; [intros _|by intros _].
  apply when_ok_any. intros ?. apply when_ok_if; [done|]. intros _. apply when_ok_any. intros ?.
  apply when_ok_if; [done|]. intros _. by apply when_ok_if; [|intros _].
Qed.

Section Scripts.
Context (gh : list Z -> list Z -> uint256) (stray : Z) (CheckLowS : valtype -> bool) (v6 : bool).
Context (Verify : bool -> valtype -> uint256 -> valtype -> bool).

Lemma check_scripts_stays tx pre st flags store ins : forall i pv (c : cache),
  prevouts_ok ins -> inv c ->
  when_ok (check_scripts gh stray CheckLowS v6 Verify tx pre st flags store ins i pv c) (fun r => stays c (snd r)).
Proof.
  induction ins as [|txin ins IH]; intros i pv c Ho Hi; cbn [check_scripts]; [by split|].
  apply Forall_cons in Ho as [Hoi Ho]. destruct (AccessCoin (prevout txin) c) as [co c1] eqn:E.
  pose proof (AccessCoin_stays _ _ _ _ Hoi Hi E) as Hs. apply when_ok_any. intros _.
  assert (Hgo : forall pv', when_ok (check_scripts gh stray CheckLowS v6 Verify tx pre st flags store ins (i + 1) pv' c1)
                              (fun r => stays c (snd r))).
  { intros pv'. specialize (IH (i + 1) pv' c1 Ho (proj1 Hs)). destruct (check_scripts _ _ _ _ _ _ _ _ _ _ _ _ _ _) as [[n2 c2]| | |]; try done.
    cbn in *. by eapply keeps_trans. }
  destruct pv as [l|]; [apply Hgo|]. apply when_ok_any. intros r. apply when_ok_if; [intros _; by apply when_ok_any|by intros _].
Qed.

Lemma CheckInputs_stays p tx h mbi blocks st (c : cache) fS flags store pre pv :
  tx_fits h tx -> inv c ->
  when_ok (CheckInputs p gh stray CheckLowS v6 Verify mbi blocks tx st c fS flags store pre pv) (fun r => stays c (snd r)).
Proof.
  intros Hf Hi. unfold CheckInputs. apply when_ok_if; [intros _|by split].
  unfold GetSpendHeight. destruct (GetBestBlock c) as [hb c1] eqn:E1.
  destruct (cache_GetBestBlock_ok root storable tree_ok empty_root c hb c1 Hi E1) as [_ Hs1]. fold contents in Hs1.
  destruct (mbi !! hb) as [id|]; [|done]. destruct (blocks !! id) as [b|]; [|done]. cbn [mbind outcome_bind].
  eapply when_ok_bind; [eapply CheckTxInputs_stays; [exact Hf|apply Hs1]|]. intros c2 Hs2.
  pose proof (keeps_trans root storable tree_ok empty_root _ _ _ Hs1 Hs2) as Hs12.
  destruct fS; [|exact Hs12].
  pose proof (check_scripts_stays tx pre st flags store (vin tx) 0 pv c2 (fit_prevouts _ _ Hf) (proj1 Hs2)) as Hc.
  destruct (check_scripts _ _ _ _ _ _ _ _ _ _ _ _ _ _) as [[n3 c3]| | |]; try done. cbn in *. by eapply keeps_trans.
Qed.
End Scripts.
End Coins.
