(* ===== verification/BlockUndo.v ===== *)
(** * A block, connected and disconnected

    The transactions of a block through [ConnectBlock], the undo record it
    writes, and [DisconnectBlock] after it.  [Reorg] has the lemmas on one
    transaction. *)
From stdpp Require Import functions.
From S2P Require Import Prelude Serialize Hash Params Chain Script Interpreter Transaction Sighash Block MerkleTree Compressor Undo Coins.
From S2P Require Import TxDB TxVerify TxInputs Subsidy Indexes Disconnect Connect Reorg.
#[local] Opaque GetHash Hash.

(** ** The coins of several transactions *)

Definition coins_through (h : Z) (txs : list CTransaction) (a : coin_set) : coin_set :=
  fold_left (fun a tx => coins_after tx h a) txs a.

#[export] Instance created_proper tx h : Proper (pointwise_relation _ (=) ==> pointwise_relation _ (=)) (created tx h).
Proof. intros u v E o. by apply (added_proper no_ban). Qed.
#[export] Instance spent_proper ins : Proper (pointwise_relation _ (=) ==> pointwise_relation _ (=)) (spent ins).
Proof. intros u v E o. unfold spent. by case_bool_decide. Qed.
#[export] Instance coins_after_proper tx h : Proper ((≡) ==> (≡)) (coins_after tx h).
Proof.
  intros a b (Eu & Eb & Ek & En & Ea). split_and!; try done; cbn.
  - by apply created_proper, spent_proper.
  - intros nf. by rewrite En.
Qed.
#[export] Instance coins_through_proper h txs : Proper ((≡) ==> (≡)) (coins_through h txs).
Proof.
  unfold coins_through. induction txs as [|tx txs IH]; intros a b E; [done|]. cbn. apply IH. by rewrite E.
Qed.
Lemma coins_through_snoc h txs tx a : coins_through h (txs ++ [tx]) a = coins_after tx h (coins_through h txs a).
Proof. unfold coins_through. by rewrite fold_left_app. Qed.
Lemma coins_through_anchor h txs : forall a,
  best_anchor (coins_through h txs a) = best_anchor a /\ anchor_known (coins_through h txs a) = anchor_known a /\
  best_block (coins_through h txs a) = best_block a.
Proof. induction txs as [|tx txs IH]; intros a; [done|]. apply (IH (coins_after tx h a)). Qed.

Lemma spends_present_ext a b ins : (forall o, utxo a o = utxo b o) -> spends_present a ins -> spends_present b ins.
Proof. intros E Hp. eapply Forall_impl; [exact Hp|]. cbn. intros i. by rewrite E. Qed.
Lemma fresh_ext a b tx : (forall o, utxo a o = utxo b o) -> fresh a tx -> fresh b tx.
Proof. intros E Hf j. by rewrite <- E. Qed.

(** The outputs of another transaction leave a transaction new. *)
Lemma fresh_after tx tx' h a : GetHash tx ≠ GetHash tx' -> fresh a tx' -> fresh (coins_after tx h a) tx'.
Proof.
  intros Hn Hf j. cbn. rewrite created_other by (unfold created_by; cbn; intros [E _]; by apply Hn).
  unfold spent. case_bool_decide; [done|apply Hf].
Qed.

(** The outputs of the notes, in their order. *)
Definition note_outputs (tx : CTransaction) : list OutputDescription :=
  if IsShieldedTx tx then match sapData tx with Some d => vShieldedOutput d | None => [] end else [].

Lemma append_all_app {Tree} (append : Tree -> uint256 -> chk Tree) l l' : forall t,
  append_all append (l ++ l') t = (append_all append l t ≫= append_all append l').
Proof.
  induction l as [|o l IH]; intros t; [done|]. cbn. destruct (append t (cmu o)) as [t'| | |]; [|done..]. apply IH.
Qed.

Section Block.
Context {Tree : Type} (Tree_new : Tree) (root : Tree -> uint256) (tree_ok : Tree -> Prop) (empty_root : uint256).
Context (append : Tree -> uint256 -> chk Tree).
Context (uncompressed : valtype -> option valtype).
Notation storable := (coin_wire uncompressed).
Context {V : Type} `{CCoinsViewOk (Tree := Tree) root storable tree_ok empty_root V}.
Notation cache := (CCoinsViewCache Tree V).
#[local] Instance contents : CCoinsViewAbs cache := CCoinsViewCache_abs root storable tree_ok empty_root.
Notation tx_fits := (tx_fits uncompressed).
Notation coins_fit := (coins_fit uncompressed).
Notation keeps_trans := (keeps_trans root storable tree_ok empty_root).

(** ** Connecting a transaction *)

Context (chainparams : CChainParams) (setInvalidOutPoints : gset COutPoint).
Context (pchMessageStart : list Z).
Context (generichash : list Z -> list Z -> uint256) (stray : Z) (CheckLowS : valtype -> bool) (g_IsV6Active : bool).
Context (Verify : bool -> valtype -> uint256 -> valtype -> bool).
Context (mapBlockIndex : gmap (list Z) positive) (blocks : store).
Context (CheckBlock : CBlock -> CValidationState -> bool -> bool -> bool -> chk CValidationState).
Context (GetBlockHash : CBlock -> uint256) (nTotalBlocksEstimate nScriptCheckThreads : Z).
Context (fInitialBlockDownload : bool) (nZerocoinMaintenance nSaplingMaintenance : Z) (nMoneySupply : CAmount).
Context (ValueValid : Z -> CAmount -> CAmount -> chk bool).
Context (fTxIndex fAddressIndex fSpentIndex fTimestampIndex : bool) (CheckDiskSpace : Z -> bool).
Context {ZDB BM Spend Mint : Type}.
Context (zerocoin_mints : CTransaction -> CValidationState -> chk (list Mint)).
Context (zerocoin_spends : CTransaction -> Z -> uint256 -> CValidationState -> chk (CAmount * list Spend)).
Context (IsTransactionInChain : uint256 -> option Z) (fVerifyingBlocks : bool).
Context (WriteCoinSpendBatch : list Spend -> ZDB -> ZDB) (WriteCoinMintBatch : list Mint -> ZDB -> ZDB).
Context (DataBaseAccChecksum : CBlockIndex -> bool -> ZDB -> ZDB) (WipeAccChecksums : ZDB -> ZDB).
Notation connection := (@connection Tree V Spend Mint).
Notation connect_inputs := (connect_inputs GetBlockHash fAddressIndex fSpentIndex zerocoin_spends IsTransactionInChain fVerifyingBlocks).
Notation connect_values := (connect_values chainparams generichash stray CheckLowS g_IsV6Active Verify mapBlockIndex blocks nScriptCheckThreads).
Notation connect_tx := (connect_tx append chainparams setInvalidOutPoints generichash stray CheckLowS g_IsV6Active Verify
  mapBlockIndex blocks GetBlockHash nScriptCheckThreads fInitialBlockDownload nZerocoinMaintenance nSaplingMaintenance
  fAddressIndex fSpentIndex zerocoin_mints zerocoin_spends IsTransactionInChain fVerifyingBlocks).
Notation connect_txs := (connect_txs append chainparams setInvalidOutPoints generichash stray CheckLowS g_IsV6Active Verify
  mapBlockIndex blocks GetBlockHash nScriptCheckThreads fInitialBlockDownload nZerocoinMaintenance nSaplingMaintenance
  fAddressIndex fSpentIndex zerocoin_mints zerocoin_spends IsTransactionInChain fVerifyingBlocks).

Lemma spending_all_stays h i txhash ins : forall j (c : cache),
  Forall (fun i => outpoint_ok (prevout i)) ins -> inv c ->
  when_ok (spending_all fAddressIndex fSpentIndex h i txhash ins j c) (fun r => stays c (snd r)).
Proof.
  induction ins as [|txin ins IH]; intros j c Ho Hi; cbn [spending_all]; [by split|].
  apply Forall_cons in Ho as [Hoi Ho]. destruct (AccessCoin (prevout txin) c) as [co c1] eqn:E.
  pose proof (AccessCoin_stays root tree_ok empty_root uncompressed _ _ _ _ Hoi Hi E) as Hs. apply when_ok_any. intros u.
  specialize (IH (j + 1) c1 Ho (proj1 Hs)). destruct (spending_all _ _ _ _ _ _ _ _) as [[u2 c2]| | |]; try done.
  cbn in *. by eapply keeps_trans.
Qed.

(** The inputs are there and the nullifiers are new. *)
Definition spendable (tx : CTransaction) (a : coin_set) : Prop :=
  spends_present a (plain_inputs tx) /\ Forall (fun nf => nullifier_spent a nf = false) (nullifiers_of tx).

Lemma connect_inputs_stays block pindex i h tx (c : connection) st :
  tx_fits h tx -> inv (c_view c) ->
  when_ok (connect_inputs block pindex i tx c st) (fun r => stays (c_view c) r.2 /\ spendable tx (abs (c_view c))).
Proof.
  intros Hf Hi. unfold connect_inputs. destruct (no_zerocoins tx (fit_zerocoin _ _ _ Hf)) as [-> _].
  destruct (IsCoinBase tx) eqn:Ecb; cbn [negb].
  { cbn. split; [by split|]. unfold spendable, plain_inputs. rewrite Ecb, (fit_coinbase _ _ _ Hf Ecb). split; constructor. }
  destruct (HaveInputs tx (c_view c)) as [b1 c1] eqn:E1.
  destruct (HaveInputs_met root tree_ok empty_root uncompressed tx h _ b1 c1 Hf Hi E1) as [Hs1 Hp].
  apply when_ok_if; [done|]. intros ->%negb_false_iff. specialize (Hp eq_refl).
  destruct (HaveShieldedRequirements tx c1) as [b2 c2] eqn:E2.
  destruct (HaveShieldedRequirements_met root tree_ok empty_root uncompressed tx h _ b2 c2 Hf (proj1 Hs1) E2) as [Hs2 Hn].
  apply when_ok_if; [done|]. intros ->%negb_false_iff. specialize (Hn eq_refl).
  assert (spendable tx (abs (c_view c))) as Hsp.
  { split; [done|]. destruct Hs1 as [_ (_ & _ & _ & En & _)]. eapply Forall_impl; [exact Hn|]. intros nf Hnf. exact (eq_trans (eq_sym (En nf)) Hnf). }
  pose proof (keeps_trans _ _ _ Hs1 Hs2) as Hs12.
  eapply when_ok_bind; [apply (GetP2SHSigOpCount_stays root tree_ok empty_root uncompressed); [apply Hf|apply Hs2]|].
  intros [ops c3] Hs3. cbn [snd] in Hs3. pose proof (keeps_trans _ _ _ Hs12 Hs3) as Hs123.
  apply when_ok_if; [done|]. intros _. apply when_ok_if; intros _; [|by split].
  eapply when_ok_bind; [apply spending_all_stays; [apply Hf|apply Hs3]|].
  intros [u c4] Hs4. cbn [snd] in Hs4. split; [|done]. exact (keeps_trans _ _ _ Hs123 Hs4).
Qed.

Lemma connect_values_stays pindex fsc cltv fj h tx precom fees vin (c : cache) st :
  tx_fits h tx -> inv c ->
  when_ok (connect_values pindex fsc cltv fj tx precom fees vin c st) (fun r => stays c r.2).
Proof.
  intros Hf Hi. unfold connect_values. apply when_ok_if; intros _; [by split|].
  assert (Hvalue : forall c1 : cache, inv c1 -> when_ok (on_coins (GetValueIn tx c1)) (fun r => stays c1 r.2)).
  { intros c1 Hi1. pose proof (GetValueIn_stays root tree_ok empty_root uncompressed tx c1 (fit_prevouts _ _ _ Hf) Hi1) as Hv.
    by destruct (GetValueIn tx c1). }
  eapply (when_ok_bind _ _ (fun r : CAmount * cache => stays c r.2)).
  { apply when_ok_if; intros _; [|by split]. eapply when_ok_bind; [by apply Hvalue|]. intros [v c1] Hs1.
    do 3 (apply when_ok_any; intros ?). exact Hs1. }
  intros [fees' c1] Hs1. cbn [snd] in Hs1. eapply when_ok_bind; [apply Hvalue, Hs1|]. intros [v c2] Hs2. cbn [snd] in Hs2.
  pose proof (keeps_trans _ _ _ Hs1 Hs2) as Hs12. apply when_ok_any. intros vin'. cbn zeta.
  eapply when_ok_bind; [eapply (CheckInputs_stays root tree_ok empty_root uncompressed); [exact Hf|apply Hs2]|].
  intros [checks c3] Hs3. exact (keeps_trans _ _ _ Hs12 Hs3).
Qed.

(** What connecting [tx] does to the coins, the notes and the undo data. *)
Definition connects (h i : Z) (tx : CTransaction) (c c' : connection) : Prop :=
  tx_connects tx (abs (c_view c)) /\ inv (c_view c') /\ abs (c_view c') ≡ coins_after tx h (abs (c_view c)) /\
  append_all append (note_outputs tx) (sapling_tree c) = Ok (sapling_tree c') /\
  exists us, Forall2 (fun txin u => utxo (abs (c_view c)) (prevout txin) = Some u) (plain_inputs tx) us /\
    vtxundo c' = if 0 <? i then vtxundo c ++ [us] else vtxundo c.

Notation allowed h tx := (SkipInvalidUTXOS chainparams h = true -> not_banned setInvalidOutPoints tx).

Lemma connect_tx_connects block pindex fsc cltv fj i tx st (c : connection) :
  allowed (Chain.nHeight pindex) tx ->
  tx_fits (Chain.nHeight pindex) tx -> inv (c_view c) -> fresh (abs (c_view c)) tx ->
  when_ok (connect_tx block pindex fsc cltv fj i tx st c) (connects (Chain.nHeight pindex) i tx c).
Proof.
  intros Hskip Hf Hi Hnew. unfold connect_tx. do 2 (apply when_ok_any; intros ?).
  eapply when_ok_bind; [by apply (connect_inputs_stays _ _ _ (Chain.nHeight pindex))|]. intros [[[[zv sp] n] u] c1] [Hs1 [Hp Hn]]. cbn [snd c_view] in Hs1, Hp, Hn.
  do 2 (apply when_ok_any; intros ?).
  eapply when_ok_bind; [eapply connect_values_stays; [exact Hf|apply Hs1]|]. intros [[[fees vIn] checks] c2] Hs2. cbn [snd] in Hs2.
  pose proof (keeps_trans _ _ _ Hs1 Hs2) as [Hi2 E2]. do 2 (apply when_ok_any; intros ?).
  pose proof E2 as (Eu & _).
  destruct (UpdateCoins_holds root tree_ok empty_root uncompressed setInvalidOutPoints
    (SkipInvalidUTXOS chainparams (Chain.nHeight pindex)) tx (Chain.nHeight pindex) c2 Hskip Hf Hi2)
    as (us & c3 & E3 & Hus & Hi3 & Ea3).
  { eapply spends_present_ext; [|exact Hp]. intros o. symmetry. apply Eu. }
  { eapply fresh_ext; [|exact Hnew]. intros o. symmetry. apply Eu. }
  rewrite E3. cbn [on_coins mbind outcome_bind sapling_tree].
  eapply (when_ok_bind _ _ (fun t => append_all append (note_outputs tx) (sapling_tree c) = Ok t)).
  { unfold note_outputs. destruct (IsShieldedTx tx); [|done]. by destruct (append_all _ _ _). }
  intros t Et. cbn. split; [by split|]. split; [done|]. split; [exact (transitivity Ea3 (coins_after_proper _ _ _ _ E2))|].
  split; [done|]. exists us. split; [|done]. eapply Forall2_impl; [exact Hus|]. intros txin co Hco. exact (eq_trans (eq_sym (Eu _)) Hco).
Qed.

(** ** Connecting the transactions *)

Lemma coins_fit_after h tx a : u32 h ≠ 0 -> tx_fits h tx -> coins_fit a -> coins_fit (coins_after tx h a).
Proof.
  intros Hh Hf Hfit o co Hco. destruct (created_cases _ _ _ _ _ Hco) as [Hold|(out & Hin & Hn & ->)].
  - unfold spent in Hold. case_bool_decide; [done|]. by eapply Hfit.
  - pose proof (fit_outs _ _ _ Hf) as Ho. rewrite List.Forall_forall in Ho. destruct (Ho out Hin) as [_ Hst]. split_and!; auto.
Qed.
Lemma coins_fit_through h txs : forall a,
  u32 h ≠ 0 -> Forall (tx_fits h) txs -> coins_fit a -> coins_fit (coins_through h txs a).
Proof.
  induction txs as [|tx txs IH]; intros a Hh Hf Ha; [done|]. apply Forall_cons in Hf as [Hf0 Hf]. apply (IH (coins_after tx h a)); [done..|].
  by apply coins_fit_after.
Qed.

(** The coins [uss] that the transactions spend, each from the coins that those
    before it leave. *)
Definition spends (a : coin_set) (tx : CTransaction) (us : list Coin) : Prop :=
  tx_connects tx a /\ Forall2 (fun txin u => utxo a (prevout txin) = Some u) (plain_inputs tx) us.
Fixpoint all_spend (h : Z) (a : coin_set) (txs : list CTransaction) (uss : list (list Coin)) : Prop :=
  match txs, uss with
  | [], [] => True
  | tx :: txs, us :: uss => spends a tx us /\ all_spend h (coins_after tx h a) txs uss
  | _, _ => False
  end.

Lemma spends_ext a b tx us : a ≡ b -> spends a tx us -> spends b tx us.
Proof.
  intros (Eu & _ & _ & En & _) [[Hp Hf Hn] Hs]. split; [split|].
  - by eapply spends_present_ext.
  - by eapply fresh_ext.
  - eapply Forall_impl; [exact Hn|]. intros nf Hnf. by rewrite <- En.
  - eapply Forall2_impl; [exact Hs|]. intros txin u Hu. by rewrite <- Eu.
Qed.
Lemma all_spend_ext h txs : forall uss a b, a ≡ b -> all_spend h a txs uss -> all_spend h b txs uss.
Proof.
  induction txs as [|tx txs IH]; intros [|us uss] a b E; try done. cbn. intros [G1 G2]. split; [by eapply spends_ext|].
  eapply IH; [|exact G2]. by rewrite E.
Qed.
Lemma all_spend_length h txs : forall uss a, all_spend h a txs uss -> length uss = length txs.
Proof. induction txs as [|tx txs IH]; intros [|us uss] a; try done. cbn. intros [_ G1]. f_equal. by eapply IH. Qed.
Lemma all_spend_snoc h txs tx us : forall uss a,
  all_spend h a (txs ++ [tx]) (uss ++ [us]) -> all_spend h a txs uss /\ spends (coins_through h txs a) tx us.
Proof.
  induction txs as [|tx0 txs IH]; intros [|us0 uss] a; cbn.
  - intros [? _]. by split.
  - intros [_ G1]. by destruct uss.
  - intros [_ G1]. by destruct txs.
  - intros [G1 G2]. destruct (IH uss _ G2) as [G3 G4]. by split_and!.
Qed.

(** The view, the notes and the undo data when all are connected. *)
Record connects_all (h i : Z) (txs : list CTransaction) (c c' : connection) : Prop := {
  all_inv : inv (c_view c');
  all_coins : abs (c_view c') ≡ coins_through h txs (abs (c_view c));
  all_notes : append_all append (concat (map note_outputs txs)) (sapling_tree c) = Ok (sapling_tree c');
  all_undo : exists uss, all_spend h (abs (c_view c)) txs uss /\
    vtxundo c' = vtxundo c ++ (if 0 <? i then uss else drop 1 uss) }.

Lemma connect_txs_connects block pindex fsc cltv fj txs st : forall i (c : connection),
  Forall (fun tx => allowed (Chain.nHeight pindex) tx) txs -> 0 <= i ->
  Forall (tx_fits (Chain.nHeight pindex)) txs -> inv (c_view c) ->
  Forall (fresh (abs (c_view c))) txs -> NoDup (map GetHash txs) ->
  when_ok (connect_txs block pindex fsc cltv fj i txs st c) (connects_all (Chain.nHeight pindex) i txs c).
Proof.
  induction txs as [|tx txs IH]; intros i c Hskip H0' Hf Hi Hnew Hd; cbn [connect_txs].
  { split; [done..|]. exists []. split; [done|]. destruct (0 <? i); by rewrite app_nil_r. }
  apply Forall_cons in Hskip as [Hs0 Hskip]. apply Forall_cons in Hf as [Hf0 Hf]. apply Forall_cons in Hnew as [Hn0 Hnew]. cbn [map] in Hd. apply NoDup_cons in Hd as [Hni Hd].
  eapply when_ok_bind; [by apply connect_tx_connects|]. intros c1 (Hc & Hi1 & E1 & Ht & us & Hus & Hu).
  specialize (IH (i + 1) c1 Hskip ltac:(lia) Hf Hi1).
  assert (Forall (fresh (abs (c_view c1))) txs) as Hnew1.
  { rewrite List.Forall_forall in *. intros tx' Hin. eapply fresh_ext; [|apply (fresh_after tx tx'); [|by apply Hnew]].
    - intros o. symmetry. apply E1.
    - intros E. apply Hni. rewrite E. by apply list_elem_of_In, in_map. }
  specialize (IH Hnew1 Hd). destruct (connect_txs _ _ _ _ _ _ _ _) as [c2| | |]; try done. destruct IH as [Hi2 E2 Ht2 (uss & Hall & Hu2)].
  split; [done| | |].
  - rewrite E2. exact (coins_through_proper _ _ _ _ E1).
  - cbn [map concat]. rewrite append_all_app, Ht. exact Ht2.
  - exists (us :: uss). split; [split; [by split|by eapply all_spend_ext]|]. rewrite Hu2, Hu.
    replace (0 <? i + 1) with true by (symmetry; apply Z.ltb_lt; lia). destruct (0 <? i); [|done]. by rewrite <- app_assoc.
Qed.

(** ** Disconnecting the transactions *)

Section Undone.
Context (DisconnectZerocoinTx : CTransaction -> ZDB -> bool * ZDB) (RemoveByFeeTxId : uint256 -> BM -> BM).
Hypothesis Hzdb : forall tx z, ContainsZerocoins tx = false -> DisconnectZerocoinTx tx z = (true, z).

Lemma disconnect_txs_holds nH h vtxundo txs : forall uss a fClean (s : chainstate Tree V ZDB BM),
  u32 h ≠ 0 -> Forall (tx_fits h) txs -> coins_fit a ->
  (forall i tx, txs !! i = Some tx -> IsCoinBase tx = (i =? 0)%nat) ->
  (forall i us, uss !! S i = Some us -> vtxundo !! i = Some us) ->
  all_spend h a txs uss -> inv (view s) -> abs (view s) ≡ coins_through h txs a ->
  exists u s', disconnect_txs DisconnectZerocoinTx RemoveByFeeTxId fAddressIndex fSpentIndex nH (reverse (imap pair txs)) vtxundo fClean s
    = Ok (fClean, u, s') /\ inv (view s') /\ abs (view s') ≡ a.
Proof.
  induction txs as [|tx txs IH] using rev_ind; intros uss a fClean s Hh Hf Ha Hcb Hundo Hall Hi Ea.
  { do 2 eexists. split; [reflexivity|]. by split. }
  destruct uss as [|us uss _] using rev_ind; [by destruct txs|].
  apply all_spend_snoc in Hall as Hsp. destruct Hsp as [Hall' [Hc Hus]].
  apply Forall_app in Hf as [Hf Hf1]. apply Forall_cons in Hf1 as [Hf1 _]. rewrite coins_through_snoc in Ea.
  pose proof (all_spend_length _ _ _ _ Hall') as Hlen.
  assert (forall i tx', txs !! i = Some tx' -> IsCoinBase tx' = (i =? 0)%nat) as Hcb'
    by (intros i tx' Hl; apply Hcb; by apply lookup_app_l_Some).
  assert (forall i us', uss !! S i = Some us' -> vtxundo !! i = Some us') as Hundo'
    by (intros i us' Hl; apply Hundo; by apply lookup_app_l_Some).
  assert (IsCoinBase tx = (length txs =? 0)%nat) as Hcbx by (apply Hcb; by rewrite lookup_app_r, Nat.sub_diag).
  rewrite imap_app. cbn [imap]. rewrite reverse_app. cbn [reverse rev_append app disconnect_txs]. rewrite Nat.add_0_r.
  destruct (disconnect_tx_holds root tree_ok empty_root uncompressed DisconnectZerocoinTx RemoveByFeeTxId fAddressIndex fSpentIndex Hzdb
              nH (length txs) h tx us vtxundo (coins_through h txs a) fClean s) as (u1 & s1 & E1 & Hi1 & Ea1); try done.
  { by apply coins_fit_through. }
  { intros Hncb. rewrite Hcbx in Hncb. apply Nat.eqb_neq in Hncb. apply Hundo.
    replace (S (length txs - 1)) with (length txs) by lia. by rewrite <- Hlen, lookup_app_r, Nat.sub_diag. }
  destruct (IH uss a fClean s1 Hh Hf Ha Hcb' Hundo' Hall' Hi1 Ea1) as (u2 & s2 & E2 & Hi2 & Ea2).
  exists (updates_app u1 u2), s2. split; [|by split]. unfold mbind, outcome_bind at 1. rewrite E1. by rewrite E2.
Qed.

(** ** The undo record and the index entry *)

Lemma UndoRead_written blockundo hashBlock :
  compression_ok uncompressed -> wire (CBlockUndo_c uncompressed) blockundo ->
  UndoReadFromDisk uncompressed (UndoWriteToDisk uncompressed pchMessageStart blockundo hashBlock).2 hashBlock = Some blockundo.
Proof.
  intros Hc Hw. unfold UndoReadFromDisk, UndoWriteToDisk. cbv zeta. cbv beta iota delta [snd].
  rewrite (vector_ok _ (CTxUndo_ok uncompressed Hc) _ _ Hw).
  set (s := ser (CBlockUndo_c uncompressed) blockundo).
  assert (length (Hash [hashBlock; s]) = 32%nat) as Hl by apply Hash_length.
  pose proof (read_raw_app 32 (Hash [hashBlock; s]) [] Hl) as E. rewrite app_nil_r in E. rewrite E.
  rewrite length_app, Hl, Nat.add_sub, take_app_length. by rewrite bool_decide_eq_true_2.
Qed.

Lemma GetUndoPos_bit b : Z.testbit (nStatus b) 4 = true -> GetUndoPos b = (nFile b, nUndoPos b).
Proof.
  intros Hb. unfold GetUndoPos. destruct (Z.land (nStatus b) BLOCK_HAVE_UNDO =? 0) eqn:E; [|done]. apply Z.eqb_eq in E.
  apply (f_equal (fun z => Z.testbit z 4)) in E. rewrite Z.land_spec, Hb in E. done.
Qed.

(** The block index entry after the record is written: where the record is, and
    nothing else that disconnecting looks at. *)
Lemma write_undo_written pindex blockundo files st pindex' files' :
  (GetUndoPos pindex).1 = -1 ->
  write_undo uncompressed pchMessageStart blocks CheckDiskSpace pindex blockundo files st = Ok (pindex', files') ->
  exists prev pos, deref blocks (pprev pindex) = Ok prev /\ GetUndoPos pindex' = (nFile pindex, pos) /\
    records files' !! (nFile pindex, pos) = Some (UndoWriteToDisk uncompressed pchMessageStart blockundo (blockHash prev)).2 /\
    pprev pindex' = pprev pindex /\ Chain.nHeight pindex' = Chain.nHeight pindex /\ blockHash pindex' = blockHash pindex.
Proof.
  intros Hpos. unfold write_undo. destruct (Chain.IsValid pindex BLOCK_VALID_SCRIPTS) as [valid| | |]; [|done..].
  cbn [on_coins mbind outcome_bind]. rewrite Hpos. change (-1 =? -1) with true. cbn [orb].
  destruct (FindUndoPos _ _ _ _ _) as [[pos files1]| | |]; [|done..]. cbn [mbind outcome_bind].
  destruct (deref blocks (pprev pindex)) as [prev| | |]; [|done..]. cbn [on_coins mbind outcome_bind].
  destruct (UndoWriteToDisk _ _ _ _) as [hdr record] eqn:Ew. cbn [mbind outcome_bind].
  set (pos' := u32 (pos + zlen hdr)). unfold RaiseValidity.
  change (cassert (E := unit) (Z.land BLOCK_VALID_SCRIPTS (Z.lnot BLOCK_VALID_MASK) =? 0)) with (Ok (E := unit) tt).
  cbn [mbind outcome_bind]. intros E. exists prev, pos'. split; [done|].
  assert (Z.testbit (nStatus (set_undo pindex pos')) 4 = true) as Hbit
    by (cbn [nStatus set_undo]; rewrite Z.lor_spec; apply orb_true_r).
  assert (Hsame : forall b, Z.testbit (nStatus b) 4 = true -> nFile b = nFile pindex -> nUndoPos b = pos' ->
    GetUndoPos b = (nFile pindex, pos')) by (intros b Hb <- <-; by apply GetUndoPos_bit).
  revert E. destruct (negb _); [|destruct (_ <? _)]; cbn [on_coins mbind outcome_bind fst]; intros [= <- <-]; cbn [records];
    rewrite lookup_insert_eq; split_and!; try done;
    first [by rewrite Ew | apply Hsame; try done].
  cbn [nStatus set_nStatus set_undo] in Hbit |- *. rewrite Z.lor_spec, Z.land_spec, Hbit. done.
Qed.

(** ** The block *)

Notation connect_checked := (connect_checked root append chainparams setInvalidOutPoints generichash stray CheckLowS g_IsV6Active Verify
  mapBlockIndex blocks GetBlockHash nTotalBlocksEstimate nScriptCheckThreads fInitialBlockDownload nZerocoinMaintenance
  nSaplingMaintenance nMoneySupply ValueValid fAddressIndex fSpentIndex zerocoin_mints zerocoin_spends IsTransactionInChain
  fVerifyingBlocks).
Notation ConnectBlock := (ConnectBlock root append chainparams setInvalidOutPoints uncompressed pchMessageStart generichash stray
  CheckLowS g_IsV6Active Verify mapBlockIndex blocks CheckBlock GetBlockHash nTotalBlocksEstimate nScriptCheckThreads
  fInitialBlockDownload nZerocoinMaintenance nSaplingMaintenance nMoneySupply ValueValid fTxIndex fAddressIndex fSpentIndex
  fTimestampIndex CheckDiskSpace zerocoin_mints zerocoin_spends IsTransactionInChain fVerifyingBlocks WriteCoinSpendBatch
  WriteCoinMintBatch DataBaseAccChecksum WipeAccChecksums).
Notation DisconnectBlock := (DisconnectBlock Tree_new empty_root chainparams DisconnectZerocoinTx DataBaseAccChecksum
  RemoveByFeeTxId fAddressIndex fSpentIndex uncompressed).

Definition block_notes (block : CBlock) : list OutputDescription := concat (map note_outputs (vtx block)).

(** What [CheckBlock] and the chain give of a block: the transactions are in
    form, the first and only the first is a coinbase, and no two are the same. *)
Record block_fits (h : Z) (block : CBlock) : Prop := {
  block_txs : Forall (tx_fits h) (vtx block);
  block_coinbase : forall i tx, vtx block !! i = Some tx -> IsCoinBase tx = (i =? 0)%nat;
  block_some : vtx block ≠ [];
  block_size : zlen (vtx block) <= MAX_SIZE;
  block_ids : NoDup (map GetHash (vtx block));
  block_cmus : Forall (fun o => hash_ok (cmu o)) (block_notes block) }.

(** The coins stand at the block [prev], all of them can be restored, and the
    transactions and the notes of [block] are new. *)
Record stands_at (prev : CBlockIndex) (block : CBlock) (a : coin_set) : Prop := {
  at_block : uint256_IsNull (blockHash prev) = false;
  at_anchor : best_anchor a =
    if Params.NetworkUpgradeActive (Params.consensus chainparams) (Chain.nHeight prev) UPGRADE_V5_0
    then Chain.hashFinalSaplingRoot prev else empty_root;
  at_anchor_some : uint256_IsNull (best_anchor a) = false;
  at_coins : coins_fit a;
  at_new : Forall (fresh a) (vtx block);
  at_notes : forall t t', tree_ok t -> root t = best_anchor a -> append_all append (block_notes block) t = Ok t' ->
    root t' = best_anchor a \/ (anchor_known a (root t') = false /\ uint256_IsNull (root t') = false) }.

(** The notes of the trees: what the Sapling commitment tree provides. *)
Hypothesis Hroot : forall t, tree_ok t -> hash_ok (root t).
Hypothesis Happend : forall t cm t', tree_ok t -> hash_ok cm -> append t cm = Ok t' -> tree_ok t'.

Lemma append_all_tree_ok l : forall t t',
  Forall (fun o => hash_ok (cmu o)) l -> tree_ok t -> append_all append l t = Ok t' -> tree_ok t'.
Proof.
  induction l as [|o l IH]; intros t t' Hl Ht; cbn [append_all]; [by intros [= <-]|]. apply Forall_cons in Hl as [Ho Hl].
  destruct (append t (cmu o)) as [t1| | |] eqn:E; [|done..]. cbn. intros E'. eapply IH; [done| |exact E']. by eapply Happend.
Qed.

(** The view after the transactions, before the anchor of the block. *)
Definition connected_from (h : Z) (block : CBlock) (v : cache) (c : connection) : Prop :=
  exists t v1, tree_ok t /\ root t = best_anchor (abs v) /\ anchor_known (abs v) (best_anchor (abs v)) = true /\
    append_all append (block_notes block) t = Ok (sapling_tree c) /\
    inv v1 /\ abs v1 ≡ coins_through h (vtx block) (abs v) /\ c_view c = PushAnchor root (sapling_tree c) v1 /\
    exists uss, all_spend h (abs v) (vtx block) uss /\ vtxundo c = drop 1 uss.

Lemma connect_checked_from block st pindex (v : cache) fj :
  Forall (fun tx => allowed (Chain.nHeight pindex) tx) (vtx block) ->
  block_fits (Chain.nHeight pindex) block -> inv v -> Forall (fresh (abs v)) (vtx block) ->
  when_ok (connect_checked block st pindex v fj) (connected_from (Chain.nHeight pindex) block v).
Proof.
  intros Hskip Hb Hi Hnew. unfold connect_checked. cbv zeta.
  do 3 (apply when_ok_if; [done|intros _]). apply when_ok_any. intros cltv.
  destruct (GetBestAnchor v) as [best v1] eqn:E1.
  destruct (cache_GetBestAnchor_ok root storable tree_ok empty_root v best v1 Hi E1) as (-> & Hs1 & Hbest & _).
  fold contents in Hs1, Hbest |- *.
  destruct (GetSaplingAnchorAt _ v1) as [t v2] eqn:E2.
  destruct (cache_GetSaplingAnchorAt_ok root storable tree_ok empty_root _ v1 t v2 Hbest (proj1 Hs1) E2) as [Ht Hs2].
  fold contents in Hs2, Ht. destruct t as [t|]; [|done]. destruct Ht as (Hk & Hrt & Htok & _).
  pose proof (keeps_trans _ _ _ Hs1 Hs2) as [Hi2 E]. pose proof Hs1 as [_ (_ & _ & Ek & _)]. pose proof E as (Eu & _).
  eapply when_ok_bind.
  { apply (connect_txs_connects block pindex _ cltv fj (vtx block) st 0); [done|lia|apply Hb|exact Hi2| |apply Hb].
    eapply Forall_impl; [exact Hnew|]. intros tx. apply fresh_ext. intros o. symmetry. apply Eu. }
  intros c [Hci Hcc Hcn (uss & Hall & Hu)]. cbn [c_view sapling_tree vtxundo app] in *.
  apply when_ok_if; [done|intros _]. do 2 (apply when_ok_any; intros ?). apply when_ok_if; [done|intros _].
  exists t, (c_view c). split_and!; try done.
  - exact (eq_trans (eq_sym (Ek _)) Hk).
  - rewrite Hcc. by apply coins_through_proper.
  - exists uss. split; [|done]. by eapply all_spend_ext.
Qed.

(** *** The best block and the anchors around the coins *)

Definition with_chain (a : coin_set) (b : uint256) (known : uint256 -> bool) (r : uint256) : coin_set :=
  CoinSet (utxo a) b known (nullifier_spent a) r.

Lemma coins_through_chain h txs b k r : forall a,
  coins_through h txs (with_chain a b k r) = with_chain (coins_through h txs a) b k r.
Proof. induction txs as [|tx txs IH]; intros a; [done|]. exact (IH (coins_after tx h a)). Qed.
Lemma all_spend_chain h txs b k r : forall uss a, all_spend h a txs uss -> all_spend h (with_chain a b k r) txs uss.
Proof.
  induction txs as [|tx txs IH]; intros [|us uss] a; try done. cbn. intros [[[Hp Hf Hn] Hs] Hall]. split; [by split|].
  exact (IH uss (coins_after tx h a) Hall).
Qed.

Lemma SetBestBlock_chain hash (c : cache) :
  inv c -> hash_ok hash ->
  inv (SetBestBlock hash c) /\
  exists b, abs (SetBestBlock hash c) ≡ with_chain (abs c) b (anchor_known (abs c)) (best_anchor (abs c)) /\
    (uint256_IsNull hash = false -> b = hash).
Proof.
  intros (Hb & _ & Ha & Hc & Ht & Hn) Hok. split; [by split_and!|]. eexists. split; [by split_and!|]. intros Hnn.
  change ((if uint256_IsNull hash then best_block (abs (base c)) else hash) = hash). by rewrite Hnn.
Qed.

(** The state in which [connected_from] leaves the view, under another best
    block. *)
Lemma connected_chain h block v c hash :
  connected_from h block v c -> Forall (fun o => hash_ok (cmu o)) (block_notes block) -> hash_ok hash -> inv v ->
  (forall t t', tree_ok t -> root t = best_anchor (abs v) -> append_all append (block_notes block) t = Ok t' ->
    root t' = best_anchor (abs v) \/ (anchor_known (abs v) (root t') = false /\ uint256_IsNull (root t') = false)) ->
  uint256_IsNull (best_anchor (abs v)) = false ->
  let r := root (sapling_tree c) in
  let c' := SetBestBlock hash (c_view c) in
  inv c' /\ (r = best_anchor (abs v) \/ anchor_known (abs v) r = false) /\
  exists b, abs c' ≡ coins_through h (vtx block) (with_chain (abs v) b (<[r := true]> (anchor_known (abs v))) r).
Proof.
  intros (t & v1 & Htok & Hrt & Hk & Happ & Hi1 & E1 & Ev & _) Hcmus Hok Hi Hnotes Hnn r c'.
  pose proof (append_all_tree_ok _ _ _ Hcmus Htok Happ) as Htok'.
  destruct (coins_through_anchor h (vtx block) (abs v)) as (Ea & Ek & _).
  pose proof E1 as (_ & _ & Ek1 & _ & Ea1). cbn [anchor_known best_anchor] in Ek1, Ea1. rewrite Ea in Ea1.
  assert (uint256_IsNull r = false) as Hrn.
  { destruct (Hnotes t _ Htok Hrt Happ) as [Er|[_ ?]]; [unfold r; by rewrite Er|done]. }
  destruct (PushAnchor_ok root storable tree_ok empty_root (sapling_tree c) v1 Hi1 (Hroot _ Htok') Htok' Hrn) as [Hi2 E2].
  { fold contents. rewrite Ea1. rewrite Ek1, Ek. exact Hk. }
  fold contents in Hi2, E2. rewrite <- Ev in Hi2, E2. destruct (SetBestBlock_chain hash (c_view c) Hi2 Hok) as (Hi3 & b & E3 & _).
  split; [done|]. split; [destruct (Hnotes t _ Htok Hrt Happ) as [?|[? _]]; [by left|by right]|].
  exists b. rewrite coins_through_chain. pose proof E1 as (Eu1 & _ & _ & En1 & _). pose proof E2 as (Eu2 & _ & Ek2 & En2 & Ea2).
  etransitivity; [exact E3|]. split_and!; try done.
  - intros o. etransitivity; [apply Eu2|]. apply Eu1.
  - intros rt. etransitivity; [apply Ek2|]. cbn [anchor_known with_best_anchor with_chain]. unfold insert, fn_insert.
    destruct (decide _); [done|]. rewrite Ek1. by rewrite Ek.
  - intros nf. etransitivity; [apply En2|]. apply En1.
Qed.

Lemma undo_wire h txs : forall uss a,
  u32 h ≠ 0 -> Forall (tx_fits h) txs -> coins_fit a -> all_spend h a txs uss -> Forall (wire (CTxUndo_c uncompressed)) uss.
Proof.
  induction txs as [|tx txs IH]; intros [|us uss] a Hh Hf Ha; cbn [all_spend]; try done.
  intros [[_ Hus] Hall]. apply Forall_cons in Hf as [Hf0 Hf]. constructor.
  - split.
    + rewrite <- (Forall2_length _ _ _ Hus). unfold plain_inputs. destruct (IsCoinBase tx); [done|apply Hf0].
    + clear -Hus Ha. induction Hus as [|txin u l us Hu _ IH']; constructor; [|done]. by destruct (Ha _ _ Hu) as (_ & _ & ?).
  - by apply (IH uss (coins_after tx h a)); [..|apply coins_fit_after|].
Qed.

(** Disconnecting from a state over the coins of the block. *)
Lemma DisconnectBlock_restores undo_files block pindex prev (s : chainstate Tree V ZDB BM) a b uss :
  let h := Chain.nHeight pindex in
  block_fits h block -> u32 h ≠ 0 -> (GetUndoPos pindex).1 ≠ -1 -> deref blocks (pprev pindex) = Ok prev ->
  (exists record, undo_files (GetUndoPos pindex) = Some record /\
     UndoReadFromDisk uncompressed record (blockHash prev) = Some (drop 1 uss)) ->
  all_spend h a (vtx block) uss -> stands_at prev block a -> hash_ok (best_anchor a) -> hash_ok (best_block a) ->
  best_block a = blockHash prev ->
  anchor_known a empty_root = true -> anchor_known a (best_anchor a) = true ->
  inv (view s) ->
  (forall r, r = best_anchor a \/ anchor_known a r = false ->
   abs (view s) ≡ coins_through h (vtx block) (with_chain a b (<[r := true]> (anchor_known a)) r) ->
   exists s', DisconnectBlock undo_files blocks block pindex s = Ok (DISCONNECT_OK, s') /\ inv (view s') /\ abs (view s') ≡ a).
Proof.
  intros h [Hf Hcb Hsome _ _ _] Hh Hpos Hprev (record & Hrec & Hread) Hall Hat Hha Hhb Hbest Hempty Hknown Hi r Hr Ea.
  unfold DisconnectBlock. cbv zeta. rewrite (proj2 (Z.eqb_neq _ _) Hpos), Hprev, Hrec. cbn [mbind outcome_bind option_bind].
  rewrite Hread. pose proof (all_spend_length _ _ _ _ Hall) as Hlen.
  assert (zlen (drop 1 uss) + 1 =? zlen (vtx block) = true) as ->.
  { apply Z.eqb_eq. rewrite length_drop. destruct (vtx block); [done|]. cbn in Hlen |- *. lia. }
  cbn [negb]. fold h.
  destruct (disconnect_txs_holds h h (drop 1 uss) (vtx block) uss
    (with_chain a b (<[r := true]> (anchor_known a)) r) true s Hh Hf) as (u & s1 & -> & Hi1 & E1); try done.
  { exact (at_coins _ _ _ Hat). }
  { intros i us Hl. by rewrite lookup_drop. }
  { by apply all_spend_chain. }
  cbn [mbind outcome_bind]. pose proof (at_anchor _ _ _ Hat) as Hanchor. pose proof (at_anchor_some _ _ _ Hat) as Hnn.
  rewrite <- Hanchor. pose proof E1 as (_ & _ & Ek1 & _ & Ea1). cbn [anchor_known best_anchor with_chain] in Ek1, Ea1.
  destruct (PopAnchor_ok Tree_new root storable tree_ok empty_root (best_anchor a) (view s1) Hi1 Hha Hnn) as (v2 & Ep & Hi2 & E2).
  { fold contents. rewrite Ea1, Ek1. apply fn_lookup_insert. }
  { fold contents. rewrite Ea1. intros Hne ->. destruct Hr as [->|Hr]; [done|congruence]. }
  fold contents in Ep, Hi2, E2. rewrite Ep. cbn [mbind outcome_bind]. eexists. split; [reflexivity|]. cbn [view].
  destruct (SetBestBlock_chain (blockHash prev) v2 Hi2) as (Hi3 & b3 & E3 & Hb3); [by rewrite <- Hbest|].
  split; [done|]. etransitivity; [exact E3|]. rewrite (Hb3 (at_block _ _ _ Hat)). pose proof E1 as (Eu1 & _ & _ & En1 & _).
  pose proof E2 as (Eu2 & _ & Ek2 & En2 & Ea2). split_and!; try done.
  - intros o. etransitivity; [apply Eu2|]. apply Eu1.
  - intros rt. etransitivity; [apply Ek2|]. cbn [anchor_known with_best_anchor with_chain].
    rewrite Ea1. clear -Hr Ek1 Hknown. case_bool_decide as Heq; unfold insert, fn_insert.
    + etransitivity; [apply Ek1|]. unfold insert, fn_insert. destruct (decide _) as [<-|]; [by rewrite Heq|done].
    + destruct (decide (r = rt)) as [<-|Hne]; [by destruct Hr|]. etransitivity; [apply Ek1|]. unfold insert, fn_insert. by rewrite decide_False.
  - intros nf. etransitivity; [apply En2|]. apply En1.
Qed.

Lemma stands_at_ext prev block a b : a ≡ b -> stands_at prev block a -> stands_at prev block b.
Proof.
  intros (Eu & _ & Ek & _ & Ea) [G1 G2 G3 G4 G5 G6]. split.
  - done.
  - by rewrite <- Ea.
  - by rewrite <- Ea.
  - intros o co Ho. apply (G4 o). by rewrite Eu.
  - eapply Forall_impl; [exact G5|]. intros tx. by apply fresh_ext.
  - intros t t'. rewrite <- Ea, <- Ek. apply G6.
Qed.

(** C1: disconnecting a block undoes connecting it.  Let the coins stand at the
    parent of a block whose transactions are in form and new, and let
    [ConnectBlock] accept the block, writing its undo record.  Then
    [DisconnectBlock], from the state and the files so left, finds everything in
    order ([DISCONNECT_OK]), and the unspent coins, the spent nullifiers, the
    anchors, the best anchor and the best block are again those of before. *)
Theorem DisconnectBlock_undoes_ConnectBlock block st pindex prev (s : chainstate Tree V ZDB BM) files k :
  compression_ok uncompressed ->
  Forall (fun tx => SkipInvalidUTXOS chainparams (Chain.nHeight pindex) = true -> not_banned setInvalidOutPoints tx) (vtx block) ->
  u32 (Chain.nHeight pindex) ≠ 0 ->
  GetBlockHash block ≠ hashGenesisBlock (Params.consensus chainparams) ->
  hash_ok (blockHash pindex) -> (GetUndoPos pindex).1 = -1 -> nFile pindex ≠ -1 -> deref blocks (pprev pindex) = Ok prev ->
  block_fits (Chain.nHeight pindex) block -> inv (view s) -> stands_at prev block (abs (view s)) ->
  ConnectBlock block st pindex s files false = Ok k ->
  exists s', DisconnectBlock (fun pos => records (k_files k) !! pos) blocks block (k_pindex k) (k_state k) = Ok (DISCONNECT_OK, s') /\
    inv (view s') /\ abs (view s') ≡ abs (view s).
Proof.
  intros Hc Hskip Hh Hgen Hhash Hpos Hfile Hprev Hb Hi Hat. unfold ConnectBlock.
  destruct (CheckBlock _ _ _ _ _) as [st'| | |]; [|done..]. cbn [mbind outcome_bind].
  destruct (pprev pindex) as [id|] eqn:Epp; [|done]. rewrite Hprev. cbn [on_coins mbind outcome_bind].
  destruct (GetBestBlock (view s)) as [best v] eqn:Eb.
  destruct (cache_GetBestBlock_ok root storable tree_ok empty_root _ best v Hi Eb) as [-> Hs]. fold contents in Hs |- *.
  pose proof Hs as [Hiv Ev]. pose proof Ev as (Evu & Evb & Evk & Evn & Eva).
  rewrite (bool_decide_eq_false_2 _ Hgen). case_bool_decide as Hbest; cbn [cassert mbind outcome_bind]; [|done].
  assert (stands_at prev block (abs v)) as Hatv by (eapply stands_at_ext; [|exact Hat]; symmetry; exact Ev).
  pose proof (connect_checked_from block st' pindex v false Hskip Hb Hiv (at_new _ _ _ Hatv)) as Hcc.
  destruct (connect_checked _ _ _ _ _) as [c| | |]; [|done..]. cbn [when_ok mbind outcome_bind] in Hcc |- *.
  destruct (write_undo _ _ _ _ _ _ _ _) as [[pindex' files']| | |] eqn:Ew; [|done..]. cbn [mbind outcome_bind].
  destruct (write_indexes _ _ _ _ _ _ _ _) as [db| | |]; [|done..]. cbn [mbind outcome_bind]. intros [= <-].
  cbn [k_files k_pindex k_state].
  destruct (write_undo_written _ _ _ _ _ _ Hpos Ew) as (prev' & pos & Hprev' & Hpos' & Hrec & Epp' & Eh & Ehash).
  rewrite Epp, Hprev in Hprev'. injection Hprev' as <-. rewrite <- Eh in *. rewrite Epp in Epp'. rewrite <- Ehash in Hhash.
  destruct (connected_chain _ _ _ _ _ Hcc (block_cmus _ _ Hb) Hhash Hiv (at_notes _ _ _ Hatv) (at_anchor_some _ _ _ Hatv)) as (Hi' & Hr & b & E').
  destruct Hcc as (t & v1 & _ & _ & Hknown & _ & _ & _ & _ & uss & Hall & Hu). destruct (best_hashes_ok root storable tree_ok empty_root v Hiv) as [Hhb Hha].
  fold contents in Hhb, Hha. pose proof (block_txs _ _ Hb) as Hf. pose proof (all_spend_length _ _ _ _ Hall) as Hlen.
  destruct (DisconnectBlock_restores (fun pos => records files' !! pos) block pindex' prev
    (ChainState (SetBestBlock (blockHash pindex') (c_view c)) (accumulator_checksums chainparams DataBaseAccChecksum WipeAccChecksums pindex'
      (zerocoin_databases WriteCoinSpendBatch WriteCoinMintBatch pindex' c (zerocoinDB s))) (g_budgetman s) db)
    (abs v) b uss Hb Hh) with (root (sapling_tree c)) as (s' & Es & His & Eas); try done.
  - by rewrite Hpos'.
  - by rewrite Epp'.
  - rewrite Hpos'. eexists. split; [exact Hrec|]. rewrite Hu. apply UndoRead_written; [done|]. split.
    + pose proof (block_size _ _ Hb). rewrite length_drop. lia.
    + apply Forall_drop. exact (undo_wire _ _ _ _ Hh Hf (at_coins _ _ _ Hatv) Hall).
  - by rewrite Evb.
  - by apply (empty_root_known root storable tree_ok empty_root).
  - exists s'. split; [exact Es|]. split; [done|]. by rewrite Eas.
Qed.
End Undone.
End Block.

(** ** An example: a block with a coinbase and a payment *)

Section Examples.
#[local] Existing Instances sample_view sample_abs sample_ok sample_cache_abs.

(** The commitment tree of the examples, with its own [append]. *)
Definition sample_append (t : IncrementalMerkleTree) (cm : uint256) : chk IncrementalMerkleTree :=
  on_coins (MerkleTree.append sample_combine 4 cm t).

Lemma sample_combine_ok a b d : hash_ok a -> hash_ok b -> hash_ok (sample_combine a b d).
Proof. intros Ha Hb. unfold hash_ok, sample_combine. rewrite length_zip_with, Ha, Hb. reflexivity. Qed.
Lemma sample_empty_ok d : hash_ok (sample_empty d).
Proof. induction d as [|d IH]; [done|]. by apply sample_combine_ok. Qed.
#[local] Hint Resolve sample_combine_ok sample_empty_ok : core.

Lemma sample_append_ok t cm t' : sample_tree_ok t -> hash_ok cm -> sample_append t cm = Ok t' -> sample_tree_ok t'.
Proof.
  destruct t as [l r ps]. intros [(Hl & Hr & [_ Hp] & Hwf) _] Hcm. cbn [left right parents] in *.
  assert (length ps < 4)%nat as Hlen by (apply Nat.nle_gt; intros Hle%leb_correct; unfold wfcheck in Hwf; cbn [parents] in Hwf; by rewrite Hle in Hwf).
  destruct ps as [|p0 [|p1 [|p2 [|]]]]; [| | | |cbn in Hlen; lia];
    repeat match goal with H : Forall _ (_ :: _) |- _ => apply Forall_cons in H as [? ?] end;
    repeat match goal with o : option _ |- _ => destruct o end; try discriminate Hwf;
    cbn -[sample_combine]; try discriminate; intros [= <-];
    repeat match goal with H : wire hash_opt_c (Some ?x) |- _ => change (hash_ok x) in H end;
    (split; [|refine (_ : hash_ok _); unfold sample_root, root, root_with; cbn -[sample_combine sample_empty]; auto 12]);
    (split; [|split; [|split; [split|]]]); try exact I; try (vm_compute; discriminate);
    repeat constructor; try exact I; try (refine (_ : hash_ok _)); auto 12.
Qed.

(** A coin that is not a coinbase, and the cache that holds it. *)
Definition example_coin : Coin := MkCoin false false (TxOut 150000000 [OP_1] NULL_ROUNDS) 10.
Definition example_cache : CCoinsViewCache IncrementalMerkleTree CCoinsViewDB :=
  Cache CCoinsViewDB sample_db (leaf 1) {[sample_outpoint := CacheEntry example_coin true true]} (sample_empty 4) ∅ ∅.

Lemma example_coin_fits : coin_fits sample_curve example_coin.
Proof.
  split; [reflexivity|]. split; [discriminate|]. split; [cbn; lia|].
  split; [vm_compute; split; discriminate|split; [vm_compute; discriminate|reflexivity]].
Qed.
Lemma example_cache_inv : inv example_cache.
Proof.
  split_and!; [apply sample_db_inv|done|done| |apply map_Forall_empty|apply map_Forall_empty].
  cbn [cacheCoins example_cache]. apply map_Forall_singleton. unfold coin_cached, coin_entry_ok.
  split; [split; [exact sample_outpoint_ok|split]|].
  - intros _ _. apply example_coin_fits.
  - intros _. exact (sample_utxo_empty _).
  - intros Hd. discriminate Hd.
Qed.
Lemma example_utxo o : utxo (abs example_cache) o = if decide (o = sample_outpoint) then Some example_coin else None.
Proof.
  cbn [utxo abs sample_cache_abs CCoinsViewCache_abs cache_abs cacheCoins example_cache].
  destruct (decide (o = sample_outpoint)) as [->|Hne]; [by rewrite lookup_singleton_eq|].
  rewrite lookup_singleton_ne by congruence. exact (sample_utxo_empty o).
Qed.

Definition example_coinbase : CTransaction :=
  Transaction 1 0 [TxIn COutPoint_new [1; 100] 0xffffffff] [TxOut 1000 [OP_1] NULL_ROUNDS] 0 None None.
Definition example_payment : CTransaction :=
  Transaction 1 0 [TxIn sample_outpoint [OP_1] 0xffffffff] [TxOut 149990000 [OP_1] NULL_ROUNDS] 0 None None.
Definition example_block : CBlock :=
  Block (BlockHeader 9 (leaf 1) UINT256_ZERO 1600000000 0x1e0ffff0 7 UINT256_ZERO UINT256_ZERO)
    [example_coinbase; example_payment] [].
Definition index_at (hash : uint256) (prev : option positive) (height : Z) : CBlockIndex :=
  BlockIndex hash prev None height 0 0 0 0 0 [] 0 None 9 1600000000 0x1e0ffff0
    (ArithUint256.bu_of_uint64 8 0) 0 0 [] [] 0 [] 0.
Definition example_parent : CBlockIndex := index_at (leaf 1) None 99.
Definition example_blocks : store := {[ 1%positive := example_parent ]}.
Definition example_pindex : CBlockIndex := index_at (leaf 5) (Some 1%positive) 100.
Definition example_state : chainstate IncrementalMerkleTree CCoinsViewDB unit unit :=
  ChainState example_cache tt tt (Indexes ∅ ∅ ∅ ∅ ∅ ∅).

Definition example_connect : chk (connected (ZDB := unit) (BM := unit)) :=
  ConnectBlock sample_root sample_append mainChainParams ∅ sample_curve [1; 2; 3; 4] (fun _ d => Hash [d]) 0 (fun _ => true) true
    (fun _ _ _ _ => true) {[ leaf 1 := 1%positive ]} example_blocks (fun _ st _ _ _ => Ok st)
    (fun b => header_GetHash id id id id id id (header b)) 0 0 false 2000000000 2000000000 0
    (fun _ expected minted => Ok (minted <=? expected)) true true true true (fun _ => true)
    (fun _ _ => Ok []) (fun _ _ _ _ => Ok (0, [])) (fun _ => None) false (fun (_ : list unit) z => z) (fun (_ : list unit) z => z)
    (fun _ _ z => z) (fun z => z) example_block CValidationState_new example_pindex example_state (UndoStore ∅ (fun _ => 0)) false.

Lemma example_connects : is_ok example_connect = true.
Proof. vm_compute. reflexivity. Qed.

Lemma example_out_fits v cb cs :
  v = 1000 \/ v = 149990000 ->
  CTxOut_IsNull (TxOut v [OP_1] NULL_ROUNDS) = false /\
  (never_added (TxOut v [OP_1] NULL_ROUNDS) = false -> coin_wire sample_curve (MkCoin cb cs (TxOut v [OP_1] NULL_ROUNDS) (u32 100))).
Proof.
  intros Hv. split; [by destruct Hv as [-> | ->]|]. intros _. split; [vm_compute; split; [discriminate|reflexivity]|].
  destruct Hv as [-> | ->]; (split; [vm_compute; split; discriminate|split; [vm_compute; discriminate|reflexivity]]).
Qed.
(** A transaction of one transparent input and one output. *)
Lemma example_tx_fits i v :
  outpoint_ok (prevout i) -> v = 1000 \/ v = 149990000 -> CTxIn_IsZerocoinSpend i = false ->
  let tx := Transaction 1 0 [i] [TxOut v [OP_1] NULL_ROUNDS] 0 None None in
  ContainsZerocoins tx = false -> tx_fits sample_curve 100 tx.
Proof.
  intros Hi Hv Hzi tx Hz. split; cbn [vin vout sapData tx map].
  - exact Hz.
  - by constructor.
  - apply NoDup_singleton.
  - vm_compute. discriminate.
  - exact I.
  - intros _. reflexivity.
  - intros _. reflexivity.
  - vm_compute. discriminate.
  - constructor; [|constructor]. by apply example_out_fits.
Qed.
Lemma example_fits : block_fits sample_curve 100 example_block.
Proof.
  split.
  - constructor; [|constructor; [|constructor]]; apply example_tx_fits; try reflexivity; [|by left|exact sample_outpoint_ok|by right].
    split; [reflexivity|]. vm_compute. split; [discriminate|reflexivity].
  - intros [|[|i]] tx [= <-]; reflexivity.
  - discriminate.
  - vm_compute. discriminate.
  - apply (bool_decide_unpack _). vm_compute. exact I.
  - constructor.
Qed.
Lemma example_new tx : GetHash tx ≠ replicate 32 7 -> fresh (abs example_cache) tx.
Proof.
  intros Hn j. etransitivity; [apply example_utxo|]. rewrite decide_False; [reflexivity|]. intros E. apply Hn. exact (f_equal out_hash E).
Qed.
Lemma example_stands : stands_at sample_root sample_tree_ok (sample_empty 4) sample_append sample_curve mainChainParams
  example_parent example_block (abs example_cache).
Proof.
  split.
  - reflexivity.
  - reflexivity.
  - reflexivity.
  - intros o co. rewrite example_utxo. destruct (decide _); [|done]. intros [= <-]. exact example_coin_fits.
  - constructor; [|constructor; [|constructor]]; apply example_new; vm_compute; discriminate.
  - intros t t' _ Hr [= <-]. by left.
Qed.

Lemma DisconnectBlock_undoes_ConnectBlock_witness :
  exists k s', example_connect = Ok k /\
    DisconnectBlock tree_new (sample_empty 4) mainChainParams (fun _ z => (true, z)) (fun _ _ z => z) (fun _ z => z) true true sample_curve
      (fun pos => records (k_files k) !! pos) example_blocks example_block (k_pindex k) (k_state k) = Ok (DISCONNECT_OK, s') /\
    utxo (abs (view s')) sample_outpoint = Some example_coin.
Proof.
  pose proof example_connects as Hok. destruct example_connect as [k| | |] eqn:E; [|discriminate Hok..]. exists k.
  destruct (DisconnectBlock_undoes_ConnectBlock tree_new sample_root sample_tree_ok (sample_empty 4) sample_append sample_curve
    mainChainParams ∅ [1; 2; 3; 4] (fun _ d => Hash [d]) 0 (fun _ => true) true (fun _ _ _ _ => true) {[ leaf 1 := 1%positive ]}
    example_blocks (fun _ st _ _ _ => Ok st) (fun b => header_GetHash id id id id id id (header b)) 0 0 false 2000000000 2000000000 0
    (fun _ expected minted => Ok (minted <=? expected)) true true true true (fun _ => true)
    (fun _ _ => Ok []) (fun _ _ _ _ => Ok (0, [])) (fun _ => None) false (fun (_ : list unit) z => z) (fun (_ : list unit) z => z)
    (fun _ _ z => z) (fun z => z) (fun _ z => (true, z)) (fun _ z => z) (fun _ _ _ => eq_refl) (fun t Ht => proj2 Ht) sample_append_ok
    example_block CValidationState_new example_pindex example_parent example_state (UndoStore ∅ (fun _ => 0)) k sample_curve_ok)
    as (s' & Hs & _ & Hu & _).
  - apply Forall_true. intros tx _ j. apply not_elem_of_empty.
  - vm_compute. discriminate.
  - vm_compute. discriminate.
  - reflexivity.
  - reflexivity.
  - discriminate.
  - reflexivity.
  - exact example_fits.
  - exact example_cache_inv.
  - exact example_stands.
  - exact E.
  - exists s'. split; [reflexivity|]. split; [exact Hs|]. etransitivity; [apply Hu|]. exact (example_utxo sample_outpoint).
Defined.
End Examples.
