(* ===== verification/Payments.v ===== *)
(** * Payments to masternodes: masternode-payments.cpp

    The votes for the payees of blocks, the choice of a payee, the outputs that
    pay it and the check of a block against them.  What other parts of the node
    say is an argument: the list of masternodes with their ranks and keys, the
    synchronisation, the sporks, the budget manager and the money supply.
    Messages to peers are a list of actions. *)
From S2P Require Import Prelude Serialize Hash Params Script Standard Transaction Block Subsidy.

(** ** Votes *)

Record CMasternodePayee := MasternodePayee { payee_scriptPubKey : CScript; nVotes : Z }.

Record CMasternodeBlockPayees := BlockPayees { payees_nBlockHeight : Z; vecPayments : list CMasternodePayee }.

Fixpoint add_payee (payeeIn : CScript) (nIncrement : Z) (l : list CMasternodePayee) : list CMasternodePayee :=
  match l with
  | [] => [MasternodePayee payeeIn nIncrement]
  | p :: l =>
      if bool_decide (payee_scriptPubKey p = payeeIn)
      then MasternodePayee (payee_scriptPubKey p) (i32 (nVotes p + nIncrement)) :: l
      else p :: add_payee payeeIn nIncrement l
  end.
Definition AddPayee (payeeIn : CScript) (nIncrement : Z) (b : CMasternodeBlockPayees) : CMasternodeBlockPayees :=
  BlockPayees (payees_nBlockHeight b) (add_payee payeeIn nIncrement (vecPayments b)).

(** The loop of [GetPayee]: the payee so far and its votes, -1 in the beginning. *)
Definition best_payee (l : list CMasternodePayee) (best : CScript * Z) : CScript * Z :=
  fold_left (fun best p => if best.2 <? nVotes p then (payee_scriptPubKey p, nVotes p) else best) l best.
Definition GetPayee (b : CMasternodeBlockPayees) : option CScript :=
  let '(payee, nVotes) := best_payee (vecPayments b) ([], -1) in
  if -1 <? nVotes then Some payee else None.

Definition HasPayeeWithVotes (payee : CScript) (nVotesReq : Z) (b : CMasternodeBlockPayees) : bool :=
  existsb (fun p => (nVotesReq <=? nVotes p) && bool_decide (payee_scriptPubKey p = payee)) (vecPayments b).

Definition MNPAYMENTS_SIGNATURES_REQUIRED : Z := 6.
Definition MNPAYMENTS_SIGNATURES_TOTAL : Z := 10.

(** The most votes of a payee that has enough. *)
Definition nMaxSignatures (l : list CMasternodePayee) : Z :=
  fold_left (fun n p => if (n <=? nVotes p) && (MNPAYMENTS_SIGNATURES_REQUIRED <=? nVotes p) then nVotes p else n) l 0.

(** Whether an output pays the required amount to the payee. *)
Definition pays (vout : list CTxOut) (required : CAmount) (p : CMasternodePayee) : bool :=
  existsb (fun out => bool_decide (payee_scriptPubKey p = scriptPubKey out) && (nValue out =? required)) vout.

Definition BlockPayees_IsTransactionValid {E} (consensus : Params) (nMoneySupply : CAmount) (b : CMasternodeBlockPayees)
    (vout : list CTxOut) : outcome E bool :=
  if nMaxSignatures (vecPayments b) <? MNPAYMENTS_SIGNATURES_REQUIRED then Ok true else
  requiredMasternodePayment ← GetMasternodePayment consensus nMoneySupply (payees_nBlockHeight b);
  Ok (existsb (fun p => (MNPAYMENTS_SIGNATURES_REQUIRED <=? nVotes p) && pays vout requiredMasternodePayment p) (vecPayments b)).

Definition MESS_VER_STRMESS : Z := 0.
Definition MESS_VER_HASH : Z := 1.

Record CMasternodePaymentWinner := Winner {
  vinMasternode : CTxIn;
  winner_nBlockHeight : Z;
  payee : CScript;
  vchSig : list Z;
  nMessVersion : Z;
}.

Definition Winner_GetHash (w : CMasternodePaymentWinner) : uint256 :=
  Hash [ser bytes_c (payee w); ser int32_c (winner_nBlockHeight w); ser COutPoint_c (prevout (vinMasternode w))].

(** ** The state *)

Record CMasternodePayments := Payments {
  nLastBlockHeight : Z;
  mapMasternodePayeeVotes : gmap (list Z) CMasternodePaymentWinner;
  mapMasternodeBlocks : gmap Z CMasternodeBlockPayees;
  mapMasternodesLastVote : gmap COutPoint Z;
}.
Definition CMasternodePayments_new : CMasternodePayments := Payments 0 ∅ ∅ ∅.

Definition Clear (m : CMasternodePayments) : CMasternodePayments :=
  Payments (nLastBlockHeight m) ∅ ∅ (mapMasternodesLastVote m).

Definition AddWinningMasternode (GetBestHeight : Z) (winnerIn : CMasternodePaymentWinner) (m : CMasternodePayments)
  : bool * CMasternodePayments :=
  let h := winner_nBlockHeight winnerIn in
  if GetBestHeight + 1 <? h - 100 then (false, m) else
  match mapMasternodePayeeVotes m !! Winner_GetHash winnerIn with
  | Some _ => (false, m)
  | None =>
      let b := default (BlockPayees h []) (mapMasternodeBlocks m !! h) in
      (true, Payments (nLastBlockHeight m) (<[Winner_GetHash winnerIn := winnerIn]> (mapMasternodePayeeVotes m))
               (<[h := AddPayee (payee winnerIn) 1 b]> (mapMasternodeBlocks m)) (mapMasternodesLastVote m))
  end.

Definition GetBlockPayee (m : CMasternodePayments) (nBlockHeight : Z) : option CScript :=
  mapMasternodeBlocks m !! nBlockHeight ≫= GetPayee.

Definition IsTransactionValid {E} (consensus : Params) (nMoneySupply : CAmount) (m : CMasternodePayments) (vout : list CTxOut)
    (nBlockHeight : Z) : outcome E bool :=
  match mapMasternodeBlocks m !! nBlockHeight with
  | Some b => BlockPayees_IsTransactionValid consensus nMoneySupply b vout
  | None => Ok true
  end.

(** [mnpayee] is the script of the masternode. *)
Definition IsScheduled (GetBestHeight : Z) (mnpayee : CScript) (nNotBlockHeight : Z) (m : CMasternodePayments) : bool :=
  existsb (fun i => let h := GetBestHeight + Z.of_nat i in
             negb (h =? nNotBlockHeight) && bool_decide (GetBlockPayee m h = Some mnpayee)) (seq 0 9).

Definition CanVote (outMasternode : COutPoint) (nBlockHeight : Z) (m : CMasternodePayments) : bool * CMasternodePayments :=
  if bool_decide (mapMasternodesLastVote m !! outMasternode = Some nBlockHeight) then (false, m)
  else (true, Payments (nLastBlockHeight m) (mapMasternodePayeeVotes m) (mapMasternodeBlocks m)
                (<[outMasternode := nBlockHeight]> (mapMasternodesLastVote m))).

(** [mnCount * 1.25] is exact in a double, and truncated.  The first result are
    the messages whose hashes are forgotten, here and by the synchronisation. *)
Definition CleanPaymentList (mnCount nHeight : Z) (m : CMasternodePayments) : gset (list Z) * CMasternodePayments :=
  let nLimit := Z.max (Z.quot (mnCount * 5) 4) 1000 in
  let old (w : CMasternodePaymentWinner) : bool := nLimit <? nHeight - winner_nBlockHeight w in
  let erased := filter (fun kw => old kw.2) (mapMasternodePayeeVotes m) in
  (dom erased,
   Payments (nLastBlockHeight m) (filter (fun kw => negb (old kw.2)) (mapMasternodePayeeVotes m))
     (filter (fun hb => negb (existsb (fun kw => winner_nBlockHeight kw.2 =? hb.1) (map_to_list erased))) (mapMasternodeBlocks m))
     (mapMasternodesLastVote m)).

(** ** A vote arrives, and voting *)

(** What the handlers do to the rest of the node. *)
Inductive action :=
| AddedMasternodeWinner (hash : uint256)
| AskForMN (vin : CTxIn)
| RelayWinner (hash : uint256)
| Misbehaving (howmuch : Z).

Section Node.
(** The masternodes: the key and protocol version of one, and its rank at a
    height, -1 when it is not known. *)
Context {Key : Type} (Find : COutPoint -> option (Key * Z)) (GetMasternodeRank : CTxIn -> Z -> Z).
Context (ActiveProtocol GetBestHeight CountEnabled : Z) (CheckSignature : CMasternodePaymentWinner -> Key -> bool).
Context (IsSynced IsBlockchainSynced fLiteMode : bool).

(** [CMasternodePaymentWinner::IsValid] *)
Definition Winner_IsValid (w : CMasternodePaymentWinner) : bool * list action :=
  match Find (prevout (vinMasternode w)) with
  | None => (false, [AskForMN (vinMasternode w)])
  | Some (_, protocolVersion) =>
      if protocolVersion <? ActiveProtocol then (false, [])
      else (GetMasternodeRank (vinMasternode w) (winner_nBlockHeight w - 100) <=? MNPAYMENTS_SIGNATURES_TOTAL, [])
  end.

(** The branch of [ProcessMessageMasternodePayments] for a vote, from a peer of
    the given version. *)
Definition ProcessWinner (nVersion : Z) (w : CMasternodePaymentWinner) (m : CMasternodePayments) : CMasternodePayments * list action :=
  if negb IsBlockchainSynced || fLiteMode then (m, []) else
  if nVersion <? ActiveProtocol then (m, []) else
  let nHeight := GetBestHeight in
  match mapMasternodePayeeVotes m !! Winner_GetHash w with
  | Some _ => (m, [AddedMasternodeWinner (Winner_GetHash w)])
  | None =>
      let nFirstBlock := Z.quot (nHeight * 4 - CountEnabled * 5) 4 in
      if (winner_nBlockHeight w <? nFirstBlock) || (nHeight + 20 <? winner_nBlockHeight w) then (m, []) else
      if negb (nMessVersion w =? MESS_VER_HASH) then (m, []) else
      let '(valid, asked) := Winner_IsValid w in
      if negb valid then (m, asked) else
      let '(can, m) := CanVote (prevout (vinMasternode w)) (winner_nBlockHeight w) m in
      if negb can then (m, []) else
      if match Find (prevout (vinMasternode w)) with Some (key, _) => CheckSignature w key | None => false end then
        let '(added, m) := AddWinningMasternode GetBestHeight w m in
        (m, if added : bool then [RelayWinner (Winner_GetHash w); AddedMasternodeWinner (Winner_GetHash w)] else [])
      else (m, (if IsSynced then [Misbehaving 20] else []) ++ [AskForMN (vinMasternode w)])
  end.

(** The node votes itself, when it is a masternode: [vin] is its input, [next] the
    script of the masternode whose turn it is, and [Sign] fills in the signature.
    When no masternode is found the vote keeps the height and the payee it was
    made with. *)
Definition ProcessBlock (fMasterNode : bool) (vin : option CTxIn) (IsBudgetPaymentBlock : Z -> bool) (next : Z -> option CScript)
    (Sign : CMasternodePaymentWinner -> option CMasternodePaymentWinner) (nBlockHeight : Z) (m : CMasternodePayments)
  : bool * CMasternodePayments * list action :=
  if negb fMasterNode then (false, m, []) else
  match vin with
  | None => (false, m, [])
  | Some vin =>
      let n := GetMasternodeRank vin (nBlockHeight - 100) in
      if n =? -1 then (false, m, []) else
      if MNPAYMENTS_SIGNATURES_TOTAL <? n then (false, m, []) else
      if nBlockHeight <=? nLastBlockHeight m then (false, m, []) else
      let newWinner :=
        match (if IsBudgetPaymentBlock nBlockHeight then None else next nBlockHeight) with
        | Some payee => Winner vin nBlockHeight payee [] MESS_VER_HASH
        | None => Winner vin 0 [] [] MESS_VER_HASH
        end in
      match Sign newWinner with
      | None => (false, m, [])
      | Some newWinner =>
          let '(added, m) := AddWinningMasternode GetBestHeight newWinner m in
          if added : bool
          then (true, Payments nBlockHeight (mapMasternodePayeeVotes m) (mapMasternodeBlocks m) (mapMasternodesLastVote m),
                [RelayWinner (Winner_GetHash newWinner)])
          else (false, m, [])
      end
  end.

(** The votes a peer is told of, and their number. *)
Definition Sync (nCountNeeded : Z) (m : CMasternodePayments) : list uint256 * Z :=
  let nCountNeeded := Z.min nCountNeeded (Z.quot (CountEnabled * 5) 4) in
  let told := filter (fun kw : list Z * CMasternodePaymentWinner =>
      (GetBestHeight - nCountNeeded <=? winner_nBlockHeight kw.2) && (winner_nBlockHeight kw.2 <=? GetBestHeight + 20))
    (map_to_list (mapMasternodePayeeVotes m)) in
  (map (fun kw => Winner_GetHash kw.2) told, zlen told).
End Node.

(** ** Paying *)

(** [vout[i].nValue -= x] *)
Definition take_from {E} (i : Z) (x : CAmount) (vout : list CTxOut) : outcome E (list CTxOut) :=
  o ← rd vout i;
  v ← int64_result (nValue o - x);
  Ok (<[Z.to_nat i := TxOut v (scriptPubKey o) (nRounds o)]> vout).

(** The loop over [outputs] outputs from number [j] on. *)
Fixpoint take_each {E} (outputs : nat) (j : Z) (split : CAmount) (vout : list CTxOut) : outcome E (list CTxOut) :=
  match outputs with
  | O => Ok vout
  | S outputs => vout ← take_from j split vout; take_each outputs (j + 1) split vout
  end.
Definition take_split {E} (outputs : Z) (x : CAmount) (vout : list CTxOut) : outcome E (list CTxOut) :=
  let split := Z.quot x outputs in
  remainder ← int64_result (x - split * outputs);
  vout ← take_each (Z.to_nat outputs) 1 split vout;
  take_from outputs remainder vout.

(** [vout.resize(n)] *)
Definition resize (n : nat) (vout : list CTxOut) : list CTxOut := take n vout ++ replicate (n - length vout) CTxOut_new.

Section Fill.
Context (consensus : Params) (nMoneySupply : CAmount).
(** The script for the address in the chain parameters. *)
Context (DEV_SCRIPT : CScript).

Definition PushDevFee {E} (vout : list CTxOut) (nHeight : Z) : outcome E (list CTxOut) :=
  nDevFee ← GetDevReward consensus nMoneySupply nHeight;
  Ok (vout ++ [TxOut nDevFee DEV_SCRIPT NULL_ROUNDS]).

(** [current] is the script of the masternode that [GetCurrentMasterNode]
    finds. *)
Definition FillBlockPayee {E} (m : CMasternodePayments) (current : option CScript) (vout : list CTxOut) (nHeight : Z)
    (fProofOfStake : bool) : outcome E (list CTxOut) :=
  if nHeight =? 0 then Ok vout else
  nDevFee ← GetDevReward consensus nMoneySupply nHeight;
  match (match GetBlockPayee m nHeight with Some payee => Some payee | None => current end) with
  | Some payee =>
      masternodePayment ← GetMasternodePayment consensus nMoneySupply nHeight;
      if fProofOfStake then
        let i := zlen vout in
        let vout := vout ++ [TxOut masternodePayment payee NULL_ROUNDS] in
        first ← rd vout 1;
        if CTxOut_IsZerocoinMint first then Ok vout else
        if i =? 2 then
          vout ← take_from (i - 1) masternodePayment vout;
          if 1774000 <=? nHeight then take_from (i - 1) nDevFee vout else Ok vout
        else if 3 <=? i then
          vout ← take_split (i - 1) masternodePayment vout;
          if 1774000 <=? nHeight then take_split (i - 1) nDevFee vout else Ok vout
        else Ok vout
      else
        let vout := <[1%nat := TxOut masternodePayment payee (nRounds (default CTxOut_new (vout !! 1%nat)))]> (resize 2 vout) in
        value ← GetBlockValue consensus nMoneySupply nHeight;
        rest ← int64_result (value - masternodePayment);
        o ← rd vout 0;
        Ok (<[0%nat := TxOut rest (scriptPubKey o) (nRounds o)]> vout)
  | None =>
      let i := zlen vout in
      vout ← PushDevFee vout nHeight;
      take_from i nDevFee vout
  end.

(** The function of the same name outside the class: a superblock is filled by
    the budget manager, which says whether it did. *)
Definition FillBlock {E} (spork_superblocks : bool) (budget_FillBlockPayee : list CTxOut -> Z -> bool -> option (list CTxOut))
    (m : CMasternodePayments) (current : option CScript) (vout : list CTxOut) (nHeight : Z) (fProofOfStake : bool) : outcome E (list CTxOut) :=
  if nHeight =? 0 then Ok vout else
  match (if spork_superblocks then budget_FillBlockPayee vout nHeight fProofOfStake else None) with
  | Some vout => Ok vout
  | None => FillBlockPayee m current vout nHeight fProofOfStake
  end.
End Fill.

(** ** A block is checked *)

Inductive TrxValidationStatus := TrxInValid | TrxValid | TrxDoublePayment | TrxVoteThreshold.

Section Check.
Context (consensus : Params) (nMoneySupply : CAmount).
Context (IsSynced : bool) (spork_superblocks spork_budget_enforcement spork_payment_enforcement : bool).
Context (IsBudgetPaymentBlock : Z -> bool) (budget_IsTransactionValid : CTransaction -> CBlock -> Z -> TrxValidationStatus).

Definition IsBlockPayeeValid {E} (m : CMasternodePayments) (block : CBlock) (nBlockHeight : Z) : outcome E bool :=
  if negb IsSynced then Ok true else
  txNew ← rd (vtx block) (if NetworkUpgradeActive consensus nBlockHeight UPGRADE_POS then 1 else 0);
  let transactionStatus : option TrxValidationStatus :=
    if spork_superblocks && IsBudgetPaymentBlock nBlockHeight
    then Some (budget_IsTransactionValid txNew block nBlockHeight) else None in
  match transactionStatus with
  | Some TrxValid => Ok true
  | _ =>
      if match transactionStatus with Some TrxInValid => spork_budget_enforcement | _ => false end then Ok false else
      valid ← IsTransactionValid consensus nMoneySupply m (vout txNew) nBlockHeight;
      Ok ((valid : bool) || negb spork_payment_enforcement)
  end.
End Check.

(** ** The votes are counted *)

(** The votes on record for a payee at a height. *)
Definition winners_for (h : Z) (p : CScript) (m : gmap (list Z) CMasternodePaymentWinner) : Z :=
  Z.of_nat (size (filter (fun kw : list Z * _ => winner_nBlockHeight kw.2 = h /\ payee kw.2 = p) m)).
(** The votes that the list of a block gives it. *)
Fixpoint votes_for (p : CScript) (l : list CMasternodePayee) : Z :=
  match l with
  | [] => 0
  | x :: l => (if decide (payee_scriptPubKey x = p) then nVotes x else 0) + votes_for p l
  end.

Record block_tallied (votes : gmap (list Z) CMasternodePaymentWinner) (h : Z) (b : CMasternodeBlockPayees) : Prop := {
  tallied_height : payees_nBlockHeight b = h;
  tallied_payees : NoDup (map payee_scriptPubKey (vecPayments b));
  tallied_positive : Forall (fun x => 0 < nVotes x) (vecPayments b);
  tallied_votes : forall p, votes_for p (vecPayments b) = winners_for h p votes }.
Definition tallied (m : CMasternodePayments) : Prop :=
  map_Forall (block_tallied (mapMasternodePayeeVotes m)) (mapMasternodeBlocks m) /\
  map_Forall (fun _ w => is_Some (mapMasternodeBlocks m !! winner_nBlockHeight w)) (mapMasternodePayeeVotes m).

Lemma winners_insert (h : Z) (p : CScript) (k : list Z) (w : CMasternodePaymentWinner) (m : gmap (list Z) CMasternodePaymentWinner) :
  m !! k = None ->
  winners_for h p (<[k := w]> m) = winners_for h p m + (if decide (winner_nBlockHeight w = h /\ payee w = p) then 1 else 0).
Proof.
  intros Hk. unfold winners_for. destruct (decide _) as [Hd|Hd].
  - rewrite map_filter_insert_True by done. rewrite map_size_insert_None; [lia|]. by apply map_lookup_filter_None_2; left.
  - rewrite map_filter_insert_not' by naive_solver. lia.
Qed.
Lemma winners_le h p m : 0 <= winners_for h p m <= Z.of_nat (size m).
Proof. unfold winners_for. split; [lia|]. apply inj_le, map_subseteq_size, map_filter_subseteq. Qed.
Lemma votes_nonneg p l : Forall (fun x => 0 < nVotes x) l -> 0 <= votes_for p l.
Proof. induction 1; cbn; [lia|]. destruct (decide _); lia. Qed.

Lemma add_payee_votes q l :
  Forall (fun x => 0 < nVotes x < 2 ^ 31 - 1) l ->
  forall p, NoDup (map payee_scriptPubKey l) ->
  votes_for p (add_payee q 1 l) = votes_for p l + (if decide (q = p) then 1 else 0).
Proof.
  intros Hl p. induction Hl as [|x l Hx Hl IH]; intros Hd; cbn [add_payee votes_for payee_scriptPubKey nVotes].
  - destruct (decide _); lia.
  - cbn [map] in Hd. apply NoDup_cons in Hd as [Hni Hd]. case_bool_decide as Hq; cbn [votes_for payee_scriptPubKey nVotes].
    + rewrite wraps_small by (unfold in_s; lia). subst q. destruct (decide _); lia.
    + rewrite IH by done. lia.
Qed.
Lemma add_payee_scripts q n l :
  map payee_scriptPubKey (add_payee q n l) =
    if bool_decide (q ∈ map payee_scriptPubKey l) then map payee_scriptPubKey l else map payee_scriptPubKey l ++ [q].
Proof.
  induction l as [|x l IH]; cbn [add_payee map]; [done|]. destruct (bool_decide_reflect (payee_scriptPubKey x = q)) as [<-|Hne]; cbn [map payee_scriptPubKey].
  - by rewrite bool_decide_eq_true_2 by by left.
  - rewrite IH. case_bool_decide as Hin; [by rewrite bool_decide_eq_true_2 by by right|].
    rewrite bool_decide_eq_false_2; [done|]. by intros [->|?]%elem_of_cons.
Qed.
Lemma add_payee_positive q l :
  Forall (fun x => 0 < nVotes x < 2 ^ 31 - 1) l -> Forall (fun x => 0 < nVotes x) (add_payee q 1 l).
Proof.
  induction 1 as [|x l Hx Hl IH]; cbn [add_payee]; [by repeat constructor|]. case_bool_decide.
  - constructor; [cbn; rewrite wraps_small by (unfold in_s; lia); lia|]. eapply Forall_impl; [exact Hl|]. cbn. lia.
  - constructor; [lia|done].
Qed.

(** The loop keeps the first of the best entries. *)
Lemma best_payee_max l : forall p n,
  let '(p', n') := best_payee l (p, n) in
  n <= n' /\ Forall (fun x => nVotes x <= n') l /\
  ((p', n') = (p, n) \/ exists x, x ∈ l /\ payee_scriptPubKey x = p' /\ nVotes x = n').
Proof.
  induction l as [|x l IH]; intros p n; cbn; [by split_and!; [lia|constructor|left]|].
  destruct (Z.ltb_spec n (nVotes x)) as [Hlt|Hle].
  - specialize (IH (payee_scriptPubKey x) (nVotes x)). fold (best_payee l (payee_scriptPubKey x, nVotes x)).
    destruct (best_payee l _) as [p' n']. destruct IH as (G1 & G2 & G3). split_and!; [lia|by constructor|]. right.
    destruct G3 as [[= -> ->]|(y & Hy & G4)]; [exists x; by split; [left|]|exists y; by split; [right|]].
  - specialize (IH p n). fold (best_payee l (p, n)). destruct (best_payee l _) as [p' n']. destruct IH as (G1 & G2 & G3).
    split_and!; [lia|constructor; [lia|done]|]. destruct G3 as [|(y & Hy & G4)]; [by left|right; exists y; by split; [right|]].
Qed.

Lemma votes_for_none p l : p ∉ map payee_scriptPubKey l -> votes_for p l = 0.
Proof.
  induction l as [|y l IH]; cbn; [done|]. intros [Hne Hni]%not_elem_of_cons.
  rewrite decide_False by congruence. rewrite IH by done. lia.
Qed.
Lemma votes_for_entry l x : NoDup (map payee_scriptPubKey l) -> x ∈ l -> votes_for (payee_scriptPubKey x) l = nVotes x.
Proof.
  induction l as [|y l IH]; cbn [map votes_for]; [by intros ? ?%not_elem_of_nil|].
  intros [Hni Hd]%NoDup_cons [->|Hin]%elem_of_cons.
  - rewrite decide_True by done. rewrite votes_for_none by done. lia.
  - rewrite decide_False, IH by first [done|intros E; apply Hni; rewrite E; by apply list_elem_of_fmap_2]. lia.
Qed.
Lemma votes_for_le l p n : NoDup (map payee_scriptPubKey l) -> 0 <= n -> Forall (fun x => nVotes x <= n) l -> votes_for p l <= n.
Proof.
  intros Hd Hn Hl. destruct (decide (p ∈ map payee_scriptPubKey l)) as [(x & -> & Hx)%list_elem_of_fmap|Hno].
  - rewrite votes_for_entry by done. rewrite Forall_forall in Hl. by apply Hl.
  - by rewrite votes_for_none.
Qed.

Lemma GetPayee_most votes h b :
  block_tallied votes h b ->
  match GetPayee b with
  | Some p => 0 < winners_for h p votes /\ forall q, winners_for h q votes <= winners_for h p votes
  | None => forall q, winners_for h q votes = 0
  end.
Proof.
  intros [_ Hd Hpos Hv]. unfold GetPayee. pose proof (best_payee_max (vecPayments b) [] (-1)) as Hb.
  destruct (best_payee _ _) as [p n]. destruct Hb as (Hn & Hall & Hp). destruct (Z.ltb_spec (-1) n).
  - destruct Hp as [[= -> ->]|(x & Hx & <- & <-)]; [lia|]. rewrite Forall_forall in Hpos. pose proof (Hpos x Hx).
    pose proof (votes_for_entry _ _ Hd Hx) as E. rewrite Hv in E. rewrite E. split; [lia|]. intros q. rewrite <- Hv.
    apply votes_for_le; [done|lia|done].
  - intros q. rewrite <- Hv. destruct (vecPayments b) as [|x l] eqn:El; [done|].
    apply Forall_cons in Hall as [? _]. apply Forall_cons in Hpos as [? _]. lia.
Qed.

Lemma AddPayee_tallied votes h b k w :
  votes !! k = None -> winner_nBlockHeight w = h -> Z.of_nat (size votes) < 2 ^ 31 - 1 ->
  block_tallied votes h b -> block_tallied (<[k := w]> votes) h (AddPayee (payee w) 1 b).
Proof.
  intros Hk Hw Hsize [Hh Hd Hpos Hv].
  assert (Forall (fun x => 0 < nVotes x < 2 ^ 31 - 1) (vecPayments b)) as Hrange.
  { rewrite Forall_forall in *. intros x Hx. split; [by apply Hpos|]. rewrite <- (votes_for_entry _ _ Hd Hx), Hv.
    pose proof (winners_le h (payee_scriptPubKey x) votes). lia. }
  split; cbn [AddPayee payees_nBlockHeight vecPayments].
  - done.
  - rewrite add_payee_scripts. case_bool_decide; [done|]. apply NoDup_app. split_and!; [done| |apply NoDup_singleton].
    intros x Hx Hx'%list_elem_of_singleton. by subst.
  - by apply add_payee_positive.
  - intros p. rewrite add_payee_votes, winners_insert, Hv by done. f_equal.
    destruct (decide (payee w = p)), (decide (winner_nBlockHeight w = h /\ payee w = p)); naive_solver.
Qed.

Lemma block_tallied_ext votes votes' h b :
  (forall p, winners_for h p votes' = winners_for h p votes) -> block_tallied votes h b -> block_tallied votes' h b.
Proof. intros E [G1 G2 G3 G4]. split; [done..|]. intros p. by rewrite E. Qed.

Lemma AddWinningMasternode_tallied best w m :
  tallied m -> Z.of_nat (size (mapMasternodePayeeVotes m)) < 2 ^ 31 - 1 -> tallied (AddWinningMasternode best w m).2.
Proof.
  intros [Hb Hw] Hsize. unfold AddWinningMasternode. destruct (_ <? _); [by split|].
  destruct (mapMasternodePayeeVotes m !! Winner_GetHash w) eqn:Hk; [by split|]. cbn [snd]. split; cbn [mapMasternodePayeeVotes mapMasternodeBlocks].
  - assert (block_tallied (mapMasternodePayeeVotes m) (winner_nBlockHeight w)
              (default (BlockPayees (winner_nBlockHeight w) []) (mapMasternodeBlocks m !! winner_nBlockHeight w))) as Hold.
    { destruct (mapMasternodeBlocks m !! winner_nBlockHeight w) as [b|] eqn:Hl; [by apply Hb|]. split; [done|constructor|constructor|].
      intros p. cbn. unfold winners_for. rewrite map_empty_filter_2; [by rewrite map_size_empty|].
      intros k w' Hw' [E _]. destruct (Hw k w' Hw') as [b Hb']. cbn in E. by rewrite E, Hl in Hb'. }
    intros h b [[<- <-]|[Hne Hl]]%lookup_insert_Some; [by apply AddPayee_tallied|].
    eapply block_tallied_ext; [|by apply Hb]. intros p. rewrite winners_insert by done. rewrite decide_False by naive_solver. lia.
  - apply map_Forall_insert_2; [rewrite lookup_insert_eq; by eexists|]. intros k w' Hl. destruct (Hw k w' Hl) as [b Hb'].
    rewrite lookup_insert_is_Some. destruct (decide (winner_nBlockHeight w = winner_nBlockHeight w')); [by left|right; by split; [|eexists]].
Qed.

Lemma CleanPaymentList_tallied c h m : tallied m -> tallied (CleanPaymentList c h m).2.
Proof.
  intros [Hb Hw]. unfold CleanPaymentList. set (limit := Z.max _ _). cbn zeta. cbn [snd].
  split; cbn [mapMasternodePayeeVotes mapMasternodeBlocks].
  - intros h' b [Hl Hkeep]%map_lookup_filter_Some. cbn in Hkeep. apply Is_true_true, negb_true_iff in Hkeep.
    eapply block_tallied_ext; [|by apply Hb]. intros p. unfold winners_for. do 2 f_equal. apply map_eq. intros k.
    apply option_eq. intros w. rewrite !map_lookup_filter_Some. cbn. split; [naive_solver|]. intros [Hk [Hh Hp]]. split_and!; try done.
    apply Is_true_true, negb_true_iff. destruct (limit <? h - winner_nBlockHeight w) eqn:Hold; [|done]. exfalso.
    apply not_true_iff_false in Hkeep. apply Hkeep.
    apply existsb_exists. exists (k, w). split; [|by apply Z.eqb_eq]. apply list_elem_of_In, elem_of_map_to_list.
    apply map_lookup_filter_Some. cbn. by rewrite Hold.
  - intros k w [Hk Hold]%map_lookup_filter_Some. cbn in Hold. destruct (Hw k w Hk) as [b Hl]. exists b.
    apply map_lookup_filter_Some. split; [done|]. cbn. apply Is_true_true, negb_true_iff, not_true_iff_false.
    intros ([k' w'] & Hin & E)%existsb_exists. apply list_elem_of_In, elem_of_map_to_list, map_lookup_filter_Some in Hin as [_ Hold'].
    cbn in *. apply Z.eqb_eq in E. rewrite E in Hold'. by destruct (_ <? _).
Qed.

(** ** Filling and checking *)

Lemma sum_values_cons o l : sum_values (o :: l) = nValue o + sum_values l.
Proof. done. Qed.
Lemma sum_values_set l n o v :
  l !! n = Some o -> sum_values (<[n := TxOut v (scriptPubKey o) (nRounds o)]> l) = sum_values l - nValue o + v.
Proof.
  revert n. induction l as [|y l IH]; intros [|n] Ho; try done; cbn in Ho.
  - injection Ho as ->. cbn [insert list_insert]. rewrite !sum_values_cons. cbn. lia.
  - cbn [insert list_insert]. rewrite !sum_values_cons. specialize (IH n Ho). etransitivity; [apply f_equal, IH|lia].
Qed.
Lemma sum_values_app l l' : sum_values (l ++ l') = sum_values l + sum_values l'.
Proof. induction l as [|y l IH]; [done|]. cbn [app]. rewrite !sum_values_cons. lia. Qed.

(** Something is taken from output [i], or from outputs of numbers below [i]. *)
Lemma take_from_ok {E} i x vout vout' :
  take_from (E := E) i x vout = Ok vout' ->
  0 <= i < zlen vout /\ length vout' = length vout /\ sum_values vout' = sum_values vout - x /\
  (forall j, j ≠ Z.to_nat i -> vout' !! j = vout !! j).
Proof.
  unfold take_from. destruct (rd vout i) as [o| | |] eqn:Hr; [|done..]. apply rd_Ok_inv in Hr as [Hi Ho]. cbn [mbind outcome_bind].
  unfold int64_result. destruct (decide _); [|done]. intros [= <-]. split; [done|]. split; [by rewrite length_insert|]. split.
  - rewrite (sum_values_set _ _ _ _ Ho). lia.
  - intros j Hj. by apply list_lookup_insert_ne.
Qed.
Lemma take_each_ok {E} n : forall j split vout vout', 0 <= j ->
  take_each (E := E) n j split vout = Ok vout' ->
  length vout' = length vout /\ sum_values vout' = sum_values vout - Z.of_nat n * split /\
  (forall k, (Z.to_nat j + n <= k)%nat -> vout' !! k = vout !! k).
Proof.
  induction n as [|n IH]; intros j split vout vout' Hj; cbn [take_each]; [intros [= <-]; split_and!; [done|lia|done]|].
  destruct (take_from j split vout) as [vout1| | |] eqn:E1; [|done..]. cbn [mbind outcome_bind]. intros E2.
  destruct (take_from_ok _ _ _ _ E1) as (_ & L1 & S1 & O1). destruct (IH (j + 1) split vout1 vout' ltac:(lia) E2) as (L2 & S2 & O2).
  split_and!; [congruence|lia|]. intros k Hk. rewrite O2, O1 by lia. done.
Qed.
Lemma take_split_ok {E} outputs x vout vout' : 0 < outputs ->
  take_split (E := E) outputs x vout = Ok vout' ->
  length vout' = length vout /\ sum_values vout' = sum_values vout - x /\
  (forall k, (Z.to_nat outputs < k)%nat -> vout' !! k = vout !! k).
Proof.
  intros H0. unfold take_split, int64_result at 1. destruct (decide _); [|done]. cbn [mbind outcome_bind].
  destruct (take_each _ _ _ _) as [vout1| | |] eqn:E1; [|done..]. cbn [mbind outcome_bind]. intros E2.
  destruct (take_each_ok _ 1 _ _ _ ltac:(done) E1) as (L1 & S1 & O1). destruct (take_from_ok _ _ _ _ E2) as (_ & L2 & S2 & O2).
  split_and!; [congruence|rewrite Z2Nat.id in S1 by lia; lia|]. intros k Hk. rewrite O2, O1 by lia. done.
Qed.

(** A stake is filled: the payment stands behind the outputs there were. *)
Lemma FillBlockPayee_stake {E} consensus supply dev m current vout nHeight payee vout' :
  nHeight ≠ 0 -> match GetBlockPayee m nHeight with Some p => Some p | None => current end = Some payee ->
  FillBlockPayee (E := E) consensus supply dev m current vout nHeight true = Ok vout' ->
  exists payment fee, GetMasternodePayment (E := E) consensus supply nHeight = Ok payment /\ GetDevReward (E := E) consensus supply nHeight = Ok fee /\
    length vout' = S (length vout) /\ vout' !! length vout = Some (TxOut payment payee NULL_ROUNDS) /\
    ((2 <= length vout)%nat -> (forall first, vout !! 1%nat = Some first -> CTxOut_IsZerocoinMint first = false) ->
     sum_values vout' = sum_values vout - (if 1774000 <=? nHeight then fee else 0)).
Proof.
  intros Hh Hp. unfold FillBlockPayee. rewrite (proj2 (Z.eqb_neq _ _) Hh), Hp.
  destruct (GetDevReward _ _ _) as [fee| | |]; [|done..]. cbn [mbind outcome_bind].
  destruct (GetMasternodePayment _ _ _) as [payment| | |]; [|done..]. cbn [mbind outcome_bind].
  set (o := TxOut payment payee NULL_ROUNDS). intros Hfill. exists payment, fee. split; [done|]. split; [done|]. revert Hfill.
  assert (Hlast : (vout ++ [o]) !! length vout = Some o) by by rewrite lookup_app_r, Nat.sub_diag.
  destruct (rd (vout ++ [o]) 1) as [first| | |] eqn:Hr; [|done..]. apply rd_Ok_inv in Hr as [Hl Hfirst]. cbn [mbind outcome_bind].
  destruct (CTxOut_IsZerocoinMint first) eqn:Hz.
  { intros [= <-]. rewrite length_app. split_and!; [cbn; lia|done|]. intros H2 Hno. exfalso.
    rewrite lookup_app_l in Hfirst by (cbn; lia). rewrite (Hno _ Hfirst) in Hz. done. }
  assert (Hsum : sum_values (vout ++ [o]) = sum_values vout + payment) by (rewrite sum_values_app; cbn; lia).
  assert (Hlen : length (vout ++ [o]) = S (length vout)) by (rewrite length_app; cbn; lia).
  destruct (Z.eqb_spec (zlen vout) 2) as [H2|H2]; [|destruct (Z.leb_spec 3 (zlen vout)) as [H3|H3]].
  - destruct (take_from _ _ (vout ++ [o])) as [l1| | |] eqn:E1; [|done..]. cbn [mbind outcome_bind].
    destruct (take_from_ok _ _ _ _ E1) as (_ & L1 & S1 & O1). specialize (O1 (length vout) ltac:(lia)).
    destruct (1774000 <=? nHeight); [intros E2; destruct (take_from_ok _ _ _ _ E2) as (_ & L2 & S2 & O2); specialize (O2 (length vout) ltac:(lia))|intros [= <-]];
      (split_and!; [congruence|first [by rewrite O2, O1|by rewrite O1]|intros _ _; lia]).
  - destruct (take_split _ _ (vout ++ [o])) as [l1| | |] eqn:E1; [|done..]. cbn [mbind outcome_bind].
    destruct (take_split_ok (zlen vout - 1) _ _ _ ltac:(lia) E1) as (L1 & S1 & O1). specialize (O1 (length vout) ltac:(lia)).
    destruct (1774000 <=? nHeight); [intros E2; destruct (take_split_ok (zlen vout - 1) _ _ _ ltac:(lia) E2) as (L2 & S2 & O2); specialize (O2 (length vout) ltac:(lia))|intros [= <-]];
      (split_and!; [congruence|first [by rewrite O2, O1|by rewrite O1]|intros _ _; lia]).
  - intros [= <-]. split_and!; [done|done|]. intros. lia.
Qed.

Lemma nMaxSignatures_reached l : MNPAYMENTS_SIGNATURES_REQUIRED <= nMaxSignatures l -> Exists (fun x => MNPAYMENTS_SIGNATURES_REQUIRED <= nVotes x) l.
Proof.
  unfold nMaxSignatures. assert (forall n, MNPAYMENTS_SIGNATURES_REQUIRED <= fold_left (fun n p => if (n <=? nVotes p) && (MNPAYMENTS_SIGNATURES_REQUIRED <=? nVotes p) then nVotes p else n) l n ->
    MNPAYMENTS_SIGNATURES_REQUIRED <= n \/ Exists (fun x => MNPAYMENTS_SIGNATURES_REQUIRED <= nVotes x) l) as Hl.
  { induction l as [|x l IH]; intros n; cbn [fold_left]; [by left|]. intros G. destruct (IH _ G) as [G2|G2]; [|right; by right].
    destruct (n <=? nVotes x); cbn [andb] in G2; [|by left]. destruct (Z.leb_spec MNPAYMENTS_SIGNATURES_REQUIRED (nVotes x)); [right; by left|by left]. }
  intros G. destruct (Hl 0 G) as [G2|]; [by apply Zle_not_lt in G2|done].
Qed.

(** The entry of the payee that is chosen has enough votes when any has. *)
Lemma GetPayee_entry b payee :
  GetPayee b = Some payee ->
  exists x, x ∈ vecPayments b /\ payee_scriptPubKey x = payee /\ Forall (fun y => nVotes y <= nVotes x) (vecPayments b).
Proof.
  unfold GetPayee. pose proof (best_payee_max (vecPayments b) [] (-1)) as Hb. destruct (best_payee _ _) as [p n].
  destruct Hb as (_ & Hall & Hp). destruct (Z.ltb_spec (-1) n); [|done]. intros [= <-].
  destruct Hp as [[= -> ->]|(x & Hx & <- & <-)]; [lia|]. by exists x.
Qed.

Lemma pays_output vout required p o : o ∈ vout -> scriptPubKey o = payee_scriptPubKey p -> nValue o = required -> pays vout required p = true.
Proof.
  intros Ho Hs Hv. apply existsb_exists. exists o. split; [by apply list_elem_of_In|]. by rewrite bool_decide_eq_true_2, Hv, Z.eqb_refl.
Qed.

Lemma payee_paid {E} consensus supply m nHeight payee payment vout o :
  tallied m -> GetBlockPayee m nHeight = Some payee ->
  GetMasternodePayment (E := E) consensus supply nHeight = Ok payment -> o ∈ vout -> scriptPubKey o = payee -> nValue o = payment ->
  IsTransactionValid (E := E) consensus supply m vout nHeight = Ok true.
Proof.
  intros [Hb _] Hp Hpay Ho Hs Hv. unfold IsTransactionValid, GetBlockPayee in *. destruct (mapMasternodeBlocks m !! nHeight) as [b|] eqn:Hl; [|done].
  cbn [mbind option_bind] in Hp. destruct (Hb _ _ Hl) as [Hh _ _ _]. unfold BlockPayees_IsTransactionValid. rewrite Hh, Hpay.
  destruct (Z.ltb_spec (nMaxSignatures (vecPayments b)) MNPAYMENTS_SIGNATURES_REQUIRED) as [|Hmax]; [done|]. cbn [mbind outcome_bind]. f_equal.
  apply nMaxSignatures_reached, Exists_exists in Hmax as (y & Hy & Hyv). destruct (GetPayee_entry _ _ Hp) as (x & Hx & <- & Hall).
  apply existsb_exists. exists x. split; [by apply list_elem_of_In|]. rewrite Forall_forall in Hall. specialize (Hall y Hy).
  rewrite (pays_output _ _ _ o) by done. rewrite andb_true_r. apply Z.leb_le. lia.
Qed.

(** The invariant is about two of the tables. *)
Lemma tallied_ext m m' : mapMasternodePayeeVotes m' = mapMasternodePayeeVotes m -> mapMasternodeBlocks m' = mapMasternodeBlocks m -> tallied m -> tallied m'.
Proof. unfold tallied. by intros -> ->. Qed.
Lemma ProcessWinner_tallied {Key} (Find : COutPoint -> option (Key * Z)) rank active best enabled check synced chain lite nVersion w m :
  tallied m -> Z.of_nat (size (mapMasternodePayeeVotes m)) < 2 ^ 31 - 1 ->
  tallied (ProcessWinner Find rank active best enabled check synced chain lite nVersion w m).1.
Proof.
  intros Ht Hs. unfold ProcessWinner. destruct (_ || _); [done|]. destruct (_ <? _); [done|]. destruct (mapMasternodePayeeVotes m !! _); [done|].
  destruct (_ || _); [done|]. destruct (negb _); [done|]. destruct (Winner_IsValid _ _ _ _) as [[] l]; [|done]. cbn [negb].
  unfold CanVote. destruct (bool_decide _); [done|]. cbn [negb].
  set (m1 := Payments _ _ _ _). assert (tallied m1) as Ht1 by (by apply (tallied_ext m)).
  pose proof (AddWinningMasternode_tallied best w m1 Ht1 Hs) as Ha.
  destruct (match Find _ with Some _ => _ | None => _ end); [|done]. by destruct (AddWinningMasternode best w m1) as [[] m2].
Qed.
Lemma ProcessBlock_tallied rank best fMasterNode vin budget next Sign h m :
  tallied m -> Z.of_nat (size (mapMasternodePayeeVotes m)) < 2 ^ 31 - 1 ->
  tallied (ProcessBlock rank best fMasterNode vin budget next Sign h m).1.2.
Proof.
  intros Ht Hs. unfold ProcessBlock. destruct (negb _); [done|]. destruct vin as [vin|]; [|done].
  destruct (_ =? _); [done|]. destruct (_ <? _); [done|]. destruct (_ <=? _); [done|]. destruct (Sign _) as [w|]; [|done].
  pose proof (AddWinningMasternode_tallied best w m Ht Hs) as Ha.
  destruct (AddWinningMasternode best w m) as [[] m2]; cbn [fst snd] in *; [by apply (tallied_ext m2)|done].
Qed.

(** ** The theorems on payments *)

(** C40: the tables of payments agree: for every block and payee the list of the
    block has as many votes as there are votes on record, and this survives a
    vote that is taken in, from a peer or of the node itself, and the removal of
    old votes.  The payee that is chosen
    for a block has the most votes on record for it, and none is chosen only if
    there are no votes. *)
Theorem votes_are_tallied {Key} (Find : COutPoint -> option (Key * Z)) rank active best enabled check synced chain lite (m : CMasternodePayments) :
  tallied m -> Z.of_nat (size (mapMasternodePayeeVotes m)) < 2 ^ 31 - 1 ->
  (forall nVersion w, tallied (ProcessWinner Find rank active best enabled check synced chain lite nVersion w m).1) /\
  (forall fMasterNode vin budget next Sign h, tallied (ProcessBlock rank best fMasterNode vin budget next Sign h m).1.2) /\
  (forall mnCount nHeight, tallied (CleanPaymentList mnCount nHeight m).2) /\ tallied (Clear m) /\
  (forall h, match GetBlockPayee m h with
             | Some p => 0 < winners_for h p (mapMasternodePayeeVotes m) /\
                 forall q, winners_for h q (mapMasternodePayeeVotes m) <= winners_for h p (mapMasternodePayeeVotes m)
             | None => forall q, winners_for h q (mapMasternodePayeeVotes m) = 0
             end).
Proof.
  intros Ht Hs. split_and!.
  - intros nVersion w. by apply ProcessWinner_tallied.
  - intros. by apply ProcessBlock_tallied.
  - intros c h. by apply CleanPaymentList_tallied.
  - split; apply map_Forall_empty.
  - intros h. destruct Ht as [Hb Hw]. unfold GetBlockPayee. destruct (mapMasternodeBlocks m !! h) as [b|] eqn:Hl; cbn [mbind option_bind].
    + by apply GetPayee_most, Hb.
    + intros q. unfold winners_for. rewrite map_empty_filter_2; [by rewrite map_size_empty|].
      intros k w Hk [E _]. destruct (Hw k w Hk) as [b Hb']. cbn in E. by rewrite E, Hl in Hb'.
Qed.

(** A stake that the node fills passes its own check: when votes name a
    payee for the block, what [FillBlockPayee] makes of the outputs satisfies
    [IsTransactionValid], whatever the votes.  The payment is one more output,
    and the outputs together lose nothing before height 1774000; from there on
    they lose the developer reward, which is paid to no one. *)
Theorem FillBlockPayee_passes {E} consensus supply dev m current vout nHeight payee vout' :
  tallied m -> nHeight ≠ 0 -> GetBlockPayee m nHeight = Some payee ->
  FillBlockPayee (E := E) consensus supply dev m current vout nHeight true = Ok vout' ->
  IsTransactionValid (E := E) consensus supply m vout' nHeight = Ok true /\
  exists payment fee, GetMasternodePayment (E := E) consensus supply nHeight = Ok payment /\
    GetDevReward (E := E) consensus supply nHeight = Ok fee /\ last vout' = Some (TxOut payment payee NULL_ROUNDS) /\
    ((2 <= length vout)%nat -> (forall first, vout !! 1%nat = Some first -> CTxOut_IsZerocoinMint first = false) ->
     sum_values vout' = sum_values vout - (if 1774000 <=? nHeight then fee else 0)).
Proof.
  intros Ht Hh Hp Hfill.
  destruct (FillBlockPayee_stake (E := E) consensus supply dev m current vout nHeight payee vout' Hh) as (payment & fee & Hpay & Hfee & Hlen & Hl & Hsum);
    [by rewrite Hp|done|].
  split; [|exists payment, fee; split_and!; try done; rewrite last_lookup, Hlen; exact Hl].
  apply (payee_paid consensus supply m nHeight payee payment vout' (TxOut payment payee NULL_ROUNDS)); try done.
  by eapply list_elem_of_lookup_2.
Qed.

(** A forged vote shuts out the true one: a vote with a bad signature that passes
    the checks before is remembered as the last vote of the masternode, so that
    its own vote for that block is not taken in. *)
Theorem forged_vote_shuts_out {Key} (Find : COutPoint -> option (Key * Z)) rank active best enabled check synced nVersion forged genuine m :
  mapMasternodePayeeVotes m !! Winner_GetHash forged = None ->
  negb ((winner_nBlockHeight forged <? Z.quot (best * 4 - enabled * 5) 4) || (best + 20 <? winner_nBlockHeight forged)) = true ->
  nMessVersion forged = MESS_VER_HASH -> (Winner_IsValid Find rank active forged).1 = true ->
  (forall key, check forged key = false) -> active <= nVersion ->
  prevout (vinMasternode genuine) = prevout (vinMasternode forged) -> winner_nBlockHeight genuine = winner_nBlockHeight forged ->
  let m1 := (ProcessWinner Find rank active best enabled check synced true false nVersion forged m).1 in
  (ProcessWinner Find rank active best enabled check synced true false nVersion genuine m1).1 = m1 /\
  mapMasternodePayeeVotes m1 = mapMasternodePayeeVotes m /\ mapMasternodeBlocks m1 = mapMasternodeBlocks m.
Proof.
  intros Hnew Hrange Hver Hvalid Hbad Hproto Hsame Hheight m1.
  assert (Hm1 : mapMasternodesLastVote m1 !! prevout (vinMasternode forged) = Some (winner_nBlockHeight forged) /\
    mapMasternodePayeeVotes m1 = mapMasternodePayeeVotes m /\ mapMasternodeBlocks m1 = mapMasternodeBlocks m).
  { unfold m1, ProcessWinner. cbn [negb orb]. destruct (Z.ltb_spec nVersion active); [lia|]. rewrite Hnew. apply negb_true_iff in Hrange. rewrite Hrange, Hver.
    change (negb (MESS_VER_HASH =? MESS_VER_HASH)) with false. destruct (Winner_IsValid _ _ _ forged) as [b l]. cbn [fst] in Hvalid. subst b.
    cbn [negb]. unfold CanVote. case_bool_decide as Hlast; cbn [negb fst]; [by split_and!|].
    destruct (Find _) as [[key v]|]; [rewrite Hbad|]; cbn [fst mapMasternodesLastVote mapMasternodePayeeVotes mapMasternodeBlocks];
      (split_and!; [by rewrite lookup_insert_eq|done|done]). }
  destruct Hm1 as (Hlast & Hv & Hb). split; [|done]. clearbody m1. clear Hrange. unfold ProcessWinner. cbn [negb orb]. destruct (nVersion <? active); [done|].
  destruct (mapMasternodePayeeVotes m1 !! _); [done|]. destruct (_ || _); [done|]. destruct (negb (_ =? _)); [done|].
  destruct (Winner_IsValid _ _ _ genuine) as [[] l]; [|done]. cbn [negb]. unfold CanVote. rewrite Hsame, Hheight.
  rewrite bool_decide_eq_true_2 by done. done.
Qed.

(** A block of one transaction at a height of proof of stake is read out of
    range before any payee is looked for. *)
Theorem IsBlockPayeeValid_out_of_range {E} consensus supply super enforce_budget enforce_payment IsBudgetBlock budget_valid m block h :
  NetworkUpgradeActive consensus h UPGRADE_POS = true -> length (vtx block) = 1%nat ->
  IsBlockPayeeValid (E := E) consensus supply true super enforce_budget enforce_payment IsBudgetBlock budget_valid m block h = Abort.
Proof.
  intros Hpos Hl. unfold IsBlockPayeeValid. rewrite Hpos. cbn [negb]. destruct (vtx block) as [|tx [|]]; done.
Qed.

(** ** Concrete instances *)

Definition sample_payee : CScript := [81].
Definition sample_vote (masternode : Z) : CMasternodePaymentWinner := Winner (TxIn (OutPoint (replicate 32 masternode) 0) [] 4294967295) 1800000 sample_payee [] MESS_VER_HASH.
Definition sample_payments : CMasternodePayments :=
  fold_left (fun m masternode => (AddWinningMasternode 1799990 (sample_vote masternode) m).2) [1; 2; 3; 4; 5; 6] CMasternodePayments_new.
Definition sample_stake : list CTxOut := [TxOut 0 [] NULL_ROUNDS; TxOut (5000 * Params.COIN) [82] NULL_ROUNDS; TxOut (5000 * Params.COIN) [82] NULL_ROUNDS].

Lemma AddWinningMasternode_size best w m :
  (size (mapMasternodePayeeVotes (AddWinningMasternode best w m).2) <= S (size (mapMasternodePayeeVotes m)))%nat.
Proof.
  unfold AddWinningMasternode. destruct (_ <? _); [cbn [snd]; lia|].
  destruct (mapMasternodePayeeVotes m !! _) eqn:E; cbn [snd mapMasternodePayeeVotes]; [lia|]. by rewrite map_size_insert_None.
Qed.
Lemma sample_tallied : tallied sample_payments.
Proof.
  unfold sample_payments. assert (tallied CMasternodePayments_new) as Ht by (split; apply map_Forall_empty).
  assert (Z.of_nat (size (mapMasternodePayeeVotes CMasternodePayments_new) + 6) < 2 ^ 31 - 1) as Hs by done.
  change 6%nat with (length [1; 2; 3; 4; 5; 6]) in Hs. revert Ht Hs. generalize CMasternodePayments_new, [1; 2; 3; 4; 5; 6].
  intros m l. revert m. induction l as [|x l IH]; intros m Ht Hs; cbn [fold_left length] in *; [done|].
  apply IH; [apply AddWinningMasternode_tallied; [done|lia]|].
  pose proof (AddWinningMasternode_size 1799990 (sample_vote x) m). lia.
Qed.

Lemma votes_are_tallied_witness :
  tallied sample_payments /\ 0 < winners_for 1800000 sample_payee (mapMasternodePayeeVotes sample_payments).
Proof.
  split; [apply sample_tallied|]. destruct (votes_are_tallied (fun _ => Some (tt, 0)) (fun _ _ => 1) 0 0 0 (fun _ _ => true) true true false sample_payments sample_tallied) as (_ & _ & _ & _ & Hp);
    [vm_compute; reflexivity|].
  specialize (Hp 1800000). assert (GetBlockPayee sample_payments 1800000 = Some sample_payee) as E by (vm_compute; reflexivity).
  rewrite E in Hp. apply Hp.
Defined.

Lemma FillBlockPayee_passes_witness :
  exists vout', FillBlockPayee (E := unit) mainParams 0 [83] sample_payments None sample_stake 1800000 true = Ok vout' /\
    IsTransactionValid (E := unit) mainParams 0 sample_payments vout' 1800000 = Ok true.
Proof.
  eexists. split; [vm_compute; reflexivity|].
  apply (FillBlockPayee_passes (E := unit) mainParams 0 [83] sample_payments None sample_stake 1800000 sample_payee);
    [apply sample_tallied|done|vm_compute; reflexivity|vm_compute; reflexivity].
Defined.
