(* ===== verification/BlockCheck.v ===== *)
(** * Checking blocks: validation.cpp, checkpoints.cpp and blocksignature.cpp

    The checks of a block that need no coins: [CheckBlock], its signature, the
    checkpoints, and the checks of a header and of a block against the block
    before.  What the rest of the node says is an argument: the hash of a block,
    the sporks, the payees ([Payments] has the check), the transactions on disk,
    the time, and the verification of a signature. *)
From Stdlib Require Import SpecFloat.
From stdpp Require Import functions sorting.
From S2P Require Import Prelude Serialize Hash ArithUint256 Params Chain Pow Script Interpreter Standard Transaction.
From S2P Require Import Sighash Block Merkle Coins TxVerify TxInputs Subsidy Connect.

Notation bu := ArithUint256.bu.

(** ** Checkpoints *)

(** [std::map<int, uint256>]: ascending by height. *)
Notation MapCheckpoints := (list (Z * uint256)).

Section Checkpoints.
Context (fEnabled : bool) (checkpoints : MapCheckpoints).

Definition checkpoint_at (nHeight : Z) : option uint256 := snd <$> find (fun c => c.1 =? nHeight) checkpoints.

Definition Checkpoints_CheckBlock (nHeight : Z) (hash : uint256) (fMatchesCheckpoint : bool) : bool :=
  if negb fEnabled then true else
  match checkpoint_at nHeight with
  | None => negb fMatchesCheckpoint
  | Some checkpoint => bool_decide (hash = checkpoint)
  end.

(** [rbegin] of an empty map is undefined. *)
Definition GetTotalBlocksEstimate {E} : outcome E Z :=
  if negb fEnabled then Ok 0 else match last checkpoints with Some c => Ok c.1 | None => Abort end.

Definition GetLastCheckpoint (mapBlockIndex : gmap (list Z) positive) : ptr :=
  if negb fEnabled then None else
  head (omap (fun c : Z * uint256 => mapBlockIndex !! c.2) (reverse checkpoints)).
End Checkpoints.

(** [mapCheckpoints] of chainparams.cpp *)
Definition mainCheckpoints : MapCheckpoints := [
  (0, le_bytes 32 0x00000e697a1e963f6ae8288419ffb0d59de9d232bac8efda8c6491d1c31e3139);
  (1, le_bytes 32 0x000006673841efc8525afb74a6855871bf71c1d1ab6d93cc9d6a45f43bac87b7);
  (2, le_bytes 32 0x00000d46e354372609f5f6c0cf40c46a2c174899d7eeec64514fa16909ef64c9);
  (3, le_bytes 32 0x0000010f6728ecde4e59649bbc9f24f6eeac182c0b42e5b53b508647f4f30611);
  (167, le_bytes 32 0x00000012ba3beedd544c6bc63a98a1f496a64c2817e56fd8547534c93cc891c6);
  (254, le_bytes 32 0x0000001468b048b5f3801f107475691e87a546cdb8a2313391ef54979850d8df);
  (428, le_bytes 32 0x00000040da892adf5afdf02e732e2fa20632947b9a26d994bfc9214a11b56539);
  (499, le_bytes 32 0x00000030e323683107f1c34f6ce4886cf0dd49d7d5df7de525e061a6bb1da0fb);
  (500, le_bytes 32 0x0000007e0194c4abd5692f4264825ac9a6a72f0d38d232faec5eecb0c7f72b9a);
  (501, le_bytes 32 0x6f6f05badd2d9b824749cbee6a732ab46338c563c16162501853a1a2f952f29d);
  (1587, le_bytes 32 0x24a7001a82608901f47dbd693e0e3e72ba5588c4a476d053ffcb8294a9f32ceb);
  (2342, le_bytes 32 0x06b972caff65d145d6714d7e9184f03a4e134f46f2dc599ceaa6fc4b293bf85f);
  (3110, le_bytes 32 0xcc230f6ec71671418af9e75aeed4a9d2671f0a262564b261e013c5e57b34153d);
  (209000, le_bytes 32 0xc46f338ff967b992f4a5b68ddac9b5f30ab2c883e37d71a7b8c1ec97acccdd57)
].

(** ** The signature of a block *)

Section Signature.
Context (g_IsV6Active : bool) (Verify : valtype -> uint256 -> valtype -> bool).
Context (GetBlockHash : CBlock -> uint256).
(** The public key in the zerocoin spend of an input. *)
Context (spend_pubkey : CTxIn -> chk valtype).

(** [CPubKey(begin + n, end)]: from behind the end the first byte is read out of
    range. *)
Definition pubkey_from {E} (l : list Z) (n : Z) : outcome E valtype :=
  if zlen l <? n then Abort else Ok (CPubKey (drop (Z.to_nat n) l)).

Definition CheckBlockSignature (block : CBlock) : chk bool :=
  if IsProofOfWork block then Ok (bool_decide (vchBlockSig block = [])) else
  if bool_decide (vchBlockSig block = []) then Ok false else
  coinstake ← rd (vtx block) 1;
  txin ← rd (vin coinstake) 0;
  pubkey ← (if CTxIn_IsZerocoinSpend txin then (key ← spend_pubkey txin; Ok (Some key)) else
            txout ← rd (vout coinstake) 1;
            r ← Solver g_IsV6Active (scriptPubKey txout) TX_NONSTANDARD [];
            let '(ok, whichType, vSolutions) := r in
            if negb ok then Ok None else
            match whichType with
            | TX_PUBKEY => v ← rd vSolutions 0; Ok (Some (CPubKey v))
            | TX_PUBKEYHASH =>
                if zlen (scriptSig txin) =? 73 then Ok None else
                sig ← rd (scriptSig txin) 0;
                key ← pubkey_from (scriptSig txin) (1 + sig + 1); Ok (Some key)
            | TX_COLDSTAKE =>
                sig ← rd (scriptSig txin) 0;
                flag ← rd (scriptSig txin) (1 + sig);
                key ← pubkey_from (scriptSig txin) (1 + sig + (1 + flag) + 1); Ok (Some key)
            | _ => Ok (Some [])
            end);
  match pubkey with
  | None => Ok false
  | Some pubkey => Ok (PubKey_IsValid pubkey && Verify pubkey (GetBlockHash block) (vchBlockSig block))
  end.
End Signature.

(** ** The checks without context *)

Definition MAX_BLOCK_SIZE_LEGACY : Z := 1000000.
Definition MAX_BLOCK_SHIELDED_TXES_SIZE : Z := 750000.
Definition MAX_BLOCK_SIGOPS_LEGACY : Z := MAX_BLOCK_SIZE_LEGACY / 50.

Definition GetTotalShieldedTxSize (block : CBlock) : Z :=
  fold_left (fun n tx => if IsShieldedTx tx then u32 (n + GetTotalSize tx) else n) (vtx block) 0.

(** The sum of the outputs from the second one. *)
Fixpoint amounts {E} (l : list CTxOut) (amtOut : CAmount) : outcome E CAmount :=
  match l with
  | [] => Ok amtOut
  | o :: l => amtOut ← int64_result (amtOut + nValue o); amounts l amtOut
  end.

Section Check.
Context (chainparams : CChainParams) (g_IsV6Active : bool).
Notation consensus := (consensus chainparams).
(** The node: the money supply, the synchronisation and the sporks. *)
Context (nMoneySupply : CAmount) (IsSynced spork_superblocks spork_coldstaking_maintenance : bool).
Context (IsBudgetPaymentBlock : Z -> bool) (GetTransaction : uint256 -> option CTransaction).

Definition CheckColdStakeFreeOutput {E} (tx : CTransaction) (nHeight : Z) : outcome E bool :=
  if negb (HasP2CSOutputs g_IsV6Active tx) then Ok true else
  let outs := zlen (vout tx) in
  lastOut ← rd (vout tx) (outs - 1);
  if outs <? 3 then Ok true else
  beforeLast ← rd (vout tx) (outs - 2);
  if bool_decide (scriptPubKey lastOut = scriptPubKey beforeLast) then Ok true else
  payment ← GetMasternodePayment consensus nMoneySupply nHeight;
  if nValue lastOut =? payment then Ok true else
  if IsRegTestNet chainparams then Ok false else
  if negb IsSynced then
    i ← rd (vin tx) 0;
    match GetTransaction (out_hash (prevout i)) with
    | None => Ok false
    | Some txPrev =>
        spent ← rd (vout txPrev) (out_n (prevout i));
        value ← GetBlockValue consensus nMoneySupply nHeight;
        amtIn ← int64_result (nValue spent + value);
        amtOut ← amounts (drop 1 (vout tx)) 0;
        Ok (amtOut =? amtIn)
    end
  else Ok (IsBudgetPaymentBlock nHeight && spork_superblocks).

Definition isBlockBetweenFakeSerialAttackRange (nHeight : Z) : bool :=
  String.eqb (strNetworkID chainparams) "main" && (nHeight <=? height_last_ZC_WrappedSerials consensus).

(** The chain. *)
Context (mapBlockIndex : gmap (list Z) positive) (blocks : store) (chainActive : CChain).
Context (IsInitialBlockDownload : bool) (GetTime : Z).
Context (CheckZerocoinSpend : CTransaction -> bool -> CValidationState -> bool -> bool * CValidationState).
Context (GetBlockHash : CBlock -> uint256) (IsBlockPayeeValid : CBlock -> Z -> chk bool).
Context (CheckSignature : CBlock -> chk bool).

(** [CheckProofOfWork] of the hash, as the number it is. *)
Fixpoint limbs_of (n : nat) (bytes : list Z) : bu :=
  match n with O => [] | S n => le_val (take 4 bytes) :: limbs_of n (drop 4 bytes) end.

Definition check_merkle (block : CBlock) (st : CValidationState) (fCheckMerkleRoot : bool) : chk unit :=
  if negb fCheckMerkleRoot then Ok tt else
  r ← on_coins (BlockMerkleRoot block);
  let '(hashMerkleRoot2, mutated) := r in
  if negb (bool_decide (Block.hashMerkleRoot (header block) = hashMerkleRoot2))
  then Err (st_DoS 100 REJECT_INVALID "bad-txnmrklroot" true st) else
  if mutated : bool then Err (st_DoS 100 REJECT_INVALID "bad-txns-duplicate" true st) else Ok tt.

Definition check_structure (block : CBlock) (st : CValidationState) : chk unit :=
  let IsPoS := Block.IsProofOfStake block in
  let nMaxBlockSize := MAX_BLOCK_SIZE_CURRENT in
  let nBlockSize := u32 (zlen (SerializeBlock block)) in
  if bool_decide (vtx block = []) || (nMaxBlockSize <? zlen (vtx block)) || (nMaxBlockSize <? nBlockSize)
  then DoS st 100 REJECT_INVALID "bad-blk-length" else
  if (MAX_BLOCK_SHIELDED_TXES_SIZE <? nBlockSize) && (MAX_BLOCK_SHIELDED_TXES_SIZE <? GetTotalShieldedTxSize block)
  then DoS st 100 REJECT_INVALID "bad-blk-shielded-size" else
  coinbase ← rd (vtx block) 0;
  if negb (IsCoinBase coinbase) then DoS st 100 REJECT_INVALID "bad-cb-missing" else
  if existsb IsCoinBase (drop 1 (vtx block)) then DoS st 100 REJECT_INVALID "bad-cb-multiple" else
  if negb IsPoS then Ok tt else
  if negb (match vout coinbase with [o] => IsEmpty o | _ => false end) then DoS st 100 REJECT_INVALID "bad-cb-pos" else
  coinstake ← rd (vtx block) 1;
  if negb (IsCoinStake coinstake) then DoS st 100 REJECT_INVALID "bad-cs-missing" else
  if existsb IsCoinStake (drop 2 (vtx block)) then DoS st 100 REJECT_INVALID "bad-cs-multiple" else Ok tt.

(** The height the block has if it is put where its header says, 0 if that is
    not known. *)
Definition height_of (block : CBlock) (tip : positive) : chk Z :=
  pindexPrev ← on_coins (deref blocks (Some tip));
  if bool_decide (blockHash pindexPrev = hashPrevBlock (header block)) then Ok (Chain.nHeight pindexPrev + 1) else
  match mapBlockIndex !! hashPrevBlock (header block) with
  | Some p => b ← on_coins (deref blocks (Some p)); Ok (Chain.nHeight b + 1)
  | None => Ok 0
  end.

(** What the payments say: whether cold staking is active, or the reason to
    refuse the block for now. *)
Definition check_payments (block : CBlock) : chk (bool + string) :=
  match default None (last chainActive) with
  | None => Ok (inl true)
  | Some tip =>
      nHeight ← height_of block tip;
      if negb (nHeight =? 0) && negb IsInitialBlockDownload then
        free ← (if Block.IsProofOfStake block then coinstake ← rd (vtx block) 1; CheckColdStakeFreeOutput coinstake nHeight else Ok true);
        if negb free then Ok (inr "bad-p2cs-outs"%string) else
        valid ← IsBlockPayeeValid block nHeight;
        if negb (valid : bool) then Ok (inr "bad-cb-payee"%string) else
        Ok (inl (negb spork_coldstaking_maintenance))
      else Ok (inl true)
  end.

Fixpoint check_transactions (fZerocoinActive : bool) (blockHeight : Z) (fColdStakingActive fSaplingActive : bool)
    (tip_time : option Z) (txs : list CTransaction) (st : CValidationState) : chk CValidationState :=
  match txs with
  | [] => Ok st
  | tx :: txs =>
      st ← (match CheckTransaction consensus g_IsV6Active IsInitialBlockDownload GetTime tip_time CheckZerocoinSpend tx
                    fZerocoinActive st (isBlockBetweenFakeSerialAttackRange blockHeight) fColdStakingActive fSaplingActive with
            | Err st => Err (st_Invalid (chRejectCode st) (strRejectReason st) st)
            | r => r
            end);
      if fSaplingActive && ContainsZerocoins tx then DoS st 100 0 "" else
      check_transactions fZerocoinActive blockHeight fColdStakingActive fSaplingActive tip_time txs st
  end.

Fixpoint total_sigops (txs : list CTransaction) (nSigOps : Z) : chk Z :=
  match txs with
  | [] => Ok nSigOps
  | tx :: txs => n ← GetLegacySigOpCount tx; total_sigops txs (u32 (nSigOps + n))
  end.

(** The end of the check; [fColdStakingActive] is what the payments said. *)
Definition check_contents (block : CBlock) (st : CValidationState) (fCheckSig fColdStakingActive : bool) : chk CValidationState :=
  let fZerocoinActive := ZC_TimeStart consensus <? hd_GetBlockTime (header block) in
  let blockHeight := Height chainActive + 1 in
  let fSaplingActive := NetworkUpgradeActive consensus blockHeight UPGRADE_V5_0 in
  tip_time ← (match default None (last chainActive) with
              | None => Ok None
              | Some tip => b ← on_coins (deref blocks (Some tip)); Ok (Some (nTime b))
              end);
  st ← check_transactions fZerocoinActive blockHeight fColdStakingActive fSaplingActive tip_time (vtx block) st;
  nSigOps ← total_sigops (vtx block) 0;
  if (if fZerocoinActive then MAX_BLOCK_SIGOPS_CURRENT else MAX_BLOCK_SIGOPS_LEGACY) <? nSigOps
  then Err (st_DoS 100 REJECT_INVALID "bad-blk-sigops" true st) else
  good ← (if fCheckSig then CheckSignature block else Ok true);
  if negb (good : bool) then Err (st_DoS 100 REJECT_INVALID "bad-PoS-sig" true st) else Ok st.

(** The check, with the flag [fChecked] of the block and the blocks that were
    rejected so far, [mapRejectedBlocks]. *)
Record checked := Checked {
  c_fChecked : bool;
  c_mapRejectedBlocks : gmap (list Z) Z;
  c_result : chk CValidationState;
}.

Definition CheckBlock (block : CBlock) (fChecked : bool) (mapRejectedBlocks : gmap (list Z) Z) (st : CValidationState)
    (fCheckPOW fCheckMerkleRoot fCheckSig : bool) : checked :=
  if fChecked then Checked fChecked mapRejectedBlocks (Ok st) else
  let before : chk (bool + string) :=
    if negb (Block.IsProofOfStake block) && fCheckPOW
       && negb (CheckProofOfWork chainparams (limbs_of 8 (GetBlockHash block)) (hd_nBits (header block)))
    then DoS st 50 REJECT_INVALID "high-hash" else
    check_merkle block st fCheckMerkleRoot;;
    check_structure block st;;
    check_payments block in
  match before with
  | Ok (inl fColdStakingActive) =>
      let r := check_contents block st fCheckSig fColdStakingActive in
      Checked (is_ok r && fCheckPOW && fCheckMerkleRoot && fCheckSig) mapRejectedBlocks r
  | Ok (inr reason) =>
      Checked fChecked
        (if bool_decide (mapRejectedBlocks !! GetBlockHash block = None) then <[GetBlockHash block := GetTime]> mapRejectedBlocks
         else mapRejectedBlocks)
        (DoS st 0 REJECT_INVALID reason)
  | Err st => Checked fChecked mapRejectedBlocks (Err st)
  | Throw => Checked fChecked mapRejectedBlocks Throw
  | Abort => Checked fChecked mapRejectedBlocks Abort
  end.
End Check.

(** ** The checks against the block before *)

Fixpoint times_256 (k : nat) (d : double) : double :=
  match k with O => d | S k => times_256 k (dmul d (double_of_Z 256)) end.
Fixpoint over_256 (k : nat) (d : double) : double :=
  match k with O => d | S k => over_256 k (SFdiv 53 1024 d (double_of_Z 256)) end.
Definition ConvertBitsToDouble (nBits : Z) : double :=
  let nShift := Z.land (Z.shiftr nBits 24) 0xff in
  let dDiff := SFdiv 53 1024 (double_of_Z 0x0000ffff) (double_of_Z (Z.land nBits 0x00ffffff)) in
  over_256 (Z.to_nat (nShift - 29)) (times_256 (Z.to_nat (29 - nShift)) dDiff).

Section Contextual.
Context (chainparams : CChainParams).
Notation consensus := (consensus chainparams).
Context (blocks : store) (chainActive : CChain) (mapBlockIndex : gmap (list Z) positive).
Context (GetBlockHash : CBlock -> uint256) (GetAdjustedTime : Z).

Definition CheckWork (block : CBlock) (pindexPrev : ptr) : chk bool :=
  match pindexPrev with
  | None => Ok false
  | Some _ =>
      nBitsRequired ← on_coins (GetNextWorkRequired chainparams blocks pindexPrev);
      prev ← on_coins (deref blocks pindexPrev);
      let bits := hd_nBits (header block) in
      if negb (IsRegTestNet chainparams) && IsProofOfWork block && (Chain.nHeight prev + 1 <=? 201) then
        let n1 := ConvertBitsToDouble bits in
        let n2 := ConvertBitsToDouble nBitsRequired in
        Ok (negb (SFltb (dmul n1 (literal 5 1)) (SFabs (SFsub 53 1024 n1 n2))))
      else if bits =? nBitsRequired then Ok true else
      match nDeviantBadBlockTime consensus with
      | None => Abort
      | Some t => Ok (hd_nTime (header block) <? u32 t)
      end
  end.

Definition CheckBlockTime (block : CBlockHeader) (st : CValidationState) (pindexPrev : positive) : chk unit :=
  if IsRegTestNet chainparams then Ok tt else
  prev ← on_coins (deref blocks (Some pindexPrev));
  let blockTime := hd_GetBlockTime block in
  let blockHeight := Chain.nHeight prev + 1 in
  if MaxFutureBlockTime consensus GetAdjustedTime prev <? blockTime then Invalid st REJECT_INVALID "time-too-new" else
  past ← on_coins (MinPastBlockTime consensus blocks pindexPrev);
  if blockTime <=? past then DoS st 50 REJECT_INVALID "time-too-old" else
  if negb (IsValidBlockTimeStamp consensus blockTime blockHeight) then DoS st 100 REJECT_INVALID "invalid-time-mask" else
  Ok tt.

Context (maxreorg : Z) (fEnabled : bool) (checkpoints : MapCheckpoints).

(** The versions that have had their time at a height. *)
Definition outdated (nVersion nHeight : Z) : bool :=
  (nVersion <? 3) && (1 <=? nHeight) ||
  (nVersion <? 4) && NetworkUpgradeActive consensus nHeight UPGRADE_ZC ||
  (nVersion <? 5) && NetworkUpgradeActive consensus nHeight UPGRADE_BIP65 ||
  (nVersion <? 6) && NetworkUpgradeActive consensus nHeight UPGRADE_V3_4 ||
  (nVersion <? 7) && NetworkUpgradeActive consensus nHeight UPGRADE_V4_0 ||
  (nVersion <? 8) && NetworkUpgradeActive consensus nHeight UPGRADE_V5_0.

Definition ContextualCheckBlockHeader (block : CBlock) (st : CValidationState) (pindexPrev : ptr) : chk unit :=
  let hash := GetBlockHash block in
  if bool_decide (hash = hashGenesisBlock consensus) then Ok tt else
  match pindexPrev with
  | None => Abort
  | Some p =>
      prev ← on_coins (deref blocks pindexPrev);
      let nHeight := Chain.nHeight prev + 1 in
      if maxreorg <=? Height chainActive - nHeight then DoS st 1 0 "" else
      CheckBlockTime (header block) st p;;
      if negb (Checkpoints_CheckBlock fEnabled checkpoints nHeight hash false)
      then DoS st 100 REJECT_CHECKPOINT "checkpoint mismatch" else
      old ← (match GetLastCheckpoint fEnabled checkpoints mapBlockIndex with
             | None => Ok false
             | Some c => b ← on_coins (deref blocks (Some c)); Ok (nHeight <? Chain.nHeight b)
             end);
      if old : bool then DoS st 0 0 "" else
      if outdated (hd_nVersion (header block)) nHeight then Invalid st REJECT_OBSOLETE "bad-version" else Ok tt
  end.

(** The check of a transaction at a height is that of [TxVerify], with the
    proofs. *)
Context (IsInitialBlockDownload : bool) (ContextualCheckTx : CTransaction -> CValidationState -> Z -> bool -> bool -> chk unit).

Fixpoint contextual_transactions (nHeight nBlockTime : Z) (txs : list CTransaction) (st : CValidationState) : chk unit :=
  match txs with
  | [] => Ok tt
  | tx :: txs =>
      ContextualCheckTx tx st nHeight true IsInitialBlockDownload;;
      if negb (IsFinalTx GetAdjustedTime tx nHeight nBlockTime) then DoS st 10 REJECT_INVALID "bad-txns-nonfinal" else
      contextual_transactions nHeight nBlockTime txs st
  end.

Definition ContextualCheckBlock (block : CBlock) (st : CValidationState) (pindexPrev : ptr) : chk unit :=
  nHeight ← (match pindexPrev with
             | None => Ok 0
             | Some _ => prev ← on_coins (deref blocks pindexPrev); Ok (Chain.nHeight prev + 1)
             end);
  contextual_transactions nHeight (hd_GetBlockTime (header block)) (vtx block) st;;
  match pindexPrev with
  | None => Ok tt
  | Some _ =>
      coinbase ← rd (vtx block) 0;
      i ← rd (vin coinbase) 0;
      let expect := push_int64 [] nHeight in
      if negb (bool_decide (take (length expect) (scriptSig i) = expect))
      then DoS st 100 REJECT_INVALID "bad-cb-height" else Ok tt
  end.
End Contextual.

(** ** The size of a block and its scripts *)

Definition scripts_of (tx : CTransaction) : list CScript := map scriptSig (vin tx) ++ map scriptPubKey (vout tx).
(** The signature operations of a script, and of a transaction. *)
Definition script_sigops (s : CScript) : Z := match GetSigOpCount (E := CValidationState) s false with Ok k => k | _ => 0 end.
Definition sum_of (l : list Z) : Z := foldr Z.add 0 l.
Definition tx_sigops (tx : CTransaction) : Z := sum_of (map script_sigops (scripts_of tx)).
Definition scripts_size (tx : CTransaction) : Z := sum_of (map (fun s => zlen s) (scripts_of tx)).

Lemma sum_of_app l1 l2 : sum_of (l1 ++ l2) = sum_of l1 + sum_of l2.
Proof. unfold sum_of. induction l1; cbn [foldr app]; lia. Qed.
Lemma sum_of_le {A} (f g : A -> Z) l : Forall (fun x => f x <= g x) l -> sum_of (map f l) <= sum_of (map g l).
Proof. unfold sum_of. induction 1; cbn [foldr map]; lia. Qed.
Lemma sum_of_nonneg {A} (f : A -> Z) l : Forall (fun x => 0 <= f x) l -> 0 <= sum_of (map f l).
Proof. unfold sum_of. induction 1; cbn [foldr map]; lia. Qed.
Lemma sum_of_mul {A} (f : A -> Z) k l : sum_of (map (fun x => k * f x) l) = k * sum_of (map f l).
Proof. unfold sum_of. induction l; cbn [foldr map]; lia. Qed.
Lemma zlen_concat {A B} (f : A -> list B) l : zlen (concat (map f l)) = sum_of (map (fun x => zlen (f x)) l).
Proof. unfold sum_of. induction l; cbn [concat foldr map]; [done|]. rewrite length_app. lia. Qed.

Lemma ser_vector_size {A} (c : codec A) l : sum_of (map (fun x => zlen (ser c x)) l) <= zlen (ser (vector_c c) l).
Proof. unfold vector_c. cbn [ser]. rewrite length_app, <- zlen_concat. lia. Qed.
Lemma scripts_size_tx tx : scripts_size tx <= zlen (SerializeTransaction tx).
Proof.
  unfold scripts_size, scripts_of, SerializeTransaction. rewrite map_app, sum_of_app, !map_map, !length_app.
  assert (sum_of (map (fun i => zlen (scriptSig i)) (vin tx)) <= zlen (ser (vector_c CTxIn_c) (vin tx))).
  { etransitivity; [|apply ser_vector_size]. apply sum_of_le, Forall_forall. intros i _. unfold CTxIn_c, bytes_c. cbn [ser]. rewrite !length_app. lia. }
  assert (sum_of (map (fun o => zlen (scriptPubKey o)) (vout tx)) <= zlen (ser (vector_c CTxOut_c) (vout tx))).
  { etransitivity; [|apply ser_vector_size]. apply sum_of_le, Forall_forall. intros i _. unfold CTxOut_c, bytes_c. cbn [ser]. rewrite !length_app. lia. }
  lia.
Qed.
Lemma scripts_size_block block : sum_of (map scripts_size (vtx block)) <= zlen (SerializeBlock block).
Proof.
  unfold SerializeBlock. rewrite !length_app. pose proof (ser_vector_size transaction_c (vtx block)).
  assert (sum_of (map scripts_size (vtx block)) <= sum_of (map (fun tx => zlen (ser transaction_c tx)) (vtx block))); [|lia].
  apply sum_of_le, Forall_forall. intros tx _. apply scripts_size_tx.
Qed.

Lemma script_sigops_spec s : bytes_ok s -> 20 * zlen s < 2 ^ 32 ->
  GetSigOpCount (E := CValidationState) s false = Ok (script_sigops s) /\ 0 <= script_sigops s <= 20 * zlen s.
Proof.
  intros Hb Hs. destruct (sigop_loop_bounds (E := CValidationState) (length s) s OP_INVALIDOPCODE 0 0) as (a & b & H1 & H2 & H3 & H4); [done|lia|lia|].
  unfold script_sigops. change (GetSigOpCount s false) with (sigop_loop (E := CValidationState) (length s) false s OP_INVALIDOPCODE 0). rewrite H2. split; [done|lia].
Qed.

(** The bytes of the scripts of a transaction are few enough for their operations
    to be counted in 32 bits. *)
Definition scripts_ok (tx : CTransaction) : Prop := Forall bytes_ok (scripts_of tx).

Lemma legacy_sigops_spec l : forall k, Forall bytes_ok l -> 0 <= k -> k + 20 * sum_of (map (fun s => zlen s) l) < 2 ^ 32 ->
  legacy_sigops (E := CValidationState) l k = Ok (k + sum_of (map script_sigops l)) /\
  0 <= sum_of (map script_sigops l) <= 20 * sum_of (map (fun s => zlen s) l).
Proof.
  induction l as [|s l IH]; intros k Hb Hk Hs; cbn [legacy_sigops map sum_of foldr] in *; [split; [f_equal|]; lia|].
  inversion_clear Hb as [|? ? Hb1 Hb2]. fold (sum_of (map (fun s => zlen s) l)) in *. fold (sum_of (map script_sigops l)).
  assert (0 <= sum_of (map (fun s => zlen s) l)) by (apply sum_of_nonneg, Forall_forall; lia).
  destruct (script_sigops_spec s Hb1) as [E Hr]; [lia|]. rewrite E. cbn [mbind outcome_bind].
  rewrite wrapu_small by (unfold in_u; lia). destruct (IH (k + script_sigops s)) as [E2 H2]; [done|lia|lia|].
  rewrite E2. split; [f_equal|]; lia.
Qed.
Lemma GetLegacySigOpCount_spec tx : scripts_ok tx -> 20 * scripts_size tx < 2 ^ 32 ->
  GetLegacySigOpCount (E := CValidationState) tx = Ok (tx_sigops tx) /\ 0 <= tx_sigops tx <= 20 * scripts_size tx.
Proof.
  unfold scripts_ok, tx_sigops, scripts_size, scripts_of, GetLegacySigOpCount. rewrite Forall_app, !map_app, !sum_of_app. intros [H1 H2] Hs.
  assert (0 <= sum_of (map (fun s => zlen s) (map scriptSig (vin tx)))) by (apply sum_of_nonneg, Forall_forall; lia).
  assert (0 <= sum_of (map (fun s => zlen s) (map scriptPubKey (vout tx)))) by (apply sum_of_nonneg, Forall_forall; lia).
  destruct (legacy_sigops_spec (map scriptSig (vin tx)) 0) as [E1 R1]; [done|lia|lia|]. rewrite E1. cbn [mbind outcome_bind].
  destruct (legacy_sigops_spec (map scriptPubKey (vout tx)) (0 + sum_of (map script_sigops (map scriptSig (vin tx))))) as [E2 R2]; [done|lia|lia|].
  rewrite E2. split; [f_equal|]; lia.
Qed.
Lemma total_sigops_spec txs : forall k, Forall scripts_ok txs -> 0 <= k -> k + 20 * sum_of (map scripts_size txs) < 2 ^ 32 ->
  total_sigops txs k = Ok (k + sum_of (map tx_sigops txs)).
Proof.
  induction txs as [|tx txs IH]; intros k Hb Hk Hs; cbn [total_sigops map sum_of foldr] in *; [f_equal; lia|].
  inversion_clear Hb as [|? ? Hb1 Hb2]. fold (sum_of (map scripts_size txs)) in *. fold (sum_of (map tx_sigops txs)).
  assert (Hn : forall tx, 0 <= scripts_size tx) by (intros; apply sum_of_nonneg, Forall_forall; lia).
  assert (0 <= sum_of (map scripts_size txs)) by (apply sum_of_nonneg, Forall_forall; intros; apply Hn). specialize (Hn tx).
  destruct (GetLegacySigOpCount_spec tx Hb1) as [E Hr]; [lia|]. rewrite E. cbn [mbind outcome_bind].
  rewrite wrapu_small by (unfold in_u; lia). rewrite IH by (done || lia). f_equal. lia.
Qed.

(** ** The rules of a block *)

(** The transactions are those of the header, and no duplication is hidden. *)
Definition merkle_rule (block : CBlock) : Prop := BlockMerkleRoot block = Ok (Block.hashMerkleRoot (header block), false).
Definition structure_rule (block : CBlock) : Prop :=
  zlen (SerializeBlock block) <= MAX_BLOCK_SIZE_CURRENT /\ zlen (vtx block) <= MAX_BLOCK_SIZE_CURRENT /\
  (MAX_BLOCK_SHIELDED_TXES_SIZE < zlen (SerializeBlock block) -> GetTotalShieldedTxSize block <= MAX_BLOCK_SHIELDED_TXES_SIZE) /\
  exists coinbase rest, vtx block = coinbase :: rest /\ IsCoinBase coinbase = true /\ Forall (fun tx => IsCoinBase tx = false) rest /\
    (Block.IsProofOfStake block = true ->
     (exists o, vout coinbase = [o] /\ IsEmpty o = true) /\ Forall (fun tx => IsCoinStake tx = false) (drop 1 rest)).

Lemma check_merkle_passes block st f : zlen (vtx block) <= MAX_SIZE -> vtx block <> [] ->
  passes (check_merkle block st f) (fun _ => True) (f = true -> merkle_rule block).
Proof.
  intros Hl Hne. unfold check_merkle. destruct f; cbn [negb]; [|eapply passes_iff; [by apply passes_ret|naive_solver]].
  unfold merkle_rule, BlockMerkleRoot, ComputeMerkleRoot.
  destruct (computation_spec (map GetHash (vtx block)) (u32 (-1))) with (want := false) as (mut & -> & _).
  { rewrite length_map. unfold MAX_SIZE in Hl. lia. }
  { rewrite length_map. by apply zlen_pos. }
  { done. }
  cbn [mbind outcome_bind on_coins fst snd]. case_bool_decide as Hr; cbn [negb]; [|unfold passes; naive_solver congruence].
  destruct mut; unfold passes; [naive_solver congruence|]. split; [done|]. intros _. by rewrite Hr.
Qed.

Lemma coinstake_second block coinbase rest :
  vtx block = coinbase :: rest -> Block.IsProofOfStake block = true -> exists cs txs, rest = cs :: txs /\ IsCoinStake cs = true.
Proof.
  unfold Block.IsProofOfStake. intros ->. destruct rest as [|cs txs]; [done|]. intros [_ Hp]%andb_true_iff. by exists cs, txs.
Qed.

Lemma check_structure_passes block st : zlen (SerializeBlock block) <= MAX_SIZE ->
  passes (check_structure block st) (fun _ => True) (structure_rule block).
Proof.
  intros Hs. unfold check_structure, structure_rule. rewrite wrapu_small by (unfold in_u, MAX_SIZE in *; lia).
  pose proof (coinstake_second block) as Hcs. destruct (vtx block) as [|coinbase rest]; [by intros (_ & _ & _ & ? & ? & ? & _)|].
  change (rd (coinbase :: rest) 0) with (Ok (E := CValidationState) coinbase). cbn [mbind outcome_bind].
  change (drop 1 (coinbase :: rest)) with rest. change (drop 2 (coinbase :: rest)) with (drop 1 rest).
  change (bool_decide (coinbase :: rest = [])) with false. cbn [orb].
  destruct (Block.IsProofOfStake block); cbn [negb].
  - destruct (Hcs coinbase rest eq_refl eq_refl) as (cs & txs & -> & Hc). change (rd (coinbase :: cs :: txs) 1) with (Ok (E := CValidationState) cs).
    change (drop 1 (cs :: txs)) with txs. cbn [mbind outcome_bind]. rewrite Hc. cbn [negb]. eapply passes_iff; [do 6 (apply passes_refuse; intros _); by apply passes_ret|].
    rewrite andb_false_iff, !orb_false_iff, !Z.ltb_ge, !existsb_false, !negb_false_iff. split.
    + intros (? & ? & Hs3 & ? & ? & [= <- <-] & ? & ? & Hp). destruct (Hp eq_refl) as ((o & -> & Ho) & ?). split_and!; try done.
      destruct (Z.le_gt_cases (zlen (SerializeBlock block)) MAX_BLOCK_SHIELDED_TXES_SIZE); [by left|right]. by apply Hs3.
    + intros ((? & ?) & Hs3 & ? & ? & Ho & ? & _). split_and!; try done; [intros ?; destruct Hs3; [lia|done]|].
      exists coinbase, (cs :: txs). split_and!; try done. intros _. split; [|done]. destruct (vout coinbase) as [|o [|]]; try done. by exists o.
  - eapply passes_iff; [do 4 (apply passes_refuse; intros _); by apply passes_ret|].
    rewrite andb_false_iff, !orb_false_iff, !Z.ltb_ge, !existsb_false, !negb_false_iff. split.
    + intros (? & ? & Hs3 & ? & ? & [= <- <-] & ? & ? & _). split_and!; try done.
      destruct (Z.le_gt_cases (zlen (SerializeBlock block)) MAX_BLOCK_SHIELDED_TXES_SIZE); [by left|right]. by apply Hs3.
    + intros ((? & ?) & Hs3 & ? & ? & _). split_and!; try done; [intros ?; destruct Hs3; [lia|done]|]. by exists coinbase, rest.
Qed.

Section Rules.
Context (chainparams : CChainParams) (g_IsV6Active : bool).
Notation consensus := (consensus chainparams).
Context (nMoneySupply : CAmount) (IsSynced spork_superblocks spork_coldstaking_maintenance : bool).
Context (IsBudgetPaymentBlock : Z -> bool) (GetTransaction : uint256 -> option CTransaction).
Context (mapBlockIndex : gmap (list Z) positive) (blocks : store) (chainActive : CChain).
Context (IsInitialBlockDownload : bool) (GetTime : Z).
Context (CheckZerocoinSpend : CTransaction -> bool -> CValidationState -> bool -> bool * CValidationState).
Context (GetBlockHash : CBlock -> uint256) (IsBlockPayeeValid : CBlock -> Z -> chk bool) (CheckSignature : CBlock -> chk bool).
Notation check_payments := (check_payments chainparams g_IsV6Active nMoneySupply IsSynced spork_superblocks
  spork_coldstaking_maintenance IsBudgetPaymentBlock GetTransaction mapBlockIndex blocks chainActive IsInitialBlockDownload IsBlockPayeeValid).
Notation CheckColdStakeFreeOutput := (CheckColdStakeFreeOutput chainparams g_IsV6Active nMoneySupply IsSynced spork_superblocks
  IsBudgetPaymentBlock GetTransaction).
Notation check_transactions := (check_transactions chainparams g_IsV6Active IsInitialBlockDownload GetTime CheckZerocoinSpend).
Notation check_contents := (check_contents chainparams g_IsV6Active blocks chainActive IsInitialBlockDownload GetTime
  CheckZerocoinSpend CheckSignature).
Notation CheckBlock := (CheckBlock chainparams g_IsV6Active nMoneySupply IsSynced spork_superblocks
  spork_coldstaking_maintenance IsBudgetPaymentBlock GetTransaction mapBlockIndex blocks chainActive IsInitialBlockDownload GetTime
  CheckZerocoinSpend GetBlockHash IsBlockPayeeValid CheckSignature).

Definition work_rule (block : CBlock) : Prop :=
  Block.IsProofOfStake block = false -> CheckProofOfWork chainparams (limbs_of 8 (GetBlockHash block)) (hd_nBits (header block)) = true.
Definition contents_rule (block : CBlock) (fColdStakingActive : bool) : Prop :=
  let fZerocoinActive := ZC_TimeStart consensus <? hd_GetBlockTime (header block) in
  let fSaplingActive := NetworkUpgradeActive consensus (Height chainActive + 1) UPGRADE_V5_0 in
  Forall (fun tx => tx_rules consensus g_IsV6Active tx fZerocoinActive fColdStakingActive fSaplingActive /\
                    (fSaplingActive = true -> ContainsZerocoins tx = false)) (vtx block) /\
  sum_of (map tx_sigops (vtx block)) <= (if fZerocoinActive then MAX_BLOCK_SIGOPS_CURRENT else MAX_BLOCK_SIGOPS_LEGACY).

Definition block_rules (block : CBlock) (fCheckPOW fCheckMerkleRoot fCheckSig fColdStakingActive signed : bool) : Prop :=
  (fCheckPOW = true -> work_rule block) /\ (fCheckMerkleRoot = true -> merkle_rule block) /\ structure_rule block /\
  contents_rule block fColdStakingActive /\ (fCheckSig = true -> signed = true).

(** A block as it comes from the network, of transactions without zerocoin
    inputs. *)
Definition block_ok (block : CBlock) : Prop :=
  zlen (SerializeBlock block) <= MAX_SIZE /\ zlen (vtx block) <= MAX_SIZE /\
  Forall (fun tx => scripts_ok tx /\ values_wire tx /\ HasZerocoinSpendInputs tx = false) (vtx block).

Hypothesis Hmax : 0 <= nMaxMoneyOut consensus < 2 ^ 62.
Hypothesis Hzc : 0 <= ZC_MaxSpendsPerTx consensus.

Lemma check_transactions_passes fZerocoin h fCold fSapling tip txs st :
  Forall (fun tx => values_wire tx /\ HasZerocoinSpendInputs tx = false) txs ->
  passes (check_transactions fZerocoin h fCold fSapling tip txs st) (fun st' => st' = st)
    (Forall (fun tx => tx_rules consensus g_IsV6Active tx fZerocoin fCold fSapling /\ (fSapling = true -> ContainsZerocoins tx = false)) txs).
Proof.
  intros Hf. induction Hf as [|tx txs [Hw Hz] Hf IH]; cbn [BlockCheck.check_transactions]; [by split|].
  pose proof (CheckTransaction_passes consensus g_IsV6Active Hmax Hzc IsInitialBlockDownload GetTime tip CheckZerocoinSpend tx fZerocoin st
    (isBlockBetweenFakeSerialAttackRange chainparams h) fCold fSapling Hw Hz) as Hp.
  rewrite Forall_cons. unfold passes in Hp |- *.
  destruct (CheckTransaction _ _ _ _ _ _ _ _ _ _ _ _) as [st'|e| |]; cbn [mbind outcome_bind]; [|tauto|done..]. destruct Hp as [-> Hr].
  destruct fSapling, (ContainsZerocoins tx); cbn [andb]; unfold DoS; try (intros [[_ Hc] _]; by specialize (Hc eq_refl));
    (unfold passes in IH; destruct (check_transactions _ _ _ _ _ txs st); naive_solver).
Qed.

Lemma check_contents_passes block st f cold signed :
  block_ok block -> (f = true -> CheckSignature block = Ok signed) ->
  (match default None (last chainActive) with None => True | Some tip => is_Some (blocks !! tip) end) ->
  passes (check_contents block st f cold) (fun st' => st' = st) (contents_rule block cold /\ (f = true -> signed = true)).
Proof.
  intros (Hs & _ & Ht) Hsig Htip. unfold check_contents, BlockCheck.check_contents, contents_rule.
  set (fz := ZC_TimeStart _ <? _). set (fs := NetworkUpgradeActive _ _ _).
  assert (exists t, (match default None (last chainActive) with
              | None => Ok (E := CValidationState) None
              | Some tip => b ← on_coins (deref blocks (Some tip)); Ok (Some (nTime b))
              end) = Ok t) as [t ->].
  { destruct (default None (last chainActive)) as [tip|]; [|by exists None]. destruct Htip as [b Hb]. unfold deref. rewrite Hb. by exists (Some (nTime b)). }
  cbn [mbind outcome_bind]. eapply passes_iff.
  - eapply passes_bind; [apply check_transactions_passes; eapply Forall_impl; [exact Ht|]; tauto|]. intros ? ->.
    rewrite (total_sigops_spec (vtx block) 0); [|eapply Forall_impl; [exact Ht|]; tauto|done|pose proof (scripts_size_block block); unfold MAX_SIZE in Hs; lia].
    cbn [mbind outcome_bind]. apply passes_refuse. intros _.
    apply (passes_bind (if f then CheckSignature block else Ok true) _ (fun good => good = (if f then signed else true)) True).
    { destruct f; [rewrite (Hsig eq_refl)|]; by split. }
    intros ? ->. apply passes_refuse. intros _. by apply passes_ret.
  - rewrite Z.ltb_ge, negb_false_iff. destruct f; naive_solver.
Qed.

Lemma check_payments_tip block r : check_payments block = Ok r ->
  match default None (last chainActive) with None => True | Some tip => is_Some (blocks !! tip) end.
Proof.
  unfold check_payments, BlockCheck.check_payments. destruct (default None (last chainActive)) as [tip|]; [|done].
  unfold height_of, deref. destruct (blocks !! tip) eqn:E; [done|]. done.
Qed.

Lemma empty_refused block st mer (k : chk (bool + string)) P : zlen (SerializeBlock block) <= MAX_SIZE -> vtx block = [] ->
  passes (check_merkle block st mer;; check_structure block st;; k) P False.
Proof.
  intros Hs He. assert (exists m : chk unit, check_merkle block st mer = m /\ match m with Ok _ | Err _ => True | _ => False end) as (m & -> & Hm).
  { eexists. split; [reflexivity|]. unfold check_merkle. destruct mer; cbn [negb]; [|done]. unfold BlockMerkleRoot. rewrite He.
    change (ComputeMerkleRoot (map GetHash [])) with (Ok (E := unit) (UINT256_ZERO, false)). cbn [mbind outcome_bind on_coins]. by destruct (negb _). }
  unfold passes. destruct m; cbn [mbind outcome_bind]; try tauto. pose proof (check_structure_passes block st Hs) as Hc.
  unfold passes in Hc. destruct (check_structure block st); cbn [mbind outcome_bind]; try tauto.
  destruct Hc as [_ (_ & _ & _ & ? & ? & Hv & _)]. by rewrite He in Hv.
Qed.

(** [CheckBlock] of a block as it comes from the network, where the payments have
    nothing against it, passes exactly the blocks that obey the rules. *)
(** What the payments ask of a block, when its height is known and the node is
    not still downloading: free outputs of a coinstake only where they may be, and
    the payees; and whether cold staking is active for it. *)
Definition payments_rule (block : CBlock) : Prop :=
  match default None (last chainActive) with
  | None => True
  | Some tip => forall h, height_of mapBlockIndex blocks block tip = Ok h -> h <> 0 -> IsInitialBlockDownload = false ->
      (Block.IsProofOfStake block = true -> forall coinstake, vtx block !! 1%nat = Some coinstake -> CheckColdStakeFreeOutput coinstake h = Ok (E := CValidationState) true) /\
      IsBlockPayeeValid block h = Ok true
  end.
Definition cold_staking_active (block : CBlock) : bool :=
  match default None (last chainActive) with
  | None => true
  | Some tip => match height_of mapBlockIndex blocks block tip with
                | Ok h => (h =? 0) || IsInitialBlockDownload || negb spork_coldstaking_maintenance
                | _ => true
                end
  end.
Lemma check_payments_rule block pay : check_payments block = Ok pay ->
  match pay with inl cold => payments_rule block /\ cold = cold_staking_active block | inr _ => ~ payments_rule block end.
Proof.
  unfold check_payments, BlockCheck.check_payments, payments_rule, cold_staking_active. destruct (default None (last chainActive)) as [tip|]; [|by intros [= <-]].
  destruct (height_of _ _ _ _) as [h| | |]; cbn [mbind outcome_bind]; [|done..]. destruct (Z.eqb_spec h 0) as [->|Hh]; cbn [negb andb orb].
  { intros [= <-]. split; [by intros h' [= <-]|done]. }
  destruct IsInitialBlockDownload; cbn [negb andb orb]; [intros [= <-]; by split|].
  destruct (if Block.IsProofOfStake block then _ else _) as [free| | |] eqn:Ef; cbn [mbind outcome_bind]; [|done..]. destruct free; cbn [negb].
  - destruct (IsBlockPayeeValid block h) as [valid| | |] eqn:Ev; cbn [mbind outcome_bind]; [|done..]. destruct valid; cbn [negb]; intros [= <-].
    + split; [|done]. intros h' [= <-] _ _. split; [|done]. intros Hp coinstake Hc. rewrite Hp, (rd_lookup _ 1 _ ltac:(lia) Hc) in Ef. done.
    + intros Hr. destruct (Hr h) as [_ Hv]; [done..|congruence].
  - intros [= <-] Hr. destruct (Block.IsProofOfStake block) eqn:Hp; [|done]. destruct (Hr h) as [Hc _]; [done..|].
    destruct (rd (vtx block) 1) as [coinstake| | |] eqn:Erd; cbn [mbind outcome_bind] in Ef; [|done..]. apply rd_Ok_inv in Erd as [_ Erd].
    rewrite (Hc eq_refl coinstake Erd) in Ef. done.
Qed.

(** The checks before the contents. *)
Lemma before_passes block st pow mer pay : block_ok block -> check_payments block = Ok pay ->
  passes (if negb (Block.IsProofOfStake block) && pow && negb (CheckProofOfWork chainparams (limbs_of 8 (GetBlockHash block)) (hd_nBits (header block)))
          then DoS st 50 REJECT_INVALID "high-hash" else check_merkle block st mer;; check_structure block st;; check_payments block)
    (fun r => r = pay) ((pow = true -> work_rule block) /\ (mer = true -> merkle_rule block) /\ structure_rule block).
Proof.
  intros Hok Hpay. pose proof Hok as (Hs & Hl & _). destruct (decide (vtx block = [])) as [He|Hne].
  - apply (passes_iff _ _ _ (negb (Block.IsProofOfStake block) && pow &&
      negb (CheckProofOfWork chainparams (limbs_of 8 (GetBlockHash block)) (hd_nBits (header block))) = false /\ False)).
    { apply passes_refuse. intros _. by apply empty_refused. }
    split; [|tauto]. intros (_ & _ & (_ & _ & _ & ? & ? & Hv & _)). by rewrite He in Hv.
  - eapply passes_iff.
    + apply passes_refuse. intros _. eapply passes_bind; [by apply check_merkle_passes|]. intros _ _.
      eapply passes_bind; [by apply check_structure_passes|]. intros _ _. rewrite Hpay. by apply passes_ret.
    + unfold work_rule. rewrite !andb_false_iff, !negb_false_iff.
      destruct pow, (Block.IsProofOfStake block), (CheckProofOfWork _ _ _); naive_solver.
Qed.

Lemma CheckBlock_passes block rejected st pow mer sig pay signed :
  block_ok block -> check_payments block = Ok pay -> (sig = true -> CheckSignature block = Ok signed) ->
  let r := CheckBlock block false rejected st pow mer sig in
  passes (c_result r) (fun st' => st' = st) (payments_rule block /\ block_rules block pow mer sig (cold_staking_active block) signed) /\
  c_fChecked r = is_ok (c_result r) && pow && mer && sig /\
  (c_mapRejectedBlocks r = rejected \/
   ~ payments_rule block /\ rejected !! GetBlockHash block = None /\ c_mapRejectedBlocks r = <[GetBlockHash block := GetTime]> rejected).
Proof.
  intros Hok Hpay Hsig. unfold CheckBlock, BlockCheck.CheckBlock. cbn zeta. pose proof (before_passes block st pow mer pay Hok Hpay) as Hb.
  pose proof (check_payments_rule block pay Hpay) as Hrule. unfold passes in Hb. unfold block_rules.
  match type of Hb with match ?m with _ => _ end => destruct m as [r|e| |] end; cbn [c_mapRejectedBlocks c_fChecked c_result is_ok];
    [|split_and!; [unfold passes; tauto|done|by left]|done..].
  destruct Hb as [-> Hb]. destruct pay as [cold|reason]; cbn [c_mapRejectedBlocks c_fChecked c_result].
  - destruct Hrule as [Hrule ->]. split_and!; [|done|by left]. eapply passes_iff; [by apply check_contents_passes, (check_payments_tip block (inl (cold_staking_active block)))|]. tauto.
  - split_and!; [|by cbn|].
    + unfold passes, DoS. tauto.
    + case_bool_decide; [right|by left]. by split_and!.
Qed.

(** A refusal that is not said to be a possible corruption comes after the
    transactions were found to be those of the header, except that of the proof
    of work. *)
Lemma CheckBlock_uncorrupted block rejected st pow sig st' :
  c_result (CheckBlock block false rejected st pow true sig) = Err st' -> corruptionPossible st' = false ->
  strRejectReason st' <> "high-hash"%string -> merkle_rule block.
Proof.
  assert (Hd : forall l c s b st0, corruptionPossible (st_DoS l c s b st0) = b /\ strRejectReason (st_DoS l c s b st0) = s).
  { intros. unfold st_DoS. by destruct (bool_decide _). }
  unfold CheckBlock, BlockCheck.CheckBlock. cbn zeta. destruct (_ && _ && negb _).
  { cbn [DoS c_result]. intros [= <-] _ Hr. exfalso. apply Hr, Hd. }
  assert (Hm : match check_merkle block st true with Ok _ => merkle_rule block | Err st' => corruptionPossible st' = true | _ => True end).
  { unfold check_merkle, merkle_rule. cbn [negb]. destruct (BlockMerkleRoot block) as [[h mutated]| | |]; cbn [on_coins mbind outcome_bind]; [|done..].
    case_bool_decide as Hr; cbn [negb]; [|apply Hd]. destruct mutated; [apply Hd|]. by rewrite Hr. }
  destruct (check_merkle block st true) as [[]|e| |]; cbn [mbind outcome_bind c_result]; [done|intros [= <-] Hc; congruence|done..].
Qed.
(** What a block that passes has in any case. *)
Lemma CheckBlock_backed block rejected st sig st' :
  c_result (CheckBlock block false rejected st true true sig) = Ok st' -> work_rule block /\ merkle_rule block /\ vtx block <> [].
Proof.
  unfold CheckBlock, BlockCheck.CheckBlock. cbn zeta. unfold work_rule. rewrite andb_true_r.
  destruct (negb (Block.IsProofOfStake block) && negb (CheckProofOfWork _ _ _)) eqn:Ew; [done|].
  assert (Hm : match check_merkle block st true with Ok _ => merkle_rule block | _ => True end).
  { unfold check_merkle, merkle_rule. cbn [negb]. destruct (BlockMerkleRoot block) as [[h mutated]| | |]; cbn [on_coins mbind outcome_bind]; [|done..].
    case_bool_decide as Hr; cbn [negb]; [|done]. destruct mutated; [done|]. by rewrite Hr. }
  destruct (check_merkle block st true) as [[]| | |]; cbn [mbind outcome_bind c_result]; [|done..].
  destruct (decide (vtx block = [])) as [He|Hne]; [unfold check_structure; by rewrite (bool_decide_eq_true_2 _ He)|]. intros _. split_and!; [|done..].
  intros Hp. rewrite Hp in Ew. by apply negb_false_iff in Ew.
Qed.
End Rules.

(** ** The height in the coinbase *)

Lemma push_int64_shape h : 0 <= h < 2 ^ 31 ->
  push_int64 [] h = [0] /\ h = 0 \/ push_int64 [] h = [80 + h] /\ 1 <= h <= 16 \/
  exists v, push_int64 [] h = zlen v :: v /\ v = getvch h /\ 17 <= h /\ 1 <= zlen v <= 5.
Proof.
  intros Hh. unfold push_int64, getvch. destruct (Z.eqb_spec h (-1)); [lia|].
  destruct (Z.leb_spec 1 h), (Z.leb_spec h 16); cbn [andb orb]; try lia.
  - right; left. split; [|lia]. cbn [app]. unfold OP_1. rewrite wrapu_small by (unfold in_u; lia). f_equal. lia.
  - right; right. rewrite (proj2 (Z.eqb_neq h 0)) by lia. exists (serialize h).
    destruct (getvch_range h 5) as (_ & Hl & _ & _); [lia|change (2 ^ (8 * 5 - 1)) with (2 ^ 39); lia|]. unfold getvch in Hl.
    assert (serialize h <> []). { intros E. destruct (getvch_range h 5) as (_ & _ & _ & Hv); [lia|change (2 ^ (8 * 5 - 1)) with (2 ^ 39); lia|]. unfold getvch in Hv. rewrite E in Hv. change (num_value []) with 0 in Hv. lia. }
    assert (0 < zlen (serialize h)) by (by apply zlen_pos). split; [|split; [done|lia]].
    unfold push_data. cbn [app]. unfold OP_PUSHDATA1. destruct (Z.ltb_spec (zlen (serialize h)) 0x4c); [|lia].
    rewrite wrapu_small by (unfold in_u; lia). done.
  - left. split; [|lia]. assert (h = 0) as -> by lia. done.
Qed.

(** Two heights whose pushes begin the same script are equal. *)
Lemma push_int64_prefix s h1 h2 : 0 <= h1 < 2 ^ 31 -> 0 <= h2 < 2 ^ 31 ->
  take (length (push_int64 [] h1)) s = push_int64 [] h1 -> take (length (push_int64 [] h2)) s = push_int64 [] h2 -> h1 = h2.
Proof.
  intros H1 H2. assert (num_value (getvch h1) = h1 /\ num_value (getvch h2) = h2) as [V1 V2].
  { split; eapply (getvch_range _ 5); try lia; change (2 ^ (8 * 5 - 1)) with (2 ^ 39); lia. }
  destruct (push_int64_shape h1 H1) as [[-> ->]|[[-> ?]|(v1 & -> & -> & ? & ?)]], (push_int64_shape h2 H2) as [[-> ->]|[[-> ?]|(v2 & -> & -> & ? & ?)]];
    destruct s as [|x s]; cbn [length take]; try done; try (intros E1 E2; injection E1; injection E2; intros; lia).
  - intros [= -> E1] [= Hl E2]. assert (length (getvch h1) = length (getvch h2)) as Hn by lia. rewrite Hn in E1. rewrite <- V1, <- V2. congruence.
Qed.

(** ** The theorems on blocks *)

Section Theorems.
Context (chainparams : CChainParams) (g_IsV6Active : bool) (nMoneySupply : CAmount).
Context (IsSynced spork_superblocks spork_coldstaking_maintenance : bool).
Context (IsBudgetPaymentBlock : Z -> bool) (GetTransaction : uint256 -> option CTransaction).
Context (mapBlockIndex : gmap (list Z) positive) (blocks : store) (chainActive : CChain) (IsInitialBlockDownload : bool) (GetTime : Z).
Context (CheckZerocoinSpend : CTransaction -> bool -> CValidationState -> bool -> bool * CValidationState).
Context (GetBlockHash : CBlock -> uint256) (IsBlockPayeeValid : CBlock -> Z -> chk bool) (CheckSignature : CBlock -> chk bool).
Notation check_payments := (check_payments chainparams g_IsV6Active nMoneySupply IsSynced spork_superblocks
  spork_coldstaking_maintenance IsBudgetPaymentBlock GetTransaction mapBlockIndex blocks chainActive IsInitialBlockDownload IsBlockPayeeValid).
Notation CheckBlock := (CheckBlock chainparams g_IsV6Active nMoneySupply IsSynced spork_superblocks
  spork_coldstaking_maintenance IsBudgetPaymentBlock GetTransaction mapBlockIndex blocks chainActive IsInitialBlockDownload GetTime
  CheckZerocoinSpend GetBlockHash IsBlockPayeeValid CheckSignature).
Notation block_rules := (block_rules chainparams g_IsV6Active chainActive GetBlockHash).
Notation payments_rule := (payments_rule chainparams g_IsV6Active nMoneySupply IsSynced spork_superblocks IsBudgetPaymentBlock GetTransaction
  mapBlockIndex blocks chainActive IsInitialBlockDownload IsBlockPayeeValid).
Notation cold_staking_active := (cold_staking_active spork_coldstaking_maintenance mapBlockIndex blocks chainActive IsInitialBlockDownload).

(** C14: [CheckBlock] accepts exactly the blocks that obey the rules: the proof
    of work of a block without stake, the Merkle root, the sizes, one coinbase in
    front, empty in a block of stake, one coinstake behind it, the payments, the
    rules of every transaction, the limit of signature operations, which are
    counted without overflow, and the signature.  It then leaves the state alone,
    and the block is marked as checked only if nothing was left out.  A block
    enters the list of rejected blocks only for its payments.  This is for a block
    that was not checked before, of the size of a message, whose transactions have
    no zerocoin inputs, when the checks of the payments return. *)
Theorem CheckBlock_iff block rejected st fCheckPOW fCheckMerkleRoot fCheckSig pay signed :
  0 <= nMaxMoneyOut (consensus chainparams) < 2 ^ 62 -> 0 <= ZC_MaxSpendsPerTx (consensus chainparams) -> block_ok block ->
  check_payments block = Ok pay -> (fCheckSig = true -> CheckSignature block = Ok signed) ->
  let r := CheckBlock block false rejected st fCheckPOW fCheckMerkleRoot fCheckSig in
  let rules := payments_rule block /\ block_rules block fCheckPOW fCheckMerkleRoot fCheckSig (cold_staking_active block) signed in
  match c_result r with
  | Ok st' => st' = st /\ rules /\ c_fChecked r = fCheckPOW && fCheckMerkleRoot && fCheckSig
  | Err _ => ~ rules /\ c_fChecked r = false
  | _ => False
  end /\
  (c_mapRejectedBlocks r = rejected \/
   ~ payments_rule block /\ rejected !! GetBlockHash block = None /\ c_mapRejectedBlocks r = <[GetBlockHash block := GetTime]> rejected).
Proof.
  intros Hmax Hzc Hok Hpay Hsig r rules.
  destruct (CheckBlock_passes chainparams g_IsV6Active nMoneySupply IsSynced spork_superblocks spork_coldstaking_maintenance
    IsBudgetPaymentBlock GetTransaction mapBlockIndex blocks chainActive IsInitialBlockDownload GetTime CheckZerocoinSpend GetBlockHash
    IsBlockPayeeValid CheckSignature Hmax Hzc block rejected st fCheckPOW fCheckMerkleRoot fCheckSig pay signed Hok Hpay Hsig) as (Hp & Hf & Hr).
  fold r in Hr, Hf, Hp. split; [|exact Hr]. rewrite Hf. unfold passes in Hp. by destruct (c_result r) as [st'| | |]; [destruct Hp|..].
Qed.

(** C15: a header is not condemned for transactions that are not its own: when a
    block is refused without the note that it may be corrupted, and not for its
    work, then it has the transactions of every block with this header, the right
    Merkle root and a tree of as many levels, or two of the pairs hashed in the
    two trees collide. *)
Theorem refusal_concerns_header block1 block2 rejected st st1 fCheckPOW fCheckSig :
  header block1 = header block2 -> vtx block1 <> [] -> vtx block2 <> [] -> zlen (vtx block1) <= 2 ^ 31 -> zlen (vtx block2) <= 2 ^ 31 ->
  height (length (vtx block1)) = height (length (vtx block2)) -> merkle_rule block2 ->
  c_result (CheckBlock block1 false rejected st fCheckPOW true fCheckSig) = Err st1 ->
  corruptionPossible st1 = false -> strRejectReason st1 <> "high-hash"%string ->
  map GetHash (vtx block1) = map GetHash (vtx block2) \/
  hash_collision (tree_inputs (map GetHash (vtx block1)) ++ tree_inputs (map GetHash (vtx block2))).
Proof.
  intros Hh H1 H2 Hl1 Hl2 Hlev Hp E1 Hc Hr.
  assert (Hhash : forall l, Forall hash32 (map GetHash l)) by (intros; apply Forall_map, Forall_forall; intros; apply Hash_length).
  apply CheckBlock_uncorrupted in E1; [|done..]. unfold merkle_rule, BlockMerkleRoot in E1, Hp. rewrite Hh in E1.
  apply (same_root_same_leaves _ _ (Block.hashMerkleRoot (header block2))); rewrite ?length_map; try done; [by destruct (vtx block1)|by destruct (vtx block2)].
Qed.
End Theorems.

(** C38: the coinbases of blocks at different heights differ (BIP 34): two
    blocks that [ContextualCheckBlock] accepts, behind blocks of different
    heights, do not have the same first transaction. *)
Theorem coinbase_heights_differ blocks now ibd CheckTx block1 block2 st1 st2 p1 p2 prev1 prev2 :
  blocks !! p1 = Some prev1 -> blocks !! p2 = Some prev2 ->
  -1 <= Chain.nHeight prev1 < 2 ^ 31 - 1 -> -1 <= Chain.nHeight prev2 < 2 ^ 31 - 1 ->
  ContextualCheckBlock blocks now ibd CheckTx block1 st1 (Some p1) = Ok tt ->
  ContextualCheckBlock blocks now ibd CheckTx block2 st2 (Some p2) = Ok tt ->
  Chain.nHeight prev1 <> Chain.nHeight prev2 -> head (vtx block1) <> head (vtx block2).
Proof.
  assert (Hi : forall block st p prev, blocks !! p = Some prev -> ContextualCheckBlock blocks now ibd CheckTx block st (Some p) = Ok tt ->
    exists coinbase i, head (vtx block) = Some coinbase /\ head (vin coinbase) = Some i /\
      take (length (push_int64 [] (Chain.nHeight prev + 1))) (scriptSig i) = push_int64 [] (Chain.nHeight prev + 1)).
  { intros block st p prev Hp. unfold ContextualCheckBlock, deref. rewrite Hp. cbn [on_coins mbind outcome_bind].
    destruct (contextual_transactions _ _ _ _ _ _ _); cbn [mbind outcome_bind]; [|done..].
    destruct (vtx block) as [|coinbase rest]; [done|]. change (rd (coinbase :: rest) 0) with (Ok (E := CValidationState) coinbase). cbn [mbind outcome_bind].
    destruct (vin coinbase) as [|i ins] eqn:Ei; [done|]. change (rd (i :: ins) 0) with (Ok (E := CValidationState) i). cbn [mbind outcome_bind].
    case_bool_decide; [|done]. intros _. exists coinbase, i. by rewrite Ei. }
  intros Hp1 Hp2 Hr1 Hr2 E1 E2 Hne Hsame. destruct (Hi _ _ _ _ Hp1 E1) as (c1 & i1 & Hc1 & Hi1 & T1). destruct (Hi _ _ _ _ Hp2 E2) as (c2 & i2 & Hc2 & Hi2 & T2).
  assert (c1 = c2) as <- by congruence. assert (i1 = i2) as <- by congruence. apply Hne.
  assert (Chain.nHeight prev1 + 1 = Chain.nHeight prev2 + 1); [|lia]. by eapply push_int64_prefix; [..|exact T1|exact T2]; lia.
Qed.

(** ** The rules of a header *)

(** The checkpoints are in the order of their heights, and those that are known
    blocks are at these heights. *)
Definition checkpoints_ok (checkpoints : MapCheckpoints) (mapBlockIndex : gmap (list Z) positive) (blocks : store) : Prop :=
  StronglySorted (fun c1 c2 : Z * uint256 => c1.1 < c2.1) checkpoints /\
  (forall c p, c ∈ checkpoints -> mapBlockIndex !! c.2 = Some p -> exists b, blocks !! p = Some b /\ Chain.nHeight b = c.1).

Lemma checkpoint_at_in checkpoints h hash :
  StronglySorted (fun c1 c2 : Z * uint256 => c1.1 < c2.1) checkpoints -> (h, hash) ∈ checkpoints -> checkpoint_at checkpoints h = Some hash.
Proof.
  unfold checkpoint_at. induction 1 as [|[h' hash'] l Hs IH Hf]; [by intros ?%not_elem_of_nil|]. cbn [find fst].
  intros [[= -> ->]|Hin]%elem_of_cons; [by rewrite Z.eqb_refl|]. rewrite Forall_forall in Hf. specialize (Hf _ Hin). cbn in Hf.
  rewrite (proj2 (Z.eqb_neq h' h)) by lia. by apply IH.
Qed.
Lemma GetLastCheckpoint_last checkpoints mapBlockIndex blocks c p :
  checkpoints_ok checkpoints mapBlockIndex blocks -> c ∈ checkpoints -> mapBlockIndex !! c.2 = Some p ->
  exists q b, GetLastCheckpoint true checkpoints mapBlockIndex = Some q /\ blocks !! q = Some b /\ c.1 <= Chain.nHeight b.
Proof.
  intros [Hs Hh] Hc Hp. unfold GetLastCheckpoint. cbn [negb]. induction checkpoints as [|d l IH] using rev_ind; [by apply not_elem_of_nil in Hc|].
  rewrite reverse_snoc. cbn [omap list_omap]. apply StronglySorted_app in Hs as (Hs1 & Hs2 & _).
  destruct (mapBlockIndex !! d.2) as [q|] eqn:Hq; cbn [head].
  - destruct (Hh d q) as (b & Hb & Hd); [apply elem_of_app; right; by left|done|]. exists q, b. split_and!; [done|done|].
    apply elem_of_app in Hc as [Hc| ->%list_elem_of_singleton]; [|lia]. specialize (Hs1 c d Hc). rewrite Hd. apply Z.lt_le_incl, Hs1. by left.
  - apply IH; [done|intros ? ? ?; apply Hh, elem_of_app; by left|]. apply elem_of_app in Hc as [Hc| ->%list_elem_of_singleton]; [done|congruence].
Qed.

(** The rules of a header: an accepted header that is not the genesis block
    is not behind the deepest reorganisation, is newer than the times its
    ancestors allow and not too far ahead, has the hash of the checkpoint at its
    height, and is at no height below a checkpoint whose block is known; its
    version is not outdated. *)
Theorem header_respects_checkpoints chainparams blocks chainActive mapBlockIndex GetBlockHash now maxreorg checkpoints block st p prev :
  checkpoints_ok checkpoints mapBlockIndex blocks -> blocks !! p = Some prev -> IsRegTestNet chainparams = false ->
  GetBlockHash block <> hashGenesisBlock (consensus chainparams) ->
  ContextualCheckBlockHeader chainparams blocks chainActive mapBlockIndex GetBlockHash now maxreorg true checkpoints block st (Some p) = Ok tt ->
  let h := Chain.nHeight prev + 1 in
  Height chainActive - h < maxreorg /\
  hd_GetBlockTime (header block) <= MaxFutureBlockTime (consensus chainparams) now prev /\
  (exists past, MinPastBlockTime (consensus chainparams) blocks p = Ok past /\ past < hd_GetBlockTime (header block)) /\
  IsValidBlockTimeStamp (consensus chainparams) (hd_GetBlockTime (header block)) h = true /\
  (forall hash, (h, hash) ∈ checkpoints -> GetBlockHash block = hash) /\
  (forall c q, c ∈ checkpoints -> mapBlockIndex !! c.2 = Some q -> c.1 <= h) /\
  outdated chainparams (hd_nVersion (header block)) h = false.
Proof.
  intros Hck Hp Hreg Hgen. unfold ContextualCheckBlockHeader, CheckBlockTime. rewrite bool_decide_eq_false_2, Hreg by done.
  unfold deref. rewrite Hp. cbn [on_coins mbind outcome_bind].
  destruct (Z.leb_spec maxreorg (Height chainActive - (Chain.nHeight prev + 1))) as [|Hdeep]; [done|].
  destruct (Z.ltb_spec (MaxFutureBlockTime (consensus chainparams) now prev) (hd_GetBlockTime (header block))) as [|Hnew]; [done|].
  destruct (MinPastBlockTime _ _ _) as [past|[]| |]; [|done..]. cbn [on_coins mbind outcome_bind].
  destruct (Z.leb_spec (hd_GetBlockTime (header block)) past) as [|Hold]; [done|]. destruct (IsValidBlockTimeStamp _ _ _) eqn:Hmask; [|done].
  cbn [negb mbind outcome_bind]. destruct (Checkpoints_CheckBlock true checkpoints _ _ false) eqn:Hc; [|done]. cbn [negb]. intros E.
  split_and!; [lia|lia|by exists past|done|..].
  - intros hash Hin. unfold Checkpoints_CheckBlock in Hc. rewrite (checkpoint_at_in _ _ hash (proj1 Hck) Hin) in Hc. cbn [negb] in Hc. by apply bool_decide_eq_true in Hc.
  - intros c q Hin Hq. destruct (GetLastCheckpoint_last _ _ _ c q Hck Hin Hq) as (l & b & Hl & Hb & Hle). rewrite Hl in E.
    revert E. cbn [mbind outcome_bind]. rewrite Hb. cbn [on_coins mbind outcome_bind].
    destruct (Z.ltb_spec (Chain.nHeight prev + 1) (Chain.nHeight b)); [done|]. lia.
  - destruct (GetLastCheckpoint true checkpoints mapBlockIndex) as [l|]; cbn [mbind outcome_bind] in E; [destruct (blocks !! l) as [b|]; [|done];
      cbn [on_coins mbind outcome_bind] in E; destruct (_ <? Chain.nHeight b); [done|]|]; by destruct (outdated _ _ _).
Qed.

(** What a proof of work must be: from height 202 on, and for every block of
    stake, the target is the required one, or the time of the block is before the
    date from which that is enforced.  On a network where that date was never set,
    another target reads it uninitialised. *)
Theorem CheckWork_enforces chainparams blocks block p prev required :
  blocks !! p = Some prev -> GetNextWorkRequired chainparams blocks (Some p) = Ok required ->
  IsRegTestNet chainparams = true \/ IsProofOfWork block = false \/ 201 <= Chain.nHeight prev ->
  CheckWork chainparams blocks block (Some p) =
    match nDeviantBadBlockTime (consensus chainparams) with
    | Some t => Ok ((hd_nBits (header block) =? required) || (hd_nTime (header block) <? u32 t))
    | None => if hd_nBits (header block) =? required then Ok true else Abort
    end.
Proof.
  intros Hp Hreq Hcase. unfold CheckWork. rewrite Hreq. unfold deref. rewrite Hp. cbn [on_coins mbind outcome_bind].
  assert (negb (IsRegTestNet chainparams) && IsProofOfWork block && (Chain.nHeight prev + 1 <=? 201) = false) as ->.
  { destruct Hcase as [->|[->|Hh]]; cbn [negb andb]; [done|by rewrite andb_false_r|]. by rewrite (proj2 (Z.leb_gt _ _)), andb_false_r by lia. }
  by destruct (_ =? required), (nDeviantBadBlockTime (consensus chainparams)).
Qed.

(** ** Concrete instances *)

Definition sample_coinbase : CTransaction :=
  Transaction 1 0 [TxIn (OutPoint UINT256_ZERO (2 ^ 32 - 1)) [1; 17; 0] 4294967295] [TxOut 5 [OP_1] NULL_ROUNDS] 0 None None.
(** A block of proof of work for the lowest hash. *)
Definition sample_block : CBlock := Block (BlockHeader 3 UINT256_ZERO (GetHash sample_coinbase) 1600000000 0x1e0ffff0 0 UINT256_ZERO UINT256_ZERO) [sample_coinbase] [].
Definition sample_hash : CBlock -> uint256 := fun _ => UINT256_ZERO.
Definition sample_signature : CBlock -> chk bool := CheckBlockSignature true (fun _ _ _ => true) sample_hash (fun _ => Abort).
#[local] Notation sample_check block :=
  (CheckBlock mainChainParams true 0 true false false (fun _ => false) (fun _ => None) ∅ ∅ [] false 0 (fun _ _ st _ => (true, st)) sample_hash
    (fun _ _ => Ok true) sample_signature block false ∅ CValidationState_new true true true).

Lemma sample_block_ok : block_ok sample_block.
Proof.
  unfold block_ok. split; [vm_compute; discriminate|]. split; [vm_compute; discriminate|]. apply Forall_singleton. split_and!.
  - apply (bool_decide_unpack _). vm_compute. exact I.
  - split; [apply Forall_singleton; cbn; unfold in_s; lia|done].
  - vm_compute. reflexivity.
Qed.

Lemma CheckBlock_iff_witness :
  c_result (sample_check sample_block) = Ok CValidationState_new /\
  block_rules mainChainParams true [] sample_hash sample_block true true true true true.
Proof.
  assert (E : c_result (sample_check sample_block) = Ok CValidationState_new) by (vm_compute; reflexivity). split; [exact E|].
  destruct (CheckBlock_iff mainChainParams true 0 true false false (fun _ => false) (fun _ => None) ∅ ∅ [] false 0 (fun _ _ st _ => (true, st)) sample_hash
    (fun _ _ => Ok true) sample_signature sample_block ∅ CValidationState_new true true true (inl true) true) as [H _];
    [vm_compute; split; congruence|vm_compute; discriminate|exact sample_block_ok|reflexivity|intros _; vm_compute; reflexivity|].
  rewrite E in H. apply H.
Defined.

(** The script of this coinbase is too short. *)
Definition sample_short : CTransaction :=
  Transaction 1 0 [TxIn (OutPoint UINT256_ZERO (2 ^ 32 - 1)) [1] 4294967295] [TxOut 5 [OP_1] NULL_ROUNDS] 0 None None.
Definition sample_bad : CBlock := Block (BlockHeader 3 UINT256_ZERO (GetHash sample_short) 1600000000 0x1e0ffff0 0 UINT256_ZERO UINT256_ZERO) [sample_short] [].

Lemma refusal_concerns_header_witness :
  c_result (sample_check sample_bad) = Err (ValidationState MODE_INVALID 100 "bad-cb-length" REJECT_INVALID false) /\
  (map GetHash (vtx sample_bad) = map GetHash (vtx sample_bad) \/
   hash_collision (tree_inputs (map GetHash (vtx sample_bad)) ++ tree_inputs (map GetHash (vtx sample_bad)))).
Proof.
  assert (E : c_result (sample_check sample_bad) = Err (ValidationState MODE_INVALID 100 "bad-cb-length" REJECT_INVALID false)) by (vm_compute; reflexivity).
  split; [exact E|].
  apply (refusal_concerns_header mainChainParams true 0 true false false (fun _ => false) (fun _ => None) ∅ ∅ [] false 0 (fun _ _ st _ => (true, st)) sample_hash
    (fun _ _ => Ok true) sample_signature sample_bad sample_bad ∅ CValidationState_new
    (ValidationState MODE_INVALID 100 "bad-cb-length" REJECT_INVALID false) true true);
    [reflexivity|discriminate|discriminate|vm_compute; discriminate|vm_compute; discriminate|reflexivity|vm_compute; reflexivity|exact E|reflexivity|discriminate].
Defined.

(** Two blocks on top of the heights 299 and 300. *)
Definition sample_index (h : Z) : CBlockIndex :=
  BlockIndex (replicate 32 1) None None h 0 0 0 0 0 [] 0 None 3 1500000000 0 (bu_zero 8) 1 1 [] [] 0 [] 0.
Definition sample_blocks : store := <[2%positive := sample_index 300]> {[1%positive := sample_index 299]}.
Definition sample_height_block (script : CScript) : CBlock :=
  Block (header sample_block) [Transaction 1 0 [TxIn (OutPoint UINT256_ZERO (2 ^ 32 - 1)) script 4294967295] [TxOut 5 [OP_1] NULL_ROUNDS] 0 None None] [].

Lemma coinbase_heights_differ_witness :
  ContextualCheckBlock sample_blocks 0 false (fun _ _ _ _ _ => Ok tt) (sample_height_block [2; 44; 1; 7]) CValidationState_new (Some 1%positive) = Ok tt /\
  head (vtx (sample_height_block [2; 44; 1; 7])) <> head (vtx (sample_height_block [2; 45; 1; 7])).
Proof.
  assert (E : ContextualCheckBlock sample_blocks 0 false (fun _ _ _ _ _ => Ok tt) (sample_height_block [2; 44; 1; 7]) CValidationState_new (Some 1%positive) = Ok tt)
    by (vm_compute; reflexivity). split; [exact E|].
  apply (coinbase_heights_differ sample_blocks 0 false (fun _ _ _ _ _ => Ok tt) _ _ CValidationState_new CValidationState_new 1 2 (sample_index 299) (sample_index 300));
    [reflexivity|reflexivity|cbn; lia|cbn; lia|exact E|vm_compute; reflexivity|discriminate].
Defined.

(** The checkpoints of the main network, with the last but one known. *)
Definition sample_known : gmap (list Z) positive := {[le_bytes 32 0xcc230f6ec71671418af9e75aeed4a9d2671f0a262564b261e013c5e57b34153d := 3%positive]}.
Definition sample_known_blocks : store := <[3%positive := sample_index 3110]> {[4%positive := sample_index 3200]}.

Lemma mainCheckpoints_ok : checkpoints_ok mainCheckpoints sample_known sample_known_blocks.
Proof.
  split; [repeat constructor|]. intros c p Hc Hp. unfold sample_known in Hp. apply lookup_singleton_Some in Hp as [Hh <-].
  exists (sample_index 3110). split; [done|].
  assert (Forall (fun c : Z * uint256 => c.2 = le_bytes 32 0xcc230f6ec71671418af9e75aeed4a9d2671f0a262564b261e013c5e57b34153d -> c.1 = 3110) mainCheckpoints) as Ha.
  { apply (bool_decide_unpack _). vm_compute. exact I. }
  rewrite Forall_forall in Ha. symmetry. by apply Ha.
Qed.

Lemma header_respects_checkpoints_witness :
  3110 <= 3201 /\ outdated mainChainParams 3 3201 = true /\ outdated mainChainParams 4 3201 = false.
Proof.
  destruct (header_respects_checkpoints mainChainParams sample_known_blocks [] sample_known sample_hash 1600000000 100 mainCheckpoints
    (Block (BlockHeader 4 UINT256_ZERO UINT256_ZERO 1600000000 0 0 UINT256_ZERO UINT256_ZERO) [] []) CValidationState_new 4 (sample_index 3200))
    as (_ & _ & _ & _ & _ & H & Hv); [exact mainCheckpoints_ok|reflexivity|reflexivity|discriminate|vm_compute; reflexivity|].
  split; [|split; [reflexivity|exact Hv]].
  apply (H (3110, le_bytes 32 0xcc230f6ec71671418af9e75aeed4a9d2671f0a262564b261e013c5e57b34153d) 3%positive); [|vm_compute; reflexivity].
  apply list_elem_of_In. vm_compute. tauto.
Defined.
