(* ===== verification/BestChain.v ===== *)
(** * The block tree and the best chain: validation.cpp

    The index of blocks with its candidates, and the operations that extend it
    and move the active chain: [ReceivedBlockTransactions], [FindMostWorkChain],
    [PruneBlockIndexCandidates], [ConnectTip], [DisconnectTip],
    [ActivateBestChainStep], [ActivateBestChain], [InvalidateBlock] and
    [ReconsiderBlock].

    The coins are behind the interface [ChainState]: connecting and disconnecting
    the block of an entry ([Connect], [Disconnect] and [BlockUndo] are about one
    implementation).  Pointers to entries are positives, and their order is that
    of the addresses.  The memory pool, the caches of masternodes, the warnings
    about forks and the notifications are left out, they do not come back into
    the tree.  A block that cannot be read is the system error [Failed] before
    anything has changed; a flush that fails behind a connection, for which the
    node shuts down, is left out. *)
From S2P Require Import Prelude Serialize Hash ArithUint256 Params Chain Pow Script Transaction Block TxVerify.

(** ** The interface of the coins *)

Inductive connection (C : Type) :=
| Connected (c : C)
| Rejected (corruption : bool)   (* the state is invalid *)
| Failed.                        (* a system error *)
Arguments Connected {C} c.
Arguments Rejected {C} corruption.
Arguments Failed {C}.

Class ChainState (C : Type) := {
  connect_block : positive -> C -> connection C;
  (** What connecting writes into the entry. *)
  mark_connected : CBlockIndex -> CBlockIndex;
  disconnect_block : positive -> C -> option C;
  coins_best : C -> uint256;
}.

(** ** The state *)

Record node (C : Type) := Node {
  mapBlockIndex : gmap (list Z) positive;
  blocks : store;
  chainActive : CChain;
  setBlockIndexCandidates : gset positive;
  pindexBestInvalid : ptr;
  pindexBestHeader : ptr;
  mapBlocksUnlinked : list (ptr * positive);   (* equal keys in the order of insertion *)
  nBlockSequenceId : Z;
  setDirtyBlockIndex : gset positive;
  pcoinsTip : C;
}.
Arguments Node {C}.
Arguments mapBlockIndex {C}.
Arguments blocks {C}.
Arguments chainActive {C}.
Arguments setBlockIndexCandidates {C}.
Arguments pindexBestInvalid {C}.
Arguments pindexBestHeader {C}.
Arguments mapBlocksUnlinked {C}.
Arguments nBlockSequenceId {C}.
Arguments setDirtyBlockIndex {C}.
Arguments pcoinsTip {C}.

(** ** The order of the candidates *)

(** [CBlockIndexWorkComparator] *)
Definition work_lt (pa pb : positive) (a b : CBlockIndex) : bool :=
  if 0 <? CompareTo (nChainWork a) (nChainWork b) then false else
  if CompareTo (nChainWork a) (nChainWork b) <? 0 then true else
  if nSequenceId a <? nSequenceId b then false else
  if nSequenceId b <? nSequenceId a then true else
  Pos.ltb pb pa.

Definition worse (st : store) (pa pb : positive) : bool :=
  match st !! pa, st !! pb with Some a, Some b => work_lt pa pb a b | _, _ => false end.

(** [rbegin] of the set. *)
Definition best_candidate (st : store) (set : gset positive) : ptr :=
  foldr (fun p best => match best with
                       | Some q => if worse st q p then Some p else Some q
                       | None => Some p
                       end) None (elements set).

Section Tree.
Context {C : Type} `{!ChainState C}.
Notation node := (node C).

Definition with_blocks (n : node) (st : store) : node :=
  Node (mapBlockIndex n) st (chainActive n) (setBlockIndexCandidates n) (pindexBestInvalid n) (pindexBestHeader n)
    (mapBlocksUnlinked n) (nBlockSequenceId n) (setDirtyBlockIndex n) (pcoinsTip n).
Definition with_candidates (n : node) (s : gset positive) : node :=
  Node (mapBlockIndex n) (blocks n) (chainActive n) s (pindexBestInvalid n) (pindexBestHeader n)
    (mapBlocksUnlinked n) (nBlockSequenceId n) (setDirtyBlockIndex n) (pcoinsTip n).
Definition with_invalid (n : node) (p : ptr) : node :=
  Node (mapBlockIndex n) (blocks n) (chainActive n) (setBlockIndexCandidates n) p (pindexBestHeader n)
    (mapBlocksUnlinked n) (nBlockSequenceId n) (setDirtyBlockIndex n) (pcoinsTip n).
Definition with_unlinked (n : node) (l : list (ptr * positive)) : node :=
  Node (mapBlockIndex n) (blocks n) (chainActive n) (setBlockIndexCandidates n) (pindexBestInvalid n) (pindexBestHeader n)
    l (nBlockSequenceId n) (setDirtyBlockIndex n) (pcoinsTip n).
Definition with_dirty (n : node) (p : positive) : node :=
  Node (mapBlockIndex n) (blocks n) (chainActive n) (setBlockIndexCandidates n) (pindexBestInvalid n) (pindexBestHeader n)
    (mapBlocksUnlinked n) (nBlockSequenceId n) ({[ p ]} ∪ setDirtyBlockIndex n) (pcoinsTip n).
Definition with_tip (n : node) (chain : CChain) (c : C) : node :=
  Node (mapBlockIndex n) (blocks n) chain (setBlockIndexCandidates n) (pindexBestInvalid n) (pindexBestHeader n)
    (mapBlocksUnlinked n) (nBlockSequenceId n) (setDirtyBlockIndex n) c.

Definition next_sequence (n : node) : node :=
  Node (mapBlockIndex n) (blocks n) (chainActive n) (setBlockIndexCandidates n) (pindexBestInvalid n) (pindexBestHeader n)
    (mapBlocksUnlinked n) (u32 (nBlockSequenceId n + 1)) (setDirtyBlockIndex n) (pcoinsTip n).

Definition set_status (n : node) (p : positive) (f : Z -> Z) : node :=
  with_blocks n (alter (fun b => set_nStatus b (f (nStatus b))) p (blocks n)).
Definition erase_candidate (n : node) (p : positive) : node := with_candidates n (setBlockIndexCandidates n ∖ {[ p ]}).
Definition insert_candidate (n : node) (p : positive) : node := with_candidates n ({[ p ]} ∪ setBlockIndexCandidates n).
Definition tip_of (n : node) : ptr := default None (last (chainActive n)).

(** ** The best candidate *)

(** The walk of [FindMostWorkChain] from a candidate down to the active chain:
    the first block that is not usable, with what is wrong. *)
Fixpoint first_unusable (st : store) (c : CChain) (fuel : nat) (pindexTest : ptr) : outcome unit (option (positive * bool)) :=
  match pindexTest with
  | None => Ok None
  | Some p =>
      i ← Contains st c pindexTest;
      if i : bool then Ok None else
      match fuel with
      | O => Abort
      | S fuel =>
          b ← deref st pindexTest;
          cassert (negb (nChainTx b =? 0) || (nHeight b =? 0));;
          let fFailedChain := negb (Z.land (nStatus b) BLOCK_FAILED_MASK =? 0) in
          let fMissingData := Z.land (nStatus b) BLOCK_HAVE_DATA =? 0 in
          if fFailedChain || fMissingData then Ok (Some (p, fFailedChain))
          else first_unusable st c fuel (pprev b)
      end
  end.

(** The blocks from the candidate down to the unusable one leave the set. *)
Fixpoint remove_chain (fuel : nat) (pindexTest : positive) (fFailedChain : bool) (pindexFailed : ptr) (n : node) : outcome unit node :=
  if bool_decide (pindexFailed = Some pindexTest) then Ok (erase_candidate n pindexTest) else
  match pindexFailed, fuel with
  | Some p, S fuel =>
      b ← deref (blocks n) pindexFailed;
      n ← (if fFailedChain then Ok (set_status n p (fun s => Z.lor s BLOCK_FAILED_CHILD))
           else Ok (with_unlinked n (mapBlocksUnlinked n ++ [(pprev b, p)])));
      remove_chain fuel pindexTest fFailedChain (pprev b) (erase_candidate n p)
  | _, _ => Abort
  end.

Fixpoint FindMostWorkChain (fuel : nat) (n : node) : outcome unit (ptr * node) :=
  match best_candidate (blocks n) (setBlockIndexCandidates n) with
  | None => Ok (None, n)
  | Some pindexNew =>
      new ← deref (blocks n) (Some pindexNew);
      bad ← first_unusable (blocks n) (chainActive n) (S (Z.to_nat (nHeight new))) (Some pindexNew);
      match bad with
      | None => Ok (Some pindexNew, n)
      | Some (pindexTest, fFailedChain) =>
          worst ← (match pindexBestInvalid n with
                   | None => Ok true
                   | Some _ => inv ← deref (blocks n) (pindexBestInvalid n); Ok (0 <? CompareTo (nChainWork new) (nChainWork inv))
                   end);
          let n := if fFailedChain && worst then with_invalid n (Some pindexNew) else n in
          n ← remove_chain (S (Z.to_nat (nHeight new))) pindexTest fFailedChain (Some pindexNew) n;
          match fuel with O => Abort | S fuel => FindMostWorkChain fuel n end
      end
  end.

(** The loop erases from the begin of the ordered set: what is worse than the
    tip.  Without a tip the comparison reads a null pointer, or the assertion
    fails. *)
Definition PruneBlockIndexCandidates (n : node) : outcome unit node :=
  match tip_of n with
  | None => Abort
  | Some tip =>
      let left := filter (fun p => worse (blocks n) p tip = false) (setBlockIndexCandidates n) in
      cassert (negb (bool_decide (left = ∅)));;
      Ok (with_candidates n left)
  end.

(** ** The tip moves *)

Definition UpdateTip (pindexNew : ptr) (c : C) (n : node) : outcome unit node :=
  deref (blocks n) pindexNew;;
  chain ← SetTip (blocks n) (chainActive n) pindexNew;
  Ok (with_tip n chain c).

(** Whether the tip was disconnected. *)
Definition DisconnectTip (n : node) : outcome unit (bool * node) :=
  match tip_of n with
  | None => Abort
  | Some tip =>
      pindexDelete ← deref (blocks n) (Some tip);
      cassert (bool_decide (coins_best (pcoinsTip n) = blockHash pindexDelete));;
      match disconnect_block tip (pcoinsTip n) with
      | None => Ok (false, n)
      | Some c => n ← UpdateTip (pprev pindexDelete) c n; Ok (true, n)
      end
  end.

Definition InvalidChainFound (pindexNew : positive) (n : node) : outcome unit node :=
  new ← deref (blocks n) (Some pindexNew);
  worst ← (match pindexBestInvalid n with
           | None => Ok true
           | Some _ => inv ← deref (blocks n) (pindexBestInvalid n); Ok (0 <? CompareTo (nChainWork new) (nChainWork inv))
           end);
  let n := if worst : bool then with_invalid n (Some pindexNew) else n in
  cassert (bool_decide (tip_of n <> None));;
  Ok n.

Definition InvalidBlockFound (pindex : positive) (corruptionPossible : bool) (n : node) : outcome unit node :=
  if corruptionPossible then Ok n else
  InvalidChainFound pindex (erase_candidate (with_dirty (set_status n pindex (fun s => Z.lor s BLOCK_FAILED_VALID)) pindex) pindex).

Inductive tip_result := TipConnected | TipInvalid (corruption : bool) | TipFailed.

Definition ConnectTip (pindexNew : positive) (n : node) : outcome unit (tip_result * node) :=
  new ← deref (blocks n) (Some pindexNew);
  cassert (bool_decide (pprev new = tip_of n));;
  match connect_block pindexNew (pcoinsTip n) with
  | Failed => Ok (TipFailed, n)
  | Rejected corruption => n ← InvalidBlockFound pindexNew corruption n; Ok (TipInvalid corruption, n)
  | Connected c =>
      n ← UpdateTip (Some pindexNew) c (with_dirty (with_blocks n (alter mark_connected pindexNew (blocks n))) pindexNew);
      Ok (TipConnected, n)
  end.

(** ** A step towards the best chain *)

(** The tip goes back to the fork; whether that succeeded, and whether anything
    was disconnected. *)
Fixpoint disconnect_to (fuel : nat) (pindexFork : ptr) (fBlocksDisconnected : bool) (n : node) : outcome unit (bool * bool * node) :=
  if bool_decide (tip_of n = None) || bool_decide (tip_of n = pindexFork) then Ok (true, fBlocksDisconnected, n) else
  match fuel with
  | O => Abort
  | S fuel =>
      r ← DisconnectTip n;
      let '(ok, n) := r in
      if negb ok then Ok (false, fBlocksDisconnected, n) else disconnect_to fuel pindexFork true n
  end.

(** The entries from [pindexIter] down to the height, which are not included. *)
Fixpoint path_down (st : store) (fuel : nat) (nHeight : Z) (pindexIter : ptr) : outcome unit (list positive) :=
  match pindexIter with
  | None => Ok []
  | Some p =>
      b ← deref st pindexIter;
      if Chain.nHeight b =? nHeight then Ok [] else
      match fuel with
      | O => Abort
      | S fuel => l ← path_down st fuel nHeight (pprev b); Ok (p :: l)
      end
  end.

(** What the loop over the blocks to connect ends with. *)
Inductive step_result := StepContinue | StepStop | StepInvalid | StepFailed.

(** [last] is [vpindexToConnect.back()], the lowest of the blocks. *)
Fixpoint connect_all (pindexOldTip : ptr) (last : ptr) (l : list positive) (n : node) : outcome unit (step_result * node) :=
  match l with
  | [] => Ok (StepContinue, n)
  | pindexConnect :: l =>
      r ← ConnectTip pindexConnect n;
      let '(r, n) := r in
      match r with
      | TipFailed => Ok (StepFailed, n)
      | TipInvalid corruption =>
          n ← (if corruption then Ok n else
               match last with Some p => InvalidChainFound p n | None => Abort end);
          Ok (StepInvalid, n)
      | TipConnected =>
          n ← PruneBlockIndexCandidates n;
          stop ← (match pindexOldTip with
                  | None => Ok true
                  | Some _ =>
                      old ← deref (blocks n) pindexOldTip;
                      new ← deref (blocks n) (tip_of n);
                      Ok (0 <? CompareTo (nChainWork new) (nChainWork old))
                  end);
          if stop : bool then Ok (StepStop, n) else connect_all pindexOldTip last l n
      end
  end.

Fixpoint connect_chunks (fuel : nat) (pindexOldTip : ptr) (pindexMostWork : positive) (nHeight : Z) (n : node)
  : outcome unit (step_result * node) :=
  most ← deref (blocks n) (Some pindexMostWork);
  if nHeight =? Chain.nHeight most then Ok (StepContinue, n) else
  match fuel with
  | O => Abort
  | S fuel =>
      let nTargetHeight := Z.min (nHeight + 32) (Chain.nHeight most) in
      pindexIter ← GetAncestor (blocks n) pindexMostWork nTargetHeight;
      vpindexToConnect ← path_down (blocks n) 33 nHeight pindexIter;
      r ← connect_all pindexOldTip (last vpindexToConnect) (reverse vpindexToConnect) n;
      match r.1 with
      | StepContinue => connect_chunks fuel pindexOldTip pindexMostWork nTargetHeight r.2
      | _ => Ok r
      end
  end.

(** The result: false for a system error, and [fInvalidFound]. *)
Definition ActivateBestChainStep (pindexMostWork : positive) (n : node) : outcome unit (bool * bool * node) :=
  let pindexOldTip := tip_of n in
  most ← deref (blocks n) (Some pindexMostWork);
  pindexFork ← FindFork (blocks n) (chainActive n) (Some pindexMostWork);
  r ← disconnect_to (length (chainActive n)) pindexFork false n;
  let '(ok, fBlocksDisconnected, n) := r in
  if negb ok then Ok (false, false, n) else
  nHeight ← (match pindexFork with None => Ok (-1) | Some _ => fork ← deref (blocks n) pindexFork; Ok (Chain.nHeight fork) end);
  r ← connect_chunks (S (Z.to_nat (Chain.nHeight most))) pindexOldTip pindexMostWork nHeight n;
  let '(r, n) := r in
  match r with
  | StepFailed => Ok (false, false, n)
  | _ =>
      (* the memory pool is cleaned up for the height behind the tip *)
      (if fBlocksDisconnected : bool then cassert (bool_decide (tip_of n <> None)) else Ok tt);;
      Ok (true, match r with StepInvalid => true | _ => false end, n)
  end.

(** The inner loop runs on while the tip is worse than it was in the beginning;
    the result says whether blocks were connected, and which block was aimed at. *)
Fixpoint activate_inner (fuel : nat) (starting_tip : ptr) (blocks_connected : bool) (pindexMostWork : ptr) (n : node)
  : outcome unit (bool * bool * ptr * node) :=
  r ← (match pindexMostWork with None => FindMostWorkChain (size (setBlockIndexCandidates n)) n | Some _ => Ok (pindexMostWork, n) end);
  let '(pindexMostWork, n) := r in
  match pindexMostWork with
  | None => Ok (true, blocks_connected, pindexMostWork, n)
  | Some most =>
      if bool_decide (pindexMostWork = tip_of n) then Ok (true, blocks_connected, pindexMostWork, n) else
      r ← ActivateBestChainStep most n;
      let '(ok, fInvalidFound, n) := r in
      if negb ok then Ok (false, blocks_connected, pindexMostWork, n) else
      let pindexMostWork := if fInvalidFound : bool then None else pindexMostWork in
      let again := match tip_of n with
                   | None => true
                   | Some tip => match starting_tip with Some start => worse (blocks n) tip start | None => false end
                   end in
      if again : bool then
        match fuel with O => Abort | S fuel => activate_inner fuel starting_tip true pindexMostWork n end
      else Ok (true, true, pindexMostWork, n)
  end.

(** [activate_inner] makes progress at every turn, and so does the loop around. *)
Fixpoint activate_outer (fuel : nat) (pindexMostWork : ptr) (n : node) : outcome unit (bool * node) :=
  r ← activate_inner fuel (tip_of n) false pindexMostWork n;
  let '(ok, blocks_connected, pindexMostWork, n) := r in
  if negb ok then Ok (false, n) else
  if negb blocks_connected then Ok (true, n) else
  if bool_decide (pindexMostWork = tip_of n) then Ok (true, n) else
  match fuel with O => Abort | S fuel => activate_outer fuel pindexMostWork n end.
Definition ActivateBestChain (fuel : nat) (n : node) : outcome unit (bool * node) := activate_outer fuel None n.

(** ** New data *)

Definition received (b : CBlockIndex) (nFlags nTx nSaplingValue nFile nDataPos : Z) : CBlockIndex :=
  BlockIndex (blockHash b) (pprev b) (pskip b) (nHeight b) nFile nDataPos 0 (Z.lor (nStatus b) BLOCK_HAVE_DATA)
    nFlags (vStakeModifier b) nSaplingValue None (Chain.nVersion b) (Chain.nTime b) (Chain.nBits b)
    (nChainWork b) nTx 0 (Chain.hashMerkleRoot b) (Chain.hashFinalSaplingRoot b)
    (Chain.nNonce b) (Chain.nAccumulatorCheckpoint b) (nSequenceId b).
Definition set_nChainTx (b : CBlockIndex) (x : Z) : CBlockIndex :=
  BlockIndex (blockHash b) (pprev b) (pskip b) (nHeight b) (nFile b) (nDataPos b) (nUndoPos b) (nStatus b)
    (nFlags b) (vStakeModifier b) (nSaplingValue b) (nChainSaplingValue b) (Chain.nVersion b) (Chain.nTime b) (Chain.nBits b)
    (nChainWork b) (nTx b) x (Chain.hashMerkleRoot b) (Chain.hashFinalSaplingRoot b)
    (Chain.nNonce b) (Chain.nAccumulatorCheckpoint b) (nSequenceId b).
Definition set_nSequenceId (b : CBlockIndex) (x : Z) : CBlockIndex :=
  BlockIndex (blockHash b) (pprev b) (pskip b) (nHeight b) (nFile b) (nDataPos b) (nUndoPos b) (nStatus b)
    (nFlags b) (vStakeModifier b) (nSaplingValue b) (nChainSaplingValue b) (Chain.nVersion b) (Chain.nTime b) (Chain.nBits b)
    (nChainWork b) (nTx b) (nChainTx b) (Chain.hashMerkleRoot b) (Chain.hashFinalSaplingRoot b)
    (Chain.nNonce b) (Chain.nAccumulatorCheckpoint b) x.

(** What the shielded transactions of a block add to the pool. *)
Definition sapling_value (txs : list CTransaction) : outcome unit Z :=
  foldl (fun acc tx =>
    v ← acc;
    if IsShieldedTx tx then
      match sapData tx with
      | Some d => neg ← int64_result (- valueBalance d); int64_result (v + neg)
      | None => Abort
      end
    else Ok v) (Ok 0) txs.

(** One block of the queue is linked. *)
Definition link_block (p : positive) (n : node) : outcome unit node :=
  b ← deref (blocks n) (Some p);
  below ← (match pprev b with None => Ok 0 | Some _ => prev ← deref (blocks n) (pprev b); Ok (nChainTx prev) end);
  b ← SetChainSaplingValue (blocks n) (set_nChainTx b (u32 (below + nTx b)));
  let n := next_sequence (with_blocks n (<[p := set_nSequenceId b (nBlockSequenceId n)]> (blocks n))) in
  Ok (match tip_of n with
      | Some tip => if worse (blocks n) p tip then n else insert_candidate n p
      | None => insert_candidate n p
      end).

(** The queue of descendants; every turn takes the waiting children of a block
    out of [mapBlocksUnlinked]. *)
Fixpoint link_loop (fuel : nat) (queue : list positive) (n : node) : outcome unit node :=
  match queue with
  | [] => Ok n
  | p :: queue =>
      match fuel with
      | O => Abort
      | S fuel =>
          n ← link_block p n;
          let children := map snd (filter (fun e => e.1 = Some p) (mapBlocksUnlinked n)) in
          link_loop fuel (queue ++ children) (with_unlinked n (filter (fun e => e.1 <> Some p) (mapBlocksUnlinked n)))
      end
  end.

Definition ReceivedBlockTransactions (block : CBlock) (pindexNew : positive) (nFile nPos : Z) (n : node) : outcome unit node :=
  b ← deref (blocks n) (Some pindexNew);
  saplingValue ← sapling_value (vtx block);
  let flags := if Block.IsProofOfStake block then Z.lor (nFlags b) BLOCK_PROOF_OF_STAKE else nFlags b in
  r ← RaiseValidity (received b flags (u32 (zlen (vtx block))) saplingValue nFile nPos) BLOCK_VALID_TRANSACTIONS;
  let n := with_dirty (with_blocks n (<[pindexNew := r.1]> (blocks n))) pindexNew in
  match pprev b with
  | None => link_loop (S (length (mapBlocksUnlinked n))) [pindexNew] n
  | Some _ =>
      prev ← deref (blocks n) (pprev b);
      if negb (nChainTx prev =? 0) then link_loop (S (length (mapBlocksUnlinked n))) [pindexNew] n else
      valid ← Chain.IsValid prev BLOCK_VALID_TREE;
      Ok (if valid : bool then with_unlinked n (mapBlocksUnlinked n ++ [(pprev b, pindexNew)]) else n)
  end.

(** ** What the operator declares invalid and valid again *)

(** The tip is marked and disconnected while the block is on the active chain. *)
Fixpoint disconnect_while (fuel : nat) (pindex : positive) (n : node) : outcome unit (bool * node) :=
  i ← Contains (blocks n) (chainActive n) (Some pindex);
  if negb i then Ok (true, n) else
  match fuel, tip_of n with
  | S fuel, Some pindexWalk =>
      let n := set_status n pindexWalk (fun s => Z.lor s BLOCK_FAILED_CHILD) in
      r ← DisconnectTip (erase_candidate (with_dirty n pindexWalk) pindexWalk);
      let '(ok, n) := r in
      if negb ok then cassert (bool_decide (tip_of n <> None));; Ok (false, n) else disconnect_while fuel pindex n
  | _, _ => Abort
  end.

(** A valid block that is not worse than the tip is a candidate again. *)
Definition readd_candidate (p : positive) (n : node) : outcome unit node :=
  b ← deref (blocks n) (Some p);
  valid ← Chain.IsValid b BLOCK_VALID_TRANSACTIONS;
  if negb valid || (nChainTx b =? 0) then Ok n else
  match tip_of n with
  | None => Abort
  | Some tip => Ok (if worse (blocks n) p tip then n else insert_candidate n p)
  end.

(** A loop over [mapBlockIndex]. *)
Fixpoint each (f : positive -> node -> outcome unit node) (l : list positive) (n : node) : outcome unit node :=
  match l with [] => Ok n | p :: l => n ← f p n; each f l n end.
Definition entries (n : node) : list positive := map snd (map_to_list (mapBlockIndex n)).

Definition InvalidateBlock (pindex : positive) (n : node) : outcome unit (bool * node) :=
  deref (blocks n) (Some pindex);;
  let n := erase_candidate (with_dirty (set_status n pindex (fun s => Z.lor s BLOCK_FAILED_VALID)) pindex) pindex in
  r ← disconnect_while (length (chainActive n)) pindex n;
  let '(ok, n) := r in
  if negb ok then Ok (false, n) else
  n ← each readd_candidate (entries n) n;
  n ← InvalidChainFound pindex n;
  Ok (true, n).

Definition reconsider_descendant (nHeight : Z) (pindex : positive) (p : positive) (n : node) : outcome unit node :=
  b ← deref (blocks n) (Some p);
  valid ← Chain.IsValid b BLOCK_VALID_TRANSACTIONS;
  if valid : bool then Ok n else
  a ← GetAncestor (blocks n) p nHeight;
  if negb (bool_decide (a = Some pindex)) then Ok n else
  let n := with_dirty (set_status n p (fun s => Z.ldiff s BLOCK_FAILED_MASK)) p in
  b ← deref (blocks n) (Some p);
  valid ← Chain.IsValid b BLOCK_VALID_TRANSACTIONS;
  n ← (if negb valid || (nChainTx b =? 0) then Ok n else
       match tip_of n with
       | None => Abort
       | Some tip => Ok (if worse (blocks n) tip p then insert_candidate n p else n)
       end);
  Ok (if bool_decide (pindexBestInvalid n = Some p) then with_invalid n None else n).

Fixpoint reconsider_ancestors (fuel : nat) (pindex : ptr) (n : node) : outcome unit node :=
  match pindex with
  | None => Ok n
  | Some p =>
      b ← deref (blocks n) pindex;
      let n := if Z.land (nStatus b) BLOCK_FAILED_MASK =? 0 then n
               else with_dirty (set_status n p (fun s => Z.ldiff s BLOCK_FAILED_MASK)) p in
      match fuel with O => Abort | S fuel => reconsider_ancestors fuel (pprev b) n end
  end.

Definition ReconsiderBlock (pindex : positive) (n : node) : outcome unit node :=
  b ← deref (blocks n) (Some pindex);
  n ← each (reconsider_descendant (nHeight b) pindex) (entries n) n;
  reconsider_ancestors (S (Z.to_nat (nHeight b))) (Some pindex) n.
End Tree.
