(* ===== verification/Activation.v ===== *)
(** * The active chain follows the best candidate

    What the operations of [BestChain] keep and reach: the invariant of the block
    tree and of the active chain, whose coins are those of connecting its blocks
    one after the other, the choice of the best candidate, and the steps that
    move the tip to it. *)
From S2P Require Import Prelude Serialize Hash ArithUint256 Params Chain Pow Script Transaction Block TxVerify BestChain.

(** ** The fields of entries that stay *)

Definition core (b : CBlockIndex) := (pprev b, pskip b, nHeight b, nChainWork b, blockHash b, nSequenceId b, nChainTx b, nTx b, nSaplingValue b, nChainSaplingValue b).
Definition same_tree (st st' : store) : Prop := forall p, core <$> st !! p = core <$> st' !! p.

#[export] Instance same_tree_equiv : Equivalence same_tree.
Proof. split; [by intros st p|by intros st st' H p|intros a b c H1 H2 p; by rewrite (H1 p)]. Qed.

Lemma same_tree_lookup st st' p b : same_tree st st' -> st !! p = Some b -> exists b', st' !! p = Some b' /\ core b' = core b.
Proof. intros H Hb. specialize (H p). rewrite Hb in H. destruct (st' !! p) as [b'|]; [|done]. cbn in H. exists b'. split; [done|congruence]. Qed.
Lemma same_tree_alter st p f : (forall b, core (f b) = core b) -> same_tree st (alter f p st).
Proof.
  intros Hf q. destruct (decide (p = q)) as [<-|Hne]; [|by rewrite lookup_alter_ne].
  rewrite lookup_alter_eq. destruct (st !! p) as [b|]; [|done]. cbn. by rewrite Hf.
Qed.
Lemma core_fields b b' : core b' = core b ->
  pprev b' = pprev b /\ pskip b' = pskip b /\ nHeight b' = nHeight b /\ nChainWork b' = nChainWork b /\ blockHash b' = blockHash b /\
  nSequenceId b' = nSequenceId b /\ nChainTx b' = nChainTx b.
Proof. unfold core. intros [= ]. by split_and!. Qed.

Lemma core_counts b b' : core b' = core b -> nTx b' = nTx b /\ nSaplingValue b' = nSaplingValue b /\ nChainSaplingValue b' = nChainSaplingValue b.
Proof. unfold core. intros [= ]. by split_and!. Qed.

Lemma iter_prev_same st st' n p : same_tree st st' -> iter_prev st n p = iter_prev st' n p.
Proof.
  intros H. apply iter_prev_ext. intros id. specialize (H id). destruct (st !! id), (st' !! id); cbn in *; try done. unfold core in H. congruence.
Qed.
Lemma branch_same st st' id n : same_tree st st' -> branch st id n = branch st' id n.
Proof. intros H. unfold branch. apply list_fmap_ext. intros i k _. by apply iter_prev_same. Qed.
Lemma is_ancestor_same st st' q p : same_tree st st' -> is_ancestor st q p -> is_ancestor st' q p.
Proof. intros H [n Hn]. exists n. by rewrite <- (iter_prev_same st st'). Qed.
Lemma worse_same st st' a b : same_tree st st' -> worse st a b = worse st' a b.
Proof.
  intros H. unfold worse. pose proof (H a) as Ha. pose proof (H b) as Hb.
  destruct (st !! a) as [x|], (st' !! a) as [x'|], (st !! b) as [y|], (st' !! b) as [y'|]; cbn in Ha, Hb; try done.
  unfold work_lt. apply (inj Some) in Ha, Hb. apply core_fields in Ha as (_ & _ & _ & -> & _ & -> & _). by apply core_fields in Hb as (_ & _ & _ & -> & _ & -> & _).
Qed.

(** ** The invariant of the tree *)

Definition work (b : CBlockIndex) : Z := bu_val (nChainWork b).

Section Invariant.
Context (genesis : positive) (block_hash : positive -> uint256).

Record tree_inv (st : store) : Prop := {
  inv_tree : tree_ok st;
  inv_root : forall p b, st !! p = Some b -> pprev b = None -> p = genesis;
  inv_limbs : forall p b, st !! p = Some b -> limbs_ok 8 (nChainWork b);
  inv_work : forall p b q bq, st !! p = Some b -> pprev b = Some q -> st !! q = Some bq -> work bq < work b;
  inv_chaintx : forall p b q bq, st !! p = Some b -> pprev b = Some q -> st !! q = Some bq -> nChainTx b <> 0 -> nChainTx bq <> 0;
  inv_hash : forall p b, st !! p = Some b -> blockHash b = block_hash p;
}.

(** The fields the invariant is about, but for [nChainTx]. *)
Definition shape (b : CBlockIndex) := (pprev b, pskip b, nHeight b, nChainWork b, blockHash b).
Definition linked_up (st : store) : Prop :=
  forall p b q bq, st !! p = Some b -> pprev b = Some q -> st !! q = Some bq -> nChainTx b <> 0 -> nChainTx bq <> 0.

(** The fields that place an entry in the tree. *)
Definition placed (b : CBlockIndex) := (pprev b, pskip b, nHeight b).
Lemma tree_ok_placed st st' : (forall p, placed <$> st !! p = placed <$> st' !! p) -> tree_ok st -> tree_ok st'.
Proof.
  intros H [[Hh Hp] Hs].
  assert (Hget : forall p b, st' !! p = Some b -> exists b0, st !! p = Some b0 /\ placed b0 = placed b).
  { intros p b Hq. specialize (H p). rewrite Hq in H. destruct (st !! p) as [b0|]; [|done]. exists b0. split; [done|]. cbn in H. congruence. }
  assert (Hi : forall n p, iter_prev st n p = iter_prev st' n p).
  { intros n p. apply iter_prev_ext. intros id. specialize (H id). destruct (st !! id), (st' !! id); cbn in *; try done. unfold placed in H. congruence. }
  split; [split|].
  - intros p b Hq. destruct (Hget p b Hq) as (b0 & H0 & [= _ _ <-]). by apply (Hh p).
  - intros p b Hq. destruct (Hget p b Hq) as (b0 & H0 & [= E1 _ <-]). specialize (Hp p b0 H0). rewrite E1 in Hp.
    destruct (pprev b) as [q|]; [|done]. destruct Hp as (bq & Hbq & ->). specialize (H q). rewrite Hbq in H.
    destruct (st' !! q) as [bq'|]; [|done]. cbn in H. unfold placed in H. exists bq'. split; [done|congruence].
  - intros p b Hq Hne. destruct (Hget p b Hq) as (b0 & H0 & [= E1 <- <-]). rewrite <- Hi. apply (Hs p b0 H0). congruence.
Qed.
Lemma tree_inv_shape st st' : (forall p, shape <$> st !! p = shape <$> st' !! p) -> linked_up st' -> tree_inv st -> tree_inv st'.
Proof.
  intros H Hc' [Ht Hr Hl Hw _ Hb].
  assert (Hget : forall p b, st' !! p = Some b -> exists b0, st !! p = Some b0 /\ shape b0 = shape b).
  { intros p b Hq. specialize (H p). rewrite Hq in H. destruct (st !! p) as [b0|]; [|done]. exists b0. split; [done|]. cbn in H. congruence. }
  split; [| | | |exact Hc'|].
  - apply (tree_ok_placed st); [|done]. intros p. specialize (H p). destruct (st !! p), (st' !! p); cbn in H |- *; try done. unfold shape in H. unfold placed. congruence.
  - intros p b Hq Hn. destruct (Hget p b Hq) as (b0 & H0 & [= E1 _ _ _ _]). apply (Hr p b0); congruence.
  - intros p b Hq. destruct (Hget p b Hq) as (b0 & H0 & [= _ _ _ <- _]). by apply (Hl p).
  - intros p b q bq Hq Ep Hbq. destruct (Hget p b Hq) as (b0 & H0 & [= E1 _ _ E2 _]), (Hget q bq Hbq) as (q0 & Hq0 & [= _ _ _ E3 _]).
    unfold work. rewrite <- E2, <- E3. apply (Hw p b0 q q0); congruence.
  - intros p b Hq. destruct (Hget p b Hq) as (b0 & H0 & [= _ _ _ _ <-]). by apply Hb.
Qed.
Lemma tree_inv_same st st' : same_tree st st' -> tree_inv st -> tree_inv st'.
Proof.
  intros H Hi. apply (tree_inv_shape st); [| |done].
  - intros p. specialize (H p). destruct (st !! p), (st' !! p); cbn in *; try done. unfold core in H. unfold shape. congruence.
  - symmetry in H. intros p b q bq Hb Hq Hbq. destruct (same_tree_lookup _ _ p b H Hb) as (b0 & H0 & (E1 & _ & _ & _ & _ & _ & <-)%core_fields).
    destruct (same_tree_lookup _ _ q bq H Hbq) as (q0 & Hq0 & (_ & _ & _ & _ & _ & _ & <-)%core_fields). apply (inv_chaintx st Hi p b0 q q0); congruence.
Qed.

(** Ancestors have less work. *)
Lemma ancestor_work st p q b bq : tree_inv st -> st !! p = Some b -> st !! q = Some bq -> is_ancestor st q p -> q = p \/ work bq < work b.
Proof.
  intros Hi Hb Hq [n Hn]. revert p b Hb Hn. induction n as [|n IH]; intros p b Hb Hn; cbn [iter_prev] in Hn; [left; congruence|].
  rewrite Hb in Hn. pose proof (tree_prev st (proj1 (inv_tree st Hi)) p b Hb) as Hp. destruct (pprev b) as [r|] eqn:Er; [|by rewrite iter_prev_None in Hn].
  destruct Hp as (br & Hr & _). pose proof (inv_work st Hi p b r br Hb Er Hr) as Hlt. right.
  destruct (IH r br Hr Hn) as [->|]; [|lia]. congruence.
Qed.
(** A descendant of the tip is not worse than it. *)
Lemma descendant_not_worse st p q : tree_inv st -> is_Some (st !! p) -> is_ancestor st q p -> worse st p q = false.
Proof.
  intros Hi [b Hb] Ha. unfold worse. rewrite Hb. destruct (st !! q) as [bq|] eqn:Hq; [|done].
  pose proof (inv_limbs st Hi p b Hb) as L1. pose proof (inv_limbs st Hi q bq Hq) as L2. unfold work_lt. rewrite (CompareTo_sgn 8) by done.
  destruct (ancestor_work st p q b bq Hi Hb Hq Ha) as [->|Hlt].
  - assert (bq = b) as -> by congruence. rewrite Z.sub_diag. cbn. by rewrite Z.ltb_irrefl, Pos.ltb_irrefl.
  - unfold work in Hlt. by rewrite (Z.sgn_pos (bu_val (nChainWork b) - _)) by lia.
Qed.
End Invariant.

(** ** The laws of the coins *)

(** Coins are compared up to an equivalence, which connecting respects;
    disconnecting takes back what connecting did; the coins know their best
    block; the mark of a connected block is in the status of the entry. *)
Class ChainStateLaws (C : Type) `{!ChainState C} `{!Equiv C} (block_hash : positive -> uint256) := {
  coins_equivalence : Equivalence (≡@{C});
  connect_proper : forall p c c0 c', c ≡ c0 -> connect_block p c = Connected c' -> exists c0', connect_block p c0 = Connected c0' /\ c' ≡ c0';
  disconnect_connect : forall p c0 c0' c' c, connect_block p c0 = Connected c0' -> c' ≡ c0' -> disconnect_block p c' = Some c -> c ≡ c0;
  best_proper : forall c c' : C, c ≡ c' -> coins_best c = coins_best c';
  best_connect : forall p c c', connect_block p c = Connected c' -> coins_best c' = block_hash p;
  (** [ConnectBlock] turns what may be a corruption into a system error. *)
  rejected_surely : forall p c, connect_block p c <> Rejected true;
  mark_core : forall b, core (mark_connected b) = core b;
  mark_failed : forall b, Z.land (nStatus (mark_connected b)) BLOCK_FAILED_MASK = Z.land (nStatus b) BLOCK_FAILED_MASK;
  mark_data : forall b, Z.land (nStatus (mark_connected b)) BLOCK_HAVE_DATA = Z.land (nStatus b) BLOCK_HAVE_DATA;
}.

Section Coins.
Context {C : Type} `{!ChainState C} `{!Equiv C} (start : C) (genesis : positive) (block_hash : positive -> uint256).
Context `{!ChainStateLaws C block_hash}.
Notation node := (node C).
#[local] Existing Instance coins_equivalence.

(** The coins [c] are those of connecting the blocks from the genesis block to
    [p] one after the other. *)
Inductive coins_at (st : store) : positive -> C -> Prop :=
| coins_genesis p b c' c : st !! p = Some b -> pprev b = None -> connect_block p start = Connected c' -> c ≡ c' -> coins_at st p c
| coins_next p b q cq c' c : st !! p = Some b -> pprev b = Some q -> coins_at st q cq -> connect_block p cq = Connected c' -> c ≡ c' -> coins_at st p c.

Lemma coins_at_same st st' p c : same_tree st st' -> coins_at st p c -> coins_at st' p c.
Proof.
  intros H. induction 1 as [p b c' c Hb Hp Hc Hq|p b q cq c' c Hb Hp Hq IH Hc He].
  - destruct (same_tree_lookup st st' p b H Hb) as (b' & Hb' & (E & _)%core_fields). eapply coins_genesis; [done|congruence|done..].
  - destruct (same_tree_lookup st st' p b H Hb) as (b' & Hb' & (E & _)%core_fields). eapply coins_next; [done|rewrite E; exact Hp|done..].
Qed.
Lemma coins_at_proper st p c c0 : coins_at st p c -> c0 ≡ c -> coins_at st p c0.
Proof. intros [? b c' ? Hb Hp Hc He|? b q cq c' ? Hb Hp Hq Hc He] E; [eapply coins_genesis|eapply coins_next]; first [done|by etransitivity]. Qed.
Lemma coins_at_best st p c : coins_at st p c -> coins_best c = block_hash p.
Proof. intros [? b c' ? Hb Hp Hc He|? b q cq c' ? Hb Hp Hq Hc He]; rewrite (best_proper _ _ He); by eapply best_connect. Qed.
Lemma coins_at_connect st p b q c c' : st !! p = Some b -> pprev b = Some q -> coins_at st q c -> connect_block p c = Connected c' -> coins_at st p c'.
Proof. intros. by eapply coins_next. Qed.
Lemma coins_at_disconnect st p b q c c' : st !! p = Some b -> pprev b = Some q -> coins_at st p c -> disconnect_block p c = Some c' -> coins_at st q c'.
Proof.
  intros Hb Hq Hat Hd. revert Hb Hd. destruct Hat as [? b' c1 ? Hb' Hp Hc He|? b' q' cq c1 ? Hb' Hp Hcq Hc He]; intros Hb Hd; [congruence|]. assert (q' = q) as -> by congruence.
  eapply coins_at_proper; [exact Hcq|]. by eapply disconnect_connect.
Qed.

(** ** The invariant of a node *)

Definition failed (n : node) (p : positive) : Prop := exists b, blocks n !! p = Some b /\ Z.land (nStatus b) BLOCK_FAILED_MASK <> 0.

Definition missing (n : node) (p : positive) : Prop := exists b, blocks n !! p = Some b /\ Z.land (nStatus b) BLOCK_HAVE_DATA = 0.

Definition unusable (n : node) (p : positive) : Prop := failed n p \/ missing n p.

Record node_inv (n : node) : Prop := {
  node_tree : tree_inv genesis block_hash (blocks n);
  node_candidates : forall p, p ∈ setBlockIndexCandidates n -> exists b, blocks n !! p = Some b /\ nChainTx b <> 0;
  node_invalid : forall p, pindexBestInvalid n = Some p -> is_Some (blocks n !! p);
}.

(** The active chain is the branch of [tip], and the coins are those of it. *)
Definition at_tip (n : node) (tip : positive) : Prop :=
  exists b, blocks n !! tip = Some b /\ chainActive n = branch (blocks n) tip (Z.to_nat (nHeight b)) /\ coins_at (blocks n) tip (pcoinsTip n).

(** What a step may change: the status of entries, where nothing that failed is
    forgiven and no data comes or goes, and fewer candidates: those with a block
    that cannot be used, and those worse than a block whose chain connects. *)
Record extends (n n' : node) : Prop := {
  ext_tree : same_tree (blocks n) (blocks n');
  ext_candidates : setBlockIndexCandidates n' ⊆ setBlockIndexCandidates n;
  ext_failed : forall p, failed n p -> failed n' p;
  ext_missing : forall p, missing n p <-> missing n' p;
  ext_lost : forall c, c ∈ setBlockIndexCandidates n -> c ∈ setBlockIndexCandidates n' \/
    (exists t, is_ancestor (blocks n) t c /\ unusable n' t) \/ (exists x cs, coins_at (blocks n) x cs /\ worse (blocks n) c x = true);
  ext_index : mapBlockIndex n' = mapBlockIndex n;
  ext_unlinked : forall e, e ∈ mapBlocksUnlinked n' -> e ∈ mapBlocksUnlinked n \/
    exists b q, blocks n !! e.2 = Some b /\ pprev b = Some q /\ e.1 = Some q /\ nChainTx b <> 0;
}.
#[export] Instance extends_preorder : PreOrder extends.
Proof.
  split; [intros n; split; try done; intros c; by left|].
  intros a b c [T1 C1 F1 M1 L1 I1 U1] [T2 C2 F2 M2 L2 I2 U2]. symmetry in T1.
  split; [by etransitivity; [symmetry|]|set_solver|auto|intros p; by rewrite M1| |congruence|].
  2: { intros e [He|(x & q & Hx & Hp & E & Hc)]%U2; [by apply U1|right]. destruct (same_tree_lookup _ _ e.2 x T1 Hx) as (x' & Hx' & (Ep & _ & _ & _ & _ & _ & Ec)%core_fields).
       exists x', q. split_and!; [done|congruence|done|congruence]. }
  intros x Hx. destruct (L1 x Hx) as [Hin|[(t & Ha & Hu)|?]]; [|right; left; exists t; split; [done|destruct Hu as [?|Hm]; [left; auto|right; by apply M2]]|by right; right].
  destruct (L2 x Hin) as [?|[(t & Ha & Hu)|(y & cs & Hy & Hw)]]; [by left|right; left; exists t; split; [by eapply is_ancestor_same|done]|].
  right; right. exists y, cs. split; [by eapply coins_at_same|]. rewrite <- (worse_same (blocks b) (blocks a)); done.
Qed.

Lemma tip_of_branch n tip : at_tip n tip -> tip_of n = Some tip.
Proof.
  intros (b & Hb & E & _). unfold tip_of. rewrite E, last_lookup, branch_length. cbn [Nat.pred]. rewrite branch_lookup by done. by rewrite Nat.sub_diag.
Qed.
Lemma at_tip_blocks n n' tip : same_tree (blocks n) (blocks n') -> chainActive n' = chainActive n -> pcoinsTip n' = pcoinsTip n ->
  at_tip n tip -> at_tip n' tip.
Proof.
  intros H Ec Ep (b & Hb & E & Hc). destruct (same_tree_lookup _ _ tip b H Hb) as (b' & Hb' & (_ & _ & Eh & _)%core_fields).
  exists b'. split; [done|]. rewrite Ec, Ep, E, Eh. split; [by apply branch_same|by eapply coins_at_same].
Qed.


(** A change of the status of one entry. *)
Lemma change_extends n n' p f : blocks n' = alter f p (blocks n) -> mapBlockIndex n' = mapBlockIndex n -> setBlockIndexCandidates n' = setBlockIndexCandidates n -> mapBlocksUnlinked n' = mapBlocksUnlinked n ->
  (forall b, core (f b) = core b) -> (forall b, Z.land (nStatus b) BLOCK_FAILED_MASK <> 0 -> Z.land (nStatus (f b)) BLOCK_FAILED_MASK <> 0) ->
  (forall b, Z.land (nStatus (f b)) BLOCK_HAVE_DATA = Z.land (nStatus b) BLOCK_HAVE_DATA) -> extends n n'.
Proof.
  intros Eb Em Ec Eu Hf Hfail Hdata. split; [rewrite Eb; by apply same_tree_alter|by rewrite Ec| | |intros c; rewrite Ec; by left|done|rewrite Eu; by left];
    unfold failed, missing; rewrite Eb; intros q.
  - intros (b & Hb & Hs). destruct (decide (p = q)) as [<-|Hne]; [rewrite lookup_alter_eq, Hb; eexists; split; [reflexivity|by apply Hfail]|rewrite lookup_alter_ne by done; by exists b].
  - destruct (decide (p = q)) as [<-|Hne]; [|by rewrite lookup_alter_ne by done]. rewrite lookup_alter_eq. split.
    + intros (b & Hb & Hs). rewrite Hb. eexists. split; [reflexivity|]. by rewrite Hdata.
    + destruct (blocks n !! p) as [b|]; [|by intros (? & ? & _)]. intros (b' & [= <-] & Hs). exists b. by rewrite <- Hdata.
Qed.
Lemma set_status_extends n p m : Z.land m BLOCK_HAVE_DATA = 0 -> extends n (set_status n p (fun s => Z.lor s m)).
Proof.
  intros Hm. apply (change_extends _ _ p (fun b => set_nStatus b (Z.lor (nStatus b) m))); try done.
  - intros b Hf E. apply Hf. cbn [nStatus set_nStatus] in E. rewrite Z.land_lor_distr_l in E. by apply Z.lor_eq_0_iff in E as [E _].
  - intros b. cbn [nStatus set_nStatus]. by rewrite Z.land_lor_distr_l, Hm, Z.lor_0_r.
Qed.
Lemma unusable_change n n' p f q : blocks n' = alter f p (blocks n) ->
  (forall b, Z.land (nStatus (f b)) BLOCK_FAILED_MASK = Z.land (nStatus b) BLOCK_FAILED_MASK) ->
  (forall b, Z.land (nStatus (f b)) BLOCK_HAVE_DATA = Z.land (nStatus b) BLOCK_HAVE_DATA) -> unusable n' q -> unusable n q.
Proof.
  intros Eb Hfail Hdata. unfold unusable, failed, missing. rewrite Eb. destruct (decide (p = q)) as [<-|Hne]; [|by rewrite lookup_alter_ne].
  rewrite lookup_alter_eq. destruct (blocks n !! p) as [b|]; cbn; [|intros [(? & ? & _)|(? & ? & _)]; done].
  intros [(? & [= <-] & H)|(? & [= <-] & H)]; [left|right]; exists b; split; [done|by rewrite <- Hfail|done|by rewrite <- Hdata].
Qed.
Lemma node_inv_extends n n' : extends n n' -> (forall p, pindexBestInvalid n' = Some p -> is_Some (blocks n' !! p)) -> node_inv n -> node_inv n'.
Proof.
  intros [T Hc _ _ _ _ _] Hi [H1 H2 H3]. split; [by eapply tree_inv_same| |done].
  intros p Hp. destruct (H2 p) as (b & Hb & Ht); [set_solver|]. destruct (same_tree_lookup _ _ p b T Hb) as (b' & Hb' & (_ & _ & _ & _ & _ & _ & E)%core_fields).
  exists b'. split; [done|congruence].
Qed.
Lemma some_extends n n' p : extends n n' -> is_Some (blocks n !! p) -> is_Some (blocks n' !! p).
Proof. intros [T _ _ _ _ _ _] [b Hb]. destruct (same_tree_lookup _ _ p b T Hb) as (b' & Hb' & _). by exists b'. Qed.

(** ** Moving the tip *)

Lemma at_tip_new n p b c : tree_inv genesis block_hash (blocks n) -> (exists tip, at_tip n tip) -> blocks n !! p = Some b -> coins_at (blocks n) p c ->
  exists n', UpdateTip (Some p) c n = Ok n' /\ at_tip n' p /\ n' = with_tip n (chainActive n') c.
Proof.
  intros Hi (tip & bt & Ht & Ec & _) Hb Hc. unfold UpdateTip. cbn [deref]. rewrite Hb. cbn [mbind outcome_bind].
  rewrite (SetTip_branch _ _ p b); [|apply (inv_tree _ _ _ Hi)|rewrite Ec; right; by exists tip, bt|done]. cbn [mbind outcome_bind].
  eexists. split; [done|]. split; [|done]. exists b. by split_and!.
Qed.

Lemma DisconnectTip_spec n tip b q : node_inv n -> at_tip n tip -> blocks n !! tip = Some b -> pprev b = Some q ->
  exists ok n', DisconnectTip n = Ok (ok, n') /\ at_tip n' (if ok then q else tip) /\ n' = with_tip n (chainActive n') (pcoinsTip n').
Proof.
  intros Hi Ht Hb Hq. unfold DisconnectTip. rewrite (tip_of_branch n tip Ht). cbn [deref]. rewrite Hb. cbn [mbind outcome_bind].
  pose proof Ht as (b' & Hb' & _ & Hc). assert (b' = b) as -> by congruence.
  rewrite bool_decide_eq_true_2; [|by rewrite (coins_at_best _ _ _ Hc), (inv_hash _ _ _ (node_tree n Hi) tip b Hb)]. cbn [cassert mbind outcome_bind].
  destruct (disconnect_block tip (pcoinsTip n)) as [c|] eqn:Hd; [|exists false, n; split_and!; [done|done|by destruct n]].
  pose proof (tree_prev _ (proj1 (inv_tree _ _ _ (node_tree n Hi))) tip b Hb) as Hp. rewrite Hq in Hp |- *. destruct Hp as (bq & Hbq & _).
  destruct (at_tip_new n q bq c) as (n' & -> & Hat & E); [apply Hi|by exists tip|done|exact (coins_at_disconnect _ tip b q _ c Hb Hq Hc Hd)|].
  exists true, n'. split_and!; [done|done|]. rewrite E at 1. by rewrite E at 3.
Qed.

Lemma with_tip_extends n chain c : extends n (with_tip n chain c).
Proof. split; try done; intros x; by left. Qed.

Lemma disconnect_to_eq fuel pindexFork f (n : node) : disconnect_to fuel pindexFork f n =
  if bool_decide (tip_of n = None) || bool_decide (tip_of n = pindexFork) then Ok (true, f, n) else
  match fuel with
  | O => Abort
  | S fuel => r ← DisconnectTip n; let '(ok, n) := r in if negb ok then Ok (false, f, n) else disconnect_to fuel pindexFork true n
  end.
Proof. by destruct fuel. Qed.

(** Down to an ancestor of the tip. *)
Lemma disconnect_to_spec k : forall fuel n tip fork f0, node_inv n -> at_tip n tip -> iter_prev (blocks n) k (Some tip) = Some fork -> (k <= fuel)%nat ->
  exists ok f n' tip', disconnect_to fuel (Some fork) f0 n = Ok (ok, f, n') /\ at_tip n' tip' /\ n' = with_tip n (chainActive n') (pcoinsTip n') /\
    is_ancestor (blocks n) tip' tip /\ (ok = true -> tip' = fork).
Proof.
  induction k as [|k IH]; intros fuel n tip fork f0 Hi Ht Hk Hf; rewrite disconnect_to_eq, (tip_of_branch n tip Ht).
  - injection Hk as <-. exists true, f0, n, tip. rewrite (bool_decide_eq_true_2 (Some tip = Some tip)), orb_true_r by done. split_and!; [done|done|by destruct n|by exists O|done].
  - destruct fuel as [|fuel]; [lia|]. destruct (decide (Some tip = Some fork)) as [E|Hne].
    { injection E as <-. exists true, f0, n, tip. rewrite (bool_decide_eq_true_2 (Some tip = Some tip)), orb_true_r by done. split_and!; [done|done|by destruct n|by exists O|done]. }
    rewrite (bool_decide_eq_false_2 (Some tip = None)), (bool_decide_eq_false_2 (Some tip = Some fork)) by done. cbn [orb].
    cbn [iter_prev] in Hk. destruct Ht as (b & Hb & Hat). rewrite Hb in Hk. destruct (pprev b) as [q|] eqn:Hq; [|by rewrite iter_prev_None in Hk].
    destruct (DisconnectTip_spec n tip b q) as (ok & n1 & -> & Ht1 & E1); [done|by exists b|done..|]. cbn [mbind outcome_bind].
    assert (blocks n1 = blocks n) as Eb by by rewrite E1.
    destruct ok; cbn [negb]; [|exists false, f0, n1, tip; split_and!; [done|done|done|by exists O|done]].
    destruct (IH fuel n1 q fork true) as (ok & f & n2 & tip' & E & Ht2 & E2 & Ha & Hok); [|done|by rewrite Eb|lia|].
    { eapply node_inv_extends; [rewrite E1; apply with_tip_extends|rewrite E1; apply Hi|done]. }
    exists ok, f, n2, tip'. split_and!; [done|done| | |done].
    + rewrite E2 at 1. rewrite E1. cbn. by rewrite E2 at 3.
    + rewrite Eb in Ha. destruct Ha as [j Hj]. exists (S j). cbn [iter_prev]. by rewrite Hb, Hq.
Qed.

Lemma failed_blocks n n' p : blocks n' = blocks n -> failed n p <-> failed n' p.
Proof. unfold failed. by intros ->. Qed.
Lemma extends_same_blocks n n' : blocks n' = blocks n -> mapBlockIndex n' = mapBlockIndex n -> setBlockIndexCandidates n' = setBlockIndexCandidates n ->
  (forall e, e ∈ mapBlocksUnlinked n' -> e ∈ mapBlocksUnlinked n \/
    exists b q, blocks n !! e.2 = Some b /\ pprev b = Some q /\ e.1 = Some q /\ nChainTx b <> 0) -> extends n n'.
Proof. intros Eb Em Hc Hu. split; [by rewrite Eb|by rewrite Hc|intros p; by apply failed_blocks|unfold missing; by rewrite Eb|rewrite Hc; by left|done|done]. Qed.
Lemma extends_side n n' : blocks n' = blocks n -> mapBlockIndex n' = mapBlockIndex n -> setBlockIndexCandidates n' = setBlockIndexCandidates n ->
  mapBlocksUnlinked n' = mapBlocksUnlinked n -> extends n n'.
Proof. intros ? ? ? E. apply extends_same_blocks; [done..|]. rewrite E. by left. Qed.
Lemma unusable_extends n n' p : extends n n' -> unusable n p -> unusable n' p.
Proof. intros X [H|H]; [left; by apply X|right; by apply X]. Qed.
Lemma erase_extends n p t : is_ancestor (blocks n) t p -> unusable n t -> extends n (erase_candidate n p).
Proof.
  intros Ha Hu. split; try done; [cbn; set_solver| |by left]. intros c Hc. destruct (decide (c = p)) as [->|Hne]; [|left; cbn; set_solver].
  right; left. by exists t.
Qed.

Lemma InvalidChainFound_spec n tip p : node_inv n -> at_tip n tip -> is_Some (blocks n !! p) ->
  exists n', InvalidChainFound p n = Ok n' /\ extends n n' /\ node_inv n' /\ at_tip n' tip.
Proof.
  intros Hi Ht [b Hb]. unfold InvalidChainFound. cbn [deref]. rewrite Hb. cbn [mbind outcome_bind].
  assert (exists worst, match pindexBestInvalid n with
    | None => Ok true
    | Some _ => inv ← deref (blocks n) (pindexBestInvalid n); Ok (0 <? CompareTo (nChainWork b) (nChainWork inv))
    end = Ok worst) as [worst ->].
  { destruct (pindexBestInvalid n) as [q|] eqn:Eq; [|by exists true]. destruct (node_invalid n Hi q Eq) as [bq Hq]. cbn [deref]. rewrite Hq. by eexists. }
  cbn [mbind outcome_bind]. assert (tip_of (if worst then with_invalid n (Some p) else n) = Some tip) as ->.
  { rewrite <- (tip_of_branch n tip Ht). by destruct worst. }
  rewrite bool_decide_eq_true_2 by done. cbn [cassert mbind outcome_bind]. eexists. split; [done|]. split_and!.
  - destruct worst; [by apply extends_side|done].
  - destruct worst; [|done]. apply (node_inv_extends n); [by apply extends_side| |exact Hi]. intros q [= <-]. by exists b.
  - destruct worst; [|done]. by apply (at_tip_blocks n).
Qed.

Lemma InvalidBlockFound_spec n tip p : node_inv n -> at_tip n tip -> is_Some (blocks n !! p) ->
  exists n', InvalidBlockFound p false n = Ok n' /\ extends n n' /\ node_inv n' /\ at_tip n' tip /\ failed n' p.
Proof.
  intros Hi Ht [b Hb]. unfold InvalidBlockFound. set (n1 := set_status n p (fun s => Z.lor s BLOCK_FAILED_VALID)).
  assert (X1 : extends n n1) by by apply set_status_extends. set (n2 := erase_candidate (with_dirty n1 p) p).
  assert (Hf1 : failed n1 p). { eexists. split; [cbn; by rewrite lookup_alter_eq, Hb|]. cbn [nStatus set_nStatus]. intros E.
    rewrite Z.land_lor_distr_l in E. apply Z.lor_eq_0_iff in E as [_ E]. done. }
  assert (X2 : extends n1 n2). { transitivity (with_dirty n1 p); [by apply extends_side|]. apply (erase_extends _ _ p); [by exists O|by left]. }
  assert (X : extends n n2) by (by etransitivity).
  assert (Hf : failed n2 p). { eexists. split; [cbn; by rewrite lookup_alter_eq, Hb|]. cbn [nStatus set_nStatus]. intros E.
    rewrite Z.land_lor_distr_l in E. apply Z.lor_eq_0_iff in E as [_ E]. done. }
  destruct (InvalidChainFound_spec n2 tip p) as (n' & -> & X3 & Hi3 & Ht3).
  - eapply node_inv_extends; [exact X| |exact Hi]. intros q Hq. eapply some_extends; [exact X|]. by apply (node_invalid n Hi).
  - apply (at_tip_blocks n); [apply X|done..].
  - eapply some_extends; [exact X|by exists b].
  - exists n'. split_and!; [done|by etransitivity|done|done|by apply X3].
Qed.

Lemma Prune_spec n tip c : node_inv n -> at_tip n tip -> c ∈ setBlockIndexCandidates n -> worse (blocks n) c tip = false ->
  exists n', PruneBlockIndexCandidates n = Ok n' /\ extends n n' /\ node_inv n' /\ at_tip n' tip /\ c ∈ setBlockIndexCandidates n' /\ blocks n' = blocks n.
Proof.
  intros Hi Ht Hc Hw. unfold PruneBlockIndexCandidates. rewrite (tip_of_branch n tip Ht). set (left := filter _ _).
  assert (Hin : c ∈ left) by by apply elem_of_filter. rewrite bool_decide_eq_false_2 by set_solver. cbn [negb cassert mbind outcome_bind].
  eexists. split; [done|]. assert (X : extends n (with_candidates n left)).
  { split; try done; [cbn; unfold left; set_solver| |by left]. intros x Hx. destruct (worse (blocks n) x tip) eqn:E; [|left; by apply elem_of_filter].
    right; right. destruct Ht as (bt & _ & _ & Hct). by exists tip, (pcoinsTip n). }
 
  split_and!; [exact X| |by apply (at_tip_blocks n)|done|done]. eapply node_inv_extends; [exact X|apply Hi|exact Hi].
Qed.

Lemma ConnectTip_spec n tip p b : node_inv n -> at_tip n tip -> blocks n !! p = Some b -> pprev b = Some tip ->
  exists r n', ConnectTip p n = Ok (r, n') /\ extends n n' /\ node_inv n' /\
    match r with
    | TipConnected => at_tip n' p /\ setBlockIndexCandidates n' = setBlockIndexCandidates n /\ forall q, unusable n' q -> unusable n q
    | TipInvalid corruption => corruption = false /\ at_tip n' tip /\ failed n' p
    | TipFailed => n' = n
    end.
Proof.
  intros Hi Ht Hb Hp. unfold ConnectTip. cbn [deref]. rewrite Hb. cbn [mbind outcome_bind].
  rewrite bool_decide_eq_true_2 by by rewrite (tip_of_branch n tip Ht). cbn [cassert mbind outcome_bind].
  destruct (connect_block p (pcoinsTip n)) as [c|[]|] eqn:Hc; [|by apply rejected_surely in Hc| |by exists TipFailed, n].
  - set (n1 := with_dirty _ p). assert (X1 : extends n n1).
    { apply (change_extends _ _ p mark_connected); try done; [apply mark_core|intros b0; by rewrite mark_failed|apply mark_data]. }
    assert (Hi1 : node_inv n1). { eapply node_inv_extends; [exact X1| |exact Hi]. intros q Hq. eapply some_extends; [exact X1|]. by apply (node_invalid n Hi). }
    destruct (same_tree_lookup _ _ p b (ext_tree _ _ X1) Hb) as (b1 & Hb1 & (Ep & _)%core_fields).
    destruct (at_tip_new n1 p b1 c) as (n' & -> & Hat & E); [apply Hi1|exists tip; by apply (at_tip_blocks n); [apply X1|..]|done| |].
    { destruct Ht as (bt & Hbt & _ & Hct). eapply coins_at_connect; [exact Hb1|by rewrite Ep|by eapply coins_at_same; [apply X1|]|exact Hc]. }
    exists TipConnected, n'. cbn [mbind outcome_bind]. split_and!; [done| | |done|by rewrite E|].
    + etransitivity; [exact X1|]. rewrite E. apply with_tip_extends.
    + rewrite E. eapply node_inv_extends; [apply with_tip_extends|apply Hi1|exact Hi1].
    + intros q. apply (unusable_change n n' p mark_connected); [by rewrite E|apply mark_failed|apply mark_data].
  - destruct (InvalidBlockFound_spec n tip p) as (n' & -> & X & Hi' & Ht' & Hf); [done|done|by exists b|].
    by exists (TipInvalid false), n'.
Qed.

(** ** Connecting a path *)

(** [l] leads from [tip] upwards. *)
Fixpoint linked (st : store) (tip : positive) (l : list positive) : Prop :=
  match l with
  | [] => True
  | p :: l => (exists b, st !! p = Some b /\ pprev b = Some tip) /\ linked st p l
  end.
Lemma linked_same st st' l : forall tip, same_tree st st' -> linked st tip l -> linked st' tip l.
Proof.
  induction l as [|p l IH]; intros tip H; cbn [linked]; [done|]. intros [(b & Hb & Hp) Hl]. split; [|by apply IH].
  destruct (same_tree_lookup st st' p b H Hb) as (b' & Hb' & (E & _)%core_fields). exists b'. split; [done|congruence].
Qed.

Definition work_at (n : node) (p : positive) : Z := match blocks n !! p with Some b => work b | None => 0 end.
Lemma work_at_extends n n' p : extends n n' -> work_at n' p = work_at n p.
Proof.
  intros [T _ _ _ _ _ _]. unfold work_at. specialize (T p). destruct (blocks n !! p), (blocks n' !! p); cbn in T; try done.
  apply (inj Some) in T. apply core_fields in T as (_ & _ & _ & E & _). unfold work. by rewrite E.
Qed.

(** How connecting the blocks [l] above [tip] ends. *)
Definition connected_by (n n' : node) (old tip most : positive) (l : list positive) (r : step_result) (tip' : positive) : Prop :=
  match r with
  | StepContinue => tip' = default tip (last l) /\ most ∈ setBlockIndexCandidates n' /\ forall q, unusable n' q -> unusable n q
  | StepStop => tip' ∈ l /\ work_at n old < work_at n tip' /\ most ∈ setBlockIndexCandidates n' /\ forall q, unusable n' q -> unusable n q
  | StepInvalid => tip' ∈ tip :: l /\ exists p, p ∈ l /\ failed n' p
  | StepFailed => tip' ∈ tip :: l
  end.

Lemma connect_all_spec old most low l : forall n tip, node_inv n -> at_tip n tip -> is_Some (blocks n !! old) -> is_Some (blocks n !! most) ->
  linked (blocks n) tip l -> Forall (fun p => is_ancestor (blocks n) p most) l -> most ∈ setBlockIndexCandidates n ->
  (l <> [] -> exists p, low = Some p /\ is_Some (blocks n !! p)) ->
  exists r n' tip', connect_all (Some old) low l n = Ok (r, n') /\ extends n n' /\ node_inv n' /\ at_tip n' tip' /\ connected_by n n' old tip most l r tip'.
Proof.
  induction l as [|p l IH]; intros n tip Hi Ht Hold Hmost Hl Ha Hm Hlow; cbn [connect_all].
  { exists StepContinue, n, tip. by split_and!. }
  cbn [linked] in Hl. destruct Hl as [(b & Hb & Hp) Hl]. apply Forall_cons in Ha as [Hap Ha].
  destruct (ConnectTip_spec n tip p b Hi Ht Hb Hp) as (r & n1 & -> & X1 & Hi1 & Hr). cbn [mbind outcome_bind].
  destruct r as [|corruption|].
  - destruct Hr as (Ht1 & Ec & Hu1). assert (T1 := ext_tree _ _ X1).
    destruct (Prune_spec n1 p most Hi1 Ht1) as (n2 & -> & X2 & Hi2 & Ht2 & Hm2 & Eb); [by rewrite Ec| |].
    { apply (descendant_not_worse genesis block_hash); [apply Hi1|by eapply some_extends|by eapply is_ancestor_same]. }
    cbn [mbind outcome_bind]. assert (X : extends n n2) by by etransitivity. rewrite (tip_of_branch n2 p Ht2).
    assert (Hu : forall q, unusable n2 q -> unusable n q) by (intros q Hq; apply Hu1; revert Hq; unfold unusable, failed, missing; by rewrite Eb).
    destruct (some_extends n n2 old X Hold) as [bo Hbo]. pose proof Ht2 as (bp & Hbp & _). cbn [deref]. rewrite Hbo. cbn [mbind outcome_bind]. rewrite Hbp. cbn [mbind outcome_bind].
    rewrite (bu_gt 8) by (eapply (inv_limbs _ _ _ (node_tree n2 Hi2)); done).
    destruct (Z.ltb_spec (bu_val (nChainWork bo)) (bu_val (nChainWork bp))) as [Hlt|Hge].
    + exists StepStop, n2, p. split_and!; try done. split; [by left|]. split; [|done].
      rewrite <- (work_at_extends n n2 old X), <- (work_at_extends n n2 p X). unfold work_at. by rewrite Hbo, Hbp.
    + destruct (IH n2 p) as (r & n' & tip' & E & X3 & Hi3 & Ht3 & Hc); [done|done|by exists bo|by eapply some_extends| | |done| |].
      * eapply linked_same; [apply X|done].
      * eapply Forall_impl; [exact Ha|]. intros q Hq. eapply is_ancestor_same; [apply X|exact Hq].
      * intros _. destruct Hlow as (q & -> & Hq); [done|]. exists q. split; [done|by eapply some_extends].
      * exists r, n', tip'. split_and!; [done|by etransitivity|done|done|]. destruct r; cbn [connected_by] in Hc |- *.
        -- destruct Hc as (-> & Hc & Hu2). split_and!; [|done|auto]. rewrite last_cons. by destruct (last l).
        -- destruct Hc as (Hin & Hw & Hc & Hu2). rewrite !(work_at_extends n n2) in Hw by done. split_and!; [by right|done|done|auto].
        -- destruct Hc as (Hin & q & Hq & Hf). split; [by right|]. exists q. split; [by right|done].
        -- by right.
  - destruct Hr as (-> & Ht1 & Hf). destruct Hlow as (q & -> & Hq); [done|].
    destruct (InvalidChainFound_spec n1 tip q Hi1 Ht1) as (n2 & -> & X2 & Hi2 & Ht2); [by eapply some_extends|]. cbn [mbind outcome_bind].
    exists StepInvalid, n2, tip. split_and!; [done|by etransitivity|done|done|]. split; [by left|]. exists p. split; [by left|by apply X2].
  - subst n1. exists StepFailed, n, tip. split_and!; try done. by left.
Qed.

(** The path between a height and an entry. *)
Lemma path_down_spec k : forall st fuel p b tip bt, tree_inv genesis block_hash st -> st !! p = Some b -> st !! tip = Some bt ->
  iter_prev st k (Some p) = Some tip -> (k <= fuel)%nat ->
  exists l, path_down st fuel (nHeight bt) (Some p) = Ok l /\ linked st tip (reverse l) /\ default tip (last (reverse l)) = p /\
    Forall (fun q => is_ancestor st q p /\ exists bq, st !! q = Some bq /\ nHeight bt < nHeight bq) l /\
    (l <> [] -> exists q, last l = Some q /\ is_Some (st !! q)).
Proof.
  induction k as [|k IH]; intros st fuel p b tip bt Hi Hb Ht Hk Hf.
  - injection Hk as <-. assert (bt = b) as -> by congruence. exists []. split_and!; try done.
    destruct fuel; cbn [path_down deref]; rewrite Hb; cbn [mbind outcome_bind]; by rewrite Z.eqb_refl.
  - destruct fuel as [|fuel]; [lia|]. cbn [path_down deref]. rewrite Hb. cbn [mbind outcome_bind].
    destruct (iter_prev_inv st (proj1 (inv_tree _ _ _ Hi)) (S k) p b tip Hb Hk) as (_ & bt' & Hbt' & Eh). assert (bt' = bt) as -> by congruence.
    rewrite (proj2 (Z.eqb_neq _ _)) by lia. cbn [iter_prev] in Hk. rewrite Hb in Hk. destruct (pprev b) as [q|] eqn:Hq; [|by rewrite iter_prev_None in Hk].
    pose proof (tree_prev st (proj1 (inv_tree _ _ _ Hi)) p b Hb) as Hpv. rewrite Hq in Hpv. destruct Hpv as (bq & Hbq & _).
    destruct (IH st fuel q bq tip bt Hi Hbq Ht Hk) as (l & -> & Hl & Hlast & Ha & Hlow); [lia|]. cbn [mbind outcome_bind].
    exists (p :: l). split_and!; [done| | | |].
    + rewrite reverse_cons. clear -Hl Hlast Hb Hq. revert Hl Hlast. generalize (reverse l). intros r. revert tip.
      induction r as [|x r IH]; intros tip; cbn [app linked]; [intros _ [= ->]; split; [by exists b|done]|].
      intros [Hx Hr] Hlast. split; [done|]. apply IH; [done|]. rewrite last_cons in Hlast. by destruct (last r).
    + by rewrite reverse_cons, last_snoc.
    + apply Forall_cons. split; [split; [by exists O|exists b; split; [done|lia]]|]. eapply Forall_impl; [exact Ha|].
      intros x [[j Hj] Hx]. split; [|done]. exists (S j). cbn [iter_prev]. by rewrite Hb, Hq.
    + intros _. destruct l as [|x l]; [exists p; split; [done|by exists b]|]. destruct Hlow as (y & Hy & Hs); [done|]. exists y. by split.
Qed.

Lemma is_ancestor_trans st a b c : is_ancestor st a b -> is_ancestor st b c -> is_ancestor st a c.
Proof. intros [i Hi] [j Hj]. exists (j + i)%nat. by rewrite iter_prev_add, Hj. Qed.
Lemma linked_last st l : forall tip q, tip = q \/ is_ancestor st q tip -> linked st tip l -> Forall (fun p => is_ancestor st q p) l.
Proof.
  induction l as [|p l IH]; intros tip q Hq; cbn [linked]; [constructor|]. intros [(b & Hb & Hp) Hl].
  assert (Hqp : is_ancestor st q p).
  { destruct Hq as [->|[j Hj]]; [exists 1%nat|exists (S j)]; cbn [iter_prev]; rewrite Hb, Hp; done. }
  constructor; [done|]. apply (IH p); [by right|done].
Qed.

(** How the chunks end: at the block aimed at, or better than before, or with a
    block above the starting point that failed. *)
Definition stepped (n n' : node) (old tip most : positive) (h : Z) (r : step_result) (tip' : positive) : Prop :=
  is_ancestor (blocks n) tip' most /\ is_ancestor (blocks n) tip tip' /\
  match r with
  | StepContinue => tip' = most /\ most ∈ setBlockIndexCandidates n' /\ forall q, unusable n' q -> unusable n q
  | StepStop => work_at n old < work_at n tip' /\ most ∈ setBlockIndexCandidates n' /\ forall q, unusable n' q -> unusable n q
  | StepInvalid => exists p b, is_ancestor (blocks n) p most /\ blocks n !! p = Some b /\ h < nHeight b /\ failed n' p
  | StepFailed => True
  end.

Lemma connect_chunks_spec old most fuel : forall n tip bt bm k, node_inv n -> at_tip n tip -> is_Some (blocks n !! old) ->
  blocks n !! most = Some bm -> blocks n !! tip = Some bt -> iter_prev (blocks n) k (Some most) = Some tip -> (k <= fuel)%nat -> most ∈ setBlockIndexCandidates n ->
  exists r n' tip', connect_chunks fuel (Some old) most (nHeight bt) n = Ok (r, n') /\ extends n n' /\ node_inv n' /\ at_tip n' tip' /\ stepped n n' old tip most (nHeight bt) r tip'.
Proof.
  induction fuel as [|fuel IH]; intros n tip bt bm k Hi Ht Hold Hbm Hbt Hk Hf Hm; pose proof (inv_tree _ _ _ (node_tree n Hi)) as [Htb Hts];
    destruct (iter_prev_inv _ Htb k most bm tip Hbm Hk) as (Hkm & bt' & Hbt' & Eh); assert (bt' = bt) as -> by congruence; cbn [connect_chunks deref]; rewrite Hbm; cbn [mbind outcome_bind].
  { assert (k = O) as -> by lia. injection Hk as ->. assert (bt = bm) as -> by congruence. rewrite Z.eqb_refl.
    exists StepContinue, n, tip. unfold stepped. split_and!; try done; by exists O. }
  destruct (Z.eqb_spec (nHeight bt) (nHeight bm)) as [Heq|Hne].
  { assert (k = O) as -> by lia. injection Hk as ->. exists StepContinue, n, tip. unfold stepped. split_and!; try done; by exists O. }
  set (target := Z.min (nHeight bt + 32) (nHeight bm)).
  pose proof (tree_height _ Htb tip bt Hbt) as Hrt. pose proof (tree_height _ Htb most bm Hbm) as Hrm.
  rewrite (GetAncestor_spec _ Htb most bm target Hbm) by (intros; apply Hts).
  rewrite (proj2 (Z.ltb_ge _ _)), (proj2 (Z.ltb_ge target 0)) by (unfold target; lia). cbn [orb].
  destruct (iter_prev_height _ Htb (Z.to_nat (nHeight bm - target)) most bm Hbm) as (t & btar & Et & Hbtar & Ht2); [unfold target; lia|].
  rewrite Et. cbn [mbind outcome_bind]. set (d := Z.to_nat (target - nHeight bt)).
  assert (Hd : iter_prev (blocks n) d (Some t) = Some tip).
  { rewrite <- Et, <- iter_prev_add, <- Hk. f_equal. unfold d, target. lia. }
  destruct (path_down_spec d (blocks n) 33 t btar tip bt (node_tree n Hi) Hbtar Hbt Hd) as (l & -> & Hl & Hlast & Ha & Hlow); [unfold d, target; lia|].
  cbn [mbind outcome_bind].
  destruct (connect_all_spec old most (last l) (reverse l) n tip) as (r & n1 & tip1 & -> & X1 & Hi1 & Ht1 & Hc); try done; try (by exists bm).
  { apply Forall_reverse. eapply Forall_impl; [exact Ha|]. intros q [Hq _]. eapply is_ancestor_trans; [exact Hq|]. by exists (Z.to_nat (nHeight bm - target)). }
  { intros Hne2. apply Hlow. intros ->. done. }
  cbn [mbind outcome_bind fst snd].
  assert (Htm : is_ancestor (blocks n) t most) by by exists (Z.to_nat (nHeight bm - target)).
  assert (Hin : forall q, q ∈ tip :: reverse l -> is_ancestor (blocks n) q most).
  { intros q [->|Hq]%elem_of_cons; [by exists k|]. rewrite elem_of_reverse in Hq. rewrite Forall_forall in Ha. eapply is_ancestor_trans; [by apply Ha|exact Htm]. }
  assert (Hup : forall q, q ∈ reverse l -> is_ancestor (blocks n) tip q).
  { intros q Hq. pose proof (linked_last (blocks n) (reverse l) tip tip (or_introl eq_refl) Hl) as Hall. rewrite Forall_forall in Hall. by apply Hall. }
  destruct r; cbn [connected_by] in Hc.
  - destruct Hc as (-> & Hm1 & Hu1). rewrite Hlast in Ht1.
    destruct (same_tree_lookup _ _ most bm (ext_tree _ _ X1) Hbm) as (bm1 & Hbm1 & (_ & _ & Eb & _)%core_fields).
    destruct (same_tree_lookup _ _ t btar (ext_tree _ _ X1) Hbtar) as (bt1 & Hbt1 & (_ & _ & Eb1 & _)%core_fields).
    replace target with (nHeight bt1) by lia.
    destruct (IH n1 t bt1 bm1 (Z.to_nat (nHeight bm - target))) as (r & n2 & tip2 & E & X2 & Hi2 & Ht3 & Hs); try done; [by eapply some_extends|by rewrite <- (iter_prev_same (blocks n)) by apply X1|unfold target in *; lia|].
    exists r, n2, tip2. destruct Hs as (Hs1 & Hs0 & Hs2). split; [done|]. split; [by etransitivity|]. split; [done|]. split; [done|]. assert (T1 := ext_tree _ _ X1). symmetry in T1.
    split; [by eapply is_ancestor_same|]. split; [eapply is_ancestor_trans; [by exists d|by eapply is_ancestor_same]|]. destruct r; [| | |done].
    + destruct Hs2 as (? & ? & ?). by split_and!; auto.
    + destruct Hs2 as (Hs2 & ? & ?). rewrite !(work_at_extends n n1) in Hs2 by done. by split_and!; auto.
    + destruct Hs2 as (p & b & Hp1 & Hp2 & Hp3 & Hp4). destruct (same_tree_lookup _ _ p b T1 Hp2) as (b0 & Hb0 & (_ & _ & E0 & _)%core_fields).
      exists p, b0. split_and!; [by eapply is_ancestor_same|done|lia|done].
  - destruct Hc as (Hc1 & Hc2 & Hc3 & Hc4). exists StepStop, n1, tip1. unfold stepped. split_and!; try done; [apply Hin; by right|by apply Hup].
  - destruct Hc as (Hc1 & p & Hp & Hfp). exists StepInvalid, n1, tip1. unfold stepped. split_and!; try done; [by apply Hin|apply elem_of_cons in Hc1 as [->|?]; [by exists O|by apply Hup]|].
    assert (Hp0 : p ∈ l) by by rewrite <- elem_of_reverse. rewrite Forall_forall in Ha. destruct (Ha p Hp0) as (_ & bp & Hbp & Hhp).
    exists p, bp. split_and!; [apply Hin; by right|done..].
  - exists StepFailed, n1, tip1. unfold stepped. split_and!; try done; [by apply Hin|].
    apply elem_of_cons in Hc as [->|?]; [by exists O|by apply Hup].
Qed.

(** Every entry comes from the genesis block. *)
Lemma genesis_ancestor st p b : tree_inv genesis block_hash st -> st !! p = Some b -> is_ancestor st genesis p.
Proof.
  intros Hi Hb. pose proof (inv_tree _ _ _ Hi) as [Htb _]. pose proof (tree_height _ Htb p b Hb).
  destruct (iter_prev_height _ Htb (Z.to_nat (nHeight b)) p b Hb) as (g & bg & Eg & Hbg & Hh); [lia|].
  exists (Z.to_nat (nHeight b)). rewrite Eg. f_equal. apply (inv_root _ _ _ Hi g bg Hbg).
  pose proof (tree_prev _ Htb g bg Hbg) as Hp. destruct (pprev bg) as [q|]; [|done]. destruct Hp as (bq & Hq & E). pose proof (tree_height _ Htb q bq Hq). lia.
Qed.

(** A step towards a candidate [most] from the tip [tip]. *)
Lemma step_spec n tip most bm : node_inv n -> at_tip n tip -> blocks n !! most = Some bm -> most ∈ setBlockIndexCandidates n ->
  exists ok fInvalidFound n' tip', ActivateBestChainStep most n = Ok (ok, fInvalidFound, n') /\ extends n n' /\ node_inv n' /\ at_tip n' tip' /\
    (is_ancestor (blocks n) tip' most \/ is_ancestor (blocks n) tip' tip) /\
    (ok = true ->
     if fInvalidFound : bool then exists p, is_ancestor (blocks n) p most /\ ~ is_ancestor (blocks n) p tip /\ failed n' p
     else is_ancestor (blocks n) tip' most /\ most ∈ setBlockIndexCandidates n' /\ (tip' = most \/ work_at n tip < work_at n tip') /\
          (forall q, unusable n' q -> unusable n q) /\ forall q, is_ancestor (blocks n) q most -> is_ancestor (blocks n) q tip -> is_ancestor (blocks n) q tip').
Proof.
  intros Hi Ht Hbm Hm. pose proof (inv_tree _ _ _ (node_tree n Hi)) as Hit. unfold ActivateBestChainStep. rewrite (tip_of_branch n tip Ht).
  cbn [deref]. rewrite Hbm. cbn [mbind outcome_bind]. pose proof Ht as (bt & Hbt & Ec & _). rewrite Ec.
  destruct (FindFork_is_last_common (blocks n) tip most bt bm Hit Hbt Hbm) as (fork & -> & Hfork). cbn [mbind outcome_bind].
  destruct fork as [fork|]; [|exfalso; eapply (Hfork genesis); by eapply genesis_ancestor; [apply Hi|]].
  destruct Hfork as ([km Hkm] & [kt Hkt] & Hlast).
  destruct (iter_prev_inv _ (proj1 Hit) kt tip bt fork Hbt Hkt) as (Hkth & bf & Hbf & Ehf).
  destruct (disconnect_to_spec kt (length (branch (blocks n) tip (Z.to_nat (nHeight bt)))) n tip fork false Hi Ht Hkt) as (ok & f & n1 & tip1 & -> & Ht1 & E1 & Ha1 & Hok);
    [rewrite branch_length; lia|]. cbn [mbind outcome_bind]. assert (X1 : extends n n1) by (rewrite E1; apply with_tip_extends).
  assert (Hi1 : node_inv n1) by (eapply node_inv_extends; [exact X1|rewrite E1; apply Hi|exact Hi]).
  assert (Eb : blocks n1 = blocks n) by by rewrite E1. assert (Ecand : setBlockIndexCandidates n1 = setBlockIndexCandidates n) by by rewrite E1.
  destruct ok; cbn [negb]; [|exists false, false, n1, tip1; split_and!; by try right]. specialize (Hok eq_refl). subst tip1. cbn [deref]. rewrite Eb, Hbf. cbn [mbind outcome_bind].
  destruct (connect_chunks_spec tip most (S (Z.to_nat (nHeight bm))) n1 fork bf bm km) as (r & n2 & tip2 & -> & X2 & Hi2 & Ht2 & Hanc & Hanc2 & Hs);
    try done; try (rewrite Eb; done); try (by rewrite Ecand); try (rewrite Eb; by exists bt).
  { destruct (iter_prev_inv _ (proj1 Hit) km most bm fork Hbm Hkm) as (Hle & _). lia. }
  cbn [mbind outcome_bind]. assert (X : extends n n2) by by etransitivity. rewrite Eb in Hanc, Hanc2.
  assert (Hcommon : forall q, is_ancestor (blocks n) q most -> is_ancestor (blocks n) q tip -> is_ancestor (blocks n) q tip2) by (intros q H1 H2; eapply is_ancestor_trans; [by apply Hlast|done]).
  assert (Hun : forall q, unusable n1 q -> unusable n q) by (unfold unusable, failed, missing; by rewrite Eb).
  assert (Hcheck : (if f then cassert (E := unit) (bool_decide (tip_of n2 ≠ None)) else Ok tt) = Ok tt).
  { destruct f; [|done]. rewrite (tip_of_branch n2 tip2 Ht2). by rewrite bool_decide_eq_true_2. }
  destruct r; cbn [mbind outcome_bind]; [rewrite Hcheck; cbn [mbind outcome_bind]..|exists false, false, n2, tip2; split_and!; by try left].
  - destruct Hs as (-> & Hc & Hu). exists true, false, n2, most. split_and!; try done; [by left|]. intros _. split_and!; try done; [by left|by auto].
  - destruct Hs as (Hw & Hc & Hu). exists true, false, n2, tip2. split_and!; try done; [by left|]. intros _. split_and!; try done; [|by auto]. right. by rewrite !(work_at_extends n n1) in Hw.
  - destruct Hs as (p & b & Hp & Hb & Hh & Hf). rewrite Eb in Hp, Hb. exists true, true, n2, tip2. split_and!; try done; [by left|]. intros _. exists p. split_and!; try done.
    intros Hpt. destruct (Hlast p Hp Hpt) as [j Hj]. destruct (iter_prev_inv _ (proj1 Hit) j fork bf p Hbf Hj) as (_ & b' & Hb' & Eh). assert (b' = b) as -> by congruence. lia.
Qed.

(** ** The best candidate *)

Lemma work_lt_iff pa pb a b : limbs_ok 8 (nChainWork a) -> limbs_ok 8 (nChainWork b) ->
  work_lt pa pb a b = true <->
  work a < work b \/ work a = work b /\ (nSequenceId b < nSequenceId a \/ nSequenceId b = nSequenceId a /\ (pb < pa)%positive).
Proof.
  intros Ha Hb. unfold work_lt, work. rewrite (CompareTo_sgn 8) by done.
  destruct (Z.ltb_spec 0 (Z.sgn (bu_val (nChainWork a) - bu_val (nChainWork b)))); [split; [done|lia]|].
  destruct (Z.ltb_spec (Z.sgn (bu_val (nChainWork a) - bu_val (nChainWork b))) 0); [split; [lia|done]|].
  destruct (Z.ltb_spec (nSequenceId a) (nSequenceId b)); [split; [done|lia]|]. destruct (Z.ltb_spec (nSequenceId b) (nSequenceId a)); [split; [lia|done]|].
  rewrite Pos.ltb_lt. lia.
Qed.
Lemma worse_trans st a b c : tree_inv genesis block_hash st -> worse st a b = true -> worse st b c = true -> worse st a c = true.
Proof.
  intros Hi. unfold worse. destruct (st !! a) as [x|] eqn:Ea, (st !! b) as [y|] eqn:Eb, (st !! c) as [z|] eqn:Ec; try done.
  pose proof (inv_limbs _ _ _ Hi) as L. rewrite !work_lt_iff by eauto. lia.
Qed.
Lemma worse_total st a b : tree_inv genesis block_hash st -> is_Some (st !! a) -> is_Some (st !! b) -> worse st a b = false -> a = b \/ worse st b a = true.
Proof.
  intros Hi [x Ea] [y Eb]. unfold worse. rewrite Ea, Eb. pose proof (inv_limbs _ _ _ Hi) as L.
  intros Hf. apply not_true_iff_false in Hf. rewrite work_lt_iff in Hf by eauto. rewrite work_lt_iff by eauto.
  destruct (Pos.lt_total a b) as [?|[?|?]]; [right; lia|by left|right; lia].
Qed.
Lemma worse_irrefl st a : tree_inv genesis block_hash st -> worse st a a = false.
Proof.
  intros Hi. unfold worse. destruct (st !! a) as [x|] eqn:Ea; [|done]. apply not_true_iff_false. rewrite work_lt_iff by (by eapply (inv_limbs _ _ _ Hi)). lia.
Qed.

Lemma best_candidate_spec st set : tree_inv genesis block_hash st -> (forall p, p ∈ set -> is_Some (st !! p)) ->
  match best_candidate st set with
  | Some p => p ∈ set /\ forall q, q ∈ set -> worse st p q = false
  | None => set = ∅
  end.
Proof.
  intros Hi Hs. unfold best_candidate.
  assert (forall l, Forall (fun p => is_Some (st !! p)) l -> match foldr (fun p best => match best with Some q => if worse st q p then Some p else Some q | None => Some p end) None l with
    | Some p => p ∈ l /\ Forall (fun q => worse st p q = false) l | None => l = [] end) as H.
  { induction 1 as [|p l Hp Hl IH]; cbn [foldr]; [done|]. destruct (foldr _ None l) as [q|].
    - destruct IH as [Hq Hall]. destruct (worse st q p) eqn:E.
      + split; [by left|]. constructor; [by apply worse_irrefl|]. eapply Forall_impl; [exact Hall|]. intros r Hr. apply not_true_iff_false. intros E2.
        apply not_true_iff_false in Hr. apply Hr. by eapply worse_trans.
      + split; [by right|]. by constructor.
    - subst l. split; [by left|]. constructor; [by apply worse_irrefl|done]. }
  specialize (H (elements set)). destruct (foldr _ _ _) as [p|].
  - destruct H as [Hp Hall]; [apply Forall_forall; intros; by apply Hs; rewrite <- elem_of_elements|]. split; [by rewrite <- elem_of_elements|].
    intros q Hq. rewrite Forall_forall in Hall. apply Hall. by rewrite elem_of_elements.
  - apply leibniz_equiv, elements_empty_iff, H. apply Forall_forall. intros. by apply Hs; rewrite <- elem_of_elements.
Qed.

(** The ancestors of a block that is linked are linked. *)
Lemma chaintx_ancestor st p b q bq : tree_inv genesis block_hash st -> st !! p = Some b -> nChainTx b <> 0 -> is_ancestor st q p -> st !! q = Some bq -> nChainTx bq <> 0.
Proof.
  intros Hi Hb Hc [k Hk] Hq. revert p b Hb Hc Hk. induction k as [|k IH]; intros p b Hb Hc Hk; cbn [iter_prev] in Hk; [congruence|].
  rewrite Hb in Hk. pose proof (tree_prev _ (proj1 (inv_tree _ _ _ Hi)) p b Hb) as Hp. destruct (pprev b) as [r|] eqn:Er; [|by rewrite iter_prev_None in Hk].
  destruct Hp as (br & Hbr & _). apply (IH r br); [done|exact (inv_chaintx _ _ _ Hi p b r br Hb Er Hbr Hc)|done].
Qed.

Lemma first_unusable_spec n tip fuel : forall p b, node_inv n -> at_tip n tip -> blocks n !! p = Some b -> nChainTx b <> 0 -> nHeight b < Z.of_nat fuel ->
  exists r, first_unusable (blocks n) (chainActive n) fuel (Some p) = Ok r /\
    match r with
    | Some (t, f) => is_ancestor (blocks n) t p /\ ~ is_ancestor (blocks n) t tip /\ unusable n t /\ (f = true -> failed n t)
    | None => forall q, is_ancestor (blocks n) q p -> is_ancestor (blocks n) q tip \/ ~ unusable n q
    end.
Proof.
  induction fuel as [|fuel IH]; intros p b Hi Ht Hb Hc Hf; pose proof (inv_tree _ _ _ (node_tree n Hi)) as [Htb _]; pose proof (tree_height _ Htb p b Hb); [lia|].
  cbn [first_unusable]. pose proof Ht as (bt & Hbt & -> & _). destruct (Contains_branch _ Htb tip bt p b Hbt Hb) as (i & -> & Hin). cbn [mbind outcome_bind].
  destruct i. { exists None. split; [done|]. intros q Hq. left. eapply is_ancestor_trans; [exact Hq|]. by apply Hin. }
  assert (Hnot : ~ is_ancestor (blocks n) p tip) by (intros ?%Hin; done).
  cbn [deref]. rewrite Hb. cbn [mbind outcome_bind]. rewrite (proj2 (Z.eqb_neq (nChainTx b) 0) Hc). cbn [negb orb cassert mbind outcome_bind].
  destruct (Z.eqb_spec (Z.land (nStatus b) BLOCK_FAILED_MASK) 0) as [Hg|Hg]; cbn [negb orb].
  - destruct (Z.eqb_spec (Z.land (nStatus b) BLOCK_HAVE_DATA) 0) as [Hd|Hd].
    { exists (Some (p, false)). split; [done|]. split_and!; [by exists O|done|right; by exists b|done]. }
    pose proof (tree_prev _ Htb p b Hb) as Hp. destruct (pprev b) as [q|] eqn:Eq.
    + destruct Hp as (bq & Hbq & Eh). destruct (IH q bq Hi Ht Hbq) as (r & E & Hr); [exact (inv_chaintx _ _ _ (node_tree n Hi) p b q bq Hb Eq Hbq Hc)|lia|].
      pose proof Ht as (bt' & Hbt' & Ec' & _). assert (bt' = bt) as -> by congruence. rewrite Ec' in E. exists r. split; [exact E|].
      assert (Hstep : forall x, is_ancestor (blocks n) x p -> x = p \/ is_ancestor (blocks n) x q).
      { intros x [[|j] Hj]; cbn [iter_prev] in Hj; [left; congruence|]. rewrite Hb, Eq in Hj. right. by exists j. }
      destruct r as [[t f]|].
      * destruct Hr as ([j Hj] & Hr2). split; [|exact Hr2]. exists (S j). cbn [iter_prev]. by rewrite Hb, Eq.
      * intros x [->|Hx]%Hstep; [|by apply Hr]. right. intros [(b' & Hb' & Hf')|(b' & Hb' & Hf')]; congruence.
    + exists None. split; [by destruct fuel|]. intros x [[|j] Hj]; cbn [iter_prev] in Hj; [|by rewrite Hb, Eq, iter_prev_None in Hj].
      injection Hj as <-. right. intros [(b' & Hb' & Hf')|(b' & Hb' & Hf')]; congruence.
  - exists (Some (p, true)). split; [done|]. split_and!; [by exists O|done|left; by exists b|intros _; by exists b].
Qed.

Lemma remove_chain_eq fuel t f pf (n : node) : remove_chain fuel t f pf n =
  if bool_decide (pf = Some t) then Ok (erase_candidate n t) else
  match pf, fuel with
  | Some p, S fuel =>
      b ← deref (blocks n) pf;
      n ← (if f then Ok (set_status n p (fun s => Z.lor s BLOCK_FAILED_CHILD)) else Ok (with_unlinked n (mapBlocksUnlinked n ++ [(pprev b, p)])));
      remove_chain fuel t f (pprev b) (erase_candidate n p)
  | _, _ => Abort
  end.
Proof. by destruct fuel. Qed.

Lemma remove_chain_spec tip k : forall fuel n p t f, node_inv n -> at_tip n tip -> (exists b, blocks n !! p = Some b /\ nChainTx b <> 0) -> iter_prev (blocks n) k (Some p) = Some t -> unusable n t -> (k <= fuel)%nat ->
  exists n', remove_chain fuel t f (Some p) n = Ok n' /\ extends n n' /\ node_inv n' /\ at_tip n' tip /\ p ∉ setBlockIndexCandidates n' /\
    forall c, c ∈ setBlockIndexCandidates n -> c ∈ setBlockIndexCandidates n' \/ is_ancestor (blocks n) t c.
Proof.
  assert (Herase : forall n p t, node_inv n -> at_tip n tip -> is_ancestor (blocks n) t p -> unusable n t -> let n' := erase_candidate n p in extends n n' /\ node_inv n' /\ at_tip n' tip /\ p ∉ setBlockIndexCandidates n' /\
    forall c, c ∈ setBlockIndexCandidates n -> c ∈ setBlockIndexCandidates n' \/ is_ancestor (blocks n) t c).
  { intros n p t Hi Ht Ha Hu n'. assert (X : extends n n') by by eapply erase_extends.
    split_and!; [exact X|eapply node_inv_extends; [exact X|apply Hi|exact Hi]|by apply (at_tip_blocks n)|cbn; set_solver|].
    intros c Hc. destruct (decide (c = p)) as [->|Hne]; [by right|left; cbn; set_solver]. }
  induction k as [|k IH]; intros fuel n p t f Hi Ht (b & Hb & Hct) Hk Hu Hf; rewrite remove_chain_eq.
  - injection Hk as ->. rewrite bool_decide_eq_true_2 by done. eexists. split; [done|]. by apply Herase; try exists O.
  - assert (Htp : is_ancestor (blocks n) t p) by by exists (S k). destruct (decide (p = t)) as [->|Hne].
    { rewrite bool_decide_eq_true_2 by done. eexists. split; [done|]. by apply Herase. }
    rewrite bool_decide_eq_false_2 by congruence. destruct fuel as [|fuel]; [lia|]. cbn [deref]. rewrite Hb. cbn [mbind outcome_bind].
    assert (exists n1, (if f then Ok (set_status n p (fun s => Z.lor s BLOCK_FAILED_CHILD)) else Ok (with_unlinked n (mapBlocksUnlinked n ++ [(pprev b, p)]))) = Ok (E := unit) n1 /\
      extends n n1 /\ node_inv n1 /\ at_tip n1 tip /\ setBlockIndexCandidates n1 = setBlockIndexCandidates n) as (n1 & -> & X1 & Hi1 & Ht1 & Ec).
    { destruct f; eexists; (split; [reflexivity|]).
      - assert (X : extends n (set_status n p (fun s => Z.lor s BLOCK_FAILED_CHILD))) by by apply set_status_extends.
        split_and!; [exact X| |apply (at_tip_blocks n); [apply X|done..]|done]. eapply node_inv_extends; [exact X| |exact Hi]. intros q Hq. eapply some_extends; [exact X|]. by apply (node_invalid n Hi).
      - assert (X : extends n (with_unlinked n (mapBlocksUnlinked n ++ [(pprev b, p)]))).
        { apply extends_same_blocks; [done..|]. cbn. intros e [?| ->%list_elem_of_singleton]%elem_of_app; [by left|right]. cbn [fst snd].
          destruct (pprev b) as [q|] eqn:Eq; [by exists b, q|]. cbn [iter_prev] in Hk. by rewrite Hb, Eq, iter_prev_None in Hk. }
        split_and!; [exact X|eapply node_inv_extends; [exact X|apply Hi|exact Hi]|by apply (at_tip_blocks n)|done]. }
    cbn [mbind outcome_bind]. cbn [iter_prev] in Hk. rewrite Hb in Hk. pose proof (tree_prev _ (proj1 (inv_tree _ _ _ (node_tree n Hi))) p b Hb) as Hp.
    destruct (pprev b) as [q|] eqn:Eq; [|by rewrite iter_prev_None in Hk]. destruct Hp as (bq & Hbq & _).
    destruct (Herase n1 p t Hi1 Ht1) as (X2 & Hi2 & Ht2 & Hp2 & Hc2); [eapply is_ancestor_same; [apply X1|exact Htp]|by eapply unusable_extends|]. set (n2 := erase_candidate n1 p) in *.
    assert (X : extends n n2) by by etransitivity.
    destruct (same_tree_lookup _ _ q bq (ext_tree _ _ X) Hbq) as (bq2 & Hbq2 & (_ & _ & _ & _ & _ & _ & Ect)%core_fields).
    pose proof (inv_chaintx _ _ _ (node_tree n Hi) p b q bq Hb Eq Hbq Hct) as Hcq.
    destruct (IH fuel n2 q t f Hi2 Ht2) as (n' & -> & X3 & Hi3 & Ht3 & Hp3 & Hc3); [exists bq2; split; [done|congruence]|by rewrite <- (iter_prev_same (blocks n)) by apply X|by eapply unusable_extends|lia|].
    exists n'. split_and!; [done|by etransitivity|done|done| |].
    + pose proof (ext_candidates _ _ X3). set_solver.
    + intros c Hc. rewrite <- Ec in Hc. destruct (Hc2 c Hc) as [Hc'|Ha]; [|right; eapply is_ancestor_same; [symmetry; apply X1|exact Ha]].
      destruct (Hc3 c Hc') as [?|Ha]; [by left|right]. eapply is_ancestor_same; [symmetry; apply X|exact Ha].
Qed.

(** The choice ends, after as many turns as there are candidates, with the best
    of those whose way down to the active chain is usable; the others that were
    tried are no candidates any more. *)
Lemma FindMostWorkChain_spec tip fuel : forall n, node_inv n -> at_tip n tip -> (size (setBlockIndexCandidates n) <= fuel)%nat ->
  exists r n', FindMostWorkChain fuel n = Ok (r, n') /\ extends n n' /\ node_inv n' /\ at_tip n' tip /\
    (forall c, c ∈ setBlockIndexCandidates n -> c ∈ setBlockIndexCandidates n' \/ exists t, is_ancestor (blocks n) t c /\ ~ is_ancestor (blocks n) t tip /\ unusable n' t) /\
    match r with
    | Some p => p ∈ setBlockIndexCandidates n' /\ (forall c, c ∈ setBlockIndexCandidates n' -> worse (blocks n) p c = false) /\
                forall q, is_ancestor (blocks n) q p -> is_ancestor (blocks n) q tip \/ ~ unusable n' q
    | None => setBlockIndexCandidates n' = ∅
    end.
Proof.
  induction fuel as [|fuel IH]; intros n Hi Ht Hf.
  - assert (He : setBlockIndexCandidates n = ∅) by (apply leibniz_equiv, size_empty_iff; lia).
    exists None, n. cbn [FindMostWorkChain]. rewrite He. split_and!; try done.
  - cbn [FindMostWorkChain]. pose proof (best_candidate_spec (blocks n) (setBlockIndexCandidates n) (node_tree n Hi)) as Hbest.
    destruct (best_candidate _ _) as [p|]; [|exists None, n; split_and!; try done; [set_solver|apply Hbest; intros q Hq; by destruct (node_candidates n Hi q Hq) as (b & Hb & _); exists b]].
    destruct Hbest as [Hp Hbest]; [intros q Hq; by destruct (node_candidates n Hi q Hq) as (b & Hb & _); exists b|].
    destruct (node_candidates n Hi p Hp) as (b & Hb & Hc). cbn [deref]. rewrite Hb. cbn [mbind outcome_bind].
    pose proof (inv_tree _ _ _ (node_tree n Hi)) as [Htb _]. pose proof (tree_height _ Htb p b Hb).
    destruct (first_unusable_spec n tip (S (Z.to_nat (nHeight b))) p b Hi Ht Hb Hc) as (r & -> & Hr); [lia|]. cbn [mbind outcome_bind].
    destruct r as [[t f]|]; [|exists (Some p), n; split_and!; try done; by left].
    destruct Hr as ([k Hk] & Hnot & Hun & Hfail).
    assert (exists worst, match pindexBestInvalid n with
      | None => Ok true
      | Some _ => inv ← deref (blocks n) (pindexBestInvalid n); Ok (0 <? CompareTo (nChainWork b) (nChainWork inv))
      end = Ok worst) as [worst ->].
    { destruct (pindexBestInvalid n) as [q|] eqn:Eq; [|by exists true]. destruct (node_invalid n Hi q Eq) as [bq Hq]. cbn [deref]. rewrite Hq. by eexists. }
    cbn [mbind outcome_bind]. set (n1 := if f && worst then with_invalid n (Some p) else n).
    assert (X1 : extends n n1) by (unfold n1; destruct (f && worst); [by apply extends_side|done]).
    assert (Eb : blocks n1 = blocks n) by (unfold n1; by destruct (f && worst)). assert (Ec : setBlockIndexCandidates n1 = setBlockIndexCandidates n) by (unfold n1; by destruct (f && worst)).
    assert (Hi1 : node_inv n1). { unfold n1. destruct (f && worst); [|done]. apply (node_inv_extends n); [by apply extends_side| |exact Hi]. intros q [= <-]. by exists b. }
    assert (Ht1 : at_tip n1 tip) by (unfold n1; destruct (f && worst); [by apply (at_tip_blocks n)|done]).
    destruct (iter_prev_inv _ Htb k p b t Hb Hk) as (Hkh & _).
    destruct (remove_chain_spec tip k (S (Z.to_nat (nHeight b))) n1 p t f Hi1 Ht1) as (n2 & -> & X2 & Hi2 & Ht2 & Hp2 & Hc2); [rewrite Eb; by exists b; split|by rewrite Eb|by eapply unusable_extends|lia|].
    cbn [mbind outcome_bind]. assert (X : extends n n2) by by etransitivity.
    destruct (IH n2 Hi2 Ht2) as (r & n' & -> & X3 & Hi3 & Ht3 & Hc3 & Hr).
    { assert (setBlockIndexCandidates n2 ⊂ setBlockIndexCandidates n) as Hlt; [|apply subset_size in Hlt; lia].
      pose proof (ext_candidates _ _ X). split; [done|]. set_solver. }
    exists r, n'. assert (T := ext_tree _ _ X). split_and!; [done|by etransitivity|done|done| |].
    + intros c Hc'. rewrite <- Ec in Hc'. destruct (Hc2 c Hc') as [Hin|Ha].
      * destruct (Hc3 c Hin) as [?|(t' & Ha & Hn & Hu)]; [by left|right]. exists t'. symmetry in T.
        split_and!; [by eapply is_ancestor_same|intros ?; apply Hn; eapply is_ancestor_same; [symmetry; exact T|done]|done].
      * right. rewrite Eb in Ha. exists t. split_and!; [done|done|]. eapply unusable_extends; [exact X3|]. by eapply unusable_extends.
    + destruct r as [p'|]; [|done]. destruct Hr as (Hp' & Hb' & Hu). split_and!; [done|intros c Hc'; rewrite (worse_same _ _ _ _ T); by apply Hb'|].
      intros q Hq. destruct (Hu q) as [Ha|?]; [by eapply is_ancestor_same|left|by right]. symmetry in T. by eapply is_ancestor_same.
Qed.

(** ** The loop ends *)

(** The entries that have not failed. *)
Definition unfailed (n : node) : gset positive := dom (filter (fun x => Z.land (nStatus x.2) BLOCK_FAILED_MASK = 0) (blocks n)).
Definition better (n : node) (tip : positive) : gset positive := filter (fun p => work_at n tip < work_at n p) (dom (blocks n)).

(** What a turn of the loop makes smaller: an entry fails, or the tip gets more
    work on the way to the block aimed at, or arrives there. *)
Definition distance (n : node) (tip : positive) (aim : ptr) : nat :=
  match aim with
  | None => size (dom (blocks n)) + 2
  | Some m => if decide (m = tip) then O else S (size (better n tip))
  end.
Definition turns (n : node) (tip : positive) (aim : ptr) : nat := size (unfailed n) * (size (dom (blocks n)) + 3) + distance n tip aim.

Lemma elem_of_unfailed n p : p ∈ unfailed n <-> is_Some (blocks n !! p) /\ ~ failed n p.
Proof.
  unfold unfailed. rewrite elem_of_dom. split.
  - intros [b [Hb Hs]%map_lookup_filter_Some]. split; [by exists b|]. intros (b' & Hb' & Hf). cbn in Hs. congruence.
  - intros [[b Hb] Hf]. exists b. apply map_lookup_filter_Some. split; [done|]. cbn. destruct (decide (Z.land (nStatus b) BLOCK_FAILED_MASK = 0)) as [|H]; [done|].
    exfalso. apply Hf. by exists b.
Qed.
Lemma dom_extends n n' : extends n n' -> dom (blocks n') = dom (blocks n).
Proof.
  intros [T _ _ _ _ _ _]. apply set_eq. intros p. rewrite !elem_of_dom. specialize (T p). destruct (blocks n !! p), (blocks n' !! p); cbn in T; done.
Qed.
Lemma unfailed_extends n n' : extends n n' -> unfailed n' ⊆ unfailed n.
Proof.
  intros X p. rewrite !elem_of_unfailed, <- !elem_of_dom, (dom_extends n n' X). intros [? Hf]. split; [done|]. intros Hq. apply Hf. by apply X.
Qed.
Lemma distance_le n tip aim : (distance n tip aim <= size (dom (blocks n)) + 2)%nat.
Proof.
  destruct aim as [m|]; cbn; [|done]. destruct (decide _); [lia|]. assert (better n tip ⊆ dom (blocks n)) as Hs%subseteq_size by (unfold better; set_solver). lia.
Qed.
Lemma turns_extends n n' tip tip' aim aim' : extends n n' -> (distance n' tip' aim' <= distance n tip aim)%nat -> (turns n' tip' aim' <= turns n tip aim)%nat.
Proof.
  intros X Hd. unfold turns. rewrite (dom_extends n n' X). pose proof (subseteq_size _ _ (unfailed_extends n n' X)). nia.
Qed.
Lemma turns_closer n n' tip tip' aim aim' : extends n n' -> (distance n' tip' aim' < distance n tip aim)%nat -> (turns n' tip' aim' < turns n tip aim)%nat.
Proof.
  intros X Hd. unfold turns. rewrite (dom_extends n n' X). pose proof (subseteq_size _ _ (unfailed_extends n n' X)). nia.
Qed.
Lemma turns_failed n n' tip tip' aim aim' p : extends n n' -> is_Some (blocks n !! p) -> ~ failed n p -> failed n' p -> (turns n' tip' aim' < turns n tip aim)%nat.
Proof.
  intros X Hp Hn Hf. unfold turns. pose proof (distance_le n' tip' aim'). rewrite (dom_extends n n' X) in *.
  assert (unfailed n' ⊂ unfailed n) as H1%subset_size; [|nia]. split; [by apply unfailed_extends|].
  intros Hs. specialize (Hs p). rewrite !elem_of_unfailed in Hs. by destruct Hs as [_ Hs].
Qed.
Lemma better_extends n n' tip tip' : extends n n' -> is_Some (blocks n !! tip') -> work_at n tip < work_at n tip' -> (size (better n' tip') < size (better n tip))%nat.
Proof.
  intros X Hs Hw. apply subset_size. unfold better. rewrite (dom_extends n n' X). split.
  - intros p. rewrite !elem_of_filter, !(work_at_extends n n') by done. intros [? ?]. split; [lia|done].
  - intros Hsub. specialize (Hsub tip'). rewrite !elem_of_filter, !(work_at_extends n n'), elem_of_dom in Hsub by done. destruct Hsub as [Hlt _]; [done|lia].
Qed.

(** The block aimed at is the best candidate and its way down is usable. *)
Definition aimed (n : node) (tip : positive) (aim : ptr) : Prop :=
  match aim with
  | None => True
  | Some m => m ∈ setBlockIndexCandidates n /\ (forall c, c ∈ setBlockIndexCandidates n -> worse (blocks n) m c = false) /\
      forall q, is_ancestor (blocks n) q m -> is_ancestor (blocks n) q tip \/ ~ unusable n q
  end.
Definition arrived (n : node) (tip : positive) (aim : ptr) : Prop :=
  match aim with None => setBlockIndexCandidates n = ∅ | Some m => m = tip end.

(** What cannot be used stays off the active chain. *)
Definition keeps_out (n : node) (tip tip' : positive) : Prop :=
  forall p, unusable n p -> ~ is_ancestor (blocks n) p tip -> ~ is_ancestor (blocks n) p tip'.
Lemma keeps_out_trans n n' tip tip' tip'' : extends n n' -> keeps_out n tip tip' -> keeps_out n' tip' tip'' -> keeps_out n tip tip''.
Proof.
  intros X H1 H2 p Hu Hn Ha. assert (T := ext_tree _ _ X). apply (H2 p); [by eapply unusable_extends| |by eapply is_ancestor_same].
  intros Ha'. apply (H1 p Hu Hn). eapply is_ancestor_same; [symmetry; exact T|exact Ha'].
Qed.

(** A step towards the block aimed at brings the end nearer. *)
Lemma step_turn n tip m : node_inv n -> at_tip n tip -> aimed n tip (Some m) -> m <> tip ->
  exists ok fInvalidFound n' tip', ActivateBestChainStep m n = Ok (ok, fInvalidFound, n') /\ extends n n' /\ node_inv n' /\ at_tip n' tip' /\ keeps_out n tip tip' /\
    (ok = true -> let aim := if fInvalidFound : bool then None else Some m in aimed n' tip' aim /\ (turns n' tip' aim < turns n tip (Some m))%nat).
Proof.
  intros Hi Ht (Hm & Hbest & Hway) Hne. destruct (node_candidates n Hi m Hm) as (bm & Hbm & _).
  destruct (step_spec n tip m bm Hi Ht Hbm Hm) as (ok & fInvalidFound & n' & tip' & E & X & Hi' & Ht' & Hpos & Hok).
  exists ok, fInvalidFound, n', tip'. split_and!; [done..| |].
  { intros p Hu Hnot Hp. destruct Hpos as [Hpos|Hpos]; [|apply Hnot; by eapply is_ancestor_trans].
    destruct (Hway p) as [?|?]; [by eapply is_ancestor_trans|done..]. }
  intros Eok. specialize (Hok Eok). assert (T := ext_tree _ _ X). symmetry in T. destruct fInvalidFound; cbn zeta.
  - destruct Hok as (p & Hp & Hnot & Hf). split; [done|]. apply (turns_failed n n' _ _ _ _ p); [done| | |done].
    + destruct Hp as [k Hk]. destruct (iter_prev_inv _ (proj1 (inv_tree _ _ _ (node_tree n Hi))) k m bm p Hbm Hk) as (_ & bp & Hbp & _). by exists bp.
    + intros Hfp. destruct (Hway p Hp) as [?|Hu]; [done|]. apply Hu. by left.
  - destruct Hok as (Ha & Hm' & Hw & Hu & Hcommon). split.
    + split_and!; [done| |].
      * intros c Hc. rewrite (worse_same _ _ _ _ T). apply Hbest. by apply X.
      * intros q Hq%(is_ancestor_same _ _ _ _ T). destruct (Hway q Hq) as [Hqt|Hqu]; [left|right; auto].
        eapply is_ancestor_same; [symmetry; exact T|]. by apply Hcommon.
    + apply turns_closer; [done|]. cbn. rewrite (decide_False (P := m = tip)) by done. destruct (decide (m = tip')) as [|Hne']; [lia|].
      destruct Hw as [->|Hw]; [done|]. apply (proj1 (Nat.succ_lt_mono _ _)). apply better_extends; [done| |done].
      destruct Ht' as (bt & Hbt & _). destruct (same_tree_lookup _ _ tip' bt T Hbt) as (b0 & Hb0 & _). by exists b0.
Qed.

Lemma activate_inner_eq fuel starting_tip bc aim (n : node) : activate_inner fuel starting_tip bc aim n =
  r ← (match aim with None => FindMostWorkChain (size (setBlockIndexCandidates n)) n | Some _ => Ok (aim, n) end);
  let '(aim, n) := r in
  match aim with
  | None => Ok (true, bc, aim, n)
  | Some most =>
      if bool_decide (aim = tip_of n) then Ok (true, bc, aim, n) else
      r ← ActivateBestChainStep most n;
      let '(ok, fInvalidFound, n) := r in
      if negb ok then Ok (false, bc, aim, n) else
      let aim := if fInvalidFound : bool then None else aim in
      let again := match tip_of n with
                   | None => true
                   | Some tip => match starting_tip with Some start => worse (blocks n) tip start | None => false end
                   end in
      if again : bool then match fuel with O => Abort | S fuel => activate_inner fuel starting_tip true aim n end else Ok (true, true, aim, n)
  end.
Proof. by destruct fuel. Qed.

Lemma activate_inner_spec fuel : forall n tip s0 bc aim, node_inv n -> at_tip n tip -> aimed n tip aim -> (turns n tip aim <= fuel)%nat ->
  exists ok bc' aim' n' tip', activate_inner fuel s0 bc aim n = Ok (ok, bc', aim', n') /\ extends n n' /\ node_inv n' /\ at_tip n' tip' /\ keeps_out n tip tip' /\
    (ok = true -> aimed n' tip' aim' /\ (turns n' tip' aim' <= turns n tip aim)%nat /\
      (bc' = bc /\ arrived n' tip' aim' \/ bc' = true /\ (turns n' tip' aim' < turns n tip aim)%nat)).
Proof.
  induction fuel as [fuel IH] using lt_wf_ind. intros n tip s0 bc aim Hi Ht Ha Hf. rewrite activate_inner_eq.
  assert (exists aim1 n1, match aim with None => FindMostWorkChain (size (setBlockIndexCandidates n)) n | Some _ => Ok (aim, n) end = Ok (aim1, n1) /\
    extends n n1 /\ node_inv n1 /\ at_tip n1 tip /\ aimed n1 tip aim1 /\ (aim1 = None -> arrived n1 tip aim1) /\ (turns n1 tip aim1 <= turns n tip aim)%nat)
    as (aim1 & n1 & -> & X1 & Hi1 & Ht1 & Ha1 & Hnone & Hle).
  { destruct aim as [m|]; [by exists (Some m), n|]. destruct (FindMostWorkChain_spec tip _ n Hi Ht (le_n _)) as (r & n1 & -> & X & Hi1 & Ht1 & _ & Hr).
    exists r, n1. assert (T := ext_tree _ _ X). symmetry in T. split_and!; [done..| | |].
    - destruct r as [m|]; [|done]. destruct Hr as (Hm & Hb & Hu). split_and!; [done|intros c Hc; rewrite (worse_same _ _ _ _ T); by apply Hb|].
      intros q Hq%(is_ancestor_same _ _ _ _ T). destruct (Hu q Hq) as [Hq'|?]; [left|by right]. eapply is_ancestor_same; [symmetry; exact T|done].
    - by intros ->.
    - apply turns_extends; [done|]. cbn [distance]. pose proof (distance_le n1 tip r). by rewrite <- (dom_extends n n1 X). }
  cbn [mbind outcome_bind]. destruct aim1 as [m|].
  2: { exists true, bc, None, n1, tip. split_and!; [done..|by intros p|]. intros _. split_and!; [done..|]. left. by auto. }
  rewrite (tip_of_branch n1 tip Ht1). destruct (decide (Some m = Some tip)) as [E|Hne].
  { rewrite bool_decide_eq_true_2 by done. exists true, bc, (Some m), n1, tip. split_and!; [done..|by intros p|]. intros _. split_and!; [done..|]. left. split; [done|]. cbn. congruence. }
  rewrite bool_decide_eq_false_2 by done.
  destruct (step_turn n1 tip m Hi1 Ht1 Ha1) as (ok & fInvalidFound & n2 & tip2 & -> & X2 & Hi2 & Ht2 & Hk2 & Hok); [congruence|]. cbn [mbind outcome_bind].
  assert (X : extends n n2) by by etransitivity.
  assert (Hk : keeps_out n tip tip2) by (eapply keeps_out_trans; [exact X1| |exact Hk2]; by intros p).
  destruct ok; cbn [negb]; [|by exists false, bc, (Some m), n2, tip2]. specialize (Hok eq_refl). cbn zeta in Hok |- *. set (aim2 := if fInvalidFound then None else Some m) in *.
  destruct Hok as [Ha2 Hlt]. destruct (match tip_of n2 with None => _ | Some _ => _ end).
  - destruct fuel as [|fuel]; [lia|]. destruct (IH fuel (Nat.lt_succ_diag_r _) n2 tip2 s0 true aim2 Hi2 Ht2 Ha2) as (ok & bc' & aim' & n' & tip' & E & X3 & Hi3 & Ht3 & Hk3 & Hok); [lia|].
    exists ok, bc', aim', n', tip'. split_and!; [done|by etransitivity|done|done|exact (keeps_out_trans _ _ _ _ _ X Hk Hk3)|]. intros Eok. destruct (Hok Eok) as (Ha3 & Hle3 & Hor).
    split_and!; [done|lia|]. right. split; [by destruct Hor as [[? _]|[? _]]|lia].
  - exists true, true, aim2, n2, tip2. split_and!; [done..|]. intros _. split_and!; [done|lia|]. right. split; [done|lia].
Qed.

Lemma aimed_best n tip m : aimed n tip (Some m) -> m = tip -> forall c, c ∈ setBlockIndexCandidates n -> worse (blocks n) tip c = false.
Proof. intros (_ & H & _) <-. exact H. Qed.

Lemma activate_outer_spec fuel : forall n tip aim, node_inv n -> at_tip n tip -> aimed n tip aim -> (turns n tip aim <= fuel)%nat ->
  exists ok n' tip', activate_outer fuel aim n = Ok (ok, n') /\ extends n n' /\ node_inv n' /\ at_tip n' tip' /\ keeps_out n tip tip' /\
    (ok = true -> forall c, c ∈ setBlockIndexCandidates n' -> worse (blocks n') tip' c = false).
Proof.
  induction fuel as [fuel IH] using lt_wf_ind. intros n tip aim Hi Ht Ha Hf.
  assert (activate_outer fuel aim n = (r ← activate_inner fuel (tip_of n) false aim n; let '(ok, bc, aim, n) := r in
    if negb ok then Ok (false, n) else if negb bc then Ok (true, n) else if bool_decide (aim = tip_of n) then Ok (true, n) else
    match fuel with O => Abort | S fuel => activate_outer fuel aim n end)) as -> by by destruct fuel.
  destruct (activate_inner_spec fuel n tip (tip_of n) false aim Hi Ht Ha Hf) as (ok & bc & aim1 & n1 & tip1 & -> & X1 & Hi1 & Ht1 & Hk1 & Hok). cbn [mbind outcome_bind].
  destruct ok; cbn [negb]; [|by exists false, n1, tip1]. destruct (Hok eq_refl) as (Ha1 & _ & Hor).
  destruct bc; cbn [negb].
  - rewrite (tip_of_branch n1 tip1 Ht1). destruct (decide (aim1 = Some tip1)) as [->|Hne].
    { rewrite bool_decide_eq_true_2 by done. exists true, n1, tip1. split_and!; [done..|]. intros _. by eapply aimed_best. }
    rewrite bool_decide_eq_false_2 by done. destruct Hor as [[? _]|[_ Hlt]]; [done|]. destruct fuel as [|fuel]; [lia|].
    destruct (IH fuel (Nat.lt_succ_diag_r _) n1 tip1 aim1 Hi1 Ht1 Ha1) as (ok & n2 & tip2 & E & X2 & Hi2 & Ht2 & Hk2 & Hb); [lia|].
    exists ok, n2, tip2. split_and!; [done|by etransitivity|done|done|exact (keeps_out_trans _ _ _ _ _ X1 Hk1 Hk2)|done].
  - exists true, n1, tip1. split_and!; [done..|]. intros _. destruct Hor as [[_ Har]|[? _]]; [|done].
    destruct aim1 as [m|]; cbn in Har; [by eapply aimed_best|]. rewrite Har. set_solver.
Qed.

(** Fuel for the activation of any tree with these blocks. *)
Lemma activate_spec fuel n tip : node_inv n -> at_tip n tip -> (S (size (dom (blocks n))) * (size (dom (blocks n)) + 3) <= fuel)%nat ->
  exists ok n' tip', ActivateBestChain fuel n = Ok (ok, n') /\ extends n n' /\ node_inv n' /\ at_tip n' tip' /\ keeps_out n tip tip' /\
    (ok = true -> forall c, c ∈ setBlockIndexCandidates n' -> worse (blocks n') tip' c = false).
Proof.
  intros Hi Ht Hf. apply (activate_outer_spec fuel n tip None); [done..|]. unfold turns. cbn [distance].
  assert (unfailed n ⊆ dom (blocks n)) as Hs%subseteq_size; [|nia]. intros q. rewrite elem_of_unfailed, elem_of_dom. by intros [? _].
Qed.

(** ** The theorems *)

(** C17: a step towards the best chain keeps the node well formed.  From a node
    whose tree of blocks satisfies the invariant, whose active chain is the
    branch of its tip and whose coins are those of connecting that branch,
    [ActivateBestChainStep] towards a candidate runs into no assertion, no null
    or dangling pointer and no loop without end; the node it leaves is again such
    a node, at a tip [tip'], whatever block turned out to be invalid or could not
    be disconnected.  Without an invalid block and without a system error the
    tip has come to the candidate, or to a block below it with more work than the
    old tip; with one, a block below the candidate and not of the old chain is
    now marked as failed. *)
Theorem ActivateBestChainStep_well_formed (n : node) (tip most : positive) (bm : CBlockIndex) :
  node_inv n -> at_tip n tip -> blocks n !! most = Some bm -> most ∈ setBlockIndexCandidates n ->
  exists ok fInvalidFound n' tip', ActivateBestChainStep most n = Ok (ok, fInvalidFound, n') /\ node_inv n' /\ at_tip n' tip' /\
    same_tree (blocks n) (blocks n') /\ (forall p, failed n p -> failed n' p) /\
    (ok = true ->
     if fInvalidFound : bool then exists p, is_ancestor (blocks n) p most /\ ~ is_ancestor (blocks n) p tip /\ failed n' p
     else is_ancestor (blocks n) tip' most /\ (tip' = most \/ work_at n tip < work_at n tip')).
Proof.
  intros Hi Ht Hb Hm. destruct (step_spec n tip most bm Hi Ht Hb Hm) as (ok & inv & n' & tip' & E & X & Hi' & Ht' & _ & Hok).
  exists ok, inv, n', tip'. split_and!; [done..|apply X|apply X|]. intros Eok. specialize (Hok Eok). destruct inv; [done|]. by destruct Hok as (? & _ & ? & _).
Qed.

(** C2: the node settles on the best chain.  From a well-formed node
    [ActivateBestChain] returns, after at most as many turns as there are blocks
    that have not failed times the number of blocks: the loops end.  The node is
    well formed again, no block known to have failed or without data has joined
    the active chain, and without a system error no candidate is better than the
    tip.  A candidate that was lost has a block below it that cannot be used, or
    is worse than a block whose chain connects. *)
Theorem ActivateBestChain_settles (n : node) (tip : positive) (fuel : nat) :
  node_inv n -> at_tip n tip -> (S (size (unfailed n)) * (size (dom (blocks n)) + 3) <= fuel)%nat ->
  exists ok n' tip', ActivateBestChain fuel n = Ok (ok, n') /\ node_inv n' /\ at_tip n' tip' /\
    (forall p, unusable n p -> ~ is_ancestor (blocks n) p tip -> ~ is_ancestor (blocks n) p tip') /\
    (forall c, c ∈ setBlockIndexCandidates n -> c ∈ setBlockIndexCandidates n' \/
      (exists t, is_ancestor (blocks n) t c /\ unusable n' t) \/ (exists x cs, coins_at (blocks n) x cs /\ worse (blocks n) c x = true)) /\
    (ok = true -> forall c, c ∈ setBlockIndexCandidates n' -> worse (blocks n') tip' c = false).
Proof.
  intros Hi Ht Hf. destruct (activate_outer_spec fuel n tip None Hi Ht) as (ok & n' & tip' & E & X & Hi' & Ht' & Hk & Hb); [done|unfold turns; cbn [distance]; nia|].
  exists ok, n', tip'. split_and!; [done..|exact (ext_lost _ _ X)|done].
Qed.
End Coins.

(** ** An example

    The coins are the list of the connected blocks, and block 5 is refused.  The
    chain is 1 - 2 - 3, and 5 and 6 are above 4, a child of 2:
    [ActivateBestChain] tries 5, finds it invalid, and settles on 6. *)
Module Toy.
#[export] Instance toy_equiv : Equiv (list positive) := eq.
#[export] Instance toy_chain : ChainState (list positive) := {
  connect_block p c := if Pos.eqb p 5 then Rejected false else Connected (p :: c);
  mark_connected b := set_nStatus b (Z.lor (nStatus b) BLOCK_HAVE_UNDO);
  disconnect_block p c := match c with q :: c => if Pos.eqb p q then Some c else None | [] => None end;
  coins_best c := match c with p :: _ => [Z.pos p] | [] => [] end;
}.
Definition toy_hash (p : positive) : uint256 := [Z.pos p].
#[export] Instance toy_laws : ChainStateLaws (list positive) toy_hash.
Proof.
  split.
  - unfold equiv, toy_equiv. apply _.
  - intros p c c0 c' ->. by exists c'.
  - intros p c0 c0' c' c. cbn [connect_block disconnect_block coins_best toy_chain]. destruct (Pos.eqb p 5); [done|]. intros [= <-] -> Hd. rewrite Pos.eqb_refl in Hd. by injection Hd as ->.
  - by intros c c' ->.
  - intros p c c'. cbn [connect_block disconnect_block coins_best toy_chain]. destruct (Pos.eqb p 5); [done|]. by intros [= <-].
  - intros p c. cbn [connect_block toy_chain]. by destruct (Pos.eqb p 5).
  - done.
  - intros b. cbn [mark_connected toy_chain nStatus set_nStatus]. by rewrite Z.land_lor_distr_l, Z.lor_0_r.
  - intros b. cbn [mark_connected toy_chain nStatus set_nStatus]. by rewrite Z.land_lor_distr_l, Z.lor_0_r.
Qed.

Definition entry (p : positive) (prev skip : ptr) (h w : Z) : positive * CBlockIndex :=
  (p, BlockIndex (toy_hash p) prev skip h 0 0 0 (Z.lor BLOCK_VALID_TRANSACTIONS BLOCK_HAVE_DATA) 0 [] 0 None 1 0 0x1e0ffff0
        (bu_of_uint64 8 w) 1 (h + 1) [] [] 0 [] (Z.pos p)).
Definition tree : store := list_to_map
  [entry 1 None None 0 10; entry 2 (Some 1%positive) (Some 1%positive) 1 20; entry 3 (Some 2%positive) (Some 1%positive) 2 30;
   entry 4 (Some 2%positive) (Some 1%positive) 2 30; entry 5 (Some 4%positive) (Some 2%positive) 3 50; entry 6 (Some 4%positive) (Some 2%positive) 3 40].
Definition start_node : node (list positive) :=
  Node (list_to_map (map (fun p => (toy_hash p, p)) [1; 2; 3; 4; 5; 6]%positive)) tree [Some 1%positive; Some 2%positive; Some 3%positive]
    {[3; 5; 6]}%positive None None [] 7 ∅ [3; 2; 1]%positive.

(** The invariant as a check of every entry. *)
Definition inv_entry (st : store) (genesis p : positive) (b : CBlockIndex) : bool :=
  entry_ok st p b && bool_decide (pprev b = None -> p = genesis) && bool_decide (length (nChainWork b) = 8%nat) &&
  bool_decide (Forall (in_u 32) (nChainWork b)) && bool_decide (blockHash b = toy_hash p) &&
  match pprev b with
  | None => true
  | Some q => match st !! q with
              | Some bq => (work bq <? work b) && ((nChainTx b =? 0) || negb (nChainTx bq =? 0))
              | None => true
              end
  end.
Lemma tree_inv_check st genesis : map_Forall (fun p b => inv_entry st genesis p b = true) st -> tree_inv genesis toy_hash st.
Proof.
  intros H. assert (forall p b, st !! p = Some b -> inv_entry st genesis p b = true) as He by done. unfold inv_entry in He.
  assert (Hc : forall p b, st !! p = Some b -> entry_ok st p b = true /\ (pprev b = None -> p = genesis) /\ limbs_ok 8 (nChainWork b) /\ blockHash b = toy_hash p).
  { intros p b Hb. specialize (He p b Hb). rewrite !andb_true_iff, !bool_decide_eq_true in He. unfold limbs_ok. tauto. }
  split.
  - apply tree_ok_check. intros p b Hb. by apply Hc.
  - intros p b Hb. by apply Hc.
  - intros p b Hb. by apply (Hc p).
  - intros p b q bq Hb Hq Hbq. specialize (He p b Hb). apply andb_true_iff in He as [_ He]. rewrite Hq, Hbq in He. lia.
  - intros p b q bq Hb Hq Hbq Hn. specialize (He p b Hb). apply andb_true_iff in He as [_ He]. rewrite Hq, Hbq in He. lia.
  - intros p b Hb. by apply Hc.
Qed.

Lemma start_inv : node_inv 1 toy_hash start_node.
Proof.
  split; [|intros p Hp; assert (p = 3 \/ p = 5 \/ p = 6)%positive as [->|[->| ->]] by (cbn in Hp; set_solver); by eexists|done].
  apply tree_inv_check. refine (bool_decide_unpack _ _). vm_compute. exact I.
Qed.
Lemma start_tip : at_tip [] start_node 3.
Proof.
  eexists. split; [reflexivity|]. split; [reflexivity|].
  eapply (coins_next _ _ 3 _ 2 [2; 1]%positive); [reflexivity|reflexivity| |reflexivity|reflexivity].
  eapply (coins_next _ _ 2 _ 1 [1]%positive); [reflexivity|reflexivity| |reflexivity|reflexivity].
  eapply (coins_genesis _ _ 1); reflexivity.
Qed.
End Toy.
Import Toy.

Lemma ActivateBestChainStep_well_formed_witness :
  exists ok fInvalidFound n' tip', ActivateBestChainStep 5 Toy.start_node = Ok (ok, fInvalidFound, n') /\ node_inv 1 Toy.toy_hash n' /\ at_tip [] n' tip' /\
    same_tree (blocks Toy.start_node) (blocks n') /\ (forall p, failed Toy.start_node p -> failed n' p) /\
    (ok = true ->
     if fInvalidFound : bool then exists p, is_ancestor (blocks Toy.start_node) p 5 /\ ~ is_ancestor (blocks Toy.start_node) p 3 /\ failed n' p
     else is_ancestor (blocks Toy.start_node) tip' 5 /\ (tip' = 5%positive \/ work_at Toy.start_node 3 < work_at Toy.start_node tip')).
Proof.
  eapply (ActivateBestChainStep_well_formed [] 1 Toy.toy_hash Toy.start_node 3 5); [exact Toy.start_inv|exact Toy.start_tip|reflexivity|].
  cbn. set_solver.
Defined.

Lemma ActivateBestChain_settles_witness :
  (exists ok n' tip', ActivateBestChain 63 Toy.start_node = Ok (ok, n') /\ node_inv 1 Toy.toy_hash n' /\ at_tip [] n' tip' /\
    (forall p, unusable Toy.start_node p -> ~ is_ancestor (blocks Toy.start_node) p 3 -> ~ is_ancestor (blocks Toy.start_node) p tip') /\
    (forall c, c ∈ setBlockIndexCandidates Toy.start_node -> c ∈ setBlockIndexCandidates n' \/
      (exists t, is_ancestor (blocks Toy.start_node) t c /\ unusable n' t) \/
      (exists x cs, coins_at [] (blocks Toy.start_node) x cs /\ worse (blocks Toy.start_node) c x = true)) /\
    (ok = true -> forall c, c ∈ setBlockIndexCandidates n' -> worse (blocks n') tip' c = false)) /\
  match ActivateBestChain 63 Toy.start_node with Ok (ok, n') => ok = true /\ pcoinsTip n' = [6; 4; 2; 1]%positive | _ => False end.
Proof.
  split; [|vm_compute; split; reflexivity].
  apply (ActivateBestChain_settles [] 1 Toy.toy_hash Toy.start_node 3 63); [exact Toy.start_inv|exact Toy.start_tip|].
  vm_compute. lia.
Defined.
