(* ===== verification/Invalidation.v ===== *)
(** * Blocks declared invalid, and valid again

    [InvalidateBlock] takes a block and everything above it off the active chain,
    and [ActivateBestChain] never brings it back; [ReconsiderBlock] clears what
    was marked around a block. *)
From S2P Require Import Prelude Serialize Hash ArithUint256 Params Chain Pow Script Transaction Block TxVerify BestChain Activation.

Section Invalidation.
Context {C : Type} `{!ChainState C} `{!Equiv C} (start : C) (genesis : positive) (block_hash : positive -> uint256).
Context `{!ChainStateLaws C block_hash}.
Notation node := (node C).
Notation node_inv := (node_inv genesis block_hash).
Notation at_tip := (at_tip start).

(** What the declaration may change: the status of entries, with more failures,
    and the candidates. *)
Record altered (n n' : node) : Prop := {
  alt_tree : same_tree (blocks n) (blocks n');
  alt_failed : forall p, failed n p -> failed n' p;
  alt_index : mapBlockIndex n' = mapBlockIndex n;
}.
#[export] Instance altered_preorder : PreOrder altered.
Proof. split; [by intros n|]. intros a b c [T1 F1 I1] [T2 F2 I2]. split; [by etransitivity|auto|congruence]. Qed.
Lemma extends_altered n n' : extends start n n' -> altered n n'.
Proof. intros []. by split. Qed.
Lemma some_altered (n n' : node) p : same_tree (blocks n) (blocks n') -> is_Some (blocks n !! p) -> is_Some (blocks n' !! p).
Proof. intros T [b Hb]. destruct (same_tree_lookup _ _ p b T Hb) as (b' & Hb' & _). by exists b'. Qed.

Lemma node_inv_altered (n n' : node) : same_tree (blocks n) (blocks n') ->
  (forall p, p ∈ setBlockIndexCandidates n' -> p ∈ setBlockIndexCandidates n \/ exists b, blocks n' !! p = Some b /\ nChainTx b <> 0) ->
  (forall p, pindexBestInvalid n' = Some p -> is_Some (blocks n' !! p)) -> node_inv n -> node_inv n'.
Proof.
  intros T Hc Hp Hi. split; [by eapply tree_inv_same; [|apply Hi]| |done].
  intros p [Hin|?]%Hc; [|done]. destruct (node_candidates _ _ n Hi p Hin) as (b & Hb & Ht).
  destruct (same_tree_lookup _ _ p b T Hb) as (b' & Hb' & (_ & _ & _ & _ & _ & _ & E)%core_fields). exists b'. split; [done|congruence].
Qed.

(** The steps that only change the status of an entry and its candidacy. *)
Lemma mark_spec n tip p m : Z.land m BLOCK_HAVE_DATA = 0 -> node_inv n -> at_tip n tip -> is_Some (blocks n !! p) ->
  let n' := erase_candidate (with_dirty (set_status n p (fun s => Z.lor s m)) p) p in
  altered n n' /\ node_inv n' /\ at_tip n' tip /\ (Z.land m BLOCK_FAILED_MASK <> 0 -> failed n' p).
Proof.
  intros Hm Hi Ht [b Hb] n'. assert (T : same_tree (blocks n) (blocks n')) by by apply same_tree_alter.
  split_and!; [| |by apply (at_tip_blocks start n)|].
  - split; [done| |done]. intros q Hq. apply (set_status_extends start n p m Hm) in Hq. exact Hq.
  - apply (node_inv_altered n); [done|cbn; set_solver| |done]. intros q Hq. eapply some_altered; [exact T|]. by apply (node_invalid _ _ n Hi).
  - intros Hf. eexists. split; [cbn; by rewrite lookup_alter_eq, Hb|]. cbn [nStatus set_nStatus]. rewrite Z.land_lor_distr_l.
    intros [_ ?]%Z.lor_eq_0_iff. done.
Qed.

Lemma ancestor_below (n : node) tip bt p b : node_inv n -> blocks n !! tip = Some bt -> blocks n !! p = Some b -> pprev b <> None -> is_ancestor (blocks n) p tip ->
  exists q, pprev bt = Some q.
Proof.
  intros Hi Ht Hb Hp [[|k] Hk]; cbn [iter_prev] in Hk; [assert (bt = b) as -> by congruence; destruct (pprev b); [by eexists|done]|].
  rewrite Ht in Hk. destruct (pprev bt); [by eexists|by rewrite iter_prev_None in Hk].
Qed.

Lemma disconnect_while_eq fuel pindex (n : node) : disconnect_while fuel pindex n =
  (i ← Contains (blocks n) (chainActive n) (Some pindex);
   if negb i then Ok (true, n) else
   match fuel, tip_of n with
   | S fuel, Some pindexWalk =>
       let n := set_status n pindexWalk (fun s => Z.lor s BLOCK_FAILED_CHILD) in
       r ← DisconnectTip (erase_candidate (with_dirty n pindexWalk) pindexWalk);
       let '(ok, n) := r in
       if negb ok then cassert (bool_decide (tip_of n <> None));; Ok (false, n) else disconnect_while fuel pindex n
   | _, _ => Abort
   end).
Proof. by destruct fuel. Qed.

Lemma disconnect_while_spec p fuel : forall n tip bt b, node_inv n -> at_tip n tip -> blocks n !! tip = Some bt -> nHeight bt < Z.of_nat fuel ->
  blocks n !! p = Some b -> pprev b <> None ->
  exists ok n' tip', disconnect_while fuel p n = Ok (ok, n') /\ altered n n' /\ node_inv n' /\ at_tip n' tip' /\ is_ancestor (blocks n) tip' tip /\
    (ok = true -> ~ is_ancestor (blocks n) p tip').
Proof.
  induction fuel as [|fuel IH]; intros n tip bt b Hi Ht Hbt Hf Hb Hp; pose proof (proj1 (inv_tree _ _ _ (node_tree _ _ n Hi))) as Htb;
    pose proof (tree_height _ Htb tip bt Hbt); [lia|].
  rewrite disconnect_while_eq. pose proof Ht as (bt' & Hbt' & Ec & _). assert (bt' = bt) as -> by congruence. rewrite Ec.
  destruct (Contains_branch _ Htb tip bt p b Hbt Hb) as (i & -> & Hin). cbn [mbind outcome_bind].
  destruct i; cbn [negb]; [|exists true, n, tip; split_and!; try done; [by exists O|intros _ ?%Hin; done]].
  rewrite (tip_of_branch start n tip Ht). assert (Ha : is_ancestor (blocks n) p tip) by by apply Hin.
  destruct (ancestor_below n tip bt p b Hi Hbt Hb Hp Ha) as [q Hq]. cbn zeta.
  destruct (mark_spec n tip tip BLOCK_FAILED_CHILD) as (X1 & Hi1 & Ht1 & _); [done..|by exists bt|]. set (n1 := erase_candidate _ tip) in *.
  assert (T1 := alt_tree _ _ X1). destruct (same_tree_lookup _ _ tip bt T1 Hbt) as (bt1 & Hbt1 & (Eq & _ & Eh & _)%core_fields).
  destruct (DisconnectTip_spec start genesis block_hash n1 tip bt1 q Hi1 Ht1 Hbt1) as (ok & n2 & -> & Ht2 & E2); [congruence|]. cbn [mbind outcome_bind].
  assert (Eb : blocks n2 = blocks n1) by by rewrite E2. assert (X2 : altered n n2) by (etransitivity; [exact X1|]; rewrite E2; by split).
  assert (Hi2 : node_inv n2). { apply (node_inv_altered n1); [by rewrite Eb|rewrite E2; by left|rewrite E2; apply Hi1|done]. }
  destruct ok; cbn [negb].
  - destruct Ht2 as (bq & Hbq & Hrest). assert (T2 := alt_tree _ _ X2). destruct (same_tree_lookup _ _ p b T2 Hb) as (b2 & Hb2 & (Ep & _)%core_fields).
    assert (Hhq : nHeight bq = nHeight bt - 1).
    { pose proof (tree_prev _ (proj1 (inv_tree _ _ _ (node_tree _ _ n1 Hi1))) tip bt1 Hbt1) as Hpv. rewrite Eq, Hq in Hpv. destruct Hpv as (bq' & Hbq' & E).
      rewrite Eb in Hbq. assert (bq' = bq) as -> by congruence. lia. }
    destruct (IH n2 q bq b2 Hi2) as (ok & n3 & tip3 & -> & X3 & Hi3 & Ht3 & Ha3 & Hok); [by exists bq|done|lia|done|congruence|].
    symmetry in T2. exists ok, n3, tip3. split_and!; [done|by etransitivity|done|done| |].
    + apply (is_ancestor_same _ _ _ _ T2) in Ha3 as [j Hj]. exists (S j). cbn [iter_prev]. by rewrite Hbt, Hq.
    + intros Eok Hpt. apply (Hok Eok). eapply is_ancestor_same; [symmetry; exact T2|done].
  - rewrite (tip_of_branch start n2 tip Ht2), bool_decide_eq_true_2 by done. cbn [cassert mbind outcome_bind].
    exists false, n2, tip. split_and!; [done..|by exists O|done].
Qed.

(** ** The candidates after it *)

Lemma each_inv (P : node -> Prop) f l : forall n, (forall p m, p ∈ l -> P m -> exists m', f p m = Ok m' /\ P m') -> P n ->
  exists n', each f l n = Ok n' /\ P n'.
Proof.
  induction l as [|p l IH]; intros n Hf Hn; [by exists n|]. cbn [each]. destruct (Hf p n) as (m & -> & Hm); [by left|done|]. cbn [mbind outcome_bind].
  apply IH; [|done]. intros q m' Hq. apply Hf. by right.
Qed.

(** [p] is to be a candidate when [tip] is the tip. *)
Definition eligible (n : node) (tip p : positive) : Prop :=
  exists b, blocks n !! p = Some b /\ Chain.IsValid b BLOCK_VALID_TRANSACTIONS = Ok true /\ nChainTx b <> 0 /\ worse (blocks n) p tip = false.

Lemma IsValid_total b : exists v, Chain.IsValid b BLOCK_VALID_TRANSACTIONS = Ok v /\ (v = true -> Z.land (nStatus b) BLOCK_FAILED_MASK = 0).
Proof.
  unfold Chain.IsValid. cbn [cassert BLOCK_VALID_TRANSACTIONS]. change (Z.land 3 (Z.lnot BLOCK_VALID_MASK) =? 0) with true. cbn [mbind outcome_bind cassert].
  destruct (Z.eqb_spec (Z.land (nStatus b) BLOCK_FAILED_MASK) 0) as [->|]; cbn [negb]; [by eexists|]. by exists false.
Qed.

Lemma readd_candidate_spec n tip p : node_inv n -> at_tip n tip -> is_Some (blocks n !! p) ->
  exists s, readd_candidate p n = Ok (with_candidates n s) /\ setBlockIndexCandidates n ⊆ s /\ s ⊆ {[p]} ∪ setBlockIndexCandidates n /\
    (eligible n tip p -> p ∈ s) /\ node_inv (with_candidates n s).
Proof.
  intros Hi Ht [b Hb]. unfold readd_candidate. cbn [deref]. rewrite Hb. cbn [mbind outcome_bind]. destruct (IsValid_total b) as (v & Ev & _). rewrite Ev. cbn [mbind outcome_bind].
  assert (Hsame : n = with_candidates n (setBlockIndexCandidates n)) by by destruct n.
  destruct (negb v || (nChainTx b =? 0)) eqn:Ec.
  { exists (setBlockIndexCandidates n). rewrite <- Hsame. split_and!; [done|done|set_solver| |done].
    intros (b' & Hb' & Hv & Hc & _). assert (b' = b) as -> by congruence. apply orb_true_iff in Ec as [Ec|Ec]; [|by apply Z.eqb_eq in Ec]. rewrite Ev in Hv. by injection Hv as ->. }
  rewrite (tip_of_branch start n tip Ht). apply orb_false_iff in Ec as [_ Ec]. apply Z.eqb_neq in Ec.
  destruct (worse (blocks n) p tip) eqn:Ew.
  - exists (setBlockIndexCandidates n). rewrite <- Hsame. split_and!; [done|done|set_solver| |done]. intros (? & _ & _ & _ & ?). congruence.
  - exists ({[p]} ∪ setBlockIndexCandidates n). split_and!; [done|set_solver|done|set_solver|].
    apply (node_inv_altered n); [done| |apply Hi|done]. cbn. intros q [->%elem_of_singleton|?]%elem_of_union; [right; by exists b|by left].
Qed.

Lemma with_candidates_tip n tip s : at_tip n tip -> at_tip (with_candidates n s) tip.
Proof. by apply at_tip_blocks. Qed.

Lemma readd_all_spec l : forall n tip, node_inv n -> at_tip n tip -> Forall (fun p => is_Some (blocks n !! p)) l ->
  exists s, each readd_candidate l n = Ok (with_candidates n s) /\ node_inv (with_candidates n s) /\ setBlockIndexCandidates n ⊆ s /\
    Forall (fun p => eligible n tip p -> p ∈ s) l.
Proof.
  induction l as [|p l IH]; intros n tip Hi Ht Hl; cbn [each].
  { exists (setBlockIndexCandidates n). split_and!; by destruct n. }
  apply Forall_cons in Hl as [Hp Hl]. destruct (readd_candidate_spec n tip p Hi Ht Hp) as (s & -> & Hs1 & _ & He & Hi1). cbn [mbind outcome_bind].
  destruct (IH (with_candidates n s) tip Hi1 (with_candidates_tip n tip s Ht) Hl) as (s' & -> & Hi2 & Hs2 & Hall). cbn in Hs2.
  exists s'. split_and!; [done|done|set_solver|]. constructor; [intros; apply Hs2; auto|exact Hall].
Qed.

(** The index leads to entries. *)
Definition index_ok (n : node) : Prop := Forall (fun p => is_Some (blocks n !! p)) (entries n).

Lemma InvalidateBlock_spec n tip p b : node_inv n -> at_tip n tip -> index_ok n -> blocks n !! p = Some b -> pprev b <> None ->
  exists ok n' tip', InvalidateBlock p n = Ok (ok, n') /\ altered n n' /\ node_inv n' /\ at_tip n' tip' /\ is_ancestor (blocks n) tip' tip /\ failed n' p /\
    (ok = true -> ~ is_ancestor (blocks n) p tip' /\ Forall (fun q => eligible n' tip' q -> q ∈ setBlockIndexCandidates n') (entries n)).
Proof.
  intros Hi Ht Hx Hb Hp. unfold InvalidateBlock. cbn [deref]. rewrite Hb. cbn [mbind outcome_bind].
  destruct (mark_spec n tip p BLOCK_FAILED_VALID) as (X1 & Hi1 & Ht1 & Hf1); [done..|by exists b|]. set (n1 := erase_candidate _ p) in *.
  assert (T1 := alt_tree _ _ X1). destruct (same_tree_lookup _ _ p b T1 Hb) as (b1 & Hb1 & (Ep & _)%core_fields).
  pose proof Ht1 as (bt & Hbt & Ec & _). change (chainActive n) with (chainActive n1). rewrite Ec, branch_length.
  destruct (disconnect_while_spec p (S (Z.to_nat (nHeight bt))) n1 tip bt b1 Hi1 Ht1 Hbt) as (ok & n2 & tip2 & -> & X2 & Hi2 & Ht2 & Ha & Hok); [lia|done|congruence|].
  cbn [mbind outcome_bind]. assert (X : altered n n2) by by etransitivity. symmetry in T1.
  assert (Hf2 : failed n2 p) by by apply X2, Hf1. apply (is_ancestor_same _ _ _ _ T1) in Ha.
  destruct ok; cbn [negb]; [|by exists false, n2, tip2].
  destruct (readd_all_spec (entries n2) n2 tip2 Hi2 Ht2) as (s & -> & Hi3 & _ & Hall).
  { unfold index_ok, entries in *. rewrite (alt_index _ _ X). eapply Forall_impl; [exact Hx|]. intros q. apply some_altered, X. }
  cbn [mbind outcome_bind]. set (n3 := with_candidates n2 s) in *. assert (X3 : altered n n3) by (etransitivity; [exact X|by split]).
  destruct (InvalidChainFound_spec start genesis block_hash n3 tip2 p Hi3 (with_candidates_tip _ _ _ Ht2)) as (n4 & E4 & X4 & Hi4 & Ht4); [eapply some_altered; [apply X3|by exists b]|].
  rewrite E4. cbn [mbind outcome_bind]. exists true, n4, tip2. split_and!; [done|by etransitivity; [exact X3|apply extends_altered]|done|done|done|by apply X4|].
  intros _. split; [intros Hpt; apply (Hok eq_refl); eapply is_ancestor_same; [symmetry; exact T1|done]|].
  assert (setBlockIndexCandidates n4 = s /\ blocks n4 = blocks n2) as [Es Eb4].
  { revert E4. unfold InvalidChainFound. cbn [deref]. destruct (blocks n3 !! p) as [bp|]; [|done]. cbn [mbind outcome_bind].
    destruct (match pindexBestInvalid n3 with None => _ | Some _ => _ end) as [worst| | |]; [|done..]. cbn [mbind outcome_bind].
    destruct (bool_decide _); [|done]. intros [= <-]. by destruct worst. }
  unfold entries in *. rewrite (alt_index _ _ X) in Hall. eapply Forall_impl; [exact Hall|]. intros q He. rewrite Es. intros Hq. apply He. revert Hq. unfold eligible. by rewrite Eb4.
Qed.

(** ** Clearing the marks *)

Record cleared (n n' : node) : Prop := {
  cl_tree : same_tree (blocks n) (blocks n');
  cl_failed : forall p, failed n' p -> failed n p;
  cl_missing : forall p, missing n p <-> missing n' p;
  cl_index : mapBlockIndex n' = mapBlockIndex n;
  cl_unlinked : mapBlocksUnlinked n' = mapBlocksUnlinked n;
}.
#[export] Instance cleared_preorder : PreOrder cleared.
Proof. split; [by intros n|]. intros a b c [T1 F1 M1 I1 U1] [T2 F2 M2 I2 U2]. split; [by etransitivity|auto|intros p; by rewrite M1|congruence|congruence]. Qed.

(** The entries outside [P] are as they were. *)
Definition only (P : positive -> Prop) (n n' : node) : Prop := forall q, ~ P q -> blocks n' !! q = blocks n !! q.

Lemma clear_spec n tip p b : node_inv n -> at_tip n tip -> blocks n !! p = Some b ->
  let n' := with_dirty (set_status n p (fun s => Z.ldiff s BLOCK_FAILED_MASK)) p in
  cleared n n' /\ node_inv n' /\ at_tip n' tip /\ ~ failed n' p /\ only (eq p) n n'.
Proof.
  intros Hi Ht Hb n'. assert (T : same_tree (blocks n) (blocks n')) by by apply same_tree_alter.
  assert (Hclear : forall s, Z.land (Z.ldiff s BLOCK_FAILED_MASK) BLOCK_FAILED_MASK = 0) by (intros s; apply Z.land_ldiff).
  assert (Hp : blocks n' !! p = Some (set_nStatus b (Z.ldiff (nStatus b) BLOCK_FAILED_MASK))) by (cbn; by rewrite lookup_alter_eq, Hb).
  assert (Hnf : ~ failed n' p). { intros (b' & Hb' & Hf). rewrite Hp in Hb'. injection Hb' as <-. cbn [nStatus set_nStatus] in Hf. by rewrite Hclear in Hf. }
  split_and!; [| |by apply (at_tip_blocks start n)|done|intros q Hq; cbn; by rewrite lookup_alter_ne].
  - assert (Hdata : forall s, Z.land (Z.ldiff s BLOCK_FAILED_MASK) BLOCK_HAVE_DATA = Z.land s BLOCK_HAVE_DATA) by (intros s; by rewrite Z.ldiff_land, <- Z.land_assoc).
    split; [done| | |done|done]; intros q.
    + intros Hq. destruct (decide (q = p)) as [->|Hne]; [done|]. destruct Hq as (b' & Hb' & Hf). cbn in Hb'. rewrite lookup_alter_ne in Hb' by done. by exists b'.
    + unfold missing. destruct (decide (q = p)) as [->|Hne]; [|cbn; by rewrite lookup_alter_ne]. rewrite Hp, Hb.
      split; intros (b' & [= <-] & Hd); eexists; (split; [done|]); cbn [nStatus set_nStatus] in *; by rewrite Hdata in *.
  - apply (node_inv_altered n); [done|by left| |done]. intros q Hq. eapply some_altered; [exact T|]. by apply (node_invalid _ _ n Hi).
Qed.

Lemma GetAncestor_iff (n : node) p b q : node_inv n -> blocks n !! p = Some b -> is_Some (blocks n !! q) ->
  exists a, GetAncestor (blocks n) q (nHeight b) = Ok a /\ (a = Some p <-> is_ancestor (blocks n) p q).
Proof.
  intros Hi Hb [bq Hq]. destruct (inv_tree _ _ _ (node_tree _ _ n Hi)) as [Htb Hts].
  rewrite (GetAncestor_spec _ Htb q bq (nHeight b) Hq) by (intros; apply Hts). eexists. split; [done|]. pose proof (tree_height _ Htb p b Hb).
  rewrite (proj2 (Z.ltb_ge (nHeight b) 0)), orb_false_r by lia. destruct (Z.ltb_spec (nHeight bq) (nHeight b)) as [Hlt|Hge]; (split; [intros E|intros [k Hk]]); try done.
  - destruct (iter_prev_inv _ Htb k q bq p Hq Hk) as (_ & b' & Hb' & E). assert (b' = b) as -> by congruence. lia.
  - by eexists.
  - destruct (iter_prev_inv _ Htb k q bq p Hq Hk) as (_ & b' & Hb' & E). assert (b' = b) as -> by congruence. by replace (Z.to_nat (nHeight bq - nHeight b)) with k by lia.
Qed.

Lemma reconsider_descendant_spec n tip p b q : node_inv n -> at_tip n tip -> blocks n !! p = Some b -> is_Some (blocks n !! q) ->
  exists n', reconsider_descendant (nHeight b) p q n = Ok n' /\ cleared n n' /\ node_inv n' /\ at_tip n' tip /\
    (is_ancestor (blocks n) p q -> ~ failed n' q) /\ only (is_ancestor (blocks n) p) n n'.
Proof.
  intros Hi Ht Hb Hs. pose proof Hs as [bq Hq]. unfold reconsider_descendant. cbn [deref]. rewrite Hq. cbn [mbind outcome_bind].
  destruct (IsValid_total bq) as (v & -> & Hv). cbn [mbind outcome_bind]. destruct v.
  { exists n. split_and!; try done. intros _ (b' & Hb' & Hf). assert (b' = bq) as -> by congruence. by rewrite Hv in Hf. }
  destruct (GetAncestor_iff n p b q Hi Hb Hs) as (a & -> & Ha). cbn [mbind outcome_bind]. destruct (decide (a = Some p)) as [E|Hne].
  2: { rewrite bool_decide_eq_false_2 by done. exists n. split_and!; try done. intros Hpq%Ha. done. }
  rewrite bool_decide_eq_true_2 by done. cbn [negb]. cbn zeta. destruct (clear_spec n tip q bq Hi Ht Hq) as (X1 & Hi1 & Ht1 & Hf1 & Ho1). set (n1 := with_dirty _ q) in *.
  assert (Hq1 : blocks n1 !! q = Some (set_nStatus bq (Z.ldiff (nStatus bq) BLOCK_FAILED_MASK))) by (cbn; by rewrite lookup_alter_eq, Hq). rewrite Hq1. cbn [mbind outcome_bind].
  destruct (IsValid_total (set_nStatus bq (Z.ldiff (nStatus bq) BLOCK_FAILED_MASK))) as (v & -> & _). cbn [mbind outcome_bind].
  rewrite (tip_of_branch start n1 tip Ht1). set (b1 := set_nStatus bq _) in *.
  assert (exists s, (if negb v || (nChainTx b1 =? 0) then Ok n1 else Ok (if worse (blocks n1) tip q then insert_candidate n1 q else n1)) = Ok (E := unit) (with_candidates n1 s) /\
    node_inv (with_candidates n1 s)) as (s & -> & Hi2).
  { assert (Hsame : n1 = with_candidates n1 (setBlockIndexCandidates n1)) by done.
    destruct (negb v || (nChainTx b1 =? 0)) eqn:Ec; [exists (setBlockIndexCandidates n1); by rewrite <- Hsame|]. apply orb_false_iff in Ec as [_ Ec]. apply Z.eqb_neq in Ec.
    destruct (worse (blocks n1) tip q); [|exists (setBlockIndexCandidates n1); by rewrite <- Hsame].
    exists ({[q]} ∪ setBlockIndexCandidates n1). split; [done|]. apply (node_inv_altered n1); [done| |apply Hi1|done].
    cbn. intros x [->%elem_of_singleton|?]%elem_of_union; [right; by exists b1|by left]. }
  cbn [mbind outcome_bind]. assert (Hout : only (is_ancestor (blocks n) p) n n1) by (intros x Hx; apply Ho1; intros <-; apply Hx; by apply Ha).
  assert (forall n2 : node, blocks n2 = blocks n1 -> mapBlockIndex n2 = mapBlockIndex n -> mapBlocksUnlinked n2 = mapBlocksUnlinked n1 -> chainActive n2 = chainActive n1 -> pcoinsTip n2 = pcoinsTip n1 -> node_inv n2 ->
    cleared n n2 /\ node_inv n2 /\ at_tip n2 tip /\ (is_ancestor (blocks n) p q -> ~ failed n2 q) /\ only (is_ancestor (blocks n) p) n n2) as Hend.
  { intros n2 E1 E2 E5 E3 E4 Hi3. split_and!; [|done|apply (at_tip_blocks start n1); by rewrite ?E1|unfold failed; by rewrite E1|unfold only; by rewrite E1].
    split; [rewrite E1; apply X1|intros x; unfold failed; rewrite E1; apply X1|intros x; unfold missing; rewrite E1; apply X1|done|by rewrite E5]. }
  eexists. split; [done|]. destruct (bool_decide _); apply Hend; try done. apply (node_inv_altered (with_candidates n1 s)); [done|by left|done|done].
Qed.

Lemma reconsider_each (n0 : node) tip p b l : blocks n0 !! p = Some b -> forall n, cleared n0 n -> node_inv n -> at_tip n tip -> Forall (fun q => is_Some (blocks n0 !! q)) l ->
  exists n', each (reconsider_descendant (nHeight b) p) l n = Ok n' /\ cleared n n' /\ node_inv n' /\ at_tip n' tip /\
    Forall (fun q => is_ancestor (blocks n0) p q -> ~ failed n' q) l /\ only (is_ancestor (blocks n0) p) n n'.
Proof.
  intros Hb. induction l as [|q l IH]; intros n X0 Hi Ht Hl; cbn [each]; [exists n; by split_and!|].
  apply Forall_cons in Hl as [Hq Hl]. assert (T0 := cl_tree _ _ X0). destruct (same_tree_lookup _ _ p b T0 Hb) as (b1 & Hb1 & (_ & _ & Eh & _)%core_fields).
  destruct (reconsider_descendant_spec n tip p b1 q Hi Ht Hb1) as (n1 & E1 & X1 & Hi1 & Ht1 & Hf1 & Ho1); [by eapply some_altered|]. rewrite Eh in E1. rewrite E1. cbn [mbind outcome_bind].
  destruct (IH n1) as (n2 & -> & X2 & Hi2 & Ht2 & Hf2 & Ho2); [by etransitivity|done..|]. exists n2. split_and!; [done|by etransitivity|done|done| |].
  - constructor; [|done]. intros Ha Hf. apply Hf1; [by eapply is_ancestor_same|]. by apply X2.
  - intros x Hx. rewrite Ho2 by done. apply Ho1. intros Ha. apply Hx. eapply is_ancestor_same; [symmetry; exact T0|done].
Qed.

Lemma reconsider_ancestors_spec fuel : forall n tip p b, node_inv n -> at_tip n tip -> blocks n !! p = Some b -> nHeight b < Z.of_nat fuel ->
  exists n', reconsider_ancestors fuel (Some p) n = Ok n' /\ cleared n n' /\ node_inv n' /\ at_tip n' tip /\
    (forall q, is_ancestor (blocks n) q p -> ~ failed n' q) /\ only (fun q => is_ancestor (blocks n) q p) n n'.
Proof.
  induction fuel as [|fuel IH]; intros n tip p b Hi Ht Hb Hf; pose proof (proj1 (inv_tree _ _ _ (node_tree _ _ n Hi))) as Htb; pose proof (tree_height _ Htb p b Hb); [lia|].
  cbn [reconsider_ancestors deref]. rewrite Hb. cbn [mbind outcome_bind]. cbn zeta.
  set (n1 := if Z.land (nStatus b) BLOCK_FAILED_MASK =? 0 then n else with_dirty (set_status n p (fun s => Z.ldiff s BLOCK_FAILED_MASK)) p).
  assert (cleared n n1 /\ node_inv n1 /\ at_tip n1 tip /\ ~ failed n1 p /\ only (eq p) n n1) as (X1 & Hi1 & Ht1 & Hf1 & Ho1).
  { unfold n1. destruct (Z.eqb_spec (Z.land (nStatus b) BLOCK_FAILED_MASK) 0) as [E|]; [|by eapply clear_spec]. split_and!; try done.
    intros (b' & Hb' & Hf'). congruence. }
  assert (T1 := cl_tree _ _ X1). pose proof (tree_prev _ Htb p b Hb) as Hpv. destruct (pprev b) as [q|] eqn:Eq.
  - destruct Hpv as (bq & Hbq & Eh). destruct (same_tree_lookup _ _ q bq T1 Hbq) as (bq1 & Hbq1 & (_ & _ & Eh1 & _)%core_fields).
    destruct (IH n1 tip q bq1 Hi1 Ht1 Hbq1) as (n2 & -> & X2 & Hi2 & Ht2 & Hf2 & Ho2); [lia|]. symmetry in T1.
    assert (Hstep : forall x, is_ancestor (blocks n) x p -> x = p \/ is_ancestor (blocks n1) x q).
    { intros x [[|j] Hj]; cbn [iter_prev] in Hj; [left; congruence|]. rewrite Hb, Eq in Hj. right. exists j. by rewrite (iter_prev_same _ _ _ _ T1). }
    exists n2. split_and!; [done|by etransitivity|done|done| |].
    + intros x [->|Hx]%Hstep; [|by apply Hf2]. intros Hx. apply Hf1. by apply X2.
    + intros x Hx. rewrite Ho2; [apply Ho1; intros <-; apply Hx; by exists O|]. intros [j Hj]. apply Hx. exists (S j). cbn [iter_prev]. rewrite Hb, Eq.
      by rewrite <- (iter_prev_same _ _ _ _ T1).
  - exists n1. assert (reconsider_ancestors fuel None n1 = Ok n1) as -> by by destruct fuel. split_and!; try done.
    + intros x [[|j] Hj]; cbn [iter_prev] in Hj; [injection Hj as <-; done|]. by rewrite Hb, Eq, iter_prev_None in Hj.
    + intros x Hx. apply Ho1. intros <-. apply Hx. by exists O.
Qed.

Lemma ReconsiderBlock_spec n tip p b : node_inv n -> at_tip n tip -> index_ok n -> blocks n !! p = Some b ->
  exists n', ReconsiderBlock p n = Ok n' /\ cleared n n' /\ node_inv n' /\ at_tip n' tip /\
    (forall q, is_ancestor (blocks n) q p \/ q ∈ entries n /\ is_ancestor (blocks n) p q -> ~ failed n' q) /\
    only (fun q => is_ancestor (blocks n) q p \/ is_ancestor (blocks n) p q) n n'.
Proof.
  intros Hi Ht Hx Hb. unfold ReconsiderBlock. cbn [deref]. rewrite Hb. cbn [mbind outcome_bind].
  destruct (reconsider_each n tip p b (entries n) Hb n) as (n1 & -> & X1 & Hi1 & Ht1 & Hf1 & Ho1); [done..|]. cbn [mbind outcome_bind].
  assert (T1 := cl_tree _ _ X1). destruct (same_tree_lookup _ _ p b T1 Hb) as (b1 & Hb1 & (_ & _ & Eh & _)%core_fields).
  pose proof (tree_height _ (proj1 (inv_tree _ _ _ (node_tree _ _ n Hi))) p b Hb).
  destruct (reconsider_ancestors_spec (S (Z.to_nat (nHeight b))) n1 tip p b1 Hi1 Ht1 Hb1) as (n2 & -> & X2 & Hi2 & Ht2 & Hf2 & Ho2); [lia|].
  exists n2. split_and!; [done|by etransitivity|done|done| |].
  - intros q [Ha|[Hq Ha]]; [apply Hf2; by eapply is_ancestor_same|]. intros Hf%X2. rewrite Forall_forall in Hf1. by apply (Hf1 q).
  - intros q Hq. rewrite Ho2; [apply Ho1; tauto|]. intros Ha. apply Hq. left. eapply is_ancestor_same; [symmetry; exact T1|done].
Qed.

(** ** The theorems *)

(** C19: a block declared invalid stays off the active chain.  From a
    well-formed node, [InvalidateBlock] of a block other than the genesis block
    returns; the node is well formed, its tip an ancestor of the old one, and the
    block is marked as failed.  When nothing failed to be disconnected, the block
    is not on the active chain, every valid block not worse than the new tip is a
    candidate, and [ActivateBestChain], which returns, moves the tip to a chain
    without the block. *)
Theorem invalidated_block_stays_out (n : node) (tip p : positive) (b : CBlockIndex) (fuel : nat) :
  node_inv n -> at_tip n tip -> index_ok n -> blocks n !! p = Some b -> pprev b <> None ->
  (S (size (dom (blocks n))) * (size (dom (blocks n)) + 3) <= fuel)%nat ->
  exists ok n' tip', InvalidateBlock p n = Ok (ok, n') /\ node_inv n' /\ at_tip n' tip' /\ is_ancestor (blocks n) tip' tip /\ failed n' p /\
    (ok = true -> ~ is_ancestor (blocks n') p tip' /\ (forall q, q ∈ entries n -> eligible n' tip' q -> q ∈ setBlockIndexCandidates n') /\
      exists ok' n'' tip'', ActivateBestChain fuel n' = Ok (ok', n'') /\ at_tip n'' tip'' /\ ~ is_ancestor (blocks n'') p tip'').
Proof.
  intros Hi Ht Hx Hb Hp Hf. destruct (InvalidateBlock_spec n tip p b Hi Ht Hx Hb Hp) as (ok & n' & tip' & E & X & Hi' & Ht' & Ha & Hfp & Hok).
  assert (T := alt_tree _ _ X). assert (Hdom : dom (blocks n') = dom (blocks n)).
  { apply set_eq. intros q. rewrite !elem_of_dom. symmetry in T. split; [by apply some_altered|by apply some_altered; symmetry]. }
  exists ok, n', tip'. split_and!; [done..|]. intros Eok. destruct (Hok Eok) as [Hnot Hall]. split_and!.
  - intros Hpt. apply Hnot. eapply is_ancestor_same; [symmetry; exact T|done].
  - intros q Hq. rewrite Forall_forall in Hall. by apply Hall.
  - destruct (activate_spec start genesis block_hash fuel n' tip' Hi' Ht') as (ok' & n'' & tip'' & E' & X' & _ & Ht'' & Hk & _); [by rewrite Hdom|].
    exists ok', n'', tip''. split_and!; [done..|]. intros Hpt. apply (Hk p); [by left| |].
    + intros Hpt'. apply Hnot. eapply is_ancestor_same; [symmetry; exact T|done].
    + eapply is_ancestor_same; [symmetry; apply (ext_tree _ _ _ X')|done].
Qed.

(** A block is reconsidered with its whole line.  [ReconsiderBlock] returns;
    the node is well formed at the same tip, no ancestor of the block is marked
    as failed and no descendant that the index knows; the entries that are
    neither are as they were, and the rest of the tree too. *)
Theorem ReconsiderBlock_clears_the_line (n : node) (tip p : positive) (b : CBlockIndex) :
  node_inv n -> at_tip n tip -> index_ok n -> blocks n !! p = Some b ->
  exists n', ReconsiderBlock p n = Ok n' /\ same_tree (blocks n) (blocks n') /\ node_inv n' /\ at_tip n' tip /\
    (forall q, is_ancestor (blocks n) q p \/ q ∈ entries n /\ is_ancestor (blocks n) p q -> ~ failed n' q) /\
    (forall q, ~ (is_ancestor (blocks n) q p \/ is_ancestor (blocks n) p q) -> blocks n' !! q = blocks n !! q).
Proof.
  intros Hi Ht Hx Hb. destruct (ReconsiderBlock_spec n tip p b Hi Ht Hx Hb) as (n' & E & X & Hi' & Ht' & Hf & Ho).
  exists n'. split_and!; [done|apply X|done..].
Qed.
End Invalidation.

(** On the tree of [Toy] block 3 is taken back, and then reconsidered. *)
Import Toy.
Lemma start_index : index_ok start_node.
Proof. unfold index_ok. apply (bool_decide_unpack _). vm_compute. exact I. Qed.

Lemma invalidated_block_stays_out_witness :
  (exists ok n' tip', InvalidateBlock 3 start_node = Ok (ok, n') /\ node_inv 1 toy_hash n' /\ at_tip [] n' tip' /\ is_ancestor (blocks start_node) tip' 3 /\ failed n' 3 /\
    (ok = true -> ~ is_ancestor (blocks n') 3 tip' /\ (forall q, q ∈ entries start_node -> eligible n' tip' q -> q ∈ setBlockIndexCandidates n') /\
      exists ok' n'' tip'', ActivateBestChain 63 n' = Ok (ok', n'') /\ at_tip [] n'' tip'' /\ ~ is_ancestor (blocks n'') 3 tip'')) /\
  match InvalidateBlock 3 start_node with Ok (ok, n') => ok = true /\ pcoinsTip n' = [2; 1]%positive | _ => False end.
Proof.
  split; [|vm_compute; split; reflexivity].
  eapply (invalidated_block_stays_out [] 1 toy_hash start_node 3 3); [exact start_inv|exact start_tip|exact start_index|reflexivity|vm_compute; discriminate|].
  vm_compute. lia.
Defined.

Lemma ReconsiderBlock_clears_the_line_witness :
  exists n', ReconsiderBlock 4 start_node = Ok n' /\ same_tree (blocks start_node) (blocks n') /\ node_inv 1 toy_hash n' /\ at_tip [] n' 3 /\
    (forall q, is_ancestor (blocks start_node) q 4 \/ q ∈ entries start_node /\ is_ancestor (blocks start_node) 4 q -> ~ failed n' q) /\
    (forall q, ~ (is_ancestor (blocks start_node) q 4 \/ is_ancestor (blocks start_node) 4 q) -> blocks n' !! q = blocks start_node !! q).
Proof.
  eapply (ReconsiderBlock_clears_the_line [] 1 toy_hash start_node 3 4); [exact start_inv|exact start_tip|exact start_index|reflexivity].
Defined.
