(* ===== verification/Kernel.v ===== *)
(** * The proof of stake: kernel.cpp, stakeinput.cpp, legacy/stakemodifier.cpp

    The old stake modifier, computed from the blocks of the last 2087 seconds
    ([ComputeNextStakeModifier]), the inputs that can stake ([CStakeInput], whose
    virtual functions are the fields of a record), the kernel hash with its
    weighted target ([CStakeKernel]), and [CheckProofOfStake].

    Arguments: the previous transactions ([GetTransaction], from the index of
    transactions on disk), the inputs of the legacy zerocoin ([CLegacyzdevStake]),
    the verification of signatures, and the address of the string literal that
    [ComputeNextStakeModifier] casts to an integer for the first block. *)
From stdpp Require Import sorting.
From S2P Require Import Prelude Serialize Hash ArithUint256 Params Chain Pow Script Interpreter Transaction Sighash Block TxVerify TxInputs BlockCheck.

(** ** The old stake modifier *)

Definition MODIFIER_INTERVAL : Z := 60.
Definition MODIFIER_INTERVAL_RATIO : Z := 3.
Definition OLD_MODIFIER_INTERVAL : Z := 2087.

Definition GetStakeModifierSelectionIntervalSection (nSection : Z) : outcome unit Z :=
  cassert ((0 <=? nSection) && (nSection <? 64));;
  Ok (MODIFIER_INTERVAL * 63 / (63 + (63 - nSection) * (MODIFIER_INTERVAL_RATIO - 1))).

(** [operator<=] on pairs of a time and a block hash. *)
Definition candidate_le (x y : Z * list Z) : Prop :=
  x.1 < y.1 \/ x.1 = y.1 /\ CompareTo (limbs_of 8 x.2) (limbs_of 8 y.2) <= 0.
#[export] Instance candidate_le_dec x y : Decision (candidate_le x y).
Proof. unfold candidate_le. apply _. Defined.

Section Modifier.
Context (consensus : Params) (mapBlockIndex : gmap (list Z) positive) (blocks : store) (chainActive : CChain).

(** The hash a candidate is chosen by. *)
Definition selection_hash (fModifierV2 : bool) (nStakeModifierPrev : Z) (b : CBlockIndex) : bu :=
  let hashProof := if fModifierV2 then blockHash b else if Chain.IsProofOfStake b then replicate 32 0 else blockHash b in
  let hashSelection := limbs_of 8 (Hash [hashProof ++ WriteLE64 nStakeModifierPrev]) in
  if Chain.IsProofOfStake b then bu_shr hashSelection 32 else hashSelection.

(** The loop over the candidates; [fModifierV2] is set by the first of them.  No
    block when a candidate is not in the index, or when all were selected. *)
Fixpoint select_loop (mapSelectedBlocks : gset (list Z)) (nSelectionIntervalStop nStakeModifierPrev : Z)
    (vSortedByTimestamp : list (Z * list Z)) (fModifierV2 : option bool) (best : option (bu * positive)) : outcome unit ptr :=
  match vSortedByTimestamp with
  | [] => Ok (snd <$> best)
  | item :: l =>
      match mapBlockIndex !! item.2 with
      | None => Ok None
      | Some pindex =>
          b ← deref blocks (Some pindex);
          if bool_decide (best <> None) && (nSelectionIntervalStop <? Chain.nTime b) then Ok (snd <$> best) else
          let v2 := default (NetworkUpgradeActive consensus (nHeight b) UPGRADE_POS_V2) fModifierV2 in
          if bool_decide (blockHash b ∈ mapSelectedBlocks)
          then select_loop mapSelectedBlocks nSelectionIntervalStop nStakeModifierPrev l (Some v2) best else
          let hashSelection := selection_hash v2 nStakeModifierPrev b in
          let best := match best with
                      | Some (hashBest, _) => if CompareTo hashSelection hashBest <? 0 then Some (hashSelection, pindex) else best
                      | None => Some (hashSelection, pindex)
                      end in
          select_loop mapSelectedBlocks nSelectionIntervalStop nStakeModifierPrev l (Some v2) best
      end
  end.
Definition SelectBlockFromCandidates (vSortedByTimestamp : list (Z * list Z)) (mapSelectedBlocks : gset (list Z))
    (nSelectionIntervalStop nStakeModifierPrev : Z) : outcome unit ptr :=
  select_loop mapSelectedBlocks nSelectionIntervalStop nStakeModifierPrev vSortedByTimestamp None None.

(** The rounds from [nRound]; none when no block can be selected. *)
Fixpoint select_rounds (n : nat) (nRound : Z) (vSortedByTimestamp : list (Z * list Z)) (mapSelectedBlocks : gset (list Z))
    (nSelectionIntervalStop nStakeModifier nStakeModifierNew : Z) : outcome unit (option Z) :=
  match n with
  | O => Ok (Some nStakeModifierNew)
  | S n =>
      section ← GetStakeModifierSelectionIntervalSection nRound;
      let nSelectionIntervalStop := nSelectionIntervalStop + section in
      r ← SelectBlockFromCandidates vSortedByTimestamp mapSelectedBlocks nSelectionIntervalStop nStakeModifier;
      match r with
      | None => Ok None
      | Some _ =>
          b ← deref blocks r;
          select_rounds n (nRound + 1) vSortedByTimestamp ({[ blockHash b ]} ∪ mapSelectedBlocks) nSelectionIntervalStop nStakeModifier
            (Z.lor nStakeModifierNew (u64 (Z.shiftl (GetStakeEntropyBit b) nRound)))
      end
  end.

(** The last block with a modifier of its own, or the genesis block. *)
Fixpoint last_generated (fuel : nat) (p : positive) : outcome unit CBlockIndex :=
  b ← deref blocks (Some p);
  match pprev b with
  | Some q => if GeneratedStakeModifier b then Ok b else match fuel with O => Abort | S fuel => last_generated fuel q end
  | None => Ok b
  end.

Fixpoint collect_candidates (fuel : nat) (nSelectionIntervalStart : Z) (pindex : ptr) : outcome unit (list (Z * list Z)) :=
  match pindex with
  | None => Ok []
  | Some _ =>
      b ← deref blocks pindex;
      if Chain.nTime b <? nSelectionIntervalStart then Ok [] else
      match fuel with
      | O => Abort
      | S fuel => l ← collect_candidates fuel nSelectionIntervalStart (pprev b); Ok ((Chain.nTime b, blockHash b) :: l)
      end
  end.

(** [literal]: the address of "stakemodifier".  The result of the function, and
    what it writes into [nStakeModifier] and [fGeneratedStakeModifier], which the
    caller uses whatever the result. *)
Definition ComputeNextStakeModifier (literal : Z) (pindexPrev : ptr) : outcome unit (bool * Z * bool) :=
  match pindexPrev with
  | None => Ok (true, 0, true)
  | Some prev =>
      b ← deref blocks pindexPrev;
      if nHeight b =? 0 then Ok (true, u64 literal, true) else
      let fuel := S (Z.to_nat (nHeight b)) in
      p ← last_generated fuel prev;
      if negb (GeneratedStakeModifier p) then Ok (false, 0, false) else
      nStakeModifier ← GetStakeModifierV1 consensus p;
      if Z.quot (Chain.nTime b) MODIFIER_INTERVAL <=? Z.quot (Chain.nTime p) MODIFIER_INTERVAL then Ok (true, nStakeModifier, false) else
      let nSelectionIntervalStart := Z.quot (Chain.nTime b) MODIFIER_INTERVAL * MODIFIER_INTERVAL - OLD_MODIFIER_INTERVAL in
      l ← collect_candidates fuel nSelectionIntervalStart pindexPrev;
      let vSortedByTimestamp := merge_sort candidate_le (reverse l) in
      r ← select_rounds (Nat.min 64 (length vSortedByTimestamp)) 0 vSortedByTimestamp ∅ nSelectionIntervalStart nStakeModifier 0;
      match r with
      | None => Ok (false, nStakeModifier, false)
      | Some nStakeModifierNew => Ok (true, nStakeModifierNew, true)
      end
  end.

(** [SetNewStakeModifier()]: a failure is only logged. *)
Definition SetNewStakeModifierV1 (literal : Z) (b : CBlockIndex) : outcome unit CBlockIndex :=
  let b := (SetStakeEntropyBit b (GetStakeEntropyBit b)).1 in
  r ← ComputeNextStakeModifier literal (pprev b);
  let '(_, nStakeModifier, fGeneratedStakeModifier) := r in
  Ok (SetStakeModifierV1 b nStakeModifier fGeneratedStakeModifier).

(** The modifier a kernel is hashed with: that of the first block by which the
    modifiers were computed 2087 seconds after the block of the coin. *)
Fixpoint old_modifier_loop (fuel : nat) (stop nStakeModifierTime : Z) (pindexNext : ptr) : outcome unit (option Z) :=
  match pindexNext with
  | None => Ok None
  | Some _ =>
      b ← deref blocks pindexNext;
      let nStakeModifierTime := if GeneratedStakeModifier b then Chain.nTime b else nStakeModifierTime in
      if stop <=? nStakeModifierTime then m ← GetStakeModifierV1 consensus b; Ok (Some m) else
      match fuel with
      | O => Abort
      | S fuel => old_modifier_loop fuel stop nStakeModifierTime (chain_at chainActive (nHeight b + 1))
      end
  end.
Definition GetOldModifier (pindexFrom : positive) : outcome unit (option Z) :=
  b ← deref blocks (Some pindexFrom);
  old_modifier_loop (length chainActive) (Chain.nTime b + OLD_MODIFIER_INTERVAL) (Chain.nTime b) (chain_at chainActive (nHeight b + 1)).

(** ** Inputs that stake *)

(** The virtual functions of [CStakeInput]. *)
Record CStakeInput := StakeInput {
  GetIndexFrom : outcome unit positive;
  GetTxOutFrom : option CTxOut;
  GetValue : CAmount;
  GetUniqueness : list Z;
  IsZDEV : bool;
  ContextCheck : Z -> Z -> outcome unit bool;
}.

(** A zerocoin uses the accumulator an hour later. *)
Fixpoint zdev_modifier_loop (fuel : nat) (nHeightStop nTimeBlockFrom : Z) (pindexFrom : ptr) : outcome unit (option Z) :=
  match pindexFrom with
  | None => Ok None
  | Some _ =>
      b ← deref blocks pindexFrom;
      if nHeightStop <? nHeight b + 1 then Ok None else
      if 60 * 60 <? Chain.nTime b - nTimeBlockFrom then Ok (Some (ReadLE64 (Chain.nAccumulatorCheckpoint b))) else
      match fuel with
      | O => Abort
      | S fuel => next ← Next blocks chainActive pindexFrom; zdev_modifier_loop fuel nHeightStop nTimeBlockFrom next
      end
  end.
Definition GetOldStakeModifier (stake : CStakeInput) : outcome unit (option Z) :=
  pindexFrom ← GetIndexFrom stake;
  if IsZDEV stake then
    b ← deref blocks (Some pindexFrom);
    zdev_modifier_loop (length chainActive) (Z.min (Height chainActive) (height_last_ZC_AccumCheckpoint consensus - 1)) (Chain.nTime b) (Some pindexFrom)
  else GetOldModifier pindexFrom.

(** [GetTransaction]: the transaction and the hash of its block. *)
Context (GetTransaction : uint256 -> option (CTransaction * uint256)).

(** [ContextCheck] of a DEV input from the block [from]. *)
Definition dev_ContextCheck (from : positive) (nHeight nTime : Z) : outcome unit bool :=
  b ← deref blocks (Some from);
  Ok (negb (NetworkUpgradeActive consensus (nHeight + 1) UPGRADE_ZC_PUBLIC
            && negb (HasStakeMinAgeOrDepth consensus nHeight nTime (Chain.nHeight b) (Chain.nTime b)))).
Definition CDeviantStake (outputFrom : CTxOut) (outpointFrom : COutPoint) (pindexFrom : positive) : CStakeInput := {|
  GetIndexFrom := Ok pindexFrom;
  GetTxOutFrom := Some outputFrom;
  GetValue := nValue outputFrom;
  GetUniqueness := ser uint32_c (out_n outpointFrom) ++ out_hash outpointFrom;
  IsZDEV := false;
  ContextCheck := dev_ContextCheck pindexFrom;
|}.

(** The output is read without a test of the index. *)
Definition NewDeviantStake (txin : CTxIn) : outcome unit (option CStakeInput) :=
  if CTxIn_IsZerocoinSpend txin then Ok None else
  match GetTransaction (out_hash (prevout txin)) with
  | None => Ok None
  | Some (txPrev, hashBlock) =>
      match mapBlockIndex !! hashBlock with
      | None => Ok None
      | Some pindex =>
          i ← Contains blocks chainActive (Some pindex);
          if negb i then Ok None else
          out ← rd (vout txPrev) (out_n (prevout txin));
          Ok (Some (CDeviantStake out (prevout txin) pindex))
      end
  end.

(** ** The kernel *)

Record CStakeKernel := StakeKernel {
  stakeModifier : list Z;
  nTimeBlockFrom : Z;
  stakeUniqueness : list Z;
  kernel_nTime : Z;
  kernel_nBits : Z;
  stakeValue : CAmount;
}.

(** The constructor; a modifier that cannot be found is 0. *)
Definition new_kernel (pindexPrev : positive) (stakeInput : CStakeInput) (nBits nTimeTx : Z) : outcome unit CStakeKernel :=
  prev ← deref blocks (Some pindexPrev);
  stakeModifier ←
    (if negb (NetworkUpgradeActive consensus (nHeight prev + 1) UPGRADE_V3_4)
     then m ← GetOldStakeModifier stakeInput; Ok (ser uint64_c (default 0 m))
     else GetStakeModifierV2 consensus prev);
  pindexFrom ← GetIndexFrom stakeInput;
  from ← deref blocks (Some pindexFrom);
  Ok (StakeKernel stakeModifier (Chain.nTime from) (GetUniqueness stakeInput) nTimeTx nBits (GetValue stakeInput)).

(** [nTimeBlockFrom] and [nTime] are int. *)
Definition kernel_message (k : CStakeKernel) : list Z :=
  stakeModifier k ++ ser uint32_c (u32 (nTimeBlockFrom k)) ++ stakeUniqueness k ++ ser uint32_c (u32 (kernel_nTime k)).
Definition GetHash (k : CStakeKernel) : list Z := Hash [kernel_message k].

Definition weighted_target (nBits : Z) (stakeValue : CAmount) : outcome unit bu :=
  weight ← bu_div (uint256_of stakeValue) (uint256_of 100);
  Ok (bu_mul (compact_target nBits) weight).
Definition CheckKernelHash (k : CStakeKernel) : outcome unit bool :=
  bnTarget ← weighted_target (kernel_nBits k) (stakeValue k);
  Ok (CompareTo (limbs_of 8 (GetHash k)) bnTarget <? 0).

(** ** Validation *)

Context (zdev_stake : CTxIn -> option CStakeInput).

(** [stake && stake->InitFromTxIn(txin)]: none otherwise. *)
Definition LoadStakeInput (block : CBlock) (pindexPrev : ptr) : outcome unit (option CStakeInput) :=
  known ← (match pindexPrev with
           | None => Ok (bool_decide (is_Some (mapBlockIndex !! hashPrevBlock (header block))))
           | Some _ => prev ← deref blocks pindexPrev; Ok (bool_decide (hashPrevBlock (header block) = blockHash prev))
           end);
  if negb known then Ok None else
  if negb (Block.IsProofOfStake block) then Ok None else
  tx ← rd (vtx block) 1;
  txin ← rd (vin tx) 0;
  if CTxIn_IsZerocoinSpend txin then Ok (zdev_stake txin) else NewDeviantStake txin.

(** The time goes in and, set to the slot, out. *)
Definition Stake (fRegTest : bool) (adjusted_time : Z) (pindexPrev : positive) (stakeInput : option CStakeInput) (nBits nTimeTx : Z)
    : outcome unit (bool * Z) :=
  prev ← deref blocks (Some pindexPrev);
  match stakeInput with
  | None => Ok (false, nTimeTx)
  | Some input =>
      ok ← ContextCheck input (nHeight prev + 1) (u32 nTimeTx);
      if negb ok then Ok (false, nTimeTx) else
      let nTimeTx := if fRegTest then adjusted_time else Z.quot adjusted_time (nTimeSlotLength consensus) * nTimeSlotLength consensus in
      if (nTimeTx <=? Chain.nTime prev) && negb fRegTest then Ok (false, nTimeTx) else
      k ← new_kernel pindexPrev input nBits (i32 nTimeTx);
      ok ← CheckKernelHash k;
      Ok (ok, nTimeTx)
  end.

Context (generichash : list Z -> list Z -> uint256) (stray : Z) (CheckLowS : valtype -> bool) (g_IsV6Active : bool).
Context (Verify : valtype -> uint256 -> valtype -> bool).

(** The step on the tree among those that refuse with a text. *)
Definition on_tree {E A} (m : outcome unit A) : outcome E A :=
  match m with Ok a => Ok a | Err _ => Abort | Throw => Throw | Abort => Abort end.

Definition CheckProofOfStake (block : CBlock) (pindexPrev : positive) : outcome string unit :=
  prev ← on_tree (deref blocks (Some pindexPrev));
  let nHeight := nHeight prev + 1 in
  input ← on_tree (LoadStakeInput block (Some pindexPrev));
  match input with
  | None => Err "stake input initialization failed"%string
  | Some stakeInput =>
      ok ← on_tree (ContextCheck stakeInput nHeight (hd_nTime (header block)));
      if negb ok then Err "stake input failing contextual checks"%string else
      k ← on_tree (new_kernel pindexPrev stakeInput (hd_nBits (header block)) (i32 (hd_nTime (header block))));
      ok ← on_tree (CheckKernelHash k);
      if negb ok then Err "kernel hash check fails"%string else
      if IsZDEV stakeInput then Ok tt else
      match GetTxOutFrom stakeInput with
      | None => Err "unable to get stake prevout for coinstake"%string
      | Some stakePrevout =>
          tx ← rd (vtx block) 1;
          txin ← rd (vin tx) 0;
          let checker := TransactionSignatureChecker generichash stray Verify tx 0 (nValue stakePrevout) None in
          match @VerifyScript CheckLowS g_IsV6Active checker (scriptSig txin) (scriptPubKey stakePrevout) STANDARD_SCRIPT_VERIFY_FLAGS (GetRequiredSigVersion tx) with
          | Ok _ => Ok tt
          | Err serror => Err ("signature fails: " ++ ScriptErrorString serror)%string
          | Throw => Throw
          | Abort => Abort
          end
      end
  end.

Definition GetStakeKernelHash (block : CBlock) (pindexPrev : positive) : outcome unit (option (list Z)) :=
  input ← LoadStakeInput block (Some pindexPrev);
  match input with
  | None => Ok None
  | Some stakeInput =>
      k ← new_kernel pindexPrev stakeInput (hd_nBits (header block)) (i32 (hd_nTime (header block)));
      Ok (Some (GetHash k))
  end.
End Modifier.
