(* ===== verification/StakeModifier.v ===== *)
(** * What the stake kernel promises

    The old stake modifier is that of the nearest block that generated one, or is
    made of the entropy bits of the blocks that win the rounds among the recent
    ones; [CheckProofOfStake] accepts exactly the blocks whose coinstake input and
    kernel obey the rules, with a weighted target that wraps around. *)
From stdpp Require Import sorting.
From S2P Require Import Prelude Serialize Hash ArithUint256 Params Chain Pow Script Interpreter Transaction Sighash Block TxVerify TxInputs BlockCheck Kernel.

(** ** Comparing hashes *)

Lemma limbs_of_spec n : forall bytes, bytes_ok bytes -> length bytes = (4 * n)%nat -> limbs_ok n (limbs_of n bytes) /\ bu_val (limbs_of n bytes) = le_val bytes.
Proof.
  induction n as [|n IH]; intros bytes Hb Hl; [destruct bytes; [by repeat split; constructor|done]|]. cbn [limbs_of bu_val].
  destruct (IH (drop 4 bytes)) as [[Hlen Hf] Ev]; [by apply bytes_ok_drop|rewrite length_drop; lia|].
  assert (H4 : zlen (take 4 bytes) = 4) by (rewrite length_take; lia).
  pose proof (le_val_range (take 4 bytes) (bytes_ok_take _ _ Hb)) as Hr. rewrite H4 in Hr. split.
  - split; [cbn; by rewrite Hlen|]. constructor; [exact Hr|done].
  - rewrite Ev. rewrite <- (take_drop 4 bytes) at 3. rewrite le_val_app, H4. done.
Qed.

Lemma le_bytes_mod n x : le_bytes n (x mod 2 ^ (8 * Z.of_nat n)) = le_bytes n x.
Proof. rewrite <- le_val_le_bytes. rewrite <- (le_bytes_length n x) at 1. apply le_bytes_le_val, le_bytes_ok. Qed.

Lemma compare_loop_flip i a b : compare_loop i b a = - compare_loop i a b.
Proof.
  induction i as [|i IH]; cbn [compare_loop]; [done|]. destruct (Z.ltb_spec (limb a i) (limb b i)), (Z.ltb_spec (limb b i) (limb a i)); done || lia.
Qed.
Lemma compare_loop_trans i a b c : compare_loop i a b <= 0 -> compare_loop i b c <= 0 -> compare_loop i a c <= 0.
Proof.
  induction i as [|i IH]; cbn [compare_loop]; [done|].
  destruct (Z.ltb_spec (limb a i) (limb b i)), (Z.ltb_spec (limb b i) (limb a i)), (Z.ltb_spec (limb b i) (limb c i)), (Z.ltb_spec (limb c i) (limb b i)),
    (Z.ltb_spec (limb a i) (limb c i)), (Z.ltb_spec (limb c i) (limb a i)); lia || auto.
Qed.
#[export] Instance candidate_le_total : Total candidate_le.
Proof.
  intros x y. unfold candidate_le, CompareTo. pose proof (compare_loop_flip 8 (limbs_of 8 x.2) (limbs_of 8 y.2)) as E.
  change (length (limbs_of 8 x.2)) with 8%nat. change (length (limbs_of 8 y.2)) with 8%nat. lia.
Qed.
#[export] Instance candidate_le_trans : Transitive candidate_le.
Proof.
  intros x y z. unfold candidate_le, CompareTo. pose proof (compare_loop_trans 8 (limbs_of 8 x.2) (limbs_of 8 y.2) (limbs_of 8 z.2)) as E.
  change (length (limbs_of 8 x.2)) with 8%nat. change (length (limbs_of 8 y.2)) with 8%nat. lia.
Qed.
Lemma StronglySorted_nth {A} (R : A -> A -> Prop) l : StronglySorted R l -> forall i k x y, (i < k)%nat -> l !! i = Some x -> l !! k = Some y -> R x y.
Proof.
  induction 1 as [|a l Hs IH Ha]; intros i k x y Hik Hx Hy; [done|]. destruct k as [|k]; [lia|]. destruct i as [|i]; [|apply (IH i k); [lia|done..]].
  injection Hx as <-. rewrite Forall_forall in Ha. apply Ha. by eapply list_elem_of_lookup_2.
Qed.

Section Modifier.
Context (consensus : Params) (mapBlockIndex : gmap (list Z) positive) (blocks : store).

(** Every block is in the index under its hash. *)
Definition indexed : Prop := forall q b, blocks !! q = Some b -> mapBlockIndex !! blockHash b = Some q.
(** The modifiers of blocks can be read, and the first block has its own. *)
Definition modifiers_ok : Prop := forall q b, blocks !! q = Some b ->
  (exists m, GetStakeModifierV1 consensus b = Ok m) /\ (nHeight b = 1 -> GeneratedStakeModifier b = true).

(** A candidate: a block with its time. *)
Definition item_of (b : CBlockIndex) : Z * list Z := (Chain.nTime b, blockHash b).
Definition candidate (item : Z * list Z) (q : positive) : Prop :=
  exists b, blocks !! q = Some b /\ item = item_of b.

(** The number a candidate is drawn with, lower is better: a double hash, of which
    a block of stake drops 32 bits.  Before the upgrade all blocks of stake hash
    the same proof. *)
Definition drawn (v2 : bool) (nStakeModifierPrev : Z) (b : CBlockIndex) : Z :=
  let proof := if v2 || negb (Chain.IsProofOfStake b) then blockHash b else replicate 32 0 in
  let h := le_val (Hash [proof ++ WriteLE64 nStakeModifierPrev]) in
  if Chain.IsProofOfStake b then h / 2 ^ 32 else h.
Lemma selection_hash_drawn v2 m b : limbs_ok 8 (selection_hash v2 m b) /\ bu_val (selection_hash v2 m b) = drawn v2 m b.
Proof.
  unfold selection_hash, drawn. replace (if v2 then blockHash b else _) with (if v2 || negb (Chain.IsProofOfStake b) then blockHash b else replicate 32 0) by by destruct v2, (Chain.IsProofOfStake b).
  cbn zeta. set (h := Hash _). assert (Hb : bytes_ok h) by apply Hash_bytes. assert (Hlen : length h = 32%nat) by apply Hash_length.
  destruct (limbs_of_spec 8 h Hb Hlen) as [Hl Ev]. destruct (Chain.IsProofOfStake b); [|done].
  destruct (bu_shr_spec 8 _ 32 Hl ltac:(lia)) as [H1 H2]. split; [done|]. rewrite H2, Ev. apply Z.mod_small.
  pose proof (le_val_range h Hb) as Hr. rewrite Hlen in Hr. split; [apply Z.div_pos; lia|]. apply Z.div_lt_upper_bound; [lia|]. change (bits_of 8) with 256. lia.
Qed.

(** The entries of a sorted list that take part in a round: those that were not
    selected and are not after its end; when there is none, the first that was
    not selected. *)
Definition in_round (l : list (Z * list Z)) (sel : gset (list Z)) (stop : Z) (j : nat) (item : Z * list Z) : Prop :=
  l !! j = Some item /\ item.2 ∉ sel /\ (item.1 <= stop \/ forall k x, l !! k = Some x -> x.2 ∉ sel -> stop < x.1 /\ (j <= k)%nat).
(** The winner of a round: the lowest number, and of equal ones the first. *)
Definition chosen (v2 : bool) (nStakeModifierPrev : Z) (l : list (Z * list Z)) (sel : gset (list Z)) (stop : Z) (q : positive) : Prop :=
  exists j b, blocks !! q = Some b /\ in_round l sel stop j (item_of b) /\
    forall k x c, blocks !! x = Some c -> in_round l sel stop k (item_of c) ->
      drawn v2 nStakeModifierPrev b < drawn v2 nStakeModifierPrev c \/ drawn v2 nStakeModifierPrev b = drawn v2 nStakeModifierPrev c /\ (j <= k)%nat.

Notation select_loop := (select_loop consensus mapBlockIndex blocks).
Notation select_rounds := (select_rounds consensus mapBlockIndex blocks).

(** Whether the upgrade is active for the lowest candidate. *)
Definition lowest_v2 (l : list (Z * list Z)) : bool :=
  match l with
  | item :: _ => match mapBlockIndex !! item.2 ≫= (fun q => blocks !! q) with Some b => NetworkUpgradeActive consensus (nHeight b) UPGRADE_POS_V2 | None => false end
  | [] => false
  end.

(** The best of the first [n] entries. *)
Definition best_of (v2 : bool) (prev : Z) (l : list (Z * list Z)) (sel : gset (list Z)) (stop : Z) (n : nat) (best : option (bu * positive)) : Prop :=
  match best with
  | None => forall k x, (k < n)%nat -> l !! k = Some x -> x.2 ∈ sel
  | Some (h, q) => exists j b, blocks !! q = Some b /\ h = selection_hash v2 prev b /\ (j < n)%nat /\ l !! j = Some (item_of b) /\ blockHash b ∉ sel /\
      (Chain.nTime b <= stop \/ forall k x, (k < j)%nat -> l !! k = Some x -> x.2 ∈ sel) /\
      forall k x c, (k < n)%nat -> blocks !! x = Some c -> l !! k = Some (item_of c) -> blockHash c ∉ sel ->
        drawn v2 prev b < drawn v2 prev c \/ drawn v2 prev b = drawn v2 prev c /\ (j <= k)%nat
  end.

Lemma best_of_step v2 prev l sel stop n best p b :
  best_of v2 prev l sel stop n best -> blocks !! p = Some b -> l !! n = Some (item_of b) -> blockHash b ∉ sel -> (best = None \/ Chain.nTime b <= stop) ->
  (forall x c, blocks !! x = Some c -> item_of c = item_of b -> c = b) ->
  best_of v2 prev l sel stop (S n) (match best with
    | Some (hashBest, _) => if CompareTo (selection_hash v2 prev b) hashBest <? 0 then Some (selection_hash v2 prev b, p) else best
    | None => Some (selection_hash v2 prev b, p) end).
Proof.
  intros H Hb Hn Hnin Hstop Hsame. destruct best as [[h q]|].
  - destruct H as (j & bj & Hq & -> & Hj & Hl & Hs & Hin & Hmin). destruct Hstop as [?|Hstop]; [done|].
    destruct (selection_hash_drawn v2 prev b) as [H1 E1]. destruct (selection_hash_drawn v2 prev bj) as [H2 E2]. rewrite (CompareTo_sgn 8), E1, E2 by done.
    destruct (Z.ltb_spec (Z.sgn (drawn v2 prev b - drawn v2 prev bj)) 0) as [Hlt|Hge].
    + exists n, b. split_and!; [done|done|lia|done|done|by left|]. intros k x c Hk Hx Hc Hcn. destruct (decide (k = n)) as [->|].
      * assert (c = b) as -> by (apply (Hsame x); congruence). right. lia.
      * left. destruct (Hmin k x c) as [?|[? _]]; [lia|done..|lia|lia].
    + exists j, bj. split_and!; [done|done|lia|done|done|done|]. intros k x c Hk Hx Hc Hcn. destruct (decide (k = n)) as [->|]; [|apply (Hmin k x c); [lia|done..]].
      assert (c = b) as -> by (apply (Hsame x); congruence). destruct (Z.eq_dec (drawn v2 prev bj) (drawn v2 prev b)); [right; split; [done|lia]|left; lia].
  - exists n, b. split_and!; [done|done|lia|done|done|right; intros k x Hk; by apply H|]. intros k x c Hk Hx Hc Hcn. destruct (decide (k = n)) as [->|].
    + assert (c = b) as -> by (apply (Hsame x); congruence). right. lia.
    + destruct Hcn. apply (H k (item_of c)); [lia|done].
Qed.

(** What is left when the loop ends: at the end of the list, or at an entry after
    the end of the round. *)
Lemma best_of_chosen v2 prev l sel stop n h q : StronglySorted candidate_le l ->
  best_of v2 prev l sel stop n (Some (h, q)) -> (l !! n = None \/ exists x, l !! n = Some x /\ stop < x.1) -> chosen v2 prev l sel stop q.
Proof.
  intros Hsort (j & b & Hq & _ & Hj & Hl & Hs & Hin & Hmin) Hend.
  assert (Hle : forall i k x y, (i <= k)%nat -> l !! i = Some x -> l !! k = Some y -> x.1 <= y.1).
  { intros i k x y Hik Hx Hy. destruct (decide (i = k)) as [->|]; [by simplify_eq|]. pose proof (StronglySorted_nth _ _ Hsort i k x y ltac:(lia) Hx Hy) as [|[]]; lia. }
  assert (Hlate : forall k x, (n <= k)%nat -> l !! k = Some x -> stop < x.1).
  { intros k x Hk Hx. destruct Hend as [Hnone|(y & Hy & Hlt)]; [|pose proof (Hle n k y x Hk Hy Hx); lia]. apply lookup_ge_None in Hnone. apply lookup_lt_Some in Hx. lia. }
  assert (Hown : in_round l sel stop j (item_of b)).
  { split_and!; [done|done|]. destruct (Z.le_gt_cases (Chain.nTime b) stop) as [|Hgt]; [by left|right]. destruct Hin as [?|Hin]; [lia|].
    intros k x Hk Hx. assert (j <= k)%nat as Hjk. { apply Nat.le_ngt. intros Hlt. by apply Hx, (Hin k). } split; [|done]. pose proof (Hle j k _ _ Hjk Hl Hk). cbn in *. lia. }
  exists j, b. split_and!; [done|done|]. intros k x c Hx (Hk & Hcn & Hr). destruct (decide (k < n)%nat) as [|Hge]; [by apply (Hmin k x c)|].
  destruct Hr as [Hr|Hr]; [pose proof (Hlate k _ ltac:(lia) Hk); lia|]. destruct (Hr j _ Hl Hs). lia.
Qed.

Lemma select_loop_spec sel stop prev l : indexed -> StronglySorted candidate_le l -> Forall (fun item => exists q, candidate item q) l ->
  forall suf n v2 best, drop n l = suf -> (v2 = None -> n = O) -> (forall x, v2 = Some x -> x = lowest_v2 l) -> best_of (lowest_v2 l) prev l sel stop n best ->
  exists r, select_loop sel stop prev suf v2 best = Ok r /\
    match r with Some q => chosen (lowest_v2 l) prev l sel stop q | None => forall item, item ∈ l -> item.2 ∈ sel end.
Proof.
  intros Hix Hsort Hl suf. induction suf as [|item suf IH]; intros n v2 best Hd Hv0 Hv Hbest; cbn [Kernel.select_loop].
  { exists (snd <$> best). split; [done|]. assert (length l <= n)%nat as Hn by (apply (f_equal length) in Hd; rewrite length_drop in Hd; cbn in Hd; lia).
    destruct best as [[h q]|]; [by apply (best_of_chosen _ _ _ _ _ n h q); [..|left; apply lookup_ge_None]|].
    intros x [k Hk]%list_elem_of_lookup. apply (Hbest k); [apply lookup_lt_Some in Hk; lia|done]. }
  assert (Hn : l !! n = Some item) by (rewrite <- (Nat.add_0_r n), <- lookup_drop, Hd; done).
  assert (Hd' : drop (S n) l = suf) by (rewrite <- Nat.add_1_r, <- drop_drop, Hd; done).
  destruct (proj1 (Forall_lookup _ _) Hl n item Hn) as (p & b & Hb & ->). cbn [fst snd item_of].
  rewrite (Hix p b Hb). cbn [deref]. rewrite Hb. cbn [mbind outcome_bind].
  destruct (bool_decide (best <> None) && (stop <? Chain.nTime b)) eqn:Estop.
  { apply andb_true_iff in Estop as [Hne Ht]. apply bool_decide_eq_true in Hne. apply Z.ltb_lt in Ht. exists (snd <$> best). split; [done|].
    destruct best as [[h q]|]; [|done]. apply (best_of_chosen _ _ _ _ _ n h q); [done|done|]. right. by eexists. }
  assert (default (NetworkUpgradeActive consensus (nHeight b) UPGRADE_POS_V2) v2 = lowest_v2 l) as ->.
  { destruct v2 as [x|]; [by apply Hv|]. rewrite (Hv0 eq_refl) in Hn. unfold lowest_v2. destruct l as [|i l']; [done|]. injection Hn as ->. cbn [snd item_of]. rewrite (Hix p b Hb). cbn. by rewrite Hb. }
  assert (Hsame : forall x c, blocks !! x = Some c -> item_of c = item_of b -> c = b).
  { intros x c Hx E. assert (x = p) as -> by (apply (inj Some); rewrite <- (Hix x c Hx), <- (Hix p b Hb); injection E as _ ->; done). congruence. }
  destruct (decide (blockHash b ∈ sel)) as [Hin|Hnin].
  - rewrite bool_decide_eq_true_2 by done. apply (IH (S n)); [done|done|by intros x [= <-]|]. destruct best as [[h q]|].
    + destruct Hbest as (j & bj & ? & ? & ? & ? & ? & ? & Hmin). exists j, bj. split_and!; [done|done|lia|done|done|done|]. intros k x c Hk Hx Hc Hcn.
      destruct (decide (k = n)) as [->|]; [|apply (Hmin k x c); [lia|done..]]. assert (c = b) as -> by (apply (Hsame x); congruence). done.
    + intros k x Hk Hx. destruct (decide (k = n)) as [->|]; [by assert (x = item_of b) as -> by congruence|apply (Hbest k); [lia|done]].
  - rewrite bool_decide_eq_false_2 by done. apply (IH (S n)); [done|done|by intros x [= <-]|].
    apply (best_of_step _ _ _ _ _ n best p b); try done. destruct best; [right|by left]. rewrite bool_decide_eq_true_2 in Estop by done. apply Z.ltb_ge. done.
Qed.

(** The seconds round [k] adds. *)
Definition section (k : nat) : Z := MODIFIER_INTERVAL * 63 / (63 + (63 - Z.of_nat k) * (MODIFIER_INTERVAL_RATIO - 1)).
Lemma section_ok k : (k < 64)%nat -> GetStakeModifierSelectionIntervalSection (Z.of_nat k) = Ok (section k).
Proof.
  intros H. unfold GetStakeModifierSelectionIntervalSection. by rewrite (proj2 (Z.leb_le 0 _)), (proj2 (Z.ltb_lt _ 64)) by lia.
Qed.
(** The end of the interval after [n] rounds. *)
Fixpoint round_stop (start : Z) (n : nat) : Z :=
  match n with O => start | S n => round_stop start n + section n end.

(** The entropy bit of block [i] of a selection. *)
Definition entropy_at (qs : list positive) (i : nat) : bool :=
  match qs !! i with Some q => match blocks !! q with Some b => GetStakeEntropyBit b =? 1 | None => false end | None => false end.

Lemma entropy_bit b k i : 0 <= k < 64 -> 0 <= i ->
  Z.testbit (u64 (Z.shiftl (GetStakeEntropyBit b) k)) i = bool_decide (i = k) && (GetStakeEntropyBit b =? 1).
Proof.
  intros Hk Hi. assert (GetStakeEntropyBit b = 0 \/ GetStakeEntropyBit b = 1) as [->| ->].
  { unfold GetStakeEntropyBit. pose proof (Z.land_ones (ReadLE64 (blockHash b)) 1 ltac:(lia)) as E. change (Z.ones 1) with 1 in E. rewrite E.
    pose proof (Z.mod_pos_bound (ReadLE64 (blockHash b)) (2 ^ 1) ltac:(lia)). lia. }
  - by rewrite Z.shiftl_0_l, andb_false_r, Z.bits_0.
  - rewrite Z.shiftl_1_l, wrapu_small by (split; [lia|apply Z.pow_lt_mono_r; lia]). rewrite Z.pow2_bits_eqb by lia.
    cbn. rewrite andb_true_r. destruct (Z.eqb_spec k i) as [->|]; [by rewrite bool_decide_eq_true_2|rewrite bool_decide_eq_false_2; [done|lia]].
Qed.

(** The hashes of the blocks selected. *)
Definition selected (qs : list positive) : gset (list Z) :=
  list_to_set (map (fun q => match blocks !! q with Some b => blockHash b | None => [] end) qs).
Lemma selected_snoc qs q b : blocks !! q = Some b -> selected (qs ++ [q]) = {[ blockHash b ]} ∪ selected qs.
Proof. intros Hb. apply set_eq. intros h. unfold selected. rewrite map_app. cbn [map]. rewrite Hb. set_solver. Qed.
Lemma selected_size qs : (size (selected qs) <= length qs)%nat.
Proof.
  unfold selected. set (f := fun q => _). induction qs as [|q qs IH]; cbn [map list_to_set length]; [by rewrite size_empty|].
  pose proof (size_union_alt ({[ f q ]} : gset (list Z)) (list_to_set (map f qs))) as E. rewrite size_singleton in E.
  assert (size (list_to_set (map f qs) ∖ {[ f q ]} : gset (list Z)) <= size (list_to_set (map f qs) : gset (list Z)))%nat by (apply subseteq_size; set_solver). lia.
Qed.

(** Every round selects its winner among what the rounds before left. *)
Definition rounds_of (start : Z) (v2 : bool) (prev : Z) (l : list (Z * list Z)) (qs : list positive) : Prop :=
  forall i q, qs !! i = Some q -> chosen v2 prev l (selected (take i qs)) (round_stop start (S i)) q.
Lemma rounds_of_snoc start v2 prev l qs q : rounds_of start v2 prev l qs -> chosen v2 prev l (selected qs) (round_stop start (S (length qs))) q ->
  rounds_of start v2 prev l (qs ++ [q]).
Proof.
  intros H Hq i r Hr. apply lookup_app_Some in Hr as [Hr|[Hi Hr]].
  - rewrite take_app_le by (apply lookup_lt_Some in Hr; lia). by apply H.
  - apply list_lookup_singleton_Some in Hr as [Hi' <-]. assert (i = length qs) as -> by lia. by rewrite take_app_length.
Qed.
Definition bits_of_blocks (m : Z) (qs : list positive) : Prop := forall i, 0 <= i -> Z.testbit m i = entropy_at qs (Z.to_nat i).
Lemma bits_of_blocks_snoc m qs q b : bits_of_blocks m qs -> blocks !! q = Some b -> (length qs < 64)%nat ->
  bits_of_blocks (Z.lor m (u64 (Z.shiftl (GetStakeEntropyBit b) (Z.of_nat (length qs))))) (qs ++ [q]).
Proof.
  intros H Hb Hl i Hi. rewrite Z.lor_spec, H, entropy_bit by lia. unfold entropy_at. destruct (decide (Z.to_nat i < length qs)%nat) as [Hlt|Hge].
  - rewrite lookup_app_l by done. rewrite bool_decide_eq_false_2 by lia. by rewrite orb_false_r.
  - rewrite (proj2 (lookup_ge_None qs _)) by lia. rewrite lookup_app_r by lia. destruct (decide (i = Z.of_nat (length qs))) as [->|].
    + rewrite Nat2Z.id, Nat.sub_diag. cbn [lookup list_lookup orb]. rewrite Hb. by rewrite bool_decide_eq_true_2.
    + rewrite bool_decide_eq_false_2 by done. destruct (Z.to_nat i - length qs)%nat eqn:E; [lia|done].
Qed.

Lemma select_rounds_spec l start prev : indexed -> StronglySorted candidate_le l -> Forall (fun item => exists q, candidate item q) l -> NoDup l.*2 ->
  forall n qs new, (length qs + n <= 64)%nat -> (length qs + n <= length l)%nat -> rounds_of start (lowest_v2 l) prev l qs -> bits_of_blocks new qs ->
  exists m qs', select_rounds n (Z.of_nat (length qs)) l (selected qs) (round_stop start (length qs)) prev new = Ok (Some m) /\
    length qs' = (length qs + n)%nat /\ rounds_of start (lowest_v2 l) prev l qs' /\ bits_of_blocks m qs'.
Proof.
  intros Hix Hsort Hl Hnd. induction n as [|n IH]; intros qs new Hk Hlen Hqs Hbits; cbn [Kernel.select_rounds]; [exists new, qs; split_and!; [done|lia|done..]|].
  rewrite section_ok by lia. cbn [mbind outcome_bind]. unfold SelectBlockFromCandidates. change (round_stop start (length qs) + section (length qs)) with (round_stop start (S (length qs))).
  destruct (select_loop_spec (selected qs) (round_stop start (S (length qs))) prev l Hix Hsort Hl l 0 None None) as (r & -> & Hr); [done|done|done|intros k x ?; lia|].
  cbn [mbind outcome_bind]. destruct r as [q|].
  2: { exfalso. assert (list_to_set l.*2 ⊆ selected qs) as Hsub%subseteq_size.
       { intros h. rewrite elem_of_list_to_set, list_elem_of_fmap. intros (item & -> & Hi). by apply Hr. }
       rewrite size_list_to_set, length_fmap in Hsub by done. pose proof (selected_size qs). lia. }
  pose proof Hr as (j & b & Hb & _ & _). cbn [deref]. rewrite Hb. cbn [mbind outcome_bind].
  destruct (IH (qs ++ [q]) (Z.lor new (u64 (Z.shiftl (GetStakeEntropyBit b) (Z.of_nat (length qs)))))) as (m & qs' & E & Hlen' & Hrest); [rewrite length_app; cbn; lia..|by apply rounds_of_snoc|by apply bits_of_blocks_snoc; [..|lia]|].
  rewrite length_app in E, Hlen'. cbn [length] in E, Hlen'. rewrite Nat.add_1_r, Nat2Z.inj_succ, (selected_snoc qs q b) in E by done. exists m, qs'. split; [exact E|]. split; [lia|done].
Qed.

(** ** The candidates *)

(** The nearest block, from [p] backwards, with a modifier of its own. *)
Definition last_generator (p q : positive) (bq : CBlockIndex) : Prop :=
  exists d, iter_prev blocks d (Some p) = Some q /\ blocks !! q = Some bq /\ GeneratedStakeModifier bq = true /\
    forall j y c, (j < d)%nat -> iter_prev blocks j (Some p) = Some y -> blocks !! y = Some c -> GeneratedStakeModifier c = false.
Lemma last_generated_spec fuel : forall p b, tree_base blocks -> modifiers_ok -> blocks !! p = Some b -> 0 < nHeight b < Z.of_nat fuel ->
  exists q bq, last_generated blocks fuel p = Ok bq /\ last_generator p q bq.
Proof.
  induction fuel as [|fuel IH]; intros p b Ht Hm Hb Hf; [lia|].
  cbn [last_generated deref]. rewrite Hb. cbn [mbind outcome_bind]. pose proof (tree_prev _ Ht p b Hb) as Hp.
  destruct (pprev b) as [q|] eqn:Eq; [|lia].
  destruct (GeneratedStakeModifier b) eqn:Eg; [exists p, b; split; [done|]; exists O; split_and!; [done|done|done|intros; lia]|].
  destruct Hp as (bq & Hbq & Eh). assert (nHeight b <> 1) by (intros E; destruct (Hm p b Hb) as [_ Hg]; rewrite (Hg E) in Eg; done).
  destruct (IH q bq Ht Hm Hbq) as (r & br & E & d & Hd & Hr & Hg & Hmin); [lia|]. exists r, br. split; [done|].
  exists (S d). cbn [iter_prev]. rewrite Hb, Eq. split_and!; [done|done|done|]. intros [|j] y c Hj Hy Hc; cbn [iter_prev] in Hy; [congruence|].
  rewrite Hb, Eq in Hy. apply (Hmin j y c); [lia|done..].
Qed.

(** The blocks from [p] backwards up to the first one before [start]. *)
Definition recent (start : Z) (p x : positive) : Prop :=
  exists d, iter_prev blocks d (Some p) = Some x /\
    forall j y c, (j <= d)%nat -> iter_prev blocks j (Some p) = Some y -> blocks !! y = Some c -> start <= Chain.nTime c.
(** They are all in [l], once, with their times. *)
Definition lists_recent (start : Z) (p : positive) (l : list (Z * list Z)) : Prop :=
  NoDup l.*2 /\ forall item, item ∈ l <-> exists x c, recent start p x /\ blocks !! x = Some c /\ item = item_of c.

Lemma recent_step start p b q x : blocks !! p = Some b -> start <= Chain.nTime b -> pprev b = Some q ->
  recent start p x <-> x = p \/ recent start q x.
Proof.
  intros Hb Hge Eq. split.
  - intros ([|d] & Hd & H); cbn [iter_prev] in Hd; [left; congruence|right]. rewrite Hb, Eq in Hd. exists d. split; [done|].
    intros j y c Hj Hy Hc. apply (H (S j) y c); [lia| |done]. cbn [iter_prev]. by rewrite Hb, Eq.
  - intros [->|(d & Hd & H)].
    + exists O. split; [done|]. intros j y c Hj Hy Hc. assert (j = O) as -> by lia. cbn in Hy. congruence.
    + exists (S d). cbn [iter_prev]. rewrite Hb, Eq. split; [done|]. intros [|j] y c Hj Hy Hc; cbn [iter_prev] in Hy; [congruence|].
      rewrite Hb, Eq in Hy. apply (H j y c); [lia|done..].
Qed.
Lemma recent_height start p b x c : tree_base blocks -> blocks !! p = Some b -> recent start p x -> blocks !! x = Some c -> nHeight c <= nHeight b.
Proof.
  intros Ht Hb (d & Hd & _) Hc. destruct (iter_prev_inv blocks Ht d p b x Hb Hd) as (_ & c' & Hc' & Eh). assert (c' = c) as -> by congruence. lia.
Qed.

Lemma collect_spec fuel start : forall p b, tree_base blocks -> indexed -> blocks !! p = Some b -> nHeight b < Z.of_nat fuel ->
  exists l, collect_candidates blocks fuel start (Some p) = Ok l /\ lists_recent start p l.
Proof.
  induction fuel as [|fuel IH]; intros p b Ht Hix Hb Hf; pose proof (tree_height _ Ht p b Hb); [lia|].
  cbn [collect_candidates deref]. rewrite Hb. cbn [mbind outcome_bind]. destruct (Z.ltb_spec (Chain.nTime b) start) as [Hlt|Hge].
  { exists []. split; [done|]. split; [constructor|]. intros item. split; [by intros ?%elem_of_nil|]. intros (x & c & (d & _ & Hr) & _). specialize (Hr O p b ltac:(lia) eq_refl Hb). lia. }
  pose proof (tree_prev _ Ht p b Hb) as Hp. destruct (pprev b) as [q|] eqn:Eq.
  - destruct Hp as (bq & Hbq & Eh). destruct (IH q bq Ht Hix Hbq) as (l & -> & Hnd & Hl); [lia|]. cbn [mbind outcome_bind]. eexists. split; [done|]. split.
    + rewrite fmap_cons. constructor; [|done]. rewrite list_elem_of_fmap. intros (item & E & Hin).
      apply Hl in Hin as (x & c & Hx & Hc & ->). assert (x = p) as -> by (apply (inj Some); rewrite <- (Hix x c Hc), <- (Hix p b Hb); by f_equal).
      pose proof (recent_height start q bq p c Ht Hbq Hx Hc). assert (c = b) as -> by congruence. lia.
    + intros item. rewrite elem_of_cons, Hl. setoid_rewrite (recent_step start p b q) ; [|done..]. split.
      * intros [->|(x & c & Hx & Hc & ->)]; [exists p, b; auto|exists x, c; auto].
      * intros (x & c & [->|Hx] & Hc & ->); [left; by assert (c = b) as -> by congruence|right; by exists x, c].
  - assert (collect_candidates blocks fuel start None = Ok []) as -> by by destruct fuel. cbn [mbind outcome_bind]. eexists. split; [done|]. split; [by apply NoDup_singleton|].
    intros item. rewrite list_elem_of_singleton. split.
    + intros ->. exists p, b. split_and!; [|done|done]. exists O. split; [done|]. intros j y c Hj Hy Hc. assert (j = O) as -> by lia. cbn in Hy. congruence.
    + intros (x & c & ([|d] & Hd & _) & Hc & ->); cbn [iter_prev] in Hd; [by assert (c = b) as -> by congruence|]. rewrite Hb, Eq, iter_prev_None in Hd. done.
Qed.
End Modifier.

(** C27: the old stake modifier is that of the protocol.  In a well-formed tree
    of indexed blocks whose modifiers can be read, the first of them with one of
    its own, [ComputeNextStakeModifier] on top of a block above the genesis block
    succeeds.  When the minute of that block is not after that of the nearest one,
    from it backwards, that generated a modifier, this modifier is kept.
    Otherwise a new one is made from the candidates: the blocks, from it
    backwards, up to the first one that is more than 2087 seconds before its
    minute, sorted by time and hash.  There are 64 rounds, or as many as
    candidates; each selects, of the candidates not selected before and not after
    the end of its interval, the one with the lowest number, or the first left
    when there is none; and the bit of the round is the entropy bit of this
    block. *)
Theorem ComputeNextStakeModifier_selects (consensus : Params) (mapBlockIndex : gmap (list Z) positive) (blocks : store) (literal : Z) (prev : positive) (b : CBlockIndex) :
  tree_base blocks -> indexed mapBlockIndex blocks -> modifiers_ok consensus blocks -> blocks !! prev = Some b -> 0 < nHeight b ->
  exists q bq mq, last_generator blocks prev q bq /\ GetStakeModifierV1 consensus bq = Ok mq /\
    let start := Z.quot (Chain.nTime b) 60 * 60 - 2087 in
    if bool_decide (Z.quot (Chain.nTime bq) 60 < Z.quot (Chain.nTime b) 60) then
      exists m l qs, ComputeNextStakeModifier consensus mapBlockIndex blocks literal (Some prev) = Ok (true, m, true) /\
        lists_recent blocks start prev l /\ StronglySorted candidate_le l /\ length qs = Nat.min 64 (length l) /\
        rounds_of blocks start (lowest_v2 consensus mapBlockIndex blocks l) mq l qs /\ bits_of_blocks blocks m qs
    else ComputeNextStakeModifier consensus mapBlockIndex blocks literal (Some prev) = Ok (true, mq, false).
Proof.
  intros Ht Hix Hm Hb Hh. unfold ComputeNextStakeModifier. cbn [deref]. rewrite Hb. cbn [mbind outcome_bind]. rewrite (proj2 (Z.eqb_neq _ _)) by lia.
  destruct (last_generated_spec consensus blocks (S (Z.to_nat (nHeight b))) prev b Ht Hm Hb) as (q & bq & -> & Hlast); [lia|]. cbn [mbind outcome_bind].
  pose proof Hlast as (_ & _ & Hq & Hg & _). rewrite Hg. cbn [negb]. destruct (proj1 (Hm q bq Hq)) as [mq Emq]. rewrite Emq. cbn [mbind outcome_bind].
  exists q, bq, mq. split_and!; [done|done|]. cbn zeta. unfold MODIFIER_INTERVAL, OLD_MODIFIER_INTERVAL. case_bool_decide as Hlt; [rewrite (proj2 (Z.leb_gt _ _)) by done|by rewrite (proj2 (Z.leb_le _ _)) by lia].
  set (start := Z.quot (Chain.nTime b) 60 * 60 - 2087).
  destruct (collect_spec mapBlockIndex blocks (S (Z.to_nat (nHeight b))) start prev b Ht Hix Hb) as (l & -> & Hnd & Hl); [lia|]. cbn [mbind outcome_bind].
  set (s := merge_sort candidate_le (reverse l)). assert (Hperm : s ≡ₚ l) by (unfold s; by rewrite merge_sort_Permutation, reverse_Permutation).
  assert (Hs : lists_recent blocks start prev s) by (split; [by rewrite Hperm|intros item; by rewrite Hperm]).
  assert (Hsort : StronglySorted candidate_le s) by apply (StronglySorted_merge_sort candidate_le).
  destruct (select_rounds_spec consensus mapBlockIndex blocks s start mq Hix Hsort) with (n := Nat.min 64 (length s)) (qs := @nil positive) (new := 0) as (m & qs & E & Hlen & Hqs & Hbits).
  - apply Forall_forall. intros item (x & c & _ & Hc & ->)%Hs. by exists x, c.
  - apply Hs.
  - change (length (@nil positive)) with O. lia.
  - change (length (@nil positive)) with O. lia.
  - intros i r Hr. done.
  - intros i _. by rewrite Z.bits_0.
  - cbn [length round_stop] in E. change (Z.of_nat 0) with 0 in E. change (selected blocks []) with (∅ : gset (list Z)) in E. rewrite E. cbn [mbind outcome_bind].
    exists m, s, qs. split_and!; [done|exact Hs|exact Hsort|exact Hlen|exact Hqs|exact Hbits].
Qed.

(** ** The kernel *)

(** The target of a stake, in integers. *)
Definition stake_target (nBits : Z) (stakeValue : CAmount) : Z := (compact_value nBits * (u64 stakeValue / 100)) mod 2 ^ 256.

Lemma weighted_target_spec nBits v : in_u 32 nBits -> exists t, weighted_target nBits v = Ok t /\ limbs_ok 8 t /\ bu_val t = stake_target nBits v.
Proof.
  intros Hb. unfold weighted_target. destruct (uint256_of_spec (u64 v)) as [H1 E1]; [by apply wrapu_range|].
  destruct (uint256_of_spec 100) as [H2 E2]; [done|]. unfold uint256_of in *. rewrite (wrapu_small 64 (u64 v)) in H1, E1 by by apply wrapu_range.
  destruct (bu_div_spec 8 _ _ H1 H2) as (w & -> & Hw & Ew); [by rewrite E2|]. cbn [mbind outcome_bind]. destruct (compact_target_ok nBits Hb) as [Ht Et].
  destruct (bu_mul_spec 8 _ _ Ht Hw) as [Hok Ev]. eexists. split_and!; [done|exact Hok|]. rewrite Ev, Ew, Et, E1, E2. unfold stake_target.
  change (bits_of 8) with 256. by rewrite Z.mul_mod_idemp_l.
Qed.

Lemma CheckKernelHash_spec k : in_u 32 (kernel_nBits k) ->
  CheckKernelHash k = Ok (bool_decide (le_val (GetHash k) < stake_target (kernel_nBits k) (stakeValue k))).
Proof.
  intros Hb. unfold CheckKernelHash. destruct (weighted_target_spec (kernel_nBits k) (stakeValue k) Hb) as (t & -> & Ht & Et). cbn [mbind outcome_bind].
  destruct (limbs_of_spec 8 (GetHash k)) as [Hl El]; [apply Hash_bytes|apply Hash_length|]. f_equal.
  rewrite (CompareTo_sgn 8) by done. rewrite El, Et. apply eq_true_iff_eq. rewrite bool_decide_eq_true, Z.ltb_lt. lia.
Qed.

Section ProofOfStake.
Context (consensus : Params) (mapBlockIndex : gmap (list Z) positive) (blocks : store) (chainActive : CChain).
Context (GetTransaction : uint256 -> option (CTransaction * uint256)) (zdev_stake : CTxIn -> option CStakeInput).
Context (generichash : list Z -> list Z -> uint256) (stray : Z) (CheckLowS : valtype -> bool) (g_IsV6Active : bool).
Context (Verify : valtype -> uint256 -> valtype -> bool).
Notation NewDeviantStake := (NewDeviantStake consensus mapBlockIndex blocks chainActive GetTransaction).
Notation CDeviantStake := (CDeviantStake consensus blocks).
Notation CheckProofOfStake := (CheckProofOfStake consensus mapBlockIndex blocks chainActive GetTransaction zdev_stake
  generichash stray CheckLowS g_IsV6Active Verify).

(** The output [out] that [txin] spends is of a block [from] on the active chain. *)
Definition stake_source (txin : CTxIn) (out : CTxOut) (from : positive) : Prop :=
  exists txPrev hashBlock, GetTransaction (out_hash (prevout txin)) = Some (txPrev, hashBlock) /\ mapBlockIndex !! hashBlock = Some from /\
    Contains blocks chainActive (Some from) = Ok true /\ rd (E := unit) (vout txPrev) (out_n (prevout txin)) = Ok out.

Lemma NewDeviantStake_spec txin input : CTxIn_IsZerocoinSpend txin = false ->
  NewDeviantStake txin = Ok (Some input) <-> exists out from, stake_source txin out from /\ input = CDeviantStake out (prevout txin) from.
Proof.
  intros Hz. unfold Kernel.NewDeviantStake, stake_source. rewrite Hz. split.
  - destruct (GetTransaction _) as [[txPrev h]|]; [|done]. destruct (mapBlockIndex !! h) as [from|] eqn:Eh; [|done].
    destruct (Contains _ _ _) as [i| | |] eqn:Ec; cbn [mbind outcome_bind]; [|done..]. destruct i; cbn [negb]; [|done].
    destruct (rd (vout txPrev) _) as [out| | |] eqn:Er; cbn [mbind outcome_bind]; [|done..]. intros [= <-]. exists out, from. split; [|done].
    by exists txPrev, h.
  - intros (out & from & (txPrev & h & -> & -> & -> & Er) & ->). cbn [mbind outcome_bind negb]. by rewrite Er.
Qed.

(** The first input of a coinstake. *)
Definition coinstake_input (block : CBlock) (tx : CTransaction) (txin : CTxIn) : Prop :=
  Block.IsProofOfStake block = true /\ vtx block !! 1%nat = Some tx /\ vin tx !! O = Some txin.

Lemma rd_0 {E A} (l : list A) x : l !! O = Some x -> rd (E := E) l 0 = Ok x.
Proof. by apply (rd_lookup l 0). Qed.
Lemma rd_1 {E A} (l : list A) x : l !! 1%nat = Some x -> rd (E := E) l 1 = Ok x.
Proof. by apply (rd_lookup l 1). Qed.

Lemma on_tree_ok {E A} (m : outcome unit A) a : on_tree (E := E) m = Ok a <-> m = Ok a.
Proof. destruct m; split; intros; cbn in *; congruence. Qed.

(** *** The kernel

    The block a coin takes its modifier from: the first of the active chain, after
    the block of the coin, that generated a modifier at least 2087 seconds later. *)
Definition late_generator (bf : CBlockIndex) (h : Z) (c : CBlockIndex) : Prop :=
  nHeight bf < h /\ (exists x, chain_at chainActive h = Some x /\ blocks !! x = Some c) /\ GeneratedStakeModifier c = true /\ Chain.nTime bf + 2087 <= Chain.nTime c.
Definition old_modifier (bf : CBlockIndex) (m : Z) : Prop :=
  (exists h c, late_generator bf h c /\ (forall h' c', late_generator bf h' c' -> h <= h') /\ GetStakeModifierV1 consensus c = Ok m) \/
  (m = 0 /\ forall h c, ~ late_generator bf h c).

(** The modifier of a kernel on top of [b] whose coin is of [bf]. *)
Definition kernel_modifier (b bf : CBlockIndex) (modifier : list Z) : Prop :=
  if NetworkUpgradeActive consensus (nHeight b + 1) UPGRADE_V3_4 then GetStakeModifierV2 consensus b = Ok modifier
  else exists m, old_modifier bf m /\ modifier = WriteLE64 m.
Definition kernel_hash (modifier : list Z) (bf : CBlockIndex) (o : COutPoint) (nTime : Z) : list Z :=
  Hash [modifier ++ WriteLE32 (Chain.nTime bf) ++ WriteLE32 (out_n o) ++ out_hash o ++ WriteLE32 nTime].

Lemma kernel_GetHash modifier bf o bits t v : GetHash (StakeKernel modifier (Chain.nTime bf) (ser uint32_c (out_n o) ++ out_hash o) (i32 t) bits v) = kernel_hash modifier bf o t.
Proof.
  unfold GetHash, kernel_message, kernel_hash. cbn [stakeModifier nTimeBlockFrom stakeUniqueness kernel_nTime ser uint32_c]. unfold ser_writedata32, WriteLE32, wrapu.
  rewrite wraps_mod by lia. change (2 ^ 32) with (2 ^ (8 * Z.of_nat 4)). by rewrite !le_bytes_mod, <- app_assoc.
Qed.

Lemma active_height h x c : tree_base blocks -> chain_ok blocks chainActive -> chain_at chainActive h = Some x -> blocks !! x = Some c -> nHeight c = h.
Proof.
  intros Ht [->|(tip & bt & Htip & ->)] Hc Hx; [unfold chain_at in Hc; by destruct (_ || _)|]. pose proof (tree_height _ Ht tip bt Htip).
  assert (0 <= h <= nHeight bt) as Hh. { apply dec_stable. intros Hn. rewrite chain_at_out in Hc; [done|]. rewrite branch_length. lia. }
  rewrite chain_at_branch in Hc by done. destruct (iter_prev_inv blocks Ht _ _ _ _ Htip Hc) as (_ & c' & Hc' & E). assert (c' = c) as -> by congruence. lia.
Qed.
Lemma active_entry h : tree_base blocks -> chain_ok blocks chainActive -> 0 <= h -> match chain_at chainActive h with
  | Some x => h < zlen chainActive /\ exists c, blocks !! x = Some c /\ nHeight c = h
  | None => zlen chainActive <= h end.
Proof.
  intros Ht Hok Hh. destruct (decide (zlen chainActive <= h)) as [Hle|Hgt]; [by rewrite chain_at_out by lia|].
  destruct Hok as [E|(tip & bt & Htip & E)]; [rewrite E in Hgt; cbn in Hgt; lia|]. pose proof (tree_height _ Ht tip bt Htip).
  assert (zlen chainActive = nHeight bt + 1) as Hlen by (rewrite E, branch_length; lia). assert (chain_at chainActive h = iter_prev blocks (Z.to_nat (nHeight bt - h)) (Some tip)) as -> by (rewrite E; apply chain_at_branch; done || lia).
  destruct (iter_prev_height blocks Ht (Z.to_nat (nHeight bt - h)) tip bt Htip ltac:(lia)) as (x & c & -> & Hc & Eh). split; [lia|]. exists c. split; [done|]. lia.
Qed.

Lemma old_modifier_loop_spec bf fuel : tree_base blocks -> chain_ok blocks chainActive -> forall h t, nHeight bf < h -> 0 <= h -> t < Chain.nTime bf + 2087 -> zlen chainActive - h <= Z.of_nat fuel ->
  (exists h0 c, late_generator bf h0 c /\ h <= h0 /\ (forall h' c', h <= h' -> late_generator bf h' c' -> h0 <= h') /\
     old_modifier_loop consensus blocks chainActive fuel (Chain.nTime bf + 2087) t (chain_at chainActive h) = (m ← GetStakeModifierV1 consensus c; Ok (Some m))) \/
  ((forall h' c', h <= h' -> ~ late_generator bf h' c') /\ old_modifier_loop consensus blocks chainActive fuel (Chain.nTime bf + 2087) t (chain_at chainActive h) = Ok None).
Proof.
  intros Ht Hok. induction fuel as [|fuel IH]; intros h t Hh H0 Hlt Hf; pose proof (active_entry h Ht Hok H0) as Hat; destruct (chain_at chainActive h) as [x|] eqn:Ex.
  1: { lia. }
  1, 3: right; split; [intros h' c' Hle (_ & (x & Hx & _) & _); rewrite chain_at_out in Hx by lia; done|done].
  destruct Hat as (Hin & c & Hc & Eh). cbn [old_modifier_loop deref]. rewrite Hc. cbn [mbind outcome_bind].
  destruct (Z.leb_spec (Chain.nTime bf + 2087) (if GeneratedStakeModifier c then Chain.nTime c else t)) as [Hle|Hgt].
  - left. exists h, c. destruct (GeneratedStakeModifier c) eqn:Eg; [|lia]. split_and!; [split_and!; [done|by exists x|done|done]|lia|intros; lia|done].
  - assert (Hno : forall c', ~ late_generator bf h c').
    { intros c' (_ & (y & Hy & Hc') & Eg & Hge). assert (y = x) as -> by congruence. assert (c' = c) as -> by congruence. rewrite Eg in Hgt. lia. }
    assert (Hmore : forall h' c', h <= h' -> late_generator bf h' c' -> h + 1 <= h'). { intros h' c' Hle Hl. destruct (decide (h' = h)) as [->|]; [by destruct (Hno c')|lia]. }
    rewrite Eh. destruct (IH (h + 1) (if GeneratedStakeModifier c then Chain.nTime c else t)) as [(h0 & c0 & Hl & Hle & Hmin & E)|[Hnone E]]; [lia..| |].
    + left. exists h0, c0. split_and!; [done|lia| |done]. intros h' c' Hle' Hl'. apply (Hmin h' c'); [by eapply Hmore|done].
    + right. split; [|done]. intros h' c' Hle' Hl'. by apply (Hnone h' c'); [eapply Hmore|].
Qed.
Lemma GetOldModifier_spec from bf m : tree_base blocks -> chain_ok blocks chainActive -> blocks !! from = Some bf ->
  (exists o, GetOldModifier consensus blocks chainActive from = Ok o /\ m = default 0 o) <-> old_modifier bf m.
Proof.
  intros Ht Hok Hf. pose proof (tree_height _ Ht from bf Hf). unfold GetOldModifier. cbn [deref]. rewrite Hf. cbn [mbind outcome_bind]. unfold OLD_MODIFIER_INTERVAL.
  assert (Hall : forall h c, late_generator bf h c -> nHeight bf + 1 <= h) by (intros h c [? _]; lia).
  destruct (old_modifier_loop_spec bf (length chainActive) Ht Hok (nHeight bf + 1) (Chain.nTime bf)) as [(h & c & Hl & Hle & Hmin & ->)|[Hnone ->]]; [lia..| |].
  - split.
    + destruct (GetStakeModifierV1 consensus c) as [m'| | |] eqn:E; intros (o & Eo & ->); try done. injection Eo as <-. left. exists h, c. split_and!; [done| |done].
      intros h' c' Hl'. by apply (Hmin h' c'); [eapply Hall|].
    + intros [(h' & c' & Hl' & Hmin' & E)|[_ Hno]]; [|by destruct (Hno h c)]. assert (h' = h) as ->.
      { pose proof (Hmin' h c Hl). pose proof (Hmin h' c' ltac:(by eapply Hall) Hl'). lia. }
      destruct Hl as (_ & (x & Hx & Hc) & _), Hl' as (_ & (x' & Hx' & Hc') & _). assert (x' = x) as -> by congruence. assert (c' = c) as -> by congruence.
      rewrite E. by exists (Some m).
  - split; [intros (o & [= <-] & ->); right; split; [done|]|intros [(h' & c' & Hl' & _)|[-> _]]; [|by exists None]].
    + intros h c Hl. by apply (Hnone h c); [eapply Hall|].
    + by destruct (Hnone h' c'); [eapply Hall|].
Qed.

Lemma new_kernel_spec prev b out o from bf bits t k : tree_base blocks -> chain_ok blocks chainActive -> blocks !! prev = Some b -> blocks !! from = Some bf ->
  new_kernel consensus blocks chainActive prev (CDeviantStake out o from) bits t = Ok k <->
  exists modifier, kernel_modifier b bf modifier /\ k = StakeKernel modifier (Chain.nTime bf) (ser uint32_c (out_n o) ++ out_hash o) t bits (nValue out).
Proof.
  intros Ht Hok Hb Hf. unfold new_kernel, kernel_modifier. cbn [deref]. rewrite Hb. cbn [mbind outcome_bind GetIndexFrom GetUniqueness GetValue Kernel.CDeviantStake deref]. rewrite Hf. cbn [mbind outcome_bind].
  destruct (NetworkUpgradeActive _ _ UPGRADE_V3_4); cbn [negb].
  - destruct (GetStakeModifierV2 consensus b) as [m| | |]; cbn [mbind outcome_bind]; split; try (by intros (? & [=] & _)); try done.
    + intros [= <-]. by exists m.
    + by intros (? & [= <-] & ->).
  - unfold GetOldStakeModifier. cbn [GetIndexFrom IsZDEV Kernel.CDeviantStake mbind outcome_bind]. split.
    + destruct (GetOldModifier _ _ _ from) as [mo| | |] eqn:E; cbn [mbind outcome_bind]; [|done..]. intros [= <-]. exists (WriteLE64 (default 0 mo)). split; [|done].
      exists (default 0 mo). split; [|done]. apply (GetOldModifier_spec from bf _ Ht Hok Hf). by exists mo.
    + intros (? & (m & Hm & ->) & ->). apply (GetOldModifier_spec from bf _ Ht Hok Hf) in Hm as (mo & -> & ->). done.
Qed.

(** The rules a stake input and its kernel obey. *)
Record stakes (block : CBlock) (b : CBlockIndex) (tx : CTransaction) (txin : CTxIn) (out : CTxOut) (from : positive) (bf : CBlockIndex) (modifier : list Z) : Prop := {
  stakes_parent : hashPrevBlock (header block) = blockHash b;
  stakes_source : stake_source txin out from;
  stakes_from : blocks !! from = Some bf;
  stakes_age : NetworkUpgradeActive consensus (nHeight b + 2) UPGRADE_ZC_PUBLIC = true ->
    HasStakeMinAgeOrDepth consensus (nHeight b + 1) (hd_nTime (header block)) (nHeight bf) (Chain.nTime bf) = true;
  stakes_modifier : kernel_modifier b bf modifier;
  stakes_target : le_val (kernel_hash modifier bf (prevout txin) (hd_nTime (header block))) < stake_target (hd_nBits (header block)) (nValue out);
  stakes_script : @VerifyScript CheckLowS g_IsV6Active (TransactionSignatureChecker generichash stray Verify tx 0 (nValue out) None)
    (scriptSig txin) (scriptPubKey out) STANDARD_SCRIPT_VERIFY_FLAGS (GetRequiredSigVersion tx) = Ok tt;
}.

Lemma CheckProofOfStake_spec (block : CBlock) (prev : positive) (b : CBlockIndex) (tx : CTransaction) (txin : CTxIn) :
  tree_base blocks -> chain_ok blocks chainActive ->
  coinstake_input block tx txin -> CTxIn_IsZerocoinSpend txin = false -> blocks !! prev = Some b -> in_u 32 (hd_nBits (header block)) ->
  CheckProofOfStake block prev = Ok tt <-> exists out from bf modifier, stakes block b tx txin out from bf modifier.
Proof.
  intros Htree Hok (HPoS & Htx & Hin) Hz Hb Hbits. unfold Kernel.CheckProofOfStake, LoadStakeInput. cbn [deref]. rewrite Hb. cbn [on_tree mbind outcome_bind].
  rewrite HPoS. cbn [negb]. rewrite !(rd_1 _ _ Htx). cbn [mbind outcome_bind]. rewrite !(rd_0 _ _ Hin). cbn [mbind outcome_bind]. rewrite Hz.
  destruct (decide (hashPrevBlock (header block) = blockHash b)) as [Hpar|Hpar].
  2: { rewrite bool_decide_eq_false_2 by done. cbn. split; [done|]. intros (out & from & bf & k & []). done. }
  rewrite bool_decide_eq_true_2 by done. cbn [negb]. split.
  - destruct (NewDeviantStake txin) as [[input|]| | |] eqn:En; cbn [on_tree mbind outcome_bind]; [|done..].
    apply NewDeviantStake_spec in En as (out & from & Hsrc & ->); [|done]. cbn [ContextCheck Kernel.CDeviantStake]. unfold dev_ContextCheck. cbn [deref].
    destruct (blocks !! from) as [bf|] eqn:Ef; [|done]. cbn [mbind outcome_bind on_tree]. destruct (negb (_ && _)) eqn:Eage; cbn [negb]; [|done].
    destruct (new_kernel _ _ _ _ _ _ _) as [k| | |] eqn:Ek; cbn [mbind outcome_bind on_tree]; [|done..].
    apply (new_kernel_spec prev b out (prevout txin) from bf) in Ek as (modifier & Hmod & ->); [|done..]. rewrite CheckKernelHash_spec, kernel_GetHash by done.
    cbn [mbind outcome_bind on_tree kernel_nBits stakeValue]. case_bool_decide as Hhash; cbn [negb]; [|done]. cbn [IsZDEV GetTxOutFrom Kernel.CDeviantStake].
    destruct (VerifyScript _ _ _ _) as [[]| | |] eqn:Ev; [|done..]. intros _. exists out, from, bf, modifier. split; try done.
    intros Hact. replace (nHeight b + 2) with (nHeight b + 1 + 1) in Hact by lia. rewrite Hact in Eage. by destruct (HasStakeMinAgeOrDepth _ _ _ _ _).
  - intros (out & from & bf & modifier & [_ Hsrc Hf Hage Hmod Ht Hs]). rewrite (proj2 (NewDeviantStake_spec txin _ Hz)) by by exists out, from.
    cbn [on_tree mbind outcome_bind ContextCheck Kernel.CDeviantStake]. unfold dev_ContextCheck. cbn [deref]. rewrite Hf. cbn [mbind outcome_bind on_tree].
    assert (NetworkUpgradeActive consensus (nHeight b + 1 + 1) UPGRADE_ZC_PUBLIC && negb (HasStakeMinAgeOrDepth consensus (nHeight b + 1) (hd_nTime (header block)) (nHeight bf) (Chain.nTime bf)) = false) as ->.
    { replace (nHeight b + 1 + 1) with (nHeight b + 2) by lia. destruct (NetworkUpgradeActive _ _ _) eqn:E; [|done]. by rewrite Hage. }
    cbn [negb]. change ({| GetIndexFrom := _ |}) with (CDeviantStake out (prevout txin) from).
    rewrite (proj2 (new_kernel_spec prev b out (prevout txin) from bf _ _ _ Htree Hok Hb Hf)) by by exists modifier. cbn [mbind outcome_bind on_tree].
    rewrite CheckKernelHash_spec, kernel_GetHash by done. cbn [mbind outcome_bind on_tree kernel_nBits stakeValue].
    rewrite bool_decide_eq_true_2 by done. cbn [negb IsZDEV GetTxOutFrom Kernel.CDeviantStake]. by rewrite Hs.
Qed.

(** C26: [CheckProofOfStake] accepts exactly the blocks that stake.  A block of
    stake whose coinstake spends no zerocoin is accepted on top of [prev] when,
    and only when, it names [prev] as its parent, the coin it stakes is an output
    of a transaction on the active chain, old or deep enough if public zerocoin
    spends are active two blocks above [prev], the double hash of the modifier, the
    time of the coin's block, its outpoint and the time of the block is below the
    target times the hundreds of the value staked, modulo 2^256, and the input
    passes its script.  The modifier is the new one of [prev] from version 3.4 on;
    before, that of the first block of the active chain, after the block of the
    coin, that generated one at least 2087 seconds later, or 0. *)
Theorem CheckProofOfStake_iff (block : CBlock) (prev : positive) (b : CBlockIndex) (tx : CTransaction) (txin : CTxIn) :
  tree_base blocks -> chain_ok blocks chainActive ->
  coinstake_input block tx txin -> CTxIn_IsZerocoinSpend txin = false -> blocks !! prev = Some b -> in_u 32 (hd_nBits (header block)) ->
  CheckProofOfStake block prev = Ok tt <-> exists out from bf modifier, stakes block b tx txin out from bf modifier.
Proof. apply CheckProofOfStake_spec. Qed.
End ProofOfStake.

(** ** Examples *)

(** A block on the second one is staked with an output of the first one. *)
Module Sample.
Definition entry (h : Z) (prev skip : ptr) (t flags : Z) (modifier : list Z) : CBlockIndex :=
  BlockIndex (replicate 32 h) prev skip h 0 0 0 0 flags modifier 0 None 1 t 0x207fffff (bu_of_uint64 8 0) 1 (h + 1) [] [] 0 [] 0.
Definition tree : store := list_to_map
  [(1%positive, entry 0 None None 1000 0 []);
   (2%positive, entry 1 (Some 1%positive) (Some 1%positive) 5000 BLOCK_STAKE_MODIFIER (WriteLE64 77));
   (3%positive, entry 2 (Some 2%positive) (Some 1%positive) 5100 0 (WriteLE64 77))].
Definition index : gmap (list Z) positive :=
  list_to_map [(replicate 32 0, 1%positive); (replicate 32 1, 2%positive); (replicate 32 2, 3%positive)].
Definition chain : CChain := [Some 1%positive; Some 2%positive].
Definition coin_tx : CTransaction := Transaction 1 0 [] [TxOut 100 [0x51] 0] 0 None None.
Definition get_transaction (h : uint256) : option (CTransaction * uint256) :=
  if bool_decide (h = replicate 32 9) then Some (coin_tx, replicate 32 0) else None.
Definition stake_in : CTxIn := TxIn (OutPoint (replicate 32 9) 0) [] 0xffffffff.
Definition stake_tx : CTransaction := Transaction 1 0 [stake_in] [TxOut 0 [] 0; TxOut 110 [0x51] 0] 0 None None.
Definition staked (t : Z) : CBlock := Block (BlockHeader 7 (replicate 32 1) [] t 0x207fffff 0 [] []) [coin_tx; stake_tx] [].
Notation accepts t := (CheckProofOfStake mainParams index tree chain get_transaction (fun _ => None) (fun _ _ => []) 0 (fun _ => true) false (fun _ _ _ => false) (staked t) 2).
End Sample.

Lemma sample_base : tree_base Sample.tree.
Proof. apply tree_ok_check. refine (bool_decide_unpack _ _). vm_compute. exact I. Qed.
Lemma sample_indexed : indexed Sample.index Sample.tree.
Proof.
  intros q b Hb. assert (map_Forall (fun q b => Sample.index !! blockHash b = Some q) Sample.tree) as H by (refine (bool_decide_unpack _ _); vm_compute; exact I).
  exact (H q b Hb).
Qed.
Lemma sample_modifiers : modifiers_ok mainParams Sample.tree.
Proof.
  intros q b Hb. assert (map_Forall (fun _ b => is_ok (GetStakeModifierV1 mainParams b) = true /\ (nHeight b = 1 -> GeneratedStakeModifier b = true)) Sample.tree) as H
    by (refine (bool_decide_unpack _ _); vm_compute; exact I).
  destruct (H q b Hb) as [H1 H2]. split; [|exact H2]. destruct (GetStakeModifierV1 mainParams b) as [m| | |]; [by exists m|done..].
Qed.

Lemma ComputeNextStakeModifier_selects_witness :
  (exists q bq mq, last_generator Sample.tree 3 q bq /\ GetStakeModifierV1 mainParams bq = Ok mq /\
    let start := Z.quot 5100 60 * 60 - 2087 in
    if bool_decide (Z.quot (Chain.nTime bq) 60 < Z.quot 5100 60) then
      exists m l qs, ComputeNextStakeModifier mainParams Sample.index Sample.tree 5 (Some 3%positive) = Ok (true, m, true) /\
        lists_recent Sample.tree start 3 l /\ StronglySorted candidate_le l /\ length qs = Nat.min 64 (length l) /\
        rounds_of Sample.tree start (lowest_v2 mainParams Sample.index Sample.tree l) mq l qs /\ bits_of_blocks Sample.tree m qs
    else ComputeNextStakeModifier mainParams Sample.index Sample.tree 5 (Some 3%positive) = Ok (true, mq, false)) /\
  ComputeNextStakeModifier mainParams Sample.index Sample.tree 5 (Some 3%positive) = Ok (true, 1, true).
Proof.
  split; [|vm_compute; reflexivity].
  apply (ComputeNextStakeModifier_selects mainParams Sample.index Sample.tree 5 3 (Sample.entry 2 (Some 2%positive) (Some 1%positive) 5100 0 (WriteLE64 77))); [exact sample_base|exact sample_indexed|exact sample_modifiers|reflexivity|reflexivity].
Defined.

Notation sample_stakes := (stakes mainParams Sample.index Sample.tree Sample.chain Sample.get_transaction (fun _ _ => []) 0 (fun _ => true) false (fun _ _ _ => false)).
Lemma sample_chain : chain_ok Sample.tree Sample.chain.
Proof. right. exists 2%positive, (Sample.entry 1 (Some 1%positive) (Some 1%positive) 5000 BLOCK_STAKE_MODIFIER (WriteLE64 77)). split; vm_compute; reflexivity. Qed.
Lemma CheckProofOfStake_iff_witness :
  (Sample.accepts 6003 = Ok tt <-> exists b out from bf modifier, Sample.tree !! 2%positive = Some b /\ sample_stakes (Sample.staked 6003) b Sample.stake_tx Sample.stake_in out from bf modifier) /\
  Sample.accepts 6003 = Ok tt.
Proof.
  split; [|vm_compute; reflexivity].
  transitivity (exists out from bf modifier, sample_stakes (Sample.staked 6003) (Sample.entry 1 (Some 1%positive) (Some 1%positive) 5000 BLOCK_STAKE_MODIFIER (WriteLE64 77)) Sample.stake_tx Sample.stake_in out from bf modifier).
  - apply CheckProofOfStake_iff; [exact sample_base|exact sample_chain|split_and!; reflexivity|reflexivity|reflexivity|split; [discriminate|reflexivity]].
  - split; [intros (out & from & bf & k & H); eexists; exists out, from, bf, k; split; [reflexivity|exact H]|intros (b & out & from & bf & k & [= <-] & H); by exists out, from, bf, k].
Defined.

(** More stake can be less: with nearly the highest target of proof of stake, the
    target of 16.78 coins wraps around to less than that of 100 units. *)
Lemma weighted_target_wraps :
  compact_value 0x1e00ffff <= bu_val (posLimitV1 mainParams) /\
  stake_target 0x1e00ffff (100 * (2 ^ 24 + 257)) < stake_target 0x1e00ffff 100.
Proof. split; vm_compute; [discriminate|reflexivity]. Qed.

(** A coinstake that names an output its transaction does not have makes the node
    read out of range, before any rule has refused the block. *)
Lemma stake_index_unchecked consensus mapBlockIndex blocks chainActive GetTransaction txin txPrev hashBlock pindex :
  CTxIn_IsZerocoinSpend txin = false -> GetTransaction (out_hash (prevout txin)) = Some (txPrev, hashBlock) ->
  mapBlockIndex !! hashBlock = Some pindex -> Contains blocks chainActive (Some pindex) = Ok true ->
  zlen (vout txPrev) <= out_n (prevout txin) ->
  NewDeviantStake consensus mapBlockIndex blocks chainActive GetTransaction txin = Abort.
Proof.
  intros Hz Ht Hi Hc Hn. unfold NewDeviantStake. rewrite Hz, Ht, Hi, Hc. cbn [mbind outcome_bind negb]. unfold rd.
  rewrite bool_decide_eq_true_2 by lia. rewrite (proj2 (lookup_ge_None _ _)) by lia. done.
Qed.
