(* ===== verification/Acceptance.v ===== *)
(** * The acceptance of blocks: validation.cpp

    What happens to a block that arrives: [GetPrevIndex], [AddToBlockIndex],
    [AcceptBlockHeader], [FindBlockPos], [AcceptBlock] and [ProcessNewBlock], on
    the node of [BestChain] and the block files, with the checks of [BlockCheck]
    and of [Kernel].

    A function that returns false is [inr] with the state of the validation, and
    the node is what it has become by then.  [Environment] holds what these
    functions ask of the rest: the time, the sporks, the payments, the legacy
    zerocoin, the disk, the signatures.  Where the allocator puts a new entry is
    [new_entry]. *)
From S2P Require Import Prelude Serialize Hash ArithUint256 Params Chain Pow Script Interpreter Transaction Sighash Block TxVerify TxInputs BlockCheck Kernel BestChain.

(** ** The block files *)

Record block_file := BlockFile { file_info : CBlockFileInfo; file_nSize : Z }.
Record block_files := BlockFiles { vinfoBlockFile : list block_file; nLastBlockFile : Z; setDirtyFileInfo : gset Z }.

Definition MAX_BLOCKFILE_SIZE : Z := 0x8000000.
Definition BLOCKFILE_CHUNK_SIZE : Z := 0x1000000.

Definition files_upto (l : list block_file) (nFile : Z) : list block_file :=
  l ++ replicate (Z.to_nat (nFile + 1) - length l) (BlockFile BlockFileInfo_null 0).

(** The first file from [nFile] on that has room. *)
Fixpoint find_file (fuel : nat) (l : list block_file) (nFile nAddSize : Z) : outcome unit (list block_file * Z) :=
  f ← rd l nFile;
  if u32 (file_nSize f + nAddSize) <? MAX_BLOCKFILE_SIZE then Ok (l, nFile) else
  match fuel with O => Abort | S fuel => find_file fuel (files_upto l (nFile + 1)) (nFile + 1) nAddSize end.

Definition chunks (n : Z) : Z := u32 (n + BLOCKFILE_CHUNK_SIZE - 1) / BLOCKFILE_CHUNK_SIZE.

(** [known] is the position when the block is on disk already. *)
Definition FindBlockPos (CheckDiskSpace : Z -> bool) (st : CValidationState) (known : option (Z * Z)) (nAddSize nHeight nTime : Z) (fs : block_files)
    : outcome unit ((Z * Z + CValidationState) * block_files) :=
  let nFile := match known with Some pos => u32 pos.1 | None => nLastBlockFile fs end in
  let l := files_upto (vinfoBlockFile fs) nFile in
  r ← (match known with Some pos => Ok (l, nFile) | None => find_file (S (length l)) l nFile nAddSize end);
  let '(l, nFile) := r in
  f ← rd l nFile;
  let pos := default (nFile, file_nSize f) known in
  let nSize := match known with Some pos => Z.max (u32 (pos.2 + nAddSize)) (file_nSize f) | None => u32 (file_nSize f + nAddSize) end in
  let l := <[Z.to_nat nFile := BlockFile (AddBlock (file_info f) nHeight nTime) nSize]> l in
  if bool_decide (known = None) && (chunks pos.2 <? chunks nSize)
     && negb (CheckDiskSpace (u32 (chunks nSize * BLOCKFILE_CHUNK_SIZE - pos.2)))
  then Ok (inr (st_Error "out of disk space" st), BlockFiles l nFile (setDirtyFileInfo fs))
  else Ok (inl pos, BlockFiles l nFile ({[ nFile ]} ∪ setDirtyFileInfo fs)).

(** ** The environment *)

Class Environment (C : Type) := {
  chainparams : CChainParams;
  GetBlockHash : CBlock -> uint256;
  literal : Z;                        (* the address of a string, see [Kernel] *)
  new_entry : store -> positive;
  checkpoints : MapCheckpoints;
  fCheckpointsEnabled : bool;
  maxreorg : Z;
  GetTime : Z;
  GetAdjustedTime : Z;
  IsInitialBlockDownload : bool;
  g_IsV6Active : bool;
  nMoneySupply : CAmount;
  IsSynced : bool;
  spork_superblocks : bool;
  spork_coldstaking_maintenance : bool;
  IsBudgetPaymentBlock : Z -> bool;
  IsBlockPayeeValid : CBlock -> Z -> chk bool;
  GetTransaction : uint256 -> option (CTransaction * uint256);
  CheckZerocoinSpend : CTransaction -> bool -> CValidationState -> bool -> bool * CValidationState;
  ContextualCheckTx : CTransaction -> CValidationState -> Z -> bool -> bool -> chk unit;
  CheckSignature : CBlock -> chk bool;
  generichash : list Z -> list Z -> uint256;
  stray : Z;
  CheckLowS : valtype -> bool;
  Verify : valtype -> uint256 -> valtype -> bool;
  (** Zerocoin: the stake input, the serial of a spend (public or not), and the
      checks of the serials of a coinstake. *)
  zdev_stake : CTxIn -> option CStakeInput;
  spend_serial : bool -> CTransaction -> CTxIn -> CValidationState -> chk Z;
  serial_height : Z -> option Z;
  ContextualCheckZerocoinSpendNoSerialCheck : CTransaction -> CTxIn -> Z -> bool;
  ContextualCheckZerocoinSpend : CTransaction -> CTxIn -> Z -> bool;
  (** The coins of the tip, and the disk. *)
  coin_spent : C -> COutPoint -> bool;
  ReadBlockFromDisk : positive -> option CBlock;
  CheckDiskSpace : Z -> bool;
  WriteFile : CBlock -> Z * Z -> bool; (* a block file takes a block at a position *)
}.

Section Acceptance.
Context {C : Type} `{!ChainState C} `{!Environment C}.
Notation node := (node C).
Notation consensus := (consensus chainparams).

(** ** The index *)

(** [CBlockIndex(block)] *)
Definition new_index (hash : uint256) (block : CBlock) : CBlockIndex :=
  let h := header block in
  BlockIndex hash None None 0 0 0 0 0 (if Block.IsProofOfStake block then BLOCK_PROOF_OF_STAKE else 0) [] 0 None
    (hd_nVersion h) (hd_nTime h) (hd_nBits h) (bu_zero 8) 0 0 (hashMerkleRoot h) (hashFinalSaplingRoot h) (nNonce h)
    (if (3 <? hd_nVersion h) && (hd_nVersion h <? 7) then nAccumulatorCheckpoint h else replicate 32 0) 0.

Definition set_parent (b : CBlockIndex) (prev : ptr) (height : Z) : CBlockIndex :=
  BlockIndex (blockHash b) prev (pskip b) height (nFile b) (nDataPos b) (nUndoPos b) (nStatus b)
    (nFlags b) (vStakeModifier b) (nSaplingValue b) (nChainSaplingValue b) (Chain.nVersion b) (Chain.nTime b) (Chain.nBits b)
    (nChainWork b) (nTx b) (nChainTx b) (Chain.hashMerkleRoot b) (Chain.hashFinalSaplingRoot b)
    (Chain.nNonce b) (Chain.nAccumulatorCheckpoint b) (nSequenceId b).
Definition set_work (b : CBlockIndex) (work : bu) : CBlockIndex :=
  BlockIndex (blockHash b) (pprev b) (pskip b) (nHeight b) (nFile b) (nDataPos b) (nUndoPos b) (nStatus b)
    (nFlags b) (vStakeModifier b) (nSaplingValue b) (nChainSaplingValue b) (Chain.nVersion b) (Chain.nTime b) (Chain.nBits b)
    work (nTx b) (nChainTx b) (Chain.hashMerkleRoot b) (Chain.hashFinalSaplingRoot b)
    (Chain.nNonce b) (Chain.nAccumulatorCheckpoint b) (nSequenceId b).

Definition with_index (n : node) (index : gmap (list Z) positive) : node :=
  Node index (blocks n) (chainActive n) (setBlockIndexCandidates n) (pindexBestInvalid n) (pindexBestHeader n)
    (mapBlocksUnlinked n) (nBlockSequenceId n) (setDirtyBlockIndex n) (pcoinsTip n).
Definition with_best_header (n : node) (p : ptr) : node :=
  Node (mapBlockIndex n) (blocks n) (chainActive n) (setBlockIndexCandidates n) (pindexBestInvalid n) p
    (mapBlocksUnlinked n) (nBlockSequenceId n) (setDirtyBlockIndex n) (pcoinsTip n).

(** The entry below its parent: the height, the skip pointer and the stake
    modifier.  The second transaction is read without a test that there is one. *)
Definition link_parent (block : CBlock) (p prev : positive) (index : gmap (list Z) positive) (n : node) : outcome unit store :=
  b ← deref (blocks n) (Some p);
  parent ← deref (blocks n) (Some prev);
  st ← BuildSkip (<[p := set_parent b (Some prev) (nHeight parent + 1)]> (blocks n)) p;
  b ← deref st (Some p);
  b ← (if negb (NetworkUpgradeActive consensus (nHeight b) UPGRADE_V3_4)
       then SetNewStakeModifierV1 consensus index st literal b
       else tx ← rd (vtx block) 1;
            i ← rd (vin tx) 0;
            SetNewStakeModifierV2 consensus st b (out_hash (prevout i)));
  Ok (<[p := b]> st).

Definition AddToBlockIndex (block : CBlock) (n : node) : outcome unit (positive * node) :=
  let hash := GetBlockHash block in
  match mapBlockIndex n !! hash with
  | Some p => Ok (p, n)
  | None =>
      let p := new_entry (blocks n) in
      let n := with_index (with_blocks n (<[p := new_index hash block]> (blocks n))) (<[hash := p]> (mapBlockIndex n)) in
      st ← (match mapBlockIndex n !! hashPrevBlock (header block) with
            | Some prev => link_parent block p prev (mapBlockIndex n) n
            | None => Ok (blocks n)
            end);
      b ← deref st (Some p);
      proof ← GetBlockProof (Chain.nBits b);
      below ← (match pprev b with None => Ok (uint256_of 0) | Some _ => prev ← deref st (pprev b); Ok (nChainWork prev) end);
      r ← RaiseValidity (set_work b (bu_add below proof)) BLOCK_VALID_TREE;
      let n := with_blocks n (<[p := r.1]> st) in
      best ← (match pindexBestHeader n with
              | None => Ok true
              | Some _ => h ← deref (blocks n) (pindexBestHeader n); Ok (CompareTo (nChainWork h) (nChainWork r.1) <? 0)
              end);
      Ok (p, with_dirty (if best : bool then with_best_header n (Some p) else n) p)
  end.

(** ** Headers *)

(** A check among operations that return false. *)
Definition checked_by {A} (m : chk A) : outcome unit (A + CValidationState) :=
  match m with Ok a => Ok (inl a) | Err st => Ok (inr st) | Throw => Throw | Abort => Abort end.

(** As many turns as [ActivateBestChain] can take. *)
Definition activation_fuel (n : node) : nat := S (size (dom (blocks n))) * (size (dom (blocks n)) + 3).

(** The state of the reconsidered block is always valid, and what becomes of the
    activation is ignored. *)
Definition GetPrevIndex (block : CBlock) (st : CValidationState) (n : node) : outcome unit ((ptr + CValidationState) * node) :=
  if bool_decide (GetBlockHash block = hashGenesisBlock consensus) then Ok (inl None, n) else
  let prevHash := hashPrevBlock (header block) in
  match mapBlockIndex n !! prevHash with
  | None => Ok (inr (st_DoS 0 0 "prevblk-not-found" false st), n)
  | Some p =>
      b ← deref (blocks n) (Some p);
      if Z.land (nStatus b) BLOCK_FAILED_MASK =? 0 then Ok (inl (Some p), n) else
      if Checkpoints_CheckBlock fCheckpointsEnabled checkpoints (nHeight b) prevHash true then
        n ← ReconsiderBlock p n;
        r ← ActivateBestChain (activation_fuel n) n;
        Ok (inl (Some p), r.2)
      else Ok (inr (st_DoS 100 REJECT_INVALID "bad-prevblk" false st), n)
  end.

Definition check_header (block : CBlock) (st : CValidationState) (pindexPrev : ptr) (n : node) : chk unit :=
  ContextualCheckBlockHeader chainparams (blocks n) (chainActive n) (mapBlockIndex n) GetBlockHash GetAdjustedTime maxreorg
    fCheckpointsEnabled checkpoints block st pindexPrev.

Definition AcceptBlockHeader (block : CBlock) (st : CValidationState) (pindexPrev : ptr) (n : node)
    : outcome unit ((positive + CValidationState) * node) :=
  match mapBlockIndex n !! GetBlockHash block with
  | Some p =>
      b ← deref (blocks n) (Some p);
      Ok (if Z.land (nStatus b) BLOCK_FAILED_MASK =? 0 then inl p else inr (st_Invalid 0 "duplicate" st), n)
  | None =>
      r ← (match pindexPrev with Some _ => Ok (inl pindexPrev, n) | None => GetPrevIndex block st n end);
      match r with
      | (inr st, n) => Ok (inr st, n)
      | (inl prev, n) =>
          r ← checked_by (check_header block st prev n);
          match r with
          | inr st => Ok (inr st, n)
          | inl _ => r ← AddToBlockIndex block n; Ok (inl r.1, r.2)
          end
      end
  end.

(** ** Coinstakes *)

(** The inputs of the coinstake that spend no zerocoin, and the others. *)
Definition dev_inputs (tx : CTransaction) : list CTxIn := filter (fun i => CTxIn_IsZerocoinSpend i = false) (vin tx).
Definition zdev_inputs (tx : CTransaction) : list CTxIn := filter (fun i => CTxIn_IsZerocoinSpend i = true) (vin tx).

Definition spends_one_of (inputs : list CTxIn) (i : CTxIn) : bool := existsb (fun x => bool_decide (prevout x = prevout i)) inputs.

(** One input of a transaction of the block; the result is the serials seen. *)
Definition in_block_input (nHeight : Z) (inputs : list CTxIn) (tx : CTransaction) (i : CTxIn) (st : CValidationState) (serials : list Z) : chk (list Z) :=
  serials ←
    (if NetworkUpgradeActive consensus nHeight UPGRADE_ZC then
       let isPublicSpend := CTxIn_IsZerocoinPublicSpend i in
       if CTxIn_IsZerocoinSpend i || isPublicSpend then
         if negb (Bool.eqb isPublicSpend (NetworkUpgradeActive consensus nHeight UPGRADE_ZC_PUBLIC)) then Err st else
         serial ← spend_serial isPublicSpend tx i st;
         if bool_decide (serial ∈ serials) then DoS st 100 0 "" else Ok (serials ++ [serial])
       else Ok serials
     else Ok serials);
  if IsCoinStake tx then Ok serials else
  if spends_one_of inputs i then Err st else Ok serials.

Fixpoint in_block_inputs (nHeight : Z) (inputs : list CTxIn) (tx : CTransaction) (l : list CTxIn) (st : CValidationState) (serials : list Z) : chk (list Z) :=
  match l with [] => Ok serials | i :: l => serials ← in_block_input nHeight inputs tx i st serials; in_block_inputs nHeight inputs tx l st serials end.
Fixpoint in_block (nHeight : Z) (inputs : list CTxIn) (txs : list CTransaction) (st : CValidationState) (serials : list Z) : chk unit :=
  match txs with
  | [] => Ok tt
  | tx :: txs => serials ← in_block_inputs nHeight inputs tx (vin tx) st serials; in_block nHeight inputs txs st serials
  end.

(** The inputs of a block of the fork, with the zerocoin serials collected. *)
Fixpoint fork_inputs (hasZDEVInputs : bool) (inputs : list CTxIn) (tx : CTransaction) (l : list CTxIn) (st : CValidationState) (serials : list Z) : chk (list Z) :=
  match l with
  | [] => Ok serials
  | i :: l =>
      serials ← (if hasZDEVInputs && CTxIn_IsZerocoinSpend i then s ← spend_serial false tx i st; Ok (serials ++ [s]) else Ok serials);
      if spends_one_of inputs i then DoS st 100 0 "" else fork_inputs hasZDEVInputs inputs tx l st serials
  end.
Fixpoint fork_block (hasZDEVInputs : bool) (inputs : list CTxIn) (txs : list CTransaction) (st : CValidationState) (serials : list Z) : chk (list Z) :=
  match txs with
  | [] => Ok serials
  | tx :: txs => serials ← fork_inputs hasZDEVInputs inputs tx (vin tx) st serials; fork_block hasZDEVInputs inputs txs st serials
  end.

(** Down the fork to the block where it splits off the active chain: that block,
    and the serials. *)
Fixpoint fork_walk (fuel : nat) (hasZDEVInputs : bool) (inputs : list CTxIn) (bl : CBlock) (prev : ptr) (readBlock : Z) (st : CValidationState)
    (serials : list Z) (n : node) : chk (CBlockIndex * list Z) :=
  on_chain ← TxInputs.on_coins (Contains (blocks n) (chainActive n) prev);
  b ← TxInputs.on_coins (deref (blocks n) prev);
  if on_chain : bool then Ok (b, serials) else
  let readBlock := readBlock + 1 in
  if readBlock =? maxreorg then Err st else
  serials ← fork_block hasZDEVInputs inputs (vtx bl) st serials;
  match pprev b, fuel with
  | Some q, S fuel =>
      match ReadBlockFromDisk q with
      | None => Err st
      | Some bl => fork_walk fuel hasZDEVInputs inputs bl (Some q) readBlock st serials n
      end
  | _, _ => Abort
  end.

Fixpoint fork_zdev (nHeight splitHeight : Z) (stakeTx : CTransaction) (l : list CTxIn) (serials : list Z) (st : CValidationState) : chk unit :=
  match l with
  | [] => Ok tt
  | i :: l =>
      s ← spend_serial false stakeTx i st;
      if bool_decide (s ∈ serials) then DoS st 100 0 "" else
      if match serial_height s with Some h => h <=? splitHeight | None => false end then DoS st 100 0 "" else
      if negb (ContextualCheckZerocoinSpendNoSerialCheck stakeTx i nHeight) then DoS st 100 REJECT_INVALID "bad-txns-invalid-zdev" else
      fork_zdev nHeight splitHeight stakeTx l serials st
  end.

(** The checks of the coinstake of a block at [nHeight] on [pindexPrev]. *)
Definition check_coinstake (block : CBlock) (pindexPrev : ptr) (nHeight : Z) (st : CValidationState) (n : node) : chk unit :=
  let isBlockFromFork := bool_decide (pindexPrev <> None) && negb (bool_decide (tip_of n = pindexPrev)) in
  stakeTx ← rd (vtx block) 1;
  let inputs := dev_inputs stakeTx in
  let zinputs := zdev_inputs stakeTx in
  in_block nHeight inputs (vtx block) st [];;
  (if isBlockFromFork then
     match pindexPrev with
     | None => Abort
     | Some prev =>
         match ReadBlockFromDisk prev with
         | None => Err st
         | Some bl =>
             b ← TxInputs.on_coins (deref (blocks n) pindexPrev);
             r ← fork_walk (S (Z.to_nat (Chain.nHeight b))) (negb (bool_decide (zinputs = []))) inputs bl pindexPrev 0 st [] n;
             fork_zdev nHeight (Chain.nHeight r.1) stakeTx zinputs r.2 st
         end
     end
   else Ok tt);;
  if isBlockFromFork then Ok tt else
  if negb (HasZerocoinSpendInputs stakeTx) then
    if existsb (fun i => coin_spent (pcoinsTip n) (prevout i)) (vin stakeTx) then Err st else Ok tt
  else if forallb (fun i => ContextualCheckZerocoinSpend stakeTx i nHeight) zinputs then Ok tt
  else DoS st 100 REJECT_INVALID "bad-txns-invalid-zdev".

(** ** Blocks *)

(** The node with its files, the blocks rejected for their payments, and whether
    the block at hand has been checked before. *)
Record manager := Manager {
  m_node : node;
  m_files : block_files;
  m_rejected : gmap (list Z) Z;
  m_fChecked : bool;
}.
Definition at_node (m : manager) (n : node) : manager := Manager n (m_files m) (m_rejected m) (m_fChecked m).

Definition check_block (block : CBlock) (st : CValidationState) (m : manager) : outcome unit ((CValidationState + CValidationState) * manager) :=
  let n := m_node m in
  let c := CheckBlock chainparams g_IsV6Active nMoneySupply IsSynced spork_superblocks spork_coldstaking_maintenance IsBudgetPaymentBlock
             (fun h => fst <$> GetTransaction h) (mapBlockIndex n) (blocks n) (chainActive n) IsInitialBlockDownload GetTime CheckZerocoinSpend
             GetBlockHash IsBlockPayeeValid CheckSignature block (m_fChecked m) (m_rejected m) st true true true in
  r ← checked_by (c_result c);
  Ok (r, Manager n (m_files m) (c_mapRejectedBlocks c) (c_fChecked c)).

(** Above height 100000 the block is checked; one that is surely invalid is
    marked. *)
Definition check_in_context (block : CBlock) (pindex : positive) (st : CValidationState) (m : manager)
    : outcome unit ((CValidationState + CValidationState) * manager) :=
  b ← deref (blocks (m_node m)) (Some pindex);
  if nHeight b <=? 100000 then Ok (inl st, m) else
  r ← check_block block st m;
  let '(r, m) := r in
  r ← (match r with
       | inr st => Ok (inr st)
       | inl st =>
           r ← checked_by (ContextualCheckBlock (blocks (m_node m)) GetAdjustedTime IsInitialBlockDownload ContextualCheckTx block st (pprev b));
           Ok (match r with inl _ => inl st | inr st => inr st end)
       end);
  match r with
  | inl st => Ok (inl st, m)
  | inr st =>
      if IsInvalid st && negb (corruptionPossible st)
      then Ok (inr st, at_node m (with_dirty (set_status (m_node m) pindex (fun s => Z.lor s BLOCK_FAILED_VALID)) pindex))
      else Ok (inr st, m)
  end.

(** The message start and the size of the block go in front of it; the position
    is then that of the block. *)
Definition MESSAGE_START_SIZE : Z := 4.
Definition WriteBlockToDisk (block : CBlock) (pos : Z * Z) : option (Z * Z) :=
  if WriteFile block pos then Some (pos.1, u32 (pos.2 + (MESSAGE_START_SIZE + 4))) else None.

(** The block goes to disk and into the tree. *)
Definition store_block (block : CBlock) (dbp : option (Z * Z)) (pindex : positive) (st : CValidationState) (m : manager)
    : outcome unit ((positive + CValidationState) * manager) :=
  b ← deref (blocks (m_node m)) (Some pindex);
  r ← FindBlockPos CheckDiskSpace st dbp (u32 (u32 (zlen (SerializeBlock block)) + 8)) (nHeight b) (hd_GetBlockTime (header block)) (m_files m);
  let '(r, fs) := r in
  let m := Manager (m_node m) fs (m_rejected m) (m_fChecked m) in
  match r with
  | inr st => Ok (inr st, m)
  | inl pos =>
      match (if bool_decide (dbp = None) then WriteBlockToDisk block pos else Some pos) with
      | None => Ok (inr (st_Error "Failed to write block" st), m)
      | Some blockPos =>
          n ← ReceivedBlockTransactions block pindex blockPos.1 blockPos.2 (m_node m);
          Ok (inl pindex, at_node m n)
      end
  end.

Definition AcceptBlock (block : CBlock) (dbp : option (Z * Z)) (st : CValidationState) (m : manager)
    : outcome unit ((positive + CValidationState) * manager) :=
  r ← GetPrevIndex block st (m_node m);
  let '(r, n) := r in
  let m := at_node m n in
  match r with
  | inr st => Ok (inr st, m)
  | inl pindexPrev =>
      work ← (if bool_decide (GetBlockHash block = hashGenesisBlock consensus) then Ok (inl true)
              else checked_by (CheckWork chainparams (blocks n) block pindexPrev));
      if negb (match work with inl ok => ok | inr _ => false end) then Ok (inr st, m) else
      let isPoS := Block.IsProofOfStake block in
      stakes ← (if isPoS : bool then
                  match pindexPrev with
                  | None => Abort
                  | Some prev => Ok (Kernel.CheckProofOfStake consensus (mapBlockIndex n) (blocks n) (chainActive n) GetTransaction zdev_stake
                                   generichash stray CheckLowS g_IsV6Active Verify block prev)
                  end
                else Ok (Ok tt));
      match stakes with
      | Throw => Throw
      | Abort => Abort
      | Err _ => Ok (inr (st_DoS 100 0 "" false st), m)
      | Ok _ =>
          r ← AcceptBlockHeader block st pindexPrev n;
          let '(r, n) := r in
          let m := at_node m n in
          match r with
          | inr st => Ok (inr st, m)
          | inl pindex =>
              b ← deref (blocks n) (Some pindex);
              if negb (Z.land (nStatus b) BLOCK_HAVE_DATA =? 0) then Ok (inl pindex, m) else
              r ← check_in_context block pindex st m;
              let '(r, m) := r in
              match r with
              | inr st => Ok (inr st, m)
              | inl st =>
                  r ← (if isPoS then checked_by (check_coinstake block pindexPrev (nHeight b) st (m_node m)) else Ok (inl tt));
                  match r with
                  | inr st => Ok (inr st, m)
                  | inl _ => store_block block dbp pindex st m
                  end
              end
          end
      end
  end.

(** Whether the block was accepted and the best chain activated; what the
    masternodes and the budget are told is left out. *)
Definition ProcessNewBlock (block : CBlock) (dbp : option (Z * Z)) (st : CValidationState) (m : manager)
    : outcome unit ((bool + CValidationState) * manager) :=
  r ← check_block block st m;
  let '(r, m) := r in
  match r with
  | inr st => Ok (inr st, m)
  | inl st =>
      r ← AcceptBlock block dbp st m;
      let '(r, m) := r in
      match r with
      | inr st => Ok (inr st, m)
      | inl _ =>
          r ← ActivateBestChain (activation_fuel (m_node m)) (m_node m);
          Ok (inl r.1, at_node m r.2)
      end
  end.
End Acceptance.
