(* ===== verification/BlockFiles.v ===== *)
(** * Where blocks go on disk

    [FindBlockPos] returns for every block of a size that fits a file, and the
    blocks it places one after the other do not overlap. *)
From S2P Require Import Prelude Serialize Hash ArithUint256 Params Chain TxVerify Acceptance.

Definition size_of (fs : block_files) (nFile : Z) : Z :=
  match vinfoBlockFile fs !! Z.to_nat nFile with Some f => file_nSize f | None => 0 end.

(** Sizes that leave room in 32 bits. *)
Definition files_ok (fs : block_files) : Prop :=
  0 <= nLastBlockFile fs /\ Forall (fun f => 0 <= file_nSize f <= 2 ^ 31) (vinfoBlockFile fs).

Lemma files_upto_lookup l nFile i f : files_upto l nFile !! i = Some f -> l !! i = Some f \/ l !! i = None /\ f = BlockFile BlockFileInfo_null 0.
Proof.
  unfold files_upto. destruct (decide (i < length l)%nat) as [Hi|Hi]; [rewrite lookup_app_l by done; by left|].
  rewrite lookup_app_r by lia. intros [-> _]%lookup_replicate. right. split; [apply lookup_ge_None; lia|done].
Qed.
Lemma files_upto_covers l nFile : 0 <= nFile -> nFile < zlen (files_upto l nFile).
Proof. intros H. unfold files_upto. rewrite length_app, length_replicate. lia. Qed.
Lemma files_upto_prefix l nFile : l `prefix_of` files_upto l nFile.
Proof. eexists. done. Qed.

(** What grows a table of files: old files stay, new ones are empty. *)
Definition padded (l l' : list block_file) : Prop :=
  forall i f, l' !! i = Some f -> l !! i = Some f \/ l !! i = None /\ f = BlockFile BlockFileInfo_null 0.
Lemma padded_trans a b c : padded a b -> padded b c -> a `prefix_of` b -> padded a c.
Proof. intros H1 H2 Hp i f Hi. destruct (H2 i f Hi) as [Hb|[Hb ->]]; [by apply H1|]. right. split; [|done]. destruct (a !! i) as [x|] eqn:E; [|done]. by rewrite (prefix_lookup_Some _ _ _ _ E Hp) in Hb. Qed.
Lemma padded_sizes l l' : padded l l' -> Forall (fun f => 0 <= file_nSize f <= 2 ^ 31) l -> Forall (fun f => 0 <= file_nSize f <= 2 ^ 31) l'.
Proof.
  intros Hp Hl. apply Forall_lookup. intros i f Hi. destruct (Hp i f Hi) as [H|[_ ->]]; [|done]. rewrite Forall_lookup in Hl. by apply (Hl i).
Qed.

(** A search looks at every file from [nFile] on, and an empty one has room. *)
Lemma find_file_spec nAddSize fuel : forall l nFile, 0 <= nAddSize < MAX_BLOCKFILE_SIZE -> 0 <= nFile < zlen l ->
  Forall (fun f => 0 <= file_nSize f <= 2 ^ 31) l -> zlen l - nFile <= Z.of_nat fuel ->
  exists l' k f, find_file fuel l nFile nAddSize = Ok (l', k) /\ nFile <= k /\ l `prefix_of` l' /\ padded l l' /\
    l' !! Z.to_nat k = Some f /\ file_nSize f + nAddSize < MAX_BLOCKFILE_SIZE.
Proof.
  assert (Heq : forall fuel l nFile, find_file fuel l nFile nAddSize =
    (f ← rd l nFile; if u32 (file_nSize f + nAddSize) <? MAX_BLOCKFILE_SIZE then Ok (l, nFile) else
     match fuel with O => Abort | S fuel => find_file fuel (files_upto l (nFile + 1)) (nFile + 1) nAddSize end)) by by intros [].
  assert (Hu : forall f, 0 <= file_nSize f <= 2 ^ 31 -> 0 <= nAddSize < MAX_BLOCKFILE_SIZE -> u32 (file_nSize f + nAddSize) = file_nSize f + nAddSize).
  { intros f Hf Ha. apply wrapu_small. unfold in_u, MAX_BLOCKFILE_SIZE in *. lia. }
  assert (Hpad : forall l, padded l l) by (intros l i f ?; by left).
  induction fuel as [|fuel IH]; intros l nFile Ha Hn Hl Hf; [lia|]. rewrite Heq.
  destruct (lookup_lt_is_Some_2 l (Z.to_nat nFile)) as [f Hf0]; [lia|]. rewrite (rd_lookup l nFile f) by (done || lia). cbn [mbind outcome_bind].
  pose proof (proj1 (Forall_lookup _ _) Hl _ _ Hf0) as Hsz. cbn in Hsz. rewrite Hu by done.
  destruct (Z.ltb_spec (file_nSize f + nAddSize) MAX_BLOCKFILE_SIZE) as [Hlt|Hge]; [by exists l, nFile, f|].
  set (l1 := files_upto l (nFile + 1)). pose proof (files_upto_covers l (nFile + 1) ltac:(lia)) as Hc. fold l1 in Hc.
  assert (Hp1 : padded l l1) by (intros i x; apply files_upto_lookup).
  destruct (decide (nFile + 1 < zlen l)) as [Hin|Hout].
  - assert (l1 = l) as E1. { unfold l1, files_upto. replace (Z.to_nat (nFile + 1 + 1) - length l)%nat with O by lia. apply app_nil_r. }
    rewrite E1. destruct (IH l (nFile + 1)) as (l' & k & x & -> & Hk & Hpre & Hpd & Hx & Hr); [done|lia|done|lia|].
    exists l', k, x. split_and!; [done|lia|done..].
  - (** The next file is new, and the search ends there. *)
    destruct (lookup_lt_is_Some_2 l1 (Z.to_nat (nFile + 1))) as [x Hx]; [lia|].
    destruct (Hp1 _ _ Hx) as [Hold|[_ ->]]; [apply lookup_lt_Some in Hold; lia|].
    rewrite Heq, (rd_lookup l1 (nFile + 1) _) by (done || lia). cbn [mbind outcome_bind]. rewrite Hu by done. cbn [file_nSize].
    rewrite (proj2 (Z.ltb_lt _ _)) by lia. exists l1, (nFile + 1), (BlockFile BlockFileInfo_null 0). split_and!; [done|lia|apply files_upto_prefix|done|done|cbn; lia].
Qed.

(** A block of [nAddSize] goes behind what its file holds, the other files stay. *)
Lemma FindBlockPos_spec CheckDiskSpace st nAddSize nHeight nTime fs : 0 <= nAddSize < MAX_BLOCKFILE_SIZE -> files_ok fs ->
  exists r fs' k, FindBlockPos CheckDiskSpace st None nAddSize nHeight nTime fs = Ok (r, fs') /\ files_ok fs' /\ 0 <= k /\
    size_of fs k + nAddSize < MAX_BLOCKFILE_SIZE /\ size_of fs' k = size_of fs k + nAddSize /\ (forall i, 0 <= i -> i <> k -> size_of fs' i = size_of fs i) /\
    match r with
    | inl pos => pos = (k, size_of fs k) /\ k ∈ setDirtyFileInfo fs'
    | inr st' => st' = st_Error "out of disk space" st /\ exists x, CheckDiskSpace x = false
    end.
Proof.
  intros Ha [Hlast Hsz]. unfold FindBlockPos. set (l := files_upto (vinfoBlockFile fs) (nLastBlockFile fs)).
  assert (Hpad : padded (vinfoBlockFile fs) l) by (intros i x; apply files_upto_lookup).
  pose proof (files_upto_covers (vinfoBlockFile fs) (nLastBlockFile fs) Hlast) as Hc. fold l in Hc.
  destruct (find_file_spec nAddSize (S (length l)) l (nLastBlockFile fs)) as (l' & k & f & -> & Hk & Hpre & Hpd & Hf & Hr);
    [done|done|by eapply padded_sizes|lia|]. cbn [mbind outcome_bind].
  rewrite (rd_lookup l' k f) by (done || lia). cbn [mbind outcome_bind default].
  assert (Hpad' : padded (vinfoBlockFile fs) l') by (eapply padded_trans; [exact Hpad|exact Hpd|apply files_upto_prefix]).
  assert (Hsz' : Forall (fun f => 0 <= file_nSize f <= 2 ^ 31) l') by by eapply padded_sizes.
  pose proof (proj1 (Forall_lookup _ _) Hsz' _ _ Hf) as Hfs. cbn in Hfs.
  assert (Eu : u32 (file_nSize f + nAddSize) = file_nSize f + nAddSize) by (apply wrapu_small; unfold in_u, MAX_BLOCKFILE_SIZE in *; lia). rewrite Eu.
  assert (Hold : forall i x, l' !! i = Some x -> file_nSize x = match vinfoBlockFile fs !! i with Some y => file_nSize y | None => 0 end).
  { intros i x Hi. destruct (Hpad' i x Hi) as [->|[-> ->]]; done. }
  assert (Ek : size_of fs k = file_nSize f) by (unfold size_of; by rewrite (Hold _ _ Hf)).
  set (fs1 := <[Z.to_nat k := BlockFile (AddBlock (file_info f) nHeight nTime) (file_nSize f + nAddSize)]> l').
  assert (Hk1 : fs1 !! Z.to_nat k = Some (BlockFile (AddBlock (file_info f) nHeight nTime) (file_nSize f + nAddSize))) by (apply list_lookup_insert_eq; by eapply lookup_lt_Some).
  assert (Hok : forall d, files_ok (BlockFiles fs1 k d)).
  { intros d. split; [cbn; lia|]. apply Forall_insert; [done|]. cbn. unfold MAX_BLOCKFILE_SIZE in Hr. lia. }
  assert (Hnew : forall d, size_of (BlockFiles fs1 k d) k = size_of fs k + nAddSize) by (intros d; unfold size_of at 1; cbn [vinfoBlockFile]; by rewrite Hk1, Ek).
  assert (Hrest : forall d i, 0 <= i -> i <> k -> size_of (BlockFiles fs1 k d) i = size_of fs i).
  { intros d i Hi Hne. unfold size_of. cbn [vinfoBlockFile]. unfold fs1. rewrite list_lookup_insert_ne by lia.
    destruct (l' !! Z.to_nat i) as [x|] eqn:Ex; [by rewrite (Hold _ _ Ex)|]. destruct (vinfoBlockFile fs !! Z.to_nat i) as [y|] eqn:Ey; [|done].
    assert (vinfoBlockFile fs `prefix_of` l') as Hp by (etransitivity; [apply files_upto_prefix|exact Hpre]). by rewrite (prefix_lookup_Some _ _ _ _ Ey Hp) in Ex. }
  rewrite <- Ek in Hr. destruct (bool_decide _ && _ && _) eqn:Ed.
  - eexists _, _, k. split; [done|]. split_and!; [apply Hok|lia|done|apply Hnew|apply Hrest|done|].
    apply andb_true_iff in Ed as [_ Ed%negb_true_iff]. by eexists.
  - eexists _, _, k. split; [done|]. split_and!; [apply Hok|lia|done|apply Hnew|apply Hrest|by rewrite Ek|cbn; set_solver].
Qed.

(** ** One block after the other *)

(** A place on disk: the file, the position and the size. *)
Definition place : Type := Z * Z * Z.
Definition apart (x y : place) : Prop := x.1.1 <> y.1.1 \/ x.1.2 + x.2 <= y.1.2 \/ y.1.2 + y.2 <= x.1.2.

(** The blocks of the sizes [l], which need not all find room on the disk. *)
Fixpoint write_all (CheckDiskSpace : Z -> bool) (st : CValidationState) (l : list (Z * Z * Z)) (fs : block_files) : outcome unit (list place * block_files) :=
  match l with
  | [] => Ok ([], fs)
  | (nAddSize, nHeight, nTime) :: l =>
      r ← FindBlockPos CheckDiskSpace st None nAddSize nHeight nTime fs;
      let '(r, fs) := r in
      rest ← write_all CheckDiskSpace st l fs;
      Ok ((match r with inl pos => [(pos, nAddSize)] | inr _ => [] end) ++ rest.1, rest.2)
  end.

Lemma write_all_spec CheckDiskSpace st l : forall fs, files_ok fs -> Forall (fun x => 0 <= x.1.1 < MAX_BLOCKFILE_SIZE) l ->
  exists ps fs', write_all CheckDiskSpace st l fs = Ok (ps, fs') /\ files_ok fs' /\ (forall i, 0 <= i -> size_of fs i <= size_of fs' i) /\
    Forall (fun p : place => 0 <= p.1.1 /\ size_of fs p.1.1 <= p.1.2 /\ 0 <= p.2 /\ p.1.2 + p.2 <= size_of fs' p.1.1 /\ p.1.2 + p.2 < MAX_BLOCKFILE_SIZE) ps /\
    ForallOrdPairs apart ps.
Proof.
  induction l as [|[[nAddSize nHeight] nTime] l IH]; intros fs Hok Hl; cbn [write_all]; [exists [], fs; split_and!; (done || constructor)|].
  apply Forall_cons in Hl as [Ha Hl]. cbn in Ha.
  destruct (FindBlockPos_spec CheckDiskSpace st nAddSize nHeight nTime fs Ha Hok) as (r & fs1 & k & -> & Hok1 & Hk & Hr & Ek & Hrest & Hres). cbn [mbind outcome_bind].
  destruct (IH fs1 Hok1 Hl) as (ps & fs' & -> & Hok' & Hmono & Hps & Hap). cbn [mbind outcome_bind fst snd]. clear IH.
  assert (Hm1 : forall i, 0 <= i -> size_of fs i <= size_of fs1 i).
  { intros i Hi. destruct (decide (i = k)) as [->|Hne]; [lia|]. by rewrite Hrest. }
  eexists _, fs'. split; [done|]. split_and!; [done|intros i Hi; etransitivity; [by apply Hm1|by apply Hmono]| |].
  - apply Forall_app. split.
    + destruct r as [pos|]; [|done]. destruct Hres as [-> _]. apply Forall_singleton. cbn. specialize (Hmono k Hk). lia.
    + eapply Forall_impl; [exact Hps|]. intros p (H1 & H2 & H3 & H4 & H5). split_and!; [done|specialize (Hm1 _ H1); lia|done..].
  - destruct r as [pos|]; [|done]. destruct Hres as [-> _]. cbn [app]. constructor; [|done]. eapply Forall_impl; [exact Hps|]. intros p (H1 & H2 & _).
    unfold apart. cbn. destruct (decide (k = p.1.1)) as [E|]; [right; left; rewrite E in *; lia|by left].
Qed.

(** C22: blocks do not overwrite each other.  Whatever sizes below that of a file
    the blocks have that arrive one after the other, [FindBlockPos] finds a place
    for each, if the disk has room: its search of the files ends.  The places are
    apart from each other and behind everything the files held before, and every
    one ends within the 128 MiB of a file. *)
Theorem blocks_do_not_overlap (CheckDiskSpace : Z -> bool) (st : CValidationState) (l : list (Z * Z * Z)) (fs : block_files) :
  files_ok fs -> Forall (fun x => 0 <= x.1.1 < MAX_BLOCKFILE_SIZE) l ->
  exists ps fs', write_all CheckDiskSpace st l fs = Ok (ps, fs') /\ files_ok fs' /\
    ForallOrdPairs apart ps /\
    Forall (fun p : place => 0 <= p.1.1 /\ size_of fs p.1.1 <= p.1.2 /\ p.1.2 + p.2 <= size_of fs' p.1.1 /\ p.1.2 + p.2 < MAX_BLOCKFILE_SIZE) ps /\
    ((forall x, CheckDiskSpace x = true) -> ps.*2 = l.*1.*1).
Proof.
  intros Hok Hl. destruct (write_all_spec CheckDiskSpace st l fs Hok Hl) as (ps & fs' & E & Hok' & _ & Hps & Hap).
  exists ps, fs'. split_and!; [done|done|done|eapply Forall_impl; [exact Hps|]; by intros p (? & ? & ? & ? & ?)|]. intros Hd. clear Hps Hap Hok'.
  revert fs ps fs' Hok E. induction l as [|[[nAddSize nHeight] nTime] l IH]; intros fs ps fs' Hok; cbn [write_all]; [by intros [= <- _]|].
  apply Forall_cons in Hl as [Ha Hl]. destruct (FindBlockPos_spec CheckDiskSpace st nAddSize nHeight nTime fs Ha Hok) as (r & fs1 & k & -> & Hok1 & _ & _ & _ & _ & Hres).
  cbn [mbind outcome_bind]. destruct (write_all CheckDiskSpace st l fs1) as [[ps1 fs2]| | |] eqn:E; [|done..]. cbn [mbind outcome_bind]. intros [= <- <-].
  destruct r as [pos|]; [|destruct Hres as [_ [x Hx]]; by rewrite Hd in Hx]. cbn. f_equal. by apply (IH Hl fs1 _ fs2).
Qed.

Lemma blocks_do_not_overlap_witness :
  (exists ps fs', write_all (fun _ => true) CValidationState_new [(1000, 5, 100); (0x7ffff00, 6, 110); (2000, 7, 120)] (BlockFiles [BlockFile BlockFileInfo_null 300] 0 ∅) = Ok (ps, fs') /\ files_ok fs' /\
    ForallOrdPairs apart ps /\
    Forall (fun p : place => 0 <= p.1.1 /\ size_of (BlockFiles [BlockFile BlockFileInfo_null 300] 0 ∅) p.1.1 <= p.1.2 /\ p.1.2 + p.2 <= size_of fs' p.1.1 /\ p.1.2 + p.2 < MAX_BLOCKFILE_SIZE) ps /\
    ((forall x : Z, true = true) -> ps.*2 = [1000; 0x7ffff00; 2000])) /\
  fst <$> (match write_all (fun _ => true) CValidationState_new [(1000, 5, 100); (0x7ffff00, 6, 110); (2000, 7, 120)] (BlockFiles [BlockFile BlockFileInfo_null 300] 0 ∅) with Ok r => Some r | _ => None end) =
    Some [((0, 300), 1000); ((1, 0), 0x7ffff00); ((2, 0), 2000)].
Proof.
  split; [|vm_compute; reflexivity].
  apply (blocks_do_not_overlap (fun _ => true) CValidationState_new [(1000, 5, 100); (0x7ffff00, 6, 110); (2000, 7, 120)] (BlockFiles [BlockFile BlockFileInfo_null 300] 0 ∅)).
  - split; [done|]. by constructor.
  - repeat constructor; done.
Defined.
