(* ===== verification/Linking.v ===== *)
(** * Blocks whose data has arrived

    The invariant that ties [nChainTx], the data of blocks and the blocks that
    wait for their parents, and that [ReceivedBlockTransactions] keeps it while
    it links a block and everything that waited for it. *)
From S2P Require Import Prelude Serialize Hash ArithUint256 Params Chain Pow Script Transaction Block TxVerify BestChain Activation Invalidation.

(** ** Sums over the tree *)

Section Sums.
Context (f : CBlockIndex -> Z).

(** [f] of the [k] entries from [p] down, of all of them, of the tree. *)
Fixpoint path_sum (st : store) (k : nat) (p : ptr) : Z :=
  match k, p with
  | S k, Some id => match st !! id with Some b => f b + path_sum st k (pprev b) | None => 0 end
  | _, _ => 0
  end.
Definition sum_upto (st : store) (p : positive) : Z :=
  match st !! p with Some b => path_sum st (S (Z.to_nat (nHeight b))) (Some p) | None => 0 end.
Definition sum_total (st : store) : Z := map_fold (fun _ b acc => f b + acc) 0 st.

Lemma sum_total_insert st p b : st !! p = None -> sum_total (<[p := b]> st) = f b + sum_total st.
Proof. intros H. unfold sum_total. apply (map_fold_insert_L (fun _ b acc => f b + acc)); [intros; lia|done]. Qed.
Lemma sum_total_update st p b b' : st !! p = Some b -> sum_total (<[p := b']> st) = sum_total st - f b + f b'.
Proof.
  intros H. rewrite <- (insert_delete_id st p b H) at 2. rewrite <- (insert_delete_eq st p b'), !sum_total_insert by apply lookup_delete_eq. lia.
Qed.
Lemma sum_total_nonneg st : (forall p b, st !! p = Some b -> 0 <= f b) -> 0 <= sum_total st.
Proof.
  induction st as [|p b st Hp IH] using map_ind; intros H; [done|]. rewrite sum_total_insert by done.
  pose proof (H p b (lookup_insert_eq _ _ _)). assert (0 <= sum_total st); [|lia]. apply IH. intros q c Hq. apply (H q). rewrite lookup_insert_ne by congruence. done.
Qed.
Lemma sum_total_subseteq st st' : st ⊆ st' -> (forall p b, st' !! p = Some b -> 0 <= f b) -> sum_total st <= sum_total st'.
Proof.
  intros Hs. rewrite <- (map_difference_union st st' Hs). generalize (map_disjoint_difference_r1 st' st st (reflexivity st) : st ##ₘ st' ∖ st). generalize (st' ∖ st). clear Hs.
  intros d. induction d as [|p b d Hp IH] using map_ind; intros Hd H; [by rewrite map_union_empty|].
  apply map_disjoint_insert_r in Hd as [Hst Hd]. rewrite <- insert_union_r by done. rewrite sum_total_insert by (rewrite lookup_union, Hst, Hp; done).
  assert (0 <= f b). { apply (H p). rewrite <- insert_union_r by done. apply lookup_insert_eq. }
  assert (sum_total st <= sum_total (st ∪ d)); [|lia]. apply IH; [done|]. intros q c Hq. apply (H q). rewrite <- insert_union_r by done.
  rewrite lookup_insert_ne; [done|]. intros ->. rewrite lookup_union, Hst, Hp in Hq. done.
Qed.
Lemma sum_total_ext st st' : (forall p, f <$> st !! p = f <$> st' !! p) -> sum_total st = sum_total st'.
Proof.
  revert st'. induction st as [|p b st Hp IH] using map_ind; intros st' H.
  - assert (st' = ∅) as ->; [|done]. apply map_empty. intros q. specialize (H q). rewrite lookup_empty in H. by destruct (st' !! q).
  - pose proof (H p) as Hb. rewrite lookup_insert_eq in Hb. destruct (st' !! p) as [b'|] eqn:Hb'; [|done]. cbn in Hb. apply (inj Some) in Hb.
    rewrite <- (insert_delete_id st' p b' Hb'), !sum_total_insert by (done || apply lookup_delete_eq). rewrite Hb. f_equal. apply IH.
    intros q. destruct (decide (p = q)) as [<-|Hne]; [by rewrite Hp, lookup_delete_eq|]. specialize (H q). by rewrite lookup_insert_ne, lookup_delete_ne in * by done.
Qed.

Section Path.
Context (st : store) (Ht : tree_base st).

Lemma sum_upto_prev p b : st !! p = Some b -> sum_upto st p = f b + match pprev b with Some q => sum_upto st q | None => 0 end.
Proof.
  intros Hb. unfold sum_upto at 1. rewrite Hb. cbn [path_sum]. rewrite Hb. f_equal. pose proof (tree_prev _ Ht p b Hb) as Hp. pose proof (tree_height _ Ht p b Hb).
  destruct (pprev b) as [q|]; [|by destruct (Z.to_nat _)]. destruct Hp as (bq & Hq & E). unfold sum_upto. rewrite Hq. pose proof (tree_height _ Ht q bq Hq).
  by replace (Z.to_nat (nHeight b)) with (S (Z.to_nat (nHeight bq))) by lia.
Qed.

Context (Hn : forall p b, st !! p = Some b -> 0 <= f b).

(** The entries up to a height. *)
Notation upto h := (filter (fun x : positive * CBlockIndex => nHeight x.2 <= h) st).

Lemma path_sum_upto k : forall p b, st !! p = Some b -> path_sum st k (Some p) <= sum_total (upto (nHeight b)).
Proof.
  assert (Hnn : forall h p b, upto h !! p = Some b -> 0 <= f b) by (intros h p b [Hb _]%map_lookup_filter_Some; by apply (Hn p)).
  induction k as [|k IH]; intros p b Hb; [by apply sum_total_nonneg, Hnn|]. cbn [path_sum]. rewrite Hb.
  set (d := match pprev b with Some q => upto (nHeight b - 1) | None => ∅ end : store).
  assert (path_sum st k (pprev b) <= sum_total d).
  { pose proof (tree_prev _ Ht p b Hb) as Hp. unfold d. destruct (pprev b) as [q|]; [|by destruct k]. destruct Hp as (bq & Hq & ->).
    replace (nHeight bq + 1 - 1) with (nHeight bq) by lia. by apply IH. }
  assert (Hd : d !! p = None). { unfold d. destruct (pprev b); [|done]. apply map_lookup_filter_None. right. intros x Hx. assert (x = b) as -> by congruence. cbn. lia. }
  etransitivity; [|apply (sum_total_subseteq (<[p := b]> d)); [|apply Hnn]]; [rewrite sum_total_insert by done; lia|].
  apply insert_subseteq_l; [by apply map_lookup_filter_Some|]. unfold d. destruct (pprev b); [|apply map_empty_subseteq].
  apply map_subseteq_spec. intros q c [Hq Hh]%map_lookup_filter_Some. apply map_lookup_filter_Some. cbn in *. split; [done|lia].
Qed.
Lemma sum_upto_total p : sum_upto st p <= sum_total st.
Proof.
  unfold sum_upto. destruct (st !! p) as [b|] eqn:Hb; [|by apply sum_total_nonneg]. etransitivity; [by apply path_sum_upto|].
  apply sum_total_subseteq; [|done]. apply map_filter_subseteq.
Qed.
Lemma sum_upto_nonneg p : 0 <= sum_upto st p.
Proof.
  unfold sum_upto. destruct (st !! p) as [b|] eqn:Hb; [|done]. generalize (S (Z.to_nat (nHeight b))) as k. intros k. revert p b Hb.
  induction k as [|k IH]; intros p b Hb; [done|]. cbn [path_sum]. rewrite Hb. pose proof (Hn p b Hb). pose proof (tree_prev _ Ht p b Hb) as Hp.
  destruct (pprev b) as [q|]; [|destruct k; cbn [path_sum]; lia]. destruct Hp as (bq & Hq & _). pose proof (IH q bq Hq). lia.
Qed.
End Path.

(** What the path of an entry depends on. *)
Lemma path_sum_ext st st' k : forall p,
  (forall q, is_ancestor st q p -> (fun b => (f b, pprev b)) <$> st !! q = (fun b => (f b, pprev b)) <$> st' !! q) ->
  path_sum st k (Some p) = path_sum st' k (Some p).
Proof.
  induction k as [|k IH]; intros p H; cbn [path_sum]; [done|]. pose proof (H p (ex_intro _ O eq_refl)) as Hp.
  destruct (st !! p) as [b|] eqn:Hb, (st' !! p) as [b'|]; cbn in Hp; try done. apply (inj Some) in Hp. injection Hp as E1 E2. rewrite E1, <- E2. f_equal.
  destruct (pprev b) as [q|] eqn:Eq; [|by destruct k]. apply IH. intros r [j Hj]. apply H. exists (S j). cbn [iter_prev]. by rewrite Hb, Eq.
Qed.
Lemma sum_upto_ext st st' p :
  (forall q, is_ancestor st q p -> (fun b => (f b, pprev b, nHeight b)) <$> st !! q = (fun b => (f b, pprev b, nHeight b)) <$> st' !! q) ->
  sum_upto st p = sum_upto st' p.
Proof.
  intros H. unfold sum_upto. pose proof (H p (ex_intro _ O eq_refl)) as Hp. destruct (st !! p) as [b|], (st' !! p) as [b'|]; cbn in Hp; try done.
  apply (inj Some) in Hp. injection Hp as E1 E2 E3. rewrite E3. apply path_sum_ext. intros q Hq. specialize (H q Hq).
  destruct (st !! q), (st' !! q); cbn in H |- *; try done. congruence.
Qed.
End Sums.

(** ** A tree that grows *)

(** The entries keep their places; there may be new ones. *)
Definition links (st st' : store) : Prop :=
  forall p b, st !! p = Some b -> exists b', st' !! p = Some b' /\ pprev b' = pprev b /\ nHeight b' = nHeight b.

#[export] Instance links_preorder : PreOrder links.
Proof.
  split; [by intros st p b Hb; exists b|]. intros a b c H1 H2 p x Hx. destruct (H1 p x Hx) as (y & Hy & E1 & E2). destruct (H2 p y Hy) as (z & Hz & E3 & E4).
  exists z. split_and!; [done|congruence|congruence].
Qed.
Lemma same_tree_links st st' : same_tree st st' -> links st st'.
Proof. intros T p b Hb. destruct (same_tree_lookup _ _ p b T Hb) as (b' & Hb' & (E1 & _ & E2 & _)%core_fields). by exists b'. Qed.

Lemma iter_prev_links st st' i : tree_base st -> links st st' -> forall p b, st !! p = Some b -> Z.of_nat i <= nHeight b ->
  iter_prev st' i (Some p) = iter_prev st i (Some p).
Proof.
  intros Ht L. induction i as [|i IH]; intros p b Hb Hi; cbn [iter_prev]; [done|]. destruct (L p b Hb) as (b' & -> & -> & _). rewrite Hb.
  pose proof (tree_prev _ Ht p b Hb) as Hp. destruct (pprev b) as [q|]; [|lia]. destruct Hp as (bq & Hq & E). apply (IH q bq Hq). lia.
Qed.
Lemma branch_links st st' p b : tree_base st -> links st st' -> st !! p = Some b -> branch st' p (Z.to_nat (nHeight b)) = branch st p (Z.to_nat (nHeight b)).
Proof.
  intros Ht L Hb. pose proof (tree_height _ Ht p b Hb). unfold branch. apply list_fmap_ext. intros i k [Hk Hlt]%lookup_seq. cbn in Hk. subst k. apply (iter_prev_links _ _ _ Ht L p b Hb). lia.
Qed.

Section Linking.
Context {C : Type} `{!ChainState C} `{!Equiv C} (start : C) (genesis : positive) (block_hash : positive -> uint256).
Context `{!ChainStateLaws C block_hash}.
Notation node := (node C).
Notation node_inv := (node_inv genesis block_hash).
Notation at_tip := (at_tip start).

Lemma coins_at_links st st' p c : links st st' -> coins_at start st p c -> coins_at start st' p c.
Proof.
  intros L. induction 1 as [p b c' c Hb Hp Hc He|p b q cq c' c Hb Hp Hq IH Hc He]; destruct (L p b Hb) as (b' & Hb' & E & _).
  - eapply coins_genesis; [done|congruence|done..].
  - eapply coins_next; [done|rewrite E; exact Hp|done..].
Qed.
Lemma at_tip_links n n' tip : tree_base (blocks n) -> links (blocks n) (blocks n') -> chainActive n' = chainActive n -> pcoinsTip n' = pcoinsTip n ->
  at_tip n tip -> at_tip n' tip.
Proof.
  intros Ht L Ec Ep (b & Hb & E & Hc). destruct (L tip b Hb) as (b' & Hb' & _ & Eh). exists b'. split; [done|]. rewrite Ec, Ep, E, Eh.
  split; [symmetry; by apply branch_links|by eapply coins_at_links].
Qed.

(** ** The invariant *)

(** [p] has data and transactions. *)
Definition data_in (b : CBlockIndex) : Prop := 0 < nTx b /\ Z.land (nStatus b) BLOCK_HAVE_DATA <> 0.
Definition has_data (n : node) (p : positive) : Prop := exists b, blocks n !! p = Some b /\ data_in b.
Definition shielded (b : CBlockIndex) : Z := Z.abs (nSaplingValue b).

(** What an entry linked with its ancestors records of them. *)
Definition counted (st : store) (p : positive) (b : CBlockIndex) : Prop :=
  nChainTx b = sum_upto nTx st p /\ data_in b /\ forall v, nChainSaplingValue b = Some v -> Z.abs v <= sum_upto shielded st p.

(** A block with [nChainTx] is one whose ancestors have arrived with it, and
    counts their transactions; the blocks that wait have their parent as key;
    the index is by the hash. *)
Record link_inv (n : node) : Prop := {
  li_ntx : forall p b, blocks n !! p = Some b -> 0 <= nTx b;
  li_chain : forall p b, blocks n !! p = Some b -> nChainTx b <> 0 -> counted (blocks n) p b;
  li_unlinked : forall e, e ∈ mapBlocksUnlinked n -> has_data n e.2 /\ exists b q, blocks n !! e.2 = Some b /\ pprev b = Some q /\ e.1 = Some q;
  li_index : forall h p, mapBlockIndex n !! h = Some p <-> exists b, blocks n !! p = Some b /\ blockHash b = h;
}.

(** The counts of the tree fit their types. *)
Definition room (st : store) (txs shield : Z) : Prop := sum_total nTx st + txs < 2 ^ 32 /\ sum_total shielded st + Z.abs shield < 2 ^ 63.

(** The fields that the linking of blocks leaves alone. *)
Definition base (b : CBlockIndex) := (shape b, nTx b, nSaplingValue b, Z.land (nStatus b) BLOCK_HAVE_DATA =? 0).
Definition same_base (st st' : store) : Prop := forall p, base <$> st !! p = base <$> st' !! p.

#[export] Instance same_base_equiv : Equivalence same_base.
Proof. split; [by intros st p|by intros st st' H p|intros a b c H1 H2 p; by rewrite (H1 p)]. Qed.
Lemma base_lookup st st' p b : same_base st st' -> st !! p = Some b -> exists b', st' !! p = Some b' /\ base b' = base b.
Proof. intros H Hb. specialize (H p). rewrite Hb in H. destruct (st' !! p) as [b'|]; [|done]. cbn in H. exists b'. split; [done|congruence]. Qed.
Lemma data_in_base b b' : base b' = base b -> data_in b -> data_in b'.
Proof. intros [= _ _ _ _ _ E1 _ E]. unfold data_in. rewrite E1. rewrite <- !Z.eqb_neq. by rewrite E. Qed.
Lemma has_data_base n n' p : same_base (blocks n) (blocks n') -> has_data n p -> has_data n' p.
Proof. intros K (b & Hb & Hd). destruct (base_lookup _ _ p b K Hb) as (b' & Hb' & E). exists b'. split; [done|by eapply data_in_base]. Qed.
Lemma same_base_links st st' : same_base st st' -> links st st'.
Proof. intros K p b Hb. destruct (base_lookup _ _ p b K Hb) as (b' & Hb' & [= E1 _ E2 _ _ _ _ _]). by exists b'. Qed.
Lemma sum_upto_base f st st' p : (forall b b', base b = base b' -> f b = f b') -> same_base st st' -> sum_upto f st p = sum_upto f st' p.
Proof.
  intros Hf K. apply sum_upto_ext. intros q _. specialize (K q). destruct (st !! q) as [b|], (st' !! q) as [b'|]; cbn in K |- *; try done.
  apply (inj Some) in K. rewrite (Hf _ _ K). unfold base, shape in K. congruence.
Qed.
Lemma base_nTx b b' : base b = base b' -> nTx b = nTx b'.
Proof. by intros [= ]. Qed.
Lemma base_shielded b b' : base b = base b' -> shielded b = shielded b'.
Proof. unfold shielded. by intros [= _ _ _ _ _ _ -> _]. Qed.
Lemma room_base st st' t v : same_base st st' -> room st t v -> room st' t v.
Proof.
  intros K. unfold room. rewrite !(sum_total_ext _ st st'); [done|..]; intros q; specialize (K q); destruct (st !! q), (st' !! q); cbn in K |- *; try done;
    apply (inj Some) in K; f_equal; [by apply base_shielded|by apply base_nTx].
Qed.
Lemma counted_base st st' p b b' : same_base st st' -> base b' = base b -> nChainTx b' = nChainTx b -> nChainSaplingValue b' = nChainSaplingValue b ->
  counted st p b -> counted st' p b'.
Proof.
  intros K E Ec Es (H1 & H2 & H3). unfold counted. rewrite Ec, Es, <- !(sum_upto_base _ st st') by (done || apply base_nTx || apply base_shielded).
  split_and!; [done|by eapply data_in_base|done].
Qed.

(** The invariant survives when what is new with [nChainTx] is counted, and what
    is new among the blocks that wait is in place. *)
Lemma link_inv_base n n' : same_base (blocks n) (blocks n') -> mapBlockIndex n' = mapBlockIndex n ->
  (forall p b b', blocks n !! p = Some b -> blocks n' !! p = Some b' -> nChainTx b' <> 0 ->
    nChainTx b' = nChainTx b /\ nChainSaplingValue b' = nChainSaplingValue b \/ counted (blocks n) p b') ->
  (forall e, e ∈ mapBlocksUnlinked n' -> e ∈ mapBlocksUnlinked n \/
    exists b q, blocks n !! e.2 = Some b /\ pprev b = Some q /\ e.1 = Some q /\ has_data n e.2) -> link_inv n -> link_inv n'.
Proof.
  intros K Ei Hc Hu [I1 I2 I3 I4]. assert (K' : same_base (blocks n') (blocks n)) by by symmetry. split.
  - intros p b Hb. destruct (base_lookup _ _ p b K' Hb) as (b' & Hb' & [= _ _ _ _ _ E1 _ _]). rewrite <- E1. by apply (I1 p).
  - intros p b Hb Hne. destruct (base_lookup _ _ p b K' Hb) as (b' & Hb' & E). destruct (Hc p b' b Hb' Hb Hne) as [[E1 E2]|H].
    + apply (counted_base (blocks n) _ _ b'); [done|by symmetry|done|done|]. apply (I2 p b' Hb'). congruence.
    + by apply (counted_base (blocks n) _ _ b).
  - assert (Hp : forall e b q, blocks n !! e.2 = Some b -> pprev b = Some q -> e.1 = Some q -> exists b q, blocks n' !! e.2 = Some b /\ pprev b = Some q /\ e.1 = Some q).
    { intros e b q Hb Hp E. destruct (base_lookup _ _ _ b K Hb) as (b' & Hb' & [= E1 _ _ _ _ _ _ _]). exists b', q. split_and!; [done|congruence|done]. }
    intros e [He|(b & q & Hb & Hq & E & Hd)]%Hu; [destruct (I3 e He) as (Hd & b & q & Hb & Hq & E)|]; (split; [by eapply has_data_base|by eapply Hp]).
  - intros h p. rewrite Ei, I4. split; intros (b & Hb & E); [destruct (base_lookup _ _ p b K Hb) as (b' & Hb' & [= _ _ _ _ Ek _ _ _])|destruct (base_lookup _ _ p b K' Hb) as (b' & Hb' & [= _ _ _ _ Ek _ _ _])];
      exists b'; split; congruence.
Qed.

Lemma same_tree_base (n n' : node) : same_tree (blocks n) (blocks n') -> (forall p, missing n p <-> missing n' p) -> same_base (blocks n) (blocks n').
Proof.
  intros T' M' p. pose proof (T' p) as T. pose proof (M' p) as M. unfold missing in M.
  destruct (blocks n !! p) as [b|] eqn:Eb, (blocks n' !! p) as [b'|] eqn:Eb'; cbn in T |- *; try done. apply (inj Some) in T. f_equal. unfold base, shape.
  pose proof (core_counts _ _ T) as (-> & -> & _). apply core_fields in T as (-> & -> & -> & -> & -> & _). f_equal.
  apply eq_true_iff_eq. rewrite !Z.eqb_eq. split; intros H0; [destruct (proj1 M) as (? & [= <-] & ?)|destruct (proj2 M) as (? & [= <-] & ?)]; eauto.
Qed.
Lemma link_inv_same n n' : same_tree (blocks n) (blocks n') -> (forall p, missing n p <-> missing n' p) -> mapBlockIndex n' = mapBlockIndex n ->
  (forall e, e ∈ mapBlocksUnlinked n' -> e ∈ mapBlocksUnlinked n \/
    exists b q, blocks n !! e.2 = Some b /\ pprev b = Some q /\ e.1 = Some q /\ nChainTx b <> 0) -> link_inv n -> link_inv n'.
Proof.
  intros T M Ei Hu I. apply (link_inv_base n); [by apply same_tree_base|done| | |done].
  - intros p b b' Hb Hb' _. left. destruct (same_tree_lookup _ _ p b T Hb) as (b0 & Hb0 & E). assert (b0 = b') as -> by congruence.
    split; [apply (core_fields _ _ E)|apply (core_counts _ _ E)].
  - intros e [He|(b & q & Hb & Hp & E & Hc)]%Hu; [by left|right]. exists b, q. split_and!; [done..|]. exists b. split; [done|]. by apply (li_chain n I e.2).
Qed.
Lemma extends_base n n' : extends start n n' -> same_base (blocks n) (blocks n').
Proof. intros X. apply same_tree_base; apply X. Qed.
Lemma link_inv_extends n n' : extends start n n' -> link_inv n -> link_inv n'.
Proof. intros X. apply link_inv_same; apply X. Qed.
Lemma link_inv_cleared n n' : cleared n n' -> link_inv n -> link_inv n'.
Proof. intros X. apply link_inv_same; [apply X..|]. rewrite (cl_unlinked _ _ X). by left. Qed.

(** ** Linking *)

(** [p] has arrived, and can be linked. *)
Definition ready (n : node) (p : positive) : Prop :=
  exists b, blocks n !! p = Some b /\ data_in b /\ match pprev b with None => True | Some q => exists bq, blocks n !! q = Some bq /\ nChainTx bq <> 0 end.
Definition linked_in (n : node) (p : positive) : Prop := exists b, blocks n !! p = Some b /\ nChainTx b <> 0.

Lemma base_shape st st' p : same_base st st' -> shape <$> st !! p = shape <$> st' !! p.
Proof. intros K. specialize (K p). destruct (st !! p), (st' !! p); cbn in K |- *; try done. unfold base in K. congruence. Qed.
(** The status of entries stays, and nothing is unlinked or loses its candidacy. *)
Record grows (n n' : node) : Prop := {
  gr_base : same_base (blocks n) (blocks n');
  gr_status : forall p, nStatus <$> blocks n !! p = nStatus <$> blocks n' !! p;
  gr_linked : forall p, linked_in n p -> linked_in n' p;
  gr_candidates : setBlockIndexCandidates n ⊆ setBlockIndexCandidates n';
  gr_index : mapBlockIndex n' = mapBlockIndex n;
  gr_chain : chainActive n' = chainActive n /\ pcoinsTip n' = pcoinsTip n;
}.
#[export] Instance grows_preorder : PreOrder grows.
Proof.
  split; [by intros n; split|]. intros a b c [B1 S1 L1 C1 I1 [T1 P1]] [B2 S2 L2 C2 I2 [T2 P2]].
  split; [by etransitivity|intros p; by rewrite S1|auto|set_solver|congruence|split; congruence].
Qed.
Lemma SetChainSaplingValue_spec st b :
  match pprev b with
  | None => True
  | Some q => exists bq, st !! q = Some bq /\ forall v, nChainSaplingValue bq = Some v -> Z.abs v + shielded b < 2 ^ 63
  end ->
  exists v, SetChainSaplingValue st b = Ok (set_chainSapling b v) /\
    forall x, v = Some x -> Z.abs x <= shielded b + match pprev b with
                                                    | None => 0
                                                    | Some q => match st !! q with Some bq => default 0 (Z.abs <$> nChainSaplingValue bq) | None => 0 end
                                                    end.
Proof.
  unfold SetChainSaplingValue, shielded. destruct (pprev b) as [q|]; [|intros _; eexists; split; [done|intros x [= <-]; lia]].
  intros (bq & Hq & Hv). cbn [deref]. rewrite Hq. cbn [mbind outcome_bind]. destruct (nChainSaplingValue bq) as [v|]; [|by eexists].
  specialize (Hv v eq_refl). rewrite bool_decide_eq_true_2 by (unfold in_s; lia). eexists. split; [done|]. intros x [= <-]. cbn. lia.
Qed.

(** The entry of a block when it is linked. *)
Definition link_entry (b : CBlockIndex) (chainTx : Z) (sapling : option Z) (seq : Z) : CBlockIndex :=
  set_nSequenceId (set_chainSapling (set_nChainTx b chainTx) sapling) seq.

Lemma same_base_insert st p b b' : st !! p = Some b -> base b' = base b -> same_base st (<[p := b']> st).
Proof. intros Hb E q. destruct (decide (p = q)) as [<-|Hne]; [by rewrite lookup_insert_eq, Hb; cbn; rewrite E|by rewrite lookup_insert_ne]. Qed.

(** Entries above an entry that is not linked are not. *)
Lemma linked_parent n p b q : node_inv n -> blocks n !! p = Some b -> nChainTx b <> 0 -> pprev b = Some q -> linked_in n q.
Proof.
  intros Hi Hb Hc Hq. pose proof (tree_prev _ (proj1 (inv_tree _ _ _ (node_tree _ _ n Hi))) p b Hb) as Hp. rewrite Hq in Hp. destruct Hp as (bq & Hbq & _).
  exists bq. split; [done|]. by apply (inv_chaintx _ _ _ (node_tree _ _ n Hi) p b q).
Qed.

Lemma link_counts n p b : node_inv n -> link_inv n -> room (blocks n) 0 0 -> blocks n !! p = Some b -> ready n p ->
  exists below v, (match pprev b with None => Ok 0 | Some _ => prev ← deref (blocks n) (pprev b); Ok (nChainTx prev) end) = Ok below /\
    SetChainSaplingValue (blocks n) (set_nChainTx b (u32 (below + nTx b))) = Ok (set_chainSapling (set_nChainTx b (u32 (below + nTx b))) v) /\
    forall seq, counted (blocks n) p (link_entry b (u32 (below + nTx b)) v seq) /\ u32 (below + nTx b) <> 0.
Proof.
  intros Hi Hl [Hr1 Hr2] Hb (b0 & Hb0 & Hd & Hp). assert (b0 = b) as -> by congruence. pose proof Hd as [Htx _].
  pose proof (proj1 (inv_tree _ _ _ (node_tree _ _ n Hi))) as Htb. assert (Hn : forall p b, blocks n !! p = Some b -> 0 <= nTx b) by apply (li_ntx n Hl).
  assert (Hs : forall p b, blocks n !! p = Some b -> 0 <= shielded b) by (intros; apply Z.abs_nonneg).
  pose proof (sum_upto_prev nTx _ Htb p b Hb) as E1. pose proof (sum_upto_prev shielded _ Htb p b Hb) as E2.
  pose proof (sum_upto_total nTx _ Htb Hn p). pose proof (sum_upto_total shielded _ Htb Hs p).
  assert (exists below, (match pprev b with None => Ok 0 | Some _ => prev ← deref (blocks n) (pprev b); Ok (nChainTx prev) end) = (Ok below : outcome unit Z) /\
    below = match pprev b with Some q => sum_upto nTx (blocks n) q | None => 0 end /\ 0 <= below) as (below & -> & Eb & Hb0').
  { destruct (pprev b) as [q|]; [|by eexists]. destruct Hp as (bq & Hq & Hc). cbn [deref]. rewrite Hq. destruct (li_chain n Hl q bq Hq Hc) as (E & _).
    eexists. split_and!; [done|done|]. rewrite E. by apply sum_upto_nonneg. }
  assert (Eu : u32 (below + nTx b) = sum_upto nTx (blocks n) p) by (rewrite wrapu_small by (unfold in_u; lia); lia).
  destruct (SetChainSaplingValue_spec (blocks n) (set_nChainTx b (u32 (below + nTx b)))) as (v & Ev & Hv).
  { cbn [pprev set_nChainTx]. destruct (pprev b) as [q|]; [|done]. destruct Hp as (bq & Hq & Hc). exists bq. split; [done|]. intros v Hv.
    destruct (li_chain n Hl q bq Hq Hc) as (_ & _ & Hle). specialize (Hle v Hv). change (shielded (set_nChainTx b _)) with (shielded b). lia. }
  exists below, v. split_and!; [done|exact Ev|]. intros seq. split; [|lia]. split_and!; [cbn; by rewrite Eu|exact Hd|]. intros x. cbn [nChainSaplingValue link_entry set_nSequenceId set_chainSapling]. intros ->.
  specialize (Hv x eq_refl). cbn [pprev set_nChainTx] in Hv. change (shielded (set_nChainTx b _)) with (shielded b) in Hv. rewrite E2. destruct (pprev b) as [q|]; [|lia].
  destruct Hp as (bq & Hq & Hc). rewrite Hq in Hv. destruct (li_chain n Hl q bq Hq Hc) as (_ & _ & Hle).
  pose proof (sum_upto_nonneg shielded _ Htb Hs q). destruct (nChainSaplingValue bq) as [y|]; cbn in Hv; [specialize (Hle y eq_refl)|]; lia.
Qed.

Lemma node_inv_base (n n' : node) : same_base (blocks n) (blocks n') -> linked_up (blocks n') ->
  (forall p, p ∈ setBlockIndexCandidates n' -> linked_in n' p) -> pindexBestInvalid n' = pindexBestInvalid n -> node_inv n -> node_inv n'.
Proof.
  intros K Hl Hc Ei Hi. split; [|done|].
  - apply (tree_inv_shape _ _ (blocks n)); [intros p; by apply base_shape|done|apply Hi].
  - intros p. rewrite Ei. intros [b Hb]%(node_invalid _ _ n Hi). destruct (base_lookup _ _ p b K Hb) as (b' & Hb' & _). by exists b'.
Qed.
Lemma at_tip_base (n n' : node) tip : tree_base (blocks n) -> same_base (blocks n) (blocks n') -> chainActive n' = chainActive n -> pcoinsTip n' = pcoinsTip n ->
  at_tip n tip -> at_tip n' tip.
Proof. intros Ht K. apply at_tip_links; [done|by apply same_base_links]. Qed.
Lemma work_at_base (n n' : node) p : same_base (blocks n) (blocks n') -> work_at n' p = work_at n p.
Proof.
  intros K. unfold work_at. specialize (K p). destruct (blocks n !! p), (blocks n' !! p); cbn in K; try done. apply (inj Some) in K.
  unfold base, shape in K. unfold work. congruence.
Qed.
Lemma more_work_not_worse (n : node) tip p : tree_inv genesis block_hash (blocks n) -> work_at n tip < work_at n p -> worse (blocks n) p tip = false.
Proof.
  intros Hi. unfold work_at, worse. destruct (blocks n !! p) as [b|] eqn:Hb; [|done]. destruct (blocks n !! tip) as [bt|] eqn:Ht; [|done]. intros Hw.
  unfold work_lt. rewrite (CompareTo_sgn 8) by by eapply inv_limbs. unfold work in Hw. by rewrite Z.sgn_pos by lia.
Qed.

Lemma link_block_spec n tip p : node_inv n -> link_inv n -> at_tip n tip -> room (blocks n) 0 0 -> ready n p ->
  exists n', link_block p n = Ok n' /\ grows n n' /\ node_inv n' /\ link_inv n' /\ at_tip n' tip /\ linked_in n' p /\ mapBlocksUnlinked n' = mapBlocksUnlinked n /\
    (forall q, q <> p -> blocks n' !! q = blocks n !! q) /\ (work_at n tip < work_at n p -> p ∈ setBlockIndexCandidates n').
Proof.
  intros Hi Hl Ht Hr Hp. pose proof Hp as (b & Hb & Hd & Hpar). destruct (link_counts n p b Hi Hl Hr Hb Hp) as (below & v & E1 & E2 & Hc).
  unfold link_block. cbn [deref]. rewrite Hb. cbn [mbind outcome_bind]. cbn [deref] in E1. rewrite E1. cbn [mbind outcome_bind]. rewrite E2. cbn [mbind outcome_bind]. clear E1 E2.
  set (b' := link_entry b (u32 (below + nTx b)) v (nBlockSequenceId n)). specialize (Hc (nBlockSequenceId n)) as [Hc Hne]. fold b' in Hc.
  set (n1 := next_sequence (with_blocks n (<[p := b']> (blocks n)))). change (set_nSequenceId (set_chainSapling (set_nChainTx b (u32 (below + nTx b))) v) (nBlockSequenceId n)) with b'. fold n1.
  assert (K : same_base (blocks n) (blocks n1)) by by apply (same_base_insert _ _ b).
  pose proof (proj1 (inv_tree _ _ _ (node_tree _ _ n Hi))) as Htb.
  assert (Ht1 : at_tip n1 tip) by by apply (at_tip_base n). rewrite (tip_of_branch start n1 tip Ht1).
  assert (Hlp : linked_in n1 p) by (exists b'; split; [apply lookup_insert_eq|exact Hne]).
  assert (Hmono : forall q, linked_in n q -> linked_in n1 q).
  { intros q Hq. destruct (decide (p = q)) as [<-|Hq']; [done|]. destruct Hq as (bq & Hbq & ?). exists bq. split; [|done]. cbn. by rewrite lookup_insert_ne. }
  assert (Hup : linked_up (blocks n1)).
  { intros q bq r br Hbq Hq Hbr Hcq. destruct (decide (p = r)) as [<-|Hr']; [destruct Hlp as (b0 & Hb0 & ?); congruence|].
    cbn in Hbq, Hbr. rewrite lookup_insert_ne in Hbr by done. destruct (decide (p = q)) as [<-|Hq'].
    - rewrite lookup_insert_eq in Hbq. injection Hbq as <-. change (pprev b = Some r) in Hq. rewrite Hq in Hpar. destruct Hpar as (b0 & Hb0 & ?). congruence.
    - rewrite lookup_insert_ne in Hbq by done. by eapply (inv_chaintx _ _ _ (node_tree _ _ n Hi) q). }
  assert (Hcand : forall q, q ∈ setBlockIndexCandidates n1 -> linked_in n1 q) by (intros q Hq; by apply Hmono, (node_candidates _ _ n Hi)).
  assert (G1 : grows n n1).
  { split; try done. intros q. cbn. destruct (decide (p = q)) as [<-|Hq]; [by rewrite lookup_insert_eq, Hb|by rewrite lookup_insert_ne]. }
  set (n' := if worse (blocks n1) p tip then n1 else insert_candidate n1 p).
  assert (En : exists s, n' = with_candidates n1 s /\ setBlockIndexCandidates n1 ⊆ s /\ (forall q, q ∈ s -> linked_in n1 q) /\ (worse (blocks n1) p tip = false -> p ∈ s)).
  { unfold n'. destruct (worse (blocks n1) p tip); [by exists (setBlockIndexCandidates n1)|]. exists ({[p]} ∪ setBlockIndexCandidates n1).
    split_and!; [done|set_solver| |set_solver]. intros q [->%elem_of_singleton|?]%elem_of_union; auto. }
  destruct En as (s & -> & Hs1 & Hs2 & Hs3). eexists. split; [done|].
  assert (Hi1 : node_inv (with_candidates n1 s)) by by apply (node_inv_base n).
  split_and!; [|exact Hi1| |by apply (at_tip_base n)|exact Hlp|done|intros q Hq; cbn; by rewrite lookup_insert_ne|].
  - etransitivity; [exact G1|]. by split.
  - apply (link_inv_base n); [exact K|done| |by left|exact Hl]. intros q bq bq' Hbq Hbq' Hcq. cbn in Hbq'. destruct (decide (p = q)) as [<-|Hq].
    + right. rewrite lookup_insert_eq in Hbq'. injection Hbq' as <-. exact Hc.
    + left. rewrite lookup_insert_ne in Hbq' by done. by assert (bq = bq') as -> by congruence.
  - intros Hw. apply Hs3, more_work_not_worse; [apply Hi1|]. by rewrite !(work_at_base n n1).
Qed.

Lemma ready_grows n n' p : grows n n' -> ready n p -> ready n' p.
Proof.
  intros G (b & Hb & Hd & Hp). destruct (base_lookup _ _ p b (gr_base _ _ G) Hb) as (b' & Hb' & E). exists b'. split_and!; [done|by eapply data_in_base|].
  injection E as -> _ _ _ _ _ _ _. destruct (pprev b) as [q|]; [|done]. by apply (gr_linked _ _ G).
Qed.
Lemma with_unlinked_keeps n tip l : (forall e, e ∈ l -> e ∈ mapBlocksUnlinked n) -> node_inv n -> link_inv n -> at_tip n tip ->
  node_inv (with_unlinked n l) /\ link_inv (with_unlinked n l) /\ at_tip (with_unlinked n l) tip /\ grows n (with_unlinked n l).
Proof. intros Hs [? ? ?] [? ? Hu ?] Ht. split_and!; [by split|split; [done..|by intros e ?%Hs%Hu|done]|done|by split]. Qed.

(** Nothing that waits is lost, and a block that is newly linked leaves no block
    waiting for it; what is newly linked and has more work than the tip is a
    candidate. *)
Record linked_all (n n' : node) (tip : positive) : Prop := {
  la_kept : forall e, e ∈ mapBlocksUnlinked n -> e ∈ mapBlocksUnlinked n' \/ linked_in n' e.2;
  la_waiting : forall e q, e ∈ mapBlocksUnlinked n' -> e.1 = Some q -> linked_in n' q -> linked_in n q /\ e ∈ mapBlocksUnlinked n;
  la_candidates : forall q, linked_in n' q -> linked_in n q \/ (work_at n tip < work_at n q -> q ∈ setBlockIndexCandidates n');
}.

Lemma link_loop_eq fuel queue (n : node) : link_loop fuel queue n =
  match queue with
  | [] => Ok n
  | p :: queue =>
      match fuel with
      | O => Abort
      | S fuel =>
          n ← link_block p n;
          link_loop fuel (queue ++ map snd (filter (fun e => e.1 = Some p) (mapBlocksUnlinked n))) (with_unlinked n (filter (fun e => e.1 <> Some p) (mapBlocksUnlinked n)))
      end
  end.
Proof. by destruct queue, fuel. Qed.

Lemma filter_split {A} (P : A -> Prop) `{!forall x, Decision (P x)} (l : list A) :
  (length (filter P l) + length (filter (fun x => ~ P x) l) = length l)%nat.
Proof. induction l as [|x l IH]; [done|]. rewrite !filter_cons. destruct (decide (P x)), (decide (~ P x)); try done; cbn; lia. Qed.

(** Every turn takes a block out of the queue, and the blocks it puts into the
    queue out of those that wait. *)
Lemma link_loop_spec fuel : forall queue n tip, node_inv n -> link_inv n -> at_tip n tip -> room (blocks n) 0 0 -> Forall (ready n) queue ->
  (length queue + length (mapBlocksUnlinked n) <= fuel)%nat ->
  exists n', link_loop fuel queue n = Ok n' /\ grows n n' /\ node_inv n' /\ link_inv n' /\ at_tip n' tip /\ Forall (linked_in n') queue /\ linked_all n n' tip.
Proof.
  induction fuel as [|fuel IH]; intros [|p queue] n tip Hi Hl Ht Hr Hq Hf; rewrite link_loop_eq;
    [|cbn in Hf; lia| |]; try (exists n; split_and!; try done; split; auto; fail).
  apply Forall_cons in Hq as [Hp Hq]. destruct (link_block_spec n tip p Hi Hl Ht Hr Hp) as (n1 & -> & G1 & Hi1 & Hl1 & Ht1 & Hp1 & Eu & Ho & Hc). cbn [mbind outcome_bind].
  set (rest := filter (fun e => e.1 <> Some p) (mapBlocksUnlinked n1)). set (children := filter (fun e => e.1 = Some p) (mapBlocksUnlinked n1)).
  destruct (with_unlinked_keeps n1 tip rest) as (Hi2 & Hl2 & Ht2 & G2); [|done..|]; [by intros e [_ ?]%list_elem_of_filter|]. set (n2 := with_unlinked n1 rest) in *.
  assert (G : grows n n2) by by etransitivity.
  destruct (IH (queue ++ map snd children) n2 tip Hi2 Hl2 Ht2) as (n' & -> & G' & Hi' & Hl' & Ht' & Hq' & [K W S]).
  - eapply room_base; [apply G|done].
  - apply Forall_app. split; [eapply Forall_impl; [exact Hq|]; intros; by eapply ready_grows|]. apply Forall_map, Forall_forall. intros e [Ee He]%list_elem_of_filter. cbn.
    destruct (li_unlinked n1 Hl1 e He) as (Hd & b & q & Hb & Hpp & E). destruct Hd as (b0 & Hb0 & Hd). assert (b0 = b) as -> by congruence.
    exists b. split_and!; [done|done|]. rewrite Hpp. assert (q = p) as -> by congruence. exact Hp1.
  - rewrite length_app, length_map. cbn [n2 mapBlocksUnlinked with_unlinked]. pose proof (filter_split (fun e : ptr * positive => e.1 = Some p) (mapBlocksUnlinked n1)) as Hs.
    rewrite <- Eu in Hf. cbn in Hf. unfold rest, children. lia.
  - exists n'. apply Forall_app in Hq' as [Hq1 Hq2]. rewrite Forall_map in Hq2. split_and!; [done|by etransitivity|done..|constructor; [by apply (gr_linked _ _ G')|done]|].
    assert (Hl0 : forall q, linked_in n2 q -> q <> p -> linked_in n q). { intros q (b & Hb & Hcq) Hne. exists b. split; [|done]. change (blocks n1 !! q = Some b) in Hb. by rewrite Ho in Hb. }
    split.
    + intros e He. rewrite <- Eu in He. destruct (decide (e.1 = Some p)) as [E|E].
      * right. rewrite Forall_forall in Hq2. by apply (Hq2 e), list_elem_of_filter.
      * apply K. by apply list_elem_of_filter.
    + intros e q He E Hlq. destruct (W e q He E Hlq) as [Hl3 He2]. apply list_elem_of_filter in He2 as [Hne He2]. rewrite Eu in He2.
      split; [|done]. apply Hl0; [done|]. intros ->. done.
    + intros q Hlq. destruct (S q Hlq) as [H2|H2].
      * destruct (decide (q = p)) as [->|Hne]; [|left; by apply Hl0]. right. intros Hw. by apply (gr_candidates _ _ G'), Hc.
      * right. intros Hw. apply H2. by rewrite !(work_at_base n n2) by apply G.
Qed.

(** ** Data that arrives *)

Lemma RaiseValidity_spec b k : Z.land k (Z.lnot BLOCK_VALID_MASK) = 0 ->
  exists s c, RaiseValidity b k = Ok (set_nStatus b s, c) /\ Z.land s BLOCK_HAVE_DATA = Z.land (nStatus b) BLOCK_HAVE_DATA.
Proof.
  intros Hk. unfold RaiseValidity. rewrite (proj2 (Z.eqb_eq _ _) Hk). cbn [cassert mbind outcome_bind].
  assert (Hb : b = set_nStatus b (nStatus b)) by by destruct b. destruct (negb _); [by exists (nStatus b), false; rewrite <- Hb|].
  destruct (_ <? k); [|by exists (nStatus b), false; rewrite <- Hb]. eexists _, true. split; [done|].
  rewrite Z.land_lor_distr_l, <- Z.land_assoc. change (Z.land (Z.lnot BLOCK_VALID_MASK) BLOCK_HAVE_DATA) with BLOCK_HAVE_DATA.
  assert (Z.land k BLOCK_HAVE_DATA = 0) as ->; [|by rewrite Z.lor_0_r].
  change BLOCK_HAVE_DATA with (Z.land (Z.lnot BLOCK_VALID_MASK) BLOCK_HAVE_DATA). by rewrite Z.land_assoc, Hk.
Qed.

(** Below a linked block all are. *)
Lemma linked_ancestor n p q : node_inv n -> linked_in n p -> is_ancestor (blocks n) q p -> linked_in n q.
Proof.
  intros Hi Hp [k Hk]. revert p Hp Hk. induction k as [|k IH]; intros p Hp Hk; cbn [iter_prev] in Hk; [congruence|].
  destruct Hp as (b & Hb & Hc). rewrite Hb in Hk. destruct (pprev b) as [r|] eqn:Er; [|by rewrite iter_prev_None in Hk].
  apply (IH r); [|done]. by eapply linked_parent.
Qed.

(** The entry [b] of [p], which had no data, becomes [b']. *)
Lemma new_data_keeps n tip p b b' : node_inv n -> link_inv n -> at_tip n tip -> blocks n !! p = Some b -> Z.land (nStatus b) BLOCK_HAVE_DATA = 0 ->
  shape b' = shape b -> nChainTx b' = 0 -> data_in b' ->
  let n' := with_dirty (with_blocks n (<[p := b']> (blocks n))) p in
  node_inv n' /\ link_inv n' /\ at_tip n' tip /\ (forall q, linked_in n' q <-> linked_in n q) /\ (forall q, work_at n' q = work_at n q).
Proof.
  intros Hi Hl Ht Hb Hno Es Ec Hd n'. assert (Hnl : nChainTx b = 0). { destruct (Z.eq_dec (nChainTx b) 0); [done|]. by destruct (li_chain n Hl p b Hb) as (_ & [_ ?] & _). }
  assert (Hother : forall q, q <> p -> blocks n' !! q = blocks n !! q) by (intros q Hq; cbn; by rewrite lookup_insert_ne).
  assert (Hself : blocks n' !! p = Some b') by apply lookup_insert_eq.
  assert (Hshape : forall q, shape <$> blocks n !! q = shape <$> blocks n' !! q).
  { intros q. destruct (decide (q = p)) as [->|Hq]; [by rewrite Hself, Hb; cbn; rewrite Es|by rewrite Hother]. }
  assert (Hlin : forall q, linked_in n' q <-> linked_in n q).
  { intros q. unfold linked_in. destruct (decide (q = p)) as [->|Hq]; [rewrite Hself, Hb|by rewrite Hother]. split; intros (? & [= <-] & ?); lia. }
  assert (Hne : forall q, linked_in n q -> q <> p) by (intros q (bq & Hbq & ?) ->; congruence).
  pose proof (node_tree _ _ n Hi) as Hti. pose proof (proj1 (inv_tree _ _ _ Hti)) as Htb.
  assert (Hlk : links (blocks n) (blocks n')).
  { intros q bq Hq. specialize (Hshape q). rewrite Hq in Hshape. destruct (blocks n' !! q) as [x|]; [|done]. exists x. cbn in Hshape. unfold shape in Hshape. split_and!; congruence. }
  split_and!.
  - split; [|intros q Hq; apply Hlin, (node_candidates _ _ n Hi), Hq|].
    + apply (tree_inv_shape _ _ (blocks n)); [done| |done]. intros q bq r br Hbq Hq Hbr Hcq.
      assert (Hlq : linked_in n q) by (apply Hlin; by exists bq). rewrite Hother in Hbq by by apply Hne.
      assert (Hlr : linked_in n r) by by eapply linked_parent. rewrite Hother in Hbr by by apply Hne.
      destruct Hlr as (b0 & Hb0 & ?). congruence.
    + intros q [bq Hq]%(node_invalid _ _ n Hi). destruct (Hlk q bq Hq) as (x & Hx & _). by exists x.
  - split.
    + intros q bq Hq. destruct (decide (q = p)) as [->|Hqp]; [assert (bq = b') as -> by congruence; destruct Hd; lia|]. rewrite Hother in Hq by done. by apply (li_ntx n Hl q).
    + intros q bq Hq Hcq. assert (Hlq : linked_in n q) by (apply Hlin; by exists bq). rewrite Hother in Hq by by apply Hne.
      destruct (li_chain n Hl q bq Hq Hcq) as (H1 & H2 & H3).
      assert (forall f, sum_upto f (blocks n') q = sum_upto f (blocks n) q) as Hs.
      { intros f. symmetry. apply sum_upto_ext. intros r Hr. by rewrite Hother by (apply Hne; by apply (linked_ancestor n q r)). }
      unfold counted. by rewrite !Hs.
    + intros e He. destruct (li_unlinked n Hl e He) as ((x & Hx & Hdx) & y & q & Hy & Hyq). assert (e.2 <> p) as Hep by (intros E; rewrite E in Hx; assert (x = b) as -> by congruence; by destruct Hdx).
      unfold has_data. rewrite Hother by done. split; [by exists x|by exists y, q].
    + intros h q. change (mapBlockIndex n') with (mapBlockIndex n). rewrite (li_index n Hl). destruct (decide (q = p)) as [->|Hq]; [|by rewrite Hother]. rewrite Hself, Hb.
      unfold shape in Es. injection Es as _ _ _ _ Eh. split; intros (? & [= <-] & ?); eexists; (split; [done|congruence]).
  - by apply (at_tip_links n).
  - done.
  - intros q. unfold work_at. specialize (Hshape q). destruct (blocks n !! q), (blocks n' !! q); cbn in Hshape; try done. unfold shape in Hshape. unfold work. congruence.
Qed.

(** What the arrival of the data of [p], whose entry was [b], does. *)
Record arrived (n n' : node) (tip p : positive) (b : CBlockIndex) : Prop := {
  ar_data : has_data n' p;
  ar_index : mapBlockIndex n' = mapBlockIndex n;
  ar_shape : forall q, shape <$> blocks n' !! q = shape <$> blocks n !! q;
  ar_linked : linked_in n' p <-> match pprev b with None => True | Some q => linked_in n q end;
  ar_kept : forall e, e ∈ mapBlocksUnlinked n -> e ∈ mapBlocksUnlinked n' \/ linked_in n' e.2;
  ar_waiting : forall e q, e ∈ mapBlocksUnlinked n' -> e.1 = Some q -> linked_in n' q -> linked_in n q;
  ar_candidates : forall q, linked_in n' q -> linked_in n q \/ (work_at n tip < work_at n q -> q ∈ setBlockIndexCandidates n');
  ar_waits : forall q bq, pprev b = Some q -> blocks n !! q = Some bq -> Chain.IsValid bq BLOCK_VALID_TREE = Ok true -> ~ linked_in n q -> (Some q, p) ∈ mapBlocksUnlinked n';
}.

Lemma ReceivedBlockTransactions_spec block p nFile nPos n tip b v :
  node_inv n -> link_inv n -> at_tip n tip -> blocks n !! p = Some b -> Z.land (nStatus b) BLOCK_HAVE_DATA = 0 -> 0 < zlen (vtx block) ->
  sapling_value (vtx block) = Ok v -> room (blocks n) (zlen (vtx block)) v ->
  exists n', ReceivedBlockTransactions block p nFile nPos n = Ok n' /\ node_inv n' /\ link_inv n' /\ at_tip n' tip /\ arrived n n' tip p b.
Proof.
  intros Hi Hl Ht Hb Hno Hlen Hv [Hr1 Hr2]. unfold ReceivedBlockTransactions. cbn [deref]. rewrite Hb. cbn [mbind outcome_bind]. rewrite Hv. cbn [mbind outcome_bind].
  assert (Htot : 0 <= sum_total nTx (blocks n)) by apply sum_total_nonneg, Hl.
  set (flags := if Block.IsProofOfStake block then _ else _). set (b0 := received b flags (u32 (zlen (vtx block))) v nFile nPos).
  destruct (RaiseValidity_spec b0 BLOCK_VALID_TRANSACTIONS) as (s & c & -> & Hs); [done|]. cbn [mbind outcome_bind fst]. set (b1 := set_nStatus b0 s).
  assert (En : nTx b1 = zlen (vtx block)) by (cbn; rewrite wrapu_small by (unfold in_u; lia); done).
  assert (Hd1 : data_in b1). { split; [by rewrite En|]. change (nStatus b1) with s. rewrite Hs. change (nStatus b0) with (Z.lor (nStatus b) BLOCK_HAVE_DATA).
    by rewrite Z.land_lor_distr_l, Hno. }
  destruct (new_data_keeps n tip p b b1 Hi Hl Ht Hb Hno eq_refl eq_refl Hd1) as (Hi1 & Hl1 & Ht1 & Hlin & Hw). set (n1 := with_dirty _ p) in *.
  assert (Hself : blocks n1 !! p = Some b1) by apply lookup_insert_eq.
  assert (Hr : room (blocks n1) 0 0).
  { pose proof (li_ntx n Hl p b Hb). assert (0 <= shielded b) by apply Z.abs_nonneg. assert (shielded b1 = Z.abs v) as Esh by done.
    unfold room. cbn [n1 blocks with_dirty with_blocks]. rewrite !(sum_total_update _ _ p b) by done. rewrite En, Esh. lia. }
  assert (Hshape1 : forall q, shape <$> blocks n1 !! q = shape <$> blocks n !! q).
  { intros q. destruct (decide (q = p)) as [->|Hq]; [by rewrite Hself, Hb|]. cbn. by rewrite lookup_insert_ne. }
  assert (Hnl : ~ linked_in n p). { intros (x & Hx & Hcx). assert (x = b) as -> by congruence. by destruct (li_chain n Hl p b Hb Hcx) as (_ & [_ ?] & _). }
  (** The block is linked, with all that waited for it. *)
  assert (Hlink : match pprev b with None => True | Some q => linked_in n q end ->
    exists n', link_loop (S (length (mapBlocksUnlinked n1))) [p] n1 = Ok n' /\ node_inv n' /\ link_inv n' /\ at_tip n' tip /\ arrived n n' tip p b).
  { intros Hpar. destruct (link_loop_spec (S (length (mapBlocksUnlinked n1))) [p] n1 tip Hi1 Hl1 Ht1 Hr) as (n' & E & G & Hi' & Hl' & Ht' & Hq & [K W S]);
      [|cbn; lia|]. { constructor; [|done]. exists b1. split_and!; [done|done|]. change (pprev b1) with (pprev b). destruct (pprev b) as [q|]; [|done]. by apply Hlin. }
    apply Forall_cons in Hq as [Hq _]. exists n'. split_and!; [done..|]. split.
    - eapply has_data_base; [apply G|by exists b1].
    - by rewrite (gr_index _ _ G).
    - intros q. rewrite <- (base_shape _ _ q (gr_base _ _ G)). apply Hshape1.
    - by split.
    - exact K.
    - intros e q He Ee Hlq. apply Hlin. by destruct (W e q He Ee Hlq).
    - intros q Hlq. rewrite <- !Hw, <- Hlin. by apply S.
    - intros q bq Eq _ _ Hn. by rewrite Eq in Hpar. }
  destruct (pprev b) as [q|] eqn:Eq; [|by apply Hlink].
  assert (q <> p) as Hqp. { intros ->. pose proof (tree_prev _ (proj1 (inv_tree _ _ _ (node_tree _ _ n Hi))) p b Hb) as Hp. rewrite Eq in Hp. destruct Hp as (x & Hx & Eh). assert (x = b) as -> by congruence. lia. }
  pose proof (tree_prev _ (proj1 (inv_tree _ _ _ (node_tree _ _ n Hi))) p b Hb) as Hp. rewrite Eq in Hp. destruct Hp as (bq & Hbq & _).
  assert (Hbq1 : blocks n1 !! q = Some bq) by (cbn; by rewrite lookup_insert_ne). cbn [deref]. rewrite Hbq1. cbn [mbind outcome_bind].
  destruct (Z.eqb_spec (nChainTx bq) 0) as [Ec|Ec]; cbn [negb]; [|apply Hlink; by exists bq].
  assert (Hnq : ~ linked_in n q) by (intros (x & Hx & ?); congruence).
  assert (exists valid, Chain.IsValid bq BLOCK_VALID_TREE = Ok valid) as [valid Ev].
  { unfold Chain.IsValid. cbn [cassert BLOCK_VALID_TREE]. change (Z.land 2 (Z.lnot BLOCK_VALID_MASK) =? 0) with true. cbn [mbind outcome_bind cassert]. destruct (negb _); by eexists. }
  rewrite Ev. cbn [mbind outcome_bind]. set (n' := if valid then _ else _). exists n'. split; [done|].
  assert (En' : exists l, n' = with_unlinked n1 (mapBlocksUnlinked n1 ++ l) /\ (forall e, e ∈ l -> e = (Some q, p)) /\ (valid = true -> (Some q, p) ∈ l)).
  { unfold n'. destruct valid; [exists [(Some q, p)]|exists []; rewrite app_nil_r; split; [by destruct n1|]]; split_and!; try done; set_solver. }
  destruct En' as (l & -> & Hle & Hlv). split_and!.
  - destruct Hi1. by split.
  - apply (link_inv_base n1); [done|done|intros r x x' Hx Hx' _; left; change (blocks n1 !! r = Some x') in Hx'; by assert (x = x') as -> by congruence| |done]. intros e [He|He%Hle]%elem_of_app; [by left|]. right. subst e. exists b1, q. split_and!; [done..|by exists b1].
  - done.
  - split; try done.
    + by exists b1.
    + rewrite Eq. split; intros H; [exfalso; apply Hnl; by apply Hlin|done].
    + intros e He. left. apply elem_of_app. by left.
    + intros e r He Ee Hlr. by apply Hlin.
    + intros r Hlr. left. by apply Hlin.
    + intros r br Er Hbr Hvr _. rewrite Eq in Er. injection Er as <-. assert (br = bq) as -> by congruence. rewrite Ev in Hvr. injection Hvr as ->. apply elem_of_app. right. by apply Hlv.
Qed.

(** C18: the data of a block links everything that waited for it.  When the data
    of a block whose entry had none arrives, at a well-formed node whose counts
    leave room for it, [ReceivedBlockTransactions] returns: the queue it works
    off ends, and no assertion or null pointer is met.  The node is well formed
    at the same tip, and every linked block counts the transactions of its
    branch.  The block is linked when, and only when, it is a root or its parent
    is; no block that waited is lost, and none waits any more for a block that
    was linked by this.  Whatever was linked and has more work than the tip is
    now a candidate; and a block that cannot be linked yet waits for its parent,
    unless that one is invalid. *)
Theorem ReceivedBlockTransactions_links (block : CBlock) (n : node) (tip p : positive) (b : CBlockIndex) (nFile nPos v : Z) :
  node_inv n -> link_inv n -> at_tip n tip -> blocks n !! p = Some b -> Z.land (nStatus b) BLOCK_HAVE_DATA = 0 -> 0 < zlen (vtx block) ->
  sapling_value (vtx block) = Ok v -> room (blocks n) (zlen (vtx block)) v ->
  exists n', ReceivedBlockTransactions block p nFile nPos n = Ok n' /\ node_inv n' /\ link_inv n' /\ at_tip n' tip /\ has_data n' p /\
    (linked_in n' p <-> match pprev b with None => True | Some q => linked_in n q end) /\
    (forall e, e ∈ mapBlocksUnlinked n -> e ∈ mapBlocksUnlinked n' \/ linked_in n' e.2) /\
    (forall e q, e ∈ mapBlocksUnlinked n' -> e.1 = Some q -> linked_in n' q -> linked_in n q) /\
    (forall q, linked_in n' q -> linked_in n q \/ (work_at n tip < work_at n q -> q ∈ setBlockIndexCandidates n')) /\
    (forall q bq, pprev b = Some q -> blocks n !! q = Some bq -> Chain.IsValid bq BLOCK_VALID_TREE = Ok true -> ~ linked_in n q ->
      (Some q, p) ∈ mapBlocksUnlinked n').
Proof.
  intros. edestruct ReceivedBlockTransactions_spec as (n' & E & Hi & Hl & Ht & []); [eassumption..|]. by exists n'.
Qed.
End Linking.

(** ** An example

    On the tree of [Toy], block 8 waits for block 7, of which only the header is
    known. *)
Module Waiting.
Import Toy.
Definition header_7 : CBlockIndex :=
  BlockIndex (toy_hash 7) (Some 6%positive) (Some 1%positive) 4 0 0 0 BLOCK_VALID_TREE 0 [] 0 None 1 0 0x1e0ffff0 (bu_of_uint64 8 50) 0 0 [] [] 0 [] 0.
Definition tree : store :=
  <[7%positive := header_7]> (<[8%positive := set_nChainTx (entry 8 (Some 7%positive) (Some 2%positive) 5 60).2 0]> Toy.tree).
Definition waiting_node : node (list positive) :=
  Node (list_to_map (map (fun p => (toy_hash p, p)) [1; 2; 3; 4; 5; 6; 7; 8]%positive)) tree [Some 1%positive; Some 2%positive; Some 3%positive]
    {[3; 5; 6]}%positive None None [(Some 7, 8)]%positive 9 ∅ [3; 2; 1]%positive.

Definition counted_b (st : store) (p : positive) (b : CBlockIndex) : bool :=
  (0 <=? nTx b) && ((nChainTx b =? 0) ||
    (nChainTx b =? sum_upto nTx st p) && (0 <? nTx b) && negb (Z.land (nStatus b) BLOCK_HAVE_DATA =? 0) &&
    match nChainSaplingValue b with Some v => Z.abs v <=? sum_upto shielded st p | None => true end).
Lemma link_inv_check (n : node (list positive)) : map_Forall (fun p b => counted_b (blocks n) p b = true /\ mapBlockIndex n !! blockHash b = Some p) (blocks n) ->
  map_Forall (fun h p => blockHash <$> blocks n !! p = Some h) (mapBlockIndex n) ->
  Forall (fun e => exists b, blocks n !! e.2 = Some b /\ data_in b /\ pprev b = e.1 /\ e.1 <> None) (mapBlocksUnlinked n) -> link_inv n.
Proof.
  intros H1 H2 H3. rewrite Forall_forall in H3. split.
  - intros p b Hb. destruct (H1 p b Hb) as [Hc _]. unfold counted_b in Hc. lia.
  - intros p b Hb Hne. destruct (H1 p b Hb) as [Hc _]. unfold counted_b in Hc. unfold counted, data_in. rewrite !andb_true_iff, orb_true_iff, !andb_true_iff in Hc.
    destruct Hc as [_ [?|[[[? ?] ?] Hv]]]; [lia|]. split_and!; [lia|lia|lia|]. intros v E. rewrite E in Hv. lia.
  - intros e He. destruct (H3 e He) as (b & Hb & Hd & Ep & Hn). split; [by exists b|]. destruct (pprev b) as [q|] eqn:Eq; [|congruence]. by exists b, q.
  - intros h p. split; [intros Hp; specialize (H2 h p Hp); cbn in H2; destruct (blocks n !! p) as [b|]; [|done]; exists b; split; [done|]; cbn in H2; by apply (inj Some) in H2|].
    intros (b & Hb & <-). by apply (H1 p b Hb).
Qed.

Lemma waiting_inv : node_inv 1 toy_hash waiting_node.
Proof.
  split; [|intros p Hp; assert (p = 3 \/ p = 5 \/ p = 6)%positive as [->|[->| ->]] by (cbn in Hp; set_solver); by eexists|done].
  apply tree_inv_check. refine (bool_decide_unpack _ _). vm_compute. exact I.
Qed.
Lemma waiting_links : link_inv waiting_node.
Proof.
  apply link_inv_check; [refine (bool_decide_unpack _ _); vm_compute; exact I|refine (bool_decide_unpack _ _); vm_compute; exact I|].
  constructor; [|done]. eexists. split; [vm_compute; reflexivity|]. unfold data_in. vm_compute. by split_and!.
Qed.
Lemma waiting_tip : at_tip [] waiting_node 3.
Proof.
  apply (at_tip_links [] start_node); [apply tree_ok_check; refine (bool_decide_unpack _ _); vm_compute; exact I| |done|done|exact start_tip].
  intros p b Hb. exists b. split; [|done]. assert (p <> 7 /\ p <> 8)%positive as [? ?] by (split; intros ->; vm_compute in Hb; discriminate).
  change (tree !! p = Some b). unfold tree. by rewrite !lookup_insert_ne by congruence.
Qed.
Definition block_7 : CBlock := Block (BlockHeader 1 (toy_hash 6) [] 0 0 0 [] []) [Transaction 1 0 [] [] 0 None None] [].
End Waiting.
Import Toy Waiting.

Lemma block_7_links_8 :
  match ReceivedBlockTransactions block_7 7 1 2 waiting_node with
  | Ok n' => (mapBlocksUnlinked n', nChainTx <$> blocks n' !! 8%positive, bool_decide (8%positive ∈ setBlockIndexCandidates n')) = ([], Some 6, true)
  | _ => False
  end.
Proof. vm_compute. reflexivity. Qed.
Lemma ReceivedBlockTransactions_links_witness :
  exists n', ReceivedBlockTransactions block_7 7 1 2 waiting_node = Ok n' /\ node_inv 1 Toy.toy_hash n' /\ link_inv n' /\ at_tip [] n' 3 /\ has_data n' 7 /\
    (linked_in n' 7 <-> linked_in waiting_node 6) /\
    (forall e, e ∈ mapBlocksUnlinked waiting_node -> e ∈ mapBlocksUnlinked n' \/ linked_in n' e.2) /\
    (forall e q, e ∈ mapBlocksUnlinked n' -> e.1 = Some q -> linked_in n' q -> linked_in waiting_node q) /\
    (forall q, linked_in n' q -> linked_in waiting_node q \/ (work_at waiting_node 3 < work_at waiting_node q -> q ∈ setBlockIndexCandidates n')) /\
    (forall q bq, Some 6%positive = Some q -> blocks waiting_node !! q = Some bq -> Chain.IsValid bq BLOCK_VALID_TREE = Ok true -> ~ linked_in waiting_node q ->
      (Some q, 7%positive) ∈ mapBlocksUnlinked n').
Proof.
  apply (ReceivedBlockTransactions_links [] 1 Toy.toy_hash block_7 waiting_node 3 7 header_7 1 2 0);
    [exact waiting_inv|exact waiting_links|exact waiting_tip|vm_compute; reflexivity|vm_compute; reflexivity|vm_compute; reflexivity|vm_compute; reflexivity|vm_compute; split; reflexivity].
Defined.
