(* ===== verification/NewBlocks.v ===== *)
(** * New blocks leave the node well formed

    [GetPrevIndex], [AddToBlockIndex], [AcceptBlockHeader], [AcceptBlock] and
    [ProcessNewBlock] keep the invariants of the tree, of the active chain and of
    the blocks whose data has arrived. *)
From Stdlib Require Import SpecFloat.
From S2P Require Import Prelude Serialize Hash ArithUint256 Params Chain Pow Script Transaction Block TxVerify TxInputs Subsidy BlockCheck Kernel StakeModifier BestChain Activation Invalidation Acceptance Linking.

Section NewBlocks.
Context {C : Type} `{!ChainState C} `{!Equiv C} `{!Environment C} (start : C) (genesis : positive) (block_hash : positive -> uint256).
Context `{!ChainStateLaws C block_hash}.
Notation node := (node C).
Notation node_inv := (node_inv genesis block_hash).
Notation at_tip := (at_tip start).
Notation consensus := (consensus chainparams).

(** A well-formed node. *)
Definition good (n : node) : Prop := node_inv n /\ link_inv n /\ exists tip, at_tip n tip.

Lemma good_index (n : node) : link_inv n -> index_ok n.
Proof.
  intros Hl. apply Forall_forall. unfold entries. intros p ([h q] & -> & Hin)%list_elem_of_fmap. apply elem_of_map_to_list in Hin.
  apply (li_index n Hl) in Hin as (b & Hb & _). by exists b.
Qed.

(** ** The parent *)

(** The tree with what stays of it, in a node that is well formed. *)
Record follows (n n' : node) : Prop := {
  fo_good : good n';
  fo_base : same_base (blocks n) (blocks n');
  fo_index : mapBlockIndex n' = mapBlockIndex n;
}.
Lemma activate_follows fuel n : good n -> (activation_fuel n <= fuel)%nat -> exists r, ActivateBestChain fuel n = Ok r /\ follows n r.2 /\
  (r.1 = true -> exists tip, at_tip r.2 tip /\ forall c, c ∈ setBlockIndexCandidates r.2 -> worse (blocks r.2) tip c = false).
Proof.
  intros (Hi & Hl & tip & Ht) Hf. destruct (activate_spec start genesis block_hash fuel n tip Hi Ht Hf) as (ok & n' & tip' & -> & X & Hi' & Ht' & _ & Hb).
  exists (ok, n'). split_and!; [done| |intros Eok; exists tip'; by split; [|apply Hb]].
  split; [split_and!; [done|by eapply link_inv_extends|by exists tip']|by eapply extends_base|apply X].
Qed.

(** The parent is found in the index; the genesis block has none. *)
Definition parent_of (block : CBlock) (n : node) : ptr :=
  if bool_decide (GetBlockHash block = hashGenesisBlock consensus) then None else mapBlockIndex n !! hashPrevBlock (header block).

Lemma GetPrevIndex_spec block st n : good n ->
  exists r n', GetPrevIndex block st n = Ok (r, n') /\ follows n n' /\
    match r with
    | inl prev => prev = parent_of block n /\ (prev = None -> GetBlockHash block = hashGenesisBlock consensus)
    | inr _ => True
    end.
Proof.
  intros Hg. pose proof Hg as (Hi & Hl & tip & Ht). unfold GetPrevIndex, parent_of.
  destruct (decide (GetBlockHash block = hashGenesisBlock consensus)) as [E|E].
  { rewrite bool_decide_eq_true_2 by done. exists (inl None), n. by split_and!. }
  rewrite bool_decide_eq_false_2 by done. destruct (mapBlockIndex n !! hashPrevBlock (header block)) as [p|] eqn:Ep; [|by eexists _, n].
  destruct (proj1 (li_index n Hl _ p) Ep) as (b & Hb & Eh). cbn [deref]. rewrite Hb. cbn [mbind outcome_bind].
  destruct (Z.land (nStatus b) BLOCK_FAILED_MASK =? 0); [by exists (inl (Some p)), n|].
  destruct (Checkpoints_CheckBlock _ _ _ _ _); [|by eexists _, n].
  destruct (ReconsiderBlock_spec start genesis block_hash n tip p b Hi Ht (good_index n Hl) Hb) as (n1 & -> & X & Hi1 & Ht1 & _). cbn [mbind outcome_bind].
  assert (F1 : follows n n1).
  { split; [split_and!; [done|by eapply link_inv_cleared|by exists tip]|apply same_tree_base; apply X|apply X]. }
  destruct (activate_follows (activation_fuel n1) n1) as ([ok n2] & -> & F2 & _); [apply F1|done|]. cbn [mbind outcome_bind].
  exists (inl (Some p)), n2. split_and!; [done| |done|done]. split; [apply F2|etransitivity; [apply F1|apply F2]|].
  exact (eq_trans (fo_index _ _ F2) (fo_index _ _ F1)).
Qed.

(** ** A new entry *)

(** An entry of a header above [q]. *)
Record above (q : positive) (bq : CBlockIndex) (hash : uint256) (b : CBlockIndex) : Prop := {
  ab_prev : pprev b = Some q;
  ab_height : nHeight b = nHeight bq + 1;
  ab_hash : blockHash b = hash;
  ab_limbs : limbs_ok 8 (nChainWork b);
  ab_work : work bq < work b;
  ab_empty : nTx b = 0 /\ nChainTx b = 0 /\ nSaplingValue b = 0;
}.

Lemma new_entry_keeps n n' p q bq b hash : good n -> blocks n !! p = None -> blocks n !! q = Some bq -> above q bq hash b ->
  block_hash p = hash -> mapBlockIndex n !! hash = None -> tree_ok (blocks n') -> blocks n' = <[p := b]> (blocks n) -> mapBlockIndex n' = <[hash := p]> (mapBlockIndex n) ->
  chainActive n' = chainActive n -> pcoinsTip n' = pcoinsTip n -> setBlockIndexCandidates n' = setBlockIndexCandidates n ->
  mapBlocksUnlinked n' = mapBlocksUnlinked n -> pindexBestInvalid n' = pindexBestInvalid n -> good n'.
Proof.
  intros (Hi & Hl & tip & Ht) Hp Hq [A1 A2 A3 A4 A5 (A6 & A7 & A8)] Eh Hix Htree Eb Ei Ec Eco Es Eu Ev.
  pose proof (node_tree _ _ n Hi) as Hti. pose proof (proj1 (inv_tree _ _ _ Hti)) as Htb.
  assert (Hself : blocks n' !! p = Some b) by (rewrite Eb; apply lookup_insert_eq).
  assert (Hother : forall r, r <> p -> blocks n' !! r = blocks n !! r) by (intros r Hr; rewrite Eb; by rewrite lookup_insert_ne).
  assert (Hold : forall r x, blocks n !! r = Some x -> r <> p /\ blocks n' !! r = Some x).
  { intros r x Hx. assert (r <> p) by congruence. by rewrite Hother. }
  assert (Hprev : forall r x y, blocks n !! r = Some x -> pprev x = Some y -> exists z, blocks n !! y = Some z).
  { intros r x y Hx Hy. pose proof (tree_prev _ Htb r x Hx) as Hpv. rewrite Hy in Hpv. destruct Hpv as (z & Hz & _). by exists z. }
  assert (Hlk : links (blocks n) (blocks n')) by (intros r x Hx; exists x; by split; [apply Hold|]).
  split_and!.
  - split; [split; [done|..]|..].
    + intros r x Hx Hn. destruct (decide (r = p)) as [->|Hr]; [congruence|]. rewrite Hother in Hx by done. by eapply inv_root.
    + intros r x Hx. destruct (decide (r = p)) as [->|Hr]; [congruence|]. rewrite Hother in Hx by done. by eapply inv_limbs.
    + intros r x y z Hx Hy Hz. destruct (decide (r = p)) as [->|Hr].
      * assert (x = b) as -> by congruence. assert (y = q) as -> by congruence. destruct (Hold q bq Hq) as [_ ?]. by assert (z = bq) as -> by congruence.
      * rewrite Hother in Hx by done. destruct (Hprev r x y Hx Hy) as [z' Hz']. destruct (Hold y z' Hz') as [_ ?]. assert (z' = z) as -> by congruence. by eapply inv_work.
    + intros r x y z Hx Hy Hz Hn. destruct (decide (r = p)) as [->|Hr]; [congruence|].
      rewrite Hother in Hx by done. destruct (Hprev r x y Hx Hy) as [z' Hz']. destruct (Hold y z' Hz') as [_ ?]. assert (z' = z) as -> by congruence. exact (inv_chaintx _ _ _ Hti r x y z Hx Hy Hz' Hn).
    + intros r x Hx. destruct (decide (r = p)) as [->|Hr]; [congruence|]. rewrite Hother in Hx by done. by eapply inv_hash.
    + intros r. rewrite Es. intros (x & Hx & Hc)%(node_candidates _ _ n Hi). exists x. by split; [apply Hold|].
    + intros r. rewrite Ev. intros [x Hx]%(node_invalid _ _ n Hi). exists x. by apply Hold.
  - split.
    + intros r x Hx. destruct (decide (r = p)) as [->|Hr]; [assert (x = b) as -> by congruence; lia|]. rewrite Hother in Hx by done. by apply (li_ntx n Hl r).
    + intros r x Hx Hc. destruct (decide (r = p)) as [->|Hr]; [congruence|]. rewrite Hother in Hx by done. destruct (li_chain n Hl r x Hx Hc) as (H1 & H2 & H3).
      assert (forall f, sum_upto f (blocks n') r = sum_upto f (blocks n) r) as Hs.
      { intros f. symmetry. apply sum_upto_ext. intros y Hy. destruct (linked_ancestor genesis block_hash n r y Hi) as (z & Hz & _); [by exists x|done|]. by destruct (Hold y z Hz) as [_ ->]; rewrite Hz. }
      unfold counted. by rewrite !Hs.
    + intros e. rewrite Eu. intros He. destruct (li_unlinked n Hl e He) as ((x & Hx & Hd) & y & z & Hy & Hz). split; [exists x; by split; [apply Hold|]|].
      exists y, z. by split; [apply Hold|].
    + intros h r. rewrite Ei. destruct (decide (h = hash)) as [->|Hh].
      * rewrite lookup_insert_eq. split; [intros [= <-]; by exists b|]. intros (x & Hx & Ex). destruct (decide (r = p)) as [->|Hr]; [done|].
        rewrite Hother in Hx by done. assert (mapBlockIndex n !! hash = Some r) by (apply (li_index n Hl); by exists x). congruence.
      * rewrite lookup_insert_ne by done. rewrite (li_index n Hl). split; intros (x & Hx & Ex); exists x; [by split; [apply Hold|]|].
        split; [|done]. rewrite <- Hother; [done|]. intros ->. congruence.
  - exists tip. by apply (at_tip_links start n).
Qed.

(** What is known of a block before its header is added. *)
Record admissible (block : CBlock) (n : node) : Prop := {
  (** The allocator gives a free entry, and the coins know the block by it. *)
  ad_fresh : forall st, same_base (blocks n) st -> st !! new_entry st = None /\ block_hash (new_entry st) = GetBlockHash block;
  ad_genesis : is_Some (mapBlockIndex n !! hashGenesisBlock consensus);
  (** The bits stand for a target, and neither the height nor the work wraps. *)
  ad_bits : in_u 32 (hd_nBits (header block)) /\ 0 < compact_value (hd_nBits (header block)) < 2 ^ 256 /\ Z.testbit (hd_nBits (header block)) 23 = false;
  ad_parent : forall q bq, mapBlockIndex n !! hashPrevBlock (header block) = Some q -> blocks n !! q = Some bq ->
    nHeight bq + 1 < 2 ^ 31 /\ work bq + 2 ^ 256 / (compact_value (hd_nBits (header block)) + 1) < 2 ^ 256;
}.
Lemma admissible_follows block n n' : follows n n' -> admissible block n -> admissible block n'.
Proof.
  intros F [H1 H2 H3 H4]. split; [|by rewrite (fo_index _ _ F)|done|].
  - intros st K. apply H1. etransitivity; [apply F|done].
  - intros q bq. rewrite (fo_index _ _ F). intros Hq Hbq. assert (K : same_base (blocks n') (blocks n)) by (symmetry; apply F).
    destruct (base_lookup _ _ q bq K Hbq) as (b & Hb & [= _ _ E1 E2 _ _ _ _]). destruct (H4 q b Hq Hb) as [H5 H6]. unfold work in *. rewrite <- E1, <- E2. done.
Qed.

Lemma set_stake_V1 index st b b' : SetNewStakeModifierV1 consensus index st literal b = Ok b' -> exists f m, b' = set_stake b f m.
Proof.
  unfold SetNewStakeModifierV1. destruct (ComputeNextStakeModifier _ _ _ _ _) as [[[ok m] g]| | |]; cbn [mbind outcome_bind]; [|done..].
  intros [= <-]. unfold SetStakeModifierV1, SetStakeEntropyBit. destruct (1 <? _); by eexists _, _.
Qed.
Lemma set_stake_V2 st b h b' : SetNewStakeModifierV2 consensus st b h = Ok b' -> exists f m, b' = set_stake b f m.
Proof.
  unfold SetNewStakeModifierV2. destruct (negb _); [intros [= <-]; exists (nFlags b), (vStakeModifier b); by destruct b|].
  destruct (pprev b); [|done]. destruct (deref _ _); cbn [mbind outcome_bind]; [|done..]. destruct (GetStakeModifierV2 _ _); cbn [mbind outcome_bind]; [|done..].
  intros [= <-]. by eexists _, _.
Qed.
Lemma BuildSkip_entry st p b st' : st !! p = Some b -> BuildSkip st p = Ok st' -> exists s, st' = <[p := set_pskip b s]> st.
Proof.
  intros Hb. unfold BuildSkip. cbn [deref]. rewrite Hb. cbn [mbind outcome_bind]. destruct (pprev b) as [q|].
  - destruct (GetAncestor _ _ _) as [s| | |]; cbn [mbind outcome_bind]; [|done..]. intros [= <-]. by exists s.
  - intros [= <-]. exists (pskip b). rewrite insert_id; [done|]. rewrite Hb. by destruct b.
Qed.

(** The entry is in the tree, with its height, skip pointer and modifier. *)
Lemma link_parent_spec block n p q bq hash st : good n -> blocks n !! p = None -> blocks n !! q = Some bq -> nHeight bq + 1 < 2 ^ 31 ->
  link_parent block p q (<[hash := p]> (mapBlockIndex n)) (with_index (with_blocks n (<[p := new_index hash block]> (blocks n))) (<[hash := p]> (mapBlockIndex n))) = Ok st ->
  exists s f m, st = <[p := set_stake (set_pskip (set_parent (new_index hash block) (Some q) (nHeight bq + 1)) s) f m]> (blocks n) /\ tree_ok st.
Proof.
  intros (Hi & _ & _) Hp Hq Hh. pose proof (inv_tree _ _ _ (node_tree _ _ n Hi)) as [Htb Hts]. assert (p <> q) as Hpq by congruence.
  unfold link_parent. cbn [deref blocks with_index with_blocks]. rewrite lookup_insert_eq. cbn [mbind outcome_bind]. rewrite lookup_insert_ne, Hq by done. cbn [mbind outcome_bind].
  rewrite insert_insert_eq. set (b1 := set_parent (new_index hash block) (Some q) (nHeight bq + 1)). set (st1 := <[p := b1]> (blocks n)).
  assert (H1 : st1 !! p = Some b1) by apply lookup_insert_eq.
  assert (Hlk : links (blocks n) st1). { intros r x Hx. assert (r <> p) by congruence. exists x. split; [|done]. unfold st1. by rewrite lookup_insert_ne. }
  assert (Hb1 : tree_base st1).
  { pose proof (tree_height _ Htb q bq Hq). split; intros r x Hx; (destruct (decide (r = p)) as [->|Hr]; [rewrite H1 in Hx; injection Hx as <-|unfold st1 in Hx; rewrite lookup_insert_ne in Hx by done]).
    - cbn. lia.
    - by apply (tree_height _ Htb r).
    - cbn. exists bq. split; [|lia]. unfold st1. by rewrite lookup_insert_ne.
    - pose proof (tree_prev _ Htb r x Hx) as Hpv. destruct (pprev x) as [y|]; [|done]. destruct Hpv as (z & Hz & Ez). destruct (Hlk y z Hz) as (z' & Hz' & _ & E). exists z'. split; [done|lia]. }
  destruct (BuildSkip_restores_tree st1 p b1 Hb1) as (st2 & E2 & Hok2 & _); [|done|].
  { intros r Hr x Hx Hne. unfold st1 in Hx. rewrite lookup_insert_ne in Hx by done. rewrite (iter_prev_links _ _ _ Htb Hlk r x Hx); [by apply Hts|]. pose proof (tree_prev _ Htb r x Hx) as Hpv.
    destruct (pprev x) as [y|]; [|done]. destruct Hpv as (z & Hz & Ez). pose proof (tree_height _ Htb y z Hz). pose proof (GetSkipHeight_bounds (nHeight x) ltac:(lia)). lia. }
  rewrite E2. cbn [mbind outcome_bind]. destruct (BuildSkip_entry _ _ _ _ H1 E2) as [s ->]. unfold st1 in *. rewrite insert_insert_eq in *. cbn [deref]. rewrite lookup_insert_eq. cbn [mbind outcome_bind].
  set (b2 := set_pskip b1 s) in *. intros E.
  assert (exists f m, st = <[p := set_stake b2 f m]> (blocks n)) as (f & m & ->).
  { destruct (negb _) in E.
    - destruct (SetNewStakeModifierV1 _ _ _ _ _) as [b3| | |] eqn:E3; cbn [mbind outcome_bind] in E; [|done..]. injection E as <-. rewrite insert_insert_eq.
      apply set_stake_V1 in E3 as (f & m & ->). by eexists _, _.
    - destruct (rd (vtx block) 1) as [tx| | |]; cbn [mbind outcome_bind] in E; [|done..]. destruct (rd (vin tx) 0) as [i| | |]; cbn [mbind outcome_bind] in E; [|done..].
      destruct (SetNewStakeModifierV2 _ _ _ _) as [b3| | |] eqn:E3; cbn [mbind outcome_bind] in E; [|done..]. injection E as <-. rewrite insert_insert_eq.
      apply set_stake_V2 in E3 as (f & m & ->). by eexists _, _. }
  exists s, f, m. split; [done|]. apply (tree_ok_placed (<[p := b2]> (blocks n))); [|done]. intros r. destruct (decide (r = p)) as [->|Hr]; [by rewrite !lookup_insert_eq|by rewrite !lookup_insert_ne].
Qed.

(** The tree has grown, with no more transactions than before. *)
Record enlarges (n n' : node) : Prop := {
  en_good : good n';
  en_room : forall t v, room (blocks n) t v -> room (blocks n') t v;
  en_kept : forall q b, blocks n !! q = Some b -> exists b', blocks n' !! q = Some b' /\ base b' = base b;
}.
Lemma follows_enlarges n n' : follows n n' -> enlarges n n'.
Proof. intros [G K _]. split; [done|intros t v; by apply room_base|intros q b; by apply base_lookup]. Qed.
Lemma enlarges_trans n n1 n' : enlarges n n1 -> enlarges n1 n' -> enlarges n n'.
Proof.
  intros [G1 R1 K1] [G2 R2 K2]. split; [done|auto|]. intros q b Hb. destruct (K1 q b Hb) as (b1 & Hb1 & E1). destruct (K2 q b1 Hb1) as (b2 & Hb2 & E2).
  exists b2. split; [done|congruence].
Qed.

Lemma header_work block : in_u 32 (hd_nBits (header block)) -> 0 < compact_value (hd_nBits (header block)) < 2 ^ 256 -> Z.testbit (hd_nBits (header block)) 23 = false ->
  exists proof, GetBlockProof (hd_nBits (header block)) = Ok proof /\ limbs_ok 8 proof /\ bu_val proof = 2 ^ 256 / (compact_value (hd_nBits (header block)) + 1) /\ 0 < bu_val proof.
Proof.
  intros Hb Hc Ht. destruct (GetBlockProof_is_work _ Hb) as (w & E & Hok & Ev). rewrite Ht, (proj2 (Z.ltb_lt 0 _)), (proj2 (Z.ltb_lt _ (2 ^ 256))) in Ev by lia. cbn [andb negb] in Ev.
  exists w. split_and!; [done..|]. rewrite Ev. apply Z.div_str_pos. lia.
Qed.

Lemma AddToBlockIndex_keeps block n p n' : good n -> admissible block n -> (mapBlockIndex n !! GetBlockHash block = None -> is_Some (mapBlockIndex n !! hashPrevBlock (header block))) ->
  AddToBlockIndex block n = Ok (p, n') -> enlarges n n' /\ mapBlockIndex n' !! GetBlockHash block = Some p.
Proof.
  intros Hg [Hfresh _ (Hbits & Hcv & Hsign) Hpar] Hprev. unfold AddToBlockIndex. destruct (mapBlockIndex n !! GetBlockHash block) as [p0|] eqn:Eix.
  { intros [= <- <-]. split; [by apply follows_enlarges; split|done]. }
  destruct (Hprev eq_refl) as [q Hq]. clear Hprev. pose proof Hg as (Hi & Hl & _). destruct (proj1 (li_index n Hl _ q) Hq) as (bq & Hbq & Ehq).
  destruct (Hfresh (blocks n)) as [Hp Eh]; [done|]. destruct (Hpar q bq Hq Hbq) as [Hh Hw].
  set (p1 := new_entry (blocks n)) in *. set (hash := GetBlockHash block) in *. cbn zeta. cbn [mapBlockIndex with_index].
  rewrite lookup_insert_ne by congruence. rewrite Hq. cbn [mapBlockIndex with_index].
  destruct (link_parent _ _ _ _ _) as [st| | |] eqn:El; cbn [mbind outcome_bind]; [|done..].
  apply (link_parent_spec block n p1 q bq hash st Hg Hp Hbq Hh) in El as (s & f & m & -> & Hok).
  set (b3 := set_stake _ f m) in *. cbn [deref]. rewrite lookup_insert_eq. cbn [mbind outcome_bind]. change (Chain.nBits b3) with (hd_nBits (header block)).
  destruct (header_work block Hbits Hcv Hsign) as (proof & -> & Hlim & Ev & Hpos). cbn [mbind outcome_bind]. change (pprev b3) with (Some q). cbn [deref].
  rewrite lookup_insert_ne, Hbq by congruence. cbn [mbind outcome_bind].
  destruct (RaiseValidity_spec (set_work b3 (bu_add (nChainWork bq) proof)) BLOCK_VALID_TREE) as (s' & c & -> & Hs'); [done|]. cbn [mbind outcome_bind fst].
  set (b5 := set_nStatus (set_work b3 (bu_add (nChainWork bq) proof)) s'). rewrite insert_insert_eq.
  destruct (match pindexBestHeader _ with None => _ | Some _ => _ end) as [best| | |]; cbn [mbind outcome_bind]; [|done..]. intros [= <- <-].
  assert (Hlq : limbs_ok 8 (nChainWork bq)) by by eapply inv_limbs; [apply Hi|].
  destruct (bu_add_spec 8 _ _ Hlq Hlim) as [Hl5 Ew]. unfold work in Hw. change (32 * Z.of_nat 8) with 256 in Ew.
  pose proof (bu_val_range _ (proj2 Hlq)). rewrite Z.mod_small in Ew by lia.
  assert (Hab : above q bq hash b5). { split; try done. unfold work. change (nChainWork b5) with (bu_add (nChainWork bq) proof). lia. }
  set (n' := with_dirty _ p1).
  assert (Eb : blocks n' = <[p1 := b5]> (blocks n)) by by unfold n'; destruct best.
  split.
  - split.
    + apply (new_entry_keeps n n' p1 q bq b5 hash); try done; [|by unfold n'; destruct best..].
      rewrite Eb. apply (tree_ok_placed (<[p1 := b3]> (blocks n))); [|done]. intros r. destruct (decide (r = p1)) as [->|Hr]; [by rewrite !lookup_insert_eq|by rewrite !lookup_insert_ne].
    + intros t v. unfold room. rewrite Eb, !sum_total_insert by done. change (nTx b5) with 0. change (shielded b5) with 0. by rewrite !Z.add_0_l.
    + intros r x Hx. exists x. split; [|done]. rewrite Eb. rewrite lookup_insert_ne by congruence. done.
  - unfold n'. destruct best; apply lookup_insert_eq.
Qed.

Lemma check_block_node block st m r m' : check_block block st m = Ok (r, m') -> m_node m' = m_node m /\ m_files m' = m_files m.
Proof. unfold check_block. cbn zeta. destruct (checked_by _); cbn [mbind outcome_bind]; [|done..]. by intros [= _ <-]. Qed.

Lemma AcceptBlockHeader_keeps block st prev n r n' : good n -> admissible block n -> prev = None \/ prev = parent_of block n ->
  AcceptBlockHeader block st prev n = Ok (r, n') -> enlarges n n' /\ match r with inl p => mapBlockIndex n' !! GetBlockHash block = Some p | inr _ => True end.
Proof.
  intros Hg Ha Hprev. unfold AcceptBlockHeader. destruct (mapBlockIndex n !! GetBlockHash block) as [p|] eqn:Eix.
  { pose proof Hg as (_ & Hl & _). destruct (proj1 (li_index n Hl _ p) Eix) as (b & Hb & _). cbn [deref]. rewrite Hb. cbn [mbind outcome_bind]. intros [= <- <-].
    split; [by apply follows_enlarges; split|]. by destruct (_ =? 0). }
  assert (Hne : GetBlockHash block <> hashGenesisBlock consensus). { intros E. destruct (ad_genesis _ _ Ha) as [g Hgen]. congruence. }
  assert (Hpo : parent_of block n = mapBlockIndex n !! hashPrevBlock (header block)) by (unfold parent_of; by rewrite bool_decide_eq_false_2).
  assert (exists r1 n1, match prev with Some _ => Ok (inl prev, n) | None => GetPrevIndex block st n end = Ok (r1, n1) /\ follows n n1 /\
    match r1 with inl q => is_Some q /\ q = mapBlockIndex n !! hashPrevBlock (header block) | inr _ => True end) as (r1 & n1 & -> & F & Hr1).
  { destruct prev as [q|].
    - destruct Hprev as [?|Hq]; [done|]. exists (inl (Some q)), n. split_and!; [done|by split|by eexists|congruence].
    - destruct (GetPrevIndex_spec block st n Hg) as (r1 & n1 & -> & F & Hr1). exists r1, n1. split_and!; [done|done|]. destruct r1 as [q|]; [|done].
      destruct Hr1 as [-> Hnone]. split; [|done]. destruct (parent_of block n); [by eexists|]. by destruct Hne; apply Hnone. }
  cbn [mbind outcome_bind]. destruct r1 as [q|st']; [|intros [= <- <-]; split; [by apply follows_enlarges|done]].
  destruct (checked_by _) as [[]| | |]; cbn [mbind outcome_bind]; [| |done..]; [|intros [= <- <-]; split; [by apply follows_enlarges|done]].
  destruct (AddToBlockIndex block n1) as [[p n2]| | |] eqn:E; cbn [mbind outcome_bind]; [|done..]. intros [= <- <-]. cbn [fst snd].
  destruct Hr1 as [Hs Eq]. destruct (AddToBlockIndex_keeps block n1 p n2) as [En Eh]; [apply F|by eapply admissible_follows|intros _; by rewrite (fo_index _ _ F), <- Eq|done|].
  split; [|done]. eapply enlarges_trans; [by apply follows_enlarges|done].
Qed.

Lemma mark_failed_follows n p : good n -> follows n (with_dirty (set_status n p (fun s => Z.lor s BLOCK_FAILED_VALID)) p).
Proof.
  intros (Hi & Hl & tip & Ht). set (n1 := set_status n p _). assert (X : extends start n (with_dirty n1 p)).
  { transitivity n1; [by apply set_status_extends|by apply extends_side]. }
  split; [split_and!|by eapply extends_base|done].
  - apply (node_inv_extends start genesis block_hash n _ X); [|exact Hi]. intros q Hq. apply (some_extends start _ _ q X). by apply (node_invalid _ _ n Hi).
  - by eapply link_inv_extends.
  - exists tip. by apply (at_tip_blocks start n); [apply X|..].
Qed.

Lemma check_in_context_keeps block p st m r m' : good (m_node m) -> check_in_context block p st m = Ok (r, m') -> follows (m_node m) (m_node m').
Proof.
  intros Hg. unfold check_in_context. destruct (deref _ _) as [b| | |]; cbn [mbind outcome_bind]; [|done..].
  destruct (nHeight b <=? 100000); [intros [= _ <-]; by split|].
  destruct (check_block block st m) as [[r1 m1]| | |] eqn:Ec; cbn [mbind outcome_bind]; [|done..]. apply check_block_node in Ec as [En _].
  destruct (match r1 with inl _ => _ | inr _ => _ end) as [r2| | |]; cbn [mbind outcome_bind]; [|done..].
  assert (F : follows (m_node m) (m_node m1)) by (rewrite En; by split).
  destruct r2 as [st2|st2]; [intros [= _ <-]; done|]. destruct (IsInvalid st2 && _); intros [= _ <-]; [|done].
  cbn [m_node at_node]. rewrite En. by apply mark_failed_follows.
Qed.

(** The data of the block fits. *)
Definition fits (block : CBlock) (n : node) : Prop :=
  vtx block <> [] /\ forall v, sapling_value (vtx block) = Ok v -> room (blocks n) (zlen (vtx block)) v.

(** Only [p] may gain data. *)
Definition data_of (n : node) (p : positive) : Prop := exists b, blocks n !! p = Some b /\ Z.land (nStatus b) BLOCK_HAVE_DATA <> 0.

Lemma data_of_base n n' p : (forall q b, blocks n !! q = Some b -> exists b', blocks n' !! q = Some b' /\ base b' = base b) -> data_of n p -> data_of n' p.
Proof.
  intros K (b & Hb & Hd). destruct (K p b Hb) as (b' & Hb' & [= _ _ _ _ _ _ _ E]). exists b'. split; [done|]. rewrite <- Z.eqb_neq in *. congruence.
Qed.

Lemma store_block_keeps block dbp p st m r m' : good (m_node m) -> fits block (m_node m) -> ~ data_of (m_node m) p ->
  store_block block dbp p st m = Ok (r, m') -> good (m_node m') /\ mapBlockIndex (m_node m') = mapBlockIndex (m_node m) /\
    match r with inl q => q = p /\ data_of (m_node m') p | inr _ => m_node m' = m_node m end.
Proof.
  intros Hg [Hne Hroom] Hno. pose proof Hg as (Hi & Hl & tip & Ht). unfold store_block. cbn [deref]. destruct (blocks (m_node m) !! p) as [b|] eqn:Hb; cbn [mbind outcome_bind]; [|done..].
  destruct (FindBlockPos _ _ _ _ _ _ _) as [[r1 fs]| | |]; cbn [mbind outcome_bind]; [|done..]. destruct r1 as [pos|st1]; [|intros [= <- <-]; by split_and!].
  destruct (if bool_decide _ then _ else _) as [blockPos|]; [|intros [= <- <-]; by split_and!]. cbn [m_node].
  destruct (ReceivedBlockTransactions block p blockPos.1 blockPos.2 (m_node m)) as [n1| | |] eqn:Er; cbn [mbind outcome_bind]; [|done..]. intros [= <- <-].
  assert (exists v, sapling_value (vtx block) = Ok v) as [v Hv].
  { revert Er. unfold ReceivedBlockTransactions. destruct (deref _ _); cbn [mbind outcome_bind]; [|done..]. destruct (sapling_value _); [by eexists|done..]. }
  destruct (ReceivedBlockTransactions_spec start genesis block_hash block p blockPos.1 blockPos.2 (m_node m) tip b v Hi Hl Ht Hb) as (n' & E & Hi' & Hl' & Ht' & A).
  - destruct (Z.eq_dec (Z.land (nStatus b) BLOCK_HAVE_DATA) 0); [done|]. destruct Hno. by exists b.
  - destruct (vtx block); [done|]. cbn. lia.
  - done.
  - by apply Hroom.
  - assert (n' = n1) as -> by congruence. cbn [m_node at_node]. split_and!; [split_and!; [done|done|by exists tip]|apply A|done|].
    destruct (ar_data _ _ _ _ _ A) as (b' & Hb' & [_ Hd]). by exists b'.
Qed.

(** ** Accepting a block *)

Notation CheckProofOfStake n := (Kernel.CheckProofOfStake consensus (mapBlockIndex n) (blocks n) (chainActive n) GetTransaction zdev_stake
  generichash stray CheckLowS g_IsV6Active Verify).

(** What stands behind a block that is accepted, at a node [n]. *)
Definition backed (block : CBlock) (n : node) : Prop :=
  GetBlockHash block <> hashGenesisBlock consensus -> exists q, mapBlockIndex n !! hashPrevBlock (header block) = Some q /\
    CheckWork chainparams (blocks n) block (Some q) = Ok true /\ (Block.IsProofOfStake block = true -> CheckProofOfStake n block q = Ok tt).

Lemma AcceptBlock_keeps block dbp st m r m' : good (m_node m) -> admissible block (m_node m) -> fits block (m_node m) ->
  AcceptBlock block dbp st m = Ok (r, m') -> good (m_node m') /\
  match r with
  | inl p => mapBlockIndex (m_node m') !! GetBlockHash block = Some p /\ data_of (m_node m') p /\ exists n1, follows (m_node m) n1 /\ backed block n1
  | inr _ => True
  end.
Proof.
  intros Hg Ha Hfit. unfold AcceptBlock. destruct (GetPrevIndex_spec block st (m_node m) Hg) as (r0 & n1 & -> & F1 & Hprev). cbn [mbind outcome_bind].
  destruct r0 as [prev|st0]; [|intros [= <- <-]; by split; [apply F1|]]. destruct Hprev as [Hprev Hnone]. cbn zeta. cbn [m_node at_node].
  destruct (if bool_decide _ then _ else _) as [work| | |] eqn:Ework; cbn [mbind outcome_bind]; [|done..].
  destruct (negb _) eqn:Ew; [intros [= <- <-]; by split; [apply F1|]|]. destruct work as [[]|]; try done. clear Ew.
  destruct (if Block.IsProofOfStake block then _ else _) as [stakes| | |] eqn:Est; cbn [mbind outcome_bind]; [|done..].
  destruct stakes as [[]| | |]; [|intros [= <- <-]; by split; [apply F1|]|done..].
  assert (Hback : backed block n1).
  { intros Hne. rewrite bool_decide_eq_false_2 in Ework by done. destruct prev as [q|]; [|by destruct Hne; apply Hnone]. exists q.
    split_and!.
    - rewrite (fo_index _ _ F1). unfold parent_of in Hprev. by rewrite bool_decide_eq_false_2 in Hprev by done.
    - revert Ework. unfold checked_by. destruct (CheckWork _ _ _ _) as [ok| | |]; by intros [= ->].
    - intros Hp. rewrite Hp in Est. by injection Est. }
  clear Ework Est. pose proof (admissible_follows _ _ _ F1 Ha) as Ha1.
  destruct (AcceptBlockHeader block st prev n1) as [[r2 n2]| | |] eqn:Eh; cbn [mbind outcome_bind]; [|done..].
  apply AcceptBlockHeader_keeps in Eh as [En Hr2]; [|apply F1|done|right; rewrite Hprev; unfold parent_of; by rewrite (fo_index _ _ F1)].
  destruct r2 as [p|st2]; [|intros [= <- <-]; by split; [apply En|]]. cbn zeta. cbn [m_node at_node].
  destruct (deref (blocks n2) (Some p)) as [b| | |] eqn:Hb; cbn [mbind outcome_bind]; [|done..]. cbn [deref] in Hb. destruct (blocks n2 !! p) as [b'|] eqn:Hbp; [|done]. injection Hb as ->.
  destruct (Z.land (nStatus b) BLOCK_HAVE_DATA =? 0) eqn:Ed; cbn [negb].
  2: { intros [= <- <-]. cbn [m_node at_node]. split; [apply En|]. split_and!; [done|exists b; split; [done|by apply Z.eqb_neq]|by exists n1]. }
  apply Z.eqb_eq in Ed.
  destruct (check_in_context block p st (at_node (at_node m n1) n2)) as [[r3 m3]| | |] eqn:Ec; cbn [mbind outcome_bind]; [|done..].
  apply check_in_context_keeps in Ec; [|apply En]. cbn [m_node at_node] in Ec.
  destruct r3 as [st3|st3]; [|intros [= <- <-]; by split; [apply Ec|]].
  destruct (if Block.IsProofOfStake block then _ else _) as [r4| | |]; cbn [mbind outcome_bind]; [|done..].
  destruct r4 as [[]|]; [|intros [= <- <-]; by split; [apply Ec|]]. intros E.
  assert (E3 : enlarges (m_node m) (m_node m3)).
  { eapply enlarges_trans; [by apply follows_enlarges|]. eapply enlarges_trans; [exact En|by apply follows_enlarges]. }
  apply store_block_keeps in E as (Hg' & Ei & Hr).
  - split; [done|]. destruct r as [q|]; [|done]. destruct Hr as [-> Hd]. split_and!; [rewrite Ei, (fo_index _ _ Ec); done|done|by exists n1].
  - apply E3.
  - destruct Hfit as [Hv Hroom]. split; [done|]. intros v Hsv. by apply E3, Hroom.
  - intros (x & Hx & Hd). destruct (base_lookup _ _ p x (symmetry (fo_base _ _ Ec)) Hx) as (y & Hy & [= _ _ _ _ _ _ _ Eq]).
    assert (y = b) as -> by congruence. rewrite Ed in Eq. by rewrite Z.eqb_refl in Eq; symmetry in Eq; apply Z.eqb_eq in Eq.
Qed.

Lemma check_block_backed block st m r m' : m_fChecked m = false -> check_block block st m = Ok (inl r, m') ->
  work_rule chainparams GetBlockHash block /\ merkle_rule block /\ vtx block <> [].
Proof.
  intros Hf. unfold check_block. cbn zeta. rewrite Hf. destruct (c_result _) as [st'| | |] eqn:Ec; cbn [checked_by mbind outcome_bind]; [|done..]. intros _.
  by eapply CheckBlock_backed.
Qed.

Lemma ProcessNewBlock_keeps block dbp st m r m' : good (m_node m) -> admissible block (m_node m) -> m_fChecked m = false ->
  (forall v, sapling_value (vtx block) = Ok v -> room (blocks (m_node m)) (zlen (vtx block)) v) ->
  ProcessNewBlock block dbp st m = Ok (r, m') -> good (m_node m') /\
  match r with
  | inl ok => (exists p, mapBlockIndex (m_node m') !! GetBlockHash block = Some p /\ data_of (m_node m') p) /\
      (ok = true -> exists tip, at_tip (m_node m') tip /\ forall c, c ∈ setBlockIndexCandidates (m_node m') -> worse (blocks (m_node m')) tip c = false) /\
      work_rule chainparams GetBlockHash block /\ merkle_rule block /\ exists n1, follows (m_node m) n1 /\ backed block n1
  | inr _ => True
  end.
Proof.
  intros Hg Ha Hf Hroom. unfold ProcessNewBlock. destruct (check_block block st m) as [[r1 m1]| | |] eqn:Ec; cbn [mbind outcome_bind]; [|done..].
  pose proof (check_block_node _ _ _ _ _ Ec) as [En _]. destruct r1 as [st1|st1]; [|intros [= <- <-]; by rewrite En].
  apply check_block_backed in Ec as (Hw & Hm & Hne); [|done].
  destruct (AcceptBlock block dbp st1 m1) as [[r2 m2]| | |] eqn:Eac; cbn [mbind outcome_bind]; [|done..].
  apply AcceptBlock_keeps in Eac as [Hg2 Hr2]; [|by rewrite En..|rewrite En; by split]. rewrite En in Hr2.
  destruct r2 as [p|st2]; [|intros [= <- <-]; by split]. destruct Hr2 as (Hix & Hd & Hb).
  destruct (activate_follows (activation_fuel (m_node m2)) (m_node m2) Hg2) as ([ok n3] & -> & F & Hbest); [done|]. cbn [mbind outcome_bind fst snd]. intros [= <- <-].
  cbn [m_node at_node]. split; [apply F|]. split_and!; [|exact Hbest|done..].
  exists p. split; [exact (eq_trans (f_equal (lookup _) (fo_index _ _ F)) Hix)|]. eapply data_of_base; [|exact Hd]. intros q x Hx. apply (base_lookup _ _ q x (fo_base _ _ F) Hx).
Qed.

(** C3: a block that arrives leaves the node well formed.  Let the tree, the
    active chain with its coins, the index and the counts of transactions satisfy
    their invariants, let the block not have been checked before and its bits stand
    for a positive target below 2^256, and let neither a height, nor the work, nor
    the counts wrap.
    When [ProcessNewBlock] returns, they satisfy them again, whatever it
    answers: when the block is refused by one of the checks, when it is a
    duplicate, when it was added to the index or marked as invalid, and when it
    was stored, linked with what waited for it, and the best chain was activated.
    A block that is not refused is in the index with its data; and when the best
    chain was activated without a system error, no candidate is better than the
    tip. *)
Theorem ProcessNewBlock_well_formed (block : CBlock) (dbp : option (Z * Z)) (st : CValidationState) (m m' : manager (C := C)) (r : bool + CValidationState) :
  good (m_node m) -> admissible block (m_node m) -> m_fChecked m = false ->
  (forall v, sapling_value (vtx block) = Ok v -> room (blocks (m_node m)) (zlen (vtx block)) v) ->
  ProcessNewBlock block dbp st m = Ok (r, m') ->
  good (m_node m') /\
  match r with
  | inl ok => (exists p, mapBlockIndex (m_node m') !! GetBlockHash block = Some p /\ data_of (m_node m') p) /\
      (ok = true -> exists tip, at_tip (m_node m') tip /\ forall c, c ∈ setBlockIndexCandidates (m_node m') -> worse (blocks (m_node m')) tip c = false)
  | inr _ => True
  end.
Proof.
  intros Hg Ha Hf Hr E. destruct (ProcessNewBlock_keeps block dbp st m r m' Hg Ha Hf Hr E) as [H1 H2]. split; [done|]. by destruct r; [destruct H2 as (? & ? & _)|].
Qed.


End NewBlocks.

(** ** An example

    Block 7 arrives at the node of [Toy], on a network whose genesis block is
    block 1, and becomes the tip. *)
Module Arrival.
Import Toy.
Definition params : CChainParams := {| strNetworkID := "regtest"; consensus := {|
  hashGenesisBlock := toy_hash 1; powLimit := powLimit mainParams; posLimitV1 := posLimitV1 mainParams; posLimitV2 := posLimitV2 mainParams;
  nBudgetCycleBlocks := 144; nBudgetFeeConfirmations := 3; nCoinbaseMaturity := 100; nFutureTimeDriftPoW := 7200; nFutureTimeDriftPoS := 180;
  nMasternodeCountDrift := 4; nMaxMoneyOut := nMaxMoneyOut mainParams; nProposalEstablishmentTime := 300; nStakeMinAge := 0; nStakeMinDepth := 2;
  nTargetTimespan := 2400; nTargetTimespanV2 := 1800; nTargetSpacing := 60; nTimeSlotLength := 15; nMaxProposalPayments := 20;
  height_last_invalid_UTXO := -1; height_last_ZC_AccumCheckpoint := 310; ZC_MaxPublicSpendsPerTx := 637; ZC_MaxSpendsPerTx := 7;
  height_last_ZC_WrappedSerials := -1; nDeviantBadBlockTime := None; ZC_TimeStart := ZC_TimeStart mainParams; vUpgrades idx := if decide (idx = BASE_NETWORK) then 0 else 1000 |} |}.
#[export] Instance arrival : Environment (list positive) := {|
  chainparams := params; GetBlockHash _ := toy_hash 7; literal := 0; new_entry _ := 7%positive; checkpoints := []; fCheckpointsEnabled := false; maxreorg := 100;
  GetTime := 1600000000; GetAdjustedTime := 1600000000; IsInitialBlockDownload := true; g_IsV6Active := true; nMoneySupply := 0; IsSynced := false;
  spork_superblocks := false; spork_coldstaking_maintenance := false; IsBudgetPaymentBlock _ := false; IsBlockPayeeValid _ _ := Ok true;
  GetTransaction _ := None; CheckZerocoinSpend _ _ st _ := (true, st); ContextualCheckTx _ _ _ _ _ := Ok tt; CheckSignature _ := Ok true;
  generichash _ _ := []; stray := 0; CheckLowS _ := true; Verify _ _ _ := false; zdev_stake _ := None; spend_serial _ _ _ st := Err st; serial_height _ := None;
  ContextualCheckZerocoinSpendNoSerialCheck _ _ _ := true; ContextualCheckZerocoinSpend _ _ _ := true; coin_spent _ _ := false;
  ReadBlockFromDisk _ := None; CheckDiskSpace _ := true; WriteFile _ _ := true
|}.
Definition block_7 : CBlock := Block (BlockHeader 3 (toy_hash 3) (Transaction.GetHash sample_coinbase) 1600000000 0x1e0ffff0 0 UINT256_ZERO UINT256_ZERO) [sample_coinbase] [].
Definition manager_0 : manager (C := list positive) := Manager start_node (BlockFiles [] 0 ∅) ∅ false.
Definition processed : option ((bool + CValidationState) * manager (C := list positive)) :=
  match ProcessNewBlock block_7 None CValidationState_new manager_0 with Ok r => Some r | _ => None end.
End Arrival.
Import Toy Arrival.

Lemma arrives : exists m', ProcessNewBlock block_7 None CValidationState_new manager_0 = Ok (inl true, m') /\ pcoinsTip (m_node m') = [7; 3; 2; 1]%positive.
Proof.
  assert (match ProcessNewBlock block_7 None CValidationState_new manager_0 with Ok (inl true, m') => pcoinsTip (m_node m') = [7; 3; 2; 1]%positive | _ => False end) as H
    by (vm_compute; reflexivity).
  destruct (ProcessNewBlock _ _ _ _) as [[[[]|] m']| | |]; try done. by exists m'.
Qed.
Lemma start_good : good [] 1 toy_hash start_node.
Proof.
  split_and!; [exact start_inv| |exists 3%positive; exact start_tip].
  apply Waiting.link_inv_check; [refine (bool_decide_unpack _ _); vm_compute; exact I|refine (bool_decide_unpack _ _); vm_compute; exact I|done].
Qed.
Lemma block_7_admissible : admissible toy_hash block_7 start_node.
Proof.
  split.
  - intros st K. split; [|done]. specialize (K 7%positive). assert (blocks start_node !! 7%positive = None) as E by (vm_compute; reflexivity). rewrite E in K. cbn in K.
    change (st !! 7%positive = None). by destruct (st !! 7%positive).
  - exists 1%positive. vm_compute. reflexivity.
  - split_and!; vm_compute; by split || done.
  - intros q bq Hq Hbq. assert (mapBlockIndex start_node !! hashPrevBlock (header block_7) = Some 3%positive) as E by (vm_compute; reflexivity).
    assert (q = 3%positive) as -> by congruence. assert (work <$> blocks start_node !! 3%positive = Some 30) as Ew by (vm_compute; reflexivity).
    assert (nHeight <$> blocks start_node !! 3%positive = Some 2) as Eh by (vm_compute; reflexivity). rewrite Hbq in Ew, Eh. cbn in Ew, Eh. injection Ew as ->. injection Eh as ->.
    split; vm_compute; reflexivity.
Qed.
Lemma block_7_room v : sapling_value (vtx block_7) = Ok v -> room (blocks start_node) (zlen (vtx block_7)) v.
Proof. assert (sapling_value (vtx block_7) = Ok 0) as E by (vm_compute; reflexivity). rewrite E. intros [= <-]. split; vm_compute; reflexivity. Qed.

Lemma ProcessNewBlock_well_formed_witness :
  exists m', ProcessNewBlock block_7 None CValidationState_new manager_0 = Ok (inl true, m') /\ good [] 1 toy_hash (m_node m') /\
    (exists p, mapBlockIndex (m_node m') !! toy_hash 7 = Some p /\ data_of (m_node m') p) /\
    (true = true -> exists tip, at_tip [] (m_node m') tip /\ forall c, c ∈ setBlockIndexCandidates (m_node m') -> worse (blocks (m_node m')) tip c = false).
Proof.
  destruct arrives as (m' & E & _). exists m'. split; [exact E|].
  exact (ProcessNewBlock_well_formed [] 1 toy_hash block_7 None CValidationState_new manager_0 m' (inl true) start_good block_7_admissible eq_refl block_7_room E).
Defined.

