(* ===== verification/Mempool.v ===== *)
(** * The memory pool: txmempool.h and txmempool.cpp

    [CTxMemPool] with its links between parents and children, the outpoints and
    nullifiers its transactions spend, and the counters that every entry keeps of
    its ancestors and descendants.  An iterator into [mapTx] is the hash of the
    transaction it points to, and reading through one that is not there is
    undefined.  A set of iterators is iterated in the order of the hashes.

    Left out: the fee estimator, the rolling minimum fee and [TrimToSize], the
    priorities, which compute with doubles, and the signals to listeners. *)
From stdpp Require Import sorting fin_sets.
From S2P Require Import Prelude Serialize HashStream Sha256 Hash Script Interpreter Standard Transaction Undo Coins TxVerify Indexes.

Notation pool_op := (outcome unit).
Notation setEntries := (gset uint256) (only parsing).

(** ** Loops *)

(** [for (a : l) body]. *)
Fixpoint for_each {A S} (f : A -> S -> pool_op S) (l : list A) (s : S) : pool_op S :=
  match l with
  | [] => Ok s
  | a :: l => s ← f a s; for_each f l s
  end.

(** [CompareIteratorByHash]. *)
Definition by_hash (a b : uint256) : Prop := blob_lt b a = false.
#[export] Instance by_hash_dec a b : Decision (by_hash a b).
Proof. unfold by_hash. apply _. Defined.
Definition in_order (s : setEntries) : list uint256 := merge_sort by_hash (elements s).

(** ** Entries *)

Record CTxMemPoolEntry := Entry {
  e_tx : CTransaction;
  nFee : CAmount;
  nTxSize : Z;
  nModSize : Z;
  nUsageSize : Z;
  hasZerocoins : bool;
  m_isShielded : bool;
  entryTime : Z;
  entryHeight : Z;
  hadNoDependencies : bool;
  inChainInputValue : CAmount;
  spendsCoinbaseOrCoinstake : bool;
  sigOpCount : Z;
  feeDelta : Z;
  nCountWithDescendants : Z;
  nSizeWithDescendants : Z;
  nModFeesWithDescendants : CAmount;
  nCountWithAncestors : Z;
  nSizeWithAncestors : Z;
  nModFeesWithAncestors : CAmount;
  nSigOpCountWithAncestors : Z;
}.

Definition with_delta (e : CTxMemPoolEntry) (delta desc anc : Z) : CTxMemPoolEntry :=
  Entry (e_tx e) (nFee e) (nTxSize e) (nModSize e) (nUsageSize e) (hasZerocoins e) (m_isShielded e) (entryTime e) (entryHeight e)
    (hadNoDependencies e) (inChainInputValue e) (spendsCoinbaseOrCoinstake e) (sigOpCount e) delta
    (nCountWithDescendants e) (nSizeWithDescendants e) desc
    (nCountWithAncestors e) (nSizeWithAncestors e) anc (nSigOpCountWithAncestors e).
Definition with_descendants (e : CTxMemPoolEntry) (count size fees : Z) : CTxMemPoolEntry :=
  Entry (e_tx e) (nFee e) (nTxSize e) (nModSize e) (nUsageSize e) (hasZerocoins e) (m_isShielded e) (entryTime e) (entryHeight e)
    (hadNoDependencies e) (inChainInputValue e) (spendsCoinbaseOrCoinstake e) (sigOpCount e) (feeDelta e)
    count size fees
    (nCountWithAncestors e) (nSizeWithAncestors e) (nModFeesWithAncestors e) (nSigOpCountWithAncestors e).
Definition with_ancestors (e : CTxMemPoolEntry) (count size fees sigops : Z) : CTxMemPoolEntry :=
  Entry (e_tx e) (nFee e) (nTxSize e) (nModSize e) (nUsageSize e) (hasZerocoins e) (m_isShielded e) (entryTime e) (entryHeight e)
    (hadNoDependencies e) (inChainInputValue e) (spendsCoinbaseOrCoinstake e) (sigOpCount e) (feeDelta e)
    (nCountWithDescendants e) (nSizeWithDescendants e) (nModFeesWithDescendants e)
    count size fees sigops.

(** The constructor; [usage] is the dynamic memory of the transaction. *)
Definition CTxMemPoolEntry_new (tx : CTransaction) (fee time height : Z) (poolHasNoInputsOf : bool) (inChain : CAmount) (spendsCoinbase : bool) (sigOps usage : Z)
    : pool_op CTxMemPoolEntry :=
  let size := zlen (SerializeTransaction tx) in
  out ← GetValueOut tx;
  nValueIn ← int64_result (out + fee);
  cassert (inChain <=? nValueIn);;
  Ok (Entry tx fee size (CalculateModifiedSize tx (u32 size)) usage (ContainsZerocoins tx) (IsShieldedTx tx) time height
        poolHasNoInputsOf inChain spendsCoinbase sigOps 0 1 size fee 1 size fee sigOps).

Definition e_hash (e : CTxMemPoolEntry) : uint256 := GetHash (e_tx e).
Definition GetModifiedFee (e : CTxMemPoolEntry) : pool_op CAmount := int64_result (nFee e + feeDelta e).

Definition UpdateFeeDelta (newFeeDelta : Z) (e : CTxMemPoolEntry) : pool_op CTxMemPoolEntry :=
  d ← int64_result (newFeeDelta - feeDelta e);
  desc ← int64_result (nModFeesWithDescendants e + d);
  anc ← int64_result (nModFeesWithAncestors e + d);
  Ok (with_delta e newFeeDelta desc anc).

Definition UpdateDescendantState (modifySize modifyFee modifyCount : Z) (e : CTxMemPoolEntry) : pool_op CTxMemPoolEntry :=
  let size := u64 (nSizeWithDescendants e + modifySize) in
  cassert (0 <? i64 size);;
  fees ← int64_result (nModFeesWithDescendants e + modifyFee);
  let count := u64 (nCountWithDescendants e + modifyCount) in
  cassert (0 <? i64 count);;
  Ok (with_descendants e count size fees).

Definition UpdateAncestorState (modifySize modifyFee modifyCount modifySigOps : Z) (e : CTxMemPoolEntry) : pool_op CTxMemPoolEntry :=
  let size := u64 (nSizeWithAncestors e + modifySize) in
  cassert (0 <? i64 size);;
  fees ← int64_result (nModFeesWithAncestors e + modifyFee);
  let count := u64 (nCountWithAncestors e + modifyCount) in
  cassert (0 <? i64 count);;
  let sigops := u32 (nSigOpCountWithAncestors e + modifySigOps) in
  cassert (0 <=? i32 sigops);;
  Ok (with_ancestors e count size fees sigops).

(** ** The pool *)

Record TxLinks := Links { parents : setEntries; children : setEntries }.

Record CMempoolAddressDeltaKey := AddressDeltaKey { d_type : Z; d_addressBytes : list Z; d_txhash : uint256; d_index : Z; d_spending : Z }.
Record CMempoolAddressDelta := AddressDelta { d_time : Z; d_amount : CAmount; d_prevhash : uint256; d_prevout : Z }.

#[export] Instance CMempoolAddressDeltaKey_eq_dec : EqDecision CMempoolAddressDeltaKey.
Proof. solve_decision. Defined.
#[export] Instance CMempoolAddressDeltaKey_countable : Countable CMempoolAddressDeltaKey.
Proof.
  apply (inj_countable' (fun k => (d_type k, d_addressBytes k, d_txhash k, d_index k, d_spending k))
    (fun '(t, a, h, i, s) => AddressDeltaKey t a h i s)). by intros [].
Defined.

(** The address and spent indexes of the pool, with what each transaction put
    into them. *)
Record pool_indexes := PoolIndexes {
  mapAddress : gmap CMempoolAddressDeltaKey CMempoolAddressDelta;
  mapAddressInserted : gmap uint256 (list CMempoolAddressDeltaKey);
  mapSpent : gmap CSpentIndexKey CSpentIndexValue;
  mapSpentInserted : gmap uint256 (list CSpentIndexKey);
}.

(** [mapDeltas] without the deltas of priorities. *)
Record CTxMemPool := Pool {
  mapTx : gmap uint256 CTxMemPoolEntry;
  mapLinks : gmap uint256 TxLinks;
  mapNextTx : gmap COutPoint CTransaction;
  mapDeltas : gmap uint256 CAmount;
  mapSaplingNullifiers : gmap uint256 CTransaction;
  totalTxSize : Z;
  cachedInnerUsage : Z;
  nTransactionsUpdated : Z;
  pool_index : pool_indexes;
}.

Definition with_mapTx (p : CTxMemPool) m := Pool m (mapLinks p) (mapNextTx p) (mapDeltas p) (mapSaplingNullifiers p) (totalTxSize p) (cachedInnerUsage p) (nTransactionsUpdated p) (pool_index p).
Definition with_links (p : CTxMemPool) m usage := Pool (mapTx p) m (mapNextTx p) (mapDeltas p) (mapSaplingNullifiers p) (totalTxSize p) usage (nTransactionsUpdated p) (pool_index p).
Definition with_deltas (p : CTxMemPool) m := Pool (mapTx p) (mapLinks p) (mapNextTx p) m (mapSaplingNullifiers p) (totalTxSize p) (cachedInnerUsage p) (nTransactionsUpdated p) (pool_index p).
Definition with_index (p : CTxMemPool) x := Pool (mapTx p) (mapLinks p) (mapNextTx p) (mapDeltas p) (mapSaplingNullifiers p) (totalTxSize p) (cachedInnerUsage p) (nTransactionsUpdated p) x.

(** [_clear]: what it does not assign stays. *)
Definition clear (p : CTxMemPool) : CTxMemPool :=
  Pool ∅ ∅ ∅ (mapDeltas p) (mapSaplingNullifiers p) 0 0 (u32 (nTransactionsUpdated p + 1)) (pool_index p).
Definition CTxMemPool_new : CTxMemPool :=
  clear (Pool ∅ ∅ ∅ ∅ ∅ 0 0 0 (PoolIndexes ∅ ∅ ∅ ∅)).

Definition exists_tx (p : CTxMemPool) (hash : uint256) : bool := bool_decide (is_Some (mapTx p !! hash)).
Definition exists_output (p : CTxMemPool) (o : COutPoint) : bool :=
  match mapTx p !! out_hash o with Some e => out_n o <? zlen (vout (e_tx e)) | None => false end.
Definition isSpent (p : CTxMemPool) (o : COutPoint) : bool := bool_decide (is_Some (mapNextTx p !! o)).
Definition nullifierExists (p : CTxMemPool) (n : uint256) : bool := bool_decide (is_Some (mapSaplingNullifiers p !! n)).
Definition get (p : CTxMemPool) (hash : uint256) : option CTransaction := e_tx <$> mapTx p !! hash.
Definition HasNoInputsOf (p : CTxMemPool) (tx : CTransaction) : bool :=
  HasZerocoinSpendInputs tx || forallb (fun i => negb (exists_tx p (out_hash (prevout i)))) (vin tx).
Definition AddTransactionsUpdated (n : Z) (p : CTxMemPool) : CTxMemPool :=
  Pool (mapTx p) (mapLinks p) (mapNextTx p) (mapDeltas p) (mapSaplingNullifiers p) (totalTxSize p) (cachedInnerUsage p) (u32 (nTransactionsUpdated p + n)) (pool_index p).

Definition entry_at (p : CTxMemPool) (it : uint256) : pool_op CTxMemPoolEntry :=
  match mapTx p !! it with Some e => Ok e | None => Abort end.
(** [mapTx.modify(it, f)]. *)
Definition modify (it : uint256) (f : CTxMemPoolEntry -> pool_op CTxMemPoolEntry) (p : CTxMemPool) : pool_op CTxMemPool :=
  e ← entry_at p it;
  e ← f e;
  Ok (with_mapTx p (<[it := e]> (mapTx p))).

(** ** Links *)

(** [memusage::MallocUsage] where pointers have 8 bytes, and the size of a node
    of a set of iterators: a color, three pointers and the element. *)
Definition MallocUsage (alloc : Z) : Z := if alloc =? 0 then 0 else Z.shiftl (Z.shiftr (alloc + 31) 4) 4.
Definition IncrementalDynamicUsage : Z := MallocUsage (8 + 3 * 8 + 8).
Definition DynamicUsage (s : setEntries) : Z := u64 (IncrementalDynamicUsage * Z.of_nat (size s)).

Definition no_links : TxLinks := Links ∅ ∅.
Definition links_of (p : CTxMemPool) (it : uint256) : TxLinks := default no_links (mapLinks p !! it).

Definition UpdateChild (entry child : uint256) (add : bool) (p : CTxMemPool) : CTxMemPool :=
  let l := links_of p entry in
  let there := bool_decide (child ∈ children l) in
  let '(set, usage) :=
    if add && negb there then ({[child]} ∪ children l, u64 (cachedInnerUsage p + IncrementalDynamicUsage))
    else if negb add && there then (children l ∖ {[child]}, u64 (cachedInnerUsage p - IncrementalDynamicUsage))
    else (children l, cachedInnerUsage p) in
  with_links p (<[entry := Links (parents l) set]> (mapLinks p)) usage.
Definition UpdateParent (entry parent : uint256) (add : bool) (p : CTxMemPool) : CTxMemPool :=
  let l := links_of p entry in
  let there := bool_decide (parent ∈ parents l) in
  let '(set, usage) :=
    if add && negb there then ({[parent]} ∪ parents l, u64 (cachedInnerUsage p + IncrementalDynamicUsage))
    else if negb add && there then (parents l ∖ {[parent]}, u64 (cachedInnerUsage p - IncrementalDynamicUsage))
    else (parents l, cachedInnerUsage p) in
  with_links p (<[entry := Links set (children l)]> (mapLinks p)) usage.

Definition GetMemPoolParents (p : CTxMemPool) (entry : uint256) : pool_op setEntries :=
  match mapLinks p !! entry with Some l => Ok (parents l) | None => Abort end.
Definition GetMemPoolChildren (p : CTxMemPool) (entry : uint256) : pool_op setEntries :=
  match mapLinks p !! entry with Some l => Ok (children l) | None => Abort end.

(** ** Ancestors and descendants *)

(** What [errString] says. *)
Inductive over_limit := TooManyParents | DescendantSize (tx : uint256) | DescendantCount (tx : uint256) | AncestorSize | TooManyAncestors.
Record limits := Limits { limitAncestorCount : Z; limitAncestorSize : Z; limitDescendantCount : Z; limitDescendantSize : Z }.
Definition nNoLimit : Z := 2 ^ 64 - 1.
Definition no_limits : limits := Limits nNoLimit nNoLimit nNoLimit nNoLimit.

Section Ancestors.
Context (p : CTxMemPool) (lim : limits).

(** The loop over the inputs; what is left of the set when a limit is passed
    is not used. *)
Fixpoint parents_of_inputs (ins : list CTxIn) (parentHashes : setEntries) : setEntries + over_limit :=
  match ins with
  | [] => inl parentHashes
  | i :: ins =>
      if exists_tx p (out_hash (prevout i)) then
        let parentHashes := {[ out_hash (prevout i) ]} ∪ parentHashes in
        if limitAncestorCount lim <? u64 (Z.of_nat (size parentHashes) + 1) then inr TooManyParents else parents_of_inputs ins parentHashes
      else parents_of_inputs ins parentHashes
  end.

(** The parents that were not met before are scheduled. *)
Fixpoint schedule_parents (l : list uint256) (setAncestors parentHashes : setEntries) : setEntries + over_limit :=
  match l with
  | [] => inl parentHashes
  | phash :: l =>
      let parentHashes := if bool_decide (phash ∈ setAncestors) then parentHashes else {[ phash ]} ∪ parentHashes in
      if limitAncestorCount lim <? u64 (Z.of_nat (size parentHashes) + Z.of_nat (size setAncestors) + 1) then inr TooManyAncestors
      else schedule_parents l setAncestors parentHashes
  end.

Fixpoint ancestors_loop (fuel : nat) (entry : CTxMemPoolEntry) (totalSizeWithAncestors : Z) (parentHashes setAncestors : setEntries)
    : pool_op (option over_limit * setEntries) :=
  match in_order parentHashes, fuel with
  | [], _ => Ok (None, setAncestors)
  | _ :: _, O => Abort
  | stageit :: _, S fuel =>
      a ← entry_at p stageit;
      let setAncestors := {[ stageit ]} ∪ setAncestors in
      let parentHashes := parentHashes ∖ {[ stageit ]} in
      let totalSizeWithAncestors := u64 (totalSizeWithAncestors + nTxSize a) in
      if limitDescendantSize lim <? u64 (nSizeWithDescendants a + nTxSize entry) then Ok (Some (DescendantSize stageit), setAncestors)
      else if limitDescendantCount lim <? u64 (nCountWithDescendants a + 1) then Ok (Some (DescendantCount stageit), setAncestors)
      else if limitAncestorSize lim <? totalSizeWithAncestors then Ok (Some AncestorSize, setAncestors)
      else
        setMemPoolParents ← GetMemPoolParents p stageit;
        match schedule_parents (in_order setMemPoolParents) setAncestors parentHashes with
        | inl parentHashes => ancestors_loop fuel entry totalSizeWithAncestors parentHashes setAncestors
        | inr e => Ok (Some e, setAncestors)
        end
  end.

(** Every transaction of the pool enters the set at most once. *)
Definition pool_fuel : nat := S (size (dom (mapTx p))).

(** The answer is true when there is no [over_limit]; every caller starts with
    an empty set. *)
Definition CalculateMemPoolAncestors (entry : CTxMemPoolEntry) (fSearchForParents : bool) : pool_op (option over_limit * setEntries) :=
  start ← (if fSearchForParents then Ok (parents_of_inputs (vin (e_tx entry)) ∅)
           else ps ← GetMemPoolParents p (e_hash entry); Ok (inl ps));
  match start with
  | inl parentHashes => ancestors_loop pool_fuel entry (nTxSize entry) parentHashes ∅
  | inr e => Ok (Some e, ∅)
  end.
End Ancestors.

Section Descendants.
Context (p : CTxMemPool).

Fixpoint descendants_loop (fuel : nat) (stage setDescendants : setEntries) : pool_op setEntries :=
  match in_order stage, fuel with
  | [], _ => Ok setDescendants
  | _ :: _, O => Abort
  | it :: _, S fuel =>
      let setDescendants := {[ it ]} ∪ setDescendants in
      setChildren ← GetMemPoolChildren p it;
      descendants_loop fuel ((stage ∖ {[ it ]}) ∪ (setChildren ∖ setDescendants)) setDescendants
  end.
Definition CalculateDescendants (entryit : uint256) (setDescendants : setEntries) : pool_op setEntries :=
  descendants_loop (pool_fuel p) (if bool_decide (entryit ∈ setDescendants) then ∅ else {[ entryit ]}) setDescendants.
End Descendants.

(** ** Counters *)

Definition UpdateAncestorsOf (add : bool) (it : uint256) (setAncestors : setEntries) (p : CTxMemPool) : pool_op CTxMemPool :=
  parentIters ← GetMemPoolParents p it;
  let p := foldl (fun p piter => UpdateChild piter it add p) p (in_order parentIters) in
  e ← entry_at p it;
  let updateCount := if add then 1 else -1 in
  let updateSize := i64 (updateCount * nTxSize e) in
  fee ← GetModifiedFee e;
  updateFee ← int64_result (updateCount * fee);
  for_each (fun ancestorIt => modify ancestorIt (UpdateDescendantState updateSize updateFee updateCount)) (in_order setAncestors) p.

Definition sum_ancestor (p : CTxMemPool) (ancestorIt : uint256) (s : Z * Z * Z) : pool_op (Z * Z * Z) :=
  let '(updateSize, updateFee, updateSigOps) := s in
  a ← entry_at p ancestorIt;
  fee ← GetModifiedFee a;
  updateFee ← int64_result (updateFee + fee);
  Ok (i64 (updateSize + nTxSize a), updateFee, i32 (updateSigOps + sigOpCount a)).
Definition UpdateEntryForAncestors (it : uint256) (setAncestors : setEntries) (p : CTxMemPool) : pool_op CTxMemPool :=
  let updateCount := Z.of_nat (size setAncestors) in
  s ← for_each (sum_ancestor p) (in_order setAncestors) (0, 0, 0);
  let '(updateSize, updateFee, updateSigOps) := s in
  modify it (UpdateAncestorState updateSize updateFee updateCount updateSigOps) p.

Definition UpdateChildrenForRemoval (it : uint256) (p : CTxMemPool) : pool_op CTxMemPool :=
  setMemPoolChildren ← GetMemPoolChildren p it;
  Ok (foldl (fun p updateIt => UpdateParent updateIt it false p) p (in_order setMemPoolChildren)).

(** The descendants of an entry no longer count it. *)
Definition leave_descendants (removeIt : uint256) (p : CTxMemPool) : pool_op CTxMemPool :=
  setDescendants ← CalculateDescendants p removeIt ∅;
  let setDescendants := setDescendants ∖ {[ removeIt ]} in
  e ← entry_at p removeIt;
  modifySize ← int64_result (- i64 (nTxSize e));
  fee ← GetModifiedFee e;
  modifyFee ← int64_result (- fee);
  let modifySigOps := i32 (- sigOpCount e) in
  for_each (fun dit => modify dit (UpdateAncestorState modifySize modifyFee (-1) modifySigOps)) (in_order setDescendants) p.

(** Its ancestors no longer count it, and their links to it are severed. *)
Definition leave_ancestors (removeIt : uint256) (p : CTxMemPool) : pool_op CTxMemPool :=
  entry ← entry_at p removeIt;
  r ← CalculateMemPoolAncestors p no_limits entry false;
  UpdateAncestorsOf false removeIt r.2 p.

Definition UpdateForRemoveFromMempool (entriesToRemove : setEntries) (updateDescendants : bool) (p : CTxMemPool) : pool_op CTxMemPool :=
  p ← (if updateDescendants then for_each leave_descendants (in_order entriesToRemove) p else Ok p);
  p ← for_each leave_ancestors (in_order entriesToRemove) p;
  for_each UpdateChildrenForRemoval (in_order entriesToRemove) p.

(** ** Adding *)

Definition spent_nullifiers (tx : CTransaction) : list uint256 :=
  if IsShieldedTx tx then match sapData tx with Some d => map nullifier (vShieldedSpend d) | None => [] end else [].

(** [hash] is where the deltas are looked up; the entry goes where its
    transaction says, unless there is one already. *)
Definition addUnchecked_with (hash : uint256) (entry : CTxMemPoolEntry) (setAncestors : setEntries) (p : CTxMemPool) : pool_op CTxMemPool :=
  let newit := e_hash entry in
  let p := with_mapTx p (if exists_tx p newit then mapTx p else <[newit := entry]> (mapTx p)) in
  let p := with_links p (if bool_decide (is_Some (mapLinks p !! newit)) then mapLinks p else <[newit := no_links]> (mapLinks p)) (cachedInnerUsage p) in
  p ← (match mapDeltas p !! hash with
       | Some delta => if delta =? 0 then Ok p else modify newit (UpdateFeeDelta delta) p
       | None => Ok p
       end);
  let p := with_links p (mapLinks p) (u64 (cachedInnerUsage p + nUsageSize entry)) in
  e ← entry_at p newit;
  let tx := e_tx e in
  let inputs := if HasZerocoinSpendInputs tx then [] else map prevout (vin tx) in
  let spent := foldl (fun m o => if bool_decide (is_Some (m !! o)) then m else <[o := tx]> m) (mapNextTx p) inputs in
  let p := Pool (mapTx p) (mapLinks p) spent (mapDeltas p) (mapSaplingNullifiers p) (totalTxSize p) (cachedInnerUsage p) (nTransactionsUpdated p) (pool_index p) in
  let setParentTransactions := list_to_set (map out_hash inputs) : gset uint256 in
  let p := foldl (fun p phash => if exists_tx p phash then UpdateParent newit phash true p else p) p (in_order setParentTransactions) in
  p ← UpdateAncestorsOf true newit setAncestors p;
  p ← UpdateEntryForAncestors newit setAncestors p;
  let nullifiers := foldl (fun m n => <[n := tx]> m) (mapSaplingNullifiers p) (spent_nullifiers tx) in
  Ok (Pool (mapTx p) (mapLinks p) (mapNextTx p) (mapDeltas p) nullifiers (u64 (totalTxSize p + nTxSize entry)) (cachedInnerUsage p)
        (u32 (nTransactionsUpdated p + 1)) (pool_index p)).

Definition addUnchecked (hash : uint256) (entry : CTxMemPoolEntry) (p : CTxMemPool) : pool_op CTxMemPool :=
  r ← CalculateMemPoolAncestors p no_limits entry true;
  addUnchecked_with hash entry r.2 p.

(** ** Removing *)

Definition removeAddressIndex (txhash : uint256) (x : pool_indexes) : pool_indexes :=
  match mapAddressInserted x !! txhash with
  | Some keys => PoolIndexes (foldl (fun m k => delete k m) (mapAddress x) keys) (delete txhash (mapAddressInserted x)) (mapSpent x) (mapSpentInserted x)
  | None => x
  end.
Definition removeSpentIndex (txhash : uint256) (x : pool_indexes) : pool_indexes :=
  match mapSpentInserted x !! txhash with
  | Some keys => PoolIndexes (mapAddress x) (mapAddressInserted x) (foldl (fun m k => delete k m) (mapSpent x) keys) (delete txhash (mapSpentInserted x))
  | None => x
  end.

Definition removeUnchecked (it : uint256) (p : CTxMemPool) : pool_op CTxMemPool :=
  e ← entry_at p it;
  let tx := e_tx e in
  let hash := GetHash tx in
  let l := links_of p it in
  let usage := u64 (u64 (cachedInnerUsage p - nUsageSize e) - u64 (DynamicUsage (parents l) + DynamicUsage (children l))) in
  Ok (Pool (delete it (mapTx p)) (delete it (mapLinks p)) (foldl (fun m i => delete (prevout i) m) (mapNextTx p) (vin tx)) (mapDeltas p)
        (foldl (fun m n => delete n m) (mapSaplingNullifiers p) (spent_nullifiers tx))
        (u64 (totalTxSize p - nTxSize e)) usage (u32 (nTransactionsUpdated p + 1))
        (removeSpentIndex hash (removeAddressIndex hash (pool_index p)))).

Definition RemoveStaged (stage : setEntries) (updateDescendants : bool) (p : CTxMemPool) : pool_op CTxMemPool :=
  p ← UpdateForRemoveFromMempool stage updateDescendants p;
  for_each removeUnchecked (in_order stage) p.

Definition with_descendants_of (p : CTxMemPool) (l : list uint256) : pool_op setEntries :=
  for_each (CalculateDescendants p) l ∅.

(** The transactions of the pool that spend an output of [origTx]. *)
Definition spenders_of (origTx : CTransaction) (p : CTxMemPool) : pool_op setEntries :=
  for_each (fun i (txToRemove : setEntries) =>
      match mapNextTx p !! OutPoint (GetHash origTx) (Z.of_nat i) with
      | None => Ok txToRemove
      | Some tx => cassert (exists_tx p (GetHash tx));; Ok ({[ GetHash tx ]} ∪ txToRemove)
      end) (seq 0 (length (vout origTx))) ∅.
Definition removeRecursive (origTx : CTransaction) (p : CTxMemPool) : pool_op CTxMemPool :=
  txToRemove ← (if exists_tx p (GetHash origTx) then Ok {[ GetHash origTx ]} else spenders_of origTx p);
  setAllRemoves ← with_descendants_of p (in_order txToRemove);
  RemoveStaged setAllRemoves false p.

Definition ClearPrioritisation (hash : uint256) (p : CTxMemPool) : CTxMemPool := with_deltas p (delete hash (mapDeltas p)).

(** [txConflict] is a reference into a map from which [removeRecursive] erases;
    whoever listens to the removals ([ConnectTrace]) still holds the
    transaction. *)
Definition remove_conflict (tx : CTransaction) (found : option CTransaction) (p : CTxMemPool) : pool_op CTxMemPool :=
  match found with
  | Some txConflict =>
      if bool_decide (GetHash txConflict = GetHash tx) then Ok p else
      p ← removeRecursive txConflict p;
      Ok (ClearPrioritisation (GetHash txConflict) p)
  | None => Ok p
  end.
Definition removeConflicts (tx : CTransaction) (p : CTxMemPool) : pool_op CTxMemPool :=
  p ← for_each (fun i p => remove_conflict tx (mapNextTx p !! prevout i) p) (vin tx) p;
  for_each (fun n p => remove_conflict tx (mapSaplingNullifiers p !! n) p) (spent_nullifiers tx) p.

Definition removeForBlock (vtx : list CTransaction) (p : CTxMemPool) : pool_op CTxMemPool :=
  for_each (fun tx p =>
      p ← (if exists_tx p (GetHash tx) then RemoveStaged {[ GetHash tx ]} true p else Ok p);
      p ← removeConflicts tx p;
      Ok (ClearPrioritisation (GetHash tx) p)) vtx p.

Definition removeWithAnchor (invalidRoot : uint256) (p : CTxMemPool) : pool_op CTxMemPool :=
  let spends_from e := IsShieldedTx (e_tx e) && existsb (fun sd => bool_decide (anchor sd = invalidRoot)) (match sapData (e_tx e) with Some d => vShieldedSpend d | None => [] end) in
  let transactionsToRemove := map (fun x => e_tx x.2) (filter (fun x : uint256 * CTxMemPoolEntry => spends_from x.2 = true) (map_to_list (mapTx p))) in
  for_each removeRecursive transactionsToRemove p.

(** The number of transactions removed is an int. *)
Definition Expire (time : Z) (p : CTxMemPool) : pool_op (Z * CTxMemPool) :=
  let toremove := dom (filter (fun x : uint256 * CTxMemPoolEntry => entryTime x.2 < time) (mapTx p)) in
  stage ← with_descendants_of p (in_order toremove);
  p ← RemoveStaged stage false p;
  Ok (i32 (Z.of_nat (size stage)), p).

(** ** Prioritising *)

Definition PrioritiseTransaction (hash : uint256) (nFeeDelta : CAmount) (p : CTxMemPool) : pool_op CTxMemPool :=
  delta ← int64_result (default 0 (mapDeltas p !! hash) + nFeeDelta);
  let p := with_deltas p (<[hash := delta]> (mapDeltas p)) in
  if exists_tx p hash then
    p ← modify hash (UpdateFeeDelta delta) p;
    e ← entry_at p hash;
    r ← CalculateMemPoolAncestors p no_limits e false;
    for_each (fun ancestorIt => modify ancestorIt (UpdateDescendantState 0 nFeeDelta 0)) (in_order r.2) p
  else Ok p.

Definition ApplyDeltas (p : CTxMemPool) (hash : uint256) (nFeeDelta : CAmount) : pool_op CAmount :=
  match mapDeltas p !! hash with Some d => int64_result (nFeeDelta + d) | None => Ok nFeeDelta end.

(** ** Transactions of a disconnected block *)

Notation cacheMap := (gmap uint256 (gset uint256)) (only parsing).

Definition schedule_child (cachedDescendants : cacheMap) (childEntry : uint256) (s : setEntries * setEntries) : setEntries * setEntries :=
  let '(stageEntries, setAllDescendants) := s in
  match cachedDescendants !! childEntry with
  | Some known => (stageEntries, known ∪ setAllDescendants)
  | None => if bool_decide (childEntry ∈ setAllDescendants) then s else ({[ childEntry ]} ∪ stageEntries, setAllDescendants)
  end.
Fixpoint cached_loop (p : CTxMemPool) (cachedDescendants : cacheMap) (fuel : nat) (stageEntries setAllDescendants : setEntries) : pool_op setEntries :=
  match in_order stageEntries, fuel with
  | [], _ => Ok setAllDescendants
  | _ :: _, O => Abort
  | cit :: _, S fuel =>
      setChildren ← GetMemPoolChildren p cit;
      let '(stageEntries, setAllDescendants) :=
        foldl (fun s childEntry => schedule_child cachedDescendants childEntry s) (stageEntries ∖ {[ cit ]}, {[ cit ]} ∪ setAllDescendants) (in_order setChildren) in
      cached_loop p cachedDescendants fuel stageEntries setAllDescendants
  end.

(** One descendant is accounted for: [s] holds [modifySize], [modifyFee] and
    [modifyCount]. *)
Definition account_descendant (updateIt : uint256) (setExclude : setEntries) (cit : uint256) (st : (Z * Z * Z) * cacheMap * CTxMemPool)
    : pool_op ((Z * Z * Z) * cacheMap * CTxMemPool) :=
  let '((modifySize, modifyFee, modifyCount), cachedDescendants, p) := st in
  e ← entry_at p cit;
  if bool_decide (e_hash e ∈ setExclude) then Ok st else
  fee ← GetModifiedFee e;
  modifyFee ← int64_result (modifyFee + fee);
  let cachedDescendants := <[updateIt := {[ cit ]} ∪ default ∅ (cachedDescendants !! updateIt)]> cachedDescendants in
  u ← entry_at p updateIt;
  updateFee ← GetModifiedFee u;
  p ← modify cit (UpdateAncestorState (i64 (nTxSize u)) updateFee 1 (i32 (sigOpCount u))) p;
  Ok ((i64 (modifySize + nTxSize e), modifyFee, modifyCount + 1), cachedDescendants, p).

Definition UpdateForDescendants (updateIt : uint256) (setExclude : setEntries) (cachedDescendants : cacheMap) (p : CTxMemPool) : pool_op (cacheMap * CTxMemPool) :=
  stageEntries ← GetMemPoolChildren p updateIt;
  setAllDescendants ← cached_loop p cachedDescendants (pool_fuel p) stageEntries ∅;
  r ← for_each (account_descendant updateIt setExclude) (in_order setAllDescendants) ((0, 0, 0), cachedDescendants, p);
  let '((modifySize, modifyFee, modifyCount), cachedDescendants, p) := r in
  p ← modify updateIt (UpdateDescendantState modifySize modifyFee modifyCount) p;
  Ok (cachedDescendants, p).

(** The entries of [mapNextTx] from [COutPoint(hash, 0)] on, by output. *)
Definition by_output (a b : COutPoint * CTransaction) : Prop := out_n a.1 <= out_n b.1.
#[export] Instance by_output_dec a b : Decision (by_output a b).
Proof. unfold by_output. apply _. Defined.
Definition spends_of (p : CTxMemPool) (hash : uint256) : list CTransaction :=
  map snd (merge_sort by_output (map_to_list (filter (fun x : COutPoint * CTransaction => out_hash x.1 = hash) (mapNextTx p)))).

(** A spender of an output of [it] becomes its child. *)
Definition link_child (it : uint256) (setAlreadyIncluded : setEntries) (tx : CTransaction) (s : setEntries * CTxMemPool) : pool_op (setEntries * CTxMemPool) :=
  let '(setChildren, p) := s in
  let childHash := GetHash tx in
  cassert (exists_tx p childHash);;
  if bool_decide (childHash ∈ setChildren) then Ok s else
  Ok ({[ childHash ]} ∪ setChildren,
      if bool_decide (childHash ∈ setAlreadyIncluded) then p else UpdateParent childHash it true (UpdateChild it childHash true p)).

Definition update_from_block (setAlreadyIncluded : setEntries) (hash : uint256) (s : cacheMap * CTxMemPool) : pool_op (cacheMap * CTxMemPool) :=
  let '(mapMemPoolDescendantsToUpdate, p) := s in
  if exists_tx p hash then
    r ← for_each (link_child hash setAlreadyIncluded) (spends_of p hash) (∅, p);
    UpdateForDescendants hash setAlreadyIncluded mapMemPoolDescendantsToUpdate r.2
  else Ok s.
Definition UpdateTransactionsFromBlock (vHashesToUpdate : list uint256) (p : CTxMemPool) : pool_op CTxMemPool :=
  r ← for_each (update_from_block (list_to_set vHashesToUpdate)) (reverse vHashesToUpdate) (∅, p);
  Ok r.2.

(** ** With the coins *)

Definition MEMPOOL_HEIGHT : Z := 0x7FFFFFFF.
Definition LOCKTIME_MEDIAN_TIME_PAST : Z := 2.

(** [CheckFinalTx] of validation.cpp; [height] is that of the active chain and
    [MedianTimePast] the median time of its tip. *)
Definition CheckFinalTx (height MedianTimePast GetAdjustedTime : Z) (tx : CTransaction) (flags : Z) : bool :=
  let nBlockTime := if Z.land (Z.max flags 0) LOCKTIME_MEDIAN_TIME_PAST =? 0 then GetAdjustedTime else MedianTimePast in
  IsFinalTx GetAdjustedTime tx (height + 1) nBlockTime.

Section WithCoins.
Context {Tree V : Type} {BaseView : @CCoinsView Tree V}.
Notation cache := (CCoinsViewCache Tree V).

(** [CCoinsViewMemPool]: the outputs of the pool above those of a view. *)
Definition CCoinsViewMemPool_GetCoin (p : CTxMemPool) (outpoint : COutPoint) (base : V) : option Coin * V :=
  match get p (out_hash outpoint) with
  | Some tx => (if out_n outpoint <? zlen (vout tx) then (fun o => MkCoin false false o MEMPOOL_HEIGHT) <$> vout tx !! Z.to_nat (out_n outpoint) else None, base)
  | None => let '(r, base) := view_GetCoin outpoint base in
      (match r with Some c => if IsSpent c then None else Some c | None => None end, base)
  end.
Definition CCoinsViewMemPool_HaveCoin (p : CTxMemPool) (outpoint : COutPoint) (base : V) : bool * V :=
  if exists_output p outpoint then (true, base) else view_HaveCoin outpoint base.
Definition CCoinsViewMemPool_GetNullifier (p : CTxMemPool) (n : uint256) (base : V) : bool * V :=
  if nullifierExists p n then (true, base) else view_GetNullifier n base.

(** Whether an input of a transaction can no longer be spent at the height;
    [nCheckFrequency] is not 0 when the sanity checks are on. *)
Fixpoint spends_immature (maturity nMemPoolHeight nCheckFrequency : Z) (p : CTxMemPool) (ins : list CTxIn) (c : cache) : pool_op (bool * cache) :=
  match ins with
  | [] => Ok (false, c)
  | txin :: ins =>
      if exists_tx p (out_hash (prevout txin)) then spends_immature maturity nMemPoolHeight nCheckFrequency p ins c else
      let '(co, c) := AccessCoin (prevout txin) c in
      cassert ((nCheckFrequency =? 0) || negb (IsSpent co));;
      if IsSpent co || (fCoinBase co || fCoinStake co) && (nMemPoolHeight - nHeight co <? maturity) then Ok (true, c)
      else spends_immature maturity nMemPoolHeight nCheckFrequency p ins c
  end.
(** The hash table is iterated in the order of [map_to_list]. *)
Definition removeForReorg (final : CTransaction -> bool) (maturity nMemPoolHeight nCheckFrequency : Z) (p : CTxMemPool) (c : cache) : pool_op (CTxMemPool * cache) :=
  r ← for_each (fun x (s : setEntries * cache) =>
        let '(txToRemove, c) := s in
        if negb (final (e_tx x.2)) then Ok ({[ x.1 ]} ∪ txToRemove, c)
        else if spendsCoinbaseOrCoinstake x.2 then
          b ← spends_immature maturity nMemPoolHeight nCheckFrequency p (vin (e_tx x.2)) c;
          Ok (if b.1 : bool then {[ x.1 ]} ∪ txToRemove else txToRemove, b.2)
        else Ok s) (map_to_list (mapTx p)) (∅, c);
  let '(txToRemove, c) := r in
  setAllRemoves ← with_descendants_of p (in_order txToRemove);
  p ← RemoveStaged setAllRemoves false p;
  Ok (p, c).

(** ** The address and spent indexes of the pool *)

(** The type and hash of the address a script pays, 2 and 1; others are not
    indexed by address. *)
Definition paid_address (s : CScript) : option (Z * list Z) :=
  if IsPayToScriptHash s then Some (2, take 20 (drop 2 s))
  else if IsPayToPublicKeyHash s then Some (1, take 20 (drop 3 s)) else None.

Definition index_delta (key : option CMempoolAddressDeltaKey) (delta : CMempoolAddressDelta)
    (s : gmap CMempoolAddressDeltaKey CMempoolAddressDelta * list CMempoolAddressDeltaKey) :=
  match key with
  | Some key => (if bool_decide (is_Some (s.1 !! key)) then s.1 else <[key := delta]> s.1, s.2 ++ [key])
  | None => s
  end.

Definition addAddressIndex (entry : CTxMemPoolEntry) (view : cache) (x : pool_indexes) : pool_op (pool_indexes * cache) :=
  let tx := e_tx entry in
  let txhash := GetHash tx in
  r ← for_each (fun ji (st : (gmap CMempoolAddressDeltaKey CMempoolAddressDelta * list CMempoolAddressDeltaKey) * cache) =>
        let '(s, view) := st in
        let '(co, view) := AccessCoin (prevout ji.2) view in
        let key := (fun a => AddressDeltaKey a.1 a.2 txhash (Z.of_nat ji.1) 1) <$> paid_address (scriptPubKey (out co)) in
        amount ← (match key with Some _ => int64_result (nValue (out co) * -1) | None => Ok 0 end);
        Ok (index_delta key (AddressDelta (entryTime entry) amount (out_hash (prevout ji.2)) (out_n (prevout ji.2))) s, view))
      (zip (seq 0 (length (vin tx))) (vin tx)) ((mapAddress x, []), view);
  let '(s, view) := r in
  let s := foldl (fun s (ko : nat * CTxOut) =>
        index_delta ((fun a => AddressDeltaKey a.1 a.2 txhash (Z.of_nat ko.1) 0) <$> paid_address (scriptPubKey ko.2))
          (AddressDelta (entryTime entry) (nValue ko.2) UINT256_ZERO 0) s) s (zip (seq 0 (length (vout tx))) (vout tx)) in
  Ok (PoolIndexes s.1 (if bool_decide (is_Some (mapAddressInserted x !! txhash)) then mapAddressInserted x else <[txhash := s.2]> (mapAddressInserted x))
        (mapSpent x) (mapSpentInserted x), view).

Definition addSpentIndex (entry : CTxMemPoolEntry) (view : cache) (x : pool_indexes) : pool_indexes * cache :=
  let tx := e_tx entry in
  let txhash := GetHash tx in
  let '(spent, inserted, view) := foldl (fun (st : gmap CSpentIndexKey CSpentIndexValue * list CSpentIndexKey * cache) (ji : nat * CTxIn) =>
        let '(spent, inserted, view) := st in
        let '(co, view) := AccessCoin (prevout ji.2) view in
        let '(addressType, addressHash) := default (0, UINT160_ZERO) (paid_address (scriptPubKey (out co))) in
        let key := SpentIndexKey (out_hash (prevout ji.2)) (out_n (prevout ji.2)) in
        let value := SpentIndexValue txhash (Z.of_nat ji.1) (-1) (nValue (out co)) addressType addressHash in
        (if bool_decide (is_Some (spent !! key)) then spent else <[key := value]> spent, inserted ++ [key], view))
      (mapSpent x, [], view) (zip (seq 0 (length (vin tx))) (vin tx)) in
  (PoolIndexes (mapAddress x) (mapAddressInserted x) spent
     (if bool_decide (is_Some (mapSpentInserted x !! txhash)) then mapSpentInserted x else <[txhash := inserted]> (mapSpentInserted x)), view).
End WithCoins.

Definition getSpentIndex (x : pool_indexes) (key : CSpentIndexKey) : option CSpentIndexValue := mapSpent x !! key.
