(* ===== verification/MempoolGraph.v ===== *)
(** * Ancestors and descendants in the memory pool

    The graph of the transactions of the pool, its closures, and the walks of
    [CalculateMemPoolAncestors] and [CalculateDescendants] through the links:
    they end, and with exactly the ancestors or the descendants.  Sums over sets
    of transactions, which the counters of the entries are. *)
From stdpp Require Import sorting fin_sets relations.
From S2P Require Import Prelude Serialize HashStream Sha256 Hash Script Interpreter Standard Transaction Undo Coins TxVerify Indexes Mempool.

(** [set_solver] on the memberships, inclusions and equations of sets alone. *)
Ltac only_sets :=
  repeat match goal with
  | H : ?P |- _ =>
      lazymatch type of P with
      | Prop =>
          lazymatch P with
          | _ ∈ _ => fail
          | _ ∉ _ => fail
          | _ ⊆ _ => fail
          | _ ## _ => fail
          | @eq (gset _) _ _ => fail
          | _ => clear H
          end
      end
  end.
Ltac sets := only_sets; set_solver.

(** ** Sums over finite sets *)

Section Sums.
Context {K : Type} `{Countable K}.
Implicit Types (f g : K -> Z) (s t : gset K).

Definition sumz f s : Z := set_fold (fun h acc => f h + acc) 0 s.

Lemma sumz_empty f : sumz f ∅ = 0.
Proof. apply set_fold_empty. Qed.
Lemma sumz_singleton f x : sumz f {[ x ]} = f x.
Proof. unfold sumz. rewrite set_fold_singleton. apply Z.add_0_r. Qed.
Lemma sumz_union f s t : s ## t -> sumz f (s ∪ t) = sumz f s + sumz f t.
Proof.
  intros D. unfold sumz. rewrite (set_fold_disj_union_strong (=) _ _ s t); [|solve_proper|intros; lia|done].
  generalize (set_fold (λ h acc, f h + acc) 0 s) as z. intros z.
  replace z with (z + 0) at 1 by lia. rewrite (set_fold_comm_acc (fun h acc => f h + acc) (fun a => z + a)); [done|]. intros; lia.
Qed.
Lemma sumz_insert f x s : x ∉ s -> sumz f ({[ x ]} ∪ s) = f x + sumz f s.
Proof. intros Hx. rewrite sumz_union by set_solver. by rewrite sumz_singleton. Qed.
Lemma sumz_diff f s t : t ⊆ s -> sumz f (s ∖ t) = sumz f s - sumz f t.
Proof. intros Ht. rewrite (union_difference_L t s Ht) at 2. rewrite sumz_union by set_solver. lia. Qed.
Lemma sumz_ext f g s : (forall x, x ∈ s -> f x = g x) -> sumz f s = sumz g s.
Proof.
  induction s as [|x s Hx IH] using set_ind_L; intros E; [by rewrite !sumz_empty|]. rewrite !sumz_insert by done.
  rewrite E by set_solver. f_equal. apply IH. intros y Hy. apply E. set_solver.
Qed.
Lemma sumz_nonneg f s : (forall x, x ∈ s -> 0 <= f x) -> 0 <= sumz f s.
Proof.
  induction s as [|x s Hx IH] using set_ind_L; intros E; [by rewrite sumz_empty|]. rewrite sumz_insert by done.
  pose proof (E x ltac:(set_solver)). assert (0 <= sumz f s); [|lia]. apply IH. intros y Hy. apply E. set_solver.
Qed.
Lemma sumz_subseteq f s t : s ⊆ t -> (forall x, x ∈ t -> 0 <= f x) -> sumz f s <= sumz f t.
Proof.
  intros Hs Hn. rewrite (union_difference_L s t Hs), sumz_union by set_solver.
  pose proof (sumz_nonneg f (t ∖ s) ltac:(set_solver)). lia.
Qed.
Lemma sumz_abs f s : Z.abs (sumz f s) <= sumz (fun x => Z.abs (f x)) s.
Proof.
  induction s as [|x s Hx IH] using set_ind_L; [by rewrite !sumz_empty|]. rewrite !sumz_insert by done. lia.
Qed.
Lemma sumz_size s : sumz (fun _ => 1) s = Z.of_nat (size s).
Proof.
  induction s as [|x s Hx IH] using set_ind_L; [by rewrite sumz_empty, size_empty|].
  rewrite sumz_insert, size_union, size_singleton by set_solver. lia.
Qed.
Lemma sumz_ge_size f s : (forall x, x ∈ s -> 1 <= f x) -> Z.of_nat (size s) <= sumz f s.
Proof.
  intros Hf. rewrite <- sumz_size. induction s as [|x s Hx IH] using set_ind_L; [by rewrite !sumz_empty|].
  rewrite !sumz_insert by done. pose proof (Hf x ltac:(set_solver)). assert (sumz (fun _ => 1) s <= sumz f s); [|lia]. apply IH. set_solver.
Qed.
End Sums.

(** ** Iterating over a set *)

Lemma in_order_perm (s : gset uint256) : in_order s ≡ₚ elements s.
Proof. apply merge_sort_Permutation. Qed.
Lemma elem_in_order (s : gset uint256) h : h ∈ in_order s <-> h ∈ s.
Proof. by rewrite in_order_perm, elem_of_elements. Qed.
Lemma in_order_NoDup (s : gset uint256) : NoDup (in_order s).
Proof. rewrite in_order_perm. apply NoDup_elements. Qed.
Lemma in_order_nil (s : gset uint256) : in_order s = [] -> s = ∅.
Proof. intros E. apply set_eq. intros x. rewrite <- elem_in_order, E. set_solver. Qed.
Lemma in_order_cons (s : gset uint256) h l : in_order s = h :: l -> h ∈ s.
Proof. intros E. apply elem_in_order. rewrite E. left. Qed.
Lemma in_order_empty : in_order ∅ = [].
Proof. done. Qed.

(** ** Closures *)

Section Closure.
Context {A : Type} (R : relation A).

(** What can be reached from [X ∪ Y] when the steps from [X] stay in [X ∪ Y]. *)
Lemma reach_closed (X Y : A -> Prop) : (forall a b, X a -> R a b -> X b \/ Y b) ->
  forall a x, rtc R a x -> X a \/ Y a -> X x \/ exists s, Y s /\ rtc R s x.
Proof.
  intros Hc a x Hr. induction Hr as [a|a b x Hab Hbx IH]; intros [Ha|Ha]; [by left|right; by exists a| |].
  - apply IH. by apply (Hc a b).
  - right. exists a. split; [done|]. by apply rtc_l with b.
Qed.
End Closure.

Lemma tc_flip {A} (R : relation A) x y : tc (flip R) x y <-> tc R y x.
Proof.
  split; intros Hr.
  - induction Hr as [x y H|x y z H _ IH]; [by apply tc_once|]. by apply tc_r with y.
  - induction Hr as [x y H|x y z H _ IH]; [by apply tc_once|]. by apply tc_r with y.
Qed.
Lemma rtc_flip {A} (R : relation A) x y : rtc (flip R) x y <-> rtc R y x.
Proof. rewrite !rtc_tc, tc_flip. naive_solver. Qed.

(** ** The walks *)

Lemma size_lt_add (s t : gset uint256) x : s ⊆ t -> x ∈ t -> x ∉ s -> (size s < size t)%nat.
Proof. intros Hs Ht Hx. apply subset_size. set_solver. Qed.

Section Descend.
Context (p : CTxMemPool) (C : relation uint256).
Context (HC : forall h, is_Some (mapTx p !! h) -> exists l, mapLinks p !! h = Some l /\ forall c, c ∈ children l <-> C h c).
Context (Hin : forall h c, C h c -> c ∈ dom (mapTx p)).

Lemma descendants_loop_spec fuel : forall stage set,
  stage ⊆ dom (mapTx p) -> set ⊆ dom (mapTx p) -> stage ## set -> (forall a c, a ∈ set -> C a c -> c ∈ set \/ c ∈ stage) ->
  (size (dom (mapTx p)) < fuel + size set)%nat ->
  exists r, descendants_loop p fuel stage set = Ok r /\ forall x, x ∈ r <-> x ∈ set \/ exists s, s ∈ stage /\ rtc C s x.
Proof.
  induction fuel as [|fuel IH]; intros stage set Hs Ht Hd Hc Hf; cbn [descendants_loop].
  - apply subseteq_size in Ht. cbn in Hf. lia.
  - destruct (in_order stage) as [|it l] eqn:E.
    { apply in_order_nil in E as ->. exists set. split; [done|]. sets. }
    apply in_order_cons in E as Hit. destruct (HC it) as (k & Hk & Hch). { apply elem_of_dom. sets. }
    unfold GetMemPoolChildren. rewrite Hk. cbn [mbind outcome_bind].
    assert (Hsub : children k ⊆ dom (mapTx p)) by (intros c Hx%Hch; by apply (Hin it)).
    destruct (IH (stage ∖ {[it]} ∪ children k ∖ ({[it]} ∪ set)) ({[it]} ∪ set)) as (r & -> & Hr); [sets|sets|sets| | |].
    + intros a c Ha Hac. destruct (decide (c ∈ ({[it]} ∪ set : gset uint256))) as [|Hn]; [by left|right].
      apply elem_of_union in Ha as [->%elem_of_singleton|Ha]; [apply Hch in Hac; sets|]. destruct (Hc a c Ha Hac); sets.
    + rewrite size_union, size_singleton by sets. lia.
    + exists r. split; [done|]. intros x. rewrite Hr. split.
      * intros [[->%elem_of_singleton|]%elem_of_union|(s & [Hx|[Hx _]%elem_of_difference]%elem_of_union & Hsx)]; [right; by exists it|by left|right; exists s; set_solver|].
        right. exists it. split; [done|]. apply rtc_l with s; [by apply Hch|done].
      * intros [Hx|(s & Hs' & Hsx)]; [sets|].
        apply (reach_closed C (fun a => a ∈ ({[it]} ∪ set : gset uint256)) (fun a => a ∈ (stage ∖ {[it]} ∪ children k ∖ ({[it]} ∪ set)))) with s; [|done|].
        -- intros a b Ha Hab. destruct (decide (b ∈ ({[it]} ∪ set : gset uint256))) as [|Hn]; [by left|right].
           apply elem_of_union in Ha as [->%elem_of_singleton|Ha]; [apply Hch in Hab; sets|]. destruct (Hc a b Ha Hab); sets.
        -- destruct (decide (s = it)); set_solver.
Qed.

(** From a set that holds the descendants of what is in it. *)
Lemma CalculateDescendants_spec h set :
  h ∈ dom (mapTx p) -> set ⊆ dom (mapTx p) -> (forall a c, a ∈ set -> C a c -> c ∈ set) ->
  exists r, CalculateDescendants p h set = Ok r /\ (forall x, x ∈ r <-> x ∈ set \/ rtc C h x).
Proof.
  intros Hh Hs Hc. unfold CalculateDescendants.
  assert (Hreach : forall s x, s ∈ set -> rtc C s x -> x ∈ set) by (intros s x Hs' Hr; induction Hr; naive_solver).
  destruct (descendants_loop_spec (pool_fuel p) (if bool_decide (h ∈ set) then ∅ else {[h]}) set) as (r & -> & Hr); try done.
  - case_bool_decide; sets.
  - case_bool_decide; sets.
  - intros a c Ha Hac. left. by apply (Hc a).
  - unfold pool_fuel. lia.
  - exists r. split; [done|]. intros x. rewrite Hr. case_bool_decide as Hd; [|sets]. split; [sets|]. intros [?|?]; [by left|]. left. by apply (Hreach h).
Qed.

Lemma with_descendants_of_spec l : (forall h, h ∈ l -> h ∈ dom (mapTx p)) ->
  exists r, with_descendants_of p l = Ok r /\ (forall x, x ∈ r <-> exists h, h ∈ l /\ rtc C h x) /\ r ⊆ dom (mapTx p).
Proof.
  assert (Hdom : forall h x, rtc C h x -> h ∈ dom (mapTx p) -> x ∈ dom (mapTx p)) by (intros h x Hr; induction Hr; naive_solver).
  intros Hl. unfold with_descendants_of.
  assert (G : forall l (set : gset uint256), (forall h, h ∈ l -> h ∈ dom (mapTx p)) -> set ⊆ dom (mapTx p) -> (forall a c, a ∈ set -> C a c -> c ∈ set) ->
    exists r, for_each (CalculateDescendants p) l set = Ok r /\ (forall x, x ∈ r <-> x ∈ set \/ exists h, h ∈ l /\ rtc C h x) /\ r ⊆ dom (mapTx p)).
  { clear l Hl. induction l as [|h l IH]; intros set Hl Hs Hc; cbn [for_each].
    - exists set. split; [done|]. sets.
    - destruct (CalculateDescendants_spec h set) as (r & -> & Hr); [apply Hl; left|done|done|]. cbn [mbind outcome_bind].
      destruct (IH r) as (r' & -> & Hr' & Hd').
      + intros k Hk. apply Hl. by right.
      + intros x [Hx|Hx]%Hr; [by apply Hs|]. apply (Hdom h); [done|]. apply Hl. left.
      + intros a c [Ha|Ha]%Hr Hac; apply Hr; [left; by apply (Hc a)|right; by apply rtc_r with a].
      + exists r'. split; [done|]. split; [|done]. intros x. rewrite Hr', Hr. setoid_rewrite elem_of_cons. naive_solver. }
  destruct (G l ∅) as (r & -> & Hr & Hd); [done|sets|sets|]. exists r. split; [done|]. split; [|done]. intros x. rewrite Hr. sets.
Qed.
End Descend.

(** What an entry contributes to a sum. *)
Definition weight (p : CTxMemPool) (f : CTxMemPoolEntry -> Z) (h : uint256) : Z := default 0 (f <$> mapTx p !! h).

Lemma schedule_parents_spec lim l set : forall ph,
  match schedule_parents lim l set ph with
  | inl ph' => ph' = ph ∪ (list_to_set l ∖ set) /\ (l <> [] -> u64 (Z.of_nat (size ph') + Z.of_nat (size set) + 1) <= limitAncestorCount lim)
  | inr _ => exists ph', ph ⊆ ph' /\ ph' ⊆ ph ∪ (list_to_set l ∖ set) /\ limitAncestorCount lim < u64 (Z.of_nat (size ph') + Z.of_nat (size set) + 1)
  end.
Proof.
  induction l as [|q l IH]; intros ph; cbn [schedule_parents]; [split; [sets|done]|].
  set (ph1 := if bool_decide (q ∈ set) then ph else {[q]} ∪ ph). assert (E : ph1 = ph ∪ ({[q]} ∖ set)) by (unfold ph1; case_bool_decide; sets).
  cbv zeta. destruct (_ <? _) eqn:Hl; bool_to_prop.
  - exists ph1. split_and!; [sets|sets|done].
  - specialize (IH ph1). destruct (schedule_parents _ _ _ _) as [ph'|e].
    + destruct IH as [-> Hle]. split; [sets|]. intros _. destruct l as [|q' l]; [|by apply Hle].
      replace (ph1 ∪ list_to_set [] ∖ set) with ph1 by sets. done.
    + destruct IH as (ph' & H1 & H2 & H3). exists ph'. split_and!; [sets|sets|done].
Qed.

Section Ascend.
Context (p : CTxMemPool) (R : relation uint256).
Context (HR : forall h, is_Some (mapTx p !! h) -> exists l, mapLinks p !! h = Some l /\ forall q, q ∈ parents l <-> R h q).
Context (Hin : forall h q, R h q -> q ∈ dom (mapTx p)).

Definition reaches (set ph : gset uint256) (x : uint256) : Prop := x ∈ set \/ exists q, q ∈ ph /\ rtc R q x.

(** One turn of the loop. *)
Lemma reaches_step (set ph : gset uint256) (it : uint256) (ps : gset uint256) x :
  it ∈ ph -> (forall q, q ∈ ps <-> R it q) -> (forall a b, a ∈ set -> R a b -> b ∈ set \/ b ∈ ph) ->
  reaches ({[it]} ∪ set) (ph ∖ {[it]} ∪ (ps ∖ ({[it]} ∪ set))) x <-> reaches set ph x.
Proof.
  intros Hit Hps Hc. split.
  - intros [[->%elem_of_singleton|]%elem_of_union|(s & [Hx|[Hx _]%elem_of_difference]%elem_of_union & Hsx)]; [right; by exists it|by left|right; exists s; set_solver|].
    right. exists it. split; [done|]. apply rtc_l with s; [by apply Hps|done].
  - intros [Hx|(s & Hs' & Hsx)]; [left; sets|].
    apply (reach_closed R (fun a => a ∈ ({[it]} ∪ set : gset uint256)) (fun a => a ∈ (ph ∖ {[it]} ∪ ps ∖ ({[it]} ∪ set)))) with s; [|done|].
    + intros a b Ha Hab. destruct (decide (b ∈ ({[it]} ∪ set : gset uint256))) as [|Hn]; [by left|right].
      apply elem_of_union in Ha as [->%elem_of_singleton|Ha]; [apply Hps in Hab; sets|]. destruct (Hc a b Ha Hab); sets.
    + destruct (decide (s = it)); set_solver.
Qed.
Lemma closed_step (set ph ps : gset uint256) (it : uint256) :
  (forall q, q ∈ ps <-> R it q) -> (forall a b, a ∈ set -> R a b -> b ∈ set \/ b ∈ ph) ->
  forall a b, a ∈ ({[it]} ∪ set : gset uint256) -> R a b -> b ∈ ({[it]} ∪ set : gset uint256) \/ b ∈ ph ∖ {[it]} ∪ (ps ∖ ({[it]} ∪ set)).
Proof.
  intros Hps Hc a b Ha Hab. destruct (decide (b ∈ ({[it]} ∪ set : gset uint256))) as [|Hn]; [by left|right].
  apply elem_of_union in Ha as [->%elem_of_singleton|Ha]; [apply Hps in Hab; sets|]. destruct (Hc a b Ha Hab); sets.
Qed.

Lemma ancestors_loop_spec lim entry fuel : forall total ph set,
  ph ⊆ dom (mapTx p) -> set ⊆ dom (mapTx p) -> ph ## set -> (forall a b, a ∈ set -> R a b -> b ∈ set \/ b ∈ ph) ->
  (size (dom (mapTx p)) < fuel + size set)%nat ->
  exists r s, ancestors_loop p lim fuel entry total ph set = Ok (r, s) /\ (r = None -> forall x, x ∈ s <-> reaches set ph x) /\ (lim = no_limits -> r = None).
Proof.
  induction fuel as [|fuel IH]; intros total ph set Hs Ht Hd Hc Hf; cbn [ancestors_loop].
  - apply subseteq_size in Ht. cbn in Hf. lia.
  - destruct (in_order ph) as [|it l] eqn:E.
    { apply in_order_nil in E as ->. exists None, set. split_and!; [done| |done]. intros _ x. unfold reaches. sets. }
    apply in_order_cons in E as Hit. assert (Hi : is_Some (mapTx p !! it)) by (apply elem_of_dom; sets).
    destruct (HR it Hi) as (k & Hk & Hps). destruct Hi as [a Ha]. unfold entry_at. rewrite Ha. cbn [mbind outcome_bind]. cbv zeta.
    assert (Hno : forall x, lim = no_limits -> nNoLimit <? u64 x = false). { intros x _. pose proof (wrapu_range 64 x). unfold in_u, nNoLimit in *. lia. }
    destruct (limitDescendantSize lim <? _) eqn:L1. { exists (Some (DescendantSize it)), ({[it]} ∪ set). split_and!; [done|done|]. intros ->. cbn [limitDescendantSize no_limits] in L1. by rewrite Hno in L1. }
    destruct (limitDescendantCount lim <? _) eqn:L2. { exists (Some (DescendantCount it)), ({[it]} ∪ set). split_and!; [done|done|]. intros ->. cbn [limitDescendantCount no_limits] in L2. by rewrite Hno in L2. }
    destruct (limitAncestorSize lim <? _) eqn:L3. { exists (Some AncestorSize), ({[it]} ∪ set). split_and!; [done|done|]. intros ->. cbn [limitAncestorSize no_limits] in L3. by rewrite Hno in L3. }
    unfold GetMemPoolParents. rewrite Hk. cbn [mbind outcome_bind]. assert (Hsub : parents k ⊆ dom (mapTx p)) by (intros c Hx%Hps; by apply (Hin it)).
    pose proof (schedule_parents_spec lim (in_order (parents k)) ({[it]} ∪ set) (ph ∖ {[it]})) as Hsch.
    destruct (schedule_parents _ _ _ _) as [ph'|e].
    + destruct Hsch as [-> _]. replace (list_to_set (in_order (parents k))) with (parents k) by (apply set_eq; intros x; by rewrite elem_of_list_to_set, elem_in_order).
      destruct (IH (u64 (total + nTxSize a)) (ph ∖ {[it]} ∪ parents k ∖ ({[it]} ∪ set)) ({[it]} ∪ set)) as (r & s & -> & Hr & Hno'); [sets|sets|sets|by apply closed_step| |].
      * rewrite size_union, size_singleton by sets. lia.
      * exists r, s. split_and!; [done| |done]. intros Hn x. rewrite (Hr Hn). by apply reaches_step.
    + exists (Some e), ({[it]} ∪ set). split_and!; [done|done|]. intros ->. destruct Hsch as (ph' & _ & _ & H3). cbn [limitAncestorCount no_limits] in H3. apply Z.ltb_lt in H3. by rewrite Hno in H3.
Qed.

(** What the limits ask of an ancestor. *)
Definition within (lim : limits) (entry a : CTxMemPoolEntry) : Prop :=
  nSizeWithDescendants a + nTxSize entry <= limitDescendantSize lim /\ nCountWithDescendants a + 1 <= limitDescendantCount lim.

(** The 64-bit sums of the walk do not wrap around. *)
Record sums_fit (entry : CTxMemPoolEntry) : Prop := {
  fit_entry : forall h a, mapTx p !! h = Some a -> 0 <= nTxSize a /\ in_u 64 (nSizeWithDescendants a + nTxSize entry) /\ in_u 64 (nCountWithDescendants a + 1);
  fit_size : 0 <= nTxSize entry /\ nTxSize entry + sumz (weight p nTxSize) (dom (mapTx p)) < 2 ^ 64;
  fit_count : Z.of_nat (size (dom (mapTx p))) + 1 < 2 ^ 64;
}.

Lemma ancestors_loop_limits lim entry Anc r s : sums_fit entry -> Anc ⊆ dom (mapTx p) ->
  forall fuel ph set, ph ⊆ dom (mapTx p) -> ph ## set -> (forall a b, a ∈ set -> R a b -> b ∈ set \/ b ∈ ph) ->
  (forall x, x ∈ Anc <-> reaches set ph x) -> (ph <> ∅ -> Z.of_nat (size ph) + Z.of_nat (size set) + 1 <= limitAncestorCount lim) ->
  ancestors_loop p lim fuel entry (nTxSize entry + sumz (weight p nTxSize) set) ph set = Ok (r, s) ->
  r = None <-> (forall h a, h ∈ Anc -> h ∉ set -> mapTx p !! h = Some a -> within lim entry a) /\
    (ph <> ∅ -> nTxSize entry + sumz (weight p nTxSize) Anc <= limitAncestorSize lim /\ Z.of_nat (size Anc) + 1 <= limitAncestorCount lim).
Proof.
  intros W HA. assert (Hnn : forall x, 0 <= weight p nTxSize x).
  { intros x. unfold weight. destruct (mapTx p !! x) as [a|] eqn:Ha; [|done]. apply (fit_entry _ W x a Ha). }
  assert (Hle : forall t, t ⊆ Anc -> sumz (weight p nTxSize) t <= sumz (weight p nTxSize) Anc /\ Z.of_nat (size t) <= Z.of_nat (size Anc)).
  { intros t Ht. split; [by apply sumz_subseteq|]. apply inj_le. by apply subseteq_size. }
  pose proof (sumz_subseteq (weight p nTxSize) Anc _ HA (fun x _ => Hnn x)) as HAd. pose proof (subseteq_size _ _ HA) as HAs. destruct (fit_size _ W) as [We Wt]. pose proof (fit_count _ W) as Wc.
  induction fuel as [|fuel IH]; intros ph set Hs Hd Hc HAnc Hcnt; cbn [ancestors_loop]; (destruct (in_order ph) as [|it l] eqn:E; [apply in_order_nil in E as ->; intros [= <- <-]; split; [|done]; intros _|]).
  - split; [|done]. intros h a Hh Hn. apply HAnc in Hh. unfold reaches in Hh. set_solver.
  - done.
  - split; [|done]. intros h a Hh Hn. apply HAnc in Hh. unfold reaches in Hh. set_solver.
  - apply in_order_cons in E as Hit. assert (Hi : is_Some (mapTx p !! it)) by (apply elem_of_dom; sets).
    destruct (HR it Hi) as (k & Hk & Hps). destruct Hi as [a Ha]. unfold entry_at. rewrite Ha. cbn [mbind outcome_bind]. cbv zeta.
    destruct (fit_entry _ W it a Ha) as (Wa1 & Wa2 & Wa3). rewrite !(wrapu_small 64 (_ + nTxSize entry)), (wrapu_small 64 (_ + 1)) by done.
    assert (Hits : it ∉ set) by sets. assert (HitA : it ∈ Anc). { apply HAnc. right. exists it. done. }
    assert (Hph : ph <> ∅) by sets. assert (HsA : set ⊆ Anc). { intros x Hx. apply HAnc. by left. } assert (HpA : ph ⊆ Anc). { intros x Hx. apply HAnc. right. exists x. done. }
    assert (Hsum : nTxSize entry + sumz (weight p nTxSize) set + nTxSize a = nTxSize entry + sumz (weight p nTxSize) ({[it]} ∪ set)).
    { rewrite sumz_insert by done. unfold weight at 2. rewrite Ha. cbn. lia. }
    rewrite Hsum. pose proof (Hle ({[it]} ∪ set) ltac:(sets)) as [Hsz1 Hsz2]. rewrite wrapu_small by (pose proof (sumz_nonneg (weight p nTxSize) ({[it]} ∪ set) (fun x _ => Hnn x)); unfold in_u; lia).
    destruct (_ <? _) eqn:L1; bool_to_prop; [intros [= <- <-]; split; [done|]; intros [Hw _]; destruct (Hw it a HitA Hits Ha); lia|].
    destruct (limitDescendantCount lim <? _) eqn:L2; bool_to_prop; [intros [= <- <-]; split; [done|]; intros [Hw _]; destruct (Hw it a HitA Hits Ha); lia|].
    destruct (limitAncestorSize lim <? _) eqn:L3; bool_to_prop; [intros [= <- <-]; split; [done|]; intros [_ Hw]; specialize (Hw Hph); lia|].
    unfold GetMemPoolParents. rewrite Hk. cbn [mbind outcome_bind].
    assert (HkA : parents k ⊆ Anc). { intros q Hq%Hps. apply HAnc. right. exists it. split; [done|]. by apply rtc_once. }
    pose proof (schedule_parents_spec lim (in_order (parents k)) ({[it]} ∪ set) (ph ∖ {[it]})) as Hsch.
    replace (list_to_set (in_order (parents k))) with (parents k) in Hsch by (apply set_eq; intros x; by rewrite elem_of_list_to_set, elem_in_order).
    assert (Hnw : forall ph' : gset uint256, ph' ⊆ ph ∖ {[it]} ∪ parents k ∖ ({[it]} ∪ set) -> Z.of_nat (size ph') + Z.of_nat (size ({[it]} ∪ set)) <= Z.of_nat (size Anc)).
    { intros ph' Hp'. pose proof (Hle (ph' ∪ ({[it]} ∪ set)) ltac:(sets)) as [_ Hx]. rewrite size_union in Hx by sets. lia. }
    destruct (schedule_parents _ _ _ _) as [ph'|e].
    + destruct Hsch as [-> Hl]. intros Hloop.
      pose proof (Hnw _ (reflexivity _)) as Hn1. rewrite wrapu_small in Hl by (unfold in_u; lia).
      assert (Hit' : Z.of_nat (size ({[it]} ∪ set)) = Z.of_nat (size set) + 1) by (rewrite size_union, size_singleton by sets; lia).
      assert (Hp1 : Z.of_nat (size (ph ∖ {[it]})) = Z.of_nat (size ph) - 1).
      { rewrite size_difference by sets. rewrite size_singleton. pose proof (subseteq_size {[it]} ph ltac:(sets)) as Hx. rewrite size_singleton in Hx. lia. }
      apply IH in Hloop; [|sets|sets|by apply closed_step|by intros x; rewrite HAnc, reaches_step| ].
      * rewrite Hloop. split; intros [H1 H2]; (split; [|intros Hne]).
        -- intros h b Hh Hn Hb. destruct (decide (h = it)) as [->|]; [|apply (H1 h b); [done|apply not_elem_of_union; split; [by apply not_elem_of_singleton|done]|done]]. assert (b = a) as -> by congruence. done.
        -- destruct (decide (ph ∖ {[it]} ∪ parents k ∖ ({[it]} ∪ set) = ∅)) as [Hem|Hem]; [|by apply H2].
           assert (Anc = {[it]} ∪ set) as ->. { apply set_eq. intros x. rewrite HAnc, <- (reaches_step set ph it (parents k) x Hit Hps Hc), Hem. unfold reaches. sets. }
           split; [lia|]. specialize (Hcnt Hph). assert (1 <= Z.of_nat (size ph)); [|lia]. pose proof (subseteq_size {[it]} ph ltac:(sets)) as Hx. rewrite size_singleton in Hx. lia.
        -- intros h b Hh Hn Hb. apply (H1 h b); set_solver.
        -- by apply H2.
      * intros Hem. destruct (decide (in_order (parents k) = [])) as [Hnil|Hnil]; [|specialize (Hl Hnil); lia].
        apply in_order_nil in Hnil. rewrite Hnil in *. replace (ph ∖ {[it]} ∪ ∅ ∖ ({[it]} ∪ set)) with (ph ∖ {[it]}) by sets. specialize (Hcnt Hph). lia.
    + destruct Hsch as (ph' & _ & Hp2 & H3). specialize (Hnw ph' Hp2). rewrite wrapu_small in H3 by (unfold in_u; lia). intros [= <- <-]. split; [done|]. intros [_ Hw]. specialize (Hw Hph). lia.
Qed.
End Ascend.
