(* ===== verification/MempoolInv.v ===== *)
(** * The memory pool is consistent

    The invariant of [CTxMemPool]: the links are those of the transactions, the
    counters of an entry are sums over its ancestors and descendants, the spent
    outpoints and nullifiers are those of the transactions, each spent once, and
    the totals are right; and what the operations do to it. *)
From stdpp Require Import sorting fin_sets relations.
From S2P Require Import Prelude Serialize HashStream Sha256 Hash Script Interpreter Standard Transaction Undo Coins TxVerify Indexes Mempool MempoolGraph.

#[local] Opaque GetHash.

(** ** The graph of the pool *)

Definition input_hashes (tx : CTransaction) : gset uint256 := list_to_set (map (fun i => out_hash (prevout i)) (vin tx)).
Definition direct_parents (p : CTxMemPool) (tx : CTransaction) : gset uint256 := input_hashes tx ∩ dom (mapTx p).
Definition parent_of (p : CTxMemPool) (c q : uint256) : Prop := exists e, mapTx p !! c = Some e /\ q ∈ direct_parents p (e_tx e).

(** The ancestors of a transaction with these parents, not itself. *)
Definition ancestors_from (p : CTxMemPool) (ps Anc : gset uint256) : Prop := forall x, x ∈ Anc <-> exists q, q ∈ ps /\ rtc (parent_of p) q x.

Lemma exists_tx_dom p h : exists_tx p h = true <-> h ∈ dom (mapTx p).
Proof. unfold exists_tx. by rewrite bool_decide_eq_true, elem_of_dom. Qed.

(** ** What an entry counts *)

Definition modified_fee (e : CTxMemPoolEntry) : Z := nFee e + feeDelta e.

Record weights := Weights { w_size : uint256 -> Z; w_fee : uint256 -> Z; w_sig : uint256 -> Z }.
Definition weights_of (p : CTxMemPool) : weights := Weights (weight p nTxSize) (weight p modified_fee) (weight p sigOpCount).

(** The totals over the pool fit the counters. *)
Record small (w : weights) (U : gset uint256) : Prop := {
  small_pos : forall h, h ∈ U -> 1 <= w_size w h;
  small_sig_nonneg : forall h, h ∈ U -> 0 <= w_sig w h;
  small_size : sumz (w_size w) U < 2 ^ 63;
  small_fee : sumz (fun h => Z.abs (w_fee w h)) U < 2 ^ 63;
  small_sig : sumz (w_sig w) U < 2 ^ 31;
}.

Record entry_counts (w : weights) (D A : uint256 -> gset uint256) (h : uint256) (e : CTxMemPoolEntry) : Prop := {
  ec_size : nTxSize e = w_size w h;
  ec_fee : modified_fee e = w_fee w h;
  ec_sig : sigOpCount e = w_sig w h;
  ec_dcount : nCountWithDescendants e = 1 + Z.of_nat (size (D h));
  ec_dsize : nSizeWithDescendants e = w_size w h + sumz (w_size w) (D h);
  ec_dfee : nModFeesWithDescendants e = w_fee w h + sumz (w_fee w) (D h);
  ec_acount : nCountWithAncestors e = 1 + Z.of_nat (size (A h));
  ec_asize : nSizeWithAncestors e = w_size w h + sumz (w_size w) (A h);
  ec_afee : nModFeesWithAncestors e = w_fee w h + sumz (w_fee w) (A h);
  ec_asig : nSigOpCountWithAncestors e = w_sig w h + sumz (w_sig w) (A h);
}.
Definition counted (w : weights) (D A : uint256 -> gset uint256) (p : CTxMemPool) : Prop :=
  forall h e, mapTx p !! h = Some e -> entry_counts w D A h e.

(** An entry without its counters. *)
Definition core (e : CTxMemPoolEntry) : CTxMemPoolEntry := with_ancestors (with_descendants e 0 0 0) 0 0 0 0.

(** A pool of which only counters changed. *)
Record recounted (p p' : CTxMemPool) : Prop := {
  rc_rest : p' = with_mapTx p (mapTx p');
  rc_core : forall h, core <$> mapTx p' !! h = core <$> mapTx p !! h;
}.
#[export] Instance recounted_preorder : PreOrder recounted.
Proof.
  split; [by intros []|]. intros a b c [H1 H2] [H3 H4]. split; [rewrite H3, H1; done|]. intros h. by rewrite H4.
Qed.
Lemma recounted_dom p p' : recounted p p' -> dom (mapTx p') = dom (mapTx p).
Proof. intros [_ H]. apply set_eq. intros h. rewrite !elem_of_dom. specialize (H h). by destruct (mapTx p' !! h), (mapTx p !! h). Qed.
Lemma recounted_lookup p p' h e : recounted p p' -> mapTx p !! h = Some e -> exists e', mapTx p' !! h = Some e' /\ core e' = core e.
Proof. intros [_ H] E. specialize (H h). rewrite E in H. destruct (mapTx p' !! h) as [e'|]; [|done]. exists e'. split; [done|]. cbn in H. congruence. Qed.
Lemma entry_core_fields e e' : core e' = core e -> e_tx e' = e_tx e /\ nTxSize e' = nTxSize e /\ modified_fee e' = modified_fee e /\ sigOpCount e' = sigOpCount e /\ nUsageSize e' = nUsageSize e.
Proof. destruct e, e'. unfold core, modified_fee. cbn. intros [=]. subst. done. Qed.
Lemma recounted_weight p p' f : recounted p p' -> (forall e e', core e' = core e -> f e' = f e) -> forall h, weight p' f h = weight p f h.
Proof.
  intros R Hf h. unfold weight. destruct (mapTx p !! h) as [e|] eqn:E.
  - destruct (recounted_lookup _ _ _ _ R E) as (e' & -> & Hc). cbn. by apply Hf.
  - destruct R as [_ R]. specialize (R h). rewrite E in R. by destruct (mapTx p' !! h).
Qed.
Lemma recounted_links p p' : recounted p p' -> mapLinks p' = mapLinks p.
Proof. by intros [-> _]. Qed.

Lemma modify_recounts p h e e' f : mapTx p !! h = Some e -> f e = Ok e' -> core e' = core e ->
  modify h f p = Ok (with_mapTx p (<[h := e']> (mapTx p))) /\ recounted p (with_mapTx p (<[h := e']> (mapTx p))).
Proof.
  intros He Hf Hc. unfold modify, entry_at. rewrite He. cbn [mbind outcome_bind]. rewrite Hf. split; [done|]. split; [done|].
  intros k. cbn. destruct (decide (h = k)) as [<-|]; [rewrite lookup_insert_eq, He; cbn; by f_equal|by rewrite lookup_insert_ne].
Qed.

(** ** Changing counters *)

Section Counting.
Context (w : weights) (U : gset uint256) (Hsmall : small w U).

Definition set_at (h : uint256) (T : gset uint256) (D : uint256 -> gset uint256) (x : uint256) : gset uint256 := if decide (x = h) then T else D x.

Lemma small_sums h T : h ∈ U -> T ⊆ U -> h ∉ T ->
  1 <= w_size w h + sumz (w_size w) T < 2 ^ 63 /\ in_s 64 (w_fee w h + sumz (w_fee w) T) /\
  1 + Z.of_nat (size T) < 2 ^ 63 /\ 0 <= w_sig w h + sumz (w_sig w) T < 2 ^ 31.
Proof.
  intros Hh HT Hn. assert (HT' : {[h]} ∪ T ⊆ U) by set_solver. destruct Hsmall as [S1 S2 S3 S4 S5].
  rewrite <- !sumz_insert by done. assert (Hp : forall x, x ∈ U -> 0 <= w_size w x) by (intros x Hx; specialize (S1 x Hx); lia).
  pose proof (sumz_subseteq _ _ _ HT' Hp). pose proof (sumz_subseteq _ _ _ HT' S2). pose proof (sumz_subseteq (fun x => Z.abs (w_fee w x)) _ _ HT' (fun x _ => Z.abs_nonneg _)).
  pose proof (sumz_abs (w_fee w) ({[h]} ∪ T)). pose proof (sumz_nonneg (w_sig w) ({[h]} ∪ T) (fun x Hx => S2 x (HT' x Hx))).
  pose proof (sumz_ge_size (w_size w) ({[h]} ∪ T) (fun x Hx => S1 x (HT' x Hx))) as Hs. rewrite size_union, size_singleton in Hs by set_solver.
  unfold in_s. split_and!; lia.
Qed.

Lemma set_descendants D A p h T : counted w D A p -> h ∈ dom (mapTx p) -> h ∈ U -> T ⊆ U -> h ∉ T ->
  exists p', modify h (UpdateDescendantState (sumz (w_size w) T - sumz (w_size w) (D h)) (sumz (w_fee w) T - sumz (w_fee w) (D h)) (Z.of_nat (size T) - Z.of_nat (size (D h)))) p = Ok p' /\
    counted w (set_at h T D) A p' /\ recounted p p'.
Proof.
  intros Hc [e He]%elem_of_dom HU HT Hn. destruct (Hc h e He) as [E1 E2 E3 E4 E5 E6 E7 E8 E9 E10]. destruct (small_sums h T HU HT Hn) as (B1 & B2 & B3 & B4).
  destruct (modify_recounts p h e (with_descendants e (1 + Z.of_nat (size T)) (w_size w h + sumz (w_size w) T) (w_fee w h + sumz (w_fee w) T))
    (UpdateDescendantState (sumz (w_size w) T - sumz (w_size w) (D h)) (sumz (w_fee w) T - sumz (w_fee w) (D h)) (Z.of_nat (size T) - Z.of_nat (size (D h)))) He) as [Hm Hr]; [|by destruct e|].
  - unfold UpdateDescendantState. rewrite E4, E5, E6.
    replace (w_size w h + sumz (w_size w) (D h) + _) with (w_size w h + sumz (w_size w) T) by lia.
    replace (1 + Z.of_nat (size (D h)) + _) with (1 + Z.of_nat (size T)) by lia. replace (w_fee w h + sumz (w_fee w) (D h) + _) with (w_fee w h + sumz (w_fee w) T) by lia.
    cbv zeta. rewrite !(wrapu_small 64) by (unfold in_u; lia). rewrite !(wraps_small 64) by (unfold in_s; lia). unfold cassert. rewrite !(proj2 (Z.ltb_lt _ _)) by lia. cbn [mbind outcome_bind].
    unfold int64_result. by rewrite decide_True.
  - exists (with_mapTx p (<[h := with_descendants e (1 + Z.of_nat (size T)) (w_size w h + sumz (w_size w) T) (w_fee w h + sumz (w_fee w) T)]> (mapTx p))). split_and!; [done| |done]. intros k x. cbn [mapTx with_mapTx]. unfold set_at. intros Hk. destruct (decide (h = k)) as [<-|Hne].
    + rewrite lookup_insert_eq in Hk. injection Hk as <-. by split; rewrite ?decide_True by done.
    + rewrite lookup_insert_ne in Hk by done. destruct (Hc k x Hk). by split; rewrite ?decide_False by done.
Qed.

Lemma set_ancestors D A p h T : counted w D A p -> h ∈ dom (mapTx p) -> h ∈ U -> T ⊆ U -> h ∉ T ->
  exists p', modify h (UpdateAncestorState (sumz (w_size w) T - sumz (w_size w) (A h)) (sumz (w_fee w) T - sumz (w_fee w) (A h)) (Z.of_nat (size T) - Z.of_nat (size (A h))) (sumz (w_sig w) T - sumz (w_sig w) (A h))) p = Ok p' /\
    counted w D (set_at h T A) p' /\ recounted p p'.
Proof.
  intros Hc [e He]%elem_of_dom HU HT Hn. destruct (Hc h e He) as [E1 E2 E3 E4 E5 E6 E7 E8 E9 E10]. destruct (small_sums h T HU HT Hn) as (B1 & B2 & B3 & B4).
  destruct (modify_recounts p h e (with_ancestors e (1 + Z.of_nat (size T)) (w_size w h + sumz (w_size w) T) (w_fee w h + sumz (w_fee w) T) (w_sig w h + sumz (w_sig w) T))
    (UpdateAncestorState (sumz (w_size w) T - sumz (w_size w) (A h)) (sumz (w_fee w) T - sumz (w_fee w) (A h)) (Z.of_nat (size T) - Z.of_nat (size (A h))) (sumz (w_sig w) T - sumz (w_sig w) (A h))) He) as [Hm Hr]; [|by destruct e|].
  - unfold UpdateAncestorState. rewrite E7, E8, E9, E10.
    replace (w_size w h + sumz (w_size w) (A h) + _) with (w_size w h + sumz (w_size w) T) by lia. replace (w_sig w h + sumz (w_sig w) (A h) + _) with (w_sig w h + sumz (w_sig w) T) by lia.
    replace (1 + Z.of_nat (size (A h)) + _) with (1 + Z.of_nat (size T)) by lia. replace (w_fee w h + sumz (w_fee w) (A h) + _) with (w_fee w h + sumz (w_fee w) T) by lia.
    cbv zeta. rewrite !(wrapu_small 64), (wrapu_small 32) by (unfold in_u; lia). rewrite !(wraps_small 64), (wraps_small 32) by (unfold in_s; lia). unfold cassert. rewrite !(proj2 (Z.ltb_lt _ _)), (proj2 (Z.leb_le _ _)) by lia. cbn [mbind outcome_bind].
    unfold int64_result. by rewrite decide_True.
  - exists (with_mapTx p (<[h := with_ancestors e (1 + Z.of_nat (size T)) (w_size w h + sumz (w_size w) T) (w_fee w h + sumz (w_fee w) T) (w_sig w h + sumz (w_sig w) T)]> (mapTx p))). split_and!; [done| |done]. intros k x. cbn [mapTx with_mapTx]. unfold set_at. intros Hk. destruct (decide (h = k)) as [<-|Hne].
    + rewrite lookup_insert_eq in Hk. injection Hk as <-. by split; rewrite ?decide_True by done.
    + rewrite lookup_insert_ne in Hk by done. destruct (Hc k x Hk). by split; rewrite ?decide_False by done.
Qed.

Definition set_on (l : list uint256) (g D : uint256 -> gset uint256) (x : uint256) : gset uint256 := if decide (x ∈ l) then g x else D x.

Lemma counted_ext D D' A A' p : (forall h, h ∈ dom (mapTx p) -> D' h = D h /\ A' h = A h) -> counted w D A p -> counted w D' A' p.
Proof.
  intros E Hc h e He. destruct (E h ltac:(by apply elem_of_dom; exists e)) as [E1 E2]. destruct (Hc h e He). by split; rewrite ?E1, ?E2.
Qed.
Lemma set_on_cons h l g D x : h ∉ l -> set_on (h :: l) g D x = set_on l g (set_at h (g h) D) x.
Proof.
  intros Hn. unfold set_on, set_at. destruct (decide (x = h)) as [->|Hne].
  - rewrite decide_True by left. by rewrite decide_False.
  - destruct (decide (x ∈ l)) as [Hi|Hi]; [by rewrite decide_True by (by right)|]. rewrite decide_False; [done|]. rewrite elem_of_cons. tauto.
Qed.

(** A loop that changes the counters of the entries of a list by the same
    amounts. *)
Lemma each_descendants g ds df dc A l : forall D p, NoDup l ->
  (forall h, h ∈ l -> h ∈ dom (mapTx p) /\ h ∈ U /\ g h ⊆ U /\ h ∉ g h /\
     ds = sumz (w_size w) (g h) - sumz (w_size w) (D h) /\ df = sumz (w_fee w) (g h) - sumz (w_fee w) (D h) /\ dc = Z.of_nat (size (g h)) - Z.of_nat (size (D h))) ->
  counted w D A p ->
  exists p', for_each (fun h => modify h (UpdateDescendantState ds df dc)) l p = Ok p' /\ counted w (set_on l g D) A p' /\ recounted p p'.
Proof.
  induction l as [|h l IH]; intros D p Hnd Hl Hc; cbn [for_each].
  - exists p. split_and!; [done| |done]. by apply (counted_ext D _ A).
  - apply NoDup_cons in Hnd as [Hh Hnd]. destruct (Hl h ltac:(left)) as (H1 & H2 & H3 & H4 & Es & Ef & Ec).
    destruct (set_descendants D A p h (g h) Hc H1 H2 H3 H4) as (p1 & Hm & Hc1 & R1). rewrite <- Es, <- Ef, <- Ec in Hm. rewrite Hm. cbn [mbind outcome_bind].
    destruct (IH (set_at h (g h) D) p1 Hnd) as (p2 & -> & Hc2 & R2); [|done|].
    + intros k Hk. destruct (Hl k ltac:(by right)) as (K1 & K2 & K3 & K4 & K5 & K6 & K7). rewrite (recounted_dom _ _ R1). unfold set_at. rewrite decide_False by (intros ->; done). done.
    + exists p2. split_and!; [done| |by transitivity p1]. revert Hc2. apply counted_ext. intros x _. split; [by apply set_on_cons|done].
Qed.
Lemma each_ancestors g ds df dc dg D l : forall A p, NoDup l ->
  (forall h, h ∈ l -> h ∈ dom (mapTx p) /\ h ∈ U /\ g h ⊆ U /\ h ∉ g h /\
     ds = sumz (w_size w) (g h) - sumz (w_size w) (A h) /\ df = sumz (w_fee w) (g h) - sumz (w_fee w) (A h) /\ dc = Z.of_nat (size (g h)) - Z.of_nat (size (A h)) /\
     dg = sumz (w_sig w) (g h) - sumz (w_sig w) (A h)) ->
  counted w D A p ->
  exists p', for_each (fun h => modify h (UpdateAncestorState ds df dc dg)) l p = Ok p' /\ counted w D (set_on l g A) p' /\ recounted p p'.
Proof.
  induction l as [|h l IH]; intros A p Hnd Hl Hc; cbn [for_each].
  - exists p. split_and!; [done| |done]. by apply (counted_ext D _ A).
  - apply NoDup_cons in Hnd as [Hh Hnd]. destruct (Hl h ltac:(left)) as (H1 & H2 & H3 & H4 & Es & Ef & Ec & Eg).
    destruct (set_ancestors D A p h (g h) Hc H1 H2 H3 H4) as (p1 & Hm & Hc1 & R1). rewrite <- Es, <- Ef, <- Ec, <- Eg in Hm. rewrite Hm. cbn [mbind outcome_bind].
    destruct (IH (set_at h (g h) A) p1 Hnd) as (p2 & -> & Hc2 & R2); [|done|].
    + intros k Hk. destruct (Hl k ltac:(by right)) as (K1 & K2 & K3 & K4 & K5 & K6 & K7 & K8). rewrite (recounted_dom _ _ R1). unfold set_at. rewrite decide_False by (intros ->; done). done.
    + exists p2. split_and!; [done| |by transitivity p1]. revert Hc2. apply counted_ext. intros x _. split; [done|by apply set_on_cons].
Qed.
End Counting.

(** ** Links *)

Lemma sumz_update {K} `{Countable K} (f g : K -> Z) (s : gset K) h : h ∈ s -> (forall x, x ∈ s -> x <> h -> g x = f x) -> sumz g s = sumz f s - f h + g h.
Proof.
  intros Hh E. rewrite (union_difference_L {[h]} s) by set_solver. rewrite !sumz_insert by set_solver.
  rewrite (sumz_ext g f (s ∖ {[h]})); [lia|]. intros x Hx. apply E; set_solver.
Qed.

(** The links are those of the functions [P] and [C]. *)
Definition linked (P C : uint256 -> gset uint256) (p : CTxMemPool) : Prop :=
  dom (mapLinks p) = dom (mapTx p) /\ forall h l, mapLinks p !! h = Some l -> l = Links (P h) (C h).
Definition usage_ok (P C : uint256 -> gset uint256) (p : CTxMemPool) : Prop :=
  cachedInnerUsage p = u64 (sumz (weight p nUsageSize) (dom (mapTx p)) +
    IncrementalDynamicUsage * sumz (fun h => Z.of_nat (size (P h)) + Z.of_nat (size (C h))) (dom (mapTx p))).

(** A pool of which only counters, links and their accounting changed. *)
Record reworked (p p' : CTxMemPool) : Prop := {
  rw_rest : p' = with_links (with_mapTx p (mapTx p')) (mapLinks p') (cachedInnerUsage p');
  rw_core : forall h, core <$> mapTx p' !! h = core <$> mapTx p !! h;
}.
#[export] Instance reworked_preorder : PreOrder reworked.
Proof.
  split; [by intros []|]. intros a b c [H1 H2] [H3 H4]. split; [rewrite H3, H1; done|]. intros h. by rewrite H4.
Qed.
Lemma recounted_reworked p p' : recounted p p' -> reworked p p'.
Proof. intros [H1 H2]. split; [|done]. rewrite H1. by destruct p. Qed.
Lemma relinked_reworked p m u : reworked p (with_links p m u).
Proof. by split. Qed.
Lemma reworked_dom p p' : reworked p p' -> dom (mapTx p') = dom (mapTx p).
Proof. intros [_ H]. apply set_eq. intros h. rewrite !elem_of_dom. specialize (H h). by destruct (mapTx p' !! h), (mapTx p !! h). Qed.
Lemma reworked_weight p p' f : reworked p p' -> (forall e e', core e' = core e -> f e' = f e) -> forall h, weight p' f h = weight p f h.
Proof.
  intros [_ R] Hf h. unfold weight. specialize (R h). destruct (mapTx p' !! h), (mapTx p !! h); cbn in R |- *; try done. apply Hf. congruence.
Qed.

Lemma linked_lookup P C p h : linked P C p -> is_Some (mapTx p !! h) -> mapLinks p !! h = Some (Links (P h) (C h)).
Proof.
  intros [Hd Hl] Hh%elem_of_dom. rewrite <- Hd in Hh. apply elem_of_dom in Hh as [l Hl']. by rewrite Hl', (Hl h l Hl').
Qed.
Lemma linked_ext P C P' C' p : (forall h, h ∈ dom (mapTx p) -> P' h = P h /\ C' h = C h) -> linked P C p -> linked P' C' p.
Proof.
  intros E [Hd Hl]. split; [done|]. intros h l Hh. rewrite (Hl h l Hh). destruct (E h) as [-> ->]; [|done]. rewrite <- Hd. apply elem_of_dom. by exists l.
Qed.
Lemma usage_ext P C P' C' p : (forall h, h ∈ dom (mapTx p) -> P' h = P h /\ C' h = C h) -> usage_ok P C p -> usage_ok P' C' p.
Proof.
  unfold usage_ok. intros E ->. do 3 f_equal. apply sumz_ext. intros h Hh. by destruct (E h Hh) as [-> ->].
Qed.
Lemma recounted_linked P C p p' : recounted p p' -> linked P C p -> usage_ok P C p -> linked P C p' /\ usage_ok P C p'.
Proof.
  intros R [Hd Hl] Hu. pose proof (recounted_dom _ _ R) as E. split; [split; rewrite (recounted_links _ _ R)|]; [by rewrite Hd|done|].
  unfold usage_ok. rewrite E. rewrite (sumz_ext (weight p' nUsageSize) (weight p nUsageSize)) by (intros x _; apply (recounted_weight _ _ _ R); intros e e' Hc; by apply entry_core_fields in Hc as (_ & _ & _ & _ & ?)).
  rewrite <- Hu. destruct R as [-> _]. done.
Qed.

Lemma wrapu_add_l k a b : wrapu k (wrapu k a + b) = wrapu k (a + b).
Proof. apply Zplus_mod_idemp_l. Qed.
Lemma wrapu_sub_l k a b : wrapu k (wrapu k a - b) = wrapu k (a - b).
Proof. apply Zminus_mod_idemp_l. Qed.
Lemma wrapu_sub_r k a b : wrapu k (a - wrapu k b) = wrapu k (a - b).
Proof. apply Zminus_mod_idemp_r. Qed.
Lemma wrapu_add_r k a b : wrapu k (a + wrapu k b) = wrapu k (a + b).
Proof. apply Zplus_mod_idemp_r. Qed.

Lemma elem_size_pos (s : gset uint256) (x : uint256) : x ∈ s -> (1 <= size s)%nat.
Proof. intros Hx. pose proof (subseteq_size {[x]} s ltac:(set_solver)) as H. by rewrite size_singleton in H. Qed.
Lemma wrapu_ex k x : exists q, wrapu k x = x + q * 2 ^ k.
Proof. exists (- (x / 2 ^ k)). unfold wrapu. destruct (decide (2 ^ k = 0)) as [->|]; [by rewrite Zmod_0_r, Z.mul_0_r, Z.add_0_r|]. rewrite Z.mod_eq by done. lia. Qed.
Lemma wrapu_eq k a b q : a = b + q * 2 ^ k -> wrapu k a = wrapu k b.
Proof. intros ->. apply Z_mod_plus_full. Qed.

Lemma UpdateChild_linked P C p (h c : uint256) (add : bool) : linked P C p -> usage_ok P C p -> is_Some (mapTx p !! h) ->
  let C' := set_at h (if add then {[c]} ∪ C h else C h ∖ {[c]} : gset uint256) C in
  linked P C' (UpdateChild h c add p) /\ usage_ok P C' (UpdateChild h c add p) /\ reworked p (UpdateChild h c add p) /\ mapTx (UpdateChild h c add p) = mapTx p.
Proof.
  intros Hl Hu Hh C'. pose proof (linked_lookup _ _ _ _ Hl Hh) as E. destruct Hl as [Hd Hl].
  set (X := (if add then {[c]} ∪ C h else C h ∖ {[c]}) : gset uint256) in *.
  assert (EU : UpdateChild h c add p = with_links p (<[h := Links (P h) X]> (mapLinks p)) (u64 (cachedInnerUsage p + IncrementalDynamicUsage * (Z.of_nat (size X) - Z.of_nat (size (C h)))))).
  { assert (E0 : u64 (cachedInnerUsage p) = cachedInnerUsage p) by (rewrite Hu; apply wrapu_small, wrapu_range; lia).
    unfold UpdateChild, links_of, X. rewrite E. cbn [default children parents]. destruct add; case_bool_decide as Hc; cbn [andb negb].
    - replace ({[c]} ∪ C h) with (C h) by set_solver. by rewrite Z.sub_diag, Z.mul_0_r, Z.add_0_r, E0.
    - rewrite size_union, size_singleton by set_solver. do 2 f_equal. lia.
    - rewrite size_difference, size_singleton by set_solver. assert (1 <= size (C h))%nat by by apply (elem_size_pos _ c). rewrite Nat2Z.inj_sub by done. do 2 f_equal. lia.
    - replace (C h ∖ {[c]}) with (C h) by set_solver. by rewrite Z.sub_diag, Z.mul_0_r, Z.add_0_r, E0. }
  rewrite EU. split_and!; [split| |apply relinked_reworked|done].
  - cbn [mapLinks mapTx with_links]. rewrite dom_insert_L, Hd. apply elem_of_dom in Hh. set_solver.
  - intros k l. cbn [mapLinks with_links]. unfold C', set_at. destruct (decide (h = k)) as [<-|Hne].
    + rewrite lookup_insert_eq, decide_True by done. by intros [= <-].
    + rewrite lookup_insert_ne, decide_False by done. apply Hl.
  - unfold usage_ok. cbn [cachedInnerUsage mapTx with_links]. rewrite Hu, wrapu_add_l. unfold weight. cbn [mapTx with_links]. f_equal.
    rewrite (sumz_update (fun h => Z.of_nat (size (P h)) + Z.of_nat (size (C h))) (fun h => Z.of_nat (size (P h)) + Z.of_nat (size (C' h))) _ h).
    + unfold C', set_at. rewrite decide_True by done. lia.
    + by apply elem_of_dom.
    + intros x _ Hx. unfold C', set_at. by rewrite decide_False.
Qed.
Lemma UpdateParent_linked P C p (h q : uint256) (add : bool) : linked P C p -> usage_ok P C p -> is_Some (mapTx p !! h) ->
  let P' := set_at h (if add then {[q]} ∪ P h else P h ∖ {[q]} : gset uint256) P in
  linked P' C (UpdateParent h q add p) /\ usage_ok P' C (UpdateParent h q add p) /\ reworked p (UpdateParent h q add p) /\ mapTx (UpdateParent h q add p) = mapTx p.
Proof.
  intros Hl Hu Hh P'. pose proof (linked_lookup _ _ _ _ Hl Hh) as E. destruct Hl as [Hd Hl].
  set (X := (if add then {[q]} ∪ P h else P h ∖ {[q]}) : gset uint256) in *.
  assert (EU : UpdateParent h q add p = with_links p (<[h := Links X (C h)]> (mapLinks p)) (u64 (cachedInnerUsage p + IncrementalDynamicUsage * (Z.of_nat (size X) - Z.of_nat (size (P h)))))).
  { assert (E0 : u64 (cachedInnerUsage p) = cachedInnerUsage p) by (rewrite Hu; apply wrapu_small, wrapu_range; lia).
    unfold UpdateParent, links_of, X. rewrite E. cbn [default children parents]. destruct add; case_bool_decide as Hc; cbn [andb negb].
    - replace ({[q]} ∪ P h) with (P h) by set_solver. by rewrite Z.sub_diag, Z.mul_0_r, Z.add_0_r, E0.
    - rewrite size_union, size_singleton by set_solver. do 2 f_equal. lia.
    - rewrite size_difference, size_singleton by set_solver. assert (1 <= size (P h))%nat by by apply (elem_size_pos _ q). rewrite Nat2Z.inj_sub by done. do 2 f_equal. lia.
    - replace (P h ∖ {[q]}) with (P h) by set_solver. by rewrite Z.sub_diag, Z.mul_0_r, Z.add_0_r, E0. }
  rewrite EU. split_and!; [split| |apply relinked_reworked|done].
  - cbn [mapLinks mapTx with_links]. rewrite dom_insert_L, Hd. apply elem_of_dom in Hh. set_solver.
  - intros k l. cbn [mapLinks with_links]. unfold P', set_at. destruct (decide (h = k)) as [<-|Hne].
    + rewrite lookup_insert_eq, decide_True by done. by intros [= <-].
    + rewrite lookup_insert_ne, decide_False by done. apply Hl.
  - unfold usage_ok. cbn [cachedInnerUsage mapTx with_links]. rewrite Hu, wrapu_add_l. unfold weight. cbn [mapTx with_links]. f_equal.
    rewrite (sumz_update (fun h => Z.of_nat (size (P h)) + Z.of_nat (size (C h))) (fun h => Z.of_nat (size (P' h)) + Z.of_nat (size (C h))) _ h).
    + unfold P', set_at. rewrite decide_True by done. lia.
    + by apply elem_of_dom.
    + intros x _ Hx. unfold P', set_at. by rewrite decide_False.
Qed.

Lemma fold_children P c (add : bool) l : forall C p, NoDup l -> (forall h, h ∈ l -> is_Some (mapTx p !! h)) -> linked P C p -> usage_ok P C p ->
  let C' := set_on l (fun x => if add then {[c]} ∪ C x else C x ∖ {[c]} : gset uint256) C in
  let p' := foldl (fun p h => UpdateChild h c add p) p l in
  linked P C' p' /\ usage_ok P C' p' /\ reworked p p' /\ mapTx p' = mapTx p.
Proof.
  induction l as [|h l IH]; intros C p Hnd Hin Hl Hu C' p'; [done|]. apply NoDup_cons in Hnd as [Hh Hnd].
  destruct (UpdateChild_linked P C p h c add Hl Hu) as (L1 & U1 & R1 & E1); [apply Hin; left|].
  destruct (IH (set_at h (if add then {[c]} ∪ C h else C h ∖ {[c]} : gset uint256) C) (UpdateChild h c add p) Hnd) as (L2 & U2 & R2 & E2); [|done|done|].
  { intros k Hk. rewrite E1. apply Hin. by right. }
  assert (EC : forall x, C' x = set_on l (fun x => if add then {[c]} ∪ set_at h (if add then {[c]} ∪ C h else C h ∖ {[c]} : gset uint256) C x else set_at h (if add then {[c]} ∪ C h else C h ∖ {[c]} : gset uint256) C x ∖ {[c]} : gset uint256) (set_at h (if add then {[c]} ∪ C h else C h ∖ {[c]} : gset uint256) C) x).
  { intros x. unfold C'. rewrite set_on_cons by done. unfold set_on. destruct (decide (x ∈ l)); [|done]. unfold set_at. by rewrite decide_False by (intros ->; done). }
  unfold p'. cbn [foldl]. split_and!.
  - revert L2. apply linked_ext. intros x _. split; [done|apply EC].
  - revert U2. apply usage_ext. intros x _. split; [done|apply EC].
  - by transitivity (UpdateChild h c add p).
  - congruence.
Qed.
Lemma fold_parents C q l : forall P p, NoDup l -> (forall h, h ∈ l -> is_Some (mapTx p !! h)) -> linked P C p -> usage_ok P C p ->
  let P' := set_on l (fun x => P x ∖ {[q]} : gset uint256) P in
  let p' := foldl (fun p h => UpdateParent h q false p) p l in
  linked P' C p' /\ usage_ok P' C p' /\ reworked p p' /\ mapTx p' = mapTx p.
Proof.
  induction l as [|h l IH]; intros P p Hnd Hin Hl Hu P' p'; [done|]. apply NoDup_cons in Hnd as [Hh Hnd].
  destruct (UpdateParent_linked P C p h q false Hl Hu) as (L1 & U1 & R1 & E1); [apply Hin; left|].
  destruct (IH (set_at h (P h ∖ {[q]}) P) (UpdateParent h q false p) Hnd) as (L2 & U2 & R2 & E2); [|done|done|].
  { intros k Hk. rewrite E1. apply Hin. by right. }
  assert (EP : forall x, P' x = set_on l (fun x => set_at h (P h ∖ {[q]}) P x ∖ {[q]} : gset uint256) (set_at h (P h ∖ {[q]}) P) x).
  { intros x. unfold P'. rewrite set_on_cons by done. unfold set_on. destruct (decide (x ∈ l)); [|done]. unfold set_at. by rewrite decide_False by (intros ->; done). }
  unfold p'. cbn [foldl]. split_and!.
  - revert L2. apply linked_ext. intros x _. split; [apply EP|done].
  - revert U2. apply usage_ext. intros x _. split; [apply EP|done].
  - by transitivity (UpdateParent h q false p).
  - congruence.
Qed.

(** ** The sets of relatives *)

(** Parents, children, ancestors and descendants within a set of transactions. *)
Record family (U : gset uint256) (P C Ac Dc : uint256 -> gset uint256) : Prop := {
  fam_parents : forall h q, q ∈ P h -> h ∈ U /\ q ∈ U;
  fam_children : forall h c, c ∈ C h <-> h ∈ P c;
  fam_ancestors : forall h a, a ∈ Ac h <-> tc (fun c q => q ∈ P c) h a;
  fam_descendants : forall h d, d ∈ Dc h <-> tc (fun c q => q ∈ P c) d h;
  fam_acyclic : forall h, ~ tc (fun c q => q ∈ P c) h h;
}.

Section Family.
Context (U : gset uint256) (P C Ac Dc : uint256 -> gset uint256) (F : family U P C Ac Dc).

Lemma tc_in_U h a : tc (fun c q => q ∈ P c) h a -> h ∈ U /\ a ∈ U.
Proof. intros Hr. induction Hr as [x y Hxy|x y z Hxy _ IH]; [by apply (fam_parents _ _ _ _ _ F)|]. split; [by apply (fam_parents _ _ _ _ _ F x y)|tauto]. Qed.
Lemma fam_dual h d : d ∈ Dc h <-> h ∈ Ac d.
Proof. by rewrite (fam_descendants _ _ _ _ _ F), (fam_ancestors _ _ _ _ _ F). Qed.
Lemma fam_sub h : Ac h ⊆ U /\ Dc h ⊆ U.
Proof. split; intros x Hx; [apply (fam_ancestors _ _ _ _ _ F) in Hx|apply (fam_descendants _ _ _ _ _ F) in Hx]; apply tc_in_U in Hx; tauto. Qed.
Lemma fam_self h : h ∉ Ac h /\ h ∉ Dc h.
Proof. split; intros Hx; [apply (fam_ancestors _ _ _ _ _ F) in Hx|apply (fam_descendants _ _ _ _ _ F) in Hx]; by apply (fam_acyclic _ _ _ _ _ F) in Hx. Qed.
Lemma fam_parents_sub h : P h ⊆ U.
Proof. intros q Hq. apply (fam_parents _ _ _ _ _ F) in Hq. tauto. Qed.

(** The family that is left when a set goes away that holds all the children, or
    all the parents, of what is in it. *)
Lemma family_restrict S : (forall s c, s ∈ S -> c ∈ C s -> c ∈ S) \/ (forall s q, s ∈ S -> q ∈ P s -> q ∈ S) ->
  family (U ∖ S) (fun h => if decide (h ∈ S) then ∅ else P h ∖ S) (fun h => if decide (h ∈ S) then ∅ else C h ∖ S)
    (fun h => if decide (h ∈ S) then ∅ else Ac h ∖ S) (fun h => if decide (h ∈ S) then ∅ else Dc h ∖ S).
Proof.
  intros HS. set (P' := fun h : uint256 => if decide (h ∈ S) then ∅ else P h ∖ S : gset uint256).
  assert (EP : forall h q, q ∈ P' h <-> q ∈ P h /\ h ∉ S /\ q ∉ S) by (intros h q; unfold P'; case_decide; set_solver).
  assert (Htc : forall h a, tc (fun c q => q ∈ P' c) h a <-> tc (fun c q => q ∈ P c) h a /\ h ∉ S /\ a ∉ S).
  { intros h a. split.
    - intros Hr. induction Hr as [x y Hxy|x y z Hxy _ IH]; apply EP in Hxy as (H1 & H2 & H3); [split; [by apply tc_once|done]|].
      split; [apply tc_l with y; [done|tauto]|tauto].
    - intros (Hr & Hh & Ha). destruct HS as [HS|HS].
      + induction Hr as [x y Hxy|x y z Hxy _ IH]; [apply tc_once, EP; done|]. assert (y ∉ S) by (intros Hy; apply Hh, (HS y); [done|by apply (fam_children _ _ _ _ _ F)]).
        apply tc_l with y; [by apply EP|by apply IH].
      + induction Hr as [x y Hxy|x y z Hxy Hyz IH]; [apply tc_once, EP; done|]. assert (y ∉ S).
        { intros Hy. apply Ha. clear - HS Hy Hyz. induction Hyz as [x y Hxy|x y z Hxy _ IH]; [by apply (HS x)|]. apply IH. by apply (HS x). }
        apply tc_l with y; [by apply EP|by apply IH]. }
  split.
  - intros h q (H1 & H2 & H3)%EP. apply (fam_parents _ _ _ _ _ F) in H1. set_solver.
  - intros h c. fold P'. rewrite EP. pose proof (fam_children _ _ _ _ _ F h c). case_decide; set_solver.
  - intros h a. fold P'. rewrite Htc, <- (fam_ancestors _ _ _ _ _ F). case_decide; set_solver.
  - intros h d. fold P'. rewrite Htc, <- (fam_descendants _ _ _ _ _ F). case_decide; set_solver.
  - intros h. fold P'. rewrite Htc. intros [Hx _]. by apply (fam_acyclic _ _ _ _ _ F) in Hx.
Qed.
End Family.

(** ** Leaving the pool *)

Lemma sumz_remove (f : uint256 -> Z) (s : gset uint256) (c : uint256) : c ∈ s -> sumz f (s ∖ {[c]}) - sumz f s = - f c.
Proof. intros Hc. rewrite sumz_diff by set_solver. rewrite sumz_singleton. lia. Qed.
Lemma size_remove (s : gset uint256) (c : uint256) : c ∈ s -> Z.of_nat (size (s ∖ {[c]})) - Z.of_nat (size s) = -1.
Proof. intros Hc. rewrite <- !sumz_size. by rewrite (sumz_remove (fun _ => 1)). Qed.

(** A loop over a set, one element after the other. *)
Lemma for_each_set (Q : gset uint256 -> CTxMemPool -> Prop) (f : uint256 -> CTxMemPool -> pool_op CTxMemPool) (S : gset uint256) p :
  (forall it T q, it ∈ S -> it ∉ T -> Q T q -> exists q', f it q = Ok q' /\ Q ({[it]} ∪ T) q') ->
  Q ∅ p -> exists p', for_each f (in_order S) p = Ok p' /\ Q S p'.
Proof.
  intros Hf. assert (G : forall l T q, NoDup l -> (forall h, h ∈ l -> h ∈ S /\ h ∉ T) -> Q T q -> exists q', for_each f l q = Ok q' /\ Q (list_to_set l ∪ T) q').
  { induction l as [|h l IH]; intros T q Hnd Hl Hq; cbn [for_each]; [exists q; split; [done|]; replace (list_to_set [] ∪ T) with T by (cbn; set_solver); done|].
    apply NoDup_cons in Hnd as [Hh Hnd]. destruct (Hl h ltac:(left)) as [H1 H2]. destruct (Hf h T q H1 H2 Hq) as (q1 & -> & Q1). cbn [mbind outcome_bind].
    destruct (IH ({[h]} ∪ T) q1 Hnd) as (q2 & -> & Q2); [|done|].
    - intros k Hk. destruct (Hl k ltac:(by right)) as [? ?]. split; [done|]. apply not_elem_of_union. split; [|done]. intros ->%elem_of_singleton. done.
    - exists q2. split; [done|]. cbn [list_to_set]. replace ({[h]} ∪ list_to_set l ∪ T) with (list_to_set l ∪ ({[h]} ∪ T)) by set_solver. done. }
  intros Hp. destruct (G (in_order S) ∅ p (in_order_NoDup S)) as (p' & Hp' & HQ); [intros h Hh%elem_in_order; set_solver|done|].
  exists p'. split; [done|]. replace S with (list_to_set (in_order S) ∪ ∅ : gset uint256); [done|]. apply set_eq. intros x. rewrite elem_of_union, elem_of_list_to_set, elem_in_order. set_solver.
Qed.

(** What the loops over a pool keep. *)
Record staged (w : weights) (U : gset uint256) (P C D A : uint256 -> gset uint256) (p0 p : CTxMemPool) : Prop := {
  st_dom : dom (mapTx p) = U;
  st_linked : linked P C p;
  st_usage : usage_ok P C p;
  st_counted : counted w D A p;
  st_reworked : reworked p0 p;
}.
Lemma staged_ext w U P C D A P' C' D' A' p0 p :
  (forall h, h ∈ U -> P' h = P h /\ C' h = C h /\ D' h = D h /\ A' h = A h) -> staged w U P C D A p0 p -> staged w U P' C' D' A' p0 p.
Proof.
  intros E [<- H2 H3 H4 H5]. split; [done| | | |done].
  - revert H2. apply linked_ext. intros h Hh. destruct (E h Hh) as (? & ? & _). done.
  - revert H3. apply usage_ext. intros h Hh. destruct (E h Hh) as (? & ? & _). done.
  - revert H4. apply counted_ext. intros h Hh. destruct (E h Hh) as (_ & _ & ? & ?). done.
Qed.
Lemma staged_recounted w U P C D A D' A' p0 p p' : staged w U P C D A p0 p -> recounted p p' -> counted w D' A' p' -> staged w U P C D' A' p0 p'.
Proof.
  intros [<- H2 H3 H4 H5] R Hc. destruct (recounted_linked P C p p' R H2 H3) as [L1 U1]. split; try done; [by apply recounted_dom|].
  transitivity p; [done|]. by apply recounted_reworked.
Qed.

Section Leaving.
Context (w : weights) (U : gset uint256) (Hsmall : small w U).
Context (P C Ac Dc : uint256 -> gset uint256) (F : family U P C Ac Dc) (p0 : CTxMemPool).

Lemma staged_entry P' C' D A p h : staged w U P' C' D A p0 p -> h ∈ U ->
  exists e, mapTx p !! h = Some e /\ nTxSize e = w_size w h /\ sigOpCount e = w_sig w h /\ GetModifiedFee e = Ok (w_fee w h) /\
    1 <= w_size w h < 2 ^ 63 /\ - 2 ^ 63 < w_fee w h < 2 ^ 63 /\ 0 <= w_sig w h < 2 ^ 31.
Proof.
  intros S Hh. rewrite <- (st_dom _ _ _ _ _ _ _ _ S) in Hh. apply elem_of_dom in Hh as [e He]. exists e. destruct (st_counted _ _ _ _ _ _ _ _ S h e He) as [E1 E2 E3 _ _ _ _ _ _ _].
  assert (HU : h ∈ U). { rewrite <- (st_dom _ _ _ _ _ _ _ _ S). apply elem_of_dom. by exists e. }
  destruct (small_sums w U Hsmall h ∅ HU) as (B1 & B2 & _ & B4); [sets|sets|]. rewrite !sumz_empty in *.
  pose proof (sumz_subseteq (fun h => Z.abs (w_fee w h)) {[h]} U ltac:(sets) (fun x _ => Z.abs_nonneg _)) as Hf. rewrite sumz_singleton in Hf. pose proof (small_fee _ _ Hsmall).
  split_and!; try done; try lia. unfold GetModifiedFee. fold (modified_fee e). rewrite E2. unfold int64_result. rewrite decide_True; [done|]. unfold in_s. lia.
Qed.

(** The descendants found through the links. *)
Lemma descendants_found P' D A p h : staged w U P' C D A p0 p -> h ∈ U ->
  exists r, CalculateDescendants p h ∅ = Ok r /\ r ∖ {[h]} = Dc h.
Proof.
  intros S Hh. destruct (CalculateDescendants_spec p (fun h c => c ∈ C h)) with h (∅ : gset uint256) as (r & Hr & Hx); try done; try sets.
  - intros k Hk. exists (Links (P' k) (C k)). split; [|done]. apply linked_lookup; [by apply S|done].
  - intros k c Hc. rewrite (st_dom _ _ _ _ _ _ _ _ S). apply (fam_children _ _ _ _ _ F), (fam_parents _ _ _ _ _ F) in Hc. tauto.
  - by rewrite (st_dom _ _ _ _ _ _ _ _ S).
  - exists r. split; [done|]. apply set_eq. intros x. rewrite elem_of_difference, elem_of_singleton, Hx, rtc_tc, (fam_descendants _ _ _ _ _ F).
    assert (E : tc (fun h c => c ∈ C h) h x <-> tc (fun c q => q ∈ P c) x h).
    { rewrite <- tc_flip. split; intros Ht; (eapply (tc_congruence id); [|exact Ht]); intros a b Hab; by apply (fam_children _ _ _ _ _ F). }
    rewrite E. split; [sets|]. intros Ht. split; [by right; right|]. intros ->. by apply (fam_acyclic _ _ _ _ _ F) in Ht.
Qed.

Lemma leave_descendants_step T p it : it ∈ U -> it ∉ T -> staged w U P C Dc (fun x => Ac x ∖ T) p0 p ->
  exists p', leave_descendants it p = Ok p' /\ staged w U P C Dc (fun x => Ac x ∖ ({[it]} ∪ T)) p0 p'.
Proof.
  intros Hit HT S. unfold leave_descendants. destruct (descendants_found P Dc _ p it S Hit) as (r & -> & Hr). cbn [mbind outcome_bind]. rewrite Hr.
  destruct (staged_entry _ _ _ _ p it S Hit) as (e & He & Es & Eg & Ef & B1 & B2 & B3). unfold entry_at. rewrite He. cbn [mbind outcome_bind]. rewrite Es, Ef, Eg. cbn [mbind outcome_bind].
  rewrite (wraps_small 64), (wraps_small 32) by (unfold in_s; lia). unfold int64_result. rewrite !decide_True by (unfold in_s; lia). cbn [mbind outcome_bind].
  destruct (each_ancestors w U Hsmall (fun x => Ac x ∖ T ∖ {[it]}) (- w_size w it) (- w_fee w it) (-1) (- w_sig w it) Dc (in_order (Dc it)) (fun x => Ac x ∖ T) p) as (p' & -> & Hc & R); [apply in_order_NoDup| |apply S|].
  - intros h Hh%elem_in_order. assert (Hi : it ∈ Ac h ∖ T) by (apply (fam_dual _ _ _ _ _ F) in Hh; sets).
    destruct (fam_sub _ _ _ _ _ F it) as [_ Hd]. destruct (fam_sub _ _ _ _ _ F h) as [Ha _]. destruct (fam_self _ _ _ _ _ F h) as [Hs _].
    rewrite (st_dom _ _ _ _ _ _ _ _ S), !sumz_remove, size_remove by done. split_and!; try done; [sets|sets|sets|sets].
  - exists p'. split; [done|]. eapply staged_ext; [|by eapply staged_recounted]. intros h _. split_and!; try done. unfold set_on. case_decide as Hd; [sets|].
    rewrite elem_in_order in Hd. rewrite (fam_dual _ _ _ _ _ F) in Hd. sets.
Qed.

Lemma ancestors_found P' C' D A p e : staged w U P' C' D A p0 p -> (forall h, h ∈ U -> P' h = P h) -> e_hash e ∈ U ->
  exists r, CalculateMemPoolAncestors p no_limits e false = Ok (None, r) /\ r = Ac (e_hash e).
Proof.
  intros S HP Hh. unfold CalculateMemPoolAncestors, GetMemPoolParents. pose proof (st_dom _ _ _ _ _ _ _ _ S) as Hd.
  rewrite (linked_lookup P' C' p (e_hash e)) by (by apply S || by apply elem_of_dom; rewrite Hd). cbn [mbind outcome_bind parents]. rewrite HP by done.
  destruct (ancestors_loop_spec p (fun c q => q ∈ P c)) with no_limits e (pool_fuel p) (nTxSize e) (P (e_hash e)) (∅ : gset uint256) as (r & s & -> & Hr & Hn).
  - intros k Hk. exists (Links (P k) (C' k)). split; [|done]. rewrite (linked_lookup P' C' p k) by (by apply S || done). rewrite HP; [done|]. apply elem_of_dom in Hk. by rewrite <- Hd.
  - intros k q Hq. rewrite Hd. apply (fam_parents _ _ _ _ _ F) in Hq. tauto.
  - rewrite Hd. apply (fam_parents_sub _ _ _ _ _ F).
  - sets.
  - sets.
  - sets.
  - unfold pool_fuel. lia.
  - rewrite (Hn eq_refl) in *. exists s. split; [done|]. apply set_eq. intros x. rewrite (Hr eq_refl), (fam_ancestors _ _ _ _ _ F). unfold reaches. split.
    + intros [?|(q & Hq & Hqx)]; [sets|]. by eapply tc_rtc_r; [apply tc_once|].
    + intros Ht. right. inversion Ht as [? ? Hxy|? y ? Hxy Hyz]; subst; [by exists x|exists y; split; [done|by apply tc_rtc]].
Qed.

Context (Hkey : forall h e, mapTx p0 !! h = Some e -> e_hash e = h).
Lemma staged_key P' C' D A p h e : staged w U P' C' D A p0 p -> mapTx p !! h = Some e -> e_hash e = h.
Proof.
  intros S He. pose proof (rw_core _ _ (st_reworked _ _ _ _ _ _ _ _ S) h) as E. rewrite He in E. destruct (mapTx p0 !! h) as [e0|] eqn:E0; [|done].
  rewrite <- (Hkey h e0 E0). unfold e_hash. cbn in E. assert (core e = core e0) as (-> & _)%entry_core_fields by congruence. done.
Qed.

Lemma leave_ancestors_step T A p it : it ∈ U -> it ∉ T -> staged w U P (fun x => C x ∖ T) (fun x => Dc x ∖ T) A p0 p ->
  exists p', leave_ancestors it p = Ok p' /\ staged w U P (fun x => C x ∖ ({[it]} ∪ T)) (fun x => Dc x ∖ ({[it]} ∪ T)) A p0 p'.
Proof.
  intros Hit HT S. unfold leave_ancestors. destruct (staged_entry _ _ _ _ p it S Hit) as (e & He & Es & Eg & Ef & B1 & B2 & B3).
  unfold entry_at at 1. rewrite He. cbn [mbind outcome_bind]. pose proof (staged_key _ _ _ _ p it e S He) as Ek.
  destruct (ancestors_found _ _ _ _ p e S) as (r & -> & Hr); [done|by rewrite Ek|]. rewrite Ek in Hr. subst r. cbn [mbind outcome_bind snd].
  unfold UpdateAncestorsOf, GetMemPoolParents. rewrite (linked_lookup _ _ p it (st_linked _ _ _ _ _ _ _ _ S)) by done. cbn [mbind outcome_bind parents]. cbv zeta.
  destruct (fold_children P it false (in_order (P it)) (fun x => C x ∖ T) p (in_order_NoDup _)) as (L1 & U1 & R1 & E1); [|apply S|apply S|].
  { intros h Hh%elem_in_order. apply elem_of_dom. rewrite (st_dom _ _ _ _ _ _ _ _ S). by apply (fam_parents_sub _ _ _ _ _ F it). }
  set (p1 := foldl _ p (in_order (P it))) in *. cbv zeta in L1, U1.
  assert (S1 : staged w U P (fun x => C x ∖ ({[it]} ∪ T)) (fun x => Dc x ∖ T) A p0 p1).
  { apply (staged_ext w U P (set_on (in_order (P it)) (fun x => C x ∖ T ∖ {[it]}) (fun x => C x ∖ T)) (fun x => Dc x ∖ T) A).
    - intros h _. split_and!; try done. unfold set_on. case_decide as Hd; [sets|]. rewrite elem_in_order, <- (fam_children _ _ _ _ _ F) in Hd. sets.
    - split; [by rewrite E1; apply S|done|done| |by transitivity p; [apply S|]]. unfold counted. rewrite E1. apply S. }
  unfold entry_at. rewrite E1, He. cbn [mbind outcome_bind]. rewrite Es, Ef. cbn [mbind outcome_bind].
  rewrite (wraps_small 64) by (unfold in_s; lia). unfold int64_result. rewrite decide_True by (unfold in_s; lia). cbn [mbind outcome_bind].
  destruct (each_descendants w U Hsmall (fun x => Dc x ∖ T ∖ {[it]}) (-1 * w_size w it) (-1 * w_fee w it) (-1) A (in_order (Ac it)) (fun x => Dc x ∖ T) p1) as (p' & -> & Hc & R); [apply in_order_NoDup| |apply S1|].
  - intros h Hh%elem_in_order. assert (Hi : it ∈ Dc h ∖ T) by (apply (fam_dual _ _ _ _ _ F) in Hh; sets).
    destruct (fam_sub _ _ _ _ _ F it) as [Ha _]. destruct (fam_sub _ _ _ _ _ F h) as [_ Hd]. destruct (fam_self _ _ _ _ _ F h) as [_ Hs].
    rewrite (st_dom _ _ _ _ _ _ _ _ S1), !sumz_remove, size_remove by done. split_and!; try lia; [sets|sets|sets|sets].
  - exists p'. split; [done|]. eapply staged_ext; [|by eapply staged_recounted]. intros h _. split_and!; try done. unfold set_on. case_decide as Hd; [sets|].
    rewrite elem_in_order in Hd. rewrite <- (fam_dual _ _ _ _ _ F) in Hd. sets.
Qed.

(** The parents of the children that stay; [S] is what leaves, [T] the part of it
    that was done. *)
Definition parents_left (S T : gset uint256) (x : uint256) : gset uint256 := if decide (x ∈ S) then P x else P x ∖ T.

Lemma UpdateChildrenForRemoval_step S T D A p it : it ∈ U -> S ⊆ U -> it ∈ S -> staged w U (parents_left S T) (fun x => C x ∖ S) D A p0 p ->
  exists p', UpdateChildrenForRemoval it p = Ok p' /\ staged w U (parents_left S ({[it]} ∪ T)) (fun x => C x ∖ S) D A p0 p'.
Proof.
  intros Hit HS HitS St. unfold UpdateChildrenForRemoval, GetMemPoolChildren. rewrite (linked_lookup _ _ p it (st_linked _ _ _ _ _ _ _ _ St)) by (apply elem_of_dom; by rewrite (st_dom _ _ _ _ _ _ _ _ St)).
  cbn [mbind outcome_bind children]. eexists. split; [done|].
  destruct (fold_parents (fun x => C x ∖ S) it (in_order (C it ∖ S)) (parents_left S T) p (in_order_NoDup _)) as (L1 & U1 & R1 & E1); [|apply St|apply St|].
  { intros h [Hh _]%elem_in_order%elem_of_difference. apply elem_of_dom. rewrite (st_dom _ _ _ _ _ _ _ _ St). apply (fam_children _ _ _ _ _ F), (fam_parents _ _ _ _ _ F) in Hh. tauto. }
  set (p1 := foldl _ p _) in *. cbv zeta in L1, U1. eapply staged_ext; [|split; [|exact L1|exact U1| |]].
  - intros h _. split_and!; try done. unfold set_on, parents_left. pose proof (fam_children _ _ _ _ _ F it h).
    destruct (decide (h ∈ S)) as [Hs|Hs]; case_decide as Hd; rewrite elem_in_order in Hd; [sets|done|sets|].
    assert (it ∉ P h) by set_solver. sets.
  - rewrite E1. apply St.
  - unfold counted. rewrite E1. apply St.
  - transitivity p; [apply St|done].
Qed.

Lemma UpdateForRemove_spec S (upd : bool) p : S ⊆ U -> staged w U P C Dc Ac p0 p ->
  exists p', UpdateForRemoveFromMempool S upd p = Ok p' /\
    staged w U (parents_left S S) (fun x => C x ∖ S) (fun x => Dc x ∖ S) (fun x => if upd then Ac x ∖ S else Ac x) p0 p'.
Proof.
  intros HS St. unfold UpdateForRemoveFromMempool.
  assert (K0 : exists p1, (if upd then for_each leave_descendants (in_order S) p else Ok p) = Ok p1 /\ staged w U P C Dc (fun x => if upd then Ac x ∖ S else Ac x) p0 p1).
  { destruct upd; [|by exists p].
    apply (for_each_set (fun T => staged w U P C Dc (fun x => Ac x ∖ T) p0)); [|revert St; apply staged_ext; intros x _; split_and!; try done; sets].
    intros it T q Hi. apply leave_descendants_step. by apply HS. }
  destruct K0 as (p1 & -> & S1). cbn [mbind outcome_bind].
  destruct (for_each_set (fun T => staged w U P (fun x => C x ∖ T) (fun x => Dc x ∖ T) (fun x => if upd then Ac x ∖ S else Ac x) p0) leave_ancestors S p1) as (p2 & -> & S2).
  { intros it T q Hi. apply leave_ancestors_step. by apply HS. }
  { revert S1; apply staged_ext; intros x _; split_and!; try done; sets. }
  cbn [mbind outcome_bind].
  apply (for_each_set (fun T => staged w U (parents_left S T) (fun x => C x ∖ S) (fun x => Dc x ∖ S) (fun x => if upd then Ac x ∖ S else Ac x) p0)).
  - intros it T q Hi _. apply UpdateChildrenForRemoval_step; [by apply HS|done|done].
  - revert S2. apply staged_ext. intros x _. split_and!; try done. unfold parents_left. case_decide; sets.
Qed.
End Leaving.

(** ** The transactions and what they spend *)

(** [m] maps what [spends] says of a transaction of the pool to it. *)
Definition spent_by {K} `{Countable K} (p : CTxMemPool) (spends : CTransaction -> list K) (m : gmap K CTransaction) : Prop :=
  forall o tx, m !! o = Some tx <-> get p (GetHash tx) = Some tx /\ o ∈ spends tx.
Definition inputs_of (tx : CTransaction) : list COutPoint := map prevout (vin tx).

Record data_inv (p : CTxMemPool) : Prop := {
  di_key : forall h e, mapTx p !! h = Some e -> e_hash e = h /\ HasZerocoinSpendInputs (e_tx e) = false;
  di_spent : spent_by p inputs_of (mapNextTx p);
  di_nullifiers : spent_by p spent_nullifiers (mapSaplingNullifiers p);
  di_total : totalTxSize p = u64 (sumz (weight p nTxSize) (dom (mapTx p)));
}.

Lemma spent_once {K} `{Countable K} p (spends : CTransaction -> list K) m o tx tx' :
  spent_by p spends m -> get p (GetHash tx) = Some tx -> get p (GetHash tx') = Some tx' -> o ∈ spends tx -> o ∈ spends tx' -> tx = tx'.
Proof. intros Hs H1 H2 H3 H4. assert (m !! o = Some tx) by (by apply Hs). assert (m !! o = Some tx') by (by apply Hs). congruence. Qed.

Lemma fold_delete_lookup {K V} `{Countable K} (l : list K) (m : gmap K V) o : foldl (fun m k => delete k m) m l !! o = if decide (o ∈ l) then None else m !! o.
Proof.
  revert m. induction l as [|k l IH]; intros m; cbn [foldl]; [done|]. rewrite IH. destruct (decide (k = o)) as [->|Hne].
  - rewrite lookup_delete_eq, (decide_True (P := o ∈ o :: l)) by left. by destruct (decide (o ∈ l)).
  - rewrite lookup_delete_ne by done. destruct (decide (o ∈ l)); [by rewrite decide_True by (by right)|]. rewrite decide_False; [done|]. rewrite elem_of_cons. naive_solver.
Qed.
Lemma fold_delete_inputs (l : list CTxIn) (m : gmap COutPoint CTransaction) :
  foldl (fun m i => delete (prevout i) m) m l = foldl (fun m k => delete k m) m (map prevout l).
Proof. revert m. induction l as [|i l IH]; intros m; cbn; [done|]. apply IH. Qed.

Lemma spent_by_delete {K} `{Countable K} p p' (spends : CTransaction -> list K) m it e :
  mapTx p !! it = Some e -> e_hash e = it -> mapTx p' = delete it (mapTx p) -> spent_by p spends m ->
  spent_by p' spends (foldl (fun m k => delete k m) m (spends (e_tx e))).
Proof.
  intros He Hk E Hs o tx. rewrite fold_delete_lookup. assert (Hget : get p (GetHash (e_tx e)) = Some (e_tx e)) by (unfold get; fold (e_hash e); by rewrite Hk, He).
  assert (Hg : get p' (GetHash tx) = if decide (it = GetHash tx) then None else get p (GetHash tx)).
  { unfold get. rewrite E. case_decide as Hd; [by rewrite <- Hd, lookup_delete_eq|by rewrite lookup_delete_ne]. }
  rewrite Hg. destruct (decide (o ∈ spends (e_tx e))) as [Ho|Ho]; (split; [intros Hm|intros [Hm Hin]]).
  - done.
  - case_decide as Hd; [done|]. assert (tx = e_tx e) as -> by (by eapply spent_once). by rewrite <- Hk in Hd.
  - apply Hs in Hm as [Hm Hin]. split; [|done]. rewrite decide_False; [done|]. intros ->. unfold get in Hm. rewrite He in Hm. cbn in Hm. congruence.
  - case_decide; [done|]. by apply Hs.
Qed.

Lemma sumz_delete_weight p p' f it e : mapTx p !! it = Some e -> mapTx p' = delete it (mapTx p) -> sumz (weight p' f) (dom (mapTx p')) = sumz (weight p f) (dom (mapTx p)) - f e.
Proof.
  intros He E. rewrite E, dom_delete_L. rewrite (sumz_ext _ (weight p f)).
  - rewrite sumz_diff, sumz_singleton; [unfold weight at 2; by rewrite He|]. apply singleton_subseteq_l, elem_of_dom. by exists e.
  - intros x [_ Hx]%elem_of_difference. unfold weight. rewrite E, lookup_delete_ne by set_solver. done.
Qed.

Lemma removeUnchecked_ok P C p it : it ∈ dom (mapTx p) -> data_inv p -> linked P C p -> usage_ok P C p ->
  exists p', removeUnchecked it p = Ok p' /\ data_inv p' /\ linked P C p' /\ usage_ok P C p' /\ mapTx p' = delete it (mapTx p) /\ mapDeltas p' = mapDeltas p.
Proof.
  intros [e He]%elem_of_dom [K1 K2 K3 K4] Hl Hu. destruct (K1 it e He) as [Hk Hz]. unfold removeUnchecked, entry_at, links_of. rewrite He. cbn [mbind outcome_bind].
  rewrite (linked_lookup P C p it Hl) by (by exists e). cbn [default children parents]. rewrite fold_delete_inputs. eexists. split; [done|]. split_and!; [split| | |done|done].
  - intros h x. cbn [mapTx]. intros [_ Hx]%lookup_delete_Some. by apply K1.
  - by apply (spent_by_delete p _ inputs_of _ it e).
  - by apply (spent_by_delete p _ spent_nullifiers _ it e).
  - cbn [totalTxSize]. rewrite (sumz_delete_weight p _ nTxSize it e He) by done. by rewrite K4, wrapu_sub_l.
  - destruct Hl as [Hd Hl]. split; [cbn; by rewrite !dom_delete_L, Hd|]. intros h l. cbn [mapLinks]. intros [_ Hh]%lookup_delete_Some. by apply Hl.
  - unfold usage_ok. cbn [cachedInnerUsage]. rewrite (sumz_delete_weight p _ nUsageSize it e He) by done. rewrite Hu. unfold DynamicUsage.
    cbn [mapTx]. rewrite dom_delete_L, sumz_diff, sumz_singleton by (apply singleton_subseteq_l, elem_of_dom; by exists e).
    rewrite wrapu_sub_r, wrapu_sub_l. repeat match goal with |- context [u64 ?x - nUsageSize e] => destruct (wrapu_ex 64 x) as [q0 ->] | |- context [u64 ?x + u64 ?y] => destruct (wrapu_ex 64 x) as [q1 ->]; destruct (wrapu_ex 64 y) as [q2 ->] end.
    apply (wrapu_eq 64 _ _ (q0 - q1 - q2)). cbn [id parents children]. lia.
Qed.

(** ** The invariant *)

Definition parents_in (p : CTxMemPool) (h : uint256) : gset uint256 :=
  match mapTx p !! h with Some e => direct_parents p (e_tx e) | None => ∅ end.
Definition children_in (p : CTxMemPool) (h : uint256) : gset uint256 := filter (fun c => h ∈ parents_in p c) (dom (mapTx p)).

Record pool_inv (p : CTxMemPool) : Prop := {
  pi_data : data_inv p;
  pi_linked : linked (parents_in p) (children_in p) p;
  pi_usage : usage_ok (parents_in p) (children_in p) p;
  pi_counts : exists Ac Dc, family (dom (mapTx p)) (parents_in p) (children_in p) Ac Dc /\ counted (weights_of p) Dc Ac p;
  pi_small : small (weights_of p) (dom (mapTx p));
}.

Lemma parents_in_dom p h q : q ∈ parents_in p h -> h ∈ dom (mapTx p) /\ q ∈ dom (mapTx p).
Proof.
  unfold parents_in, direct_parents. destruct (mapTx p !! h) as [e|] eqn:E; [|set_solver]. intros [_ Hq]%elem_of_intersection. split; [|done]. apply elem_of_dom. by exists e.
Qed.
Lemma elem_children_in p h c : c ∈ children_in p h <-> h ∈ parents_in p c.
Proof. unfold children_in. rewrite elem_of_filter. split; [by intros []|]. intros Hh. split; [done|]. apply parents_in_dom in Hh. tauto. Qed.
Lemma parent_of_in p c q : parent_of p c q <-> q ∈ parents_in p c.
Proof. unfold parent_of, parents_in. destruct (mapTx p !! c) as [e|]; [|set_solver]. naive_solver. Qed.

(** The entries of [p'] are those of [p] outside [S], but for the counters. *)
Definition without (S : gset uint256) (p p' : CTxMemPool) : Prop := forall h, core <$> mapTx p' !! h = if decide (h ∈ S) then None else core <$> mapTx p !! h.
Lemma without_dom S p p' : without S p p' -> dom (mapTx p') = dom (mapTx p) ∖ S.
Proof.
  intros W. apply set_eq. intros h. rewrite elem_of_difference, !elem_of_dom, <- (fmap_is_Some core (mapTx p' !! h)), (W h).
  case_decide; [split; [by intros [? ?]|tauto]|]. rewrite fmap_is_Some. tauto.
Qed.
Lemma without_lookup S p p' h e' : without S p p' -> mapTx p' !! h = Some e' -> h ∉ S /\ exists e, mapTx p !! h = Some e /\ core e' = core e.
Proof.
  intros W E. specialize (W h). rewrite E in W. case_decide; [done|]. split; [done|]. cbn in W. destruct (mapTx p !! h) as [e|]; [|done]. exists e. split; [done|]. cbn in W. congruence.
Qed.
Lemma without_weight S p p' f h : without S p p' -> (forall e e', core e' = core e -> f e' = f e) -> h ∈ dom (mapTx p') -> weight p' f h = weight p f h.
Proof. intros W Hf [e' E]%elem_of_dom. destruct (without_lookup _ _ _ _ _ W E) as (_ & e & He & Hc). unfold weight. rewrite E, He. cbn. by apply Hf. Qed.
Lemma without_get S p p' h : without S p p' -> get p' h = if decide (h ∈ S) then None else get p h.
Proof.
  intros W. specialize (W h). unfold get. destruct (mapTx p' !! h) as [e'|], (decide (h ∈ S)); cbn in W; try done; destruct (mapTx p !! h) as [e|]; cbn in W |- *; try done.
  assert (core e' = core e) as (-> & _)%entry_core_fields by congruence. done.
Qed.
Lemma without_parents S p p' h : without S p p' -> h ∈ dom (mapTx p') -> parents_in p' h = parents_in p h ∖ S.
Proof.
  intros W [e' E]%elem_of_dom. destruct (without_lookup _ _ _ _ _ W E) as (_ & e & He & Hc). apply entry_core_fields in Hc as (Ht & _). unfold parents_in, direct_parents.
  rewrite E, He, Ht, (without_dom _ _ _ W). set_solver.
Qed.
Lemma without_children S p p' h : without S p p' -> h ∈ dom (mapTx p') -> children_in p' h = children_in p h ∖ S.
Proof.
  intros W Hh. apply set_eq. intros c. rewrite elem_of_difference, !elem_children_in. pose proof (without_dom _ _ _ W) as Hd. split.
  - intros Hx. pose proof (parents_in_dom _ _ _ Hx) as [Hc _]. rewrite (without_parents _ _ _ _ W Hc) in Hx. set_solver.
  - intros [Hx Hc]. pose proof (parents_in_dom _ _ _ Hx) as [Hc' _]. rewrite (without_parents _ _ _ _ W) by set_solver. set_solver.
Qed.

Lemma counted_weights w w' D A p : (forall h, h ∈ dom (mapTx p) -> w_size w' h = w_size w h /\ w_fee w' h = w_fee w h /\ w_sig w' h = w_sig w h) ->
  (forall h, h ∈ dom (mapTx p) -> D h ⊆ dom (mapTx p) /\ A h ⊆ dom (mapTx p)) -> counted w D A p -> counted w' D A p.
Proof.
  intros Hw HS Hc h e He. assert (Hh : h ∈ dom (mapTx p)) by (apply elem_of_dom; by exists e). destruct (Hw h Hh) as (E1 & E2 & E3), (HS h Hh) as [SD SA].
  assert (G : forall (X : gset uint256), X ⊆ dom (mapTx p) -> sumz (w_size w') X = sumz (w_size w) X /\ sumz (w_fee w') X = sumz (w_fee w) X /\ sumz (w_sig w') X = sumz (w_sig w) X).
  { intros X HX. split_and!; apply sumz_ext; intros x Hx; by destruct (Hw x (HX x Hx)) as (? & ? & ?). }
  destruct (G _ SD) as (D1 & D2 & D3), (G _ SA) as (A1 & A2 & A3). destruct (Hc h e He). split; by rewrite ?E1, ?E2, ?E3, ?D1, ?D2, ?A1, ?A2, ?A3.
Qed.
Lemma small_mono w U V : V ⊆ U -> small w U -> small w V.
Proof.
  intros HV [S1 S2 S3 S4 S5]. assert (Hp : forall x, x ∈ U -> 0 <= w_size w x) by (intros x Hx; specialize (S1 x Hx); lia).
  pose proof (sumz_subseteq _ _ _ HV Hp). pose proof (sumz_subseteq _ _ _ HV S2). pose proof (sumz_subseteq (fun x => Z.abs (w_fee w x)) _ _ HV (fun x _ => Z.abs_nonneg _)).
  split; [intros h Hh; by apply S1, HV|intros h Hh; by apply S2, HV|lia|lia|lia].
Qed.
Lemma small_ext w w' U : (forall h, h ∈ U -> w_size w' h = w_size w h /\ w_fee w' h = w_fee w h /\ w_sig w' h = w_sig w h) -> small w U -> small w' U.
Proof.
  intros E [S1 S2 S3 S4 S5]. assert (E1 : sumz (w_size w') U = sumz (w_size w) U) by (apply sumz_ext; intros h Hh; apply (E h Hh)).
  assert (E2 : sumz (fun h => Z.abs (w_fee w' h)) U = sumz (fun h => Z.abs (w_fee w h)) U) by (apply sumz_ext; intros h Hh; destruct (E h Hh) as (_ & -> & _); done).
  assert (E3 : sumz (w_sig w') U = sumz (w_sig w) U) by (apply sumz_ext; intros h Hh; apply (E h Hh)).
  split; rewrite ?E1, ?E2, ?E3; try done; intros h Hh; destruct (E h Hh) as (F1 & F2 & F3); rewrite ?F1, ?F3; [by apply S1|by apply S2].
Qed.
Lemma without_weights S p p' h : without S p p' -> h ∈ dom (mapTx p') ->
  w_size (weights_of p') h = w_size (weights_of p) h /\ w_fee (weights_of p') h = w_fee (weights_of p) h /\ w_sig (weights_of p') h = w_sig (weights_of p) h.
Proof. intros W Hh. cbn [weights_of w_size w_fee w_sig]. split_and!; (apply (without_weight S); [done| |done]); intros e e' Hc; apply entry_core_fields in Hc; tauto. Qed.

(** What is in [S] may leave together: with its descendants, or, updating them,
    with its ancestors. *)
Definition removable (p : CTxMemPool) (S : gset uint256) (upd : bool) : Prop :=
  S ⊆ dom (mapTx p) /\
  ((forall s c, s ∈ S -> c ∈ children_in p s -> c ∈ S) \/ (upd = true /\ forall s q, s ∈ S -> q ∈ parents_in p s -> q ∈ S)).

Lemma without_family p p' S upd Ac Dc : pool_inv p -> removable p S upd -> without S p p' ->
  family (dom (mapTx p)) (parents_in p) (children_in p) Ac Dc ->
  counted (weights_of p) (fun x => Dc x ∖ S) (fun x => if upd then Ac x ∖ S else Ac x) p' ->
  exists Ac' Dc', family (dom (mapTx p')) (parents_in p') (children_in p') Ac' Dc' /\ counted (weights_of p') Dc' Ac' p'.
Proof.
  intros I [HS HR] W F Hc. pose proof (without_dom _ _ _ W) as Hd.
  assert (HR' : (forall s c, s ∈ S -> c ∈ children_in p s -> c ∈ S) \/ (forall s q, s ∈ S -> q ∈ parents_in p s -> q ∈ S)) by naive_solver.
  pose proof (family_restrict _ _ _ _ _ F S HR') as F'. exists (fun h => if decide (h ∈ S) then ∅ else Ac h ∖ S), (fun h => if decide (h ∈ S) then ∅ else Dc h ∖ S).
  assert (Hin : forall h, h ∈ dom (mapTx p') -> h ∉ S) by (rewrite Hd; set_solver).
  assert (HP : forall h, parents_in p' h = if decide (h ∈ S) then ∅ else parents_in p h ∖ S).
  { intros h. destruct (decide (h ∈ dom (mapTx p'))) as [Hh|Hh]; [rewrite (without_parents _ _ _ _ W Hh); by rewrite decide_False by auto|].
    assert (parents_in p' h = ∅) as ->. { apply set_eq. intros q. split; [|set_solver]. intros Hq. apply parents_in_dom in Hq. tauto. }
    case_decide; [done|]. assert (parents_in p h = ∅) as ->; [|set_solver]. apply set_eq. intros q. split; [|set_solver]. intros Hq. apply parents_in_dom in Hq. set_solver. }
  split.
  - rewrite Hd. destruct F' as [F1 F2 F3 F4 F5]. assert (HR2 : forall a b, (fun c q => q ∈ parents_in p' c) a b <-> (fun c q => q ∈ if decide (c ∈ S) then ∅ else parents_in p c ∖ S) a b) by (intros a b; cbn; by rewrite HP).
    assert (Ht : forall a b, tc (fun c q => q ∈ parents_in p' c) a b <-> tc (fun c q => q ∈ if decide (c ∈ S) then ∅ else parents_in p c ∖ S) a b).
    { intros a b. split; intros Hx; (eapply (tc_congruence id); [|exact Hx]); intros u v; apply HR2. }
    split.
    + intros h q. rewrite HP. apply F1.
    + intros h c. apply elem_children_in.
    + intros h a. rewrite Ht. apply F3.
    + intros h d. rewrite Ht. apply F4.
    + intros h. rewrite Ht. apply F5.
  - apply (counted_weights (weights_of p)); [by intros h Hh; apply (without_weights S)| |].
    + intros h Hh. rewrite Hd, !decide_False by auto. destruct (fam_sub _ _ _ _ _ F h). set_solver.
    + revert Hc. apply counted_ext. intros h Hh. rewrite !decide_False by auto. split; [done|]. destruct upd; [done|]. destruct HR as [HR|[? _]]; [|done].
      apply set_eq. intros a. split; [set_solver|]. intros Ha. apply elem_of_difference. split; [done|]. intros HaS. apply (Hin h Hh).
      apply (fam_ancestors _ _ _ _ _ F) in Ha. clear - Ha HaS HR. induction Ha as [x y Hxy|x y z Hxy _ IH]; [apply (HR y); [done|by apply elem_children_in]|].
      apply (HR y); [by apply IH|by apply elem_children_in].
Qed.

Lemma staged_start p Ac Dc : pool_inv p -> counted (weights_of p) Dc Ac p -> staged (weights_of p) (dom (mapTx p)) (parents_in p) (children_in p) Dc Ac p p.
Proof. intros [_ H2 H3 _ _] Hc. split; try done. Qed.

Lemma data_inv_reworked p p' : reworked p p' -> data_inv p -> data_inv p'.
Proof.
  intros R [K1 K2 K3 K4]. pose proof (rw_core _ _ R) as Hc.
  assert (Hg : forall h, get p' h = get p h). { intros h. specialize (Hc h). unfold get. destruct (mapTx p' !! h) as [a|], (mapTx p !! h) as [b|]; cbn in *; try done. assert (core a = core b) as (-> & _)%entry_core_fields by congruence. done. }
  assert (Hw : weight p' nTxSize = weight p nTxSize -> True) by done. destruct (rw_rest _ _ R). split.
  - intros h e He. specialize (Hc h). rewrite He in Hc. destruct (mapTx p !! h) as [b|] eqn:Eb; [|done]. cbn in Hc. assert (core e = core b) as (Et & _)%entry_core_fields by congruence.
    unfold e_hash. rewrite Et. apply (K1 h b Eb).
  - intros o tx. rewrite Hg, (rw_rest _ _ R). apply K2.
  - intros o tx. rewrite Hg, (rw_rest _ _ R). apply K3.
  - rewrite (reworked_dom _ _ R). rewrite (sumz_ext _ (weight p nTxSize)) by (intros h _; apply (reworked_weight _ _ _ R); intros e e' E; apply entry_core_fields in E; tauto).
    rewrite (rw_rest _ _ R). apply K4.
Qed.

Lemma RemoveStaged_ok p S upd : pool_inv p -> removable p S upd ->
  exists p', RemoveStaged S upd p = Ok p' /\ pool_inv p' /\ without S p p' /\ mapDeltas p' = mapDeltas p.
Proof.
  intros I HR. destruct (pi_counts _ I) as (Ac & Dc & F & Hc). unfold RemoveStaged. destruct HR as [HS HR].
  destruct (UpdateForRemove_spec (weights_of p) _ (pi_small _ I) _ _ _ _ F p) with S upd p as (p1 & -> & St); [by intros h e He; apply (di_key _ (pi_data _ I))|done|by apply staged_start|]. cbn [mbind outcome_bind].
  pose proof (data_inv_reworked _ _ (st_reworked _ _ _ _ _ _ _ _ St) (pi_data _ I)) as D1. pose proof (st_dom _ _ _ _ _ _ _ _ St) as Hd1.
  set (P3 := parents_left (parents_in p) S S) in *. set (C3 := fun x => children_in p x ∖ S) in *.
  destruct (for_each_set (fun T q => (forall h, mapTx q !! h = if decide (h ∈ T) then None else mapTx p1 !! h) /\ data_inv q /\ linked P3 C3 q /\ usage_ok P3 C3 q /\ mapDeltas q = mapDeltas p) removeUnchecked S p1) as (p' & -> & Hm & D2 & L2 & U2 & Hdel).
  - intros it T q Hi HT (Hm & Dq & Lq & Uq & Hdel). destruct (removeUnchecked_ok P3 C3 q it) as (q' & Hq' & Dq' & Lq' & Uq' & Eq & Edel); try done.
    { apply elem_of_dom. rewrite Hm, decide_False by done. apply elem_of_dom. rewrite Hd1. by apply HS. }
    exists q'. split; [done|]. split_and!; try done; [|congruence]. intros h. rewrite Eq. destruct (decide (it = h)) as [<-|Hne]; [rewrite lookup_delete_eq, decide_True by set_solver; done|].
    rewrite lookup_delete_ne, Hm by done. destruct (decide (h ∈ T)); [by rewrite decide_True by set_solver|by rewrite decide_False by set_solver].
  - split_and!; try done; [apply St|apply St|]. rewrite (rw_rest _ _ (st_reworked _ _ _ _ _ _ _ _ St)). done.
  - assert (W : without S p p'). { intros h. rewrite Hm. case_decide; [done|]. apply (rw_core _ _ (st_reworked _ _ _ _ _ _ _ _ St)). }
    assert (Hin : forall h, h ∈ dom (mapTx p') -> h ∉ S) by (rewrite (without_dom _ _ _ W); set_solver).
    assert (HPC : forall h, h ∈ dom (mapTx p') -> parents_in p' h = P3 h /\ children_in p' h = C3 h).
    { intros h Hh. rewrite (without_parents _ _ _ _ W Hh), (without_children _ _ _ _ W Hh). unfold P3, parents_left. by rewrite decide_False by auto. }
    exists p'. split_and!; try done. split; [done| | | |].
    + revert L2. by apply linked_ext.
    + revert U2. by apply usage_ext.
    + apply (without_family p p' S upd Ac Dc I (conj HS HR) W F). intros h e He. apply (st_counted _ _ _ _ _ _ _ _ St). rewrite Hm in He. by case_decide.
    + apply (small_ext (weights_of p)); [intros h Hh; by apply (without_weights S)|]. apply (small_mono _ (dom (mapTx p))); [rewrite (without_dom _ _ _ W); set_solver|apply I].
Qed.
