(* ===== verification/MempoolAdd.v ===== *)
(** * Adding to the memory pool

    [CalculateMemPoolAncestors] answers whether a package stays within the
    limits, and [addUnchecked] keeps the invariant of [MempoolInv]. *)
From stdpp Require Import sorting fin_sets relations.
From S2P Require Import Prelude Serialize HashStream Sha256 Hash Script Interpreter Standard Transaction Undo Coins TxVerify Indexes Mempool MempoolGraph MempoolInv.

#[local] Opaque GetHash.

(** ** A family grows *)

Section Extend.
Context (U : gset uint256) (P C Ac Dc : uint256 -> gset uint256) (F : family U P C Ac Dc).
Context (n : uint256) (DP Anc : gset uint256) (Hn : n ∉ U) (HDP : DP ⊆ U).
Context (HAnc : forall x, x ∈ Anc <-> exists q, q ∈ DP /\ rtc (fun c q => q ∈ P c) q x).

Definition with_child (x : uint256) : gset uint256 := if decide (x ∈ DP) then {[n]} ∪ C x else C x.
Definition with_descendant (x : uint256) : gset uint256 := if decide (x ∈ Anc) then {[n]} ∪ Dc x else Dc x.

Lemma extend_anc_sub : DP ⊆ Anc /\ Anc ⊆ U.
Proof.
  split; intros x Hx; [apply HAnc; by exists x|]. apply HAnc in Hx as (q & Hq & Hr). apply rtc_tc in Hr as [->|Ht]; [by apply HDP|].
  apply (tc_in_U _ _ _ _ _ F) in Ht. tauto.
Qed.
Lemma extend_R c q : q ∈ set_at n DP P c <-> (c = n /\ q ∈ DP) \/ (c <> n /\ q ∈ P c).
Proof. unfold set_at. case_decide; naive_solver. Qed.
Lemma extend_tc h a : tc (fun c q => q ∈ set_at n DP P c) h a <-> (h = n /\ a ∈ Anc) \/ (h <> n /\ tc (fun c q => q ∈ P c) h a).
Proof.
  assert (HU : forall c q, q ∈ P c -> c <> n /\ q <> n) by (intros c q Hq; apply (fam_parents _ _ _ _ _ F) in Hq as []; split; congruence).
  split.
  - intros Hr. induction Hr as [x y Hxy|x y z Hxy _ IH]; apply extend_R in Hxy as [[-> Hy]|[Hx Hy]].
    + left. split; [done|]. by apply extend_anc_sub.
    + right. split; [done|]. by apply tc_once.
    + left. split; [done|]. destruct IH as [[-> _]|[_ Ht]]; [by apply HDP in Hy|]. apply HAnc. exists y. split; [done|]. by apply tc_rtc.
    + right. split; [done|]. destruct IH as [[-> _]|[_ Ht]]; [by apply HU in Hy as []|]. by apply tc_l with y.
  - assert (Hm : forall u v, v ∈ P u -> v ∈ set_at n DP P u) by (intros u v Hv; apply extend_R; right; split; [by apply (HU u v)|done]).
    intros [[-> (q & Hq & Hr)%HAnc]|[_ Ht]].
    + eapply tc_rtc_r; [apply tc_once; apply extend_R; left; done|]. eapply (rtc_congruence id); [|exact Hr]. intros u v. apply Hm.
    + eapply (tc_congruence id); [|exact Ht]. intros u v. apply Hm.
Qed.
Lemma family_extend : family ({[n]} ∪ U) (set_at n DP P) with_child (set_at n Anc Ac) with_descendant.
Proof.
  destruct extend_anc_sub as [HA1 HA2]. split.
  - intros h q [[-> Hq]|[_ Hq]]%extend_R; [set_solver|]. apply (fam_parents _ _ _ _ _ F) in Hq. set_solver.
  - intros h c. rewrite extend_R. unfold with_child. pose proof (fam_children _ _ _ _ _ F h c) as Hc.
    assert (n ∉ C h) by (intros Hx%(fam_children _ _ _ _ _ F)%(fam_parents _ _ _ _ _ F); naive_solver).
    case_decide; [|destruct (decide (c = n)); naive_solver]. rewrite elem_of_union, elem_of_singleton. destruct (decide (c = n)); naive_solver.
  - intros h a. rewrite extend_tc. unfold set_at. case_decide; [naive_solver|]. rewrite (fam_ancestors _ _ _ _ _ F). naive_solver.
  - intros h d. rewrite extend_tc. unfold with_descendant. pose proof (fam_descendants _ _ _ _ _ F h d) as Hd.
    assert (n ∉ Dc h) by (intros Hx%(fam_descendants _ _ _ _ _ F)%(tc_in_U _ _ _ _ _ F); naive_solver).
    case_decide; [|destruct (decide (d = n)); naive_solver]. rewrite elem_of_union, elem_of_singleton. destruct (decide (d = n)); naive_solver.
  - intros h. rewrite extend_tc. intros [[-> Hx]|[_ Hx]]; [by apply HA2 in Hx|]. by apply (fam_acyclic _ _ _ _ _ F) in Hx.
Qed.
End Extend.

(** ** Maps that grow *)

Lemma fold_insert_absent {K V} `{Countable K} (v : V) (l : list K) : forall m : gmap K V, (forall o, o ∈ l -> m !! o = None \/ m !! o = Some v) ->
  forall o, foldl (fun m o => if bool_decide (is_Some (m !! o)) then m else <[o := v]> m) m l !! o = if decide (o ∈ l) then Some v else m !! o.
Proof.
  induction l as [|k l IH]; intros m Hm o; cbn [foldl]; [done|].
  assert (E : forall x, (if bool_decide (is_Some (m !! k)) then m else <[k := v]> m) !! x = if decide (x = k) then Some v else m !! x).
  { intros x. destruct (Hm k ltac:(left)) as [Hk|Hk]; rewrite Hk; case_bool_decide as Hs; try (by destruct Hs); try (by exfalso; apply Hs; eexists).
    - case_decide as Hx; [by subst; rewrite lookup_insert_eq|by rewrite lookup_insert_ne].
    - case_decide; by subst. }
  rewrite IH, E by (intros x Hx; rewrite E; case_decide; [by right|]; apply Hm; by right).
  destruct (decide (o = k)) as [->|]; [rewrite (decide_True (P := k ∈ k :: l)) by left; by case_decide|].
  destruct (decide (o ∈ l)); [by rewrite decide_True by (by right)|]. rewrite decide_False; [done|]. rewrite elem_of_cons. naive_solver.
Qed.
Lemma fold_insert_lookup {K V} `{Countable K} (v : V) (l : list K) : forall m : gmap K V,
  forall o, foldl (fun m o => <[o := v]> m) m l !! o = if decide (o ∈ l) then Some v else m !! o.
Proof.
  induction l as [|k l IH]; intros m o; cbn [foldl]; [done|]. rewrite IH. destruct (decide (o = k)) as [->|Hne].
  - rewrite lookup_insert_eq, (decide_True (P := k ∈ k :: l)) by left. by case_decide.
  - rewrite lookup_insert_ne by done. destruct (decide (o ∈ l)); [by rewrite decide_True by (by right)|]. rewrite decide_False; [done|]. rewrite elem_of_cons. naive_solver.
Qed.
Lemma spent_by_add {K} `{Countable K} p p' (spends : CTransaction -> list K) (m m' : gmap K CTransaction) tx :
  get p (GetHash tx) = None -> (forall h, get p' h = if decide (h = GetHash tx) then Some tx else get p h) ->
  (forall o, o ∈ spends tx -> m !! o = None) -> (forall o, m' !! o = if decide (o ∈ spends tx) then Some tx else m !! o) ->
  spent_by p spends m -> spent_by p' spends m'.
Proof.
  intros Hn Hg Hfree Hm Hs o t. rewrite Hm, Hg. destruct (decide (o ∈ spends tx)) as [Ho|Ho]; (split; [intros E|intros [E Hin]]).
  - injection E as <-. by rewrite decide_True.
  - case_decide; [done|]. assert (m !! o = Some t) as Ex by (by apply Hs). by rewrite Hfree in Ex.
  - apply Hs in E as [E Hin]. split; [|done]. rewrite decide_False; [done|]. intros Ex. congruence.
  - case_decide; [congruence|]. by apply Hs.
Qed.

(** ** Finding the ancestors of a new transaction *)

Lemma elem_input_hashes tx q : q ∈ input_hashes tx <-> exists i, i ∈ vin tx /\ out_hash (prevout i) = q.
Proof. unfold input_hashes. rewrite elem_of_list_to_set, list_elem_of_fmap. naive_solver. Qed.

Lemma parents_of_inputs_spec p lim ins : forall ph,
  let found := list_to_set (map (fun i => out_hash (prevout i)) ins) ∩ dom (mapTx p) : gset uint256 in
  match parents_of_inputs p lim ins ph with
  | inl ph' => ph' = ph ∪ found /\ (found <> ∅ -> u64 (Z.of_nat (size ph') + 1) <= limitAncestorCount lim)
  | inr _ => exists ph', ph' ⊆ ph ∪ found /\ ph' <> ∅ /\ limitAncestorCount lim < u64 (Z.of_nat (size ph') + 1)
  end.
Proof.
  induction ins as [|i ins IH]; intros ph; cbn [parents_of_inputs map list_to_set]; [split; set_solver|].
  set (found := list_to_set _ ∩ _ : gset uint256) in IH. set (q := out_hash (prevout i)). cbv zeta in *.
  destruct (exists_tx p q) eqn:Eq.
  - apply exists_tx_dom in Eq. replace (({[q]} ∪ list_to_set (map (fun i => out_hash (prevout i)) ins)) ∩ dom (mapTx p)) with ({[q]} ∪ found) by set_solver.
    destruct (_ <? _) eqn:L; bool_to_prop; [exists ({[q]} ∪ ph); split_and!; [set_solver|set_solver|done]|]. specialize (IH ({[q]} ∪ ph)). destruct (parents_of_inputs _ _ _ _) as [ph'|e].
    + destruct IH as [-> H]. split; [set_solver|]. intros _. destruct (decide (found = ∅)) as [->|Hf]; [|by apply H]. replace ({[q]} ∪ ph ∪ ∅) with ({[q]} ∪ ph) by set_solver. done.
    + destruct IH as (ph' & H1 & H2 & H3). exists ph'. split_and!; [set_solver|done|done].
  - assert (Hq : q ∉ dom (mapTx p)) by (rewrite <- exists_tx_dom; congruence).
    replace (({[q]} ∪ list_to_set (map (fun i => out_hash (prevout i)) ins)) ∩ dom (mapTx p)) with found by set_solver. apply IH.
Qed.

Lemma linked_parents p : pool_inv p -> forall h, is_Some (mapTx p !! h) -> exists l, mapLinks p !! h = Some l /\ forall q, q ∈ parents l <-> parent_of p h q.
Proof. intros I h Hh. exists (Links (parents_in p h) (children_in p h)). split; [by apply (linked_lookup _ _ _ _ (pi_linked _ I))|]. intros q. by rewrite parent_of_in. Qed.
Lemma parent_of_dom p h q : parent_of p h q -> q ∈ dom (mapTx p).
Proof. rewrite parent_of_in. intros Hq%parents_in_dom. tauto. Qed.

Lemma ancestors_exist p entry : pool_inv p ->
  exists Anc, CalculateMemPoolAncestors p no_limits entry true = Ok (None, Anc) /\ ancestors_from p (direct_parents p (e_tx entry)) Anc /\ Anc ⊆ dom (mapTx p).
Proof.
  intros I. unfold CalculateMemPoolAncestors. cbn [mbind outcome_bind]. pose proof (parents_of_inputs_spec p no_limits (vin (e_tx entry)) ∅) as Hs. cbv zeta in Hs.
  destruct (parents_of_inputs _ _ _ _) as [ph|e].
  - destruct Hs as [-> _]. fold (input_hashes (e_tx entry)). fold (direct_parents p (e_tx entry)).
    destruct (ancestors_loop_spec p (parent_of p) (linked_parents p I) (parent_of_dom p) no_limits entry (pool_fuel p) (nTxSize entry) (∅ ∪ direct_parents p (e_tx entry)) ∅) as (r & s & -> & Hr & Hno); [unfold direct_parents; set_solver|set_solver|set_solver|set_solver|unfold pool_fuel; lia|].
    rewrite (Hno eq_refl) in *. specialize (Hr eq_refl). exists s. split; [done|].
    assert (HA : ancestors_from p (direct_parents p (e_tx entry)) s). { intros x. rewrite Hr. unfold reaches. set_solver. } split; [done|].
    intros x (q & Hq & Hx)%HA. apply rtc_inv_r in Hx as [<-|(y & _ & Hyx)]; [|by apply parent_of_dom in Hyx]. unfold direct_parents in Hq. set_solver.
  - destruct Hs as (ph' & _ & _ & H2). pose proof (wrapu_range 64 (Z.of_nat (size ph') + 1) ltac:(lia)) as Hw. unfold in_u in Hw. cbn [limitAncestorCount no_limits] in H2. unfold nNoLimit in H2. lia.
Qed.

Lemma pool_sums_fit p entry : pool_inv p -> 0 <= nTxSize entry -> nTxSize entry + sumz (weight p nTxSize) (dom (mapTx p)) < 2 ^ 63 -> sums_fit p entry.
Proof.
  intros I H0 H1. destruct (pi_counts _ I) as (Ac & Dc & F & Hc). pose proof (pi_small _ I) as Hsm. split.
  - intros h a Ha. assert (Hh : h ∈ dom (mapTx p)) by (apply elem_of_dom; by exists a). destruct (Hc h a Ha) as [E1 _ _ E4 E5 _ _ _ _ _].
    destruct (fam_sub _ _ _ _ _ F h) as [_ HD]. destruct (fam_self _ _ _ _ _ F h) as [_ Hs]. destruct (small_sums _ _ Hsm h (Dc h) Hh HD Hs) as (B1 & _ & B3 & _).
    pose proof (small_pos _ _ Hsm h Hh). rewrite E1, E4, E5. assert (0 <= sumz (weight p nTxSize) (dom (mapTx p))).
    { apply sumz_nonneg. intros x Hx. pose proof (small_pos _ _ Hsm x Hx) as Hp. cbn [weights_of w_size] in Hp. lia. }
    unfold in_u. lia.
  - split; [done|]. lia.
  - pose proof (sumz_ge_size _ _ (small_pos _ _ Hsm)) as Hs. pose proof (small_size _ _ Hsm). lia.
Qed.

(** C20: [CalculateMemPoolAncestors], for a transaction that is not in the pool
    yet, always answers.  It finds exactly the transactions of the pool that it
    depends on, and it answers true exactly when each of these stays within the
    limits on descendants with it, and, if there are any, their number and size
    with it stay within the limits on ancestors. *)
Theorem CalculateMemPoolAncestors_iff p lim entry :
  pool_inv p -> 0 <= nTxSize entry -> nTxSize entry + sumz (weight p nTxSize) (dom (mapTx p)) < 2 ^ 63 ->
  exists r s Anc, CalculateMemPoolAncestors p lim entry true = Ok (r, s) /\ ancestors_from p (direct_parents p (e_tx entry)) Anc /\ (r = None -> s = Anc) /\
    (r = None <-> (forall h a, h ∈ Anc -> mapTx p !! h = Some a -> within lim entry a) /\
      (Anc <> ∅ -> nTxSize entry + sumz (weight p nTxSize) Anc <= limitAncestorSize lim /\ Z.of_nat (size Anc) + 1 <= limitAncestorCount lim)).
Proof.
  intros I H0 H1. destruct (ancestors_exist p entry I) as (Anc & _ & HA & HAd). pose proof (pool_sums_fit p entry I H0 H1) as W.
  assert (HD : direct_parents p (e_tx entry) ⊆ Anc) by (intros q Hq; apply HA; by exists q).
  assert (Hwrap : forall ph : gset uint256, ph ⊆ Anc -> u64 (Z.of_nat (size ph) + 1) = Z.of_nat (size ph) + 1 /\ Z.of_nat (size ph) <= Z.of_nat (size Anc)).
  { intros ph Hph. pose proof (subseteq_size _ _ Hph). pose proof (subseteq_size _ _ HAd). pose proof (fit_count _ _ W). split; [apply wrapu_small; unfold in_u|]; lia. }
  unfold CalculateMemPoolAncestors. cbn [mbind outcome_bind]. pose proof (parents_of_inputs_spec p lim (vin (e_tx entry)) ∅) as Hs. cbv zeta in Hs.
  fold (input_hashes (e_tx entry)) in Hs. fold (direct_parents p (e_tx entry)) in Hs. destruct (parents_of_inputs _ _ _ _) as [ph|e].
  - destruct Hs as [-> Hcnt]. replace (∅ ∪ direct_parents p (e_tx entry)) with (direct_parents p (e_tx entry)) in * by set_solver. destruct (Hwrap _ HD) as [Ew _]. rewrite Ew in Hcnt.
    destruct (ancestors_loop_spec p (parent_of p) (linked_parents p I) (parent_of_dom p) lim entry (pool_fuel p) (nTxSize entry) (direct_parents p (e_tx entry)) ∅) as (r & s & Hl & Hr & _); [unfold direct_parents; set_solver|set_solver|set_solver|set_solver|unfold pool_fuel; lia|].
    exists r, s, Anc. split_and!; [done|done| |].
    + intros Er. apply set_eq. intros x. rewrite (Hr Er), (HA x). unfold reaches. set_solver.
    + assert (Hz : nTxSize entry = nTxSize entry + sumz (weight p nTxSize) ∅) by (rewrite sumz_empty; lia). rewrite Hz in Hl at 1.
      rewrite (ancestors_loop_limits p (parent_of p) (linked_parents p I) (parent_of_dom p) lim entry Anc r s W HAd (pool_fuel p) (direct_parents p (e_tx entry)) ∅ ltac:(unfold direct_parents; set_solver) ltac:(set_solver) ltac:(set_solver) ltac:(intros x; rewrite (HA x); unfold reaches; set_solver) ltac:(intros Hne; specialize (Hcnt Hne); rewrite size_empty; lia) Hl).
      assert (Hne : direct_parents p (e_tx entry) <> ∅ <-> Anc <> ∅).
      { split; intros Hx Hy; apply Hx; apply set_eq; intros x; (split; [|set_solver]); intros Hin; [set_solver|]. apply HA in Hin as (q & Hq & _). set_solver. }
      rewrite Hne. split; (intros [G1 G2]; split; [|done]); intros h a; [intros Hh; apply G1; [done|set_solver]|intros Hh _; by apply G1].
  - destruct Hs as (ph & Hph & Hne & Hc). destruct (Hwrap ph ltac:(set_solver)) as [Ew Hle]. exists (Some e), ∅, Anc. split_and!; [done|done|done|].
    split; [done|]. intros [_ G]. assert (Anc <> ∅) as HAne by (intros ->; apply Hne; set_solver). specialize (G HAne). lia.
Qed.

(** ** Adding a transaction *)

(** An entry as its constructor makes it. *)
Record fresh_entry (e : CTxMemPoolEntry) : Prop := {
  fe_delta : feeDelta e = 0;
  fe_dcount : nCountWithDescendants e = 1; fe_dsize : nSizeWithDescendants e = nTxSize e; fe_dfee : nModFeesWithDescendants e = nFee e;
  fe_acount : nCountWithAncestors e = 1; fe_asize : nSizeWithAncestors e = nTxSize e; fe_afee : nModFeesWithAncestors e = nFee e;
  fe_asig : nSigOpCountWithAncestors e = sigOpCount e;
}.

Definition delta_of (p : CTxMemPool) (h : uint256) : Z := default 0 (mapDeltas p !! h).

(** A transaction that is new, spends nothing that the pool spends, and whose
    outputs nothing in the pool spends; the totals with it fit the counters. *)
Record addable (p : CTxMemPool) (entry : CTxMemPoolEntry) : Prop := {
  ad_fresh : fresh_entry entry;
  ad_new : mapTx p !! e_hash entry = None;
  ad_zerocoin : HasZerocoinSpendInputs (e_tx entry) = false;
  ad_free : forall o, o ∈ inputs_of (e_tx entry) -> mapNextTx p !! o = None;
  ad_nullifiers : forall n, n ∈ spent_nullifiers (e_tx entry) -> mapSaplingNullifiers p !! n = None;
  ad_childless : forall o, out_hash o = e_hash entry -> mapNextTx p !! o = None /\ o ∉ inputs_of (e_tx entry);
  ad_size : 1 <= nTxSize entry /\ nTxSize entry + sumz (weight p nTxSize) (dom (mapTx p)) < 2 ^ 63;
  ad_fee : in_s 64 (delta_of p (e_hash entry)) /\
    Z.abs (nFee entry + delta_of p (e_hash entry)) + sumz (fun h => Z.abs (weight p modified_fee h)) (dom (mapTx p)) < 2 ^ 63;
  ad_sig : 0 <= sigOpCount entry /\ sigOpCount entry + sumz (weight p sigOpCount) (dom (mapTx p)) < 2 ^ 31;
}.

Lemma for_each_sum_ancestor w U p (Hsmall : small w U) l : NoDup l -> (forall h, h ∈ l -> h ∈ U /\ exists e, mapTx p !! h = Some e /\ nTxSize e = w_size w h /\ modified_fee e = w_fee w h /\ sigOpCount e = w_sig w h) ->
  for_each (sum_ancestor p) l (0, 0, 0) = Ok (sumz (w_size w) (list_to_set l : gset uint256), sumz (w_fee w) (list_to_set l : gset uint256), sumz (w_sig w) (list_to_set l : gset uint256)).
Proof.
  assert (G : forall l (T : gset uint256), T ⊆ U -> NoDup l -> (forall h, h ∈ l -> h ∉ T /\ h ∈ U /\ exists e, mapTx p !! h = Some e /\ nTxSize e = w_size w h /\ modified_fee e = w_fee w h /\ sigOpCount e = w_sig w h) ->
    for_each (sum_ancestor p) l (sumz (w_size w) T, sumz (w_fee w) T, sumz (w_sig w) T) = Ok (sumz (w_size w) (list_to_set l ∪ T), sumz (w_fee w) (list_to_set l ∪ T), sumz (w_sig w) (list_to_set l ∪ T))).
  { clear l. induction l as [|h l IH]; intros T HT Hnd Hl; cbn [for_each]; [by replace (list_to_set [] ∪ T) with T by (cbn; set_solver)|].
    apply NoDup_cons in Hnd as [Hh Hnd]. destruct (Hl h ltac:(left)) as (HhT & HhU & e & He & E1 & E2 & E3). destruct (small_sums w U Hsmall h T HhU HT HhT) as (B1 & B2 & _ & B4).
    destruct (small_sums w U Hsmall h ∅ HhU) as (C1 & C2 & _); [set_solver|set_solver|]. rewrite !sumz_empty in *.
    assert (sum_ancestor p h (sumz (w_size w) T, sumz (w_fee w) T, sumz (w_sig w) T) = Ok (w_size w h + sumz (w_size w) T, w_fee w h + sumz (w_fee w) T, w_sig w h + sumz (w_sig w) T)) as ->.
    { unfold sum_ancestor, entry_at. rewrite He. cbn [mbind outcome_bind]. unfold GetModifiedFee. fold (modified_fee e). rewrite E1, E2, E3. unfold int64_result. rewrite decide_True by (rewrite Z.add_0_r in C2; done). cbn [mbind outcome_bind].
      rewrite !(Z.add_comm (sumz _ T)). rewrite decide_True by done. cbn [mbind outcome_bind]. rewrite (wraps_small 64), (wraps_small 32) by (unfold in_s; lia). done. }
    cbn [mbind outcome_bind].
    rewrite <- !sumz_insert by done. rewrite (IH ({[h]} ∪ T)); [|set_solver|done|].
    - cbn [list_to_set]. replace ({[h]} ∪ list_to_set l ∪ T) with (list_to_set l ∪ ({[h]} ∪ T)) by set_solver. done.
    - intros k Hk. destruct (Hl k ltac:(by right)) as (K1 & K2). split; [|done]. apply not_elem_of_union. split; [|done]. intros ->%elem_of_singleton. done. }
  intros Hnd Hl. specialize (G l ∅ ltac:(set_solver) Hnd). rewrite !sumz_empty in G. rewrite G; [by replace (list_to_set l ∪ ∅ : gset uint256) with (list_to_set l : gset uint256) by set_solver|].
  intros h Hh. split; [set_solver|by apply Hl].
Qed.

(** The loop that links the new entry to its parents. *)
Lemma fold_new_parents C n l : forall P p, is_Some (mapTx p !! n) -> linked P C p -> usage_ok P C p ->
  let P' := set_at n (P n ∪ (list_to_set l ∩ dom (mapTx p))) P in
  let p' := foldl (fun p phash => if exists_tx p phash then UpdateParent n phash true p else p) p l in
  linked P' C p' /\ usage_ok P' C p' /\ reworked p p' /\ mapTx p' = mapTx p.
Proof.
  induction l as [|q l IH]; intros P p Hn Hl Hu P' p'; unfold p'; cbn [foldl].
  - split_and!; [|  |done|done]; [revert Hl; apply linked_ext|revert Hu; apply usage_ext]; intros h _; (split; [|done]); unfold P', set_at; case_decide; subst; set_solver.
  - destruct (exists_tx p q) eqn:Eq.
    + apply exists_tx_dom in Eq. destruct (UpdateParent_linked P C p n q true Hl Hu Hn) as (L1 & U1 & R1 & E1). rewrite <- E1 in Hn.
      destruct (IH (set_at n ({[q]} ∪ P n) P) (UpdateParent n q true p) Hn L1 U1) as (L2 & U2 & R2 & E2). rewrite E1 in *.
      assert (EP : forall h, P' h = set_at n (set_at n ({[q]} ∪ P n) P n ∪ (list_to_set l ∩ dom (mapTx p))) (set_at n ({[q]} ∪ P n) P) h).
      { intros h. unfold P', set_at. case_decide; [|done]. rewrite decide_True by done. cbn [list_to_set]. set_solver. }
      split_and!; [revert L2; apply linked_ext; intros h _; by rewrite EP|revert U2; apply usage_ext; intros h _; by rewrite EP|by transitivity (UpdateParent n q true p)|done].
    + assert (Hq : q ∉ dom (mapTx p)) by (rewrite <- exists_tx_dom; congruence). destruct (IH P p Hn Hl Hu) as (L2 & U2 & R2 & E2).
      assert (EP : forall h, P' h = set_at n (P n ∪ (list_to_set l ∩ dom (mapTx p))) P h) by (intros h; unfold P', set_at; case_decide; [|done]; cbn [list_to_set]; set_solver).
      split_and!; [revert L2; apply linked_ext; intros h _; by rewrite EP|revert U2; apply usage_ext; intros h _; by rewrite EP|done|done].
Qed.

(** An entry joins the children of its parents and the descendants of its
    ancestors. *)
Lemma UpdateAncestorsOf_joins w U P C Dc Ac p0 n DP Anc q :
  small w U -> n ∈ U -> P n = DP -> DP ⊆ U -> (forall h, h ∈ Anc -> h ∈ U /\ h <> n /\ n ∉ Dc h /\ h ∉ Dc h /\ Dc h ⊆ U) ->
  staged w U P C Dc Ac p0 q ->
  exists q', UpdateAncestorsOf true n Anc q = Ok q' /\ staged w U P (with_child C n DP) (with_descendant Dc n Anc) Ac p0 q'.
Proof.
  intros Hsmall Hn EP HDP HA S. destruct (staged_entry w U Hsmall p0 P C Dc Ac q n S Hn) as (e & He & Es & _ & Ef & B1 & B2 & _).
  unfold UpdateAncestorsOf, GetMemPoolParents. rewrite (linked_lookup _ _ q n (st_linked _ _ _ _ _ _ _ _ S)) by done. cbn [mbind outcome_bind parents]. cbv zeta. rewrite EP.
  destruct (fold_children P n true (in_order DP) C q (in_order_NoDup _)) as (L1 & U1 & R1 & E1); [|apply S|apply S|].
  { intros h Hh%elem_in_order. apply elem_of_dom. rewrite (st_dom _ _ _ _ _ _ _ _ S). by apply HDP. }
  set (q1 := foldl _ q (in_order DP)) in *. cbv zeta in L1, U1.
  assert (S1 : staged w U P (with_child C n DP) Dc Ac p0 q1).
  { apply (staged_ext w _ P (set_on (in_order DP) (fun x => {[n]} ∪ C x) C) Dc Ac).
    - intros h _. split_and!; try done. unfold set_on, with_child. destruct (decide (h ∈ DP)) as [Hd|Hd]; [by rewrite decide_True by by apply elem_in_order|by rewrite decide_False by by rewrite elem_in_order].
    - split; [by rewrite E1; apply S|done|done| |by transitivity q; [apply S|]]. unfold counted. rewrite E1. apply S. }
  clearbody q1. unfold entry_at. rewrite E1, He. cbn [mbind outcome_bind]. rewrite Es, Ef. cbn [mbind outcome_bind]. rewrite !Z.mul_1_l.
  rewrite (wraps_small 64) by (unfold in_s; lia). unfold int64_result. rewrite decide_True by (unfold in_s; lia). cbn [mbind outcome_bind].
  destruct (each_descendants w U Hsmall (fun x => {[n]} ∪ Dc x) (w_size w n) (w_fee w n) 1 Ac (in_order Anc) Dc q1) as (q' & -> & Hc' & R); [apply in_order_NoDup| |apply S1|].
  - intros h Hh%elem_in_order. destruct (HA h Hh) as (K1 & K2 & K3 & K4 & K5).
    rewrite (st_dom _ _ _ _ _ _ _ _ S1), !sumz_insert, size_union, size_singleton by set_solver. split_and!; try lia; set_solver.
  - exists q'. split; [done|]. eapply staged_ext; [|by eapply staged_recounted]. intros h _. split_and!; try done. unfold set_on, with_descendant.
    destruct (decide (h ∈ Anc)) as [Hd|Hd]; [by rewrite decide_True by by apply elem_in_order|by rewrite decide_False by by rewrite elem_in_order].
Qed.

Section Adding.
Context (p : CTxMemPool) (entry : CTxMemPoolEntry) (I : pool_inv p) (A : addable p entry).
Notation n := (e_hash entry).
Notation tx := (e_tx entry).
Notation delta := (delta_of p n).

Definition new_entry : CTxMemPoolEntry := with_delta entry delta (nFee entry + delta) (nFee entry + delta).

Lemma new_entry_same : delta = 0 -> new_entry = entry.
Proof.
  intros E. unfold new_entry. rewrite E, Z.add_0_r. pose proof (ad_fresh _ _ A) as [E1 _ _ E4 _ _ E7 _]. destruct entry. cbn in *. unfold with_delta. cbn. congruence.
Qed.
Lemma apply_delta q : mapDeltas q = mapDeltas p -> mapTx q = <[n := entry]> (mapTx p) ->
  match mapDeltas q !! n with Some d => if d =? 0 then Ok q else modify n (UpdateFeeDelta d) q | None => Ok q end = Ok (with_mapTx q (<[n := new_entry]> (mapTx p))).
Proof.
  intros Ed Eq. assert (Esame : delta = 0 -> q = with_mapTx q (<[n := new_entry]> (mapTx p))) by (intros E; rewrite new_entry_same, <- Eq by done; by destruct q).
  rewrite Ed. unfold delta_of in *. destruct (mapDeltas p !! n) as [d|] eqn:E; cbn [default] in *; [|by rewrite <- Esame].
  destruct (Z.eqb_spec d 0) as [->|Hd]; [by rewrite <- Esame|]. unfold modify, entry_at. rewrite Eq, lookup_insert_eq. cbn [mbind outcome_bind].
  unfold UpdateFeeDelta. pose proof (ad_fresh _ _ A) as [E1 _ _ E4 _ _ E7 _]. pose proof (ad_fee _ _ A) as [F1 F2]. unfold delta_of in F1, F2. rewrite E in F1, F2. cbn [default from_option id] in F1, F2.
  assert (0 <= sumz (fun h => Z.abs (weight p modified_fee h)) (dom (mapTx p))) by (apply sumz_nonneg; intros; lia).
  rewrite E1, E4, E7, Z.sub_0_r. unfold int64_result. rewrite decide_True by done. cbn [mbind outcome_bind]. rewrite !decide_True by (unfold in_s; lia). cbn [mbind outcome_bind].
  rewrite insert_insert_eq. unfold new_entry, delta_of. by rewrite E.
Qed.

(** The pool when the entry is in the maps, without links or counters. *)
Definition entered : CTxMemPool :=
  Pool (<[n := new_entry]> (mapTx p)) (<[n := no_links]> (mapLinks p))
    (foldl (fun m o => if bool_decide (is_Some (m !! o)) then m else <[o := tx]> m) (mapNextTx p) (inputs_of tx)) (mapDeltas p)
    (mapSaplingNullifiers p) (totalTxSize p) (u64 (cachedInnerUsage p + nUsageSize entry)) (nTransactionsUpdated p) (pool_index p).

Notation U := (dom (mapTx p)).
Notation w := (weights_of entered).
Notation DP := (direct_parents p tx).

Lemma entered_dom : dom (mapTx entered) = {[n]} ∪ U.
Proof. cbn. by rewrite dom_insert_L. Qed.
Lemma n_new : n ∉ U.
Proof. apply not_elem_of_dom, A. Qed.
Lemma entered_weight f h : h ∈ U -> weight entered f h = weight p f h.
Proof. intros Hh. unfold weight. cbn. rewrite lookup_insert_ne; [done|]. intros <-. by apply n_new in Hh. Qed.
Lemma entered_weight_new f : weight entered f n = f new_entry.
Proof. unfold weight. cbn. by rewrite lookup_insert_eq. Qed.
Lemma entered_sum f : sumz (weight entered f) ({[n]} ∪ U) = f new_entry + sumz (weight p f) U.
Proof. rewrite sumz_insert by apply n_new. rewrite entered_weight_new. f_equal. apply sumz_ext. intros h Hh. by rewrite entered_weight. Qed.
Lemma entered_sum_abs f : sumz (fun h => Z.abs (weight entered f h)) ({[n]} ∪ U) = Z.abs (f new_entry) + sumz (fun h => Z.abs (weight p f h)) U.
Proof. rewrite sumz_insert by apply n_new. rewrite entered_weight_new. f_equal. apply sumz_ext. intros h Hh. by rewrite entered_weight. Qed.
Lemma parents_new : parents_in p n = ∅ /\ children_in p n = ∅.
Proof.
  split; apply set_eq; intros x; (split; [|set_solver]); intros Hx; [|apply elem_children_in in Hx]; apply parents_in_dom in Hx; destruct Hx; by apply n_new in H || apply n_new in H0.
Qed.

Lemma entered_small : small w ({[n]} ∪ U).
Proof.
  pose proof (pi_small _ I) as [S1 S2 S3 S4 S5]. destruct (ad_size _ _ A), (ad_fee _ _ A), (ad_sig _ _ A).
  split; cbn [weights_of w_size w_fee w_sig] in *.
  - intros h [->%elem_of_singleton|Hh]%elem_of_union; [by rewrite entered_weight_new|]. rewrite entered_weight by done. by apply S1.
  - intros h [->%elem_of_singleton|Hh]%elem_of_union; [by rewrite entered_weight_new|]. rewrite entered_weight by done. by apply S2.
  - by rewrite entered_sum.
  - by rewrite entered_sum_abs.
  - by rewrite entered_sum.
Qed.

Context (Ac Dc : uint256 -> gset uint256) (F : family U (parents_in p) (children_in p) Ac Dc) (Hc : counted (weights_of p) Dc Ac p).

Lemma relatives_new : Ac n = ∅ /\ Dc n = ∅.
Proof.
  split; apply set_eq; intros x; (split; [|set_solver]); intros Hx; [apply (fam_ancestors _ _ _ _ _ F) in Hx|apply (fam_descendants _ _ _ _ _ F) in Hx];
    apply (tc_in_U _ _ _ _ _ F) in Hx; destruct Hx; by apply n_new in H || apply n_new in H0.
Qed.

Lemma entered_counted : counted w Dc Ac entered.
Proof.
  destruct relatives_new as [EA ED]. intros h e. cbn [mapTx entered]. destruct (decide (h = n)) as [->|Hne].
  - rewrite lookup_insert_eq. intros [= <-]. pose proof (ad_fresh _ _ A) as [E1 E2 E3 E4 E5 E6 E7 E8].
    split; cbn [weights_of w_size w_fee w_sig]; rewrite ?EA, ?ED, ?sumz_empty, ?size_empty, ?entered_weight_new, ?Z.add_0_r; cbn; try done; lia.
  - rewrite lookup_insert_ne by done. intros He. assert (Hh : h ∈ U) by (apply elem_of_dom; by exists e).
    assert (Hw : forall f (X : gset uint256), X ⊆ U -> sumz (weight entered f) X = sumz (weight p f) X) by (intros f X HX; apply sumz_ext; intros x Hx; apply entered_weight; by apply HX).
    destruct (fam_sub _ _ _ _ _ F h) as [SA SD]. destruct (Hc h e He). split; cbn [weights_of w_size w_fee w_sig] in *; rewrite ?entered_weight, ?Hw by done; done.
Qed.

Lemma entered_linked : linked (parents_in p) (children_in p) entered /\ usage_ok (parents_in p) (children_in p) entered.
Proof.
  destruct parents_new as [E1 E2]. destruct (pi_linked _ I) as [L1 L2]. split; [split|].
  - cbn. by rewrite !dom_insert_L, L1.
  - intros h l. cbn [mapLinks entered]. destruct (decide (h = n)) as [->|Hne]; [rewrite lookup_insert_eq; intros [= <-]; by rewrite E1, E2|rewrite lookup_insert_ne by done; apply L2].
  - unfold usage_ok. cbn [cachedInnerUsage entered]. rewrite (pi_usage _ I), wrapu_add_l, entered_dom. rewrite entered_sum.
    rewrite sumz_insert by apply n_new. rewrite E1, E2, !size_empty. f_equal. cbn. lia.
Qed.

Lemma entered_staged : staged w ({[n]} ∪ U) (parents_in p) (children_in p) Dc Ac entered entered.
Proof. destruct entered_linked. split; [apply entered_dom|done|done|apply entered_counted|done]. Qed.

Definition link_parents (q : CTxMemPool) : CTxMemPool :=
  foldl (fun q phash => if exists_tx q phash then UpdateParent n phash true q else q) q (in_order (input_hashes tx)).

Lemma addUnchecked_with_eq Anc : addUnchecked_with n entry Anc p =
  (q ← UpdateAncestorsOf true n Anc (link_parents entered);
   q ← UpdateEntryForAncestors n Anc q;
   Ok (Pool (mapTx q) (mapLinks q) (mapNextTx q) (mapDeltas q) (foldl (fun m k => <[k := tx]> m) (mapSaplingNullifiers q) (spent_nullifiers tx))
        (u64 (totalTxSize q + nTxSize entry)) (cachedInnerUsage q) (u32 (nTransactionsUpdated q + 1)) (pool_index q))).
Proof.
  unfold addUnchecked_with. cbv zeta. assert (En : exists_tx p n = false) by (apply not_true_iff_false; rewrite exists_tx_dom; apply n_new).
  rewrite En. cbn [mapLinks with_mapTx]. rewrite (bool_decide_eq_false_2 (is_Some (mapLinks p !! n))) by (rewrite <- elem_of_dom, (proj1 (pi_linked _ I)); apply n_new).
  cbn [cachedInnerUsage with_mapTx]. rewrite apply_delta by done. cbn [mbind outcome_bind]. unfold entry_at at 1. cbn [mapTx with_links with_mapTx]. rewrite lookup_insert_eq. cbn [mbind outcome_bind].
  replace (e_tx new_entry) with tx by done. rewrite (ad_zerocoin _ _ A). cbn [mapLinks mapTx mapNextTx mapDeltas mapSaplingNullifiers totalTxSize cachedInnerUsage nTransactionsUpdated pool_index with_links with_mapTx].
  rewrite map_map. fold (inputs_of tx). fold (input_hashes tx). done.
Qed.

Section WithAncestors.
Context (Anc : gset uint256) (HAnc : ancestors_from p DP Anc).

Lemma HAnc_links x : x ∈ Anc <-> exists q, q ∈ DP /\ rtc (fun c q => q ∈ parents_in p c) q x.
Proof.
  rewrite (HAnc x). split; intros (q & Hq & Hr); exists q; (split; [done|]); (eapply (rtc_congruence id); [|exact Hr]); intros u v; by rewrite parent_of_in.
Qed.
Lemma DP_sub : DP ⊆ U.
Proof. unfold direct_parents. set_solver. Qed.
Notation C' := (with_child (children_in p) n DP).
Notation D' := (with_descendant Dc n Anc).
Lemma grown : family ({[n]} ∪ U) (set_at n DP (parents_in p)) C' (set_at n Anc Ac) D'.
Proof. apply family_extend; [done|apply n_new|apply DP_sub|apply HAnc_links]. Qed.
Lemma Anc_sub : Anc ⊆ U.
Proof. by apply (extend_anc_sub _ _ _ _ _ F DP Anc DP_sub HAnc_links). Qed.

Lemma link_parents_staged : staged w ({[n]} ∪ U) (set_at n DP (parents_in p)) (children_in p) Dc Ac entered (link_parents entered).
Proof.
  destruct entered_linked as [L U0]. destruct (fold_new_parents (children_in p) n (in_order (input_hashes tx)) (parents_in p) entered) as (L1 & U1 & R1 & E1); [cbn; by rewrite lookup_insert_eq|done|done|].
  cbv zeta in *. fold (link_parents entered) in *.
  assert (EP : forall h, set_at n DP (parents_in p) h = set_at n (parents_in p n ∪ (list_to_set (in_order (input_hashes tx)) ∩ dom (mapTx entered))) (parents_in p) h).
  { intros h. unfold set_at. case_decide; [|done]. destruct parents_new as [-> _]. rewrite entered_dom. unfold direct_parents.
    assert (Hself : n ∉ input_hashes tx). { intros (i & Hi & Eo)%elem_input_hashes. destruct (ad_childless _ _ A _ Eo) as [_ Hx]. apply Hx. apply list_elem_of_fmap. by exists i. }
    apply set_eq. intros x. rewrite !elem_of_union, !elem_of_intersection, elem_of_list_to_set, elem_in_order. set_solver. }
  split; [by rewrite E1, entered_dom| | | |done].
  - revert L1. apply linked_ext. intros h _. by rewrite EP.
  - revert U1. apply usage_ext. intros h _. by rewrite EP.
  - unfold counted. rewrite E1. apply entered_counted.
Qed.

Lemma n_entry q P0 C0 D0 A0 : staged w ({[n]} ∪ U) P0 C0 D0 A0 entered q -> exists e, mapTx q !! n = Some e /\ nTxSize e = w_size w n /\ GetModifiedFee e = Ok (w_fee w n) /\ 1 <= w_size w n < 2 ^ 63 /\ in_s 64 (w_fee w n).
Proof.
  intros S. destruct (staged_entry w _ entered_small entered P0 C0 D0 A0 q n S) as (e & He & Es & _ & Ef & B1 & B2 & _); [set_solver|]. exists e. split_and!; try done; [lia|lia|unfold in_s; lia..].
Qed.

Lemma UpdateAncestorsOf_staged q : staged w ({[n]} ∪ U) (set_at n DP (parents_in p)) (children_in p) Dc Ac entered q ->
  exists q', UpdateAncestorsOf true n Anc q = Ok q' /\ staged w ({[n]} ∪ U) (set_at n DP (parents_in p)) C' D' Ac entered q'.
Proof.
  pose proof n_new as Hn. pose proof Anc_sub as HAU. pose proof DP_sub as HDU. apply UpdateAncestorsOf_joins; [apply entered_small|set_solver| |set_solver|].
  - unfold set_at. by rewrite decide_True.
  - intros h Hh. destruct (fam_sub _ _ _ _ _ F h) as [_ Hd]. destruct (fam_self _ _ _ _ _ F h) as [_ Hs]. split_and!; set_solver.
Qed.

Lemma UpdateEntryForAncestors_staged q P0 C0 D0 : staged w ({[n]} ∪ U) P0 C0 D0 Ac entered q ->
  exists q', UpdateEntryForAncestors n Anc q = Ok q' /\ staged w ({[n]} ∪ U) P0 C0 D0 (set_at n Anc Ac) entered q'.
Proof.
  intros S. pose proof n_new as Hn. pose proof Anc_sub as HAU. unfold UpdateEntryForAncestors.
  rewrite (for_each_sum_ancestor w ({[n]} ∪ U) q entered_small (in_order Anc)); [|apply in_order_NoDup|].
  - cbn [mbind outcome_bind]. replace (list_to_set (in_order Anc) : gset uint256) with Anc by (apply set_eq; intros x; by rewrite elem_of_list_to_set, elem_in_order).
    destruct (set_ancestors w _ entered_small D0 Ac q n Anc (st_counted _ _ _ _ _ _ _ _ S)) as (q' & Hq & Hc' & R); [rewrite (st_dom _ _ _ _ _ _ _ _ S); set_solver|set_solver|set_solver|set_solver|].
    destruct relatives_new as [E _]. rewrite E, !sumz_empty, size_empty, !Z.sub_0_r in Hq. exists q'. split; [done|]. by eapply staged_recounted.
  - intros h Hh%elem_in_order. split; [set_solver|]. assert (Hd : h ∈ dom (mapTx q)) by (rewrite (st_dom _ _ _ _ _ _ _ _ S); set_solver).
    apply elem_of_dom in Hd as [e He]. exists e. destruct (st_counted _ _ _ _ _ _ _ _ S h e He). done.
Qed.
End WithAncestors.

(** The pool at the end. *)
Definition added (q : CTxMemPool) : CTxMemPool :=
  Pool (mapTx q) (mapLinks q) (mapNextTx q) (mapDeltas q) (foldl (fun m k => <[k := tx]> m) (mapSaplingNullifiers q) (spent_nullifiers tx))
    (u64 (totalTxSize q + nTxSize entry)) (cachedInnerUsage q) (u32 (nTransactionsUpdated q + 1)) (pool_index q).

Section Added.
Context (q : CTxMemPool) (R : reworked entered q).

Lemma added_lookup h : core <$> mapTx (added q) !! h = if decide (h = n) then Some (core new_entry) else core <$> mapTx p !! h.
Proof.
  cbn [added mapTx]. rewrite (rw_core _ _ R h). cbn [mapTx entered]. case_decide as Hd; [by rewrite Hd, lookup_insert_eq|]. by rewrite lookup_insert_ne.
Qed.
Lemma added_dom : dom (mapTx (added q)) = {[n]} ∪ U.
Proof. cbn [added mapTx]. by rewrite (reworked_dom _ _ R), entered_dom. Qed.
Lemma added_get h : get (added q) h = if decide (h = n) then Some tx else get p h.
Proof.
  pose proof (added_lookup h) as E. unfold get. case_decide.
  - destruct (mapTx (added q) !! h) as [e|]; [|done]. cbn in E |- *. assert (core e = core new_entry) as (-> & _)%entry_core_fields by congruence. done.
  - destruct (mapTx (added q) !! h) as [e|], (mapTx p !! h) as [e'|]; cbn in E |- *; try done. assert (core e = core e') as (-> & _)%entry_core_fields by congruence. done.
Qed.
Lemma added_weight f h : (forall e e', core e' = core e -> f e' = f e) -> weight (added q) f h = weight entered f h.
Proof. intros Hf. rewrite <- (reworked_weight _ _ f R Hf h). done. Qed.
Lemma new_not_input h e : mapTx p !! h = Some e -> n ∉ input_hashes (e_tx e).
Proof.
  intros He (i & Hi & Eo)%elem_input_hashes. destruct (ad_childless _ _ A _ Eo) as [Hx _]. destruct (di_key _ (pi_data _ I) h e He) as [Ek _].
  assert (mapNextTx p !! prevout i = Some (e_tx e)); [|congruence]. apply (di_spent _ (pi_data _ I)). split.
  - unfold get. fold (e_hash e). by rewrite Ek, He.
  - apply list_elem_of_fmap. by exists i.
Qed.
Lemma new_not_own_input : n ∉ input_hashes tx.
Proof. intros (i & Hi & Eo)%elem_input_hashes. destruct (ad_childless _ _ A _ Eo) as [_ Hx]. apply Hx. apply list_elem_of_fmap. by exists i. Qed.

Lemma added_parents h : parents_in (added q) h = set_at n DP (parents_in p) h.
Proof.
  pose proof (added_lookup h) as E. unfold parents_in at 1, direct_parents. rewrite added_dom. unfold set_at. case_decide.
  - destruct (mapTx (added q) !! h) as [e|]; [|done]. cbn in E. assert (core e = core new_entry) as (-> & _)%entry_core_fields by congruence. pose proof new_not_own_input. unfold direct_parents. cbn [e_tx new_entry with_delta]. set_solver.
  - unfold parents_in. destruct (mapTx (added q) !! h) as [e|], (mapTx p !! h) as [e'|] eqn:Ee; cbn in E; try done. assert (core e = core e') as (-> & _)%entry_core_fields by congruence.
    pose proof (new_not_input h e' Ee). unfold direct_parents. set_solver.
Qed.

Lemma added_data : data_inv (added q).
Proof.
  destruct (pi_data _ I) as [K1 K2 K3 K4]. assert (Hg : get p (GetHash tx) = None) by (unfold get; fold n; by rewrite (ad_new _ _ A)). pose proof (rw_rest _ _ R) as Er. split.
  - intros h e He. pose proof (added_lookup h) as E. rewrite He in E. case_decide as Hd.
    + cbn in E. assert (core e = core new_entry) as (Et & _)%entry_core_fields by congruence. unfold e_hash at 1. rewrite Et. split; [done|apply A].
    + destruct (mapTx p !! h) as [e'|] eqn:Ee; [|done]. cbn in E. assert (core e = core e') as (Et & _)%entry_core_fields by congruence. unfold e_hash. rewrite Et. by apply (K1 h e').
  - apply (spent_by_add p _ inputs_of (mapNextTx p) _ tx); [done|apply added_get|apply A| |done]. intros o. cbn [added mapNextTx]. rewrite Er. cbn [mapNextTx with_links with_mapTx entered].
    apply fold_insert_absent. intros x Hx. left. by apply A.
  - apply (spent_by_add p _ spent_nullifiers (mapSaplingNullifiers p) _ tx); [done|apply added_get|apply A| |done]. intros o. cbn [added mapSaplingNullifiers]. rewrite fold_insert_lookup, Er. done.
  - rewrite added_dom. rewrite (sumz_ext _ (weight entered nTxSize)) by (intros h _; apply added_weight; intros e e' Hx; apply entry_core_fields in Hx; tauto).
    rewrite entered_sum. cbn [added totalTxSize]. rewrite Er. cbn [totalTxSize with_links with_mapTx entered]. rewrite K4, wrapu_add_l. f_equal. cbn. lia.
Qed.
End Added.

Lemma addUnchecked_with_ok Anc : ancestors_from p DP Anc ->
  exists p', addUnchecked_with n entry Anc p = Ok p' /\ pool_inv p' /\ (forall h, get p' h = if decide (h = n) then Some tx else get p h) /\ mapDeltas p' = mapDeltas p.
Proof.
  intros HAnc. rewrite addUnchecked_with_eq. destruct (UpdateAncestorsOf_staged Anc HAnc _ (link_parents_staged Anc HAnc)) as (q1 & -> & S1). cbn [mbind outcome_bind].
  destruct (UpdateEntryForAncestors_staged Anc HAnc q1 _ _ _ S1) as (q & -> & S). cbn [mbind outcome_bind]. fold (added q). exists (added q). split; [done|].
  pose proof (st_reworked _ _ _ _ _ _ _ _ S) as R. pose proof (added_dom q R) as Hd. pose proof (grown Anc HAnc) as G.
  assert (HC : forall h, children_in (added q) h = with_child (children_in p) n DP h).
  { intros h. apply set_eq. intros c. by rewrite elem_children_in, (added_parents q R), (fam_children _ _ _ _ _ G). }
  assert (HPC : forall h, h ∈ dom (mapTx (added q)) -> parents_in (added q) h = set_at n DP (parents_in p) h /\ children_in (added q) h = with_child (children_in p) n DP h) by (intros h _; split; [apply (added_parents q R)|apply HC]).
  assert (Hw : forall h, w_size (weights_of (added q)) h = w_size w h /\ w_fee (weights_of (added q)) h = w_fee w h /\ w_sig (weights_of (added q)) h = w_sig w h).
  { intros h. cbn [weights_of w_size w_fee w_sig]. split_and!; apply (added_weight q R); intros e e' Hx; apply entry_core_fields in Hx; tauto. }
  split_and!; [|apply (added_get q R)|by rewrite (rw_rest _ _ R)]. split.
  - apply (added_data q R).
  - apply (linked_ext (set_at n DP (parents_in p)) (with_child (children_in p) n DP)); [done|]. exact (st_linked _ _ _ _ _ _ _ _ S).
  - apply (usage_ext (set_at n DP (parents_in p)) (with_child (children_in p) n DP)); [done|]. exact (st_usage _ _ _ _ _ _ _ _ S).
  - exists (set_at n Anc Ac), (with_descendant Dc n Anc). split.
    + rewrite Hd. destruct G as [G1 G2 G3 G4 G5].
      assert (Ht : forall a b, tc (fun c x => x ∈ parents_in (added q) c) a b <-> tc (fun c x => x ∈ set_at n DP (parents_in p) c) a b).
      { intros a b. split; intros Hx; (eapply (tc_congruence id); [|exact Hx]); intros u v; cbn; by rewrite (added_parents q R). }
      split; [intros h x; rewrite (added_parents q R); apply G1|intros h c; apply elem_children_in|intros h a; rewrite Ht; apply G3|intros h d; rewrite Ht; apply G4|intros h; rewrite Ht; apply G5].
    + apply (counted_weights w); [intros h _; apply Hw| |exact (st_counted _ _ _ _ _ _ _ _ S)]. intros h _. rewrite Hd. destruct (fam_sub _ _ _ _ _ G h). done.
  - rewrite Hd. apply (small_ext w); [intros h _; apply Hw|apply entered_small].
Qed.
End Adding.

(** C5: [addUnchecked], of a transaction that is new, conflicts with nothing in
    the pool and has no children there, succeeds: no assertion on the counters
    fails and no sum overflows.  The pool then holds exactly one transaction
    more and is consistent: the links are those of the inputs, the counters of
    every entry are the sums over its ancestors and over its descendants, every
    outpoint and nullifier is spent once, and the totals are right. *)
Theorem addUnchecked_keeps p entry : pool_inv p -> addable p entry ->
  exists p', addUnchecked (e_hash entry) entry p = Ok p' /\ pool_inv p' /\ (forall h, get p' h = if decide (h = e_hash entry) then Some (e_tx entry) else get p h).
Proof.
  intros I A. destruct (ancestors_exist p entry I) as (Anc & E & HA & _). destruct (pi_counts _ I) as (Ac & Dc & F & Hc).
  destruct (addUnchecked_with_ok p entry I A Ac Dc F Hc Anc HA) as (p' & Hp & I' & G & _). exists p'. split; [|done].
  unfold addUnchecked. rewrite E. done.
Qed.

(** ** A pool of two transactions *)

(** What the constructor makes is fresh. *)
Lemma CTxMemPoolEntry_new_fresh tx fee time height noInputs inChain coinbase sigOps usage e :
  CTxMemPoolEntry_new tx fee time height noInputs inChain coinbase sigOps usage = Ok e ->
  fresh_entry e /\ e_tx e = tx /\ nTxSize e = zlen (SerializeTransaction tx) /\ nFee e = fee /\ sigOpCount e = sigOps.
Proof.
  unfold CTxMemPoolEntry_new. destruct (GetValueOut tx) as [out| | |]; [|done..]. cbn [mbind outcome_bind]. unfold int64_result. case_decide; [|done]. cbn [mbind outcome_bind].
  destruct (inChain <=? out + fee); [|done]. cbn [cassert mbind outcome_bind]. intros [= <-]. done.
Qed.

Lemma empty_pool_inv : pool_inv CTxMemPool_new.
Proof.
  split.
  - split; [done| | |done]; intros o t; (split; [done|]); intros [Hg _]; unfold get in Hg; done.
  - split; [done|]. intros h l Hl. done.
  - unfold usage_ok. cbn [mapTx CTxMemPool_new clear]. rewrite dom_empty_L, !sumz_empty. done.
  - exists (fun _ => ∅), (fun _ => ∅). split; [|done].
    assert (Ht : forall a b, ~ tc (fun c q => q ∈ parents_in CTxMemPool_new c) a b) by (intros a b Hr; destruct Hr as [x y Hxy|x y z Hxy _]; apply parents_in_dom in Hxy as [Hx _]; cbn in Hx; set_solver).
    split; [intros h q Hq; by apply parents_in_dom|apply elem_children_in|..]; [intros h a|intros h d|intros h]; [split; [by intros ?%elem_of_empty|by intros ?%Ht]..|apply Ht].
  - cbn [mapTx CTxMemPool_new clear]. rewrite dom_empty_L. split; [set_solver|set_solver|rewrite sumz_empty; lia..].
Qed.

Module Toy.
(** [child] spends the output of [parent]; [rival] spends what [parent] does. *)
Definition parent : CTransaction := Transaction 1 0 [TxIn (OutPoint (replicate 32 7) 1) [] 5] [TxOut 10 [OP_DUP] NULL_ROUNDS] 0 None None.
Definition child : CTransaction := Transaction 1 0 [TxIn (OutPoint (GetHash parent) 0) [] 5] [TxOut 8 [OP_DUP] NULL_ROUNDS] 0 None None.
Definition rival : CTransaction := Transaction 1 0 [TxIn (OutPoint (replicate 32 7) 1) [] 6] [TxOut 9 [OP_DUP] NULL_ROUNDS] 0 None None.
Definition entry_of (tx : CTransaction) (fee : Z) : CTxMemPoolEntry :=
  let size := zlen (SerializeTransaction tx) in
  Entry tx fee size (CalculateModifiedSize tx size) 50 false false 100 7 true 0 false 1 0 1 size fee 1 size fee 1.
Definition added_to (p : CTxMemPool) (tx : CTransaction) (fee : Z) : CTxMemPool :=
  match addUnchecked (GetHash tx) (entry_of tx fee) p with Ok p => p | _ => p end.
Definition one : CTxMemPool := added_to CTxMemPool_new parent 2.
Definition two : CTxMemPool := added_to one child 3.

(** The hashes are not the outpoints of one another. *)
Lemma hashes : GetHash parent <> replicate 32 7 /\ GetHash child <> replicate 32 7 /\ GetHash child <> GetHash parent /\ GetHash rival <> GetHash parent /\ GetHash rival <> GetHash child /\ GetHash rival <> replicate 32 7.
Proof. assert (forall a b : list Z, bool_decide (a = b) = false -> a <> b) as H by (intros a b; apply bool_decide_eq_false). split_and!; apply H; by vm_compute. Qed.

Lemma entry_fresh tx fee : fresh_entry (entry_of tx fee).
Proof. done. Qed.
Lemma added_to_ok p tx fee : pool_inv p -> addable p (entry_of tx fee) ->
  addUnchecked (GetHash tx) (entry_of tx fee) p = Ok (added_to p tx fee) /\ pool_inv (added_to p tx fee) /\
  (forall h, get (added_to p tx fee) h = if decide (h = GetHash tx) then Some tx else get p h) /\ mapDeltas (added_to p tx fee) = mapDeltas p.
Proof.
  intros I A. destruct (ancestors_exist p (entry_of tx fee) I) as (Anc & E & HA & _). destruct (pi_counts _ I) as (Ac & Dc & F & Hc).
  destruct (addUnchecked_with_ok p _ I A Ac Dc F Hc Anc HA) as (p' & Hp & I' & G & D).
  assert (Ea : addUnchecked (GetHash tx) (entry_of tx fee) p = Ok p') by (unfold addUnchecked; rewrite E; exact Hp).
  unfold added_to. rewrite Ea. done.
Qed.

Lemma parent_addable : addable CTxMemPool_new (entry_of parent 2).
Proof.
  destruct hashes as (H1 & _). split; [apply entry_fresh|apply lookup_empty|reflexivity|intros; apply lookup_empty|intros; apply lookup_empty| | | |].
  - intros o. cbn [e_hash e_tx entry_of]. intros Ho. split; [apply lookup_empty|]. intros ->%list_elem_of_singleton. by destruct (H1 (eq_sym Ho)).
  - vm_compute. split; [discriminate|reflexivity].
  - vm_compute. split; [split; [discriminate|reflexivity]|reflexivity].
  - vm_compute. split; [discriminate|reflexivity].
Qed.
Lemma one_ok : pool_inv one /\ (forall h, get one h = if decide (h = GetHash parent) then Some parent else None).
Proof. destruct (added_to_ok _ _ _ empty_pool_inv parent_addable) as (_ & I & G & _). split; [exact I|]. intros h. unfold one. rewrite G. done. Qed.

Lemma one_spends o t : mapNextTx one !! o = Some t -> out_hash o = replicate 32 7.
Proof.
  destruct one_ok as [I G]. intros [Hg Ho]%(di_spent _ (pi_data _ I)). rewrite G in Hg. case_decide; [|done]. injection Hg as <-.
  cbn in Ho. apply list_elem_of_singleton in Ho as ->. done.
Qed.
Lemma child_addable : addable one (entry_of child 3).
Proof.
  destruct hashes as (H1 & H2 & H3 & _). destruct one_ok as [I G].
  assert (Hnone : forall o, out_hash o <> replicate 32 7 -> mapNextTx one !! o = None) by (intros o Ho; destruct (mapNextTx one !! o) as [t|] eqn:E; [|done]; by apply one_spends in E).
  split; [apply entry_fresh| |reflexivity| |by intros n Hn%elem_of_nil| | | |].
  - change (mapTx one !! GetHash child = None). specialize (G (GetHash child)). rewrite decide_False in G by done. unfold get in G. by destruct (mapTx one !! GetHash child).
  - intros o ->%list_elem_of_singleton. apply Hnone. exact H1.
  - intros o. cbn [e_hash e_tx entry_of]. intros Ho. split; [apply Hnone; rewrite Ho; exact H2|]. intros ->%list_elem_of_singleton. by destruct (H3 (eq_sym Ho)).
  - vm_compute. split; [discriminate|reflexivity].
  - vm_compute. split; [split; [discriminate|reflexivity]|reflexivity].
  - vm_compute. split; [discriminate|reflexivity].
Qed.
Lemma two_ok : pool_inv two /\ (forall h, get two h = if decide (h = GetHash child) then Some child else if decide (h = GetHash parent) then Some parent else None).
Proof.
  destruct one_ok as [I1 G1]. destruct (added_to_ok _ _ _ I1 child_addable) as (_ & I & G & _). split; [exact I|]. intros h. unfold two. rewrite G, G1. done.
Qed.
End Toy.

(** The limits at an instance: [child] in the pool that holds [parent]. *)
Lemma child_size : 0 <= nTxSize (Toy.entry_of Toy.child 3) /\ nTxSize (Toy.entry_of Toy.child 3) + sumz (weight Toy.one nTxSize) (dom (mapTx Toy.one)) < 2 ^ 63.
Proof. vm_compute. split; [discriminate|reflexivity]. Qed.
Lemma CalculateMemPoolAncestors_iff_witness :
  let lim := Limits 25 101000 25 101000 in let e := Toy.entry_of Toy.child 3 in
  exists r s Anc, CalculateMemPoolAncestors Toy.one lim e true = Ok (r, s) /\ ancestors_from Toy.one (direct_parents Toy.one (e_tx e)) Anc /\ (r = None -> s = Anc) /\
    (r = None <-> (forall h a, h ∈ Anc -> mapTx Toy.one !! h = Some a -> within lim e a) /\
      (Anc <> ∅ -> nTxSize e + sumz (weight Toy.one nTxSize) Anc <= limitAncestorSize lim /\ Z.of_nat (size Anc) + 1 <= limitAncestorCount lim)).
Proof. exact (CalculateMemPoolAncestors_iff Toy.one _ _ (proj1 Toy.one_ok) (proj1 child_size) (proj2 child_size)). Defined.

Lemma addUnchecked_keeps_witness : let e := Toy.entry_of Toy.child 3 in
  exists p', addUnchecked (e_hash e) e Toy.one = Ok p' /\ pool_inv p' /\ (forall h, get p' h = if decide (h = e_hash e) then Some (e_tx e) else get Toy.one h).
Proof. exact (addUnchecked_keeps Toy.one _ (proj1 Toy.one_ok) Toy.child_addable). Defined.
