(* ===== verification/MempoolRemove.v ===== *)
(** * Removing from the memory pool

    A transaction leaves with everything that depends on it; when a block is
    connected its transactions leave and nothing that conflicts with it stays;
    and the invariant of [MempoolInv] is kept. *)
From stdpp Require Import sorting fin_sets relations.
From S2P Require Import Prelude Serialize HashStream Sha256 Hash Script Interpreter Standard Transaction Undo Coins TxVerify Indexes Mempool MempoolGraph MempoolInv MempoolAdd.

#[local] Opaque GetHash.

Lemma bind_Ok {A B} (k : A -> pool_op B) a : (x ← Ok a; k x) = k a.
Proof. done. Qed.

Lemma without_refl p : without ∅ p p.
Proof. intros h. by rewrite decide_False by set_solver. Qed.
Lemma without_trans S1 S2 p q r : without S1 p q -> without S2 q r -> without (S1 ∪ S2) p r.
Proof. intros W1 W2 h. rewrite W2, W1. repeat case_decide; set_solver. Qed.
Lemma without_parent_of S p p' c q : without S p p' -> parent_of p' c q -> parent_of p c q.
Proof.
  intros W Hx. apply parent_of_in in Hx. pose proof (parents_in_dom _ _ _ Hx) as [Hc _]. rewrite (without_parents _ _ _ _ W Hc) in Hx.
  apply parent_of_in. set_solver.
Qed.
Lemma without_get_Some S p p' h t : without S p p' -> get p' h = Some t -> h ∉ S /\ get p h = Some t.
Proof. intros W. rewrite (without_get _ _ _ _ W). by case_decide. Qed.

Lemma parent_of_without S p p' c q : without S p p' -> parent_of p c q -> c ∉ S -> q ∉ S -> parent_of p' c q.
Proof.
  intros W Hx Hc Hq. apply parent_of_in in Hx. pose proof (parents_in_dom _ _ _ Hx) as [Hcd _]. apply parent_of_in.
  rewrite (without_parents _ _ _ _ W); [|rewrite (without_dom _ _ _ W)]; set_solver.
Qed.

(** What is removed takes its children along, except for some. *)
Definition closed_but (B : uint256 -> Prop) (p : CTxMemPool) (S : gset uint256) : Prop :=
  forall q x, q ∈ S -> parent_of p x q -> x ∈ S \/ B q.
Lemma closed_but_mono (B B' : uint256 -> Prop) p S : (forall q, B q -> B' q) -> closed_but B p S -> closed_but B' p S.
Proof. intros HB H q x Hq Hx. destruct (H q x Hq Hx); auto. Qed.
Lemma closed_but_trans B p p1 S1 S2 : closed_but B p S1 -> without S1 p p1 -> closed_but B p1 S2 -> closed_but B p (S1 ∪ S2).
Proof.
  intros H1 W H2 q x Hq Hx. destruct (decide (q ∈ S1)) as [Hq1|Hq1]; [destruct (H1 q x Hq1 Hx); [left; set_solver|by right]|].
  destruct (decide (x ∈ S1)) as [Hx1|Hx1]; [left; set_solver|]. destruct (H2 q x) as [?|?]; [set_solver|by eapply parent_of_without|left; set_solver|by right].
Qed.

Lemma pool_inv_deltas p m : pool_inv p -> pool_inv (with_deltas p m).
Proof. intros [[K1 K2 K3 K4] H2 H3 H4 H5]. split; [by split|done|done|done|done]. Qed.
Lemma without_deltas S p p' m : without S p p' -> without S p (with_deltas p' m).
Proof. done. Qed.

(** ** With everything that depends on it *)

(** The dependents of a set: what reaches it through its parents. *)
Definition dependents (p : CTxMemPool) (roots S : gset uint256) : Prop := forall x, x ∈ S <-> exists h, h ∈ roots /\ rtc (parent_of p) x h.

Lemma dependents_closed B p roots S : dependents p roots S -> closed_but B p S.
Proof. intros HS q x (h & Hh & Hr)%HS Hx. left. apply HS. exists h. split; [done|]. by apply rtc_l with q. Qed.

Lemma dependents_removable (p : CTxMemPool) roots S : roots ⊆ dom (mapTx p) -> dependents p roots S -> removable p S false.
Proof.
  intros Hr HS. split.
  - intros x (h & Hh & Hx)%HS. apply rtc_inv in Hx as [->|(y & Hy & _)]; [by apply Hr|]. apply parent_of_in, parents_in_dom in Hy. tauto.
  - left. intros s c (h & Hh & Hx)%HS Hc. apply HS. exists h. split; [done|]. apply rtc_l with s; [|done]. by apply parent_of_in, elem_children_in.
Qed.

Lemma dependents_found (p : CTxMemPool) (roots : gset uint256) : pool_inv p -> roots ⊆ dom (mapTx p) ->
  exists S, with_descendants_of p (in_order roots) = Ok S /\ dependents p roots S.
Proof.
  intros I Hr. destruct (with_descendants_of_spec p (fun h c => c ∈ children_in p h)) with (in_order roots) as (S & E & HS & _).
  - intros h Hh. exists (Links (parents_in p h) (children_in p h)). split; [|done]. by apply (linked_lookup _ _ _ _ (pi_linked _ I)).
  - intros h c Hc. apply elem_children_in, parents_in_dom in Hc. tauto.
  - intros h Hh%elem_in_order. by apply Hr.
  - exists S. split; [done|]. intros x. rewrite HS. split; intros (h & Hh & Hx); exists h.
    + apply elem_in_order in Hh. split; [done|]. apply rtc_flip. eapply (rtc_congruence id); [|exact Hx]. intros u v Huv. by apply parent_of_in, elem_children_in.
    + split; [by apply elem_in_order|]. apply rtc_flip in Hx. eapply (rtc_congruence id); [|exact Hx]. intros u v Huv. by apply elem_children_in, parent_of_in.
Qed.

Lemma remove_dependents (p : CTxMemPool) roots : pool_inv p -> roots ⊆ dom (mapTx p) ->
  exists S p', with_descendants_of p (in_order roots) = Ok S /\ RemoveStaged S false p = Ok p' /\ dependents p roots S /\ pool_inv p' /\ without S p p' /\ mapDeltas p' = mapDeltas p.
Proof.
  intros I Hr. destruct (dependents_found p roots I Hr) as (S & E & HS). destruct (RemoveStaged_ok p S false I (dependents_removable p roots S Hr HS)) as (p' & E' & I' & W & D).
  exists S, p'. done.
Qed.

(** What [removeRecursive] starts from. *)
Definition removal_roots (p : CTxMemPool) (tx : CTransaction) (roots : gset uint256) : Prop :=
  if exists_tx p (GetHash tx) then roots = {[ GetHash tx ]}
  else forall h, h ∈ roots <-> exists i t, (i < length (vout tx))%nat /\ mapNextTx p !! OutPoint (GetHash tx) (Z.of_nat i) = Some t /\ GetHash t = h.

Lemma spent_in_pool p o t : pool_inv p -> mapNextTx p !! o = Some t -> get p (GetHash t) = Some t /\ GetHash t ∈ dom (mapTx p).
Proof.
  intros I [Hg _]%(di_spent _ (pi_data _ I)). split; [done|]. apply elem_of_dom. unfold get in Hg. by destruct (mapTx p !! GetHash t).
Qed.
Lemma spenders_of_spec p tx : pool_inv p -> exists roots, spenders_of tx p = Ok roots /\ roots ⊆ dom (mapTx p) /\
  forall h, h ∈ roots <-> exists i t, (i < length (vout tx))%nat /\ mapNextTx p !! OutPoint (GetHash tx) (Z.of_nat i) = Some t /\ GetHash t = h.
Proof.
  intros I. unfold spenders_of. set (body := fun i (s : gset uint256) => _).
  assert (G : forall l (s : gset uint256), s ⊆ dom (mapTx p) -> exists r, for_each body l s = Ok r /\ r ⊆ dom (mapTx p) /\
    forall h, h ∈ r <-> h ∈ s \/ exists i t, i ∈ l /\ mapNextTx p !! OutPoint (GetHash tx) (Z.of_nat i) = Some t /\ GetHash t = h).
  { induction l as [|i l IH]; intros s Hs; cbn [for_each]; [exists s; set_solver|]. unfold body at 2. destruct (mapNextTx p !! OutPoint (GetHash tx) (Z.of_nat i)) as [t|] eqn:E.
    - destruct (spent_in_pool p _ t I E) as [_ Ht]. rewrite (proj2 (exists_tx_dom p (GetHash t)) Ht). cbn [cassert mbind outcome_bind].
      destruct (IH ({[ GetHash t ]} ∪ s)) as (r & -> & Hd & Hr); [set_solver|]. exists r. split_and!; [done|done|]. intros h. rewrite Hr. setoid_rewrite elem_of_cons. split.
      + intros [[->%elem_of_singleton|]%elem_of_union|(k & u & ? & ? & ?)]; [right; by exists i, t; auto|by left|right; exists k, u; auto].
      + intros [?|(k & u & [->|?] & Eu & <-)]; [left; set_solver| |right; by exists k, u]. left. assert (u = t) as -> by congruence. set_solver.
    - cbv beta iota. cbn [mbind outcome_bind]. destruct (IH s Hs) as (r & -> & Hd & Hr). exists r. split_and!; [done|done|]. intros h. rewrite Hr. setoid_rewrite elem_of_cons. split.
      + intros [?|(k & u & ? & ? & ?)]; [by left|right; exists k, u; auto].
      + intros [?|(k & u & [->|?] & Eu & <-)]; [by left|congruence|right; by exists k, u]. }
  destruct (G (seq 0 (length (vout tx))) ∅) as (r & -> & Hd & Hr); [set_solver|]. exists r. split_and!; [done|done|]. intros h. rewrite Hr. split.
  - intros [?|(i & t & Hi & E)]; [set_solver|]. exists i, t. split; [|done]. apply elem_of_seq in Hi. lia.
  - intros (i & t & Hi & E). right. exists i, t. split; [apply elem_of_seq; lia|done].
Qed.

Lemma removeRecursive_ok p tx : pool_inv p ->
  exists roots S p', removeRecursive tx p = Ok p' /\ removal_roots p tx roots /\ dependents p roots S /\ pool_inv p' /\ without S p p' /\ mapDeltas p' = mapDeltas p.
Proof.
  intros I. unfold removeRecursive, removal_roots. destruct (exists_tx p (GetHash tx)) eqn:E.
  - apply exists_tx_dom in E. rewrite bind_Ok. destruct (remove_dependents p {[ GetHash tx ]} I) as (S & p' & -> & Hp & H); [set_solver|]. rewrite bind_Ok. rewrite Hp. exists {[ GetHash tx ]}, S, p'. split; [reflexivity|]. split; [reflexivity|exact H].
  - destruct (spenders_of_spec p tx I) as (roots & -> & Hd & Hr). rewrite bind_Ok. destruct (remove_dependents p roots I Hd) as (S & p' & -> & Hp & H). rewrite bind_Ok. rewrite Hp. exists roots, S, p'. split; [reflexivity|]. split; [exact Hr|exact H].
Qed.

(** ** Conflicts with a transaction of a block *)

(** Two transactions that cannot both be in a chain. *)
Definition conflicts (tx t : CTransaction) : Prop :=
  GetHash t <> GetHash tx /\ ((exists o, o ∈ inputs_of tx /\ o ∈ inputs_of t) \/ exists n, n ∈ spent_nullifiers tx /\ n ∈ spent_nullifiers t).

(** What leaves because of [tx]: what conflicts with it or depends on such. *)
Definition out_of_conflict (p : CTxMemPool) (tx : CTransaction) (x : uint256) : Prop :=
  exists c t, rtc (parent_of p) x c /\ get p c = Some t /\ conflicts tx t.

Lemma out_of_conflict_mono S p p' tx x : without S p p' -> out_of_conflict p' tx x -> out_of_conflict p tx x.
Proof.
  intros W (c & t & Hr & Hg & Hc). exists c, t. split_and!; [|by apply (without_get_Some _ _ _ _ _ W)|done].
  eapply (rtc_congruence id); [|exact Hr]. intros u v. by apply (without_parent_of S).
Qed.

Lemma remove_conflict_ok p tx found : pool_inv p -> (forall t, found = Some t -> get p (GetHash t) = Some t /\ (GetHash t <> GetHash tx -> conflicts tx t)) ->
  exists S p', remove_conflict tx found p = Ok p' /\ pool_inv p' /\ without S p p' /\ (forall B, closed_but B p S) /\ (forall x, x ∈ S -> out_of_conflict p tx x) /\
    (forall t, found = Some t -> GetHash t <> GetHash tx -> get p' (GetHash t) = None).
Proof.
  intros I Hf. unfold remove_conflict. destruct found as [t|]; [|exists ∅, p; split_and!; [done|done|apply without_refl|intros B q x; set_solver|set_solver|done]].
  destruct (Hf t eq_refl) as [Hg Hc]. case_bool_decide as Hd; [exists ∅, p; split_and!; [done|done|apply without_refl|intros B q x; set_solver|set_solver|intros u [= <-]; done]|].
  destruct (removeRecursive_ok p t I) as (roots & S & p' & -> & Hr & HS & I' & W & _). rewrite bind_Ok. exists S, (ClearPrioritisation (GetHash t) p').
  assert (exists_tx p (GetHash t) = true) as Ex. { apply exists_tx_dom, elem_of_dom. unfold get in Hg. by destruct (mapTx p !! GetHash t). }
  unfold removal_roots in Hr. rewrite Ex in Hr. subst roots.
  split_and!; [done|by apply pool_inv_deltas|by apply without_deltas|intros B; by eapply dependents_closed| |].
  - intros x (h & ->%elem_of_singleton & Hx)%HS. exists (GetHash t), t. split_and!; [done|done|by apply Hc].
  - intros u [= <-] _. change (get p' (GetHash t) = None). rewrite (without_get _ _ _ _ W). rewrite decide_True; [done|]. apply HS. exists (GetHash t). split; [by apply elem_of_singleton|done].
Qed.

(** A loop that removes the conflicts found under a list of keys. *)
Lemma conflict_loop {K} `{Countable K} tx (spends : CTransaction -> list K) (look : CTxMemPool -> gmap K CTransaction) (l : list K) :
  (forall p, pool_inv p -> spent_by p spends (look p)) -> (forall o, o ∈ l -> o ∈ spends tx) ->
  (forall t o, GetHash t <> GetHash tx -> o ∈ spends tx -> o ∈ spends t -> conflicts tx t) -> forall p, pool_inv p ->
  exists S p', for_each (fun o p => remove_conflict tx (look p !! o) p) l p = Ok p' /\ pool_inv p' /\ without S p p' /\ (forall B, closed_but B p S) /\ (forall x, x ∈ S -> out_of_conflict p tx x) /\
    (forall h t o, get p' h = Some t -> h <> GetHash tx -> o ∈ l -> o ∉ spends t).
Proof.
  intros Hlook Hl Hcon. assert (Hkey : forall p h t, pool_inv p -> get p h = Some t -> GetHash t = h).
  { intros p h t I Hg. unfold get in Hg. destruct (mapTx p !! h) as [e|] eqn:E; [|done]. injection Hg as <-. apply (di_key _ (pi_data _ I) h e E). }
  induction l as [|o l IH]; intros p I; cbn [for_each]; [exists ∅, p; split_and!; [done|done|apply without_refl|intros B q x; set_solver|set_solver|set_solver]|].
  destruct (remove_conflict_ok p tx (look p !! o) I) as (S1 & p1 & E1 & I1 & W1 & C1 & O1 & G1).
  { intros t [Hg Ho]%(Hlook p I). split; [done|]. intros Hne. apply (Hcon t o); [done|apply Hl; left|done]. }
  rewrite E1, bind_Ok. destruct (IH ltac:(intros k Hk; apply Hl; by right) p1 I1) as (S2 & p2 & -> & I2 & W2 & C2 & O2 & G2).
  exists (S1 ∪ S2), p2. split_and!; [done|done|by eapply without_trans|intros B; by eapply closed_but_trans| |].
  - intros x [Hx|Hx]%elem_of_union; [by apply O1|]. eapply out_of_conflict_mono; [exact W1|by apply O2].
  - intros h t k Hg Hne [->|Hk]%elem_of_cons; [|by apply (G2 h t)]. intros Ho.
    destruct (without_get_Some _ _ _ _ _ W2 Hg) as [_ Hg1]. destruct (without_get_Some _ _ _ _ _ W1 Hg1) as [_ Hg0]. pose proof (Hkey p h t I Hg0) as <-.
    assert (look p !! o = Some t) as El by (by apply (Hlook p I)). rewrite (G1 t El Hne) in Hg1. done.
Qed.

Lemma removeConflicts_ok p tx : pool_inv p ->
  exists S p', removeConflicts tx p = Ok p' /\ pool_inv p' /\ without S p p' /\ (forall B, closed_but B p S) /\ (forall x, x ∈ S -> out_of_conflict p tx x) /\
    (forall h t, get p' h = Some t -> h <> GetHash tx -> ~ conflicts tx t).
Proof.
  intros I. unfold removeConflicts.
  destruct (conflict_loop tx inputs_of mapNextTx (inputs_of tx)) with p as (S1 & p1 & E1 & I1 & W1 & C1 & O1 & G1); [by intros q Iq; apply (di_spent _ (pi_data _ Iq))|done| |done|].
  { intros t o Hne H1 H2. split; [done|]. left. by exists o. }
  assert (Ef : for_each (fun i p => remove_conflict tx (mapNextTx p !! prevout i) p) (vin tx) p = Ok p1).
  { rewrite <- E1. unfold inputs_of. generalize p. induction (vin tx) as [|i l IHl]; intros q; cbn [for_each map]; [done|].
    destruct (remove_conflict tx (mapNextTx q !! prevout i) q) as [q'| | |]; [apply IHl|done..]. }
  rewrite Ef, bind_Ok.
  destruct (conflict_loop tx spent_nullifiers mapSaplingNullifiers (spent_nullifiers tx)) with p1 as (S2 & p2 & E2 & I2 & W2 & C2 & O2 & G2); [by intros q Iq; apply (di_nullifiers _ (pi_data _ Iq))|done| |done|].
  { intros t n Hne H1 H2. split; [done|]. right. by exists n. }
  exists (S1 ∪ S2), p2. split_and!; [done|done|by eapply without_trans|intros B; by eapply closed_but_trans| |].
  - intros x [Hx|Hx]%elem_of_union; [by apply O1|]. eapply out_of_conflict_mono; [exact W1|by apply O2].
  - intros h t Hg Hne (_ & [(o & H1 & H2)|(n & H1 & H2)]); [|by apply (G2 h t n Hg Hne)].
    destruct (without_get_Some _ _ _ _ _ W2 Hg) as [_ Hg1]. by apply (G1 h t o Hg1 Hne).
Qed.

(** ** A block is connected *)

(** What a transaction of the block depends on in the pool is before it in the
    block. *)
Definition parents_first (p : CTxMemPool) (vtx : list CTransaction) : Prop :=
  forall i tx x, vtx !! i = Some tx -> x ∈ parents_in p (GetHash tx) -> exists j tx', (j < i)%nat /\ vtx !! j = Some tx' /\ GetHash tx' = x.

Lemma removeForBlock_step p tx : pool_inv p -> parents_in p (GetHash tx) = ∅ ->
  exists S p', (p ← (if exists_tx p (GetHash tx) then RemoveStaged {[ GetHash tx ]} true p else Ok p); p ← removeConflicts tx p; Ok (ClearPrioritisation (GetHash tx) p)) = Ok p' /\
    pool_inv p' /\ without S p p' /\ closed_but (eq (GetHash tx)) p S /\ (forall x, x ∈ S -> x = GetHash tx \/ out_of_conflict p tx x) /\
    get p' (GetHash tx) = None /\ (forall h t, get p' h = Some t -> ~ conflicts tx t).
Proof.
  intros I HP. assert (Hkeep : forall p', get p' (GetHash tx) = None -> forall h t, get p' h = Some t -> h <> GetHash tx) by (intros p' Hn h t Hg ->; congruence).
  assert (exists S1 p1, (if exists_tx p (GetHash tx) then RemoveStaged {[ GetHash tx ]} true p else Ok p) = Ok p1 /\ pool_inv p1 /\ without S1 p p1 /\ S1 ⊆ {[ GetHash tx ]} /\ get p1 (GetHash tx) = None) as (S1 & p1 & -> & I1 & W1 & HS1 & G1).
  { destruct (exists_tx p (GetHash tx)) eqn:E.
    - apply exists_tx_dom in E. destruct (RemoveStaged_ok p {[ GetHash tx ]} true I) as (p1 & -> & I1 & W1 & _).
      + split; [set_solver|]. right. split; [done|]. intros s q ->%elem_of_singleton. rewrite HP. set_solver.
      + exists {[ GetHash tx ]}, p1. split_and!; try done. rewrite (without_get _ _ _ _ W1). by rewrite decide_True by (by apply elem_of_singleton).
    - exists ∅, p. split_and!; [done|done|apply without_refl|set_solver|]. unfold exists_tx in E. apply bool_decide_eq_false, eq_None_not_Some in E. unfold get. by rewrite E. }
  rewrite bind_Ok. destruct (removeConflicts_ok p1 tx I1) as (S2 & p2 & -> & I2 & W2 & C2 & O2 & G2). rewrite bind_Ok. exists (S1 ∪ S2), (ClearPrioritisation (GetHash tx) p2).
  assert (Hn : get p2 (GetHash tx) = None) by (rewrite (without_get _ _ _ _ W2); by case_decide).
  split_and!; [done|by apply pool_inv_deltas|by apply without_deltas; eapply without_trans|eapply closed_but_trans; [|exact W1|done]| |done|].
  - intros q x Hq _. right. set_solver.
  - intros x [Hx|Hx]%elem_of_union; [left; apply HS1 in Hx; by apply elem_of_singleton in Hx|right]. eapply out_of_conflict_mono; [exact W1|by apply O2].
  - intros h t Hg. change (get p2 h = Some t) in Hg. apply (G2 h t Hg). by apply (Hkeep p2 Hn h t).
Qed.

(** What a block leaves out of the pool. *)
Lemma removeForBlock_ok p vtx : pool_inv p -> parents_first p vtx ->
  exists S p', removeForBlock vtx p = Ok p' /\ pool_inv p' /\ without S p p' /\ closed_but (fun q => q ∈ map GetHash vtx) p S /\
    (forall x, x ∈ S -> exists tx, tx ∈ vtx /\ (x = GetHash tx \/ out_of_conflict p tx x)) /\
    (forall tx, tx ∈ vtx -> get p' (GetHash tx) = None /\ forall h t, get p' h = Some t -> ~ conflicts tx t).
Proof.
  revert p. unfold removeForBlock. induction vtx as [|tx vtx IH]; intros p I HP; cbn [for_each]; [exists ∅, p; split_and!; [done|done|apply without_refl|intros q x; set_solver|set_solver|set_solver]|].
  destruct (removeForBlock_step p tx I) as (S1 & p1 & -> & I1 & W1 & C1 & O1 & N1 & G1).
  { apply set_eq. intros x. split; [|set_solver]. intros Hx. destruct (HP O tx x eq_refl Hx) as (j & _ & Hj & _). lia. }
  rewrite bind_Ok. destruct (IH p1 I1) as (S2 & p2 & -> & I2 & W2 & C2 & O2 & G2).
  { intros i u x Hi Hx. pose proof (parents_in_dom _ _ _ Hx) as [Hu Hxd]. rewrite (without_parents _ _ _ _ W1 Hu) in Hx. apply elem_of_difference in Hx as [Hx _].
    destruct (HP (S i) u x Hi Hx) as ([|j] & u' & Hj & Hl & Hh); [|exists j, u'; split_and!; [lia|done|done]]. cbn in Hl. injection Hl as <-.
    apply elem_of_dom in Hxd as [e He]. unfold get in N1. rewrite Hh, He in N1. done. }
  exists (S1 ∪ S2), p2. split_and!; [done|done|by eapply without_trans| | |].
  - eapply closed_but_trans; [eapply closed_but_mono; [|exact C1]|exact W1|eapply closed_but_mono; [|exact C2]].
    + intros q <-. cbn [map]. left.
    + intros q Hq. cbn [map]. by right.
  - intros x [Hx|Hx]%elem_of_union; [exists tx; split; [left|by apply O1]|]. destruct (O2 x Hx) as (u & Hu & [->|Ho]); exists u; (split; [by right|]); [by left|right]. by eapply out_of_conflict_mono.
  - intros u [->|Hu]%elem_of_cons; [|by apply G2]. split; [rewrite (without_get _ _ _ _ W2); by case_decide|]. intros h t Hg. apply (G1 h t). by apply (without_get_Some _ _ _ _ _ W2).
Qed.

(** C6: when a block is connected whose transactions come after those of the
    pool that they spend, [removeForBlock] succeeds and leaves the pool
    consistent.  What stays was there, is not in the block, and shares no
    outpoint and no nullifier with a transaction of the block.  What conflicts with
    a transaction of the block, and is not in the block itself, leaves with
    everything that depends on it.  Nothing else leaves: what leaves is in the
    block, conflicts with it, or depends on something that does. *)
Theorem removeForBlock_clears p vtx : pool_inv p -> parents_first p vtx ->
  exists p', removeForBlock vtx p = Ok p' /\ pool_inv p' /\
    (forall h t, get p' h = Some t -> get p h = Some t /\ forall tx, tx ∈ vtx -> h <> GetHash tx /\ ~ conflicts tx t) /\
    (forall tx c t h, tx ∈ vtx -> get p c = Some t -> conflicts tx t -> c ∉ map GetHash vtx -> rtc (parent_of p) h c -> get p' h = None) /\
    (forall h t, get p h = Some t -> get p' h = None -> exists tx, tx ∈ vtx /\ (h = GetHash tx \/ out_of_conflict p tx h)).
Proof.
  intros I HP. destruct (removeForBlock_ok p vtx I HP) as (S & p' & E & I' & W & HC & HS & HG). exists p'. split_and!; [done|done| | |].
  - intros h t Hg. split; [by apply (without_get_Some _ _ _ _ _ W)|]. intros tx Htx. destruct (HG tx Htx) as [H1 H2]. split; [congruence|by apply (H2 h)].
  - intros tx c t h Htx Hc Hconf Hout Hr. enough (h ∈ S /\ h ∉ map GetHash vtx) as [Hin _] by (rewrite (without_get _ _ _ _ W); by case_decide).
    induction Hr as [c|h y c Hhy Hr IH].
    + split; [|done]. destruct (decide (c ∈ S)) as [|Hn]; [done|]. destruct (HG tx Htx) as [_ Hno]. destruct (Hno c t); [|done]. rewrite (without_get _ _ _ _ W). by case_decide.
    + destruct (IH Hc Hout) as [HyS Hyo]. split; [by destruct (HC y h HyS Hhy)|]. intros (u & Hu & Hin)%list_elem_of_fmap. apply list_elem_of_lookup in Hin as [i Hi].
      apply parent_of_in in Hhy. rewrite Hu in Hhy. destruct (HP i u y Hi Hhy) as (j & u' & _ & Hj & Hh). apply Hyo. rewrite <- Hh. apply list_elem_of_fmap. exists u'. split; [done|by eapply list_elem_of_lookup_2].
  - intros h t Hg Hn. apply HS. rewrite (without_get _ _ _ _ W) in Hn. case_decide; [done|congruence].
Qed.

(** ** Old transactions and lost anchors *)

Lemma Expire_removes p time : pool_inv p ->
  exists k p' S roots, Expire time p = Ok (k, p') /\ k = i32 (Z.of_nat (size S)) /\ pool_inv p' /\ without S p p' /\ dependents p roots S /\
    (forall h, h ∈ roots <-> exists e, mapTx p !! h = Some e /\ entryTime e < time).
Proof.
  intros I. unfold Expire. set (roots := dom _ : gset uint256). assert (HR : forall h, h ∈ roots <-> exists e, mapTx p !! h = Some e /\ entryTime e < time).
  { intros h. unfold roots. rewrite elem_of_dom. split; [intros [e [He Ht]%map_lookup_filter_Some]; by exists e|intros (e & He & Ht); exists e; by apply map_lookup_filter_Some]. }
  destruct (remove_dependents p roots I) as (S & p' & -> & E & HS & I' & W & _); [intros h (e & He & _)%HR; apply elem_of_dom; by exists e|]. rewrite bind_Ok, E, bind_Ok.
  exists (i32 (Z.of_nat (size S))), p', S, roots. done.
Qed.

Lemma removeWithAnchor_removes p root : pool_inv p ->
  exists S p', removeWithAnchor root p = Ok p' /\ pool_inv p' /\ without S p p' /\
    (forall h t d, get p' h = Some t -> IsShieldedTx t = true -> sapData t = Some d -> forall sd, sd ∈ vShieldedSpend d -> anchor sd <> root).
Proof.
  intros I. unfold removeWithAnchor. set (from := fun e : CTxMemPoolEntry => IsShieldedTx (e_tx e) && existsb (fun sd => bool_decide (anchor sd = root)) (match sapData (e_tx e) with Some d => vShieldedSpend d | None => [] end)).
  cbv zeta. set (l := map (fun x : uint256 * CTxMemPoolEntry => e_tx x.2) _).
  assert (G : forall l p, pool_inv p -> exists S p', for_each removeRecursive l p = Ok p' /\ pool_inv p' /\ without S p p' /\ forall t, t ∈ l -> get p' (GetHash t) = None).
  { clear. induction l as [|t l IH]; intros p I; cbn [for_each]; [exists ∅, p; split_and!; [done|done|apply without_refl|set_solver]|].
    destruct (removeRecursive_ok p t I) as (roots & S1 & p1 & -> & Hr & HS & I1 & W1 & _). rewrite bind_Ok. destruct (IH p1 I1) as (S2 & p2 & -> & I2 & W2 & G2).
    exists (S1 ∪ S2), p2. split_and!; [done|done|by eapply without_trans|]. intros u [->|Hu]%elem_of_cons; [|by apply G2]. rewrite (without_get _ _ _ _ W2), (without_get _ _ _ _ W1).
    case_decide; [done|]. case_decide as HnS; [done|]. unfold removal_roots in Hr. unfold get. destruct (exists_tx p (GetHash t)) eqn:E; [|unfold exists_tx in E; by apply bool_decide_eq_false, eq_None_not_Some in E as ->].
    exfalso. apply HnS, HS. exists (GetHash t). subst roots. split; [by apply elem_of_singleton|done]. }
  destruct (G l p I) as (S & p' & -> & I' & W & HG). exists S, p'. split_and!; [done|done|done|]. intros h t d Hg Hsh Hd sd Hsd Ha.
  destruct (without_get_Some _ _ _ _ _ W Hg) as [_ Hg0]. unfold get in Hg0. destruct (mapTx p !! h) as [e|] eqn:E; [|done]. injection Hg0 as <-.
  destruct (di_key _ (pi_data _ I) h e E) as [Ek _]. assert (Hl : e_tx e ∈ l).
  { unfold l. apply list_elem_of_fmap. exists (h, e). split; [done|]. apply list_elem_of_filter. split; [|by apply elem_of_map_to_list]. unfold from. cbn [snd]. rewrite Hsh, Hd. cbn [andb].
    apply existsb_exists. exists sd. split; [by apply list_elem_of_In|]. by apply bool_decide_eq_true. }
  specialize (HG _ Hl). fold (e_hash e) in HG. rewrite Ek in HG. congruence.
Qed.

(** ** At an instance *)

(** A block with [rival], which spends what [parent] spends. *)
Lemma rival_first : parents_first Toy.two [Toy.rival].
Proof.
  intros i tx x Hi Hx. apply list_lookup_singleton_Some in Hi as [_ <-].
  apply parents_in_dom in Hx as [Hx _]. exfalso. apply elem_of_dom in Hx as [e He]. destruct Toy.two_ok as [_ G]. specialize (G (GetHash Toy.rival)). unfold get in G. rewrite He in G.
  destruct Toy.hashes as (_ & _ & _ & H4 & H5 & _). by rewrite !decide_False in G.
Qed.
Lemma removeForBlock_clears_witness : exists p', removeForBlock [Toy.rival] Toy.two = Ok p' /\ pool_inv p' /\
    (forall h t, get p' h = Some t -> get Toy.two h = Some t /\ forall tx, tx ∈ [Toy.rival] -> h <> GetHash tx /\ ~ conflicts tx t) /\
    (forall tx c t h, tx ∈ [Toy.rival] -> get Toy.two c = Some t -> conflicts tx t -> c ∉ map GetHash [Toy.rival] -> rtc (parent_of Toy.two) h c -> get p' h = None) /\
    (forall h t, get Toy.two h = Some t -> get p' h = None -> exists tx, tx ∈ [Toy.rival] /\ (h = GetHash tx \/ out_of_conflict Toy.two tx h)).
Proof. exact (removeForBlock_clears Toy.two [Toy.rival] (proj1 Toy.two_ok) rival_first). Defined.

(** ** What the code leaves behind *)

(** The fee of [parent] is raised by 1000: [child] still counts the old one among
    the fees of its ancestors. *)
Lemma PrioritiseTransaction_stale : exists p' a c, PrioritiseTransaction (GetHash Toy.parent) 1000 Toy.two = Ok p' /\
  mapTx p' !! GetHash Toy.parent = Some a /\ mapTx p' !! GetHash Toy.child = Some c /\
  modified_fee a = 1002 /\ modified_fee c = 3 /\ nModFeesWithDescendants a = 1005 /\ nModFeesWithAncestors c = 5.
Proof.
  assert (E : match PrioritiseTransaction (GetHash Toy.parent) 1000 Toy.two with
    | Ok p' => match mapTx p' !! GetHash Toy.parent, mapTx p' !! GetHash Toy.child with
               | Some a, Some c => (modified_fee a, modified_fee c, nModFeesWithDescendants a, nModFeesWithAncestors c) = (1002, 3, 1005, 5)
               | _, _ => False end
    | _ => False end) by (vm_compute; reflexivity).
  destruct (PrioritiseTransaction _ _ _) as [p'| | |]; [|done..]. destruct (mapTx p' !! GetHash Toy.parent) as [a|] eqn:Ea; [|done]. destruct (mapTx p' !! GetHash Toy.child) as [c|] eqn:Ec; [|done].
  injection E as E1 E2 E3 E4. exists p', a, c. split_and!; [reflexivity|exact Ea|exact Ec|exact E1|exact E2|exact E3|exact E4].
Qed.

(** [clear] forgets the transactions but not the nullifiers they spent. *)
Lemma clear_keeps_nullifiers p n : nullifierExists (clear p) n = nullifierExists p n /\ forall h, get (clear p) h = None.
Proof. split; [reflexivity|]. intros h. unfold get. cbn [mapTx clear]. by rewrite lookup_empty. Qed.

(** A block is disconnected whose transaction [parent] has [child] in the pool:
    [UpdateTransactionsFromBlock] makes up for the order. *)
Lemma UpdateTransactionsFromBlock_reorders :
  (p ← addUnchecked (GetHash Toy.child) (Toy.entry_of Toy.child 3) CTxMemPool_new; p ← addUnchecked (GetHash Toy.parent) (Toy.entry_of Toy.parent 2) p;
   p ← UpdateTransactionsFromBlock [GetHash Toy.parent] p; Ok (map_to_list (mapTx p), map_to_list (mapLinks p), cachedInnerUsage p)) =
  Ok (map_to_list (mapTx Toy.two), map_to_list (mapLinks Toy.two), cachedInnerUsage Toy.two).
Proof. vm_compute. reflexivity. Qed.
